(* ===== verification/_CoqProject ===== *)
-Q . S2P
Prelude.v
CMem.v
Words.v
Ctype.v
MemFuncs.v
Periods.v
Memmem.v
StrScan.v
StrTok.v
StrCmp.v
StrCopy.v
StrToNum.v
Calendar.v
TimeFmt.v
MkTime.v
DList.v
WmemBlock.v
WmemLists.v
WmemLayout.v
WmemHeap.v
WmemSplit.v
WmemInv.v
WmemAlloc.v
WmemRealloc.v
WmemClient.v
Sort.v
TreeSearch.v
Malloc.v
HashMap.v
HashMapOps.v
Fds.v
Stdio.v
StdioSpec.v
StdioWrite.v
StdioRead.v
StdioInput.v
StdioSeek.v
StdioFwrite.v
StdioSession.v
Printf.v
PrintfDigits.v
PrintfParse.v
PrintfOut.v
PrintfSpec.v
PrintfFormat.v
PrintfSession.v
WmemTree.v
WmemTreeRep.v
WmemTreeRB.v
WmemTreeRemove.v
WmemTreeSearch.v
WmemTreeNear.v
WmemTreeOps.v
WmemTreeForest.v
WmemTreeWalk.v
WmemTreeSession.v
WmemTreeString.v
WmemStrings.v
Threads.v
Pthread.v
PthreadMachine.v
PthreadMonitor.v
PthreadRules.v
PthreadBarrier.v
PthreadRounds.v
PthreadInit.v
PthreadSem.v
PthreadOnce.v
PthreadMutex.v
