(* ===== verification/Prelude.v ===== *)
(** * clib4: a verification library for the C runtime library of AmigaOS 4

    clib4 is the C library of AmigaOS 4 on 32-bit PowerPC.  Its sources are under
    src/library, one directory per part of the C library.  This development
    models the parts that carry its own logic and proves what they promise.

    ** The model

    The target is big endian; [int], [long], [size_t] and pointers are 32 bits
    wide, [long long] 64 bits, [char] is unsigned and [time_t] is a 32-bit signed
    integer.  Builds define NDEBUG, so [assert] does nothing.  Integers are [Z],
    with the conversions [u8] ... [s64] of this file written where C converts.

    C code is a function in the state monad [M] of this file.  A computation
    returns ([Ok]), performs an access that C leaves undefined ([Fault]), or needs
    more iterations of a loop than [FUEL] ([NoFuel]).  [FUEL] is 2^33: no loop over
    a 32-bit address space needs as many, and every theorem that says what a
    function returns also says that it is neither [Fault] nor [NoFuel] ([wp] is
    false on both), or names the only reason for which it can fault ([wpx]).

    Memory is modelled at two levels.  CMem.v is a map from addresses to bytes
    with errno, for the functions on strings and blocks, where alignment, words
    and overlap matter.  WmemBlock.v has a map per struct type for the allocator,
    where the pointers between headers matter; that structs in use do not overlap
    is proved (WmemClient.reachable_metadata), not assumed.

    What is not C code of the library is a class with the laws its documentation
    states: [Strchr] (StrScan.v, the assembler strchr), [Utility] (MkTime.v,
    Amiga2Date and Date2Amiga of utility.library) and [Exec] (WmemBlock.v,
    AllocVecTags of exec).  So are the functions that a caller passes:
    [Comparator] (Sort.v), the order of the keys and [NodeAlloc] (TreeSearch.v),
    [CompareFunc] (WmemTreeString.v), the hash function and the comparison of a hash map (HashMap.v).  The files
    behind the descriptors are the class [Dos] (Fds.v, dos.library): a call does
    what it is asked for or fails.  Mutexes, semaphores and signals of exec are the
    class [ExecSync] (Pthread.v): each call does what is documented on the part of
    its state that programs can see ([Sync.xview]).
    The class [wmem_allocator] (Malloc.v) is the interface between malloc and an
    allocator; the block allocator is an instance.  What the trees of wmem need of
    an allocator are [WmemNew] (WmemTree.v, nodes) and [WmemBytes] (WmemStrings.v,
    copies of keys), and of exec [ExecCopy] (WmemStrings.v, CopyMem).  Each class has an instance in
    its file or in the file of the witnesses.

    Threads are programs ([prog], Threads.v) whose actions on the shared state
    interleave in any order; an action may block.  Every access to a shared object
    and every call of exec is an action of its own.  Theorems about threads speak of
    all states that a pool of threads reaches ([reachable]), with signals from
    outside, and of those in which no thread can go on ([stuck]).  They are proved
    by a judgement on one thread ([safe]) that has a ghost state per thread and an
    invariant; it is indexed by a number of steps, and [adequacy] takes it to all of
    them.  There is no fuel in these theorems.

    ** Files

    - Prelude.v: integers, the monad, loops, [wp], [wpx], tactics, lists.
    - CMem.v: bytes, words, strings in memory.
    - Words.v: string_headers.h and the tests on four bytes at a time.
    - Ctype.v: ctype/, the table and every function over it.
    - MemFuncs.v: string/memchr.c, memcmp.c, memccpy.c, mempcpy.c, memrchr.c.
    - Periods.v: periods and maximal suffixes of words, the theory behind two-way
      matching.  Memmem.v: string/memmem.c.
    - StrScan.v: string/strlen.c, strnlen.c, strchrnul.c, strchr.c, strrchr.c,
      strstr.c, strspn.c, strcspn.c, strpbrk.c.
    - StrTok.v: string/strtok_r.c, strtok.c, strsep.c.
    - StrCmp.v: string/strcmp.c, strncmp.c, strings_strcasecmp.c,
      strings_strncasecmp.c, strverscmp.c, strcoll.c, strxfrm.c, strnstr.c.
    - StrCopy.v: string/strcpy.c, stpcpy.c, strncpy.c, strlcpy.c, strlcat.c,
      strncat.c, stccpy.c.
    - StrToNum.v: stdlib/strtol.c, strtoul.c, strtoll.c, strtoull.c and
      inttypes/strtoimax.c, strtoumax.c, one algorithm at several widths.
    - Calendar.v: time/convert_time.c, timegm.c, weekday.c, days_per_date.c and
      the ISO weeks of strftime.c.
    - TimeFmt.v: time/numbertostring.c and strftime.c.
    - MkTime.v: time/converttime.c, gmtime_r.c, localtime_r.c, mktime.c.
    - DList.v: doubly linked lists in a heap, for the allocator.
    - WmemBlock.v: wmem/wmem_allocator_block.c, every operation of the allocator.
    - WmemLists.v: the master list and the recycler as functions on lists.
    - WmemLayout.v: how chunks tile blocks; splitting and merging chunks.
    - WmemHeap.v: the invariant [heap_ok] of chunks and free lists;
      wmem_block_merge_free.
    - WmemSplit.v: wmem_block_split_free_chunk and wmem_block_split_used_chunk.
    - WmemInv.v: the invariant [winv] of the allocator with its allocations.
    - WmemAlloc.v, WmemRealloc.v: wmem_block_alloc, wmem_block_free and
      wmem_block_realloc keep [winv].
    - WmemClient.v: the states that clients reach, a concrete exec, witnesses.
    - Malloc.v: stdlib/malloc.c, calloc.c, free.c, realloc.c, aligned_alloc.c,
      posix_memalign.c, posix/memalign.c and the dispatch of wmem/wmem_core.c.
    - Sort.v: stdlib/qsort.c and bsearch.c.
    - TreeSearch.v: search/tsearch.c, tfind.c, tdelete.c, twalk.c, tdestroy.c.
    - HashMap.v, HashMapOps.v: misc/map.c, the Robin Hood hash map.
    - WmemTree.v: wmem/wmem_tree.c, red-black trees whose nodes point to their
      parents; keys are integers, arrays of words or compared by a function.
    - WmemTreeRep.v: trees with their addresses, when they are in the heap
      ([repr]), contexts with a hole, rotations.  WmemTreeRB.v: the red-black
      invariant and insertion.  WmemTreeRemove.v: removal.  WmemTreeSearch.v,
      WmemTreeNear.v: lookups.  WmemTreeOps.v: a key in a tree.
      WmemTreeForest.v: the trees of a heap as finite maps.  WmemTreeWalk.v:
      height, walks, destruction.  WmemTreeSession.v: programs over trees.
      WmemTreeString.v: keys that a comparison function compares.
      WmemStrings.v: trees of strings, with string/memcpy.c and wmem_strdup of
      wmem/wmem_strutl.c over the comparisons of StrCmp.v.
    - Fds.v: reading, writing and seeking on a descriptor (stdio/fdhookentry.c,
      get_file_descriptor.c, iobhookentry.c, grow_file.c, fcntl/read.c, write.c).
    - Stdio.v: the buffers of the streams and the operations on them (stdio/).
    - StdioSpec.v: the invariant of a stream, the file that the program sees,
      flushing and dropping the buffer.
    - StdioWrite.v, StdioFwrite.v: fputc, fputs, fflush and fwrite.
    - StdioRead.v, StdioInput.v: fgetc, ungetc, fgets and fread.
    - StdioSeek.v: ftell and fseek.  StdioSession.v: writing and reading back.
    - Printf.v: stdio/vfprintf.c, with the state table of
      wchar/wchar_wprintf_core.h.
    - PrintfDigits.v: the digits of numbers.  PrintfParse.v: the parser of a
      conversion specification.  PrintfOut.v: out, pad and what is left of a
      stream after an error.  PrintfSpec.v: a reference for each conversion.
      PrintfFormat.v: formats.  PrintfSession.v: vfprintf and its defects.
    - Threads.v: programs, interleaving, the judgement [safe].
    - Pthread.v: pthread/: mutexes, condition variables, barriers, semaphores, spin
      locks, cleanup handlers and pthread_once.  PthreadMachine.v: a concrete exec
      and schedulers, for the witnesses.
    - PthreadMonitor.v, PthreadRules.v: the logic of a mutex with a condition
      variable and data, and rules for the calls.  PthreadBarrier.v,
      PthreadRounds.v: pthread_barrier_wait.  PthreadSem.v: semaphore.c.
      PthreadOnce.v: pthread_once.c.  PthreadMutex.v: critical sections.
      PthreadInit.v: initialisation and destruction.

    ** What the theorems show

    - The string functions compute what a byte-by-byte definition computes, for
      every alignment, and write nothing else; bounded copies stay in bounds.
    - memmem finds the first occurrence of its needle: the critical position that it
      computes is one, and no skip of its search passes over an occurrence.
    - A sequence of calls of strtok_r or strsep returns the tokens or the fields of
      the string.  The comparisons return the first difference; strverscmp orders
      the numbers in the strings, and is antisymmetric.
    - ctype agrees with the predicates of the C locale; the strto functions
      return the value of the digits wherever it fits.
    - __secs_to_tm and __tm_to_secs are inverse to each other and agree with an
      independent definition of the Gregorian calendar; so do the weekday, the
      ISO week, timegm, gmtime_r, localtime_r and mktime, within their ranges;
      strftime never overruns its buffer.
    - The allocator: in every state that a sequence of allocations, frees and
      reallocations reaches (alignments are powers of two, and no 32-bit sum of
      sizes wraps), allocations are disjoint, lie in memory of exec and overlap no
      header and no free chunk, headers agree with their neighbours, no two free
      chunks are neighbours, and the next operation returns; it can fault only when
      exec has no memory for a block, or when a reallocation that moves reads past
      the memory of exec.  A jumbo allocation asked to grow keeps its old size, and
      a reallocation that finds no memory to move to has freed the allocation.  The recycler's rotation brings a largest chunk
      to the head, as the design notes say.
    - malloc and its relatives refine operations on the finite map of allocations,
      over any allocator that keeps the interface, and fail as documented.
    - qsort returns and permutes the elements for every comparison function, and
      sorts arrays of less than seven elements or without equal elements; bsearch
      finds an element of an ordered array.
    - The trees of tsearch refine the sorted list of their keys; twalk visits the
      keys in order and tdestroy frees every node once.
    - The hash map refines a finite map and its table invariant is kept through
      growing, shrinking and deleting; its walks visit every element once.
    - The red-black trees of wmem refine finite maps, whatever the order of
      insertions and removals, keep their colours and with them the bound of
      2 log2 (n + 1) + 1 rounds of a search, and do not touch the nodes of other
      trees; trees of strings map strings, up to case if they are to; searches for the
      nearest key find it, walks visit the keys in order, and destroying a tree
      frees each of its nodes once.
    - A stream behaves like the file that the program sees, which is the file on
      the disk with the bytes that wait in the buffer: writing replaces bytes at
      the position, reading returns the bytes from the position on, seeking moves
      it, in every buffer mode and whatever is in the buffer; a failure sets the
      error indicator and errno.  What is written is read back.
    - vfprintf prints what the format and its arguments stand for and returns its
      length, for text, [%%] and the conversions of integers, characters, strings
      and pointers with all flags, widths and precisions; the digits it stores are
      read back by strtoumax.
    - Threads at a barrier: nobody leaves a round before it is full, each round has
      one serial thread, no wake-up is lost, and as many threads as the barrier
      counts never deadlock.  A mutex keeps critical sections apart; pthread_once
      runs its routine once, and before any call returns; a semaphore never hands
      out more than it has.
    - Where the code does something else than it means to (strncpy's padding, the
      overflow tests of strtol, strxfrm's terminator, strnstr past its bound,
      strncmp of 2^31 characters, timegm beyond 2^31, "%e" and "%C" of strftime,
      reallocating jumbo allocations, malloc of almost 4 GB, qsort of equal
      elements, fwrite to a full buffer, %b of negative numbers and %ls in vfprintf,
      two posts to a semaphore in a row, mutexes with a static initialiser,
      error-checking mutexes, string keys without memory for their copy, stccpy to
      no bytes), a theorem states what it does.

    ** Not modelled

    Opening and closing of files, setvbuf, vfscanf; vfprintf to a
    memory buffer, floating point and positional arguments in it; locks between
    threads and the check for Ctrl-C in stdio; creating, joining and cancelling
    threads, waiting with a timeout, read-write locks and thread-specific data; wchar,
    sockets, the file system, math, regex, iconv and crypt; the hash functions of
    map.c; the other containers of wmem and its other allocators, red-black trees
    of arrays of words (their code is modelled, nothing is proved about it); the
    memory functions written in assembler; the self-checks
    wmem_block_verify_ of the allocator (debug builds only); the locale-dependent
    branches of strftime.  errno is not part of the allocator's state. *)

From stdpp Require Import base gmap list numbers.
From Stdlib Require Import Lia.

#[global] Open Scope Z_scope.

(** ** Machine integers

    The target is 32-bit PowerPC, big endian: [int], [long], [size_t] and
    pointers are 32 bits wide, [long long] is 64 bits wide and plain [char] is
    unsigned.  An unsigned value is a [Z] in [0, 2^w); the functions below are
    the conversions the C code performs implicitly. *)

Definition u8 (z : Z) : Z := z mod 256.
Definition u16 (z : Z) : Z := z mod 65536.
Definition u32 (z : Z) : Z := z mod 4294967296.
Definition u64 (z : Z) : Z := z mod 18446744073709551616.
Definition s32 (z : Z) : Z := (z + 2147483648) mod 4294967296 - 2147483648.
Definition s64 (z : Z) : Z :=
  (z + 9223372036854775808) mod 18446744073709551616 - 9223372036854775808.
Definition not32 (z : Z) : Z := 4294967295 - z.

Lemma u32_small z : 0 <= z < 4294967296 → u32 z = z.
Proof. apply Z.mod_small. Qed.
Lemma s32_small z : -2147483648 <= z < 2147483648 → s32 z = z.
Proof. intros Hz. unfold s32. rewrite Z.mod_small; lia. Qed.

(** The value of a C comparison or of [!]. *)
Definition b2z (b : bool) : Z := if b then 1 else 0.

(** ** Computations

    C code is a state-passing function that either returns, or performs an
    access that C leaves undefined ([Fault]), or needs more loop iterations
    than [FUEL] ([NoFuel]). *)

Inductive res (A : Type) : Type :=
| Ok (a : A)
| Fault
| NoFuel.
Arguments Ok {A} a.
Arguments Fault {A}.
Arguments NoFuel {A}.

Definition M (S A : Type) : Type := S -> res (A * S).

Section Monad.
Context {S : Type}.

Definition M_ret {A} (a : A) : M S A := fun σ => Ok (a, σ).

Definition M_bind {A B} (k : A -> M S B) (c : M S A) : M S B :=
  fun σ => match c σ with
           | Ok (a, σ') => k a σ'
           | Fault => Fault
           | NoFuel => NoFuel
           end.

Definition fault {A} : M S A := fun _ => Fault.
Definition no_fuel {A} : M S A := fun _ => NoFuel.
Definition get : M S S := fun σ => Ok (σ, σ).
Definition put (σ' : S) : M S unit := fun _ => Ok (tt, σ').
Definition modify (f : S -> S) : M S unit := fun σ => Ok (tt, f σ).
End Monad.

#[global] Instance M_mret {S} : MRet (M S) := fun A a => M_ret a.
#[global] Instance M_mbind {S} : MBind (M S) := fun A B k c => M_bind k c.

(** *** Loops

    A C loop is a body that maps the loop variables either to the variables of
    the next iteration ([continue]) or to a result ([break], [return]).
    [iter_fuel p] runs the body at most [p] times; the recursion is on the
    binary digits of [p], so that [FUEL], twice the number of bytes of a 32-bit
    address space, costs nothing when the loop ends early. *)

Definition FUEL : positive := Pos.pow 2 33.

Definition continue {S A B} (a : A) : M S (A + B) := mret (inl a).
Definition break {S A B} (b : B) : M S (A + B) := mret (inr b).

Fixpoint iter_fuel {S A B} (p : positive) (body : A -> M S (A + B)) (a : A)
  : M S (A + B) :=
  match p with
  | xH => body a
  | xO p' =>
      r ← iter_fuel p' body a;
      match r with
      | inl a' => iter_fuel p' body a'
      | inr b => break b
      end
  | xI p' =>
      r ← body a;
      match r with
      | inl a' =>
          r' ← iter_fuel p' body a';
          match r' with
          | inl a'' => iter_fuel p' body a''
          | inr b => break b
          end
      | inr b => break b
      end
  end.

Definition loop {S A B} (body : A -> M S (A + B)) (a : A) : M S B :=
  r ← iter_fuel FUEL body a;
  match r with
  | inl _ => no_fuel
  | inr b => mret b
  end.

(** *** Early returns

    [x ⇐ c; k] runs [c]; [inl b] is a [return b] of the enclosing function (or a
    [goto] to its end), [inr a] goes on with [k a]. *)

Definition early {S A B} (c : M S (B + A)) (k : A -> M S B) : M S B :=
  r ← c;
  match r with
  | inl b => mret b
  | inr a => k a
  end.

Notation "x ⇐ c ; k" := (early c (fun x => k))
  (at level 20, c at level 100, k at level 200, only parsing) : stdpp_scope.
Notation "' x ⇐ c ; k" := (early c (fun x => k))
  (at level 20, x pattern, c at level 100, k at level 200, only parsing) : stdpp_scope.

Definition return_ {S A B} (b : B) : M S (B + A) := mret (inl b).
Definition go_on {S A B} (a : A) : M S (B + A) := mret (inr a).

(** ** Total correctness

    [wp c Q σ]: run from [σ], [c] returns, and the result and the final state
    satisfy [Q].  A fault or an exhausted loop satisfies no postcondition. *)

Definition wp {S A} (c : M S A) (Q : A -> S -> Prop) (σ : S) : Prop :=
  match c σ with
  | Ok (a, σ') => Q a σ'
  | _ => False
  end.

Section Wp.
Context {S : Type}.
Implicit Types σ : S.

Lemma wp_eq {A} (c : M S A) a σ σ' :
  wp c (fun x τ => x = a ∧ τ = σ') σ ↔ c σ = Ok (a, σ').
Proof.
  unfold wp. destruct (c σ) as [[x τ]| |]; split; try done.
  - by intros [-> ->].
  - by intros [= -> ->].
Qed.

Lemma wp_mono {A} (c : M S A) (P Q : A -> S -> Prop) σ :
  wp c P σ → (∀ a τ, P a τ → Q a τ) → wp c Q σ.
Proof. unfold wp. destruct (c σ) as [[x τ]| |]; eauto. Qed.

Lemma wp_ret {A} (a : A) (Q : A -> S -> Prop) σ :
  Q a σ → wp (mret a) Q σ.
Proof. done. Qed.

Lemma wp_bind {A B} (c : M S A) (k : A -> M S B) Q σ :
  wp c (fun a τ => wp (k a) Q τ) σ → wp (c ≫= k) Q σ.
Proof. unfold wp, mbind, M_mbind, M_bind. by destruct (c σ) as [[x τ]| |]. Qed.

(** Running a computation whose outcome is known. *)
Lemma wp_bind_ok {A B} (c : M S A) (k : A -> M S B) Q σ a τ :
  c σ = Ok (a, τ) → wp (k a) Q τ → wp (c ≫= k) Q σ.
Proof. intros H1 H2. apply wp_bind. unfold wp. by rewrite H1. Qed.

Lemma wp_get (Q : S -> S -> Prop) σ : Q σ σ → wp get Q σ.
Proof. done. Qed.
Lemma wp_put (Q : unit -> S -> Prop) σ σ' : Q tt σ' → wp (put σ') Q σ.
Proof. done. Qed.
Lemma wp_modify (Q : unit -> S -> Prop) f σ : Q tt (f σ) → wp (modify f) Q σ.
Proof. done. Qed.
Lemma wp_continue {A B} (a : A) (Q : A + B -> S -> Prop) σ :
  Q (inl a) σ → wp (continue a) Q σ.
Proof. done. Qed.
Lemma wp_break {A B} (b : B) (Q : A + B -> S -> Prop) σ :
  Q (inr b) σ → wp (break b) Q σ.
Proof. done. Qed.

Lemma wp_early {A B} (c : M S (B + A)) (k : A -> M S B) Q σ :
  wp c (fun r τ => match r with inl b => Q b τ | inr a => wp (k a) Q τ end) σ →
  wp (early c k) Q σ.
Proof.
  intros H. unfold early. apply wp_bind. eapply wp_mono; [done|].
  by intros [b|a] τ.
Qed.
Lemma wp_return {A B} (b : B) (Q : B + A -> S -> Prop) σ :
  Q (inl b) σ → wp (return_ b) Q σ.
Proof. done. Qed.
Lemma wp_go_on {A B} (a : A) (Q : B + A -> S -> Prop) σ :
  Q (inr a) σ → wp (go_on a) Q σ.
Proof. done. Qed.

Lemma wp_if {A} (b : bool) (c d : M S A) Q σ :
  (b = true → wp c Q σ) → (b = false → wp d Q σ) →
  wp (if b then c else d) Q σ.
Proof. destruct b; auto. Qed.

Section GhostLoop.
Context {A B G : Type} (body : A -> M S (A + B)).
Context (I : G -> A -> S -> Prop) (Q : B -> S -> Prop) (μ : G -> Z).
Context (Hbody : ∀ g a σ, I g a σ →
  wp (body a)
     (fun r τ => match r with
                 | inl a' => ∃ g', I g' a' τ ∧ μ g' < μ g
                 | inr b => Q b τ
                 end) σ).

Lemma wp_iter_fuel p g a σ :
  I g a σ →
  wp (iter_fuel p body a)
     (fun r τ => match r with
                 | inl a' => ∃ g', I g' a' τ ∧ μ g' + Z.pos p <= μ g
                 | inr b => Q b τ
                 end) σ.
Proof.
  revert g a σ. induction p as [p IH|p IH|]; intros g a σ Ha; simpl.
  - apply wp_bind. eapply wp_mono; [by eapply Hbody|].
    intros [a1|b1] τ1; [|done]. intros (g1 & H1 & L1).
    apply wp_bind. eapply wp_mono; [by eapply IH|].
    intros [a2|b2] τ2; [|done]. intros (g2 & H2 & L2).
    eapply wp_mono; [by eapply IH|].
    intros [a3|b3] τ3; [|done]. intros (g3 & H3 & L3). exists g3. split; [done|lia].
  - apply wp_bind. eapply wp_mono; [by eapply IH|].
    intros [a2|b2] τ2; [|done]. intros (g2 & H2 & L2).
    eapply wp_mono; [by eapply IH|].
    intros [a3|b3] τ3; [|done]. intros (g3 & H3 & L3). exists g3. split; [done|lia].
  - eapply wp_mono; [by eapply Hbody|].
    intros [a1|b1] τ1; [|done]. intros (g1 & H1 & L1). exists g1. split; [done|lia].
Qed.

(** The loop rule with a ghost variable: an invariant, and a measure of the ghost
    variable that starts below [FUEL], decreases in every iteration and is never
    negative. *)
Lemma wp_loop_ghost g a σ :
  I g a σ → (∀ g a τ, I g a τ → 0 <= μ g) → μ g < 8589934592 →
  wp (loop body a) Q σ.
Proof.
  intros Ha Hpos Hlt. unfold loop. apply wp_bind.
  eapply wp_mono; [by apply (wp_iter_fuel FUEL g)|].
  intros [a1|b1] τ1; [|done]. intros (g1 & H1 & L1).
  specialize (Hpos _ _ _ H1). change (Z.pos FUEL) with 8589934592 in L1. lia.
Qed.
End GhostLoop.

(** The loop rule with a measure of the loop variables. *)
Lemma wp_loop {A B} (body : A -> M S (A + B)) (I : A -> S -> Prop) (Q : B -> S -> Prop) (μ : A -> Z) :
  (∀ a σ, I a σ →
     wp (body a)
        (fun r τ => match r with
                    | inl a' => I a' τ ∧ μ a' < μ a
                    | inr b => Q b τ
                    end) σ) →
  ∀ a σ, I a σ → (∀ a τ, I a τ → 0 <= μ a) → μ a < 8589934592 → wp (loop body a) Q σ.
Proof.
  intros Hbody a σ Ha Hpos. apply (wp_loop_ghost body (fun g a σ => g = a ∧ I a σ) Q μ).
  - intros g b τ [-> Hb]. eapply wp_mono; [by apply Hbody|]. intros [a'|b'] υ; [|done].
    intros [? ?]. by exists a'.
  - done.
  - intros g b τ [-> Hb]. by eapply Hpos.
Qed.
End Wp.

(** *** Faults with a reason

    [wpx F c Q σ]: run from [σ], [c] returns and the result and the final state
    satisfy [Q], or it faults, and then [F].  The reason [F] speaks of the state
    before the run. *)

Definition wpx {S A} (F : Prop) (c : M S A) (Q : A -> S -> Prop) (σ : S) : Prop :=
  match c σ with
  | Ok (a, τ) => Q a τ
  | Fault => F
  | NoFuel => False
  end.

Section Wpx.
Context {S : Type}.
Implicit Types σ : S.

Lemma wpx_mono {A} (F F' : Prop) (c : M S A) (P Q : A -> S -> Prop) σ :
  wpx F c P σ → (F → F') → (∀ a τ, P a τ → Q a τ) → wpx F' c Q σ.
Proof. unfold wpx. destruct (c σ) as [[x τ]| |]; eauto. Qed.

Lemma wpx_of_wp {A} F (c : M S A) Q σ : wp c Q σ → wpx F c Q σ.
Proof. unfold wp, wpx. by destruct (c σ) as [[x τ]| |]. Qed.

Lemma wp_of_wpx {A} F (c : M S A) Q σ : wpx F c Q σ → ¬ F → wp c Q σ.
Proof. unfold wp, wpx. by destruct (c σ) as [[x τ]| |]. Qed.

Lemma wpx_bind {A B} F (c : M S A) (k : A -> M S B) Q σ :
  wpx F c (fun a τ => wpx F (k a) Q τ) σ → wpx F (c ≫= k) Q σ.
Proof. unfold wpx, mbind, M_mbind, M_bind. by destruct (c σ) as [[x τ]| |]. Qed.

(** A part that cannot fault, then the rest. *)
Lemma wpx_wp_bind {A B} F (c : M S A) (k : A -> M S B) Q σ :
  wp c (fun a τ => wpx F (k a) Q τ) σ → wpx F (c ≫= k) Q σ.
Proof. intros H. apply wpx_bind. by apply wpx_of_wp. Qed.
End Wpx.

(** Loops are reasoned about with [wp_loop] only. *)
#[global] Opaque loop.

Create HintDb wp.
#[export] Hint Resolve wp_ret wp_get wp_put wp_modify wp_continue wp_break : wp.

(** One symbolic step of a monadic program. *)
Ltac wp_step :=
  lazymatch goal with
  | |- wp (mbind _ _) _ _ => apply wp_bind
  | |- wp (early _ _) _ _ => apply wp_early
  | |- wp (return_ _) _ _ => apply wp_return
  | |- wp (go_on _) _ _ => apply wp_go_on
  | |- wp (mret _) _ _ => apply wp_ret
  | |- wp (M_ret _) _ _ => apply wp_ret
  | |- wp (continue _) _ _ => apply wp_continue
  | |- wp (break _) _ _ => apply wp_break
  | |- wp get _ _ => apply wp_get
  | |- wp (put _) _ _ => apply wp_put
  | |- wp (modify _) _ _ => apply wp_modify
  | |- wp (let '(_, _) := ?x in _) _ _ => destruct x; cbn beta iota
  | |- wp (match ?x with _ => _ end) _ _ => progress cbn beta iota
  end; cbn beta iota.

(** Turn boolean tests in the context into arithmetic facts. *)
Ltac b2p :=
  repeat match goal with
  | H : (_ && _)%bool = true |- _ => apply andb_true_iff in H; destruct H
  | H : (_ || _)%bool = false |- _ => apply orb_false_iff in H; destruct H
  | H : (_ && _)%bool = false |- _ => apply andb_false_iff in H
  | H : (_ || _)%bool = true |- _ => apply orb_true_iff in H
  | H : negb _ = true |- _ => apply negb_true_iff in H
  | H : negb _ = false |- _ => apply negb_false_iff in H
  | H : (_ =? _) = true |- _ => apply Z.eqb_eq in H
  | H : (_ =? _) = false |- _ => apply Z.eqb_neq in H
  | H : (_ <? _) = true |- _ => apply Z.ltb_lt in H
  | H : (_ <? _) = false |- _ => apply Z.ltb_ge in H
  | H : (_ <=? _) = true |- _ => apply Z.leb_le in H
  | H : (_ <=? _) = false |- _ => apply Z.leb_gt in H
  end.

(** [lia] for goals with division and remainder by constants. *)
Ltac dlia := Z.to_euclidean_division_equations; lia.
