(* ===== verification/CMem.v ===== *)
(** * The C memory

    Byte-addressed memory and the [errno] cell as the state of a computation,
    the loads and stores of the C code, and the predicates on memory that the
    specifications of the string functions use.  An access to an address that
    is not mapped, or a 16- or 32-bit access to an address that is not aligned,
    is a fault. *)

From stdpp Require Import base gmap list numbers.
From S2P Require Import Prelude.
Open Scope Z_scope.

Record cstate := CState { mem : gmap Z Z; errno : Z }.

Definition with_mem (m : gmap Z Z) (σ : cstate) : cstate := CState m (errno σ).

Definition NULL : Z := 0.
Definition EFAULT : Z := 14.
Definition ERANGE : Z := 34.

Definition set_errno (e : Z) : M cstate unit := modify (fun σ => CState (mem σ) e).

Definition load8 (p : Z) : M cstate Z :=
  fun σ => match mem σ !! p with
           | Some b => Ok (b, σ)
           | None => Fault
           end.

Definition store8 (p v : Z) : M cstate unit :=
  fun σ => match mem σ !! p with
           | Some _ => Ok (tt, with_mem (<[p := u8 v]> (mem σ)) σ)
           | None => Fault
           end.

Definition be16 (b0 b1 : Z) : Z := b0 * 256 + b1.
Definition be32 (b0 b1 b2 b3 : Z) : Z :=
  b0 * 16777216 + b1 * 65536 + b2 * 256 + b3.

Definition load16 (p : Z) : M cstate Z :=
  if p mod 2 =? 0 then
    b0 ← load8 p; b1 ← load8 (p + 1); mret (be16 b0 b1)
  else fault.

Definition load32 (p : Z) : M cstate Z :=
  if p mod 4 =? 0 then
    b0 ← load8 p; b1 ← load8 (p + 1); b2 ← load8 (p + 2); b3 ← load8 (p + 3);
    mret (be32 b0 b1 b2 b3)
  else fault.

Definition store32 (p v : Z) : M cstate unit :=
  if p mod 4 =? 0 then
    _ ← store8 p (Z.shiftr v 24); _ ← store8 (p + 1) (Z.shiftr v 16);
    _ ← store8 (p + 2) (Z.shiftr v 8); store8 (p + 3) v
  else fault.

(** ** Bytes, arrays and strings in memory *)

Definition is_byte (b : Z) : Prop := 0 <= b < 256.

(** The [i]-th element of an array of bytes. *)
Definition nthZ (l : list Z) (i : Z) : Z := l !!! Z.to_nat i.
Definition lenZ {A} (l : list A) : Z := Z.of_nat (length l).

(** [l] is stored from address [p] on. *)
Definition bytes_at (m : gmap Z Z) (p : Z) (l : list Z) : Prop :=
  ∀ i, 0 <= i < lenZ l → m !! (p + i) = Some (nthZ l i).

(** Every byte of [p, p + n) is mapped. *)
Definition mapped (m : gmap Z Z) (p n : Z) : Prop :=
  ∀ a, p <= a < p + n → is_Some (m !! a).

(** Every mapped cell holds a byte. *)
Definition bytes_ok (m : gmap Z Z) : Prop :=
  ∀ a b, m !! a = Some b → is_byte b.

(** Memory is mapped in whole 32-bit words (in reality, in whole pages). *)
Definition words_ok (m : gmap Z Z) : Prop :=
  ∀ a b, is_Some (m !! a) → a / 4 = b / 4 → is_Some (m !! b).

(** A NUL-terminated string. *)
Definition cstr (m : gmap Z Z) (p : Z) (s : list Z) : Prop :=
  bytes_at m p (s ++ [0]) ∧ Forall (fun b => 0 < b < 256) s.

(** Memory that holds bytes and is mapped in whole words. *)
Record mem_ok (m : gmap Z Z) : Prop := {
  mem_bytes : bytes_ok m;
  mem_words : words_ok m
}.

(** Memory after the array [l] has been written from [p] on. *)
Fixpoint write_bytes (m : gmap Z Z) (p : Z) (l : list Z) : gmap Z Z :=
  match l with
  | [] => m
  | b :: l' => write_bytes (<[p := b]> m) (p + 1) l'
  end.

(** ** Lemmas on arrays *)

Lemma lenZ_nonneg {A} (l : list A) : 0 <= lenZ l.
Proof. unfold lenZ. lia. Qed.

Lemma lenZ_app {A} (l k : list A) : lenZ (l ++ k) = lenZ l + lenZ k.
Proof. unfold lenZ. rewrite length_app. lia. Qed.

Lemma lenZ_cons {A} (x : A) (l : list A) : lenZ (x :: l) = 1 + lenZ l.
Proof. unfold lenZ. simpl. lia. Qed.

Lemma lenZ_nil {A} : lenZ (@nil A) = 0.
Proof. done. Qed.

Lemma lenZ_take {A} (l : list A) i :
  0 <= i <= lenZ l → lenZ (take (Z.to_nat i) l) = i.
Proof. unfold lenZ. intros. rewrite length_take. lia. Qed.

Lemma lenZ_drop {A} (l : list A) i :
  0 <= i <= lenZ l → lenZ (drop (Z.to_nat i) l) = lenZ l - i.
Proof. unfold lenZ. intros. rewrite length_drop. lia. Qed.

Lemma lenZ_replicate {A} (x : A) n : 0 <= n → lenZ (replicate (Z.to_nat n) x) = n.
Proof. unfold lenZ. intros. rewrite length_replicate. lia. Qed.

Create Rewrite HintDb lenZ.
Lemma lenZ_snoc {A} (l : list A) (x : A) : lenZ (l ++ [x]) = lenZ l + 1.
Proof. by rewrite lenZ_app. Qed.

#[export] Hint Rewrite @lenZ_app @lenZ_cons : lenZ.
#[export] Hint Rewrite @lenZ_take @lenZ_drop @lenZ_replicate using lia : lenZ.

Lemma nthZ_lookup (l : list Z) i :
  0 <= i < lenZ l → l !! Z.to_nat i = Some (nthZ l i).
Proof.
  unfold nthZ, lenZ. intros. apply list_lookup_lookup_total_lt. lia.
Qed.

Lemma nthZ_in (l : list Z) i : 0 <= i < lenZ l → nthZ l i ∈ l.
Proof. intros H. eapply list_elem_of_lookup_2. by apply nthZ_lookup. Qed.

Lemma elem_of_nthZ (l : list Z) x : x ∈ l → ∃ i, 0 <= i < lenZ l ∧ nthZ l i = x.
Proof.
  intros [i Hi]%list_elem_of_lookup_1. exists (Z.of_nat i).
  pose proof (lookup_lt_Some _ _ _ Hi). unfold nthZ, lenZ.
  split; [lia|]. rewrite Nat2Z.id. by apply list_lookup_total_correct.
Qed.

Lemma nthZ_app_l (l k : list Z) i : 0 <= i < lenZ l → nthZ (l ++ k) i = nthZ l i.
Proof. unfold nthZ, lenZ. intros. rewrite lookup_total_app_l; [done|lia]. Qed.

Lemma nthZ_app_r (l k : list Z) i :
  lenZ l <= i → nthZ (l ++ k) i = nthZ k (i - lenZ l).
Proof.
  unfold nthZ, lenZ. intros. rewrite lookup_total_app_r by lia. f_equal. lia.
Qed.

Lemma nthZ_cons_0 x (l : list Z) : nthZ (x :: l) 0 = x.
Proof. done. Qed.

Lemma nthZ_cons_S x (l : list Z) i : 0 < i → nthZ (x :: l) i = nthZ l (i - 1).
Proof.
  intros. unfold nthZ. replace (Z.to_nat i) with (S (Z.to_nat (i - 1))) by lia.
  done.
Qed.

Lemma nthZ_end (s : list Z) x : nthZ (s ++ [x]) (lenZ s) = x.
Proof. rewrite nthZ_app_r by lia. by rewrite Z.sub_diag. Qed.

Lemma nthZ_drop (l : list Z) i j :
  0 <= i → 0 <= j → nthZ (drop (Z.to_nat i) l) j = nthZ l (i + j).
Proof.
  intros. unfold nthZ. rewrite lookup_total_drop. f_equal. lia.
Qed.

Lemma nthZ_take (l : list Z) i j :
  0 <= j < i → nthZ (take (Z.to_nat i) l) j = nthZ l j.
Proof. intros. unfold nthZ. rewrite lookup_total_take_lt by lia. done. Qed.

Lemma take_snoc_nthZ (l : list Z) i :
  0 <= i < lenZ l →
  take (Z.to_nat (i + 1)) l = take (Z.to_nat i) l ++ [nthZ l i].
Proof.
  intros H. replace (Z.to_nat (i + 1)) with (S (Z.to_nat i)) by lia.
  apply take_S_r. by apply nthZ_lookup.
Qed.

Lemma drop_nthZ (l : list Z) i :
  0 <= i < lenZ l →
  drop (Z.to_nat i) l = nthZ l i :: drop (Z.to_nat (i + 1)) l.
Proof.
  intros H. replace (Z.to_nat (i + 1)) with (S (Z.to_nat i)) by lia.
  apply drop_S. by apply nthZ_lookup.
Qed.

Lemma Forall_nthZ (P : Z → Prop) (l : list Z) i :
  Forall P l → 0 <= i < lenZ l → P (nthZ l i).
Proof.
  intros H Hi. eapply Forall_lookup_1; [done|]. by apply nthZ_lookup.
Qed.

Lemma take_all_lenZ {A} (l : list A) : take (Z.to_nat (lenZ l)) l = l.
Proof. apply take_ge. unfold lenZ. lia. Qed.

Lemma take_0_Z {A} (l : list A) : take (Z.to_nat 0) l = [].
Proof. done. Qed.

Lemma list_eq_nthZ (l k : list Z) :
  lenZ l = lenZ k → (∀ i, 0 <= i < lenZ l → nthZ l i = nthZ k i) → l = k.
Proof.
  intros Hl H. apply list_eq. intros i.
  destruct (decide (i < length l)%nat) as [Hi|Hi].
  - specialize (H (Z.of_nat i)). unfold lenZ in *.
    pose proof (nthZ_lookup l (Z.of_nat i)). pose proof (nthZ_lookup k (Z.of_nat i)).
    unfold lenZ in *. rewrite Nat2Z.id in *. rewrite H0, H1 by lia. f_equal.
    apply H. lia.
  - unfold lenZ in Hl. rewrite !lookup_ge_None_2 by lia. done.
Qed.

(** ** Lemmas on memory *)

Section Mem.
Implicit Types m : gmap Z Z.

Lemma bytes_at_app m p l k :
  bytes_at m p (l ++ k) ↔ bytes_at m p l ∧ bytes_at m (p + lenZ l) k.
Proof.
  unfold bytes_at. rewrite lenZ_app. pose proof (lenZ_nonneg l).
  pose proof (lenZ_nonneg k). split.
  - intros Hb. split; intros i Hi.
    + rewrite Hb by lia. by rewrite nthZ_app_l.
    + replace (p + lenZ l + i) with (p + (lenZ l + i)) by lia.
      rewrite Hb by lia. rewrite nthZ_app_r by lia. do 2 f_equal. lia.
  - intros [H1 H2] i Hi. destruct (decide (i < lenZ l)).
    + rewrite H1 by lia. by rewrite nthZ_app_l by lia.
    + replace (p + i) with (p + lenZ l + (i - lenZ l)) by lia.
      rewrite H2 by lia. by rewrite nthZ_app_r by lia.
Qed.

Lemma bytes_at_drop m p l i :
  0 <= i <= lenZ l → bytes_at m p l → bytes_at m (p + i) (drop (Z.to_nat i) l).
Proof.
  intros Hi. rewrite <- (take_drop (Z.to_nat i) l) at 1.
  rewrite bytes_at_app. rewrite lenZ_take by lia. tauto.
Qed.

Lemma bytes_at_mapped m p l : bytes_at m p l → mapped m p (lenZ l).
Proof.
  intros H a Ha. replace a with (p + (a - p)) by lia. rewrite H by lia. eauto.
Qed.

Lemma bytes_at_byte m p l :
  bytes_ok m → bytes_at m p l → Forall is_byte l.
Proof.
  intros Hm H. apply Forall_lookup_2. intros i x Hx%list_elem_of_lookup_2.
  apply elem_of_nthZ in Hx as (j & Hj & <-).
  eapply Hm, H. lia.
Qed.

Lemma mapped_sub m p n q k :
  mapped m p n → p <= q → q + k <= p + n → mapped m q k.
Proof. intros H ?? a Ha. apply H. lia. Qed.

Lemma write_bytes_lookup_out m p l a :
  a < p ∨ p + lenZ l <= a → write_bytes m p l !! a = m !! a.
Proof.
  revert m p. induction l as [|b l IH]; intros m p; [done|].
  rewrite lenZ_cons. pose proof (lenZ_nonneg l). simpl. intros.
  rewrite IH by lia. apply lookup_insert_ne. lia.
Qed.

Lemma write_bytes_lookup_in m p l i :
  0 <= i < lenZ l → write_bytes m p l !! (p + i) = Some (nthZ l i).
Proof.
  revert m p i. induction l as [|b l IH]; intros m p i.
  { unfold lenZ; simpl; lia. }
  rewrite lenZ_cons. simpl. intros. destruct (decide (i = 0)) as [->|].
  - rewrite write_bytes_lookup_out by lia. rewrite Z.add_0_r.
    by rewrite lookup_insert_eq.
  - replace (p + i) with (p + 1 + (i - 1)) by lia. rewrite IH by lia.
    by rewrite nthZ_cons_S by lia.
Qed.

Lemma write_bytes_bytes_at m p l : bytes_at (write_bytes m p l) p l.
Proof. intros i Hi. by apply write_bytes_lookup_in. Qed.

Lemma write_bytes_app m p l k :
  write_bytes m p (l ++ k) = write_bytes (write_bytes m p l) (p + lenZ l) k.
Proof.
  revert m p. induction l as [|b l IH]; intros m p; simpl.
  - by rewrite lenZ_nil, Z.add_0_r.
  - rewrite IH, lenZ_cons. f_equal. lia.
Qed.

Lemma write_bytes_mapped m p l q n :
  mapped m q n → mapped (write_bytes m p l) q n.
Proof.
  revert m p. induction l as [|b l IH]; intros m p H; [done|].
  simpl. apply IH. intros a Ha. destruct (decide (a = p)) as [->|].
  - rewrite lookup_insert_eq. eauto.
  - rewrite lookup_insert_ne by done. by apply H.
Qed.

Lemma write_bytes_bytes_at_out m p l q k :
  q + lenZ k <= p ∨ p + lenZ l <= q →
  bytes_at m q k → bytes_at (write_bytes m p l) q k.
Proof.
  intros Hd H i Hi. rewrite write_bytes_lookup_out by lia. by apply H.
Qed.

Lemma write_bytes_snoc m p l i :
  0 <= i < lenZ l →
  write_bytes m p (take (Z.to_nat (i + 1)) l) =
  <[p + i := nthZ l i]> (write_bytes m p (take (Z.to_nat i) l)).
Proof.
  intros. rewrite take_snoc_nthZ by lia. rewrite write_bytes_app.
  rewrite lenZ_take by lia. done.
Qed.

(** Overwriting a region with what it holds changes nothing. *)
Lemma write_bytes_same m p l : bytes_at m p l → write_bytes m p l = m.
Proof.
  intros H. apply map_eq. intros a.
  destruct (decide (p <= a < p + lenZ l)).
  - replace a with (p + (a - p)) by lia.
    rewrite write_bytes_lookup_in by lia. by rewrite H by lia.
  - apply write_bytes_lookup_out. lia.
Qed.
End Mem.

(** ** Rules for the memory operations *)

Lemma wp_load8 p b Q σ : mem σ !! p = Some b → Q b σ → wp (load8 p) Q σ.
Proof. unfold wp, load8. by intros ->. Qed.

Lemma wp_store8 p v Q σ :
  is_Some (mem σ !! p) → Q tt (with_mem (<[p := u8 v]> (mem σ)) σ) →
  wp (store8 p v) Q σ.
Proof. unfold wp, store8. by intros [b ->]. Qed.

Lemma wp_set_errno e Q σ : Q tt (CState (mem σ) e) → wp (set_errno e) Q σ.
Proof. done. Qed.

Lemma wp_load16 p b0 b1 Q σ :
  p mod 2 = 0 → mem σ !! p = Some b0 → mem σ !! (p + 1) = Some b1 →
  Q (be16 b0 b1) σ → wp (load16 p) Q σ.
Proof.
  unfold load16. intros -> ???. simpl.
  repeat first [apply wp_bind; eapply wp_load8; [done|] | by apply wp_ret].
Qed.

Lemma wp_load32 p b0 b1 b2 b3 Q σ :
  p mod 4 = 0 →
  mem σ !! p = Some b0 → mem σ !! (p + 1) = Some b1 →
  mem σ !! (p + 2) = Some b2 → mem σ !! (p + 3) = Some b3 →
  Q (be32 b0 b1 b2 b3) σ → wp (load32 p) Q σ.
Proof.
  unfold load32. intros -> ?????. simpl.
  repeat first [apply wp_bind; eapply wp_load8; [done|] | by apply wp_ret].
Qed.

Lemma wp_load32_at p l i Q σ :
  bytes_at (mem σ) p l → (p + i) mod 4 = 0 → 0 <= i → i + 4 <= lenZ l →
  Q (be32 (nthZ l i) (nthZ l (i + 1)) (nthZ l (i + 2)) (nthZ l (i + 3))) σ →
  wp (load32 (p + i)) Q σ.
Proof.
  intros Hb Hm H1 H2 HQ. eapply wp_load32; [done|..|exact HQ];
    rewrite <- ?Z.add_assoc; apply Hb; lia.
Qed.

Lemma wp_load8_at p l i Q σ :
  bytes_at (mem σ) p l → 0 <= i < lenZ l →
  Q (nthZ l i) σ → wp (load8 (p + i)) Q σ.
Proof. intros Hb Hi. apply wp_load8. by apply Hb. Qed.

(** A store at [p] keeps every other cell mapped. *)
Lemma insert_mapped (m : gmap Z Z) p v q n :
  mapped m q n → mapped (<[p := v]> m) q n.
Proof.
  intros H a Ha. destruct (decide (p = a)) as [->|].
  - rewrite lookup_insert_eq. eauto.
  - rewrite lookup_insert_ne by done. by apply H.
Qed.

Lemma wp_store8_mapped p v q n Q σ :
  mapped (mem σ) q n → q <= p < q + n →
  Q tt (with_mem (<[p := u8 v]> (mem σ)) σ) → wp (store8 p v) Q σ.
Proof. intros Hm Hp. apply wp_store8. by apply Hm. Qed.

Lemma u8_small b : is_byte b → u8 b = b.
Proof. unfold u8, is_byte. intros. by apply Z.mod_small. Qed.

(** Storing a word stores its four bytes. *)
Lemma wp_store32 p b0 b1 b2 b3 Q σ :
  p mod 4 = 0 → mapped (mem σ) p 4 →
  is_byte b0 → is_byte b1 → is_byte b2 → is_byte b3 →
  Q tt (with_mem (write_bytes (mem σ) p [b0; b1; b2; b3]) σ) →
  wp (store32 p (be32 b0 b1 b2 b3)) Q σ.
Proof.
  unfold is_byte. intros Hp Hm H0 H1 H2 H3 HQ. unfold store32. rewrite Hp. simpl.
  do 4 (try apply wp_bind; eapply wp_store8_mapped;
    [simpl; repeat apply insert_mapped; exact Hm|lia|]; simpl).
  unfold with_mem in *; cbn [mem errno write_bytes] in *. rewrite !Z.shiftr_div_pow2 by lia.
  change (2 ^ 24) with 16777216. change (2 ^ 16) with 65536. change (2 ^ 8) with 256.
  unfold u8, be32.
  replace (p + 1 + 1) with (p + 2) in HQ by lia.
  replace (p + 2 + 1) with (p + 3) in HQ by lia.
  match goal with |- Q tt (CState (<[_ := ?d]> (<[_ := ?c]> (<[_ := ?b]> (<[_ := ?a]> _)))) _) =>
    replace a with b0 by dlia; replace b with b1 by dlia;
    replace c with b2 by dlia; replace d with b3 by dlia
  end. exact HQ.
Qed.

(** ** Searching an array *)

(** The index of the first element that satisfies [f]. *)
Fixpoint find_index (f : Z → bool) (l : list Z) : option Z :=
  match l with
  | [] => None
  | x :: l' => if f x then Some 0 else Z.succ <$> find_index f l'
  end.

Lemma find_index_Some_2 f l i :
  0 <= i < lenZ l → f (nthZ l i) = true →
  (∀ j, 0 <= j < i → f (nthZ l j) = false) → find_index f l = Some i.
Proof.
  revert i. induction l as [|x l IH]; intros i Hi Hf Hn; [unfold lenZ in Hi; simpl in Hi; lia|].
  rewrite lenZ_cons in Hi. simpl. destruct (decide (i = 0)) as [->|Hi0].
  - rewrite nthZ_cons_0 in Hf. by rewrite Hf.
  - rewrite nthZ_cons_S in Hf by lia. pose proof (Hn 0 ltac:(lia)) as H0.
    rewrite nthZ_cons_0 in H0. rewrite H0. rewrite (IH (i - 1)); [simpl; f_equal; lia|lia|done|].
    intros j Hj. specialize (Hn (j + 1)). rewrite nthZ_cons_S in Hn by lia.
    rewrite <- Hn by lia. do 2 f_equal. lia.
Qed.

Lemma find_index_None_2 f l :
  (∀ j, 0 <= j < lenZ l → f (nthZ l j) = false) → find_index f l = None.
Proof.
  induction l as [|x l IH]; intros Hn; [done|]. rewrite lenZ_cons in Hn. simpl.
  pose proof (lenZ_nonneg l).
  pose proof (Hn 0 ltac:(lia)) as H0. rewrite nthZ_cons_0 in H0. rewrite H0.
  rewrite IH; [done|]. intros j Hj. specialize (Hn (j + 1)).
  rewrite nthZ_cons_S in Hn by lia. rewrite <- Hn by lia. do 2 f_equal. lia.
Qed.

Lemma find_index_Some_1 f l i :
  find_index f l = Some i →
  0 <= i < lenZ l ∧ f (nthZ l i) = true ∧ (∀ j, 0 <= j < i → f (nthZ l j) = false).
Proof.
  revert i. induction l as [|x l IH]; intros i H; [done|]. simpl in H. rewrite lenZ_cons.
  pose proof (lenZ_nonneg l).
  destruct (f x) eqn:E; simplify_eq/=; [split; [lia|split; [done|lia]]|].
  destruct (find_index f l) as [k|]; simplify_eq/=. destruct (IH k) as (H1&H2&H3); [done|].
  split; [lia|]. split; [rewrite nthZ_cons_S by lia; rewrite <- H2; do 2 f_equal; lia|].
  intros j Hj. destruct (decide (j = 0)) as [->|]; [done|].
  rewrite nthZ_cons_S by lia. apply H3. lia.
Qed.

Lemma find_index_None_1 f l j :
  find_index f l = None → 0 <= j < lenZ l → f (nthZ l j) = false.
Proof.
  revert j. induction l as [|x l IH]; intros j H Hj; [unfold lenZ in Hj; simpl in Hj; lia|].
  simpl in H. rewrite lenZ_cons in Hj. destruct (f x) eqn:E; [done|].
  destruct (find_index f l); [done|].
  destruct (decide (j = 0)) as [->|]; [done|]. rewrite nthZ_cons_S by lia. apply IH; [done|lia].
Qed.

(** The index of the last element that satisfies [f]. *)
Fixpoint find_last (f : Z → bool) (l : list Z) : option Z :=
  match l with
  | [] => None
  | x :: l' => match find_last f l' with
               | Some i => Some (i + 1)
               | None => if f x then Some 0 else None
               end
  end.

Lemma find_last_None_2 f l :
  (∀ j, 0 <= j < lenZ l → f (nthZ l j) = false) → find_last f l = None.
Proof.
  induction l as [|x l IH]; intros Hn; [done|]. rewrite lenZ_cons in Hn. simpl.
  pose proof (lenZ_nonneg l). rewrite IH.
  - pose proof (Hn 0 ltac:(lia)) as H0. rewrite nthZ_cons_0 in H0. by rewrite H0.
  - intros j Hj. specialize (Hn (j + 1)).
    rewrite nthZ_cons_S in Hn by lia. rewrite <- Hn by lia. do 2 f_equal. lia.
Qed.

Lemma find_last_Some_2 f l i :
  0 <= i < lenZ l → f (nthZ l i) = true →
  (∀ j, i < j < lenZ l → f (nthZ l j) = false) → find_last f l = Some i.
Proof.
  revert i. induction l as [|x l IH]; intros i Hi Hf Hn; [unfold lenZ in Hi; simpl in Hi; lia|].
  rewrite lenZ_cons in *. simpl. destruct (decide (i = 0)) as [->|].
  - rewrite find_last_None_2; [rewrite nthZ_cons_0 in Hf; by rewrite Hf|].
    intros j Hj. specialize (Hn (j + 1)). rewrite nthZ_cons_S in Hn by lia.
    rewrite <- Hn by lia. do 2 f_equal. lia.
  - rewrite nthZ_cons_S in Hf by lia. rewrite (IH (i - 1)); [f_equal; lia|lia|done|].
    intros j Hj. specialize (Hn (j + 1)). rewrite nthZ_cons_S in Hn by lia.
    rewrite <- Hn by lia. do 2 f_equal. lia.
Qed.

Lemma find_last_snoc f l x :
  find_last f (l ++ [x]) = if f x then Some (lenZ l) else find_last f l.
Proof.
  induction l as [|y l IH]; [done|]. cbn [app find_last]. rewrite IH, lenZ_cons.
  destruct (f x); [f_equal; lia|done].
Qed.

(** The least [k <= lenZ s] such that [sub] occurs in [s] at [k]. *)
Definition occurs_at (sub s : list Z) (k : Z) : bool :=
  bool_decide (sub `prefix_of` drop (Z.to_nat k) s).
Definition find_sub (sub s : list Z) : option Z :=
  find_index (occurs_at sub s) (seqZ 0 (lenZ s + 1)).

Lemma nthZ_seqZ n i : 0 <= i < n → nthZ (seqZ 0 n) i = i.
Proof. intros. unfold nthZ. rewrite lookup_total_seqZ_lt by lia. lia. Qed.

Lemma lenZ_seqZ n : 0 <= n → lenZ (seqZ 0 n) = n.
Proof. intros. unfold lenZ. rewrite length_seqZ. lia. Qed.

Lemma occurs_at_spec sub s k :
  0 <= k <= lenZ s →
  occurs_at sub s k = true ↔
  k + lenZ sub <= lenZ s ∧ ∀ j, 0 <= j < lenZ sub → nthZ sub j = nthZ s (k + j).
Proof.
  intros Hk. unfold occurs_at. rewrite bool_decide_eq_true.
  pose proof (lenZ_drop s k Hk) as Hd. split.
  - intros [t Ht]. rewrite Ht, lenZ_app in Hd. pose proof (lenZ_nonneg t). split; [lia|].
    intros j Hj. rewrite <- nthZ_drop by lia. rewrite Ht. by rewrite nthZ_app_l.
  - intros [H1 H2]. exists (drop (Z.to_nat (k + lenZ sub)) s).
    pose proof (lenZ_nonneg sub). apply list_eq_nthZ.
    + rewrite lenZ_app, !lenZ_drop by lia. lia.
    + rewrite lenZ_drop by lia. intros i Hi. rewrite nthZ_drop by lia.
      destruct (Z.lt_ge_cases i (lenZ sub)).
      * rewrite nthZ_app_l, H2 by lia. done.
      * rewrite nthZ_app_r, nthZ_drop by lia. f_equal. lia.
Qed.

Lemma find_sub_Some_2 sub s k :
  0 <= k <= lenZ s → occurs_at sub s k = true →
  (∀ j, 0 <= j < k → occurs_at sub s j = false) → find_sub sub s = Some k.
Proof.
  intros Hk H1 H2. apply find_index_Some_2.
  - rewrite lenZ_seqZ; lia.
  - rewrite nthZ_seqZ by lia. done.
  - intros j Hj. rewrite nthZ_seqZ by lia. by apply H2.
Qed.

Lemma find_sub_None_2 sub s :
  (∀ j, 0 <= j <= lenZ s → occurs_at sub s j = false) → find_sub sub s = None.
Proof.
  intros H. pose proof (lenZ_nonneg s). apply find_index_None_2. rewrite lenZ_seqZ by lia.
  intros j Hj. rewrite nthZ_seqZ by lia. apply H. lia.
Qed.

(** The result of a search as a pointer. *)
Definition ptr_of (p : Z) (o : option Z) : Z :=
  match o with Some i => p + i | None => NULL end.

(** ** Memory stays well formed *)

Lemma insert_mem_ok m p b : mem_ok m → is_Some (m !! p) → is_byte b → mem_ok (<[p := b]> m).
Proof.
  intros [H1 H2] Hp Hb. split.
  - intros a x. rewrite lookup_insert_Some. intros [[_ <-]|[_ ?]]; eauto.
  - intros a c. rewrite !lookup_insert_is_Some'. intros [<-|Ha] Hac; [eauto|].
    right. by eapply H2.
Qed.

Lemma write_bytes_mem_ok m p l :
  mem_ok m → mapped m p (lenZ l) → Forall is_byte l → mem_ok (write_bytes m p l).
Proof.
  revert m p. induction l as [|b l IH]; intros m p Hm Hp Hl; [done|]. simpl.
  rewrite lenZ_cons in Hp. inversion_clear Hl. pose proof (lenZ_nonneg l). apply IH; [|..|done].
  - apply insert_mem_ok; [done|apply Hp; lia|done].
  - apply insert_mapped. eapply mapped_sub; [done|lia..].
Qed.

(** ** Writing an array from left to right *)

Section Fill.
Context (σ : cstate) (d : Z) (l : list Z).

(** The state after the first [i] elements of [l] have been written to [d]. *)
Definition copied (i : Z) : cstate :=
  with_mem (write_bytes (mem σ) d (take (Z.to_nat i) l)) σ.

Record fill_ok : Prop := {
  fill_byte : Forall is_byte l;
  fill_dst : mapped (mem σ) d (lenZ l)
}.
Context (H : fill_ok).

Lemma copied_0 : copied 0 = σ.
Proof. unfold copied, with_mem. simpl. by destruct σ. Qed.

Lemma copied_all : copied (lenZ l) = with_mem (write_bytes (mem σ) d l) σ.
Proof. unfold copied. by rewrite take_all_lenZ. Qed.

(** What lies outside of the written region is unchanged. *)
Lemma copied_out i s k :
  0 <= i <= lenZ l → bytes_at (mem σ) s k → d + lenZ l <= s ∨ s + lenZ k <= d →
  bytes_at (mem (copied i)) s k.
Proof.
  intros Hi Hk Hd. simpl. apply write_bytes_bytes_at_out; [|done].
  rewrite lenZ_take by lia. lia.
Qed.

Lemma copied_mapped i q n : mapped (mem σ) q n → mapped (mem (copied i)) q n.
Proof. intros Hq. simpl. by apply write_bytes_mapped. Qed.

Lemma copied_mem_ok i : mem_ok (mem σ) → 0 <= i <= lenZ l → mem_ok (mem (copied i)).
Proof.
  intros Hm Hi. simpl. apply write_bytes_mem_ok; [done| |apply Forall_take, H].
  rewrite lenZ_take by done. eapply mapped_sub; [apply H|lia..].
Qed.

Lemma wp_fill_store8 i v Q :
  0 <= i < lenZ l → v = nthZ l i → Q tt (copied (i + 1)) →
  wp (store8 (d + i) v) Q (copied i).
Proof.
  intros Hi -> HQ. eapply wp_store8_mapped; [simpl; apply write_bytes_mapped, H|lia|].
  rewrite u8_small by (apply Forall_nthZ; [apply H|done]).
  unfold copied in HQ. by rewrite write_bytes_snoc in HQ by lia.
Qed.

Lemma wp_fill_store32 i Q :
  0 <= i → i + 4 <= lenZ l → (d + i) mod 4 = 0 →
  Q tt (copied (i + 4)) →
  wp (store32 (d + i) (be32 (nthZ l i) (nthZ l (i + 1)) (nthZ l (i + 2)) (nthZ l (i + 3))))
     Q (copied i).
Proof.
  intros Hi Hl Ha HQ. pose proof (fill_byte H) as Hb.
  apply wp_store32; [done| |try (apply Forall_nthZ; [done|lia])..|].
  { simpl. apply write_bytes_mapped. eapply mapped_sub; [apply H|lia|lia]. }
  unfold copied in HQ. replace (i + 4) with (i + 1 + 1 + 1 + 1) in HQ by lia.
  rewrite !write_bytes_snoc in HQ by lia. simpl.
  rewrite <- !Z.add_assoc in HQ. rewrite <- !Z.add_assoc. exact HQ.
Qed.
End Fill.

(** ** Copying an array to a disjoint place *)

Section Copy.
Context (σ : cstate) (d s : Z) (l : list Z).
#[local] Abbreviation copied := (copied σ d l).

Record copy_ok : Prop := {
  copy_src : bytes_at (mem σ) s l;
  copy_byte : Forall is_byte l;
  copy_dst : mapped (mem σ) d (lenZ l);
  copy_disj : d + lenZ l <= s ∨ s + lenZ l <= d
}.
Context (H : copy_ok).

Lemma copy_fill : fill_ok σ d l.
Proof. split; apply H. Qed.

Lemma copied_src i : 0 <= i <= lenZ l → bytes_at (mem (copied i)) s l.
Proof. intros Hi. by apply copied_out; [|apply H..]. Qed.

Lemma wp_copy_load8 i Q :
  0 <= i < lenZ l → Q (nthZ l i) (copied i) → wp (load8 (s + i)) Q (copied i).
Proof. intros Hi. apply wp_load8_at; [|done]. apply copied_src. lia. Qed.

Lemma wp_copy_store8 i Q :
  0 <= i < lenZ l → Q tt (copied (i + 1)) → wp (store8 (d + i) (nthZ l i)) Q (copied i).
Proof. intros Hi. by apply (wp_fill_store8 _ _ _ copy_fill). Qed.

Lemma wp_copy_load32 i Q :
  0 <= i → i + 4 <= lenZ l → (s + i) mod 4 = 0 →
  Q (be32 (nthZ l i) (nthZ l (i + 1)) (nthZ l (i + 2)) (nthZ l (i + 3))) (copied i) →
  wp (load32 (s + i)) Q (copied i).
Proof. intros. eapply wp_load32_at; [apply copied_src; lia|done..]. Qed.

Lemma wp_copy_store32 i Q :
  0 <= i → i + 4 <= lenZ l → (d + i) mod 4 = 0 →
  Q tt (copied (i + 4)) →
  wp (store32 (d + i) (be32 (nthZ l i) (nthZ l (i + 1)) (nthZ l (i + 2)) (nthZ l (i + 3))))
     Q (copied i).
Proof. apply (wp_fill_store32 _ _ _ copy_fill). Qed.

Lemma wp_copy_word {B} a b i j (k : unit → M cstate B) Q :
  a = s + i → b = d + i → j = i + 4 → 0 <= i → i + 4 <= lenZ l →
  a mod 4 = 0 → b mod 4 = 0 →
  wp (k tt) Q (copied j) →
  wp (w ← load32 a; u ← store32 b w; k u) Q (copied i).
Proof.
  intros -> -> -> ?????. apply wp_bind, wp_copy_load32; [lia..|].
  by apply wp_bind, wp_copy_store32.
Qed.
End Copy.

(** ** Deciding the predicates on a concrete memory *)

Definition is_byteb (b : Z) : bool := (0 <=? b) && (b <? 256).

Definition bytes_atb (m : gmap Z Z) (p : Z) (l : list Z) : bool :=
  forallb (fun i => bool_decide (m !! (p + i) = Some (nthZ l i))) (seqZ 0 (lenZ l)).

Definition mappedb (m : gmap Z Z) (p n : Z) : bool :=
  forallb (fun a => bool_decide (is_Some (m !! a))) (seqZ p n).

Definition cstrb (m : gmap Z Z) (p : Z) (s : list Z) : bool :=
  bytes_atb m p (s ++ [0]) && forallb (fun b => (0 <? b) && (b <? 256)) s.

Definition mem_okb (m : gmap Z Z) : bool :=
  forallb (fun '(a, b) => is_byteb b &&
    forallb (fun c => bool_decide (is_Some (m !! c))) (seqZ (a - a mod 4) 4)) (map_to_list m).

Definition copy_okb (σ : cstate) (d s : Z) (l : list Z) : bool :=
  bytes_atb (mem σ) s l && forallb is_byteb l && mappedb (mem σ) d (lenZ l) &&
  ((d + lenZ l <=? s) || (s + lenZ l <=? d)).

Lemma forallb_seqZ f a n :
  forallb f (seqZ a n) = true → ∀ i, a <= i < a + n → f i = true.
Proof.
  intros H i Hi. rewrite forallb_forall in H. apply H.
  apply list_elem_of_In, elem_of_seqZ. lia.
Qed.

Lemma is_byteb_sound b : is_byteb b = true → is_byte b.
Proof. unfold is_byteb, is_byte. intros. b2p. lia. Qed.

Lemma forallb_byte l : forallb is_byteb l = true → Forall is_byte l.
Proof.
  intros H. apply Forall_forall. intros x Hx. rewrite forallb_forall in H.
  by apply is_byteb_sound, H.
Qed.

Lemma bytes_atb_sound m p l : bytes_atb m p l = true → bytes_at m p l.
Proof.
  intros H i Hi. pose proof (forallb_seqZ _ _ _ H i ltac:(lia)) as E.
  by apply bool_decide_eq_true_1 in E.
Qed.

Lemma mappedb_sound m p n : mappedb m p n = true → mapped m p n.
Proof.
  intros H a Ha. pose proof (forallb_seqZ _ _ _ H a Ha) as E.
  by apply bool_decide_eq_true_1 in E.
Qed.

Lemma cstrb_sound m p s : cstrb m p s = true → cstr m p s.
Proof.
  unfold cstrb. intros [H1 H2]%andb_true_iff. split; [by apply bytes_atb_sound|].
  apply Forall_forall. intros x Hx. rewrite forallb_forall in H2.
  specialize (H2 x Hx). b2p. lia.
Qed.

Lemma mem_okb_sound m : mem_okb m = true → mem_ok m.
Proof.
  intros H. unfold mem_okb in H. rewrite forallb_forall in H.
  assert (∀ a b, m !! a = Some b → is_byte b ∧
    ∀ c, a - a mod 4 <= c < a - a mod 4 + 4 → is_Some (m !! c)) as K.
  { intros a b E. apply elem_of_map_to_list, list_elem_of_In in E. specialize (H _ E).
    cbn beta iota in H. apply andb_true_iff in H as [H1 H2]. split; [by apply is_byteb_sound|].
    intros c Hc. pose proof (forallb_seqZ _ _ _ H2 c Hc) as E'.
    by apply bool_decide_eq_true_1 in E'. }
  split; [intros a b E; by eapply K|]. intros a b [x E] Hab. eapply K; [exact E|]. dlia.
Qed.

Lemma copy_okb_sound σ d s l : copy_okb σ d s l = true → copy_ok σ d s l.
Proof.
  unfold copy_okb. intros H. rewrite !andb_true_iff in H. destruct H as [[[H1 H2] H3] H4].
  split; [by apply bytes_atb_sound|by apply forallb_byte|by apply mappedb_sound|].
  apply orb_true_iff in H4. destruct H4; b2p; lia.
Qed.

(** ** Updating an array *)

Lemma nthZ_insert (l : list Z) i j v :
  0 <= i < lenZ l → 0 <= j → nthZ (<[Z.to_nat i := v]> l) j = if j =? i then v else nthZ l j.
Proof.
  intros Hi Hj. unfold nthZ, lenZ in *. destruct (j =? i) eqn:E; b2p.
  - subst. by rewrite list_lookup_total_insert_eq by lia.
  - by rewrite list_lookup_total_insert_ne by lia.
Qed.

Lemma lenZ_insert (l : list Z) i v : lenZ (<[i := v]> l) = lenZ l.
Proof. unfold lenZ. by rewrite length_insert. Qed.

Lemma lenZ_reverse (l : list Z) : lenZ (reverse l) = lenZ l.
Proof. unfold lenZ. by rewrite length_reverse. Qed.

Lemma nthZ_reverse (l : list Z) j :
  0 <= j < lenZ l → nthZ (reverse l) j = nthZ l (lenZ l - 1 - j).
Proof.
  intros Hj. unfold nthZ, lenZ in *. rewrite !list_lookup_total_alt.
  rewrite reverse_lookup by lia. do 2 f_equal. lia.
Qed.

(** Overwriting one element of an array that was written. *)
Lemma write_bytes_insert m p l i b :
  0 <= i < lenZ l →
  <[p + i := b]> (write_bytes m p l) = write_bytes m p (<[Z.to_nat i := b]> l).
Proof.
  intros Hi. apply map_eq. intros a. destruct (decide (a = p + i)) as [->|Ha].
  - rewrite lookup_insert_eq. rewrite write_bytes_lookup_in by (rewrite lenZ_insert; lia).
    by rewrite nthZ_insert, Z.eqb_refl by lia.
  - rewrite lookup_insert_ne by done.
    destruct (decide (p <= a < p + lenZ l)) as [Hin|Hout].
    + replace a with (p + (a - p)) by lia.
      rewrite !write_bytes_lookup_in by (rewrite ?lenZ_insert; lia).
      rewrite nthZ_insert by lia. rewrite (proj2 (Z.eqb_neq (a - p) i)) by lia. done.
    + rewrite !write_bytes_lookup_out by (rewrite ?lenZ_insert; lia). done.
Qed.
