(* ===== verification/Words.v ===== *)
(** * Word-at-a-time arithmetic

    The bit tricks with which the string functions look at four bytes at once:
    the zero-byte tests of [string_headers.h], [memchr.c], [strlen.c] and
    [strchrnul.c], and the lemmas that relate the bit operations on a 32-bit
    word to operations on its four bytes. *)

From stdpp Require Import base gmap list numbers.
From S2P Require Import Prelude CMem.
Open Scope Z_scope.

(** ** The tests *)

(** [DETECTNULL] of string_headers.h; [memchr.c] spells the same test with
    [repeated_one] and [repeated_one << 7]. *)
Definition DETECTNULL (x : Z) : Z :=
  Z.land (Z.land (u32 (x - 0x01010101)) (not32 x)) 0x80808080.

(** [HASZERO] of stpncpy.c, with [ONES] and [HIGHS] at 32 bits. *)
Definition ONES : Z := 4294967295 / 255.
Definition HIGHS : Z := ONES * (255 / 2 + 1).
Definition HASZERO (x : Z) : Z :=
  Z.land (Z.land (u32 (x - ONES)) (not32 x)) HIGHS.

(** The loop condition of strlen.c. *)
Definition strlen_magic1 : Z := 0xFEFEFEFF.
Definition strlen_magic2 : Z := 0x7F7F7F7F.
Definition strlen_test (x : Z) : Z :=
  Z.land (u32 (x + strlen_magic1)) (not32 (Z.lor x strlen_magic2)).

(** [__builtin_clz], defined for a nonzero argument. *)
Definition clz32 (x : Z) : Z := 31 - Z.log2 x.

(** The argument of [__builtin_clz] in strlen.c: 0x80 in every zero byte. *)
Definition strlen_zeros (x : Z) : Z :=
  not32 (Z.lor (Z.lor (u32 (Z.land x strlen_magic2 + strlen_magic2)) x) strlen_magic2).

(** The tentative test of the glibc loops in strchr.c and strchrnul.c. *)
Definition magic_bits : Z := 0x7efefeff.
Definition magic_test (x : Z) : Z :=
  Z.land (Z.lxor (u32 (x + magic_bits)) (not32 x)) (not32 magic_bits).

(** A word all of whose bytes are [c]: [c | c << 8], then [|= << 16]. *)
Definition repeat_char (c : Z) : Z :=
  let r := Z.lor c (u32 (Z.shiftl c 8)) in
  Z.lor r (u32 (Z.shiftl r 16)).

(** ** Bytes of a word *)

Lemma testbit_byte_cons a b n :
  is_byte b → 0 <= n →
  Z.testbit (a * 256 + b) n = if n <? 8 then Z.testbit b n else Z.testbit a (n - 8).
Proof.
  intros Hb Hn. unfold is_byte in Hb. destruct (n <? 8) eqn:E; b2p.
  - rewrite <- (Z.mod_pow2_bits_low (a * 256 + b) 8) by lia.
    f_equal. change (2 ^ 8) with 256. dlia.
  - replace n with (n - 8 + 8) at 1 by lia. rewrite <- Z.div_pow2_bits by lia.
    f_equal. change (2 ^ 8) with 256. dlia.
Qed.

Lemma byte_testbit_high b n : is_byte b → 8 <= n → Z.testbit b n = false.
Proof.
  intros Hb Hn. unfold is_byte in Hb.
  rewrite <- (Z.mod_small b (2 ^ 8)) by (change (2 ^ 8) with 256; lia).
  apply Z.mod_pow2_bits_high. lia.
Qed.

Section Bitwise.
Context (op : Z → Z → Z) (bop : bool → bool → bool).
Context (op_spec : ∀ a b n, 0 <= n → Z.testbit (op a b) n = bop (Z.testbit a n) (Z.testbit b n)).
Context (bop_ff : bop false false = false).
Context (op_nonneg : ∀ a b, 0 <= a → 0 <= b → 0 <= op a b).

Lemma byte_op a b : is_byte a → is_byte b → is_byte (op a b).
Proof.
  intros Ha Hb. pose proof (op_nonneg a b) as Hnn.
  assert (op a b = op a b mod 2 ^ 8) as ->.
  { apply Z.bits_inj'. intros n Hn. destruct (Z.lt_ge_cases n 8).
    - by rewrite Z.mod_pow2_bits_low by lia.
    - rewrite Z.mod_pow2_bits_high by lia. rewrite op_spec by lia.
      by rewrite !byte_testbit_high by done. }
  unfold is_byte. change (2 ^ 8) with 256. apply Z.mod_pos_bound. lia.
Qed.

Lemma op_byte_cons a b a' b' :
  is_byte b → is_byte b' →
  op (a * 256 + b) (a' * 256 + b') = op a a' * 256 + op b b'.
Proof.
  intros Hb Hb'. apply Z.bits_inj'. intros n Hn.
  rewrite op_spec by lia. rewrite !testbit_byte_cons by (done || by apply byte_op).
  destruct (n <? 8) eqn:E; b2p; rewrite op_spec by lia; done.
Qed.

Lemma op_be32 a0 a1 a2 a3 b0 b1 b2 b3 :
  is_byte a1 → is_byte a2 → is_byte a3 →
  is_byte b1 → is_byte b2 → is_byte b3 →
  op (be32 a0 a1 a2 a3) (be32 b0 b1 b2 b3) =
  be32 (op a0 b0) (op a1 b1) (op a2 b2) (op a3 b3).
Proof.
  intros. assert (∀ w x y z, be32 w x y z = ((w * 256 + x) * 256 + y) * 256 + z)
    as E by (intros; unfold be32; lia).
  rewrite !E, !op_byte_cons by done. done.
Qed.
End Bitwise.

Lemma land_be32 a0 a1 a2 a3 b0 b1 b2 b3 :
  is_byte a1 → is_byte a2 → is_byte a3 →
  is_byte b1 → is_byte b2 → is_byte b3 →
  Z.land (be32 a0 a1 a2 a3) (be32 b0 b1 b2 b3) =
  be32 (Z.land a0 b0) (Z.land a1 b1) (Z.land a2 b2) (Z.land a3 b3).
Proof.
  apply (op_be32 Z.land andb); [intros; apply Z.land_spec|done|].
  intros. apply Z.land_nonneg. auto.
Qed.

Lemma lor_be32 a0 a1 a2 a3 b0 b1 b2 b3 :
  is_byte a1 → is_byte a2 → is_byte a3 →
  is_byte b1 → is_byte b2 → is_byte b3 →
  Z.lor (be32 a0 a1 a2 a3) (be32 b0 b1 b2 b3) =
  be32 (Z.lor a0 b0) (Z.lor a1 b1) (Z.lor a2 b2) (Z.lor a3 b3).
Proof.
  apply (op_be32 Z.lor orb); [intros; apply Z.lor_spec|done|].
  intros. by apply Z.lor_nonneg.
Qed.

Lemma lxor_be32 a0 a1 a2 a3 b0 b1 b2 b3 :
  is_byte a1 → is_byte a2 → is_byte a3 →
  is_byte b1 → is_byte b2 → is_byte b3 →
  Z.lxor (be32 a0 a1 a2 a3) (be32 b0 b1 b2 b3) =
  be32 (Z.lxor a0 b0) (Z.lxor a1 b1) (Z.lxor a2 b2) (Z.lxor a3 b3).
Proof.
  apply (op_be32 Z.lxor xorb); [intros; apply Z.lxor_spec|done|].
  intros. by apply Z.lxor_nonneg.
Qed.

Lemma land_byte a b : is_byte a → is_byte b → is_byte (Z.land a b).
Proof.
  apply (byte_op Z.land andb); [intros; apply Z.land_spec|done|].
  intros. apply Z.land_nonneg. auto.
Qed.

Lemma lor_byte a b : is_byte a → is_byte b → is_byte (Z.lor a b).
Proof.
  apply (byte_op Z.lor orb); [intros; apply Z.lor_spec|done|].
  intros. by apply Z.lor_nonneg.
Qed.

Lemma lxor_byte a b : is_byte a → is_byte b → is_byte (Z.lxor a b).
Proof.
  apply (byte_op Z.lxor xorb); [intros; apply Z.lxor_spec|done|].
  intros. by apply Z.lxor_nonneg.
Qed.

#[export] Hint Resolve land_byte lor_byte lxor_byte : wp.

Lemma be32_range a b c d :
  is_byte a → is_byte b → is_byte c → is_byte d → 0 <= be32 a b c d < 4294967296.
Proof. unfold is_byte, be32. lia. Qed.

Lemma be32_inj a b c d a' b' c' d' :
  is_byte b → is_byte c → is_byte d → is_byte b' → is_byte c' → is_byte d' →
  be32 a b c d = be32 a' b' c' d' → a = a' ∧ b = b' ∧ c = c' ∧ d = d'.
Proof. unfold is_byte, be32. lia. Qed.

Lemma be32_zero a b c d :
  is_byte a → is_byte b → is_byte c → is_byte d →
  be32 a b c d = 0 ↔ a = 0 ∧ b = 0 ∧ c = 0 ∧ d = 0.
Proof. unfold is_byte, be32. lia. Qed.

Lemma not32_be32 a b c d :
  not32 (be32 a b c d) = be32 (255 - a) (255 - b) (255 - c) (255 - d).
Proof. unfold not32, be32. lia. Qed.

(** A property of bytes decided by trying all 256 of them. *)
Definition all_bytes (P : Z → bool) : bool := forallb P (seqZ 0 256).

Lemma all_bytes_spec P b : all_bytes P = true → is_byte b → P b = true.
Proof.
  intros H Hb. unfold all_bytes in H. rewrite forallb_forall in H. apply H.
  apply list_elem_of_In, elem_of_seqZ. unfold is_byte in Hb. lia.
Qed.

(** Subtracting 1 from every byte, with the borrows; [zt] is the 0x80 test of
    one byte [b] from which [1 + borrow] has been subtracted. *)
Definition zt (d b : Z) : Z := Z.land (Z.land (d mod 256) (255 - b)) 128.

Lemma zt_nonzero_byte b : is_byte b → 0 < b → zt (b - 1) b = 0.
Proof.
  intros Hb Hp.
  pose proof (all_bytes_spec (fun b => (b =? 0) || (zt (b - 1) b =? 0))%bool b eq_refl Hb) as H.
  cbn beta in H. b2p. destruct H; b2p; lia.
Qed.

Lemma zt_byte d b : is_byte b → is_byte (zt d b).
Proof.
  intros. unfold zt. repeat apply land_byte; unfold is_byte in *; try lia.
  apply Z.mod_pos_bound. lia.
Qed.

Lemma sub_ones_be32 a b c d :
  is_byte a → is_byte b → is_byte c → is_byte d →
  let k0 := b2z (d =? 0) in
  let k1 := b2z (c - 1 - k0 <? 0) in
  let k2 := b2z (b - 1 - k1 <? 0) in
  u32 (be32 a b c d - 0x01010101) =
  be32 ((a - 1 - k2) mod 256) ((b - 1 - k1) mod 256) ((c - 1 - k0) mod 256) ((d - 1) mod 256).
Proof.
  unfold is_byte, be32, u32. intros.
  destruct (d =? 0) eqn:E0; b2p; cbn [b2z];
  match goal with |- context [c - 1 - ?k <? 0] => destruct (c - 1 - k <? 0) eqn:E1 end;
  b2p; cbn [b2z];
  match goal with |- context [b - 1 - ?k <? 0] => destruct (b - 1 - k <? 0) eqn:E2 end;
  b2p; cbn [b2z]; dlia.
Qed.

(** The same for two bytes. *)
Lemma all_bytes2_spec (P : Z → Z → bool) a b :
  all_bytes (fun a => all_bytes (P a)) = true → is_byte a → is_byte b → P a b = true.
Proof.
  intros H Ha Hb. apply all_bytes_spec; [|done].
  by apply (all_bytes_spec (fun a => all_bytes (P a))).
Qed.

Lemma bit0_changed s x :
  is_byte s → is_byte x → Z.land (Z.lxor s (255 - x)) 1 = 0 → s mod 2 ≠ x mod 2.
Proof.
  intros Hs Hx.
  pose proof (all_bytes2_spec (fun s x =>
    negb (Z.land (Z.lxor s (255 - x)) 1 =? 0) || negb (s mod 2 =? x mod 2))%bool
    s x ltac:(by vm_compute) Hs Hx) as H. cbn beta in H. b2p.
  destruct H; b2p; lia.
Qed.

Lemma bits07_changed s x :
  is_byte s → is_byte x → Z.land (Z.lxor s (255 - x)) 129 = 0 →
  s mod 2 ≠ x mod 2 ∧ s / 128 ≠ x / 128.
Proof.
  intros Hs Hx.
  pose proof (all_bytes2_spec (fun s x =>
    negb (Z.land (Z.lxor s (255 - x)) 129 =? 0) ||
    (negb (s mod 2 =? x mod 2) && negb (s / 128 =? x / 128)))%bool
    s x ltac:(by vm_compute) Hs Hx) as H. cbn beta in H. b2p.
  destruct H; b2p; auto; lia.
Qed.

(** ** Correctness of the tests *)

Section Tests.
Context (a b c d : Z).
Context (Ha : is_byte a) (Hb : is_byte b) (Hc : is_byte c) (Hd : is_byte d).

Definition some_zero : Prop := a = 0 ∨ b = 0 ∨ c = 0 ∨ d = 0.

Lemma DETECTNULL_be32 :
  ∃ k0 k1 k2,
    DETECTNULL (be32 a b c d) =
      be32 (zt (a - 1 - k2) a) (zt (b - 1 - k1) b) (zt (c - 1 - k0) c) (zt (d - 1) d) ∧
    k0 = b2z (d =? 0) ∧ k1 = b2z (c - 1 - k0 <? 0) ∧ k2 = b2z (b - 1 - k1 <? 0).
Proof.
  pose proof (sub_ones_be32 a b c d Ha Hb Hc Hd) as Hs. cbv zeta in Hs.
  do 3 eexists. split; [|split; [reflexivity|split; reflexivity]].
  unfold DETECTNULL. rewrite Hs, not32_be32.
  change 0x80808080 with (be32 128 128 128 128).
  assert (∀ x, is_byte (x mod 256)) as Hmod by (intros; apply Z.mod_pos_bound; lia).
  assert (∀ x, is_byte x → is_byte (255 - x)) as Hn by (unfold is_byte; lia).
  assert (is_byte 128) by (unfold is_byte; lia).
  rewrite !land_be32 by auto with wp. done.
Qed.

Lemma DETECTNULL_spec : DETECTNULL (be32 a b c d) ≠ 0 ↔ some_zero.
Proof.
  destruct DETECTNULL_be32 as (k0 & k1 & k2 & -> & E0 & E1 & E2).
  rewrite be32_zero by (by apply zt_byte). unfold some_zero.
  pose proof (zt_nonzero_byte a Ha) as Na. pose proof (zt_nonzero_byte b Hb) as Nb.
  pose proof (zt_nonzero_byte c Hc) as Nc. pose proof (zt_nonzero_byte d Hd) as Nd.
  unfold is_byte in *.
  destruct (decide (d = 0)) as [->|Zd]; [split; [by auto|intros _ (?&?&?&?); done]|].
  rewrite (proj2 (Z.eqb_neq _ _) Zd) in E0. simpl in E0. subst k0. rewrite Z.sub_0_r in *.
  destruct (decide (c = 0)) as [->|Zc]; [split; [by auto|intros _ (?&?&?&?); done]|].
  destruct (c - 1 <? 0) eqn:Ec; b2p; [lia|]. simpl in E1. subst k1. rewrite Z.sub_0_r in *.
  destruct (decide (b = 0)) as [->|Zb]; [split; [by auto|intros _ (?&?&?&?); done]|].
  destruct (b - 1 <? 0) eqn:Eb; b2p; [lia|]. simpl in E2. subst k2. rewrite Z.sub_0_r in *.
  destruct (decide (a = 0)) as [->|Za]; [split; [by auto|intros _ (?&?&?&?); done]|].
  rewrite Na, Nb, Nc, Nd by lia. tauto.
Qed.

Lemma strlen_test_spec : strlen_test (be32 a b c d) ≠ 0 ↔ some_zero.
Proof.
  rewrite <- DETECTNULL_spec. unfold strlen_test, DETECTNULL, strlen_magic1, strlen_magic2.
  replace (u32 (be32 a b c d + 0xFEFEFEFF)) with (u32 (be32 a b c d - 0x01010101))
    by (unfold u32; pose proof (be32_range a b c d Ha Hb Hc Hd); dlia).
  rewrite <- Z.land_assoc. change 0x7F7F7F7F with (be32 127 127 127 127).
  change 0x80808080 with (be32 128 128 128 128).
  assert (∀ x, is_byte x → is_byte (255 - x)) as Hn by (unfold is_byte; lia).
  assert (is_byte 128) by (unfold is_byte; lia).
  assert (is_byte 127) by (unfold is_byte; lia).
  rewrite lor_be32, !not32_be32, land_be32 by auto with wp.
  assert (∀ x, is_byte x → 255 - Z.lor x 127 = Z.land (255 - x) 128) as Hx.
  { intros x Hx. pose proof (all_bytes_spec
      (fun x => 255 - Z.lor x 127 =? Z.land (255 - x) 128) x eq_refl Hx) as H'.
    cbn beta in H'. by b2p. }
  rewrite !Hx by done. done.
Qed.

(** The word that strlen.c hands to [__builtin_clz]. *)
Lemma strlen_zeros_be32 :
  let z x := if x =? 0 then 128 else 0 in
  strlen_zeros (be32 a b c d) = be32 (z a) (z b) (z c) (z d).
Proof.
  intros z. unfold strlen_zeros, strlen_magic2.
  change 0x7F7F7F7F with (be32 127 127 127 127).
  assert (is_byte 127) by (unfold is_byte; lia).
  rewrite land_be32 by done.
  assert (∀ x, is_byte x → is_byte (Z.land x 127 + 127) ∧
    255 - Z.lor (Z.lor (Z.land x 127 + 127) x) 127 = z x) as Hx.
  { intros x Hx. pose proof (all_bytes_spec
      (fun x => (0 <=? Z.land x 127 + 127) && (Z.land x 127 + 127 <? 256) &&
        (255 - Z.lor (Z.lor (Z.land x 127 + 127) x) 127 =? if x =? 0 then 128 else 0))%bool
      x eq_refl Hx) as H'.
    cbn beta in H'. b2p. split; [unfold is_byte; lia|done]. }
  destruct (Hx a Ha) as [? Ea], (Hx b Hb) as [? Eb], (Hx c Hc) as [? Ec], (Hx d Hd) as [? Ed].
  replace (u32 _) with (be32 (Z.land a 127 + 127) (Z.land b 127 + 127)
    (Z.land c 127 + 127) (Z.land d 127 + 127))
    by (unfold u32; rewrite Z.mod_small; unfold be32, is_byte in *; lia).
  rewrite !lor_be32 by auto with wp. rewrite not32_be32. by rewrite Ea, Eb, Ec, Ed.
Qed.

Lemma clz_be32_top : 1 <= a → Z.log2 (be32 a b c d) = 24 + Z.log2 a.
Proof.
  intros. apply Z.log2_unique; [pose proof (Z.log2_nonneg a); lia|].
  rewrite Z.pow_succ_r by (pose proof (Z.log2_nonneg a); lia).
  rewrite Z.pow_add_r by (pose proof (Z.log2_nonneg a); lia).
  pose proof (Z.log2_spec a ltac:(lia)) as [L U].
  rewrite Z.pow_succ_r in U by apply Z.log2_nonneg.
  change (2 ^ 24) with 16777216. unfold be32, is_byte in *. lia.
Qed.

Lemma magic_test_zero : some_zero → magic_test (be32 a b c d) ≠ 0.
Proof.
  intros Hz Ht. unfold magic_test, magic_bits in Ht.
  set (w := u32 (be32 a b c d + 0x7efefeff)) in Ht.
  assert (∃ s0 s1 s2 s3, w = be32 s0 s1 s2 s3 ∧
    is_byte s0 ∧ is_byte s1 ∧ is_byte s2 ∧ is_byte s3) as (s0&s1&s2&s3&Ew&B0&B1&B2&B3).
  { exists (w / 16777216), (w / 65536 mod 256), (w / 256 mod 256), (w mod 256).
    unfold is_byte, be32. assert (0 <= w < 4294967296)
      by (apply Z.mod_pos_bound; lia). repeat split; dlia. }
  rewrite Ew in Ht. change (not32 0x7efefeff) with (be32 129 1 1 0) in Ht.
  rewrite not32_be32 in Ht.
  assert (∀ x, is_byte x → is_byte (255 - x)) as Hn by (unfold is_byte; lia).
  assert (is_byte 1) by (unfold is_byte; lia). assert (is_byte 0) by (unfold is_byte; lia).
  assert (is_byte 129) by (unfold is_byte; lia).
  rewrite lxor_be32, land_be32, be32_zero in Ht by auto with wp.
  destruct Ht as (T0 & T1 & T2 & _).
  apply bit0_changed in T1, T2; [|done..]. apply bits07_changed in T0; [|done..].
  unfold w, u32, be32, is_byte, some_zero in *. clear w.
  destruct Hz as [->|[->|[->| ->]]]; dlia.
Qed.
End Tests.

Lemma HASZERO_DETECTNULL x : HASZERO x = DETECTNULL x.
Proof. reflexivity. Qed.

Lemma repeat_char_be32 c : is_byte c → repeat_char c = be32 c c c c.
Proof.
  intros Hc. pose proof (all_bytes_spec
    (fun c => repeat_char c =? be32 c c c c) c eq_refl Hc) as H. cbn beta in H. by b2p.
Qed.

(** Searching for [c]: after the xor with [repeat_char c], a zero byte is a
    byte equal to [c]. *)
Lemma lxor_repeat_char a b c d x :
  is_byte a → is_byte b → is_byte c → is_byte d → is_byte x →
  ∃ a' b' c' d', Z.lxor (be32 a b c d) (repeat_char x) = be32 a' b' c' d' ∧
    is_byte a' ∧ is_byte b' ∧ is_byte c' ∧ is_byte d' ∧
    (a' = 0 ↔ a = x) ∧ (b' = 0 ↔ b = x) ∧ (c' = 0 ↔ c = x) ∧ (d' = 0 ↔ d = x).
Proof.
  intros. rewrite repeat_char_be32, lxor_be32 by done.
  do 4 eexists. split; [reflexivity|]. rewrite !Z.lxor_eq_0_iff.
  repeat split; auto with wp; by apply lxor_byte.
Qed.

(** The position of the first zero byte, as [strlen] computes it. *)
Lemma strlen_clz_spec a b c d :
  is_byte a → is_byte b → is_byte c → is_byte d → some_zero a b c d →
  let k := clz32 (strlen_zeros (be32 a b c d)) / 8 in
  (k = 0 ∧ a = 0) ∨ (k = 1 ∧ a ≠ 0 ∧ b = 0) ∨
  (k = 2 ∧ a ≠ 0 ∧ b ≠ 0 ∧ c = 0) ∨ (k = 3 ∧ a ≠ 0 ∧ b ≠ 0 ∧ c ≠ 0 ∧ d = 0).
Proof.
  intros Ha Hb Hc Hd Hz. cbv zeta. rewrite strlen_zeros_be32 by done. cbv zeta.
  unfold some_zero in Hz.
  destruct (a =? 0) eqn:Ea, (b =? 0) eqn:Eb, (c =? 0) eqn:Ec, (d =? 0) eqn:Ed; b2p;
    try lia; vm_compute (clz32 _ / 8); tauto.
Qed.

(** Rounding an address down to a word boundary. *)
Lemma land_not3 a : 0 <= a < 4294967296 → Z.land a (not32 3) = a - a mod 4.
Proof.
  intros Ha. replace (a - a mod 4) with (Z.shiftl (a / 4) 2)
    by (rewrite Z.shiftl_mul_pow2 by lia; change (2 ^ 2) with 4; dlia).
  change (not32 3) with (Z.shiftl (Z.ones 30) 2). change 4 with (2 ^ 2).
  rewrite <- Z.shiftr_div_pow2 by lia. apply Z.bits_inj'. intros n Hn. rewrite Z.land_spec.
  destruct (Z.lt_ge_cases n 2).
  - rewrite !Z.shiftl_spec_low by lia. apply andb_false_r.
  - rewrite !Z.shiftl_spec_high, Z.shiftr_spec by lia. replace (n - 2 + 2) with n by lia.
    destruct (Z.lt_ge_cases n 32).
    + rewrite Z.ones_spec_low by lia. apply andb_true_r.
    + rewrite <- (Z.mod_small a (2 ^ 32)) by (change (2 ^ 32) with 4294967296; lia).
      by rewrite Z.mod_pow2_bits_high by lia.
Qed.

Lemma land_1_mod a : Z.land a 1 = a mod 2.
Proof. apply (Z.land_ones a 1). lia. Qed.
Lemma land_3_mod a : Z.land a 3 = a mod 4.
Proof. apply (Z.land_ones a 2). lia. Qed.

Lemma land_not32 x : 0 <= x < 4294967296 → Z.land (not32 x) x = 0.
Proof.
  intros Hx. replace (not32 x) with (Z.land (Z.lnot x) (Z.ones 32)).
  - by rewrite (Z.land_comm (Z.lnot x)), <- Z.land_assoc, (Z.land_comm (Z.lnot x)),
      Z.land_lnot_diag, Z.land_0_r.
  - rewrite Z.land_ones by lia. unfold not32, Z.lnot. change (2 ^ 32) with 4294967296. dlia.
Qed.
