(* ===== verification/Ctype.v ===== *)
(** * Character classes

    library/ctype: the table [_ctype_], the classification functions that index
    it and the case conversions, with their meaning in the "C" locale. *)

From stdpp Require Import base list numbers.
From S2P Require Import Prelude CMem Words.
Open Scope Z_scope.

(** ** Definitions *)

Definition _U : Z := 1.
Definition _L : Z := 2.
Definition _N : Z := 4.
Definition _S : Z := 8.
Definition _P : Z := 16.
Definition _C : Z := 32.
Definition _X : Z := 64.
Definition _B : Z := 128.

Definition _CTYPE_DATA_0_127 : list Z :=
  let CS := Z.lor _C _S in let SB := Z.lor _S _B in
  let UX := Z.lor _U _X in let LX := Z.lor _L _X in
  [_C; _C; _C; _C; _C; _C; _C; _C;
   _C; CS; CS; CS; CS; CS; _C; _C;
   _C; _C; _C; _C; _C; _C; _C; _C;
   _C; _C; _C; _C; _C; _C; _C; _C;
   SB; _P; _P; _P; _P; _P; _P; _P;
   _P; _P; _P; _P; _P; _P; _P; _P;
   _N; _N; _N; _N; _N; _N; _N; _N;
   _N; _N; _P; _P; _P; _P; _P; _P;
   _P; UX; UX; UX; UX; UX; UX; _U;
   _U; _U; _U; _U; _U; _U; _U; _U;
   _U; _U; _U; _U; _U; _U; _U; _U;
   _U; _U; _U; _P; _P; _P; _P; _P;
   _P; LX; LX; LX; LX; LX; LX; _L;
   _L; _L; _L; _L; _L; _L; _L; _L;
   _L; _L; _L; _L; _L; _L; _L; _L;
   _L; _L; _L; _P; _P; _P; _P; _C].

Definition _CTYPE_DATA_128_256 : list Z := replicate 128 0.

Definition _ctype_ : list Z := 0 :: _CTYPE_DATA_0_127 ++ _CTYPE_DATA_128_256.

(** [(_ctype_ + 1)[c] & mask], for [c] from EOF to 255. *)
Definition ctype (c mask : Z) : Z := Z.land (nthZ _ctype_ (c + 1)) mask.

Definition isalnum (c : Z) : Z := ctype c (Z.lor (Z.lor _U _L) _N).
Definition isalpha (c : Z) : Z := ctype c (Z.lor _U _L).
Definition isascii (c : Z) : Z := b2z ((0 <=? c) && (c <? 128)).
Definition isblank (c : Z) : Z := b2z ((c =? 32) || (c =? 9)).
Definition iscntrl (c : Z) : Z := ctype c _C.
Definition isdigit (c : Z) : Z := ctype c _N.
Definition isgraph (c : Z) : Z := ctype c (Z.lor (Z.lor (Z.lor _P _U) _L) _N).
Definition islower (c : Z) : Z := ctype c _L.
Definition isprint (c : Z) : Z := ctype c (Z.lor (Z.lor (Z.lor (Z.lor _P _U) _L) _N) _B).
Definition ispunct (c : Z) : Z := ctype c _P.
Definition isspace (c : Z) : Z := ctype c _S.
Definition isupper (c : Z) : Z := ctype c _U.
Definition isxdigit (c : Z) : Z := ctype c (Z.lor _X _N).
Definition toascii (c : Z) : Z := Z.land c 127.

Definition EOF : Z := -1.

(** [towchar] stands for the conversion through wide characters, which needs
    the locale: [None] when it fails. *)
Definition tolower (MB_CUR_MAX : Z) (towchar : Z → option Z) (c : Z) : Z :=
  if u8 c <=? 0x7f then
    if negb (isupper c =? 0) then c - 65 + 97 else c
  else if negb (c =? EOF) && (MB_CUR_MAX =? 1) && negb (isupper c =? 0) then
    match towchar c with Some s0 => u8 s0 | None => c end
  else c.

Definition toupper (MB_CUR_MAX : Z) (towchar : Z → option Z) (c : Z) : Z :=
  if u8 c <=? 0x7f then
    if negb (islower c =? 0) then c - 97 + 65 else c
  else if negb (c =? EOF) && (MB_CUR_MAX =? 1) && negb (islower c =? 0) then
    match towchar c with Some s0 => u8 s0 | None => c end
  else c.

(** ** Meaning *)

Definition between (a c b : Z) : bool := (a <=? c) && (c <=? b).
Definition c_upper (c : Z) : bool := between 65 c 90.
Definition c_lower (c : Z) : bool := between 97 c 122.
Definition c_digit (c : Z) : bool := between 48 c 57.
Definition c_graph (c : Z) : bool := between 33 c 126.

(** The classes of the C standard for the "C" locale. *)
Definition class_spec (c : Z) : list (Z * bool) :=
  [(isupper c, c_upper c); (islower c, c_lower c); (isdigit c, c_digit c);
   (isalpha c, c_upper c || c_lower c); (isalnum c, c_upper c || c_lower c || c_digit c);
   (isxdigit c, c_digit c || between 65 c 70 || between 97 c 102);
   (isspace c, (c =? 32) || between 9 c 13); (iscntrl c, between 0 c 31 || (c =? 127));
   (isgraph c, c_graph c); (isprint c, between 32 c 126);
   (ispunct c, c_graph c && negb (c_upper c || c_lower c || c_digit c));
   (isblank c, (c =? 32) || (c =? 9)); (isascii c, between 0 c 127)].

Definition class_ok (c : Z) : bool :=
  forallb (fun '(v, b) => eqb (negb (v =? 0)) b) (class_spec c).

Lemma class_all c : -1 <= c < 256 → class_ok c = true.
Proof. apply (forallb_seqZ class_ok (-1) 257). vm_compute. reflexivity. Qed.

(** The class of a character, by its position in [class_spec]. *)
Lemma class_of c v b : -1 <= c < 256 → (v, b) ∈ class_spec c → negb (v =? 0) = b.
Proof.
  intros Hc Hin. pose proof (class_all c Hc) as H. unfold class_ok in H.
  rewrite forallb_forall in H. apply list_elem_of_In in Hin. specialize (H _ Hin).
  cbn beta iota in H. by apply eqb_prop in H.
Qed.

Lemma isspace_spec c : -1 <= c < 256 → negb (isspace c =? 0) = (c =? 32) || between 9 c 13.
Proof. intros Hc. apply (class_of c); [done|]. unfold class_spec. do 6 right. left. Qed.

Lemma isupper_spec c : -1 <= c < 256 → negb (isupper c =? 0) = c_upper c.
Proof. intros Hc. apply (class_of c); [done|]. unfold class_spec. left. Qed.

Lemma islower_spec c : -1 <= c < 256 → negb (islower c =? 0) = c_lower c.
Proof. intros Hc. apply (class_of c); [done|]. unfold class_spec. right. left. Qed.

(** for EOF and every [unsigned char], each classification function is
    true exactly on its class of the "C" locale, and the case conversions map
    the letters of one case to the other and leave every other character alone,
    whatever the wide-character conversion does. *)
Theorem ctype_correct mb towchar c :
  -1 <= c < 256 →
  Forall (fun '(v, b) => (v ≠ 0 ↔ b = true)) (class_spec c) ∧
  tolower mb towchar c = (if c_upper c then c + 32 else c) ∧
  toupper mb towchar c = (if c_lower c then c - 32 else c).
Proof.
  intros Hc. split.
  { apply Forall_forall. intros [v b] Hin. pose proof (class_of c v b Hc) as H.
    rewrite <- H by (by apply list_elem_of_In). destruct (v =? 0) eqn:E; b2p; naive_solver. }
  unfold tolower, toupper. rewrite isupper_spec, islower_spec by done.
  assert (c_upper c = true → u8 c <= 127) as H1
    by (unfold c_upper, between, u8; intros; b2p; dlia).
  assert (c_lower c = true → u8 c <= 127) as H2
    by (unfold c_lower, between, u8; intros; b2p; dlia).
  destruct (u8 c <=? 127) eqn:E; b2p.
  - split; [destruct (c_upper c)|destruct (c_lower c)]; lia.
  - destruct (c_upper c); [lia|]. destruct (c_lower c); [lia|]. by rewrite !andb_false_r.
Qed.

Lemma ctype_correct_witness :
  tolower 1 (fun _ => None) 65 = 97 ∧ toupper 1 (fun _ => None) 255 = 255.
Proof.
  split.
  - apply (ctype_correct 1 (fun _ => None) 65). lia.
  - apply (ctype_correct 1 (fun _ => None) 255). lia.
Defined.
