(* ===== verification/MemFuncs.v ===== *)
(** * Memory functions of <string.h>

    [memchr], [memcmp], [memccpy], [mempcpy] and [memrchr] of
    library/string.  The searching and copying loops work on aligned 32-bit
    words where they can; the theorems compare them with byte-by-byte
    definitions on lists. *)

From stdpp Require Import base gmap list numbers.
From S2P Require Import Prelude CMem Words.
Open Scope Z_scope.

(** ** Definitions *)

(** string/memchr.c, [__memchr].  [sizeof(longword)] is 4, so the block for
    wider longwords is dead code. *)
Definition __memchr (s c_in n : Z) : M cstate Z :=
  let c := u8 c_in in
  '(longword_ptr, n) ⇐
    loop (fun '(char_ptr, n) =>
            if (0 <? n) && negb (char_ptr mod 4 =? 0) then
              b ← load8 char_ptr;
              if b =? c then break (inl char_ptr)
              else continue (char_ptr + 1, n - 1)
            else break (inr (char_ptr, n))) (s, n);
  let repeated_one := 0x01010101 in
  let repeated_c := repeat_char c in
  '(char_ptr, n) ←
    loop (fun '(longword_ptr, n) =>
            if 4 <=? n then
              w ← load32 longword_ptr;
              let longword1 := Z.lxor w repeated_c in
              if negb (Z.land (Z.land (u32 (longword1 - repeated_one)) (not32 longword1))
                              (u32 (Z.shiftl repeated_one 7)) =? 0)
              then break (longword_ptr, n)
              else continue (longword_ptr + 4, n - 4)
            else break (longword_ptr, n)) (longword_ptr, n);
  loop (fun '(char_ptr, n) =>
          if 0 <? n then
            b ← load8 char_ptr;
            if b =? c then break char_ptr
            else continue (char_ptr + 1, n - 1)
          else break NULL) (char_ptr, n).

Definition memchr (ptr val len : Z) : M cstate Z :=
  if (ptr =? NULL) || (len <=? 0) then
    _ ← set_errno EFAULT; mret NULL
  else __memchr ptr (Z.land val 255) len.

(** The alignment macros of string_headers.h. *)
Definition IS_UNALIGNED (a : Z) : bool := negb (Z.land a 1 =? 0).
Definition IS_SHORT_ALIGNED (a : Z) : bool := Z.land a 3 =? 2.
Definition IS_LONG_ALIGNED (a : Z) : bool := Z.land a 3 =? 0.
Definition TOO_SMALL (len : Z) : bool := len <? 4.
Definition UNALIGNED (x y : Z) : bool := negb (Z.lor (Z.land x 3) (Z.land y 3) =? 0).
Definition BIGBLOCKSIZE : Z := Z.shiftl 4 2.
Definition LITTLEBLOCKSIZE : Z := 4.

(** string/memcmp.c, [__memcmp], in four parts.  A part that meets a difference
    goes to the label [out] with the current [m1], [m2], [len] and [result]. *)
Definition memcmp_align_byte (m1 m2 len : Z)
  : M cstate ((Z * Z * Z * Z) + (Z * Z * Z)) :=
  if IS_UNALIGNED m1 && IS_UNALIGNED m2 then
    let len := len - 1 in
    a ← load8 m1; b ← load8 m2;
    if negb (a =? b) then return_ (m1, m2, len, a - b)
    else go_on (m1 + 1, m2 + 1, len)
  else go_on (m1, m2, len).

Definition memcmp_align_short (m1 m2 len : Z)
  : M cstate ((Z * Z * Z * Z) + (Z * Z * Z)) :=
  if (2 <=? len) && (IS_SHORT_ALIGNED m1 && IS_SHORT_ALIGNED m2) then
    a ← load16 m1; b ← load16 m2;
    if negb (a =? b) then return_ (m1, m2, len, 0)
    else go_on (m1 + 2, m2 + 2, len - 2)
  else go_on (m1, m2, len).

Definition memcmp_longs (m1 m2 len : Z) : M cstate (Z * Z * Z * Z) :=
  if (4 <=? len) && (IS_LONG_ALIGNED m1 && IS_LONG_ALIGNED m2) then
    loop (fun '(m1, m2, len) =>
            a ← load32 m1; b ← load32 m2;
            if negb (a =? b) then break (m1, m2, len, 0)
            else
              let len := len - 4 in
              if 4 <=? len then continue (m1 + 4, m2 + 4, len)
              else break (m1 + 4, m2 + 4, len, 0)) (m1, m2, len)
  else mret (m1, m2, len, 0).

Definition memcmp_out (m1 m2 len result : Z) : M cstate Z :=
  loop (fun '(m1, m2, len) =>
          if 0 <? len then
            let len := len - 1 in
            b1 ← load8 m1; b2 ← load8 m2;
            if negb (b1 =? b2) then break (b1 - b2)
            else continue (m1 + 1, m2 + 1, len)
          else break result) (m1, m2, len).

Definition __memcmp (m1 m2 len : Z) : M cstate Z :=
  '(m1, m2, len, result) ←
    (if 4 * 4 <? len then
       '(m1, m2, len) ⇐ memcmp_align_byte m1 m2 len;
       '(m1, m2, len) ⇐ memcmp_align_short m1 m2 len;
       memcmp_longs m1 m2 len
     else mret (m1, m2, len, 0));
  memcmp_out m1 m2 len result.

Definition memcmp (ptr1 ptr2 len : Z) : M cstate Z :=
  if negb (ptr1 =? ptr2) && (0 <? len) then __memcmp ptr1 ptr2 len
  else _ ← set_errno EFAULT; mret 0.

(** string/memccpy.c; [endchar] is an unsigned [char]. *)
Definition memccpy (dst0 src0 endchar0 len0 : Z) : M cstate Z :=
  let endchar := Z.land endchar0 0xff in
  '(dst, src, len) ←
    (if negb (TOO_SMALL len0) && negb (UNALIGNED src0 dst0) then
       let mask := foldl (fun mask _ => u32 (u32 (Z.shiftl mask 8) + endchar)) 0 (seq 0 4) in
       loop (fun '(aligned_dst, aligned_src, len) =>
               if LITTLEBLOCKSIZE <=? len then
                 w ← load32 aligned_src;
                 let buffer := Z.lxor w mask in
                 if negb (DETECTNULL buffer =? 0) then break (aligned_dst, aligned_src, len)
                 else
                   w ← load32 aligned_src;
                   _ ← store32 aligned_dst w;
                   continue (aligned_dst + 4, aligned_src + 4, len - LITTLEBLOCKSIZE)
               else break (aligned_dst, aligned_src, len)) (dst0, src0, len0)
     else mret (dst0, src0, len0));
  loop (fun '(dst, src, len) =>
          if negb (len =? 0) then
            b ← load8 src;
            _ ← store8 dst b;
            if b =? endchar then break (dst + 1)
            else continue (dst + 1, src + 1, len - 1)
          else break NULL) (dst, src, len).

(** string/mempcpy.c *)
Definition mempcpy (dst0 src0 len0 : Z) : M cstate Z :=
  '(dst, src, len) ←
    (if negb (TOO_SMALL len0) && negb (UNALIGNED src0 dst0) then
       '(aligned_dst, aligned_src, len) ←
         loop (fun '(aligned_dst, aligned_src, len) =>
                 if BIGBLOCKSIZE <=? len then
                   w ← load32 aligned_src; _ ← store32 aligned_dst w;
                   w ← load32 (aligned_src + 4); _ ← store32 (aligned_dst + 4) w;
                   w ← load32 (aligned_src + 8); _ ← store32 (aligned_dst + 8) w;
                   w ← load32 (aligned_src + 12); _ ← store32 (aligned_dst + 12) w;
                   continue (aligned_dst + 16, aligned_src + 16, len - BIGBLOCKSIZE)
                 else break (aligned_dst, aligned_src, len)) (dst0, src0, len0);
       loop (fun '(aligned_dst, aligned_src, len) =>
               if LITTLEBLOCKSIZE <=? len then
                 w ← load32 aligned_src; _ ← store32 aligned_dst w;
                 continue (aligned_dst + 4, aligned_src + 4, len - LITTLEBLOCKSIZE)
               else break (aligned_dst, aligned_src, len)) (aligned_dst, aligned_src, len)
     else mret (dst0, src0, len0));
  loop (fun '(dst, src, len) =>
          if negb (len =? 0) then
            b ← load8 src; _ ← store8 dst b;
            continue (dst + 1, src + 1, len - 1)
          else break dst) (dst, src, len).

(** string/memrchr.c *)
Definition memrchr (s c n : Z) : M cstate Z :=
  if negb (n =? 0) then
    loop (fun '(cp, n) =>
            let cp := cp - 1 in
            b ← load8 cp;
            if b =? u8 c then break cp
            else
              let n := n - 1 in
              if negb (n =? 0) then continue (cp, n) else break NULL) (s + n, n)
  else mret NULL.

(** ** memchr *)

Section Memchr.
Context (σ : cstate) (s c : Z) (l : list Z).
Context (Hl : bytes_at (mem σ) s l) (Hb : Forall is_byte l) (Hc : is_byte c).
Context (Hlen : lenZ l < 4294967296).

(** The first [i] bytes have been searched without success. *)
Definition unseen (i : Z) : Prop :=
  0 <= i <= lenZ l ∧ ∀ j, 0 <= j < i → (nthZ l j =? c) = false.

Lemma unseen_step i : unseen i → i < lenZ l → nthZ l i ≠ c → unseen (i + 1).
Proof.
  intros [H1 H2] H3 H4. split; [lia|]. intros j Hj.
  destruct (decide (j = i)) as [->|]; [by apply Z.eqb_neq|]. apply H2. lia.
Qed.

Lemma unseen_found i : unseen i → i < lenZ l → nthZ l i = c →
  find_index (fun b => b =? c) l = Some i.
Proof.
  intros [H1 H2] H3 H4. apply find_index_Some_2; [lia| |done]. by apply Z.eqb_eq.
Qed.

Lemma unseen_end : unseen (lenZ l) → find_index (fun b => b =? c) l = None.
Proof. intros [_ H]. by apply find_index_None_2. Qed.

(** The byte loop that ends the search. *)
Lemma memchr_tail_spec n0 :
  unseen (lenZ l - n0) →
  wp (loop (fun '(char_ptr, n) =>
        if 0 <? n then
          b ← load8 char_ptr;
          if b =? c then break char_ptr
          else continue (char_ptr + 1, n - 1)
        else break NULL) (s + (lenZ l - n0), n0))
     (fun r τ => r = ptr_of s (find_index (fun b => b =? c) l) ∧ τ = σ) σ.
Proof.
  intros Hi. apply (wp_loop _
    (fun '(p, n) τ => τ = σ ∧ p = s + (lenZ l - n) ∧ unseen (lenZ l - n))
    _ (fun '(p, n) => n)).
  - intros [p n] τ (-> & -> & Hu). destruct (0 <? n) eqn:E; b2p.
    + wp_step. apply (wp_load8_at _ l); [done|unfold unseen in Hu; lia|].
      destruct (nthZ l (lenZ l - n) =? c) eqn:Ec; b2p; wp_step.
      * rewrite (unseen_found (lenZ l - n)); [done|done|lia|done].
      * split; [|lia]. split; [done|]. split; [lia|].
        replace (lenZ l - (n - 1)) with (lenZ l - n + 1) by lia.
        apply unseen_step; [done|lia|done].
    + wp_step. assert (n = 0) as -> by (unfold unseen in Hu; lia).
      rewrite Z.sub_0_r in Hu. rewrite unseen_end by done. done.
  - done.
  - intros [p n] τ (-> & _ & [H _]). lia.
  - destruct Hi as [H _]. lia.
Qed.

(** Four bytes none of which is [c] are skipped at once. *)
Lemma unseen_word i w' :
  unseen i → i + 4 <= lenZ l →
  w' = Z.lxor (be32 (nthZ l i) (nthZ l (i + 1)) (nthZ l (i + 2)) (nthZ l (i + 3)))
         (repeat_char c) →
  DETECTNULL w' = 0 → unseen (i + 4).
Proof.
  intros Hu Hi -> Hd. pose proof (proj1 Hu).
  assert (∀ j, 0 <= j < lenZ l → is_byte (nthZ l j)) as Hbj by (intros; by apply Forall_nthZ).
  destruct (lxor_repeat_char (nthZ l i) (nthZ l (i + 1)) (nthZ l (i + 2)) (nthZ l (i + 3)) c)
    as (a' & b' & c' & d' & E & Ba & Bb & Bc & Bd & Ea & Eb & Ec & Ed); try (apply Hbj; lia).
  { done. }
  rewrite E in Hd. assert (¬ some_zero a' b' c' d') as Hz
    by (by rewrite <- DETECTNULL_spec by done; intros []).
  unfold some_zero in Hz.
  replace (i + 4) with (i + 1 + 1 + 1 + 1) by lia.
  repeat (apply unseen_step; [|lia|rewrite <- ?Z.add_assoc; simpl; tauto]). done.
Qed.

Lemma __memchr_spec :
  wp (__memchr s c (lenZ l))
     (fun r τ => r = ptr_of s (find_index (fun b => b =? c) l) ∧ τ = σ) σ.
Proof.
  unfold __memchr. rewrite (u8_small c) by done. wp_step.
  apply (wp_loop _
    (fun '(p, n) τ => τ = σ ∧ p = s + (lenZ l - n) ∧ unseen (lenZ l - n))
    _ (fun '(p, n) => n)).
  - intros [p n] τ (-> & -> & Hu). pose proof (proj1 Hu).
    destruct ((0 <? n) && negb ((s + (lenZ l - n)) mod 4 =? 0))%bool eqn:E.
    + b2p. wp_step. apply (wp_load8_at _ l); [done|lia|].
      destruct (nthZ l (lenZ l - n) =? c) eqn:Ec; b2p; wp_step.
      * rewrite (unseen_found (lenZ l - n)); [done|done|lia|done].
      * split; [|lia]. split; [done|]. split; [lia|].
        replace (lenZ l - (n - 1)) with (lenZ l - n + 1) by lia.
        apply unseen_step; [done|lia|done].
    + wp_step. assert (n = 0 ∨ (s + (lenZ l - n)) mod 4 = 0) as Hal by (b2p; destruct E; b2p; lia).
      clear E. wp_step.
      apply (wp_loop _
        (fun '(p, n) τ => τ = σ ∧ p = s + (lenZ l - n) ∧ unseen (lenZ l - n) ∧
           (n = 0 ∨ (s + (lenZ l - n)) mod 4 = 0))
        _ (fun '(p, n) => n)).
      * clear n Hu Hal H. intros [p n] τ (-> & -> & Hu & Hal). pose proof (proj1 Hu).
        destruct (4 <=? n) eqn:E; b2p.
        -- wp_step. apply (wp_load32_at _ l); [done|lia|lia|lia|].
           match goal with |- context [Z.lxor ?w _] => set (w1 := Z.lxor w (repeat_char c)) end.
           change (Z.land _ (u32 (Z.shiftl 0x01010101 7))) with (DETECTNULL w1).
           destruct (negb (DETECTNULL w1 =? 0)) eqn:Ed; b2p; wp_step.
           ++ apply memchr_tail_spec. done.
           ++ split; [|lia]. split; [done|]. split; [lia|].
              replace (lenZ l - (n - 4)) with (lenZ l - n + 4) by lia.
              split; [|right; dlia]. by eapply unseen_word; [|lia| |].
        -- wp_step. apply memchr_tail_spec; done.
      * done.
      * intros [p' n'] τ (_ & _ & [Hx _] & _). lia.
      * lia.
  - rewrite Z.sub_diag, Z.add_0_r. split; [done|]. split; [done|]. split; [|lia].
    pose proof (lenZ_nonneg l). lia.
  - intros [p n] τ (-> & _ & [H _]). lia.
  - pose proof (lenZ_nonneg l). lia.
Qed.
End Memchr.

(** [memchr] returns the address of the first of the [len] bytes at [ptr]
    that equals [val] converted to [unsigned char], or NULL; it terminates,
    leaves memory and [errno] alone and touches no byte outside the array, for
    every alignment of [ptr]. *)
Theorem memchr_correct σ ptr val l :
  bytes_at (mem σ) ptr l → Forall is_byte l →
  ptr ≠ NULL → l ≠ [] → lenZ l < 4294967296 →
  memchr ptr val (lenZ l) σ =
  Ok (ptr_of ptr (find_index (fun b => b =? u8 val) l), σ).
Proof.
  intros Hl Hb Hp Hne Hlen. apply wp_eq. unfold memchr.
  rewrite (proj2 (Z.eqb_neq ptr NULL) Hp).
  destruct (lenZ l <=? 0) eqn:E; [b2p; destruct l; [done|rewrite lenZ_cons in E];
    pose proof (lenZ_nonneg l); lia|]. simpl.
  assert (Z.land val 255 = u8 val) as -> by (apply (Z.land_ones val 8); lia).
  apply __memchr_spec; [done|done| |done]. apply Z.mod_pos_bound. lia.
Qed.

Lemma memchr_correct_witness :
  let σ := CState (write_bytes ∅ 101 [7; 9; 200; 3; 4; 5; 200]) 0 in
  memchr 101 (-56) 7 σ = Ok (103, σ).
Proof.
  apply (memchr_correct (CState (write_bytes ∅ 101 [7; 9; 200; 3; 4; 5; 200]) 0) 101 (-56)
    [7; 9; 200; 3; 4; 5; 200]).
  - apply write_bytes_bytes_at.
  - repeat constructor; unfold is_byte; lia.
  - done.
  - done.
  - done.
Defined.

(** ** memcmp *)

(** The difference of the first pair of bytes that differ. *)
Fixpoint lex_diff (l k : list Z) : Z :=
  match l, k with
  | x :: l', y :: k' => if x =? y then lex_diff l' k' else x - y
  | _, _ => 0
  end.

Lemma lex_diff_found l k i :
  0 <= i < lenZ l → i < lenZ k →
  (∀ j, 0 <= j < i → nthZ l j = nthZ k j) → nthZ l i ≠ nthZ k i →
  lex_diff l k = nthZ l i - nthZ k i.
Proof.
  revert k i. induction l as [|x l IH]; intros [|y k] i Hl Hk He Hne;
    try (unfold lenZ in *; simpl in *; lia).
  rewrite !lenZ_cons in *. simpl. destruct (decide (i = 0)) as [->|].
  - rewrite !nthZ_cons_0 in *. by rewrite (proj2 (Z.eqb_neq x y)).
  - pose proof (He 0 ltac:(lia)) as E0. rewrite !nthZ_cons_0 in E0. subst y.
    rewrite Z.eqb_refl. rewrite !nthZ_cons_S in * by lia. apply IH; [lia|lia| |done].
    intros j Hj. specialize (He (j + 1)). rewrite !nthZ_cons_S in He by lia.
    replace (j + 1 - 1) with j in He by lia. apply He. lia.
Qed.

Lemma lex_diff_refl l : lex_diff l l = 0.
Proof. induction l; simpl; [done|]. by rewrite Z.eqb_refl. Qed.

Lemma lex_diff_equal l k :
  lenZ l = lenZ k → (∀ j, 0 <= j < lenZ l → nthZ l j = nthZ k j) → lex_diff l k = 0.
Proof. intros. rewrite (list_eq_nthZ l k) by done. apply lex_diff_refl. Qed.


Section Memcmp.
Context (σ : cstate) (p q : Z) (l k : list Z).
Context (Hl : bytes_at (mem σ) p l) (Hk : bytes_at (mem σ) q k).
Context (Bl : Forall is_byte l) (Bk : Forall is_byte k).
Context (Hlk : lenZ k = lenZ l) (Hlen : lenZ l < 4294967296).

(** The first [i] bytes are equal. *)
Definition same (i : Z) : Prop :=
  0 <= i <= lenZ l ∧ ∀ j, 0 <= j < i → nthZ l j = nthZ k j.

Lemma same_step i : same i → nthZ l i = nthZ k i → i < lenZ l → same (i + 1).
Proof.
  intros [H1 H2] H3 H4. split; [lia|]. intros j Hj.
  destruct (decide (j = i)) as [->|]; [done|]. apply H2. lia.
Qed.

Lemma same_word i :
  same i → i + 4 <= lenZ l →
  be32 (nthZ l i) (nthZ l (i + 1)) (nthZ l (i + 2)) (nthZ l (i + 3)) =
  be32 (nthZ k i) (nthZ k (i + 1)) (nthZ k (i + 2)) (nthZ k (i + 3)) →
  same (i + 4).
Proof.
  intros Hs Hi E. pose proof (proj1 Hs).
  apply be32_inj in E as (E0 & E1 & E2 & E3); try (apply Forall_nthZ; [done|lia]).
  replace (i + 4) with (i + 1 + 1 + 1 + 1) by lia.
  repeat (apply same_step; [|rewrite <- ?Z.add_assoc; done|lia]). done.
Qed.

(** What holds at the label [out]. *)
Definition at_out (i n result : Z) : Prop :=
  same i ∧ 0 <= n ∧ i + n <= lenZ l ∧
  ((i + n = lenZ l ∧ result = 0) ∨ (0 < n ∧ nthZ l i ≠ nthZ k i)).

(** The state at [out], and the state between the parts. *)
Definition out_state (x : Z * Z * Z * Z) (τ : cstate) : Prop :=
  let '(m1, m2, n, r) := x in
  τ = σ ∧ ∃ i, m1 = p + i ∧ m2 = q + i ∧ at_out i n r.
Definition mid_state (n0 : Z) (x : Z * Z * Z) (τ : cstate) : Prop :=
  let '(m1, m2, n) := x in
  τ = σ ∧ ∃ i, m1 = p + i ∧ m2 = q + i ∧ same i ∧ i + n = lenZ l ∧ n0 <= n.

Ltac at_index i := split; [done|]; exists i; do 2 (split; [lia|]); split.

Lemma memcmp_out_spec m1 m2 n r τ :
  out_state (m1, m2, n, r) τ →
  wp (memcmp_out m1 m2 n r) (fun r τ => r = lex_diff l k ∧ τ = σ) τ.
Proof.
  intros H0. apply (wp_loop _ (fun '(m1, m2, n) => out_state (m1, m2, n, r))
    _ (fun '(m1, m2, n) => n)).
  - clear H0 n m1 m2 τ. intros [[m1 m2] n] τ (-> & i & -> & -> & Hs & Hn & Hi & Hr).
    pose proof (proj1 Hs). destruct (0 <? n) eqn:E; b2p.
    + cbv zeta. wp_step. apply (wp_load8_at _ l); [done|lia|].
      wp_step. apply (wp_load8_at _ k); [done|lia|].
      destruct (negb (nthZ l i =? nthZ k i)) eqn:Ed; b2p; wp_step.
      * split; [|done]. symmetry. apply lex_diff_found; [lia|lia| |done]. by apply Hs.
      * split; [|lia]. at_index (i + 1); [by apply same_step; [| |lia]|].
        do 2 (split; [lia|]). destruct Hr as [[? ?]|[? ?]]; [left; lia|done].
    + wp_step. destruct Hr as [[Hr ->]|]; [|lia]. split; [|done]. symmetry.
      apply lex_diff_equal; [lia|]. intros j Hj. apply Hs. lia.
  - done.
  - intros [[m1' m2'] n'] τ' (_ & i' & _ & _ & _ & ? & _). lia.
  - destruct H0 as (_ & i & _ & _ & [? _] & ? & ? & _). lia.
Qed.

Lemma memcmp_align_byte_spec :
  16 < lenZ l →
  wp (memcmp_align_byte p q (lenZ l))
     (fun r τ => match r with inl x => out_state x τ | inr x => mid_state 5 x τ end) σ.
Proof.
  intros H16. assert (same 0) as S0 by (split; lia). unfold memcmp_align_byte.
  destruct (IS_UNALIGNED p && IS_UNALIGNED q)%bool.
  - cbv zeta. wp_step. rewrite <- (Z.add_0_r p) at 1. apply (wp_load8_at _ l); [done|lia|].
    wp_step. rewrite <- (Z.add_0_r q) at 1. apply (wp_load8_at _ k); [done|lia|].
    destruct (negb (nthZ l 0 =? nthZ k 0)) eqn:Ed; b2p; wp_step.
    + at_index 0; [done|lia].
    + at_index 1; [by apply (same_step 0); [| |lia]|lia].
  - wp_step. at_index 0; [done|lia].
Qed.

Lemma memcmp_align_short_spec m1 m2 n τ :
  mid_state 5 (m1, m2, n) τ →
  wp (memcmp_align_short m1 m2 n)
     (fun r τ => match r with inl x => out_state x τ | inr x => mid_state 0 x τ end) τ.
Proof.
  intros (-> & i & -> & -> & Hs & Hn & H4). pose proof (proj1 Hs).
  unfold memcmp_align_short.
  destruct ((2 <=? n) && (IS_SHORT_ALIGNED (p + i) && IS_SHORT_ALIGNED (q + i)))%bool eqn:E.
  2:{ wp_step. at_index i; [done|lia]. }
  b2p. unfold IS_SHORT_ALIGNED in *. rewrite land_3_mod in *. b2p.
  wp_step. apply wp_load16 with (b0 := nthZ l i) (b1 := nthZ l (i + 1));
    [dlia|apply Hl; lia|rewrite <- Z.add_assoc; apply Hl; lia|].
  wp_step. apply wp_load16 with (b0 := nthZ k i) (b1 := nthZ k (i + 1));
    [dlia|apply Hk; lia|rewrite <- Z.add_assoc; apply Hk; lia|].
  destruct (negb _) eqn:Ed; b2p; wp_step.
  - at_index i; [done|lia].
  - unfold be16 in Ed.
    pose proof (Forall_nthZ _ _ i Bl ltac:(lia)). pose proof (Forall_nthZ _ _ i Bk ltac:(lia)).
    pose proof (Forall_nthZ _ _ (i + 1) Bl ltac:(lia)).
    pose proof (Forall_nthZ _ _ (i + 1) Bk ltac:(lia)). unfold is_byte in *.
    at_index (i + 2); [|lia]. replace (i + 2) with (i + 1 + 1) by lia.
    repeat (apply same_step; [|lia|lia]). done.
Qed.

Lemma memcmp_longs_spec m1 m2 n τ :
  mid_state 0 (m1, m2, n) τ → wp (memcmp_longs m1 m2 n) out_state τ.
Proof.
  intros (-> & i & -> & -> & Hs & Hn & H4). unfold memcmp_longs.
  destruct ((4 <=? n) && (IS_LONG_ALIGNED (p + i) && IS_LONG_ALIGNED (q + i)))%bool eqn:E.
  2:{ wp_step. at_index i; [done|lia]. }
  b2p. unfold IS_LONG_ALIGNED in *. rewrite land_3_mod in *. b2p.
  apply (wp_loop _ (fun '(m1, m2, n) τ => mid_state 4 (m1, m2, n) τ ∧
       m1 mod 4 = 0 ∧ m2 mod 4 = 0) _ (fun '(m1, m2, n) => n)).
  - clear - Hl Hk Bl Bk Hlk.
    intros [[m1 m2] n] τ ((-> & i & -> & -> & Hs & Hn & H4) & A1 & A2).
    pose proof (proj1 Hs).
    wp_step. apply (wp_load32_at _ l); [done|lia..|].
    wp_step. apply (wp_load32_at _ k); [done|lia..|]. cbv zeta.
    destruct (negb _) eqn:Ed; b2p.
    + wp_step. at_index i; [done|lia].
    + apply same_word in Ed; [|done|lia].
      destruct (4 <=? n - 4) eqn:E4; b2p; wp_step.
      * split; [|lia]. split; [at_index (i + 4); [done|lia]|split; dlia].
      * at_index (i + 4); [done|lia].
  - split; [|done]. at_index i; [done|lia].
  - intros [[m1 m2] n'] τ ((_ & i' & _ & _ & _ & _ & ?) & _). lia.
  - destruct Hs as [? _]. lia.
Qed.

Lemma __memcmp_spec :
  wp (__memcmp p q (lenZ l)) (fun r τ => r = lex_diff l k ∧ τ = σ) σ.
Proof.
  pose proof (lenZ_nonneg l). unfold __memcmp. wp_step.
  eapply (wp_mono _ out_state); [|intros [[[m1 m2] n] r] τ Ho; by apply memcmp_out_spec].
  destruct (4 * 4 <? lenZ l) eqn:E16; b2p.
  2:{ wp_step. at_index 0; [split; lia|]. lia. }
  wp_step. eapply wp_mono; [by apply memcmp_align_byte_spec|].
  intros [x|[[m1 m2] n]] τ H1; [done|].
  wp_step. eapply wp_mono; [by apply memcmp_align_short_spec|].
  intros [x|[[m1' m2'] n']] τ' H2; [done|]. by apply memcmp_longs_spec.
Qed.
End Memcmp.

(** [memcmp] of two distinct regions of [n > 0] bytes returns the
    difference of the first two bytes that differ, compared as [unsigned char],
    or 0, whatever the alignments; it reads no byte outside the regions and
    changes nothing. *)
Theorem memcmp_correct σ ptr1 ptr2 l k :
  bytes_at (mem σ) ptr1 l → bytes_at (mem σ) ptr2 k →
  Forall is_byte l → Forall is_byte k → lenZ k = lenZ l →
  ptr1 ≠ ptr2 → 0 < lenZ l < 4294967296 →
  memcmp ptr1 ptr2 (lenZ l) σ = Ok (lex_diff l k, σ).
Proof.
  intros Hl Hk Bl Bk Hlk Hp Hlen. apply wp_eq. unfold memcmp.
  rewrite (proj2 (Z.eqb_neq ptr1 ptr2) Hp), (proj2 (Z.ltb_lt 0 (lenZ l))) by lia.
  apply __memcmp_spec; try done; lia.
Qed.

Lemma memcmp_correct_witness :
  let σ := CState (write_bytes (write_bytes ∅ 102 [1; 2; 3; 200; 5]) 303 [1; 2; 3; 4; 5]) 0 in
  memcmp 102 303 5 σ = Ok (196, σ).
Proof.
  apply (memcmp_correct
    (CState (write_bytes (write_bytes ∅ 102 [1; 2; 3; 200; 5]) 303 [1; 2; 3; 4; 5]) 0)
    102 303 [1; 2; 3; 200; 5] [1; 2; 3; 4; 5]).
  - apply write_bytes_bytes_at_out; [left; done|]. apply write_bytes_bytes_at.
  - apply write_bytes_bytes_at.
  - repeat constructor; unfold is_byte; lia.
  - repeat constructor; unfold is_byte; lia.
  - done.
  - done.
  - done.
Defined.

(** ** mempcpy and memccpy *)

Lemma aligned_args src dst :
  negb (UNALIGNED src dst) = true → src mod 4 = 0 ∧ dst mod 4 = 0.
Proof.
  unfold UNALIGNED. rewrite negb_involutive, !land_3_mod. intros H. b2p.
  by apply Z.lor_eq_0_iff.
Qed.

(** The state of a copying loop: [n] of the bytes of [l] are left. *)
Definition copying (σ : cstate) (d s : Z) (l : list Z) (x : Z * Z * Z) (τ : cstate) : Prop :=
  let '(dst, src, n) := x in
  ∃ i, τ = copied σ d l i ∧ dst = d + i ∧ src = s + i ∧ 0 <= i ∧ i + n = lenZ l ∧ 0 <= n.

Definition copying_words (σ : cstate) (d s : Z) (l : list Z) (x : Z * Z * Z) (τ : cstate) : Prop :=
  copying σ d s l x τ ∧ x.1.1 mod 4 = 0 ∧ x.1.2 mod 4 = 0.

Section Mempcpy.
Context (σ : cstate) (d s : Z) (l : list Z) (H : copy_ok σ d s l).
Context (Hlen : lenZ l < 4294967296).

Lemma mempcpy_big_spec x τ :
  copying_words σ d s l x τ →
  wp (loop (fun '(aligned_dst, aligned_src, len) =>
               if BIGBLOCKSIZE <=? len then
                 w ← load32 aligned_src; _ ← store32 aligned_dst w;
                 w ← load32 (aligned_src + 4); _ ← store32 (aligned_dst + 4) w;
                 w ← load32 (aligned_src + 8); _ ← store32 (aligned_dst + 8) w;
                 w ← load32 (aligned_src + 12); _ ← store32 (aligned_dst + 12) w;
                 continue (aligned_dst + 16, aligned_src + 16, len - BIGBLOCKSIZE)
               else break (aligned_dst, aligned_src, len)) x)
     (copying_words σ d s l) τ.
Proof.
  intros Hx. apply (wp_loop _ (copying_words σ d s l) _ (fun x => x.2)); [|done|..].
  - clear x τ Hx. intros [[dst src] n] τ ((i & -> & -> & -> & Hi & Hn & H0) & A1 & A2).
    simpl in A1, A2. change BIGBLOCKSIZE with 16. destruct (16 <=? n) eqn:E; b2p.
    + apply (wp_copy_word _ _ _ _ H _ _ i (i + 4)); [lia..|].
      apply (wp_copy_word _ _ _ _ H _ _ (i + 4) (i + 8)); [lia..|dlia|dlia|].
      apply (wp_copy_word _ _ _ _ H _ _ (i + 8) (i + 12)); [lia..|dlia|dlia|].
      apply (wp_copy_word _ _ _ _ H _ _ (i + 12) (i + 16)); [lia..|dlia|dlia|].
      wp_step. split; [|simpl; lia]. split; [|simpl; split; dlia].
      exists (i + 16). split; [done|]. lia.
    + wp_step. split; [|done]. exists i. done.
  - intros [[dst src] n] τ' ((i & _ & _ & _ & _ & _ & ?) & _). simpl. lia.
  - destruct x as [[dst src] n], Hx as [(i & _ & _ & _ & ? & ? & ?) _]. simpl. lia.
Qed.

Lemma mempcpy_little_spec x τ :
  copying_words σ d s l x τ →
  wp (loop (fun '(aligned_dst, aligned_src, len) =>
             if LITTLEBLOCKSIZE <=? len then
               w ← load32 aligned_src; _ ← store32 aligned_dst w;
               continue (aligned_dst + 4, aligned_src + 4, len - LITTLEBLOCKSIZE)
             else break (aligned_dst, aligned_src, len)) x)
     (copying σ d s l) τ.
Proof.
  intros Hx. apply (wp_loop _ (copying_words σ d s l) _ (fun x => x.2)); [|done|..].
  - clear x τ Hx. intros [[dst src] n] τ ((i & -> & -> & -> & Hi & Hn & H0) & A1 & A2).
    simpl in A1, A2. change LITTLEBLOCKSIZE with 4. destruct (4 <=? n) eqn:E; b2p.
    + apply (wp_copy_word _ _ _ _ H _ _ i (i + 4)); [lia..|].
      wp_step. split; [|simpl; lia]. split; [|simpl; split; dlia].
      exists (i + 4). split; [done|]. lia.
    + wp_step. exists i. done.
  - intros [[dst src] n] τ' ((i & _ & _ & _ & _ & _ & ?) & _). simpl. lia.
  - destruct x as [[dst src] n], Hx as [(i & _ & _ & _ & ? & ? & ?) _]. simpl. lia.
Qed.

Lemma mempcpy_bytes_spec x τ :
  copying σ d s l x τ →
  wp (loop (fun '(dst, src, len) =>
        if negb (len =? 0) then
          b ← load8 src; _ ← store8 dst b;
          continue (dst + 1, src + 1, len - 1)
        else break dst) x)
     (fun r τ => r = d + lenZ l ∧ τ = copied σ d l (lenZ l)) τ.
Proof.
  intros Hx. apply (wp_loop _ (copying σ d s l) _ (fun x => x.2)); [|done|..].
  - clear x τ Hx. intros [[dst src] n] τ (i & -> & -> & -> & Hi & Hn & H0).
    destruct (negb (n =? 0)) eqn:E; b2p.
    + wp_step. apply wp_copy_load8; [done|lia|].
      wp_step. eapply wp_copy_store8; [exact H|lia|].
      wp_step. split; [|simpl; lia]. exists (i + 1). split; [done|]. lia.
    + wp_step. replace i with (lenZ l) by lia. done.
  - intros [[dst src] n] τ' (i & _ & _ & _ & _ & _ & ?). simpl. lia.
  - destruct x as [[dst src] n], Hx as (i & _ & _ & _ & ? & ? & ?). simpl. lia.
Qed.

Lemma mempcpy_spec :
  wp (mempcpy d s (lenZ l))
     (fun r τ => r = d + lenZ l ∧ τ = with_mem (write_bytes (mem σ) d l) σ) σ.
Proof.
  rewrite <- copied_all. pose proof (lenZ_nonneg l). unfold mempcpy. wp_step.
  assert (copying σ d s l (d, s, lenZ l) σ) as Hc.
  { exists 0. rewrite copied_0. split; [done|]. lia. }
  eapply (wp_mono _ (copying σ d s l)).
  2:{ intros [[dst src] n] τ Hx. by apply mempcpy_bytes_spec. }
  destruct (_ && _)%bool eqn:E; [|by wp_step].
  apply andb_true_iff in E as [_ [As Ad]%aligned_args].
  wp_step. eapply wp_mono; [by apply mempcpy_big_spec|].
  intros [[dst src] n] τ Hx. by apply mempcpy_little_spec.
Qed.
End Mempcpy.

(** [mempcpy] copies the [len] bytes at [src] to the disjoint region at
    [dst], writes nothing else, and returns the address after the last byte
    written. *)
Theorem mempcpy_correct σ dst src l :
  copy_ok σ dst src l → lenZ l < 4294967296 →
  mempcpy dst src (lenZ l) σ =
  Ok (dst + lenZ l, with_mem (write_bytes (mem σ) dst l) σ).
Proof. intros. apply wp_eq. by apply mempcpy_spec. Qed.

Lemma mempcpy_correct_witness :
  let σ := CState (write_bytes (write_bytes ∅ 200 (replicate 7 0)) 100 [1; 2; 3; 4; 5; 6; 7]) 0 in
  mempcpy 200 100 7 σ = Ok (207, with_mem (write_bytes (mem σ) 200 [1; 2; 3; 4; 5; 6; 7]) σ).
Proof.
  apply (mempcpy_correct
    (CState (write_bytes (write_bytes ∅ 200 (replicate 7 0)) 100 [1; 2; 3; 4; 5; 6; 7]) 0)
    200 100 [1; 2; 3; 4; 5; 6; 7]); [by apply copy_okb_sound|done].
Defined.

Section Memccpy.
Context (σ : cstate) (d s c : Z) (l : list Z) (H : copy_ok σ d s l).
Context (Hlen : lenZ l < 4294967296) (Hc : is_byte c).

(** The loop has copied bytes none of which is [c]. *)
Definition cc_state (x : Z * Z * Z) (τ : cstate) : Prop :=
  let '(dst, src, n) := x in
  ∃ i, τ = copied σ d l i ∧ dst = d + i ∧ src = s + i ∧ unseen c l i ∧ i + n = lenZ l.

Lemma memccpy_words_spec x τ :
  cc_state x τ → x.1.1 mod 4 = 0 ∧ x.1.2 mod 4 = 0 →
  wp (loop (fun '(aligned_dst, aligned_src, len) =>
             if LITTLEBLOCKSIZE <=? len then
               w ← load32 aligned_src;
               let buffer := Z.lxor w (repeat_char c) in
               if negb (DETECTNULL buffer =? 0) then break (aligned_dst, aligned_src, len)
               else
                 w ← load32 aligned_src;
                 _ ← store32 aligned_dst w;
                 continue (aligned_dst + 4, aligned_src + 4, len - LITTLEBLOCKSIZE)
             else break (aligned_dst, aligned_src, len)) x) cc_state τ.
Proof.
  intros Hx Ha. apply (wp_loop _ (fun x τ => cc_state x τ ∧ x.1.1 mod 4 = 0 ∧ x.1.2 mod 4 = 0)
    _ (fun x => x.2)); [|done|..].
  - clear x τ Hx Ha. intros [[dst src] n] τ ((i & -> & -> & -> & Hu & Hn) & A1 & A2).
    simpl in A1, A2. pose proof (proj1 Hu). change LITTLEBLOCKSIZE with 4.
    destruct (4 <=? n) eqn:E; b2p.
    + wp_step. eapply wp_copy_load32; [exact H|lia..|]. cbv zeta.
      destruct (negb _) eqn:Ed; b2p.
      * wp_step. exists i. done.
      * apply (wp_copy_word _ _ _ _ H _ _ i (i + 4)); [lia..|].
        wp_step. split; [|simpl; lia]. split; [|simpl; split; dlia].
        exists (i + 4). do 3 (split; [lia || done|]). split; [|lia].
        eapply unseen_word; [|exact Hc|exact Hu|lia|reflexivity|exact Ed]. apply H.
    + wp_step. exists i. done.
  - intros [[dst src] n] τ' ((i & _ & _ & _ & [? _] & ?) & _). simpl. lia.
  - destruct x as [[dst src] n], Hx as (i & _ & _ & _ & [? _] & ?). simpl. lia.
Qed.

(** What [memccpy] leaves behind. *)
Definition memccpy_post (r : Z) (τ : cstate) : Prop :=
  match find_index (fun b => b =? c) l with
  | Some i => r = d + i + 1 ∧ τ = copied σ d l (i + 1)
  | None => r = NULL ∧ τ = copied σ d l (lenZ l)
  end.

Lemma memccpy_bytes_spec x τ :
  cc_state x τ →
  wp (loop (fun '(dst, src, len) =>
        if negb (len =? 0) then
          b ← load8 src;
          _ ← store8 dst b;
          if b =? c then break (dst + 1)
          else continue (dst + 1, src + 1, len - 1)
        else break NULL) x) memccpy_post τ.
Proof.
  intros Hx. apply (wp_loop _ cc_state _ (fun x => x.2)); [|done|..].
  - clear x τ Hx. intros [[dst src] n] τ (i & -> & -> & -> & Hu & Hn).
    pose proof (proj1 Hu). destruct (negb (n =? 0)) eqn:E; b2p.
    + wp_step. eapply wp_copy_load8; [exact H|lia|].
      wp_step. eapply wp_copy_store8; [exact H|lia|].
      destruct (nthZ l i =? c) eqn:Ec; b2p; wp_step.
      * unfold memccpy_post. rewrite (unseen_found c l i) by (done || lia). done.
      * split; [|simpl; lia]. exists (i + 1). do 3 (split; [lia || done|]).
        split; [|lia]. apply unseen_step; [done|lia|done].
    + wp_step. unfold memccpy_post. replace i with (lenZ l) in * by lia.
      by rewrite (unseen_end c l).
  - intros [[dst src] n] τ' (i & _ & _ & _ & [? _] & ?). simpl. lia.
  - destruct x as [[dst src] n], Hx as (i & _ & _ & _ & [? _] & ?). simpl. lia.
Qed.
End Memccpy.

Lemma memccpy_mask c :
  is_byte c →
  foldl (fun mask (_ : nat) => u32 (u32 (Z.shiftl mask 8) + c)) 0 (seq 0 4) = repeat_char c.
Proof.
  intros Hc. pose proof (all_bytes_spec (fun c =>
    foldl (fun mask (_ : nat) => u32 (u32 (Z.shiftl mask 8) + c)) 0 (seq 0 4) =? repeat_char c)
    c eq_refl Hc) as H. cbn beta in H. by b2p.
Qed.

(** [memccpy] copies bytes up to and including the first one equal to the
    end character and returns the address after its copy, or copies all [len]
    bytes and returns NULL when there is none. *)
Theorem memccpy_correct σ dst src endchar l :
  copy_ok σ dst src l → lenZ l < 4294967296 →
  memccpy dst src endchar (lenZ l) σ =
  match find_index (fun b => b =? u8 endchar) l with
  | Some i => Ok (dst + i + 1,
                  with_mem (write_bytes (mem σ) dst (take (Z.to_nat (i + 1)) l)) σ)
  | None => Ok (NULL, with_mem (write_bytes (mem σ) dst l) σ)
  end.
Proof.
  intros H Hlen.
  assert (is_byte (u8 endchar)) as Hc by (apply Z.mod_pos_bound; lia).
  assert (wp (memccpy dst src endchar (lenZ l)) (memccpy_post σ dst (u8 endchar) l) σ) as Hw.
  { unfold memccpy.
    assert (Z.land endchar 0xff = u8 endchar) as -> by (apply (Z.land_ones endchar 8); lia).
    cbv zeta. rewrite memccpy_mask by done. wp_step.
    assert (cc_state σ dst src (u8 endchar) l (dst, src, lenZ l) σ) as H0.
    { exists 0. rewrite copied_0. pose proof (lenZ_nonneg l). repeat split; lia. }
    eapply (wp_mono _ (cc_state σ dst src (u8 endchar) l)).
    2:{ intros [[d s] n] τ Hx. by eapply memccpy_bytes_spec. }
    destruct (_ && _)%bool eqn:E; [|by wp_step].
    apply andb_true_iff in E as [_ [As Ad]%aligned_args].
    by apply memccpy_words_spec. }
  unfold wp in Hw. destruct (memccpy _ _ _ _ σ) as [[r τ]| |]; [|done..].
  unfold memccpy_post in Hw. destruct (find_index _ l); destruct Hw as [-> ->]; [done|].
  by rewrite copied_all.
Qed.

Lemma memccpy_correct_witness :
  let σ := CState (write_bytes (write_bytes ∅ 200 (replicate 7 0)) 100 [1; 2; 3; 4; 5; 6; 7]) 0 in
  memccpy 200 100 5 7 σ = Ok (205, with_mem (write_bytes (mem σ) 200 [1; 2; 3; 4; 5]) σ).
Proof.
  apply (memccpy_correct
    (CState (write_bytes (write_bytes ∅ 200 (replicate 7 0)) 100 [1; 2; 3; 4; 5; 6; 7]) 0)
    200 100 5 [1; 2; 3; 4; 5; 6; 7]); [by apply copy_okb_sound|done].
Defined.

(** ** memrchr *)

Theorem memrchr_correct σ s c l :
  bytes_at (mem σ) s l → lenZ l < 4294967296 →
  memrchr s c (lenZ l) σ = Ok (ptr_of s (find_last (fun b => b =? u8 c) l), σ).
Proof.
  intros Hl Hlen. apply wp_eq. unfold memrchr. pose proof (lenZ_nonneg l).
  destruct (negb (lenZ l =? 0)) eqn:E; b2p.
  2:{ wp_step. rewrite find_last_None_2; [done|]. lia. }
  apply (wp_loop _ (fun '(cp, n) τ => τ = σ ∧ cp = s + n ∧ 0 < n <= lenZ l ∧
    ∀ j, n <= j < lenZ l → (nthZ l j =? u8 c) = false) _ (fun '(cp, n) => n)).
  - intros [cp n] τ (-> & -> & Hn & Hj). cbv zeta. wp_step.
    replace (s + n - 1) with (s + (n - 1)) by lia. apply (wp_load8_at _ l); [done|lia|].
    destruct (nthZ l (n - 1) =? u8 c) eqn:Ec; [b2p; wp_step|].
    + rewrite (find_last_Some_2 _ _ (n - 1)); [done|lia|by apply Z.eqb_eq|].
      intros j ?. apply Hj. lia.
    + assert (∀ j, n - 1 <= j < lenZ l → (nthZ l j =? u8 c) = false) as Hj'.
      { intros j ?. destruct (decide (j = n - 1)) as [->|]; [done|]. apply Hj. lia. }
      destruct (negb (n - 1 =? 0)) eqn:E1; b2p; wp_step.
      * split; [|lia]. split; [done|]. split; [lia|]. split; [lia|done].
      * rewrite find_last_None_2; [done|]. intros j ?. apply Hj'. lia.
  - split; [done|]. split; [done|]. split; [lia|]. intros j ?. lia.
  - intros [cp n] τ (_ & _ & ? & _). lia.
  - lia.
Qed.
