(* ===== verification/Periods.v ===== *)
(** * Periods and maximal suffixes

    The combinatorics behind two-way string matching (string/memmem.c), on a word of
    length [l] whose letters are [x 0, ..., x (l - 1)].  The two maximal suffixes of a
    word, for an order of the letters and for its converse, give a critical position: a
    local period there is a period of the whole word. *)

From stdpp Require Import base numbers list.
From S2P Require Import Prelude.
Open Scope Z_scope.

(** An order of letters. *)
Record letter_order (o : Z → Z → Prop) : Prop := LetterOrder {
  lo_irrefl a : ~ o a a; lo_trans a b c : o a b → o b c → o a c
}.
Lemma lt_letters : letter_order Z.lt.
Proof. split; lia. Qed.
Lemma gt_letters : letter_order Z.gt.
Proof. split; lia. Qed.

Section Word.
Context (x : Z → Z) (l : Z).

Definition period (d : Z) : Prop := 0 < d ∧ ∀ t, d <= t < l → x t = x (t - d).
(** The [d] letters to the left of [i] are those to its right, as far as there are such. *)
Definition local_period (i d : Z) : Prop := 0 < d ∧ ∀ t, i <= t < i + d → d <= t < l → x t = x (t - d).

(** The suffix at [q] is less than the suffix at [i], by a letter; or it is a prefix of it. *)
Definition less_at (o : Z → Z → Prop) (q i t : Z) : Prop :=
  0 <= t ∧ q + t < l ∧ i + t < l ∧ (∀ s, 0 <= s < t → x (q + s) = x (i + s)) ∧ o (x (q + t)) (x (i + t)).
Definition prefix_at (q i : Z) : Prop := i <= q ∧ ∀ s, 0 <= s < l - q → x (q + s) = x (i + s).
Definition max_suffix (o : Z → Z → Prop) (i : Z) : Prop := 0 <= i < l ∧ ∀ q, 0 <= q <= l → (∃ t, less_at o q i t) ∨ prefix_at q i.

Section Order.
Context (o : Z → Z → Prop) (Ho : letter_order o).

Lemma less_asym a b s t : less_at o a b s → less_at o b a t → False.
Proof.
  intros (S1 & S2 & S3 & S4 & S5) (T1 & T2 & T3 & T4 & T5). destruct (Z.lt_trichotomy s t) as [Hlt|[->|Hlt]].
  - specialize (T4 s ltac:(lia)). rewrite T4 in S5. by apply lo_irrefl in S5.
  - apply (lo_irrefl o Ho (x (a + t))). by eapply lo_trans.
  - specialize (S4 t ltac:(lia)). rewrite S4 in T5. by apply lo_irrefl in T5.
Qed.
Lemma less_trans a b c s t : less_at o a b s → less_at o b c t → less_at o a c (Z.min s t).
Proof.
  intros (S1 & S2 & S3 & S4 & S5) (T1 & T2 & T3 & T4 & T5). destruct (Z.lt_trichotomy s t) as [Hlt|[->|Hlt]].
  - rewrite Z.min_l by lia. split_and!; [lia..|intros r Hr; rewrite S4, T4; [done|lia..]|]. by rewrite <- T4.
  - rewrite Z.min_id. split_and!; [lia..|intros r Hr; rewrite S4, T4; [done|lia..]|by eapply lo_trans].
  - rewrite Z.min_r by lia. split_and!; [lia..|intros r Hr; rewrite S4, T4; [done|lia..]|]. by rewrite S4.
Qed.

(** At a maximal suffix no local period fits into the letters before it. *)
Lemma max_suffix_local i d : max_suffix o i → local_period i d → i < d.
Proof.
  intros [Hi Hmax] [Hd Hloc]. destruct (Z.lt_ge_cases i d) as [|Hle]; [done|exfalso].
  destruct (Hmax (i - d) ltac:(lia)) as [(t & T1 & T2 & T3 & T4 & T5)|[Hp _]]; [|lia].
  destruct (Z.lt_ge_cases t d) as [Ht|Ht].
  { rewrite (Hloc (i + t)) in T5 by lia. replace (i + t - d) with (i - d + t) in T5 by lia. by apply lo_irrefl in T5. }
  assert (less_at o i (i + d) (t - d)) as Hless.
  { split_and!; [lia|lia|lia| |].
    - intros s Hs. specialize (T4 (s + d) ltac:(lia)). by replace (i - d + (s + d)) with (i + s) in T4 by lia; replace (i + (s + d)) with (i + d + s) in T4 by lia.
    - by replace (i + (t - d)) with (i - d + t) by lia; replace (i + d + (t - d)) with (i + t) by lia. }
  destruct (Hmax (i + d) ltac:(lia)) as [(s & Hs)|[_ Hp]]; [by eapply less_asym|].
  destruct Hless as (_ & _ & L3 & _ & L5). rewrite Hp in L5 by lia. by apply lo_irrefl in L5.
Qed.
End Order.

(** The later one of the two maximal suffixes is critical. *)
Lemma critical_half o o' i j d :
  letter_order o → letter_order o' → (∀ a b, o a b → o' a b → False) →
  max_suffix o i → max_suffix o' j → j <= i → local_period i d → i < d ∧ period d.
Proof.
  intros Ho Ho' Hopp Hi Hj Hji Hloc. pose proof (max_suffix_local o Ho i d Hi Hloc) as Hid. split; [done|]. destruct Hloc as [Hd Hloc]. split; [done|].
  destruct Hi as [Hi Hmax]. destruct Hj as [Hj Hmax'].
  intros t Ht. destruct (Z.lt_ge_cases t (i + d)) as [Hlt|Hge]; [apply Hloc; lia|].
  assert (prefix_at (i + d) i) as [_ Hp].
  { destruct (Hmax (i + d) ltac:(lia)) as [(s & S1 & S2 & S3 & S4 & S5)|]; [exfalso|done].
    destruct (Hmax' (j + d) ltac:(lia)) as [(r & R1 & R2 & R3 & R4 & R5)|[_ Hp]].
    - destruct (Z.lt_ge_cases r (i - j)) as [Hr|Hr].
      { rewrite (Hloc (j + d + r)) in R5 by lia. replace (j + d + r - d) with (j + r) in R5 by lia. by apply lo_irrefl in R5. }
      destruct (Z.lt_trichotomy (r - (i - j)) s) as [Hrs|[Hrs|Hrs]].
      + specialize (S4 (r - (i - j)) ltac:(lia)). replace (i + d + (r - (i - j))) with (j + d + r) in S4 by lia. replace (i + (r - (i - j))) with (j + r) in S4 by lia.
        rewrite S4 in R5. by apply lo_irrefl in R5.
      + replace (i + d + s) with (j + d + r) in S5 by lia. replace (i + s) with (j + r) in S5 by lia. by eapply Hopp.
      + specialize (R4 (i - j + s) ltac:(lia)). replace (j + d + (i - j + s)) with (i + d + s) in R4 by lia. replace (j + (i - j + s)) with (i + s) in R4 by lia.
        rewrite R4 in S5. by apply lo_irrefl in S5.
    - specialize (Hp (i - j + s) ltac:(lia)). replace (j + d + (i - j + s)) with (i + d + s) in Hp by lia. replace (j + (i - j + s)) with (i + s) in Hp by lia.
      rewrite Hp in S5. by apply lo_irrefl in S5. }
  specialize (Hp (t - (i + d)) ltac:(lia)). by replace (i + d + (t - (i + d))) with t in Hp by lia; replace (i + (t - (i + d))) with (t - d) in Hp by lia.
Qed.

Theorem critical_position i j d :
  max_suffix Z.lt i → max_suffix Z.gt j → local_period (Z.max i j) d → Z.max i j < d ∧ period d.
Proof.
  intros Hi Hj. destruct (Z.le_ge_cases j i) as [Hle|Hle].
  - rewrite Z.max_l by done. apply (critical_half Z.lt Z.gt i j); [apply lt_letters|apply gt_letters|lia|done..].
  - rewrite Z.max_r by done. apply (critical_half Z.gt Z.lt j i); [apply gt_letters|apply lt_letters|lia|done..].
Qed.
Lemma period_local i d : period d → local_period i d.
Proof. intros [Hd Hp]. split; [done|]. intros t _ Ht. by apply Hp. Qed.

(** ** The search for a maximal suffix *)

Section Search.
Context (o : Z → Z → Prop) (Ho : letter_order o).

(** [b] letters into the word at [i] of length [p], a letter is less. *)
Definition inner_less (i p b t : Z) : Prop :=
  0 <= t ∧ b + t < p ∧ (∀ s, 0 <= s < t → x (i + b + s) = x (i + s)) ∧ o (x (i + b + t)) (x (i + t)).

(** The suffix at [i] is the greatest of those before [j]; the letters from [i] to
    [j + k - 1] have the period [p], whose word is greater than its own suffixes. *)
Record ms_inv (i j k p : Z) : Prop := MsInv {
  ms_range : 0 <= i ∧ i < j ∧ 1 <= k <= p ∧ j + k - 1 <= l;
  ms_mult : ∃ c, 1 <= c ∧ j - i = c * p;
  ms_period : ∀ t, i + p <= t < j + k - 1 → x t = x (t - p);
  ms_before : ∀ q, 0 <= q < i → ∃ t, less_at o q i t;
  ms_inner : ∀ b, 0 < b < p → ∃ t, inner_less i p b t
}.

Lemma ms_start : 1 <= l → ms_inv 0 1 1 1.
Proof. intros Hl. split; [lia|by exists 1|intros t Ht; lia|intros q Hq; lia|intros b Hb; lia]. Qed.

(** Letters at a distance of a multiple of the period. *)
Lemma ms_shift i j k p a t : ms_inv i j k p → 0 <= a → i <= t → t + a * p < j + k - 1 → x (t + a * p) = x t.
Proof.
  intros Hms Ha Ht. pose proof (ms_range _ _ _ _ Hms) as (R1 & R2 & R3 & R4). revert a Ha. apply (natlike_ind (fun a => t + a * p < j + k - 1 → x (t + a * p) = x t)).
  - intros _. f_equal. lia.
  - intros a Ha IH Hlt. rewrite (ms_period _ _ _ _ Hms (t + Z.succ a * p)) by nia. replace (t + Z.succ a * p - p) with (t + a * p) by lia. apply IH. nia.
Qed.
Lemma ms_back i j k p : ms_inv i j k p → ∀ s, 0 <= s < k - 1 → x (j + s) = x (i + s).
Proof.
  intros Hms s Hs. destruct (ms_mult _ _ _ _ Hms) as (c & Hc & Hj). replace (j + s) with (i + s + c * p) by lia. apply (ms_shift i j k p); [done|lia..].
Qed.

Lemma ms_equal i j k p : ms_inv i j k p → j + k - 1 < l → x (i + k - 1) = x (j + k - 1) →
  if k =? p then ms_inv i (j + p) 1 p else ms_inv i j (k + 1) p.
Proof.
  intros Hms Hl Heq. pose proof Hms as [(R1 & R2 & R3 & R4) (c & Hc & Hj) H3 H4 H5].
  assert (∀ t, i + p <= t < j + k → x t = x (t - p)) as Hper.
  { intros t Ht. destruct (decide (t = j + k - 1)) as [->|Hne]; [|apply H3; lia]. rewrite <- Heq.
    replace (j + k - 1 - p) with (i + k - 1 + (c - 1) * p) by lia. symmetry. apply (ms_shift i j k p); [done|lia|lia|nia]. }
  destruct (Z.eqb_spec k p) as [->|Hne].
  - split; [lia|exists (c + 1); split; lia|intros t Ht; apply Hper; lia|done|done].
  - split; [lia|by exists c|intros t Ht; apply Hper; lia|done|done].
Qed.

(** A greater suffix at [j]. *)
Lemma ms_greater i j k p : ms_inv i j k p → j + k - 1 < l → o (x (i + k - 1)) (x (j + k - 1)) → ms_inv j (j + 1) 1 1.
Proof.
  intros Hms Hl Hlt. pose proof Hms as [(R1 & R2 & R3 & R4) (c & Hc & Hj) H3 H4 H5].
  assert (less_at o i j (k - 1)) as Hij.
  { split_and!; [lia|lia|lia|intros s Hs; symmetry; by apply (ms_back i j k p)|]. by replace (i + (k - 1)) with (i + k - 1) by lia; replace (j + (k - 1)) with (j + k - 1) by lia. }
  split; [lia|exists 1; lia|intros t Ht; lia| |intros b Hb; lia]. intros q Hq. destruct (Z.lt_trichotomy q i) as [Hqi|[->|Hqi]]; [|by eexists|].
  { destruct (H4 q ltac:(lia)) as [t Ht]. exists (Z.min t (k - 1)). by eapply less_trans. }
  pose proof (Z.div_mod (q - i) p ltac:(lia)) as Hdiv. pose proof (Z.mod_pos_bound (q - i) p ltac:(lia)) as Hmod.
  set (a := (q - i) / p) in *. set (b := (q - i) mod p) in *. assert (0 <= a < c) as Ha by nia. clearbody a b. destruct (decide (b = 0)) as [->|Hb].
  - exists (k - 1). destruct Hij as (I1 & I2 & I3 & I4 & I5).
    assert (∀ s, 0 <= s < k → x (q + s) = x (i + s)) as Hqs.
    { intros s Hs. replace (q + s) with (i + s + a * p) by lia. apply (ms_shift i j k p); [done|lia|lia|nia]. }
    split_and!; [lia|lia|lia|intros s Hs; rewrite Hqs by lia; by apply I4|]. by rewrite Hqs by lia.
  - destruct (H5 b ltac:(lia)) as (t & T1 & T2 & T3 & T4).
    assert (∀ s, 0 <= s <= t → x (q + s) = x (i + b + s)) as Hqs.
    { intros s Hs. replace (q + s) with (i + b + s + a * p) by lia. apply (ms_shift i j k p); [done|lia|lia|nia]. }
    assert (less_at o q i t) as Hqi'. { split_and!; [lia|nia|nia|intros s Hs; rewrite Hqs by lia; by apply T3|by rewrite Hqs by lia]. }
    exists (Z.min t (k - 1)). by eapply less_trans.
Qed.

(** A smaller suffix at [j]: the word of the period becomes longer. *)
Lemma ms_smaller i j k p : ms_inv i j k p → j + k - 1 < l → o (x (j + k - 1)) (x (i + k - 1)) → ms_inv i (j + k) 1 (j + k - i).
Proof.
  intros Hms Hl Hlt. pose proof Hms as [(R1 & R2 & R3 & R4) (c & Hc & Hj) H3 H4 H5].
  split; [lia|exists 1; lia|intros t Ht; lia|done|]. intros b Hb. destruct (Z.lt_ge_cases (i + b) j) as [Hbj|Hbj].
  - pose proof (Z.div_mod b p ltac:(lia)) as Hdiv. pose proof (Z.mod_pos_bound b p ltac:(lia)) as Hmod.
    set (a := b / p) in *. set (b0 := b mod p) in *. assert (0 <= a < c) as Ha by nia. clearbody a b0. destruct (decide (b0 = 0)) as [->|Hb0].
    + exists (j + k - 1 - i - b). split_and!; [lia|lia| |].
      * intros s Hs. replace (i + b + s) with (i + s + a * p) by lia. apply (ms_shift i j k p); [done|lia|lia|nia].
      * replace (i + b + (j + k - 1 - i - b)) with (j + k - 1) by lia. replace (i + (j + k - 1 - i - b)) with (i + k - 1 + (c - a) * p) by nia.
        rewrite (ms_shift i j k p); [done|done|lia|lia|nia].
    + destruct (H5 b0 ltac:(lia)) as (t & T1 & T2 & T3 & T4). exists t.
      assert (∀ s, 0 <= s <= t → x (i + b + s) = x (i + b0 + s)) as Hqs.
      { intros s Hs. replace (i + b + s) with (i + b0 + s + a * p) by lia. apply (ms_shift i j k p); [done|lia|lia|nia]. }
      split_and!; [lia|nia|intros s Hs; rewrite Hqs by lia; by apply T3|by rewrite Hqs by lia].
  - destruct (decide (i + b = j)) as [Hb'|Hb'].
    { exists (k - 1). split_and!; [lia|lia|intros s Hs; rewrite Hb'; by apply (ms_back i j k p)|]. rewrite Hb'.
      by replace (j + (k - 1)) with (j + k - 1) by lia; replace (i + (k - 1)) with (i + k - 1) by lia. }
    set (b0 := i + b - j) in *. assert (0 < b0 < k) by lia. replace (i + b) with (j + b0) by lia.
    destruct (H5 b0 ltac:(lia)) as (t & T1 & T2 & T3 & T4).
    assert (∀ s, 0 <= s → b0 + s < k - 1 → x (j + b0 + s) = x (i + b0 + s)) as Hqs.
    { intros s S1 S2. rewrite <- !Z.add_assoc. apply (ms_back i j k p); [done|lia]. }
    destruct (Z.lt_trichotomy (b0 + t) (k - 1)) as [Ht|[Ht|Ht]].
    + exists t. split_and!; [lia|lia|intros s Hs; replace (i + b) with (j + b0) by lia; rewrite Hqs by lia; by apply T3|replace (i + b) with (j + b0) by lia; by rewrite Hqs by lia].
    + exists t. split_and!; [lia|lia|intros s Hs; replace (i + b) with (j + b0) by lia; rewrite Hqs by lia; by apply T3|replace (i + b + t) with (j + k - 1) by lia].
      eapply lo_trans; [done|exact Hlt|]. by replace (i + k - 1) with (i + b0 + t) by lia.
    + exists (k - 1 - b0). split_and!; [lia|lia|intros s Hs; replace (i + b) with (j + b0) by lia; rewrite Hqs by lia; apply T3; lia|].
      replace (i + b + (k - 1 - b0)) with (j + k - 1) by lia. rewrite <- (T3 (k - 1 - b0)) by lia. by replace (i + b0 + (k - 1 - b0)) with (i + k - 1) by lia.
Qed.

(** At the end of the word. *)
Lemma ms_done i j k p : ms_inv i j k p → j + k - 1 = l → max_suffix o i.
Proof.
  intros Hms Hl. pose proof Hms as [(R1 & R2 & R3 & R4) (c & Hc & Hj) H3 H4 H5]. split; [lia|]. intros q Hq. destruct (Z.lt_ge_cases q i) as [Hqi|Hqi]; [left; apply H4; lia|].
  pose proof (Z.div_mod (q - i) p ltac:(lia)) as Hdiv. pose proof (Z.mod_pos_bound (q - i) p ltac:(lia)) as Hmod.
  set (a := (q - i) / p) in *. set (b := (q - i) mod p) in *. assert (0 <= a) as Ha by (apply Z.div_pos; lia). clearbody a b.
  assert (∀ s, 0 <= s < l - q → x (q + s) = x (i + b + s)) as Hqs.
  { intros s Hs. replace (q + s) with (i + b + s + a * p) by lia. apply (ms_shift i j k p); [done|lia|lia|lia]. }
  destruct (decide (b = 0)) as [->|Hb]; [right; split; [lia|intros s Hs; rewrite Hqs by done; f_equal; lia]|].
  destruct (H5 b ltac:(lia)) as (t & T1 & T2 & T3 & T4). destruct (Z.lt_ge_cases (q + t) l) as [Ht|Ht].
  - left. exists t. split_and!; [lia|lia|nia|intros s Hs; rewrite Hqs by lia; by apply T3|by rewrite Hqs by lia].
  - right. split; [lia|]. intros s Hs. rewrite Hqs by done. apply T3. lia.
Qed.
End Search.

(** ** Which places of a text need not be tried *)

Section Matching.
Context (y : Z → Z) (i p : Z) (Hi : 0 <= i) (Hp : 0 < p) (Hip : i + p <= l).
Context (Hcrit : ∀ d, local_period i d → i < d ∧ period d).
Context (Hright : ∀ t, i + p <= t < l → x t = x (t - p)).
Context (Hleast : ∀ d, 0 < d < p → ∃ t, 0 <= t ∧ d + t < p ∧ x (i + d + t) ≠ x (i + t)).

Definition occurs (pos : Z) : Prop := ∀ s, 0 <= s < l → y (pos + s) = x s.

(** Two occurrences over the critical position, the first one up to [k]. *)
Lemma occurs_local pos k d :
  (∀ s, i <= s < k → y (pos + s) = x s) → 0 < d → occurs (pos + d) → i + d <= k ∨ l <= k → local_period i d.
Proof.
  intros Hm Hd Hocc Hk. split; [done|]. intros t Ht Htl. rewrite <- Hm by lia. rewrite <- (Hocc (t - d)) by lia. f_equal. lia.
Qed.

(** After a mismatch at [k] in the right part. *)
Lemma skip_right pos k d :
  i <= k < l → (∀ s, i <= s < k → y (pos + s) = x s) → y (pos + k) ≠ x k → 0 < d <= k - i → ~ occurs (pos + d).
Proof.
  intros Hk Hm Hne Hd Hocc. destruct (Hcrit d) as [_ [_ Hper]]; [eapply occurs_local; [done|lia|done|lia]|].
  apply Hne. rewrite (Hper k) by lia. rewrite <- (Hocc (k - d)) by lia. f_equal. lia.
Qed.

(** The least period of the right part, if it is a period of the word. *)
Lemma least_period d : period d → p <= d.
Proof.
  intros [Hd Hper]. destruct (Z.lt_ge_cases d p) as [Hlt|]; [exfalso|done]. destruct (Hleast d ltac:(lia)) as (t & T1 & T2 & T3).
  apply T3. rewrite Hper by lia. f_equal. lia.
Qed.
Lemma skip_period pos d : (∀ s, i <= s < l → y (pos + s) = x s) → 0 < d < p → ~ occurs (pos + d).
Proof.
  intros Hm Hd Hocc. destruct (Hcrit d) as [_ Hper]; [eapply occurs_local; [done|lia|done|by right]|]. apply least_period in Hper. lia.
Qed.
Lemma keep_prefix pos : period p → (∀ s, i <= s < l → y (pos + s) = x s) → ∀ s, 0 <= s < l - p → y (pos + p + s) = x s.
Proof.
  intros Hper Hm s Hs. destruct (Hcrit p (period_local i p Hper)) as [Hlt _]. destruct Hper as [_ Hper].
  rewrite <- Z.add_assoc, Hm by lia. rewrite Hper by lia. f_equal. lia.
Qed.

(** Letters of the right part at a distance of a multiple of its period. *)
Lemma right_shift a t : 0 <= a → i <= t → t + a * p < l → x (t + a * p) = x t.
Proof.
  intros Ha Ht. revert a Ha. apply (natlike_ind (fun a => t + a * p < l → x (t + a * p) = x t)).
  - intros _. f_equal. lia.
  - intros a Ha IH Hlt. rewrite (Hright (t + Z.succ a * p)) by nia. replace (t + Z.succ a * p - p) with (t + a * p) by lia. apply IH. nia.
Qed.

(** A period of the word that is not longer than the right part makes [p] one. *)
Lemma right_period d : period d → i < d <= l - i → period p.
Proof.
  intros [Hd Hper] Hdl. pose proof (Z.div_mod d p ltac:(lia)) as Hdiv. pose proof (Z.mod_pos_bound d p ltac:(lia)) as Hmod.
  set (f := d / p) in *. set (r := d mod p) in *. assert (0 <= f) as Hf by (apply Z.div_pos; lia). clearbody f r.
  destruct (decide (r = 0)) as [->|Hr].
  - split; [done|]. intros t Ht. destruct (Z.lt_ge_cases (t - p) i) as [Hti|Hti]; [|apply Hright; lia].
    replace (x (t - p)) with (x (t - p + d)) by (rewrite Hper by lia; f_equal; lia). assert (1 <= f) by nia. destruct (Z.lt_ge_cases t i) as [Hti'|Hti'].
    + replace (x t) with (x (t + d)) by (rewrite Hper by lia; f_equal; lia). rewrite (Hright (t + d)) by lia. f_equal. lia.
    + replace (t - p + d) with (t + (f - 1) * p) by lia. symmetry. apply right_shift; lia.
  - exfalso. assert (local_period i r) as Hloc.
    { split; [lia|]. intros s Hs Hrs. replace (x (s - r)) with (x (s - r + d)) by (rewrite Hper by lia; f_equal; lia).
      replace (s - r + d) with (s + f * p) by lia. symmetry. apply right_shift; lia. }
    destruct (Hcrit r Hloc) as [_ Hper']. apply least_period in Hper'. lia.
Qed.
Lemma skip_long pos d : ~ period p → (∀ s, i <= s < l → y (pos + s) = x s) → 0 < d < Z.max i (l - i + 1) → ~ occurs (pos + d).
Proof.
  intros Hn Hm Hd Hocc. destruct (Hcrit d) as [Hlt Hper]; [eapply occurs_local; [done|lia|done|by right]|]. apply Hn, (right_period d); [done|lia].
Qed.

(** A prefix is known to match, and the last letter does not. *)
Lemma skip_prefix pos d :
  period p → (∀ s, 0 <= s < l - p → y (pos + s) = x s) → y (pos + (l - 1)) ≠ x (l - 1) → 0 < d < l - p → ~ occurs (pos + d).
Proof.
  intros [_ Hper] Hm Hne Hd Hocc. apply Hne.
  assert (x (l - 1) = x (l - 1 - d)) as ->; [|rewrite <- Hocc by lia; f_equal; lia].
  rewrite (Hper (l - 1)) by lia. rewrite (Hper (l - 1 - d)) by lia. rewrite <- (Hm (l - 1 - p)) by lia.
  replace (pos + (l - 1 - p)) with (pos + d + (l - 1 - p - d)) by lia. rewrite Hocc by lia. f_equal. lia.
Qed.
End Matching.
End Word.
