(* ===== verification/Memmem.v ===== *)
(** * memmem

    Two-way substring search, [memmem] of string/memmem.c: a rolling window for needles
    of two to four bytes; for longer ones the critical position of the needle from its
    two maximal suffixes, a table of the last place of every byte, and a search that
    never goes back.  The theorems compare it with trying every place of the haystack. *)

From stdpp Require Import base gmap list numbers.
From S2P Require Import Prelude CMem Words MemFuncs Periods.
Open Scope Z_scope.
#[local] Set Warnings "-clear-no-such-hyp".

(** ** Definitions *)

(** The needles of two, three and four bytes. *)
Definition twobyte_memmem (h k n : Z) : M cstate Z :=
  n0 ← load8 n; n1 ← load8 (n + 1);
  let nw := u16 (Z.lor (Z.shiftl n0 8) n1) in
  h0 ← load8 h; h1 ← load8 (h + 1);
  let hw := u16 (Z.lor (Z.shiftl h0 8) h1) in
  '(h, hw) ⇐
    loop (fun '(h, k, hw) =>
            if negb (k =? 0) then
              if hw =? nw then break (inl (h - 2))
              else b ← load8 h; continue (h + 1, u32 (k - 1), u16 (Z.lor (Z.shiftl hw 8) b))
            else break (inr (h, hw))) (h + 2, u32 (k - 2), hw);
  mret (if hw =? nw then h - 2 else NULL).

Definition threebyte_memmem (h k n : Z) : M cstate Z :=
  n0 ← load8 n; n1 ← load8 (n + 1); n2 ← load8 (n + 2);
  let nw := Z.lor (Z.lor (u32 (Z.shiftl n0 24)) (Z.shiftl n1 16)) (Z.shiftl n2 8) in
  h0 ← load8 h; h1 ← load8 (h + 1); h2 ← load8 (h + 2);
  let hw := Z.lor (Z.lor (u32 (Z.shiftl h0 24)) (Z.shiftl h1 16)) (Z.shiftl h2 8) in
  '(h, hw) ⇐
    loop (fun '(h, k, hw) =>
            if negb (k =? 0) then
              if hw =? nw then break (inl (h - 3))
              else b ← load8 h; continue (h + 1, u32 (k - 1), u32 (Z.shiftl (Z.lor hw b) 8))
            else break (inr (h, hw))) (h + 3, u32 (k - 3), hw);
  mret (if hw =? nw then h - 3 else NULL).

Definition fourbyte_memmem (h k n : Z) : M cstate Z :=
  n0 ← load8 n; n1 ← load8 (n + 1); n2 ← load8 (n + 2); n3 ← load8 (n + 3);
  let nw := Z.lor (Z.lor (Z.lor (u32 (Z.shiftl n0 24)) (Z.shiftl n1 16)) (Z.shiftl n2 8)) n3 in
  h0 ← load8 h; h1 ← load8 (h + 1); h2 ← load8 (h + 2); h3 ← load8 (h + 3);
  let hw := Z.lor (Z.lor (Z.lor (u32 (Z.shiftl h0 24)) (Z.shiftl h1 16)) (Z.shiftl h2 8)) h3 in
  '(h, hw) ⇐
    loop (fun '(h, k, hw) =>
            if negb (k =? 0) then
              if hw =? nw then break (inl (h - 4))
              else b ← load8 h; continue (h + 1, u32 (k - 1), Z.lor (u32 (Z.shiftl hw 8)) b)
            else break (inr (h, hw))) (h + 4, u32 (k - 4), hw);
  mret (if hw =? nw then h - 4 else NULL).

(** [BITOP] with [|=] and with [&], on an array of 32-bit words. *)
Definition BITOP_or (a : list Z) (b : Z) : list Z :=
  <[Z.to_nat (b / 32) := Z.lor (nthZ a (b / 32)) (u32 (Z.shiftl 1 (b mod 32)))]> a.
Definition BITOP_and (a : list Z) (b : Z) : Z :=
  Z.land (nthZ a (b / 32)) (u32 (Z.shiftl 1 (b mod 32))).

(** The set of the bytes of the needle, and after which index the last one of each is;
    the other entries of [shift] are not initialised. *)
Definition needle_tables (n l : Z) : M cstate (list Z * gmap Z Z) :=
  loop (fun '(i, byteset, shift) =>
          if i <? l then
            b ← load8 (n + i);
            continue (i + 1, BITOP_or byteset b, <[b := i + 1]> shift)
          else break (byteset, shift)) (0, replicate 8 0, ∅).
Definition shift_of (shift : gmap Z Z) (b : Z) : M cstate Z :=
  match shift !! b with Some s => mret s | None => fault end.

(** The two loops for a maximal suffix, which differ in the comparison [cmp]. *)
Definition maximal_suffix (cmp : Z → Z → bool) (n l : Z) : M cstate (Z * Z) :=
  loop (fun '(ip, jp, k, p) =>
          if u32 (jp + k) <? l then
            a ← load8 (n + u32 (ip + k)); b ← load8 (n + u32 (jp + k));
            if a =? b then
              if k =? p then continue (ip, u32 (jp + p), 1, p)
              else continue (ip, jp, u32 (k + 1), p)
            else if cmp a b then
              let jp := u32 (jp + k) in continue (ip, jp, 1, u32 (jp - ip))
            else continue (jp, u32 (jp + 1), 1, 1)
          else break (ip, p)) (u32 (-1), 0, 1, 1).

(** The comparison of the two halves at [h]: the next [h] and [mem], or the result. *)
Definition compare_halves (n l ms p mem0 h mem : Z) : M cstate (Z * Z + Z) :=
  k ← loop (fun k =>
              if k <? l then
                a ← load8 (n + k); b ← load8 (h + k);
                if a =? b then continue (k + 1) else break k
              else break k) (Z.max (u32 (ms + 1)) mem);
  if k <? l then continue (h + u32 (k - ms), 0)
  else
    k ← loop (fun k =>
                if mem <? k then
                  a ← load8 (n + (k - 1)); b ← load8 (h + (k - 1));
                  if a =? b then continue (k - 1) else break k
                else break k) (u32 (ms + 1));
    if k <=? mem then break h else continue (h + p, mem0).

Definition search_loop (z n l ms p mem0 : Z) (byteset : list Z) (shift : gmap Z Z) (h mem : Z) : M cstate Z :=
  loop (fun '(h, mem) =>
          if u32 (z - h) <? l then break NULL
          else
            b ← load8 (h + (l - 1));
            if negb (BITOP_and byteset b =? 0) then
              s ← shift_of shift b;
              let k := u32 (l - s) in
              if negb (k =? 0) then
                let k := if k <? mem then mem else k in
                continue (h + k, 0)
              else compare_halves n l ms p mem0 h mem
            else continue (h + l, 0)) (h, mem).

Definition twoway_memmem (h z n l : Z) : M cstate Z :=
  '(byteset, shift) ← needle_tables n l;
  '(ms, p0) ← maximal_suffix Z.gtb n l;
  '(ip, p) ← maximal_suffix Z.ltb n l;
  let '(ms, p) := if u32 (ms + 1) <? u32 (ip + 1) then (ip, p) else (ms, p0) in
  r ← memcmp n (n + p) (u32 (ms + 1));
  let '(mem0, p) :=
    if negb (r =? 0) then (0, u32 (Z.max ms (u32 (l - ms - 1)) + 1))
    else (u32 (l - p), p) in
  search_loop z n l ms p mem0 byteset shift h 0.

Definition memmem (h0 k n0 l : Z) : M cstate Z :=
  if l =? 0 then mret h0
  else if k <? l then mret NULL
  else
    c ← load8 n0;
    h ← memchr h0 c k;
    if (h =? NULL) || (l =? 1) then mret h
    else
      let k := u32 (k - (h - h0)) in
      if k <? l then mret NULL
      else if l =? 2 then twobyte_memmem h k n0
      else if l =? 3 then threebyte_memmem h k n0
      else if l =? 4 then fourbyte_memmem h k n0
      else twoway_memmem h (h + k) n0 l.

(** ** Words of bytes *)

Lemma lor_byte_low a b : is_byte b → Z.lor (Z.shiftl a 8) b = a * 256 + b.
Proof.
  intros Hb. apply Z.bits_inj'. intros m Hm. rewrite Z.lor_spec, Z.shiftl_spec, testbit_byte_cons by done.
  destruct (m <? 8) eqn:E; b2p; [by rewrite Z.testbit_neg_r by lia|]. by rewrite (byte_testbit_high b) by done; rewrite orb_false_r.
Qed.

Lemma u16_window a b : is_byte a → is_byte b → u16 (Z.lor (Z.shiftl a 8) b) = be16 a b.
Proof. unfold is_byte. intros Ha Hb. rewrite lor_byte_low by done. unfold u16, be16. apply Z.mod_small. lia. Qed.
Lemma u16_slide a b c : is_byte b → is_byte c → u16 (Z.lor (Z.shiftl (be16 a b) 8) c) = be16 b c.
Proof. unfold is_byte. intros Hb Hc. rewrite lor_byte_low by done. unfold u16, be16. dlia. Qed.
Lemma be16_inj a b c d : is_byte b → is_byte d → be16 a b = be16 c d → a = c ∧ b = d.
Proof. unfold is_byte, be16. lia. Qed.
Lemma be32_inj' a b c d a' b' c' d' :
  is_byte b → is_byte c → is_byte d → is_byte b' → is_byte c' → is_byte d' →
  be32 a b c d = be32 a' b' c' d' → a = a' ∧ b = b' ∧ c = c' ∧ d = d'.
Proof. unfold is_byte, be32. lia. Qed.

Lemma zero_byte : is_byte 0.
Proof. done. Qed.
#[local] Hint Resolve zero_byte : core.

(** [a << 24 | b << 16 | c << 8] *)
Lemma word3 a b c : is_byte a → is_byte b → is_byte c →
  Z.lor (Z.lor (u32 (Z.shiftl a 24)) (Z.shiftl b 16)) (Z.shiftl c 8) = be32 a b c 0.
Proof.
  intros Ha Hb Hc.
  assert (u32 (Z.shiftl a 24) = be32 a 0 0 0) as ->.
  { unfold is_byte in Ha. rewrite Z.shiftl_mul_pow2, u32_small by lia. unfold be32. lia. }
  assert (Z.shiftl b 16 = be32 0 b 0 0) as -> by (rewrite Z.shiftl_mul_pow2 by lia; unfold be32; lia).
  assert (Z.shiftl c 8 = be32 0 0 c 0) as -> by (rewrite Z.shiftl_mul_pow2 by lia; unfold be32; lia).
  rewrite !lor_be32 by auto using lor_byte. by rewrite !Z.lor_0_r, !Z.lor_0_l.
Qed.
Lemma word4 a b c d : is_byte a → is_byte b → is_byte c → is_byte d →
  Z.lor (Z.lor (Z.lor (u32 (Z.shiftl a 24)) (Z.shiftl b 16)) (Z.shiftl c 8)) d = be32 a b c d.
Proof.
  intros Ha Hb Hc Hd. rewrite word3 by done. replace d with (be32 0 0 0 d) at 1 by (unfold be32; lia).
  rewrite lor_be32 by done. by rewrite !Z.lor_0_r, !Z.lor_0_l.
Qed.
Lemma slide3 a b c d : is_byte a → is_byte b → is_byte c → is_byte d →
  u32 (Z.shiftl (Z.lor (be32 a b c 0) d) 8) = be32 b c d 0.
Proof.
  intros Ha Hb Hc Hd. replace d with (be32 0 0 0 d) at 1 by (unfold be32; lia). rewrite lor_be32 by done. rewrite !Z.lor_0_r, !Z.lor_0_l.
  rewrite Z.shiftl_mul_pow2 by lia. unfold is_byte, u32, be32 in *. dlia.
Qed.
Lemma slide4 a b c d e : is_byte a → is_byte b → is_byte c → is_byte d → is_byte e →
  Z.lor (u32 (Z.shiftl (be32 a b c d) 8)) e = be32 b c d e.
Proof.
  intros Ha Hb Hc Hd He. assert (u32 (Z.shiftl (be32 a b c d) 8) = Z.shiftl (b * 65536 + c * 256 + d) 8) as ->.
  { rewrite !Z.shiftl_mul_pow2 by lia. unfold is_byte, u32, be32 in *. dlia. }
  rewrite lor_byte_low by done. unfold be32. lia.
Qed.

(** ** Occurrences *)

Lemma not_occurs sub s k : 0 <= k <= lenZ s →
  (k + lenZ sub <= lenZ s → (∀ j, 0 <= j < lenZ sub → nthZ sub j = nthZ s (k + j)) → False) → occurs_at sub s k = false.
Proof. intros Hk Hn. apply not_true_is_false. rewrite occurs_at_spec by done. naive_solver. Qed.
Lemma not_occurs_end sub s k : 0 <= k <= lenZ s → lenZ s < k + lenZ sub → occurs_at sub s k = false.
Proof. intros Hk Hl. apply not_occurs; [done|]. lia. Qed.
(** Nothing before [pos], and no room from there on. *)
Lemma find_sub_end sub s pos : 0 <= pos → (∀ j, 0 <= j < pos → j <= lenZ s → occurs_at sub s j = false) → lenZ s < pos + lenZ sub → find_sub sub s = None.
Proof.
  intros Hp Hb Hl. apply find_sub_None_2. intros j Hj. destruct (Z.lt_ge_cases j pos); [apply Hb; lia|]. apply not_occurs_end; lia.
Qed.
Lemma find_sub_cases sub s :
  (∃ k, find_sub sub s = Some k ∧ 0 <= k <= lenZ s ∧ occurs_at sub s k = true ∧ ∀ j, 0 <= j < k → occurs_at sub s j = false) ∨
  (find_sub sub s = None ∧ ∀ j, 0 <= j <= lenZ s → occurs_at sub s j = false).
Proof.
  pose proof (lenZ_nonneg s). unfold find_sub. destruct (find_index _ _) as [k|] eqn:E.
  - left. exists k. apply find_index_Some_1 in E as (H1 & H2 & H3). rewrite lenZ_seqZ in H1 by lia. rewrite nthZ_seqZ in H2 by lia.
    split_and!; [done|lia|lia|done|]. intros j Hj. specialize (H3 j Hj). by rewrite nthZ_seqZ in H3 by lia.
  - right. split; [done|]. intros j Hj. pose proof (find_index_None_1 _ _ j E) as Hf. rewrite lenZ_seqZ, nthZ_seqZ in Hf by lia. apply Hf. lia.
Qed.
Lemma occurs_at_drop sub s i k : 0 <= i → 0 <= k → occurs_at sub (drop (Z.to_nat i) s) k = occurs_at sub s (i + k).
Proof. intros Hi Hk. unfold occurs_at. rewrite drop_drop. by replace (Z.to_nat (i + k)) with (Z.to_nat i + Z.to_nat k)%nat by lia. Qed.
(** The places before the first occurrence of the first byte can be left out. *)
Lemma find_sub_drop sub s p i : 0 <= i <= lenZ s → (∀ j, 0 <= j < i → occurs_at sub s j = false) →
  ptr_of p (find_sub sub s) = ptr_of (p + i) (find_sub sub (drop (Z.to_nat i) s)).
Proof.
  intros Hi Hb. pose proof (lenZ_drop s i Hi) as Hd. destruct (find_sub_cases sub (drop (Z.to_nat i) s)) as [(k & -> & H1 & H2 & H3)|[-> H1]]; simpl.
  - rewrite (find_sub_Some_2 sub s (i + k)); simpl; [lia|lia|by rewrite <- occurs_at_drop by lia|].
    intros j Hj. destruct (Z.lt_ge_cases j i); [apply Hb; lia|]. replace j with (i + (j - i)) by lia. rewrite <- occurs_at_drop by lia. apply H3. lia.
  - rewrite find_sub_None_2; [done|]. intros j Hj. destruct (Z.lt_ge_cases j i); [apply Hb; lia|].
    replace j with (i + (j - i)) by lia. rewrite <- occurs_at_drop by lia. apply H1. lia.
Qed.

(** ** Short needles *)

Section Short.
Context (σ : cstate) (h n : Z) (hay nd : list Z).
Context (Hh : bytes_at (mem σ) h hay) (Hn : bytes_at (mem σ) n nd).
Context (Bh : Forall is_byte hay) (Bn : Forall is_byte nd).
Context (Hlen : lenZ nd <= lenZ hay < 4294967296).

Definition found (r : Z) (τ : cstate) : Prop := r = ptr_of h (find_sub nd hay) ∧ τ = σ.

(** The word [win pos] holds the bytes of the window at [pos]. *)
Lemma window_loop (win : Z → Z) (step : Z → Z → Z) nw :
  (∀ pos, 0 <= pos → pos + lenZ nd < lenZ hay → step (win pos) (nthZ hay (pos + lenZ nd)) = win (pos + 1)) →
  (∀ pos, 0 <= pos → pos + lenZ nd <= lenZ hay → win pos = nw ↔ ∀ j, 0 <= j < lenZ nd → nthZ nd j = nthZ hay (pos + j)) →
  wp ('(h, hw) ⇐
        loop (fun '(h, k, hw) =>
            if negb (k =? 0) then
              if hw =? nw then break (inl (h - lenZ nd))
              else b ← load8 h; continue (h + 1, u32 (k - 1), step hw b)
            else break (inr (h, hw))) (h + lenZ nd, u32 (lenZ hay - lenZ nd), win 0);
      mret (if hw =? nw then h - lenZ nd else NULL)) found σ.
Proof.
  intros Hstep Hwin. pose proof (lenZ_nonneg nd). apply wp_early.
  apply (wp_loop _ (fun '(a, k, hw) τ => τ = σ ∧ ∃ pos, 0 <= pos ∧ pos + lenZ nd + k = lenZ hay ∧ 0 <= k ∧ a = h + (pos + lenZ nd) ∧
    hw = win pos ∧ ∀ j, 0 <= j < pos → occurs_at nd hay j = false) _ (fun '(a, k, hw) => k)).
  - intros [[a k] hw] τ (-> & pos & P1 & P2 & P3 & -> & -> & Hb).
    assert (win pos = nw → find_sub nd hay = Some pos) as Hf.
    { intros Hw. apply find_sub_Some_2; [lia| |done]. apply occurs_at_spec; [lia|]. split; [lia|]. apply Hwin; [lia|lia|done]. }
    assert (win pos ≠ nw → occurs_at nd hay pos = false) as Hf'.
    { intros Hw. apply not_occurs; [lia|]. intros _ Hj. by apply Hw, Hwin; [lia|lia|]. }
    destruct (negb (k =? 0)) eqn:E; b2p; [destruct (win pos =? nw) eqn:Ew; b2p; [wp_step|]|].
    + split; [|done]. rewrite Hf by done. simpl. lia.
    + wp_step. apply (wp_load8_at _ hay); [done|lia|]. wp_step. rewrite Hstep, u32_small by lia. split; [|lia]. split; [done|]. exists (pos + 1).
      split_and!; [lia|lia|lia|lia|done|]. intros j Hj. destruct (decide (j = pos)) as [->|]; [by apply Hf'|apply Hb; lia].
    + wp_step. wp_step. split; [|done]. destruct (win pos =? nw) eqn:Ew; b2p.
      * rewrite Hf by done. simpl. lia.
      * rewrite (find_sub_end nd hay (pos + 1)); [done|lia| |lia]. intros j Hj _. destruct (decide (j = pos)) as [->|]; [by apply Hf'|apply Hb; lia].
  - split; [done|]. exists 0. rewrite u32_small by lia. split_and!; [lia|lia|lia|lia|done|]. intros j Hj; lia.
  - intros [[a k] hw] τ (_ & pos & _ & _ & ? & _). done.
  - rewrite u32_small by lia. lia.
Qed.

Lemma hay_byte j : 0 <= j < lenZ hay → is_byte (nthZ hay j).
Proof. apply Forall_nthZ, Bh. Qed.
Lemma nd_byte j : 0 <= j < lenZ nd → is_byte (nthZ nd j).
Proof. apply Forall_nthZ, Bn. Qed.


(** Reading the first bytes of an array, one after the other. *)
Ltac load_first p l := wp_step; rewrite <- (Z.add_0_r p) at 1; apply (wp_load8_at _ l); [done|lia|].
Ltac load_next l := wp_step; apply (wp_load8_at _ l); [done|lia|]; cbv zeta.
Ltac byte_tac := first [apply hay_byte; lia | apply nd_byte; lia | done].

Lemma twobyte_memmem_spec : lenZ nd = 2 → wp (twobyte_memmem h (lenZ hay) n) found σ.
Proof.
  intros H2. unfold twobyte_memmem. load_first n nd. load_next nd. load_first h hay. load_next hay.
  pose proof (window_loop (fun pos => be16 (nthZ hay (pos + 0)) (nthZ hay (pos + 1))) (fun hw b => u16 (Z.lor (Z.shiftl hw 8) b)) (be16 (nthZ nd 0) (nthZ nd 1))) as Hw.
  rewrite H2 in Hw. rewrite !u16_window by byte_tac. apply Hw; intros pos P1 P2.
  - rewrite u16_slide by byte_tac. do 2 f_equal; lia.
  - split.
    + intros [E0 E1]%be16_inj j Hj; [|byte_tac..]. assert (j = 0 ∨ j = 1) as [->| ->] by lia; done.
    + intros Hj. rewrite <- !Hj by lia. done.
Qed.
Lemma threebyte_memmem_spec : lenZ nd = 3 → wp (threebyte_memmem h (lenZ hay) n) found σ.
Proof.
  intros H3. unfold threebyte_memmem. load_first n nd. do 2 load_next nd. load_first h hay. do 2 load_next hay.
  pose proof (window_loop (fun pos => be32 (nthZ hay (pos + 0)) (nthZ hay (pos + 1)) (nthZ hay (pos + 2)) 0) (fun hw b => u32 (Z.shiftl (Z.lor hw b) 8))
    (be32 (nthZ nd 0) (nthZ nd 1) (nthZ nd 2) 0)) as Hw.
  rewrite H3 in Hw. rewrite !word3 by byte_tac. apply Hw; intros pos P1 P2.
  - rewrite slide3 by byte_tac. do 2 f_equal; lia.
  - split.
    + intros (E0 & E1 & E2 & _)%be32_inj' j Hj; [|byte_tac..]. assert (j = 0 ∨ j = 1 ∨ j = 2) as [->|[->| ->]] by lia; done.
    + intros Hj. rewrite <- !Hj by lia. done.
Qed.
Lemma fourbyte_memmem_spec : lenZ nd = 4 → wp (fourbyte_memmem h (lenZ hay) n) found σ.
Proof.
  intros H4. unfold fourbyte_memmem. load_first n nd. do 3 load_next nd. load_first h hay. do 3 load_next hay.
  pose proof (window_loop (fun pos => be32 (nthZ hay (pos + 0)) (nthZ hay (pos + 1)) (nthZ hay (pos + 2)) (nthZ hay (pos + 3)))
    (fun hw b => Z.lor (u32 (Z.shiftl hw 8)) b) (be32 (nthZ nd 0) (nthZ nd 1) (nthZ nd 2) (nthZ nd 3))) as Hw.
  rewrite H4 in Hw. rewrite !word4 by byte_tac. apply Hw; intros pos P1 P2.
  - rewrite slide4 by byte_tac. f_equal; f_equal; lia.
  - split.
    + intros (E0 & E1 & E2 & E3)%be32_inj' j Hj; [|byte_tac..]. assert (j = 0 ∨ j = 1 ∨ j = 2 ∨ j = 3) as [->|[->|[->| ->]]] by lia; done.
    + intros Hj. rewrite <- !Hj by lia. done.
Qed.
End Short.

(** ** The set of bytes *)

Lemma land_pow2 a k : 0 <= k → Z.land a (2 ^ k) = 0 ↔ Z.testbit a k = false.
Proof.
  intros Hk. split.
  - intros H. assert (Z.testbit (Z.land a (2 ^ k)) k = false) as Ht by (rewrite H; apply Z.bits_0).
    rewrite Z.land_spec, Z.pow2_bits_true in Ht by done. by rewrite andb_true_r in Ht.
  - intros Ht. apply Z.bits_inj'. intros m Hm. rewrite Z.land_spec, Z.bits_0, Z.pow2_bits_eqb by done.
    destruct (Z.eqb_spec k m) as [<-|]; [by rewrite Ht|apply andb_false_r].
Qed.
Lemma bit_mask b : u32 (Z.shiftl 1 (b mod 32)) = 2 ^ (b mod 32).
Proof.
  pose proof (Z.mod_pos_bound b 32 ltac:(lia)). rewrite Z.shiftl_1_l, u32_small; [done|]. split; [apply Z.pow_nonneg; lia|].
  change 4294967296 with (2 ^ 32). apply Z.pow_lt_mono_r; lia.
Qed.
Lemma BITOP_and_spec a b : BITOP_and a b = 0 ↔ Z.testbit (nthZ a (b / 32)) (b mod 32) = false.
Proof. unfold BITOP_and. rewrite bit_mask. apply land_pow2, Z.mod_pos_bound. lia. Qed.
Lemma BITOP_or_spec a b c : lenZ a = 8 → is_byte b → is_byte c → BITOP_and (BITOP_or a b) c = 0 ↔ c ≠ b ∧ BITOP_and a c = 0.
Proof.
  unfold is_byte. intros Ha Hb Hc. rewrite !BITOP_and_spec. unfold BITOP_or. rewrite nthZ_insert by dlia. rewrite bit_mask.
  destruct (Z.eqb_spec (c / 32) (b / 32)) as [E|E].
  - rewrite Z.lor_spec, Z.pow2_bits_eqb by (apply Z.mod_pos_bound; lia). rewrite E. rewrite orb_false_iff, Z.eqb_neq.
    split; intros [H1 H2]; [split; [intros ->; done|done]|split; [done|intros H3; apply H1; dlia]].
  - split; [intros H; split; [intros ->; done|done]|by intros [_ ?]].
Qed.

(** ** The needle *)

Section Needle.
Context (σ : cstate) (n : Z) (nd : list Z).
Context (Hn : bytes_at (mem σ) n nd) (Bn : Forall is_byte nd) (Hl : 1 <= lenZ nd < 4294967296).
#[local] Abbreviation x := (nthZ nd).
#[local] Abbreviation l := (lenZ nd).

(** What the tables say of the byte [c] and the first [i] bytes of the needle. *)
Definition last_place (byteset : list Z) (shift : gmap Z Z) (i c : Z) : Prop :=
  (BITOP_and byteset c = 0 ∧ ∀ j, 0 <= j < i → x j ≠ c) ∨
  (BITOP_and byteset c ≠ 0 ∧ ∃ s, shift !! c = Some s ∧ 1 <= s <= i ∧ x (s - 1) = c ∧ ∀ j, s <= j < i → x j ≠ c).
Definition tables_ok (byteset : list Z) (shift : gmap Z Z) (i : Z) : Prop :=
  lenZ byteset = 8 ∧ ∀ c, is_byte c → last_place byteset shift i c.

Lemma tables_step byteset shift i : 0 <= i < l → tables_ok byteset shift i → tables_ok (BITOP_or byteset (x i)) (<[x i := i + 1]> shift) (i + 1).
Proof.
  intros Hi [H8 Ht]. assert (is_byte (x i)) as Hx by by apply Forall_nthZ. split; [unfold BITOP_or; by rewrite lenZ_insert|].
  intros c Hc. unfold last_place. rewrite !(BITOP_or_spec _ _ _ H8 Hx Hc). destruct (decide (c = x i)) as [->|Hne].
  - right. split; [tauto|]. exists (i + 1). rewrite lookup_insert_eq. split_and!; [done|lia|lia|f_equal; lia|intros j Hj; lia].
  - rewrite lookup_insert_ne by done. destruct (Ht c Hc) as [[T1 T2]|(T1 & s & T2 & T3 & T4 & T5)].
    + left. split; [done|]. intros j Hj. destruct (decide (j = i)) as [->|]; [done|apply T2; lia].
    + right. split; [tauto|]. exists s. split_and!; [done|lia|lia|done|]. intros j Hj. destruct (decide (j = i)) as [->|]; [done|apply T5; lia].
Qed.
Lemma needle_tables_spec : wp (needle_tables n l) (fun '(byteset, shift) τ => τ = σ ∧ tables_ok byteset shift l) σ.
Proof.
  apply (wp_loop _ (fun '(i, byteset, shift) τ => τ = σ ∧ 0 <= i <= l ∧ tables_ok byteset shift i) _ (fun '(i, _, _) => l - i)).
  - intros [[i byteset] shift] τ (-> & Hi & Ht). destruct (i <? l) eqn:E; b2p.
    + wp_step. apply (wp_load8_at _ nd); [done|lia|]. wp_step. split; [|lia]. split; [done|]. split; [lia|]. apply tables_step; [lia|done].
    + wp_step. split; [done|]. by replace l with i by lia.
  - split; [done|]. split; [lia|]. split; [done|]. intros c Hc. left. split; [|intros j Hj; lia]. apply BITOP_and_spec.
    unfold nthZ. rewrite lookup_total_replicate_2; [apply Z.bits_0|]. unfold is_byte in Hc. dlia.
  - intros [[i byteset] shift] τ (_ & ? & _). lia.
  - lia.
Qed.

(** A maximal suffix with the period of the letters from it on. *)
Record suffix_at (o : Z → Z → Prop) (i p : Z) : Prop := SuffixAt {
  sa_max : max_suffix x l o i;
  sa_range : 0 <= i ∧ 0 < p ∧ i + p <= l;
  sa_right : ∀ t, i + p <= t < l → x t = x (t - p);
  sa_least : ∀ d, 0 < d < p → ∃ t, 0 <= t ∧ d + t < p ∧ x (i + d + t) ≠ x (i + t)
}.
Lemma suffix_found o i j k p : letter_order o → ms_inv x l o i j k p → j + k - 1 = l → suffix_at o i p.
Proof.
  intros Ho Hms Hk. pose proof (ms_range _ _ _ _ _ _ _ Hms) as (R1 & R2 & R3 & R4). destruct (ms_mult _ _ _ _ _ _ _ Hms) as (c & Hc & Hj).
  split; [by eapply ms_done|nia|intros t Ht; eapply ms_period; [done|lia]|].
  intros d Hd. destruct (ms_inner _ _ _ _ _ _ _ Hms d Hd) as (t & T1 & T2 & _ & T4). exists t. split_and!; [done|done|].
  intros E. rewrite E in T4. by apply lo_irrefl in T4.
Qed.

Lemma maximal_suffix_spec o cmp :
  letter_order o → (∀ a b, cmp a b = true → o b a) → (∀ a b, a ≠ b → cmp a b = false → o a b) →
  wp (maximal_suffix cmp n l) (fun '(ip, p) τ => τ = σ ∧ ∃ i, ip = u32 (i - 1) ∧ suffix_at o i p) σ.
Proof.
  intros Ho Hgt Hlt. pose proof (ms_start x l o ltac:(lia)) as H0.
  apply (wp_loop_ghost _ (fun '(i, j, k) '(ip, jp, k', p) τ => τ = σ ∧ ip = u32 (i - 1) ∧ jp = j - 1 ∧ k' = k ∧ ms_inv x l o i j k p)
    _ (fun '(i, j, k) => 2 * l + 2 - (i + j + k))) with (g := (0, 1, 1)).
  - intros [[i j] k] [[[ip jp] k'] p] τ (-> & -> & -> & -> & Hms). pose proof (ms_range _ _ _ _ _ _ _ Hms) as (R1 & R2 & R3 & R4).
    destruct (ms_mult _ _ _ _ _ _ _ Hms) as (c & Hc & Hj). assert (p <= j - i) by nia.
    replace (u32 (j - 1 + k)) with (j + k - 1) by (rewrite u32_small; lia). destruct (j + k - 1 <? l) eqn:E; b2p.
    2:{ wp_step. split; [done|]. exists i. split; [done|]. eapply suffix_found; [done|done|lia]. }
    replace (u32 (u32 (i - 1) + k)) with (i + k - 1) by (unfold u32; dlia).
    wp_step. apply (wp_load8_at _ nd); [done|lia|]. wp_step. apply (wp_load8_at _ nd); [done|lia|].
    destruct (x (i + k - 1) =? x (j + k - 1)) eqn:Ex; b2p.
    + pose proof (ms_equal x l o i j k p Hms E Ex) as He. destruct (k =? p) eqn:Ek; b2p; wp_step.
      * exists (i, j + p, 1). split; [|lia]. split_and!; [done|done|rewrite u32_small; lia|done|done].
      * exists (i, j, k + 1). split; [|lia]. split_and!; [done|done|done|rewrite u32_small; lia|by replace (u32 (k + 1)) with (k + 1) by (rewrite u32_small; lia)].
    + destruct (cmp _ _) eqn:Ec; cbv zeta; wp_step.
      * exists (i, j + k, 1). split; [|lia]. replace (u32 (j - 1 + k)) with (j + k - 1) by (rewrite u32_small; lia).
        replace (u32 (j + k - 1 - u32 (i - 1))) with (j + k - i) by (unfold u32; dlia). split_and!; [done|done|lia|done|]. apply (ms_smaller x l o Ho i j k p); auto.
      * exists (j, j + 1, 1). split; [|lia]. split_and!; [done|rewrite u32_small; lia|rewrite u32_small; lia|done|]. apply (ms_greater x l o Ho i j k p); auto.
  - done.
  - intros [[i j] k] [[[ip jp] k'] p] τ (_ & _ & _ & _ & Hms). pose proof (ms_range _ _ _ _ _ _ _ Hms). lia.
  - lia.
Qed.
End Needle.

(** ** The search *)

Section Searching.
Context (σ : cstate) (hp n : Z) (hay nd : list Z).
Context (Hh : bytes_at (mem σ) hp hay) (Hn : bytes_at (mem σ) n nd).
Context (Bh : Forall is_byte hay) (Hlen : 1 <= lenZ nd <= lenZ hay) (Hmax : lenZ hay < 4294967296).
#[local] Abbreviation x := (nthZ nd).
#[local] Abbreviation l := (lenZ nd).
#[local] Abbreviation y := (nthZ hay).
#[local] Abbreviation occurs := (occurs (nthZ nd) (lenZ nd) (nthZ hay)).

Context (byteset : list Z) (shift : gmap Z Z) (Ht : tables_ok nd byteset shift l).
Context (o : Z → Z → Prop) (i p : Z) (Hs : suffix_at nd o i p).
Context (Hcrit : ∀ d, local_period x l i d → i < d ∧ period x l d).

(** How far to go after a mismatch in the left half, and what is then known. *)
Definition stride (st mem0 : Z) : Prop :=
  (period x l p ∧ st = p ∧ mem0 = l - p) ∨ (~ period x l p ∧ st = Z.max i (l - i + 1) ∧ mem0 = 0 ∧ 1 <= i).
Context (st mem0 : Z) (Hst : stride st mem0).

(** No occurrence before [pos], and [mem] bytes are known to match there. *)
Record searching (pos mem : Z) : Prop := Searching {
  se_range : 0 <= pos <= lenZ hay;
  se_clear : ∀ q, 0 <= q < pos → ~ occurs q;
  se_mem : mem = 0 ∨ (mem = l - p ∧ period x l p);
  se_prefix : ∀ s, 0 <= s < mem → y (pos + s) = x s
}.

Lemma suffix_range : 0 <= i ∧ 0 < p ∧ i + p <= l.
Proof. apply Hs. Qed.
Lemma searching_next pos mem d mem' :
  searching pos mem → 0 < d → pos + d <= lenZ hay → (∀ q, 0 <= q < d → ~ occurs (pos + q)) →
  mem' = 0 ∨ (mem' = l - p ∧ period x l p) → (∀ s, 0 <= s < mem' → y (pos + d + s) = x s) → searching (pos + d) mem'.
Proof.
  intros [S1 S2 S3 S4] Hd Hp Hq Hm Hpre. split; [lia| |done|done]. intros q Hq'. destruct (Z.lt_ge_cases q pos); [apply S2; lia|].
  replace q with (pos + (q - pos)) by lia. apply Hq. lia.
Qed.
Lemma searching_reset pos mem d :
  searching pos mem → 0 < d → pos + d <= lenZ hay → (∀ q, 0 <= q < d → ~ occurs (pos + q)) → searching (pos + d) 0.
Proof. intros. eapply searching_next; [done..|by left|]. intros s Hs'. lia. Qed.

(** The outcome of one round at [pos]. *)
Definition round_post (pos : Z) (r : Z * Z + Z) (τ : cstate) : Prop :=
  τ = σ ∧ match r with
          | inl (h, mem) => ∃ pos', h = hp + pos' ∧ pos < pos' ∧ searching pos' mem
          | inr r => r = hp + pos ∧ occurs pos
          end.

Lemma right_loop_spec pos mem : searching pos mem → pos + l <= lenZ hay →
  wp (loop (fun k =>
              if k <? l then
                a ← load8 (n + k); b ← load8 (hp + pos + k);
                if a =? b then continue (k + 1) else break k
              else break k) (Z.max i mem))
     (fun k τ => τ = σ ∧ i <= k <= l ∧ (∀ s, i <= s < k → y (pos + s) = x s) ∧ (k < l → y (pos + k) ≠ x k)) σ.
Proof.
  intros Hse Hpos. pose proof suffix_range as (R1 & R2 & R3). pose proof Hse as [S1 S2 S3 S4].
  apply (wp_loop _ (fun k τ => τ = σ ∧ i <= k <= l ∧ ∀ s, i <= s < k → y (pos + s) = x s) _ (fun k => l - k)).
  - intros k τ (-> & Hk & Hm). destruct (k <? l) eqn:E; b2p; [|wp_step; split_and!; [done|lia|lia|done|lia]].
    wp_step. apply (wp_load8_at _ nd); [done|lia|]. wp_step. rewrite <- Z.add_assoc. apply (wp_load8_at _ hay); [done|lia|].
    destruct (x k =? y (pos + k)) eqn:Ex; b2p; wp_step.
    + split; [|lia]. split_and!; [done|lia|lia|]. intros s Hs'. destruct (decide (s = k)) as [->|]; [done|apply Hm; lia].
    + split_and!; [done|lia|lia|done|congruence].
  - split_and!; [done|lia|lia|]. intros s Hs'. apply S4. lia.
  - intros k τ (_ & ? & _). lia.
  - lia.
Qed.
Lemma left_loop_spec pos mem : searching pos mem → pos + l <= lenZ hay →
  wp (loop (fun k =>
                if mem <? k then
                  a ← load8 (n + (k - 1)); b ← load8 (hp + pos + (k - 1));
                  if a =? b then continue (k - 1) else break k
                else break k) i)
     (fun k τ => τ = σ ∧ k <= i ∧ (∀ s, k <= s < i → y (pos + s) = x s) ∧ (mem < k → y (pos + (k - 1)) ≠ x (k - 1))) σ.
Proof.
  intros Hse Hpos. pose proof suffix_range as (R1 & R2 & R3). pose proof Hse as [S1 S2 S3 S4].
  apply (wp_loop _ (fun k τ => τ = σ ∧ 0 <= k <= i ∧ ∀ s, k <= s < i → y (pos + s) = x s) _ (fun k => k)).
  - intros k τ (-> & Hk & Hm). destruct (mem <? k) eqn:E; b2p; [|wp_step; split_and!; [done|lia|done|lia]].
    assert (0 <= mem) by lia.
    wp_step. apply (wp_load8_at _ nd); [done|lia|]. wp_step. rewrite <- Z.add_assoc. apply (wp_load8_at _ hay); [done|lia|].
    destruct (x (k - 1) =? y (pos + (k - 1))) eqn:Ex; b2p; wp_step.
    + split; [|lia]. split_and!; [done|lia|lia|]. intros s Hs'. destruct (decide (s = k - 1)) as [->|]; [done|apply Hm; lia].
    + split_and!; [done|lia|done|congruence].
  - split_and!; [done|lia|lia|]. intros s Hs'. lia.
  - intros k τ (_ & ? & _). lia.
  - lia.
Qed.

(** A mismatch in the left half. *)
Lemma stride_skip pos q : (∀ s, i <= s < l → y (pos + s) = x s) → 0 < q < st → ~ occurs (pos + q).
Proof.
  intros Hm Hq. pose proof suffix_range as (R1 & R2 & R3). destruct Hst as [(P1 & -> & _)|(P1 & -> & _)].
  - eapply skip_period; [done..|apply Hs|done|done].
  - eapply skip_long; [done..|apply Hs|apply Hs|done|done|done].
Qed.
Lemma compare_halves_spec pos mem : searching pos mem → pos + l <= lenZ hay →
  wp (compare_halves n l (u32 (i - 1)) st mem0 (hp + pos) mem) (round_post pos) σ.
Proof.
  intros Hse Hpos. pose proof suffix_range as (R1 & R2 & R3). pose proof Hse as [S1 S2 S3 S4]. unfold compare_halves.
  replace (u32 (u32 (i - 1) + 1)) with i by (unfold u32; dlia). wp_step. eapply wp_mono; [by apply right_loop_spec|].
  intros k τ (-> & Hk & Hm & Hne). destruct (k <? l) eqn:E; b2p.
  { wp_step. split; [done|]. replace (u32 (k - u32 (i - 1))) with (k - i + 1) by (unfold u32; dlia).
    exists (pos + (k - i + 1)). split_and!; [lia|lia|]. apply (searching_reset pos mem); [done|lia|lia|]. intros q Hq.
    destruct (decide (q = 0)) as [->|]; [intros Ho; apply Hne; [done|]; rewrite <- (Ho k) by lia; f_equal; lia|].
    eapply (skip_right _ _ _ i) with (k := k); try done; [lia|by apply Hne|lia]. }
  replace k with l in * by lia. wp_step. eapply wp_mono; [by apply left_loop_spec|].
  intros k' τ (-> & Hk' & Hm' & Hne'). destruct (k' <=? mem) eqn:E'; b2p; wp_step; (split; [done|]).
  - split; [done|]. intros s Hs'. destruct (Z.lt_ge_cases s mem); [apply S4; lia|]. destruct (Z.lt_ge_cases s i); [apply Hm'; lia|apply Hm; lia].
  - exists (pos + st). assert (0 < st <= l) by (destruct Hst as [(_ & -> & _)|(_ & -> & _ & ?)]; lia). split_and!; [lia|lia|].
    apply (searching_next pos mem); [done|lia|lia| | |].
    + intros q Hq. destruct (decide (q = 0)) as [->|]; [|apply stride_skip; [done|lia]].
      intros Ho. apply Hne'; [done|]. rewrite <- (Ho (k' - 1)) by lia. f_equal. lia.
    + destruct Hst as [(P1 & _ & ->)|(_ & _ & -> & _)]; [by right|by left].
    + destruct Hst as [(P1 & -> & ->)|(_ & _ & -> & _)]; [|lia]. eapply keep_prefix; done.
Qed.

(** The last byte of the window does not fit. *)
Lemma last_byte_skip pos b s q : b = y (pos + (l - 1)) → 0 <= s → (∀ j, s <= j < l → x j ≠ b) → 0 <= q < l - s → ~ occurs (pos + q).
Proof.
  intros -> Hs0 Hj Hq Ho. apply (Hj (l - 1 - q)); [lia|]. rewrite <- (Ho (l - 1 - q)) by lia. f_equal. lia.
Qed.
Lemma searching_clear pos mem q : searching pos mem → 0 <= q < pos → occurs_at nd hay q = false.
Proof.
  intros Hse Hq. pose proof (se_range _ _ Hse). apply not_occurs; [lia|]. intros _ Hj. apply (se_clear _ _ Hse q Hq). intros s Hs'. symmetry. by apply Hj.
Qed.
Lemma search_loop_spec :
  wp (search_loop (hp + lenZ hay) n l (u32 (i - 1)) st mem0 byteset shift hp 0)
     (fun r τ => r = ptr_of hp (find_sub nd hay) ∧ τ = σ) σ.
Proof.
  apply (wp_loop_ghost _ (fun pos '(h, mem) τ => τ = σ ∧ h = hp + pos ∧ searching pos mem) _ (fun pos => lenZ hay - pos)) with (g := 0).
  - intros pos [h mem] τ (-> & -> & Hse). pose proof suffix_range as (R1 & R2 & R3). pose proof Hse as [S1 S2 S3 S4].
    replace (u32 (hp + lenZ hay - (hp + pos))) with (lenZ hay - pos) by (rewrite u32_small; lia).
    destruct (lenZ hay - pos <? l) eqn:E; b2p.
    { wp_step. split; [|done]. rewrite (find_sub_end nd hay pos); [done|lia| |lia]. intros j Hj _. by eapply searching_clear. }
    wp_step. rewrite <- Z.add_assoc. apply (wp_load8_at _ hay); [done|lia|].
    assert (is_byte (y (pos + (l - 1)))) as Hb by (apply Forall_nthZ; [done|lia]).
    destruct (proj2 Ht _ Hb) as [[T1 T2]|(T1 & s & T2 & T3 & T4 & T5)].
    { rewrite T1. simpl. wp_step. exists (pos + l). split; [|lia]. split_and!; [done|lia|]. apply (searching_reset pos mem); [done|lia|lia|].
      intros q Hq. eapply (last_byte_skip _ _ 0); [done|lia|done|lia]. }
    rewrite (proj2 (Z.eqb_neq _ _) T1). simpl. wp_step. unfold shift_of. rewrite T2. wp_step. cbv zeta.
    replace (u32 (l - s)) with (l - s) by (rewrite u32_small; lia). destruct (negb (l - s =? 0)) eqn:Ek; b2p.
    2:{ eapply wp_mono; [by apply compare_halves_spec; [|lia]|]. intros [[h m]|r] τ [-> Hr].
        - destruct Hr as (pos' & -> & Hp & Hse'). exists pos'. split; [done|lia].
        - destruct Hr as [-> Ho]. split; [|done]. rewrite (find_sub_Some_2 nd hay pos); [done|lia| |intros j Hj; by eapply searching_clear].
          apply occurs_at_spec; [lia|]. split; [lia|]. intros j Hj. symmetry. by apply Ho. }
    assert (∀ q, 0 <= q < l - s → ~ occurs (pos + q)) as Hskip by (intros q Hq; eapply (last_byte_skip _ _ s); [reflexivity|lia|done|lia]).
    wp_step. destruct (l - s <? mem) eqn:Em; b2p.
    + exists (pos + mem). destruct S3 as [->|[-> Hper]]; [lia|]. split; [|lia]. split_and!; [done|lia|]. apply (searching_reset pos (l - p)); [done|lia|lia|].
      intros q Hq. destruct (decide (q = 0)) as [->|]; [apply Hskip; lia|]. eapply skip_prefix; try done; [|lia]. intros Heq. by apply (T5 (l - 1)); [lia|].
    + exists (pos + (l - s)). split; [|lia]. split_and!; [done|lia|]. apply (searching_reset pos mem); [done|lia|lia|done].
  - split_and!; [done|lia|]. split; [lia|intros q Hq; lia|by left|intros s Hs'; lia].
  - intros pos [h mem] τ (_ & _ & Hse). pose proof (se_range _ _ Hse). lia.
  - lia.
Qed.
End Searching.

(** ** The whole function *)

Lemma lex_diff_zero l k : lenZ l = lenZ k → lex_diff l k = 0 → l = k.
Proof.
  revert k. induction l as [|a l IH]; intros [|b k]; unfold lenZ in *; simpl; [done|lia|lia|].
  intros Hl. destruct (a =? b) eqn:E; b2p; [|lia]. intros Hd. subst. f_equal. apply IH; [lia|done].
Qed.

(** What a call leaves of the state: [memcmp] of no bytes sets [errno]. *)
Definition only_errno (σ τ : cstate) : Prop := τ = σ ∨ τ = CState (mem σ) EFAULT.

Lemma memcmp_equal σ p q l k :
  bytes_at (mem σ) p l → bytes_at (mem σ) q k → Forall is_byte l → Forall is_byte k → lenZ k = lenZ l → lenZ l < 4294967296 → p ≠ q →
  wp (memcmp p q (lenZ l)) (fun r τ => (r = 0 ↔ l = k) ∧ only_errno σ τ) σ.
Proof.
  intros Hl Hk Bl Bk Hlk Hlen Hpq. unfold memcmp. rewrite (proj2 (Z.eqb_neq p q) Hpq). simpl. pose proof (lenZ_nonneg l).
  destruct (0 <? lenZ l) eqn:E; b2p.
  - eapply wp_mono; [by apply (__memcmp_spec σ p q l k)|]. intros r τ [-> ->]. split; [|by left]. split; [by apply lex_diff_zero|intros ->; apply lex_diff_refl].
  - wp_step. apply wp_set_errno. wp_step. split; [|by right]. split; [|done]. intros _. apply list_eq_nthZ; [done|lia].
Qed.

Section Twoway.
Context (σ : cstate) (h n : Z) (hay nd : list Z).
Context (Hh : bytes_at (mem σ) h hay) (Hn : bytes_at (mem σ) n nd).
Context (Bh : Forall is_byte hay) (Bn : Forall is_byte nd).
Context (Hlen : 1 <= lenZ nd <= lenZ hay) (Hmax : lenZ hay < 4294967296).
#[local] Abbreviation x := (nthZ nd).
#[local] Abbreviation l := (lenZ nd).

(** The bytes before the critical position are repeated after [p] bytes. *)
Lemma left_period o i p : suffix_at nd o i p → take (Z.to_nat i) nd = take (Z.to_nat i) (drop (Z.to_nat p) nd) ↔ period x l p.
Proof.
  intros Hs. pose proof (sa_range _ _ _ _ Hs) as (R1 & R2 & R3). split.
  - intros He. split; [done|]. intros t Ht. destruct (Z.lt_ge_cases t (i + p)) as [Hlt|]; [|apply Hs; lia].
    rewrite <- (nthZ_take nd i (t - p)), He, nthZ_take, nthZ_drop by lia. f_equal. lia.
  - intros [_ Hper]. apply list_eq_nthZ; [rewrite !lenZ_take, ?lenZ_drop by (rewrite ?lenZ_drop; lia); lia|]. rewrite lenZ_take by lia.
    intros j Hj. rewrite !nthZ_take, nthZ_drop, (Hper (p + j)) by lia. f_equal. lia.
Qed.

(** The choice between the two maximal suffixes. *)
Lemma critical_choice i1 p1 i2 p2 : suffix_at nd Z.lt i1 p1 → suffix_at nd Z.gt i2 p2 →
  ∃ o i p, suffix_at nd o i p ∧ (∀ d, local_period x l i d → i < d ∧ period x l d) ∧
    (if u32 (u32 (i1 - 1) + 1) <? u32 (u32 (i2 - 1) + 1) then (u32 (i2 - 1), p2) else (u32 (i1 - 1), p1)) = (u32 (i - 1), p).
Proof.
  intros H1 H2. pose proof (sa_range _ _ _ _ H1) as R1. pose proof (sa_range _ _ _ _ H2) as R2.
  replace (u32 (u32 (i1 - 1) + 1)) with i1 by (unfold u32; dlia). replace (u32 (u32 (i2 - 1) + 1)) with i2 by (unfold u32; dlia).
  pose proof (fun d => critical_position x l i1 i2 d (sa_max _ _ _ _ H1) (sa_max _ _ _ _ H2)) as Hc. destruct (i1 <? i2) eqn:E; b2p.
  - exists Z.gt, i2, p2. rewrite Z.max_r in Hc by lia. done.
  - exists Z.lt, i1, p1. rewrite Z.max_l in Hc by lia. done.
Qed.

Lemma twoway_memmem_spec :
  wp (twoway_memmem h (h + lenZ hay) n l) (fun r τ => r = ptr_of h (find_sub nd hay) ∧ only_errno σ τ) σ.
Proof.
  unfold twoway_memmem. wp_step. eapply wp_mono; [by apply needle_tables_spec; [..|lia]|]. intros [byteset shift] τ [-> Ht].
  wp_step. eapply wp_mono; [apply (maximal_suffix_spec σ n nd Hn ltac:(lia) Z.lt); [apply lt_letters|intros a b; rewrite Z.gtb_ltb; intros; b2p; lia|intros a b ?; rewrite Z.gtb_ltb; intros; b2p; lia]|].
  intros [ms p0] τ (-> & i1 & -> & H1).
  wp_step. eapply wp_mono; [apply (maximal_suffix_spec σ n nd Hn ltac:(lia) Z.gt); [apply gt_letters|intros a b ?; b2p; lia|intros a b ? ?; b2p; lia]|].
  intros [ip p'] τ (-> & i2 & -> & H2). destruct (critical_choice _ _ _ _ H1 H2) as (o & i & p & Hs & Hcrit & ->). cbn beta iota.
  pose proof (sa_range _ _ _ _ Hs) as (R1 & R2 & R3). replace (u32 (u32 (i - 1) + 1)) with i by (unfold u32; dlia).
  wp_step. rewrite <- (lenZ_take nd i) at 1 by lia. eapply wp_mono.
  { apply (memcmp_equal σ _ _ (take (Z.to_nat i) nd) (take (Z.to_nat i) (drop (Z.to_nat p) nd))).
    - intros j Hj. rewrite lenZ_take in Hj by lia. rewrite nthZ_take by lia. apply Hn. lia.
    - intros j Hj. rewrite lenZ_take in Hj by (rewrite lenZ_drop; lia). rewrite nthZ_take, nthZ_drop, <- Z.add_assoc by lia. apply Hn. lia.
    - by apply Forall_take.
    - by apply Forall_take, Forall_drop.
    - rewrite !lenZ_take; [done|lia|rewrite lenZ_drop; lia].
    - rewrite lenZ_take; lia.
    - lia. }
  intros r τ [Hr Hτ]. rewrite (left_period o i p Hs) in Hr.
  assert (mem τ = mem σ) as Hmem by (by destruct Hτ as [-> | ->]).
  assert (∃ st mem0, stride nd i p st mem0 ∧
    (if negb (r =? 0) then (0, u32 (Z.max (u32 (i - 1)) (u32 (l - u32 (i - 1) - 1)) + 1)) else (u32 (l - p), p)) = (mem0, st)) as (st & mem0 & Hst & ->).
  { destruct (negb (r =? 0)) eqn:E; b2p.
    - assert (1 <= i). { destruct (decide (i = 0)) as [->|]; [|lia]. exfalso. apply E, Hr, (left_period o 0 p Hs). done. }
      do 2 eexists. split; [right; split_and!; [tauto|reflexivity|reflexivity|done]|]. f_equal. unfold u32. dlia.
    - do 2 eexists. split; [left; split_and!; [tauto|reflexivity|reflexivity]|]. f_equal. rewrite u32_small; lia. }
  eapply wp_mono; [eapply (search_loop_spec τ h n hay nd); rewrite ?Hmem; done|]. intros r' τ' [-> ->]. done.
Qed.
End Twoway.

(** The first byte of the needle is looked for first. *)
Lemma first_byte σ h hay c :
  bytes_at (mem σ) h hay → Forall is_byte hay → is_byte c → 0 < h → 0 < lenZ hay < 4294967296 →
  wp (memchr h c (lenZ hay)) (fun r τ => r = ptr_of h (find_index (fun b => b =? c) hay) ∧ τ = σ) σ.
Proof.
  intros Hh Bh Hc Hp Hl. unfold memchr, NULL. rewrite (proj2 (Z.eqb_neq h 0)), (proj2 (Z.leb_gt (lenZ hay) 0)) by lia. simpl.
  assert (Z.land c 255 = c) as -> by (etransitivity; [apply (Z.land_ones c 8); lia|by apply Z.mod_small]). by apply __memchr_spec; [..|lia].
Qed.
Lemma first_byte_absent nd hay k : 0 < lenZ nd → 0 <= k <= lenZ hay → (k < lenZ hay → (nthZ hay k =? nthZ nd 0) = false) → occurs_at nd hay k = false.
Proof.
  intros Hl Hk Hn. apply not_occurs; [done|]. intros Hr Ho. specialize (Ho 0 ltac:(lia)). specialize (Hn ltac:(lia)). b2p. rewrite Z.add_0_r in Ho. congruence.
Qed.

Lemma memmem_spec σ h n hay nd :
  bytes_at (mem σ) h hay → bytes_at (mem σ) n nd → Forall is_byte hay → Forall is_byte nd → 0 < h → lenZ hay < 4294967296 →
  wp (memmem h (lenZ hay) n (lenZ nd)) (fun r τ => r = ptr_of h (find_sub nd hay) ∧ only_errno σ τ) σ.
Proof.
  intros Hh Hn Bh Bn Hp Hlen. pose proof (lenZ_nonneg nd). pose proof (lenZ_nonneg hay). unfold memmem.
  destruct (lenZ nd =? 0) eqn:E0; b2p.
  { wp_step. split; [|by left]. rewrite (find_sub_Some_2 nd hay 0); [simpl; lia|lia| |lia]. apply occurs_at_spec; [lia|]. split; [lia|]. lia. }
  destruct (lenZ hay <? lenZ nd) eqn:E1; b2p.
  { wp_step. split; [|by left]. rewrite (find_sub_end nd hay 0); [done|lia|lia|lia]. }
  assert (is_byte (nthZ nd 0)) as Hc by (apply Forall_nthZ; [done|lia]).
  wp_step. rewrite <- (Z.add_0_r n) at 1. apply (wp_load8_at _ nd); [done|lia|]. wp_step. eapply wp_mono; [apply first_byte; [done..|lia]|].
  intros r τ [-> ->]. destruct (find_index _ hay) as [i|] eqn:Ei; simpl.
  2:{ wp_step. split; [|by left]. rewrite find_sub_None_2; [done|]. intros j Hj. apply first_byte_absent; [lia|done|]. intros Hj'.
      apply (find_index_None_1 _ _ j Ei). lia. }
  apply find_index_Some_1 in Ei as (I1 & I2 & I3). unfold NULL at 1. rewrite (proj2 (Z.eqb_neq (h + i) 0)) by lia. simpl.
  assert (∀ j, 0 <= j < i → occurs_at nd hay j = false) as Hb by (intros j Hj; apply first_byte_absent; [lia|lia|intros _; by apply I3]).
  destruct (lenZ nd =? 1) eqn:E2; b2p.
  { wp_step. split; [|by left]. rewrite (find_sub_Some_2 nd hay i); [done|lia| |done]. apply occurs_at_spec; [lia|]. split; [lia|].
    intros j Hj. replace j with 0 by lia. by rewrite Z.add_0_r. }
  rewrite (find_sub_drop nd hay h i) by (done || lia). pose proof (lenZ_drop hay i ltac:(lia)) as Hd.
  replace (u32 (lenZ hay - (h + i - h))) with (lenZ (drop (Z.to_nat i) hay)) by (rewrite u32_small; lia).
  pose proof (bytes_at_drop (mem σ) h hay i ltac:(lia) Hh) as Hh'. assert (Forall is_byte (drop (Z.to_nat i) hay)) as Bh' by by apply Forall_drop.
  set (hay' := drop (Z.to_nat i) hay) in *. destruct (lenZ hay' <? lenZ nd) eqn:E3; b2p.
  { wp_step. split; [|by left]. rewrite (find_sub_end nd hay' 0); [done|lia|lia|lia]. }
  assert (∀ r τ, found σ (h + i) hay' nd r τ → r = ptr_of (h + i) (find_sub nd hay') ∧ only_errno σ τ) as Hf by (intros r τ [-> ->]; split; [done|by left]).
  destruct (lenZ nd =? 2) eqn:N2; b2p; [eapply wp_mono; [by apply (twobyte_memmem_spec σ (h + i) n hay' nd); [..|lia|done]|done]|].
  destruct (lenZ nd =? 3) eqn:N3; b2p; [eapply wp_mono; [by apply (threebyte_memmem_spec σ (h + i) n hay' nd); [..|lia|done]|done]|].
  destruct (lenZ nd =? 4) eqn:N4; b2p; [eapply wp_mono; [by apply (fourbyte_memmem_spec σ (h + i) n hay' nd); [..|lia|done]|done]|].
  apply twoway_memmem_spec; (done || lia).
Qed.

(** C11: [memmem] returns the address of the first place of the haystack at which the
    needle occurs, or NULL, as trying every place in turn would: for an empty needle,
    for one longer than the haystack, for the rolling windows of two to four bytes, and
    for the two-way search, whose critical position and skips never pass over an
    occurrence.  It ends, reads no byte outside of the two arrays and changes no memory;
    [errno] may become [EFAULT]. *)
Theorem memmem_correct σ h n hay nd :
  bytes_at (mem σ) h hay → bytes_at (mem σ) n nd → Forall is_byte hay → Forall is_byte nd →
  0 < h → lenZ hay < 4294967296 →
  ∃ τ, memmem h (lenZ hay) n (lenZ nd) σ = Ok (ptr_of h (find_sub nd hay), τ) ∧ only_errno σ τ.
Proof.
  intros. pose proof (memmem_spec σ h n hay nd) as Hw. unfold wp in Hw. destruct (memmem _ _ _ _ σ) as [[r τ]| |]; [|by destruct Hw..].
  destruct Hw as [-> Hw]; [done..|]. by exists τ.
Qed.

Lemma memmem_correct_witness :
  let hay := [7; 1; 2; 1; 2; 2; 1; 2; 1; 2; 1; 9] in let nd := [1; 2; 1; 2; 1] in
  let σ := CState (write_bytes (write_bytes ∅ 100 hay) 300 nd) 0 in
  ∃ τ, memmem 100 12 300 5 σ = Ok (106, τ) ∧ only_errno σ τ.
Proof.
  intros hay nd σ. apply (memmem_correct σ 100 300 hay nd).
  - apply bytes_atb_sound. vm_compute. reflexivity.
  - apply bytes_atb_sound. vm_compute. reflexivity.
  - apply forallb_byte. reflexivity.
  - apply forallb_byte. reflexivity.
  - reflexivity.
  - reflexivity.
Defined.
