(* ===== verification/StrScan.v ===== *)
(** * String functions that only read: lengths and searches

    [strlen], [strnlen], [strchrnul], [glibc_strchr], [strrchr], [strspn],
    [strcspn], [strpbrk] and [strstr] of library/string.  The word-at-a-time
    loops read whole aligned words and so may read up to three bytes past the
    terminator; the theorems need memory to be mapped in whole words and hold
    for every alignment.

    [strchr] itself is assembler (library/cpu); the functions that call it are
    verified against the interface [Strchr], which [glibc_strchr] implements. *)

From stdpp Require Import base gmap list numbers.
From S2P Require Import Prelude CMem Words.
Open Scope Z_scope.

(** ** Definitions *)

(** string/strlen.c *)
Definition strlen (str : Z) : M cstate Z :=
  let s32 := Z.land str (not32 3) in
  x ← (w ← load32 s32;
       mret (if s32 =? str then w
             else Z.lor w (u32 (Z.shiftl 0xFFFFFFFF ((3 - Z.land str 3 + 1) * 8)))));
  '(s32, x) ←
    loop (fun '(s32, x) =>
            if strlen_test x =? 0 then
              let s32 := s32 + 4 in
              x ← load32 s32; continue (s32, x)
            else break (s32, x)) (s32, x);
  let s := s32 + clz32 (strlen_zeros x) / 8 in
  mret (s - str).

(** string/strnlen.c *)
Definition strnlen (s maxlen : Z) : M cstate Z :=
  if s =? NULL then _ ← set_errno EFAULT; mret 0
  else
    let start := s in
    s ← loop (fun '(s, maxlen) =>
                if 0 <? maxlen then
                  let maxlen := maxlen - 1 in
                  b ← load8 s;
                  if negb (b =? 0) then continue (s + 1, maxlen) else break s
                else break s) (s, maxlen);
    mret (s - start).

(** The four tests of a word in the glibc loops: the first byte of the word
    that is [c] or NUL. *)
Definition check4 {B} (c cp : Z) (found : Z → Z → B) : M cstate (option B) :=
  b ← load8 cp;
  if (b =? c) || (b =? 0) then mret (Some (found cp b)) else
  b ← load8 (cp + 1);
  if (b =? c) || (b =? 0) then mret (Some (found (cp + 1) b)) else
  b ← load8 (cp + 2);
  if (b =? c) || (b =? 0) then mret (Some (found (cp + 2) b)) else
  b ← load8 (cp + 3);
  if (b =? c) || (b =? 0) then mret (Some (found (cp + 3) b)) else
  mret None.

Definition strchr_words (found : Z → Z → Z) (c charmask longword_ptr : Z) : M cstate Z :=
  loop (fun longword_ptr =>
          longword ← load32 longword_ptr;
          let longword_ptr := longword_ptr + 4 in
          if negb (magic_test longword =? 0)
             || negb (magic_test (Z.lxor longword charmask) =? 0) then
            r ← check4 c (longword_ptr - 4) found;
            match r with
            | Some p => break p
            | None => continue longword_ptr
            end
          else continue longword_ptr) longword_ptr.

(** The body shared by [strchrnul] and [glibc_strchr]; they differ in what they
    return for the byte [b] found at [cp]. *)
Definition strchr_scan (found : Z → Z → Z) (s c : Z) : M cstate Z :=
  longword_ptr ⇐
    loop (fun char_ptr =>
            if negb (Z.land char_ptr 3 =? 0) then
              b ← load8 char_ptr;
              if (b =? c) || (b =? 0) then break (inl (found char_ptr b))
              else continue (char_ptr + 1)
            else break (inr char_ptr)) s;
  strchr_words found c (repeat_char c) longword_ptr.

(** string/strchrnul.c *)
Definition strchrnul (s c_in : Z) : M cstate Z :=
  strchr_scan (fun cp _ => cp) s (u8 c_in).

(** string/strchr.c, [glibc_strchr]: a byte equal to [c] is returned, a NUL
    that is not gives NULL. *)
Definition glibc_strchr (s c_in : Z) : M cstate Z :=
  strchr_scan (fun cp b => if b =? u8 c_in then cp else NULL) s (u8 c_in).

(** string/strrchr.c *)
Definition __strrchr (s c : Z) : M cstate Z :=
  let find_this := Z.land c 0xff in
  loop (fun '(us, result) =>
          us_c ← load8 us;
          let result := if us_c =? find_this then us else result in
          if us_c =? 0 then break result else continue (us + 1, result)) (s, NULL).

Definition strrchr (s c : Z) : M cstate Z :=
  if s =? NULL then _ ← set_errno EFAULT; mret NULL
  else __strrchr s c.

(** string/strstr.c: the inner loop compares [sub] with the text at [src];
    [true] is a match. *)
Definition strstr_at (src sub : Z) : M cstate bool :=
  loop (fun i =>
          c ← load8 (sub + i);
          if c =? 0 then break true
          else
            d ← load8 (src + i);
            if negb (c =? d) then break false else continue (i + 1)) 0.

Definition strstr (src sub : Z) : M cstate Z :=
  if (src =? NULL) || (sub =? NULL) then _ ← set_errno EFAULT; mret NULL
  else
    c ← load8 sub;
    if c =? 0 then mret src
    else
      loop (fun src =>
              c ← load8 src;
              if negb (c =? 0) then
                m ← strstr_at src sub;
                if (m : bool) then break src else continue (src + 1)
              else break NULL) src.

(** The functions below call [strchr] on the set of characters. *)
Section SetFunctions.
Context (strchr : Z → Z → M cstate Z).

(** string/strspn.c *)
Definition strspn (s set : Z) : M cstate Z :=
  if (s =? NULL) || (set =? NULL) then _ ← set_errno EFAULT; mret 0
  else
    let start := s in
    s ← loop (fun s =>
                c ← load8 s;
                if negb (c =? 0) then
                  r ← strchr set c;
                  if r =? NULL then break s else continue (s + 1)
                else break s) s;
    mret (s - start).

(** string/strcspn.c *)
Definition strcspn (s set : Z) : M cstate Z :=
  if (s =? NULL) || (set =? NULL) then _ ← set_errno EFAULT; mret 0
  else
    let start := s in
    s ← loop (fun s =>
                c ← load8 s;
                if negb (c =? 0) then
                  r ← strchr set c;
                  if negb (r =? NULL) then break s else continue (s + 1)
                else break s) s;
    mret (s - start).

(** string/strpbrk.c *)
Definition strpbrk (s set : Z) : M cstate Z :=
  if (s =? NULL) || (set =? NULL) then _ ← set_errno EFAULT; mret NULL
  else
    loop (fun s =>
            c ← load8 s;
            if negb (c =? 0) then
              r ← strchr set c;
              if negb (r =? NULL) then break s else continue (s + 1)
            else break NULL) s.
End SetFunctions.

(** ** Strings in memory *)

(** The [i]-th character of a string, its terminator included. *)
Definition chr (s : list Z) (i : Z) : Z := nthZ (s ++ [0]) i.

Lemma chr_end s : chr s (lenZ s) = 0.
Proof. apply nthZ_end. Qed.

Lemma chr_nthZ s i : 0 <= i < lenZ s → chr s i = nthZ s i.
Proof. apply nthZ_app_l. Qed.

Lemma chr_nonzero s i :
  Forall (fun b => 0 < b < 256) s → 0 <= i < lenZ s → 0 < chr s i < 256.
Proof. intros. rewrite chr_nthZ by done. by apply (Forall_nthZ (fun b => 0 < b < 256)). Qed.

Lemma chr_byte s i :
  Forall (fun b => 0 < b < 256) s → 0 <= i <= lenZ s → is_byte (chr s i).
Proof.
  intros Hs Hi. unfold is_byte. destruct (decide (i = lenZ s)) as [->|].
  - rewrite chr_end. lia.
  - pose proof (chr_nonzero s i Hs). lia.
Qed.

Lemma chr_zero s i :
  Forall (fun b => 0 < b < 256) s → 0 <= i <= lenZ s → chr s i = 0 → i = lenZ s.
Proof.
  intros Hs Hi H0. destruct (decide (i = lenZ s)); [done|].
  pose proof (chr_nonzero s i Hs). lia.
Qed.

Lemma cstr_chr m p s i :
  cstr m p s → 0 <= i <= lenZ s → m !! (p + i) = Some (chr s i).
Proof. intros [H _] Hi. apply H. rewrite lenZ_snoc. lia. Qed.

Lemma wp_load_chr σ p s i Q :
  cstr (mem σ) p s → 0 <= i <= lenZ s → Q (chr s i) σ → wp (load8 (p + i)) Q σ.
Proof. intros Hs Hi. apply wp_load8. by apply cstr_chr. Qed.

(** An aligned word that contains a mapped byte can be read. *)
Lemma wp_load32_word σ p q Q :
  mem_ok (mem σ) → p mod 4 = 0 → is_Some (mem σ !! q) → p <= q < p + 4 →
  (∀ b0 b1 b2 b3,
     mem σ !! p = Some b0 → mem σ !! (p + 1) = Some b1 →
     mem σ !! (p + 2) = Some b2 → mem σ !! (p + 3) = Some b3 →
     is_byte b0 → is_byte b1 → is_byte b2 → is_byte b3 →
     Q (be32 b0 b1 b2 b3) σ) →
  wp (load32 p) Q σ.
Proof.
  intros [Hb Hw] Ha Hq Hpq HQ.
  assert (∀ k, p <= k < p + 4 → is_Some (mem σ !! k)) as Hs
    by (intros k Hk; apply (Hw q); [done|dlia]).
  destruct (Hs p ltac:(lia)) as [b0 H0], (Hs (p + 1) ltac:(lia)) as [b1 H1],
    (Hs (p + 2) ltac:(lia)) as [b2 H2], (Hs (p + 3) ltac:(lia)) as [b3 H3].
  eapply wp_load32; [done..|]. apply HQ; eauto.
Qed.

(** ** strlen *)

Section Strlen.
Context (σ : cstate) (str : Z) (s : list Z).
Context (Hs : cstr (mem σ) str s) (Hm : mem_ok (mem σ)).

(** The bytes [strlen] sees: those before the string are masked to 0xff. *)
Definition seen (a b : Z) : Prop :=
  (a < str ∧ b = 255) ∨ (str <= a ∧ mem σ !! a = Some b).

Definition strlen_inv (x : Z * Z) (τ : cstate) : Prop :=
  let '(s32, w) := x in
  τ = σ ∧ s32 mod 4 = 0 ∧ str - 3 <= s32 <= str + lenZ s ∧
  ∃ b0 b1 b2 b3, w = be32 b0 b1 b2 b3 ∧
    is_byte b0 ∧ is_byte b1 ∧ is_byte b2 ∧ is_byte b3 ∧
    seen s32 b0 ∧ seen (s32 + 1) b1 ∧ seen (s32 + 2) b2 ∧ seen (s32 + 3) b3.

Lemma seen_zero a : a <= str + lenZ s → seen a 0 → a = str + lenZ s.
Proof.
  intros Ha [[? ?]|[H1 H2]]; [lia|]. replace a with (str + (a - str)) in H2 by lia.
  rewrite (cstr_chr _ _ s) in H2 by (done || lia). injection H2 as H2.
  apply chr_zero in H2; [lia|apply Hs|lia].
Qed.

Lemma seen_nonzero a b : seen a b → b ≠ 0 → a ≠ str + lenZ s.
Proof.
  intros [[? ?]|[H1 H2]] Hb ->; [pose proof (lenZ_nonneg s); lia|].
  rewrite (cstr_chr _ _ s) in H2 by (done || pose proof (lenZ_nonneg s); lia).
  rewrite chr_end in H2. congruence.
Qed.

(** Masking the first word. *)
Lemma strlen_mask b0 b1 b2 b3 :
  is_byte b0 → is_byte b1 → is_byte b2 → is_byte b3 →
  let k := str mod 4 in
  Z.lor (be32 b0 b1 b2 b3) (u32 (Z.shiftl 0xFFFFFFFF ((3 - Z.land str 3 + 1) * 8))) =
  if k =? 0 then be32 b0 b1 b2 b3
  else if k =? 1 then be32 255 b1 b2 b3
  else if k =? 2 then be32 255 255 b2 b3 else be32 255 255 255 b3.
Proof.
  intros H0 H1 H2 H3 k. replace (Z.land str 3) with k by (symmetry; apply (Z.land_ones str 2); lia).
  assert (is_byte 0) by (unfold is_byte; lia). assert (is_byte 255) by (unfold is_byte; lia).
  assert (∀ b, is_byte b → Z.lor b 255 = 255) as Hor.
  { intros b Hb. pose proof (all_bytes_spec (fun b => Z.lor b 255 =? 255) b eq_refl Hb) as E.
    cbn beta in E. by b2p. }
  assert (k = 0 ∨ k = 1 ∨ k = 2 ∨ k = 3) as Hk by (unfold k; dlia).
  destruct Hk as [->|[->|[->| ->]]]; simpl (_ =? _).
  - change (u32 _) with (be32 0 0 0 0). rewrite lor_be32 by done. by rewrite !Z.lor_0_r.
  - change (u32 _) with (be32 255 0 0 0). rewrite lor_be32 by done. by rewrite !Z.lor_0_r, Hor.
  - change (u32 _) with (be32 255 255 0 0). rewrite lor_be32 by done. by rewrite !Z.lor_0_r, !Hor.
  - change (u32 _) with (be32 255 255 255 0). rewrite lor_be32 by done.
    by rewrite !Z.lor_0_r, !Hor.
Qed.

Lemma strlen_first :
  0 <= str < 4294967296 →
  wp (w ← load32 (str - str mod 4);
      mret (if str - str mod 4 =? str then w
            else Z.lor w (u32 (Z.shiftl 0xFFFFFFFF ((3 - Z.land str 3 + 1) * 8)))))
     (fun x τ => strlen_inv (str - str mod 4, x) τ) σ.
Proof.
  intros Hp. pose proof (lenZ_nonneg s).
  assert (mem σ !! str = Some (chr s 0)) as H0
    by (rewrite <- (Z.add_0_r str); apply cstr_chr; [done|lia]).
  wp_step. apply (wp_load32_word _ _ str); [done|dlia|eauto|dlia|].
  intros b0 b1 b2 b3 E0 E1 E2 E3 B0 B1 B2 B3. wp_step.
  split; [done|]. split; [dlia|]. split; [dlia|].
  rewrite strlen_mask by done. unfold seen.
  assert (is_byte 255) by (unfold is_byte; lia).
  destruct (str - str mod 4 =? str) eqn:Eq; b2p.
  { exists b0, b1, b2, b3. repeat (split; [done|]). rewrite Eq in *. repeat split; right; split; done || lia. }
  assert (str mod 4 = 1 ∨ str mod 4 = 2 ∨ str mod 4 = 3) as Hk by dlia.
  destruct Hk as [Hk|[Hk|Hk]]; rewrite Hk in *; simpl (_ =? _);
    do 4 eexists; (split; [reflexivity|]); repeat (split; [done|]);
    repeat split; first [left; lia | right; split; [lia|eassumption]].
Qed.

Lemma strlen_spec :
  0 <= str < 4294967296 → lenZ s < 4294967296 →
  wp (strlen str) (fun r τ => r = lenZ s ∧ τ = σ) σ.
Proof.
  intros Hp Hlen. unfold strlen. rewrite land_not3 by done. cbv zeta. wp_step.
  eapply wp_mono; [by apply strlen_first|]. intros x τ Hx. wp_step.
  apply (wp_loop _ strlen_inv _ (fun '(s32, x) => str + lenZ s - s32)); [|done|..].
  - clear x τ Hx. intros [s32 w] τ (-> & Ha & Hr & b0 & b1 & b2 & b3 & -> & B0 & B1 & B2 & B3
      & S0 & S1 & S2 & S3).
    pose proof (strlen_test_spec b0 b1 b2 b3 B0 B1 B2 B3) as Ht.
    destruct (strlen_test _ =? 0) eqn:E; b2p.
    + assert (¬ some_zero b0 b1 b2 b3) as Hz by tauto. unfold some_zero in Hz.
      pose proof (seen_nonzero _ _ S0). pose proof (seen_nonzero _ _ S1).
      pose proof (seen_nonzero _ _ S2). pose proof (seen_nonzero _ _ S3).
      assert (s32 + 4 <= str + lenZ s) by lia. cbv zeta. wp_step.
      apply (wp_load32_word _ _ (s32 + 4)); [done|dlia| |lia|].
      { replace (s32 + 4) with (str + (s32 + 4 - str)) by lia.
        rewrite (cstr_chr _ _ s) by (done || lia). eauto. }
      intros c0 c1 c2 c3 E0 E1 E2 E3 C0 C1 C2 C3. wp_step.
      split; [|lia]. split; [done|]. split; [dlia|]. split; [lia|].
      exists c0, c1, c2, c3. repeat (split; [done|]).
      repeat split; right; (split; [lia|done]).
    + apply Ht in E. do 2 wp_step. split; [|done].
      destruct (strlen_clz_spec b0 b1 b2 b3 B0 B1 B2 B3 E) as [H|[H|[H|H]]];
        destruct_and! H; subst; match goal with H : clz32 _ / 8 = _ |- _ => rewrite H end;
        repeat match goal with H : ?b ≠ 0, S : seen _ ?b |- _ => apply seen_nonzero in S; [|done] end;
        match goal with S : seen ?a 0 |- _ => pose proof (seen_zero a ltac:(lia) S); lia end.
  - intros [s32 w] τ' (_ & _ & ? & _). lia.
  - dlia.
Qed.
End Strlen.

(** [strlen] returns the number of characters before the terminating NUL,
    for every alignment; it reads no word that holds no byte of the string. *)
Theorem strlen_correct σ str s :
  cstr (mem σ) str s → mem_ok (mem σ) →
  0 <= str < 4294967296 → lenZ s < 4294967296 →
  strlen str σ = Ok (lenZ s, σ).
Proof. intros. apply wp_eq. by apply strlen_spec. Qed.

Lemma strlen_correct_witness :
  let σ := CState (write_bytes ∅ 100 [88; 104; 101; 108; 108; 111; 0; 89]) 0 in
  strlen 101 σ = Ok (5, σ).
Proof.
  apply (strlen_correct (CState (write_bytes ∅ 100 [88; 104; 101; 108; 108; 111; 0; 89]) 0)
    101 [104; 101; 108; 108; 111]).
  - by apply cstrb_sound.
  - by apply mem_okb_sound.
  - done.
  - done.
Defined.

(** ** strchrnul and glibc_strchr *)

Section StrchrScan.
Context (σ : cstate) (p c : Z) (s : list Z) (found : Z → Z → Z).
Context (Hs : cstr (mem σ) p s) (Hm : mem_ok (mem σ)) (Hc : is_byte c).
Context (Hlen : lenZ s < 4294967296).

(** The scan stops at the first [c] or at the terminator. *)
Definition stop (b : Z) : bool := (b =? c) || (b =? 0).

Definition nostop (i : Z) : Prop :=
  0 <= i <= lenZ s ∧ ∀ j, 0 <= j < i → stop (chr s j) = false.

Definition scan_post (r : Z) (τ : cstate) : Prop :=
  ∃ k, find_index stop (s ++ [0]) = Some k ∧ r = found (p + k) (chr s k) ∧ τ = σ.

Lemma nostop_step i : nostop i → stop (chr s i) = false → nostop (i + 1).
Proof.
  intros [H1 H2] H3. assert (i ≠ lenZ s) as Hne.
  { intros ->. unfold stop in H3. rewrite chr_end in H3. b2p. lia. }
  split; [lia|]. intros j Hj. destruct (decide (j = i)) as [->|]; [done|]. apply H2. lia.
Qed.

Lemma nostop_found i : nostop i → stop (chr s i) = true →
  scan_post (found (p + i) (chr s i)) σ.
Proof.
  intros [H1 H2] H3. exists i. split; [|done].
  apply find_index_Some_2; [rewrite lenZ_snoc; lia|done|done].
Qed.

Lemma check4_spec i :
  nostop i →
  wp (check4 c (p + i) found)
     (fun r τ => match r with
                 | Some x => scan_post x τ
                 | None => nostop (i + 4) ∧ τ = σ end) σ.
Proof.
  intros Hi. unfold check4.
  replace (i + 4) with (i + 1 + 1 + 1 + 1) by lia.
  replace (p + i + 1) with (p + (i + 1)) by lia.
  replace (p + i + 2) with (p + (i + 1 + 1)) by lia.
  replace (p + i + 3) with (p + (i + 1 + 1 + 1)) by lia.
  do 4 (wp_step; match goal with Hj : nostop ?j |- wp (load8 (p + ?j)) _ _ =>
    apply (wp_load_chr _ _ s); [done|apply Hj|]; fold (stop (chr s j));
    destruct (stop (chr s j)) eqn:?; [wp_step; by apply nostop_found|];
    pose proof (nostop_step j Hj ltac:(assumption)) end).
  by wp_step.
Qed.

(** When a word passes both tests, none of its bytes stops the scan. *)
Lemma magic_nostop b0 b1 b2 b3 :
  is_byte b0 → is_byte b1 → is_byte b2 → is_byte b3 →
  magic_test (be32 b0 b1 b2 b3) = 0 →
  magic_test (Z.lxor (be32 b0 b1 b2 b3) (repeat_char c)) = 0 →
  stop b0 = false ∧ stop b1 = false ∧ stop b2 = false ∧ stop b3 = false.
Proof.
  intros B0 B1 B2 B3 H1 H2.
  destruct (lxor_repeat_char b0 b1 b2 b3 c B0 B1 B2 B3 Hc)
    as (a' & b' & c' & d' & E & Ba & Bb & Bc & Bd & Ea & Eb & Ec & Ed).
  assert (¬ some_zero b0 b1 b2 b3) as Z1 by (intros Hz; by apply magic_test_zero in Hz).
  assert (¬ some_zero a' b' c' d') as Z2
    by (intros Hz; apply magic_test_zero in Hz; [|done..]; by rewrite E in H2).
  unfold some_zero, stop in *. rewrite !orb_false_iff, !Z.eqb_neq. tauto.
Qed.

Lemma nostop_word i b0 b1 b2 b3 :
  nostop i → mem σ !! (p + i) = Some b0 → mem σ !! (p + (i + 1)) = Some b1 →
  mem σ !! (p + (i + 2)) = Some b2 → mem σ !! (p + (i + 3)) = Some b3 →
  stop b0 = false → stop b1 = false → stop b2 = false → stop b3 = false → nostop (i + 4).
Proof.
  intros Hi E0 E1 E2 E3 N0 N1 N2 N3.
  assert (∀ k b, nostop k → mem σ !! (p + k) = Some b → stop b = false → nostop (k + 1)) as St.
  { intros k b Hk Hb Hst. apply nostop_step; [done|].
    rewrite (cstr_chr _ _ s) in Hb by (done || apply Hk). congruence. }
  pose proof (St _ _ Hi E0 N0) as I1.
  pose proof (St _ _ I1 E1 N1) as I2. rewrite <- Z.add_assoc in I2.
  pose proof (St _ _ I2 E2 N2) as I3. rewrite <- Z.add_assoc in I3.
  pose proof (St _ _ I3 E3 N3) as I4. by rewrite <- Z.add_assoc in I4.
Qed.

Lemma strchr_words_spec lp τ :
  τ = σ ∧ lp mod 4 = 0 ∧ (∃ i, lp = p + i ∧ nostop i) →
  wp (strchr_words found c (repeat_char c) lp) scan_post τ.
Proof.
  intros Hinit. apply (wp_loop _ (fun lp τ => τ = σ ∧ lp mod 4 = 0 ∧ ∃ i, lp = p + i ∧ nostop i)
    _ (fun lp => p + lenZ s - lp)); [|done|..].
  - clear lp τ Hinit. intros lp τ (-> & Ha & i & -> & Hi). pose proof (proj1 Hi).
    wp_step. apply (wp_load32_word _ _ (p + i)); [done|done| |lia|].
    { rewrite (cstr_chr _ _ s) by (done || lia). eauto. }
    intros b0 b1 b2 b3 E0 E1 E2 E3 B0 B1 B2 B3.
    assert (nostop (i + 4) → (σ = σ ∧ (p + i + 4) mod 4 = 0 ∧
      ∃ k, p + i + 4 = p + k ∧ nostop k) ∧ p + lenZ s - (p + i + 4) < p + lenZ s - (p + i))
      as Hnext.
    { intros Hn. split; [|lia]. split; [done|]. split; [dlia|]. exists (i + 4).
      split; [lia|done]. }
    cbv zeta. destruct (negb _ || negb _)%bool eqn:Et.
    + wp_step. replace (p + i + 4 - 4) with (p + i) by lia.
      eapply wp_mono; [by apply check4_spec|].
      intros [x|] τ; [intros; by wp_step|]. intros [Hn ->]. wp_step. by apply Hnext.
    + wp_step. apply Hnext. b2p.
      destruct (magic_nostop b0 b1 b2 b3) as (N0 & N1 & N2 & N3); [done..|].
      rewrite <- !Z.add_assoc in *. by apply (nostop_word i b0 b1 b2 b3).
  - intros lp' τ' (_ & _ & k & -> & [? _]). lia.
  - destruct Hinit as (_ & _ & i & -> & [? _]). lia.
Qed.

Lemma strchr_scan_spec : wp (strchr_scan found p c) scan_post σ.
Proof.
  unfold strchr_scan. pose proof (lenZ_nonneg s). wp_step.
  apply (wp_loop _ (fun cp τ => τ = σ ∧ ∃ i, cp = p + i ∧ nostop i) _
    (fun cp => p + lenZ s - cp)).
  - intros cp τ (-> & i & -> & Hi). pose proof (proj1 Hi).
    destruct (negb (Z.land (p + i) 3 =? 0)) eqn:Ea.
    + wp_step. apply (wp_load_chr _ _ s); [done|lia|]. fold (stop (chr s i)).
      destruct (stop (chr s i)) eqn:E; wp_step; [by apply nostop_found|].
      split; [|lia]. split; [done|]. exists (i + 1). split; [lia|by apply nostop_step].
    + wp_step. b2p. rewrite land_3_mod in Ea. apply strchr_words_spec. eauto.
  - split; [done|]. exists 0. split; [lia|]. split; lia.
  - intros cp τ (_ & k & -> & [? _]). lia.
  - lia.
Qed.

(** Where the scan stops, in terms of searching for [c] alone. *)
Lemma stop_search k :
  find_index stop (s ++ [0]) = Some k →
  find_index (fun b => b =? c) (s ++ [0]) = (if chr s k =? c then Some k else None).
Proof.
  intros (H1 & H2 & H3)%find_index_Some_1. rewrite lenZ_snoc in H1.
  assert (∀ j, 0 <= j < k → (nthZ (s ++ [0]) j =? c) = false) as Hj.
  { intros j Hj. specialize (H3 j Hj). unfold stop in H3. by apply orb_false_iff in H3 as [? _]. }
  destruct (chr s k =? c) eqn:E.
  - apply find_index_Some_2; [rewrite lenZ_snoc; lia|done|done].
  - assert (k = lenZ s) as ->.
    { apply chr_zero; [apply Hs|lia|]. unfold stop in H2. fold (chr s k) in H2.
      rewrite E in H2. simpl in H2. by b2p. }
    apply find_index_None_2. rewrite lenZ_snoc. intros j ?.
    destruct (decide (j = lenZ s)) as [->|]; [done|]. apply Hj. lia.
Qed.

Lemma stop_default k :
  find_index stop (s ++ [0]) = Some k →
  k = default (lenZ s) (find_index (fun b => b =? c) s).
Proof.
  intros (H1 & H2 & H3)%find_index_Some_1. rewrite lenZ_snoc in H1.
  assert (∀ j, 0 <= j < k → (nthZ s j =? c) = false) as Hj.
  { intros j Hj. specialize (H3 j Hj). unfold stop in H3. rewrite nthZ_app_l in H3 by lia.
    by apply orb_false_iff in H3 as [? _]. }
  destruct (decide (k = lenZ s)) as [->|Hne].
  - by rewrite find_index_None_2.
  - fold (chr s k) in H2. pose proof (chr_nonzero s k (proj2 Hs) ltac:(lia)).
    rewrite chr_nthZ in * by lia. unfold stop in H2. b2p.
    rewrite (find_index_Some_2 _ s k); [done|lia| |done]. destruct H2; [done|]. b2p. lia.
Qed.
End StrchrScan.

(** [strchrnul] returns the address of the first character equal to [c], or
    of the terminator when there is none. *)
Theorem strchrnul_correct σ p c s :
  cstr (mem σ) p s → mem_ok (mem σ) → lenZ s < 4294967296 →
  strchrnul p c σ = Ok (p + default (lenZ s) (find_index (fun b => b =? u8 c) s), σ).
Proof.
  intros Hs Hm Hlen. apply wp_eq. unfold strchrnul.
  assert (is_byte (u8 c)) as Hc by (apply Z.mod_pos_bound; lia).
  eapply wp_mono; [by eapply strchr_scan_spec|].
  intros r τ (k & Hk & -> & ->). by rewrite <- (stop_default σ p (u8 c) s Hs k Hk).
Qed.

Lemma strchrnul_correct_witness :
  let σ := CState (write_bytes ∅ 100 [88; 104; 101; 108; 108; 128; 0; 89]) 0 in
  strchrnul 101 108 σ = Ok (103, σ).
Proof.
  apply (strchrnul_correct (CState (write_bytes ∅ 100 [88; 104; 101; 108; 108; 128; 0; 89]) 0)
    101 108 [104; 101; 108; 108; 128]); [by apply cstrb_sound|by apply mem_okb_sound|done].
Defined.

(** What callers of [strchr] rely on: the first occurrence of the character in
    the string, its terminator included, or NULL. *)
Class Strchr := {
  strchr : Z → Z → M cstate Z;
  strchr_spec σ p c s :
    cstr (mem σ) p s → mem_ok (mem σ) → lenZ s < 4294967296 →
    strchr p c σ = Ok (ptr_of p (find_index (fun b => b =? u8 c) (s ++ [0])), σ)
}.

Lemma glibc_strchr_spec σ p c s :
  cstr (mem σ) p s → mem_ok (mem σ) → lenZ s < 4294967296 →
  glibc_strchr p c σ = Ok (ptr_of p (find_index (fun b => b =? u8 c) (s ++ [0])), σ).
Proof.
  intros Hs Hm Hlen. apply wp_eq. unfold glibc_strchr.
  assert (is_byte (u8 c)) as Hc by (apply Z.mod_pos_bound; lia).
  eapply wp_mono; [by eapply strchr_scan_spec|]. cbn beta.
  intros r τ (k & Hk & -> & ->). rewrite (stop_search σ p (u8 c) s Hs k Hk).
  by destruct (chr s k =? u8 c).
Qed.

(** The C implementation of [strchr] keeps the promise. *)
#[export] Instance glibc_Strchr : Strchr :=
  {| strchr := glibc_strchr; strchr_spec := glibc_strchr_spec |}.

(** ** strnlen *)

(** [strnlen] returns the position of the first NUL among the [maxlen]
    bytes at [p], or [maxlen], and reads none of the bytes after them. *)
Theorem strnlen_correct σ p l :
  bytes_at (mem σ) p l → p ≠ NULL → lenZ l < 4294967296 →
  strnlen p (lenZ l) σ = Ok (default (lenZ l) (find_index (fun b => b =? 0) l), σ).
Proof.
  intros Hl Hp Hlen. apply wp_eq. unfold strnlen. rewrite (proj2 (Z.eqb_neq _ _) Hp).
  cbv zeta. wp_step. pose proof (lenZ_nonneg l).
  apply (wp_loop _ (fun '(s, n) τ => τ = σ ∧ s = p + (lenZ l - n) ∧ 0 <= n <= lenZ l ∧
    ∀ j, 0 <= j < lenZ l - n → (nthZ l j =? 0) = false) _ (fun '(s, n) => n)).
  - intros [s n] τ (-> & -> & Hn & Hj). destruct (0 <? n) eqn:E; b2p.
    + wp_step. apply (wp_load8_at _ l); [done|lia|].
      destruct (nthZ l (lenZ l - n) =? 0) eqn:Ez; simpl; wp_step.
      * wp_step. rewrite (find_index_Some_2 _ l (lenZ l - n)); [split; [simpl; lia|done]|lia|done|done].
      * split; [|lia]. split; [done|]. split; [lia|]. split; [lia|]. intros j ?.
        destruct (decide (j = lenZ l - n)) as [->|]; [done|]. apply Hj. lia.
    + wp_step. wp_step. assert (n = 0) as -> by lia. rewrite find_index_None_2.
      * split; [simpl; lia|done].
      * intros j ?. apply Hj. lia.
  - split; [done|]. split; [lia|]. split; [lia|]. intros j ?. lia.
  - intros [s n] τ (_ & _ & ? & _). lia.
  - lia.
Qed.

Lemma strnlen_correct_witness :
  let σ := CState (write_bytes ∅ 100 [65; 66; 67]) 0 in strnlen 100 3 σ = Ok (3, σ).
Proof.
  apply (strnlen_correct (CState (write_bytes ∅ 100 [65; 66; 67]) 0) 100 [65; 66; 67]);
    [by apply bytes_atb_sound|done|done].
Defined.

(** ** strrchr *)

(** [strrchr] returns the address of the last character equal to [c], the
    terminator included, or NULL. *)
Theorem strrchr_correct σ p c s :
  cstr (mem σ) p s → p ≠ NULL → lenZ s < 4294967296 →
  strrchr p c σ = Ok (ptr_of p (find_last (fun b => b =? u8 c) (s ++ [0])), σ).
Proof.
  intros Hs Hp Hlen. apply wp_eq. unfold strrchr, __strrchr. rewrite (proj2 (Z.eqb_neq _ _) Hp).
  assert (Z.land c 0xff = u8 c) as -> by (apply (Z.land_ones c 8); lia).
  pose proof (lenZ_nonneg s). cbv zeta.
  apply (wp_loop _ (fun '(us, r) τ => τ = σ ∧ ∃ i, us = p + i ∧ 0 <= i <= lenZ s ∧
     r = ptr_of p (find_last (fun b => b =? u8 c) (take (Z.to_nat i) (s ++ [0]))))
    _ (fun '(us, r) => p + lenZ s - us)).
  - intros [us r] τ (-> & i & -> & Hi & ->).
    wp_step. apply (wp_load_chr _ _ s); [done|lia|].
    assert (∀ o, (if chr s i =? u8 c then p + i else ptr_of p o) =
      ptr_of p (if chr s i =? u8 c then Some i else o)) as -> by (by intros; destruct (_ =? _)).
    pose proof (find_last_snoc (fun b => b =? u8 c) (take (Z.to_nat i) (s ++ [0])) (chr s i)) as Hsn.
    unfold chr in Hsn at 1. rewrite <- take_snoc_nthZ in Hsn by (rewrite lenZ_snoc; lia).
    rewrite lenZ_take in Hsn by (rewrite lenZ_snoc; lia). rewrite <- Hsn.
    destruct (chr s i =? 0) eqn:Ez; b2p; wp_step.
    + apply chr_zero in Ez; [|apply Hs|lia]. subst i. rewrite <- (lenZ_snoc s 0), take_all_lenZ.
      done.
    + assert (i ≠ lenZ s) by (intros ->; by rewrite chr_end in Ez).
      split; [|lia]. split; [done|]. exists (i + 1). split; [lia|]. split; [lia|done].
  - split; [done|]. exists 0. split; [lia|]. split; [lia|done].
  - intros [us r] τ (_ & i & -> & ? & _). lia.
  - lia.
Qed.

Lemma strrchr_correct_witness :
  let σ := CState (write_bytes ∅ 100 [104; 101; 108; 108; 111; 0]) 0 in
  strrchr 100 108 σ = Ok (103, σ).
Proof.
  apply (strrchr_correct (CState (write_bytes ∅ 100 [104; 101; 108; 108; 111; 0]) 0)
    100 108 [104; 101; 108; 108; 111]); [by apply cstrb_sound|done|done].
Defined.

(** ** strspn, strcspn and strpbrk *)

Section SetSpecs.
Context `{Strchr}.

Definition in_set (set : list Z) (b : Z) : bool := existsb (Z.eqb b) set.

Context (σ : cstate) (p q : Z) (s set : list Z).
Context (Hs : cstr (mem σ) p s) (Hset : cstr (mem σ) q set) (Hm : mem_ok (mem σ)).
Context (Hp : 0 < p) (Hq : 0 < q) (Hls : lenZ s < 4294967296) (Hlset : lenZ set < 4294967296).

(** The call of [strchr] on the set is a membership test. *)
Lemma strchr_set c :
  0 < c < 256 → strchr q c σ = Ok (if in_set set c then ptr_of q (find_index (fun b => b =? c) (set ++ [0])) else NULL, σ)
  ∧ (in_set set c = true → ptr_of q (find_index (fun b => b =? c) (set ++ [0])) ≠ NULL).
Proof.
  intros Hc. rewrite strchr_spec with (s := set) by done. rewrite u8_small by (unfold is_byte; lia).
  unfold in_set. destruct (find_index (fun b => b =? c) (set ++ [0])) as [i|] eqn:E.
  - apply find_index_Some_1 in E as (E1 & E2 & _). b2p. rewrite lenZ_snoc in E1. split.
    + fold (chr set i) in E2. assert (i ≠ lenZ set) by (intros ->; rewrite chr_end in E2; lia).
      rewrite chr_nthZ in E2 by lia. assert (existsb (Z.eqb c) set = true) as ->; [|done].
      apply existsb_exists. exists c. split; [|apply Z.eqb_refl].
      apply list_elem_of_In. rewrite <- E2. apply nthZ_in. lia.
    + intros _. simpl. unfold NULL. lia.
  - split; [|intros E2].
    + assert (existsb (Z.eqb c) set = false) as ->; [|done].
      apply not_true_is_false. intros (x & Hx & Hcx)%existsb_exists. b2p. subst x.
      apply list_elem_of_In, elem_of_nthZ in Hx as (j & Hj & Hx).
      apply (find_index_None_1 _ _ j) in E; [|rewrite lenZ_snoc; lia].
      rewrite nthZ_app_l in E by lia. b2p. lia.
    + exfalso. apply existsb_exists in E2 as (x & Hx & Hcx). b2p. subst x.
      apply list_elem_of_In, elem_of_nthZ in Hx as (j & Hj & Hx).
      apply (find_index_None_1 _ _ j) in E; [|rewrite lenZ_snoc; lia].
      rewrite nthZ_app_l in E by lia. b2p. lia.
Qed.

(** Scanning until a character tests [f]: the loop of the three functions. *)
Lemma set_scan_spec {R} (f : Z → bool) (test : Z → bool) (hit : Z → R) (miss : Z → R) :
  (∀ c, 0 < c < 256 → wp (strchr q c) (fun r τ => test r = f c ∧ τ = σ) σ) →
  wp (loop (fun s =>
        c ← load8 s;
        if negb (c =? 0) then
          r ← strchr q c;
          if test r then break (hit s) else continue (s + 1)
        else break (miss s)) p)
     (fun r τ => τ = σ ∧ r = match find_index f s with
                             | Some i => hit (p + i)
                             | None => miss (p + lenZ s) end) σ.
Proof.
  intros Htest. pose proof (lenZ_nonneg s).
  apply (wp_loop _ (fun a τ => τ = σ ∧ ∃ i, a = p + i ∧ 0 <= i <= lenZ s ∧
    ∀ j, 0 <= j < i → f (nthZ s j) = false) _ (fun a => p + lenZ s - a)).
  - intros a τ (-> & i & -> & Hi & Hj).
    wp_step. apply (wp_load_chr _ _ s); [done|lia|].
    destruct (negb (chr s i =? 0)) eqn:Ez; b2p.
    + assert (i ≠ lenZ s) by (intros ->; by rewrite chr_end in Ez).
      assert (0 < chr s i < 256) as Hc by (apply chr_nonzero; [apply Hs|lia]).
      rewrite chr_nthZ in * by lia.
      wp_step. eapply wp_mono; [by apply Htest|]. intros r τ [-> ->].
      destruct (f (nthZ s i)) eqn:Ef; wp_step.
      * split; [done|]. by rewrite (find_index_Some_2 f s i) by (done || lia).
      * split; [|lia]. split; [done|]. exists (i + 1). split; [lia|]. split; [lia|].
        intros j ?. destruct (decide (j = i)) as [->|]; [done|]. apply Hj. lia.
    + wp_step. apply chr_zero in Ez; [|apply Hs|lia]. subst i.
      by rewrite find_index_None_2.
  - split; [done|]. exists 0. split; [lia|]. split; [lia|]. intros j ?. lia.
  - intros a τ (_ & i & -> & ? & _). lia.
  - lia.
Qed.

Lemma strchr_in_set c :
  0 < c < 256 → wp (strchr q c) (fun r τ => negb (r =? NULL) = in_set set c ∧ τ = σ) σ.
Proof.
  intros Hc. destruct (strchr_set c Hc) as [E Hne]. unfold wp. rewrite E. split; [|done].
  destruct (in_set set c); [|done]. specialize (Hne eq_refl).
  by rewrite (proj2 (Z.eqb_neq _ _) Hne).
Qed.

Lemma nonnull_args : ((p =? NULL) || (q =? NULL))%bool = false.
Proof. apply orb_false_iff. rewrite !Z.eqb_neq. unfold NULL. lia. Qed.

Lemma strspn_spec :
  strspn strchr p q σ = Ok (default (lenZ s) (find_index (fun b => negb (in_set set b)) s), σ).
Proof.
  apply wp_eq. unfold strspn. rewrite nonnull_args. cbv zeta. wp_step.
  eapply wp_mono; [apply (set_scan_spec (fun b => negb (in_set set b))
    (fun r => r =? NULL) (fun s => s) (fun s => s))|].
  - intros c Hc. eapply wp_mono; [by apply strchr_in_set|]. intros r τ [<- ->].
    by rewrite negb_involutive.
  - cbn beta. intros r τ [-> ->]. wp_step.
    destruct (find_index _ s); split; simpl; lia || done.
Qed.

Lemma strcspn_spec :
  strcspn strchr p q σ = Ok (default (lenZ s) (find_index (in_set set) s), σ).
Proof.
  apply wp_eq. unfold strcspn. rewrite nonnull_args. cbv zeta. wp_step.
  eapply wp_mono; [apply (set_scan_spec (in_set set)
    (fun r => negb (r =? NULL)) (fun s => s) (fun s => s)), strchr_in_set|].
  cbn beta. intros r τ [-> ->]. wp_step.
  destruct (find_index _ s); split; simpl; lia || done.
Qed.

Lemma strpbrk_spec :
  strpbrk strchr p q σ = Ok (ptr_of p (find_index (in_set set) s), σ).
Proof.
  apply wp_eq. unfold strpbrk. rewrite nonnull_args.
  eapply wp_mono; [apply (set_scan_spec (in_set set)
    (fun r => negb (r =? NULL)) (fun s => s) (fun s => NULL)), strchr_in_set|].
  cbn beta. intros r τ [-> ->]. by destruct (find_index _ s).
Qed.
End SetSpecs.

(** for every implementation of [strchr] that keeps its promise, [strspn]
    is the length of the longest prefix made of characters of the set,
    [strcspn] of the longest prefix without any, and [strpbrk] points to the
    first character of the set. *)
Theorem set_functions_correct `{Strchr} σ p q s set :
  cstr (mem σ) p s → cstr (mem σ) q set → mem_ok (mem σ) →
  0 < p → 0 < q → lenZ s < 4294967296 → lenZ set < 4294967296 →
  strspn strchr p q σ = Ok (default (lenZ s) (find_index (fun b => negb (in_set set b)) s), σ) ∧
  strcspn strchr p q σ = Ok (default (lenZ s) (find_index (in_set set) s), σ) ∧
  strpbrk strchr p q σ = Ok (ptr_of p (find_index (in_set set) s), σ).
Proof.
  intros. split; [by apply strspn_spec|]. split; [by apply strcspn_spec|].
  by apply strpbrk_spec.
Qed.

Lemma set_functions_correct_witness :
  let σ := CState (write_bytes (write_bytes ∅ 100 [97; 98; 99; 0]) 200 [98; 97; 0; 0]) 0 in
  strspn glibc_strchr 100 200 σ = Ok (2, σ) ∧
  strcspn glibc_strchr 100 200 σ = Ok (0, σ) ∧
  strpbrk glibc_strchr 100 200 σ = Ok (100, σ).
Proof.
  apply (@set_functions_correct glibc_Strchr
    (CState (write_bytes (write_bytes ∅ 100 [97; 98; 99; 0]) 200 [98; 97; 0; 0]) 0)
    100 200 [97; 98; 99] [98; 97]); [by apply cstrb_sound|by apply cstrb_sound|by apply mem_okb_sound|done..].
Defined.

(** ** strstr *)

Section Strstr.
Context (σ : cstate) (p q : Z) (s sub : list Z).
Context (Hs : cstr (mem σ) p s) (Hsub : cstr (mem σ) q sub).
Context (Hls : lenZ s < 4294967296) (Hlsub : lenZ sub < 4294967296).

Lemma strstr_at_spec k :
  0 <= k <= lenZ s →
  wp (strstr_at (p + k) q) (fun r τ => r = occurs_at sub s k ∧ τ = σ) σ.
Proof.
  intros Hk. pose proof (lenZ_nonneg sub).
  apply (wp_loop _ (fun i τ => τ = σ ∧ 0 <= i <= lenZ sub ∧ k + i <= lenZ s ∧
    ∀ j, 0 <= j < i → nthZ sub j = nthZ s (k + j)) _ (fun i => lenZ sub - i)).
  - intros i τ (-> & Hi & Hki & Hj). wp_step. apply (wp_load_chr _ _ sub); [done|lia|].
    destruct (chr sub i =? 0) eqn:Ez; b2p.
    + apply chr_zero in Ez; [|apply Hsub|lia]. subst i. wp_step.
      split; [|done]. symmetry. apply occurs_at_spec; [lia|]. split; [lia|done].
    + assert (i ≠ lenZ sub) by (intros ->; by rewrite chr_end in Ez).
      wp_step. rewrite <- Z.add_assoc. apply (wp_load_chr _ _ s); [done|lia|].
      destruct (negb (chr sub i =? chr s (k + i))) eqn:Ec; b2p; wp_step.
      * split; [|done]. symmetry. apply not_true_is_false.
        rewrite occurs_at_spec by lia. intros [H1 H2].
        apply Ec. rewrite !chr_nthZ by lia. apply H2. lia.
      * assert (k + i ≠ lenZ s) as Hne.
        { intros E. rewrite E, chr_end in Ec. done. }
        rewrite !chr_nthZ in Ec by lia.
        split; [|lia]. split; [done|]. split; [lia|]. split; [lia|]. intros j ?.
        destruct (decide (j = i)) as [->|]; [done|]. apply Hj. lia.
  - split; [done|]. split; [lia|]. split; [lia|]. intros j ?. lia.
  - intros i τ (_ & ? & _). lia.
  - lia.
Qed.

Lemma strstr_spec :
  p ≠ NULL → q ≠ NULL → strstr p q σ = Ok (ptr_of p (find_sub sub s), σ).
Proof.
  intros Hp Hq. apply wp_eq. unfold strstr. pose proof (lenZ_nonneg s). pose proof (lenZ_nonneg sub).
  rewrite (proj2 (Z.eqb_neq _ _) Hp), (proj2 (Z.eqb_neq _ _) Hq). cbn [orb].
  wp_step. rewrite <- (Z.add_0_r q) at 1. apply (wp_load_chr _ _ sub); [done|lia|].
  destruct (chr sub 0 =? 0) eqn:Ez; b2p.
  { apply chr_zero in Ez; [|apply Hsub|lia]. wp_step.
    rewrite (find_sub_Some_2 _ _ 0); [simpl; split; [lia|done]|lia| |intros; lia].
    apply occurs_at_spec; [lia|]. split; [lia|]. intros j ?. lia. }
  assert (0 < lenZ sub).
  { destruct (decide (lenZ sub = 0)) as [E|]; [|lia]. rewrite <- E in Ez. by rewrite chr_end in Ez. }
  apply (wp_loop _ (fun a τ => τ = σ ∧ ∃ k, a = p + k ∧ 0 <= k <= lenZ s ∧
    ∀ j, 0 <= j < k → occurs_at sub s j = false) _ (fun a => p + lenZ s - a)).
  - intros a τ (-> & k & -> & Hk & Hj).
    wp_step. apply (wp_load_chr _ _ s); [done|lia|].
    destruct (negb (chr s k =? 0)) eqn:E; b2p.
    + assert (k ≠ lenZ s) by (intros ->; by rewrite chr_end in E).
      wp_step. eapply wp_mono; [apply strstr_at_spec; lia|]. intros r τ [-> ->].
      destruct (occurs_at sub s k) eqn:Eo; wp_step.
      * by rewrite (find_sub_Some_2 _ _ k) by (done || lia).
      * split; [|lia]. split; [done|]. exists (k + 1). split; [lia|]. split; [lia|].
        intros j ?. destruct (decide (j = k)) as [->|]; [done|]. apply Hj. lia.
    + wp_step. apply chr_zero in E; [|apply Hs|lia]. subst k.
      rewrite find_sub_None_2; [done|]. intros j ?.
      destruct (decide (j = lenZ s)) as [->|]; [|apply Hj; lia].
      apply not_true_is_false. rewrite occurs_at_spec by lia. lia.
  - split; [done|]. exists 0. split; [lia|]. split; [lia|]. intros j ?. lia.
  - intros a τ (_ & k & -> & ? & _). lia.
  - lia.
Qed.
End Strstr.

(** [strstr] returns the address of the first occurrence of [sub] in the
    text, the text itself when [sub] is empty, or NULL when there is none. *)
Theorem strstr_correct σ p q s sub :
  cstr (mem σ) p s → cstr (mem σ) q sub → p ≠ NULL → q ≠ NULL →
  lenZ s < 4294967296 → lenZ sub < 4294967296 →
  strstr p q σ = Ok (ptr_of p (find_sub sub s), σ).
Proof. intros. by apply strstr_spec. Qed.

Lemma strstr_correct_witness :
  let σ := CState (write_bytes (write_bytes ∅ 100 [97; 97; 98; 99; 0]) 200 [97; 98; 0]) 0 in
  strstr 100 200 σ = Ok (101, σ).
Proof.
  apply (strstr_correct
    (CState (write_bytes (write_bytes ∅ 100 [97; 97; 98; 99; 0]) 200 [97; 98; 0]) 0)
    100 200 [97; 97; 98; 99] [97; 98]); [by apply cstrb_sound|by apply cstrb_sound|done..].
Defined.
