(* ===== verification/StrTok.v ===== *)
(** * Splitting strings

    [strtok_r], [strtok] and [strsep] of string/strtok_r.c, strtok.c and strsep.c.  They
    cut the string in place and keep the place to go on in a cell of memory.  The
    theorems follow a whole sequence of calls: together they return the tokens, or the
    fields, of the string. *)

From stdpp Require Import base gmap list numbers.
From S2P Require Import Prelude CMem Words MemFuncs StrScan.
Open Scope Z_scope.
#[local] Set Warnings "-clear-no-such-hyp".

(** ** Definitions *)

Section SplitFunctions.
Context (strchr : Z → Z → M cstate Z).

Definition strtok_r (str separator_set state_ptr : Z) : M cstate Z :=
  '(result, last) ←
    (if (separator_set =? NULL) || (state_ptr =? NULL) then
       _ ← set_errno EFAULT; mret (NULL, NULL)
     else
       last ← load32 state_ptr;
       let str := if str =? NULL then last else str in
       if str =? NULL then mret (NULL, last)
       else
         n ← strspn strchr str separator_set;
         let str := str + n in
         c ← load8 str;
         if c =? 0 then mret (NULL, NULL)
         else
           size ← strcspn strchr str separator_set;
           if size =? 0 then mret (NULL, NULL)
           else
             c ← load8 (str + size);
             let last := if negb (c =? 0) then str + size + 1 else str + size in
             _ ← store8 (str + size) 0;
             mret (str, last));
  _ ← (if negb (state_ptr =? NULL) then store32 state_ptr last else mret tt);
  mret result.

(** [last] is the address of the static variable of strtok.c. *)
Definition strtok (last str separator_set : Z) : M cstate Z := strtok_r str separator_set last.

Definition strsep (src delim : Z) : M cstate Z :=
  string ← load32 src;
  if negb (string =? NULL) then
    let token := string in
    loop (fun string =>
            c ← load8 string;
            let string := string + 1 in
            if c =? 0 then _ ← store32 src NULL; break token
            else
              r ← strchr delim c;
              if negb (r =? NULL) then
                _ ← store8 (string - 1) 0; _ ← store32 src string; break token
              else continue string) string
  else mret NULL.

(** Calling them until they return NULL: the tokens they return. *)
Definition strtok_all (str separator_set state_ptr : Z) : M cstate (list Z) :=
  loop (fun '(str, tokens) =>
          r ← strtok_r str separator_set state_ptr;
          if r =? NULL then break tokens else continue (NULL, tokens ++ [r])) (str, []).
Definition strsep_all (src delim : Z) : M cstate (list Z) :=
  loop (fun tokens =>
          r ← strsep src delim;
          if r =? NULL then break tokens else continue (tokens ++ [r])) [].
End SplitFunctions.

(** ** Fields and tokens *)

(** The fields of a string between the characters of a set; its tokens are those that
    are not empty. *)
Fixpoint fields (set s : list Z) : list (list Z) :=
  match s with
  | [] => [[]]
  | b :: s' =>
      if in_set set b then [] :: fields set s'
      else match fields set s' with f :: fs => (b :: f) :: fs | [] => [[b]] end
  end.
Definition tokens (set s : list Z) : list (list Z) := filter (fun f => f ≠ []) (fields set s).

Section Fields.
Context (set : list Z).

Lemma fields_whole t : (∀ b, b ∈ t → in_set set b = false) → fields set t = [t].
Proof.
  induction t as [|b t IH]; intros Ht; [done|]. simpl. rewrite (Ht b) by set_solver. rewrite IH; [done|]. intros c Hc. apply Ht. set_solver.
Qed.
Lemma fields_cut t d s : (∀ b, b ∈ t → in_set set b = false) → in_set set d = true → fields set (t ++ d :: s) = t :: fields set s.
Proof.
  intros Ht Hd. induction t as [|b t IH]; simpl; [by rewrite Hd|]. rewrite (Ht b) by set_solver. rewrite IH; [done|]. intros c Hc. apply Ht. set_solver.
Qed.
Lemma tokens_skip t s : (∀ b, b ∈ t → in_set set b = true) → tokens set (t ++ s) = tokens set s.
Proof.
  induction t as [|b t IH]; intros Ht; [done|]. unfold tokens in *. simpl. rewrite (Ht b) by set_solver. rewrite filter_cons_False by naive_solver.
  apply IH. intros c Hc. apply Ht. set_solver.
Qed.
Lemma tokens_whole t : t ≠ [] → (∀ b, b ∈ t → in_set set b = false) → tokens set t = [t].
Proof. intros Hne Ht. unfold tokens. rewrite fields_whole by done. by rewrite filter_cons_True. Qed.
Lemma tokens_cut t d s : t ≠ [] → (∀ b, b ∈ t → in_set set b = false) → in_set set d = true → tokens set (t ++ d :: s) = t :: tokens set s.
Proof. intros Hne Ht Hd. unfold tokens. rewrite fields_cut by done. by rewrite filter_cons_True. Qed.
End Fields.

(** ** A pointer in memory *)

Definition ptr_cell (m : gmap Z Z) (a v : Z) : Prop :=
  a mod 4 = 0 ∧ ∃ b0 b1 b2 b3, bytes_at m a [b0; b1; b2; b3] ∧ v = be32 b0 b1 b2 b3.
Definition ptr_bytes (v : Z) : list Z := [v / 16777216; v / 65536 mod 256; v / 256 mod 256; v mod 256].

Lemma wp_load_ptr a v Q σ : ptr_cell (mem σ) a v → Q v σ → wp (load32 a) Q σ.
Proof.
  intros (Ha & b0 & b1 & b2 & b3 & Hb & ->) HQ. rewrite <- (Z.add_0_r a). apply (wp_load32_at _ [b0; b1; b2; b3]); [done|by rewrite Z.add_0_r|done|done|done].
Qed.
Lemma wp_store_ptr a v Q σ :
  a mod 4 = 0 → mapped (mem σ) a 4 → 0 <= v < 4294967296 → Q tt (with_mem (write_bytes (mem σ) a (ptr_bytes v)) σ) → wp (store32 a v) Q σ.
Proof.
  intros Ha Hm Hv HQ. replace v with (be32 (v / 16777216) (v / 65536 mod 256) (v / 256 mod 256) (v mod 256)) at 1 by (unfold be32; dlia).
  apply wp_store32; [done|done|unfold is_byte; dlia..|done].
Qed.
Lemma ptr_written m a v : a mod 4 = 0 → 0 <= v < 4294967296 → ptr_cell (write_bytes m a (ptr_bytes v)) a v.
Proof. intros Ha Hv. split; [done|]. do 4 eexists. split; [apply write_bytes_bytes_at|]. unfold be32. dlia. Qed.
Lemma ptr_bytes_ok v : 0 <= v < 4294967296 → Forall is_byte (ptr_bytes v).
Proof. intros Hv. repeat constructor; unfold is_byte; dlia. Qed.

(** The parts of a string, and strings in memory that has changed elsewhere. *)
Lemma cstr_frame m m' p s : (∀ a, p <= a <= p + lenZ s → m' !! a = m !! a) → cstr m p s → cstr m' p s.
Proof. intros Hf [H1 H2]. split; [|done]. intros i Hi. rewrite lenZ_snoc in Hi. rewrite Hf by lia. apply H1. rewrite lenZ_snoc. lia. Qed.
Lemma cstr_drop m p s i : 0 <= i <= lenZ s → cstr m p s → cstr m (p + i) (drop (Z.to_nat i) s).
Proof.
  intros Hi [H1 H2]. split; [|by apply Forall_drop]. pose proof (bytes_at_drop m p (s ++ [0]) i ltac:(rewrite lenZ_snoc; lia) H1) as Hd.
  rewrite drop_app_le in Hd by (unfold lenZ in Hi; lia). done.
Qed.
(** Cutting a string after [i] characters. *)
Lemma cstr_cut m p s i : 0 <= i <= lenZ s → cstr m p s → cstr (<[p + i := 0]> m) p (take (Z.to_nat i) s).
Proof.
  intros Hi Hs. split; [|apply Forall_take, Hs]. intros j Hj. rewrite lenZ_snoc, lenZ_take in Hj by lia. destruct (decide (j = i)) as [->|Hne].
  - rewrite lookup_insert_eq, nthZ_app_r by (rewrite lenZ_take; lia). by rewrite lenZ_take, Z.sub_diag by lia.
  - rewrite lookup_insert_ne by lia. rewrite nthZ_app_l by (rewrite lenZ_take; lia). rewrite nthZ_take by lia.
    rewrite (cstr_chr m p s) by (done || lia). by rewrite chr_nthZ by lia.
Qed.

(** ** One call *)

Section Calls.
Context `{Strchr} (q sp lo hi : Z) (set : list Z).

(** The string lies in [lo, hi], apart from the set at [q] and the cell at [sp]. *)
Record layout : Prop := Layout {
  la_str : 0 < lo ∧ lo <= hi < 4294967296;
  la_set : 0 < q ∧ lenZ set < 4294967296 ∧ (hi < q ∨ q + lenZ set < lo);
  la_cell : 0 < sp ∧ sp mod 4 = 0 ∧ (hi < sp ∨ sp + 4 <= lo) ∧ (q + lenZ set < sp ∨ sp + 4 <= q)
}.
Context (Hlay : layout).

Record split_ok (m : gmap Z Z) : Prop := SplitOk {
  so_mem : mem_ok m;
  so_set : cstr m q set;
  so_cell : ∃ v, ptr_cell m sp v
}.
Lemma so_mapped m : split_ok m → mapped m sp 4.
Proof. intros [_ _ (v & _ & b0 & b1 & b2 & b3 & Hb & _)]. by apply bytes_at_mapped in Hb. Qed.

(** Setting the cell, after cutting the string at [a]. *)
Lemma set_cell_ok m v : split_ok m → 0 <= v < 4294967296 → split_ok (write_bytes m sp (ptr_bytes v)).
Proof.
  intros Hm Hv. destruct Hlay as [_ L2 L3]. split.
  - apply write_bytes_mem_ok; [apply Hm|by apply so_mapped|by apply ptr_bytes_ok].
  - eapply cstr_frame; [|apply Hm]. intros a Ha. apply write_bytes_lookup_out. change (lenZ (ptr_bytes v)) with 4. lia.
  - exists v. apply ptr_written; [apply L3|done].
Qed.
Lemma cut_ok m a : split_ok m → lo <= a <= hi → is_Some (m !! a) → split_ok (<[a := 0]> m).
Proof.
  intros Hm Ha Hs. destruct Hlay as [_ L2 L3]. pose proof Hm as [M1 M2 (v & Hv & b0 & b1 & b2 & b3 & Hb & ->)]. split.
  - by apply insert_mem_ok.
  - eapply cstr_frame; [|done]. intros b Hb'. apply lookup_insert_ne. lia.
  - exists (be32 b0 b1 b2 b3). split; [done|]. exists b0, b1, b2, b3. split; [|done]. intros j Hj. rewrite lookup_insert_ne; [by apply Hb|].
    change (lenZ [b0; b1; b2; b3]) with 4 in Hj. lia.
Qed.
Lemma set_cell_out m v a : ~ sp <= a < sp + 4 → write_bytes m sp (ptr_bytes v) !! a = m !! a.
Proof. intros Ha. apply write_bytes_lookup_out. change (lenZ (ptr_bytes v)) with 4. lia. Qed.
Lemma set_cell_cstr m v p s : lo <= p → p + lenZ s <= hi → cstr m p s → cstr (write_bytes m sp (ptr_bytes v)) p s.
Proof. intros H1 H2. apply cstr_frame. intros a Ha. apply set_cell_out. pose proof (la_cell Hlay). lia. Qed.

(** Where the first part of [s] ends, and what follows it. *)
Definition part_end (f : Z → bool) (s : list Z) : Z := default (lenZ s) (find_index f s).
Lemma part_end_spec f s : 0 <= part_end f s <= lenZ s ∧ (∀ b, b ∈ take (Z.to_nat (part_end f s)) s → f b = false) ∧
  (part_end f s < lenZ s → f (nthZ s (part_end f s)) = true).
Proof.
  unfold part_end. pose proof (lenZ_nonneg s). destruct (find_index f s) as [i|] eqn:E; simpl.
  - apply find_index_Some_1 in E as (H1 & H2 & H3). split; [lia|]. split; [|done]. intros b (j & Hj & <-)%elem_of_nthZ.
    rewrite lenZ_take in Hj by lia. rewrite nthZ_take by lia. apply H3. lia.
  - split; [lia|]. split; [|lia]. rewrite take_all_lenZ. intros b (j & Hj & <-)%elem_of_nthZ. by apply find_index_None_1.
Qed.

(** What a call has done to a string of which [s] was left at [p]. *)
Definition call_post (σ : cstate) (p : Z) (parts : list Z → list (list Z)) (s : list Z) (r : Z) (τ : cstate) : Prop :=
  split_ok (mem τ) ∧ errno τ = errno σ ∧
  (∀ b, b < lo ∨ hi < b → ~ sp <= b < sp + 4 → mem τ !! b = mem σ !! b) ∧
  ((r = NULL ∧ parts s = [] ∧ ptr_cell (mem τ) sp NULL ∧ ∀ b, ~ sp <= b < sp + 4 → mem τ !! b = mem σ !! b) ∨
   (∃ t rest p', p <= r ∧ cstr (mem τ) r t ∧ r + lenZ t <= p' ∧ parts s = t :: parts rest ∧ cstr (mem τ) p' rest ∧ p' + lenZ rest = hi ∧
      lenZ rest < lenZ s ∧ ptr_cell (mem τ) sp p' ∧ ∀ b, b <= p → ~ sp <= b < sp + 4 → mem τ !! b = mem σ !! b)).

(** The token that a call finds. *)
Lemma next_token s :
  let i := part_end (fun b => negb (in_set set b)) s in
  let size := part_end (in_set set) (drop (Z.to_nat i) s) in
  (i = lenZ s → tokens set s = []) ∧
  (i < lenZ s → 0 < size ∧ i + size <= lenZ s ∧
    let k := if i + size <? lenZ s then i + size + 1 else i + size in
    tokens set s = take (Z.to_nat size) (drop (Z.to_nat i) s) :: tokens set (drop (Z.to_nat k) s)).
Proof.
  intros i size. destruct (part_end_spec (fun b => negb (in_set set b)) s) as (P1 & P2 & P3). fold i in P1, P2, P3.
  assert (∀ b, b ∈ take (Z.to_nat i) s → in_set set b = true) as P2' by (intros b Hb; apply negb_false_iff; by apply P2).
  assert (tokens set s = tokens set (drop (Z.to_nat i) s)) as Hskip by (rewrite <- (tokens_skip set _ (drop (Z.to_nat i) s) P2'); by rewrite take_drop).
  split; [intros E; rewrite Hskip, drop_ge; [done|unfold lenZ in E; lia]|]. intros Hi. specialize (P3 Hi). apply negb_true_iff in P3.
  destruct (part_end_spec (in_set set) (drop (Z.to_nat i) s)) as (Q1 & Q2 & Q3). fold size in Q1, Q2, Q3. rewrite lenZ_drop in Q1, Q3 by lia.
  assert (0 < size) as Hsize.
  { destruct (decide (size = 0)) as [E|]; [|lia]. rewrite E in Q3. rewrite nthZ_drop in Q3 by lia. rewrite Z.add_0_r in Q3. rewrite Q3 in P3 by lia. done. }
  split; [done|]. split; [lia|]. intros k. rewrite Hskip. set (s1 := drop (Z.to_nat i) s) in *.
  assert (lenZ s1 = lenZ s - i) as Hl by (apply lenZ_drop; lia).
  assert (take (Z.to_nat size) s1 ≠ []) as Hne. { intros E. apply (f_equal lenZ) in E. rewrite lenZ_take in E by lia. change (lenZ (@nil Z)) with 0 in E. lia. }
  subst k. destruct (i + size <? lenZ s) eqn:E; b2p.
  - rewrite <- (take_drop (Z.to_nat size) s1) at 1. rewrite (drop_nthZ s1 size) by lia. rewrite tokens_cut; [|done|done|apply Q3; lia].
    do 2 f_equal. unfold s1. rewrite drop_drop. f_equal. lia.
  - rewrite (drop_ge s) by (unfold lenZ in *; lia). rewrite <- (take_drop (Z.to_nat size) s1) at 1. rewrite (drop_ge s1) by (unfold lenZ in *; lia).
    rewrite app_nil_r. by apply tokens_whole.
Qed.

(** The last part of [strtok_r]: the result and the cell. *)
Definition finish_strtok (x : Z * Z) : M cstate Z :=
  let '(result, last) := x in
  _ ← (if negb (sp =? NULL) then store32 sp last else mret tt);
  mret result.
Lemma finish_strtok_spec Q r last σ :
  split_ok (mem σ) → 0 <= last < 4294967296 → Q r (with_mem (write_bytes (mem σ) sp (ptr_bytes last)) σ) → wp (finish_strtok (r, last)) Q σ.
Proof.
  intros Hm Hl HQ. unfold finish_strtok. pose proof (la_cell Hlay) as (C1 & C2 & _). rewrite (proj2 (Z.eqb_neq sp NULL)) by (unfold NULL; lia). simpl.
  wp_step. apply wp_store_ptr; [done|by apply so_mapped|done|]. by wp_step.
Qed.
Lemma strtok_none σ p s :
  split_ok (mem σ) → tokens set s = [] → wp (finish_strtok (NULL, NULL)) (call_post σ p (tokens set) s) σ.
Proof.
  intros Hm Ht. pose proof (la_cell Hlay) as (C1 & C2 & _). apply finish_strtok_spec; [done|done|].
  split; [by apply set_cell_ok|]. split; [done|]. split; [intros; by apply set_cell_out|]. left.
  split_and!; [done|done|by apply ptr_written|intros; by apply set_cell_out].
Qed.
Lemma strtok_some σ p s i size k :
  split_ok (mem σ) → cstr (mem σ) p s → lo <= p → p + lenZ s = hi → 0 <= i → 0 < size → i + size <= k <= lenZ s →
  tokens set s = take (Z.to_nat size) (drop (Z.to_nat i) s) :: tokens set (drop (Z.to_nat k) s) → (i + size = k → k = lenZ s) →
  wp (_ ← store8 (p + i + size) 0; finish_strtok (p + i, p + k)) (call_post σ p (tokens set) s) σ.
Proof.
  intros Hm Hs Hlo Hhi Hi Hsz Hk Ht Hend. pose proof (la_str Hlay) as L1. pose proof (la_cell Hlay) as (C1 & C2 & C3 & _).
  pose proof (lenZ_drop s k ltac:(lia)) as Hdk. pose proof (cstr_chr _ _ _ (i + size) Hs ltac:(lia)) as Hc.
  rewrite Z.add_assoc in Hc. set (m := <[p + i + size := 0]> (mem σ)).
  assert (split_ok m) as Hm' by (apply cut_ok; [done|lia|by rewrite Hc]).
  wp_step. apply wp_store8; [by rewrite Hc|]. change (u8 0) with 0. fold m. apply finish_strtok_spec; [done|lia|]. cbn [mem with_mem].
  assert (cstr m (p + i) (take (Z.to_nat size) (drop (Z.to_nat i) s))) as Htok by (apply cstr_cut; [rewrite lenZ_drop; lia|by apply cstr_drop; [lia|]]).
  assert (cstr m (p + k) (drop (Z.to_nat k) s)) as Hrest.
  { eapply cstr_frame; [|apply cstr_drop; [|done]; lia]. intros a Ha. rewrite Hdk in Ha. unfold m. destruct (decide (a = p + i + size)) as [->|]; [|by rewrite lookup_insert_ne by done].
    rewrite lookup_insert_eq, Hc. rewrite (Hend ltac:(lia)) in *. replace (i + size) with (lenZ s) by lia. by rewrite chr_end. }
  assert (lenZ (take (Z.to_nat size) (drop (Z.to_nat i) s)) = size) as Hlt by (apply lenZ_take; rewrite lenZ_drop; lia).
  split; [apply set_cell_ok; [done|lia]|]. split; [done|]. split.
  { intros b Hb Hb'. cbn [mem with_mem]. rewrite set_cell_out by done. apply lookup_insert_ne. lia. }
  right. exists (take (Z.to_nat size) (drop (Z.to_nat i) s)), (drop (Z.to_nat k) s), (p + k).
  split_and!; [lia|apply set_cell_cstr; [lia|lia|done]|lia|done|apply set_cell_cstr; [lia|lia|done]|lia|lia|apply ptr_written; [done|lia]|].
  intros b Hb Hb'. cbn [mem with_mem]. rewrite set_cell_out by done. apply lookup_insert_ne. lia.
Qed.

Lemma strtok_r_spec σ str p s :
  split_ok (mem σ) → cstr (mem σ) p s → lo <= p → p + lenZ s = hi → str = p ∨ (str = NULL ∧ ptr_cell (mem σ) sp p) →
  wp (strtok_r strchr str q sp) (call_post σ p (tokens set) s) σ.
Proof.
  intros Hm Hs Hlo Hhi Hstr. pose proof (la_str Hlay) as L1. pose proof (la_set Hlay) as L2. pose proof (la_cell Hlay) as (C1 & C2 & C3 & _). pose proof (lenZ_nonneg s).
  unfold strtok_r. change (wp (?c ≫= _) ?Q σ) with (wp (c ≫= finish_strtok) Q σ).
  assert (((q =? NULL) || (sp =? NULL))%bool = false) as -> by (apply orb_false_iff; rewrite !Z.eqb_neq; unfold NULL; lia).
  assert (∃ v, ptr_cell (mem σ) sp v ∧ (if str =? NULL then v else str) = p) as (v & Hv & Hpv).
  { destruct Hstr as [->|[-> Hc]]; [|by exists p]. destruct (so_cell _ Hm) as [v Hv]. exists v. split; [done|]. by rewrite (proj2 (Z.eqb_neq p NULL)) by (unfold NULL; lia). }
  apply wp_bind. wp_step. eapply wp_load_ptr; [done|]. cbv zeta. rewrite Hpv. rewrite (proj2 (Z.eqb_neq p NULL)) by (unfold NULL; lia).
  wp_step. eapply wp_mono; [apply wp_eq, (strspn_spec σ p q s set); [done|apply Hm|apply Hm|lia|lia|lia|lia]|]. intros n τ [-> ->].
  fold (part_end (fun b => negb (in_set set b)) s). destruct (next_token s) as [N1 N2].
  destruct (part_end_spec (fun b => negb (in_set set b)) s) as (P1 & _ & _).
  set (i := part_end (fun b => negb (in_set set b)) s) in *. clearbody i. pose proof (lenZ_drop s i ltac:(lia)) as Hdi.
  wp_step. apply (wp_load_chr _ _ s); [done|lia|]. destruct (chr s i =? 0) eqn:E; b2p.
  { wp_step. apply strtok_none; [done|]. apply N1. apply chr_zero in E; [done|apply Hs|lia]. }
  assert (i < lenZ s) as Hi by (destruct (decide (i = lenZ s)) as [->|]; [by rewrite chr_end in E|lia]).
  wp_step. eapply wp_mono; [apply wp_eq, (strcspn_spec σ (p + i) q (drop (Z.to_nat i) s) set); [by apply cstr_drop; [lia|]|apply Hm|apply Hm|lia|lia|lia|lia]|].
  intros size τ [-> ->]. fold (part_end (in_set set) (drop (Z.to_nat i) s)). destruct (N2 Hi) as (S1 & S2 & S3).
  set (size := part_end (in_set set) (drop (Z.to_nat i) s)) in *. clearbody size. rewrite (proj2 (Z.eqb_neq size 0)) by lia.
  wp_step. rewrite <- Z.add_assoc. apply (wp_load_chr _ _ s); [done|lia|]. cbv zeta.
  set (k := if i + size <? lenZ s then i + size + 1 else i + size) in *.
  replace (if negb (chr s (i + size) =? 0) then p + (i + size) + 1 else p + (i + size)) with (p + k).
  2:{ unfold k. destruct (negb (chr s (i + size) =? 0)) eqn:Ec; b2p.
      - rewrite (proj2 (Z.ltb_lt _ _)); [lia|]. destruct (decide (i + size = lenZ s)) as [El|]; [|lia]. by rewrite El, chr_end in Ec.
      - apply chr_zero in Ec; [|apply Hs|lia]. rewrite (proj2 (Z.ltb_ge _ _)) by lia. done. }
  assert (wp (_ ← store8 (p + i + size) 0; finish_strtok (p + i, p + k)) (call_post σ p (tokens set) s) σ) as Hw.
  { apply (strtok_some σ p s i size k); [done..|lia|lia|unfold k; destruct (i + size <? lenZ s) eqn:Ek; b2p; lia|done|].
    unfold k. destruct (i + size <? lenZ s) eqn:Ek; b2p; lia. }
  rewrite <- Z.add_assoc in Hw. wp_step. unfold wp, mbind, M_mbind, M_bind in Hw |- *. by destruct (store8 _ _ σ) as [[? ?]| |].
Qed.

(** The parts found so far stay where they are. *)
Definition kept (m : gmap Z Z) (p : Z) (rs : list Z) (ts : list (list Z)) : Prop :=
  Forall2 (fun r t => cstr m r t ∧ lo <= r ∧ r + lenZ t <= p) rs ts.
Lemma kept_frame m m' p p' rs ts :
  kept m p rs ts → p <= p' → p <= hi → (∀ b, b <= p → ~ sp <= b < sp + 4 → m' !! b = m !! b) → kept m' p' rs ts.
Proof.
  intros Hk Hp Hhi Hf. pose proof (la_cell Hlay). eapply Forall2_impl; [|exact Hk]. cbn beta. intros r t (H1 & H2 & H3). split_and!; [|done|lia].
  eapply cstr_frame; [|done]. intros a Ha. apply Hf; lia.
Qed.
Lemma kept_snoc m p rs ts r t : kept m p rs ts → cstr m r t → lo <= r → r + lenZ t <= p → kept m p (rs ++ [r]) (ts ++ [t]).
Proof. intros Hk Hc H1 H2. apply Forall2_app; [done|]. by constructor. Qed.

Definition all_post (σ : cstate) (ts : list (list Z)) (rs : list Z) (τ : cstate) : Prop :=
  Forall2 (cstr (mem τ)) rs ts ∧ ptr_cell (mem τ) sp NULL ∧ errno τ = errno σ ∧
  ∀ b, b < lo ∨ hi < b → ~ sp <= b < sp + 4 → mem τ !! b = mem σ !! b.

Lemma strtok_all_spec σ s :
  split_ok (mem σ) → cstr (mem σ) lo s → lo + lenZ s = hi → wp (strtok_all strchr lo q sp) (all_post σ (tokens set s)) σ.
Proof.
  intros Hm Hs Hhi. pose proof (la_str Hlay) as L1. pose proof (lenZ_nonneg s).
  apply (wp_loop_ghost _ (fun '(p, s', ts) '(str, rs) τ => split_ok (mem τ) ∧ cstr (mem τ) p s' ∧ lo <= p ∧ p + lenZ s' = hi ∧
      (str = p ∨ (str = NULL ∧ ptr_cell (mem τ) sp p)) ∧ kept (mem τ) p rs ts ∧ ts ++ tokens set s' = tokens set s ∧ errno τ = errno σ ∧
      ∀ b, b < lo ∨ hi < b → ~ sp <= b < sp + 4 → mem τ !! b = mem σ !! b) _ (fun '(p, s', ts) => lenZ s')) with (g := (lo, s, [])).
  - intros [[p s'] ts] [str rs] τ (H1 & H2 & H3 & H4 & H5 & H6 & H7 & H8 & H9). pose proof (lenZ_nonneg s'). wp_step.
    eapply wp_mono; [by apply (strtok_r_spec τ str p s')|]. intros r υ (U1 & U2 & U3 & [(-> & U4 & U5 & U6)|(t & rest & p' & R1 & R2 & R3 & R4 & R5 & R6 & R7 & R8 & R9)]).
    + simpl. wp_step. rewrite U4, app_nil_r in H7. subst ts. split_and!; [|done|congruence|intros b Hb Hb'; rewrite U3 by done; by apply H9].
      eapply Forall2_impl; [|apply (kept_frame (mem τ) (mem υ) p p); [done|done|lia|intros; by apply U6]]. by intros ? ? [? _].
    + pose proof (lenZ_nonneg t). pose proof (lenZ_nonneg rest). rewrite (proj2 (Z.eqb_neq r NULL)) by (unfold NULL; lia). wp_step. exists (p', rest, ts ++ [t]). split; [|lia].
      split_and!; [done|done|lia|lia|by right| | |congruence|intros b Hb Hb'; rewrite U3 by done; by apply H9].
      * apply kept_snoc; [|done|lia|done]. apply (kept_frame (mem τ) (mem υ) p p'); [done|lia|lia|done].
      * rewrite <- app_assoc. simpl. by rewrite <- R4.
  - split_and!; [done|done|lia|done|by left|constructor|done|done|done].
  - intros [[p s'] ts] [str rs] τ _. apply lenZ_nonneg.
  - lia.
Qed.

(** ** strsep *)

(** What a call of [strsep] has done: the field at [p] is cut off, or it was the last. *)
Definition strsep_post (σ : cstate) (p : Z) (s : list Z) (r : Z) (τ : cstate) : Prop :=
  r = p ∧ split_ok (mem τ) ∧ errno τ = errno σ ∧
  (∀ b, b < p ∨ hi < b → ~ sp <= b < sp + 4 → mem τ !! b = mem σ !! b) ∧
  ((fields set s = [s] ∧ cstr (mem τ) p s ∧ ptr_cell (mem τ) sp NULL) ∨
   (∃ t rest, cstr (mem τ) p t ∧ fields set s = t :: fields set rest ∧ cstr (mem τ) (p + lenZ t + 1) rest ∧ p + lenZ t + 1 + lenZ rest = hi ∧
      ptr_cell (mem τ) sp (p + lenZ t + 1))).

Lemma strsep_last σ p s :
  split_ok (mem σ) → cstr (mem σ) p s → lo <= p → p + lenZ s = hi → (∀ b, b ∈ s → in_set set b = false) →
  strsep_post σ p s p (with_mem (write_bytes (mem σ) sp (ptr_bytes NULL)) σ).
Proof.
  intros Hm Hs Hlo Hhi Hf. pose proof (la_cell Hlay) as (C1 & C2 & _). split; [done|]. split; [by apply set_cell_ok|]. split; [done|].
  split; [intros; by apply set_cell_out|]. left. split_and!; [by apply fields_whole|apply set_cell_cstr; [done|lia|done]|by apply ptr_written].
Qed.
Lemma strsep_cut σ p s i :
  split_ok (mem σ) → cstr (mem σ) p s → lo <= p → p + lenZ s = hi → 0 <= i < lenZ s →
  (∀ j, 0 <= j < i → in_set set (nthZ s j) = false) → in_set set (nthZ s i) = true →
  strsep_post σ p s p (with_mem (write_bytes (<[p + i := 0]> (mem σ)) sp (ptr_bytes (p + i + 1))) σ).
Proof.
  intros Hm Hs Hlo Hhi Hi Hf Hd. pose proof (la_str Hlay) as L1. pose proof (la_cell Hlay) as (C1 & C2 & C3 & _).
  pose proof (lenZ_take s i ltac:(lia)) as Hlt. pose proof (lenZ_drop s (i + 1) ltac:(lia)) as Hld.
  assert (split_ok (<[p + i := 0]> (mem σ))) as Hm'. { apply cut_ok; [done|lia|]. rewrite (cstr_chr _ _ s) by (done || lia). done. }
  split; [done|]. split; [apply set_cell_ok; [done|lia]|]. split; [done|]. cbn [mem with_mem].
  split; [intros b Hb Hb'; rewrite set_cell_out by done; apply lookup_insert_ne; lia|].
  right. exists (take (Z.to_nat i) s), (drop (Z.to_nat (i + 1)) s). rewrite Hlt. split_and!.
  - apply set_cell_cstr; [done|lia|]. apply cstr_cut; [lia|done].
  - rewrite <- (take_drop (Z.to_nat i) s) at 1. rewrite drop_nthZ by lia. apply fields_cut; [|done].
    intros b (j & Hj & <-)%elem_of_nthZ. rewrite Hlt in Hj. rewrite nthZ_take by lia. apply Hf. lia.
  - apply set_cell_cstr; [lia|lia|]. eapply cstr_frame; [|rewrite <- Z.add_assoc; apply cstr_drop; [|done]; lia].
    intros a Ha. apply lookup_insert_ne. lia.
  - lia.
  - apply ptr_written; [done|lia].
Qed.
Lemma strsep_spec σ p s :
  split_ok (mem σ) → cstr (mem σ) p s → lo <= p → p + lenZ s = hi → ptr_cell (mem σ) sp p →
  wp (strsep strchr sp q) (strsep_post σ p s) σ.
Proof.
  intros Hm Hs Hlo Hhi Hc. pose proof (la_str Hlay) as L1. pose proof (la_set Hlay) as L2. pose proof (la_cell Hlay) as (C1 & C2 & C3 & _). pose proof (lenZ_nonneg s).
  unfold strsep. wp_step. eapply wp_load_ptr; [done|]. rewrite (proj2 (Z.eqb_neq p NULL)) by (unfold NULL; lia). simpl negb. cbn beta iota zeta.
  apply (wp_loop _ (fun a τ => τ = σ ∧ ∃ i, a = p + i ∧ 0 <= i <= lenZ s ∧ ∀ j, 0 <= j < i → in_set set (nthZ s j) = false) _ (fun a => p + lenZ s - a)).
  - intros a τ (-> & i & -> & Hi & Hf). wp_step. apply (wp_load_chr _ _ s); [done|lia|]. destruct (chr s i =? 0) eqn:E; b2p.
    + apply chr_zero in E; [|apply Hs|lia]. subst i. wp_step. apply wp_store_ptr; [done|by apply so_mapped|done|]. wp_step.
      apply strsep_last; [done..|]. intros b (j & Hj & <-)%elem_of_nthZ. by apply Hf.
    + assert (i ≠ lenZ s) by (intros ->; by rewrite chr_end in E). wp_step.
      eapply wp_mono; [apply (strchr_in_set σ q set); [apply Hm|apply Hm|lia|lia|apply chr_nonzero; [apply Hs|lia]]|]. intros r τ [Hr ->].
      rewrite Hr. rewrite chr_nthZ by lia. destruct (in_set set (nthZ s i)) eqn:Es.
      * wp_step. replace (p + i + 1 - 1) with (p + i) by lia. apply wp_store8; [by rewrite (cstr_chr _ _ s) by (done || lia)|]. change (u8 0) with 0. wp_step.
        apply wp_store_ptr; [done|apply (so_mapped (<[p + i := 0]> (mem σ))), cut_ok; [done|lia|by rewrite (cstr_chr _ _ s) by (done || lia)]|lia|]. wp_step. exact (strsep_cut σ p s i Hm Hs Hlo Hhi ltac:(lia) Hf Es).
      * wp_step. split; [|lia]. split; [done|]. exists (i + 1). split_and!; [lia|lia|lia|]. intros j Hj. destruct (decide (j = i)) as [->|]; [done|apply Hf; lia].
  - split; [done|]. exists 0. split_and!; [lia|lia|lia|]. intros j Hj; lia.
  - intros a τ (_ & i & -> & ? & _). lia.
  - lia.
Qed.
Lemma strsep_end σ : ptr_cell (mem σ) sp NULL → wp (strsep strchr sp q) (fun r τ => r = NULL ∧ τ = σ) σ.
Proof. intros Hc. unfold strsep. wp_step. eapply wp_load_ptr; [done|]. simpl. by wp_step. Qed.

(** What is left of the string: nothing, or the string at the cell. *)
Definition left_over (m : gmap Z Z) (g : option (Z * list Z)) : Prop :=
  match g with
  | Some (p, s) => cstr m p s ∧ lo <= p ∧ p + lenZ s = hi ∧ ptr_cell m sp p
  | None => ptr_cell m sp NULL
  end.
Definition fields_left (g : option (Z * list Z)) : list (list Z) := match g with Some (_, s) => fields set s | None => [] end.
Definition left_start (g : option (Z * list Z)) : Z := match g with Some (p, _) => p | None => hi + 1 end.

Lemma strsep_all_spec σ s :
  split_ok (mem σ) → cstr (mem σ) lo s → lo + lenZ s = hi → ptr_cell (mem σ) sp lo → wp (strsep_all strchr sp q) (all_post σ (fields set s)) σ.
Proof.
  intros Hm Hs Hhi Hc. pose proof (la_str Hlay) as L1. pose proof (lenZ_nonneg s).
  apply (wp_loop_ghost _ (fun '(g, ts) rs τ => split_ok (mem τ) ∧ left_over (mem τ) g ∧ kept (mem τ) (left_start g - 1) rs ts ∧ ts ++ fields_left g = fields set s ∧
      errno τ = errno σ ∧ ∀ b, b < lo ∨ hi < b → ~ sp <= b < sp + 4 → mem τ !! b = mem σ !! b)
      _ (fun '(g, ts) => hi + 1 - left_start g)) with (g := (Some (lo, s), [])).
  - intros [g ts] rs τ (H1 & H2 & H3 & H4 & H5 & H6). wp_step. destruct g as [[p s']|].
    2:{ eapply wp_mono; [by apply strsep_end|]. intros r υ [-> ->]. simpl in H4. rewrite app_nil_r in H4. subst ts. simpl. wp_step.
        split_and!; [eapply Forall2_impl; [|exact H3]; by intros ? ? [? _]|done|done|done]. }
    destruct H2 as (G1 & G2 & G3 & G4). pose proof (lenZ_nonneg s'). simpl in H3, H4.
    eapply wp_mono; [by apply (strsep_spec τ p s')|]. intros r υ (-> & U1 & U2 & U3 & U4). rewrite (proj2 (Z.eqb_neq p NULL)) by (unfold NULL; lia). wp_step.
    assert (∀ b, b < lo ∨ hi < b → ~ sp <= b < sp + 4 → mem υ !! b = mem σ !! b) as Hfr by (intros b Hb Hb'; rewrite U3; [by apply H6|lia|done]).
    destruct U4 as [(R1 & R2 & R3)|(t & rest & R1 & R2 & R3 & R4 & R5)].
    + exists (None, ts ++ [s']). simpl. split; [|lia]. split_and!; [done|done| |by rewrite app_nil_r, <- R1|congruence|done].
      apply kept_snoc; [|done|lia|lia]. apply (kept_frame (mem τ) (mem υ) (p - 1)); [done|lia|lia|]. intros b Hb Hb'. apply U3; [lia|done].
    + pose proof (lenZ_nonneg t). pose proof (lenZ_nonneg rest). exists (Some (p + lenZ t + 1, rest), ts ++ [t]). simpl. split; [|lia].
      split_and!; [done|done|lia|done|done| |rewrite <- app_assoc; simpl; by rewrite <- R2|congruence|done].
      apply kept_snoc; [|done|lia|lia]. apply (kept_frame (mem τ) (mem υ) (p - 1)); [done|lia|lia|]. intros b Hb Hb'. apply U3; [lia|done].
  - simpl. split_and!; [done|done|lia|done|done|constructor|done|done|done].
  - intros [[[p s']|] ts] rs τ (_ & H2 & _); simpl; [|lia]. destruct H2 as (_ & _ & ? & _). pose proof (lenZ_nonneg s'). lia.
  - simpl. lia.
Qed.
End Calls.

(** C12: A program that calls [strtok_r] on a string, and then again with NULL until it
    returns NULL, gets the tokens of the string, the longest parts without a separator,
    in order and each one terminated: the calls end, cut the string in place and write
    nothing but the string and the saved pointer. *)
Theorem strtok_splits `{Strchr} σ str q sp set s :
  layout q sp str (str + lenZ s) set → split_ok q sp set (mem σ) → cstr (mem σ) str s →
  wp (strtok_all strchr str q sp) (all_post sp str (str + lenZ s) σ (tokens set s)) σ.
Proof. intros Hlay Hm Hs. by apply strtok_all_spec. Qed.

Lemma strtok_splits_witness :
  let σ := CState (write_bytes (write_bytes (write_bytes ∅ 100 [44; 97; 98; 44; 44; 99; 0; 0]) 200 [44; 59; 0; 0]) 300 [0; 0; 0; 0]) 0 in
  wp (strtok_all glibc_strchr 100 200 300) (all_post 300 100 106 σ [[97; 98]; [99]]) σ.
Proof.
  intros σ. apply (@strtok_splits glibc_Strchr σ 100 200 300 [44; 59] [44; 97; 98; 44; 44; 99]).
  - change (lenZ [44; 97; 98; 44; 44; 99]) with 6. split; change (lenZ [44; 59]) with 2; try change (300 mod 4) with 0; lia.
  - split; [by apply mem_okb_sound|by apply cstrb_sound|]. exists 0. split; [done|]. exists 0, 0, 0, 0. split; [by apply bytes_atb_sound|done].
  - by apply cstrb_sound.
Defined.

(** A program that calls [strsep] until it returns NULL gets the fields of the
    string, the parts between two delimiters, empty ones included, in order and each one
    terminated. *)
Theorem strsep_splits `{Strchr} σ str q sp set s :
  layout q sp str (str + lenZ s) set → split_ok q sp set (mem σ) → cstr (mem σ) str s → ptr_cell (mem σ) sp str →
  wp (strsep_all strchr sp q) (all_post sp str (str + lenZ s) σ (fields set s)) σ.
Proof. intros Hlay Hm Hs Hc. by apply strsep_all_spec. Qed.

Lemma strsep_splits_witness :
  let σ := CState (write_bytes (write_bytes (write_bytes ∅ 100 [44; 97; 98; 44; 44; 99; 0; 0]) 200 [44; 59; 0; 0]) 300 [0; 0; 0; 100]) 0 in
  wp (strsep_all glibc_strchr 300 200) (all_post 300 100 106 σ [[]; [97; 98]; []; [99]]) σ.
Proof.
  intros σ. apply (@strsep_splits glibc_Strchr σ 100 200 300 [44; 59] [44; 97; 98; 44; 44; 99]).
  - change (lenZ [44; 97; 98; 44; 44; 99]) with 6. split; change (lenZ [44; 59]) with 2; try change (300 mod 4) with 0; lia.
  - split; [by apply mem_okb_sound|by apply cstrb_sound|]. exists 100. split; [done|]. exists 0, 0, 0, 100. split; [by apply bytes_atb_sound|done].
  - by apply cstrb_sound.
  - split; [done|]. exists 0, 0, 0, 100. split; [by apply bytes_atb_sound|done].
Defined.
