(* ===== verification/StrCmp.v ===== *)
(** * Comparing strings

    [strcmp], [strncmp], [strcasecmp], [strncasecmp], [strverscmp], [strcoll], [strxfrm]
    and [strnstr] of library/string, each against the order that it stands for: the first
    difference of the characters, or of the numbers in the strings. *)

From stdpp Require Import base gmap list numbers.
From S2P Require Import Prelude CMem Words Ctype MemFuncs StrScan.
Open Scope Z_scope.
#[local] Set Warnings "-clear-no-such-hyp".

(** ** Definitions *)

Definition __strcmp (s1 s2 : Z) : M cstate Z :=
  if negb (s1 =? s2) then
    '(s1, s2) ←
      loop (fun '(s1, s2) =>
              a ← load8 s1; b ← load8 s2;
              if a =? b then
                if a =? 0 then break (s1, s2) else continue (s1 + 1, s2 + 1)
              else break (s1, s2)) (s1, s2);
    c1 ← load8 s1; c2 ← load8 s2; mret (c1 - c2)
  else mret 0.
Definition strcmp (s1 s2 : Z) : M cstate Z := __strcmp s1 s2.

Definition __strncmp (s1 s2 n : Z) : M cstate Z :=
  loop (fun '(s1, s2, n) =>
          if 0 <? n then
            a ← load8 s1; b ← load8 s2;
            if a =? b then
              if a =? 0 then break 0 else continue (s1 + 1, s2 + 1, n - 1)
            else break (a - b)
          else break 0) (s1, s2, n).
Definition strncmp (s1 s2 n : Z) : M cstate Z :=
  if (s1 =? NULL) || (s2 =? NULL) then _ ← set_errno EFAULT; mret 0
  else if negb (s1 =? s2) && (0 <? s32 n) then __strncmp s1 s2 n
  else mret 0.

(** [toupper] depends on the locale. *)
Section NoCase.
Context (MB_CUR_MAX : Z) (towchar : Z → option Z).
Definition upper (c : Z) : Z := u8 (toupper MB_CUR_MAX towchar c).

Definition strcasecmp (s1 s2 : Z) : M cstate Z :=
  if (s1 =? NULL) || (s2 =? NULL) then _ ← set_errno EFAULT; mret 0
  else if negb (s1 =? s2) then
    '(c1, c2) ←
      loop (fun '(s1, s2) =>
              a ← load8 s1; b ← load8 s2;
              let c1 := upper a in let c2 := upper b in
              if c1 =? c2 then
                if c1 =? 0 then break (c1, c2) else continue (s1 + 1, s2 + 1)
              else break (c1, c2)) (s1, s2);
    mret (c1 - c2)
  else mret 0.

Definition strncasecmp (s1 s2 n : Z) : M cstate Z :=
  if (s1 =? NULL) || (s2 =? NULL) then _ ← set_errno EFAULT; mret 0
  else if negb (s1 =? s2) then
    loop (fun '(s1, s2, n) =>
            if 0 <? n then
              a ← load8 s1; b ← load8 s2;
              let c1 := upper a in let c2 := upper b in
              if c1 =? c2 then
                if c1 =? 0 then break 0 else continue (s1 + 1, s2 + 1, n - 1)
              else break (c1 - c2)
            else break 0) (s1, s2, n)
  else mret 0.
End NoCase.

(** The functions of locale.library, if a locale for collation is set. *)
Definition strcoll (StrnCmp : option (Z → Z → Z → M cstate Z)) (s1 s2 : Z) : M cstate Z :=
  if (s1 =? NULL) || (s2 =? NULL) then _ ← set_errno EFAULT; mret 0
  else match StrnCmp with
       | Some f => f s1 s2 (-1)
       | None => strcmp s1 s2
       end.

Definition strxfrm (StrConvert : option (Z → Z → Z → M cstate Z)) (dest src len : Z) : M cstate Z :=
  if src =? NULL then _ ← set_errno EFAULT; mret 0
  else match StrConvert with
       | Some f => f src dest len
       | None =>
           if (0 <? len) && negb (dest =? NULL) then
             '(dest, result) ←
               loop (fun '(src, dest, len, result) =>
                       c ← load8 src;
                       if negb (c =? 0) then
                         if 0 <? len then
                           _ ← store8 dest c; continue (src + 1, dest + 1, len - 1, result + 1)
                         else continue (src + 1, dest, len, result + 1)
                       else break (dest, result)) (src, dest, len, 0);
             _ ← store8 dest 0; mret result
           else strlen src
       end.

Definition strnstr (src sub len : Z) : M cstate Z :=
  let max := src + len in
  c ← load8 src;
  if c =? 0 then d ← load8 sub; mret (if d =? 0 then src else NULL)
  else
    loop (fun src =>
            if src <? max then
              m ← strstr_at src sub;
              if (m : bool) then break src else continue (src + 1)
            else break NULL) src.

(** ** strverscmp *)

Definition S_N : Z := 0.
Definition S_I : Z := 3.
Definition S_F : Z := 6.
Definition S_Z : Z := 9.
Definition CMP : Z := 2.
Definition LEN : Z := 3.
Definition next_state : list Z :=
  [S_N; S_I; S_Z;
   S_N; S_I; S_I;
   S_N; S_F; S_F;
   S_N; S_F; S_Z].
Definition result_type : list Z :=
  [CMP; CMP; CMP; CMP; LEN; CMP; CMP; CMP; CMP;
   CMP; -1; -1; 1; LEN; LEN; 1; LEN; LEN;
   CMP; CMP; CMP; CMP; CMP; CMP; CMP; CMP; CMP;
   CMP; 1; 1; -1; CMP; CMP; -1; CMP; CMP].

(** [(c == '0') + (isdigit(c) != 0)] *)
Definition symbol (c : Z) : Z := b2z (c =? 48) + b2z (negb (isdigit c =? 0)).

Definition strverscmp (s1 s2 : Z) : M cstate Z :=
  if s1 =? s2 then mret 0
  else
    c1 ← load8 s1; c2 ← load8 s2;
    '(p1, p2, c1, c2, state) ⇐
      loop (fun '(p1, p2, c1, c2, state) =>
              if c1 - c2 =? 0 then
                if c1 =? 0 then break (inl (c1 - c2))
                else
                  let state := nthZ next_state state in
                  c1 ← load8 p1; c2 ← load8 p2;
                  continue (p1 + 1, p2 + 1, c1, c2, state + symbol c1)
              else break (inr (p1, p2, c1, c2, state)))
           (s1 + 1, s2 + 1, c1, c2, S_N + symbol c1);
    let diff := c1 - c2 in
    let state := nthZ result_type (state * 3 + symbol c2) in
    if state =? CMP then mret diff
    else if state =? LEN then
      p2 ⇐
        loop (fun '(p1, p2) =>
                a ← load8 p1;
                if negb (isdigit a =? 0) then
                  b ← load8 p2;
                  if isdigit b =? 0 then break (inl 1) else continue (p1 + 1, p2 + 1)
                else break (inr p2)) (p1, p2);
      b ← load8 p2;
      mret (if negb (isdigit b =? 0) then -1 else diff)
    else mret state.

(** ** The first difference *)

Lemma nthZ_fmap f (l : list Z) i : 0 <= i < lenZ l → nthZ (f <$> l) i = f (nthZ l i).
Proof. intros Hi. pose proof (nthZ_lookup l i Hi) as Hl. unfold nthZ at 1. by rewrite list_lookup_total_alt, list_lookup_fmap, Hl. Qed.
Lemma lenZ_fmap (f : Z → Z) l : lenZ (f <$> l) = lenZ l.
Proof. unfold lenZ. by rewrite length_fmap. Qed.

Section Difference.
Context (up : Z → Z) (Hup0 : up 0 = 0) (Hup : ∀ b, 0 < b < 256 → up b ≠ 0).
Context (s t : list Z) (Hs : Forall (fun b => 0 < b < 256) s) (Ht : Forall (fun b => 0 < b < 256) t).

(** The characters of a string, its terminator included, and at most [n] of them. *)
Definition chars (s : list Z) : list Z := up <$> s ++ [0].
Definition nchars (n : Z) (s : list Z) : list Z := take (Z.to_nat n) (chars s).

Definition agree (k : Z) : Prop := 0 <= k ∧ k <= lenZ s ∧ k <= lenZ t ∧ ∀ j, 0 <= j < k → up (chr s j) = up (chr t j).

Lemma agree_0 : agree 0.
Proof. pose proof (lenZ_nonneg s). pose proof (lenZ_nonneg t). split_and!; [lia..|]. intros j Hj; lia. Qed.
Lemma nchars_nth n r j : 0 <= j <= lenZ r → j < n → nthZ (nchars n r) j = up (chr r j).
Proof. intros Hj Hn. unfold nchars, chars, chr. rewrite nthZ_take, nthZ_fmap; [done|rewrite lenZ_snoc; lia|lia]. Qed.
Lemma nchars_len n r : 0 <= n → lenZ (nchars n r) = Z.min n (lenZ r + 1).
Proof. intros Hn. unfold nchars, chars, lenZ. rewrite length_take, length_fmap, length_app. simpl. lia. Qed.

Lemma chr_up_zero r k : Forall (fun b => 0 < b < 256) r → 0 <= k <= lenZ r → up (chr r k) = 0 → k = lenZ r.
Proof.
  intros Hr Hk H0. destruct (decide (k = lenZ r)) as [|Hne]; [done|]. pose proof (chr_nonzero r k Hr ltac:(lia)) as Hc. by apply Hup in Hc.
Qed.
Lemma agree_step k : agree k → up (chr s k) = up (chr t k) → up (chr s k) ≠ 0 → agree (k + 1).
Proof.
  intros (A1 & A2 & A3 & A4) He Hne.
  assert (k ≠ lenZ s) by (intros ->; rewrite chr_end in Hne; congruence). assert (k ≠ lenZ t) by (intros ->; rewrite He, chr_end in Hne; congruence).
  split_and!; [lia..|]. intros j Hj. destruct (decide (j = k)) as [->|]; [done|apply A4; lia].
Qed.
Lemma agree_diff n k : agree k → k < n → up (chr s k) ≠ up (chr t k) → lex_diff (nchars n s) (nchars n t) = up (chr s k) - up (chr t k).
Proof.
  intros (A1 & A2 & A3 & A4) Hn Hne. rewrite (lex_diff_found _ _ k).
  - by rewrite !nchars_nth by lia.
  - rewrite nchars_len; lia.
  - rewrite nchars_len; lia.
  - intros j Hj. rewrite !nchars_nth by lia. by apply A4.
  - by rewrite !nchars_nth by lia.
Qed.
Lemma agree_all n k : agree k → 0 <= n → (k = n ∨ up (chr s k) = 0 ∧ up (chr t k) = 0) → lex_diff (nchars n s) (nchars n t) = 0.
Proof.
  intros (A1 & A2 & A3 & A4) Hn Hk.
  assert (k = n ∨ k = lenZ s ∧ k = lenZ t) as Hk'. { destruct Hk as [|[H1 H2]]; [by left|right]. split; by apply chr_up_zero. }
  apply lex_diff_equal; [rewrite !nchars_len; lia|]. intros j Hj. rewrite nchars_len in Hj by done. rewrite !nchars_nth by lia.
  destruct (Z.lt_ge_cases j k); [apply A4; lia|]. replace j with (lenZ s) by lia. rewrite chr_end. replace (lenZ s) with (lenZ t) by lia. by rewrite chr_end.
Qed.
Lemma nchars_all n r : lenZ r < n → nchars n r = chars r.
Proof. intros Hn. unfold nchars, chars, lenZ in *. apply take_ge. rewrite length_fmap, length_app. simpl. lia. Qed.
End Difference.

(** Two strings at the same address are the same. *)
Lemma cstr_unique m p s t : cstr m p s → cstr m p t → s = t.
Proof.
  intros Hs Ht. assert (lenZ s = lenZ t) as Hl.
  { pose proof (lenZ_nonneg s). pose proof (lenZ_nonneg t). destruct (Z.lt_trichotomy (lenZ s) (lenZ t)) as [Hlt|[|Hlt]]; [exfalso|done|exfalso].
    - pose proof (cstr_chr _ _ _ (lenZ s) Hs ltac:(lia)) as H1. rewrite (cstr_chr _ _ _ (lenZ s) Ht) in H1 by lia. rewrite chr_end in H1.
      pose proof (chr_nonzero t (lenZ s) (proj2 Ht) ltac:(lia)). simplify_eq. lia.
    - pose proof (cstr_chr _ _ _ (lenZ t) Ht ltac:(lia)) as H1. rewrite (cstr_chr _ _ _ (lenZ t) Hs) in H1 by lia. rewrite chr_end in H1.
      pose proof (chr_nonzero s (lenZ t) (proj2 Hs) ltac:(lia)). simplify_eq. lia. }
  apply list_eq_nthZ; [done|]. intros i Hi. pose proof (cstr_chr _ _ _ i Hs ltac:(lia)) as H1. rewrite (cstr_chr _ _ _ i Ht) in H1 by lia.
  rewrite !chr_nthZ in H1 by lia. by simplify_eq.
Qed.

(** ** The comparison functions *)

Definition same_char (b : Z) : Z := b.
Definition upper_ok (up : Z → Z) : Prop := up 0 = 0 ∧ ∀ b, 0 < b < 256 → up b ≠ 0.
Lemma same_char_ok : upper_ok same_char.
Proof. split; [done|]. intros b Hb. unfold same_char. lia. Qed.

(** The order of strings: the first difference of their characters. *)
Definition str_diff (up : Z → Z) (s t : list Z) : Z := lex_diff (chars up s) (chars up t).
Definition strn_diff (up : Z → Z) (n : Z) (s t : list Z) : Z := lex_diff (nchars up n s) (nchars up n t).
Lemma strn_diff_all up s t : strn_diff up (lenZ s + lenZ t + 1) s t = str_diff up s t.
Proof. pose proof (lenZ_nonneg s). pose proof (lenZ_nonneg t). unfold strn_diff, str_diff. by rewrite !nchars_all by lia. Qed.

Section Compare.
Context (up : Z → Z) (Hup : upper_ok up) (σ : cstate) (p q : Z) (s t : list Z).
Context (Hs : cstr (mem σ) p s) (Ht : cstr (mem σ) q t) (Hls : lenZ s < 4294967296) (Hlt : lenZ t < 4294967296).

Lemma same_place n : p = q → strn_diff up n s t = 0.
Proof. intros ->. unfold strn_diff. rewrite (cstr_unique _ _ _ _ Hs Ht). apply lex_diff_refl. Qed.
Lemma found_diff n k : agree up s t k → k < n → up (chr s k) ≠ up (chr t k) → strn_diff up n s t = up (chr s k) - up (chr t k).
Proof. intros Hk Hn Hne. by apply (agree_diff up s t n k). Qed.
Lemma found_end n k : agree up s t k → 0 <= n → k = n ∨ (up (chr s k) = up (chr t k) ∧ up (chr s k) = 0) → strn_diff up n s t = 0.
Proof.
  intros Hk Hn He. destruct Hup as [H1 H2]. apply (agree_all up H2 s t (proj2 Hs) (proj2 Ht) n k); [done|done|]. destruct He as [|[E1 E2]]; [by left|right]. by rewrite <- E1.
Qed.
Lemma next_agree k : agree up s t k → up (chr s k) = up (chr t k) → up (chr s k) ≠ 0 → agree up s t (k + 1).
Proof. intros. destruct Hup. by apply agree_step. Qed.

(** Reading the next two characters. *)
Lemma wp_two_chars {B} k (f : Z → Z → M cstate B) Q : agree up s t k → wp (f (chr s k) (chr t k)) Q σ → wp (a ← load8 (p + k); b ← load8 (q + k); f a b) Q σ.
Proof.
  intros (A1 & A2 & A3 & _) Hf. wp_step. apply (wp_load_chr _ _ s); [done|lia|]. wp_step. by apply (wp_load_chr _ _ t); [done|lia|].
Qed.

(** The loop without a bound, which stops at a difference or at the end. *)
Lemma compare_loop {R} (res : Z → Z → Z → Z → R) Q :
  (∀ k, agree up s t k → up (chr s k) - up (chr t k) = str_diff up s t → Q (res (p + k) (q + k) (chr s k) (chr t k)) σ) →
  wp (loop (fun '(s1, s2) =>
              a ← load8 s1; b ← load8 s2;
              if up a =? up b then
                if up a =? 0 then break (res s1 s2 a b) else continue (s1 + 1, s2 + 1)
              else break (res s1 s2 a b)) (p, q)) Q σ.
Proof.
  intros HQ. pose proof (lenZ_nonneg s). pose proof (lenZ_nonneg t). rewrite <- strn_diff_all in HQ.
  apply (wp_loop _ (fun '(a, b) τ => τ = σ ∧ ∃ k, a = p + k ∧ b = q + k ∧ agree up s t k) _ (fun '(a, b) => p + lenZ s - a)).
  - intros [a b] τ (-> & k & -> & -> & Hk). pose proof Hk as (A1 & A2 & A3 & A4). apply wp_two_chars; [done|].
    destruct (up (chr s k) =? up (chr t k)) eqn:Ec; b2p; [destruct (up (chr s k) =? 0) eqn:Ez; b2p|]; wp_step.
    + apply HQ; [done|]. rewrite (found_end _ k) by (lia || naive_solver). lia.
    + split; [|lia]. split; [done|]. exists (k + 1). split_and!; [lia|lia|by apply next_agree].
    + apply HQ; [done|]. by rewrite (found_diff _ k) by (done || lia).
  - split; [done|]. exists 0. split_and!; [lia|lia|apply agree_0].
  - intros [a b] τ (_ & k & -> & -> & (? & ? & _)). lia.
  - lia.
Qed.
(** The loop with a bound. *)
Lemma compare_n_loop n : 0 <= n < 4294967296 →
  wp (loop (fun '(s1, s2, n) =>
              if 0 <? n then
                a ← load8 s1; b ← load8 s2;
                if up a =? up b then
                  if up a =? 0 then break 0 else continue (s1 + 1, s2 + 1, n - 1)
                else break (up a - up b)
              else break 0) (p, q, n)) (fun r τ => r = strn_diff up n s t ∧ τ = σ) σ.
Proof.
  intros Hn. apply (wp_loop _ (fun '(a, b, m) τ => τ = σ ∧ ∃ k, a = p + k ∧ b = q + k ∧ k + m = n ∧ 0 <= m ∧ agree up s t k) _ (fun '(a, b, m) => m)).
  - intros [[a b] m] τ (-> & k & -> & -> & Hm & Hm0 & Hk). pose proof Hk as (A1 & A2 & A3 & A4). destruct (0 <? m) eqn:E; b2p.
    2:{ wp_step. by rewrite (found_end _ k) by (lia || done). }
    apply wp_two_chars; [done|]. destruct (up (chr s k) =? up (chr t k)) eqn:Ec; b2p; [destruct (up (chr s k) =? 0) eqn:Ez; b2p|]; wp_step.
    + by rewrite (found_end _ k) by (lia || naive_solver).
    + split; [|lia]. split; [done|]. exists (k + 1). split_and!; [lia|lia|lia|lia|by apply next_agree].
    + by rewrite (found_diff _ k) by (done || lia).
  - split; [done|]. exists 0. split_and!; [lia|lia|lia|lia|apply agree_0].
  - intros [[a b] m] τ (_ & k & _ & _ & _ & ? & _). done.
  - lia.
Qed.
End Compare.

Lemma upper_upper_ok mb towchar : (∀ c w, 128 <= c < 256 → towchar c = Some w → u8 w ≠ 0) → upper_ok (upper mb towchar).
Proof.
  intros Htow. split; [reflexivity|]. intros b Hb. unfold upper, toupper. rewrite (u8_small b) by (unfold is_byte; lia).
  rewrite islower_spec by lia. unfold c_lower, between. destruct (b <=? 0x7f) eqn:E; b2p.
  - destruct (_ && _)%bool eqn:El; b2p; rewrite u8_small by (unfold is_byte; lia); lia.
  - destruct (_ && _ && _)%bool eqn:El; [|rewrite u8_small by (unfold is_byte; lia); lia].
    destruct (towchar b) as [w|] eqn:Ew; [|rewrite u8_small by (unfold is_byte; lia); lia]. unfold u8 at 1. rewrite Z.mod_small; [by apply (Htow b w); [lia|]|].
    apply Z.mod_pos_bound. lia.
Qed.

Lemma not_null p q : p ≠ NULL → q ≠ NULL → ((p =? NULL) || (q =? NULL))%bool = false.
Proof. intros. apply orb_false_iff. by rewrite !Z.eqb_neq. Qed.
Lemma strcmp_spec σ p q s t :
  cstr (mem σ) p s → cstr (mem σ) q t → lenZ s < 4294967296 → lenZ t < 4294967296 → strcmp p q σ = Ok (str_diff same_char s t, σ).
Proof.
  intros Hs Ht Hls Hlt. apply wp_eq. unfold strcmp, __strcmp. destruct (negb (p =? q)) eqn:E; b2p.
  2:{ wp_step. rewrite <- strn_diff_all. by rewrite (same_place same_char σ p q s t Hs Ht). }
  wp_step. eapply (compare_loop same_char same_char_ok σ p q s t Hs Ht Hls (fun s1 s2 _ _ => (s1, s2))). intros k Hk Hd.
  apply (wp_two_chars same_char σ p q s t); [done..|]. wp_step. done.
Qed.

(** The comparison functions return the difference of the first two characters
    that differ, as [unsigned char]; [strcasecmp] and [strncasecmp] of the characters
    in upper case; [strncmp] and [strncasecmp] look at [n] characters at most.
    [strcoll] without a locale is [strcmp]. *)
Theorem comparisons_correct mb towchar σ p q s t n :
  cstr (mem σ) p s → cstr (mem σ) q t → lenZ s < 4294967296 → lenZ t < 4294967296 → p ≠ NULL → q ≠ NULL →
  (∀ c w, 128 <= c < 256 → towchar c = Some w → u8 w ≠ 0) → 0 <= n < 4294967296 →
  strcmp p q σ = Ok (str_diff same_char s t, σ) ∧
  strcoll None p q σ = Ok (str_diff same_char s t, σ) ∧
  strcasecmp mb towchar p q σ = Ok (str_diff (upper mb towchar) s t, σ) ∧
  strncasecmp mb towchar p q n σ = Ok (strn_diff (upper mb towchar) n s t, σ) ∧
  strncmp p q n σ = Ok (if n <? 2147483648 then strn_diff same_char n s t else 0, σ).
Proof.
  intros Hs Ht Hls Hlt Hp Hq Htow Hn. pose proof (upper_upper_ok mb towchar Htow) as Hup. split_and!.
  - by apply strcmp_spec.
  - unfold strcoll. rewrite not_null by done. by apply strcmp_spec.
  - apply wp_eq. unfold strcasecmp. rewrite not_null by done. destruct (negb (p =? q)) eqn:E; b2p.
    2:{ wp_step. rewrite <- strn_diff_all. by rewrite (same_place (upper mb towchar) σ p q s t Hs Ht). }
    wp_step. apply (compare_loop (upper mb towchar) Hup σ p q s t Hs Ht Hls (fun _ _ a b => (upper mb towchar a, upper mb towchar b))).
    intros k Hk Hd. wp_step. done.
  - apply wp_eq. unfold strncasecmp. rewrite not_null by done. destruct (negb (p =? q)) eqn:E; b2p; [by apply compare_n_loop|].
    wp_step. by rewrite (same_place (upper mb towchar) σ p q s t Hs Ht).
  - apply wp_eq. unfold strncmp. rewrite not_null by done. destruct (negb (p =? q)) eqn:E; b2p; simpl.
    2:{ wp_step. rewrite (same_place same_char σ p q s t Hs Ht) by done. by destruct (_ <? _). }
    assert ((0 <? s32 n) = (0 <? n) && (n <? 2147483648)) as -> by (unfold s32; apply eq_true_iff_eq; rewrite andb_true_iff, !Z.ltb_lt; dlia).
    destruct (0 <? n) eqn:E0; b2p; simpl; [|wp_step; replace n with 0 by lia; done].
    destruct (n <? 2147483648); [|by wp_step]. by apply (compare_n_loop same_char same_char_ok σ p q s t).
Qed.

(** ** strverscmp: what it computes *)

Lemma isdigit_spec c : -1 <= c < 256 → negb (isdigit c =? 0) = c_digit c.
Proof. intros Hc. apply (class_of c); [done|]. unfold class_spec. do 2 right. left. Qed.

(** The number of digits at the start of a string. *)
Definition digit_run (s : list Z) : Z := default (lenZ s) (find_index (fun b => negb (c_digit b)) s).
Lemma digit_run_step s i : Forall (fun b => 0 < b < 256) s → 0 <= i <= lenZ s → i <= digit_run s →
  if c_digit (chr s i) then i < digit_run s ∧ i < lenZ s else digit_run s = i.
Proof.
  intros Hs Hi. unfold digit_run. destruct (find_index _ s) as [n|] eqn:E; simpl; intros Hn.
  - apply find_index_Some_1 in E as (E1 & E2 & E3). apply negb_true_iff in E2. rewrite chr_nthZ by lia. destruct (c_digit (nthZ s i)) eqn:Ed.
    + split; [|lia]. destruct (decide (i = n)) as [->|]; [congruence|lia].
    + destruct (decide (i = n)) as [->|]; [done|]. specialize (E3 i ltac:(lia)). apply negb_false_iff in E3. congruence.
  - destruct (decide (i = lenZ s)) as [->|]; [by rewrite chr_end|]. rewrite chr_nthZ by lia.
    apply (find_index_None_1 _ _ i) in E; [|lia]. apply negb_false_iff in E. rewrite E. lia.
Qed.
Lemma digit_run_nonneg s : 0 <= digit_run s.
Proof.
  unfold digit_run. destruct (find_index _ s) as [n|] eqn:E; simpl; [|apply lenZ_nonneg]. apply find_index_Some_1 in E. lia.
Qed.
Lemma chr_drop s i j : 0 <= i <= lenZ s → 0 <= j → i + j <= lenZ s → chr (drop (Z.to_nat i) s) j = chr s (i + j).
Proof.
  intros Hi Hj Hij. unfold chr. rewrite <- (drop_app_le s [0]) by (unfold lenZ in Hi; lia). by rewrite nthZ_drop by lia.
Qed.

(** The state after the common characters, and the result at the first difference. *)
Definition vers_state (s : list Z) : Z := foldl (fun st c => nthZ next_state (st + symbol c)) S_N s.
Definition vers_diff (st c1 c2 n1 n2 : Z) : Z :=
  let r := nthZ result_type ((st + symbol c1) * 3 + symbol c2) in
  if r =? CMP then c1 - c2
  else if r =? LEN then if n2 <? n1 then 1 else if n1 <? n2 then -1 else c1 - c2
  else r.
Definition vers_result (s t : list Z) (r : Z) : Prop :=
  (s = t ∧ r = 0) ∨
  ∃ k, agree same_char s t k ∧ chr s k ≠ chr t k ∧
    r = vers_diff (vers_state (take (Z.to_nat k) s)) (chr s k) (chr t k) (digit_run (drop (Z.to_nat (k + 1)) s)) (digit_run (drop (Z.to_nat (k + 1)) t)).

Lemma vers_state_range s : vers_state s ∈ [S_N; S_I; S_F; S_Z].
Proof.
  unfold vers_state. cut (∀ st, st ∈ [S_N; S_I; S_F; S_Z] → foldl (fun st c => nthZ next_state (st + symbol c)) st s ∈ [S_N; S_I; S_F; S_Z]); [intros H; apply H; set_solver|].
  induction s as [|c s IH]; intros st Hst; [done|]. simpl. apply IH.
  assert (symbol c ∈ [0; 1; 2]) as Hsym by (unfold symbol, b2z; destruct (c =? 48), (negb (isdigit c =? 0)); set_solver).
  set_unfold in Hst. set_unfold in Hsym. destruct Hst as [->|[->|[->|[->|[]]]]]; destruct Hsym as [->|[->|[->|[]]]]; vm_compute; repeat constructor.
Qed.
(** Lengths are compared only between two digits. *)
Lemma len_digits st c1 c2 : st ∈ [S_N; S_I; S_F; S_Z] → 0 <= c1 < 256 → 0 <= c2 < 256 →
  nthZ result_type ((st + symbol c1) * 3 + symbol c2) = LEN → c_digit c1 = true ∧ c_digit c2 = true.
Proof.
  intros Hst H1 H2. assert (∀ c, 0 <= c < 256 → symbol c = b2z (c =? 48) + b2z (c_digit c)) as Hsym by (intros c Hc; unfold symbol; by rewrite isdigit_spec by lia).
  rewrite !Hsym by done. set_unfold in Hst.
  destruct (c_digit c1) eqn:D1, (c_digit c2) eqn:D2; [done|..]; unfold c_digit, between in D1, D2;
    try (rewrite (proj2 (Z.eqb_neq c1 48)) by (intros ->; done)); try (rewrite (proj2 (Z.eqb_neq c2 48)) by (intros ->; done));
    destruct Hst as [->|[->|[->|[->|[]]]]]; try destruct (c1 =? 48); try destruct (c2 =? 48); vm_compute; intros; congruence.
Qed.

Section Vers.
Context (σ : cstate) (p q : Z) (s t : list Z).
Context (Hs : cstr (mem σ) p s) (Ht : cstr (mem σ) q t) (Hls : lenZ s < 4294967296) (Hlt : lenZ t < 4294967296).

(** The loop that compares the lengths of two numbers, from [i] and [j] on. *)
Lemma len_loop_spec i j diff : 0 <= i <= lenZ s → 0 <= j <= lenZ t →
  wp (p2 ⇐
        loop (fun '(p1, p2) =>
                a ← load8 p1;
                if negb (isdigit a =? 0) then
                  b ← load8 p2;
                  if isdigit b =? 0 then break (inl 1) else continue (p1 + 1, p2 + 1)
                else break (inr p2)) (p + i, q + j);
      b ← load8 p2;
      mret (if negb (isdigit b =? 0) then -1 else diff))
     (fun r τ => r = (let n1 := digit_run (drop (Z.to_nat i) s) in let n2 := digit_run (drop (Z.to_nat j) t) in
                      if n2 <? n1 then 1 else if n1 <? n2 then -1 else diff) ∧ τ = σ) σ.
Proof.
  intros Hi Hj. cbv zeta. set (n1 := digit_run (drop (Z.to_nat i) s)). set (n2 := digit_run (drop (Z.to_nat j) t)).
  pose proof (lenZ_drop s i ltac:(lia)) as Ld1. pose proof (lenZ_drop t j ltac:(lia)) as Ld2.
  assert (∀ m, 0 <= m → i + m <= lenZ s → m <= n1 → if c_digit (chr s (i + m)) then m < n1 ∧ i + m < lenZ s else n1 = m) as D1.
  { intros m M1 M2 M3. pose proof (digit_run_step (drop (Z.to_nat i) s) m (Forall_drop _ _ _ (proj2 Hs)) ltac:(lia) M3) as D.
    rewrite chr_drop in D by lia. fold n1 in D. destruct (c_digit _); lia. }
  assert (∀ m, 0 <= m → j + m <= lenZ t → m <= n2 → if c_digit (chr t (j + m)) then m < n2 ∧ j + m < lenZ t else n2 = m) as D2.
  { intros m M1 M2 M3. pose proof (digit_run_step (drop (Z.to_nat j) t) m (Forall_drop _ _ _ (proj2 Ht)) ltac:(lia) M3) as D.
    rewrite chr_drop in D by lia. fold n2 in D. destruct (c_digit _); lia. }
  pose proof (digit_run_nonneg (drop (Z.to_nat i) s)) as N1. pose proof (digit_run_nonneg (drop (Z.to_nat j) t)) as N2. fold n1 in N1. fold n2 in N2. clearbody n1 n2.
  wp_step. apply (wp_loop _ (fun '(a, b) τ => τ = σ ∧ ∃ m, 0 <= m ∧ a = p + (i + m) ∧ b = q + (j + m) ∧ i + m <= lenZ s ∧ j + m <= lenZ t ∧ m <= n1 ∧ m <= n2)
    _ (fun '(a, b) => p + lenZ s - a)).
  - intros [a b] τ (-> & m & M0 & -> & -> & M1 & M2 & M3 & M4). specialize (D1 m M0 M1 M3). specialize (D2 m M0 M2 M4).
    pose proof (chr_byte s (i + m) (proj2 Hs) ltac:(lia)) as B1. pose proof (chr_byte t (j + m) (proj2 Ht) ltac:(lia)) as B2. unfold is_byte in B1, B2.
    wp_step. apply (wp_load_chr _ _ s); [done|lia|]. rewrite isdigit_spec by lia. destruct (c_digit (chr s (i + m))) eqn:E1.
    + wp_step. apply (wp_load_chr _ _ t); [done|lia|]. pose proof (isdigit_spec (chr t (j + m)) ltac:(lia)) as E2.
      destruct (c_digit (chr t (j + m))); [apply negb_true_iff in E2|apply negb_false_iff in E2]; rewrite E2; wp_step.
      * split; [|lia]. split; [done|]. exists (m + 1). lia.
      * rewrite (proj2 (Z.ltb_lt n2 n1)) by lia. done.
    + wp_step. wp_step. apply (wp_load_chr _ _ t); [done|lia|]. rewrite isdigit_spec by lia. wp_step. split; [|done].
      rewrite (proj2 (Z.ltb_ge n2 n1)) by (destruct (c_digit (chr t (j + m))); lia).
      destruct (c_digit (chr t (j + m))); [by rewrite (proj2 (Z.ltb_lt n1 n2)) by lia|by rewrite (proj2 (Z.ltb_ge n1 n2)) by lia].
  - split; [done|]. exists 0. lia.
  - intros [a b] τ (_ & m & _ & -> & _ & ? & _). lia.
  - lia.
Qed.

Lemma strverscmp_spec : wp (strverscmp p q) (fun r τ => vers_result s t r ∧ τ = σ) σ.
Proof.
  pose proof (lenZ_nonneg s). pose proof (lenZ_nonneg t). unfold strverscmp. destruct (p =? q) eqn:E; b2p.
  { wp_step. split; [|done]. left. split; [|done]. subst q. by eapply cstr_unique. }
  wp_step. rewrite <- (Z.add_0_r p) at 1. apply (wp_load_chr _ _ s); [done|lia|]. wp_step. rewrite <- (Z.add_0_r q) at 1. apply (wp_load_chr _ _ t); [done|lia|]. wp_step.
  apply (wp_loop _ (fun '(p1, p2, c1, c2, st) τ => τ = σ ∧ ∃ k, p1 = p + (k + 1) ∧ p2 = q + (k + 1) ∧ c1 = chr s k ∧ c2 = chr t k ∧
    st = vers_state (take (Z.to_nat k) s) + symbol c1 ∧ agree same_char s t k) _ (fun '(p1, p2, c1, c2, st) => p + lenZ s + 1 - p1)).
  - intros [[[[p1 p2] c1] c2] st] τ (-> & k & -> & -> & -> & -> & -> & Hk). pose proof Hk as (A1 & A2 & A3 & A4).
    pose proof (chr_byte s k (proj2 Hs) ltac:(lia)) as B1. pose proof (chr_byte t k (proj2 Ht) ltac:(lia)) as B2.
    destruct (chr s k - chr t k =? 0) eqn:Ed; b2p; [destruct (chr s k =? 0) eqn:Ez; b2p|].
    + wp_step. split; [|done]. left. split; [|lia].
      assert (k = lenZ s) as Ek by (apply chr_zero; [apply Hs|lia|done]). assert (k = lenZ t) as Ek' by (apply chr_zero; [apply Ht|lia|lia]).
      apply list_eq_nthZ; [lia|]. intros j Hj. rewrite <- !chr_nthZ by lia. apply A4. lia.
    + assert (agree same_char s t (k + 1)) as Hk' by (apply agree_step; [done|done|unfold same_char; lia|done]). pose proof Hk' as (_ & A2' & A3' & _). cbv zeta.
      wp_step. apply (wp_load_chr _ _ s); [done|lia|]. wp_step. apply (wp_load_chr _ _ t); [done|lia|]. wp_step. split; [|lia]. split; [done|].
      exists (k + 1). split_and!; [lia|lia|done|done| |done]. f_equal. rewrite take_snoc_nthZ by lia. unfold vers_state at 2. rewrite foldl_app. simpl.
      by rewrite chr_nthZ by lia.
    + wp_step. cbv zeta.
      assert (∀ r, r = vers_diff (vers_state (take (Z.to_nat k) s)) (chr s k) (chr t k) (digit_run (drop (Z.to_nat (k + 1)) s)) (digit_run (drop (Z.to_nat (k + 1)) t)) →
        vers_result s t r) as Hres by (intros r ->; right; exists k; split_and!; [done|lia|done]).
      unfold vers_diff in Hres. cbv zeta in Hres. pose proof (len_digits _ _ _ (vers_state_range (take (Z.to_nat k) s)) B1 B2) as Hlen.
      set (r := nthZ result_type _) in *. destruct (r =? CMP) eqn:Ec; [wp_step; split; [by apply Hres|done]|].
      destruct (r =? LEN) eqn:El; b2p; [|wp_step; split; [by apply Hres|done]]. destruct (Hlen El) as [D1 D2].
      assert (k ≠ lenZ s) by (intros ->; by rewrite chr_end in D1). assert (k ≠ lenZ t) by (intros ->; by rewrite chr_end in D2).
      eapply wp_mono; [apply len_loop_spec; lia|]. cbn beta. intros r' τ [-> ->]. split; [by apply Hres|done].
  - split; [done|]. exists 0. rewrite !Z.add_0_l. split_and!; [done|done|done|done|done|apply agree_0].
  - intros [[[[p1 p2] c1] c2] st] τ (_ & k & -> & _ & _ & _ & _ & (? & ? & _)). lia.
  - lia.
Qed.
End Vers.

(** ** strverscmp: the order of numbers *)

Lemma symbol_spec c : 0 <= c < 256 → symbol c = if c =? 48 then 2 else if c_digit c then 1 else 0.
Proof.
  intros Hc. unfold symbol. rewrite isdigit_spec by lia. destruct (c =? 48) eqn:E; b2p; [by subst c|]. by destruct (c_digit c).
Qed.
Lemma symbol_range c : symbol c ∈ [0; 1; 2].
Proof. unfold symbol, b2z. destruct (c =? 48), (negb (isdigit c =? 0)); set_solver. Qed.
Lemma first_diff_unique s t k k' : agree same_char s t k → agree same_char t s k' → chr s k ≠ chr t k → chr t k' ≠ chr s k' → k = k'.
Proof.
  intros (A1 & _ & _ & A4) (B1 & _ & _ & B4) H1 H2. unfold same_char in *. destruct (Z.lt_trichotomy k k') as [Hlt|[|Hlt]]; [|done|].
  - exfalso. apply H1. symmetry. apply B4. lia.
  - exfalso. apply H2. symmetry. apply A4. lia.
Qed.
Lemma agree_take s t k : agree same_char s t k → take (Z.to_nat k) s = take (Z.to_nat k) t.
Proof.
  intros (A1 & A2 & A3 & A4). unfold same_char in A4. apply list_eq_nthZ; [by rewrite !lenZ_take by lia|]. rewrite lenZ_take by lia. intros j Hj.
  rewrite !nthZ_take by lia. rewrite <- !chr_nthZ by lia. by apply A4.
Qed.
Lemma vers_diff_anti st c1 c2 n1 n2 : st ∈ [S_N; S_I; S_F; S_Z] → Z.sgn (vers_diff st c2 c1 n2 n1) = - Z.sgn (vers_diff st c1 c2 n1 n2).
Proof.
  intros Hst. pose proof (symbol_range c1) as H1. pose proof (symbol_range c2) as H2. unfold vers_diff. set_unfold in Hst. set_unfold in H1. set_unfold in H2.
  destruct Hst as [->|[->|[->|[->|[]]]]]; destruct H1 as [->|[->|[->|[]]]]; destruct H2 as [->|[->|[->|[]]]];
    unfold CMP, LEN; cbn -[Z.sgn Z.sub Z.ltb Z.opp];
    repeat match goal with |- context [nthZ result_type ?e] => let v := eval vm_compute in (nthZ result_type e) in change (nthZ result_type e) with v end;
    cbn -[Z.sgn Z.sub Z.ltb Z.opp]; try lia; destruct (n2 <? n1) eqn:E1, (n1 <? n2) eqn:E2; b2p; lia.
Qed.
Lemma vers_result_anti s t r r' : vers_result s t r → vers_result t s r' → Z.sgn r' = - Z.sgn r.
Proof.
  intros [[-> ->]|(k & Hk & Hne & ->)] [[E ->]|(k' & Hk' & Hne' & ->)]; [done|done|subst; done|].
  pose proof (first_diff_unique s t k k' Hk Hk' Hne Hne') as <-. rewrite <- (agree_take s t k Hk). apply vers_diff_anti, vers_state_range.
Qed.

(** The value of a row of digits. *)
Definition num (ds : list Z) : Z := foldl (fun n c => n * 10 + (c - 48)) 0 ds.
(** The digits of a number, without a leading zero. *)
Definition numeral (ds : list Z) : Prop := 0 < lenZ ds ∧ Forall (fun c => c_digit c = true) ds ∧ (1 < lenZ ds → nthZ ds 0 ≠ 48).
Definition no_digit_first (s : list Z) : Prop := c_digit (chr s 0) = false.
Definition no_digit_last (s : list Z) : Prop := s = [] ∨ ∃ s' c, s = s' ++ [c] ∧ c_digit c = false.

Lemma num_snoc a c : num (a ++ [c]) = num a * 10 + (c - 48).
Proof. unfold num. by rewrite foldl_app. Qed.
Lemma num_app a b : num (a ++ b) = num a * 10 ^ lenZ b + num b.
Proof.
  induction b as [|c b IH] using rev_ind; [rewrite app_nil_r; change (lenZ []) with 0; change (num []) with 0; lia|].
  rewrite app_assoc, !num_snoc, IH, lenZ_snoc, Z.pow_add_r, Z.pow_1_r by (pose proof (lenZ_nonneg b); lia). lia.
Qed.
Lemma num_bound ds : Forall (fun c => c_digit c = true) ds → 0 <= num ds < 10 ^ lenZ ds.
Proof.
  induction ds as [|c ds IH] using rev_ind; intros Hd; [by change (num []) with 0; change (lenZ []) with 0|]. apply Forall_app in Hd as [H1 H2]. rewrite Forall_singleton in H2.
  specialize (IH H1). rewrite num_snoc, lenZ_snoc, Z.pow_add_r, Z.pow_1_r by (pose proof (lenZ_nonneg ds); lia). unfold c_digit, between in H2. b2p. lia.
Qed.
Lemma num_cons c ds : num (c :: ds) = (c - 48) * 10 ^ lenZ ds + num ds.
Proof. change (c :: ds) with ([c] ++ ds). rewrite num_app. done. Qed.
(** More digits make a greater number; else the first difference decides. *)
Lemma num_longer a b : numeral a → numeral b → lenZ a < lenZ b → num a < num b.
Proof.
  intros (A1 & A2 & _) (B1 & B2 & B3) Hl. destruct b as [|c b]; [done|]. rewrite lenZ_cons in *. specialize (B3 ltac:(lia)). rewrite nthZ_cons_0 in B3.
  pose proof (Forall_inv B2) as Bc. apply Forall_inv_tail in B2. pose proof (num_bound a A2). pose proof (num_bound b B2). rewrite num_cons. unfold c_digit, between in Bc. b2p.
  assert (10 ^ lenZ a <= 10 ^ lenZ b) by (apply Z.pow_le_mono_r; lia). nia.
Qed.
Lemma num_split ds m : 0 <= m < lenZ ds → ds = take (Z.to_nat m) ds ++ nthZ ds m :: drop (Z.to_nat (m + 1)) ds.
Proof. intros Hm. rewrite <- (take_drop (Z.to_nat m) ds) at 1. by rewrite drop_nthZ by lia. Qed.
Lemma num_first_diff a b m : Forall (fun c => c_digit c = true) a → Forall (fun c => c_digit c = true) b → lenZ a = lenZ b → 0 <= m < lenZ a →
  take (Z.to_nat m) a = take (Z.to_nat m) b → nthZ a m < nthZ b m → num a < num b.
Proof.
  intros Ha Hb Hl Hm Ht Hlt. rewrite (num_split a m), (num_split b m) by lia. rewrite !num_app, !num_cons, !lenZ_cons, Ht.
  rewrite !lenZ_drop by lia. rewrite <- Hl. pose proof (num_bound _ (Forall_drop _ (Z.to_nat (m + 1)) _ Ha)) as H1. pose proof (num_bound _ (Forall_drop _ (Z.to_nat (m + 1)) _ Hb)) as H2.
  rewrite lenZ_drop in H1, H2 by lia. rewrite <- Hl in H2. nia.
Qed.
Lemma num_order a b m : numeral a → numeral b → lenZ a = lenZ b → 0 <= m < lenZ a → take (Z.to_nat m) a = take (Z.to_nat m) b → nthZ a m ≠ nthZ b m →
  Z.sgn (num a - num b) = Z.sgn (nthZ a m - nthZ b m).
Proof.
  intros (_ & Ha & _) (_ & Hb & _) Hl Hm Ht Hne. destruct (Z.lt_ge_cases (nthZ a m) (nthZ b m)) as [Hlt|Hge].
  - pose proof (num_first_diff a b m Ha Hb Hl Hm Ht Hlt). lia.
  - pose proof (num_first_diff b a m Hb Ha ltac:(lia) ltac:(lia) (eq_sym Ht) ltac:(lia)). lia.
Qed.

(** The result at the first difference, for digits. *)
Definition len_diff (c1 c2 n1 n2 : Z) : Z := if n2 <? n1 then 1 else if n1 <? n2 then -1 else c1 - c2.
Lemma digit_range c : c_digit c = true → 48 <= c <= 57.
Proof. unfold c_digit, between. intros. b2p. lia. Qed.
Lemma digit_symbol c : c_digit c = true → symbol c = if c =? 48 then 2 else 1.
Proof. intros Hc. pose proof (digit_range c Hc). rewrite symbol_spec, Hc by lia. done. Qed.
Lemma nondigit_symbol c : 0 <= c < 256 → c_digit c = false → symbol c = 0.
Proof. intros Hc Hd. rewrite symbol_spec, Hd by lia. destruct (c =? 48) eqn:E; b2p; [by subst c|done]. Qed.

Lemma vers_diff_first c1 c2 n1 n2 : c_digit c1 = true → c_digit c2 = true →
  vers_diff S_N c1 c2 n1 n2 = if (c1 =? 48) || (c2 =? 48) then c1 - c2 else len_diff c1 c2 n1 n2.
Proof. intros H1 H2. unfold vers_diff. rewrite !digit_symbol by done. by destruct (c1 =? 48), (c2 =? 48). Qed.
Lemma vers_diff_inner c1 c2 n1 n2 : c_digit c1 = true → c_digit c2 = true → vers_diff S_I c1 c2 n1 n2 = len_diff c1 c2 n1 n2.
Proof. intros H1 H2. unfold vers_diff. rewrite !digit_symbol by done. by destruct (c1 =? 48), (c2 =? 48). Qed.
Lemma vers_diff_short c1 c2 n1 n2 : 0 <= c1 < 256 → c_digit c1 = false → c_digit c2 = true → vers_diff S_I c1 c2 n1 n2 = -1.
Proof. intros H0 H1 H2. unfold vers_diff. rewrite (nondigit_symbol c1), digit_symbol by done. by destruct (c2 =? 48). Qed.
Lemma vers_diff_long c1 c2 n1 n2 : 0 <= c2 < 256 → c_digit c2 = false → c_digit c1 = true → vers_diff S_I c1 c2 n1 n2 = 1.
Proof. intros H0 H1 H2. unfold vers_diff. rewrite (nondigit_symbol c2), digit_symbol by done. by destruct (c1 =? 48). Qed.

Lemma vers_state_snoc s c : vers_state (s ++ [c]) = nthZ next_state (vers_state s + symbol c).
Proof. unfold vers_state. by rewrite foldl_app. Qed.
Lemma vers_state_word pre : Forall (fun b => 0 < b < 256) pre → no_digit_last pre → vers_state pre = S_N.
Proof.
  intros Hp [->|(s & c & -> & Hc)]; [done|]. apply Forall_app in Hp as [_ Hp]. apply Forall_inv in Hp. rewrite vers_state_snoc, nondigit_symbol by (done || lia).
  pose proof (vers_state_range s) as Hst. set_unfold in Hst. by destruct Hst as [->|[->|[->|[->|[]]]]].
Qed.
Lemma vers_state_number pre a m : vers_state pre = S_N → Forall (fun c => c_digit c = true) a → 1 <= m <= lenZ a → nthZ a 0 ≠ 48 →
  vers_state (pre ++ take (Z.to_nat m) a) = S_I.
Proof.
  intros Hp Ha [H1 H2] H0. revert m H1 H2. apply (Zlt_lower_bound_ind (fun m => m <= lenZ a → vers_state (pre ++ take (Z.to_nat m) a) = S_I)).
  intros m IH H1 H2. replace m with (m - 1 + 1) by lia. rewrite take_snoc_nthZ by lia. rewrite app_assoc, vers_state_snoc.
  rewrite digit_symbol by (apply (Forall_nthZ (fun c => c_digit c = true)); [done|lia]). destruct (decide (m = 1)) as [->|].
  - change (1 - 1) with 0. rewrite take_0_Z, app_nil_r, Hp. by rewrite (proj2 (Z.eqb_neq _ _) H0).
  - rewrite IH by lia. by destruct (nthZ a (m - 1) =? 48).
Qed.

Lemma chr_app_l s r j : 0 <= j < lenZ s → chr (s ++ r) j = nthZ s j.
Proof. intros Hj. unfold chr. rewrite <- app_assoc. by rewrite nthZ_app_l. Qed.
Lemma chr_app_r s r j : 0 <= j → chr (s ++ r) (lenZ s + j) = chr r j.
Proof. intros Hj. unfold chr. rewrite <- app_assoc. rewrite nthZ_app_r by lia. f_equal. lia. Qed.
Lemma digit_run_app d w : Forall (fun c => c_digit c = true) d → no_digit_first w → digit_run (d ++ w) = lenZ d.
Proof.
  intros Hd Hw. unfold digit_run. pose proof (lenZ_nonneg d). pose proof (lenZ_nonneg w).
  assert (∀ j, 0 <= j < lenZ d → negb (c_digit (nthZ (d ++ w) j)) = false) as Hj.
  { intros j Hj. rewrite nthZ_app_l by lia. apply negb_false_iff. by apply (Forall_nthZ (fun c => c_digit c = true)). }
  destruct (decide (lenZ w = 0)) as [E|E].
  - rewrite find_index_None_2; [simpl; rewrite lenZ_app; lia|]. rewrite lenZ_app, E. intros j ?. apply Hj. lia.
  - rewrite (find_index_Some_2 _ _ (lenZ d)); [done|rewrite lenZ_app; lia| |done]. rewrite nthZ_app_r, Z.sub_diag by lia.
    unfold no_digit_first in Hw. rewrite chr_nthZ in Hw by lia. by rewrite Hw.
Qed.

Section Numbers.
Context (pre a b u v : list Z).
Context (Hs : Forall (fun c => 0 < c < 256) (pre ++ a ++ u)) (Ht : Forall (fun c => 0 < c < 256) (pre ++ b ++ v)).
Context (Hpre : no_digit_last pre) (Ha : numeral a) (Hb : numeral b) (Hu : no_digit_first u) (Hv : no_digit_first v) (Hne : num a ≠ num b).
#[local] Abbreviation s := (pre ++ a ++ u).
#[local] Abbreviation t := (pre ++ b ++ v).

Lemma number_chr w d r j : 0 <= j < lenZ d → chr (w ++ d ++ r) (lenZ w + j) = nthZ d j.
Proof. intros Hj. rewrite chr_app_r by lia. by rewrite chr_app_l. Qed.
Lemma number_end w d r : chr (w ++ d ++ r) (lenZ w + lenZ d) = chr r 0.
Proof. pose proof (lenZ_nonneg d). rewrite chr_app_r by lia. replace (lenZ d) with (lenZ d + 0) by lia. by rewrite chr_app_r by lia. Qed.
Lemma number_digit w d r j : numeral d → 0 <= j < lenZ d → c_digit (chr (w ++ d ++ r) (lenZ w + j)) = true.
Proof. intros (_ & Hd & _) Hj. rewrite number_chr by done. by apply (Forall_nthZ (fun c => c_digit c = true)). Qed.
Lemma number_rest w d r m : numeral d → no_digit_first r → 0 <= m < lenZ d →
  digit_run (drop (Z.to_nat (lenZ w + m + 1)) (w ++ d ++ r)) = lenZ d - m - 1.
Proof.
  intros (_ & Hd & _) Hr Hm. pose proof (lenZ_nonneg w). replace (Z.to_nat (lenZ w + m + 1)) with (length w + Z.to_nat (m + 1))%nat by (unfold lenZ; lia).
  rewrite <- drop_drop, drop_app_length, drop_app_le by (unfold lenZ in *; lia). rewrite digit_run_app; [|by apply Forall_drop|done]. rewrite lenZ_drop by lia. lia.
Qed.

Lemma number_take (w d r : list Z) m : 0 <= m <= lenZ d → take (Z.to_nat (lenZ w + m)) (w ++ d ++ r) = w ++ take (Z.to_nat m) d.
Proof.
  intros Hm. replace (Z.to_nat (lenZ w + m)) with (length w + Z.to_nat m)%nat by (unfold lenZ; lia). rewrite take_app_add.
  by rewrite take_app_le by (unfold lenZ in Hm; lia).
Qed.

(** Where the strings differ first. *)
Lemma number_diff k : agree same_char s t k → chr s k ≠ chr t k →
  ∃ m, k = lenZ pre + m ∧ 0 <= m <= lenZ a ∧ m <= lenZ b ∧ (m < lenZ a ∨ m < lenZ b) ∧ take (Z.to_nat m) a = take (Z.to_nat m) b.
Proof.
  intros (A1 & _ & _ & A4) Hk. unfold same_char in A4. pose proof (lenZ_nonneg pre). pose proof (lenZ_nonneg a). pose proof (lenZ_nonneg b).
  assert (lenZ pre <= k) as Hkp. { destruct (Z.lt_ge_cases k (lenZ pre)); [|done]. exfalso. apply Hk. by rewrite !chr_app_l by lia. }
  set (m := k - lenZ pre). assert (∀ j, 0 <= j < m → chr s (lenZ pre + j) = chr t (lenZ pre + j)) as Hj by (intros j Hj; apply A4; lia).
  assert (m <= lenZ a ∨ lenZ b < lenZ a ∨ lenZ a = lenZ b) as Ha'.
  { destruct (Z.le_gt_cases m (lenZ a)) as [|Hgt]; [by left|]. destruct (Z.lt_ge_cases (lenZ a) (lenZ b)); [exfalso|lia].
    pose proof (number_digit pre b v (lenZ a) Hb ltac:(lia)) as D. rewrite <- Hj, number_end in D by lia. unfold no_digit_first in Hu. congruence. }
  assert (m <= lenZ b ∨ lenZ a < lenZ b ∨ lenZ a = lenZ b) as Hb'.
  { destruct (Z.le_gt_cases m (lenZ b)) as [|Hgt]; [by left|]. destruct (Z.lt_ge_cases (lenZ b) (lenZ a)); [exfalso|lia].
    pose proof (number_digit pre a u (lenZ b) Ha ltac:(lia)) as D. rewrite Hj, number_end in D by lia. unfold no_digit_first in Hv. congruence. }
  assert (lenZ a = lenZ b → m < lenZ a) as Hab.
  { intros El. destruct (Z.lt_ge_cases m (lenZ a)) as [|Hge]; [done|]. exfalso. apply Hne. f_equal. apply list_eq_nthZ; [done|]. intros j ?.
    rewrite <- (number_chr pre a u), <- (number_chr pre b v) by lia. apply Hj. lia. }
  assert (m <= lenZ a ∧ m <= lenZ b) as [Hma Hmb] by lia.
  exists m. split_and!; [lia|lia|lia|lia|lia|]. apply list_eq_nthZ; [by rewrite !lenZ_take by lia|]. rewrite lenZ_take by lia. intros j ?.
  rewrite !nthZ_take by lia. rewrite <- (number_chr pre a u), <- (number_chr pre b v) by lia. apply Hj. lia.
Qed.
Lemma number_head m : 1 <= m → m <= lenZ a → m <= lenZ b → take (Z.to_nat m) a = take (Z.to_nat m) b → nthZ a 0 = nthZ b 0.
Proof. intros H1 H2 H3 Ht'. rewrite <- (nthZ_take a m 0), Ht', nthZ_take by lia. done. Qed.
Lemma number_len_diff m : 0 <= m < lenZ a → m < lenZ b → take (Z.to_nat m) a = take (Z.to_nat m) b → nthZ a m ≠ nthZ b m →
  Z.sgn (len_diff (nthZ a m) (nthZ b m) (lenZ a - m - 1) (lenZ b - m - 1)) = Z.sgn (num a - num b).
Proof.
  intros H1 H2 Ht' Hd. unfold len_diff. destruct (Z.lt_trichotomy (lenZ a) (lenZ b)) as [Hl|[Hl|Hl]].
  - pose proof (num_longer a b Ha Hb Hl). rewrite (proj2 (Z.ltb_ge _ _)), (proj2 (Z.ltb_lt _ _)) by lia. lia.
  - rewrite Hl, Z.ltb_irrefl. symmetry. by apply num_order.
  - pose proof (num_longer b a Hb Ha Hl). rewrite (proj2 (Z.ltb_lt _ _)) by lia. lia.
Qed.
Lemma number_cmp_diff : nthZ a 0 ≠ nthZ b 0 → nthZ a 0 = 48 ∨ nthZ b 0 = 48 → Z.sgn (nthZ a 0 - nthZ b 0) = Z.sgn (num a - num b).
Proof.
  intros Hd H48. pose proof Ha as (A1 & A2 & A3). pose proof Hb as (B1 & B2 & B3).
  pose proof (digit_range _ (Forall_nthZ (fun c => c_digit c = true) a 0 A2 ltac:(lia))). pose proof (digit_range _ (Forall_nthZ (fun c => c_digit c = true) b 0 B2 ltac:(lia))).
  destruct (Z.lt_trichotomy (lenZ a) (lenZ b)) as [Hl|[Hl|Hl]].
  - pose proof (num_longer a b Ha Hb Hl). specialize (B3 ltac:(lia)). lia.
  - symmetry. apply num_order; done.
  - pose proof (num_longer b a Hb Ha Hl). specialize (A3 ltac:(lia)). lia.
Qed.

Lemma vers_numbers r : vers_result s t r → Z.sgn r = Z.sgn (num a - num b).
Proof.
  pose proof (lenZ_nonneg pre). assert (vers_state pre = S_N) as Hst by (apply vers_state_word; [by apply Forall_app in Hs as [? _]|done]).
  pose proof Ha as (A1 & A2 & A3). pose proof Hb as (B1 & B2 & B3). intros [[E _]|(k & Hk & Hd & ->)].
  { exfalso. apply app_inv_head in E. apply Hne. f_equal. pose proof (digit_run_app a u A2 Hu) as D1. pose proof (digit_run_app b v B2 Hv) as D2.
    rewrite E, D2 in D1. eapply (app_inj_1 a b u v); [unfold lenZ in D1; lia|done]. }
  destruct (number_diff k Hk Hd) as (m & -> & M1 & M2 & M3 & M4). rewrite number_take by lia.
  assert (m < lenZ a → m < lenZ b → nthZ a m ≠ nthZ b m) as Hdm by (intros L1 L2; by rewrite <- (number_chr pre a u), <- (number_chr pre b v) by lia).
  destruct (Z.lt_ge_cases m (lenZ a)) as [La|La]; [destruct (Z.lt_ge_cases m (lenZ b)) as [Lb|Lb]|].
  - rewrite !number_chr, !number_rest by (done || lia). specialize (Hdm La Lb).
    pose proof (Forall_nthZ (fun c => c_digit c = true) a m A2 ltac:(lia)) as Da. pose proof (Forall_nthZ (fun c => c_digit c = true) b m B2 ltac:(lia)) as Db.
    destruct (decide (m = 0)) as [->|Hm0].
    + rewrite take_0_Z, app_nil_r, Hst, vers_diff_first by done. destruct ((nthZ a 0 =? 48) || (nthZ b 0 =? 48))%bool eqn:E; [|by apply number_len_diff].
      apply number_cmp_diff; [done|]. apply orb_true_iff in E as [E|E]; b2p; auto.
    + rewrite (vers_state_number pre a m), vers_diff_inner by (done || lia || (apply A3; lia)). apply number_len_diff; (done || lia).
  - replace m with (lenZ b) in * by lia. rewrite (vers_state_number pre a (lenZ b)) by (done || lia || (apply A3; lia)). rewrite (number_end pre b v).
    rewrite vers_diff_long; [|apply (chr_byte v 0); [by rewrite !Forall_app in Ht; apply Ht|pose proof (lenZ_nonneg v); lia]|done|apply number_digit; [done|lia]].
    pose proof (num_longer b a Hb Ha ltac:(lia)). lia.
  - replace m with (lenZ a) in * by lia. assert (nthZ a 0 = nthZ b 0) as H0 by (apply (number_head (lenZ a)); (done || lia)).
    rewrite (vers_state_number pre a (lenZ a)) by (done || lia || (rewrite H0; apply B3; lia)). rewrite (number_end pre a u).
    rewrite vers_diff_short; [|apply (chr_byte u 0); [by rewrite !Forall_app in Hs; apply Hs|pose proof (lenZ_nonneg u); lia]|done|apply number_digit; [done|lia]].
    pose proof (num_longer a b Ha Hb ltac:(lia)). lia.
Qed.
End Numbers.

Lemma vers_diff_nonzero st c1 c2 n1 n2 : st ∈ [S_N; S_I; S_F; S_Z] → c1 ≠ c2 → vers_diff st c1 c2 n1 n2 ≠ 0.
Proof.
  intros Hst Hne. pose proof (symbol_range c1) as H1. pose proof (symbol_range c2) as H2. unfold vers_diff. set_unfold in Hst. set_unfold in H1. set_unfold in H2.
  destruct Hst as [->|[->|[->|[->|[]]]]]; destruct H1 as [->|[->|[->|[]]]]; destruct H2 as [->|[->|[->|[]]]];
    unfold CMP, LEN; cbn -[Z.sub Z.ltb];
    repeat match goal with |- context [nthZ result_type ?e] => let v := eval vm_compute in (nthZ result_type e) in change (nthZ result_type e) with v end;
    cbn -[Z.sub Z.ltb]; try lia; destruct (n2 <? n1), (n1 <? n2); lia.
Qed.
Lemma strverscmp_returns σ p q s t :
  cstr (mem σ) p s → cstr (mem σ) q t → lenZ s < 4294967296 → lenZ t < 4294967296 → ∃ r, strverscmp p q σ = Ok (r, σ) ∧ vers_result s t r.
Proof.
  intros Hs Ht Hls Hlt. pose proof (strverscmp_spec σ p q s t Hs Ht Hls) as Hw. unfold wp in Hw. destruct (strverscmp p q σ) as [[r τ]| |]; [|done..].
  destruct Hw as [Hr ->]. by exists r.
Qed.

(** C13: [strverscmp] orders strings by the numbers in them: where two strings have the
    same text in front of a number, written without leading zeros, and the numbers
    differ, the result has the sign of the difference of the numbers, however many digits
    they have and whatever follows them. *)
Theorem strverscmp_numbers σ p q pre a b u v :
  cstr (mem σ) p (pre ++ a ++ u) → cstr (mem σ) q (pre ++ b ++ v) →
  lenZ (pre ++ a ++ u) < 4294967296 → lenZ (pre ++ b ++ v) < 4294967296 →
  no_digit_last pre → numeral a → numeral b → no_digit_first u → no_digit_first v → num a ≠ num b →
  ∃ r, strverscmp p q σ = Ok (r, σ) ∧ Z.sgn r = Z.sgn (num a - num b).
Proof.
  intros Hs Ht Hls Hlt Hpre Ha Hb Hu Hv Hne. destruct (strverscmp_returns σ p q _ _ Hs Ht Hls Hlt) as (r & Hr & Hres). exists r. split; [done|].
  apply (vers_numbers pre a b u v); try done; [apply Hs|apply Ht].
Qed.
Lemma strverscmp_numbers_witness :
  let σ := CState (write_bytes (write_bytes ∅ 100 [118; 57; 46; 0]) 200 [118; 49; 48; 46; 0]) 0 in
  ∃ r, strverscmp 100 200 σ = Ok (r, σ) ∧ Z.sgn r = -1.
Proof.
  intros σ. apply (strverscmp_numbers σ 100 200 [118] [57] [49; 48] [46] [46]); [by apply cstrb_sound|by apply cstrb_sound|done|done| | | |done|done|done].
  - right. by exists [], 118.
  - split; [done|]. split; [by repeat constructor|done].
  - split; [done|]. split; [by repeat constructor|done].
Defined.

(** [strverscmp] is 0 on equal strings only, and the sign changes when the strings are
    exchanged. *)
Theorem strverscmp_antisymmetric σ p q s t :
  cstr (mem σ) p s → cstr (mem σ) q t → lenZ s < 4294967296 → lenZ t < 4294967296 →
  ∃ r r', strverscmp p q σ = Ok (r, σ) ∧ strverscmp q p σ = Ok (r', σ) ∧ Z.sgn r' = - Z.sgn r ∧ (r = 0 ↔ s = t).
Proof.
  intros Hs Ht Hls Hlt. destruct (strverscmp_returns σ p q s t Hs Ht Hls Hlt) as (r & Hr & Hres). destruct (strverscmp_returns σ q p t s Ht Hs Hlt Hls) as (r' & Hr' & Hres').
  exists r, r'. split_and!; [done|done|by eapply vers_result_anti|]. destruct Hres as [[-> ->]|(k & Hk & Hd & ->)]; [done|]. split.
  - intros E. exfalso. by apply (vers_diff_nonzero _ _ _ _ _ (vers_state_range _) Hd) in E.
  - intros ->. done.
Qed.

(** ** strnstr *)

(** [strnstr] returns the first occurrence that begins in the first [len] characters,
    also when it ends after them. *)
Theorem strnstr_finds σ p q s sub len :
  cstr (mem σ) p s → cstr (mem σ) q sub → 0 < lenZ s < 4294967296 → lenZ sub < 4294967296 → 0 <= len <= lenZ s →
  strnstr p q len σ = Ok (ptr_of p (find_index (occurs_at sub s) (seqZ 0 len)), σ).
Proof.
  intros Hs Ht Hls Hlt Hlen. apply wp_eq. unfold strnstr. wp_step. rewrite <- (Z.add_0_r p) at 1. apply (wp_load_chr _ _ s); [done|lia|].
  pose proof (chr_nonzero s 0 (proj2 Hs) ltac:(lia)). rewrite (proj2 (Z.eqb_neq _ _)) by lia.
  apply (wp_loop _ (fun a τ => τ = σ ∧ ∃ k, a = p + k ∧ 0 <= k <= len ∧ ∀ j, 0 <= j < k → occurs_at sub s j = false) _ (fun a => p + len - a)).
  - intros a τ (-> & k & -> & Hk & Hj). destruct (p + k <? p + len) eqn:E; b2p.
    + wp_step. eapply wp_mono; [by apply (strstr_at_spec σ p q s sub); [..|lia]|]. intros r τ [-> ->]. destruct (occurs_at sub s k) eqn:Eo; wp_step.
      * rewrite (find_index_Some_2 _ _ k); [done|rewrite lenZ_seqZ; lia|by rewrite nthZ_seqZ by lia|]. intros j ?. rewrite nthZ_seqZ by lia. by apply Hj.
      * split; [|lia]. split; [done|]. exists (k + 1). split_and!; [lia|lia|lia|]. intros j ?. destruct (decide (j = k)) as [->|]; [done|apply Hj; lia].
    + wp_step. rewrite find_index_None_2; [done|]. rewrite lenZ_seqZ by lia. intros j ?. rewrite nthZ_seqZ by lia. apply Hj. lia.
  - split; [done|]. exists 0. split_and!; [lia|lia|lia|]. intros j ?. lia.
  - intros a τ (_ & k & -> & ? & _). lia.
  - lia.
Qed.
(** It looks for "bar" in the first four characters of "foobar" and finds it, and in a
    string that is shorter than [len] it reads past the end. *)
Lemma strnstr_too_far :
  let σ := CState (write_bytes (write_bytes ∅ 100 [102; 111; 111; 98; 97; 114; 0]) 200 [98; 97; 114; 0]) 0 in
  strnstr 100 200 4 σ = Ok (103, σ) ∧ strnstr 200 103 10 (CState (write_bytes ∅ 200 [98; 97; 0] ∪ write_bytes ∅ 103 [114; 0]) 0) = Fault.
Proof. split; vm_compute; reflexivity. Qed.

(** ** strxfrm *)

(** Without a locale [strxfrm] copies [len] characters at most and then terminates them:
    a source of [len] characters or more makes it write [len + 1] bytes. *)
Theorem strxfrm_overruns σ dest src len s :
  let l := take (Z.to_nat len) s ++ [0] in
  cstr (mem σ) src s → src ≠ NULL → dest ≠ NULL → 0 < len → lenZ s < 4294967296 →
  mapped (mem σ) dest (lenZ l) → dest + lenZ l <= src ∨ src + lenZ s + 1 <= dest →
  strxfrm None dest src len σ = Ok (lenZ s, with_mem (write_bytes (mem σ) dest l) σ).
Proof.
  intros l Hs Hsrc Hdst Hlen Hls Hm Hd. apply wp_eq. rewrite <- copied_all. pose proof (lenZ_nonneg s). pose proof (proj2 Hs) as Fs.
  assert (lenZ l = Z.min len (lenZ s) + 1) as Hl by (unfold l, lenZ; rewrite length_app, length_take; simpl; lia).
  assert (fill_ok σ dest l) as Hf.
  { split; [|done]. apply Forall_app. split; [|by repeat constructor]. apply Forall_take. eapply Forall_impl; [|exact Fs]. unfold is_byte. lia. }
  assert (∀ i, 0 <= i <= lenZ l → cstr (mem (copied σ dest l i)) src s) as Hsrc'.
  { intros i Hi. split; [|done]. apply copied_out; [done|apply Hs|rewrite lenZ_snoc; lia]. }
  unfold strxfrm. rewrite (proj2 (Z.eqb_neq src NULL) Hsrc), (proj2 (Z.eqb_neq dest NULL) Hdst), (proj2 (Z.ltb_lt 0 len) Hlen). simpl. wp_step.
  apply (wp_loop _ (fun '(a, d, n, r) τ => 0 <= r <= lenZ s ∧ a = src + r ∧ n = len - Z.min r len ∧ d = dest + Z.min r len ∧ τ = copied σ dest l (Z.min r len)) _ (fun '(a, d, n, r) => lenZ s - r)).
  - intros [[[a d] n] r] τ (Hr & -> & -> & -> & ->). wp_step. apply (wp_load_chr _ _ s); [apply Hsrc'; lia|lia|].
    destruct (negb (chr s r =? 0)) eqn:E; b2p.
    + assert (r ≠ lenZ s) by (intros ->; by rewrite chr_end in E). destruct (0 <? len - Z.min r len) eqn:El; b2p.
      * wp_step. rewrite Z.min_l by lia. apply (wp_fill_store8 _ _ _ Hf); [lia| |].
        { unfold l. rewrite nthZ_app_l by (unfold lenZ; rewrite length_take; unfold lenZ in *; lia). rewrite nthZ_take by lia. by rewrite chr_nthZ by lia. }
        wp_step. split; [|lia]. rewrite Z.min_l by lia. split_and!; [lia|lia|lia|lia|lia|done].
      * wp_step. split; [|lia]. rewrite !Z.min_r by lia. split_and!; [lia|lia|lia|lia|lia|done].
    + apply chr_zero in E; [|done|lia]. subst r. wp_step. wp_step. apply (wp_fill_store8 _ _ _ Hf); [lia| |].
      { unfold l. rewrite nthZ_app_r by (unfold lenZ; rewrite length_take; unfold lenZ in *; lia).
        replace (_ - _) with 0 by (unfold lenZ; rewrite length_take; unfold lenZ in *; lia). done. }
      wp_step. split; [done|]. f_equal. lia.
  - rewrite Z.min_l by lia. rewrite copied_0. split_and!; [lia|lia|lia|lia|lia|done].
  - intros [[[a d] n] r] τ (? & _). lia.
  - lia.
Qed.
Lemma strxfrm_overruns_witness :
  let σ := CState (write_bytes (write_bytes ∅ 100 [97; 98; 99; 0]) 200 [7; 7; 7; 7]) 0 in
  strxfrm None 200 100 2 σ = Ok (3, with_mem (write_bytes (mem σ) 200 [97; 98; 0]) σ).
Proof.
  intros σ. apply (strxfrm_overruns σ 200 100 2 [97; 98; 99]); [by apply cstrb_sound|done|done|done|done|by apply mappedb_sound|right; done].
Defined.
