(* ===== verification/StrCopy.v ===== *)
(** * String functions that copy

    [strcpy], [stpcpy], [strncpy], [strlcpy], [strlcat], [strncat] and [stccpy]
    of library/string.  Source and destination are disjoint, as the C standard
    demands. *)

From stdpp Require Import base gmap list numbers.
From S2P Require Import Prelude CMem Words MemFuncs StrScan.
Open Scope Z_scope.

(** ** Definitions *)

(** string/strcpy.c, in three parts: the bytes up to a word boundary, the words
    without a zero byte, the remaining bytes. *)
Definition strcpy_align (dst0 src0 : Z) : M cstate (Z + (Z * Z)) :=
  if Z.land src0 3 =? Z.land dst0 3 then
    loop (fun '(dst, src) =>
            if negb (Z.land dst 3 =? 0) then
              b ← load8 src; _ ← store8 dst b;
              if b =? 0 then break (inl dst0) else continue (dst + 1, src + 1)
            else break (inr (dst, src))) (dst0, src0)
  else go_on (dst0, src0).

Definition strcpy_words (dst src : Z) : M cstate (Z * Z) :=
  if negb (UNALIGNED src dst) then
    loop (fun '(aligned_dst, aligned_src) =>
            w ← load32 aligned_src;
            if DETECTNULL w =? 0 then
              w ← load32 aligned_src; _ ← store32 aligned_dst w;
              continue (aligned_dst + 4, aligned_src + 4)
            else break (aligned_dst, aligned_src)) (dst, src)
  else mret (dst, src).

Definition strcpy_bytes (dst src : Z) : M cstate unit :=
  loop (fun '(dst, src) =>
          b ← load8 src; _ ← store8 dst b;
          if b =? 0 then break tt else continue (dst + 1, src + 1)) (dst, src).

Definition strcpy (dst0 src0 : Z) : M cstate Z :=
  '(dst, src) ⇐ strcpy_align dst0 src0;
  '(dst, src) ← strcpy_words dst src;
  _ ← strcpy_bytes dst src;
  mret dst0.

(** string/stpcpy.c, with its macros [LOWS], [HIGHS] and [has_zero]. *)
Definition stpcpy_LOWS : Z := 4294967295 / 255.
Definition stpcpy_HIGHS (x : Z) : Z := u32 (x - 4294967295 / 255 * 128).
Definition has_zero (x : Z) : Z :=
  u32 (x - Z.land (Z.land stpcpy_LOWS (not32 x)) (stpcpy_HIGHS x)).

Definition stpcpy (dest src : Z) : M cstate Z :=
  '(dest, src) ⇐
    (if negb (src mod 4 =? dest mod 4) then go_on (dest, src)
     else
       r ← loop (fun '(dest, src) =>
               if negb (src mod 4 =? 0) then
                 b ← load8 src; _ ← store8 dest b;
                 if b =? 0 then break (inl dest) else continue (dest + 1, src + 1)
               else break (inr (dest, src))) (dest, src);
       match r with
       | inl d => return_ d
       | inr (wd, ws) =>
           '(wd, ws) ← loop (fun '(wd, ws) =>
                   w ← load32 ws;
                   if has_zero w =? 0 then
                     let wd := wd + 4 in let ws := ws + 4 in
                     w ← load32 ws; _ ← store32 wd w;
                     continue (wd, ws)
                   else break (wd, ws)) (wd, ws);
           go_on (wd, ws)
       end);
  (* bytewise: *)
  loop (fun '(dest, src) =>
          b ← load8 src; _ ← store8 dest b;
          if b =? 0 then break dest else continue (dest + 1, src + 1)) (dest, src).

(** string/strncpy.c.  The [break] of the aligning loop leaves that loop only. *)
Definition strncpy_align (dst0 src0 count : Z) : M cstate (Z * Z * Z) :=
  if (3 <? count) && (Z.land src0 3 =? Z.land dst0 3) then
    loop (fun '(dst, src, count) =>
            if negb (Z.land dst 3 =? 0) then
              let count := u32 (count - 1) in
              b ← load8 src; _ ← store8 dst b;
              if b =? 0 then break (dst + 1, src + 1, count)
              else continue (dst + 1, src + 1, count)
            else break (dst, src, count)) (dst0, src0, count)
  else mret (dst0, src0, count).

Definition strncpy_words (dst src count : Z) : M cstate (Z * Z * Z) :=
  if negb (UNALIGNED src dst) && negb (TOO_SMALL count) then
    loop (fun '(aligned_dst, aligned_src, count) =>
            if 4 <=? count then
              w ← load32 aligned_src;
              if DETECTNULL w =? 0 then
                let count := count - 4 in
                w ← load32 aligned_src; _ ← store32 aligned_dst w;
                continue (aligned_dst + 4, aligned_src + 4, count)
              else break (aligned_dst, aligned_src, count)
            else break (aligned_dst, aligned_src, count)) (dst, src, count)
  else mret (dst, src, count).

Definition strncpy_bytes (dst src count : Z) : M cstate (Z * Z) :=
  loop (fun '(dst, src, count) =>
          if 0 <? count then
            let count := count - 1 in
            b ← load8 src; _ ← store8 dst b;
            if b =? 0 then break (dst + 1, count)
            else continue (dst + 1, src + 1, count)
          else break (dst, count)) (dst, src, count).

Definition strncpy_pad (dst count : Z) : M cstate unit :=
  loop (fun '(dst, count) =>
          if 0 <? count then
            _ ← store8 dst 0; continue (dst + 1, count - 1)
          else break tt) (dst, count).

Definition strncpy (dst0 src0 count : Z) : M cstate Z :=
  '(dst, src, count) ← strncpy_align dst0 src0 count;
  '(dst, src, count) ← strncpy_words dst src count;
  '(dst, count) ← strncpy_bytes dst src count;
  _ ← strncpy_pad dst count;
  mret dst0.

(** string/strlcpy.c: a [do ... while] loop that copies, then the end of the
    source is found. *)
Definition skip_string (s : Z) : M cstate Z :=
  loop (fun s =>
          b ← load8 s;
          if b =? 0 then break (s + 1) else continue (s + 1)) s.

Definition strlcpy (dst src siz : Z) : M cstate Z :=
  if negb (siz =? 0) && ((dst =? NULL) || (src =? NULL)) then
    _ ← set_errno EFAULT; mret 0
  else
    '(d, s, n) ←
      (if negb (siz =? 0) then
         let n := siz - 1 in
         if negb (n =? 0) then
           loop (fun '(d, s, n) =>
                   b ← load8 s; _ ← store8 d b;
                   if b =? 0 then break (d + 1, s + 1, n)
                   else
                     let n := n - 1 in
                     if negb (n =? 0) then continue (d + 1, s + 1, n)
                     else break (d + 1, s + 1, n)) (dst, src, n)
         else mret (dst, src, n)
       else mret (dst, src, siz));
    s ← (if n =? 0 then
           _ ← (if negb (siz =? 0) then store8 d 0 else mret tt);
           skip_string s
         else mret s);
    mret (s - src - 1).

(** string/strlcat.c *)
Definition strlcat (dst src siz : Z) : M cstate Z :=
  if (src =? NULL) || (negb (siz =? 0) && (dst =? NULL)) then
    _ ← set_errno EFAULT; mret 0
  else
    d ← loop (fun '(d, n) =>
                if negb (n =? 0) then
                  let n := n - 1 in
                  b ← load8 d;
                  if negb (b =? 0) then continue (d + 1, n) else break d
                else break d) (dst, siz);
    let dlen := d - dst in
    let n := siz - dlen in
    if n =? 0 then
      l ← strlen src; mret (dlen + l)
    else
      '(d, s) ← loop (fun '(d, s, n) =>
                  b ← load8 s;
                  if negb (b =? 0) then
                    if negb (n =? 1) then
                      _ ← store8 d b; continue (d + 1, s + 1, n - 1)
                    else continue (d, s + 1, n)
                  else break (d, s)) (d, src, n);
      _ ← store8 d 0;
      mret (dlen + (s - src)).

(** string/strncat.c *)
Definition strncat (dest0 src n : Z) : M cstate Z :=
  if (dest0 =? NULL) || (src =? NULL) then _ ← set_errno EFAULT; mret dest0
  else if 0 <? s32 n then
    dest ← loop (fun dest =>
                   b ← load8 dest;
                   if negb (b =? 0) then continue (dest + 1) else break dest) dest0;
    dest ← loop (fun '(dest, src, n) =>
                   if 0 <? n then
                     let n := n - 1 in
                     b ← load8 src; _ ← store8 dest b;
                     if b =? 0 then break (dest + 1 - 1)
                     else continue (dest + 1, src + 1, n)
                   else break dest) (dest, src, n);
    _ ← store8 dest 0;
    mret dest0
  else mret dest0.

(** string/stccpy.c *)
Definition stccpy (dest src n : Z) : M cstate Z :=
  ptr ← loop (fun '(ptr, src, n) =>
                if 1 <? n then
                  b ← load8 src;
                  if negb (b =? 0) then
                    b ← load8 src; _ ← store8 ptr b;
                    continue (ptr + 1, src + 1, n - 1)
                  else break ptr
                else break ptr) (dest, src, n);
  _ ← store8 ptr 0;
  mret (ptr + 1 - dest).

(** An aligned word of a string; it may reach past the terminator. *)
Lemma wp_cstr_load32 τ s str i Q :
  cstr (mem τ) s str → mem_ok (mem τ) → 0 <= i <= lenZ str → (s + i) mod 4 = 0 →
  (∀ b0 b1 b2 b3, is_byte b0 → is_byte b1 → is_byte b2 → is_byte b3 →
     (¬ some_zero b0 b1 b2 b3 → i + 4 <= lenZ str) → Q (be32 b0 b1 b2 b3) τ) →
  wp (load32 (s + i)) Q τ.
Proof.
  intros Hc Hm Hi Ha HQ. apply (wp_load32_word _ _ (s + i)); [done|done| |lia|].
  { rewrite (cstr_chr _ _ str) by (done || lia). eauto. }
  intros b0 b1 b2 b3 E0 E1 E2 E3 ????. apply HQ; [done..|]. intros Hz.
  assert (∀ k b, mem τ !! (s + i + k) = Some b → b ≠ 0 → i + k ≠ lenZ str) as K.
  { intros k b E Hb Hk. replace (s + i + k) with (s + lenZ str) in E by lia.
    rewrite (cstr_chr _ _ str), chr_end in E by (done || lia). congruence. }
  unfold some_zero in Hz. rewrite <- (Z.add_0_r (s + i)) in E0.
  pose proof (K _ _ E0). pose proof (K _ _ E1). pose proof (K _ _ E2). pose proof (K _ _ E3).
  lia.
Qed.

(** ** strcpy and stpcpy *)

Section StrCopy.
Context (σ : cstate) (d s : Z) (str : list Z).
Context (H : copy_ok σ d s (str ++ [0])) (Hs : Forall (fun b => 0 < b < 256) str).
Context (Hm : mem_ok (mem σ)) (Hlen : lenZ str < 4294967296).
#[local] Abbreviation copied := (copied σ d (str ++ [0])).

(** The loops have copied [i] characters, none of them the terminator. *)
Definition copying_str (x : Z * Z) (τ : cstate) : Prop :=
  ∃ i, τ = copied i ∧ x = (d + i, s + i) ∧ 0 <= i <= lenZ str.

Lemma copied_cstr i : 0 <= i <= lenZ str + 1 → cstr (mem (copied i)) s str.
Proof. intros Hi. split; [|done]. apply (copied_src _ _ _ _ H). rewrite lenZ_snoc. lia. Qed.

Lemma wp_str_load8 i Q :
  0 <= i <= lenZ str → Q (chr str i) (copied i) → wp (load8 (s + i)) Q (copied i).
Proof. intros Hi. apply (wp_copy_load8 _ _ _ _ H). rewrite lenZ_snoc. lia. Qed.

Lemma wp_str_store8 i Q :
  0 <= i <= lenZ str → Q tt (copied (i + 1)) →
  wp (store8 (d + i) (chr str i)) Q (copied i).
Proof. intros Hi. apply (wp_copy_store8 _ _ _ _ H). rewrite lenZ_snoc. lia. Qed.

(** One aligned word of the source, which may reach past the terminator. *)
Lemma wp_str_load32 i Q :
  0 <= i <= lenZ str → (s + i) mod 4 = 0 →
  (∀ b0 b1 b2 b3, is_byte b0 → is_byte b1 → is_byte b2 → is_byte b3 →
     (¬ some_zero b0 b1 b2 b3 → i + 4 <= lenZ str) →
     Q (be32 b0 b1 b2 b3) (copied i)) →
  wp (load32 (s + i)) Q (copied i).
Proof.
  intros Hi Ha HQ. apply wp_cstr_load32 with str; [apply copied_cstr; lia| |done..].
  apply (copied_mem_ok _ _ _ (copy_fill _ _ _ _ H)); [done|]. rewrite lenZ_snoc. lia.
Qed.

(** The words before the one that holds the terminator. *)
Lemma str_words_spec x τ :
  copying_str x τ → x.1 mod 4 = 0 → x.2 mod 4 = 0 →
  wp (loop (fun '(aligned_dst, aligned_src) =>
          w ← load32 aligned_src;
          if DETECTNULL w =? 0 then
            w ← load32 aligned_src; _ ← store32 aligned_dst w;
            continue (aligned_dst + 4, aligned_src + 4)
          else break (aligned_dst, aligned_src)) x) copying_str τ.
Proof.
  intros Hx Hd0 Hs0. apply (wp_loop _ (fun x τ => copying_str x τ ∧ x.1 mod 4 = 0 ∧ x.2 mod 4 = 0)
    _ (fun x => s + lenZ str - x.2)); [|done|..].
  - clear x τ Hx Hd0 Hs0. intros x τ ((i & -> & -> & Hi) & A1 & A2). simpl in A1, A2.
    wp_step. apply wp_str_load32; [done..|]. intros b0 b1 b2 b3 B0 B1 B2 B3 Hz.
    pose proof (DETECTNULL_spec b0 b1 b2 b3 B0 B1 B2 B3) as Hd.
    destruct (DETECTNULL _ =? 0) eqn:E; b2p.
    + assert (i + 4 <= lenZ str) by tauto.
      apply (wp_copy_word _ _ _ _ H _ _ i (i + 4)); try (rewrite lenZ_snoc); try lia.
      wp_step. split; [|simpl; lia]. split; [|simpl; split; dlia].
      exists (i + 4). split; [done|]. split; [f_equal; lia|lia].
    + wp_step. exists i. done.
  - intros x' τ' ((i & _ & -> & ?) & _). simpl. lia.
  - destruct Hx as (i & _ & -> & ?). simpl. lia.
Qed.

Lemma str_bytes_spec {R} (f : Z → R) x τ :
  copying_str x τ →
  wp (loop (fun '(dst, src) =>
        b ← load8 src; _ ← store8 dst b;
        if b =? 0 then break (f dst) else continue (dst + 1, src + 1)) x)
     (fun r τ => r = f (d + lenZ str) ∧ τ = copied (lenZ str + 1)) τ.
Proof.
  intros Hx. apply (wp_loop _ copying_str _ (fun x => s + lenZ str - x.2)); [|done|..].
  - clear x τ Hx. intros x τ (i & -> & -> & Hi).
    wp_step. apply wp_str_load8; [done|]. wp_step. apply wp_str_store8; [done|].
    destruct (chr str i =? 0) eqn:E; b2p; wp_step.
    + apply chr_zero in E; [|done..]. by subst i.
    + split; [|simpl; lia]. exists (i + 1). split; [done|]. split; [f_equal; lia|].
      destruct (decide (i = lenZ str)) as [->|]; [by rewrite chr_end in E|lia].
  - intros x' τ' (i & _ & -> & ?). simpl. lia.
  - destruct Hx as (i & _ & -> & ?). simpl. lia.
Qed.

(** The bytes up to a word boundary; the two functions test different
    pointers and return different values at the terminator. *)
Lemma str_align_spec {R} (test : Z → Z → bool) (f : Z → R) :
  (∀ i, 0 <= i → test (d + i) (s + i) = negb ((d + i) mod 4 =? 0)) →
  wp (loop (fun '(dst, src) =>
          if test dst src then
            b ← load8 src; _ ← store8 dst b;
            if b =? 0 then break (inl (f dst)) else continue (dst + 1, src + 1)
          else break (inr (dst, src))) (d, s))
     (fun r τ => match r with
                 | inl v => v = f (d + lenZ str) ∧ τ = copied (lenZ str + 1)
                 | inr x => copying_str x τ ∧ x.1 mod 4 = 0
                 end) σ.
Proof.
  intros Ht. pose proof (lenZ_nonneg str).
  apply (wp_loop _ copying_str _ (fun x => s + lenZ str - x.2)).
  - intros x τ (i & -> & -> & Hi). rewrite Ht by lia.
    destruct (negb _) eqn:E0; b2p; [|wp_step; split; [by exists i|done]].
    wp_step. apply wp_str_load8; [done|]. wp_step. apply wp_str_store8; [done|].
    destruct (chr str i =? 0) eqn:E; b2p; wp_step.
    + apply chr_zero in E; [|done..]. by subst i.
    + split; [|simpl; lia]. exists (i + 1). split; [done|]. split; [f_equal; lia|].
      destruct (decide (i = lenZ str)) as [->|]; [by rewrite chr_end in E|lia].
  - exists 0. rewrite copied_0, !Z.add_0_r. split; [done|]. split; [done|lia].
  - intros x' τ' (i & _ & -> & ?). simpl. lia.
  - simpl. lia.
Qed.

Lemma copying_start : copying_str (d, s) σ.
Proof.
  pose proof (lenZ_nonneg str). exists 0. rewrite copied_0, !Z.add_0_r.
  split; [done|]. split; [done|lia].
Qed.

Lemma strcpy_spec :
  wp (strcpy d s) (fun r τ => r = d ∧ τ = copied (lenZ str + 1)) σ.
Proof.
  unfold strcpy. wp_step.
  apply (wp_mono _ (fun r τ => match r with
                 | inl v => v = d ∧ τ = copied (lenZ str + 1)
                 | inr x => copying_str x τ
                 end)).
  { unfold strcpy_align. destruct (_ =? _) eqn:E; [|wp_step; apply copying_start].
    eapply wp_mono; [apply (str_align_spec (fun dst _ => negb (Z.land dst 3 =? 0)) (fun _ => d))|].
    - intros i _. by rewrite land_3_mod.
    - intros [v|x] τ; [done|]. by intros [? _]. }
  intros [v|[d' s']] τ Hx; [done|]. wp_step.
  apply (wp_mono _ copying_str).
  { unfold strcpy_words. destruct (negb _) eqn:E; [|by wp_step].
    apply aligned_args in E as [As Ad]. by apply str_words_spec. }
  clear d' s' τ Hx. intros [d' s'] τ Hx. wp_step.
  eapply wp_mono; [by apply (str_bytes_spec (fun _ => tt))|].
  intros _ τ' [_ ->]. by wp_step.
Qed.
End StrCopy.

(** The macro [has_zero] is misparenthesised: it is nonzero for every word, so
    the word loop of [stpcpy] ends at once. *)
Lemma has_zero_nonzero b0 b1 b2 b3 :
  is_byte b0 → is_byte b1 → is_byte b2 → is_byte b3 → has_zero (be32 b0 b1 b2 b3) ≠ 0.
Proof.
  intros H0 H1 H2 H3 E. pose proof (be32_range b0 b1 b2 b3 H0 H1 H2 H3) as Hx.
  set (x := be32 b0 b1 b2 b3) in *. unfold has_zero in E.
  set (y := Z.land (Z.land stpcpy_LOWS (not32 x)) (stpcpy_HIGHS x)) in *.
  assert (0 <= y < 4294967296) as Hy.
  { assert (0 <= y <= stpcpy_LOWS); [|change stpcpy_LOWS with 16843009 in *; lia].
    unfold y. rewrite <- Z.land_assoc. apply Z.ldiff_le; [done|]. apply Z.bits_inj'. intros n _.
    rewrite Z.ldiff_spec, Z.land_spec, Z.bits_0.
    destruct (Z.testbit stpcpy_LOWS n); simpl; by rewrite ?andb_false_r. }
  assert (x = y) as Exy by (unfold u32 in E; dlia).
  pose proof (land_not32 x Hx) as Hnx.
  assert (Z.land x y = 0) as Hxy.
  { unfold y. rewrite (Z.land_comm stpcpy_LOWS), <- Z.land_assoc, Z.land_assoc.
    by rewrite (Z.land_comm x), Hnx, Z.land_0_l. }
  rewrite <- Exy, Z.land_diag in Hxy. unfold y in Exy. rewrite Hxy in Exy. done.
Qed.

Section Stpcpy.
Context (σ : cstate) (d s : Z) (str : list Z).
Context (H : copy_ok σ d s (str ++ [0])) (Hs : Forall (fun b => 0 < b < 256) str).
Context (Hm : mem_ok (mem σ)) (Hlen : lenZ str < 4294967296).

Lemma stpcpy_spec :
  wp (stpcpy d s)
     (fun r τ => r = d + lenZ str ∧ τ = copied σ d (str ++ [0]) (lenZ str + 1)) σ.
Proof.
  unfold stpcpy. wp_step.
  apply (wp_mono _ (fun r τ => match r with
     | inl v => v = d + lenZ str ∧ τ = copied σ d (str ++ [0]) (lenZ str + 1)
     | inr x => copying_str σ d s str x τ
     end)).
  2:{ intros [v|[d' s']] τ Hx; [done|]. by apply (str_bytes_spec σ d s str H Hs Hlen id). }
  destruct (negb _) eqn:E; b2p; [wp_step; apply copying_start|].
  wp_step. eapply wp_mono.
  { apply (str_align_spec _ _ _ _ H Hs Hlen (fun _ src => negb (src mod 4 =? 0)) id).
    intros i _. do 2 f_equal. dlia. }
  intros [v|[wd ws]] τ Hx; [by wp_step|]. destruct Hx as [Hx Ha].
  wp_step. apply (wp_mono _ (copying_str σ d s str)).
  2:{ intros [d' s'] τ' Hx'. by wp_step. }
  apply (wp_loop _ (fun x τ => copying_str σ d s str x τ ∧ x.1 mod 4 = 0) _ (fun _ => 0));
    [|done|done|done]. clear wd ws τ Hx Ha.
  intros x τ [(i & -> & -> & Hi) Ha]. simpl in Ha.
  wp_step. apply wp_str_load32; [done..|dlia|]. intros b0 b1 b2 b3 B0 B1 B2 B3 _.
  destruct (has_zero _ =? 0) eqn:E0; b2p; [by apply has_zero_nonzero in E0|].
  wp_step. by exists i.
Qed.
End Stpcpy.

(** [strcpy] copies the string at [src], terminator included, to the
    disjoint place [dst], writes nothing else and returns [dst]; [stpcpy] does
    the same and returns the address of the terminator it wrote.  Both hold for
    every alignment of the two pointers. *)
Theorem strcpy_stpcpy_correct σ dst src s :
  copy_ok σ dst src (s ++ [0]) → Forall (fun b => 0 < b < 256) s → mem_ok (mem σ) →
  lenZ s < 4294967296 →
  let τ := with_mem (write_bytes (mem σ) dst (s ++ [0])) σ in
  strcpy dst src σ = Ok (dst, τ) ∧ stpcpy dst src σ = Ok (dst + lenZ s, τ).
Proof.
  intros H Hs Hm Hlen τ. unfold τ. rewrite <- copied_all, lenZ_snoc.
  split; apply wp_eq; [by apply strcpy_spec|by apply stpcpy_spec].
Qed.

Lemma strcpy_stpcpy_correct_witness :
  let σ := CState (write_bytes (write_bytes ∅ 200 (replicate 12 7)) 100
                     [104; 101; 108; 108; 111; 0; 9; 9]) 0 in
  let τ := with_mem (write_bytes (mem σ) 201 [101; 108; 108; 111; 0]) σ in
  strcpy 201 101 σ = Ok (201, τ) ∧ stpcpy 201 101 σ = Ok (205, τ).
Proof.
  apply (strcpy_stpcpy_correct
    (CState (write_bytes (write_bytes ∅ 200 (replicate 12 7)) 100
                     [104; 101; 108; 108; 111; 0; 9; 9]) 0) 201 101 [101; 108; 108; 111]);
    [by apply copy_okb_sound| |by apply mem_okb_sound|done].
  repeat constructor; lia.
Defined.

(** ** Copies with a bound: strlcpy, strlcat, strncat, stccpy *)

(** At most [cap] characters of [s], and a terminator. *)
Definition truncated (cap : Z) (s : list Z) : list Z := take (Z.to_nat cap) s ++ [0].

Lemma lenZ_truncated cap s : 0 <= cap → lenZ (truncated cap s) = Z.min cap (lenZ s) + 1.
Proof. intros. unfold truncated. rewrite lenZ_snoc. unfold lenZ. rewrite length_take. lia. Qed.

Lemma nthZ_truncated cap s i :
  0 <= i < Z.min cap (lenZ s) → nthZ (truncated cap s) i = chr s i.
Proof.
  intros Hi. unfold truncated. rewrite nthZ_app_l.
  - rewrite nthZ_take by lia. symmetry. apply chr_nthZ. lia.
  - unfold lenZ in *. rewrite length_take. lia.
Qed.

Lemma nthZ_truncated_end cap s : 0 <= cap →
  nthZ (truncated cap s) (Z.min cap (lenZ s)) = 0.
Proof.
  intros. unfold truncated. etransitivity; [|apply (nthZ_end (take (Z.to_nat cap) s))]. f_equal.
  unfold lenZ. rewrite length_take. lia.
Qed.

Lemma skip_string_spec σ p s i :
  cstr (mem σ) p s → 0 <= i <= lenZ s → lenZ s < 4294967296 →
  wp (skip_string (p + i)) (fun r τ => r = p + lenZ s + 1 ∧ τ = σ) σ.
Proof.
  intros Hs Hi Hlen. apply (wp_loop _ (fun q τ => τ = σ ∧ p <= q <= p + lenZ s) _
    (fun q => p + lenZ s - q)).
  - intros q τ [-> Hq]. wp_step. replace q with (p + (q - p)) by lia.
    apply (wp_load_chr _ _ s); [done|lia|]. destruct (_ =? 0) eqn:E; b2p; wp_step.
    + apply chr_zero in E; [|apply Hs|lia]. split; [lia|done].
    + split; [|lia]. split; [done|].
      destruct (decide (q - p = lenZ s)) as [E'|]; [by rewrite E', chr_end in E|lia].
  - split; [done|lia].
  - intros q τ [_ ?]. lia.
  - lia.
Qed.

Section Bounded.
Context (σ : cstate) (d s cap : Z) (str : list Z).
Context (Hs : cstr (mem σ) s str) (Hcap : 0 <= cap) (Hlen : lenZ str < 4294967296).
Context (Hd : mapped (mem σ) d (lenZ (truncated cap str))).
Context (Hdisj : d + lenZ (truncated cap str) <= s ∨ s + lenZ str + 1 <= d).
#[local] Abbreviation copied := (copied σ d (truncated cap str)).
#[local] Abbreviation stop := (Z.min cap (lenZ str)).

Lemma truncated_fill : fill_ok σ d (truncated cap str).
Proof.
  split; [|done]. unfold truncated. apply Forall_app. split; [|by repeat constructor].
  apply Forall_take. eapply Forall_impl; [|exact (proj2 Hs)]. unfold is_byte. simpl. lia.
Qed.

Lemma bounded_cstr i : 0 <= i <= stop + 1 → cstr (mem (copied i)) s str.
Proof.
  intros Hi. split; [|apply Hs]. apply copied_out; [|apply Hs|].
  - rewrite lenZ_truncated by done. lia.
  - rewrite lenZ_snoc. lia.
Qed.

Lemma wp_bounded_load i j Q :
  0 <= i <= stop + 1 → 0 <= j <= lenZ str → Q (chr str j) (copied i) →
  wp (load8 (s + j)) Q (copied i).
Proof. intros Hi Hj. apply (wp_load_chr _ _ str); [by apply bounded_cstr|done]. Qed.

Lemma wp_bounded_store i Q :
  0 <= i < stop → Q tt (copied (i + 1)) → wp (store8 (d + i) (chr str i)) Q (copied i).
Proof.
  intros Hi. apply (wp_fill_store8 _ _ _ truncated_fill).
  - rewrite lenZ_truncated by done. lia.
  - by rewrite nthZ_truncated.
Qed.

Lemma wp_bounded_end i Q :
  i = stop → Q tt (copied (stop + 1)) → wp (store8 (d + i) 0) Q (copied i).
Proof.
  intros ->. pose proof (lenZ_nonneg str). apply (wp_fill_store8 _ _ _ truncated_fill).
  - rewrite lenZ_truncated by done. lia.
  - by rewrite nthZ_truncated_end.
Qed.

Lemma bounded_all : copied (stop + 1) = with_mem (write_bytes (mem σ) d (truncated cap str)) σ.
Proof. rewrite <- copied_all. f_equal. by rewrite lenZ_truncated. Qed.

(** [stccpy] counts what it has left to write, the terminator included. *)
Lemma stccpy_spec :
  cap < 4294967296 →
  wp (stccpy d s (cap + 1)) (fun r τ => r = stop + 1 ∧ τ = copied (stop + 1)) σ.
Proof.
  intros Hc. pose proof (lenZ_nonneg str). unfold stccpy. wp_step.
  apply (wp_loop _ (fun '(ptr, src, n) τ => ∃ i, τ = copied i ∧ ptr = d + i ∧ src = s + i ∧
    i + n = cap + 1 ∧ 0 <= i <= stop) _ (fun x => x.2)).
  - intros [[ptr src] n] τ (i & -> & -> & -> & En & Hi). simpl.
    destruct (1 <? n) eqn:E1; b2p.
    + wp_step. apply wp_bounded_load; [lia..|]. destruct (negb _) eqn:E; b2p.
      * assert (i ≠ lenZ str) by (intros ->; by rewrite chr_end in E).
        wp_step. apply wp_bounded_load; [lia..|]. wp_step. apply wp_bounded_store; [lia|].
        wp_step. split; [|simpl; lia]. exists (i + 1). split; [done|]. lia.
      * apply chr_zero in E; [|apply Hs|lia]. do 2 wp_step. apply wp_bounded_end; [lia|].
        wp_step. split; [lia|done].
    + do 2 wp_step. apply wp_bounded_end; [lia|]. wp_step. split; [lia|done].
  - exists 0. rewrite copied_0. split; [done|]. lia.
  - intros [[ptr src] n] τ (i & _ & _ & _ & ? & ?). simpl. lia.
  - simpl. lia.
Qed.

Lemma strlcpy_spec :
  cap < 4294967295 → d ≠ NULL → s ≠ NULL →
  wp (strlcpy d s (cap + 1)) (fun r τ => r = lenZ str ∧ τ = copied (stop + 1)) σ.
Proof.
  intros Hc Hd0 Hs0. pose proof (lenZ_nonneg str). unfold strlcpy.
  rewrite (proj2 (Z.eqb_neq d _)), (proj2 (Z.eqb_neq s _)) by done. rewrite andb_false_r.
  rewrite (proj2 (Z.eqb_neq (cap + 1) 0)) by lia. cbv zeta. simpl (negb _).
  replace (cap + 1 - 1) with cap by lia. wp_step.
  apply (wp_mono _ (fun '(d', s', n) τ =>
     (n ≠ 0 ∧ lenZ str < cap ∧ s' = s + lenZ str + 1 ∧ τ = copied (stop + 1)) ∨
     (n = 0 ∧ cap <= lenZ str ∧ d' = d + cap ∧ s' = s + cap ∧ τ = copied cap))).
  2:{ intros [[d' s'] n] τ [(Hn & ? & -> & ->)|(-> & ? & -> & -> & ->)].
      - rewrite (proj2 (Z.eqb_neq n 0)) by done. do 3 wp_step. split; [lia|done].
      - cbn [Z.eqb negb]. do 2 wp_step. apply wp_bounded_end; [lia|].
        eapply wp_mono; [apply (skip_string_spec _ s str); [|lia|done]|].
        { apply bounded_cstr. lia. }
        intros r τ [-> ->]. wp_step. split; [lia|done]. }
  destruct (negb _) eqn:E; b2p; [|wp_step; right; subst cap; rewrite copied_0; repeat split; lia].
  apply (wp_loop _ (fun '(d', s', n) τ => ∃ i, τ = copied i ∧ d' = d + i ∧ s' = s + i ∧
    i + n = cap ∧ 0 <= i <= lenZ str ∧ 0 < n) _ (fun x => x.2)).
  - intros [[d' s'] n] τ (i & -> & -> & -> & En & Hi & Hn). simpl.
    wp_step. apply wp_bounded_load; [lia..|].
    destruct (chr str i =? 0) eqn:E0; b2p.
    + rewrite E0. apply chr_zero in E0; [|apply Hs|lia]. subst i.
      wp_step. apply wp_bounded_end; [lia|]. wp_step. left. repeat split; lia || done.
    + assert (i ≠ lenZ str) by (intros ->; by rewrite chr_end in E0).
      wp_step. apply wp_bounded_store; [lia|]. destruct (negb _) eqn:E1; b2p; wp_step.
      * split; [|simpl; lia]. exists (i + 1). split; [done|]. lia.
      * right. replace (i + 1) with cap by lia. repeat split; lia || done.
  - exists 0. rewrite copied_0. split; [done|]. lia.
  - intros [[d' s'] n] τ (i & _ & _ & _ & ? & ? & ?). simpl. lia.
  - simpl. lia.
Qed.

(** [strlcat] from its second loop on: [cap + 1] bytes are left. *)
Lemma strlcat_copy_spec :
  cap < 4294967296 →
  wp (loop (fun '(d, s, n) =>
                b ← load8 s;
                if negb (b =? 0) then
                  if negb (n =? 1) then
                    _ ← store8 d b; continue (d + 1, s + 1, n - 1)
                  else continue (d, s + 1, n)
                else break (d, s)) (d, s, cap + 1))
     (fun r τ => r = (d + stop, s + lenZ str) ∧ τ = copied stop) σ.
Proof.
  intros Hc. pose proof (lenZ_nonneg str).
  apply (wp_loop _ (fun '(d', s', n) τ => ∃ j, let i := Z.min j cap in
    τ = copied i ∧ d' = d + i ∧ s' = s + j ∧ i + n = cap + 1 ∧ 0 <= j <= lenZ str)
    _ (fun x => s + lenZ str - x.1.2)).
  - intros [[d' s'] n] τ (j & -> & -> & -> & En & Hj). wp_step.
    apply wp_bounded_load; [lia..|]. destruct (negb (chr str j =? 0)) eqn:E; b2p.
    + assert (j ≠ lenZ str) by (intros ->; by rewrite chr_end in E).
      destruct (negb (n =? 1)) eqn:E1; b2p.
      * replace (Z.min j cap) with j by lia. wp_step. apply wp_bounded_store; [lia|].
        wp_step. split; [|simpl; lia]. exists (j + 1).
        replace (Z.min (j + 1) cap) with (j + 1) by lia. split; [done|]. lia.
      * wp_step. split; [|simpl; lia]. exists (j + 1).
        replace (Z.min (j + 1) cap) with (Z.min j cap) by lia. split; [done|]. lia.
    + apply chr_zero in E; [|apply Hs|lia]. subst j. wp_step.
      rewrite (Z.min_comm (lenZ str)). done.
  - exists 0. cbv zeta. replace (Z.min 0 cap) with 0 by lia. rewrite copied_0. split; [done|]. lia.
  - intros [[d' s'] n] τ (j & _ & _ & -> & _ & ?). simpl. lia.
  - simpl. lia.
Qed.

Lemma wp_bounded_again i Q :
  i = stop → Q tt (copied (stop + 1)) → wp (store8 (d + i) 0) Q (copied (stop + 1)).
Proof.
  intros -> HQ. pose proof (lenZ_nonneg str).
  assert (bytes_at (mem (copied (stop + 1))) d (truncated cap str)) as Hb.
  { rewrite bounded_all. apply write_bytes_bytes_at. }
  specialize (Hb stop). rewrite lenZ_truncated, nthZ_truncated_end in Hb by done.
  specialize (Hb ltac:(lia)). apply wp_store8; [rewrite Hb; eauto|].
  rewrite insert_id by done. by destruct (copied _).
Qed.

(** [strncat] from its second loop on. *)
Lemma strncat_copy_spec {R} (k : R) :
  cap < 4294967296 →
  wp (dest ← loop (fun '(dest, src, n) =>
                 if 0 <? n then
                   let n := n - 1 in
                   b ← load8 src; _ ← store8 dest b;
                   if b =? 0 then break (dest + 1 - 1)
                   else continue (dest + 1, src + 1, n)
                 else break dest) (d, s, cap);
      _ ← store8 dest 0;
      mret k) (fun r τ => r = k ∧ τ = copied (stop + 1)) σ.
Proof.
  intros Hc. pose proof (lenZ_nonneg str). wp_step.
  apply (wp_loop _ (fun '(d', s', n) τ => ∃ i, τ = copied i ∧ d' = d + i ∧ s' = s + i ∧
    i + n = cap ∧ 0 <= i <= stop) _ (fun x => x.2)).
  - intros [[d' s'] n] τ (i & -> & -> & -> & En & Hi). destruct (0 <? n) eqn:E; b2p.
    + cbv zeta. wp_step. apply wp_bounded_load; [lia..|].
      destruct (chr str i =? 0) eqn:E0; b2p.
      * rewrite E0. apply chr_zero in E0; [|apply Hs|lia].
        wp_step. apply wp_bounded_end; [lia|]. do 2 wp_step.
        replace (d + i + 1 - 1) with (d + i) by lia. apply wp_bounded_again; [lia|]. by wp_step.
      * assert (i ≠ lenZ str) by (intros ->; by rewrite chr_end in E0).
        wp_step. apply wp_bounded_store; [lia|]. wp_step. split; [|simpl; lia].
        exists (i + 1). split; [done|]. lia.
    + do 2 wp_step. apply wp_bounded_end; [lia|]. by wp_step.
  - exists 0. rewrite copied_0. split; [done|]. lia.
  - intros [[d' s'] n] τ (i & _ & _ & _ & ? & ?). simpl. lia.
  - simpl. lia.
Qed.
End Bounded.

Section Append.
Context (σ : cstate) (d s cap : Z) (dstr str : list Z).
Context (Hds : cstr (mem σ) d dstr) (Hs : cstr (mem σ) s str).
Context (Hcap : 0 <= cap) (Hlen : lenZ str < 4294967296) (Hdlen : lenZ dstr < 4294967296).
Context (Hd : mapped (mem σ) (d + lenZ dstr) (lenZ (truncated cap str))).
Context (Hdisj : d + lenZ dstr + lenZ (truncated cap str) <= s ∨ s + lenZ str + 1 <= d + lenZ dstr).
Context (Hdn : d ≠ NULL) (Hsn : s ≠ NULL).

Lemma find_end_spec siz :
  0 <= siz < 4294967296 →
  wp (loop (fun '(d, n) =>
              if negb (n =? 0) then
                let n := n - 1 in
                b ← load8 d;
                if negb (b =? 0) then continue (d + 1, n) else break d
              else break d) (d, siz))
     (fun r τ => r = d + Z.min siz (lenZ dstr) ∧ τ = σ) σ.
Proof.
  intros Hsiz. pose proof (lenZ_nonneg dstr).
  apply (wp_loop _ (fun '(d', n) τ => τ = σ ∧ ∃ i, d' = d + i ∧ i + n = siz ∧
    0 <= i <= lenZ dstr ∧ 0 <= n) _ (fun x => x.2)).
  - intros [d' n] τ (-> & i & -> & En & Hi & Hn). destruct (negb (n =? 0)) eqn:E; b2p.
    + cbv zeta. wp_step. apply (wp_load_chr _ _ dstr); [done|lia|].
      destruct (negb (chr dstr i =? 0)) eqn:E0; b2p.
      * assert (i ≠ lenZ dstr) by (intros ->; by rewrite chr_end in E0).
        wp_step. split; [|simpl; lia]. split; [done|]. exists (i + 1). lia.
      * apply chr_zero in E0; [|apply Hds|lia]. wp_step. split; [lia|done].
    + wp_step. split; [lia|done].
  - split; [done|]. exists 0. lia.
  - intros [d' n] τ (_ & i & _ & ? & ? & ?). simpl. lia.
  - simpl. lia.
Qed.

Lemma strlcat_spec :
  lenZ dstr + cap + 1 < 4294967296 →
  wp (strlcat d s (lenZ dstr + cap + 1))
     (fun r τ => r = lenZ dstr + lenZ str ∧
                 τ = with_mem (write_bytes (mem σ) (d + lenZ dstr) (truncated cap str)) σ) σ.
Proof.
  intros Hb. pose proof (lenZ_nonneg dstr). pose proof (lenZ_nonneg str). unfold strlcat.
  rewrite (proj2 (Z.eqb_neq d _)), (proj2 (Z.eqb_neq s _)) by done. rewrite andb_false_r.
  simpl (false || false)%bool. do 2 wp_step. eapply wp_mono; [apply find_end_spec; lia|].
  intros d' τ [-> ->]. cbv zeta. replace (Z.min _ (lenZ dstr)) with (lenZ dstr) by lia.
  replace (d + lenZ dstr - d) with (lenZ dstr) by lia.
  replace (lenZ dstr + cap + 1 - lenZ dstr) with (cap + 1) by lia.
  rewrite (proj2 (Z.eqb_neq (cap + 1) 0)) by lia. wp_step.
  eapply wp_mono; [apply (strlcat_copy_spec σ (d + lenZ dstr) s cap str); (done || lia)|].
  intros [d' s'] τ [[= -> ->] ->]. wp_step.
  apply (wp_bounded_end σ (d + lenZ dstr) s cap str); [done..|]. wp_step.
  rewrite bounded_all by done. split; [lia|done].
Qed.

Lemma strncat_spec :
  0 < cap < 2147483648 →
  wp (strncat d s cap)
     (fun r τ => r = d ∧
                 τ = with_mem (write_bytes (mem σ) (d + lenZ dstr) (truncated cap str)) σ) σ.
Proof.
  intros Hb. pose proof (lenZ_nonneg dstr). unfold strncat.
  rewrite (proj2 (Z.eqb_neq d _)), (proj2 (Z.eqb_neq s _)) by done.
  simpl (false || false)%bool. replace (s32 cap) with cap by (unfold s32; dlia).
  rewrite (proj2 (Z.ltb_lt 0 cap)) by lia. wp_step.
  apply (wp_mono _ (fun r τ => r = d + lenZ dstr ∧ τ = σ)).
  2:{ intros d' τ [-> ->]. rewrite <- bounded_all by done.
      apply (strncat_copy_spec σ (d + lenZ dstr) s cap str); done || lia. }
  apply (wp_loop _ (fun d' τ => τ = σ ∧ d <= d' <= d + lenZ dstr) _
    (fun d' => d + lenZ dstr - d')).
  - intros d' τ [-> Hd']. wp_step. replace d' with (d + (d' - d)) by lia.
    apply (wp_load_chr _ _ dstr); [done|lia|].
    destruct (negb _) eqn:E0; b2p; wp_step.
    + split; [|lia]. split; [done|].
      destruct (decide (d' - d = lenZ dstr)) as [E'|]; [by rewrite E', chr_end in E0|lia].
    + apply chr_zero in E0; [|apply Hds|lia]. split; [lia|done].
  - split; [done|lia].
  - intros d' τ [_ ?]. lia.
  - lia.
Qed.
End Append.

(** A buffer of no bytes: [strlcpy] writes nothing, [stccpy] writes a terminator. *)
Lemma strlcpy_zero σ dst src s :
  cstr (mem σ) src s → lenZ s < 4294967296 → strlcpy dst src 0 σ = Ok (lenZ s, σ).
Proof.
  intros Hs Hlen. pose proof (lenZ_nonneg s). apply wp_eq. unfold strlcpy. cbn [Z.eqb negb andb]. do 3 wp_step. cbn [Z.eqb]. do 2 wp_step.
  pose proof (skip_string_spec σ src s 0 Hs ltac:(lia) Hlen) as Hk. rewrite Z.add_0_r in Hk. eapply wp_mono; [exact Hk|].
  intros r τ [-> ->]. wp_step. split; [lia|done].
Qed.
Lemma stccpy_zero σ dst src : is_Some (mem σ !! dst) → stccpy dst src 0 σ = Ok (1, with_mem (<[dst := 0]> (mem σ)) σ).
Proof.
  intros Hd. apply wp_eq. unfold stccpy. wp_step.
  apply (wp_loop _ (fun '(ptr, s, n) τ => ptr = dst ∧ n = 0 ∧ τ = σ) _ (fun _ => 0)); [|done|done|lia].
  intros [[ptr s] n] τ (-> & -> & ->). rewrite (proj2 (Z.ltb_ge 1 0)) by lia. wp_step. wp_step. apply wp_store8; [done|]. wp_step. split; [lia|done].
Qed.

(** C34: [strlcpy] with a buffer of [siz > 0] bytes writes the first [siz - 1]
    characters of the source and a terminator, nothing else, and returns the
    length of the source, so that a result [>= siz] tells truncation; [stccpy]
    writes the same bytes and returns how many it wrote, which is [siz] for a source
    that was truncated and for one that just fits.  With a buffer of 0 bytes
    [strlcpy] writes nothing, while [stccpy] writes a terminator. *)
Theorem strlcpy_stccpy_correct σ dst src siz s :
  cstr (mem σ) src s → 0 < siz < 4294967296 → lenZ s < 4294967296 →
  mapped (mem σ) dst (lenZ (truncated (siz - 1) s)) →
  dst + lenZ (truncated (siz - 1) s) <= src ∨ src + lenZ s + 1 <= dst →
  dst ≠ NULL → src ≠ NULL →
  let τ := with_mem (write_bytes (mem σ) dst (truncated (siz - 1) s)) σ in
  strlcpy dst src siz σ = Ok (lenZ s, τ) ∧
  stccpy dst src siz σ = Ok (Z.min siz (lenZ s + 1), τ) ∧
  strlcpy dst src 0 σ = Ok (lenZ s, σ) ∧
  stccpy dst src 0 σ = Ok (1, with_mem (<[dst := 0]> (mem σ)) σ).
Proof.
  intros Hs Hsiz Hlen Hd Hdisj Hdn Hsn τ. unfold τ. pose proof (lenZ_nonneg s).
  split_and!; [| |by apply strlcpy_zero|apply stccpy_zero, Hd; rewrite lenZ_truncated by lia; lia]; rewrite <- bounded_all by lia.
  - replace (strlcpy dst src siz) with (strlcpy dst src (siz - 1 + 1)) by (f_equal; lia).
    apply wp_eq. eapply (strlcpy_spec σ dst src (siz - 1) s); done || lia.
  - replace (stccpy dst src siz) with (stccpy dst src (siz - 1 + 1)) by (f_equal; lia).
    replace (Z.min siz (lenZ s + 1)) with (Z.min (siz - 1) (lenZ s) + 1) by lia.
    apply wp_eq. eapply (stccpy_spec σ dst src (siz - 1) s); done || lia.
Qed.

Lemma strlcpy_stccpy_correct_witness :
  let σ := CState (write_bytes (write_bytes ∅ 200 (replicate 4 7)) 100
                     [104; 101; 108; 108; 111; 0]) 0 in
  let τ := with_mem (write_bytes (mem σ) 200 [104; 101; 108; 0]) σ in
  strlcpy 200 100 4 σ = Ok (5, τ) ∧ stccpy 200 100 4 σ = Ok (4, τ) ∧
  strlcpy 200 100 0 σ = Ok (5, σ) ∧ stccpy 200 100 0 σ = Ok (1, with_mem (<[200 := 0]> (mem σ)) σ).
Proof.
  apply (strlcpy_stccpy_correct
    (CState (write_bytes (write_bytes ∅ 200 (replicate 4 7)) 100
               [104; 101; 108; 108; 111; 0]) 0) 200 100 4 [104; 101; 108; 108; 111]);
    [by apply cstrb_sound|done|done|by apply mappedb_sound|by right|done|done].
Defined.

(** [strlcat] into a buffer of [siz] bytes that holds a string of less
    than [siz] characters, and [strncat] with a positive count, append a prefix
    of the source and a terminator at the end of the destination string, write
    nothing else, and return the sum of the two lengths and the destination. *)
Theorem strlcat_strncat_correct σ dst src dstr s cap :
  cstr (mem σ) dst dstr → cstr (mem σ) src s →
  0 <= cap → lenZ dstr + cap + 1 < 4294967296 → lenZ s < 4294967296 →
  mapped (mem σ) (dst + lenZ dstr) (lenZ (truncated cap s)) →
  dst + lenZ dstr + lenZ (truncated cap s) <= src ∨ src + lenZ s + 1 <= dst →
  dst ≠ NULL → src ≠ NULL →
  let τ := with_mem (write_bytes (mem σ) (dst + lenZ dstr) (truncated cap s)) σ in
  strlcat dst src (lenZ dstr + cap + 1) σ = Ok (lenZ dstr + lenZ s, τ) ∧
  (0 < cap < 2147483648 → strncat dst src cap σ = Ok (dst, τ)).
Proof.
  intros Hds Hs Hcap Hb Hlen Hd Hdisj Hdn Hsn τ. unfold τ. pose proof (lenZ_nonneg dstr).
  split; [|intros Hc]; apply wp_eq; [apply strlcat_spec|apply strncat_spec]; done || lia.
Qed.

Lemma strlcat_strncat_correct_witness :
  let σ := CState (write_bytes (write_bytes ∅ 200 [97; 98; 0; 7; 7; 7]) 100
                     [104; 101; 108; 0]) 0 in
  let τ := with_mem (write_bytes (mem σ) 202 [104; 101; 0]) σ in
  strlcat 200 100 5 σ = Ok (5, τ) ∧ strncat 200 100 2 σ = Ok (200, τ).
Proof.
  destruct (strlcat_strncat_correct
    (CState (write_bytes (write_bytes ∅ 200 [97; 98; 0; 7; 7; 7]) 100
               [104; 101; 108; 0]) 0) 200 100 [97; 98] [104; 101; 108] 2) as [H1 H2];
    [by apply cstrb_sound|by apply cstrb_sound|done|done|done|by apply mappedb_sound
    |by right|done|done|].
  split; [exact H1|apply H2; lia].
Defined.

(** ** strncpy *)

(** Exactly [n] bytes: a prefix of [s], padded with zeros. *)
Definition padded (n : Z) (s : list Z) : list Z :=
  take (Z.to_nat n) s ++ replicate (Z.to_nat (n - lenZ s)) 0.

Lemma lenZ_padded n s : 0 <= n → lenZ (padded n s) = n.
Proof. intros. unfold padded, lenZ. rewrite length_app, length_take, length_replicate. lia. Qed.

Lemma nthZ_padded n s i :
  0 <= i < n → nthZ (padded n s) i = if i <? lenZ s then chr s i else 0.
Proof.
  intros Hi. unfold padded. destruct (i <? lenZ s) eqn:E; b2p.
  - rewrite nthZ_app_l.
    + rewrite nthZ_take by lia. symmetry. apply chr_nthZ. lia.
    + unfold lenZ in *. rewrite length_take. lia.
  - rewrite nthZ_app_r.
    + unfold nthZ. rewrite lookup_total_replicate_2; [done|].
      unfold lenZ in *. rewrite length_take. lia.
    + unfold lenZ in *. rewrite length_take. lia.
Qed.

Lemma nthZ_padded_chr n s i :
  0 <= i < n → i <= lenZ s → nthZ (padded n s) i = chr s i.
Proof.
  intros Hi Hl. rewrite nthZ_padded by done. destruct (i <? lenZ s) eqn:E; b2p; [done|].
  replace i with (lenZ s) by lia. by rewrite chr_end.
Qed.

Section Strncpy.
Context (σ : cstate) (d s n : Z) (str : list Z).
Context (Hs : cstr (mem σ) s str) (Hm : mem_ok (mem σ)).
Context (Hn : 0 <= n < 4294967296) (Hlen : lenZ str < 4294967296).
Context (Hd : mapped (mem σ) d n) (Hdisj : d + n <= s ∨ s + lenZ str + 1 <= d).
#[local] Abbreviation copied := (copied σ d (padded n str)).

Lemma padded_fill : fill_ok σ d (padded n str).
Proof.
  split; [|by rewrite lenZ_padded by lia]. unfold padded. apply Forall_app. split.
  - apply Forall_take. eapply Forall_impl; [|exact (proj2 Hs)]. unfold is_byte. simpl. lia.
  - apply Forall_replicate. unfold is_byte. lia.
Qed.

(** [c] bytes are still to be written, the terminator not yet read. *)
Definition ncopying (x : Z * Z * Z) (τ : cstate) : Prop :=
  let '(dst, src, c) := x in
  ∃ i, τ = copied i ∧ dst = d + i ∧ src = s + i ∧ i + c = n ∧ 0 <= i <= lenZ str ∧ 0 <= c.

Lemma ncopied_cstr i : 0 <= i <= n → cstr (mem (copied i)) s str.
Proof.
  intros Hi. split; [|apply Hs]. apply copied_out; [|apply Hs|].
  - rewrite lenZ_padded by lia. lia.
  - rewrite lenZ_padded, lenZ_snoc by lia. lia.
Qed.

Lemma wp_ncopy i Q (k : Z → M cstate Q) post :
  0 <= i < n → i <= lenZ str → wp (k (chr str i)) post (copied (i + 1)) →
  wp (b ← load8 (s + i); _ ← store8 (d + i) b; k b) post (copied i).
Proof.
  intros Hi Hl Hk. wp_step. apply (wp_load_chr _ _ str); [apply ncopied_cstr; lia|lia|].
  wp_step. apply (wp_fill_store8 _ _ _ padded_fill); [|by rewrite nthZ_padded_chr|done].
  rewrite lenZ_padded; lia.
Qed.

Lemma strncpy_align_spec :
  n <= 3 ∨ s mod 4 ≠ d mod 4 ∨ (- d) mod 4 <= lenZ str →
  wp (strncpy_align d s n) ncopying σ.
Proof.
  intros Hok. pose proof (lenZ_nonneg str). unfold strncpy_align. rewrite !land_3_mod.
  assert (ncopying (d, s, n) σ) as H0 by (exists 0; rewrite copied_0; split; [done|]; lia).
  destruct (_ && _)%bool eqn:E; [b2p|by wp_step].
  assert ((- d) mod 4 <= lenZ str) as Hk by lia.
  apply (wp_loop _ (fun x τ => ncopying x τ ∧ n - x.2 <= (- d) mod 4) _ (fun x => x.2)).
  - intros [[dst src] c] τ ((i & -> & -> & -> & Ec & Hi & Hc) & Hle). simpl in Hle.
    rewrite land_3_mod. destruct (negb _) eqn:E1; b2p; [|wp_step; by exists i].
    assert (i < (- d) mod 4) as Hik by dlia. assert (i + 1 <= 3) by dlia.
    cbv zeta. apply wp_ncopy; [lia..|].
    destruct (chr str i =? 0) eqn:E2; b2p.
    { apply chr_zero in E2; [lia|apply Hs|lia]. }
    wp_step. assert (u32 (c - 1) = c - 1) as -> by (unfold u32; dlia).
    split; [|simpl; lia]. split; [|simpl; lia]. exists (i + 1). split; [done|]. lia.
  - split; [done|]. simpl. dlia.
  - intros [[dst src] c] τ ((i & _ & _ & _ & _ & _ & ?) & _). done.
  - simpl. lia.
Qed.

Lemma strncpy_words_spec x τ :
  ncopying x τ → wp (strncpy_words x.1.1 x.1.2 x.2) ncopying τ.
Proof.
  intros Hx. unfold strncpy_words.
  destruct (_ && _)%bool eqn:E; [|wp_step; by destruct x as [[??]?]].
  apply andb_true_iff in E as [[As Ad]%aligned_args _].
  apply (wp_loop _ (fun x τ => ncopying x τ ∧ x.1.1 mod 4 = 0 ∧ x.1.2 mod 4 = 0)
    _ (fun x => x.2)).
  - clear x τ Hx As Ad. intros [[dst src] c] τ ((i & -> & -> & -> & Ec & Hi & Hc) & A1 & A2).
    simpl in A1, A2. destruct (4 <=? c) eqn:E; b2p; [|wp_step; by exists i].
    assert (cstr (mem (copied i)) s str) as Hci by (apply ncopied_cstr; lia).
    wp_step. apply wp_cstr_load32 with str; [done| |done..|].
    { apply (copied_mem_ok _ _ _ padded_fill); [done|]. rewrite lenZ_padded; lia. }
    intros b0 b1 b2 b3 B0 B1 B2 B3 Hz.
    pose proof (DETECTNULL_spec b0 b1 b2 b3 B0 B1 B2 B3) as Hdn.
    destruct (DETECTNULL _ =? 0) eqn:E1; b2p; [|wp_step; by exists i].
    assert (i + 4 <= lenZ str) by tauto. cbv zeta. wp_step.
    eapply wp_load32_at; [apply Hci|done|lia|rewrite lenZ_snoc; lia|]. wp_step.
    change (nthZ (str ++ [0])) with (chr str).
    rewrite <- !(nthZ_padded_chr n str) by lia.
    apply (wp_fill_store32 _ _ _ padded_fill); [lia|rewrite lenZ_padded; lia|done|].
    wp_step. split; [|simpl; lia]. split; [|simpl; split; dlia].
    exists (i + 4). split; [done|]. lia.
  - by destruct x as [[??]?].
  - intros [[dst src] c] τ' ((i & _ & _ & _ & _ & _ & ?) & _). done.
  - destruct x as [[dst src] c], Hx as (i & _ & _ & _ & ? & ? & ?). simpl. lia.
Qed.

Definition npadding (x : Z * Z) (τ : cstate) : Prop :=
  let '(dst, c) := x in
  ∃ i, τ = copied i ∧ dst = d + i ∧ i + c = n ∧ 0 <= i ∧ 0 <= c ∧ (c = 0 ∨ lenZ str < i).

Lemma strncpy_bytes_spec x τ :
  ncopying x τ → wp (strncpy_bytes x.1.1 x.1.2 x.2) npadding τ.
Proof.
  intros Hx. apply (wp_loop _ ncopying _ (fun x => x.2)).
  - clear x τ Hx. intros [[dst src] c] τ (i & -> & -> & -> & Ec & Hi & Hc).
    destruct (0 <? c) eqn:E; b2p; [|wp_step; exists i; split; [done|]; lia].
    cbv zeta. apply wp_ncopy; [lia..|]. destruct (chr str i =? 0) eqn:E2; b2p; wp_step.
    + apply chr_zero in E2; [|apply Hs|lia]. exists (i + 1). split; [done|]. lia.
    + assert (i ≠ lenZ str) by (intros ->; by rewrite chr_end in E2).
      split; [|simpl; lia]. exists (i + 1). split; [done|]. lia.
  - by destruct x as [[??]?].
  - intros [[dst src] c] τ' (i & _ & _ & _ & _ & _ & ?). done.
  - destruct x as [[dst src] c], Hx as (i & _ & _ & _ & ? & ? & ?). simpl. lia.
Qed.

Lemma strncpy_pad_spec x τ :
  npadding x τ → wp (strncpy_pad x.1 x.2) (fun _ τ => τ = copied n) τ.
Proof.
  intros Hx. apply (wp_loop _ npadding _ (fun x => x.2)).
  - clear x τ Hx. intros [dst c] τ (i & -> & -> & Ec & Hi & Hc & Hp).
    destruct (0 <? c) eqn:E; b2p; [|wp_step; f_equal; lia].
    wp_step. apply (wp_fill_store8 _ _ _ padded_fill); [rewrite lenZ_padded; lia| |].
    { rewrite nthZ_padded by lia. by rewrite (proj2 (Z.ltb_ge i (lenZ str))) by lia. }
    wp_step. split; [|simpl; lia]. exists (i + 1). split; [done|]. lia.
  - by destruct x as [??].
  - intros [dst c] τ' (i & _ & _ & _ & _ & ? & _). done.
  - destruct x as [dst c], Hx as (i & _ & _ & ? & ? & ? & _). simpl. lia.
Qed.

Lemma strncpy_spec :
  n <= 3 ∨ s mod 4 ≠ d mod 4 ∨ (- d) mod 4 <= lenZ str →
  wp (strncpy d s n) (fun r τ => r = d ∧ τ = copied n) σ.
Proof.
  intros Hok. unfold strncpy. wp_step. eapply wp_mono; [by apply strncpy_align_spec|].
  intros [[d1 s1] c1] τ1 H1. wp_step.
  eapply wp_mono; [by apply (strncpy_words_spec (d1, s1, c1))|].
  intros [[d2 s2] c2] τ2 H2. wp_step.
  eapply wp_mono; [by apply (strncpy_bytes_spec (d2, s2, c2))|].
  intros [d3 c3] τ3 H3. wp_step. eapply wp_mono; [by apply (strncpy_pad_spec (d3, c3))|].
  intros _ τ4 ->. by wp_step.
Qed.
End Strncpy.

(** [strncpy] writes exactly [count] bytes, the source string cut to
    [count] or padded with zeros, and returns [dst] - unless the terminator lies
    before the first word boundary of equally misaligned pointers and
    [count > 3], the case of [strncpy_short_prefix]. *)
Theorem strncpy_correct σ dst src count s :
  cstr (mem σ) src s → mem_ok (mem σ) →
  0 <= count < 4294967296 → lenZ s < 4294967296 →
  mapped (mem σ) dst count → dst + count <= src ∨ src + lenZ s + 1 <= dst →
  count <= 3 ∨ src mod 4 ≠ dst mod 4 ∨ (- dst) mod 4 <= lenZ s →
  strncpy dst src count σ =
  Ok (dst, with_mem (write_bytes (mem σ) dst (padded count s)) σ).
Proof.
  intros. rewrite <- copied_all. rewrite lenZ_padded by lia. apply wp_eq.
  by apply strncpy_spec.
Qed.

Lemma strncpy_correct_witness :
  let σ := CState (write_bytes (write_bytes ∅ 200 (replicate 12 7)) 100
                     [104; 101; 108; 108; 111; 0; 9; 9]) 0 in
  strncpy 201 101 9 σ =
  Ok (201, with_mem (write_bytes (mem σ) 201 [101; 108; 108; 111; 0; 0; 0; 0; 0]) σ).
Proof.
  apply (strncpy_correct
    (CState (write_bytes (write_bytes ∅ 200 (replicate 12 7)) 100
               [104; 101; 108; 108; 111; 0; 9; 9]) 0) 201 101 9 [101; 108; 108; 111]);
    [by apply cstrb_sound|by apply mem_okb_sound|done|done|by apply mappedb_sound
    |by right|right; right; done].
Defined.

(** a string that ends before the word boundary is not padded: the bytes
    that follow its terminator in the source are copied instead. *)
Theorem strncpy_short_prefix :
  let σ := CState (write_bytes (write_bytes ∅ 200 (replicate 12 7)) 100
                     [104; 101; 0; 88; 89; 90; 0; 9]) 0 in
  cstr (mem σ) 101 [101] ∧
  strncpy 201 101 5 σ =
  Ok (201, with_mem (write_bytes (mem σ) 201 [101; 0; 88; 89; 90]) σ).
Proof. split; [by apply cstrb_sound|]. vm_compute. reflexivity. Qed.
