(* ===== verification/StrToNum.v ===== *)
(** * Numbers from strings

    stdlib/strtol.c, strtoul.c, strtoll.c, strtoull.c and inttypes/strtoimax.c,
    strtoumax.c.  The six functions have the same body but for the type of the
    sum, the results for an overflow, and [strtoumax], which moves [stop] along
    with the digits; [strto] is that body, with the conversion to the type
    ([wrap]), those results ([overflow]) and that difference ([advance]) as
    parameters. *)

From stdpp Require Import base gmap list numbers.
From S2P Require Import Prelude CMem Words Ctype StrScan.
Open Scope Z_scope.

(** ** Definitions *)

(** Skip all leading blanks: the position and the character there. *)
Definition strto_blanks (str : Z) : M cstate (Z * Z) :=
  loop (fun str =>
          c ← load8 str;
          if negb (c =? 0) then
            if isspace c =? 0 then break (str, c) else continue (str + 1)
          else break (str, c)) str.

(** The sign: whether it is negative, and the position after it. *)
Definition strto_sign (str c : Z) : bool * Z :=
  if c =? 45 then (true, str + 1)
  else if c =? 43 then (false, str + 1) else (false, str).

(** The prefix and the base: the base, the position and the character there. *)
Definition strto_base (str base : Z) : M cstate (Z * Z * Z) :=
  c ← load8 str;
  '(base, str, c) ←
    (if (base =? 0) || (base =? 16) then
       if c =? 48 then
         x ← load8 (str + 1);
         if (x =? 120) || (x =? 88) then
           c ← load8 (str + 2); mret (16, str + 2, c)
         else mret (base, str, c)
       else mret (base, str, c)
     else mret (base, str, c));
  let base := if base =? 0 then (if c =? 48 then 8 else 10) else base in
  mret (base, str, c).

(** The value of a digit; [None] where the loop breaks. *)
Definition strto_digit (c : Z) : option Z :=
  if (48 <=? c) && (c <=? 57) then Some (c - 48)
  else if 97 <=? c then Some (c - (97 - 10))
  else if 65 <=? c then Some (c - (65 - 10))
  else None.

Section StrTo.
Context (wrap : Z → Z) (overflow : bool → Z) (advance : bool).

(** The digits: the sum, the position and the number of digits; [inl] is the
    jump to the end after an overflow. *)
Definition strto_digits (is_negative : bool) (base str c : Z)
  : M cstate ((Z * Z * Z) + (Z * Z * Z)) :=
  if (1 <=? base) && (base <=? 36) then
    loop (fun '(str, c, sum, n) =>
            if negb (c =? 0) then
              match strto_digit c with
              | None => break (inr (sum, str, n))
              | Some c =>
                  if base <=? c then break (inr (sum, str, n))
                  else
                    let new_sum := wrap (base * sum + c) in
                    if new_sum <? sum then
                      _ ← set_errno ERANGE;
                      break (inl (overflow is_negative, str, n))
                    else
                      c ← load8 (str + 1);
                      continue (str + 1, c, new_sum, n + 1)
              end
            else break (inr (sum, str, n))) (str, c, 0, 0)
  else mret (inr (0, str, 0)).

(** The result and where the conversion stopped. *)
Definition strto_number (str base : Z) : M cstate (Z * Z) :=
  let stop := str in
  if str =? NULL then _ ← set_errno EFAULT; mret (0, stop)
  else if base <? 0 then _ ← set_errno ERANGE; mret (0, stop)
  else
    '(str, c) ← strto_blanks str;
    let '(is_negative, str) := strto_sign str c in
    '(base, str, c) ← strto_base str base;
    r ← strto_digits is_negative base str c;
    match r with
    | inl (result, str, num_digits_converted) =>
        mret (result, if advance && negb (num_digits_converted =? 0) then str else stop)
    | inr (sum, str, num_digits_converted) =>
        if num_digits_converted =? 0 then mret (0, stop)
        else mret (if is_negative then wrap (- sum) else sum, str)
    end.

Definition strto (str ptr base : Z) : M cstate Z :=
  '(result, stop) ← strto_number str base;
  _ ← (if negb (ptr =? NULL) then store32 ptr stop else mret tt);
  mret result.
End StrTo.

Definition LONG_MIN : Z := -2147483648.
Definition LONG_MAX : Z := 2147483647.
Definition ULONG_MAX : Z := 4294967295.
Definition INTMAX_MIN : Z := -9223372036854775808.
Definition INTMAX_MAX : Z := 9223372036854775807.
Definition UINTMAX_MAX : Z := 18446744073709551615.

Definition strtol : Z → Z → Z → M cstate Z :=
  strto s32 (fun is_negative => if is_negative then LONG_MIN else LONG_MAX) false.
Definition strtoul : Z → Z → Z → M cstate Z := strto u32 (fun _ => ULONG_MAX) false.
Definition strtoll : Z → Z → Z → M cstate Z :=
  strto s64 (fun is_negative => if is_negative then LONG_MIN else LONG_MAX) false.
Definition strtoull : Z → Z → Z → M cstate Z := strto u64 (fun _ => ULONG_MAX) false.
Definition strtoimax : Z → Z → Z → M cstate Z :=
  strto s64 (fun is_negative => if is_negative then INTMAX_MIN else INTMAX_MAX) false.
Definition strtoumax : Z → Z → Z → M cstate Z := strto u64 (fun _ => UINTMAX_MAX) true.

(** ** Reference: the number at the start of a string *)

Definition is_blank (c : Z) : bool := (c =? 32) || between 9 c 13.

Fixpoint skip_blanks (s : list Z) : list Z :=
  match s with
  | c :: s' => if is_blank c then skip_blanks s' else s
  | [] => []
  end.

Definition take_sign (s : list Z) : bool * list Z :=
  match s with
  | c :: s' => if c =? 45 then (true, s') else if c =? 43 then (false, s') else (false, s)
  | [] => (false, [])
  end.

(** The base in force and the digits and what follows them. *)
Definition take_prefix (base : Z) (s : list Z) : Z * list Z :=
  match s with
  | z :: x :: s' =>
      if ((base =? 0) || (base =? 16)) && (z =? 48) && ((x =? 120) || (x =? 88)) then (16, s')
      else if base =? 0 then (if z =? 48 then 8 else 10, s) else (base, s)
  | z :: _ => (if base =? 0 then (if z =? 48 then 8 else 10) else base, s)
  | [] => (if base =? 0 then 10 else base, s)
  end.

(** The value of a digit or letter. *)
Definition digit_value (c : Z) : option Z :=
  if c_digit c then Some (c - 48)
  else if c_lower c then Some (c - 97 + 10)
  else if c_upper c then Some (c - 65 + 10)
  else None.

Fixpoint take_digits (base : Z) (s : list Z) : list Z :=
  match s with
  | c :: s' => match digit_value c with
               | Some v => if v <? base then v :: take_digits base s' else []
               | None => []
               end
  | [] => []
  end.

Definition digits_value (base : Z) (ds : list Z) : Z :=
  foldl (fun v d => base * v + d) 0 ds.

(** Sign, base, digits, and how many characters come before the digits. *)
Definition parse_number (base : Z) (s : list Z) : bool * Z * list Z * Z :=
  let '(neg, s1) := take_sign (skip_blanks s) in
  let '(b, s2) := take_prefix base s1 in
  (neg, b, take_digits b s2, lenZ s - lenZ s2).

(** The bytes of a word, as a store writes them. *)
Definition word_bytes (v : Z) : list Z :=
  [v / 16777216; v / 65536 mod 256; v / 256 mod 256; v mod 256].

(** ** Strings by their head *)

Definition hd0 (s : list Z) : Z := match s with c :: _ => c | [] => 0 end.

Lemma cstr_tail m p c s : cstr m p (c :: s) → cstr m (p + 1) s.
Proof.
  intros [Hb Hf]. inversion_clear Hf. split; [|done]. intros i Hi.
  rewrite <- Z.add_assoc, (Hb (1 + i)).
  - simpl. by rewrite nthZ_cons_S, Z.add_simpl_l by lia.
  - simpl. rewrite lenZ_cons. lia.
Qed.

Lemma wp_load_hd σ p s Q : cstr (mem σ) p s → Q (hd0 s) σ → wp (load8 p) Q σ.
Proof.
  intros [Hb _] HQ. apply (wp_load8 _ (hd0 s)); [|done]. specialize (Hb 0).
  rewrite Z.add_0_r in Hb. rewrite Hb by (rewrite lenZ_snoc; pose proof (lenZ_nonneg s); lia).
  by destruct s.
Qed.

Lemma cstr_char m p c s : cstr m p (c :: s) → 0 < c < 256.
Proof. intros [_ H]. by inversion H. Qed.

(** [q] is where the suffix [l] of the string [s] at [p] starts. *)
Definition suffix_at (σ : cstate) (p : Z) (s : list Z) (q : Z) (l : list Z) : Prop :=
  cstr (mem σ) q l ∧ q = p + (lenZ s - lenZ l) ∧ lenZ l <= lenZ s.

Lemma suffix_tail σ p s q c l : suffix_at σ p s q (c :: l) → suffix_at σ p s (q + 1) l.
Proof.
  intros (H & -> & Hl). rewrite lenZ_cons in *. split; [by eapply cstr_tail|]. lia.
Qed.

Section StrToSpec.
Context (σ : cstate) (p : Z) (s : list Z).
Context (Hs : cstr (mem σ) p s) (Hlen : lenZ s < 4294967296).
#[local] Abbreviation at_ := (suffix_at σ p s).

Lemma blanks_spec :
  wp (strto_blanks p)
     (fun '(q, c) τ => τ = σ ∧ at_ q (skip_blanks s) ∧ c = hd0 (skip_blanks s)) σ.
Proof.
  apply (wp_loop _ (fun q τ => τ = σ ∧ ∃ l, at_ q l ∧ skip_blanks l = skip_blanks s) _
    (fun q => p + lenZ s - q)).
  - intros q τ (-> & l & Hl & El). wp_step. apply (wp_load_hd _ _ l); [apply Hl|].
    destruct l as [|c l]; simpl; [wp_step; rewrite <- El; by split|].
    pose proof (cstr_char _ _ _ _ (proj1 Hl)) as Hc.
    rewrite (proj2 (Z.eqb_neq c 0)) by lia. simpl (negb false).
    pose proof (isspace_spec c ltac:(lia)) as Hsp. simpl in El. unfold is_blank in El.
    rewrite <- Hsp in El. destruct (isspace c =? 0); simpl in El; wp_step.
    + rewrite <- El. by split.
    + split; [|lia]. split; [done|]. exists l. split; [by eapply suffix_tail|done].
  - split; [done|]. exists s. split; [|done]. split; [done|lia].
  - intros q τ (_ & l & (_ & -> & _) & _). pose proof (lenZ_nonneg l). lia.
  - lia.
Qed.

Lemma sign_spec q l neg l' :
  at_ q l → take_sign l = (neg, l') →
  ∃ q', strto_sign q (hd0 l) = (neg, q') ∧ at_ q' l'.
Proof.
  intros Hl E. unfold strto_sign. destruct l as [|c l]; simpl in *.
  { injection E as <- <-. by exists q. }
  destruct (c =? 45); [injection E as <- <-; eexists; split; [done|by eapply suffix_tail]|].
  destruct (c =? 43); injection E as <- <-; eexists; (split; [done|]); [by eapply suffix_tail|done].
Qed.

Lemma take_prefix_none base l :
  ((base =? 0) || (base =? 16)) && (hd0 l =? 48) && ((hd0 (tail l) =? 120) || (hd0 (tail l) =? 88))
    = false →
  take_prefix base l = (if base =? 0 then (if hd0 l =? 48 then 8 else 10) else base, l).
Proof.
  intros H. destruct l as [|z [|x l]]; simpl in *; [done|done|]. rewrite H.
  by destruct (base =? 0).
Qed.

Lemma base_spec q l base :
  at_ q l →
  wp (strto_base q base)
     (fun '(b, q', c) τ => τ = σ ∧ b = (take_prefix base l).1 ∧
        at_ q' (take_prefix base l).2 ∧ c = hd0 (take_prefix base l).2) σ.
Proof.
  intros Hl. unfold strto_base. wp_step. apply (wp_load_hd _ _ l); [apply Hl|]. wp_step.
  pose proof (take_prefix_none base l) as HN.
  destruct ((base =? 0) || (base =? 16))%bool eqn:Eb;
    [|do 2 wp_step; rewrite HN by done; by split].
  destruct (hd0 l =? 48) eqn:Ez;
    [|do 2 wp_step; rewrite HN by done; simpl; rewrite Ez; by destruct (base =? 0)].
  destruct l as [|z l]; [done|]. simpl in Ez. pose proof (suffix_tail _ _ _ _ _ _ Hl) as Hl1.
  wp_step. apply (wp_load_hd _ _ l); [apply Hl1|].
  destruct ((hd0 l =? 120) || (hd0 l =? 88))%bool eqn:Ex.
  2:{ do 2 wp_step. rewrite HN by exact Ex. simpl. rewrite Ez.
      by destruct (base =? 0). }
  destruct l as [|x l]; [done|]. simpl in Ex. apply suffix_tail in Hl1.
  wp_step. replace (q + 2) with (q + 1 + 1) by lia. apply (wp_load_hd _ _ l); [apply Hl1|].
  do 2 wp_step. simpl. rewrite Eb, Ez, Ex. by split.
Qed.

(** ** Digits *)

Lemma digit_spec c b :
  is_byte c → b <= 36 →
  match strto_digit c with
  | Some v => if b <=? v then None else Some v
  | None => None
  end =
  match digit_value c with
  | Some v => if v <? b then Some v else None
  | None => None
  end.
Proof.
  unfold is_byte, strto_digit, digit_value, c_digit, c_lower, c_upper, between. intros Hc Hb.
  destruct (48 <=? c) eqn:E1, (c <=? 57) eqn:E2, (97 <=? c) eqn:E3, (c <=? 122) eqn:E4,
    (65 <=? c) eqn:E5, (c <=? 90) eqn:E6; b2p; try lia; simpl; try done;
    repeat match goal with
    | |- context [if ?x <=? ?y then _ else _] => destruct (x <=? y) eqn:?; b2p
    | |- context [if ?x <? ?y then _ else _] => destruct (x <? y) eqn:?; b2p
    end; try lia; try done; f_equal; lia.
Qed.

Lemma digits_value_snoc b ds d : digits_value b (ds ++ [d]) = b * digits_value b ds + d.
Proof. unfold digits_value. by rewrite foldl_app. Qed.

Lemma digits_value_nonneg b ds : 1 <= b → Forall (fun d => 0 <= d) ds → 0 <= digits_value b ds.
Proof using Type.
  clear Hs Hlen. intros Hb. induction ds as [|d ds IH] using rev_ind; intros Hf; [done|].
  apply Forall_app in Hf as [H1 H2]. rewrite Forall_singleton in H2.
  rewrite digits_value_snoc. specialize (IH H1). nia.
Qed.

Lemma digits_value_mono b ds ds' :
  1 <= b → Forall (fun d => 0 <= d) (ds ++ ds') → digits_value b ds <= digits_value b (ds ++ ds').
Proof.
  intros Hb. induction ds' as [|d ds' IH] using rev_ind; intros Hf; [by rewrite app_nil_r|].
  rewrite app_assoc in *. apply Forall_app in Hf as [H1 H2]. rewrite Forall_singleton in H2.
  rewrite digits_value_snoc. pose proof (digits_value_nonneg b _ Hb H1). specialize (IH H1). nia.
Qed.

Lemma take_digits_nonneg b l : Forall (fun d => 0 <= d) (take_digits b l).
Proof.
  induction l as [|c l IH]; simpl; [constructor|].
  destruct (digit_value c) as [v|] eqn:E; [|constructor]. destruct (v <? b); constructor; [|done].
  unfold digit_value, c_digit, c_lower, c_upper, between in E.
  repeat case_match; simplify_eq; b2p; lia.
Qed.

Section Digits.
Context (wrap : Z → Z) (overflow : bool → Z) (MAX : Z).
Context (Hwrap : ∀ z, 0 <= z <= MAX → wrap z = z).

Lemma digits_spec neg b q l :
  1 <= b <= 36 → at_ q l → digits_value b (take_digits b l) <= MAX →
  wp (strto_digits wrap overflow neg b q (hd0 l))
     (fun r τ => τ = σ ∧ let ds := take_digits b l in
        r = inr (digits_value b ds, q + lenZ ds, lenZ ds)) σ.
Proof.
  intros Hb Hl Hmax. unfold strto_digits.
  rewrite (proj2 (Z.leb_le 1 b)), (proj2 (Z.leb_le b 36)) by lia. simpl (true && true)%bool.
  cbn match.
  apply (wp_loop _ (fun '(str, c, sum, n) τ => τ = σ ∧ ∃ ds1 l1, at_ str l1 ∧ c = hd0 l1 ∧
    take_digits b l = ds1 ++ take_digits b l1 ∧ sum = digits_value b ds1 ∧ str = q + lenZ ds1 ∧
    n = lenZ ds1) _ (fun '(str, _, _, _) => p + lenZ s - str)).
  - intros [[[str c] sum] n] τ (-> & ds1 & l1 & Hl1 & -> & Eds & -> & -> & ->).
    destruct l1 as [|c l1]; simpl in *; [wp_step; rewrite Eds, app_nil_r; done|].
    pose proof (cstr_char _ _ _ _ (proj1 Hl1)) as Hc.
    rewrite (proj2 (Z.eqb_neq c 0)) by lia. simpl.
    pose proof (digit_spec c b ltac:(unfold is_byte; lia) ltac:(lia)) as HD.
    destruct (strto_digit c) as [v|].
    2:{ wp_step. destruct (digit_value c) as [v'|]; [destruct (v' <? b)|];
          simplify_eq; rewrite Eds, app_nil_r; done. }
    destruct (b <=? v) eqn:Ev.
    { wp_step. destruct (digit_value c) as [v'|]; [destruct (v' <? b)|];
        simplify_eq; rewrite Eds, app_nil_r; done. }
    destruct (digit_value c) as [v'|]; [|done]. destruct (v' <? b); simplify_eq.
    assert (take_digits b l = (ds1 ++ [v']) ++ take_digits b l1) as Eds'
      by (rewrite Eds, <- app_assoc; done).
    pose proof (take_digits_nonneg b l) as Hnn. rewrite Eds' in Hnn, Hmax.
    pose proof (digits_value_mono b _ _ ltac:(lia) Hnn) as Hmono.
    apply Forall_app in Hnn as [Hn1 _]. pose proof Hn1 as [Hn2 Hn3]%Forall_app. rewrite Forall_singleton in Hn3.
    pose proof (digits_value_nonneg b _ ltac:(lia) Hn1). pose proof (digits_value_nonneg b _ ltac:(lia) Hn2).
    rewrite digits_value_snoc in *. cbv zeta. rewrite Hwrap by lia.
    rewrite (proj2 (Z.ltb_ge _ (digits_value b ds1))) by nia.
    wp_step. apply (wp_load_hd _ _ l1); [by eapply cstr_tail, Hl1|]. wp_step.
    split; [|lia]. split; [done|]. exists (ds1 ++ [v']), l1. rewrite lenZ_snoc, digits_value_snoc.
    split; [by eapply suffix_tail|]. repeat (split; [done || lia|]). lia.
  - split; [done|]. exists [], l. change (lenZ []) with 0. rewrite Z.add_0_r. by repeat split; try apply Hl.
  - intros [[[str c] sum] n] τ (_ & ds1 & l1 & (_ & -> & _) & _). pose proof (lenZ_nonneg l1). lia.
  - destruct Hl as (_ & -> & ?). pose proof (lenZ_nonneg l). lia.
Qed.
End Digits.
End StrToSpec.

Lemma word_bytes_be32 v :
  0 <= v < 4294967296 →
  v = be32 (v / 16777216) (v / 65536 mod 256) (v / 256 mod 256) (v mod 256) ∧
  Forall is_byte (word_bytes v).
Proof.
  intros Hv. unfold be32, word_bytes. split; [dlia|].
  repeat constructor; unfold is_byte; dlia.
Qed.

Lemma wp_store_word ptr v Q σ :
  ptr mod 4 = 0 → mapped (mem σ) ptr 4 → 0 <= v < 4294967296 →
  Q tt (with_mem (write_bytes (mem σ) ptr (word_bytes v)) σ) → wp (store32 ptr v) Q σ.
Proof.
  intros Ha Hm Hv HQ. destruct (word_bytes_be32 v Hv) as [E Hb]. rewrite E at 1.
  unfold word_bytes in Hb. repeat match goal with H : Forall _ (_ :: _) |- _ => inversion_clear H end.
  by apply wp_store32.
Qed.

(** What a conversion returns and where it stops: zero and the start of the
    string if there is no digit. *)
Definition number_result (wrap : Z → Z) (base : Z) (s : list Z) : Z :=
  let '(neg, b, ds, _) := parse_number base s in
  let v := digits_value b ds in
  match ds with [] => 0 | _ => if neg then wrap (- v) else v end.

Definition number_stop (base : Z) (s : list Z) : Z :=
  let '(_, _, ds, off) := parse_number base s in
  match ds with [] => 0 | _ => off + lenZ ds end.

Definition number_value (base : Z) (s : list Z) : Z :=
  let '(_, b, ds, _) := parse_number base s in digits_value b ds.

Definition store_stop (σ : cstate) (ptr stop : Z) : cstate :=
  if ptr =? NULL then σ else with_mem (write_bytes (mem σ) ptr (word_bytes stop)) σ.

Lemma skip_blanks_le l : lenZ (skip_blanks l) <= lenZ l.
Proof.
  induction l as [|c l IH]; simpl; [done|]. destruct (is_blank c); rewrite ?lenZ_cons; lia.
Qed.

Lemma take_digits_le b l : lenZ (take_digits b l) <= lenZ l.
Proof.
  induction l as [|c l IH]; simpl; [done|]. rewrite lenZ_cons. pose proof (lenZ_nonneg l).
  destruct (digit_value c) as [v|]; [|change (lenZ []) with 0; lia].
  destruct (v <? b); [rewrite lenZ_cons; lia|change (lenZ []) with 0; lia].
Qed.

Lemma take_prefix_base base l : 0 <= base <= 36 → base = 0 ∨ 2 <= base → 1 <= (take_prefix base l).1 <= 36.
Proof.
  intros H1 H2. destruct l as [|z [|x l]]; simpl; repeat case_match; simpl; b2p; lia.
Qed.

Section StrToCorrect.
Context (wrap : Z → Z) (overflow : bool → Z) (advance : bool) (MAX : Z).
Context (Hwrap : ∀ z, 0 <= z <= MAX → wrap z = z).

Lemma strto_number_spec σ p s base :
  cstr (mem σ) p s → lenZ s < 4294967296 → p ≠ NULL → 0 <= base <= 36 → base = 0 ∨ 2 <= base →
  number_value base s <= MAX →
  wp (strto_number wrap overflow advance p base)
     (fun '(r, stop) τ => τ = σ ∧ r = number_result wrap base s ∧
        stop = p + number_stop base s ∧ 0 <= number_stop base s <= lenZ s) σ.
Proof.
  intros Hs Hlen Hp Hb Hb2 Hmax. unfold strto_number.
  rewrite (proj2 (Z.eqb_neq p NULL)), (proj2 (Z.ltb_ge base 0)) by (done || lia).
  wp_step. eapply wp_mono; [by apply blanks_spec|].
  intros [q c] τ (-> & H1 & ->).
  unfold number_value, number_result, number_stop, parse_number in *.
  destruct (take_sign (skip_blanks s)) as [neg l1] eqn:Es.
  destruct (sign_spec _ _ _ _ _ _ _ H1 Es) as (q1 & -> & H2). wp_step.
  eapply wp_mono; [by apply base_spec|]. intros [[b q2] c] τ (-> & Eb & H3 & ->).
  pose proof (take_prefix_base base l1 Hb Hb2) as Hb'.
  destruct (take_prefix base l1) as [b' l2] eqn:Ep. cbn [fst snd] in *. subst b'. wp_step.
  eapply wp_mono; [by eapply (digits_spec _ _ _ Hlen)|]. intros r τ (-> & ->).
  destruct H3 as (_ & -> & Hle). pose proof (take_digits_le b l2). pose proof (lenZ_nonneg l2).
  pose proof (lenZ_nonneg s). set (ds := take_digits b l2) in *.
  destruct ds as [|d ds'] eqn:Eds.
  - change (lenZ []) with 0. simpl (0 =? 0). repeat wp_step. split; [done|]. split; [done|]. lia.
  - pose proof (lenZ_nonneg ds'). rewrite lenZ_cons in *.
    rewrite (proj2 (Z.eqb_neq (1 + lenZ ds') 0)) by lia. repeat wp_step.
    split; [done|]. split; [by destruct neg|]. lia.
Qed.

Lemma strto_spec σ p ptr s base :
  cstr (mem σ) p s → 0 < p → p + lenZ s < 4294967296 → 0 <= base <= 36 → base = 0 ∨ 2 <= base →
  number_value base s <= MAX → ptr = NULL ∨ (ptr mod 4 = 0 ∧ mapped (mem σ) ptr 4) →
  wp (strto wrap overflow advance p ptr base)
     (fun r τ => r = number_result wrap base s ∧
                 τ = store_stop σ ptr (p + number_stop base s)) σ.
Proof.
  intros Hs Hp Hlen Hb Hb2 Hmax Hptr. unfold strto, store_stop. wp_step.
  eapply wp_mono; [apply strto_number_spec; (done || unfold NULL; lia)|].
  intros [r stop] τ (-> & -> & -> & Hst). wp_step.
  destruct (ptr =? NULL) eqn:E; b2p; simpl; [by do 2 wp_step|].
  destruct Hptr as [->|[Ha Hm]]; [done|].
  apply wp_store_word; [done|done|lia|]. by wp_step.
Qed.
End StrToCorrect.

Lemma s32_wrap z : 0 <= z <= LONG_MAX → s32 z = z.
Proof. unfold LONG_MAX, s32. intros. dlia. Qed.
Lemma u32_wrap z : 0 <= z <= ULONG_MAX → u32 z = z.
Proof. unfold ULONG_MAX, u32. intros. apply Z.mod_small. lia. Qed.
Lemma s64_wrap z : 0 <= z <= INTMAX_MAX → s64 z = z.
Proof. unfold INTMAX_MAX, s64. intros. dlia. Qed.
Lemma u64_wrap z : 0 <= z <= UINTMAX_MAX → u64 z = z.
Proof. unfold UINTMAX_MAX, u64. intros. apply Z.mod_small. lia. Qed.

(** C33: for every base and every string whose digits stand for a value within
    the type, the six conversions return that value with its sign, 0 if there is
    no digit; they store where they stopped through a non-null [ptr], and change
    nothing else. *)
Theorem strto_correct σ p ptr s base :
  cstr (mem σ) p s → 0 < p → p + lenZ s < 4294967296 → 0 <= base <= 36 → base = 0 ∨ 2 <= base →
  ptr = NULL ∨ (ptr mod 4 = 0 ∧ mapped (mem σ) ptr 4) →
  let v := number_value base s in
  let τ := store_stop σ ptr (p + number_stop base s) in
  (v <= LONG_MAX → strtol p ptr base σ = Ok (number_result s32 base s, τ)) ∧
  (v <= ULONG_MAX → strtoul p ptr base σ = Ok (number_result u32 base s, τ)) ∧
  (v <= INTMAX_MAX → strtoll p ptr base σ = Ok (number_result s64 base s, τ)) ∧
  (v <= UINTMAX_MAX → strtoull p ptr base σ = Ok (number_result u64 base s, τ)) ∧
  (v <= INTMAX_MAX → strtoimax p ptr base σ = Ok (number_result s64 base s, τ)) ∧
  (v <= UINTMAX_MAX → strtoumax p ptr base σ = Ok (number_result u64 base s, τ)).
Proof.
  intros Hs Hp Hlen Hb Hb2 Hptr v τ.
  repeat split; intros Hv; apply wp_eq; eapply strto_spec;
    eauto using s32_wrap, u32_wrap, s64_wrap, u64_wrap.
Qed.

(** "  -0x1fz" in base 0 is -31 and stops at the letter z. *)
Lemma strto_correct_witness :
  let s := [32; 32; 45; 48; 120; 49; 102; 122] in
  let σ := CState (write_bytes (write_bytes ∅ 200 [0; 0; 0; 0]) 100 (s ++ [0])) 0 in
  strtol 100 200 0 σ = Ok (-31, with_mem (write_bytes (mem σ) 200 [0; 0; 0; 107]) σ).
Proof.
  set (s := [32; 32; 45; 48; 120; 49; 102; 122]).
  set (σ := CState (write_bytes (write_bytes ∅ 200 [0; 0; 0; 0]) 100 (s ++ [0])) 0).
  destruct (strto_correct σ 100 200 s 0) as [H _];
    [by apply cstrb_sound|lia|done|lia|by left|right; split; [done|by apply mappedb_sound]|].
  intros s' σ'. change σ' with σ. rewrite H by (vm_compute; congruence).
  vm_compute. reflexivity.
Defined.

(** the overflow test compares the new sum with the old one, which misses
    overflows that wrap above it: "6000000000" is read as 1705032704 without an
    error; and a detected overflow of [strtoll] and [strtoull] gives the limits
    of the 32-bit types. *)
Theorem strto_overflow :
  let big := [54; 48; 48; 48; 48; 48; 48; 48; 48; 48] in
  let huge := [57; 51; 48; 48; 48; 48; 48; 48; 48; 48; 48; 48; 48; 48; 48; 48; 48; 48; 48] in
  let big_huge := [49; 56; 53] ++ replicate 17 48 in
  strtol 100 NULL 10 (CState (write_bytes ∅ 100 (big ++ [0])) 0) =
    Ok (1705032704, CState (write_bytes ∅ 100 (big ++ [0])) 0) ∧
  strtoll 100 NULL 10 (CState (write_bytes ∅ 100 (huge ++ [0])) 0) =
    Ok (LONG_MAX, CState (write_bytes ∅ 100 (huge ++ [0])) ERANGE) ∧
  strtoull 100 NULL 10 (CState (write_bytes ∅ 100 (big_huge ++ [0])) 0) =
    Ok (ULONG_MAX, CState (write_bytes ∅ 100 (big_huge ++ [0])) ERANGE).
Proof. vm_compute. repeat split; reflexivity. Qed.
