(* ===== verification/Calendar.v ===== *)
(** * Calendar arithmetic

    time/convert_time.c, time/timegm.c, time/days_per_date.c, time/weekday.c and
    the ISO 8601 week of time/strftime.c: conversions between seconds since
    1970-01-01 and broken-down time, and day counts.  The reference is the
    proleptic Gregorian calendar, [days_before_year] and [days_before_month]. *)

From stdpp Require Import base list numbers.
From S2P Require Import Prelude CMem Words.
Open Scope Z_scope.

(** ** Definitions *)

(** [struct tm] of include/time.h; the zone is the text it points to. *)
Record tm := Tm {
  tm_sec : Z; tm_min : Z; tm_hour : Z; tm_mday : Z; tm_mon : Z; tm_year : Z;
  tm_wday : Z; tm_yday : Z; tm_isdst : Z; __tm_gmtoff : Z; __tm_zone : list Z
}.

Definition INT_MAX : Z := 2147483647.
Definition INT_MIN : Z := -2147483648.
Definition EOVERFLOW : Z := 84.

Definition LEAPOCH : Z := 946684800 + 86400 * (31 + 29).
Definition DAYS_PER_400Y : Z := 365 * 400 + 97.
Definition DAYS_PER_100Y : Z := 365 * 100 + 24.
Definition DAYS_PER_4Y : Z := 365 * 4 + 1.

Definition secs_through_month : list Z :=
  [0; 31 * 86400; 59 * 86400; 90 * 86400;
   120 * 86400; 151 * 86400; 181 * 86400; 212 * 86400;
   243 * 86400; 273 * 86400; 304 * 86400; 334 * 86400].

Definition __month_to_secs (month is_leap : Z) : Z :=
  let t := nthZ secs_through_month month in
  if negb (is_leap =? 0) && (2 <=? month) then t + 86400 else t.

(** The result and the value stored through [is_leap]. *)
Definition __year_to_secs (year : Z) : Z * Z :=
  if u64 (year - 2) <=? 136 then
    let y := s32 year in
    let leaps := Z.shiftr (y - 68) 2 in
    let '(leaps, is_leap) :=
      if Z.land (y - 68) 3 =? 0 then (leaps - 1, 1) else (leaps, 0) in
    (s32 (31536000 * (y - 70) + 86400 * leaps), is_leap)
  else
    let cycles := s32 (Z.quot (year - 100) 400) in
    let rem := s32 (Z.rem (year - 100) 400) in
    let '(cycles, rem) := if rem <? 0 then (cycles - 1, rem + 400) else (cycles, rem) in
    let '(is_leap, centuries, leaps) :=
      if rem =? 0 then (1, 0, 0)
      else
        let '(centuries, rem) :=
          if 200 <=? rem then
            if 300 <=? rem then (3, rem - 300) else (2, rem - 200)
          else
            if 100 <=? rem then (1, rem - 100) else (0, rem) in
        if rem =? 0 then (0, centuries, 0)
        else (b2z (rem mod 4 =? 0), centuries, rem / 4) in
    let leaps := leaps + (97 * cycles + 24 * centuries - is_leap) in
    ((year - 100) * 31536000 + leaps * 86400 + 946684800 + 86400, is_leap).

Definition __tm_to_secs (t : tm) : Z :=
  let year := tm_year t in
  let month := tm_mon t in
  let '(year, month) :=
    if (12 <=? month) || (month <? 0) then
      let adj := Z.quot month 12 in
      let month := Z.rem month 12 in
      let '(adj, month) := if month <? 0 then (adj - 1, month + 12) else (adj, month) in
      (year + adj, month)
    else (year, month) in
  let '(r, is_leap) := __year_to_secs year in
  let r := r + __month_to_secs month is_leap in
  let r := r + 86400 * (tm_mday t - 1) in
  let r := r + 3600 * tm_hour t in
  let r := r + 60 * tm_min t in
  r + tm_sec t.

Definition days_in_month : list Z := [31; 30; 31; 30; 31; 31; 30; 31; 30; 31; 31; 29].

(** The loop over [days_in_month]; leaving the table is [None]. *)
Fixpoint month_loop (table : list Z) (months remdays : Z) : option (Z * Z) :=
  match table with
  | [] => None
  | d :: table' =>
      if d <=? remdays then month_loop table' (months + 1) (remdays - d)
      else Some (months, remdays)
  end.

(** The state is the [struct tm] the function writes. *)
Definition __secs_to_tm (t : Z) : M tm Z :=
  if (t <? INT_MIN * 31622400) || (INT_MAX * 31622400 <? t) then mret (-1)
  else
    let secs := t - LEAPOCH in
    let days := Z.quot secs 86400 in
    let remsecs := s32 (Z.rem secs 86400) in
    let '(remsecs, days) :=
      if remsecs <? 0 then (remsecs + 86400, days - 1) else (remsecs, days) in
    let wday := s32 (Z.rem (3 + days) 7) in
    let wday := if wday <? 0 then wday + 7 else wday in
    let qc_cycles := s32 (Z.quot days DAYS_PER_400Y) in
    let remdays := s32 (Z.rem days DAYS_PER_400Y) in
    let '(remdays, qc_cycles) :=
      if remdays <? 0 then (remdays + DAYS_PER_400Y, qc_cycles - 1)
      else (remdays, qc_cycles) in
    let c_cycles := Z.quot remdays DAYS_PER_100Y in
    let c_cycles := if c_cycles =? 4 then c_cycles - 1 else c_cycles in
    let remdays := remdays - c_cycles * DAYS_PER_100Y in
    let q_cycles := Z.quot remdays DAYS_PER_4Y in
    let q_cycles := if q_cycles =? 25 then q_cycles - 1 else q_cycles in
    let remdays := remdays - q_cycles * DAYS_PER_4Y in
    let remyears := Z.quot remdays 365 in
    let remyears := if remyears =? 4 then remyears - 1 else remyears in
    let remdays := remdays - remyears * 365 in
    let leap := b2z ((remyears =? 0) && (negb (q_cycles =? 0) || (c_cycles =? 0))) in
    let yday := remdays + 31 + 28 + leap in
    let yday := if 365 + leap <=? yday then yday - (365 + leap) else yday in
    let years := remyears + 4 * q_cycles + 100 * c_cycles + 400 * qc_cycles in
    match month_loop days_in_month 0 remdays with
    | None => fault
    | Some (months, remdays) =>
        let '(months, years) := if 10 <=? months then (months - 12, years + 1)
                                else (months, years) in
        if (INT_MAX <? years + 100) || (years + 100 <? INT_MIN) then mret (-1)
        else
          _ ← modify (fun r =>
            Tm (Z.rem remsecs 60) (Z.rem (Z.quot remsecs 60) 60) (Z.quot remsecs 3600)
               (remdays + 1) (months + 2) (years + 100) wday yday
               (tm_isdst r) (__tm_gmtoff r) (__tm_zone r));
          mret 0
    end.

(** time/timegm.c; [new] is the uninitialised local, [e] the value of [errno].
    [time_t] is a 32-bit [long]. *)
Definition timegm (new : tm) : M (tm * Z) Z :=
  fun '(t0, e) =>
    let t := __tm_to_secs t0 in
    match __secs_to_tm t new with
    | Ok (r, new) =>
        if r <? 0 then Ok (-1, (t0, EOVERFLOW))
        else
          Ok (s32 t,
              (Tm (tm_sec new) (tm_min new) (tm_hour new) (tm_mday new) (tm_mon new)
                  (tm_year new) (tm_wday new) (tm_yday new) 0 0 [85; 84; 67], e))
    | Fault => Fault
    | NoFuel => NoFuel
    end.

(** time/days_per_date.c *)
Definition __calculate_days_per_date (year month day : Z) : Z :=
  let month := month + 9 in
  let year := year - 1 + Z.quot month 12 in
  let month := Z.rem month 12 * 306 + 5 in
  year * 365 + Z.quot year 4 - Z.quot year 100 + Z.quot year 400 + Z.quot month 10 + day - 1.

(** time/weekday.c *)
Definition month_skew : list Z := [0; 3; 3; 6; 1; 4; 6; 2; 5; 0; 3; 5].

Definition __calculate_weekday (year month day : Z) : Z :=
  let sum := year - 1900 in
  let sum := sum + Z.quot sum 4 in
  let sum :=
    if (month =? 1) || (month =? 2) then
      let leap_year_adjust :=
        if negb (Z.rem year 4 =? 0) then 0
        else if Z.rem year 400 =? 0 then 1
        else if Z.rem year 100 =? 0 then 0
        else 1 in
      sum - leap_year_adjust
    else sum in
  let sum := sum + (day + nthZ month_skew (month - 1)) in
  Z.rem sum 7.

(** time/strftime.c: [julian_day] and [iso8601_calendar_week_and_year], which
    stores the week and the year. *)
Definition julian_day (day month year : Z) : Z :=
  let a := Z.quot (14 - month) 12 in
  let y := year + 4800 - a in
  let m := month + 12 * a - 3 in
  day + Z.quot (153 * m + 2) 5 + 365 * y + Z.quot y 4 - Z.quot y 100 + Z.quot y 400 - 32045.

Definition iso_week_of (J : Z) : Z :=
  let d4 := Z.rem (Z.rem (Z.rem (J + 31741 - Z.rem J 7) 146097) 36524) 1461 in
  let L := Z.quot d4 1460 in
  let d1 := Z.rem (d4 - L) 365 + L in
  Z.quot d1 7 + 1.

Definition iso8601_calendar_week_and_year (day month year : Z) : Z * Z :=
  let J := julian_day day month year in
  let week := iso_week_of J in
  let year :=
    if (month =? 1) && (51 <? week) then year - 1
    else if (month =? 12) && (week =? 1) then year + 1
    else year in
  (week, year).

(** ** The Gregorian calendar *)

Definition leap_year (y : Z) : bool :=
  (y mod 4 =? 0) && (negb (y mod 100 =? 0) || (y mod 400 =? 0)).

(** Days from 1970-01-01 to January 1st of year [y]. *)
Definition days_before_year (y : Z) : Z :=
  365 * (y - 1970) + ((y - 1) / 4 - (y - 1) / 100 + (y - 1) / 400) - 477.

(** Lengths of the months, January first, and the days before month [m]. *)
Definition month_lengths (leap : bool) : list Z :=
  [31; 28 + b2z leap; 31; 30; 31; 30; 31; 31; 30; 31; 30; 31].
Definition month_length (leap : bool) (m : Z) : Z := nthZ (month_lengths leap) m.
Definition days_before_month (leap : bool) (m : Z) : Z :=
  foldr Z.add 0 (take (Z.to_nat m) (month_lengths leap)).

(** Days from 1970-01-01 to day [d] (from 1) of month [m] (from 0) of year [y]. *)
Definition civil_days (y m d : Z) : Z :=
  days_before_year y + days_before_month (leap_year y) m + d - 1.

Definition date_valid (y m d : Z) : Prop :=
  0 <= m <= 11 ∧ 1 <= d <= month_length (leap_year y) m.

(** The formula counts years of 365 or 366 days. *)
Lemma days_before_year_step y :
  days_before_year (y + 1) = days_before_year y + 365 + b2z (leap_year y).
Proof.
  unfold days_before_year, leap_year.
  destruct (y mod 4 =? 0) eqn:E4, (y mod 100 =? 0) eqn:E100, (y mod 400 =? 0) eqn:E400;
    b2p; simpl; dlia.
Qed.

Lemma days_before_year_1970 : days_before_year 1970 = 0.
Proof. reflexivity. Qed.

(** C's division and remainder, corrected for negative operands, are the floor
    division and its remainder. *)
Lemma divmod_fix a b :
  0 < b →
  (if Z.rem a b <? 0 then (Z.rem a b + b, Z.quot a b - 1) else (Z.rem a b, Z.quot a b)) =
  (a mod b, a / b).
Proof.
  intros Hb. pose proof (Z.quot_rem' a b) as E. pose proof (Z.rem_bound_abs a b ltac:(lia)).
  destruct (Z.rem a b <? 0) eqn:El; b2p; f_equal.
  - apply (Z.mod_unique_pos _ _ (Z.quot a b - 1)); lia.
  - apply (Z.div_unique_pos _ _ _ (Z.rem a b + b)); lia.
  - apply (Z.mod_unique_pos _ _ (Z.quot a b)); lia.
  - apply (Z.div_unique_pos _ _ _ (Z.rem a b)); lia.
Qed.


(** ** Years and months in seconds *)

Lemma year_to_secs_spec year :
  -4294967296 <= year <= 4294967296 →
  __year_to_secs year =
  (86400 * days_before_year (1900 + year), b2z (leap_year (1900 + year))).
Proof.
  intros Hy. unfold __year_to_secs. destruct (u64 (year - 2) <=? 136) eqn:E; b2p.
  - assert (2 <= year <= 138) as Hr by (unfold u64 in E; dlia).
    rewrite (s32_small year), Z.shiftr_div_pow2 by lia. change (2 ^ 2) with 4.
    rewrite land_3_mod.
    unfold days_before_year, leap_year.
    destruct ((1900 + year) mod 4 =? 0) eqn:E4, ((1900 + year) mod 100 =? 0) eqn:E100,
      ((1900 + year) mod 400 =? 0) eqn:E400, ((year - 68) mod 4 =? 0) eqn:E5; b2p; try dlia;
      simpl; (rewrite s32_small by dlia); f_equal; dlia.
  - rewrite (s32_small (Z.quot _ _)) by dlia. rewrite (s32_small (Z.rem _ _)) by dlia.
    pose proof (divmod_fix (year - 100) 400 ltac:(lia)) as F.
    set (r := Z.rem (year - 100) 400) in *. set (c := Z.quot (year - 100) 400) in *.
    assert ((if r <? 0 then (c - 1, r + 400) else (c, r)) =
            ((year - 100) / 400, (year - 100) mod 400)) as ->
      by (destruct (r <? 0); congruence).
    clear F r c E. unfold days_before_year, leap_year.
    assert (∃ q r, (year - 100) / 400 = q ∧ (year - 100) mod 400 = r ∧
              year = 100 + 400 * q + r ∧ 0 <= r < 400) as (q & r & -> & -> & -> & Hr).
    { exists ((year - 100) / 400), ((year - 100) mod 400). repeat split; dlia. }
    replace ((1900 + (100 + 400 * q + r)) mod 400) with (r mod 400) by dlia.
    replace ((1900 + (100 + 400 * q + r)) mod 100) with (r mod 100) by dlia.
    replace ((1900 + (100 + 400 * q + r)) mod 4) with (r mod 4) by dlia.
    destruct (r =? 0) eqn:E0; b2p; [subst r; simpl; f_equal; dlia|].
    rewrite (Z.mod_small r 400), (proj2 (Z.eqb_neq r 0)), orb_false_r by lia.
    destruct (r mod 4 =? 0) eqn:E4, (r mod 100 =? 0) eqn:E100; b2p.
    all: destruct (200 <=? r) eqn:E2; [destruct (300 <=? r) eqn:E3|destruct (100 <=? r) eqn:E1]; b2p.
    all: match goal with |- context [if ?x =? 0 then (_, _, _) else _] => remember x as s eqn:Hs end.
    all: destruct (s =? 0) eqn:Es; b2p; try dlia.
    all: try (assert ((s mod 4 =? 0) = true) as -> by (apply Z.eqb_eq; dlia));
         try (assert ((s mod 4 =? 0) = false) as -> by (apply Z.eqb_neq; dlia)).
    all: simpl; f_equal; dlia.
Qed.

Lemma month_to_secs_spec leap m :
  0 <= m <= 11 → __month_to_secs m (b2z leap) = 86400 * days_before_month leap m.
Proof.
  intros Hm. pose proof (forallb_seqZ (fun m =>
    (__month_to_secs m 0 =? 86400 * days_before_month false m) &&
    (__month_to_secs m 1 =? 86400 * days_before_month true m)) 0 12 eq_refl m ltac:(lia)) as H.
  cbn beta in H. b2p. by destruct leap.
Qed.

(** The seconds a broken-down time stands for. *)
Definition tm_seconds (t : tm) : Z :=
  86400 * civil_days (1900 + tm_year t) (tm_mon t) (tm_mday t)
  + 3600 * tm_hour t + 60 * tm_min t + tm_sec t.

Record tm_valid (t : tm) : Prop := {
  tm_date : date_valid (1900 + tm_year t) (tm_mon t) (tm_mday t);
  tm_time : 0 <= tm_hour t <= 23 ∧ 0 <= tm_min t <= 59 ∧ 0 <= tm_sec t <= 59;
  tm_int : INT_MIN <= tm_year t <= INT_MAX
}.

Lemma tm_to_secs_spec t :
  INT_MIN <= tm_year t <= INT_MAX → INT_MIN <= tm_mon t <= INT_MAX →
  __tm_to_secs t =
  86400 * civil_days (1900 + tm_year t + tm_mon t / 12) (tm_mon t mod 12) (tm_mday t)
  + 3600 * tm_hour t + 60 * tm_min t + tm_sec t.
Proof.
  unfold INT_MIN, INT_MAX. intros Hy Hm. unfold __tm_to_secs.
  pose proof (divmod_fix (tm_mon t) 12 ltac:(lia)) as F.
  assert ((if (12 <=? tm_mon t) || (tm_mon t <? 0) then
      let '(adj, month) := if Z.rem (tm_mon t) 12 <? 0
        then (Z.quot (tm_mon t) 12 - 1, Z.rem (tm_mon t) 12 + 12)
        else (Z.quot (tm_mon t) 12, Z.rem (tm_mon t) 12) in (tm_year t + adj, month)
      else (tm_year t, tm_mon t)) = (tm_year t + tm_mon t / 12, tm_mon t mod 12)) as ->.
  { destruct (_ || _)%bool eqn:E; b2p.
    - destruct (Z.rem (tm_mon t) 12 <? 0); congruence.
    - f_equal; dlia. }
  rewrite year_to_secs_spec by dlia. rewrite month_to_secs_spec by dlia.
  unfold civil_days. rewrite Z.add_assoc. lia.
Qed.

Lemma tm_to_secs_valid t : tm_valid t → __tm_to_secs t = tm_seconds t.
Proof.
  intros [[Hm _] _ Hy]. rewrite tm_to_secs_spec; [|done|unfold INT_MIN, INT_MAX; lia].
  rewrite Z.div_small, Z.mod_small, Z.add_0_r by lia. done.
Qed.

(** ** From days to dates *)

(** The years that begin on March 1st, counted from 2000. *)
Definition march_days (Y : Z) : Z := 365 * Y + Y / 4 - Y / 100 + Y / 400.

Lemma days_before_year_march Y :
  days_before_year (2000 + Y) = 11017 + march_days Y - 59 - b2z (leap_year (2000 + Y)).
Proof.
  unfold days_before_year, leap_year, march_days.
  destruct ((2000 + Y) mod 4 =? 0) eqn:E4, ((2000 + Y) mod 100 =? 0) eqn:E100,
    ((2000 + Y) mod 400 =? 0) eqn:E400; b2p; simpl; dlia.
Qed.

Lemma days_before_next_year Y :
  days_before_year (2000 + (Y + 1)) = 11017 + march_days Y + 306.
Proof.
  rewrite Z.add_assoc, days_before_year_step, days_before_year_march. lia.
Qed.

(** The cycles [__secs_to_tm] takes off the days since 2000-03-01. *)
Record cycles_ok (days qc c q y r : Z) : Prop := {
  cyc_days : days = march_days (y + 4 * q + 100 * c + 400 * qc) + r;
  cyc_c : 0 <= c <= 3; cyc_q : 0 <= q <= 24; cyc_y : 0 <= y <= 3; cyc_r : 0 <= r <= 365;
  cyc_last : r = 365 → y = 3 ∧ (q = 24 → c = 3)
}.

Lemma march_days_cycles qc c q y :
  0 <= c <= 3 → 0 <= q <= 24 → 0 <= y <= 3 →
  march_days (y + 4 * q + 100 * c + 400 * qc) = 146097 * qc + 36524 * c + 1461 * q + 365 * y.
Proof. intros. unfold march_days. dlia. Qed.

Lemma cycles_spec days :
  let qc := days / DAYS_PER_400Y in
  let r := days mod DAYS_PER_400Y in
  let c := Z.quot r DAYS_PER_100Y in
  let c := if c =? 4 then c - 1 else c in
  let r := r - c * DAYS_PER_100Y in
  let q := Z.quot r DAYS_PER_4Y in
  let q := if q =? 25 then q - 1 else q in
  let r := r - q * DAYS_PER_4Y in
  let y := Z.quot r 365 in
  let y := if y =? 4 then y - 1 else y in
  let r := r - y * 365 in
  cycles_ok days qc c q y r.
Proof.
  change DAYS_PER_400Y with 146097. change DAYS_PER_100Y with 36524.
  change DAYS_PER_4Y with 1461. intros qc r0 c0 c r1 q0 q r2 y0 y r.
  assert (days = 146097 * qc + r0 ∧ 0 <= r0 < 146097) as [E0 H0] by (unfold qc, r0; dlia).
  assert (0 <= c <= 3 ∧ 0 <= r1 <= 36524 ∧ (c < 3 → r1 < 36524)) as (Hc & H1 & H1').
  { unfold r1, c, c0. destruct (_ =? 4) eqn:E; b2p; dlia. }
  assert (0 <= q <= 24 ∧ 0 <= r2 <= 1460 ∧ (q = 24 → c < 3 → r2 < 1460)) as (Hq & H2 & H2').
  { clearbody r1 c. unfold r2, q, q0. destruct (_ =? 25) eqn:E; b2p; dlia. }
  assert (0 <= y <= 3 ∧ 0 <= r <= 365 ∧ (r = 365 → y = 3 ∧ r2 = 1460)) as (Hy & H3 & H3').
  { clearbody r2. unfold r, y, y0. clear - H2. destruct (_ =? 4) eqn:E; b2p; dlia. }
  split; [|done..|intros; lia].
  rewrite march_days_cycles by done. unfold r, r2, r1. lia.
Qed.

(** The loop over the months, checked on every day of a year. *)
Lemma month_loop_spec r :
  0 <= r <= 365 →
  ∃ m d, month_loop days_in_month 0 r = Some (m, d) ∧ 0 <= m <= 11 ∧ 0 <= d ∧
    if 10 <=? m then
      306 <= r ∧ (∀ leap, days_before_month leap (m - 10) + d = r - 306) ∧
      (d + 1 <= month_length true (m - 10)) ∧ (r ≠ 365 → d + 1 <= month_length false (m - 10))
    else
      r < 306 ∧ (∀ leap, days_before_month leap (m + 2) + d = r + 59 + b2z leap) ∧
      ∀ leap, d + 1 <= month_length leap (m + 2).
Proof.
  intros Hr. pose proof (forallb_seqZ (fun r =>
    match month_loop days_in_month 0 r with
    | None => false
    | Some (m, d) =>
        (0 <=? m) && (m <=? 11) && (0 <=? d) &&
        if 10 <=? m then
          (306 <=? r) && (days_before_month true (m - 10) + d =? r - 306) &&
          (days_before_month false (m - 10) + d =? r - 306) &&
          (d + 1 <=? month_length true (m - 10)) &&
          ((r =? 365) || (d + 1 <=? month_length false (m - 10)))
        else
          (r <? 306) && (days_before_month true (m + 2) + d =? r + 59 + 1) &&
          (days_before_month false (m + 2) + d =? r + 59 + 0) &&
          (d + 1 <=? month_length true (m + 2)) && (d + 1 <=? month_length false (m + 2))
    end) 0 366 eq_refl r ltac:(lia)) as H. cbn beta in H.
  destruct (month_loop days_in_month 0 r) as [[m d]|]; [|done]. exists m, d.
  split; [done|]. destruct (10 <=? m); b2p.
  - repeat (split; [done || by intros []|]). intros Hne. match goal with H : _ ∨ _ |- _ => destruct H end; b2p; done.
  - repeat (split; [done|]). split; intros []; done.
Qed.

Lemma leap_cycles qc c q y :
  0 <= c <= 3 → 0 <= q <= 24 → 0 <= y <= 3 →
  leap_year (2000 + (y + 4 * q + 100 * c + 400 * qc)) =
  ((y =? 0) && (negb (q =? 0) || (c =? 0)))%bool.
Proof.
  intros. unfold leap_year.
  destruct (y =? 0) eqn:Ey, (q =? 0) eqn:Eq, (c =? 0) eqn:Ec; b2p; simpl;
    repeat match goal with
    | |- context [?x mod ?n =? 0] => destruct (x mod n =? 0) eqn:?; b2p; simpl; try dlia
    end; done || dlia.
Qed.

Lemma leap_cycles_next qc c q :
  0 <= c <= 3 → 0 <= q <= 24 → (q = 24 → c = 3) →
  leap_year (2000 + (3 + 4 * q + 100 * c + 400 * qc + 1)) = true.
Proof.
  intros. unfold leap_year.
  repeat match goal with
    | |- context [?x mod ?n =? 0] => destruct (x mod n =? 0) eqn:?; b2p; simpl; try dlia
    end; done || dlia.
Qed.

(** Year, month (from 0), day (from 1) and day of the year of the date that the
    cycles and the month loop find. *)
Lemma date_of_cycles days qc c q y r m d :
  cycles_ok days qc c q y r → month_loop days_in_month 0 r = Some (m, d) →
  let leap := b2z ((y =? 0) && (negb (q =? 0) || (c =? 0))) in
  let yday := r + 31 + 28 + leap in
  let yday := if 365 + leap <=? yday then yday - (365 + leap) else yday in
  let years := y + 4 * q + 100 * c + 400 * qc in
  let '(m', years') := if 10 <=? m then (m - 12, years + 1) else (m, years) in
  let Y := 1900 + (years' + 100) in
  date_valid Y (m' + 2) (d + 1) ∧ civil_days Y (m' + 2) (d + 1) = days + 11017 ∧
  yday = days_before_month (leap_year Y) (m' + 2) + d.
Proof.
  intros [Ed Hc Hq Hy Hr Hl] Em leap yday0 yday years.
  destruct (month_loop_spec r Hr) as (m1 & d1 & Em1 & Hm & Hd & HS).
  rewrite Em in Em1. injection Em1 as <- <-.
  fold years in Ed. unfold yday, yday0, leap. rewrite <- (leap_cycles qc c q y) by done.
  fold years. unfold date_valid, civil_days. destruct (10 <=? m) eqn:E; b2p.
  - destruct HS as (H1 & H2 & H3 & H4).
    replace (m - 12 + 2) with (m - 10) by lia.
    replace (1900 + (years + 1 + 100)) with (2000 + (years + 1)) by lia.
    specialize (H2 (leap_year (2000 + (years + 1)))).
    rewrite days_before_next_year, H2.
    rewrite (proj2 (Z.leb_le _ _)) by lia. split; [|lia]. split; [lia|]. split; [lia|].
    destruct (leap_year (2000 + (years + 1))) eqn:El; [done|]. apply H4. intros ->.
    destruct (Hl eq_refl) as [-> Hqc]. unfold years in El. by rewrite leap_cycles_next in El.
  - destruct HS as (H1 & H2 & H3).
    replace (1900 + (years + 100)) with (2000 + years) by lia.
    specialize (H2 (leap_year (2000 + years))). specialize (H3 (leap_year (2000 + years))).
    rewrite days_before_year_march. rewrite (proj2 (Z.leb_gt _ _)) by lia. lia.
Qed.

(** Every day has a date. *)
Lemma date_exists days : ∃ y m d, date_valid y m d ∧ civil_days y m d = days.
Proof.
  pose proof (cycles_spec (days - 11017)) as HC. cbv zeta in HC.
  destruct (month_loop_spec _ (cyc_r _ _ _ _ _ _ HC)) as (m & d & Em & _).
  pose proof (date_of_cycles _ _ _ _ _ _ _ _ HC Em) as HD. cbv zeta in HD.
  destruct (if 10 <=? m then _ else _) as [m' years]. destruct HD as (HV & HE & _).
  do 3 eexists. split; [exact HV|]. lia.
Qed.

(** ** Uniqueness of dates *)

Lemma days_before_month_le leap m m' :
  0 <= m → m < m' → m' <= 11 →
  days_before_month leap m + month_length leap m <= days_before_month leap m'.
Proof.
  intros H1 H2 H3. pose proof (forallb_seqZ (fun m => forallb (fun m' =>
    (m' <=? m) ||
    ((days_before_month true m + month_length true m <=? days_before_month true m') &&
     (days_before_month false m + month_length false m <=? days_before_month false m')))
    (seqZ 0 12)) 0 12 eq_refl m ltac:(lia)) as H. cbn beta in H.
  apply forallb_seqZ with (i := m') in H; [|lia]. cbn beta in H. b2p.
  destruct H as [H|H]; b2p; [lia|]. by destruct leap.
Qed.

Lemma days_before_month_range leap m d :
  0 <= m <= 11 → 1 <= d <= month_length leap m →
  0 <= days_before_month leap m + d - 1 < 365 + b2z leap.
Proof.
  intros Hm Hd. pose proof (forallb_seqZ (fun m =>
    (0 <=? days_before_month true m) && (0 <=? days_before_month false m) &&
    (days_before_month true m + month_length true m <=? 366) &&
    (days_before_month false m + month_length false m <=? 365)) 0 12 eq_refl m ltac:(lia)) as H.
  cbn beta in H. b2p. destruct leap; simpl; lia.
Qed.

Lemma month_length_pos leap m : 0 <= m <= 11 → 28 <= month_length leap m <= 31.
Proof.
  intros Hm. pose proof (forallb_seqZ (fun m =>
    (28 <=? month_length true m) && (month_length true m <=? 31) &&
    (28 <=? month_length false m) && (month_length false m <=? 31)) 0 12 eq_refl m ltac:(lia)) as H.
  cbn beta in H. b2p. destruct leap; lia.
Qed.

Lemma civil_days_range y m d :
  date_valid y m d → days_before_year y <= civil_days y m d < days_before_year (y + 1).
Proof.
  intros [Hm Hd]. pose proof (days_before_month_range _ _ _ Hm Hd).
  rewrite days_before_year_step. unfold civil_days. lia.
Qed.

Lemma days_before_year_mono y y' : y <= y' → days_before_year y <= days_before_year y'.
Proof. intros. unfold days_before_year. dlia. Qed.

Lemma civil_days_inj y m d y' m' d' :
  date_valid y m d → date_valid y' m' d' → civil_days y m d = civil_days y' m' d' →
  y = y' ∧ m = m' ∧ d = d'.
Proof.
  intros V V' E. pose proof (civil_days_range _ _ _ V). pose proof (civil_days_range _ _ _ V').
  assert (y = y') as <-.
  { destruct (Z.lt_trichotomy y y') as [Hl|[?|Hl]]; [|done|].
    - pose proof (days_before_year_mono (y + 1) y' ltac:(lia)). lia.
    - pose proof (days_before_year_mono (y' + 1) y ltac:(lia)). lia. }
  destruct V as [Vm Vd], V' as [Vm' Vd']. unfold civil_days in E.
  assert (m = m') as <-; [|lia].
  destruct (Z.lt_trichotomy m m') as [Hl|[?|Hl]]; [|done|].
  - pose proof (days_before_month_le (leap_year y) m m' ltac:(lia) Hl ltac:(lia)). lia.
  - pose proof (days_before_month_le (leap_year y) m' m ltac:(lia) Hl ltac:(lia)). lia.
Qed.

Lemma tm_seconds_div t :
  tm_valid t →
  tm_seconds t / 86400 = civil_days (1900 + tm_year t) (tm_mon t) (tm_mday t) ∧
  tm_seconds t mod 86400 = 3600 * tm_hour t + 60 * tm_min t + tm_sec t.
Proof. intros [_ Ht _]. unfold tm_seconds. dlia. Qed.

(** ** __secs_to_tm *)

(** Day of the week (0 is Sunday) and of the year. *)
Definition wday_of (days : Z) : Z := (days + 4) mod 7.
Definition yday_of (y m d : Z) : Z := days_before_month (leap_year y) m + d - 1.

(** [r] is the broken-down time of [t]. *)
Record tm_of (t : Z) (r : tm) : Prop := {
  tm_of_valid : tm_valid r;
  tm_of_secs : tm_seconds r = t;
  tm_of_wday : tm_wday r = wday_of (t / 86400);
  tm_of_yday : tm_yday r = yday_of (1900 + tm_year r) (tm_mon r) (tm_mday r)
}.

(** Times that the first test of [__secs_to_tm] rejects have no broken-down
    time with an [int] year. *)
Lemma tm_seconds_bounds u :
  tm_valid u → INT_MIN * 31622400 <= tm_seconds u <= INT_MAX * 31622400.
Proof.
  intros Hu. pose proof (tm_seconds_div u Hu) as [Hd Hm].
  destruct Hu as [Hdate Ht Hi]. pose proof (civil_days_range _ _ _ Hdate) as Hc.
  unfold INT_MIN, INT_MAX in *. unfold days_before_year in Hc. dlia.
Qed.

Lemma s32_rem a b : 0 < b < 2147483648 → s32 (Z.rem a b) = Z.rem a b.
Proof. intros. apply s32_small. pose proof (Z.rem_bound_abs a b ltac:(lia)). lia. Qed.

Lemma s32_quot_400Y a :
  -900000000000 <= a <= 900000000000 → s32 (Z.quot a DAYS_PER_400Y) = Z.quot a DAYS_PER_400Y.
Proof. intros. apply s32_small. unfold DAYS_PER_400Y. dlia. Qed.

(** The part of [__secs_to_tm] after the days, the seconds of the day and the
    day of the week are known, with floor divisions. *)
Definition tm_of_days (days remsecs wday : Z) : M tm Z :=
  let qc_cycles := days / DAYS_PER_400Y in
  let remdays := days mod DAYS_PER_400Y in
  let c_cycles := Z.quot remdays DAYS_PER_100Y in
  let c_cycles := if c_cycles =? 4 then c_cycles - 1 else c_cycles in
  let remdays := remdays - c_cycles * DAYS_PER_100Y in
  let q_cycles := Z.quot remdays DAYS_PER_4Y in
  let q_cycles := if q_cycles =? 25 then q_cycles - 1 else q_cycles in
  let remdays := remdays - q_cycles * DAYS_PER_4Y in
  let remyears := Z.quot remdays 365 in
  let remyears := if remyears =? 4 then remyears - 1 else remyears in
  let remdays := remdays - remyears * 365 in
  let leap := b2z ((remyears =? 0) && (negb (q_cycles =? 0) || (c_cycles =? 0))) in
  let yday := remdays + 31 + 28 + leap in
  let yday := if 365 + leap <=? yday then yday - (365 + leap) else yday in
  let years := remyears + 4 * q_cycles + 100 * c_cycles + 400 * qc_cycles in
  match month_loop days_in_month 0 remdays with
  | None => fault
  | Some (months, remdays) =>
      let '(months, years) := if 10 <=? months then (months - 12, years + 1)
                              else (months, years) in
      if (INT_MAX <? years + 100) || (years + 100 <? INT_MIN) then mret (-1)
      else
        _ ← modify (fun r =>
          Tm (Z.rem remsecs 60) (Z.rem (Z.quot remsecs 60) 60) (Z.quot remsecs 3600)
             (remdays + 1) (months + 2) (years + 100) wday yday
             (tm_isdst r) (__tm_gmtoff r) (__tm_zone r));
        mret 0
  end.

Lemma secs_to_tm_floor t :
  INT_MIN * 31622400 <= t <= INT_MAX * 31622400 →
  __secs_to_tm t =
  let days := (t - LEAPOCH) / 86400 in
  tm_of_days days ((t - LEAPOCH) mod 86400) ((3 + days) mod 7).
Proof.
  intros Ht. unfold __secs_to_tm.
  rewrite (proj2 (Z.ltb_ge t _)), (proj2 (Z.ltb_ge _ t)) by lia. cbv zeta. cbn [orb].
  rewrite !s32_rem by (done || unfold DAYS_PER_400Y; lia).
  rewrite (divmod_fix (t - LEAPOCH) 86400) by lia. cbn beta iota.
  set (days := (t - LEAPOCH) / 86400).
  rewrite !s32_rem by (done || unfold DAYS_PER_400Y; lia).
  rewrite s32_quot_400Y by (unfold days, LEAPOCH, INT_MIN, INT_MAX in *; dlia).
  rewrite (divmod_fix days DAYS_PER_400Y) by done. cbn beta iota.
  pose proof (divmod_fix (3 + days) 7 ltac:(lia)) as F2.
  assert ((if Z.rem (3 + days) 7 <? 0 then Z.rem (3 + days) 7 + 7 else Z.rem (3 + days) 7)
          = (3 + days) mod 7) as -> by (destruct (Z.rem (3 + days) 7 <? 0); congruence).
  reflexivity.
Qed.

Lemma tm_of_days_spec days rs wday r0 :
  0 <= rs < 86400 →
  wp (tm_of_days days rs wday)
     (fun rc r =>
        (rc = 0 ∧ tm_valid r ∧ tm_seconds r = 86400 * (days + 11017) + rs ∧ tm_wday r = wday ∧
         tm_yday r = yday_of (1900 + tm_year r) (tm_mon r) (tm_mday r)) ∨
        (rc = -1 ∧ r = r0 ∧
         ∀ u, tm_valid u → tm_seconds u ≠ 86400 * (days + 11017) + rs)) r0.
Proof.
  intros Hrs. unfold tm_of_days. pose proof (cycles_spec days) as HC. cbv zeta in *.
  match type of HC with cycles_ok _ ?x _ _ _ _ => set (qc := x) in * end.
  match type of HC with cycles_ok _ _ ?x _ _ _ => set (cc := x) in * end.
  match type of HC with cycles_ok _ _ _ ?x _ _ => set (q := x) in * end.
  match type of HC with cycles_ok _ _ _ _ ?x _ => set (y := x) in * end.
  match type of HC with cycles_ok _ _ _ _ _ ?x => set (r := x) in * end.
  clearbody qc cc q y r.
  destruct (month_loop_spec r (cyc_r _ _ _ _ _ _ HC)) as (m & d & Em & _). rewrite Em.
  pose proof (date_of_cycles _ _ _ _ _ _ _ _ HC Em) as HD. cbv zeta in HD.
  destruct (if 10 <=? m then _ else _) as [m' years]. destruct HD as (HV & HE & HY).
  destruct ((INT_MAX <? years + 100) || (years + 100 <? INT_MIN))%bool eqn:E.
  - wp_step. right. do 2 (split; [done|]). intros u Hu Eu.
    pose proof (tm_seconds_div u Hu) as [Hd _]. rewrite Eu in Hd.
    replace ((86400 * (days + 11017) + rs) / 86400) with (days + 11017) in Hd by dlia.
    destruct Hu as [Hdate _ Hi].
    destruct (civil_days_inj _ _ _ _ _ _ Hdate HV ltac:(lia)) as (Ey & _).
    b2p. destruct E; b2p; lia.
  - b2p. do 3 wp_step. left. split; [done|]. split.
    { split; simpl; [done| |lia]. clear - Hrs. dlia. }
    simpl. unfold tm_seconds, yday_of. simpl. rewrite HE, HY.
    split; [clear - Hrs; dlia|]. split; [done|lia].
Qed.

(** The fields [__secs_to_tm] does not store. *)
Lemma secs_to_tm_frame t r0 :
  wp (__secs_to_tm t)
     (fun _ r => tm_isdst r = tm_isdst r0 ∧ __tm_gmtoff r = __tm_gmtoff r0 ∧
                 __tm_zone r = __tm_zone r0) r0.
Proof.
  destruct (decide (INT_MIN * 31622400 <= t <= INT_MAX * 31622400)) as [Ht|Ht].
  - rewrite secs_to_tm_floor by done. cbv zeta. unfold tm_of_days.
    pose proof (cycles_spec ((t - LEAPOCH) / 86400)) as HC. cbv zeta in *.
    destruct (month_loop_spec _ (cyc_r _ _ _ _ _ _ HC)) as (m & d & -> & _).
    destruct (if 10 <=? m then _ else _) as [m' years].
    destruct ((INT_MAX <? years + 100) || (years + 100 <? INT_MIN))%bool; done.
  - unfold __secs_to_tm.
    assert (((t <? INT_MIN * 31622400) || (INT_MAX * 31622400 <? t))%bool = true) as ->; [|done].
    apply orb_true_iff. rewrite !Z.ltb_lt. lia.
Qed.

Lemma secs_to_tm_spec t r0 :
  wp (__secs_to_tm t)
     (fun rc r => (rc = 0 ∧ tm_of t r) ∨
                  (rc = -1 ∧ r = r0 ∧ ∀ u, tm_valid u → tm_seconds u ≠ t)) r0.
Proof.
  destruct (decide (INT_MIN * 31622400 <= t <= INT_MAX * 31622400)) as [Ht|Ht].
  - rewrite secs_to_tm_floor by done. cbv zeta.
    assert (LEAPOCH = 86400 * 11017) as HL by reflexivity.
    eapply wp_mono; [apply tm_of_days_spec; clear; dlia|].
    assert (86400 * ((t - LEAPOCH) / 86400 + 11017) + (t - LEAPOCH) mod 86400 = t) as ->
      by (rewrite HL; clear; dlia).
    intros rc r [(-> & HV & HE & HW & HY)|?]; [left|by right]. split; [done|].
    split; [done|done| |done]. rewrite HW. unfold wday_of. rewrite HL. clear. dlia.
  - unfold __secs_to_tm.
    assert (((t <? INT_MIN * 31622400) || (INT_MAX * 31622400 <? t))%bool = true) as ->.
    { apply orb_true_iff. rewrite !Z.ltb_lt. lia. }
    wp_step. right. do 2 (split; [done|]). intros u Hu <-.
    by apply tm_seconds_bounds in Hu.
Qed.

(** C31: [__secs_to_tm] always returns: for a time that has a broken-down time
    with an [int] year it stores that time (a valid date, the right day of the
    week and of the year), and [__tm_to_secs] maps it back to the same number of
    seconds; every other time is rejected with -1 and nothing is stored. *)
Theorem secs_to_tm_correct t r0 :
  ∃ rc r, __secs_to_tm t r0 = Ok (rc, r) ∧
    ((rc = 0 ∧ tm_of t r ∧ __tm_to_secs r = t) ∨
     (rc = -1 ∧ r = r0 ∧ ∀ u, tm_valid u → tm_seconds u ≠ t)).
Proof.
  pose proof (secs_to_tm_spec t r0) as H. unfold wp in H.
  destruct (__secs_to_tm t r0) as [[rc r]| |]; [|done..]. exists rc, r. split; [done|].
  destruct H as [[-> H]|H]; [left|by right]. split; [done|]. split; [done|].
  rewrite tm_to_secs_valid by apply H. apply H.
Qed.

(** C32: the other round trip: a valid broken-down time goes to seconds and
    back, field by field, and the day of the week and of the year are filled in. *)
Theorem tm_to_secs_roundtrip u r0 :
  tm_valid u →
  __secs_to_tm (__tm_to_secs u) r0 =
  Ok (0, Tm (tm_sec u) (tm_min u) (tm_hour u) (tm_mday u) (tm_mon u) (tm_year u)
            (wday_of (civil_days (1900 + tm_year u) (tm_mon u) (tm_mday u)))
            (yday_of (1900 + tm_year u) (tm_mon u) (tm_mday u))
            (tm_isdst r0) (__tm_gmtoff r0) (__tm_zone r0)).
Proof.
  intros Hu. rewrite tm_to_secs_valid by done.
  pose proof (secs_to_tm_spec (tm_seconds u) r0) as H.
  pose proof (secs_to_tm_frame (tm_seconds u) r0) as HF. unfold wp in *.
  destruct (__secs_to_tm (tm_seconds u) r0) as [[rc r]| |]; [|done..].
  destruct H as [[-> [V E W Y]]|(_ & _ & H)]; [|by destruct (H u)].
  pose proof (tm_seconds_div u Hu) as [D1 M1]. pose proof (tm_seconds_div r V) as [D2 M2].
  rewrite E in D2, M2. rewrite D1 in D2. rewrite M1 in M2. rewrite D1 in W.
  destruct (civil_days_inj _ _ _ _ _ _ (tm_date u Hu) (tm_date r V) D2) as (Ey & Em & Ed).
  pose proof (tm_time u Hu). pose proof (tm_time r V).
  destruct r; simpl in *. destruct HF as (-> & -> & ->). subst. do 2 f_equal.
  f_equal; (lia || done || (rewrite <- ?Ey, <- ?Em, <- ?Ed; done)).
Qed.

Lemma tm_to_secs_roundtrip_witness :
  let r0 := Tm 0 0 0 0 0 0 0 0 0 0 [] in
  __secs_to_tm (__tm_to_secs (Tm 59 58 23 29 1 124 0 0 0 0 [])) r0 =
  Ok (0, Tm 59 58 23 29 1 124 4 59 0 0 []).
Proof.
  refine (tm_to_secs_roundtrip (Tm 59 58 23 29 1 124 0 0 0 0 []) (Tm 0 0 0 0 0 0 0 0 0 0 []) _).
  split; [split; [split; done|split; done]|done|done].
Defined.

(** ** timegm *)

(** [timegm] tests that the year fits in an [int] but not that the seconds fit
    in its 32-bit result. *)
Lemma timegm_spec new t0 e :
  tm_valid t0 →
  ∃ r, timegm new (t0, e) = Ok (s32 (tm_seconds t0), (r, e)) ∧ tm_of (tm_seconds t0) r ∧
       tm_isdst r = 0 ∧ __tm_gmtoff r = 0 ∧ __tm_zone r = [85; 84; 67].
Proof.
  intros Hv. unfold timegm. rewrite tm_to_secs_valid by done.
  pose proof (secs_to_tm_spec (tm_seconds t0) new) as H. unfold wp in H.
  destruct (__secs_to_tm _ new) as [[rc r]| |]; [|done..].
  destruct H as [[-> [V E W Y]]|(_ & _ & H)]; [|by destruct (H t0)].
  simpl. eexists. split; [reflexivity|]. split; [|done]. by split; [destruct V; split|..].
Qed.

(** for a valid broken-down time whose seconds fit in [time_t], [timegm]
    returns those seconds and normalises its argument, whose zone becomes UTC. *)
Theorem timegm_correct new t0 e :
  tm_valid t0 → INT_MIN <= tm_seconds t0 <= INT_MAX →
  ∃ r, timegm new (t0, e) = Ok (tm_seconds t0, (r, e)) ∧ tm_of (tm_seconds t0) r ∧
       tm_isdst r = 0 ∧ __tm_gmtoff r = 0 ∧ __tm_zone r = [85; 84; 67].
Proof.
  intros Hv Hr. destruct (timegm_spec new t0 e Hv) as (r & H). exists r.
  by rewrite s32_small in H by (unfold INT_MIN, INT_MAX in *; lia).
Qed.

Lemma timegm_correct_witness :
  let t0 := Tm 7 14 3 19 0 138 0 0 0 0 [] in
  ∃ r, timegm t0 (t0, 0) = Ok (2147483647, (r, 0)) ∧ tm_of 2147483647 r ∧
       tm_isdst r = 0 ∧ __tm_gmtoff r = 0 ∧ __tm_zone r = [85; 84; 67].
Proof.
  refine (timegm_correct (Tm 7 14 3 19 0 138 0 0 0 0 []) (Tm 7 14 3 19 0 138 0 0 0 0 []) 0 _ _).
  - split; [split; [split; done|split; done]|done|done].
  - split; done.
Defined.

(** one second after the largest [time_t], [timegm] reports no error and
    returns the wrapped value. *)
Theorem timegm_wraps :
  let t0 := Tm 8 14 3 19 0 138 0 0 0 0 [] in
  tm_valid t0 ∧ tm_seconds t0 = 2147483648 ∧
  ∃ r, timegm t0 (t0, 0) = Ok (-2147483648, (r, 0)).
Proof.
  split; [split; [split; [split; done|split; done]|done|done]|].
  split; [reflexivity|]. eexists. vm_compute. reflexivity.
Qed.

(** ** Day counts *)

Lemma march_month_days m :
  1 <= m <= 12 →
  Z.quot (Z.rem (m + 9) 12 * 306 + 5) 10 =
  if 3 <=? m then days_before_month false (m - 1) - 59 else days_before_month false (m - 1) + 306.
Proof.
  intros Hm. pose proof (forallb_seqZ (fun m =>
    Z.quot (Z.rem (m + 9) 12 * 306 + 5) 10 =?
    if 3 <=? m then days_before_month false (m - 1) - 59
    else days_before_month false (m - 1) + 306) 1 12 eq_refl m ltac:(lia)) as H.
  cbn beta in H. by b2p.
Qed.

Lemma leap_month_days leap m :
  1 <= m <= 12 →
  days_before_month leap (m - 1) =
  days_before_month false (m - 1) + if 3 <=? m then b2z leap else 0.
Proof.
  intros Hm. pose proof (forallb_seqZ (fun m =>
    days_before_month true (m - 1) =?
    days_before_month false (m - 1) + if 3 <=? m then 1 else 0) 1 12 eq_refl m ltac:(lia)) as H.
  cbn beta in H. b2p. destruct leap; [done|]. destruct (3 <=? m); simpl; lia.
Qed.

Lemma march_quot y : 0 <= y → 365 * y + Z.quot y 4 - Z.quot y 100 + Z.quot y 400 = march_days y.
Proof. intros. unfold march_days. rewrite !Z.quot_div_nonneg by lia. lia. Qed.

(** The days before January 1st, counted in years that begin in March. *)
Lemma days_before_year_march0 y :
  days_before_year y = march_days (y - 1) + 306 - 719468.
Proof. unfold days_before_year, march_days. dlia. Qed.

Lemma march_days_year y :
  march_days y = days_before_year y + 59 + b2z (leap_year y) + 719468.
Proof.
  pose proof (days_before_year_step y). rewrite (days_before_year_march0 (y + 1)) in H.
  replace (y + 1 - 1) with y in H by lia. lia.
Qed.

Lemma days_per_date_spec y m d :
  1 <= y → 1 <= m <= 12 →
  __calculate_days_per_date y m d = civil_days y (m - 1) d + 719468.
Proof.
  intros Hy Hm. unfold __calculate_days_per_date, civil_days.
  rewrite march_month_days, (leap_month_days (leap_year y)) by done.
  replace (Z.quot (m + 9) 12) with (if 3 <=? m then 1 else 0) by (destruct (3 <=? m) eqn:E; b2p; dlia).
  destruct (3 <=? m) eqn:E; b2p.
  - replace (y - 1 + 1) with y by lia. rewrite (Z.mul_comm y 365), march_quot by lia.
    rewrite march_days_year. lia.
  - rewrite Z.add_0_r, (Z.mul_comm (y - 1) 365), march_quot by lia.
    rewrite days_before_year_march0. lia.
Qed.

Lemma julian_day_spec y m d :
  1 <= y → 1 <= m <= 12 → julian_day d m y = civil_days y (m - 1) d + 2440588.
Proof.
  intros Hy Hm. unfold julian_day.
  assert (Z.quot (153 * (m + 12 * Z.quot (14 - m) 12 - 3) + 2) 5 =
          if 3 <=? m then days_before_month false (m - 1) - 59
          else days_before_month false (m - 1) + 306) as ->.
  { pose proof (forallb_seqZ (fun m =>
      Z.quot (153 * (m + 12 * Z.quot (14 - m) 12 - 3) + 2) 5 =?
      if 3 <=? m then days_before_month false (m - 1) - 59
      else days_before_month false (m - 1) + 306) 1 12 eq_refl m ltac:(lia)) as H.
    cbn beta in H. by b2p. }
  replace (Z.quot (14 - m) 12) with (if 3 <=? m then 0 else 1) by (destruct (3 <=? m) eqn:E; b2p; dlia).
  assert (∀ z, march_days (z + 4800) = march_days z + 1753164) as K
    by (intros; unfold march_days; dlia).
  assert (∀ a b z, 0 <= z → a + b + 365 * z + Z.quot z 4 - Z.quot z 100 + Z.quot z 400 - 32045 =
    a + b + march_days z - 32045) as J by (intros; rewrite <- march_quot by lia; lia).
  rewrite J by (destruct (3 <=? m); lia). unfold civil_days.
  rewrite (leap_month_days (leap_year y)) by done. destruct (3 <=? m) eqn:E; b2p.
  - rewrite Z.sub_0_r, K, march_days_year. lia.
  - replace (y + 4800 - 1) with (y - 1 + 4800) by lia.
    rewrite K, days_before_year_march0. lia.
Qed.

(** both day counts, the one behind [tm_yday] and "%j" and the Julian day
    number of the ISO week, count the days of the Gregorian calendar; hence
    their difference to January 1st is the day of the year. *)
Theorem day_counts_correct y m d :
  1 <= y → 1 <= m <= 12 →
  __calculate_days_per_date y m d - __calculate_days_per_date 1970 1 1 = civil_days y (m - 1) d ∧
  julian_day d m y - julian_day 1 1 1970 = civil_days y (m - 1) d ∧
  __calculate_days_per_date y m d - __calculate_days_per_date y 1 1 = yday_of y (m - 1) d.
Proof.
  intros Hy Hm. rewrite !days_per_date_spec, !julian_day_spec by lia.
  unfold yday_of, civil_days. simpl (1 - 1).
  assert (∀ b, days_before_month b 0 = 0) as Hb by done.
  rewrite !Hb, days_before_year_1970. lia.
Qed.

Lemma day_counts_correct_witness :
  __calculate_days_per_date 2024 12 31 - __calculate_days_per_date 2024 1 1 = 365.
Proof. apply (day_counts_correct 2024 12 31); lia. Defined.

(** ** Days of the week *)

(** [__calculate_weekday] is the day of the week of every date from 1900 to
    2099; it has no correction for the century and is wrong from March 2100 on. *)
Theorem weekday_correct y m d :
  1900 <= y <= 2099 → 1 <= m <= 12 → 1 <= d →
  __calculate_weekday y m d = wday_of (civil_days y (m - 1) d) ∧
  __calculate_weekday 2100 3 1 ≠ wday_of (civil_days 2100 2 1).
Proof.
  intros Hy Hm Hd. split; [|done].
  set (base y m := y - 1900 + Z.quot (y - 1900) 4 -
    (if (m =? 1) || (m =? 2) then
       if negb (Z.rem y 4 =? 0) then 0
       else if Z.rem y 400 =? 0 then 1 else if Z.rem y 100 =? 0 then 0 else 1
     else 0) + nthZ month_skew (m - 1)).
  assert (__calculate_weekday y m d = Z.rem (base y m + d) 7) as ->.
  { unfold __calculate_weekday, base. cbv zeta. f_equal. destruct ((m =? 1) || (m =? 2))%bool; lia. }
  pose proof (forallb_seqZ (fun y => forallb (fun m =>
    (-1 <=? base y m) && ((base y m - civil_days y (m - 1) 1 - 3) mod 7 =? 0)) (seqZ 1 12))
    1900 200 ltac:(vm_compute; reflexivity) y ltac:(lia)) as H.
  cbn beta in H. apply forallb_seqZ with (i := m) in H; [|lia]. cbn beta in H. b2p.
  replace (civil_days y (m - 1) d) with (civil_days y (m - 1) 1 + d - 1) by (unfold civil_days; lia).
  unfold wday_of. set (b := base y m) in *. clearbody b. set (c := civil_days y (m - 1) 1) in *.
  clearbody c. dlia.
Qed.

Lemma weekday_correct_witness :
  __calculate_weekday 2024 2 29 = 4 ∧ __calculate_weekday 2100 3 1 ≠ wday_of (civil_days 2100 2 1).
Proof. apply (weekday_correct 2024 2 29); lia. Defined.

(** ** ISO 8601 weeks *)

(** The Thursday of the week (from Monday) of day [n]; 1970-01-01 is one. *)
Definition thursday (n : Z) : Z := n - (n + 3) mod 7 + 3.

Lemma year_from_1601 qc c q y :
  0 <= c <= 3 → 0 <= q <= 24 → 0 <= y <= 3 →
  days_before_year (1601 + 400 * qc + 100 * c + 4 * q + y) =
  146097 * qc + 36524 * c + 1461 * q + 365 * y - 134774.
Proof. intros. unfold days_before_year. dlia. Qed.

Lemma leap_from_1601 qc c q :
  0 <= c <= 3 → 0 <= q < 24 → leap_year (1601 + 400 * qc + 100 * c + 4 * q + 3) = true.
Proof.
  intros. unfold leap_year.
  repeat match goal with
    | |- context [?x mod ?n =? 0] => destruct (x mod n =? 0) eqn:?; b2p; simpl; try dlia
    end; done || dlia.
Qed.

(** The week formula finds the day of the year of the Thursday. *)
Lemma iso_week_thursday n :
  -719162 <= n →
  ∃ y, days_before_year y <= thursday n < days_before_year (y + 1) ∧
       iso_week_of (n + 2440588) = (thursday n - days_before_year y) / 7 + 1.
Proof.
  intros Hn. unfold iso_week_of.
  replace (n + 2440588 + 31741 - Z.rem (n + 2440588) 7) with (thursday n + 2472326)
    by (unfold thursday; dlia).
  assert (thursday n mod 7 = 0) as H7 by (unfold thursday; dlia).
  assert (-719169 <= thursday n) as Hth by (unfold thursday; dlia).
  set (th := thursday n) in *. clearbody th.
  set (qc := (th + 134774) / 146097). set (r := (th + 134774) mod 146097).
  assert (Z.rem (th + 2472326) 146097 = r) as -> by (unfold r; dlia).
  assert (th = 146097 * qc + r - 134774 ∧ 0 <= r < 146096) as [Eth Hr] by (unfold qc, r; dlia).
  clearbody qc r.
  rewrite (Z.rem_mod_nonneg r 36524), (Z.rem_mod_nonneg (r mod 36524) 1461) by (clear - Hr; dlia).
  set (c := r / 36524). set (r1 := r mod 36524).
  assert (r = 36524 * c + r1 ∧ 0 <= c <= 3 ∧ 0 <= r1 < 36524) as (Er & Hc & Hr1)
    by (unfold c, r1; dlia). clearbody c r1.
  set (q := r1 / 1461). set (d4 := r1 mod 1461).
  assert (r1 = 1461 * q + d4 ∧ 0 <= q <= 24 ∧ 0 <= d4 <= 1460 ∧ (d4 = 1460 → q < 24))
    as (Er1 & Hq & Hd4 & Hl) by (unfold q, d4; dlia). clearbody q d4.
  set (y := if d4 =? 1460 then 3 else d4 / 365).
  assert (0 <= y <= 3) as Hy by (unfold y; destruct (d4 =? 1460) eqn:E; b2p; dlia).
  exists (1601 + 400 * qc + 100 * c + 4 * q + y).
  rewrite days_before_year_step, year_from_1601 by done.
  assert (Z.rem (d4 - Z.quot d4 1460) 365 + Z.quot d4 1460 = d4 - 365 * y) as ->
    by (unfold y; clear - Hd4; destruct (d4 =? 1460) eqn:E; b2p; dlia).
  assert (0 <= d4 - 365 * y < 365 ∨ (d4 = 1460 ∧ y = 3)) as Hd
    by (unfold y; clear - Hd4; destruct (d4 =? 1460) eqn:E; b2p; dlia).
  clearbody y. split.
  - destruct Hd as [Hd|[-> ->]]; [|rewrite leap_from_1601 by lia; simpl; lia].
    assert (0 <= b2z (leap_year (1601 + 400 * qc + 100 * c + 4 * q + y)))
      by (unfold b2z; destruct (leap_year _); lia). lia.
  - rewrite Z.quot_div_nonneg by lia. do 2 f_equal. lia.
Qed.

Lemma january m d y :
  date_valid y m d →
  (m = 0 → yday_of y m d < 31) ∧ (m ≠ 0 → 31 <= yday_of y m d) ∧
  (m = 11 → 334 + b2z (leap_year y) <= yday_of y m d) ∧
  (m ≠ 11 → yday_of y m d < 334 + b2z (leap_year y)).
Proof.
  intros [Hm Hd]. unfold yday_of.
  pose proof (forallb_seqZ (fun m =>
    forallb (fun l : bool =>
      ((negb (m =? 0)) || (days_before_month l m + month_length l m <=? 31)) &&
      ((m =? 0) || (31 <=? days_before_month l m)) &&
      ((negb (m =? 11)) || (334 + b2z l <=? days_before_month l m)) &&
      ((m =? 11) || (days_before_month l m + month_length l m <=? 334 + b2z l))) [true; false])
    0 12 eq_refl m ltac:(lia)) as H.
  cbn beta in H. rewrite forallb_forall in H.
  specialize (H (leap_year y) ltac:(destruct (leap_year y); simpl; auto)). cbn beta in H. b2p.
  repeat match goal with H : _ ∨ _ |- _ => destruct H; b2p end; lia.
Qed.

(** The year of a Thursday within three days of a date. *)
Lemma iso_year_cases y y' n th :
  days_before_year y <= n < days_before_year (y + 1) →
  days_before_year y' <= th < days_before_year (y' + 1) → th - 3 <= n <= th + 3 →
  (y' = y - 1 ∧ n - days_before_year y < 3 ∧ 362 <= th - days_before_year y') ∨
  (y' = y ∧ th - days_before_year y' <= n - days_before_year y + 3 ∧
            n - days_before_year y - 3 <= th - days_before_year y') ∨
  (y' = y + 1 ∧ 362 + b2z (leap_year y) <= n - days_before_year y ∧ th - days_before_year y' < 3).
Proof.
  intros HR HR' Hn. assert (∀ b, 0 <= b2z b <= 1) as Hb by (intros []; simpl; lia).
  pose proof (days_before_year_step y) as S1. pose proof (days_before_year_step y') as S2.
  pose proof (Hb (leap_year y)). pose proof (Hb (leap_year y')).
  destruct (Z.lt_trichotomy y' y) as [Hl|[->|Hl]].
  - left. pose proof (days_before_year_mono (y' + 1) y ltac:(lia)).
    assert (y' = y - 1); [|subst; replace (y - 1 + 1) with y in * by lia; lia].
    destruct (decide (y' + 1 = y)); [lia|].
    pose proof (days_before_year_mono (y' + 1 + 1) y ltac:(lia)).
    pose proof (days_before_year_step (y' + 1)). pose proof (Hb (leap_year (y' + 1))). lia.
  - right. left. lia.
  - right. right. pose proof (days_before_year_mono (y + 1) y' ltac:(lia)).
    assert (y' = y + 1); [|subst; lia]. destruct (decide (y + 1 = y')); [lia|].
    pose proof (days_before_year_mono (y + 1 + 1) y' ltac:(lia)).
    pose proof (days_before_year_step (y + 1)). pose proof (Hb (leap_year (y + 1))). lia.
Qed.

(** [iso8601_calendar_week_and_year] computes the ISO 8601 week and its
    year: those of the Thursday of the week, whatever year it falls in. *)
Theorem iso_week_correct y m d y' m' d' :
  1 <= y → date_valid y (m - 1) d → date_valid y' m' d' →
  civil_days y' m' d' = thursday (civil_days y (m - 1) d) →
  iso8601_calendar_week_and_year d m y = (yday_of y' m' d' / 7 + 1, y').
Proof.
  intros Hy Hv Hv' Eth. pose proof (january _ _ _ Hv) as HJ.
  assert (1 <= m <= 12) as Hm by (destruct Hv; lia).
  unfold iso8601_calendar_week_and_year. rewrite julian_day_spec by lia.
  pose proof (civil_days_range _ _ _ Hv) as HR. pose proof (civil_days_range _ _ _ Hv') as HR'.
  assert (yday_of y (m - 1) d = civil_days y (m - 1) d - days_before_year y) as Ey
    by (unfold yday_of, civil_days; lia).
  assert (yday_of y' m' d' = civil_days y' m' d' - days_before_year y') as Ey'
    by (unfold yday_of, civil_days; lia).
  set (n := civil_days y (m - 1) d) in *. rewrite Eth in Ey', HR'. rewrite Ey'. rewrite Ey in HJ.
  pose proof (days_before_year_mono 1 y Hy) as H1. change (days_before_year 1) with (-719162) in H1.
  destruct (iso_week_thursday n ltac:(lia)) as (y0 & HR0 & ->).
  assert (thursday n - 3 <= n <= thursday n + 3) as Hn by (unfold thursday; clear; dlia).
  set (th := thursday n) in *. clearbody th n.
  assert (y0 = y') as ->.
  { pose proof (days_before_year_mono (y0 + 1) y'). pose proof (days_before_year_mono (y' + 1) y0). lia. }
  pose proof (iso_year_cases y y' n th HR HR' Hn) as HC. f_equal.
  set (a := th - days_before_year y') in *. set (b := n - days_before_year y) in *.
  assert (0 <= b2z (leap_year y)) by (destruct (leap_year y); simpl; lia).
  assert (0 <= a) as Ha by (unfold a; lia). clear - HC HJ H Ha. clearbody a b.
  destruct ((m =? 1) && _)%bool eqn:E1; [|destruct ((m =? 12) && _)%bool eqn:E2]; b2p;
    repeat match goal with H : _ ∨ _ = false |- _ => destruct H; b2p end;
    destruct HC as [(-> & ? & ?)|[(-> & ? & ?)|(-> & ? & ?)]]; dlia.
Qed.

(** December 30th 2024 is in the first week of 2025. *)
Lemma iso_week_correct_witness : iso8601_calendar_week_and_year 30 12 2024 = (1, 2025).
Proof.
  apply (iso_week_correct 2024 12 30 2025 0 2); [lia|split; [lia|split; done]|split; [lia|split; done]|].
  reflexivity.
Defined.
