(* ===== verification/TimeFmt.v ===== *)
(** * Printing dates

    time/numbertostring.c and time/strftime.c.  [__number_to_string] works on
    memory; its local results in [format_date] are lists, [number_string], which
    the memory version is proved to write.  The hook that receives the
    characters is a parameter of [format_date], as in the code; [strftime] gives
    it the bounded buffer of [format_hook_function]. *)

From Stdlib Require Import String Ascii.
From stdpp Require Import base gmap list numbers.
From S2P Require Import Prelude CMem Words StrScan Calendar.
Open Scope Z_scope.

(** ** Text as bytes *)

Definition ch (a : ascii) : Z := Z.of_N (N_of_ascii a).
Definition text (s : string) : list Z := map ch (list_ascii_of_string s).

(** ** __number_to_string *)

Definition number_digits (number string max_len : Z) : M cstate (Z * Z * Z) :=
  loop (fun '(number, s, max_len, len) =>
          if max_len =? 0 then break (s, max_len, len)
          else
            let max_len := max_len - 1 in
            _ ← store8 s (48 + number mod 10);
            let s := s + 1 in
            let number := number / 10 in
            let len := len + 1 in
            if 0 <? number then continue (number, s, max_len, len)
            else break (s, max_len, len)) (number, string, max_len, 0).

Definition number_pad (s max_len len min_len : Z) : M cstate (Z * Z) :=
  loop (fun '(s, max_len, len) =>
          if (0 <? max_len) && (len <? min_len) then
            _ ← store8 s 48; continue (s + 1, max_len - 1, len + 1)
          else break (s, len)) (s, max_len, len).

Definition number_reverse (string len : Z) : M cstate unit :=
  loop (fun i =>
          if i <? len / 2 then
            c ← load8 (string + (len - 1 - i));
            x ← load8 (string + i);
            _ ← store8 (string + (len - 1 - i)) x;
            _ ← store8 (string + i) c;
            continue (i + 1)
          else break tt) 0.

Definition __number_to_string (number string max_len min_len : Z) : M cstate Z :=
  let max_len := if 0 <? max_len then max_len - 1 else max_len in
  '(s, max_len, len) ← number_digits number string max_len;
  '(s, len) ← number_pad s max_len len min_len;
  _ ← store8 s 0;
  _ ← number_reverse string len;
  mret string.

(** The decimal digits of a number, the last one first; [fuel] digits at most. *)
Fixpoint digits_rev (fuel : nat) (number : Z) : list Z :=
  match fuel with
  | O => []
  | S fuel' =>
      48 + number mod 10 ::
      (if 0 <? number / 10 then digits_rev fuel' (number / 10) else [])
  end.

(** What [__number_to_string] writes before the terminator. *)
Definition number_string (number max_len min_len : Z) : list Z :=
  let room := Z.max 0 (max_len - 1) in
  let ds := digits_rev (Z.to_nat room) number in
  reverse (ds ++ replicate (Z.to_nat (Z.min room min_len - lenZ ds)) 48).

(** ** strftime *)

(** The tables of time/data.c. *)
Definition __abbreviated_week_day_names : list (list Z) :=
  [text "Sun"; text "Mon"; text "Tue"; text "Wed"; text "Thu"; text "Fri"; text "Sat"].
Definition __week_day_names : list (list Z) :=
  [text "Sunday"; text "Monday"; text "Tuesday"; text "Wednesday"; text "Thursday";
   text "Friday"; text "Saturday"].
Definition __abbreviated_month_names : list (list Z) :=
  [text "Jan"; text "Feb"; text "Mar"; text "Apr"; text "May"; text "Jun"; text "Jul";
   text "Aug"; text "Sep"; text "Oct"; text "Nov"; text "Dec"].
Definition __month_names : list (list Z) :=
  [text "January"; text "February"; text "March"; text "April"; text "May"; text "June";
   text "July"; text "August"; text "September"; text "October"; text "November";
   text "December"].

Definition name_of (table : list (list Z)) (i n : Z) (other : list Z) : list Z :=
  if (0 <=? i) && (i <=? n) then table !!! Z.to_nat i else other.

(** [struct format_hook_data]; the characters stored so far stand for the
    pointer [buffer]. *)
Record format_hook_data := FHD { fh_stored : list Z; max_size : Z; len : Z }.

Definition format_hook_function (c : Z) : M format_hook_data unit :=
  modify (fun data =>
    if negb (c =? 0) then
      if 0 <? max_size data then
        FHD (fh_stored data ++ [u8 c]) (max_size data - 1) (len data + 1)
      else FHD (fh_stored data) (max_size data) 0
    else data).

(** Characters for any hook; a negative length is the length of the string. *)
Definition store_string_via_hook {St} (hook : Z → M St unit) (string : list Z) (len : Z)
  : M St unit :=
  let len := if len <? 0 then lenZ string else len in
  foldr (fun c k => _ ← hook c; k) (mret tt) (take (Z.to_nat len) string).

Section FormatDate.
Context {St : Type} (hook : Z → M St unit).
(** The [loc_GMTOffset] of the default locale, if there is one. *)
Context (default_locale : option Z) (tm : tm).

#[local] Abbreviation store := (store_string_via_hook hook).

(** A number in the 40 bytes of [buffer]; [unsigned int] arithmetic. *)
Definition num (number min_len : Z) : list Z := number_string (u32 number) 40 min_len.

(** The cases of the [switch], in four groups; [next] is the rest of it and
    [format_date] the recursive call. *)
Definition format_conv1 (format_date : list Z → M St unit) (next : M St unit) (c : Z) : M St unit :=
  if c =? ch "a" then store (name_of __abbreviated_week_day_names (tm_wday tm) 6 (text "-")) (-1)
  else if c =? ch "A" then store (name_of __week_day_names (tm_wday tm) 6 (text "-")) (-1)
  else if c =? ch "b" then store (name_of __abbreviated_month_names (tm_mon tm) 11 (text "-")) (-1)
  else if c =? ch "B" then store (name_of __month_names (tm_mon tm) 11 []) (-1)
  else if c =? ch "c" then format_date (text "%a %b %e %T %Y")
  else if c =? ch "C" then store (num (Z.quot (tm_year tm) 100) 2) 2
  else if c =? ch "d" then store (num (tm_mday tm) 2) 2
  else if c =? ch "D" then format_date (text "%m/%d/%y")
  else if c =? ch "e" then
    let buffer := num (tm_mon tm + 1) 2 in
    let buffer := match buffer with
                  | b :: rest => (if b =? ch "0" then ch " " else b) :: rest
                  | [] => []
                  end in
    store buffer 2
  else if c =? ch "F" then format_date (text "%Y-%m-%d")
  else next.

Definition format_conv2 (format_date : list Z → M St unit) (next : M St unit) (c : Z) : M St unit :=
  if c =? ch "g" then
    let '(_, year_number) :=
      iso8601_calendar_week_and_year (tm_mday tm) (tm_mon tm + 1) (tm_year tm + 1900) in
    store (num (Z.rem year_number 100) 2) 2
  else if c =? ch "G" then
    let '(_, year_number) :=
      iso8601_calendar_week_and_year (tm_mday tm) (tm_mon tm + 1) (tm_year tm + 1900) in
    store (num year_number 0) (-1)
  else if c =? ch "h" then format_date (text "%b")
  else if c =? ch "H" then store (num (tm_hour tm) 2) 2
  else if c =? ch "I" then
    let hour := Z.rem (tm_hour tm) 12 in
    let hour := if hour =? 0 then 12 else hour in
    store (num hour 2) 2
  else if c =? ch "j" then
    store (num (1 + __calculate_days_per_date (tm_year tm + 1900) (tm_mon tm + 1) (tm_mday tm)
                - __calculate_days_per_date (tm_year tm + 1900) 1 1) 3) (-1)
  else if c =? ch "m" then store (num (tm_mon tm + 1) 2) 2
  else if c =? ch "M" then store (num (tm_min tm) 2) 2
  else if c =? ch "n" then store [10] 1
  else if c =? ch "p" then store (if tm_hour tm <? 12 then text "AM" else text "PM") 2
  else next.

Definition format_conv3 (format_date : list Z → M St unit) (next : M St unit) (c : Z) : M St unit :=
  if c =? ch "r" then format_date (text "%I:%M:%S %p")
  else if c =? ch "R" then format_date (text "%H:%M")
  else if c =? ch "S" then store (num (tm_sec tm) 2) 2
  else if c =? ch "t" then store [9] 1
  else if c =? ch "T" then format_date (text "%H:%M:%S")
  else if c =? ch "u" then store (num (if 0 <? tm_wday tm then tm_wday tm else 7) 0) 1
  else if c =? ch "U" then store (num (Z.quot (tm_yday tm + 7 - tm_wday tm) 7) 2) 2
  else if c =? ch "V" then
    let '(week_number, _) :=
      iso8601_calendar_week_and_year (tm_mday tm) (tm_mon tm + 1) (tm_year tm + 1900) in
    store (num week_number 2) 2
  else if c =? ch "w" then store (num (tm_wday tm) 0) 1
  else if c =? ch "W" then
    store (num (Z.quot (tm_yday tm + 7 - Z.rem (tm_wday tm + 6) 7) 7) 2) 2
  else next.

Definition format_conv4 (format_date : list Z → M St unit) (c : Z) : M St unit :=
  if c =? ch "x" then format_date (text "%m/%d/%y")
  else if c =? ch "X" then format_date (text "%T")
  else if c =? ch "y" then store (num (u32 (tm_year tm) mod 100) 2) 2
  else if c =? ch "Y" then store (num (1900 + tm_year tm) 0) (-1)
  else if c =? ch "z" then
    gmt_offset ←
      match default_locale with
      | Some gmt_offset =>
          if gmt_offset <? 0 then mret (- gmt_offset)
          else if 0 <? gmt_offset then _ ← store (text "-") 1; mret gmt_offset
          else mret gmt_offset
      | None => mret 0
      end;
    let gmt_offset := 100 * Z.quot gmt_offset 60 + Z.rem gmt_offset 60 in
    store (num gmt_offset 0) (-1)
  else if c =? ch "Z" then
    _ ← store (text "GMT") 3;
    match default_locale with
    | Some loc_GMTOffset =>
        let hours_west_of_gmt := Z.quot loc_GMTOffset 60 in
        let '(sign, hours_west_of_gmt) :=
          if hours_west_of_gmt <? 0 then (ch "+", - hours_west_of_gmt)
          else if 0 <? hours_west_of_gmt then (ch "-", hours_west_of_gmt)
          else (ch "?", hours_west_of_gmt) in
        if negb (hours_west_of_gmt =? 0) then
          _ ← store [sign] 1;
          store (num hours_west_of_gmt 2) (-1)
        else mret tt
    | None => mret tt
    end
  else store [c] 1.

Definition format_conv (format_date : list Z → M St unit) (c : Z) : M St unit :=
  format_conv1 format_date
    (format_conv2 format_date
       (format_conv3 format_date (format_conv4 format_date c) c) c) c.

(** The loop over the format, which ends at its NUL; [format_date] is the
    recursive call. *)
Fixpoint format_loop (format_date : list Z → M St unit) (format : list Z) : M St unit :=
  match format with
  | [] => mret tt
  | c :: format' =>
      if negb (c =? ch "%") then
        _ ← store [c] 1; format_loop format_date format'
      else
        match format' with
        | [] => mret tt
        | c :: format' =>
            if (c =? ch "E") || (c =? ch "O") then
              match format' with
              | [] => mret tt
              | c :: format' => _ ← format_conv format_date c; format_loop format_date format'
              end
            else _ ← format_conv format_date c; format_loop format_date format'
        end
  end.

(** The recursion is on formats fixed in the code, at most three deep. *)
Fixpoint format_date (depth : nat) (format : list Z) : M St unit :=
  match depth with
  | O => no_fuel
  | S depth' => format_loop (format_date depth') format
  end.
End FormatDate.

(** [strftime] without a locale for [LC_TIME], with non-null arguments: what is
    left in the buffer and the result. *)
Definition strftime (default_locale : option Z) (maxsize : Z) (format : list Z) (t : tm)
  : res (list Z * Z) :=
  if 0 <? maxsize then
    let data := FHD [] (s32 (maxsize - 1)) 0 in
    let t := if (tm_wday t <? 0) || (6 <? tm_wday t) then
               Tm (tm_sec t) (tm_min t) (tm_hour t) (tm_mday t) (tm_mon t) (tm_year t)
                  (__calculate_weekday (tm_year t + 1900) (tm_mon t + 1) (tm_mday t))
                  (tm_yday t) (tm_isdst t) (__tm_gmtoff t) (__tm_zone t)
             else t in
    match format_date format_hook_function default_locale t 3 format data with
    | Ok (_, data) => Ok (fh_stored data ++ [0], len data)
    | Fault => Fault
    | NoFuel => NoFuel
    end
  else Ok ([], 0).

Example strftime_ex :
  strftime None 40 (text "%Y-%m-%dT%H:%M:%S %V") (Tm 5 4 3 2 0 124 2 1 0 0 []) =
  Ok (text "2024-01-02T03:04:05 01" ++ [0], 22).
Proof. vm_compute. reflexivity. Qed.

(** ** __number_to_string writes the digits *)

Section NumberToString.
Context (σ : cstate) (p n mx mn : Z).
Context (Hn : 0 <= n < 4294967296) (Hmx : 0 < mx < 4294967296) (Hmn : 0 <= mn < 4294967296).
Context (Hp : mapped (mem σ) p mx).

Definition written (l : list Z) : cstate := with_mem (write_bytes (mem σ) p l) σ.

Lemma wp_written_store l v Q :
  lenZ l < mx → is_byte v → Q tt (written (l ++ [v])) → wp (store8 (p + lenZ l) v) Q (written l).
Proof.
  intros Hl Hv HQ. pose proof (lenZ_nonneg l).
  eapply wp_store8_mapped; [simpl; by apply write_bytes_mapped|lia|].
  rewrite u8_small by done. unfold written in *. by rewrite write_bytes_app in HQ.
Qed.

Lemma digits_byte k : is_byte (48 + k mod 10).
Proof. unfold is_byte. dlia. Qed.

Lemma digits_rev_fuel fuel k : Z.of_nat fuel <= mx → lenZ (digits_rev fuel k) <= Z.of_nat fuel.
Proof.
  revert k. induction fuel as [|f IH]; intros k Hf; [done|]. simpl. rewrite lenZ_cons.
  destruct (0 <? k / 10); [|unfold lenZ; simpl; lia]. specialize (IH (k / 10)). lia.
Qed.

Lemma number_digits_spec l k room :
  lenZ l + room < mx → 0 <= room → 0 <= k < 4294967296 →
  wp (loop (fun '(number, s, max_len, len) =>
          if max_len =? 0 then break (s, max_len, len)
          else
            let max_len := max_len - 1 in
            _ ← store8 s (48 + number mod 10);
            let s := s + 1 in
            let number := number / 10 in
            let len := len + 1 in
            if 0 <? number then continue (number, s, max_len, len)
            else break (s, max_len, len)) (k, p + lenZ l, room, lenZ l))
     (fun '(s, r, len) τ =>
        let ds := digits_rev (Z.to_nat room) k in
        τ = written (l ++ ds) ∧ len = lenZ (l ++ ds) ∧ s = p + len ∧ r = room - lenZ ds) (written l).
Proof.
  intros H1 H2 H3. pose proof (lenZ_nonneg l).
  apply (wp_loop _ (fun '(k', s, r, len) τ => ∃ l', τ = written l' ∧ s = p + lenZ l' ∧
    len = lenZ l' ∧ 0 <= r ∧ lenZ l' + r < mx ∧ 0 <= k' ∧
    l ++ digits_rev (Z.to_nat room) k = l' ++ digits_rev (Z.to_nat r) k' ∧
    lenZ l' + r = lenZ l + room)
    _ (fun '(_, _, r, _) => r)).
  - intros [[[k' s] r] len] τ (l' & -> & -> & -> & Hr & Hb & Hk' & Heq & Hlen).
    destruct (r =? 0) eqn:E; b2p.
    { wp_step. cbv zeta. rewrite Heq. subst r. simpl. rewrite app_nil_r.
      split; [done|]. split; [done|]. split; [done|].
      apply (f_equal lenZ) in Heq. rewrite !lenZ_app in Heq.
      change (lenZ (digits_rev _ k')) with 0 in Heq. lia. }
    cbv zeta. wp_step. apply wp_written_store; [lia|apply digits_byte|].
    assert (digits_rev (Z.to_nat r) k' = (48 + k' mod 10) ::
      if 0 <? k' / 10 then digits_rev (Z.to_nat (r - 1)) (k' / 10) else []) as Hd.
    { replace (Z.to_nat r) with (S (Z.to_nat (r - 1))) by lia. done. }
    rewrite Hd in Heq. destruct (0 <? k' / 10) eqn:E2; b2p; wp_step.
    + split; [|lia]. exists (l' ++ [48 + k' mod 10]). rewrite lenZ_snoc.
      split; [done|]. split; [lia|]. split; [lia|]. split; [lia|]. split; [lia|]. split; [dlia|].
      split; [|lia]. by rewrite <- app_assoc.
    + rewrite Heq. rewrite lenZ_snoc. split; [done|]. split; [done|]. split; [lia|].
      apply (f_equal lenZ) in Heq. rewrite !lenZ_app, lenZ_cons in Heq.
      change (lenZ (@nil Z)) with 0 in Heq. lia.
  - exists l. repeat split; lia.
  - intros [[[k' s] r] len] τ (l' & _ & _ & _ & ? & _). done.
  - lia.
Qed.

Lemma number_pad_spec l r :
  lenZ l + r < mx → 0 <= r →
  wp (number_pad (p + lenZ l) r (lenZ l) mn)
     (fun '(s, len) τ =>
        let l' := l ++ replicate (Z.to_nat (Z.min (lenZ l + r) mn - lenZ l)) 48 in
        τ = written l' ∧ len = lenZ l' ∧ s = p + len) (written l).
Proof.
  intros H1 H2. pose proof (lenZ_nonneg l).
  apply (wp_loop _ (fun '(s, r', len) τ => ∃ i, 0 <= i ∧
    let l' := l ++ replicate (Z.to_nat i) 48 in
    τ = written l' ∧ s = p + lenZ l' ∧ len = lenZ l' ∧ lenZ l' + r' = lenZ l + r ∧ 0 <= r' ∧
    (i = 0 ∨ lenZ l' <= mn)) _ (fun '(_, r, _) => r)).
  - intros [[s r'] len] τ (i & Hi & -> & -> & -> & Hr & Hr' & Hm).
    rewrite lenZ_app, lenZ_replicate in * by lia.
    destruct ((0 <? r') && (lenZ l + i <? mn))%bool eqn:E; b2p.
    + wp_step. replace (p + (lenZ l + i)) with (p + lenZ (l ++ replicate (Z.to_nat i) 48))
        by (rewrite lenZ_app, lenZ_replicate; lia).
      apply wp_written_store; [rewrite lenZ_app, lenZ_replicate; lia|unfold is_byte; lia|].
      wp_step. split; [|lia]. exists (i + 1). split; [lia|]. cbv zeta.
      replace (Z.to_nat (i + 1)) with (Z.to_nat i + 1)%nat by lia.
      rewrite replicate_add, app_assoc. change (replicate 1 48) with [48].
      rewrite lenZ_snoc, lenZ_app, lenZ_replicate by lia. split; [done|]. lia.
    + wp_step. assert (i = Z.min (lenZ l + r) mn - lenZ l ∨ (i = 0 ∧ Z.min (lenZ l + r) mn <= lenZ l)) as Hc
        by (destruct E; b2p; lia).
      assert (Z.to_nat (Z.min (lenZ l + r) mn - lenZ l) = Z.to_nat i) as -> by lia.
      cbv zeta. rewrite lenZ_app, lenZ_replicate by lia. done.
  - exists 0. cbv zeta. change (replicate _ 48) with (@nil Z). rewrite app_nil_r.
    split; [lia|]. split; [done|]. lia.
  - intros [[s r'] len] τ (i & _ & _ & _ & _ & _ & ? & _). done.
  - lia.
Qed.
(** Element [j] of [l] after [i] steps of the reversal in place. *)
Definition swapped (l : list Z) (i : Z) (k : list Z) : Prop :=
  lenZ k = lenZ l ∧ Forall is_byte k ∧
  ∀ j, 0 <= j < lenZ l →
    nthZ k j = if (j <? i) || (lenZ l - 1 - i <? j) then nthZ l (lenZ l - 1 - j) else nthZ l j.

Lemma swapped_step l i k :
  swapped l i k → 0 <= i < lenZ l / 2 →
  swapped l (i + 1)
    (<[Z.to_nat i := nthZ k (lenZ l - 1 - i)]> (<[Z.to_nat (lenZ l - 1 - i) := nthZ k i]> k)).
Proof.
  intros (Hl & Hb & Hk) Hi. assert (i < lenZ l - 1 - i) by dlia.
  split; [by rewrite !lenZ_insert|]. split.
  { apply Forall_insert; [apply Forall_insert; [done|]|];
      apply (Forall_nthZ is_byte); (done || lia). }
  intros j Hj. rewrite nthZ_insert by (rewrite ?lenZ_insert; lia). rewrite nthZ_insert by lia.
  rewrite !Hk by lia.
  rewrite (proj2 (Z.ltb_ge i i)), (proj2 (Z.ltb_ge (lenZ l - 1 - i) i)),
    (proj2 (Z.ltb_ge (lenZ l - 1 - i) (lenZ l - 1 - i))) by lia.
  destruct (j =? i) eqn:E1; [|destruct (j =? lenZ l - 1 - i) eqn:E2]; b2p; subst; simpl.
  - by rewrite (proj2 (Z.ltb_lt i (i + 1))) by lia.
  - rewrite (proj2 (Z.ltb_lt (lenZ l - 1 - (i + 1)) (lenZ l - 1 - i))) by lia.
    rewrite orb_true_r. f_equal. lia.
  - destruct (j <? i) eqn:A, (lenZ l - 1 - i <? j) eqn:B, (j <? i + 1) eqn:C,
      (lenZ l - 1 - (i + 1) <? j) eqn:D; b2p; simpl; done || lia.
Qed.

Lemma swapped_end l i k : swapped l i k → i = lenZ l / 2 → k = reverse l.
Proof.
  intros (Hl & _ & Hk) ->. apply list_eq_nthZ; [by rewrite lenZ_reverse|].
  intros j Hj. rewrite Hl in Hj. rewrite Hk, nthZ_reverse by lia.
  destruct (_ || _)%bool eqn:E; b2p; [done|]. f_equal. dlia.
Qed.

Lemma wp_written_set l i v Q :
  0 <= i < lenZ l → lenZ l <= mx → is_byte v → Q tt (written (<[Z.to_nat i := v]> l)) →
  wp (store8 (p + i) v) Q (written l).
Proof.
  intros Hi Hl Hv HQ. eapply wp_store8_mapped; [simpl; by apply write_bytes_mapped|lia|].
  rewrite u8_small by done. unfold written in *. simpl. by rewrite write_bytes_insert.
Qed.

Lemma number_reverse_spec l :
  lenZ l < mx → Forall is_byte l →
  wp (number_reverse p (lenZ l)) (fun _ τ => τ = written (reverse l ++ [0])) (written (l ++ [0])).
Proof.
  intros Hl Hb. pose proof (lenZ_nonneg l). unfold number_reverse.
  apply (wp_loop _ (fun i τ => 0 <= i <= lenZ l / 2 ∧ ∃ k, τ = written (k ++ [0]) ∧ swapped l i k)
    _ (fun i => lenZ l / 2 - i)).
  - intros i τ (Hi & k & -> & Hk). pose proof Hk as (El & Bk & _).
    destruct (i <? lenZ l / 2) eqn:E; b2p.
    2:{ wp_step. by rewrite (swapped_end l i k) by (done || lia). }
    assert (i < lenZ l - 1 - i) by dlia.
    assert (bytes_at (mem (written (k ++ [0]))) p (k ++ [0])) as Hat by apply write_bytes_bytes_at.
    wp_step. apply (wp_load8_at _ (k ++ [0])); [done|rewrite lenZ_snoc; lia|].
    rewrite nthZ_app_l by lia.
    wp_step. apply (wp_load8_at _ (k ++ [0])); [done|rewrite lenZ_snoc; lia|].
    rewrite nthZ_app_l by lia.
    wp_step. apply wp_written_set; [rewrite lenZ_snoc; lia|rewrite lenZ_snoc; lia|
      apply (Forall_nthZ is_byte); (done || lia)|].
    wp_step. apply wp_written_set; [rewrite lenZ_insert, lenZ_snoc; lia
      |rewrite lenZ_insert, lenZ_snoc; lia|apply (Forall_nthZ is_byte); (done || lia)|].
    wp_step. split; [|lia]. split; [lia|]. eexists. split; [|apply swapped_step; [done|lia]].
    rewrite !insert_app_l; [done|unfold lenZ in *; rewrite ?length_insert; lia..].
  - split; [dlia|]. exists l. split; [done|]. split; [done|]. split; [done|].
    intros j Hj. rewrite (proj2 (Z.ltb_ge j 0)), (proj2 (Z.ltb_ge (lenZ l - 1 - 0) j)) by lia. done.
  - intros i τ (? & _). lia.
  - dlia.
Qed.

Lemma digits_rev_byte fuel k : Forall is_byte (digits_rev fuel k).
Proof.
  revert k. induction fuel as [|f IH]; intros k; [constructor|]. simpl.
  constructor; [apply digits_byte|]. destruct (0 <? k / 10); [apply IH|constructor].
Qed.

Lemma number_to_string_spec :
  wp (__number_to_string n p mx mn)
     (fun r τ => r = p ∧ τ = written (number_string n mx mn ++ [0])) σ.
Proof.
  unfold __number_to_string. rewrite (proj2 (Z.ltb_lt 0 mx)) by lia. cbv zeta. wp_step.
  assert (σ = written []) as Hσ by (unfold written, with_mem; by destruct σ).
  rewrite Hσ. pose proof (number_digits_spec [] n (mx - 1)) as Hd.
  change (lenZ []) with 0 in Hd. rewrite Z.add_0_r in Hd.
  eapply wp_mono; [apply Hd; (done || lia)|]. clear Hd.
  intros [[s r] len] τ (-> & -> & -> & ->). simpl. set (ds := digits_rev _ n).
  assert (lenZ ds <= mx - 1) as Hds.
  { unfold ds. etransitivity; [apply digits_rev_fuel; lia|lia]. }
  wp_step. eapply wp_mono; [apply number_pad_spec; lia|].
  intros [s len] τ (-> & -> & ->). replace (lenZ ds + (mx - 1 - lenZ ds)) with (mx - 1) by lia.
  set (l := ds ++ _). assert (lenZ l < mx) as Hl.
  { unfold l, lenZ in *. rewrite length_app, length_replicate. lia. }
  wp_step. apply wp_written_store; [done|unfold is_byte; lia|].
  wp_step. eapply wp_mono; [apply number_reverse_spec; [done|]|].
  { unfold l, ds. apply Forall_app. split; [apply digits_rev_byte|].
    apply Forall_replicate. unfold is_byte. lia. }
  intros _ τ ->. wp_step. split; [done|]. unfold number_string.
  replace (Z.max 0 (mx - 1)) with (mx - 1) by lia. done.
Qed.
End NumberToString.

(** [__number_to_string] writes the decimal digits of the number, with
    leading zeros up to [min_len] and cut to what fits in [max_len - 1] bytes,
    and a terminator; it returns the buffer and writes nothing else. *)
Theorem number_to_string_correct σ number string max_len min_len :
  0 <= number < 4294967296 → 0 < max_len < 4294967296 → 0 <= min_len < 4294967296 →
  mapped (mem σ) string max_len →
  __number_to_string number string max_len min_len σ =
  Ok (string, with_mem (write_bytes (mem σ) string
                          (number_string number max_len min_len ++ [0])) σ).
Proof. intros. apply wp_eq. by apply number_to_string_spec. Qed.

Lemma number_to_string_correct_witness :
  let σ := CState (write_bytes ∅ 200 (replicate 40 7)) 0 in
  __number_to_string 207 200 40 5 σ =
  Ok (200, with_mem (write_bytes (mem σ) 200 (text "00207" ++ [0])) σ).
Proof.
  apply (number_to_string_correct (CState (write_bytes ∅ 200 (replicate 40 7)) 0) 207 200 40 5);
    [done|done|done|by apply mappedb_sound].
Defined.

(** ** The characters a format stands for *)

(** Give the characters of [O] to the hook, one after the other. *)
Definition feed {St} (hook : Z → M St unit) (O : list Z) : M St unit :=
  foldr (fun c k => _ ← hook c; k) (mret tt) O.

Definition is_char (b : Z) : Prop := 0 < b < 256.

(** Whatever the hook, [f] gives it exactly the characters [O]. *)
Definition emits (f : ∀ St, (Z → M St unit) → M St unit) (O : list Z) : Prop :=
  Forall is_char O ∧ ∀ St hook s, f St hook s = feed hook O s.

Lemma feed_app {St} (hook : Z → M St unit) O1 O2 s :
  feed hook (O1 ++ O2) s = (_ ← feed hook O1; feed hook O2) s.
Proof.
  revert s. induction O1 as [|c O1 IH]; intros s; [done|]. simpl.
  unfold mbind, M_mbind, M_bind in *. destruct (hook c s) as [[[] s']| |]; [|done..]. apply IH.
Qed.

Lemma emits_ret : emits (fun _ _ => mret tt) [].
Proof. split; [constructor|done]. Qed.

Lemma emits_bind f g O1 O2 :
  emits f O1 → emits g O2 → emits (fun St h => _ ← f St h; g St h) (O1 ++ O2).
Proof.
  intros [F1 H1] [F2 H2]. split; [by apply Forall_app|]. intros St hook s.
  rewrite feed_app. unfold mbind, M_mbind, M_bind. rewrite H1.
  destruct (feed hook O1 s) as [[[] s']| |]; [|done..]. apply H2.
Qed.

Lemma emits_store string n :
  Forall is_char string →
  emits (fun St h => store_string_via_hook h string n)
        (take (Z.to_nat (if n <? 0 then lenZ string else n)) string).
Proof. intros H. split; [by apply Forall_take|done]. Qed.

(** Some characters, the same for every hook. *)
Definition emits_some (f : ∀ St, (Z → M St unit) → M St unit) : Prop := ∃ O, emits f O.

Lemma emits_some_store string n :
  Forall is_char string → emits_some (fun St h => store_string_via_hook h string n).
Proof. intros H. eexists. by apply emits_store. Qed.

Lemma emits_some_bind f g :
  emits_some f → emits_some g → emits_some (fun St h => _ ← f St h; g St h).
Proof. intros [O1 H1] [O2 H2]. eexists. by apply emits_bind. Qed.

Lemma emits_some_ret : emits_some (fun _ _ => mret tt).
Proof. eexists. apply emits_ret. Qed.

Create HintDb emits.
#[export] Hint Resolve emits_some_store emits_some_bind emits_some_ret : emits.

Lemma digits_rev_char fuel k : 0 <= k → Forall is_char (digits_rev fuel k).
Proof.
  revert k. induction fuel as [|f IH]; intros k Hk; [constructor|]. simpl.
  constructor; [unfold is_char; dlia|]. destruct (0 <? k / 10); [apply IH; dlia|constructor].
Qed.

Lemma num_char number min_len : Forall is_char (num number min_len).
Proof.
  unfold num, number_string. apply Forall_reverse, Forall_app. split.
  - apply digits_rev_char. unfold u32. dlia.
  - apply Forall_replicate. unfold is_char. lia.
Qed.

Definition is_charb (b : Z) : bool := (0 <? b) && (b <? 256).

Lemma is_charb_sound l : forallb is_charb l = true → Forall is_char l.
Proof.
  intros H. apply Forall_forall. intros x Hx. rewrite forallb_forall in H.
  specialize (H x Hx). unfold is_charb in H. b2p. by split.
Qed.

Lemma name_of_char table i n other :
  forallb (forallb is_charb) table = true → lenZ table = n + 1 → forallb is_charb other = true →
  Forall is_char (name_of table i n other).
Proof.
  intros Ht Hl Ho. unfold name_of. destruct (_ && _)%bool eqn:E; [|by apply is_charb_sound]. b2p.
  apply is_charb_sound. rewrite forallb_forall in Ht. apply Ht. apply list_elem_of_In.
  eapply list_elem_of_lookup_2, list_lookup_lookup_total_lt. unfold lenZ in Hl. lia.
Qed.

#[export] Hint Resolve num_char : emits.
#[export] Hint Extern 1 (Forall is_char _) => (apply is_charb_sound; reflexivity) : emits.
#[export] Hint Extern 1 (Forall is_char (name_of _ _ _ _)) =>
  (apply name_of_char; reflexivity) : emits.

(** The formats a conversion is expanded to. *)
Definition expands_to (c : Z) : list (list Z) :=
  if c =? ch "c" then [text "%a %b %e %T %Y"]
  else if (c =? ch "D") || (c =? ch "x") then [text "%m/%d/%y"]
  else if c =? ch "F" then [text "%Y-%m-%d"]
  else if c =? ch "h" then [text "%b"]
  else if c =? ch "r" then [text "%I:%M:%S %p"]
  else if c =? ch "R" then [text "%H:%M"]
  else if c =? ch "T" then [text "%H:%M:%S"]
  else if c =? ch "X" then [text "%T"]
  else [].

Lemma emits_some_if (b : bool) f g :
  (b = true → emits_some f) → (b = false → emits_some g) →
  emits_some (fun St h => if b then f St h else g St h).
Proof. intros Hf Hg. destruct b; [by apply Hf|by apply Hg]. Qed.

Section Emits.
Context (loc : option Z) (t : tm) (rec : ∀ St, (Z → M St unit) → list Z → M St unit).

(** One case of the switch: an expansion, or characters for the hook. *)
Ltac emits_case :=
  refine (emits_some_if _ _ _ _ _); intros ?;
  [b2p; first [solve [eauto with emits]
              | match goal with
                | H : ∀ f, f ∈ expands_to _ → _, E : _ = ch _ |- _ =>
                    apply H; rewrite E; vm_compute; constructor
                end]
  |].

Lemma emits_conv1 c next :
  (∀ f, f ∈ expands_to c → emits_some (fun St h => rec St h f)) → emits_some next →
  emits_some (fun St h => format_conv1 h t (rec St h) (next St h) c).
Proof.
  intros H Hn. unfold format_conv1. do 8 emits_case.
  refine (emits_some_if _ _ _ _ _); intros ?; [|by emits_case].
  cbv zeta. apply emits_some_store. pose proof (num_char (tm_mon t + 1) 2) as Hc.
  destruct Hc as [|b l Hb Hl]; [constructor|]. constructor; [|done].
  destruct (b =? ch "0"); [done|done].
Qed.

Lemma emits_conv2 c next :
  (∀ f, f ∈ expands_to c → emits_some (fun St h => rec St h f)) → emits_some next →
  emits_some (fun St h => format_conv2 h t (rec St h) (next St h) c).
Proof.
  intros H Hn. unfold format_conv2.
  destruct (iso8601_calendar_week_and_year _ _ _) as [w y]. do 9 emits_case.
  refine (emits_some_if _ _ _ _ _); intros ?; [|done].
  apply emits_some_store. destruct (tm_hour t <? 12); auto with emits.
Qed.

Lemma emits_conv3 c next :
  (∀ f, f ∈ expands_to c → emits_some (fun St h => rec St h f)) → emits_some next →
  emits_some (fun St h => format_conv3 h t (rec St h) (next St h) c).
Proof.
  intros H Hn. unfold format_conv3.
  destruct (iso8601_calendar_week_and_year _ _ _) as [w y]. do 10 emits_case. done.
Qed.

Lemma emits_conv4 c :
  is_char c → (∀ f, f ∈ expands_to c → emits_some (fun St h => rec St h f)) →
  emits_some (fun St h => format_conv4 h loc t (rec St h) c).
Proof.
  intros Hc H. unfold format_conv4. do 4 emits_case.
  refine (emits_some_if _ _ _ _ _); intros ?.
  { destruct loc as [g|]; [|apply emits_some_store, num_char].
    destruct (g <? 0); [apply emits_some_store, num_char|].
    destruct (0 <? g); [|apply emits_some_store, num_char].
    destruct (emits_some_bind
      (fun St h => store_string_via_hook h (text "-") 1)
      (fun St h => store_string_via_hook h (num (100 * Z.quot g 60 + Z.rem g 60) 0) (-1)))
      as [O HO]; [auto with emits..|].
    exists O. destruct HO as [HF HO]. split; [done|]. intros St hook s. rewrite <- HO.
    unfold mbind, M_mbind, M_bind. by destruct (store_string_via_hook _ _ _ s) as [[[] s']| |]. }
  refine (emits_some_if _ _ _ _ _); intros ?; [|apply emits_some_store; by apply Forall_singleton].
  apply emits_some_bind; [auto with emits|]. destruct loc as [g|]; [|apply emits_some_ret].
  cbv zeta.
  assert (∀ sign k, is_char sign → emits_some (fun St h =>
    if negb (k =? 0) then _ ← store_string_via_hook h [sign] 1;
                          store_string_via_hook h (num k 2) (-1) else mret tt)) as K.
  { intros sign k Hs. refine (emits_some_if _ _ _ _ _); intros ?; [|apply emits_some_ret].
    apply emits_some_bind; apply emits_some_store; [by apply Forall_singleton|apply num_char]. }
  destruct (Z.quot g 60 <? 0); [by apply K|]. destruct (0 <? Z.quot g 60); by apply K.
Qed.

Lemma emits_loop fmt :
  Forall is_char fmt →
  (∀ c f, c ∈ fmt → f ∈ expands_to c → emits_some (fun St h => rec St h f)) →
  emits_some (fun St h => format_loop h loc t (rec St h) fmt).
Proof.
  assert (∀ c, is_char c → (∀ f, f ∈ expands_to c → emits_some (fun St h => rec St h f)) →
    emits_some (fun St h => format_conv h loc t (rec St h) c)) as Hconv.
  { intros c Hc H. unfold format_conv.
    apply emits_conv1; [done|]. apply emits_conv2; [done|]. apply emits_conv3; [done|].
    by apply emits_conv4. }
  remember (length fmt) as k eqn:Hk. revert fmt Hk.
  induction (lt_wf k) as [k _ IH]. intros fmt -> Hf H.
  destruct fmt as [|c fmt]; [apply emits_some_ret|]. simpl.
  inversion_clear Hf as [|? ? Hc Hf']. refine (emits_some_if _ _ _ _ _); intros _.
  { apply emits_some_bind; [apply emits_some_store; by apply Forall_singleton|].
    apply (IH (length fmt)); [simpl; lia|done|done|]. intros c' f Hc'. apply H. by right. }
  destruct fmt as [|d fmt]; [apply emits_some_ret|]. inversion_clear Hf' as [|? ? Hd Hf].
  refine (emits_some_if _ _ _ _ _); intros _.
  2:{ apply emits_some_bind; [apply Hconv; [done|]; intros f; apply H; right; left|].
      apply (IH (length fmt)); [simpl; lia|done|done|]. intros c' f Hc'. apply H. by do 2 right. }
  destruct fmt as [|e fmt]; [apply emits_some_ret|]. inversion_clear Hf as [|? ? He Hf'].
  apply emits_some_bind; [apply Hconv; [done|]; intros f; apply H; do 2 right; left|].
  apply (IH (length fmt)); [simpl; lia|done|done|]. intros c' f Hc'. apply H. by do 3 right.
Qed.
End Emits.

(** Every character of the format expands to formats in [fs] only. *)
Definition expands_within (fs : list (list Z)) (fmt : list Z) : bool :=
  forallb (fun c => forallb (fun f => bool_decide (f ∈ fs)) (expands_to c)) fmt.

Lemma emits_date loc t depth fs fmt :
  Forall is_char fmt → expands_within fs fmt = true →
  (∀ f, f ∈ fs → emits_some (fun St h => format_date h loc t depth f)) →
  emits_some (fun St h => format_date h loc t (S depth) fmt).
Proof.
  intros Hf He H. simpl.
  apply (emits_loop loc t (fun St h f => format_date h loc t depth f)); [done|].
  intros c f Hc Hx. apply H. unfold expands_within in He. rewrite forallb_forall in He.
  specialize (He c ltac:(by apply list_elem_of_In)). rewrite forallb_forall in He.
  specialize (He f ltac:(by apply list_elem_of_In)). by apply bool_decide_eq_true_1 in He.
Qed.

(** The formats fixed in the code: those without an expansion, and the two that
    use "%T". *)
Definition flat_formats : list (list Z) :=
  [text "%m/%d/%y"; text "%Y-%m-%d"; text "%b"; text "%I:%M:%S %p"; text "%H:%M";
   text "%H:%M:%S"].
Definition fixed_formats : list (list Z) :=
  text "%a %b %e %T %Y" :: text "%T" :: flat_formats.

Lemma expands_to_fixed c f : f ∈ expands_to c → f ∈ fixed_formats.
Proof.
  unfold expands_to. intros H.
  repeat case_match; apply list_elem_of_In; apply list_elem_of_In in H; simpl in H;
    intuition (subst; vm_compute; tauto).
Qed.

Lemma fixed_formats_emit loc t depth f :
  (2 <= depth)%nat → f ∈ fixed_formats → emits_some (fun St h => format_date h loc t depth f).
Proof.
  intros Hd Hf.
  assert (∀ d g, g ∈ flat_formats → emits_some (fun St h => format_date h loc t (S d) g)) as H1.
  { intros d g Hg. apply (emits_date _ _ _ []); [| |intros ? []%elem_of_nil];
      apply list_elem_of_In in Hg; simpl in Hg;
      repeat destruct Hg as [<-|Hg]; try done; by apply is_charb_sound. }
  destruct depth as [|[|d]]; [lia..|].
  apply (emits_date _ _ _ flat_formats); [| |by auto];
    apply list_elem_of_In in Hf; simpl in Hf;
    repeat destruct Hf as [<-|Hf]; try done; by apply is_charb_sound.
Qed.

Lemma format_date_emits loc t depth fmt :
  (3 <= depth)%nat → Forall is_char fmt →
  emits_some (fun St h => format_date h loc t depth fmt).
Proof.
  intros Hd Hf. destruct depth as [|depth]; [lia|].
  apply (emits_loop loc t (fun St h f => format_date h loc t depth f)); [done|].
  intros c f _ Hx. apply fixed_formats_emit; [lia|]. by eapply expands_to_fixed.
Qed.

(** The text: what a hook that only appends would collect. *)
Definition collect (c : Z) : M (list Z) unit := modify (fun o => o ++ [c]).
Definition format_text (loc : option Z) (t : tm) (fmt : list Z) : list Z :=
  match format_date collect loc t 3 fmt [] with
  | Ok (_, o) => o
  | _ => []
  end.

Lemma feed_collect O o : feed collect O o = Ok (tt, o ++ O).
Proof.
  revert o. induction O as [|c O IH]; intros o; [by rewrite app_nil_r|]. simpl.
  unfold mbind, M_mbind, M_bind, collect, modify. rewrite IH. by rewrite <- app_assoc.
Qed.

Lemma format_text_emits loc t depth fmt :
  (3 <= depth)%nat → Forall is_char fmt →
  emits (fun St h => format_date h loc t 3 fmt) (format_text loc t fmt).
Proof.
  intros Hd Hf. destruct (format_date_emits loc t 3 fmt ltac:(lia) Hf) as [O HO].
  unfold format_text. destruct HO as [HF HO]. rewrite HO, feed_collect. by split.
Qed.

(** ** strftime and its buffer *)

Lemma feed_hook O d :
  Forall is_char O → 0 <= max_size d →
  feed format_hook_function O d =
  Ok (tt, if lenZ O <=? max_size d
          then FHD (fh_stored d ++ O) (max_size d - lenZ O) (len d + lenZ O)
          else FHD (fh_stored d ++ take (Z.to_nat (max_size d)) O) 0 0).
Proof.
  revert d. induction O as [|c O IH]; intros d HO Hm.
  { simpl. change (lenZ []) with 0. rewrite (proj2 (Z.leb_le 0 _)) by done.
    rewrite app_nil_r, Z.sub_0_r, Z.add_0_r. by destruct d. }
  inversion_clear HO as [|? ? Hc HO']. unfold is_char in Hc. pose proof (lenZ_nonneg O). simpl.
  unfold mbind, M_mbind, M_bind, format_hook_function at 1, modify.
  rewrite (proj2 (Z.eqb_neq c 0)) by lia. simpl. rewrite lenZ_cons.
  destruct (0 <? max_size d) eqn:E; b2p.
  - rewrite IH; [|done|simpl; lia]. simpl. unfold u8. rewrite Z.mod_small by lia.
    destruct (lenZ O <=? max_size d - 1) eqn:E1; b2p.
    + rewrite (proj2 (Z.leb_le (1 + lenZ O) _)) by lia. rewrite <- app_assoc. do 3 f_equal; lia.
    + rewrite (proj2 (Z.leb_gt (1 + lenZ O) _)) by lia. rewrite <- app_assoc.
      replace (Z.to_nat (max_size d)) with (S (Z.to_nat (max_size d - 1))) by lia. done.
  - assert (max_size d = 0) as Ez by lia. rewrite IH; [|done|simpl; lia]. simpl. rewrite Ez.
    rewrite (proj2 (Z.leb_gt (1 + lenZ O) _)) by lia. simpl. rewrite !app_nil_r.
    destruct (lenZ O <=? 0) eqn:E1; b2p; [|done].
    destruct O; [|rewrite lenZ_cons in E1; pose proof (lenZ_nonneg O); lia].
    by rewrite app_nil_r.
Qed.

(** The broken-down time [strftime] prints: the day of the week is filled in
    when it is not in its range. *)
Definition with_wday (t : tm) : tm :=
  if (tm_wday t <? 0) || (6 <? tm_wday t) then
    Tm (tm_sec t) (tm_min t) (tm_hour t) (tm_mday t) (tm_mon t) (tm_year t)
       (__calculate_weekday (tm_year t + 1900) (tm_mon t + 1) (tm_mday t))
       (tm_yday t) (tm_isdst t) (__tm_gmtoff t) (__tm_zone t)
  else t.



(** Two decimal digits. *)
Definition two (n : Z) : list Z := [48 + n / 10; 48 + n mod 10].

Lemma num_two n : 0 <= n < 100 → num n 2 = two n.
Proof.
  assert (forallb (fun n => if list_eq_dec Z.eq_dec (num n 2) (two n) then true else false)
            (seqZ 0 100) = true) as K by (vm_compute; reflexivity).
  intros Hn. pose proof (forallb_seqZ _ _ _ K n ltac:(lia)) as H. cbn beta in H.
  by destruct (list_eq_dec _ _ _).
Qed.

Lemma format_text_unique loc t fmt O :
  emits (fun St h => format_date h loc t 3 fmt) O → format_text loc t fmt = O.
Proof. intros [_ H]. unfold format_text. by rewrite H, feed_collect. Qed.

(** Run [format_date] on a format given in full. *)
Ltac emits_run :=
  cbn -[store_string_via_hook num mbind];
  repeat first [ apply emits_ret
               | apply emits_store; auto with emits
               | apply emits_bind ].

(** "%T", "%D", "%H:%M:%S" and "%m/%d/%y" print two digits per field, for
    every valid time from 1900 on. *)
Theorem strftime_fields loc t :
  tm_valid t → 0 <= tm_year t →
  let time := two (tm_hour t) ++ [58] ++ two (tm_min t) ++ [58] ++ two (tm_sec t) in
  let date := two (tm_mon t + 1) ++ [47] ++ two (tm_mday t) ++ [47] ++ two (tm_year t mod 100) in
  format_text loc t (text "%T") = time ∧ format_text loc t (text "%H:%M:%S") = time ∧
  format_text loc t (text "%D") = date ∧ format_text loc t (text "%m/%d/%y") = date.
Proof.
  intros [[Hm Hd] Ht Hi] Hy.
  pose proof (month_length_pos (leap_year (1900 + tm_year t)) (tm_mon t) Hm) as Hl.
  assert (u32 (tm_year t) = tm_year t) as Hu by (unfold u32, INT_MAX in *; apply Z.mod_small; lia).
  cbv zeta. repeat split; (etransitivity; [apply format_text_unique; emits_run|]);
    rewrite ?Hu, !num_two by (try apply Z.mod_pos_bound; lia); reflexivity.
Qed.

Lemma strftime_fields_witness :
  format_text None (Tm 5 4 3 2 0 124 2 1 0 0 []) (text "%T") = text "03:04:05" ∧
  format_text None (Tm 5 4 3 2 0 124 2 1 0 0 []) (text "%D") = text "01/02/24".
Proof.
  destruct (strftime_fields None (Tm 5 4 3 2 0 124 2 1 0 0 [])) as (H1 & _ & H2 & _);
    [split; [split; [split; done|split; done]|done|done]|done|].
  split; [exact H1|exact H2].
Defined.

(** on January 15th 2024, "%e" prints the month instead of the day of the
    month, and "%C" prints the years since 1900 divided by 100 instead of the
    century; "%c" inherits the first. *)
Theorem strftime_e_and_C_differ :
  let t := Tm 0 0 12 15 0 124 1 14 0 0 [] in
  format_text None t (text "%d") = text "15" ∧ format_text None t (text "%e") = text " 1" ∧
  format_text None t (text "%Y") = text "2024" ∧ format_text None t (text "%C") = text "01" ∧
  format_text None t (text "%c") = text "Mon Jan  1 12:00:00 2024".
Proof. vm_compute. repeat split; reflexivity. Qed.
