(* ===== verification/MkTime.v ===== *)
(** * Local time

    time/converttime.c, time/gmtime_r.c, time/localtime_r.c and time/mktime.c.
    The dates come from utility.library ([Amiga2Date], [Date2Amiga]) and the
    daylight-saving flag from timezone.library, which are not part of this
    repository: they are the class [Utility], whose laws are what their
    documentation promises, and [gregorian] is an instance. *)

From stdpp Require Import base list numbers.
From S2P Require Import Prelude CMem Words Calendar.
Open Scope Z_scope.

(** ** Interface to the operating system *)

(** [struct ClockData] *)
Record ClockData := CD {
  cd_sec : Z; cd_min : Z; cd_hour : Z; cd_mday : Z; cd_month : Z; cd_year : Z; cd_wday : Z
}.

(** Seconds from 1978-01-01, where Amiga time begins, to the date. *)
Definition amiga_seconds (c : ClockData) : Z :=
  86400 * (civil_days (cd_year c) (cd_month c - 1) (cd_mday c) - 2922)
  + 3600 * cd_hour c + 60 * cd_min c + cd_sec c.

Definition clock_valid (c : ClockData) : Prop :=
  date_valid (cd_year c) (cd_month c - 1) (cd_mday c) ∧
  0 <= cd_hour c <= 23 ∧ 0 <= cd_min c <= 59 ∧ 0 <= cd_sec c <= 59.

Class Utility := {
  Amiga2Date : Z → ClockData;
  Date2Amiga : ClockData → Z;
  Amiga2Date_valid : ∀ s, 0 <= s < 4294967296 → clock_valid (Amiga2Date s);
  Amiga2Date_seconds : ∀ s, 0 <= s < 4294967296 → amiga_seconds (Amiga2Date s) = s;
  Amiga2Date_wday : ∀ s, 0 <= s < 4294967296 →
    cd_wday (Amiga2Date s) = wday_of (s / 86400 + 2922);
  Date2Amiga_seconds : ∀ c, clock_valid c → 0 <= amiga_seconds c < 4294967296 →
    Date2Amiga c = amiga_seconds c
}.

(** The fields of [struct _clib4] these functions read, and whether
    timezone.library says that daylight-saving time is in force. *)
Record clib4 := Clib4 {
  __daylight : Z; __tzname0 : list Z; __timezone : Z;
  loc_GMTOffset : option Z;   (* of __default_locale, if it is not NULL *)
  isTZSet : bool; dst_in_force : bool
}.

Definition UNIX_TIME_OFFSET : Z := 252460800.

(** ** Definitions *)

Section LocalTime.
Context `{Utility} (g : clib4).

(** time/converttime.c *)
Definition __convert_time (seconds gmt_offset : Z) : tm :=
  let seconds := if seconds <? UNIX_TIME_OFFSET then 0 else seconds - UNIX_TIME_OFFSET in
  let seconds := u32 (seconds - gmt_offset) in
  let seconds := if dst_in_force g then u32 (seconds + 60 * 60) else seconds in
  let clock_data := Amiga2Date seconds in
  Tm (cd_sec clock_data) (cd_min clock_data) (cd_hour clock_data) (cd_mday clock_data)
     (cd_month clock_data - 1) (cd_year clock_data - 1900) (cd_wday clock_data)
     (__calculate_days_per_date (cd_year clock_data) (cd_month clock_data) (cd_mday clock_data)
      - __calculate_days_per_date (cd_year clock_data) 1 1)
     (__daylight g) (Z.quot (__timezone g) 60) (__tzname0 g).

(** time/gmtime_r.c, for non-null pointers; [t] is the [time_t] pointed to. *)
Definition gmtime_r (t : Z) : tm := __convert_time (u32 t) 0.

(** time/localtime_r.c, for non-null pointers. *)
Definition localtime_r (t : Z) : tm :=
  let gmt_offset :=
    if negb (isTZSet g) then
      match loc_GMTOffset g with
      | Some off => 60 * off
      | None => 0
      end
    else __timezone g in
  __convert_time (u32 t) gmt_offset.

(** time/mktime.c, for a non-null pointer: the result and [*tm] afterwards. *)
Definition mktime (t : tm) : Z * tm :=
  let year := tm_year t + 1900 in
  let month := tm_mon t + 1 in
  let '(year, month) :=
    if (month <? 0) || (12 <? month) then
      let y := Z.quot month 12 in (year + y, month - y * 12)
    else (year, month) in
  let '(year, month) := if month <? 1 then (year - 1, month + 12) else (year, month) in
  if year <? 1978 then (-1, t)
  else
    let clock_data := CD 0 0 0 1 month year 0 in
    let seconds := Date2Amiga clock_data in
    let combined_seconds :=
      s32 (tm_sec t + 60 * (tm_min t + 60 * (tm_hour t + 24 * (tm_mday t - 1)))) in
    if (combined_seconds <? 0) && (seconds <? u32 (- combined_seconds)) then (-1, t)
    else
      let seconds := u32 (seconds + combined_seconds) in
      let seconds := match loc_GMTOffset g with
                     | Some off => u32 (seconds + 60 * off)
                     | None => seconds
                     end in
      let result := s32 (seconds + UNIX_TIME_OFFSET) in
      (result, localtime_r result).
End LocalTime.

(** ** The Gregorian calendar as an implementation of the interface *)

Definition tm_at (t : Z) : tm :=
  match __secs_to_tm t (Tm 0 0 0 0 0 0 0 0 0 0 []) with
  | Ok (_, r) => r
  | _ => Tm 0 0 0 0 0 0 0 0 0 0 []
  end.

Definition gregorian_date (s : Z) : ClockData :=
  let r := tm_at (s + UNIX_TIME_OFFSET) in
  CD (tm_sec r) (tm_min r) (tm_hour r) (tm_mday r) (tm_mon r + 1) (tm_year r + 1900) (tm_wday r).

Lemma tm_at_of t : 0 <= t <= 8589934592 → tm_of t (tm_at t).
Proof.
  intros Ht. unfold tm_at. pose proof (secs_to_tm_spec t (Tm 0 0 0 0 0 0 0 0 0 0 [])) as H.
  unfold wp in H. destruct (__secs_to_tm t _) as [[rc r]| |]; [|done..].
  destruct H as [[_ H]|(_ & _ & H)]; [done|].
  exfalso. destruct (date_exists (t / 86400)) as (y & m & d & HV & HE).
  pose proof (civil_days_range _ _ _ HV) as HR. rewrite HE in HR.
  unfold days_before_year in HR. assert (1960 <= y <= 2300) by (clear - HR Ht; dlia).
  apply (H (Tm (t mod 60) (t mod 3600 / 60) (t mod 86400 / 3600) d m (y - 1900) 0 0 0 0 [])).
  - split; simpl; [by replace (1900 + (y - 1900)) with y by lia|clear; dlia|].
    unfold INT_MIN, INT_MAX. lia.
  - unfold tm_seconds. simpl. replace (1900 + (y - 1900)) with y by lia. rewrite HE. clear. dlia.
Qed.

Lemma gregorian_seconds s :
  0 <= s < 4294967296 →
  clock_valid (gregorian_date s) ∧ amiga_seconds (gregorian_date s) = s ∧
  cd_wday (gregorian_date s) = wday_of (s / 86400 + 2922).
Proof.
  intros Hs. destruct (tm_at_of (s + UNIX_TIME_OFFSET)) as [[HV HT _] HS HW _];
    [unfold UNIX_TIME_OFFSET; lia|].
  unfold gregorian_date, clock_valid, amiga_seconds. simpl.
  set (r := tm_at _) in *. replace (tm_mon r + 1 - 1) with (tm_mon r) by lia.
  replace (tm_year r + 1900) with (1900 + tm_year r) by lia. unfold tm_seconds in HS.
  split; [done|]. split; [unfold UNIX_TIME_OFFSET in HS; lia|].
  rewrite HW. f_equal. unfold UNIX_TIME_OFFSET. clear. dlia.
Qed.

#[global] Instance gregorian : Utility := {|
  Amiga2Date := gregorian_date;
  Date2Amiga := amiga_seconds;
  Amiga2Date_valid := fun s Hs => proj1 (gregorian_seconds s Hs);
  Amiga2Date_seconds := fun s Hs => proj1 (proj2 (gregorian_seconds s Hs));
  Amiga2Date_wday := fun s Hs => proj2 (proj2 (gregorian_seconds s Hs));
  Date2Amiga_seconds := fun c _ _ => eq_refl
|}.

(** ** Local time of a time, and back *)

Section LocalTimeSpec.
Context `{Utility} (g : clib4).

(** The offset [localtime_r] subtracts, daylight-saving time included. *)
Definition utc_offset : Z :=
  (if negb (isTZSet g) then match loc_GMTOffset g with Some off => 60 * off | None => 0 end
   else __timezone g) - if dst_in_force g then 3600 else 0.

Lemma convert_time_spec t off :
  let s := t - UNIX_TIME_OFFSET - off + if dst_in_force g then 3600 else 0 in
  UNIX_TIME_OFFSET <= t < 4294967296 → 0 <= s < 4294967296 →
  tm_of (s + UNIX_TIME_OFFSET) (__convert_time g t off).
Proof.
  intros s Ht Hs. unfold __convert_time.
  rewrite (proj2 (Z.ltb_ge t UNIX_TIME_OFFSET)) by lia. cbv zeta.
  assert ((if dst_in_force g then u32 (u32 (t - UNIX_TIME_OFFSET - off) + 60 * 60)
           else u32 (t - UNIX_TIME_OFFSET - off)) = s) as ->.
  { unfold s in *. destruct (dst_in_force g); unfold u32; clear - Hs; dlia. }
  pose proof (Amiga2Date_valid s Hs) as [HV HT]. pose proof (Amiga2Date_seconds s Hs) as HE.
  pose proof (Amiga2Date_wday s Hs) as HW. clearbody s. set (c := Amiga2Date s) in *.
  pose proof (civil_days_range _ _ _ HV) as HR. unfold amiga_seconds in HE.
  assert (civil_days (cd_year c) (cd_month c - 1) (cd_mday c) = s / 86400 + 2922) as Hdays
    by (clear - HE HT Hs; dlia).
  assert (1960 <= cd_year c <= 2300) as Hy.
  { rewrite Hdays in HR. unfold days_before_year in HR. clear - HR Hs. dlia. }
  assert (1900 + (cd_year c - 1900) = cd_year c) as Ey by lia.
  split; simpl; rewrite ?Ey.
  - split; simpl; rewrite ?Ey; [done|done|unfold INT_MIN, INT_MAX; lia].
  - unfold tm_seconds. simpl. rewrite Ey. unfold UNIX_TIME_OFFSET. lia.
  - rewrite HW. f_equal. unfold UNIX_TIME_OFFSET. clear. dlia.
  - rewrite !days_per_date_spec by (destruct HV; lia). unfold yday_of, civil_days.
    change (days_before_month (leap_year (cd_year c)) (1 - 1)) with 0. lia.
Qed.

Lemma localtime_spec t :
  UNIX_TIME_OFFSET <= t < 2147483648 →
  UNIX_TIME_OFFSET <= t - utc_offset < UNIX_TIME_OFFSET + 4294967296 →
  tm_of (t - utc_offset) (localtime_r g t).
Proof.
  intros Ht Hu. unfold localtime_r, utc_offset in *.
  replace (u32 t) with t by (unfold u32, UNIX_TIME_OFFSET in *; rewrite Z.mod_small; lia).
  set (off := if negb (isTZSet g) then _ else _) in *.
  replace (t - (off - (if dst_in_force g then 3600 else 0))) with
    (t - UNIX_TIME_OFFSET - off + (if dst_in_force g then 3600 else 0) + UNIX_TIME_OFFSET)
    by (destruct (dst_in_force g); lia).
  apply convert_time_spec; [lia|]. destruct (dst_in_force g); lia.
Qed.

(** The first second of the month of a broken-down time, normalised. *)
Definition month_start (t : tm) : Z :=
  86400 * civil_days (1900 + tm_year t + tm_mon t / 12) (tm_mon t mod 12) 1.
Definition month_offset (t : tm) : Z :=
  tm_sec t + 60 * (tm_min t + 60 * (tm_hour t + 24 * (tm_mday t - 1))).
Definition locale_offset : Z := match loc_GMTOffset g with Some off => 60 * off | None => 0 end.

Lemma mktime_normalise t :
  INT_MIN <= tm_mon t < INT_MAX →
  (let year := tm_year t + 1900 in
   let month := tm_mon t + 1 in
   let '(year, month) :=
     if (month <? 0) || (12 <? month) then
       let y := Z.quot month 12 in (year + y, month - y * 12)
     else (year, month) in
   if month <? 1 then (year - 1, month + 12) else (year, month)) =
  (1900 + tm_year t + tm_mon t / 12, tm_mon t mod 12 + 1).
Proof.
  intros Hm. cbv zeta. destruct (_ || _)%bool eqn:E; b2p;
    match goal with |- (if ?b then _ else _) = _ => destruct b eqn:E1 end; b2p; f_equal;
    clear Hm; repeat match goal with H : _ ∨ _ |- _ => destruct H; b2p end; dlia.
Qed.

Lemma mktime_spec t :
  INT_MIN <= tm_mon t < INT_MAX → 1978 <= 1900 + tm_year t + tm_mon t / 12 →
  UNIX_TIME_OFFSET <= month_start t < UNIX_TIME_OFFSET + 4294967296 →
  INT_MIN < month_offset t <= INT_MAX →
  let r := month_start t + month_offset t + locale_offset in
  0 <= month_start t + month_offset t - UNIX_TIME_OFFSET →
  UNIX_TIME_OFFSET <= r < 2147483648 →
  mktime g t = (r, localtime_r g r).
Proof.
  intros Hm Hy Hs Ho r H0 Hr. unfold mktime.
  pose proof (mktime_normalise t Hm) as N. cbv zeta in N |- *.
  destruct (if (tm_mon t + 1 <? 0) || (12 <? tm_mon t + 1) then _ else _) as [y1 m1].
  rewrite N. cbn beta iota. clear N y1 m1.
  rewrite (proj2 (Z.ltb_ge _ 1978)) by lia. fold (month_offset t).
  unfold INT_MIN, INT_MAX in *. rewrite (s32_small (month_offset t)) by lia.
  set (c := CD 0 0 0 1 _ _ 0).
  assert (amiga_seconds c = month_start t - UNIX_TIME_OFFSET) as Hc.
  { unfold amiga_seconds, month_start, UNIX_TIME_OFFSET, c. simpl.
    replace (tm_mon t mod 12 + 1 - 1) with (tm_mon t mod 12) by lia. lia. }
  assert (clock_valid c) as Hv.
  { unfold clock_valid, date_valid, c. simpl.
    replace (tm_mon t mod 12 + 1 - 1) with (tm_mon t mod 12) by lia.
    assert (0 <= tm_mon t mod 12 <= 11) as Hm' by (clear; dlia).
    pose proof (month_length_pos (leap_year (1900 + tm_year t + tm_mon t / 12)) _ Hm'). lia. }
  rewrite Date2Amiga_seconds, Hc by (done || lia).
  destruct (_ && _)%bool eqn:E; b2p.
  { unfold u32 in *. rewrite Z.mod_small in * by lia. lia. }
  assert (s32 (match loc_GMTOffset g with
               | Some off => u32 (u32 (month_start t - UNIX_TIME_OFFSET + month_offset t) + 60 * off)
               | None => u32 (month_start t - UNIX_TIME_OFFSET + month_offset t)
               end + UNIX_TIME_OFFSET) = r) as ->; [|done].
  unfold r, locale_offset in *. destruct (loc_GMTOffset g); unfold u32, s32, UNIX_TIME_OFFSET in *;
    clear - Hr H0; dlia.
Qed.
End LocalTimeSpec.

(** from 1978 on, [localtime_r] gives the broken-down time of [t] shifted
    by the offset in force: a valid date and time, and the right days of the
    week and of the year. *)
Theorem localtime_correct `{Utility} g t :
  UNIX_TIME_OFFSET <= t < 2147483648 →
  UNIX_TIME_OFFSET <= t - utc_offset g < UNIX_TIME_OFFSET + 4294967296 →
  tm_of (t - utc_offset g) (localtime_r g t).
Proof. apply localtime_spec. Qed.

Lemma localtime_correct_witness :
  let g := Clib4 0 [] 0 (Some (-60)) false true in
  tm_of 1700007200 (@localtime_r gregorian g 1700000000).
Proof.
  apply (@localtime_correct gregorian (Clib4 0 [] 0 (Some (-60)) false true) 1700000000);
    unfold UNIX_TIME_OFFSET, utc_offset; simpl; lia.
Defined.

(** [mktime] takes a broken-down time with any month, day, hour, minute and
    second, also outside of their ranges, and returns the seconds it stands for
    in the zone of the locale; the argument is normalised by [localtime_r]. *)
Theorem mktime_correct `{Utility} g t :
  INT_MIN <= tm_mon t < INT_MAX → 1978 <= 1900 + tm_year t + tm_mon t / 12 →
  UNIX_TIME_OFFSET <= month_start t < UNIX_TIME_OFFSET + 4294967296 →
  INT_MIN < month_offset t <= INT_MAX →
  let r := month_start t + month_offset t + locale_offset g in
  0 <= month_start t + month_offset t - UNIX_TIME_OFFSET →
  UNIX_TIME_OFFSET <= r < 2147483648 →
  mktime g t = (r, localtime_r g r).
Proof. apply mktime_spec. Qed.

(** February 30th, 25 hours after midnight of it, is March 2nd 2024, 01:00. *)
Lemma mktime_correct_witness :
  let g := Clib4 0 [] 0 None false false in
  @mktime gregorian g (Tm 0 0 25 30 1 124 0 0 0 0 []) =
  (1709341200, @localtime_r gregorian g 1709341200).
Proof.
  apply (@mktime_correct gregorian (Clib4 0 [] 0 None false false)
           (Tm 0 0 25 30 1 124 0 0 0 0 []));
    unfold INT_MIN, INT_MAX, UNIX_TIME_OFFSET; (split; vm_compute; congruence) || (vm_compute; congruence).
Defined.

Lemma tm_of_month t r :
  UNIX_TIME_OFFSET <= t < 8589934592 → tm_of t r →
  month_start r + month_offset r = t ∧ UNIX_TIME_OFFSET <= month_start r ∧
  0 <= month_offset r <= INT_MAX ∧ 0 <= tm_mon r <= 11 ∧ 1978 <= 1900 + tm_year r.
Proof.
  intros Ht [[[Hm Hd] HT _] HS _ _]. unfold month_start, month_offset.
  rewrite Z.div_small, Z.mod_small, Z.add_0_r by lia.
  pose proof (month_length_pos (leap_year (1900 + tm_year r)) _ Hm) as Hl.
  assert (civil_days (1900 + tm_year r) (tm_mon r) (tm_mday r) =
          civil_days (1900 + tm_year r) (tm_mon r) 1 + (tm_mday r - 1)) as Ec by (unfold civil_days; lia).
  unfold tm_seconds in HS. rewrite Ec in HS.
  assert (date_valid (1900 + tm_year r) (tm_mon r) 1) as V1 by (split; lia).
  assert (1978 <= 1900 + tm_year r) as Hy.
  { assert (date_valid (1900 + tm_year r) (tm_mon r) (tm_mday r)) as V by (split; lia).
    pose proof (civil_days_range _ _ _ V) as HR. rewrite Ec in HR.
    destruct (Z.le_gt_cases 1978 (1900 + tm_year r)); [done|].
    pose proof (days_before_year_mono (1900 + tm_year r + 1) 1978 ltac:(lia)) as HM.
    change (days_before_year 1978) with 2922 in HM. unfold UNIX_TIME_OFFSET in Ht. lia. }
  pose proof (days_before_year_mono 1978 _ Hy) as HM. change (days_before_year 1978) with 2922 in HM.
  pose proof (civil_days_range _ _ _ V1) as HR1.
  unfold UNIX_TIME_OFFSET, INT_MAX in *. lia.
Qed.

(** C36: [mktime] undoes [localtime_r] up to the difference of the offsets the
    two use: without daylight-saving time and without a zone from [tzset] the
    round trip is exact; with daylight-saving time it is off by one hour. *)
Theorem mktime_localtime `{Utility} g t :
  UNIX_TIME_OFFSET <= t < 2147483648 →
  UNIX_TIME_OFFSET <= t - utc_offset g < 4294967296 →
  let r := t - utc_offset g + locale_offset g in
  UNIX_TIME_OFFSET <= r < 2147483648 →
  mktime g (localtime_r g t) = (r, localtime_r g r) ∧
  (isTZSet g = false → dst_in_force g = false → r = t) ∧
  (isTZSet g = false → dst_in_force g = true → r = t + 3600).
Proof.
  intros Ht Hu r Hr.
  assert (tm_of (t - utc_offset g) (localtime_r g t)) as Hl
    by (apply localtime_spec; unfold UNIX_TIME_OFFSET in *; lia).
  destruct (tm_of_month (t - utc_offset g) _ ltac:(lia) Hl) as (E & H1 & H2 & H3 & H4). split.
  - rewrite mktime_spec; rewrite ?E; try (unfold INT_MIN, INT_MAX, UNIX_TIME_OFFSET in *; lia).
    all: try done. all: rewrite Z.div_small by lia; lia.
  - unfold r, utc_offset, locale_offset.
    split; intros -> ->; simpl; destruct (loc_GMTOffset g); lia.
Qed.

Lemma mktime_localtime_witness :
  let g := Clib4 0 [] 0 (Some 300) false false in
  ∃ r, @mktime gregorian g (@localtime_r gregorian g 1700000000) = (1700000000, r).
Proof.
  destruct (@mktime_localtime gregorian (Clib4 0 [] 0 (Some 300) false false) 1700000000)
    as (H & _); [unfold UNIX_TIME_OFFSET; lia|unfold UNIX_TIME_OFFSET, utc_offset; simpl; lia
    |unfold UNIX_TIME_OFFSET, utc_offset, locale_offset; simpl; lia|].
  eexists. exact H.
Defined.
