(* ===== verification/DList.v ===== *)
(** * Doubly linked lists in a heap

    The pointers of the nodes are two maps, [nx] and [pv], from the address of a
    node to the address it points to.  [linked] is a segment, [ring] a circular
    list and [mlist] a NULL-terminated list; the lemmas say what the pointer
    assignments of an insertion or a removal do to the list. *)

From stdpp Require Import base numbers gmap list.
From S2P Require Import Prelude CMem.
Open Scope Z_scope.
#[local] Set Warnings "-clear-no-such-hyp".

Definition hd0 (l : list Z) : Z := match l with x :: _ => x | [] => NULL end.

(** Neighbours in [l] point to each other. *)
Fixpoint linked (nx pv : gmap Z Z) (l : list Z) : Prop :=
  match l with
  | x :: (y :: _) as l' => nx !! x = Some y ∧ pv !! y = Some x ∧ linked nx pv l'
  | _ => True
  end.

Definition ring (nx pv : gmap Z Z) (l : list Z) : Prop :=
  match l with [] => True | x :: _ => linked nx pv (l ++ [x]) end.

(** A NULL-terminated list whose first node points back to [p]. *)
Fixpoint mlist (nx pv : gmap Z Z) (p : Z) (l : list Z) : Prop :=
  match l with
  | [] => True
  | x :: l' => pv !! x = Some p ∧ nx !! x = Some (hd0 l') ∧ mlist nx pv x l'
  end.

(** ** Segments *)

Section Linked.
Implicit Types (nx pv : gmap Z Z) (l : list Z).

Lemma linked_app nx pv l x k :
  linked nx pv (l ++ x :: k) ↔ linked nx pv (l ++ [x]) ∧ linked nx pv (x :: k).
Proof.
  induction l as [|y l IH]; [simpl; tauto|].
  destruct l as [|z l].
  - change (linked nx pv (y :: x :: k) ↔ linked nx pv [y; x] ∧ linked nx pv (x :: k)).
    cbn [linked]. tauto.
  - change (nx !! y = Some z ∧ pv !! z = Some y ∧ linked nx pv ((z :: l) ++ x :: k) ↔
      (nx !! y = Some z ∧ pv !! z = Some y ∧ linked nx pv ((z :: l) ++ [x])) ∧
      linked nx pv (x :: k)). tauto.
Qed.

Lemma linked_cons nx pv x l :
  linked nx pv (x :: l) ↔
  linked nx pv l ∧ ∀ y, head l = Some y → nx !! x = Some y ∧ pv !! y = Some x.
Proof.
  destruct l as [|y l]; simpl; [naive_solver|]. split.
  - intros (? & ? & ?). split; [done|]. by intros z [= ->].
  - intros [H1 H2]. destruct (H2 y eq_refl). done.
Qed.

Lemma linked_snoc nx pv l y :
  linked nx pv (l ++ [y]) ↔
  linked nx pv l ∧ ∀ x, last l = Some x → nx !! x = Some y ∧ pv !! y = Some x.
Proof.
  destruct l as [|x l _] using rev_ind; [simpl; naive_solver|].
  rewrite last_snoc, <- app_assoc. simpl ([x] ++ [y]). rewrite (linked_app _ _ l x [y]).
  cbn [linked]. split.
  - intros (? & ? & ? & _). split; [done|]. by intros z [= ->].
  - intros [H1 H2]. destruct (H2 x eq_refl). done.
Qed.

(** Assignments to other nodes, to the [next] of the last node and to the
    [prev] of the first node do not matter. *)
Lemma linked_ext nx pv nx' pv' l :
  (∀ x, x ∈ l → nx' !! x = nx !! x ∧ pv' !! x = pv !! x) → linked nx pv l → linked nx' pv' l.
Proof.
  induction l as [|y l IH]; [done|]. intros Hx. rewrite !linked_cons. intros [H1 H2].
  split; [apply IH; [set_solver|done]|]. intros z Hz. destruct (H2 z Hz) as [<- <-].
  split; apply Hx; [set_solver|]. apply head_Some in Hz as [? ->]. set_solver.
Qed.

Lemma linked_nx_out nx pv l x v : x ∉ l → linked nx pv l → linked (<[x := v]> nx) pv l.
Proof.
  induction l as [|y l IH]; [done|]. intros Hx. apply not_elem_of_cons in Hx as [Hxy Hx].
  rewrite !linked_cons. intros [H1 H2]. split; [by apply IH|].
  intros z Hz. rewrite lookup_insert_ne by done. by apply H2.
Qed.

Lemma linked_pv_out nx pv l x v : x ∉ l → linked nx pv l → linked nx (<[x := v]> pv) l.
Proof.
  induction l as [|y l IH]; [done|]. intros Hx. apply not_elem_of_cons in Hx as [Hxy Hx].
  rewrite !linked_cons. intros [H1 H2]. split; [by apply IH|].
  intros z Hz. rewrite lookup_insert_ne by (apply head_Some_elem_of in Hz; congruence).
  by apply H2.
Qed.

Lemma linked_nx_last nx pv l x v :
  NoDup (l ++ [x]) → linked nx pv (l ++ [x]) → linked (<[x := v]> nx) pv (l ++ [x]).
Proof.
  rewrite NoDup_app. intros (_ & Hd & _). rewrite !linked_snoc. intros [H1 H2].
  assert (x ∉ l) by (intros Hx; apply (Hd x Hx); set_solver).
  split; [by apply linked_nx_out|]. intros y Hy.
  rewrite lookup_insert_ne by (apply last_Some_elem_of in Hy; congruence). by apply H2.
Qed.

Lemma linked_pv_first nx pv l x v :
  NoDup (x :: l) → linked nx pv (x :: l) → linked nx (<[x := v]> pv) (x :: l).
Proof.
  intros [Hx _]%NoDup_cons. rewrite !linked_cons. intros [H1 H2].
  split; [by apply linked_pv_out|]. intros y Hy.
  rewrite lookup_insert_ne by (apply head_Some_elem_of in Hy; congruence). by apply H2.
Qed.
End Linked.

(** ** Rings *)

Section Ring.
Implicit Types (nx pv : gmap Z Z) (l k : list Z).

Lemma ring_rotate1 nx pv x l : ring nx pv (x :: l) ↔ ring nx pv (l ++ [x]).
Proof.
  destruct l as [|y l]; [done|]. unfold ring. simpl app at 2.
  change ((x :: y :: l) ++ [x]) with ([x] ++ y :: (l ++ [x])).
  rewrite linked_app. change (y :: l ++ [x]) with ((y :: l) ++ [x]).
  rewrite <- (app_assoc (y :: l) [x] [y]). simpl ([x] ++ [y]).
  rewrite (linked_app _ _ (y :: l) x [y]). tauto.
Qed.

Lemma ring_rotate nx pv l k : ring nx pv (l ++ k) ↔ ring nx pv (k ++ l).
Proof.
  revert k. induction l as [|x l IH]; intros k; [by rewrite app_nil_r|].
  cbn [app]. rewrite ring_rotate1, <- app_assoc, IH, <- app_assoc. done.
Qed.

Lemma ring_ext nx pv nx' pv' l :
  (∀ x, x ∈ l → nx' !! x = nx !! x ∧ pv' !! x = pv !! x) → ring nx pv l → ring nx' pv' l.
Proof. destruct l; [done|]. intros Hx. apply linked_ext. set_solver. Qed.
Lemma ring_nx_out nx pv l x v : x ∉ l → ring nx pv l → ring (<[x := v]> nx) pv l.
Proof. destruct l as [|y l]; [done|]. intros Hx. apply linked_nx_out. set_solver. Qed.
Lemma ring_pv_out nx pv l x v : x ∉ l → ring nx pv l → ring nx (<[x := v]> pv) l.
Proof. destruct l as [|y l]; [done|]. intros Hx. apply linked_pv_out. set_solver. Qed.

(** The two neighbours of the first node of a ring. *)
Lemma ring_first nx pv c l :
  ring nx pv (c :: l) →
  nx !! c = Some (default c (head l)) ∧ pv !! c = Some (default c (last l)) ∧ linked nx pv l.
Proof.
  unfold ring. destruct l as [|n l]; [simpl; tauto|].
  change ((c :: n :: l) ++ [c]) with (c :: (n :: l) ++ [c]).
  rewrite linked_cons, linked_snoc. intros [[H1 H2] H3].
  destruct (H3 n eq_refl) as [-> _].
  destruct (last (n :: l)) as [p|] eqn:E; [|apply last_None in E; discriminate].
  destruct (H2 p eq_refl) as [_ ->]. done.
Qed.

(** The same with the nodes named: a ring of at least two nodes. *)
Lemma ring_neighbours nx pv c l p n :
  last l = Some p → head l = Some n →
  ring nx pv (c :: l) ↔
  linked nx pv l ∧ nx !! c = Some n ∧ pv !! n = Some c ∧ nx !! p = Some c ∧ pv !! c = Some p.
Proof.
  intros Hp Hn. change (ring nx pv (c :: l)) with (linked nx pv (c :: l ++ [c])).
  rewrite linked_cons, linked_snoc. destruct l as [|n' l]; [done|]. simpl in Hn.
  injection Hn as ->. rewrite Hp. simpl head. split.
  - intros [[H1 H2] H3]. destruct (H2 p eq_refl), (H3 n eq_refl). done.
  - intros (? & ? & ? & ? & ?). split; [split; [done|]|]; intros ? Hx; cbn in Hx; simplify_eq; done.
Qed.

Lemma head_last_split l p n :
  last l = Some p → head l = Some n → ∃ k1 k2, l = n :: k1 ∧ l = k2 ++ [p].
Proof.
  intros Hp Hn. destruct l as [|n' k1]; [discriminate|]. injection Hn as ->.
  apply last_Some in Hp as [k2 Hk]. exists k1, k2. done.
Qed.

(** Assigning [next] of the last and [prev] of the first node of a segment. *)
Lemma linked_ends nx pv l p n v w :
  NoDup l → last l = Some p → head l = Some n → linked nx pv l →
  linked (<[p := v]> nx) (<[n := w]> pv) l.
Proof.
  intros Hd Hp Hn H. destruct (head_last_split l p n Hp Hn) as (k1 & k2 & E1 & E2).
  rewrite E1. apply linked_pv_first; rewrite <- E1; [done|].
  rewrite E2. apply linked_nx_last; rewrite <- E2; done.
Qed.

(** Closing a segment to a ring. *)
Lemma ring_close nx pv l p n :
  last l = Some p → head l = Some n →
  ring nx pv l ↔ linked nx pv l ∧ nx !! p = Some n ∧ pv !! n = Some p.
Proof.
  intros Hp Hn. destruct l as [|n' l]; [discriminate|]. injection Hn as ->.
  unfold ring. rewrite linked_snoc. split.
  - intros [H1 H2]. by destruct (H2 p Hp).
  - intros (? & ? & ?). split; [done|]. intros x Hx. rewrite Hp in Hx. by injection Hx as <-.
Qed.
End Ring.

(** ** What the pointer assignments do to a ring *)

Section RingOps.
Context (nx pv : gmap Z Z).
Implicit Types (l : list Z) (c e h n p : Z).

Lemma nonempty_ends l : l ≠ [] → ∃ p n, last l = Some p ∧ head l = Some n ∧ p ∈ l ∧ n ∈ l.
Proof.
  intros Hl. destruct l as [|n k]; [done|].
  destruct (last (n :: k)) as [p|] eqn:E; [|by apply last_None in E].
  exists p, n. split; [done|]. split; [done|]. split; [by apply last_Some_elem_of|set_solver].
Qed.

Lemma ring_node l c :
  ring nx pv l → c ∈ l → ∃ n p, nx !! c = Some n ∧ pv !! c = Some p ∧ n ∈ l ∧ p ∈ l.
Proof.
  intros H (l1 & l2 & ->)%list_elem_of_split. apply ring_rotate in H. cbn [app] in H.
  destruct (ring_first _ _ _ _ H) as (H1 & H2 & _).
  exists (default c (head (l2 ++ l1))), (default c (last (l2 ++ l1))). split; [done|]. split; [done|].
  destruct (decide (l2 ++ l1 = [])) as [E|E]; [rewrite E; set_solver|].
  destruct (nonempty_ends _ E) as (p & n & -> & -> & ? & ?). set_solver.
Qed.

(** A node that points to itself is alone. *)
Lemma ring_self l c :
  ring nx pv l → NoDup l → c ∈ l → pv !! c = Some c ∨ nx !! c = Some c → l = [c].
Proof.
  intros H Hd (l1 & l2 & ->)%list_elem_of_split Hc. apply ring_rotate in H. cbn [app] in H.
  destruct (ring_first _ _ _ _ H) as (H1 & H2 & _).
  destruct (decide (l2 ++ l1 = [])) as [E|E].
  { apply app_eq_nil in E as [-> ->]. done. }
  destruct (nonempty_ends _ E) as (p & n & Hp & Hn & Hpin & Hnin).
  rewrite Hp in H2. rewrite Hn in H1. simpl in H1, H2.
  assert (c ∉ l1 ++ l2).
  { rewrite <- Permutation_middle in Hd. by apply NoDup_cons in Hd as [? _]. }
  exfalso. set_solver.
Qed.

Lemma app_nonempty_comm l1 l2 : l1 ++ l2 ≠ [] → l2 ++ l1 ≠ [].
Proof. destruct l1, l2; done. Qed.

Lemma NoDup_middle l1 c l2 : NoDup (l1 ++ c :: l2) → (c ∉ l2 ++ l1) ∧ NoDup (l2 ++ l1).
Proof.
  rewrite <- Permutation_middle, Permutation_app_comm. intros [H1 H2]%NoDup_cons. set_solver.
Qed.

Lemma ring_remove l1 c l2 p n :
  NoDup (l1 ++ c :: l2) → ring nx pv (l1 ++ c :: l2) → l1 ++ l2 ≠ [] →
  nx !! c = Some n → pv !! c = Some p →
  ring (<[p := n]> nx) (<[n := p]> pv) (l1 ++ l2).
Proof.
  intros Hd H Hne Hn Hp. apply ring_rotate in H. apply ring_rotate. cbn [app] in H.
  assert (l2 ++ l1 ≠ []) as Hne' by (by apply app_nonempty_comm).
  destruct (nonempty_ends _ Hne') as (p' & n' & Hp' & Hn' & _ & _).
  rewrite (ring_neighbours _ _ _ _ _ _ Hp' Hn') in H. destruct H as (H & ? & ? & ? & ?).
  simplify_eq. rewrite (ring_close _ _ _ _ _ Hp' Hn'). rewrite !lookup_insert_eq.
  split; [|done]. apply linked_ends; [|done..].
  by destruct (NoDup_middle _ _ _ Hd).
Qed.

Lemma ring_insert h l c p :
  NoDup (c :: h :: l) → ring nx pv (h :: l) → pv !! h = Some p →
  ring (<[p := c]> (<[c := h]> nx)) (<[h := c]> (<[c := p]> pv)) (c :: h :: l).
Proof.
  intros [Hc Hd]%NoDup_cons H Hp. destruct (nonempty_ends (h :: l)) as (p' & n' & Hp' & Hn' & ? & ?); [done|].
  injection Hn' as <-. pose proof (proj1 (ring_close _ _ _ _ _ Hp' eq_refl) H) as (Hl & ? & ?).
  simplify_eq. rewrite (ring_neighbours _ _ _ _ _ _ Hp' eq_refl).
  assert (c ≠ p) by congruence. assert (c ≠ h) by congruence.
  split; [|by simplify_map_eq]. apply linked_ends; [done..|].
  apply linked_nx_out; [done|]. apply linked_pv_out; done.
Qed.

Lemma ring_replace l1 c l2 e p n :
  NoDup (l1 ++ c :: l2) → e ∉ l1 ++ c :: l2 → ring nx pv (l1 ++ c :: l2) → l1 ++ l2 ≠ [] →
  nx !! c = Some n → pv !! c = Some p →
  ring (<[p := e]> (<[e := n]> nx)) (<[n := e]> (<[e := p]> pv)) (l1 ++ e :: l2).
Proof.
  intros Hd He H Hne Hn Hp. apply ring_rotate in H. apply ring_rotate. cbn [app] in *.
  assert (l2 ++ l1 ≠ []) as Hne' by (by apply app_nonempty_comm).
  destruct (NoDup_middle _ _ _ Hd) as [_ Hd'].
  destruct (nonempty_ends _ Hne') as (p' & n' & Hp' & Hn' & ? & ?).
  rewrite (ring_neighbours _ _ _ _ _ _ Hp' Hn') in H. destruct H as (H & ? & ? & ? & ?).
  simplify_eq. assert (e ∉ l2 ++ l1) by set_solver.
  rewrite (ring_neighbours _ _ _ _ _ _ Hp' Hn').
  assert (e ≠ p') by congruence. assert (e ≠ n') by congruence.
  split; [|by simplify_map_eq]. apply linked_ends; [done..|].
  apply linked_nx_out; [done|]. apply linked_pv_out; done.
Qed.

(** The rotation that keeps the first node fixed. *)
Lemma ring_swap h n l p nn :
  NoDup (h :: n :: l) → ring nx pv (h :: n :: l) → pv !! h = Some p →
  (<[p := n]> nx) !! n = Some nn →
  ring (<[n := h]> (<[h := nn]> (<[p := n]> nx))) (<[nn := h]> (<[h := n]> (<[n := p]> pv)))
       (h :: l ++ [n]) ∧ nn ≠ h.
Proof.
  intros Hd H Hp Hnn. apply NoDup_cons in Hd as [Hh Hd]. apply NoDup_cons in Hd as [Hn Hd].
  assert (h ≠ n) by set_solver. destruct l as [|m k].
  - destruct H as (? & ? & ? & ? & _). simplify_eq. rewrite lookup_insert_eq in Hnn. simplify_eq.
    split; [|done]. cbn [app ring linked]. by simplify_map_eq.
  - set (l := m :: k) in *.
    destruct (nonempty_ends l) as (p' & n' & Hp' & Hn' & ? & ?); [done|].
    assert (last (n :: l) = Some p') as Hp'' by done.
    pose proof (proj1 (ring_neighbours _ _ _ _ _ _ Hp'' eq_refl) H) as (Hl & ? & ? & ? & ?).
    rewrite linked_cons in Hl. destruct Hl as [Hl Hl2]. destruct (Hl2 n' Hn') as [? ?].
    simplify_eq. assert (p ≠ n) by congruence. rewrite lookup_insert_ne in Hnn by done. simplify_eq.
    assert (nn ≠ n) by congruence. assert (h ≠ p) by set_solver. assert (h ≠ nn) by set_solver.
    split; [|done]. assert (last (l ++ [n]) = Some n) as E1 by apply last_snoc.
    assert (head (l ++ [n]) = Some nn) as E2 by (by destruct l).
    rewrite (ring_neighbours _ _ _ _ _ _ E1 E2). split; [|by simplify_map_eq]. rewrite linked_snoc. split.
    + apply linked_nx_out; [done|]. apply linked_nx_out; [set_solver|].
      apply linked_ends; [done..|]. apply linked_pv_out; [set_solver|]. by apply linked_pv_out.
    + intros x Hx. simplify_eq. by simplify_map_eq.
Qed.
End RingOps.

(** ** NULL-terminated lists *)

Section MList.
Implicit Types (nx pv : gmap Z Z) (l : list Z).

Lemma mlist_ext nx pv nx' pv' p l :
  (∀ x, x ∈ l → nx' !! x = nx !! x ∧ pv' !! x = pv !! x) → mlist nx pv p l → mlist nx' pv' p l.
Proof.
  revert p. induction l as [|x l IH]; intros p He; [done|]. intros (H1 & H2 & H3).
  destruct (He x) as [E1 E2]; [set_solver|]. cbn [mlist]. rewrite E1, E2.
  split; [done|]. split; [done|]. apply IH; [|done]. intros y Hy. apply He. set_solver.
Qed.

Lemma mlist_nx_out nx pv p l x v : x ∉ l → mlist nx pv p l → mlist (<[x := v]> nx) pv p l.
Proof.
  intros Hx. apply mlist_ext. intros y Hy. by rewrite lookup_insert_ne by congruence.
Qed.
Lemma mlist_pv_out nx pv p l x v : x ∉ l → mlist nx pv p l → mlist nx (<[x := v]> pv) p l.
Proof.
  intros Hx. apply mlist_ext. intros y Hy. by rewrite lookup_insert_ne by congruence.
Qed.

(** Every node points to nodes of the list, to [p] or to NULL. *)
Lemma mlist_node nx pv p l x :
  mlist nx pv p l → x ∈ l →
  ∃ n q, nx !! x = Some n ∧ pv !! x = Some q ∧ (n = NULL ∨ n ∈ l) ∧ (q = p ∨ q ∈ l).
Proof.
  revert p. induction l as [|y l IH]; intros p H Hx; [set_solver|].
  destruct H as (H1 & H2 & H3). apply elem_of_cons in Hx as [->|Hx].
  - exists (hd0 l), p. split; [done|]. split; [done|].
    split; [destruct l; [by left|right; set_solver]|by left].
  - destruct (IH y H3 Hx) as (n & q & ? & ? & Hn & Hq). exists n, q.
    split; [done|]. split; [done|]. set_solver.
Qed.

(** The first node gets another predecessor. *)
Lemma mlist_first nx pv p q x l :
  NoDup (x :: l) → mlist nx pv p (x :: l) → mlist nx (<[x := q]> pv) q (x :: l).
Proof.
  intros [Hx _]%NoDup_cons (H1 & H2 & H3). split; [by rewrite lookup_insert_eq|].
  split; [done|]. by apply mlist_pv_out.
Qed.

(** A new first node [c] in front of the list; its successor is told unless it
    is NULL. *)
Definition tell (n v : Z) (pv : gmap Z Z) : gmap Z Z := if n =? NULL then pv else <[n := v]> pv.

Lemma tell_mlist nx pv p q l :
  NoDup l → NULL ∉ l → mlist nx pv p l → mlist nx (tell (hd0 l) q pv) q l.
Proof.
  intros Hd H0 H. destruct l as [|x l]; [done|]. unfold tell. simpl hd0.
  rewrite (proj2 (Z.eqb_neq x NULL)) by set_solver. by apply (mlist_first _ _ p).
Qed.

Lemma tell_ne n v pv x : x ≠ n → tell n v pv !! x = pv !! x.
Proof. intros. unfold tell. destruct (n =? NULL); [done|]. by rewrite lookup_insert_ne. Qed.

Lemma mlist_push nx pv c l :
  NoDup (c :: l) → NULL ∉ l → mlist nx pv NULL l →
  mlist (<[c := hd0 l]> nx) (tell (hd0 l) c (<[c := NULL]> pv)) NULL (c :: l).
Proof.
  intros [Hc Hd]%NoDup_cons H0 H. cbn [mlist]. rewrite lookup_insert_eq.
  split; [|split; [done|]].
  - destruct l as [|x l]; [apply lookup_insert_eq|].
    rewrite tell_ne by (simpl; set_solver). apply lookup_insert_eq.
  - eapply tell_mlist; [done..|]. apply mlist_nx_out; [done|]. by apply mlist_pv_out.
Qed.

(** [e] takes the place of the first node. *)
Lemma mlist_replace nx pv c e l :
  NoDup (c :: l) → e ∉ l → NULL ∉ l → mlist nx pv NULL (c :: l) →
  mlist (<[e := hd0 l]> nx) (tell (hd0 l) e (<[e := NULL]> pv)) NULL (e :: l).
Proof.
  intros [Hc Hd]%NoDup_cons He H0 (H1 & H2 & H3). cbn [mlist]. rewrite lookup_insert_eq.
  split; [|split; [done|]].
  - destruct l as [|x l]; [apply lookup_insert_eq|].
    rewrite tell_ne by (simpl; set_solver). apply lookup_insert_eq.
  - eapply tell_mlist; [done..|]. apply mlist_nx_out; [done|]. by apply mlist_pv_out.
Qed.

Lemma default_last_cons p (x : Z) l : default p (last (x :: l)) = default x (last l).
Proof.
  destruct l as [|y l]; [done|]. change (last (x :: y :: l)) with (last (y :: l)).
  destruct (last (y :: l)) eqn:E; [done|]. by apply last_None in E.
Qed.

(** Removal of a node: its predecessor and its successor point to each other. *)
Lemma mlist_remove nx pv p0 l1 c l2 :
  NoDup (l1 ++ c :: l2) → NULL ∉ l1 ++ c :: l2 → p0 ∉ l1 ++ c :: l2 →
  mlist nx pv p0 (l1 ++ c :: l2) →
  let p := default p0 (last l1) in let n := hd0 l2 in
  nx !! c = Some n ∧ pv !! c = Some p ∧
  mlist (if decide (l1 = []) then nx else <[p := n]> nx) (tell n p pv) p0 (l1 ++ l2).
Proof.
  revert p0. induction l1 as [|x l1 IH]; intros p0 Hd H0 Hp0 H; cbv zeta.
  - destruct H as (H1 & H2 & H3). apply NoDup_cons in Hd as [? ?].
    split; [done|]. split; [done|]. rewrite decide_True by done. simpl.
    eapply tell_mlist; [done|set_solver|done].
  - destruct H as (H1 & H2 & H3). apply NoDup_cons in Hd as [Hx Hd].
    assert (NULL ∉ l1 ++ c :: l2) by set_solver.
    destruct (IH x Hd H Hx H3) as (E1 & E2 & E3). cbv zeta in E3.
    rewrite default_last_cons.
    split; [done|]. split; [done|]. rewrite decide_False by done. cbn [app mlist].
    assert (x ≠ hd0 l2) by (destruct l2; simpl; set_solver).
    rewrite tell_ne by done. split; [done|].
    destruct l1 as [|y l1]; [|rewrite decide_False in E3 by done].
    + rewrite decide_True in E3 by done. simpl default. rewrite lookup_insert_eq.
      split; [done|]. apply mlist_nx_out; [set_solver|done].
    + split; [|done]. rewrite lookup_insert_ne; [done|].
      destruct (last (y :: l1)) as [z|] eqn:Ez; [|by apply last_None in Ez].
      apply last_Some_elem_of in Ez. simpl. set_solver.
Qed.
End MList.
