(* ===== verification/WmemBlock.v ===== *)
(** * The block allocator

    wmem/wmem_allocator_block.c, the allocator behind [malloc], and
    [align_address], [wmem_alloc] and [wmem_free] of wmem/wmem_core.c for the
    NULL allocator.  Blocks of 8 MB from the operating system are tiled by
    chunks; free chunks are on a NULL-terminated stack (the master list) or on a
    circular list (the recycler).

    The heap is a store of structs: a map per struct type and field, from the
    address of the struct to the value of the field.  A field of a struct that
    was not written, or that lies outside of the memory obtained from the
    operating system, cannot be accessed ([Fault]).  That structs in use never
    overlap is part of what is proved.  [AllocVecTags] and [FreeVec] of exec are
    the class [Exec]. *)

From stdpp Require Import base gmap list numbers.
From S2P Require Import Prelude CMem Words.
Open Scope Z_scope.

(** ** State *)

(** [wmem_block_chunk_t]: [prev], the flags and the 29-bit [len]. *)
Record wmem_block_chunk_t := Chunk {
  c_prev : Z; c_last : bool; c_used : bool; c_jumbo : bool; c_len : Z
}.

Record wstate := WState {
  chunks : gmap Z wmem_block_chunk_t;
  free_prev : gmap Z Z; free_next : gmap Z Z;      (* wmem_block_free_t, by its chunk *)
  pre_chunk : gmap Z Z;                            (* wmem_block_pre_t *)
  hdr_prev : gmap Z Z; hdr_next : gmap Z Z;        (* wmem_block_hdr_t *)
  block_list : Z; master_head : Z; recycler_head : Z;  (* wmem_block_allocator_t *)
  os_blocks : list (Z * Z)                         (* memory obtained from exec *)
}.

(** [AllocVecTags] with an alignment of 16: given the memory in use, the address
    of new memory or NULL. *)
Class Exec := {
  AllocVec : list (Z * Z) → Z → Z;
  AllocVec_ok : ∀ live size, 0 <= size → AllocVec live size ≠ NULL →
    let a := AllocVec live size in
    a mod 16 = 0 ∧ 0 < a ∧ a + size < 4294967296 ∧
    Forall (fun '(b, n) => a + size <= b ∨ b + n <= a) live
}.

(** ** Constants and macros *)

Definition sizeof_size_t : Z := 4.
Definition sizeof_chunk_t : Z := 8.
Definition sizeof_free_t : Z := 8.
Definition sizeof_pre_t : Z := 4.
Definition sizeof_hdr_t : Z := 8.

Definition WMEM_ALIGN_AMOUNT : Z := 4 * sizeof_size_t.
Definition WMEM_ALIGN_SIZE (SIZE : Z) : Z :=
  Z.land (not32 (WMEM_ALIGN_AMOUNT - 1)) (u32 (SIZE + (WMEM_ALIGN_AMOUNT - 1))).
Definition WMEM_BLOCK_SIZE : Z := 8 * 1024 * 1024.
Definition WMEM_CHUNK_HEADER_SIZE : Z := WMEM_ALIGN_SIZE sizeof_chunk_t.
Definition WMEM_BLOCK_HEADER_SIZE : Z := WMEM_ALIGN_SIZE sizeof_hdr_t.
Definition WMEM_BLOCK_TO_CHUNK (block : Z) : Z := block + WMEM_BLOCK_HEADER_SIZE.
Definition WMEM_CHUNK_TO_BLOCK (chunk : Z) : Z := chunk - WMEM_BLOCK_HEADER_SIZE.
Definition WMEM_DATA_TO_PRE (data : Z) : Z := data - sizeof_pre_t.

(** [align_address] of wmem_core.c. *)
Definition align_address (address alignment : Z) : Z :=
  if alignment =? 0 then address
  else Z.land (u32 (address + alignment - 1)) (not32 (u32 (alignment - 1))).

(** ** Field accesses *)

Definition in_blocks (os : list (Z * Z)) (a n : Z) : bool :=
  existsb (fun '(b, s) => (b <=? a) && (a + n <=? b + s)) os.
Definition valid (σ : wstate) (a n : Z) : bool := in_blocks (os_blocks σ) a n.

Definition lookup_or_fault {A} (o : option A) : M wstate A :=
  fun σ => match o with Some v => Ok (v, σ) | None => Fault end.

Definition get_chunk (c : Z) : M wstate wmem_block_chunk_t :=
  σ ← get; lookup_or_fault (chunks σ !! c).

Definition set_chunk (c : Z) (h : wmem_block_chunk_t) : M wstate unit :=
  σ ← get;
  if valid σ c sizeof_chunk_t then
    put (WState (<[c := h]> (chunks σ)) (free_prev σ) (free_next σ) (pre_chunk σ) (hdr_prev σ)
           (hdr_next σ) (block_list σ) (master_head σ) (recycler_head σ) (os_blocks σ))
  else fault.

(** Assignments to the fields of a chunk header. *)
Definition set_prev (c v : Z) : M wstate unit :=
  h ← get_chunk c; set_chunk c (Chunk v (c_last h) (c_used h) (c_jumbo h) (c_len h)).
Definition set_last (c : Z) (v : bool) : M wstate unit :=
  h ← get_chunk c; set_chunk c (Chunk (c_prev h) v (c_used h) (c_jumbo h) (c_len h)).
Definition set_used (c : Z) (v : bool) : M wstate unit :=
  h ← get_chunk c; set_chunk c (Chunk (c_prev h) (c_last h) v (c_jumbo h) (c_len h)).
Definition set_len (c v : Z) : M wstate unit :=
  h ← get_chunk c;
  set_chunk c (Chunk (c_prev h) (c_last h) (c_used h) (c_jumbo h) (v mod 536870912)).

(** The free header follows the chunk header. *)
Definition free_valid (σ : wstate) (c : Z) : bool :=
  valid σ (c + WMEM_CHUNK_HEADER_SIZE) sizeof_free_t.
Definition get_free_prev (c : Z) : M wstate Z :=
  σ ← get; lookup_or_fault (free_prev σ !! c).
Definition get_free_next (c : Z) : M wstate Z :=
  σ ← get; lookup_or_fault (free_next σ !! c).
Definition set_free_prev (c v : Z) : M wstate unit :=
  σ ← get;
  if free_valid σ c then
    put (WState (chunks σ) (<[c := v]> (free_prev σ)) (free_next σ) (pre_chunk σ) (hdr_prev σ)
           (hdr_next σ) (block_list σ) (master_head σ) (recycler_head σ) (os_blocks σ))
  else fault.
Definition set_free_next (c v : Z) : M wstate unit :=
  σ ← get;
  if free_valid σ c then
    put (WState (chunks σ) (free_prev σ) (<[c := v]> (free_next σ)) (pre_chunk σ) (hdr_prev σ)
           (hdr_next σ) (block_list σ) (master_head σ) (recycler_head σ) (os_blocks σ))
  else fault.

Definition get_pre (p : Z) : M wstate Z :=
  σ ← get; lookup_or_fault (pre_chunk σ !! p).
Definition set_pre (p v : Z) : M wstate unit :=
  σ ← get;
  if valid σ p sizeof_pre_t then
    put (WState (chunks σ) (free_prev σ) (free_next σ) (<[p := v]> (pre_chunk σ)) (hdr_prev σ)
           (hdr_next σ) (block_list σ) (master_head σ) (recycler_head σ) (os_blocks σ))
  else fault.

Definition get_hdr_prev (b : Z) : M wstate Z :=
  σ ← get; lookup_or_fault (hdr_prev σ !! b).
Definition get_hdr_next (b : Z) : M wstate Z :=
  σ ← get; lookup_or_fault (hdr_next σ !! b).
Definition set_hdr_prev (b v : Z) : M wstate unit :=
  σ ← get;
  if valid σ b sizeof_hdr_t then
    put (WState (chunks σ) (free_prev σ) (free_next σ) (pre_chunk σ) (<[b := v]> (hdr_prev σ))
           (hdr_next σ) (block_list σ) (master_head σ) (recycler_head σ) (os_blocks σ))
  else fault.
Definition set_hdr_next (b v : Z) : M wstate unit :=
  σ ← get;
  if valid σ b sizeof_hdr_t then
    put (WState (chunks σ) (free_prev σ) (free_next σ) (pre_chunk σ) (hdr_prev σ)
           (<[b := v]> (hdr_next σ)) (block_list σ) (master_head σ) (recycler_head σ) (os_blocks σ))
  else fault.

Definition set_block_list (v : Z) : M wstate unit :=
  modify (fun σ => WState (chunks σ) (free_prev σ) (free_next σ) (pre_chunk σ) (hdr_prev σ)
                     (hdr_next σ) v (master_head σ) (recycler_head σ) (os_blocks σ)).
Definition set_master_head (v : Z) : M wstate unit :=
  modify (fun σ => WState (chunks σ) (free_prev σ) (free_next σ) (pre_chunk σ) (hdr_prev σ)
                     (hdr_next σ) (block_list σ) v (recycler_head σ) (os_blocks σ)).
Definition set_recycler_head (v : Z) : M wstate unit :=
  modify (fun σ => WState (chunks σ) (free_prev σ) (free_next σ) (pre_chunk σ) (hdr_prev σ)
                     (hdr_next σ) (block_list σ) (master_head σ) v (os_blocks σ)).

(** [wmem_alloc (NULL, size)] and [wmem_free (NULL, ptr)]: memory of exec; the
    structs in memory that was freed are gone. *)
Definition forget {A} (os : list (Z * Z)) (m : gmap Z A) : gmap Z A :=
  filter (fun '(k, _) => in_blocks os k 1 = true) m.
Definition os_alloc `{Exec} (size : Z) : M wstate Z :=
  σ ← get;
  let a := AllocVec (os_blocks σ) size in
  if a =? NULL then mret NULL
  else
    _ ← put (WState (chunks σ) (free_prev σ) (free_next σ) (pre_chunk σ) (hdr_prev σ)
               (hdr_next σ) (block_list σ) (master_head σ) (recycler_head σ)
               ((a, size) :: os_blocks σ));
    mret a.
Definition os_free (a : Z) : M wstate unit :=
  modify (fun σ =>
    let os := filter (fun '(b, _) => b ≠ a) (os_blocks σ) in
    WState (forget os (chunks σ)) (forget os (free_prev σ)) (forget os (free_next σ))
      (forget os (pre_chunk σ)) (forget os (hdr_prev σ)) (forget os (hdr_next σ))
      (block_list σ) (master_head σ) (recycler_head σ) os).

(** ** Macros that read a chunk *)

Definition WMEM_CHUNK_PREV (chunk : Z) : M wstate Z :=
  h ← get_chunk chunk;
  mret (if negb (c_prev h =? 0) then chunk - c_prev h else NULL).
Definition WMEM_CHUNK_NEXT (chunk : Z) : M wstate Z :=
  h ← get_chunk chunk;
  mret (if c_last h then NULL else chunk + c_len h).
Definition WMEM_CHUNK_DATA_LEN (chunk : Z) : M wstate Z :=
  h ← get_chunk chunk; mret (u32 (c_len h - WMEM_CHUNK_HEADER_SIZE)).
Definition len_of (chunk : Z) : M wstate Z := h ← get_chunk chunk; mret (c_len h).
Definition WMEM_DATA_TO_CHUNK (data : Z) : M wstate Z := get_pre (WMEM_DATA_TO_PRE data).

(** ** Master and recycler *)

Definition wmem_block_cycle_recycler : M wstate unit :=
  σ ← get;
  let chunk := recycler_head σ in
  if chunk =? NULL then mret tt
  else
    n ← get_free_next chunk; nlen ← len_of n; len ← len_of chunk;
    if nlen <? len then
      (* hold the current head fixed during rotation *)
      n ← get_free_next chunk; p ← get_free_prev chunk; _ ← set_free_prev n p;
      p ← get_free_prev chunk; n ← get_free_next chunk; _ ← set_free_next p n;
      n ← get_free_next chunk; _ ← set_free_prev chunk n;
      n ← get_free_next chunk; nn ← get_free_next n; _ ← set_free_next chunk nn;
      n ← get_free_next chunk; _ ← set_free_prev n chunk;
      p ← get_free_prev chunk; set_free_next p chunk
    else
      (* just rotate everything *)
      n ← get_free_next chunk; set_recycler_head n.

Definition wmem_block_add_to_recycler (chunk : Z) : M wstate unit :=
  dlen ← WMEM_CHUNK_DATA_LEN chunk;
  if dlen <? sizeof_free_t then mret tt
  else
    σ ← get;
    if recycler_head σ =? NULL then
      _ ← set_free_next chunk chunk; _ ← set_free_prev chunk chunk; set_recycler_head chunk
    else
      _ ← set_free_next chunk (recycler_head σ);
      p ← get_free_prev (recycler_head σ); _ ← set_free_prev chunk p;
      n ← get_free_next chunk; _ ← set_free_prev n chunk;
      p ← get_free_prev chunk; _ ← set_free_next p chunk;
      len ← len_of chunk; hlen ← len_of (recycler_head σ);
      if hlen <? len then set_recycler_head chunk else mret tt.

Definition wmem_block_remove_from_recycler (chunk : Z) : M wstate unit :=
  p ← get_free_prev chunk; n ← get_free_next chunk;
  if (p =? chunk) && (n =? chunk) then set_recycler_head NULL
  else
    p ← get_free_prev chunk; n ← get_free_next chunk; _ ← set_free_next p n;
    n ← get_free_next chunk; p ← get_free_prev chunk; _ ← set_free_prev n p;
    σ ← get;
    if recycler_head σ =? chunk then n ← get_free_next chunk; set_recycler_head n
    else mret tt.

Definition wmem_block_push_master (chunk : Z) : M wstate unit :=
  _ ← set_free_prev chunk NULL;
  σ ← get; _ ← set_free_next chunk (master_head σ);
  n ← get_free_next chunk;
  _ ← (if negb (n =? NULL) then set_free_prev n chunk else mret tt);
  set_master_head chunk.

Definition wmem_block_pop_master : M wstate unit :=
  σ ← get;
  let chunk := master_head σ in
  n ← get_free_next chunk; _ ← set_master_head n;
  if negb (n =? NULL) then set_free_prev n NULL else mret tt.

(** ** Chunks *)

(** The part of [wmem_block_merge_free] that replaces the head of the master
    list. *)
Definition merge_master (chunk right_free : Z) : M wstate unit :=
  _ ← set_free_prev chunk NULL;
  n ← get_free_next right_free; _ ← set_free_next chunk n;
  _ ← set_master_head chunk;
  n ← get_free_next chunk;
  if negb (n =? NULL) then set_free_prev n chunk else mret tt.

(** Its merge with the next chunk, which returns [right_free]. *)
Definition merge_right (chunk : Z) : M wstate Z :=
  tmp ← WMEM_CHUNK_NEXT chunk;
  if tmp =? NULL then mret NULL
  else
    h ← get_chunk tmp;
    if c_used h then mret NULL
    else
      dlen ← WMEM_CHUNK_DATA_LEN tmp;
      let right_free := if sizeof_free_t <=? dlen then tmp else NULL in
      ch ← get_chunk chunk; _ ← set_len chunk (c_len ch + c_len h);
      _ ← set_last chunk (c_last h);
      mret right_free.

(** Its merge with the previous chunk, which returns the merged chunk and
    [left_free]. *)
Definition merge_left (chunk : Z) : M wstate (Z * Z) :=
  tmp ← WMEM_CHUNK_PREV chunk;
  if tmp =? NULL then mret (chunk, NULL)
  else
    h ← get_chunk tmp;
    if c_used h then mret (chunk, NULL)
    else
      dlen ← WMEM_CHUNK_DATA_LEN tmp;
      let left_free := if sizeof_free_t <=? dlen then tmp else NULL in
      ch ← get_chunk chunk; _ ← set_len tmp (c_len h + c_len ch);
      _ ← set_last tmp (c_last ch);
      mret (tmp, left_free).

(** The [prev] count of the chunk that follows. *)
Definition merge_fix_next (chunk : Z) : M wstate unit :=
  h ← get_chunk chunk;
  if negb (c_last h) then
    next ← WMEM_CHUNK_NEXT chunk; set_prev next (c_len h)
  else mret tt.

(** The free lists. *)
Definition merge_lists (chunk left_free right_free : Z) : M wstate unit :=
  σ ← get;
  if negb (right_free =? NULL) && (right_free =? master_head σ) then
    _ ← (if negb (left_free =? NULL) then wmem_block_remove_from_recycler left_free else mret tt);
    merge_master chunk right_free
  else
    _ ← (if negb (right_free =? NULL) then wmem_block_remove_from_recycler right_free else mret tt);
    if left_free =? NULL then wmem_block_add_to_recycler chunk else mret tt.

Definition wmem_block_merge_free (chunk : Z) : M wstate unit :=
  right_free ← merge_right chunk;
  '(chunk, left_free) ← merge_left chunk;
  _ ← merge_fix_next chunk;
  merge_lists chunk left_free right_free.

(** The second half of [wmem_block_split_free_chunk]: [extra] takes the place of
    [chunk] in its free list. *)
Definition split_free_lists (chunk extra : Z) : M wstate unit :=
  σ ← get;
  if master_head σ =? chunk then
    p ← get_free_prev chunk; _ ← set_free_prev extra p;
    n ← get_free_next chunk; _ ← set_free_next extra n;
    n ← get_free_next chunk;
    _ ← (if negb (n =? NULL) then set_free_prev n extra else mret tt);
    set_master_head extra
  else
    p ← get_free_prev chunk;
    _ ← (if p =? chunk then
           _ ← set_free_prev extra extra; set_free_next extra extra
         else
           p ← get_free_prev chunk; _ ← set_free_prev extra p;
           n ← get_free_next chunk; _ ← set_free_next extra n;
           p ← get_free_prev chunk; _ ← set_free_next p extra;
           n ← get_free_next chunk; set_free_prev n extra);
    σ ← get;
    if recycler_head σ =? chunk then set_recycler_head extra else mret tt.

Definition wmem_block_split_free_chunk (chunk size alignment : Z) : M wstate unit :=
  let aligned_size := u32 (WMEM_CHUNK_HEADER_SIZE + alignment + sizeof_pre_t + size) in
  let aligned_size := WMEM_ALIGN_SIZE aligned_size in
  h ← get_chunk chunk;
  if c_len h <? u32 (aligned_size + WMEM_CHUNK_HEADER_SIZE + sizeof_free_t) then
    σ ← get;
    if chunk =? master_head σ then wmem_block_pop_master
    else
      dlen ← WMEM_CHUNK_DATA_LEN chunk;
      if sizeof_free_t <=? dlen then wmem_block_remove_from_recycler chunk else mret tt
  else
    let last := c_last h in
    let available := u32 (c_len h - aligned_size) in
    _ ← set_len chunk aligned_size; _ ← set_last chunk false;
    extra ← WMEM_CHUNK_NEXT chunk;
    _ ← split_free_lists chunk extra;
    h ← get_chunk chunk;
    _ ← set_chunk extra (Chunk (c_len h) last false false (available mod 536870912));
    if negb last then
      next ← WMEM_CHUNK_NEXT extra; h ← get_chunk extra; set_prev next (c_len h)
    else mret tt.

Definition wmem_block_split_used_chunk (data size : Z) : M wstate unit :=
  chunk ← WMEM_DATA_TO_CHUNK data;
  let aligned_size := WMEM_ALIGN_SIZE (u32 (size + (data - chunk))) in
  h ← get_chunk chunk;
  if c_len h <? u32 (aligned_size + sizeof_chunk_t) then mret tt
  else
    let last := c_last h in
    let available := u32 (c_len h - aligned_size) in
    _ ← set_len chunk aligned_size; _ ← set_last chunk false;
    extra ← WMEM_CHUNK_NEXT chunk;
    h ← get_chunk chunk;
    _ ← set_chunk extra (Chunk (c_len h) last false false (available mod 536870912));
    _ ← (if negb last then
           next ← WMEM_CHUNK_NEXT extra; h ← get_chunk extra; set_prev next (c_len h)
         else mret tt);
    wmem_block_merge_free extra.

(** ** Blocks *)

Definition wmem_block_add_to_block_list (block : Z) : M wstate unit :=
  _ ← set_hdr_prev block NULL;
  σ ← get; _ ← set_hdr_next block (block_list σ);
  n ← get_hdr_next block;
  _ ← (if negb (n =? NULL) then set_hdr_prev n block else mret tt);
  set_block_list block.

Definition wmem_block_remove_from_block_list (block : Z) : M wstate unit :=
  p ← get_hdr_prev block;
  _ ← (if negb (p =? NULL) then n ← get_hdr_next block; set_hdr_next p n
       else n ← get_hdr_next block; set_block_list n);
  n ← get_hdr_next block;
  if negb (n =? NULL) then p ← get_hdr_prev block; set_hdr_prev n p else mret tt.

Definition wmem_block_init_block (block : Z) : M wstate unit :=
  let chunk := WMEM_BLOCK_TO_CHUNK block in
  _ ← set_chunk chunk (Chunk 0 true false false (WMEM_BLOCK_SIZE - WMEM_BLOCK_HEADER_SIZE));
  wmem_block_push_master chunk.

Section Allocator.
Context `{Exec}.

(** The result of [wmem_alloc] is not tested. *)
Definition wmem_block_new_block : M wstate unit :=
  block ← os_alloc WMEM_BLOCK_SIZE;
  _ ← wmem_block_add_to_block_list block;
  wmem_block_init_block block.

(** ** Jumbo allocations *)

Definition wmem_block_alloc_jumbo (size alignment : Z) : M wstate Z :=
  block ← os_alloc (u32 (size + alignment + sizeof_pre_t + WMEM_BLOCK_HEADER_SIZE
                         + WMEM_CHUNK_HEADER_SIZE));
  if block =? NULL then mret NULL
  else
    _ ← wmem_block_add_to_block_list block;
    let chunk := WMEM_BLOCK_TO_CHUNK block in
    _ ← set_chunk chunk (Chunk 0 true true true 0);
    let data := align_address (chunk + WMEM_CHUNK_HEADER_SIZE + sizeof_pre_t) alignment in
    _ ← set_pre (WMEM_DATA_TO_PRE data) chunk;
    mret data.

Definition wmem_block_free_jumbo (chunk : Z) : M wstate unit :=
  let block := WMEM_CHUNK_TO_BLOCK chunk in
  _ ← wmem_block_remove_from_block_list block;
  os_free block.

(** ** The interface of the allocator *)

(** [memcpy] of user data, which is not part of the state: both ranges must be
    accessible.  With a NULL pointer nothing is copied. *)
Definition memcpy (dst src n : Z) : M wstate unit :=
  if (dst =? NULL) || (src =? NULL) then mret tt
  else if (0 <? n) && negb (dst =? src) then
    σ ← get; if valid σ dst n && valid σ src n then mret tt else fault
  else mret tt.

Definition wmem_block_realloc_jumbo (ptr size alignment : Z) : M wstate Z :=
  chunk ← WMEM_DATA_TO_CHUNK ptr;
  len ← len_of chunk;
  let old_size := u32 (len - (ptr - chunk)) in
  if old_size <? size then
    new_ptr ← wmem_block_alloc_jumbo size alignment;
    _ ← memcpy new_ptr ptr (Z.min size old_size);
    _ ← wmem_block_free_jumbo chunk;
    mret new_ptr
  else mret ptr.

(** The chunk that serves an allocation of [needed] bytes in total. *)
Definition alloc_choose (needed : Z) : M wstate Z :=
  σ ← get;
  from_recycler ←
    (if negb (recycler_head σ =? NULL) then
       len ← len_of (recycler_head σ); mret (needed <=? len)
     else mret false);
  if (from_recycler : bool) then mret (recycler_head σ)
  else
    too_small ←
      (if negb (master_head σ =? NULL) then
         len ← len_of (master_head σ); mret (len <? needed)
       else mret false);
    _ ← (if (too_small : bool) then
           let chunk := master_head σ in
           _ ← wmem_block_pop_master;
           wmem_block_add_to_recycler chunk
         else mret tt);
    σ ← get;
    _ ← (if master_head σ =? NULL then wmem_block_new_block else mret tt);
    σ ← get;
    mret (master_head σ).

Definition wmem_block_alloc (size alignment : Z) : M wstate Z :=
  let needed := u32 (WMEM_CHUNK_HEADER_SIZE + alignment + sizeof_pre_t + size) in
  let needed := WMEM_ALIGN_SIZE needed in
  if WMEM_BLOCK_SIZE - WMEM_BLOCK_HEADER_SIZE <? needed then wmem_block_alloc_jumbo size alignment
  else
    chunk ← alloc_choose needed;
    _ ← wmem_block_split_free_chunk chunk size alignment;
    _ ← wmem_block_cycle_recycler;
    _ ← set_used chunk true;
    let data := align_address (chunk + WMEM_CHUNK_HEADER_SIZE + sizeof_pre_t) alignment in
    _ ← set_pre (WMEM_DATA_TO_PRE data) chunk;
    mret data.

Definition wmem_block_free (ptr : Z) : M wstate unit :=
  chunk ← WMEM_DATA_TO_CHUNK ptr;
  h ← get_chunk chunk;
  if c_jumbo h then wmem_block_free_jumbo chunk
  else
    _ ← set_used chunk false;
    _ ← wmem_block_merge_free chunk;
    wmem_block_cycle_recycler.

(** The growing case of [wmem_block_realloc] in which the next chunk [tmp] is
    free and large enough. *)
Definition realloc_grow (chunk tmp new_ptr_supremum chunk_supremum : Z) : M wstate unit :=
  let split_size := u32 (new_ptr_supremum - chunk_supremum) in
  let split_size := if split_size <? WMEM_CHUNK_HEADER_SIZE then 0
                    else split_size - WMEM_CHUNK_HEADER_SIZE in
  _ ← wmem_block_split_free_chunk tmp split_size 0;
  ch ← get_chunk chunk; th ← get_chunk tmp;
  _ ← set_len chunk (c_len ch + c_len th);
  _ ← set_last chunk (c_last th);
  tmp ← WMEM_CHUNK_NEXT chunk;
  _ ← (if negb (tmp =? NULL) then len ← len_of chunk; set_prev tmp len else mret tt);
  wmem_block_cycle_recycler.

Definition wmem_block_realloc (ptr size alignment : Z) : M wstate Z :=
  chunk ← WMEM_DATA_TO_CHUNK ptr;
  h ← get_chunk chunk;
  if c_jumbo h then wmem_block_realloc_jumbo ptr size alignment
  else
    let new_ptr_supremum := WMEM_ALIGN_SIZE (u32 (ptr + size)) in
    let chunk_supremum := u32 (chunk + c_len h) in
    if chunk_supremum <? new_ptr_supremum then
      tmp ← WMEM_CHUNK_NEXT chunk;
      fits ← (if tmp =? NULL then mret false
              else th ← get_chunk tmp;
                   mret (negb (c_used th) &&
                         (new_ptr_supremum <? u32 (chunk_supremum + c_len th))));
      if (fits : bool) then
        _ ← realloc_grow chunk tmp new_ptr_supremum chunk_supremum; mret ptr
      else
        newptr ← wmem_block_alloc size alignment;
        _ ← memcpy newptr ptr size;
        _ ← wmem_block_free ptr;
        mret newptr
    else if new_ptr_supremum <? chunk_supremum then
      _ ← wmem_block_split_used_chunk ptr size;
      _ ← wmem_block_cycle_recycler;
      mret ptr
    else mret ptr.

Definition wmem_block_free_all : M wstate unit :=
  _ ← set_master_head NULL;
  _ ← set_recycler_head NULL;
  σ ← get;
  loop (fun cur =>
          if negb (cur =? NULL) then
            let chunk := WMEM_BLOCK_TO_CHUNK cur in
            h ← get_chunk chunk;
            if c_jumbo h then
              _ ← wmem_block_remove_from_block_list cur;
              n ← get_hdr_next cur;
              _ ← os_free (WMEM_CHUNK_TO_BLOCK chunk);
              continue n
            else
              _ ← wmem_block_init_block cur;
              n ← get_hdr_next cur;
              continue n
          else break tt) (block_list σ).

(** The chunk of an unused block leaves the list it is in. *)
Definition gc_unlink (chunk : Z) : M wstate unit :=
  n ← get_free_next chunk;
  _ ← (if negb (n =? NULL) then p ← get_free_prev chunk; set_free_prev n p else mret tt);
  p ← get_free_prev chunk;
  _ ← (if negb (p =? NULL) then n ← get_free_next chunk; set_free_next p n else mret tt);
  σ ← get;
  if recycler_head σ =? chunk then
    n ← get_free_next chunk;
    if n =? chunk then set_recycler_head NULL else set_recycler_head n
  else if master_head σ =? chunk then
    n ← get_free_next chunk; set_master_head n
  else mret tt.

Definition wmem_block_gc : M wstate unit :=
  σ ← get;
  let cur := block_list σ in
  _ ← set_block_list NULL;
  loop (fun cur =>
          if negb (cur =? NULL) then
            let chunk := WMEM_BLOCK_TO_CHUNK cur in
            next ← get_hdr_next cur;
            h ← get_chunk chunk;
            if negb (c_jumbo h) && negb (c_used h) && c_last h then
              _ ← gc_unlink chunk;
              _ ← os_free cur;
              continue next
            else
              _ ← wmem_block_add_to_block_list cur;
              continue next
          else break tt) cur.
End Allocator.

(** [wmem_block_allocator_init]: the state of a new allocator. *)
Definition wmem_block_allocator_init : wstate :=
  WState ∅ ∅ ∅ ∅ ∅ ∅ NULL NULL NULL [].
