(* ===== verification/WmemLists.v ===== *)
(** * The free lists of the block allocator

    What the functions of wmem_allocator_block.c on the master list and the
    recycler do: every one of them is a function on the lists of free chunks.
    [flists] ties the lists to the pointers in the free chunks. *)

From stdpp Require Import base numbers gmap list.
From S2P Require Import Prelude CMem Words DList WmemBlock.
Open Scope Z_scope.
#[local] Set Warnings "-clear-no-such-hyp".

#[global] Arguments in_blocks : simpl never.

(** ** Accesses to fields *)

Ltac field_access f :=
  intros Hc HQ;
  unfold wp, f, mbind, M_mbind, M_bind, get, put, lookup_or_fault, free_valid, valid,
    sizeof_chunk_t, sizeof_free_t, sizeof_pre_t, sizeof_hdr_t;
  cbn [chunks free_prev free_next pre_chunk hdr_prev hdr_next block_list master_head
       recycler_head os_blocks];
  change WMEM_CHUNK_HEADER_SIZE with 16; rewrite Hc; exact HQ.

Section Fields.
Context {C : gmap Z wmem_block_chunk_t} {FP FN PR HP HN : gmap Z Z} {B MH RH : Z}
  {OS : list (Z * Z)}.
#[local] Abbreviation st := (WState C FP FN PR HP HN B MH RH OS).

Lemma wp_get_chunk c h Q : C !! c = Some h → Q h st → wp (get_chunk c) Q st.
Proof. field_access get_chunk. Qed.
Lemma wp_set_chunk c h Q :
  in_blocks OS c 8 = true →
  Q tt (WState (<[c := h]> C) FP FN PR HP HN B MH RH OS) → wp (set_chunk c h) Q st.
Proof. field_access set_chunk. Qed.
Lemma wp_get_free_prev c v Q : FP !! c = Some v → Q v st → wp (get_free_prev c) Q st.
Proof. field_access get_free_prev. Qed.
Lemma wp_get_free_next c v Q : FN !! c = Some v → Q v st → wp (get_free_next c) Q st.
Proof. field_access get_free_next. Qed.
Lemma wp_set_free_prev c v Q :
  in_blocks OS (c + 16) 8 = true →
  Q tt (WState C (<[c := v]> FP) FN PR HP HN B MH RH OS) → wp (set_free_prev c v) Q st.
Proof. field_access set_free_prev. Qed.
Lemma wp_set_free_next c v Q :
  in_blocks OS (c + 16) 8 = true →
  Q tt (WState C FP (<[c := v]> FN) PR HP HN B MH RH OS) → wp (set_free_next c v) Q st.
Proof. field_access set_free_next. Qed.
Lemma wp_get_pre p v Q : PR !! p = Some v → Q v st → wp (get_pre p) Q st.
Proof. field_access get_pre. Qed.
Lemma wp_set_pre p v Q :
  in_blocks OS p 4 = true →
  Q tt (WState C FP FN (<[p := v]> PR) HP HN B MH RH OS) → wp (set_pre p v) Q st.
Proof. field_access set_pre. Qed.
Lemma wp_get_hdr_prev b v Q : HP !! b = Some v → Q v st → wp (get_hdr_prev b) Q st.
Proof. field_access get_hdr_prev. Qed.
Lemma wp_get_hdr_next b v Q : HN !! b = Some v → Q v st → wp (get_hdr_next b) Q st.
Proof. field_access get_hdr_next. Qed.
Lemma wp_set_hdr_prev b v Q :
  in_blocks OS b 8 = true →
  Q tt (WState C FP FN PR (<[b := v]> HP) HN B MH RH OS) → wp (set_hdr_prev b v) Q st.
Proof. field_access set_hdr_prev. Qed.
Lemma wp_set_hdr_next b v Q :
  in_blocks OS b 8 = true →
  Q tt (WState C FP FN PR HP (<[b := v]> HN) B MH RH OS) → wp (set_hdr_next b v) Q st.
Proof. field_access set_hdr_next. Qed.
Lemma wp_set_block_list v Q : Q tt (WState C FP FN PR HP HN v MH RH OS) → wp (set_block_list v) Q st.
Proof. done. Qed.
Lemma wp_set_master_head v Q : Q tt (WState C FP FN PR HP HN B v RH OS) → wp (set_master_head v) Q st.
Proof. done. Qed.
Lemma wp_set_recycler_head v Q : Q tt (WState C FP FN PR HP HN B MH v OS) → wp (set_recycler_head v) Q st.
Proof. done. Qed.
Lemma wp_len_of c h Q : C !! c = Some h → Q (c_len h) st → wp (len_of c) Q st.
Proof. intros Hc HQ. unfold len_of. apply wp_bind. eapply wp_get_chunk; [done|]. by apply wp_ret. Qed.
Lemma wp_data_len c h Q :
  C !! c = Some h → Q (u32 (c_len h - 16)) st → wp (WMEM_CHUNK_DATA_LEN c) Q st.
Proof. intros Hc HQ. apply wp_bind. eapply wp_get_chunk; [done|]. by apply wp_ret. Qed.
Lemma wp_chunk_next c h Q :
  C !! c = Some h → Q (if c_last h then NULL else c + c_len h) st → wp (WMEM_CHUNK_NEXT c) Q st.
Proof. intros Hc HQ. apply wp_bind. eapply wp_get_chunk; [done|]. by apply wp_ret. Qed.
Lemma wp_chunk_prev c h Q :
  C !! c = Some h → Q (if negb (c_prev h =? 0) then c - c_prev h else NULL) st →
  wp (WMEM_CHUNK_PREV c) Q st.
Proof. intros Hc HQ. apply wp_bind. eapply wp_get_chunk; [done|]. by apply wp_ret. Qed.
End Fields.

(** Looking up a field after some assignments. *)
Ltac lk :=
  repeat first [ eassumption | reflexivity | rewrite lookup_insert_eq
               | rewrite lookup_insert_ne by (first [done | congruence | lia]) ].

(** One step of a program over an explicit state. *)
Ltac ws :=
  lazymatch goal with
  | |- wp (mbind _ _) _ _ => apply wp_bind; cbn beta
  | |- wp (get_chunk _) _ _ => eapply wp_get_chunk; [lk|cbn beta]
  | |- wp (len_of _) _ _ => eapply wp_len_of; [lk|cbn beta]
  | |- wp (WMEM_CHUNK_DATA_LEN _) _ _ => eapply wp_data_len; [lk|cbn beta]
  | |- wp (WMEM_CHUNK_NEXT _) _ _ => eapply wp_chunk_next; [lk|cbn beta]
  | |- wp (WMEM_CHUNK_PREV _) _ _ => eapply wp_chunk_prev; [lk|cbn beta]
  | |- wp (set_chunk _ _) _ _ => apply wp_set_chunk; [auto|cbn beta]
  | |- wp (set_prev _ _) _ _ => unfold set_prev
  | |- wp (set_last _ _) _ _ => unfold set_last
  | |- wp (set_used _ _) _ _ => unfold set_used
  | |- wp (set_len _ _) _ _ => unfold set_len
  | |- wp (get_free_prev _) _ _ => eapply wp_get_free_prev; [lk|cbn beta]
  | |- wp (get_free_next _) _ _ => eapply wp_get_free_next; [lk|cbn beta]
  | |- wp (set_free_prev _ _) _ _ => apply wp_set_free_prev; [auto|cbn beta]
  | |- wp (set_free_next _ _) _ _ => apply wp_set_free_next; [auto|cbn beta]
  | |- wp (get_pre _) _ _ => eapply wp_get_pre; [lk|cbn beta]
  | |- wp (set_pre _ _) _ _ => apply wp_set_pre; [auto|cbn beta]
  | |- wp (get_hdr_prev _) _ _ => eapply wp_get_hdr_prev; [lk|cbn beta]
  | |- wp (get_hdr_next _) _ _ => eapply wp_get_hdr_next; [lk|cbn beta]
  | |- wp (set_hdr_prev _ _) _ _ => apply wp_set_hdr_prev; [auto|cbn beta]
  | |- wp (set_hdr_next _ _) _ _ => apply wp_set_hdr_next; [auto|cbn beta]
  | |- wp (set_block_list _) _ _ => apply wp_set_block_list; cbn beta
  | |- wp (set_master_head _) _ _ => apply wp_set_master_head; cbn beta
  | |- wp (set_recycler_head _) _ _ => apply wp_set_recycler_head; cbn beta
  | |- wp get _ _ => apply wp_get; cbn beta
  | |- wp (mret _) _ _ => apply wp_ret; cbn beta iota
  end; cbn [chunks free_prev free_next pre_chunk hdr_prev hdr_next block_list master_head
            recycler_head os_blocks].

(** ** The two lists *)

Record flists (ml rl : list Z) (σ : wstate) : Prop := {
  fl_nodup : NoDup (ml ++ rl);
  fl_null : NULL ∉ ml ++ rl;
  fl_valid : ∀ c, c ∈ ml ++ rl → in_blocks (os_blocks σ) (c + 16) 8 = true;
  fl_mh : master_head σ = hd0 ml;
  fl_rh : recycler_head σ = hd0 rl;
  fl_master : mlist (free_next σ) (free_prev σ) NULL ml;
  fl_ring : ring (free_next σ) (free_prev σ) rl
}.

(** Only the free lists differ. *)
Definition free_step (σ τ : wstate) : Prop :=
  ∃ fp fn mh rh, τ = WState (chunks σ) fp fn (pre_chunk σ) (hdr_prev σ) (hdr_next σ)
                            (block_list σ) mh rh (os_blocks σ).

Lemma free_step_refl σ : free_step σ σ.
Proof. destruct σ. by eexists _, _, _, _. Qed.
Lemma free_step_trans σ τ υ : free_step σ τ → free_step τ υ → free_step σ υ.
Proof. intros (? & ? & ? & ? & ->) (? & ? & ? & ? & ->). by eexists _, _, _, _. Qed.

(** Turning the record into facts on an explicit state. *)
Ltac open_lists H :=
  let Hv := fresh "Hv" in
  destruct H as [Hd H0 Hv Hmh Hrh Hm Hr]; cbn [chunks free_prev free_next pre_chunk hdr_prev
    hdr_next block_list master_head recycler_head os_blocks] in Hv, Hmh, Hrh, Hm, Hr; subst.

Lemma not_in_master (ml rl : list Z) (c : Z) : NoDup (ml ++ rl) → c ∈ rl → c ∉ ml.
Proof. rewrite NoDup_app. intros (_ & H & _) Hc Hc'. by apply (H c). Qed.

Section Ops.
Implicit Types (ml rl : list Z) (c : Z) (σ : wstate).

(** [wmem_block_remove_from_recycler]. *)
Lemma remove_from_recycler_spec ml l1 c l2 σ :
  flists ml (l1 ++ c :: l2) σ →
  wp (wmem_block_remove_from_recycler c)
     (fun _ τ => free_step σ τ ∧ flists ml (l1 ++ l2) τ) σ.
Proof.
  intros H. destruct σ as [C FP FN PR HP HN B MH RH OS]. open_lists H.
  assert (NoDup (l1 ++ c :: l2)) as Hdr by (by apply NoDup_app in Hd as (_ & _ & ?)).
  assert (c ∈ l1 ++ c :: l2) as Hc by set_solver.
  destruct (ring_node _ _ _ _ Hr Hc) as (n & p & Hn & Hp & Hnin & Hpin).
  assert (p ∉ ml) by (by eapply not_in_master). assert (n ∉ ml) by (by eapply not_in_master).
  assert (NoDup (ml ++ l1 ++ l2)) as Hd'.
  { rewrite app_assoc in Hd |- *. apply NoDup_middle in Hd as [_ Hd].
    by rewrite Permutation_app_comm. }
  assert (∀ x, x ∈ ml ++ l1 ++ l2 → x ∈ ml ++ l1 ++ c :: l2) as Hsub by set_solver.
  unfold wmem_block_remove_from_recycler. repeat ws.
  destruct ((p =? c) && (n =? c)) eqn:E; b2p.
  - subst. pose proof (ring_self _ _ _ _ Hr Hdr Hc (or_introl Hp)) as E.
    assert (l1 = [] ∧ l2 = []) as [-> ->] by (destruct l1 as [|? [|? ?]]; simplify_eq/=; done).
    ws. split; [by eexists _, _, _, _|]. split; [done|set_solver|auto|done..].
  - assert (l1 ++ l2 ≠ []) as Hne.
    { intros [-> ->]%app_eq_nil. destruct Hr as (? & ? & _). destruct E; b2p; congruence. }
    pose proof (ring_remove _ _ _ _ _ _ _ Hdr Hr Hne Hn Hp) as Hr'.
    assert (l1 ++ c :: l2 ≠ [c]) as Hne'.
    { intros E'. apply (f_equal length) in E'. rewrite length_app in E'. simpl in E'.
      destruct l1, l2; simpl in *; try done; lia. }
    assert (p ≠ c) by (intros ->; by apply Hne', (ring_self FN FP); auto).
    assert (n ≠ c) by (intros ->; by apply Hne', (ring_self FN FP); auto).
    assert (in_blocks OS (p + 16) 8 = true) by (apply Hv; set_solver).
    assert (in_blocks OS (n + 16) 8 = true) by (apply Hv; set_solver).
    repeat ws.
    assert (hd0 (l1 ++ l2) = if hd0 (l1 ++ c :: l2) =? c then n else hd0 (l1 ++ c :: l2)) as Ehd.
    { destruct l1 as [|x l1]; cbn [app hd0].
      - rewrite Z.eqb_refl. destruct (ring_first _ _ _ _ Hr) as (E1 & _ & _).
        destruct l2; [done|]. cbn in E1. by simplify_eq.
      - rewrite (proj2 (Z.eqb_neq x c)); [done|]. intros ->.
        apply NoDup_cons in Hdr as [? _]. set_solver. }
    assert (mlist (<[p:=n]> FN) (<[n:=p]> FP) NULL ml)
      by (apply mlist_nx_out; [done|]; by apply mlist_pv_out).
    destruct (hd0 (l1 ++ c :: l2) =? c) eqn:E'; repeat ws;
      (split; [by eexists _, _, _, _|]); (split; cbn; [done|by intros ?%Hsub|auto|done..]).
Qed.
(** [wmem_block_cycle_recycler]: what it does to the list. *)
Definition cycle (len : Z → Z) (rl : list Z) : list Z :=
  match rl with
  | h :: n :: l => if len n <? len h then h :: l ++ [n] else n :: l ++ [h]
  | _ => rl
  end.

Definition clen (C : gmap Z wmem_block_chunk_t) (c : Z) : Z :=
  match C !! c with Some h => c_len h | None => 0 end.

Lemma cycle_perm len rl : cycle len rl ≡ₚ rl.
Proof.
  destruct rl as [|h [|n l]]; [done..|]. simpl.
  destruct (_ <? _); [by rewrite <- (Permutation_cons_append l n)|].
  rewrite <- (Permutation_cons_append l h). constructor.
Qed.

(** [flists] for a permutation of the lists. *)
Lemma flists_perm ml rl ml' rl' σ τ :
  flists ml rl σ → ml' ++ rl' ≡ₚ ml ++ rl → os_blocks τ = os_blocks σ →
  master_head τ = hd0 ml' → recycler_head τ = hd0 rl' →
  mlist (free_next τ) (free_prev τ) NULL ml' → ring (free_next τ) (free_prev τ) rl' →
  flists ml' rl' τ.
Proof.
  intros [? ? ? _ _ _ _] Hp Hos ? ? ? ?. split; rewrite ?Hos; try done; [by rewrite Hp..|].
  intros c. rewrite Hp. auto.
Qed.

Lemma cycle_recycler_spec ml rl σ :
  flists ml rl σ → (∀ c, c ∈ rl → is_Some (chunks σ !! c)) →
  wp wmem_block_cycle_recycler
     (fun _ τ => free_step σ τ ∧ flists ml (cycle (clen (chunks σ)) rl) τ) σ.
Proof.
  intros H Hc. unfold wmem_block_cycle_recycler. ws. ws. rewrite (fl_rh _ _ _ H).
  destruct rl as [|h l].
  { apply wp_ret. split; [apply free_step_refl|done]. }
  pose proof H as Hfl. destruct σ as [C FP FN PR HP HN B MH RH OS]. open_lists H.
  assert (h ≠ NULL) by set_solver. simpl hd0. rewrite (proj2 (Z.eqb_neq h NULL)) by done.
  destruct (ring_node _ _ _ h Hr) as (n & p & Hn & Hp & Hnin & Hpin); [set_solver|].
  destruct (Hc n Hnin) as [hn Hhn]. destruct (Hc h) as [hh Hhh]; [set_solver|].
  cbn in Hhn, Hhh. repeat ws. destruct l as [|n' l].
  { destruct Hr as (? & ? & _). simplify_eq. rewrite Z.ltb_irrefl. repeat ws.
    split; [by eexists _, _, _, _|]. by apply (flists_perm ml [h] _ _ _ _ Hfl). }
  assert (n' = n) as -> by (destruct Hr as (? & ? & _); congruence).
  assert (clen C n = c_len hn) as E1 by (unfold clen; by rewrite Hhn).
  assert (clen C h = c_len hh) as E2 by (unfold clen; by rewrite Hhh).
  cbn [cycle chunks]. rewrite E1, E2. destruct (c_len hn <? c_len hh) eqn:E.
  - assert (NoDup (h :: n :: l)) as Hdr by (by apply NoDup_app in Hd as (_ & _ & ?)).
    assert (∃ nn, (<[p := n]> FN) !! n = Some nn ∧ nn ∈ h :: n :: l) as (nn & Hnn & Hnnin).
    { destruct (decide (p = n)) as [->|?]; [exists n; by rewrite lookup_insert_eq|].
      destruct (ring_node _ _ _ _ Hr Hnin) as (nn & _ & ? & _ & ? & _).
      exists nn. by rewrite lookup_insert_ne. }
    destruct (ring_swap _ _ _ _ _ _ _ Hdr Hr Hp Hnn) as [Hr' ?].
    assert (h ≠ n) by (apply NoDup_cons in Hdr as [? _]; set_solver).
    assert (p ≠ h). { intros ->. by apply (ring_self _ _ _ h Hr Hdr) in Hpin; [|auto]. }
    assert (∀ c, c ∈ h :: n :: l → in_blocks OS (c + 16) 8 = true) by (intros; apply Hv; set_solver).
    assert (∀ c, c ∈ h :: n :: l → c ∉ ml) as Hml by (intros; by eapply not_in_master).
    assert (h ∈ h :: n :: l) by set_solver.
    repeat ws. split; [by eexists _, _, _, _|].
    apply (flists_perm ml (h :: n :: l) _ _ _ _ Hfl); cbn; [|done..| |done].
    + apply Permutation_app_head. by rewrite <- (Permutation_cons_append l n).
    + do 3 (apply mlist_nx_out; [by apply Hml|]). do 3 (apply mlist_pv_out; [by apply Hml|]). done.
  - repeat ws. split; [by eexists _, _, _, _|].
    apply (flists_perm ml (h :: n :: l) _ _ _ _ Hfl); cbn; [|done..|].
    + apply Permutation_app_head. rewrite <- (Permutation_cons_append l h). constructor.
    + by apply (ring_rotate1 _ _ h (n :: l)).
Qed.

(** [wmem_block_add_to_recycler]. *)
Definition add (len : Z → Z) (c : Z) (rl : list Z) : list Z :=
  match rl with
  | h :: l => if len h <? len c then c :: h :: l else h :: l ++ [c]
  | [] => [c]
  end.

Lemma add_perm len c rl : add len c rl ≡ₚ c :: rl.
Proof.
  destruct rl as [|h l]; [done|]. simpl. destruct (_ <? _); [done|].
  rewrite <- (Permutation_cons_append l c). constructor.
Qed.

(** [flists] for lists with one more chunk. *)
Lemma flists_more ml rl ml' rl' c σ τ :
  flists ml rl σ → c ∉ ml ++ rl → c ≠ NULL → in_blocks (os_blocks σ) (c + 16) 8 = true →
  ml' ++ rl' ≡ₚ c :: ml ++ rl → os_blocks τ = os_blocks σ →
  master_head τ = hd0 ml' → recycler_head τ = hd0 rl' →
  mlist (free_next τ) (free_prev τ) NULL ml' → ring (free_next τ) (free_prev τ) rl' →
  flists ml' rl' τ.
Proof.
  intros [? ? Hv _ _ _ _] Hc Hc0 Hcv Hp Hos ? ? ? ?. split; rewrite ?Hos; try done.
  - rewrite Hp. by constructor.
  - rewrite Hp. set_solver.
  - intros x. rewrite Hp. intros [->|?]%elem_of_cons; auto.
Qed.

Lemma add_to_recycler_spec ml rl c h σ :
  flists ml rl σ → (∀ c, c ∈ rl → is_Some (chunks σ !! c)) →
  chunks σ !! c = Some h → 24 <= c_len h < 4294967296 →
  c ∉ ml ++ rl → c ≠ NULL → in_blocks (os_blocks σ) (c + 16) 8 = true →
  wp (wmem_block_add_to_recycler c)
     (fun _ τ => free_step σ τ ∧ flists ml (add (clen (chunks σ)) c rl) τ) σ.
Proof.
  intros H Hcs Hc Hlen Hnin Hc0 Hcv. pose proof H as Hfl.
  destruct σ as [C FP FN PR HP HN B MH RH OS]. cbn in Hc, Hcv, Hcs. open_lists H.
  unfold wmem_block_add_to_recycler. ws. ws.
  rewrite (proj2 (Z.ltb_ge _ sizeof_free_t)) by (unfold sizeof_free_t; rewrite u32_small; lia).
  ws. ws. assert (c ∉ ml) by set_solver. destruct rl as [|r l].
  { simpl hd0. rewrite Z.eqb_refl. repeat ws. split; [by eexists _, _, _, _|].
    apply (flists_more ml [] _ _ c _ _ Hfl); cbn; try done.
    - rewrite Permutation_app_comm. by rewrite app_nil_r.
    - apply mlist_nx_out; [done|]. by apply mlist_pv_out.
    - by rewrite !lookup_insert_eq. }
  assert (r ≠ NULL) by set_solver. simpl hd0. rewrite (proj2 (Z.eqb_neq r NULL)) by done.
  destruct (ring_node _ _ _ r Hr) as (n & p & Hn & Hp & Hnin' & Hpin); [set_solver|].
  destruct (Hcs r) as [hr Hhr]; [set_solver|].
  assert (c ≠ r) by set_solver. assert (c ≠ p) by set_solver.
  assert (in_blocks OS (r + 16) 8 = true) by (apply Hv; set_solver).
  assert (in_blocks OS (p + 16) 8 = true) by (apply Hv; set_solver).
  assert (NoDup (c :: r :: l)) as Hdr.
  { constructor; [set_solver|]. by apply NoDup_app in Hd as (_ & _ & ?). }
  pose proof (ring_insert _ _ _ _ _ _ Hdr Hr Hp) as Hr'.
  assert (mlist (<[p := c]> (<[c := r]> FN)) (<[r := c]> (<[c := p]> FP)) NULL ml).
  { assert (p ∉ ml) by (by eapply not_in_master). assert (r ∉ ml) by (eapply not_in_master; [done|set_solver]).
    do 2 (apply mlist_nx_out; [done|]). by do 2 (apply mlist_pv_out; [done|]). }
  repeat ws. replace (c_len hr <? c_len h) with (clen C r <? clen C c)
    by (unfold clen; by rewrite Hhr, Hc).
  cbn [add chunks]. destruct (clen C r <? clen C c) eqn:E; ws; (split; [by eexists _, _, _, _|]);
    apply (flists_more ml (r :: l) _ _ c _ _ Hfl); cbn; try done.
  - by rewrite <- Permutation_middle.
  - by rewrite (Permutation_cons_append (ml ++ r :: l) c), <- app_assoc.
  - by apply (ring_rotate1 _ _ c (r :: l)).
Qed.

(** [wmem_block_push_master] and [wmem_block_pop_master]. *)
Lemma push_master_spec ml rl c σ :
  flists ml rl σ → c ∉ ml ++ rl → c ≠ NULL → in_blocks (os_blocks σ) (c + 16) 8 = true →
  wp (wmem_block_push_master c) (fun _ τ => free_step σ τ ∧ flists (c :: ml) rl τ) σ.
Proof.
  intros H Hnin Hc0 Hcv. pose proof H as Hfl.
  destruct σ as [C FP FN PR HP HN B MH RH OS]. cbn in Hcv. open_lists H.
  unfold wmem_block_push_master. repeat ws.
  assert (NoDup (c :: ml)) as Hdm.
  { constructor; [set_solver|]. by apply NoDup_app in Hd as (? & _ & _). }
  assert (c ∉ rl) by set_solver. assert (NULL ∉ ml) by set_solver.
  pose proof (mlist_push FN FP c ml Hdm ltac:(done) Hm) as Hm'. unfold tell in Hm'.
  assert (∀ x, x ∈ ml → x ∉ rl) as Hx by (by apply NoDup_app in Hd as (_ & ? & _)).
  assert (ring (<[c := hd0 ml]> FN) (<[c := NULL]> FP) rl) as Hr'
    by (apply ring_nx_out; [done|]; by apply ring_pv_out).
  destruct (hd0 ml =? NULL) eqn:E; simpl negb; cbn iota; b2p.
  - repeat ws. split; [by eexists _, _, _, _|]. by apply (flists_more ml rl _ _ c _ _ Hfl).
  - destruct ml as [|m ml]; [done|]. simpl hd0 in *.
    assert (in_blocks OS (m + 16) 8 = true) by (apply Hv; set_solver).
    repeat ws. split; [by eexists _, _, _, _|]. apply (flists_more (m :: ml) rl _ _ c _ _ Hfl); try done.
    apply ring_pv_out; [apply Hx; set_solver|done].
Qed.

Lemma pop_master_spec c ml rl σ :
  flists (c :: ml) rl σ →
  wp wmem_block_pop_master (fun _ τ => free_step σ τ ∧ flists ml rl τ) σ.
Proof.
  intros H. destruct σ as [C FP FN PR HP HN B MH RH OS]. open_lists H.
  destruct Hm as (Hm1 & Hm2 & Hm3). unfold wmem_block_pop_master. repeat ws.
  cbn [app] in *. apply NoDup_cons in Hd as [Hc Hd].
  assert (NULL ∉ ml ++ rl) as H0' by set_solver.
  assert (∀ x, x ∈ ml ++ rl → in_blocks OS (x + 16) 8 = true) by (intros; apply Hv; set_solver).
  assert (NoDup ml) as Hdm by (by apply NoDup_app in Hd as (? & _ & _)).
  assert (NULL ∉ ml) by set_solver.
  pose proof (tell_mlist _ _ _ NULL ml Hdm ltac:(done) Hm3) as Hm'. unfold tell in Hm'.
  assert (∀ x, x ∈ ml → x ∉ rl) as Hx by (by apply NoDup_app in Hd as (_ & ? & _)).
  destruct (hd0 ml =? NULL) eqn:E; simpl negb; cbn iota; b2p.
  - ws. split; [by eexists _, _, _, _|]. by split.
  - destruct ml as [|m ml]; [done|]. simpl hd0 in *.
    assert (in_blocks OS (m + 16) 8 = true) by (apply Hv; set_solver).
    repeat ws. split; [by eexists _, _, _, _|]. split; try done. cbn.
    apply ring_pv_out; [apply Hx; set_solver|done].
Qed.

(** [flists] for lists in which [e] replaces [c]. *)
Lemma flists_replaced ml rl ml' rl' c e rest σ τ :
  flists ml rl σ → ml ++ rl ≡ₚ c :: rest → ml' ++ rl' ≡ₚ e :: rest →
  e ∉ ml ++ rl → e ≠ NULL → in_blocks (os_blocks σ) (e + 16) 8 = true →
  os_blocks τ = os_blocks σ → master_head τ = hd0 ml' → recycler_head τ = hd0 rl' →
  mlist (free_next τ) (free_prev τ) NULL ml' → ring (free_next τ) (free_prev τ) rl' →
  flists ml' rl' τ.
Proof.
  intros [Hd H0 Hv _ _ _ _] Hp Hp' He He0 Hev Hos ? ? ? ?. rewrite Hp in Hd, H0, He.
  apply NoDup_cons in Hd as [Hc Hd].
  split; rewrite ?Hos; try done.
  - rewrite Hp'. constructor; [set_solver|done].
  - rewrite Hp'. set_solver.
  - intros x. rewrite Hp'. intros [->|Hx]%elem_of_cons; [done|].
    apply Hv. rewrite Hp. set_solver.
Qed.

(** The head of the master list is replaced, in [wmem_block_merge_free] and in
    [wmem_block_split_free_chunk]. *)
Lemma replace_master FN FP c e ml rl :
  NoDup ((c :: ml) ++ rl) → NULL ∉ (c :: ml) ++ rl → e ∉ (c :: ml) ++ rl →
  mlist FN FP NULL (c :: ml) → ring FN FP rl →
  let FN' := <[e := hd0 ml]> FN in let FP' := tell (hd0 ml) e (<[e := NULL]> FP) in
  mlist FN' FP' NULL (e :: ml) ∧ ring FN' FP' rl.
Proof.
  intros Hd H0 He Hm Hr. cbn [app] in *. split.
  - apply NoDup_cons in Hd as [? Hd]. apply NoDup_app in Hd as (Hd & _ & _).
    apply (mlist_replace _ _ c); [|set_solver..|done]. constructor; [set_solver|done].
  - apply NoDup_cons in Hd as [_ Hd]. apply NoDup_app in Hd as (_ & Hx & _).
    apply ring_nx_out; [set_solver|]. unfold tell.
    assert (ring FN (<[e := NULL]> FP) rl) by (apply ring_pv_out; [set_solver|done]).
    destruct ml as [|m ml]; [done|]. simpl hd0. destruct (m =? NULL); [done|].
    apply ring_pv_out; [apply Hx; set_solver|done].
Qed.

Lemma merge_master_spec c e ml rl σ :
  flists (c :: ml) rl σ → e ∉ (c :: ml) ++ rl → e ≠ NULL →
  in_blocks (os_blocks σ) (e + 16) 8 = true →
  wp (merge_master e c) (fun _ τ => free_step σ τ ∧ flists (e :: ml) rl τ) σ.
Proof.
  intros H Hnin He0 Hev. pose proof H as Hfl.
  destruct σ as [C FP FN PR HP HN B MH RH OS]. cbn in Hev. open_lists H.
  destruct (replace_master FN FP c e ml rl Hd H0 Hnin Hm Hr) as [Hm' Hr'].
  destruct Hm as (Hm1 & Hm2 & Hm3). assert (c ≠ e) by set_solver.
  unfold merge_master. repeat ws. unfold tell in Hm', Hr'.
  assert (hd0 ml ≠ NULL → in_blocks OS (hd0 ml + 16) 8 = true) as Hv'
    by (destruct ml; [done|]; intros; apply Hv; set_solver).
  destruct (hd0 ml =? NULL) eqn:E; simpl negb; cbn iota; b2p; repeat ws;
    (split; [by eexists _, _, _, _|]);
    by apply (flists_replaced (c :: ml) rl _ _ c e (ml ++ rl) _ _ Hfl).
Qed.

Lemma split_free_lists_master_spec c e ml rl σ :
  flists (c :: ml) rl σ → e ∉ (c :: ml) ++ rl → e ≠ NULL →
  in_blocks (os_blocks σ) (e + 16) 8 = true →
  wp (split_free_lists c e) (fun _ τ => free_step σ τ ∧ flists (e :: ml) rl τ) σ.
Proof.
  intros H Hnin He0 Hev. pose proof H as Hfl.
  destruct σ as [C FP FN PR HP HN B MH RH OS]. cbn in Hev. open_lists H.
  destruct (replace_master FN FP c e ml rl Hd H0 Hnin Hm Hr) as [Hm' Hr'].
  destruct Hm as (Hm1 & Hm2 & Hm3). assert (c ≠ e) by set_solver.
  unfold split_free_lists. ws. ws. simpl hd0. rewrite Z.eqb_refl. repeat ws.
  unfold tell in Hm', Hr'.
  assert (hd0 ml ≠ NULL → in_blocks OS (hd0 ml + 16) 8 = true) as Hv'
    by (destruct ml; [done|]; intros; apply Hv; set_solver).
  destruct (hd0 ml =? NULL) eqn:E; simpl negb; cbn iota; b2p; repeat ws;
    (split; [by eexists _, _, _, _|]);
    by apply (flists_replaced (c :: ml) rl _ _ c e (ml ++ rl) _ _ Hfl).
Qed.

Lemma split_free_lists_recycler_spec c e ml l1 l2 σ :
  flists ml (l1 ++ c :: l2) σ → e ∉ ml ++ l1 ++ c :: l2 → e ≠ NULL →
  in_blocks (os_blocks σ) (e + 16) 8 = true →
  wp (split_free_lists c e) (fun _ τ => free_step σ τ ∧ flists ml (l1 ++ e :: l2) τ) σ.
Proof.
  intros H Hnin He0 Hev. pose proof H as Hfl.
  destruct σ as [C FP FN PR HP HN B MH RH OS]. cbn in Hev. open_lists H.
  assert (NoDup (l1 ++ c :: l2)) as Hdr by (by apply NoDup_app in Hd as (_ & _ & ?)).
  assert (c ∈ l1 ++ c :: l2) as Hc by set_solver.
  destruct (ring_node _ _ _ _ Hr Hc) as (n & p & Hn & Hp & Hnin' & Hpin).
  assert (∀ x, x ∈ l1 ++ c :: l2 → x ∉ ml) as Hml by (intros; by eapply not_in_master).
  assert (hd0 ml ≠ c) as Hmc.
  { destruct ml; simpl; [set_solver|]. intros ->. apply (Hml c Hc). set_solver. }
  assert (e ∉ ml) by set_solver. assert (c ≠ e) by set_solver.
  assert (ml ++ l1 ++ c :: l2 ≡ₚ c :: ml ++ l1 ++ l2) as P1
    by (by rewrite app_assoc, <- Permutation_middle, <- app_assoc).
  assert (ml ++ l1 ++ e :: l2 ≡ₚ e :: ml ++ l1 ++ l2) as P2
    by (by rewrite app_assoc, <- Permutation_middle, <- app_assoc).
  assert (hd0 (l1 ++ e :: l2) = if hd0 (l1 ++ c :: l2) =? c then e else hd0 (l1 ++ c :: l2)) as Ehd.
  { destruct l1 as [|x l1]; cbn [app hd0]; [by rewrite Z.eqb_refl|].
    rewrite (proj2 (Z.eqb_neq x c)); [done|]. intros ->. apply NoDup_cons in Hdr as [? _]. set_solver. }
  unfold split_free_lists. ws. ws. rewrite (proj2 (Z.eqb_neq (hd0 ml) c)) by done. repeat ws.
  destruct (p =? c) eqn:E; b2p.
  - subst p. pose proof (ring_self _ _ _ _ Hr Hdr Hc (or_introl Hp)) as E.
    assert (l1 = [] ∧ l2 = []) as [-> ->] by (destruct l1 as [|? [|? ?]]; simplify_eq/=; done).
    repeat ws. simpl hd0. rewrite Z.eqb_refl. repeat ws. split; [by eexists _, _, _, _|].
    apply (flists_replaced ml [c] _ _ c e (ml ++ []) _ _ Hfl); cbn; try done.
    + apply mlist_nx_out; [done|]. by apply mlist_pv_out.
    + by rewrite !lookup_insert_eq.
  - assert (l1 ++ l2 ≠ []) as Hne.
    { intros [-> ->]%app_eq_nil. destruct Hr as (? & ? & _). congruence. }
    assert (e ∉ l1 ++ c :: l2) as He by set_solver.
    pose proof (ring_replace _ _ _ _ _ _ _ _ Hdr He Hr Hne Hn Hp) as Hr'.
    assert (p ≠ e) by congruence. assert (n ≠ e) by congruence.
    assert (in_blocks OS (p + 16) 8 = true) by (apply Hv; set_solver).
    assert (in_blocks OS (n + 16) 8 = true) by (apply Hv; set_solver).
    assert (mlist (<[p := e]> (<[e := n]> FN)) (<[n := e]> (<[e := p]> FP)) NULL ml).
    { apply mlist_nx_out; [by apply Hml|]. apply mlist_nx_out; [done|].
      apply mlist_pv_out; [by apply Hml|]. by apply mlist_pv_out. }
    repeat ws.
    destruct (hd0 (l1 ++ c :: l2) =? c); repeat ws; (split; [by eexists _, _, _, _|]);
      by apply (flists_replaced ml (l1 ++ c :: l2) _ _ c e (ml ++ l1 ++ l2) _ _ Hfl).
Qed.

End Ops.
