(* ===== verification/WmemLayout.v ===== *)
(** * The chunks of a block

    [layout]: the chunk headers of every block tile it, each header holds the
    length of its predecessor and the flag of the last one is right.  The ghost
    map [G] gives the block of every chunk; headers that are not in it are stale.
    The lemmas say that splitting, merging and flagging chunks keep the layout.
    They compare the headers before and after the operation address by address,
    so that the order of the assignments does not matter. *)

From stdpp Require Import base numbers gmap list.
From S2P Require Import Prelude CMem Words DList WmemBlock.
Open Scope Z_scope.
#[local] Set Warnings "-clear-no-such-hyp".

Abbreviation headers := (gmap Z wmem_block_chunk_t).

(** ** Memory obtained from exec *)

Record os_ok (os : list (Z * Z)) : Prop := {
  os_range : ∀ b n, (b, n) ∈ os → b mod 16 = 0 ∧ 0 < b ∧ 32 <= n ∧ b + n < 4294967296;
  os_disj : ∀ b n b' n', (b, n) ∈ os → (b', n') ∈ os →
    (b = b' ∧ n = n') ∨ b + n <= b' ∨ b' + n' <= b
}.

Lemma in_blocks_true os b s a n :
  (b, s) ∈ os → b <= a → a + n <= b + s → in_blocks os a n = true.
Proof.
  intros Hin ? ?. unfold in_blocks. apply existsb_exists. exists (b, s).
  split; [by apply list_elem_of_In|]. apply andb_true_intro. split; apply Z.leb_le; lia.
Qed.

Lemma in_blocks_sub os a n a' n' :
  in_blocks os a n = true → a <= a' → a' + n' <= a + n → in_blocks os a' n' = true.
Proof.
  unfold in_blocks. rewrite !existsb_exists. intros ([b s] & Hin & Hbs) ? ?. exists (b, s).
  split; [done|]. apply andb_true_iff in Hbs as [?%Z.leb_le ?%Z.leb_le].
  apply andb_true_intro. split; apply Z.leb_le; lia.
Qed.

(** ** Layout *)

Record chunk_ok (G : gmap Z Z) (C : headers) (a b : Z) (h : wmem_block_chunk_t) : Prop := {
  ck_jumbo : c_jumbo h = false;
  ck_align : a mod 16 = 0;
  ck_len_align : c_len h mod 16 = 0;
  ck_len : 16 <= c_len h;
  ck_lo : b + 16 <= a;
  ck_hi : a + c_len h <= b + 8388608;
  ck_next : if c_last h then a + c_len h = b + 8388608
            else ∃ hn, G !! (a + c_len h) = Some b ∧ C !! (a + c_len h) = Some hn ∧
                       c_prev hn = c_len h;
  ck_prev : if c_prev h =? 0 then a = b + 16
            else ∃ hp, G !! (a - c_prev h) = Some b ∧ C !! (a - c_prev h) = Some hp ∧
                       c_len hp = c_prev h ∧ c_last hp = false
}.

Record layout (os : list (Z * Z)) (G : gmap Z Z) (C : headers) : Prop := {
  ly_chunk : ∀ a b, G !! a = Some b → ∃ h, C !! a = Some h ∧ chunk_ok G C a b h;
  ly_block : ∀ a b, G !! a = Some b → (b, 8388608) ∈ os;
  ly_first : ∀ a b, G !! a = Some b → G !! (b + 16) = Some b;
  ly_disj : ∀ a a' b b' h h', G !! a = Some b → G !! a' = Some b' →
    C !! a = Some h → C !! a' = Some h' → a < a' → a + c_len h <= a'
}.

(** No two neighbours are free, the chunk at [x] apart. *)
Definition coalesced (x : Z) (G : gmap Z Z) (C : headers) : Prop :=
  ∀ a b h hn, G !! a = Some b → C !! a = Some h → c_last h = false →
    C !! (a + c_len h) = Some hn → a ≠ x → a + c_len h ≠ x →
    c_used h = true ∨ c_used hn = true.

(** The header with another [prev]. *)
Definition upd_prev (v : Z) (h : wmem_block_chunk_t) : wmem_block_chunk_t :=
  Chunk v (c_last h) (c_used h) (c_jumbo h) (c_len h).

Section Layout.
Context (os : list (Z * Z)) (Hos : os_ok os).
Implicit Types (G : gmap Z Z) (C : headers).

Lemma layout_at G C a b h :
  layout os G C → G !! a = Some b → C !! a = Some h → chunk_ok G C a b h.
Proof. intros H HG HC. destruct (ly_chunk _ _ _ H a b HG) as (h' & ? & ?). congruence. Qed.

Lemma layout_range G C a b :
  layout os G C → G !! a = Some b → 0 < b ∧ b mod 16 = 0 ∧ b + 8388608 < 4294967296.
Proof.
  intros H HG. pose proof (os_range _ Hos _ _ (ly_block _ _ _ H _ _ HG)). lia.
Qed.

(** A chunk header, and the free header of a chunk of at least 24 bytes, are in
    the memory of the block. *)
Lemma layout_valid G C a b h i n :
  layout os G C → G !! a = Some b → C !! a = Some h → 0 <= i → i + n <= c_len h →
  in_blocks os (a + i) n = true.
Proof.
  intros H HG HC ? ?. destruct (layout_at _ _ _ _ _ H HG HC).
  eapply in_blocks_true; [by eapply (ly_block _ _ _ H)|lia..].
Qed.

(** The two neighbours of a chunk. *)
Lemma layout_next G C a b h :
  layout os G C → G !! a = Some b → C !! a = Some h → c_last h = false →
  ∃ hn, G !! (a + c_len h) = Some b ∧ C !! (a + c_len h) = Some hn ∧ c_prev hn = c_len h ∧
        chunk_ok G C (a + c_len h) b hn.
Proof.
  intros H HG HC Hl. destruct (layout_at _ _ _ _ _ H HG HC). rewrite Hl in ck_next0.
  destruct ck_next0 as (hn & ? & ? & ?). exists hn. by eauto using layout_at.
Qed.

Lemma layout_prev G C a b h :
  layout os G C → G !! a = Some b → C !! a = Some h → c_prev h ≠ 0 →
  ∃ hp, G !! (a - c_prev h) = Some b ∧ C !! (a - c_prev h) = Some hp ∧
        c_len hp = c_prev h ∧ c_last hp = false ∧ chunk_ok G C (a - c_prev h) b hp.
Proof.
  intros H HG HC Hl. destruct (layout_at _ _ _ _ _ H HG HC).
  rewrite (proj2 (Z.eqb_neq _ 0) Hl) in ck_prev0. destruct ck_prev0 as (hp & ? & ? & ? & ?).
  exists hp. by eauto 10 using layout_at.
Qed.

(** Chunks do not overlap. *)
Lemma layout_apart G C a a' b b' h h' :
  layout os G C → G !! a = Some b → G !! a' = Some b' → C !! a = Some h → C !! a' = Some h' →
  a ≠ a' → a + c_len h <= a' ∨ a' + c_len h' <= a.
Proof.
  intros H ? ? ? ? ?. destruct (decide (a < a')); [left|right]; eapply (ly_disj _ _ _ H); eauto; lia.
Qed.

(** Only headers of chunks matter, and of these not the [used] flag. *)
Definition same_layout (h h' : wmem_block_chunk_t) : Prop :=
  c_prev h' = c_prev h ∧ c_last h' = c_last h ∧ c_jumbo h' = c_jumbo h ∧ c_len h' = c_len h.

Lemma layout_same G C C' :
  (∀ a b h, G !! a = Some b → C !! a = Some h → ∃ h', C' !! a = Some h' ∧ same_layout h h') →
  layout os G C → layout os G C'.
Proof.
  intros Hs H. assert (∀ a b h', G !! a = Some b → C' !! a = Some h' →
    ∃ h, C !! a = Some h ∧ same_layout h h') as Hb.
  { intros a b h' HG HC'. destruct (ly_chunk _ _ _ H a b HG) as (h & HC & _).
    destruct (Hs a b h HG HC) as (h2 & ? & ?). simplify_eq. eauto. }
  split; [|apply (ly_block _ _ _ H)|apply (ly_first _ _ _ H)|].
  - intros a b HG. destruct (ly_chunk _ _ _ H a b HG) as (h & HC & [? ? ? ? ? ? Hn Hp]).
    destruct (Hs a b h HG HC) as (h' & HC' & E1 & E2 & E3 & E4). exists h'. split; [done|].
    split; rewrite ?E1, ?E2, ?E3, ?E4; try done.
    + destruct (c_last h); [done|]. destruct Hn as (hn & G1 & C1 & P1).
      destruct (Hs _ _ _ G1 C1) as (hn' & ? & ? & _). exists hn'. split_and!; congruence.
    + destruct (_ =? 0); [done|]. destruct Hp as (hp & G1 & C1 & P1 & P2).
      destruct (Hs _ _ _ G1 C1) as (hp' & ? & ? & ? & ? & ?). exists hp'. split_and!; congruence.
  - intros a a' b b' h1 h1' HG HG' HC HC' Hlt.
    destruct (Hb _ _ _ HG HC) as (h & ? & _ & _ & _ & ->).
    destruct (Hb _ _ _ HG' HC') as (h' & ? & _). by eapply (ly_disj _ _ _ H).
Qed.

(** Splitting the chunk at [a] after [s] bytes. *)
Record split_at (C C' : headers) (a s : Z) (h : wmem_block_chunk_t)
    (u1 u2 : bool) : Prop := {
  sp_first : C' !! a = Some (Chunk (c_prev h) false u1 false s);
  sp_second : C' !! (a + s) = Some (Chunk s (c_last h) u2 false (c_len h - s));
  sp_next : c_last h = false → ∀ hn, C !! (a + c_len h) = Some hn →
    C' !! (a + c_len h) = Some (upd_prev (c_len h - s) hn);
  sp_other : ∀ x, x ≠ a → x ≠ a + s → (c_last h = false → x ≠ a + c_len h) → C' !! x = C !! x
}.

(** Every chunk of the new layout: one of the two parts, or an old chunk of
    which at most [prev] has changed. *)
Lemma split_chunks G C C' a b s h u1 u2 x y :
  layout os G C → G !! a = Some b → C !! a = Some h → 0 < s < c_len h →
  split_at C C' a s h u1 u2 → <[a + s := b]> G !! x = Some y →
  (x = a + s ∧ y = b) ∨ (x = a ∧ y = b) ∨
  (x ≠ a ∧ x ≠ a + s ∧ G !! x = Some y ∧ ∃ hx, C !! x = Some hx ∧
   (x + c_len hx <= a ∨ a + c_len h <= x) ∧
   ((c_last h = false ∧ x = a + c_len h ∧ c_prev hx = c_len h ∧
     C' !! x = Some (upd_prev (c_len h - s) hx)) ∨
    ((c_last h = false → x ≠ a + c_len h) ∧ C' !! x = Some hx))).
Proof.
  intros H HG HC Hs [H1 H2 H3 H4] HGx. destruct (decide (x = a + s)) as [->|Hxs].
  { rewrite lookup_insert_eq in HGx. left. by simplify_eq. }
  rewrite lookup_insert_ne in HGx by done. destruct (decide (x = a)) as [->|Hxa].
  { right. left. by simplify_eq. }
  right. right. destruct (ly_chunk _ _ _ H x y HGx) as (hx & HCx & _).
  split; [done|]. split; [done|]. split; [done|]. exists hx. split; [done|]. split.
  { destruct (layout_apart _ _ _ _ _ _ _ _ H HGx HG HCx HC); lia. }
  destruct (decide (c_last h = false ∧ x = a + c_len h)) as [[Hl ->]|Hn].
  - left. split; [done|]. split; [done|]. split; [|by apply H3].
    destruct (layout_next _ _ _ _ _ H HG HC Hl) as (hn & _ & ? & ? & _). congruence.
  - right. split; [intros ? ->; by apply Hn|]. rewrite H4; [done..|].
    intros ? ->. by apply Hn.
Qed.

(** No chunk begins inside of another one. *)
Lemma layout_inside G C a b h i :
  layout os G C → G !! a = Some b → C !! a = Some h → 0 < i < c_len h → G !! (a + i) = None.
Proof.
  intros H HG HC Hi. destruct (G !! (a + i)) as [b'|] eqn:E; [|done].
  destruct (ly_chunk _ _ _ H _ _ E) as (h' & HC' & [? ? ? ? ? ? _ _]).
  destruct (layout_apart _ _ _ _ _ _ _ _ H HG E HC HC'); lia.
Qed.

Section Split.
Context (G : gmap Z Z) (C C' : headers) (a b s : Z) (h : wmem_block_chunk_t) (u1 u2 : bool).
Context (H : layout os G C) (HG : G !! a = Some b) (HC : C !! a = Some h).
Context (Hs16 : s mod 16 = 0) (Hs : 16 <= s) (Hs' : s + 16 <= c_len h).
Context (Hsp : split_at C C' a s h u1 u2).

Lemma split_insert x : is_Some (G !! x) → <[a + s := b]> G !! x = G !! x.
Proof.
  intros Hx. apply lookup_insert_ne. intros <-.
  rewrite (layout_inside _ _ _ _ _ s H HG HC) in Hx by lia. by destruct Hx.
Qed.

(** The first part. *)
Lemma split_ok1 : chunk_ok (<[a + s := b]> G) C' a b (Chunk (c_prev h) false u1 false s).
Proof.
  pose proof Hsp as [H1 H2 H3 H4]. destruct (layout_at _ _ _ _ _ H HG HC) as [? ? ? ? ? ? Hn Hp].
  split; cbn [c_prev c_last c_used c_jumbo c_len]; try done; try lia.
  - exists (Chunk s (c_last h) u2 false (c_len h - s)). by rewrite lookup_insert_eq.
  - destruct (c_prev h =? 0) eqn:E; [done|]. b2p. destruct Hp as (hp & G1 & C1 & L1 & L2).
    pose proof (layout_at _ _ _ _ _ H G1 C1) as [? ? ? ? ? ? _ _].
    exists hp. rewrite split_insert by (by eexists). rewrite H4; [done|lia..].
Qed.

(** The second part. *)
Lemma split_ok2 :
  chunk_ok (<[a + s := b]> G) C' (a + s) b (Chunk s (c_last h) u2 false (c_len h - s)).
Proof.
  pose proof Hsp as [H1 H2 H3 H4]. destruct (layout_at _ _ _ _ _ H HG HC) as [? ? ? ? ? ? Hn Hp].
  split; cbn [c_prev c_last c_used c_jumbo c_len]; try done; try lia; try dlia.
  - destruct (c_last h) eqn:E; [lia|]. destruct Hn as (hn & G1 & C1 & P1).
    replace (a + s + (c_len h - s)) with (a + c_len h) by lia.
    exists (upd_prev (c_len h - s) hn). rewrite split_insert by (by eexists). by rewrite (H3 eq_refl hn).
  - rewrite (proj2 (Z.eqb_neq s 0)) by lia. replace (a + s - s) with a by lia.
    exists (Chunk (c_prev h) false u1 false s). rewrite split_insert by (by eexists). done.
Qed.

(** The successor of an unchanged chunk. *)
Lemma split_next x y hx :
  G !! x = Some y → C !! x = Some hx → x ≠ a → c_last hx = false →
  ∃ hn, <[a + s := b]> G !! (x + c_len hx) = Some y ∧ C' !! (x + c_len hx) = Some hn ∧
        c_prev hn = c_len hx.
Proof.
  intros HGx HCx Hxa Hl. pose proof Hsp as [H1 H2 H3 H4].
  destruct (layout_next _ _ _ _ _ H HGx HCx Hl) as (hn & G1 & C1 & P1 & _).
  rewrite split_insert by (by eexists). destruct (decide (x + c_len hx = a)) as [E|E].
  - rewrite E in *. exists (Chunk (c_prev h) false u1 false s). simplify_eq. done.
  - exists hn. rewrite H4; [done|done| |].
    { intros E'. rewrite E' in G1. by rewrite (layout_inside _ _ _ _ _ s H HG HC) in G1 by lia. }
    intros Hla E'.
    destruct (layout_next _ _ _ _ _ H HG HC Hla) as (hn' & _ & C2 & P2 & _).
    rewrite E' in C1. simplify_eq. lia.
Qed.

(** An old chunk. *)
Lemma split_ok3 x y hx hx' :
  G !! x = Some y → C !! x = Some hx → x ≠ a → x ≠ a + s →
  (c_last h = false ∧ x = a + c_len h ∧ c_prev hx = c_len h ∧ hx' = upd_prev (c_len h - s) hx) ∨
  ((c_last h = false → x ≠ a + c_len h) ∧ hx' = hx) →
  chunk_ok (<[a + s := b]> G) C' x y hx'.
Proof.
  intros HGx HCx Hxa Hxs Hor. pose proof Hsp as [H1 H2 H3 H4].
  destruct (layout_at _ _ _ _ _ H HG HC) as [? ? ? ? ? ? _ _].
  pose proof (layout_at _ _ _ _ _ H HGx HCx) as [? ? ? ? ? ? Hn Hp].
  assert (if c_last hx then x + c_len hx = y + 8388608 else
    ∃ hn, <[a + s := b]> G !! (x + c_len hx) = Some y ∧ C' !! (x + c_len hx) = Some hn ∧
          c_prev hn = c_len hx) as Hn'
    by (destruct (c_last hx) eqn:E; [done|by apply split_next]).
  destruct Hor as [(Hl & -> & Hpl & ->)|[Hne ->]]; (split; [done..|]).
  - cbn [upd_prev c_prev c_last c_used c_jumbo c_len].
    rewrite (proj2 (Z.eqb_neq (c_len h - s) 0)) by lia.
    replace (a + c_len h - (c_len h - s)) with (a + s) by lia.
    destruct (layout_next _ _ _ _ _ H HG HC Hl) as (hn' & G2 & _). simplify_eq.
    exists (Chunk s (c_last h) u2 false (c_len h - s)). by rewrite lookup_insert_eq.
  - destruct (c_prev hx =? 0) eqn:E; [done|]. b2p. destruct Hp as (hp & G1 & C1 & L1 & L2).
    rewrite split_insert by (by eexists). destruct (decide (x - c_prev hx = a)) as [Ea|Ea].
    { rewrite Ea in *. simplify_eq. exfalso. apply (Hne L2). lia. }
    destruct (decide (c_last h = false ∧ x - c_prev hx = a + c_len h)) as [[El El']|El].
    + exists (upd_prev (c_len h - s) hp). rewrite El' in *. by rewrite (H3 El hp C1).
    + exists hp. rewrite H4; [done|done| |intros ? ?; by apply El].
      intros E'. rewrite E' in G1. by rewrite (layout_inside _ _ _ _ _ s H HG HC) in G1 by lia.
Qed.

Lemma layout_split : layout os (<[a + s := b]> G) C'.
Proof.
  pose proof Hsp as [H1 H2 H3 H4].
  assert (0 < s < c_len h) as Hs2 by lia.
  pose proof (fun x y => split_chunks _ _ _ _ _ _ _ _ _ x y H HG HC Hs2 Hsp) as Hx.
  split.
  - intros x y HGx. destruct (Hx x y HGx) as [[-> ->]|[[-> ->]|(Hxa & Hxs & G1 & hx & C1 & _ & Hor)]].
    + eexists. split; [done|]. apply split_ok2.
    + eexists. split; [done|]. apply split_ok1.
    + destruct Hor as [(? & ? & ? & ?)|[? ?]]; eexists; (split; [done|]);
        eapply split_ok3; eauto 10.
  - intros x y HGx. destruct (Hx x y HGx) as [[-> ->]|[[-> ->]|(_ & _ & G1 & _)]];
      by eapply (ly_block _ _ _ H).
  - intros x y HGx. assert (G !! (y + 16) = Some y) as E.
    { destruct (Hx x y HGx) as [[-> ->]|[[-> ->]|(_ & _ & G1 & _)]]; by eapply (ly_first _ _ _ H). }
    rewrite split_insert by (by eexists). done.
  - intros x x' y y' hx hx' HGx HGx' HCx HCx' Hlt.
    assert (∀ z w hz, <[a + s := b]> G !! z = Some w → C' !! z = Some hz →
      (z = a + s ∧ c_len hz = c_len h - s) ∨ (z = a ∧ c_len hz = s) ∨
      ∃ hz0, G !! z = Some w ∧ C !! z = Some hz0 ∧ c_len hz = c_len hz0 ∧ 16 <= c_len hz0 ∧
             (z + c_len hz <= a ∨ a + c_len h <= z)) as Hi.
    { intros z w hz Gz Cz.
      destruct (Hx z w Gz) as [[-> ->]|[[-> ->]|(? & ? & G1 & hz0 & C1 & A1 & Hor)]]; simplify_eq;
        [by left|by right; left|]. right. right. exists hz0. split; [done|]. split; [done|].
      pose proof (ck_len _ _ _ _ _ (layout_at _ _ _ _ _ H G1 C1)).
      destruct Hor as [(? & ? & ? & E)|[? E]]; rewrite E in Cz; simplify_eq; split; done. }
    destruct (Hi _ _ _ HGx HCx) as [[-> ?]|[[-> ?]|(h1 & ? & ? & ? & ? & ?)]];
    destruct (Hi _ _ _ HGx' HCx') as [[-> ?]|[[-> ?]|(h2 & ? & ? & ? & ? & ?)]]; try lia.
    assert (x + c_len h1 <= x') by (by eapply (ly_disj _ _ _ H)). lia.
Qed.
End Split.

(** Merging the chunk at [a] with its successor. *)
Record merge_at (C C' : headers) (a : Z) (h hn : wmem_block_chunk_t)
    (u : bool) : Prop := {
  mg_first : C' !! a = Some (Chunk (c_prev h) (c_last hn) u false (c_len h + c_len hn));
  mg_next : c_last hn = false → ∀ h2, C !! (a + c_len h + c_len hn) = Some h2 →
    C' !! (a + c_len h + c_len hn) = Some (upd_prev (c_len h + c_len hn) h2);
  mg_other : ∀ x, x ≠ a → x ≠ a + c_len h →
    (c_last hn = false → x ≠ a + c_len h + c_len hn) → C' !! x = C !! x
}.

Section Merge.
Context (G : gmap Z Z) (C C' : headers) (a b : Z) (h hn : wmem_block_chunk_t) (u : bool).
Context (H : layout os G C) (HG : G !! a = Some b) (HC : C !! a = Some h).
Context (Hl : c_last h = false) (HCn : C !! (a + c_len h) = Some hn).
Context (Hmg : merge_at C C' a h hn u).

Lemma merge_facts :
  G !! (a + c_len h) = Some b ∧ c_prev hn = c_len h ∧ chunk_ok G C a b h ∧
  chunk_ok G C (a + c_len h) b hn.
Proof.
  destruct (layout_next _ _ _ _ _ H HG HC Hl) as (hn' & ? & ? & ? & ?). simplify_eq.
  split_and!; try done. by apply (layout_at _ _ _ _ _ H).
Qed.

Lemma merge_ok1 :
  chunk_ok (delete (a + c_len h) G) C' a b
    (Chunk (c_prev h) (c_last hn) u false (c_len h + c_len hn)).
Proof.
  pose proof Hmg as [H1 H2 H3].
  destruct merge_facts as (HGn & HPn & [? ? ? ? ? ? _ Hp] & [? ? ? ? ? ? Hn _]).
  split; cbn [c_prev c_last c_used c_jumbo c_len]; try done; try lia; try dlia.
  - destruct (c_last hn) eqn:E; [lia|]. destruct Hn as (h2 & G1 & C1 & P1).
    rewrite Z.add_assoc. exists (upd_prev (c_len h + c_len hn) h2).
    rewrite lookup_delete_ne by lia. by rewrite (H2 eq_refl _ C1).
  - destruct (c_prev h =? 0) eqn:E; [done|]. b2p. destruct Hp as (hp & G1 & C1 & L1 & L2).
    pose proof (layout_at _ _ _ _ _ H G1 C1) as [? ? ? ? ? ? _ _].
    exists hp. rewrite lookup_delete_ne by lia. rewrite H3; [done|lia..].
Qed.

(** The successor of an unchanged chunk. *)
Lemma merge_next x y hx :
  G !! x = Some y → C !! x = Some hx → x ≠ a → x ≠ a + c_len h → c_last hx = false →
  ∃ h2, delete (a + c_len h) G !! (x + c_len hx) = Some y ∧ C' !! (x + c_len hx) = Some h2 ∧
        c_prev h2 = c_len hx.
Proof.
  intros HGx HCx Hxa Hxn Hlx. pose proof Hmg as [H1 H2 H3].
  destruct merge_facts as (HGn & HPn & _ & Hokn).
  destruct (layout_next _ _ _ _ _ H HGx HCx Hlx) as (h2 & G1 & C1 & P1 & _).
  rewrite lookup_delete_ne by (intros E; rewrite <- E in C1; simplify_eq; lia).
  destruct (decide (x + c_len hx = a)) as [E|E].
  - rewrite E in *. eexists. split; [done|]. split; [done|]. by simplify_eq.
  - exists h2. rewrite H3; [done|done| |].
    + intros E'. rewrite E' in C1. simplify_eq. lia.
    + intros El E'. destruct (layout_next _ _ _ _ _ H HGn HCn El) as (h3 & _ & C2 & P2 & _).
      rewrite E' in C1. simplify_eq. lia.
Qed.

(** An old chunk. *)
Lemma merge_ok2 x y hx hx' :
  G !! x = Some y → C !! x = Some hx → x ≠ a → x ≠ a + c_len h →
  (c_last hn = false ∧ x = a + c_len h + c_len hn ∧ hx' = upd_prev (c_len h + c_len hn) hx) ∨
  ((c_last hn = false → x ≠ a + c_len h + c_len hn) ∧ hx' = hx) →
  chunk_ok (delete (a + c_len h) G) C' x y hx'.
Proof.
  intros HGx HCx Hxa Hxn Hor. pose proof Hmg as [H1 H2 H3].
  destruct merge_facts as (HGn & HPn & [? ? ? ? ? ? _ _] & [? ? ? ? ? ? Hnn _]).
  pose proof (layout_at _ _ _ _ _ H HGx HCx) as [? ? ? ? ? ? Hn Hp].
  assert (if c_last hx then x + c_len hx = y + 8388608 else
    ∃ h2, delete (a + c_len h) G !! (x + c_len hx) = Some y ∧ C' !! (x + c_len hx) = Some h2 ∧
          c_prev h2 = c_len hx) as Hn'
    by (destruct (c_last hx) eqn:E; [done|by apply merge_next]).
  destruct Hor as [(Hln & -> & ->)|[Hne ->]]; (split; [done..|]).
  - cbn [upd_prev c_prev c_last c_used c_jumbo c_len].
    rewrite (proj2 (Z.eqb_neq (c_len h + c_len hn) 0)) by lia.
    replace (a + c_len h + c_len hn - (c_len h + c_len hn)) with a by lia.
    rewrite Hln in Hnn. destruct Hnn as (h2 & G2 & _). simplify_eq.
    eexists. rewrite lookup_delete_ne by lia. split; [done|]. split; [done|]. done.
  - destruct (c_prev hx =? 0) eqn:E; [done|]. b2p. destruct Hp as (hp & G1 & C1 & L1 & L2).
    assert (x - c_prev hx ≠ a) by (intros Ea; rewrite Ea in C1; simplify_eq; lia).
    assert (x - c_prev hx ≠ a + c_len h).
    { intros Ea. rewrite Ea in C1. simplify_eq. apply (Hne L2). lia. }
    rewrite lookup_delete_ne by done.
    destruct (decide (c_last hn = false ∧ x - c_prev hx = a + c_len h + c_len hn)) as [[El El']|El].
    + exists (upd_prev (c_len h + c_len hn) hp). rewrite El' in *. by rewrite (H2 El hp C1).
    + exists hp. rewrite H3; [done..|]. intros ? ?. by apply El.
Qed.

(** Every chunk of the new layout. *)
Lemma merge_chunks x y :
  delete (a + c_len h) G !! x = Some y →
  (x = a ∧ y = b) ∨
  (x ≠ a ∧ x ≠ a + c_len h ∧ G !! x = Some y ∧ ∃ hx, C !! x = Some hx ∧ 16 <= c_len hx ∧
   (x + c_len hx <= a ∨ a + c_len h + c_len hn <= x) ∧
   ((c_last hn = false ∧ x = a + c_len h + c_len hn ∧
     C' !! x = Some (upd_prev (c_len h + c_len hn) hx)) ∨
    ((c_last hn = false → x ≠ a + c_len h + c_len hn) ∧ C' !! x = Some hx))).
Proof.
  intros HGx. pose proof Hmg as [H1 H2 H3].
  destruct merge_facts as (HGn & HPn & [? ? ? ? ? ? _ _] & [? ? ? ? ? ? _ _]).
  apply lookup_delete_Some in HGx as [Hxn HGx]. destruct (decide (x = a)) as [->|Hxa].
  { left. by simplify_eq. }
  right. destruct (ly_chunk _ _ _ H x y HGx) as (hx & HCx & Hok).
  split; [done|]. split; [done|]. split; [done|]. exists hx. split; [done|].
  split; [apply (ck_len _ _ _ _ _ Hok)|]. pose proof (ck_len _ _ _ _ _ Hok). split.
  { destruct (layout_apart _ _ _ _ _ _ _ _ H HGx HG HCx HC), 
      (layout_apart _ _ _ _ _ _ _ _ H HGx HGn HCx HCn); lia. }
  destruct (decide (c_last hn = false ∧ x = a + c_len h + c_len hn)) as [[Hln ->]|Hn].
  - left. split; [done|]. split; [done|]. by apply H2.
  - right. split; [intros ? ->; by apply Hn|]. rewrite H3; [done..|].
    intros ? ->. by apply Hn.
Qed.

Lemma layout_merge : layout os (delete (a + c_len h) G) C'.
Proof.
  pose proof Hmg as [H1 H2 H3].
  destruct merge_facts as (HGn & HPn & [? ? ? ? ? ? _ _] & [? ? ? ? ? ? _ _]).
  pose proof merge_chunks as Hx. split.
  - intros x y HGx. destruct (Hx x y HGx) as [[-> ->]|(Hxa & Hxs & G1 & hx & C1 & _ & _ & Hor)].
    + eexists. split; [done|]. apply merge_ok1.
    + destruct Hor as [(? & ? & ?)|[? ?]]; eexists; (split; [done|]); eapply merge_ok2; eauto 10.
  - intros x y HGx. destruct (Hx x y HGx) as [[-> ->]|(_ & _ & G1 & _)];
      by eapply (ly_block _ _ _ H).
  - intros x y HGx. assert (G !! (y + 16) = Some y ∧ y + 16 ≠ a + c_len h) as [E E'].
    { assert (G !! (y + 16) = Some y) as E.
      { destruct (Hx x y HGx) as [[-> ->]|(_ & _ & G1 & _)]; by eapply (ly_first _ _ _ H). }
      split; [done|]. intros E'. rewrite E' in E. simplify_eq. lia. }
    by rewrite lookup_delete_ne.
  - intros x x' y y' hx hx' HGx HGx' HCx HCx' Hlt.
    destruct (Hx _ _ HGx) as [[-> ->]|(? & ? & G1 & h1 & C1 & ? & ? & Hor1)];
    destruct (Hx _ _ HGx') as [[-> ->]|(? & ? & G2 & h2 & C2 & ? & ? & Hor2)];
    simplify_eq; cbn [c_len].
    + lia.
    + lia.
    + assert (c_len hx = c_len h1) as -> by (destruct Hor1 as [(? & ? & E)|[? E]];
        rewrite E in HCx; by simplify_eq). lia.
    + assert (c_len hx = c_len h1) as -> by (destruct Hor1 as [(? & ? & E)|[? E]];
        rewrite E in HCx; by simplify_eq). by eapply (ly_disj _ _ _ H).
Qed.
End Merge.

(** A new block with one chunk. *)
Lemma layout_new G C C' b u :
  layout os G C → os_ok ((b, 8388608) :: os) → (∀ n, (b, n) ∉ os) →
  C' !! (b + 16) = Some (Chunk 0 true u false 8388592) →
  (∀ x, is_Some (G !! x) → C' !! x = C !! x) →
  layout ((b, 8388608) :: os) (<[b + 16 := b]> G) C'.
Proof.
  intros H Hos' Hb HC Hx.
  destruct (os_range _ Hos' b 8388608) as (? & ? & ? & ?); [set_solver|].
  assert (∀ a y h, G !! a = Some y → C !! a = Some h → 16 <= c_len h ∧
    (b + 8388608 <= a ∨ a + c_len h <= b)) as Hd.
  { intros a y h HG HCa. pose proof (layout_at _ _ _ _ _ H HG HCa) as [? ? ? ? ? ? _ _].
    split; [done|]. pose proof (ly_block _ _ _ H _ _ HG) as Hin.
    destruct (os_disj _ Hos' b 8388608 y 8388608) as [[-> _]|?]; [set_solver..| |lia].
    exfalso. by apply (Hb 8388608). }
  assert (∀ a y, G !! a = Some y → a ≠ b + 16) as Hne.
  { intros a y HG ->. destruct (ly_chunk _ _ _ H _ _ HG) as (h & HCa & _).
    destruct (Hd _ _ _ HG HCa). lia. }
  assert (∀ a y, <[b + 16 := b]> G !! a = Some y → (a = b + 16 ∧ y = b) ∨ G !! a = Some y) as Hc.
  { intros a y. destruct (decide (a = b + 16)) as [->|?];
      [rewrite lookup_insert_eq|rewrite lookup_insert_ne by done]; naive_solver. }
  assert (∀ a y, G !! a = Some y → <[b + 16 := b]> G !! a = Some y) as Hk.
  { intros a y HG. rewrite lookup_insert_ne; [done|]. intros <-. by eapply Hne. }
  split.
  - intros a y [[-> ->]|HG]%Hc.
    + eexists. split; [done|]. split; cbn; try done; try lia; dlia.
    + destruct (ly_chunk _ _ _ H _ _ HG) as (h & HCa & [? ? ? ? ? ? Hn Hp]).
      exists h. rewrite Hx by (by eexists). split; [done|]. split; try done.
      * destruct (c_last h); [done|]. destruct Hn as (hn & G1 & ? & ?). exists hn.
        rewrite Hx by (by eexists). auto.
      * destruct (_ =? 0); [done|]. destruct Hp as (hp & G1 & ? & ?). exists hp.
        rewrite Hx by (by eexists). auto.
  - intros a y [[-> ->]|HG]%Hc; [set_solver|]. apply (ly_block _ _ _ H) in HG. set_solver.
  - intros a y [[-> ->]|HG]%Hc; [apply lookup_insert_eq|]. apply Hk. by eapply (ly_first _ _ _ H).
  - intros a a' y y' h h' [[-> ->]|HG]%Hc [[-> ->]|HG']%Hc HCa HCa' Hlt; [lia|..].
    + rewrite Hx in HCa' by (by eexists). destruct (Hd _ _ _ HG' HCa').
      simplify_eq. cbn. lia.
    + rewrite Hx in HCa by (by eexists). destruct (Hd _ _ _ HG HCa). lia.
    + rewrite Hx in HCa, HCa' by (by eexists). by eapply (ly_disj _ _ _ H).
Qed.

(** ** Free neighbours *)

Lemma layout_pos G C a b : layout os G C → G !! a = Some b → 16 < a.
Proof.
  intros H HG. destruct (layout_range _ _ _ _ H HG).
  destruct (ly_chunk _ _ _ H _ _ HG) as (h & _ & [? ? ? ? ? ? _ _]). lia.
Qed.

Lemma coalesced_weaken x G C : layout os G C → coalesced 0 G C → coalesced x G C.
Proof.
  intros H Hc a b h hn HG HC Hl HCn _ _. destruct (layout_next _ _ _ _ _ H HG HC Hl) as (? & HGn & _).
  pose proof (layout_pos _ _ _ _ H HG). pose proof (layout_pos _ _ _ _ H HGn).
  apply (Hc a b h hn); (done || lia).
Qed.

(** The flags of [x] do not matter. *)
Lemma coalesced_same x G C C' :
  layout os G C → (∀ y, is_Some (G !! y) → y ≠ x → C' !! y = C !! y) →
  coalesced x G C → coalesced x G C'.
Proof.
  intros H Hs Hc a b h hn HG HC Hl HCn Hax Hnx. rewrite Hs in HC by (done || by eexists).
  destruct (layout_next _ _ _ _ _ H HG HC Hl) as (? & HGn & _).
  rewrite Hs in HCn by (done || by eexists). by apply (Hc a b h hn).
Qed.

(** [x] is used, or has no free neighbours. *)
Lemma coalesced_strengthen x b h G C :
  layout os G C → coalesced x G C → G !! x = Some b → C !! x = Some h →
  c_used h = true ∨
  ((c_last h = false → ∀ hn, C !! (x + c_len h) = Some hn → c_used hn = true) ∧
   (c_prev h ≠ 0 → ∀ hp, C !! (x - c_prev h) = Some hp → c_used hp = true)) →
  coalesced 0 G C.
Proof.
  intros H Hc HG HC Hor a y ha hn HGa HCa Hl HCn _ _.
  destruct (decide (a = x)) as [->|Hax]; [simplify_eq; naive_solver|].
  destruct (decide (a + c_len ha = x)) as [E|Hnx]; [|by eapply Hc]. subst x. simplify_eq.
  destruct Hor as [?|[_ Hp]]; [by right|]. left.
  destruct (layout_next _ _ _ _ _ H HGa HCa Hl) as (hn & _ & ? & Hpn & _). simplify_eq.
  pose proof (layout_at _ _ _ _ _ H HGa HCa) as [? ? ? ? ? ? _ _].
  apply Hp; [lia|]. rewrite Hpn. by replace (a + c_len ha - c_len ha) with a by lia.
Qed.

Lemma coalesced_merge G C C' a b h hn u x :
  layout os G C → G !! a = Some b → C !! a = Some h → c_last h = false →
  C !! (a + c_len h) = Some hn → merge_at C C' a h hn u →
  coalesced x G C → x = a ∨ x = a + c_len h →
  coalesced a (delete (a + c_len h) G) C'.
Proof.
  intros H HG HC Hl HCn Hmg Hco Hx z y hz hzn HGz HCz Hlz HCzn Hza Hzn.
  pose proof (merge_chunks _ _ _ _ _ _ _ _ H HG HC Hl HCn Hmg) as Hch.
  pose proof (layout_merge _ _ _ _ _ _ _ _ H HG HC Hl HCn Hmg) as H'.
  destruct (layout_next _ _ _ _ _ H' HGz HCz Hlz) as (hzn' & HGzn & HCzn' & _). simplify_eq.
  assert (∀ z y hz, delete (a + c_len h) G !! z = Some y → C' !! z = Some hz → z ≠ a →
    z ≠ a + c_len h ∧ G !! z = Some y ∧ ∃ hz0, C !! z = Some hz0 ∧ c_last hz0 = c_last hz ∧
    c_used hz0 = c_used hz ∧ c_len hz0 = c_len hz) as Hold.
  { clear -Hch. intros z y hz HGz HCz Hza.
    destruct (Hch z y HGz) as [[? _]|(_ & ? & ? & hz0 & ? & _ & _ & Hor)]; [done|].
    split; [done|]. split; [done|]. exists hz0.
    destruct Hor as [(_ & _ & E)|[_ E]]; rewrite E in HCz; by simplify_eq. }
  destruct (Hold _ _ _ HGz HCz Hza) as (? & G1 & hz0 & C1 & E1 & E2 & E3).
  destruct (Hold _ _ _ HGzn HCzn Hzn) as (? & G2 & hzn0 & C2 & E4 & E5 & E6).
  rewrite <- E2, <- E5. apply (Hco z y hz0 hzn0); rewrite ?E3; (congruence || naive_solver).
Qed.

(** After a split, with the first part exempt, or the second one. *)
Lemma coalesced_split G C C' a b s h u1 u2 x :
  layout os G C → G !! a = Some b → C !! a = Some h → 16 <= s → s mod 16 = 0 →
  s + 16 <= c_len h → split_at C C' a s h u1 u2 → coalesced 0 G C →
  (x = a ∧ (c_last h = false → ∀ hn, C !! (a + c_len h) = Some hn → c_used hn = true)) ∨
  (x = a + s ∧ u1 = true) →
  coalesced x (<[a + s := b]> G) C'.
Proof.
  intros H HG HC Hs Hs16 Hs' Hsp Hco Hx z y hz hzn HGz HCz Hlz HCzn Hza Hzn.
  pose proof (layout_split _ _ _ _ _ _ _ _ _ H HG HC Hs16 Hs Hs' Hsp) as H'.
  destruct (layout_next _ _ _ _ _ H' HGz HCz Hlz) as (hzn' & HGzn & HCzn' & Hpzn & _). simplify_eq.
  assert (0 < s < c_len h) as Hs2 by lia.
  pose proof (fun x y => split_chunks _ _ _ _ _ _ _ _ _ x y H HG HC Hs2 Hsp) as Hch.
  pose proof Hsp as [S1 S2 S3 S4].
  assert (∀ z y hz, <[a + s := b]> G !! z = Some y → C' !! z = Some hz → z ≠ a → z ≠ a + s →
    G !! z = Some y ∧ ∃ hz0, C !! z = Some hz0 ∧ c_last hz0 = c_last hz ∧
    c_used hz0 = c_used hz ∧ c_len hz0 = c_len hz) as Hold.
  { clear -Hch. intros z y hz HGz HCz Hza Hzs.
    destruct (Hch z y HGz) as [[? _]|[[? _]|(_ & _ & ? & hz0 & ? & _ & Hor)]]; [done..|].
    split; [done|]. exists hz0.
    destruct Hor as [(_ & _ & _ & E)|[_ E]]; rewrite E in HCz; by simplify_eq. }
  destruct (decide (z = a)) as [->|Hza'].
  { destruct Hx as [[-> _]|[-> _]]; [done|]. simplify_eq. }
  destruct (decide (z = a + s)) as [->|Hzs].
  { destruct Hx as [[-> Hu]|[-> _]]; [|done]. simplify_eq. cbn [c_last c_len c_used] in *. right.
    replace (a + s + (c_len h - s)) with (a + c_len h) in * by lia.
    destruct (layout_next _ _ _ _ _ H HG HC Hlz) as (hn & _ & HCn & _).
    rewrite (S3 Hlz _ HCn) in HCzn. simplify_eq. cbn. by apply Hu. }
  destruct (Hold _ _ _ HGz HCz Hza' Hzs) as (G1 & hz0 & C1 & E1 & E2 & E3).
  destruct (decide (z + c_len hz = a)) as [Ea|Hna].
  { destruct Hx as [[-> _]|[-> ->]]; [by rewrite Ea in Hzn|]. rewrite Ea in HCzn.
    simplify_eq. by right. }
  assert (z + c_len hz ≠ a + s) as Hns.
  { rewrite <- E3. destruct (layout_next _ _ _ _ _ H G1 C1 ltac:(congruence)) as (? & G2 & _).
    intros E. rewrite E in G2. by rewrite (layout_inside _ _ _ _ _ s H HG HC ltac:(lia)) in G2. }
  destruct (Hold _ _ _ HGzn HCzn Hna Hns) as (G2 & hzn0 & C2 & E4 & E5 & E6).
  rewrite <- E2, <- E5. pose proof (layout_pos _ _ _ _ H G1). pose proof (layout_pos _ _ _ _ H G2).
  apply (Hco z y hz0 hzn0); rewrite ?E3; (congruence || lia).
Qed.
End Layout.
