(* ===== verification/WmemHeap.v ===== *)
(** * The invariant of the heap and the operations on chunks

    [heap_ok] joins the layout of the chunks with the free lists: the lists hold
    exactly the free chunks that are large enough for the two pointers, and the
    chunks of the master list are the last ones of their blocks.  It is kept by
    [wmem_block_merge_free], [wmem_block_split_free_chunk],
    [wmem_block_split_used_chunk] and [wmem_block_new_block]. *)

From stdpp Require Import base numbers gmap list.
From S2P Require Import Prelude CMem Words DList WmemBlock WmemLists WmemLayout.
Open Scope Z_scope.
#[local] Set Warnings "-clear-no-such-hyp".

(** ** Chunks by their flag and length *)

Definition has (G : gmap Z Z) (C : headers) (z : Z) (u : bool) (n : Z) : Prop :=
  ∃ b h, G !! z = Some b ∧ C !! z = Some h ∧ c_used h = u ∧ c_len h = n.

(** The free chunks that are in a list. *)
Definition listed (G : gmap Z Z) (C : headers) (z : Z) : Prop := ∃ n, has G C z false n ∧ 24 <= n.

(** The [prev] field of the successor of the chunk at [a], corrected. *)
Definition fix_next (C : headers) (a : Z) : headers :=
  match C !! a with
  | Some h => if c_last h then C else alter (upd_prev (c_len h)) (a + c_len h) C
  | None => C
  end.

Section Has.
Context (os : list (Z * Z)) (Hos : os_ok os).
Implicit Types (G : gmap Z Z) (C : headers).

Lemma has_fun G C z u n u' n' : has G C z u n → has G C z u' n' → u = u' ∧ n = n'.
Proof. intros (b & h & ? & ? & ? & ?) (b' & h' & ? & ? & ? & ?). by simplify_eq. Qed.

Lemma has_same G C C' z u n :
  C' !! z = C !! z → has G C' z u n ↔ has G C z u n.
Proof. unfold has. by intros ->. Qed.

Lemma has_merge G C C' a b h hn u z uz n :
  layout os G C → G !! a = Some b → C !! a = Some h → c_last h = false →
  C !! (a + c_len h) = Some hn → merge_at C C' a h hn u →
  has (delete (a + c_len h) G) C' z uz n ↔
  (z = a ∧ uz = u ∧ n = c_len h + c_len hn) ∨ (z ≠ a ∧ z ≠ a + c_len h ∧ has G C z uz n).
Proof.
  intros H HG HC Hl HCn Hmg.
  pose proof (merge_chunks _ _ _ _ _ _ _ _ _ H HG HC Hl HCn Hmg) as Hch.
  pose proof (WmemLayout.ck_len _ _ _ _ _ (layout_at _ _ _ _ _ _ H HG HC)).
  split.
  - intros (y & hz & HGz & HCz & <- & <-).
    destruct (Hch z y HGz) as [[-> ->]|(? & ? & ? & hz0 & ? & _ & _ & Hor)].
    + left. rewrite (mg_first _ _ _ _ _ _ Hmg) in HCz. by simplify_eq.
    + right. split; [done|]. split; [done|]. exists y, hz0.
      destruct Hor as [(_ & _ & E)|[_ E]]; rewrite E in HCz; by simplify_eq.
  - intros [(-> & -> & ->)|(Hza & Hzn & y & hz & HGz & HCz & <- & <-)].
    + eexists b, _. split; [|split; [apply (mg_first _ _ _ _ _ _ Hmg)|done]].
      rewrite lookup_delete_ne by lia. done.
    + assert (delete (a + c_len h) G !! z = Some y) as HGz' by (by rewrite lookup_delete_ne).
      destruct (Hch z y HGz') as [[-> _]|(_ & _ & _ & hz0 & ? & _ & _ & Hor)]; [done|].
      simplify_eq. destruct Hor as [(_ & _ & E)|[_ E]]; by eexists _, _.
Qed.

Lemma has_split G C C' a b s h u1 u2 z uz n :
  layout os G C → G !! a = Some b → C !! a = Some h → 16 <= s → s mod 16 = 0 →
  s + 16 <= c_len h → split_at C C' a s h u1 u2 →
  has (<[a + s := b]> G) C' z uz n ↔
  (z = a ∧ uz = u1 ∧ n = s) ∨ (z = a + s ∧ uz = u2 ∧ n = c_len h - s) ∨ (z ≠ a ∧ has G C z uz n).
Proof.
  intros H HG HC Hs Hs16 Hs' Hsp. assert (0 < s < c_len h) as Hs2 by lia.
  pose proof (fun x y => split_chunks _ _ _ _ _ _ _ _ _ _ x y H HG HC Hs2 Hsp) as Hch.
  pose proof (layout_inside _ _ _ _ _ _ s H HG HC Hs2) as Hin. split.
  - intros (y & hz & HGz & HCz & <- & <-).
    destruct (Hch z y HGz) as [[-> ->]|[[-> ->]|(? & ? & ? & hz0 & ? & _ & Hor)]].
    + right. left. rewrite (sp_second _ _ _ _ _ _ _ Hsp) in HCz. by simplify_eq.
    + left. rewrite (sp_first _ _ _ _ _ _ _ Hsp) in HCz. by simplify_eq.
    + right. right. split; [done|]. exists y, hz0.
      destruct Hor as [(_ & _ & _ & E)|[_ E]]; rewrite E in HCz; by simplify_eq.
  - intros [(-> & -> & ->)|[(-> & -> & ->)|(Hza & y & hz & HGz & HCz & <- & <-)]].
    + eexists b, _. split; [|split; [apply (sp_first _ _ _ _ _ _ _ Hsp)|done]].
      rewrite lookup_insert_ne by lia. done.
    + eexists b, _. split; [|split; [apply (sp_second _ _ _ _ _ _ _ Hsp)|done]].
      apply lookup_insert_eq.
    + assert (z ≠ a + s) by congruence.
      assert (<[a + s := b]> G !! z = Some y) as HGz' by (by rewrite lookup_insert_ne).
      destruct (Hch z y HGz') as [[-> _]|[[-> _]|(_ & _ & _ & hz0 & ? & _ & Hor)]]; [done..|].
      simplify_eq. destruct Hor as [(_ & _ & _ & E)|[_ E]]; by eexists _, _.
Qed.

(** ** [fix_next] *)

Lemma fix_next_ne C a h x :
  C !! a = Some h → (c_last h = false → x ≠ a + c_len h) → fix_next C a !! x = C !! x.
Proof.
  intros HC Hx. unfold fix_next. rewrite HC. destruct (c_last h) eqn:E; [done|].
  rewrite lookup_alter_ne; [done|]. intros <-. by apply Hx.
Qed.

Lemma fix_next_eq C a h hn :
  C !! a = Some h → c_last h = false → C !! (a + c_len h) = Some hn →
  fix_next C a !! (a + c_len h) = Some (upd_prev (c_len h) hn).
Proof.
  intros HC Hl HCn. unfold fix_next. rewrite HC, Hl, lookup_alter_eq, HCn. done.
Qed.

(** In a layout there is nothing to correct. *)
Lemma fix_next_layout G C a b :
  layout os G C → G !! a = Some b → fix_next C a = C.
Proof.
  intros H HG. destruct (ly_chunk _ _ _ H _ _ HG) as (h & HC & _).
  unfold fix_next. rewrite HC. destruct (c_last h) eqn:Hl; [done|].
  destruct (layout_next _ _ _ _ _ _ H HG HC Hl) as (hn & _ & HCn & Hp & _).
  apply map_eq. intros x. destruct (decide (x = a + c_len h)) as [->|?].
  - rewrite lookup_alter_eq, HCn. simpl. f_equal. destruct hn. unfold upd_prev. by simpl in *; subst.
  - by rewrite lookup_alter_ne.
Qed.

(** The chunk itself is not its successor. *)
Lemma fix_next_self G C a b h :
  layout os G (fix_next C a) → G !! a = Some b → C !! a = Some h → fix_next C a !! a = Some h.
Proof.
  intros H HG HC. destruct (ly_chunk _ _ _ H _ _ HG) as (h' & HV & Hok).
  pose proof (ck_len _ _ _ _ _ Hok). unfold fix_next in *. rewrite HC in *.
  destruct (c_last h); [done|].
  destruct (decide (a = a + c_len h)) as [E|?]; [|by rewrite lookup_alter_ne].
  rewrite <- E in HV. rewrite lookup_alter_eq, HC in HV. simpl in HV. simplify_eq.
  simpl in *. lia.
Qed.

(** Merging without correcting, and correcting afterwards. *)
Lemma merge_fix G C a b h hn u y :
  layout os G (fix_next C y) → G !! a = Some b → C !! a = Some h → c_last h = false →
  C !! (a + c_len h) = Some hn → y = a ∨ y = a + c_len h → 16 <= c_len h → 16 <= c_len hn →
  let hn' := if decide (y = a) then upd_prev (c_len h) hn else hn in
  fix_next C y !! a = Some h ∧ fix_next C y !! (a + c_len h) = Some hn' ∧
  merge_at (fix_next C y)
    (fix_next (<[a := Chunk (c_prev h) (c_last hn) u false (c_len h + c_len hn)]> C) a) a h hn' u.
Proof.
  intros H HG HC Hl HCn Hy Hlen Hlen' hn'. set (C2 := <[a := _]> C).
  assert (C2 !! a = Some (Chunk (c_prev h) (c_last hn) u false (c_len h + c_len hn))) as HC2
    by apply lookup_insert_eq.
  assert (c_last hn' = c_last hn) as El by (unfold hn'; by destruct (decide _)).
  assert (c_len hn' = c_len hn) as En by (unfold hn'; by destruct (decide _)).
  assert (fix_next C y !! a = Some h) as E1.
  { destruct Hy as [->| ->]; [rewrite (fix_next_ne _ _ h)|rewrite (fix_next_ne _ _ hn)]; auto; lia. }
  assert (fix_next C y !! (a + c_len h) = Some hn') as E2.
  { unfold hn'. destruct Hy as [->| ->].
    - rewrite decide_True by done. by apply fix_next_eq.
    - rewrite decide_False by lia. rewrite (fix_next_ne _ _ hn); auto; lia. }
  split; [done|]. split; [done|]. split; rewrite ?El, ?En.
  - rewrite (fix_next_ne _ _ _ _ HC2); [done|]. cbn. lia.
  - intros Hln h2 Hh2. rewrite <- Z.add_assoc.
    assert (∃ h2', C !! (a + (c_len h + c_len hn)) = Some h2' ∧
      upd_prev (c_len h + c_len hn) h2' = upd_prev (c_len h + c_len hn) h2) as (h2' & C3 & <-).
    { rewrite <- Z.add_assoc in Hh2. destruct Hy as [->| ->].
      - rewrite (fix_next_ne _ _ h) in Hh2 by (done || lia). eauto.
      - unfold fix_next in Hh2. rewrite HCn, Hln, Z.add_assoc, lookup_alter_eq in Hh2.
        rewrite Z.add_assoc. destruct (C !! (a + c_len h + c_len hn)) as [h3|]; [|done].
        simpl in Hh2. simplify_eq. eauto. }
    apply (fix_next_eq C2 a _ h2' HC2 Hln). cbn [c_len].
    unfold C2. rewrite lookup_insert_ne by lia. done.
  - intros x Hxa Hxn Hxe. rewrite (fix_next_ne _ _ _ _ HC2).
    + unfold C2. rewrite lookup_insert_ne by done. symmetry.
      destruct Hy as [->| ->]; [by rewrite (fix_next_ne _ _ h)|by rewrite (fix_next_ne _ _ hn)].
    + cbn. intros Hln. rewrite Z.add_assoc. by apply Hxe.
Qed.
End Has.

(** ** What an operation on chunks leaves alone

    The used chunks, that at [w] apart; the memory that belongs to chunks, and
    the headers outside of it (those of jumbo blocks); which blocks there are. *)
Definition covered (G : gmap Z Z) (C : headers) (z : Z) : Prop :=
  ∃ a u n, has G C a u n ∧ a <= z < a + n.

Record evol (w : Z) (G : gmap Z Z) (C : headers) (G' : gmap Z Z) (C' : headers) : Prop := {
  ev_used : ∀ z n, z ≠ w → has G C z true n ↔ has G' C' z true n;
  ev_cover : ∀ z, covered G C z ↔ covered G' C' z;
  ev_out : ∀ z, ¬ covered G C z → C' !! z = C !! z;
  ev_first : ∀ b, G !! (b + 16) = Some b ↔ G' !! (b + 16) = Some b
}.

Lemma evol_refl w G C : evol w G C G C.
Proof. by split. Qed.

Lemma evol_trans w G C G' C' G'' C'' :
  evol w G C G' C' → evol w G' C' G'' C'' → evol w G C G'' C''.
Proof.
  intros [A1 A2 A3 A4] [B1 B2 B3 B4]. split.
  - intros z n Hz. by rewrite A1, B1.
  - intros z. by rewrite A2.
  - intros z Hz. rewrite B3 by (by rewrite <- A2). by apply A3.
  - intros b. by rewrite A4.
Qed.

Section Evol.
Context (os : list (Z * Z)) (Hos : os_ok os).

Lemma evol_merge w G C C' a b h hn u :
  layout os G C → G !! a = Some b → C !! a = Some h → c_last h = false →
  C !! (a + c_len h) = Some hn → merge_at C C' a h hn u → c_used hn = false →
  w = a ∨ (c_used h = false ∧ u = false) →
  evol w G C (delete (a + c_len h) G) C'.
Proof.
  intros H HG HC Hl HCn Hmg Hun Hw.
  destruct (layout_next _ _ _ _ _ _ H HG HC Hl) as (hn' & HGn & ? & _ & [? ? ? ? ? ? Hnn _]).
  simplify_eq. pose proof (layout_at _ _ _ _ _ _ H HG HC) as [? ? ? ? ? ? _ _].
  pose proof (fun z uz n => has_merge os _ _ _ _ _ _ _ _ z uz n H HG HC Hl HCn Hmg) as Hh.
  assert (has G C a (c_used h) (c_len h)) as Ha by (by eexists _, _).
  assert (has G C (a + c_len h) false (c_len hn)) as Hn by (by eexists _, _).
  split.
  - intros z n Hz. rewrite Hh. split.
    + intros Hz'. right. split; [|split; [|done]]; intros ->.
      * destruct Hw as [?|[? _]]; [done|]. destruct (has_fun _ _ _ _ _ _ _ Ha Hz'). congruence.
      * by destruct (has_fun _ _ _ _ _ _ _ Hn Hz').
    + intros [(-> & <- & _)|(_ & _ & ?)]; [|done]. by destruct Hw as [->|[_ ?]].
  - intros z. split.
    + intros (x & ux & n & Hx & Hr). destruct (decide (x = a)) as [->|?].
      { destruct (has_fun _ _ _ _ _ _ _ Ha Hx) as [_ <-].
        exists a, u, (c_len h + c_len hn). rewrite Hh. split; [by left|lia]. }
      destruct (decide (x = a + c_len h)) as [->|?].
      { destruct (has_fun _ _ _ _ _ _ _ Hn Hx) as [_ <-].
        exists a, u, (c_len h + c_len hn). rewrite Hh. split; [by left|lia]. }
      exists x, ux, n. rewrite Hh. auto.
    + intros (x & ux & n & [(-> & -> & ->)|(_ & _ & Hx)]%Hh & Hr); [|by exists x, ux, n].
      destruct (decide (z < a + c_len h)); [exists a, (c_used h), (c_len h)|
        exists (a + c_len h), false, (c_len hn)]; (split; [done|lia]).
  - intros z Hz. rewrite (mg_other _ _ _ _ _ _ Hmg); [done|..].
    + intros ->. apply Hz. eexists a, _, _. split; [done|lia].
    + intros ->. apply Hz. eexists _, _, _. split; [done|lia].
    + intros Hln ->. apply Hz. rewrite Hln in Hnn. destruct Hnn as (h2 & G2 & C2 & _).
      pose proof (WmemLayout.ck_len _ _ _ _ _ (layout_at _ _ _ _ _ _ H G2 C2)).
      exists (a + c_len h + c_len hn), (c_used h2), (c_len h2). split; [by eexists _, _|lia].
  - intros y. destruct (decide (y + 16 = a + c_len h)) as [E|?]; [|by rewrite lookup_delete_ne].
    rewrite E, lookup_delete_eq. split; [|done]. intros ?. simplify_eq. lia.
Qed.

Lemma evol_split w G C C' a b s h u1 :
  layout os G C → G !! a = Some b → C !! a = Some h → 16 <= s → s mod 16 = 0 →
  s + 16 <= c_len h → split_at C C' a s h u1 false →
  w = a ∨ (c_used h = false ∧ u1 = false) →
  evol w G C (<[a + s := b]> G) C'.
Proof.
  intros H HG HC Hs Hs16 Hs' Hsp Hw. pose proof (layout_at _ _ _ _ _ _ H HG HC) as [? ? ? ? ? ? Hn _].
  pose proof (fun z uz n => has_split os _ _ _ _ _ _ _ _ _ z uz n H HG HC Hs Hs16 Hs' Hsp) as Hh.
  assert (has G C a (c_used h) (c_len h)) as Ha by (by eexists _, _).
  pose proof (layout_inside _ _ _ _ _ _ s H HG HC ltac:(lia)) as Hin.
  split.
  - intros z n Hz. rewrite Hh. split.
    + intros Hz'. right. right. split; [|done]; intros ->.
      destruct Hw as [?|[? _]]; [done|]. destruct (has_fun _ _ _ _ _ _ _ Ha Hz'). congruence.
    + intros [(-> & <- & _)|[(_ & ? & _)|(_ & ?)]]; [|done..]. by destruct Hw as [->|[_ ?]].
  - intros z. split.
    + intros (x & ux & n & Hx & Hr). destruct (decide (x = a)) as [->|?].
      { destruct (has_fun _ _ _ _ _ _ _ Ha Hx) as [_ <-]. destruct (decide (z < a + s)).
        - exists a, u1, s. rewrite Hh. split; [by left|lia].
        - exists (a + s), false, (c_len h - s). rewrite Hh. split; [by right; left|lia]. }
      exists x, ux, n. rewrite Hh. auto.
    + intros (x & ux & n & [(-> & -> & ->)|[(-> & -> & ->)|(_ & Hx)]]%Hh & Hr);
        [eexists a, _, _; split; [done|lia]..|by exists x, ux, n].
  - intros z Hz. rewrite (sp_other _ _ _ _ _ _ _ Hsp); [done|..].
    + intros ->. apply Hz. eexists a, _, _. split; [done|lia].
    + intros ->. apply Hz. eexists a, _, _. split; [done|lia].
    + intros Hln ->. apply Hz. rewrite Hln in Hn. destruct Hn as (h2 & G2 & C2 & _).
      pose proof (WmemLayout.ck_len _ _ _ _ _ (layout_at _ _ _ _ _ _ H G2 C2)).
      exists (a + c_len h), (c_used h2), (c_len h2). split; [by eexists _, _|lia].
  - intros y. destruct (decide (y + 16 = a + s)) as [E|?]; [|by rewrite lookup_insert_ne].
    rewrite E, lookup_insert_eq, Hin. split; [done|]. intros ?. simplify_eq. lia.
Qed.

(** The flag of the chunk at [w] changes. *)
Lemma evol_flag w G C C' b h h' :
  G !! w = Some b → C !! w = Some h → C' !! w = Some h' → same_layout h h' → 0 < c_len h →
  (∀ z, z ≠ w → C' !! z = C !! z) → evol w G C G C'.
Proof.
  intros HG HC HC' (_ & _ & _ & Hl) Hpos Hs. split.
  - intros z n Hz. unfold has. by rewrite (Hs z Hz).
  - intros z. split; intros (a & u & n & (y & ha & Ga & Ca & <- & <-) & Hr).
    + destruct (decide (a = w)) as [->|?].
      * simplify_eq. exists w, (c_used h'), (c_len h'). split; [by eexists _, _|lia].
      * exists a, (c_used ha), (c_len ha). split; [|done]. exists y, ha. by rewrite Hs.
    + destruct (decide (a = w)) as [->|?].
      * simplify_eq. exists w, (c_used h), (c_len h). split; [by eexists _, _|lia].
      * exists a, (c_used ha), (c_len ha). split; [|done]. exists y, ha. by rewrite <- Hs.
  - intros z Hz. apply Hs. intros ->. apply Hz. exists w, (c_used h), (c_len h).
    split; [by eexists _, _|lia].
  - done.
Qed.
End Evol.

(** ** Merging *)

Lemma listed_same G C C' z : C' !! z = C !! z → listed G C' z ↔ listed G C z.
Proof. intros E. unfold listed. by setoid_rewrite (has_same G C C' z false _ E). Qed.

Definition with_chunks (σ : wstate) (C : headers) : wstate :=
  WState C (free_prev σ) (free_next σ) (pre_chunk σ) (hdr_prev σ) (hdr_next σ) (block_list σ)
    (master_head σ) (recycler_head σ) (os_blocks σ).

(** The merge of [a] and its successor, both free, in terms of what follows. *)
Section MergePure.
Context (os : list (Z * Z)) (Hos : os_ok os).
Context (G : gmap Z Z) (C : headers) (a b y : Z) (h hn : wmem_block_chunk_t).
Context (H : layout os G (fix_next C y)) (Hco : coalesced y G (fix_next C y)).
Context (HG : G !! a = Some b) (HC : C !! a = Some h) (Hl : c_last h = false).
Context (HCn : C !! (a + c_len h) = Some hn) (Hy : y = a ∨ y = a + c_len h).
Context (Hu : c_used h = false) (Hun : c_used hn = false).
Context (Hlen : 16 <= c_len h) (Hlen' : 16 <= c_len hn).

Definition merged : headers :=
  <[a := Chunk (c_prev h) (c_last hn) false false (c_len h + c_len hn)]> C.

Lemma merge_pure :
  let V := fix_next C y in let V' := fix_next merged a in let G' := delete (a + c_len h) G in
  layout os G' V' ∧ coalesced a G' V' ∧ evol 0 G V G' V' ∧ G' !! a = Some b ∧
  (∀ z, z ≠ a → listed G' V' z ↔ listed G V z ∧ z ≠ a + c_len h) ∧
  (∀ z, z ≠ a → z ≠ a + c_len h → (c_last hn = false → z ≠ a + c_len h + c_len hn) → V' !! z = V !! z) ∧
  (c_last hn = false → ∀ h2, V' !! (a + c_len h + c_len hn) = Some h2 →
     ∃ h2', V !! (a + c_len h + c_len hn) = Some h2' ∧ c_used h2 = c_used h2').
Proof.
  intros V V' G'. unfold V, V', G', merged.
  destruct (merge_fix os G C a b h hn false y H HG HC Hl HCn Hy Hlen Hlen') as (E1 & E2 & Hmg).
  set (hn' := if decide (y = a) then upd_prev (c_len h) hn else hn) in *.
  assert (c_last hn' = c_last hn ∧ c_len hn' = c_len hn ∧ c_used hn' = false) as (F1 & F2 & F3)
    by (unfold hn'; by destruct (decide _)).
  pose proof (layout_merge os _ _ _ _ _ _ _ _ H HG E1 Hl E2 Hmg) as HL. split_and!.
  - done.
  - by apply (coalesced_merge os _ _ _ _ _ _ _ _ _ H HG E1 Hl E2 Hmg Hco).
  - apply (evol_merge os 0 _ _ _ _ _ _ _ _ H HG E1 Hl E2 Hmg F3). auto.
  - rewrite lookup_delete_ne by lia. done.
  - intros z Hz. unfold listed.
    setoid_rewrite (has_merge os _ _ _ _ _ _ _ _ z _ _ H HG E1 Hl E2 Hmg). naive_solver.
  - intros z ? ? ?. rewrite (mg_other _ _ _ _ _ _ Hmg); [done..|]. rewrite F1, F2. done.
  - intros Hln h2 Hh2. rewrite <- F1 in Hln.
    destruct (layout_next _ _ _ _ _ _ H ltac:(by eapply (merge_facts os)) E2 Hln) as (h3 & _ & C3 & _).
    rewrite F2 in C3. exists h3. split; [done|].
    pose proof (mg_next _ _ _ _ _ _ Hmg Hln h3) as E. rewrite F2 in E. rewrite (E C3) in Hh2.
    by simplify_eq.
Qed.
End MergePure.

(** The state while [wmem_block_merge_free (c0)] runs: the chunk has become the
    one at [c], [r] is [right_free]; the successor of [c] has a stale [prev]. *)
Record merging (os : list (Z * Z)) (G : gmap Z Z) (C : headers) (c0 : Z)
    (G' : gmap Z Z) (C' : headers) (c b r : Z) (h : wmem_block_chunk_t) : Prop := {
  ms_layout : layout os G' (fix_next C' c);
  ms_coal : coalesced c G' (fix_next C' c);
  ms_G : G' !! c = Some b;
  ms_C : C' !! c = Some h;
  ms_used : c_used h = false;
  ms_evol : evol 0 G C G' (fix_next C' c);
  ms_listed : ∀ z, z ≠ c → listed G' (fix_next C' c) z ↔ listed G C z ∧ z ≠ r ∧ z ≠ c0;
  ms_same : ∀ z, z ≠ c → listed G' (fix_next C' c) z → fix_next C' c !! z = C !! z;
  ms_next : c_last h = false → ∀ hn, fix_next C' c !! (c + c_len h) = Some hn → c_used hn = true;
  ms_right : r = NULL ∨ (listed G C r ∧ c < r ∧ r ≠ c0 ∧ ∃ hr, C !! r = Some hr ∧ c_prev hr ≠ 0 ∧
                         c_last h = c_last hr ∧ 24 <= c_len h)
}.

Section MergeRight.
Context (os : list (Z * Z)) (Hos : os_ok os).
Context (G : gmap Z Z) (C : headers) (c b : Z) (h : wmem_block_chunk_t).
Context (H : layout os G C) (Hco : coalesced c G C).
Context (HG : G !! c = Some b) (HC : C !! c = Some h) (Hu : c_used h = false).

Lemma listed_pos z : listed G C z → z ≠ NULL.
Proof.
  intros (n & (y & hz & HGz & _) & _) ->. pose proof (layout_pos os Hos _ _ _ _ H HGz).
  unfold NULL in *. lia.
Qed.

(** There is nothing to merge on the right. *)
Lemma merging_none :
  (c_last h = false → ∀ hn, C !! (c + c_len h) = Some hn → c_used hn = true) →
  merging os G C c G C c b NULL h.
Proof.
  intros Hn. pose proof (fix_next_layout os _ _ _ _ H HG) as E.
  split; rewrite ?E; try done; [|by left].
  intros z Hz. split; [|tauto]. intros Hlz. pose proof (listed_pos z Hlz). done.
Qed.

(** The right neighbour is free. *)
Lemma merging_right hn :
  c_last h = false → C !! (c + c_len h) = Some hn → c_used hn = false →
  let r := if 24 <=? c_len hn then c + c_len h else NULL in
  merging os G C c (delete (c + c_len h) G) (merged C c h hn) c b r
    (Chunk (c_prev h) (c_last hn) false false (c_len h + c_len hn)).
Proof.
  intros Hl HCn Hun r. destruct (layout_next _ _ _ _ _ _ H HG HC Hl) as (hn' & HGn & ? & Hpn & Hokn).
  simplify_eq. pose proof (ck_len _ _ _ _ _ (layout_at _ _ _ _ _ _ H HG HC)) as Hlen.
  pose proof (ck_len _ _ _ _ _ Hokn) as Hlen'.
  pose proof (fix_next_layout os _ _ _ _ H HG) as E.
  pose proof (merge_pure os G C c b c h hn) as P. cbv zeta in P. rewrite E in P.
  destruct P as (P1 & P2 & P3 & P4 & P5 & P6 & P7); try done; [by left|].
  set (V' := fix_next (merged C c h hn) c) in *.
  assert (c_last hn = false → ∀ h2, V' !! (c + (c_len h + c_len hn)) = Some h2 → c_used h2 = true) as Hnext.
  { intros Hln h2. rewrite Z.add_assoc. intros Hh2. destruct (P7 Hln h2 Hh2) as (h2' & ? & ->).
    destruct (Hco (c + c_len h) b hn h2' HGn HCn Hln ltac:(done)); [lia..|congruence|done]. }
  assert (listed G C (c + c_len h) ↔ 24 <= c_len hn) as Hli.
  { split; [intros (n & (? & ? & ? & ? & ? & ?) & ?); by simplify_eq|].
    intros. exists (c_len hn). split; [by eexists _, _|done]. }
  assert (∀ z, listed G C z → z ≠ r ↔ z ≠ c + c_len h) as Hr.
  { intros z Hz. unfold r. destruct (24 <=? c_len hn) eqn:E24; b2p; [done|].
    split; intros _; [|by apply listed_pos]. intros ->. apply Hli in Hz. lia. }
  split; fold V'; try done.
  - apply lookup_insert_eq.
  - intros z Hz. rewrite P5 by done. split; intros [Hz1 Hz2]; (split; [done|]);
      [split; [by apply Hr|done]|apply (Hr z Hz1); tauto].
  - intros z Hz Hlz. pose proof (proj1 (P5 z Hz) Hlz) as [Hlz1 Hlz2]. apply P6; [done..|].
    intros Hln ->. destruct Hlz as (n & (y2 & h2 & _ & HC2 & Hu2 & _) & _).
    rewrite <- Z.add_assoc in HC2. rewrite (Hnext Hln _ HC2) in Hu2. done.
  - unfold r. destruct (24 <=? c_len hn) eqn:E24; b2p; [right|by left].
    split; [by apply Hli|]. split; [lia|]. split; [lia|]. exists hn. rewrite Hpn. cbn. split_and!; done || lia.
Qed.
End MergeRight.

(** The outcome of the two merges. *)
Record merge_done (os : list (Z * Z)) (G : gmap Z Z) (C : headers) (c0 : Z)
    (G' : gmap Z Z) (C' : headers) (c b r lf : Z) (h : wmem_block_chunk_t) : Prop := {
  md_merging : merging os G C c0 G' C' c b r h;
  md_prev : c_prev h ≠ 0 → ∀ hp, fix_next C' c !! (c - c_prev h) = Some hp → c_used hp = true;
  md_left : (lf = NULL ∧ (c = c0 ∨ ¬ listed G C c)) ∨
            (lf = c ∧ c ≠ c0 ∧ listed G C c ∧ 24 <= c_len h ∧
             ∃ hl, C !! c = Some hl ∧ c_last hl = false)
}.

Section MergeLeft.
Context (os : list (Z * Z)) (Hos : os_ok os).
Context (G : gmap Z Z) (C : headers) (G1 : gmap Z Z) (C1 : headers) (c b r : Z) (h : wmem_block_chunk_t).
Context (HL : layout os G C) (Hm : merging os G C c G1 C1 c b r h).

Lemma merging_at :
  fix_next C1 c !! c = Some h ∧ chunk_ok G1 (fix_next C1 c) c b h.
Proof.
  destruct Hm as [H _ HG HC _ _ _ _ _ _].
  destruct (ly_chunk _ _ _ H _ _ HG) as (h' & HC' & Hok).
  assert (fix_next C1 c !! c = Some h) as E by (by eapply fix_next_self).
  split; [done|]. by simplify_eq.
Qed.

Lemma merging_left hl :
  c_prev h ≠ 0 → C1 !! (c - c_prev h) = Some hl → c_used hl = false →
  let l := c - c_prev h in let lf := if 24 <=? c_len hl then l else NULL in
  merge_done os G C c (delete c G1) (merged C1 l hl h) l b r lf
    (Chunk (c_prev hl) (c_last h) false false (c_len hl + c_len h)).
Proof.
  intros Hp HCl Hul l lf. destruct merging_at as [HVc Hokc].
  destruct Hm as [H Hco HG HC Hu Hev Hli Hsa Hne Hri].
  pose proof (ck_len _ _ _ _ _ Hokc) as Hlen.
  destruct (layout_prev _ _ _ _ _ _ H HG HVc Hp) as (hl' & HGl & HVl & Hll & Hlal & Hokl).
  fold l in HGl, HVl, Hokl. pose proof (ck_len _ _ _ _ _ Hokl) as Hlen'.
  assert (hl' = hl) as ->.
  { rewrite (fix_next_ne _ _ h) in HVl by (done || (unfold l; lia)). fold l in HCl. congruence. }
  assert (l + c_len hl = c) as Elc by (unfold l; lia).
  pose proof (merge_pure os G1 C1 l b c hl h) as P. cbv zeta in P. rewrite Elc in P.
  destruct P as (P1 & P2 & P3 & P4 & P5 & P6 & P7); try done; [by right|].
  set (V' := fix_next (merged C1 l hl h) l) in *. set (V := fix_next C1 c) in *.
  assert (c_last h = false → ∀ h2, V' !! (c + c_len h) = Some h2 → c_used h2 = true) as Hnext.
  { intros Hln h2 Hh2. destruct (P7 Hln h2 Hh2) as (h2' & ? & ->). by apply Hne. }
  assert (listed G1 V l ↔ 24 <= c_len hl) as Hll1.
  { split; [intros (n & (? & ? & ? & ? & ? & ?) & ?); by simplify_eq|].
    intros. exists (c_len hl). split; [by eexists _, _|done]. }
  assert (l < c) by lia. assert (l ≠ r).
  { destruct Hri as [->|(_ & ? & _)]; [|lia]. pose proof (layout_pos os Hos _ _ _ _ H HGl).
    unfold NULL. lia. }
  split; [split; fold V'; try done|..].
  - apply lookup_insert_eq.
  - by eapply evol_trans.
  - intros z Hz. rewrite P5 by done. split.
    + intros [Hz1 Hz2]. by apply Hli.
    + intros (Hz1 & Hz2 & Hz3). split; [|done]. by apply Hli.
  - intros z Hz Hlz. pose proof (proj1 (P5 z Hz) Hlz) as [Hlz1 Hlz2].
    rewrite P6; [by apply Hsa|done..|]. intros Hln ->.
    destruct Hlz as (n & (y2 & h2 & _ & HC2 & Hu2 & _) & _). rewrite (Hnext Hln _ HC2) in Hu2. done.
  - cbn [c_last c_len]. rewrite Z.add_assoc, Elc. apply Hnext.
  - destruct Hri as [?|(? & ? & ? & hr & ? & ? & ? & ?)]; [by left|right].
    split; [done|]. split; [lia|]. split; [done|]. exists hr. cbn. split_and!; done || lia.
  - cbn [c_prev]. fold V'. intros Hpl hp Hhp.
    destruct (layout_prev _ _ _ _ _ _ H HGl HVl Hpl) as (hp' & HGp & HVp & Hlp & Hlap & Hokp).
    pose proof (ck_len _ _ _ _ _ Hokp). rewrite P6 in Hhp by lia. simplify_eq.
    destruct (Hco (l - c_prev hl) b hp hl HGp Hhp Hlap); try done; try congruence; [|lia|lia].
    by replace (l - c_prev hl + c_len hp) with l by lia.
  - unfold lf. destruct (24 <=? c_len hl) eqn:E24; b2p; [right|left].
    + split; [done|]. split; [lia|]. cbn [c_len]. assert (24 <= c_len hl + c_len h) by lia.
      apply Hll1 in E24. split; [by apply Hli; [lia|]|]. split; [done|]. exists hl. split; [|done]. rewrite <- (Hsa l); [done|lia|done].
    + split; [done|]. right. intros Hlc. assert (listed G1 V l) as Hl1; [|apply Hll1 in Hl1; lia].
      apply Hli; [lia|]. split_and!; done || lia.
Qed.

Lemma merging_no_left :
  (c_prev h ≠ 0 → ∀ hp, C1 !! (c - c_prev h) = Some hp → c_used hp = true) →
  merge_done os G C c G1 C1 c b r NULL h.
Proof.
  intros Hp. destruct merging_at as [HVc Hokc]. pose proof (ck_len _ _ _ _ _ Hokc).
  split; [done| |left; auto]. intros Hp0 hp Hhp. apply (Hp Hp0 hp).
  pose proof (layout_prev _ _ _ _ _ _ (ms_layout _ _ _ _ _ _ _ _ _ _ Hm)
    (ms_G _ _ _ _ _ _ _ _ _ _ Hm) HVc Hp0) as (hp' & _ & _ & ? & _ & Hok).
  pose proof (ck_len _ _ _ _ _ Hok).
  rewrite <- Hhp. symmetry. apply (fix_next_ne _ _ h); [apply (ms_C _ _ _ _ _ _ _ _ _ _ Hm)|lia].
Qed.
End MergeLeft.

(** ** The invariant *)

(** [x] is a free chunk in no list whose neighbours may be free, or 0. *)
Record heap_ok (x : Z) (G : gmap Z Z) (ml rl : list Z) (σ : wstate) : Prop := {
  hp_os : os_ok (os_blocks σ);
  hp_layout : layout (os_blocks σ) G (chunks σ);
  hp_coal : coalesced x G (chunks σ);
  hp_lists : flists ml rl σ;
  hp_listed : ∀ a, a ∈ ml ++ rl ↔ listed G (chunks σ) a ∧ a ≠ x;
  hp_last : ∀ a, a ∈ ml → ∃ h, chunks σ !! a = Some h ∧ c_last h = true;
  hp_whole : ∀ a, a ∈ tail ml → ∃ h, chunks σ !! a = Some h ∧ c_prev h = 0 ∧ c_len h = 8388592
}.

(** The rest of the state is the same. *)
Definition heap_step (σ τ : wstate) : Prop :=
  pre_chunk τ = pre_chunk σ ∧ hdr_prev τ = hdr_prev σ ∧ hdr_next τ = hdr_next σ ∧
  block_list τ = block_list σ ∧ os_blocks τ = os_blocks σ.

Lemma free_heap_step σ τ : free_step σ τ → heap_step σ τ ∧ chunks τ = chunks σ.
Proof. by intros (? & ? & ? & ? & ->). Qed.
Lemma heap_step_trans σ τ υ : heap_step σ τ → heap_step τ υ → heap_step σ υ.
Proof. unfold heap_step. intuition congruence. Qed.

(** Chunk headers and their fields, in a layout. *)
Lemma layout_u32 os G C a b h :
  os_ok os → layout os G C → G !! a = Some b → C !! a = Some h →
  16 <= c_len h <= 8388592 ∧ c_len h mod 16 = 0.
Proof.
  intros Hos H HG HC. destruct (layout_at _ _ _ _ _ _ H HG HC) as [? ? ? ? ? ? _ _].
  split; [lia|done].
Qed.

Lemma layout_in_blocks os G C a b h :
  layout os G C → G !! a = Some b → C !! a = Some h → in_blocks os a 8 = true.
Proof.
  intros H HG HC. pose proof (ck_len _ _ _ _ _ (layout_at _ _ _ _ _ _ H HG HC)).
  replace a with (a + 0) by lia. eapply layout_valid; eauto; lia.
Qed.

Lemma merge_right_spec σ G c b h :
  os_ok (os_blocks σ) → layout (os_blocks σ) G (chunks σ) → coalesced c G (chunks σ) →
  G !! c = Some b → chunks σ !! c = Some h → c_used h = false →
  wp (merge_right c) (fun r τ => ∃ G' C' h', τ = with_chunks σ C' ∧
    merging (os_blocks σ) G (chunks σ) c G' C' c b r h') σ.
Proof.
  intros Hos H Hco HG HC Hu. destruct σ as [C FP FN PR HP HN B MH RH OS]. cbn in *.
  destruct (layout_u32 _ _ _ _ _ _ Hos H HG HC) as [Hlen _].
  pose proof (layout_in_blocks _ _ _ _ _ _ H HG HC).
  unfold merge_right. ws. ws. destruct (c_last h) eqn:Hl.
  { rewrite Z.eqb_refl. ws. exists G, C, h. split; [done|]. apply merging_none; try done. congruence. }
  destruct (layout_next _ _ _ _ _ _ H HG HC Hl) as (hn & HGn & HCn & Hpn & Hokn).
  pose proof (layout_pos _ Hos _ _ _ _ H HGn).
  destruct (layout_u32 _ _ _ _ _ _ Hos H HGn HCn) as [Hlen' _].
  rewrite (proj2 (Z.eqb_neq _ NULL)) by (unfold NULL; lia). ws. ws.
  destruct (c_used hn) eqn:Hun.
  { ws. exists G, C, h. split; [done|]. apply merging_none; try done. congruence. }
  repeat ws. eexists _, _, _. split; [done|]. cbn [c_prev c_last c_used c_jumbo c_len].
  pose proof (merging_right OS Hos G C c b h H Hco HG HC Hu hn Hl HCn Hun) as Hmr. cbv zeta in Hmr.
  rewrite insert_insert_eq, Hu, (ck_jumbo _ _ _ _ _ (layout_at _ _ _ _ _ _ H HG HC)).
  rewrite Z.mod_small by lia. fold (merged C c h hn). cbv zeta.
  replace (sizeof_free_t <=? u32 (c_len hn - 16)) with (24 <=? c_len hn); [done|].
  unfold sizeof_free_t. rewrite u32_small by lia. apply eq_true_iff_eq. rewrite !Z.leb_le. lia.
Qed.

Lemma merge_left_spec σ G C G1 c b r h :
  os_ok (os_blocks σ) → layout (os_blocks σ) G C →
  merging (os_blocks σ) G C c G1 (chunks σ) c b r h →
  wp (merge_left c) (fun '(c', lf) τ => ∃ G' C' h', τ = with_chunks σ C' ∧
    merge_done (os_blocks σ) G C c G' C' c' b r lf h') σ.
Proof.
  intros Hos HL Hm. destruct σ as [C1 FP FN PR HP HN B MH RH OS]. cbn in *.
  destruct (merging_at _ _ _ _ _ _ _ _ _ Hm) as [HVc Hokc].
  pose proof Hm as [H Hco HG HC Hu _ _ _ _ _].
  destruct (layout_u32 _ _ _ _ _ _ Hos H HG HVc) as [Hlen _].
  unfold merge_left. ws. ws. destruct (c_prev h =? 0) eqn:Ep; simpl negb; cbn iota; b2p.
  { rewrite Z.eqb_refl. ws. exists G1, C1, h. split; [done|]. apply merging_no_left; done. }
  destruct (layout_prev _ _ _ _ _ _ H HG HVc Ep) as (hl & HGl & HVl & Hll & Hlal & Hokl).
  assert (C1 !! (c - c_prev h) = Some hl) as HCl.
  { pose proof (ck_len _ _ _ _ _ Hokl). rewrite (fix_next_ne _ _ h) in HVl by (done || lia). done. }
  pose proof (layout_pos _ Hos _ _ _ _ H HGl).
  destruct (layout_u32 _ _ _ _ _ _ Hos H HGl HVl) as [Hlen' _].
  assert (c_len hl + c_len h <= 8388592).
  { pose proof (ck_hi _ _ _ _ _ Hokc). pose proof (ck_lo _ _ _ _ _ Hokl). lia. }
  pose proof (layout_in_blocks _ _ _ _ _ _ H HGl HVl).
  rewrite (proj2 (Z.eqb_neq _ NULL)) by (unfold NULL; lia). ws. ws.
  destruct (c_used hl) eqn:Hul.
  { ws. exists G1, C1, h. split; [done|]. apply merging_no_left; try done. congruence. }
  repeat ws. eexists _, _, _. split; [done|]. cbn [c_prev c_last c_used c_jumbo c_len].
  pose proof (merging_left OS Hos G C G1 C1 c b r h Hm hl Ep HCl Hul) as Hml. cbv zeta in Hml.
  rewrite insert_insert_eq, Hul, (ck_jumbo _ _ _ _ _ Hokl).
  rewrite Z.mod_small by lia. fold (merged C1 (c - c_prev h) hl h). cbv zeta.
  replace (sizeof_free_t <=? u32 (c_len hl - 16)) with (24 <=? c_len hl); [exact Hml|].
  unfold sizeof_free_t. rewrite u32_small by lia. apply eq_true_iff_eq. rewrite !Z.leb_le. lia.
Qed.

(** The assignment that corrects the successor. *)
Lemma fix_next_insert os G C c b h :
  layout os G (fix_next C c) → G !! c = Some b → C !! c = Some h → c_last h = false →
  ∃ hn, C !! (c + c_len h) = Some hn ∧ in_blocks os (c + c_len h) 8 = true ∧
        <[c + c_len h := upd_prev (c_len h) hn]> C = fix_next C c.
Proof.
  intros H HG HC Hl. pose proof (fix_next_self os _ _ _ _ _ H HG HC) as HV.
  destruct (layout_next _ _ _ _ _ _ H HG HV Hl) as (hn & HGn & HVn & _ & _).
  pose proof (layout_in_blocks _ _ _ _ _ _ H HGn HVn).
  unfold fix_next in *. rewrite HC, Hl in *. rewrite lookup_alter_eq in HVn.
  destruct (C !! (c + c_len h)) as [hn'|] eqn:HCn; [|done]. exists hn'. split_and!; try done.
  apply map_eq. intros x. destruct (decide (x = c + c_len h)) as [->|?].
  - by rewrite lookup_insert_eq, lookup_alter_eq, HCn.
  - by rewrite lookup_insert_ne, lookup_alter_ne.
Qed.

Lemma merge_fix_next_spec σ G C c0 G' c b r lf h :
  os_ok (os_blocks σ) → merge_done (os_blocks σ) G C c0 G' (chunks σ) c b r lf h →
  wp (merge_fix_next c) (fun _ τ => τ = with_chunks σ (fix_next (chunks σ) c)) σ.
Proof.
  intros Hos [Hm _ _]. destruct σ as [C1 FP FN PR HP HN B MH RH OS]. cbn in *.
  destruct Hm as [H _ HG HC _ _ _ _ _ _]. unfold merge_fix_next. ws. ws.
  destruct (c_last h) eqn:Hl; simpl negb; cbn iota.
  - ws. unfold with_chunks, fix_next. cbn. by rewrite HC, Hl.
  - destruct (fix_next_insert _ _ _ _ _ _ H HG HC Hl) as (hn & HCn & ? & E).
    ws. ws. rewrite Hl. repeat ws. unfold with_chunks. cbn. by rewrite <- E.
Qed.

(** Membership in the lists after the merge: [c] is there, [r] is not. *)
Lemma merged_mem (ml rl rl' : list Z) (c r : Z) (P : Prop) :
  (∀ z, z ∈ rl' ↔ z ∈ rl ∧ z ≠ r) → r ∉ ml → (c ∈ rl ∧ c ≠ r ∧ P) ∨ ((c ∉ ml ++ rl) ∧ ¬ P) →
  ∀ z, z ∈ ml ++ rl' ↔ (z = c ∧ P) ∨ (z ≠ c ∧ z ∈ ml ++ rl ∧ z ≠ r).
Proof.
  intros Hrl' Hr Hc z. rewrite !elem_of_app, Hrl'.
  destruct (decide (z = c)) as [->|Hzc].
  - destruct Hc as [(? & ? & ?)|[Hn ?]]; [tauto|]. rewrite elem_of_app in Hn. tauto.
  - split; [|tauto]. intros [?|?]; [|tauto]. right. split; [done|]. split; [auto|congruence].
Qed.

Section MergeLists.
Context (G : gmap Z Z) (C : headers) (c0 : Z) (G' : gmap Z Z) (C' : headers) (c b r lf : Z)
  (h : wmem_block_chunk_t) (ml rl : list Z) (os : list (Z * Z)).
Context (Hos : os_ok os) (HL : layout os G C) (Hd : merge_done os G C c0 G' C' c b r lf h).
Context (Hli : ∀ a, a ∈ ml ++ rl ↔ listed G C a ∧ a ≠ c0).
Context (Hla : ∀ a, a ∈ ml → ∃ h, C !! a = Some h ∧ c_last h = true).
Context (Hwh : ∀ a, a ∈ tail ml → ∃ h, C !! a = Some h ∧ c_prev h = 0 ∧ c_len h = 8388592).

Lemma merge_heap_ok ml' rl' τ :
  os_blocks τ = os → chunks τ = fix_next C' c → flists ml' rl' τ →
  (∀ z, z ∈ ml' ++ rl' ↔ (z = c ∧ 24 <= c_len h) ∨ (z ≠ c ∧ z ∈ ml ++ rl ∧ z ≠ r)) →
  (∀ z, z ∈ ml' → (z = c ∧ c_last h = true) ∨ (z ≠ c ∧ z ∈ ml ∧ z ≠ r)) →
  (∀ z, z ∈ tail ml' → z ≠ c ∧ z ∈ tail ml ∧ z ≠ r) →
  heap_ok 0 G' ml' rl' τ.
Proof.
  intros Eos EC Hf Hz Hz1 Hz2. destruct Hd as [Hm Hp _].
  pose proof Hm as [H Hco HG HC Hu Hev Hlist Hsa Hne Hri].
  set (V := fix_next C' c) in *.
  assert (V !! c = Some h) as HV by (by eapply fix_next_self).
  assert (∀ z, z ≠ c → z ∈ ml ++ rl → z ≠ r → V !! z = C !! z) as Hsame.
  { intros z ? [? ?]%Hli ?. apply Hsa; [done|]. by apply Hlist. }
  split; rewrite ?Eos, ?EC; try done.
  - apply (coalesced_strengthen _ c b h _ _ H Hco HG HV). right. done.
  - intros z. rewrite Hz. destruct (decide (z = c)) as [->|Hzc].
    + pose proof (layout_pos _ Hos _ _ _ _ H HG). split.
      * intros [[_ ?]|[? _]]; [|done]. split; [|lia]. exists (c_len h). split; [by eexists _, _|done].
      * intros [(n & (? & ? & ? & ? & ? & ?) & ?) _]. simplify_eq. by left.
    + rewrite Hlist by done. rewrite Hli. split.
      * intros [[? _]|(_ & [? ?] & ?)]; [done|]. split; [done|]. by apply (listed_pos os Hos G C HL).
      * intros [(? & ? & ?) _]. by right.
  - intros z [[-> ?]|(? & ? & ?)]%Hz1; [by exists h|]. rewrite Hsame by set_solver. by apply Hla.
  - intros z (? & Ht & ?)%Hz2. rewrite Hsame; [by apply Hwh|done| |done].
    destruct ml; set_solver.
Qed.

Lemma merge_r_listed : r ≠ NULL → r ∈ ml ++ rl ∧ c ≠ r ∧ 24 <= c_len h ∧
  (r ∈ ml → ml = r :: tail ml ∧ c_last h = true).
Proof.
  intros Hr. destruct (ms_right _ _ _ _ _ _ _ _ _ _ (md_merging _ _ _ _ _ _ _ _ _ _ _ Hd))
    as [?|(Hlr & ? & ? & hr & HCr & Hpr & Hlast & ?)]; [done|].
  split; [by apply Hli|]. split; [lia|]. split; [done|]. intros Hin.
  destruct ml as [|m mt]; [set_solver|]. destruct (decide (r = m)) as [->|?].
  - split; [done|]. destruct (Hla m Hin) as (h' & ? & ?). congruence.
  - destruct (Hwh r) as (h' & ? & ? & _); [set_solver|]. congruence.
Qed.

Lemma merge_c_notin : lf = NULL → c ∉ ml ++ rl.
Proof.
  intros ->. destruct (md_left _ _ _ _ _ _ _ _ _ _ _ Hd) as [[_ Hc]|(? & _ & Hc & _)].
  - rewrite Hli. intros [? ?]. by destruct Hc.
  - by destruct (listed_pos os Hos G C HL c Hc).
Qed.

Lemma merge_left_in : lf ≠ NULL → lf = c ∧ (c ∉ ml) ∧ c ∈ rl ∧ 24 <= c_len h.
Proof.
  intros Hl. destruct (md_left _ _ _ _ _ _ _ _ _ _ _ Hd) as [[? _]|(-> & ? & ? & ? & hl & ? & ?)];
    [done|]. assert (c ∈ ml ++ rl) by (by apply Hli).
  assert (c ∉ ml) by (intros Hc; destruct (Hla c Hc) as (? & ? & ?); congruence).
  split; [done|]. split; [done|]. split; [set_solver|done].
Qed.

Lemma merge_valid : 24 <= c_len h → in_blocks os (c + 16) 8 = true ∧ c ≠ NULL.
Proof.
  destruct Hd as [[H _ HG HC _ _ _ _ _ _] _ _]. pose proof (fix_next_self os _ _ _ _ _ H HG HC).
  intros. split; [eapply layout_valid; eauto; lia|].
  pose proof (layout_pos os Hos _ _ _ _ H HG). unfold NULL. lia.
Qed.

(** The resulting chunk takes the head of the master list. *)
Lemma merge_lists_master σ :
  os_blocks σ = os → chunks σ = fix_next C' c → flists ml rl σ → r ≠ NULL → r = master_head σ →
  wp (_ ← (if negb (lf =? NULL) then wmem_block_remove_from_recycler lf else mret tt);
      merge_master c r)
     (fun _ τ => free_step σ τ ∧ ∃ ml' rl', heap_ok 0 G' ml' rl' τ) σ.
Proof.
  intros Eos EC Hf Hr Hmh. destruct (merge_r_listed Hr) as (Hrin & Hcr & H24 & Hrml).
  destruct (merge_valid H24) as [Hv Hc0].
  assert (r ∈ ml) as Hrin'.
  { rewrite (fl_mh _ _ _ Hf) in Hmh. destruct ml; [by simpl in Hmh|]. simpl in Hmh. set_solver. }
  destruct (Hrml Hrin') as [Eml Hlast]. set (mt := tail ml) in *.
  pose proof (fl_nodup _ _ _ Hf) as Hnd. rewrite Eml in Hnd. cbn [app] in Hnd.
  apply NoDup_cons in Hnd as [Hrn Hnd].
  assert (∀ rl' υ, free_step σ υ → flists ml rl' υ → (∀ z, z ∈ rl' ↔ z ∈ rl ∧ z ≠ c) → c ∉ ml →
    wp (merge_master c r) (fun _ τ => free_step σ τ ∧ ∃ ml' rl', heap_ok 0 G' ml' rl' τ) υ) as Hgo.
  { intros rl' υ Hsu Hfu Hrl' Hcml. destruct (free_heap_step _ _ Hsu) as [(_ & _ & _ & _ & Eosu) ECu].
    rewrite Eml in Hfu, Hcml. eapply wp_mono.
    - apply (merge_master_spec r c mt rl' υ Hfu); [set_solver|done|]. by rewrite Eosu, Eos.
    - intros _ τ [Hst Hft]. destruct (free_heap_step _ _ Hst) as [(_ & _ & _ & _ & Eost) ECt].
      split; [by eapply free_step_trans|]. exists (c :: mt), rl'.
      apply merge_heap_ok; [congruence|congruence|done|..]; rewrite ?Eml; set_solver. }
  apply wp_bind. destruct (lf =? NULL) eqn:El; simpl negb; cbn iota; b2p.
  - apply wp_ret. pose proof (merge_c_notin El).
    apply (Hgo rl σ (free_step_refl σ) Hf); set_solver.
  - destruct (merge_left_in El) as (-> & ? & Hcin & _).
    apply list_elem_of_split in Hcin as (l1 & l2 & Erl).
    pose proof (fl_nodup _ _ _ Hf) as Hnd'. rewrite Erl in Hf, Hnd', Hgo.
    apply NoDup_app in Hnd' as (_ & _ & Hnd'). destruct (NoDup_middle _ _ _ Hnd') as [? _].
    eapply wp_mono; [by apply (remove_from_recycler_spec ml l1 c l2)|].
    intros _ υ [Hsu Hfu]. apply (Hgo (l1 ++ l2)); [done..| |done]. set_solver.
Qed.

(** The resulting chunk goes to the recycler or stays there. *)
Lemma merge_lists_recycler σ :
  os_blocks σ = os → chunks σ = fix_next C' c → flists ml rl σ → r = NULL ∨ r ≠ master_head σ →
  wp (_ ← (if negb (r =? NULL) then wmem_block_remove_from_recycler r else mret tt);
      if lf =? NULL then wmem_block_add_to_recycler c else mret tt)
     (fun _ τ => free_step σ τ ∧ ∃ ml' rl', heap_ok 0 G' ml' rl' τ) σ.
Proof.
  intros Eos EC Hf Hr.
  pose proof (md_merging _ _ _ _ _ _ _ _ _ _ _ Hd) as [H _ HG HC Hu _ Hlist _ _ _].
  pose proof (fix_next_self os _ _ _ _ _ H HG HC) as HV.
  destruct (layout_u32 _ _ _ _ _ _ Hos H HG HV) as [Hlen _].
  assert (r ∉ ml) as Hrml.
  { intros Hin. assert (r ≠ NULL) as Hr0 by (intros ->; pose proof (fl_null _ _ _ Hf); set_solver).
    destruct Hr as [?|Hr]; [done|]. destruct (merge_r_listed Hr0) as (_ & _ & _ & Hm).
    destruct (Hm Hin) as [E _]. rewrite (fl_mh _ _ _ Hf), E in Hr. done. }
  assert (∀ rl' υ, free_step σ υ → flists ml rl' υ → (∀ z, z ∈ rl' ↔ z ∈ rl ∧ z ≠ r) →
    wp (if lf =? NULL then wmem_block_add_to_recycler c else mret tt)
       (fun _ τ => free_step σ τ ∧ ∃ ml' rl', heap_ok 0 G' ml' rl' τ) υ) as Hgo.
  { intros rl' υ Hsu Hfu Hrl'. destruct (free_heap_step _ _ Hsu) as [(_ & _ & _ & _ & Eosu) ECu].
    assert (∀ z, z ∈ tail ml → z ∈ ml) as Htl by (intros z; destruct ml; set_solver).
    destruct (lf =? NULL) eqn:El; b2p.
    - pose proof (merge_c_notin El) as Hcn. assert (chunks υ !! c = Some h) by congruence.
      destruct (decide (24 <= c_len h)) as [H24|H24].
      + destruct (merge_valid H24) as [Hv Hc0]. eapply wp_mono.
        * eapply (add_to_recycler_spec ml rl' c h); try done; [|lia|set_solver|congruence].
          intros z Hz. rewrite ECu, EC. assert (z ∈ ml ++ rl ∧ z ≠ r) as [[? ?]%Hli ?] by set_solver.
          assert (listed G' (fix_next C' c) z) as (? & (? & ? & _ & -> & _) & _); [|by eexists].
          apply Hlist; [|done]. intros ->. set_solver.
        * intros _ τ [Hst Hft]. destruct (free_heap_step _ _ Hst) as [(_ & _ & _ & _ & Eost) ECt].
          split; [by eapply free_step_trans|]. eexists ml, _.
          apply merge_heap_ok; [congruence|congruence|done|..]; [|set_solver..].
          intros z. rewrite elem_of_app, add_perm. set_solver.
      + unfold wmem_block_add_to_recycler. destruct υ. cbn in *. ws. ws.
        rewrite (proj2 (Z.ltb_lt _ sizeof_free_t)) by (unfold sizeof_free_t; rewrite u32_small; lia).
        ws. split; [done|]. exists ml, rl'.
        apply merge_heap_ok; [cbn; congruence|cbn; congruence|done|..].
        * apply merged_mem; auto.
        * intros z Hz. right. rewrite elem_of_app in Hcn. split_and!; [|done|]; intros ->; tauto.
        * intros z Hz. pose proof (Htl z Hz). rewrite elem_of_app in Hcn.
          split_and!; [|done|]; intros ->; tauto.
    - destruct (merge_left_in El) as (_ & ? & Hcin & ?). apply wp_ret. split; [done|].
      assert (c ≠ r).
      { destruct (decide (r = NULL)) as [Hr0|Hr0]; [|by destruct (merge_r_listed Hr0) as (_ & ? & _)].
        pose proof (fl_null _ _ _ Hf). intros E. rewrite <- E in Hr0. rewrite Hr0 in Hcin. set_solver. }
      exists ml, rl'. apply merge_heap_ok; [congruence|congruence|done|..].
      + apply merged_mem; auto.
      + intros z Hz. right. split_and!; congruence.
      + intros z Hz. pose proof (Htl z Hz). split_and!; congruence. }
  apply wp_bind. destruct (r =? NULL) eqn:Er; simpl negb; cbn iota; b2p.
  - apply wp_ret. apply (Hgo rl σ (free_step_refl σ) Hf). intros z. subst r.
    pose proof (fl_null _ _ _ Hf). set_solver.
  - destruct (merge_r_listed Er) as (Hrin & _). assert (r ∈ rl) as Hrin' by set_solver.
    apply list_elem_of_split in Hrin' as (l1 & l2 & Erl).
    pose proof (fl_nodup _ _ _ Hf) as Hnd'. rewrite Erl in Hf, Hnd', Hgo.
    apply NoDup_app in Hnd' as (_ & _ & Hnd'). destruct (NoDup_middle _ _ _ Hnd') as [? _].
    eapply wp_mono; [by apply (remove_from_recycler_spec ml l1 r l2)|].
    intros _ υ [Hsu Hfu]. apply (Hgo (l1 ++ l2)); [done..|]. set_solver.
Qed.
End MergeLists.

(** [wmem_block_merge_free]: the free chunk [c] joins its free neighbours and
    the free lists. *)
Lemma merge_free_spec c b h G ml rl σ :
  heap_ok c G ml rl σ → G !! c = Some b → chunks σ !! c = Some h → c_used h = false →
  wp (wmem_block_merge_free c)
     (fun _ τ => heap_step σ τ ∧ ∃ G' ml' rl', heap_ok 0 G' ml' rl' τ ∧
        evol 0 G (chunks σ) G' (chunks τ)) σ.
Proof.
  intros [Hos HL Hco Hf Hli Hla Hwh] HG HC Hu. unfold wmem_block_merge_free.
  apply wp_bind. eapply wp_mono; [by eapply merge_right_spec|].
  intros r σ1 (G1 & C1 & h1 & -> & Hm). cbn beta.
  apply wp_bind. eapply wp_mono; [by apply (merge_left_spec (with_chunks σ C1) G (chunks σ) G1 c b r h1)|].
  intros [c' lf] σ2 (G2 & C2 & h2 & -> & Hd). cbn beta iota. cbn in Hd.
  apply wp_bind. eapply wp_mono.
  { by apply (merge_fix_next_spec (with_chunks (with_chunks σ C1) C2) G (chunks σ) c G2 c' b r lf h2). }
  intros _ σ3 ->. cbn [chunks with_chunks]. set (σ3 := with_chunks _ _).
  assert (flists ml rl σ3) as Hf3 by (by destruct Hf).
  pose proof (ms_evol _ _ _ _ _ _ _ _ _ _ (md_merging _ _ _ _ _ _ _ _ _ _ _ Hd)) as Hev.
  assert (∀ τ, free_step σ3 τ ∧ (∃ ml' rl', heap_ok 0 G2 ml' rl' τ) → heap_step σ τ ∧
    ∃ G' ml' rl', heap_ok 0 G' ml' rl' τ ∧ evol 0 G (chunks σ) G' (chunks τ)) as Hfin.
  { intros τ [Hst (ml' & rl' & Hh)]. destruct (free_heap_step _ _ Hst) as [Hhs Ec].
    split; [done|]. exists G2, ml', rl'. split; [done|]. by rewrite Ec. }
  unfold merge_lists. apply wp_bind, wp_get.
  destruct (negb (r =? NULL) && (r =? master_head σ3)) eqn:E; b2p.
  - eapply wp_mono; [by eapply (merge_lists_master G (chunks σ) c)|]. intros ? τ. apply Hfin.
  - eapply wp_mono; [|intros ? τ; apply Hfin].
    eapply (merge_lists_recycler G (chunks σ) c); try done. destruct E as [E|E]; b2p; auto.
Qed.
