(* ===== verification/WmemSplit.v ===== *)
(** * Splitting chunks

    [wmem_block_split_free_chunk] cuts the memory of an allocation off a free
    chunk, [wmem_block_split_used_chunk] gives the end of a used chunk back; both
    keep the invariant of the heap. *)

From stdpp Require Import base numbers gmap list.
From S2P Require Import Prelude CMem Words DList WmemBlock WmemLists WmemLayout WmemHeap.
Open Scope Z_scope.
#[local] Set Warnings "-clear-no-such-hyp".

(** ** Alignment *)

Lemma land_high_mask x k :
  0 <= k <= 32 → 0 <= x < 4294967296 →
  Z.land x (4294967296 - 2 ^ k) = x - x mod 2 ^ k.
Proof.
  intros Hk Hx. rewrite <- Z.land_ones by lia.
  assert (x - Z.land x (Z.ones k) = Z.ldiff x (Z.ones k)) as -> by (by rewrite Z.sub_land_same_l, Z.ldiff_land).
  apply Z.bits_inj'. intros n Hn. rewrite Z.land_spec, Z.ldiff_spec, Z.testbit_ones_nonneg by lia.
  assert (4294967296 - 2 ^ k = Z.ldiff (Z.ones 32) (Z.ones k)) as ->.
  { rewrite <- Z.sub_nocarry_ldiff.
    - rewrite !Z.ones_equiv. change (2 ^ 32) with 4294967296. lia.
    - apply Z.bits_inj'. intros m Hm. rewrite Z.ldiff_spec, !Z.testbit_ones_nonneg, Z.bits_0 by lia.
      destruct (m <? k) eqn:E1, (m <? 32) eqn:E2; b2p; try done. lia. }
  rewrite Z.ldiff_spec, !Z.testbit_ones_nonneg by lia.
  destruct (n <? 32) eqn:E; b2p; [done|]. simpl.
  rewrite (Z.bits_above_log2 x n); [done|lia|].
  destruct (decide (x = 0)) as [->|]; [simpl; lia|]. apply Z.log2_lt_pow2; [lia|].
  apply Z.lt_le_trans with (2 ^ 32); [lia|]. apply Z.pow_le_mono_r; lia.
Qed.

Definition round16 (n : Z) : Z := (n + 15) / 16 * 16.

Lemma align_size n : 0 <= n → n + 15 < 4294967296 → WMEM_ALIGN_SIZE n = round16 n.
Proof.
  intros. unfold WMEM_ALIGN_SIZE, round16. change (WMEM_ALIGN_AMOUNT - 1) with 15.
  rewrite u32_small by lia. rewrite Z.land_comm. change (not32 15) with (4294967296 - 2 ^ 4).
  rewrite land_high_mask by lia. change (2 ^ 4) with 16. dlia.
Qed.

Lemma round16_spec n : n <= round16 n < n + 16 ∧ round16 n mod 16 = 0.
Proof. unfold round16. dlia. Qed.

(** The memory that an allocation takes. *)
Lemma needed_size size alignment :
  0 <= size → 0 <= alignment → 20 + alignment + size + 15 < 4294967296 →
  WMEM_ALIGN_SIZE (u32 (16 + alignment + sizeof_pre_t + size)) = round16 (20 + alignment + size).
Proof.
  intros. unfold sizeof_pre_t. rewrite u32_small, align_size by lia. f_equal. lia.
Qed.

(** [align_address] for a power of two, and for 0. *)
Lemma align_address_spec p k :
  0 <= k < 32 → 0 <= p → p + 2 ^ k <= 4294967296 →
  let q := align_address p (2 ^ k) in p <= q < p + 2 ^ k ∧ q mod 2 ^ k = 0.
Proof.
  intros Hk Hp Hlt q. assert (0 < 2 ^ k) by (apply Z.pow_pos_nonneg; lia).
  assert (2 ^ k <= 2 ^ 31) by (apply Z.pow_le_mono_r; lia).
  unfold q, align_address. rewrite (proj2 (Z.eqb_neq _ 0)) by lia.
  rewrite (u32_small (p + _ - 1)), (u32_small (2 ^ k - 1)) by lia.
  replace (not32 (2 ^ k - 1)) with (4294967296 - 2 ^ k) by (unfold not32; lia).
  rewrite land_high_mask by lia. set (x := p + 2 ^ k - 1).
  pose proof (Z.mod_pos_bound x (2 ^ k) ltac:(lia)). split; [unfold x in *; lia|].
  rewrite Zminus_mod, Zmod_mod, Z.sub_diag. apply Zmod_0_l.
Qed.

(** ** The free chunk that an allocation takes *)

Lemma heap_listed_at x G ml rl σ c :
  heap_ok x G ml rl σ → c ∈ ml ++ rl →
  ∃ b h, G !! c = Some b ∧ chunks σ !! c = Some h ∧ c_used h = false ∧ 24 <= c_len h ∧ c ≠ x.
Proof.
  intros H Hc. apply (hp_listed _ _ _ _ _ H) in Hc as [(n & (b & h & ? & ? & ? & <-) & ?) ?].
  by exists b, h.
Qed.

(** The neighbours of a free chunk are used. *)
Lemma heap_next_used G ml rl σ c b h hn :
  heap_ok 0 G ml rl σ → G !! c = Some b → chunks σ !! c = Some h → c_used h = false →
  c_last h = false → chunks σ !! (c + c_len h) = Some hn → c_used hn = true.
Proof.
  intros H HG HC Hu Hl HCn. pose proof (hp_layout _ _ _ _ _ H) as HL.
  destruct (layout_next _ _ _ _ _ _ HL HG HC Hl) as (? & HGn & _).
  pose proof (layout_pos _ (hp_os _ _ _ _ _ H) _ _ _ _ HL HG).
  pose proof (layout_pos _ (hp_os _ _ _ _ _ H) _ _ _ _ HL HGn).
  destruct (hp_coal _ _ _ _ _ H c b h hn HG HC Hl HCn); [lia..|congruence|done].
Qed.

(** [c] leaves the lists and is not split. *)
Lemma unlisted_heap_ok G ml rl ml' rl' σ τ c :
  heap_ok 0 G ml rl σ → free_step σ τ → flists ml' rl' τ →
  (∀ z, z ∈ ml' ++ rl' ↔ z ∈ ml ++ rl ∧ z ≠ c) → (∀ z, z ∈ ml' → z ∈ ml) →
  (∀ z, z ∈ tail ml' → z ∈ tail ml) → heap_ok c G ml' rl' τ.
Proof.
  intros [Hos HL Hco Hf Hli Hla Hwh] (fp & fn & mh & rh & ->) Hf' Hz Hz1 Hz2.
  split; cbn; try done; [by eapply coalesced_weaken| |by auto..].
  intros z. rewrite Hz, Hli. split; [tauto|]. intros [Hz' ?]. split; [split; [done|]|done].
  apply (listed_pos _ Hos _ _ HL z Hz').
Qed.

Section SplitHeap.
Context (G : gmap Z Z) (ml rl : list Z) (σ : wstate) (c b s : Z) (h : wmem_block_chunk_t).
Context (H : heap_ok 0 G ml rl σ) (Hc : c ∈ ml ++ rl).
Context (HG : G !! c = Some b) (HC : chunks σ !! c = Some h) (Hu : c_used h = false).
Context (Hs : 16 <= s) (Hs16 : s mod 16 = 0) (Hs' : s + 24 <= c_len h).

Lemma split_extra_notin : c + s ∉ ml ++ rl.
Proof.
  intros Hin. destruct (heap_listed_at _ _ _ _ _ _ H Hin) as (b' & h' & HG' & _).
  rewrite (layout_inside _ _ _ _ _ _ s (hp_layout _ _ _ _ _ H) HG HC) in HG' by lia. done.
Qed.

(** [c] is split and the second part takes its place in the lists. *)
Lemma split_heap_ok ml' rl' C' τ :
  split_at (chunks σ) C' c s h false false → os_blocks τ = os_blocks σ → chunks τ = C' →
  flists ml' rl' τ →
  (∀ z, z ∈ ml' ++ rl' ↔ z = c + s ∨ (z ≠ c ∧ z ∈ ml ++ rl)) →
  (∀ z, z ∈ ml' → (z = c + s ∧ c ∈ ml) ∨ (z ≠ c ∧ z ∈ ml)) →
  (∀ z, z ∈ tail ml' → z ≠ c ∧ z ∈ tail ml) →
  heap_ok c (<[c + s := b]> G) ml' rl' τ ∧ evol 0 G (chunks σ) (<[c + s := b]> G) C'.
Proof.
  intros Hsp Eos EC Hf' Hz Hz1 Hz2. pose proof H as [Hos HL Hco Hf Hli Hla Hwh].
  destruct (layout_u32 _ _ _ _ _ _ Hos HL HG HC) as [Hlen Hlen16].
  assert (s + 16 <= c_len h) as Hs16' by lia. assert (c_len h - s >= 24) by lia.
  pose proof (fun z n => has_split _ _ _ _ _ _ _ _ _ _ z false n HL HG HC Hs Hs16 Hs16' Hsp) as Hh.
  assert (∀ z, z ∈ ml ++ rl → z ≠ c → C' !! z = chunks σ !! z) as Hsame.
  { intros z Hz0 ?. rewrite (sp_other _ _ _ _ _ _ _ Hsp); [done|done|..].
    - intros ->. by apply split_extra_notin.
    - intros Hl ->. destruct (heap_listed_at _ _ _ _ _ _ H Hz0) as (? & hn & _ & HCn & Hun & _).
      rewrite (heap_next_used _ _ _ _ _ _ _ _ H HG HC Hu Hl HCn) in Hun. done. }
  split; [|by eapply evol_split; eauto]. split; rewrite ?Eos, ?EC; try done.
  - by eapply layout_split.
  - eapply coalesced_split; eauto. left. split; [done|]. intros Hl hn HCn.
    by eapply (heap_next_used G ml rl σ).
  - intros z. rewrite Hz, Hli. unfold listed. split.
    + intros [->|(Hzc & (n & Hn & ?) & ?)].
      * split; [|lia]. exists (c_len h - s). rewrite Hh. split; [by right; left|lia].
      * split; [|done]. exists n. rewrite Hh. split; [by right; right|done].
    + intros ((n & [(? & _)|[(-> & _)|(? & Hn)]]%Hh & ?) & ?); [done|by left|right].
      split; [done|]. split; [by exists n|]. intros ->.
      destruct Hn as (? & ? & HG0 & _). pose proof (layout_pos _ Hos _ _ _ _ HL HG0). lia.
  - intros z [[-> Hcm]|[? ?]]%Hz1.
    + eexists. split; [apply (sp_second _ _ _ _ _ _ _ Hsp)|].
      destruct (Hla c Hcm) as (h' & ? & ?). by simplify_eq.
    + rewrite Hsame by set_solver. by apply Hla.
  - intros z (? & Ht)%Hz2. rewrite Hsame; [by apply Hwh| |done]. destruct ml; set_solver.
Qed.
End SplitHeap.

(** The assignments that split a chunk. *)
Definition split_map (C : headers) (c s : Z) (h : wmem_block_chunk_t) (u1 : bool) : headers :=
  <[c + s := Chunk s (c_last h) false false (c_len h - s)]>
    (<[c := Chunk (c_prev h) false u1 false s]> C).

Lemma split_map_last C c s h u1 :
  0 < s → c_last h = true → split_at C (split_map C c s h u1) c s h u1 false.
Proof.
  intros Hs Hl. unfold split_map. split; rewrite ?Hl; try done.
  - rewrite lookup_insert_ne by lia. apply lookup_insert_eq.
  - apply lookup_insert_eq.
  - intros x ? ? _. by rewrite !lookup_insert_ne.
Qed.

Lemma split_map_next C c s h hn u1 :
  0 < s < c_len h → c_last h = false → C !! (c + c_len h) = Some hn →
  split_map C c s h u1 !! (c + c_len h) = Some hn ∧
  split_at C (<[c + c_len h := upd_prev (c_len h - s) hn]> (split_map C c s h u1)) c s h u1 false.
Proof.
  intros Hs Hl HCn. unfold split_map. split; [by rewrite !lookup_insert_ne by lia|].
  split; rewrite ?Hl.
  - rewrite !lookup_insert_ne by lia. apply lookup_insert_eq.
  - rewrite lookup_insert_ne by lia. apply lookup_insert_eq.
  - intros _ hn' ?. simplify_eq. apply lookup_insert_eq.
  - intros x ? ? Hx. rewrite !lookup_insert_ne; [done|auto|auto|]. symmetry. auto.
Qed.

(** The chunk [c] after [wmem_block_split_free_chunk]: it is free, in no list
    and at least [need] bytes long. *)
Definition carved (σ : wstate) (G : gmap Z Z) (c b need : Z) (h : wmem_block_chunk_t)
    (τ : wstate) : Prop :=
  heap_step σ τ ∧ ∃ G' ml' rl' h', heap_ok c G' ml' rl' τ ∧ G' !! c = Some b ∧
    chunks τ !! c = Some h' ∧ c_used h' = false ∧ need <= c_len h' <= c_len h ∧
    c_prev h' = c_prev h ∧ evol 0 G (chunks σ) G' (chunks τ).

Section SplitFree.
Context (G : gmap Z Z) (ml rl : list Z) (σ : wstate) (c b : Z) (h : wmem_block_chunk_t).
Context (H : heap_ok 0 G ml rl σ) (Hc : c ∈ ml ++ rl) (Ht : c ∉ tail ml).
Context (HG : G !! c = Some b) (HC : chunks σ !! c = Some h).

Lemma listed_free : c_used h = false ∧ 24 <= c_len h ∧ c ≠ NULL.
Proof.
  destruct (heap_listed_at _ _ _ _ _ _ H Hc) as (b' & h' & ? & ? & ? & ? & ?). by simplify_eq.
Qed.

(** The lists without [c]: it is popped from the master list or removed from
    the recycler. *)
Lemma take_out_spec need :
  need <= c_len h →
  wp (σ ← get;
      if c =? master_head σ then wmem_block_pop_master
      else
        dlen ← WMEM_CHUNK_DATA_LEN c;
        if sizeof_free_t <=? dlen then wmem_block_remove_from_recycler c else mret tt)
     (fun _ => carved σ G c b need h) σ.
Proof.
  intros Hneed. destruct listed_free as (Hu & H24 & Hc0).
  pose proof (hp_lists _ _ _ _ _ H) as Hf. pose proof (fl_nodup _ _ _ Hf) as Hnd.
  assert (∀ ml' rl' τ, free_step σ τ → flists ml' rl' τ →
    (∀ z, z ∈ ml' ++ rl' ↔ z ∈ ml ++ rl ∧ z ≠ c) → (∀ z, z ∈ ml' → z ∈ ml) →
    (∀ z, z ∈ tail ml' → z ∈ tail ml) → carved σ G c b need h τ) as Hfin.
  { intros ml' rl' τ Hst Hft Hz1 Hz2 Hz3. destruct (free_heap_step _ _ Hst) as [Hhs EC].
    split; [done|]. exists G, ml', rl', h. rewrite EC.
    split_and!; try done. by eapply unlisted_heap_ok. }
  apply wp_bind, wp_get. rewrite (fl_mh _ _ _ Hf). destruct (c =? hd0 ml) eqn:E; b2p.
  - destruct ml as [|m mt] eqn:Eml; [done|]. simpl in E. subst m.
    cbn [app] in Hnd. apply NoDup_cons in Hnd as [Hn _].
    eapply wp_mono; [by apply (pop_master_spec c mt rl)|]. intros ? τ [Hst Hft].
    apply (Hfin mt rl); [done|done|set_solver..|]. intros z Hz. simpl. destruct mt; set_solver.
  - assert (c ∈ rl) as Hcr.
    { destruct ml; [done|]. simpl in *. set_solver. }
    destruct σ as [C FP FN PR HP HN B MH RH OS] eqn:Eσ. cbn in HC. apply wp_bind. ws.
    destruct (layout_u32 _ _ _ _ _ _ (hp_os _ _ _ _ _ H) (hp_layout _ _ _ _ _ H) HG HC) as [Hlen _].
    rewrite (proj2 (Z.leb_le sizeof_free_t _)) by (unfold sizeof_free_t; rewrite u32_small; lia).
    apply list_elem_of_split in Hcr as (l1 & l2 & Erl). rewrite Erl in Hf, Hnd.
    eapply wp_mono; [by apply (remove_from_recycler_spec ml l1 c l2)|]. intros ? τ [Hst Hft].
    apply (Hfin ml (l1 ++ l2)); [done..| |done|done]. intros z.
    rewrite app_assoc in Hnd. destruct (NoDup_middle _ _ _ Hnd) as [Hn _]. set_solver.
Qed.

(** The second part takes the place of [c] in its list. *)
Lemma replace_lists_spec e υ :
  e ∉ ml ++ rl → e ≠ NULL → in_blocks (os_blocks σ) (e + 16) 8 = true →
  flists ml rl υ → os_blocks υ = os_blocks σ →
  wp (split_free_lists c e) (fun _ τ => free_step υ τ ∧ ∃ ml' rl', flists ml' rl' τ ∧
    (∀ z, z ∈ ml' ++ rl' ↔ z = e ∨ (z ≠ c ∧ z ∈ ml ++ rl)) ∧
    (∀ z, z ∈ ml' → (z = e ∧ c ∈ ml) ∨ (z ≠ c ∧ z ∈ ml)) ∧
    (∀ z, z ∈ tail ml' → z ≠ c ∧ z ∈ tail ml)) υ.
Proof.
  intros He He0 Hv Hf Eos. rewrite <- Eos in Hv. pose proof (fl_nodup _ _ _ Hf) as Hnd.
  destruct (decide (c ∈ ml)) as [Hcm|Hcm].
  - destruct ml as [|m mt] eqn:Eml; [set_solver|]. simpl in Ht.
    assert (c = m) as <- by set_solver. cbn [app] in Hnd. apply NoDup_cons in Hnd as [Hn _].
    eapply wp_mono; [by apply (split_free_lists_master_spec c e mt rl)|]. intros ? τ [Hst Hft].
    split; [done|]. exists (e :: mt), rl. split; [done|]. set_solver.
  - assert (c ∈ rl) as Hcr by set_solver.
    apply list_elem_of_split in Hcr as (l1 & l2 & Erl). rewrite Erl in Hf, Hnd, He.
    eapply wp_mono; [by apply (split_free_lists_recycler_spec c e ml l1 l2)|]. intros ? τ [Hst Hft].
    split; [done|]. exists ml, (l1 ++ e :: l2). split; [done|].
    rewrite app_assoc in Hnd. destruct (NoDup_middle _ _ _ Hnd) as [Hn _]. rewrite Erl.
    assert (∀ z, z ∈ tail ml → z ∈ ml) by (intros z; destruct ml; set_solver).
    split_and!; set_solver.
Qed.

End SplitFree.

Lemma split_free_chunk_spec G ml rl σ c b h size alignment :
  let need := round16 (20 + alignment + size) in
  heap_ok 0 G ml rl σ → c ∈ ml ++ rl → c ∉ tail ml → G !! c = Some b → chunks σ !! c = Some h →
  0 <= size → 0 <= alignment → 20 + alignment + size + 15 < 4294967296 → need <= c_len h →
  wp (wmem_block_split_free_chunk c size alignment) (fun _ => carved σ G c b need h) σ.
Proof.
  intros need H Hc Ht HG HC Hsz Hal Hov Hneed.
  destruct (listed_free _ _ _ _ _ _ _ H Hc HG HC) as (Hu & H24 & Hc0).
  pose proof H as [Hos HL _ Hf _ _ _].
  destruct (layout_u32 _ _ _ _ _ _ Hos HL HG HC) as [Hlen Hlen16].
  destruct (round16_spec (20 + alignment + size)) as [Hr1 Hr2]. fold need in Hr1, Hr2.
  unfold wmem_block_split_free_chunk. cbv zeta. change WMEM_CHUNK_HEADER_SIZE with 16.
  rewrite !(needed_size size alignment) by done. fold need.
  change sizeof_free_t with 8 at 1. rewrite (u32_small (need + 16 + 8)) by lia.
  apply wp_bind. pose proof (take_out_spec G ml rl σ c b h H Hc Ht HG HC need Hneed) as Hto.
  destruct σ as [C FP FN PR HP HN B MH RH OS]. cbn in HC, Hos, HL. ws.
  destruct (c_len h <? need + 16 + 8) eqn:E; b2p; [exact Hto|].
  assert (16 <= need) as Hn1 by dlia. assert (need + 24 <= c_len h) as Hn2 by lia.
  pose proof (layout_in_blocks _ _ _ _ _ _ HL HG HC).
  assert (in_blocks OS (c + need) 8 = true) by (eapply layout_valid; eauto; lia).
  assert (in_blocks OS (c + need + 16) 8 = true)
    by (rewrite <- Z.add_assoc; eapply layout_valid; eauto; lia).
  pose proof (layout_pos _ Hos _ _ _ _ HL HG).
  rewrite (u32_small (c_len h - need)) by lia. repeat ws.
  cbn [c_prev c_last c_used c_jumbo c_len].
  rewrite insert_insert_eq, (ck_jumbo _ _ _ _ _ (layout_at _ _ _ _ _ _ HL HG HC)), Hu,
    Z.mod_small by lia.
  pose proof (split_extra_notin G ml rl _ c b need h H HG HC Hn1 Hn2) as Hen.
  eapply wp_mono; [eapply (replace_lists_spec G ml rl _ c b h H Hc Ht HG HC (c + need)); try done; [unfold NULL; lia|by destruct Hf]|].
  intros ? τ [(fp & fn & mh & rh & ->) (ml' & rl' & Hf' & Hz1 & Hz2 & Hz3)]. cbn in Hf' |- *.
  do 4 ws. cbn [c_len]. rewrite Z.mod_small by lia. fold (split_map C c need h false).
  assert (∀ C', split_at C C' c need h false false →
    carved (WState C FP FN PR HP HN B MH RH OS) G c b need h
      (WState C' fp fn PR HP HN B mh rh OS)) as Hfin.
  { intros C' Hsp. split; [done|].
    destruct (split_heap_ok G ml rl _ c b need h H Hc HG HC Hu Hn1 Hr2 Hn2 ml' rl' C'
      (WState C' fp fn PR HP HN B mh rh OS) Hsp) as [Hh Hev]; try done; [by destruct Hf'|].
    eexists _, ml', rl', (Chunk (c_prev h) false false false need). split; [done|]. cbn.
    rewrite lookup_insert_ne by lia. split_and!; try done; try lia.
    apply (sp_first _ _ _ _ _ _ _ Hsp). }
  destruct (c_last h) eqn:Hl; simpl negb; cbn iota.
  { ws. apply Hfin, split_map_last; [lia|done]. }
  destruct (layout_next _ _ _ _ _ _ HL HG HC Hl) as (hn & HGn & HCn & _).
  pose proof (layout_in_blocks _ _ _ _ _ _ HL HGn HCn).
  destruct (split_map_next C c need h hn false ltac:(lia) Hl HCn) as [S3 Hsp].
  assert (split_map C c need h false !! (c + need) = Some (Chunk need (c_last h) false false (c_len h - need)))
    by apply lookup_insert_eq.
  ws. ws. cbn [c_last c_len]. rewrite Hl. replace (c + need + (c_len h - need)) with (c + c_len h) by lia.
  repeat ws. by apply Hfin.
Qed.

(** ** The end of a used chunk *)

Lemma has_pos os G C z u n : os_ok os → layout os G C → has G C z u n → z ≠ 0.
Proof.
  intros Hos H (b & h & HG & _). pose proof (layout_pos os Hos _ _ _ _ H HG). lia.
Qed.

Lemma evol_weaken os w G C G' C' :
  os_ok os → layout os G C → layout os G' C' → evol 0 G C G' C' → evol w G C G' C'.
Proof.
  intros Hos H H' [E1 E2 E3 E4]. split; [|done..]. intros z n _.
  destruct (decide (z = 0)) as [->|?]; [|by apply E1].
  split; intros Hz; exfalso; by eapply (has_pos os) in Hz.
Qed.

(** Giving the end of the used chunk [c] back, before it is merged. *)
Lemma split_used_heap_ok G ml rl σ c b s h C' :
  heap_ok 0 G ml rl σ → G !! c = Some b → chunks σ !! c = Some h → c_used h = true →
  16 <= s → s mod 16 = 0 → s + 16 <= c_len h →
  split_at (chunks σ) C' c s h true false →
  heap_ok (c + s) (<[c + s := b]> G) ml rl (with_chunks σ C') ∧
  evol c G (chunks σ) (<[c + s := b]> G) C'.
Proof.
  intros H HG HC Hu Hs Hs16 Hs' Hsp. pose proof H as [Hos HL Hco Hf Hli Hla Hwh].
  pose proof (fun z n => has_split _ _ _ _ _ _ _ _ _ _ z false n HL HG HC Hs Hs16 Hs' Hsp) as Hh.
  split; [|eapply evol_split; eauto]. split; cbn; try done.
  - by eapply layout_split.
  - eapply coalesced_split; eauto.
  - by destruct Hf.
  - intros z. rewrite Hli. unfold listed. split.
    + intros [(n & Hn & ?) ?]. split.
      * exists n. rewrite Hh. split; [right; right|done]. split; [|done]. intros ->.
        destruct Hn as (? & ? & ? & ? & ? & _). congruence.
      * intros ->. destruct Hn as (? & ? & HG' & _).
        by rewrite (layout_inside _ _ _ _ _ _ s HL HG HC ltac:(lia)) in HG'.
    + intros ((n & [(_ & ? & _)|[(? & _)|(? & Hn)]]%Hh & ?) & ?); [done..|].
      split; [by exists n|]. by eapply has_pos.
  - intros z Hz. destruct (Hla z Hz) as (hz & HCz & ?).
    destruct (heap_listed_at _ _ _ _ _ z H) as (? & hz' & HGz & ? & Hfree & _); [set_solver|].
    simplify_eq. destruct (decide (c_last h = false ∧ z = c + c_len h)) as [[Hl ->]|Hn].
    + eexists. by rewrite (sp_next _ _ _ _ _ _ _ Hsp Hl _ HCz).
    + exists hz. rewrite (sp_other _ _ _ _ _ _ _ Hsp); [done|..].
      * intros ->. congruence.
      * intros ->. by rewrite (layout_inside _ _ _ _ _ _ s HL HG HC ltac:(lia)) in HGz.
      * intros ? ->. by apply Hn.
  - intros z Hz. destruct (Hwh z Hz) as (hz & HCz & Hp & ?).
    destruct (heap_listed_at _ _ _ _ _ z H) as (? & hz' & HGz & ? & Hfree & _);
      [destruct ml; set_solver|].
    simplify_eq. exists hz. rewrite (sp_other _ _ _ _ _ _ _ Hsp); [done|..].
    + intros ->. congruence.
    + intros ->. by rewrite (layout_inside _ _ _ _ _ _ s HL HG HC ltac:(lia)) in HGz.
    + intros Hl ->. destruct (layout_next _ _ _ _ _ _ HL HG HC Hl) as (hn & _ & ? & ? & _).
      simplify_eq. lia.
Qed.

(** A used chunk has become shorter or longer; the heap is consistent again. *)
Definition resized (σ : wstate) (G : gmap Z Z) (c : Z) (P : Z → Prop) (τ : wstate) : Prop :=
  heap_step σ τ ∧ ∃ G' ml' rl' n, heap_ok 0 G' ml' rl' τ ∧ has G' (chunks τ) c true n ∧ P n ∧
    evol c G (chunks σ) G' (chunks τ).

Lemma split_used_chunk_spec G ml rl σ c b h data size :
  heap_ok 0 G ml rl σ → G !! c = Some b → chunks σ !! c = Some h → c_used h = true →
  pre_chunk σ !! (data - 4) = Some c → c + 20 <= data → 0 < size → data + size <= c + c_len h →
  wp (wmem_block_split_used_chunk data size)
     (fun _ => resized σ G c (fun n => data - c + size <= n <= c_len h)) σ.
Proof.
  intros H HG HC Hu Hpre Hd Hsz Hle. pose proof H as [Hos HL _ Hf _ _ _].
  destruct (layout_u32 _ _ _ _ _ _ Hos HL HG HC) as [Hlen Hlen16].
  pose proof (layout_at _ _ _ _ _ _ HL HG HC) as [Hj Hal _ _ ? ? _ _].
  pose proof (layout_range _ Hos _ _ _ _ HL HG) as (? & ? & ?).
  set (s := round16 (size + (data - c))).
  destruct (round16_spec (size + (data - c))) as [Hr1 Hr2]. fold s in Hr1, Hr2.
  assert (s <= c_len h) as Hsle by dlia.
  destruct σ as [C FP FN PR HP HN B MH RH OS] eqn:Eσ. cbn in HC, Hos, HL, Hpre.
  assert (resized σ G c (fun n => data - c + size <= n <= c_len h) σ) as Hsame.
  { rewrite Eσ. split; [done|]. exists G, ml, rl, (c_len h). cbn. split; [done|].
    split; [by eexists _, _|]. split; [lia|apply evol_refl]. }
  rewrite Eσ in Hsame. unfold wmem_block_split_used_chunk, WMEM_DATA_TO_CHUNK, WMEM_DATA_TO_PRE.
  unfold sizeof_pre_t. ws. ws. cbv zeta. rewrite (u32_small (size + (data - c))) by lia.
  rewrite align_size by lia. fold s. unfold sizeof_chunk_t. rewrite (u32_small (s + 8)) by lia.
  ws. ws. destruct (c_len h <? s + 8) eqn:E; b2p; [by ws|].
  assert (16 <= s) as Hs by dlia. assert (s + 16 <= c_len h) as Hs' by dlia.
  rewrite (u32_small (c_len h - s)) by lia.
  pose proof (layout_in_blocks _ _ _ _ _ _ HL HG HC).
  assert (in_blocks OS (c + s) 8 = true) by (eapply layout_valid; eauto; lia).
  assert (∀ C', split_at C C' c s h true false →
    wp (wmem_block_merge_free (c + s))
       (fun _ => resized (WState C FP FN PR HP HN B MH RH OS) G c
                   (fun n => data - c + size <= n <= c_len h))
       (WState C' FP FN PR HP HN B MH RH OS)) as Hfin.
  { intros C' Hsp.
    destruct (split_used_heap_ok G ml rl _ c b s h C' H HG HC Hu Hs Hr2 Hs' Hsp) as [Hh Hev].
    cbn in Hh. eapply wp_mono; [eapply (merge_free_spec (c + s) b); [exact Hh|apply lookup_insert_eq|
      apply (sp_second _ _ _ _ _ _ _ Hsp)|done]|].
    intros ? τ [Hst (G' & ml' & rl' & Hh' & Hev')]. split; [done|].
    exists G', ml', rl', s. split; [done|]. split; [|split; [lia|]].
    - apply (ev_used _ _ _ _ _ Hev'); [lia|]. eexists b, _.
      split; [rewrite lookup_insert_ne by lia; done|].
      split; [apply (sp_first _ _ _ _ _ _ _ Hsp)|done].
    - eapply evol_trans; [exact Hev|].
      assert (os_blocks τ = OS) as Eos by (destruct Hst as (_ & _ & _ & _ & ?); done).
      pose proof (hp_layout _ _ _ _ _ Hh'). rewrite Eos in *.
      eapply (evol_weaken OS); try done. exact (hp_layout _ _ _ _ _ Hh). }
  do 12 ws. cbn [c_prev c_last c_used c_jumbo c_len].
  rewrite insert_insert_eq, Hj, Hu, !Z.mod_small by lia. do 4 ws. cbn [c_len].
  fold (split_map C c s h true). ws. destruct (c_last h) eqn:Hl; simpl negb; cbn iota.
  { ws. apply Hfin, split_map_last; [lia|done]. }
  destruct (layout_next _ _ _ _ _ _ HL HG HC Hl) as (hn & HGn & HCn & _).
  pose proof (layout_in_blocks _ _ _ _ _ _ HL HGn HCn).
  destruct (split_map_next C c s h hn true ltac:(lia) Hl HCn) as [S3 Hsp].
  assert (split_map C c s h true !! (c + s) = Some (Chunk s (c_last h) false false (c_len h - s)))
    by apply lookup_insert_eq.
  ws. ws. cbn [c_last c_len]. rewrite Hl. replace (c + s + (c_len h - s)) with (c + c_len h) by lia.
  repeat ws. by apply Hfin.
Qed.
