(* ===== verification/WmemInv.v ===== *)
(** * The invariant of the allocator

    [winv A]: [A] maps the pointers handed out to the sizes asked for.  The heap
    is consistent, the block list holds exactly the memory obtained from exec,
    and every pointer handed out lies, with its bytes, in a used chunk of its
    own, behind the word that leads back to the chunk. *)

From stdpp Require Import base numbers gmap list.
From S2P Require Import Prelude CMem Words DList WmemBlock WmemLists WmemLayout WmemHeap WmemSplit.
Open Scope Z_scope.
#[local] Set Warnings "-clear-no-such-hyp".

(** [e]: the number of bytes from the header of the used chunk [c] to its end;
    [J] gives it for the jumbo chunks. *)
Definition extent (G J : gmap Z Z) (C : headers) (c e : Z) : Prop :=
  has G C c true e ∨ J !! c = Some e.

Definition jumbo_header : wmem_block_chunk_t := Chunk 0 true true true 0.

Record blocks_ok (G : gmap Z Z) (bl : list Z) (J : gmap Z Z) (σ : wstate) : Prop := {
  bk_nodup : NoDup bl;
  bk_list : mlist (hdr_next σ) (hdr_prev σ) NULL bl;
  bk_head : block_list σ = hd0 bl;
  bk_in : ∀ b, b ∈ bl ↔ G !! (b + 16) = Some b ∨ is_Some (J !! (b + 16));
  bk_jumbo : ∀ c e, J !! c = Some e →
    chunks σ !! c = Some jumbo_header ∧ (c - 16, e + 16) ∈ os_blocks σ;
  bk_os : ∀ b n, (b, n) ∈ os_blocks σ → b ∈ bl
}.

Record live_ok (G J : gmap Z Z) (L : gmap Z (Z * Z)) (σ : wstate) : Prop := {
  lv_at : ∀ p c n, L !! p = Some (c, n) →
    pre_chunk σ !! (p - 4) = Some c ∧ c + 20 <= p ∧ 0 < n ∧
    ∃ e, extent G J (chunks σ) c e ∧ p + n <= c + e;
  lv_inj : ∀ p p' c n n', L !! p = Some (c, n) → L !! p' = Some (c, n') → p = p';
  lv_all : ∀ c e, extent G J (chunks σ) c e → ∃ p n, L !! p = Some (c, n)
}.

Record wstate_ok (G : gmap Z Z) (ml rl bl : list Z) (J : gmap Z Z) (L : gmap Z (Z * Z))
    (σ : wstate) : Prop := {
  ws_heap : heap_ok 0 G ml rl σ;
  ws_blocks : blocks_ok G bl J σ;
  ws_live : live_ok G J L σ
}.

Definition winv (A : gmap Z Z) (σ : wstate) : Prop :=
  ∃ G ml rl bl J L, wstate_ok G ml rl bl J L σ ∧ A = snd <$> L.

(** ** Jumbo chunks are apart from the others *)

Section Jumbo.
Context (G : gmap Z Z) (ml rl bl : list Z) (J : gmap Z Z) (x : Z) (σ : wstate).
Context (H : heap_ok x G ml rl σ) (Hb : blocks_ok G bl J σ).

Lemma covered_block z :
  covered G (chunks σ) z → ∃ b, (b, 8388608) ∈ os_blocks σ ∧ b + 16 <= z < b + 8388608 ∧
    G !! (b + 16) = Some b.
Proof.
  intros (a & u & n & (b & h & HG & HC & _ & <-) & Hr).
  pose proof (hp_layout _ _ _ _ _ H) as HL.
  pose proof (layout_at _ _ _ _ _ _ HL HG HC) as [? ? ? ? ? ? _ _].
  exists b. split; [by eapply ly_block|]. split; [lia|]. by eapply ly_first.
Qed.

(** Memory of the jumbo block at [c - 16] is in no chunk of another block. *)
Lemma jumbo_apart c e z :
  J !! c = Some e → c - 16 <= z < c + e → ¬ covered G (chunks σ) z.
Proof.
  intros HJ Hz (b & Hin & Hr & HG)%covered_block.
  destruct (bk_jumbo _ _ _ _ Hb _ _ HJ) as [HC Hin'].
  destruct (os_disj _ (hp_os _ _ _ _ _ H) _ _ _ _ Hin Hin') as [[-> ?]|?]; [|lia].
  replace (c - 16 + 16) with c in HG by lia.
  pose proof (layout_at _ _ _ _ _ _ (hp_layout _ _ _ _ _ H) HG HC) as [? _ _ _ _ _ _ _]. done.
Qed.

Lemma jumbo_size c e : J !! c = Some e → 16 <= e ∧ 16 < c ∧ c + e < 4294967296.
Proof.
  intros HJ. destruct (bk_jumbo _ _ _ _ Hb _ _ HJ) as [HC Hin].
  pose proof (os_range _ (hp_os _ _ _ _ _ H) _ _ Hin). lia.
Qed.

(** The memory of a used chunk. *)
Lemma extent_range c e :
  extent G J (chunks σ) c e →
  16 <= e ∧ 16 < c ∧ c + e < 4294967296 ∧ in_blocks (os_blocks σ) c e = true.
Proof.
  intros [(b & h & HG & HC & _ & <-)|HJ].
  - pose proof (hp_layout _ _ _ _ _ H) as HL. pose proof (hp_os _ _ _ _ _ H) as Hos.
    pose proof (layout_at _ _ _ _ _ _ HL HG HC) as [? ? ? ? ? ? _ _].
    pose proof (layout_range _ Hos _ _ _ _ HL HG). split_and!; try lia.
    eapply in_blocks_true; [by eapply ly_block|lia..].
  - destruct (jumbo_size _ _ HJ) as (? & ? & ?). split_and!; try done.
    destruct (bk_jumbo _ _ _ _ Hb _ _ HJ) as [_ Hin]. eapply in_blocks_true; [done|lia..].
Qed.

(** Used chunks do not overlap. *)
Lemma extent_apart c e c' e' :
  extent G J (chunks σ) c e → extent G J (chunks σ) c' e' → c ≠ c' →
  c + e <= c' ∨ c' + e' <= c.
Proof.
  intros E E' Hne. pose proof (extent_range _ _ E) as (? & ? & _ & _).
  pose proof (extent_range _ _ E') as (? & ? & _ & _).
  destruct (decide (c + e <= c')) as [|N1]; [by left|]. destruct (decide (c' + e' <= c)) as [|N2]; [by right|].
  exfalso. destruct E as [E|HJ], E' as [E'|HJ'].
  - destruct E as (b & h & HG & HC & _ & <-), E' as (b' & h' & HG' & HC' & _ & <-).
    destruct (layout_apart _ _ _ _ _ _ _ _ _ (hp_layout _ _ _ _ _ H) HG HG' HC HC' Hne); lia.
  - apply (jumbo_apart c' e' (Z.max c c')); [done|lia|]. exists c, true, e. split; [done|lia].
  - apply (jumbo_apart c e (Z.max c c')); [done|lia|]. exists c', true, e'. split; [done|lia].
  - destruct (bk_jumbo _ _ _ _ Hb _ _ HJ) as [_ I1], (bk_jumbo _ _ _ _ Hb _ _ HJ') as [_ I2].
    destruct (os_disj _ (hp_os _ _ _ _ _ H) _ _ _ _ I1 I2) as [[? ?]|?]; lia.
Qed.

Lemma extent_fun c e e' : extent G J (chunks σ) c e → extent G J (chunks σ) c e' → e = e'.
Proof.
  intros [E|HJ] [E'|HJ'].
  - by destruct (has_fun _ _ _ _ _ _ _ E E').
  - exfalso. destruct (jumbo_size _ _ HJ'). eapply (jumbo_apart c e' c); [done|lia|].
    destruct (extent_range c e) as (? & _); [by left|]. exists c, true, e. split; [done|lia].
  - exfalso. destruct (jumbo_size _ _ HJ). eapply (jumbo_apart c e c); [done|lia|].
    destruct (extent_range c e') as (? & _); [by left|]. exists c, true, e'. split; [done|lia].
  - congruence.
Qed.
End Jumbo.

(** ** The operations on chunks leave the blocks and the other allocations alone *)

Lemma blocks_evol x w G ml rl bl J σ G' τ :
  heap_ok x G ml rl σ → blocks_ok G bl J σ → heap_step σ τ →
  evol w G (chunks σ) G' (chunks τ) → blocks_ok G' bl J τ.
Proof.
  intros H Hb (_ & Ep & En & Eb & Eos) Hev. pose proof Hb as [? ? ? Hin Hj ?].
  split; rewrite ?Ep, ?En, ?Eb, ?Eos; try done.
  - intros b. rewrite Hin. by rewrite (ev_first _ _ _ _ _ Hev).
  - intros c e HJ. destruct (Hj c e HJ) as [<- ?]. split; [|done].
    apply (ev_out _ _ _ _ _ Hev). destruct (jumbo_size _ _ _ _ _ _ _ H Hb _ _ HJ).
    eapply jumbo_apart; eauto. lia.
Qed.

Lemma live_evol G J L σ G' τ os :
  live_ok G J L σ → heap_step σ τ → evol 0 G (chunks σ) G' (chunks τ) →
  os_ok os → layout os G (chunks σ) → layout os G' (chunks τ) → live_ok G' J L τ.
Proof.
  intros [Ha Hi Hall] (Ep & _) Hev Hos HL HL'.
  assert (∀ c e, extent G J (chunks σ) c e ↔ extent G' J (chunks τ) c e) as He.
  { intros c e. unfold extent.
    by rewrite (ev_used _ _ _ _ _ (evol_weaken os (c + 1) _ _ _ _ Hos HL HL' Hev)) by lia. }
  split.
  - intros p c n HLp. rewrite Ep. destruct (Ha p c n HLp) as (? & ? & ? & e & ? & ?).
    split_and!; try done. exists e. by rewrite <- He.
  - done.
  - intros c e. rewrite <- He. apply Hall.
Qed.

Lemma wstate_evol G ml rl bl J L σ G' ml' rl' τ :
  wstate_ok G ml rl bl J L σ → heap_ok 0 G' ml' rl' τ → heap_step σ τ →
  evol 0 G (chunks σ) G' (chunks τ) → wstate_ok G' ml' rl' bl J L τ.
Proof.
  intros [H Hb Hl] H' Hst Hev. split; [done|by eapply (blocks_evol 0 0 G ml rl)|].
  assert (os_blocks τ = os_blocks σ) as E by (by destruct Hst as (_ & _ & _ & _ & ?)).
  pose proof (hp_layout _ _ _ _ _ H') as HL'. rewrite E in HL'.
  eapply live_evol; eauto; [apply (hp_os _ _ _ _ _ H)|apply (hp_layout _ _ _ _ _ H)].
Qed.

(** ** The allocations after an operation on the chunk [c] *)

Section Live.
Context (G J : gmap Z Z) (L : gmap Z (Z * Z)) (σ : wstate) (G' J' : gmap Z Z) (τ : wstate) (c : Z).
Context (Hl : live_ok G J L σ).
Context (Hext : ∀ z e, z ≠ c → extent G J (chunks σ) z e ↔ extent G' J' (chunks τ) z e).

(** [c] is handed out. *)
Lemma live_add ml rl bl x e p n :
  heap_ok x G' ml rl τ → blocks_ok G' bl J' τ → (∀ e, ¬ extent G J (chunks σ) c e) →
  extent G' J' (chunks τ) c e → c + 20 <= p → 0 < n → p + n <= c + e →
  pre_chunk τ = <[p - 4 := c]> (pre_chunk σ) →
  live_ok G' J' (<[p := (c, n)]> L) τ ∧ L !! p = None.
Proof.
  intros H Hb Hno He Hp Hn Hpe Epre. destruct Hl as [Ha Hi Hall].
  assert (∀ p' c' n', L !! p' = Some (c', n') → c' ≠ c ∧ p' ≠ p) as Hd.
  { intros p' c' n' HL'. destruct (Ha _ _ _ HL') as (_ & ? & ? & e' & He' & ?).
    assert (c' ≠ c) as Hc by (intros ->; by eapply Hno). split; [done|].
    rewrite (Hext c' e' Hc) in He'.
    destruct (extent_apart _ _ _ _ _ _ _ H Hb _ _ _ _ He He'); lia || congruence. }
  assert (L !! p = None) as HLp.
  { destruct (L !! p) as [[c' n']|] eqn:E; [|done]. by destruct (Hd _ _ _ E). }
  split; [|done]. split.
  - intros p' c' n'. destruct (decide (p' = p)) as [->|Hpp].
    + rewrite lookup_insert_eq. intros [= <- <-]. rewrite Epre, lookup_insert_eq.
      split_and!; try done. by exists e.
    + rewrite lookup_insert_ne by done. intros HL'. destruct (Hd _ _ _ HL') as [Hc _].
      destruct (Ha _ _ _ HL') as (? & ? & ? & e' & He' & ?). rewrite Epre, lookup_insert_ne by lia.
      split_and!; try done. exists e'. by rewrite <- Hext.
  - intros p1 p2 c' n1 n2. destruct (decide (p1 = p)) as [->|], (decide (p2 = p)) as [->|];
      rewrite ?lookup_insert_eq, ?lookup_insert_ne by done; [done|..|by apply Hi].
    + intros [= <- <-] HL'. by destruct (Hd _ _ _ HL').
    + intros HL' [= <- <-]. by destruct (Hd _ _ _ HL').
  - intros z e' He'. destruct (decide (z = c)) as [->|Hz].
    + exists p, n. apply lookup_insert_eq.
    + rewrite <- Hext in He' by done. destruct (Hall _ _ He') as (p' & n' & HL').
      exists p', n'. rewrite lookup_insert_ne; [done|]. intros <-. by rewrite HLp in HL'.
Qed.

(** [c], which belongs to [p], is freed. *)
Lemma live_del p n :
  L !! p = Some (c, n) → (∀ e, ¬ extent G' J' (chunks τ) c e) →
  (∀ p' c' n', delete p L !! p' = Some (c', n') →
     pre_chunk τ !! (p' - 4) = pre_chunk σ !! (p' - 4)) →
  live_ok G' J' (delete p L) τ.
Proof.
  intros HLp Hno Epre. destruct Hl as [Ha Hi Hall].
  assert (∀ p' c' n', delete p L !! p' = Some (c', n') → L !! p' = Some (c', n') ∧ c' ≠ c) as Hd.
  { intros p' c' n' [Hne HL']%lookup_delete_Some. split; [done|]. intros ->.
    apply Hne. by apply (Hi p p' c n n'). }
  split.
  - intros p' c' n' HLd. rewrite (Epre _ _ _ HLd). apply Hd in HLd as [HL' Hc]. destruct (Ha _ _ _ HL') as (? & ? & ? & e & ? & ?).
    split_and!; try done. exists e. by rewrite <- Hext.
  - intros p1 p2 c' n1 n2 [H1 _]%Hd [H2 _]%Hd. by apply (Hi p1 p2 c' n1 n2).
  - intros z e He. assert (z ≠ c) as Hz by (intros ->; by eapply Hno).
    rewrite <- Hext in He by done. destruct (Hall _ _ He) as (p' & n' & HL'). exists p', n'.
    rewrite lookup_delete_ne; [done|]. congruence.
Qed.

(** [c], which belongs to [p], gets another length. *)
Lemma live_resize p n e n' :
  L !! p = Some (c, n) → extent G' J' (chunks τ) c e → 0 < n' → p + n' <= c + e →
  pre_chunk τ = pre_chunk σ → live_ok G' J' (<[p := (c, n')]> L) τ.
Proof.
  intros HLp He Hn' Hpe Epre. destruct Hl as [Ha Hi Hall].
  destruct (Ha _ _ _ HLp) as (? & ? & _).
  assert (∀ p' c' m, p' ≠ p → L !! p' = Some (c', m) → c' ≠ c) as Hd
    by (intros p' c' m ? HL' ->; by assert (p = p') by (by apply (Hi p p' c n m))).
  split.
  - intros p' c' m. destruct (decide (p' = p)) as [->|Hpp].
    + rewrite lookup_insert_eq. intros [= <- <-]. rewrite Epre. split_and!; try done. by exists e.
    + rewrite lookup_insert_ne by done. intros HL'. pose proof (Hd _ _ _ Hpp HL').
      destruct (Ha _ _ _ HL') as (? & ? & ? & e' & ? & ?). rewrite Epre.
      split_and!; try done. exists e'. by rewrite <- Hext.
  - intros p1 p2 c' n1 n2. destruct (decide (p1 = p)) as [->|], (decide (p2 = p)) as [->|];
      rewrite ?lookup_insert_eq, ?lookup_insert_ne by done; [done|..|by apply Hi].
    + intros [= <- <-] HL'. by destruct (Hd p2 c n2).
    + intros HL' [= <- <-]. by destruct (Hd p1 c n1).
  - intros z e' He'. destruct (decide (z = c)) as [->|Hz].
    + exists p, n'. apply lookup_insert_eq.
    + rewrite <- Hext in He' by done. destruct (Hall _ _ He') as (p' & m & HL').
      exists p', m. rewrite lookup_insert_ne; [done|]. intros <-. congruence.
Qed.
End Live.

(** ** What the invariant says to a client *)

Lemma winv_disjoint A σ p n p' n' :
  winv A σ → A !! p = Some n → A !! p' = Some n' → p ≠ p' → p + n <= p' ∨ p' + n' <= p.
Proof.
  intros (G & ml & rl & bl & J & L & [H Hb [Ha Hi _]] & ->) Hp Hp' Hne.
  apply lookup_fmap_Some in Hp as ([c m] & <- & HLp). apply lookup_fmap_Some in Hp' as ([c' m'] & <- & HLp').
  destruct (Ha _ _ _ HLp) as (_ & ? & ? & e & He & ?), (Ha _ _ _ HLp') as (_ & ? & ? & e' & He' & ?).
  simpl. assert (c ≠ c') by (intros ->; by apply Hne, (Hi p p' c' m m')).
  destruct (extent_apart _ _ _ _ _ _ _ H Hb _ _ _ _ He He'); lia.
Qed.
