(* ===== verification/WmemAlloc.v ===== *)
(** * Allocating, freeing and resizing

    [wmem_block_alloc], [wmem_block_free] and [wmem_block_realloc] keep the
    invariant of the allocator: what they return lies in memory of its own. *)

From stdpp Require Import base numbers gmap list.
From S2P Require Import Prelude CMem Words DList WmemBlock WmemLists WmemLayout WmemHeap WmemSplit WmemInv.
Open Scope Z_scope.
#[local] Set Warnings "-clear-no-such-hyp".

(** ** Steps that concern the heap only *)

Lemma cycle_heap_spec x G ml rl σ :
  heap_ok x G ml rl σ →
  wp wmem_block_cycle_recycler
     (fun _ τ => free_step σ τ ∧ heap_ok x G ml (cycle (clen (chunks σ)) rl) τ) σ.
Proof.
  intros H. pose proof H as [Hos HL Hco Hf Hli Hla Hwh]. eapply wp_mono.
  { apply (cycle_recycler_spec ml rl σ Hf). intros c Hc.
    destruct (heap_listed_at _ _ _ _ _ c H) as (? & ? & _ & -> & _); [set_solver|by eexists]. }
  intros ? τ [(fp & fn & mh & rh & ->) Hf']. split; [by eexists _, _, _, _|].
  split; cbn in *; try done. intros z. rewrite <- Hli, !elem_of_app, cycle_perm. done.
Qed.

(** The header with another [used] flag. *)
Definition upd_used (u : bool) (h : wmem_block_chunk_t) : wmem_block_chunk_t :=
  Chunk (c_prev h) (c_last h) u (c_jumbo h) (c_len h).

(** Setting or clearing the flag of [c]: the chunk is exempt before, or after. *)
Lemma flag_heap_ok (u : bool) G ml rl σ c b h :
  heap_ok (if u then c else 0) G ml rl σ → G !! c = Some b → chunks σ !! c = Some h →
  c_used h = negb u →
  let C' := <[c := upd_used u h]> (chunks σ) in
  heap_ok (if u then 0 else c) G ml rl (with_chunks σ C') ∧ evol c G (chunks σ) G C'.
Proof.
  intros H HG HC Hu C'. pose proof H as [Hos HL Hco Hf Hli Hla Hwh].
  assert (C' !! c = Some (upd_used u h)) as HC' by apply lookup_insert_eq.
  assert (∀ z, z ≠ c → C' !! z = chunks σ !! z) as Hs by (intros; by apply lookup_insert_ne).
  assert (layout (os_blocks σ) G C') as HL'.
  { eapply layout_same; [|exact HL]. intros a y ha HGa HCa. destruct (decide (a = c)) as [->|?].
    - simplify_eq. by exists (upd_used u h).
    - exists ha. by rewrite Hs. }
  assert (coalesced c G C') as Hco'.
  { eapply coalesced_same; [exact HL|auto|]. destruct u; [done|]. by eapply coalesced_weaken. }
  assert (∀ z, z ≠ c → listed G C' z ↔ listed G (chunks σ) z) as Hls
    by (intros z ?; apply listed_same; auto).
  pose proof (layout_pos _ Hos _ _ _ _ HL HG).
  assert (∀ z, z ∈ ml ++ rl → z ≠ c) as Hnc.
  { intros z Hz ->. destruct (heap_listed_at _ _ _ _ _ c H Hz) as (? & ? & ? & ? & ? & _ & ?).
    destruct u; [done|]. simplify_eq. simpl in *. congruence. }
  split; [split; cbn|]; try done.
  - destruct u; [|done]. apply (coalesced_strengthen _ c b (upd_used true h) _ _ HL' Hco' HG HC').
    by left.
  - by destruct Hf.
  - intros z. rewrite Hli. destruct (decide (z = c)) as [->|Hz].
    + split; intros [(n & (b' & h' & _ & HC2 & Hu2 & _) & _) Hx]; destruct u; try done.
      * simplify_eq. simpl in Hu. congruence.
      * rewrite HC' in HC2. by simplify_eq.
    + rewrite Hls by done. destruct u.
      * split; intros [Hz1 ?]; (split; [done|]); [|done].
        by apply (listed_pos _ Hos _ _ HL z Hz1).
      * split; intros [Hz1 ?]; (split; [done|]); [done|].
        by apply (listed_pos _ Hos _ _ HL z Hz1).
  - intros z Hz. rewrite Hs by (apply Hnc; set_solver). by apply Hla.
  - intros z Hz. rewrite Hs by (apply Hnc; destruct ml; set_solver). by apply Hwh.
  - eapply evol_flag; eauto; [by unfold same_layout, upd_used|].
    pose proof (ck_len _ _ _ _ _ (layout_at _ _ _ _ _ _ HL HG HC)). lia.
Qed.

(** ** Blocks *)

Lemma add_to_block_list_spec bl b σ :
  mlist (hdr_next σ) (hdr_prev σ) NULL bl → block_list σ = hd0 bl → NoDup (b :: bl) → NULL ∉ bl →
  (∀ x, x ∈ b :: bl → in_blocks (os_blocks σ) x 8 = true) →
  wp (wmem_block_add_to_block_list b)
     (fun _ τ => ∃ hp hn, τ = WState (chunks σ) (free_prev σ) (free_next σ) (pre_chunk σ) hp hn
                                b (master_head σ) (recycler_head σ) (os_blocks σ) ∧
                 mlist hn hp NULL (b :: bl)) σ.
Proof.
  intros Hm Hh Hd H0 Hv. destruct σ as [C FP FN PR HP HN B MH RH OS]. cbn in *. subst B.
  assert (in_blocks OS b 8 = true) by (apply Hv; set_solver).
  pose proof (mlist_push HN HP b bl Hd H0 Hm) as Hm'. unfold tell in Hm'.
  unfold wmem_block_add_to_block_list. repeat ws. destruct (hd0 bl =? NULL) eqn:E; simpl negb; cbn iota; b2p.
  - repeat ws. by eexists _, _.
  - assert (in_blocks OS (hd0 bl) 8 = true) by (apply Hv; destruct bl; [done|]; set_solver).
    repeat ws. by eexists _, _.
Qed.

Lemma remove_from_block_list_spec l1 b l2 σ :
  let bl := l1 ++ b :: l2 in
  mlist (hdr_next σ) (hdr_prev σ) NULL bl → block_list σ = hd0 bl → NoDup bl → NULL ∉ bl →
  (∀ x, x ∈ bl → in_blocks (os_blocks σ) x 8 = true) →
  wp (wmem_block_remove_from_block_list b)
     (fun _ τ => ∃ hp hn, τ = WState (chunks σ) (free_prev σ) (free_next σ) (pre_chunk σ) hp hn
                                (hd0 (l1 ++ l2)) (master_head σ) (recycler_head σ) (os_blocks σ) ∧
                 hn !! b = Some (hd0 l2) ∧ mlist hn hp NULL (l1 ++ l2)) σ.
Proof.
  intros bl Hm Hh Hd H0 Hv. destruct σ as [C FP FN PR HP HN B MH RH OS]. cbn in *.
  destruct (mlist_remove HN HP NULL l1 b l2 Hd H0 H0 Hm) as (Hn & Hp & Hm').
  assert (b ∉ l1) as Hbl by (apply NoDup_app in Hd as (_ & Hx & _); intros ?; apply (Hx b); set_solver).
  unfold wmem_block_remove_from_block_list, tell in *. ws. ws.
  assert (hd0 l2 ≠ NULL → in_blocks OS (hd0 l2) 8 = true) as Hv2
    by (destruct l2; [done|]; intros _; apply Hv; unfold bl; set_solver).
  destruct (decide (l1 = [])) as [->|Hne].
  - cbn in *. repeat ws. destruct (hd0 l2 =? NULL) eqn:E; simpl negb; cbn iota; b2p;
      repeat ws; by eexists _, _.
  - destruct (nonempty_ends l1 Hne) as (p & n & Hpl & _ & Hpin & _). rewrite Hpl in *. simpl in *.
    assert (p ≠ NULL) by (intros ->; apply H0; unfold bl; set_solver).
    assert (in_blocks OS p 8 = true) by (apply Hv; unfold bl; set_solver).
    rewrite (proj2 (Z.eqb_neq p NULL)) by done. simpl. assert (p ≠ b) by congruence.
    assert (B = hd0 (l1 ++ l2)) as -> by (rewrite Hh; unfold bl; by destruct l1).
    repeat ws. destruct (hd0 l2 =? NULL) eqn:E; simpl negb; cbn iota; b2p;
      repeat ws; eexists _, _; (split; [done|]); (split; [by rewrite lookup_insert_ne|done]).
Qed.

(** A change outside of the blocks that are divided into chunks. *)
Lemma heap_frame x G ml rl σ τ :
  heap_ok x G ml rl σ → os_ok (os_blocks τ) →
  (∀ a b, G !! a = Some b → (b, 8388608) ∈ os_blocks τ) →
  (∀ z, is_Some (G !! z) → chunks τ !! z = chunks σ !! z) →
  (∀ z, is_Some (G !! z) → free_next τ !! z = free_next σ !! z ∧ free_prev τ !! z = free_prev σ !! z) →
  master_head τ = master_head σ → recycler_head τ = recycler_head σ → heap_ok x G ml rl τ.
Proof.
  intros H Hos' Hin Hs Ef Em Er. pose proof H as [Hos HL Hco Hf Hli Hla Hwh].
  assert (layout (os_blocks τ) G (chunks τ)) as HL'.
  { assert (layout (os_blocks σ) G (chunks τ)) as [? ? ? ?]; [|by split].
    eapply layout_same; [|exact HL]. intros a b h HG HC. exists h. by rewrite Hs by (by eexists). }
  assert (∀ z, listed G (chunks τ) z ↔ listed G (chunks σ) z) as Hls.
  { intros z. unfold listed, has. split; intros (n & (b & h & HG & HC & ?) & ?); exists n; (split; [|done]);
      exists b, h; (rewrite Hs in * by (by eexists)) || (rewrite Hs by (by eexists)); done. }
  assert (∀ z, z ∈ ml ++ rl → ∃ b h, G !! z = Some b ∧ chunks τ !! z = Some h ∧ 24 <= c_len h) as Hat.
  { intros z Hz. destruct (heap_listed_at _ _ _ _ _ z H Hz) as (b & h & HG & HC & _ & ? & _).
    exists b, h. by rewrite Hs by (by eexists). }
  assert (∀ z, z ∈ ml ++ rl → free_next τ !! z = free_next σ !! z ∧ free_prev τ !! z = free_prev σ !! z)
    as Hfz by (intros z (b & h & ? & _)%Hat; apply Ef; by eexists).
  split; try done.
  - intros a b h hn HG HC Hl HCn Hax Hnx. rewrite Hs in HC by (by eexists).
    destruct (layout_next _ _ _ _ _ _ HL HG HC Hl) as (? & HGn & _).
    rewrite Hs in HCn by (by eexists). by apply (Hco a b h hn).
  - destruct Hf as [? ? ? ? ? Hm Hr]. split; rewrite ?Em, ?Er; try done.
    + intros c Hc. destruct (Hat c Hc) as (b & h & HG & HC & ?). eapply layout_valid; eauto; lia.
    + eapply mlist_ext; [|exact Hm]. intros z Hz. apply Hfz. set_solver.
    + eapply ring_ext; [|exact Hr]. intros z Hz. apply Hfz. set_solver.
  - intros z. by rewrite Hls.
  - intros z Hz. destruct (Hat z) as (b & h & HG & _); [set_solver|].
    rewrite Hs by (by eexists). by apply Hla.
  - intros z Hz. destruct (Hat z) as (b & h & HG & _); [destruct ml; set_solver|].
    rewrite Hs by (by eexists). by apply Hwh.
Qed.

Lemma forget_lookup {A} os (m : gmap Z A) k : in_blocks os k 1 = true → forget os m !! k = m !! k.
Proof.
  intros Hk. unfold forget. rewrite map_lookup_filter. destruct (m !! k); [|done]. simpl.
  by rewrite option_guard_True.
Qed.

Section Exec.
Context `{E : Exec}.

Definition with_os (σ : wstate) (os : list (Z * Z)) : wstate :=
  WState (chunks σ) (free_prev σ) (free_next σ) (pre_chunk σ) (hdr_prev σ) (hdr_next σ)
    (block_list σ) (master_head σ) (recycler_head σ) os.

Lemma os_alloc_spec size Q σ :
  let a := AllocVec (os_blocks σ) size in
  (a = NULL → Q NULL σ) → (a ≠ NULL → Q a (with_os σ ((a, size) :: os_blocks σ))) →
  wp (os_alloc size) Q σ.
Proof.
  intros a H1 H2. unfold os_alloc. apply wp_bind, wp_get. cbv zeta. fold a.
  destruct (a =? NULL) eqn:Ea; b2p; [by apply wp_ret, H1|].
  apply wp_bind, wp_put, wp_ret. by apply H2.
Qed.

Lemma new_os_ok os size :
  os_ok os → 32 <= size → AllocVec os size ≠ NULL →
  os_ok ((AllocVec os size, size) :: os) ∧ ∀ n, (AllocVec os size, n) ∉ os.
Proof.
  intros [Hr Hd] Hs Hn. destruct (AllocVec_ok os size ltac:(lia) Hn) as (? & ? & ? & Hf).
  set (a := AllocVec os size) in *. rewrite Forall_forall in Hf.
  assert (∀ b n, (b, n) ∈ os → a + size <= b ∨ b + n <= a) as Hf' by (intros b n Hin; by apply (Hf (b, n))).
  split; [split|].
  - intros b n [?|Hin]%elem_of_cons; [simplify_eq; lia|by apply Hr].
  - intros b n b' n' [?|Hin]%elem_of_cons [?|Hin']%elem_of_cons; simplify_eq; [auto|..].
    + pose proof (Hf' _ _ Hin'). lia.
    + pose proof (Hf' _ _ Hin). lia.
    + by apply Hd.
  - intros n Hin. destruct (Hf' _ _ Hin); destruct (Hr _ _ Hin) as (_ & _ & ? & _); lia.
Qed.

Lemma in_blocks_mono os o a n : in_blocks os a n = true → in_blocks (o :: os) a n = true.
Proof. unfold in_blocks. simpl. intros ->. apply orb_true_r. Qed.

Lemma blocks_valid G ml rl bl J σ b :
  heap_ok 0 G ml rl σ → blocks_ok G bl J σ → b ∈ bl →
  b ≠ NULL ∧ in_blocks (os_blocks σ) b 8 = true.
Proof.
  intros H Hb Hin. assert (∃ n, (b, n) ∈ os_blocks σ) as [n Hn].
  { apply (bk_in _ _ _ _ Hb) in Hin as [HG|[e HJ]].
    - eexists. by eapply (ly_block _ _ _ (hp_layout _ _ _ _ _ H)).
    - destruct (bk_jumbo _ _ _ _ Hb _ _ HJ) as [_ Hos].
      replace (b + 16 - 16) with b in Hos by lia. by eexists. }
  pose proof (os_range _ (hp_os _ _ _ _ _ H) _ _ Hn). split; [unfold NULL; lia|].
  eapply in_blocks_true; [done|lia..].
Qed.

(** New memory is in no block. *)
Section Fresh.
Context (G : gmap Z Z) (ml rl bl : list Z) (J : gmap Z Z) (L : gmap Z (Z * Z)) (σ : wstate) (a n : Z).
Context (HW : wstate_ok G ml rl bl J L σ) (Hos' : os_ok ((a, n) :: os_blocks σ)).
Context (Ha : ∀ n, (a, n) ∉ os_blocks σ).

Lemma fresh_chunk : G !! (a + 16) = None ∧ ∀ e, ¬ extent G J (chunks σ) (a + 16) e.
Proof.
  destruct HW as [H Hb _]. assert (G !! (a + 16) = None) as HG.
  { destruct (G !! (a + 16)) as [b|] eqn:HG; [|done]. exfalso.
    pose proof (ly_block _ _ _ (hp_layout _ _ _ _ _ H) _ _ HG) as Hin.
    destruct (ly_chunk _ _ _ (hp_layout _ _ _ _ _ H) _ _ HG) as (h & _ & [? ? ? ? ? ? _ _]).
    pose proof (os_range _ Hos' a n ltac:(set_solver)).
    destruct (os_disj _ Hos' a n b 8388608) as [[-> _]|?]; [set_solver..| |lia].
    by apply (Ha 8388608). }
  split; [done|]. intros e [(? & ? & ? & _)|HJ]; [congruence|].
  destruct (bk_jumbo _ _ _ _ Hb _ _ HJ) as [_ Hin].
  replace (a + 16 - 16) with a in Hin by lia. by eapply Ha.
Qed.

Lemma fresh_block : NoDup (a :: bl) ∧ (NULL ∉ bl) ∧
  ∀ x, x ∈ a :: bl → in_blocks ((a, n) :: os_blocks σ) x 8 = true.
Proof.
  pose proof HW as [H Hb _]. destruct fresh_chunk as [HG HJ]. split_and!.
  - constructor; [|apply (bk_nodup _ _ _ _ Hb)]. intros Hin.
    apply (bk_in _ _ _ _ Hb) in Hin as [?|[e ?]]; [congruence|]. by apply (HJ e); right.
  - intros ?. by eapply blocks_valid.
  - pose proof (os_range _ Hos' a n ltac:(set_solver)).
    intros x [->|Hx]%elem_of_cons; [apply (in_blocks_true _ a n); [set_solver|lia..]|].
    apply in_blocks_mono. by eapply blocks_valid.
Qed.

(** The allocator with the new jumbo block, of which [p] is handed out. *)
Lemma jumbo_wstate_ok τ p size :
  let c := a + 16 in
  os_blocks τ = (a, n) :: os_blocks σ → chunks τ = <[c := jumbo_header]> (chunks σ) →
  free_prev τ = free_prev σ → free_next τ = free_next σ →
  master_head τ = master_head σ → recycler_head τ = recycler_head σ →
  pre_chunk τ = <[p - 4 := c]> (pre_chunk σ) →
  mlist (hdr_next τ) (hdr_prev τ) NULL (a :: bl) → block_list τ = a →
  c + 20 <= p → 0 < size → p + size <= a + n →
  wstate_ok G ml rl (a :: bl) (<[c := n - 16]> J) (<[p := (c, size)]> L) τ ∧ L !! p = None.
Proof.
  intros c Eos EC Efp Efn Em Er Ep Hml Ebl Hp Hs Hpn. pose proof HW as [H Hb Hl].
  destruct fresh_chunk as [HGc Hno]. destruct fresh_block as (Hnd & _ & _). fold c in HGc, Hno.
  assert (∀ z, z ≠ c → chunks τ !! z = chunks σ !! z) as Hs' by (intros; rewrite EC; by apply lookup_insert_ne).
  assert (heap_ok 0 G ml rl τ) as H'.
  { eapply (heap_frame 0 G ml rl σ); try done; rewrite ?Eos; try done.
    - intros z b HG. apply elem_of_cons. right. by eapply (ly_block _ _ _ (hp_layout _ _ _ _ _ H)).
    - intros z [b HG]. apply Hs'. congruence.
    - by rewrite Efp, Efn. }
  assert (∀ z e, z ≠ c → extent G J (chunks σ) z e ↔ extent G (<[c := n - 16]> J) (chunks τ) z e) as Hext.
  { intros z e Hz. unfold extent, has. rewrite Hs', (lookup_insert_ne J) by done. done. }
  assert (blocks_ok G (a :: bl) (<[c := n - 16]> J) τ) as Hb'.
  { split; try done.
    - intros b. rewrite elem_of_cons, (bk_in _ _ _ _ Hb). destruct (decide (b = a)) as [->|?].
      + fold c. rewrite lookup_insert_eq. naive_solver.
      + rewrite (lookup_insert_ne J) by (unfold c; lia). naive_solver.
    - intros z e. rewrite Eos. destruct (decide (z = c)) as [->|?].
      + rewrite lookup_insert_eq. intros [= <-]. rewrite EC, lookup_insert_eq. split; [done|].
        replace (c - 16) with a by (unfold c; lia). replace (n - 16 + 16) with n by lia. set_solver.
      + rewrite lookup_insert_ne by done. intros HJ. rewrite Hs' by done.
        destruct (bk_jumbo _ _ _ _ Hb _ _ HJ). split; [done|set_solver].
    - intros b m. rewrite Eos. intros [?|Hin]%elem_of_cons; [simplify_eq; set_solver|].
      apply (bk_os _ _ _ _ Hb) in Hin. set_solver. }
  destruct (live_add G J L σ G (<[c := n - 16]> J) τ c Hl Hext ml rl (a :: bl) 0 (n - 16) p size H' Hb' Hno)
    as [? ?]; try done; [right; apply lookup_insert_eq|unfold c; lia].
Qed.
End Fresh.

(** The heap with a new block, before its chunk is in the master list. *)
Lemma new_heap_ok G rl a σ τ :
  let c := a + 16 in
  heap_ok 0 G [] rl σ → os_ok ((a, 8388608) :: os_blocks σ) → (∀ n, (a, n) ∉ os_blocks σ) →
  os_blocks τ = (a, 8388608) :: os_blocks σ →
  chunks τ = <[c := Chunk 0 true false false 8388592]> (chunks σ) →
  flists [c] rl τ → heap_ok 0 (<[c := a]> G) [c] rl τ.
Proof.
  intros c [Hos HL Hco Hf Hli Hla Hwh] Hos' Ha Eos EC Hf'.
  assert (G !! c = None) as HGc.
  { destruct (G !! c) as [y|] eqn:HG; [|done]. exfalso.
    pose proof (ly_block _ _ _ HL _ _ HG) as Hin.
    destruct (ly_chunk _ _ _ HL _ _ HG) as (h & HC & [? ? ? ? ? ? _ _]).
    destruct (os_disj _ Hos' a 8388608 y 8388608) as [[-> _]|?]; [set_solver..| |unfold c in *; lia].
    by apply (Ha 8388608). }
  assert (∀ x, is_Some (G !! x) → x ≠ c) as Hne by (intros x [? ?] ->; congruence).
  assert (layout (os_blocks τ) (<[c := a]> G) (chunks τ)) as HL'.
  { rewrite Eos, EC. eapply layout_new; [exact Hos|exact HL|done|done|apply lookup_insert_eq|].
    intros x Hx. rewrite lookup_insert_ne; [done|]. intros <-. by apply (Hne c Hx). }
  assert (∀ z u n, z ≠ c → has (<[c := a]> G) (chunks τ) z u n ↔ has G (chunks σ) z u n) as Hh.
  { intros z u n Hz. unfold has. rewrite EC, !lookup_insert_ne by done. done. }
  assert (chunks τ !! c = Some (Chunk 0 true false false 8388592)) as HCc
    by (rewrite EC; apply lookup_insert_eq).
  split; try done.
  - by rewrite Eos.
  - intros z y h hn HGz HCz Hl HCn _ _. destruct (decide (z = c)) as [->|Hz].
    { simplify_eq. }
    destruct (layout_next _ _ _ _ _ _ HL' HGz HCz Hl) as (? & HGn & ? & Hp & _). simplify_eq.
    rewrite lookup_insert_ne in HGz by done.
    destruct (decide (z + c_len h = c)) as [Ec|Hzn].
    { rewrite Ec in *. simplify_eq. simpl in Hp.
      rewrite EC, lookup_insert_ne in HCz by done.
      pose proof (ck_len _ _ _ _ _ (layout_at _ _ _ _ _ _ HL HGz HCz)). lia. }
    rewrite EC, lookup_insert_ne in HCz, HCn by done. rewrite lookup_insert_ne in HGn by done.
    pose proof (layout_pos _ Hos _ _ _ _ HL HGz). pose proof (layout_pos _ Hos _ _ _ _ HL HGn).
    apply (Hco z y h hn); (done || lia).
  - intros z. cbn [app]. rewrite elem_of_cons. unfold listed. destruct (decide (z = c)) as [->|Hz].
    + split; [|by left]. intros _. split.
      * exists 8388592. split; [|lia]. eexists a, _. rewrite lookup_insert_eq. done.
      * pose proof (os_range _ Hos' a 8388608 ltac:(set_solver)). unfold c. lia.
    + cbn [app] in Hli. rewrite Hli. unfold listed. setoid_rewrite (Hh z false _ Hz). naive_solver.
  - intros z Hz. assert (z = c) as -> by set_solver. eexists. by split.
  - simpl. set_solver.
Qed.

Lemma new_wstate_ok G rl bl J L a σ τ :
  let c := a + 16 in
  wstate_ok G [] rl bl J L σ → os_ok ((a, 8388608) :: os_blocks σ) → (∀ n, (a, n) ∉ os_blocks σ) →
  NoDup (a :: bl) → heap_ok 0 (<[c := a]> G) [c] rl τ →
  os_blocks τ = (a, 8388608) :: os_blocks σ →
  chunks τ = <[c := Chunk 0 true false false 8388592]> (chunks σ) →
  pre_chunk τ = pre_chunk σ → mlist (hdr_next τ) (hdr_prev τ) NULL (a :: bl) → block_list τ = a →
  wstate_ok (<[c := a]> G) [c] rl (a :: bl) J L τ.
Proof.
  intros c [H Hb Hl] Hos' Ha Hnd H' Eos EC Ep Hm Ebl.
  assert (∀ e, J !! c ≠ Some e) as HJ.
  { intros e HJ. destruct (bk_jumbo _ _ _ _ Hb _ _ HJ) as [_ Hin].
    replace (c - 16) with a in Hin by (unfold c; lia). by eapply Ha. }
  assert (∀ x, x ≠ c → chunks τ !! x = chunks σ !! x) as Hs
    by (intros; rewrite EC; by apply lookup_insert_ne).
  split; [done|split|].
  - done.
  - done.
  - done.
  - intros b. rewrite elem_of_cons, (bk_in _ _ _ _ Hb). destruct (decide (b = a)) as [->|Hba].
    + split; [|by left]. intros _. left. apply lookup_insert_eq.
    + rewrite lookup_insert_ne by (unfold c; lia). naive_solver.
  - intros x e HJx. rewrite Hs by (intros ->; by eapply HJ). rewrite Eos.
    destruct (bk_jumbo _ _ _ _ Hb _ _ HJx). split; [done|set_solver].
  - intros b n. rewrite Eos. intros [?|Hin]%elem_of_cons; [simplify_eq; set_solver|].
    apply (bk_os _ _ _ _ Hb) in Hin. set_solver.
  - assert (∀ x e, extent (<[c := a]> G) J (chunks τ) x e ↔ extent G J (chunks σ) x e) as He.
    { intros x e. unfold extent, has. destruct (decide (x = c)) as [->|?].
      - rewrite EC, !lookup_insert_eq. split; [|intros [(b & h & HG & HC & _)|?]; [exfalso|by right]].
        + intros [(? & ? & _ & ? & ? & _)|?]; [by simplify_eq|by right].
        + pose proof (ly_block _ _ _ (hp_layout _ _ _ _ _ H) _ _ HG) as Hin.
          pose proof (layout_at _ _ _ _ _ _ (hp_layout _ _ _ _ _ H) HG HC) as [? ? ? ? ? ? _ _].
          destruct (os_disj _ Hos' a 8388608 b 8388608) as [[-> _]|?]; [set_solver..| |unfold c in *; lia].
          by apply (Ha 8388608).
      - rewrite Hs, lookup_insert_ne by done. done. }
    destruct Hl as [Hat Hinj Hall]. split.
    + intros p x n HL. rewrite Ep. destruct (Hat p x n HL) as (? & ? & ? & e & ? & ?).
      split_and!; try done. exists e. by rewrite He.
    + done.
    + intros x e. rewrite He. apply Hall.
Qed.

(** [wmem_block_new_block], when exec has the memory. *)
Lemma new_block_spec G rl bl J L σ :
  let a := AllocVec (os_blocks σ) 8388608 in
  wstate_ok G [] rl bl J L σ → a ≠ NULL →
  wp wmem_block_new_block
     (fun _ τ => wstate_ok (<[a + 16 := a]> G) [a + 16] rl (a :: bl) J L τ ∧
                 chunks τ !! (a + 16) = Some (Chunk 0 true false false 8388592)) σ.
Proof.
  intros a HW Hn. pose proof HW as [H Hb Hl]. destruct (new_os_ok _ 8388608 (hp_os _ _ _ _ _ H) ltac:(lia) Hn) as [Hos' Ha].
  fold a in Hos', Ha. pose proof (os_range _ Hos' a 8388608 ltac:(set_solver)) as (? & ? & _ & ?).
  unfold wmem_block_new_block. apply wp_bind. change WMEM_BLOCK_SIZE with 8388608.
  apply os_alloc_spec; [done|]. intros _. fold a.
  destruct (fresh_block _ _ _ _ _ _ _ _ _ HW Hos' Ha) as (Hnd & ? & Hv).
  apply wp_bind. eapply wp_mono.
  { eapply (add_to_block_list_spec bl a); [apply (bk_list _ _ _ _ Hb)|apply (bk_head _ _ _ _ Hb)|done..]. }
  intros ? σ1 (hp & hn & -> & Hm). cbn [with_os chunks free_prev free_next pre_chunk master_head
    recycler_head os_blocks]. unfold wmem_block_init_block.
  change (WMEM_BLOCK_TO_CHUNK a) with (a + 16). cbv zeta. apply wp_bind.
  apply wp_set_chunk; [apply (in_blocks_true _ a 8388608); [set_solver|lia..]|]. cbn beta.
  change (WMEM_BLOCK_SIZE - WMEM_BLOCK_HEADER_SIZE) with 8388592.
  set (σ1 := WState _ _ _ _ _ _ _ _ _ _).
  assert (flists [] rl σ1) as Hf1.
  { destruct (hp_lists _ _ _ _ _ H). split; cbn; try done. intros. by apply in_blocks_mono, fl_valid. }
  assert (a + 16 ∉ rl) as Hnin.
  { intros Hin. destruct (heap_listed_at _ _ _ _ _ _ H Hin) as (b & h & HG & HC & _).
    pose proof (ly_block _ _ _ (hp_layout _ _ _ _ _ H) _ _ HG) as Hbin.
    pose proof (layout_at _ _ _ _ _ _ (hp_layout _ _ _ _ _ H) HG HC) as [? ? ? ? ? ? _ _].
    destruct (os_disj _ Hos' a 8388608 b 8388608) as [[-> _]|?]; [set_solver..| |lia].
    by apply (Ha 8388608). }
  eapply wp_mono.
  { apply (push_master_spec [] rl (a + 16) σ1 Hf1); [done|unfold NULL; lia|].
    apply (in_blocks_true _ a 8388608); [cbn; set_solver|lia..]. }
  intros ? τ [Hst Hft]. pose proof Hst as (fp & fn & mh & rh & ->). cbn in Hft |- *.
  split; [|apply lookup_insert_eq].
  eapply (new_wstate_ok G rl bl J L a σ); try done. by eapply (new_heap_ok G rl a σ).
Qed.

(** ** Choosing a chunk *)

(** The head of the master list moves to the recycler. *)
Lemma retire_master_spec G c mt rl bl J L σ :
  wstate_ok G (c :: mt) rl bl J L σ →
  wp (_ ← wmem_block_pop_master; wmem_block_add_to_recycler c)
     (fun _ τ => wstate_ok G mt (add (clen (chunks σ)) c rl) bl J L τ ∧ free_step σ τ) σ.
Proof.
  intros HW. pose proof (ws_heap _ _ _ _ _ _ _ HW) as H.
  pose proof H as [Hos HL Hco Hf Hli Hla Hwh].
  destruct (heap_listed_at _ _ _ _ _ c H) as (b & h & HG & HC & Hu & H24 & Hc0); [set_solver|].
  destruct (layout_u32 _ _ _ _ _ _ Hos HL HG HC) as [Hlen _].
  pose proof (fl_nodup _ _ _ Hf) as Hnd. cbn [app] in Hnd. apply NoDup_cons in Hnd as [Hcn _].
  apply wp_bind. eapply wp_mono; [by apply (pop_master_spec c mt rl)|].
  intros ? υ [Hst Hfu]. destruct (free_heap_step _ _ Hst) as [Hhs EC]. rewrite <- EC in HC.
  eapply wp_mono.
  { apply (add_to_recycler_spec mt rl c h υ Hfu); try done; [|lia|].
    - intros z Hz. rewrite EC. destruct (heap_listed_at _ _ _ _ _ z H) as (? & ? & _ & -> & _);
        [set_solver|by eexists].
    - destruct Hhs as (_ & _ & _ & _ & ->). apply (fl_valid _ _ _ Hf). set_solver. }
  rewrite EC. intros ? τ [Hst' Hft]. pose proof (free_step_trans _ _ _ Hst Hst') as Hst2.
  split; [|done]. destruct (free_heap_step _ _ Hst2) as [Hhs2 EC2].
  eapply wstate_evol; [done| |done|rewrite EC2; apply evol_refl].
  destruct Hst2 as (fp & fn & mh & rh & ->). split; cbn; try done.
  - intros z. rewrite <- Hli, !elem_of_app, add_perm. set_solver.
  - intros z Hz. apply Hla. set_solver.
  - intros z Hz. apply Hwh. simpl. destruct mt; set_solver.
Qed.

(** The chunk [c] can serve a request of [need] bytes. *)
Definition serves (need : Z) (J : gmap Z Z) (L : gmap Z (Z * Z)) (c : Z) (τ : wstate) : Prop :=
  ∃ G ml rl bl b h, wstate_ok G ml rl bl J L τ ∧ c ∈ ml ++ rl ∧ (c ∉ tail ml) ∧
    G !! c = Some b ∧ chunks τ !! c = Some h ∧ need <= c_len h.

Lemma serves_head G m mt rl bl J L need σ h :
  wstate_ok G (m :: mt) rl bl J L σ → chunks σ !! m = Some h → need <= c_len h →
  serves need J L m σ.
Proof.
  intros HW HC Hn. pose proof (ws_heap _ _ _ _ _ _ _ HW) as H.
  destruct (heap_listed_at _ _ _ _ _ m H) as (b & h' & HG & HC' & _); [set_solver|].
  simplify_eq. exists G, (m :: mt), rl, bl, b, h. split; [done|]. split; [set_solver|].
  split; [|done]. simpl. pose proof (fl_nodup _ _ _ (hp_lists _ _ _ _ _ H)) as Hnd.
  cbn [app] in Hnd. apply NoDup_cons in Hnd as [? _]. set_solver.
Qed.

(** Exec has no memory for a block. *)
Definition no_block (σ : wstate) : Prop := AllocVec (os_blocks σ) 8388608 = NULL.

(** The first words of memory belong to nobody: a block list entry cannot be
    written through NULL. *)
Lemma add_null_faults os σ :
  os_ok os → os_blocks σ = os → wmem_block_add_to_block_list NULL σ = Fault.
Proof.
  intros Hos Eos. unfold wmem_block_add_to_block_list, set_hdr_prev, mbind, M_mbind, M_bind, get.
  destruct (valid σ NULL sizeof_hdr_t) eqn:Ev; [|done]. exfalso. unfold valid, in_blocks in Ev.
  apply existsb_exists in Ev as ([b n] & Hin%list_elem_of_In & Hb). rewrite Eos in Hin. b2p.
  destruct (os_range _ Hos _ _ Hin) as (_ & ? & _). unfold NULL in *. lia.
Qed.

Lemma new_block_or_fault G rl bl J L σ :
  wstate_ok G [] rl bl J L σ →
  wpx (no_block σ) wmem_block_new_block (fun _ τ => ∃ c, ∃ G' bl',
    wstate_ok G' [c] rl bl' J L τ ∧ ∃ h, chunks τ !! c = Some h ∧ c_len h = 8388592) σ.
Proof.
  intros HW. destruct (decide (AllocVec (os_blocks σ) 8388608 = NULL)) as [Hn|Hn].
  - unfold wmem_block_new_block. apply wpx_wp_bind, os_alloc_spec; [intros _|by intros []].
    pose proof (hp_os _ _ _ _ _ (ws_heap _ _ _ _ _ _ _ HW)) as Hos.
    unfold wpx, mbind, M_mbind, M_bind. by rewrite (add_null_faults _ σ Hos eq_refl).
  - apply wpx_of_wp. eapply wp_mono; [by apply (new_block_spec G rl bl J L σ HW)|].
    intros ? τ [HW' HC']. eexists _, _, _. split; [exact HW'|]. eexists. by split.
Qed.

(** The end of [alloc_choose]: the master list is empty, or its head is large
    enough. *)
Lemma choose_master_spec G ml rl bl J L need σ :
  wstate_ok G ml rl bl J L σ → need <= 8388592 →
  (∀ m mt, ml = m :: mt → ∃ h, chunks σ !! m = Some h ∧ need <= c_len h) →
  wpx (no_block σ)
     (σ ← get;
      _ ← (if master_head σ =? NULL then wmem_block_new_block else mret tt);
      σ ← get;
      mret (master_head σ)) (fun c τ => serves need J L c τ) σ.
Proof.
  intros HW Hn Hm. pose proof (hp_lists _ _ _ _ _ (ws_heap _ _ _ _ _ _ _ HW)) as Hf.
  apply wpx_wp_bind, wp_get, wpx_bind. rewrite (fl_mh _ _ _ Hf). destruct ml as [|m mt].
  - simpl. eapply wpx_mono; [by apply (new_block_or_fault G rl bl J L σ HW)|done|].
    intros ? τ (c & G' & bl' & HW' & h & HC' & Hlen). apply wpx_wp_bind, wp_get, wpx_of_wp, wp_ret.
    rewrite (fl_mh _ _ _ (hp_lists _ _ _ _ _ (ws_heap _ _ _ _ _ _ _ HW'))). simpl.
    eapply serves_head; [done..|lia].
  - destruct (Hm m mt eq_refl) as (h & ? & ?). simpl hd0.
    rewrite (proj2 (Z.eqb_neq m NULL)) by (pose proof (fl_null _ _ _ Hf); set_solver).
    apply wpx_of_wp, wp_ret, wpx_wp_bind, wp_get, wpx_of_wp, wp_ret. rewrite (fl_mh _ _ _ Hf). by eapply serves_head.
Qed.

Lemma alloc_choose_spec G ml rl bl J L need σ :
  wstate_ok G ml rl bl J L σ → need <= 8388592 →
  wpx (no_block σ) (alloc_choose need) (fun c τ => serves need J L c τ) σ.
Proof.
  intros HW Hn. pose proof HW as [H _ _]. pose proof H as [_ HL _ Hf Hli _ Hwh].
  unfold alloc_choose. apply wpx_wp_bind, wp_get. rewrite (fl_rh _ _ _ Hf), (fl_mh _ _ _ Hf).
  assert (∀ c, c ∈ ml ++ rl → ∃ b h, G !! c = Some b ∧ chunks σ !! c = Some h ∧ c ≠ NULL) as Hat.
  { intros c Hc. destruct (heap_listed_at _ _ _ _ _ c H Hc) as (b & h & ? & ? & _ & _ & ?).
    by exists b, h. }
  apply wpx_wp_bind.
  assert (∃ r, wp (if negb (hd0 rl =? NULL) then len ← len_of (hd0 rl); mret (need <=? len)
    else mret false) (fun x τ => x = r ∧ τ = σ) σ ∧ (r = true → ∃ c l b h, rl = c :: l ∧
      G !! c = Some b ∧ chunks σ !! c = Some h ∧ need <= c_len h)) as (r & Hr & Hrt).
  { destruct rl as [|c l]; [by exists false|]. destruct (Hat c) as (b & h & ? & ? & ?); [set_solver|].
    exists (need <=? c_len h). simpl hd0. rewrite (proj2 (Z.eqb_neq c NULL)) by done. split.
    - destruct σ. apply wp_bind. by ws; ws.
    - intros ?%Z.leb_le. by exists c, l, b, h. }
  eapply wp_mono; [exact Hr|]. intros ? ? [-> ->]. destruct r.
  { destruct (Hrt eq_refl) as (c & l & b & h & -> & ? & ? & ?). apply wpx_of_wp, wp_ret. simpl hd0.
    exists G, ml, (c :: l), bl, b, h. split_and!; try done; [set_solver|].
    pose proof (fl_nodup _ _ _ Hf) as Hnd. apply NoDup_app in Hnd as (_ & Hx & _).
    intros ?. apply (Hx c); [destruct ml; set_solver|set_solver]. }
  apply wpx_wp_bind. destruct ml as [|m mt].
  { simpl. apply wp_ret, wpx_wp_bind, wp_ret.
    by apply (choose_master_spec G [] rl bl J L need σ). }
  destruct (Hat m) as (b & h & HG & HC & Hm0); [set_solver|]. simpl hd0.
  rewrite (proj2 (Z.eqb_neq m NULL)) by done. simpl negb. cbn iota.
  destruct σ as [C FP FN PR HP HN B MH RH OS] eqn:Eσ. apply wp_bind. ws. ws. rewrite <- Eσ in *.
  apply wpx_wp_bind. destruct (c_len h <? need) eqn:E2; b2p.
  - eapply wp_mono; [by apply (retire_master_spec G m mt rl bl J L)|].
    intros ? τ [HW' Hst]. destruct (free_heap_step _ _ Hst) as [(_ & _ & _ & _ & Eos) EC].
    eapply wpx_mono; [eapply choose_master_spec; [done|done|]|by unfold no_block; rewrite Eos|done].
    intros m' mt' ->. destruct (Hwh m') as (h' & ? & _ & ?); [set_solver|].
    exists h'. rewrite EC. split; [done|lia].
  - apply wp_ret. eapply choose_master_spec; [done..|]. intros m' mt' [= <- <-]. by exists h.
Qed.

(** ** Allocation *)

(** The address that is returned lies, with the word in front of it and [size]
    bytes, in the chunk. *)
Lemma data_range c size k need :
  0 < size → 0 <= k < 32 → 16 < c → c + need <= 4294967296 →
  20 + 2 ^ k + size <= need →
  let p := align_address (c + 16 + 4) (2 ^ k) in
  c + 20 <= p ∧ p + size <= c + need ∧ p mod 2 ^ k = 0.
Proof.
  intros Hs Hk Hc Hle Hn p. assert (0 < 2 ^ k) by (apply Z.pow_pos_nonneg; lia).
  destruct (align_address_spec (c + 16 + 4) k) as [? ?]; [lia..|]. fold p in H0, H1. lia.
Qed.

(** What an allocation returns. *)
Definition handed_out (L : gmap Z (Z * Z)) (size al p : Z) (τ : wstate) : Prop :=
  p mod al = 0 ∧ p ≠ NULL ∧ L !! p = None ∧
  ∃ G ml rl bl J c, wstate_ok G ml rl bl J (<[p := (c, size)]> L) τ.

(** The part of [wmem_block_alloc] after the choice of the chunk. *)
Lemma alloc_take_spec J L σ size k c :
  let need := round16 (20 + 2 ^ k + size) in
  serves need J L c σ → 0 < size → 0 <= k < 32 → 20 + 2 ^ k + size + 15 < 4294967296 →
  wp (_ ← wmem_block_split_free_chunk c size (2 ^ k);
      _ ← wmem_block_cycle_recycler;
      _ ← set_used c true;
      let data := align_address (c + WMEM_CHUNK_HEADER_SIZE + sizeof_pre_t) (2 ^ k) in
      _ ← set_pre (WMEM_DATA_TO_PRE data) c;
      mret data) (fun p τ => handed_out L size (2 ^ k) p τ) σ.
Proof.
  intros need (G & ml & rl & bl & b & h & HW & Hc & Ht & HG & HC & Hn) Hs Hk Hov.
  assert (0 < 2 ^ k) as Hk0 by (apply Z.pow_pos_nonneg; lia).
  pose proof HW as [H Hb Hl]. pose proof (hp_os _ _ _ _ _ H) as Hos.
  pose proof (hp_layout _ _ _ _ _ H) as HL.
  apply wp_bind. eapply wp_mono.
  { apply (split_free_chunk_spec G ml rl σ c b h size (2 ^ k)); (done || lia). }
  intros ? σ1 (Hst1 & G1 & ml1 & rl1 & h1 & H1 & HG1 & HC1 & Hu1 & Hlen1 & _ & Hev1). fold need in Hlen1.
  apply wp_bind. eapply wp_mono; [by apply (cycle_heap_spec c G1 ml1 rl1)|].
  intros ? σ2 [Hst2 H2]. destruct (free_heap_step _ _ Hst2) as [Hst2' EC2].
  pose proof (heap_step_trans _ _ _ Hst1 Hst2') as Hst. rewrite <- EC2 in HC1.
  destruct (flag_heap_ok true G1 ml1 _ σ2 c b h1 H2 HG1 HC1) as [H3 Hev3]; [by rewrite Hu1|].
  assert (os_blocks σ2 = os_blocks σ) as Eos by (by destruct Hst as (_ & _ & _ & _ & ?)).
  pose proof (hp_layout _ _ _ _ _ H2) as HL2. rewrite Eos in HL2.
  assert (evol c G (chunks σ) G1 (<[c := upd_used true h1]> (chunks σ2))) as Hev.
  { eapply evol_trans; [|exact Hev3]. rewrite EC2. eapply (evol_weaken (os_blocks σ)); try done.
    by rewrite <- EC2. }
  pose proof (layout_at _ _ _ _ _ _ HL2 HG1 HC1) as [_ _ _ _ Hlo Hhi _ _].
  pose proof (layout_range _ Hos _ _ _ _ HL2 HG1). pose proof (layout_pos _ Hos _ _ _ _ HL2 HG1).
  destruct (round16_spec (20 + 2 ^ k + size)) as [Hr _]. fold need in Hr.
  destruct (data_range c size k need) as (Hp1 & Hp2 & Hp3); try done; try lia.
  set (p := align_address (c + 16 + 4) (2 ^ k)) in *.
  assert (blocks_ok G1 bl J (with_chunks σ2 (<[c := upd_used true h1]> (chunks σ2)))) as Hb3
    by (by eapply (blocks_evol 0 c G ml rl)).
  assert (∀ e, ¬ extent G J (chunks σ) c e) as Hno.
  { intros e He. destruct (heap_listed_at _ _ _ _ _ c H Hc) as (? & ? & ? & ? & ? & ? & _).
    destruct He as [He|HJ]; [destruct He as (? & ? & ? & ? & ? & _); congruence|].
    destruct (jumbo_size _ _ _ _ _ _ _ H Hb _ _ HJ). eapply (jumbo_apart _ _ _ _ _ _ _ H Hb c e c); [done|lia|].
    exists c, false, (c_len h). simplify_eq. split; [by eexists _, _|lia]. }
  pose proof (layout_in_blocks _ _ _ _ _ _ HL2 HG1 HC1) as Hvc.
  assert (in_blocks (os_blocks σ) (p - 4) 4 = true) as Hvp.
  { replace (p - 4) with (c + (p - 4 - c)) by lia. eapply layout_valid; eauto; lia. }
  clear Hst2 H2. destruct σ2 as [C FP FN PR HP HN B MH RH OS]. cbn in *. subst OS.
  repeat ws. change (align_address _ _) with p. repeat ws.
  change (WMEM_DATA_TO_PRE p) with (p - 4). fold (upd_used true h1).
  set (τ := WState _ _ _ _ _ _ _ _ _ _).
  assert (heap_ok 0 G1 ml1 _ τ) as Hh4 by (destruct H3 as [? ? ? Hf3 ? ? ?]; split; try done; by destruct Hf3).
  assert (blocks_ok G1 bl J τ) as Hb4 by (by destruct Hb3).
  assert (has G1 (<[c := upd_used true h1]> C) c true (c_len h1)) as Hhas
    by (eexists b, _; by rewrite lookup_insert_eq).
  destruct (live_add G J L σ G1 J τ c Hl ltac:(intros z e Hz; unfold extent; cbn [chunks τ];
    by rewrite (ev_used _ _ _ _ _ Hev z e Hz)) ml1 _ bl 0 (c_len h1) p size Hh4 Hb4 Hno)
    as [Hl4 HLp]; [by left|lia|lia|lia|destruct Hst as (Epre & _); cbn in Epre |- *; by rewrite Epre|].
  split_and!; [done|unfold NULL; lia|done|]. by eexists _, _, _, _, _, _.
Qed.

(** Memory of exec that is not a block of chunks: a jumbo block. *)
Lemma alloc_jumbo_spec G ml rl bl J L σ size k :
  wstate_ok G ml rl bl J L σ → 0 < size → 0 <= k < 32 → size + 2 ^ k + 36 < 4294967296 →
  wp (wmem_block_alloc_jumbo size (2 ^ k))
     (fun p τ => (p = NULL ∧ τ = σ ∧ AllocVec (os_blocks σ) (size + 2 ^ k + 36) = NULL) ∨
                 handed_out L size (2 ^ k) p τ) σ.
Proof.
  intros HW Hs Hk Hov. pose proof HW as [H Hb Hl]. assert (0 < 2 ^ k) by (apply Z.pow_pos_nonneg; lia).
  unfold wmem_block_alloc_jumbo. change WMEM_BLOCK_HEADER_SIZE with 16. change WMEM_CHUNK_HEADER_SIZE with 16.
  change sizeof_pre_t with 4. rewrite u32_small by lia.
  set (n := size + 2 ^ k + 4 + 16 + 16). apply wp_bind. apply os_alloc_spec.
  { intros Hnull. rewrite Z.eqb_refl. apply wp_ret. left. split; [done|]. split; [done|].
    rewrite <- Hnull. f_equal. unfold n. lia. }
  intros Hn. destruct (new_os_ok _ n (hp_os _ _ _ _ _ H) ltac:(unfold n; lia) Hn) as [Hos' Ha].
  set (a := AllocVec (os_blocks σ) n) in *. rewrite (proj2 (Z.eqb_neq a NULL)) by done.
  pose proof (os_range _ Hos' a n ltac:(set_solver)) as (? & ? & _ & ?).
  destruct (fresh_block _ _ _ _ _ _ _ _ _ HW Hos' Ha) as (Hnd & ? & Hv).
  apply wp_bind. eapply wp_mono.
  { eapply (add_to_block_list_spec bl a); [apply (bk_list _ _ _ _ Hb)|apply (bk_head _ _ _ _ Hb)|done..]. }
  intros ? σ1 (hp & hn & -> & Hm). cbn [with_os chunks free_prev free_next pre_chunk master_head
    recycler_head os_blocks]. change (WMEM_BLOCK_TO_CHUNK a) with (a + 16). cbv zeta.
  destruct (data_range (a + 16) size k (n - 16)) as (Hp1 & Hp2 & Hp3); try done; try (unfold n in *; lia).
  set (p := align_address (a + 16 + 16 + 4) (2 ^ k)) in *. unfold WMEM_DATA_TO_PRE.
  change sizeof_pre_t with 4.
  assert (in_blocks ((a, n) :: os_blocks σ) (a + 16) 8 = true)
    by (apply (in_blocks_true _ a n); [set_solver|unfold n; lia..]).
  assert (in_blocks ((a, n) :: os_blocks σ) (p - 4) 4 = true)
    by (apply (in_blocks_true _ a n); [set_solver|unfold n in *; lia..]).
  repeat ws. fold jumbo_header. right.
  set (τ := WState _ _ _ _ _ _ _ _ _ _).
  destruct (jumbo_wstate_ok _ _ _ _ _ _ _ a n HW Hos' Ha τ p size) as [HW' HLp]; try done;
    try (unfold n in *; lia).
  split; [done|]. split; [unfold NULL; lia|]. split; [done|]. by eexists _, _, _, _, _, _.
Qed.

(** An allocation hands out memory, or exec has no memory: then a large request
    returns NULL, and a small one faults. *)
Lemma wmem_block_alloc_runs G ml rl bl J L σ size k :
  wstate_ok G ml rl bl J L σ → 0 < size → 0 <= k < 32 → size + 2 ^ k + 36 < 4294967296 →
  wpx (round16 (20 + 2 ^ k + size) <= 8388592 ∧ no_block σ) (wmem_block_alloc size (2 ^ k))
     (fun p τ => (p = NULL ∧ τ = σ ∧ 8388592 < round16 (20 + 2 ^ k + size) ∧
                  AllocVec (os_blocks σ) (size + 2 ^ k + 36) = NULL) ∨
                 handed_out L size (2 ^ k) p τ) σ.
Proof.
  intros HW Hs Hk Hov. assert (0 < 2 ^ k) by (apply Z.pow_pos_nonneg; lia).
  unfold wmem_block_alloc. cbv zeta.
  change (WMEM_CHUNK_HEADER_SIZE + 2 ^ k + sizeof_pre_t + size) with (16 + 2 ^ k + sizeof_pre_t + size).
  rewrite !(needed_size size (2 ^ k)) by lia.
  change (WMEM_BLOCK_SIZE - WMEM_BLOCK_HEADER_SIZE) with 8388592.
  destruct (8388592 <? round16 (20 + 2 ^ k + size)) eqn:Eb; b2p.
  - apply wpx_of_wp. eapply wp_mono; [by eapply alloc_jumbo_spec|].
    intros p τ [(-> & -> & ?)|?]; [left|right]; done.
  - apply wpx_bind. eapply wpx_mono; [eapply alloc_choose_spec; [exact HW|exact Eb]|done|].
    intros c τ Hc. apply wpx_of_wp. eapply wp_mono; [eapply alloc_take_spec; [exact Hc|lia..]|]. by right.
Qed.

Lemma wmem_block_alloc_spec G ml rl bl J L σ size k :
  wstate_ok G ml rl bl J L σ → 0 < size → 0 <= k < 32 → size + 2 ^ k + 36 < 4294967296 →
  (round16 (20 + 2 ^ k + size) <= 8388592 → AllocVec (os_blocks σ) 8388608 ≠ NULL) →
  wp (wmem_block_alloc size (2 ^ k))
     (fun p τ => (p = NULL ∧ τ = σ ∧ 8388592 < round16 (20 + 2 ^ k + size) ∧
                  AllocVec (os_blocks σ) (size + 2 ^ k + 36) = NULL) ∨
                 handed_out L size (2 ^ k) p τ) σ.
Proof.
  intros HW Hs Hk Hov Hos. eapply wp_of_wpx; [by eapply wmem_block_alloc_runs|].
  intros [Hn H0]. by apply Hos.
Qed.

(** ** Freeing *)

Lemma free_normal_spec G ml rl bl J L σ p c n :
  wstate_ok G ml rl bl J L σ → L !! p = Some (c, n) → is_Some (G !! c) →
  wp (_ ← set_used c false; _ ← wmem_block_merge_free c; wmem_block_cycle_recycler)
     (fun _ τ => ∃ G' ml' rl', wstate_ok G' ml' rl' bl J (delete p L) τ ∧ os_blocks τ = os_blocks σ) σ.
Proof.
  intros [H Hb Hl] HLp [b HG]. pose proof (hp_os _ _ _ _ _ H) as Hos.
  pose proof (hp_layout _ _ _ _ _ H) as HL.
  destruct (lv_at _ _ _ _ Hl _ _ _ HLp) as (_ & _ & _ & e & He & _).
  assert (J !! c = None) as HJ.
  { destruct (J !! c) as [e'|] eqn:HJ; [|done]. exfalso.
    destruct (jumbo_size _ _ _ _ _ _ _ H Hb _ _ HJ).
    eapply (jumbo_apart _ _ _ _ _ _ _ H Hb c e' c); [done|lia|].
    destruct (ly_chunk _ _ _ HL _ _ HG) as (h & HC & [? ? ? ? ? ? _ _]).
    exists c, (c_used h), (c_len h). split; [by eexists _, _|lia]. }
  destruct He as [(b' & h & HG' & HC & Hu & _)|?]; [|congruence]. simplify_eq.
  pose proof (layout_pos _ Hos _ _ _ _ HL HG).
  destruct (flag_heap_ok false G ml rl σ c b h H HG HC Hu) as [H1 Hev1].
  apply wp_bind. assert (wp (set_used c false)
    (fun _ τ => τ = with_chunks σ (<[c := upd_used false h]> (chunks σ))) σ) as Hset.
  { pose proof (layout_in_blocks _ _ _ _ _ _ HL HG HC). destruct σ. cbn in *. repeat ws. done. }
  eapply wp_mono; [exact Hset|]. intros ? σ1 ->. set (σ1 := with_chunks _ _) in *.
  apply wp_bind. eapply wp_mono.
  { by eapply (merge_free_spec c b (upd_used false h) G ml rl σ1 H1 HG (lookup_insert_eq _ _ _)). }
  intros ? σ2 [Hst2 (G2 & ml2 & rl2 & H2 & Hev2)].
  eapply wp_mono; [by apply cycle_heap_spec|]. intros ? τ [Hst3 H3].
  destruct (free_heap_step _ _ Hst3) as [Hst3' EC3].
  assert (heap_step σ τ) as Hst by (eapply heap_step_trans; [|exact Hst3']; done).
  assert (os_blocks τ = os_blocks σ) as Eos by (by destruct Hst as (_ & _ & _ & _ & ?)).
  pose proof (hp_layout _ _ _ _ _ H3) as HL3. rewrite Eos in HL3.
  assert (layout (os_blocks σ) G (chunks σ1)) as HL1 by exact (hp_layout _ _ _ _ _ H1).
  rewrite <- EC3 in Hev2.
  assert (evol c G (chunks σ) G2 (chunks τ)) as Hev.
  { eapply evol_trans; [exact Hev1|]. by eapply (evol_weaken (os_blocks σ)). }
  exists G2, ml2, (cycle (clen (chunks σ2)) rl2). split; [|done].
  split; [done|by eapply (blocks_evol 0 c G ml rl)|].
  eapply (live_del G J L σ G2 J τ c Hl); [|done| |by destruct Hst as (-> & _)].
  - intros z e' Hz. unfold extent. by rewrite (ev_used _ _ _ _ _ Hev z e' Hz).
  - intros e' [He'|?]; [|congruence]. apply (ev_used _ _ _ _ _ Hev2) in He'; [|lia].
    destruct He' as (? & ? & _ & HC1 & Hu1 & _). cbn in HC1. rewrite lookup_insert_eq in HC1.
    by simplify_eq.
Qed.

(** What is left when the jumbo block of [c] is given back to exec. *)
Section FreeJumbo.
Context (G : gmap Z Z) (ml rl bl : list Z) (J : gmap Z Z) (L : gmap Z (Z * Z)) (σ : wstate).
Context (p c n e : Z) (HW : wstate_ok G ml rl bl J L σ).
Context (HLp : L !! p = Some (c, n)) (HJ : J !! c = Some e).
#[local] Abbreviation rest := (filter (fun '(b, _) => b ≠ c - 16) (os_blocks σ)).

Lemma rest_mem b m : (b, m) ∈ rest ↔ (b, m) ∈ os_blocks σ ∧ b ≠ c - 16.
Proof. rewrite list_elem_of_filter. tauto. Qed.

Lemma jumbo_not_chunk : G !! c = None.
Proof.
  destruct HW as [H Hb _]. destruct (bk_jumbo _ _ _ _ Hb _ _ HJ) as [HC _].
  destruct (G !! c) as [b|] eqn:HG; [|done].
  by pose proof (layout_at _ _ _ _ _ _ (hp_layout _ _ _ _ _ H) HG HC) as [? _ _ _ _ _ _ _].
Qed.

Lemma rest_block z b : G !! z = Some b → (b, 8388608) ∈ rest.
Proof.
  intros HG. destruct HW as [H _ _]. pose proof (hp_layout _ _ _ _ _ H) as HL.
  apply rest_mem. split; [by eapply ly_block|]. intros ->.
  pose proof (ly_first _ _ _ HL _ _ HG) as HG'. replace (c - 16 + 16) with c in HG' by lia.
  by rewrite jumbo_not_chunk in HG'.
Qed.

Lemma rest_chunk z : is_Some (G !! z) → in_blocks rest z 1 = true.
Proof.
  intros [b HG]. destruct HW as [H _ _]. pose proof (hp_layout _ _ _ _ _ H) as HL.
  destruct (ly_chunk _ _ _ HL _ _ HG) as (h & _ & [? ? ? ? ? ? _ _]).
  eapply in_blocks_true; [by eapply rest_block|lia..].
Qed.

Lemma rest_jumbo z e' i : J !! z = Some e' → z ≠ c → -16 <= i < e' → in_blocks rest (z + i) 1 = true.
Proof.
  intros HJz Hz Hi. destruct HW as [_ Hb _]. destruct (bk_jumbo _ _ _ _ Hb _ _ HJz) as [_ Hin].
  eapply (in_blocks_true _ (z - 16) (e' + 16)); [apply rest_mem; split; [done|lia]|lia..].
Qed.

(** The word in front of every other allocation. *)
Lemma rest_pre q z m : L !! q = Some (z, m) → z ≠ c → in_blocks rest (q - 4) 1 = true.
Proof.
  intros HLq Hz. destruct HW as [H Hb Hl].
  destruct (lv_at _ _ _ _ Hl _ _ _ HLq) as (_ & ? & ? & e' & [(b & h & HG & HC & _ & <-)|HJz] & ?).
  - pose proof (layout_at _ _ _ _ _ _ (hp_layout _ _ _ _ _ H) HG HC) as [? ? ? ? ? ? _ _].
    eapply in_blocks_true; [by eapply rest_block|lia..].
  - replace (q - 4) with (z + (q - 4 - z)) by lia. eapply rest_jumbo; [done..|lia].
Qed.

(** The header of every other block. *)
Lemma rest_hdr b : b ∈ bl → b ≠ c - 16 → in_blocks rest b 1 = true.
Proof.
  intros Hb1 Hne. destruct HW as [H Hb _]. apply (bk_in _ _ _ _ Hb) in Hb1 as [HG|[e' HJb]].
  - eapply in_blocks_true; [by eapply rest_block|lia..].
  - replace b with (b + 16 + -16) by lia. eapply rest_jumbo; [done|lia|].
    destruct (jumbo_size _ _ _ _ _ _ _ H Hb _ _ HJb). lia.
Qed.

Lemma rest_heap_ok τ :
  chunks τ = forget rest (chunks σ) → free_prev τ = forget rest (free_prev σ) →
  free_next τ = forget rest (free_next σ) → master_head τ = master_head σ →
  recycler_head τ = recycler_head σ → os_blocks τ = rest → heap_ok 0 G ml rl τ.
Proof.
  intros EC Ep En Em Er Eo. destruct HW as [H _ _]. pose proof (hp_os _ _ _ _ _ H) as Hos.
  apply (heap_frame 0 G ml rl σ); rewrite ?EC, ?Ep, ?En, ?Eo; try done.
  - split; [intros b m [? _]%rest_mem; by apply (os_range _ Hos)|].
    intros b m b' m' [? _]%rest_mem [? _]%rest_mem. by apply (os_disj _ Hos).
  - apply rest_block.
  - intros z Hz. by apply forget_lookup, rest_chunk.
  - intros z Hz. rewrite !forget_lookup by (by apply rest_chunk). done.
Qed.

Lemma rest_blocks_ok l1 l2 τ :
  bl = l1 ++ c - 16 :: l2 → mlist (hdr_next τ) (hdr_prev τ) NULL (l1 ++ l2) →
  block_list τ = hd0 (l1 ++ l2) → chunks τ = forget rest (chunks σ) → os_blocks τ = rest →
  blocks_ok G (l1 ++ l2) (delete c J) τ.
Proof.
  intros Ebl Hml Hh EC Eo. destruct HW as [H [Hnd _ _ Hbi Hbj Hbo] _].
  assert (∀ b, b ∈ l1 ++ l2 ↔ b ∈ bl ∧ b ≠ c - 16) as Hmem.
  { intros b. rewrite Ebl in Hnd |- *. destruct (NoDup_middle _ _ _ Hnd) as [? _]. set_solver. }
  split; rewrite ?EC, ?Eo; try done.
  - rewrite Ebl in Hnd. destruct (NoDup_middle _ _ _ Hnd) as [_ ?]. by rewrite Permutation_app_comm.
  - intros b. rewrite Hmem, Hbi. destruct (decide (b + 16 = c)) as [E'|?].
    + rewrite E', lookup_delete_eq, jumbo_not_chunk. split; [|by intros [?|[? ?]]]. intros [_ Hne]. lia.
    + rewrite lookup_delete_ne by done. split; [tauto|]. intros Hor. split; [done|lia].
  - intros z e' [? HJz]%lookup_delete_Some. destruct (Hbj _ _ HJz). split.
    + rewrite forget_lookup; [done|]. replace z with (z + 0) by lia. eapply rest_jumbo; [done..|].
      pose proof (os_range _ (hp_os _ _ _ _ _ H) (z - 16) (e' + 16)). naive_solver lia.
    + apply rest_mem. split; [done|lia].
  - intros b m [Hb1 ?]%rest_mem. apply Hmem. split; [by eapply Hbo|done].
Qed.

Lemma rest_live_ok τ :
  chunks τ = forget rest (chunks σ) → pre_chunk τ = forget rest (pre_chunk σ) →
  live_ok G (delete c J) (delete p L) τ.
Proof.
  intros EC Epr. destruct HW as [H Hb Hl].
  eapply (live_del G J L σ G (delete c J) τ c Hl); [|done|..]; rewrite ?EC, ?Epr.
  - intros z e' Hz. unfold extent. rewrite (lookup_delete_ne J) by done.
    apply or_iff_compat_r. unfold has. split; intros (b & h & HG & HC & ?); exists b, h;
      (rewrite forget_lookup in HC by (apply rest_chunk; by eexists)) ||
      (rewrite forget_lookup by (apply rest_chunk; by eexists)); done.
  - intros e' [(? & h' & HG & HC & _)|He']; [by rewrite jumbo_not_chunk in HG|].
    by rewrite lookup_delete_eq in He'.
  - intros q z m [Hq HLq]%lookup_delete_Some. apply forget_lookup. apply (rest_pre q z m HLq).
    intros ->. apply Hq. by eapply (lv_inj _ _ _ _ Hl).
Qed.
End FreeJumbo.

Lemma free_jumbo_spec G ml rl bl J L σ p c n :
  wstate_ok G ml rl bl J L σ → L !! p = Some (c, n) → is_Some (J !! c) →
  wp (wmem_block_free_jumbo c)
     (fun _ τ => ∃ bl', wstate_ok G ml rl bl' (delete c J) (delete p L) τ) σ.
Proof.
  intros HW HLp [e HJ]. pose proof HW as [H Hb Hl].
  destruct (bk_jumbo _ _ _ _ Hb _ _ HJ) as [HCc Hin].
  assert (c - 16 ∈ bl) as Hbin by (by eapply bk_os).
  apply list_elem_of_split in Hbin as (l1 & l2 & Ebl).
  unfold wmem_block_free_jumbo. change (WMEM_CHUNK_TO_BLOCK c) with (c - 16). cbv zeta.
  pose proof Hb as [Hnd Hml Hhd _ _ _]. rewrite Ebl in Hnd, Hml, Hhd.
  apply wp_bind. eapply wp_mono.
  { eapply (remove_from_block_list_spec l1 (c - 16) l2); try done; rewrite <- Ebl.
    - intros ?. by eapply blocks_valid.
    - intros. by eapply blocks_valid. }
  intros ? σ1 (hp & hn & -> & _ & Hml'). apply wp_modify. cbn. exists (l1 ++ l2).
  split; [by eapply rest_heap_ok|eapply rest_blocks_ok; try done; cbn|by eapply rest_live_ok].
  eapply mlist_ext; [|exact Hml']. intros b Hbm.
  destruct (NoDup_middle _ _ _ Hnd) as [Hni _].
  rewrite !forget_lookup; [done|..]; eapply rest_hdr; try done; set_solver.
Qed.

Lemma wmem_block_free_spec G ml rl bl J L σ p c n :
  wstate_ok G ml rl bl J L σ → L !! p = Some (c, n) →
  wp (wmem_block_free p)
     (fun _ τ => ∃ G' ml' rl' bl' J', wstate_ok G' ml' rl' bl' J' (delete p L) τ) σ.
Proof.
  intros HW HLp. pose proof HW as [H Hb Hl].
  destruct (lv_at _ _ _ _ Hl _ _ _ HLp) as (Hpre & _ & _ & e & He & _).
  pose proof (fun Hg => free_normal_spec _ _ _ _ _ _ _ p c n HW HLp Hg) as Hfn.
  pose proof (fun Hj => free_jumbo_spec _ _ _ _ _ _ _ p c n HW HLp Hj) as Hfj.
  unfold wmem_block_free, WMEM_DATA_TO_CHUNK. change (WMEM_DATA_TO_PRE p) with (p - 4).
  destruct He as [(b & h & HG & HC & _ & _)|HJ].
  - pose proof (layout_at _ _ _ _ _ _ (hp_layout _ _ _ _ _ H) HG HC) as [Hj _ _ _ _ _ _ _].
    destruct σ. cbn in Hpre, HC. do 4 ws. rewrite Hj.
    eapply wp_mono; [apply Hfn; by eexists|]. intros ? τ (G' & ml' & rl' & HW' & _).
    by eexists _, _, _, _, _.
  - destruct (bk_jumbo _ _ _ _ Hb _ _ HJ) as [HC _]. destruct σ. cbn in Hpre, HC. do 4 ws.
    cbn [c_jumbo jumbo_header]. eapply wp_mono; [apply Hfj; by eexists|].
    intros ? τ (bl' & HW'). by eexists _, _, _, _, _.
Qed.

(** ** Correctness *)

Lemma handed_out_winv L size al p τ :
  handed_out L size al p τ → 
  p mod al = 0 ∧ p ≠ NULL ∧ (snd <$> L) !! p = None ∧ winv (<[p := size]> (snd <$> L)) τ.
Proof.
  intros (? & ? & HL & G & ml & rl & bl & J & c & HW). split_and!; try done.
  - by rewrite lookup_fmap, HL.
  - exists G, ml, rl, bl, J, (<[p := (c, size)]> L). split; [done|]. by rewrite fmap_insert.
Qed.

(** C4: wmem_block_alloc, for an alignment that is a power of two and a size with
    which no 32-bit sum wraps.  It hands out memory: an address of that alignment
    whose [size] bytes overlap no memory handed out before, and the invariant
    holds with the new allocation added.  When exec has no memory, a request
    larger than a block returns NULL and nothing has changed.  The code faults
    only for a request that fits in a block, and only when exec has no memory for
    a new block (it then writes through the NULL that exec returned). *)
Theorem wmem_block_alloc_correct A σ size k :
  winv A σ → 0 < size → 0 <= k < 32 → size + 2 ^ k + 36 < 4294967296 →
  wpx (size + 2 ^ k + 20 <= 8388592 ∧ AllocVec (os_blocks σ) WMEM_BLOCK_SIZE = NULL)
      (wmem_block_alloc size (2 ^ k))
      (fun p τ =>
        (p = NULL ∧ τ = σ ∧ 8388592 < size + 2 ^ k + 20 ∧
         AllocVec (os_blocks σ) (size + 2 ^ k + 36) = NULL) ∨
        (p ≠ NULL ∧ p mod 2 ^ k = 0 ∧ A !! p = None ∧
         (∀ q m, A !! q = Some m → p + size <= q ∨ q + m <= p) ∧
         winv (<[p := size]> A) τ)) σ.
Proof.
  intros (G & ml & rl & bl & J & L & HW & ->) Hs Hk Hov.
  destruct (round16_spec (20 + 2 ^ k + size)) as [Hr Hr'].
  eapply wpx_mono; [by eapply wmem_block_alloc_runs|intros [? Hn]; split; [lia|exact Hn]|].
  intros p τ [(-> & -> & ? & ?)|Hh]; [left; split_and!; [done|done|dlia|done]|right].
  destruct (handed_out_winv _ _ _ _ _ Hh) as (? & ? & HA & Hw). split_and!; try done.
  intros q m Hq. assert (p ≠ q) by congruence.
  apply (winv_disjoint _ _ _ _ _ _ Hw); [apply lookup_insert_eq|by rewrite lookup_insert_ne|done].
Qed.

(** wmem_block_free, for a pointer handed out: it returns, and the invariant
    holds without that allocation; all others are still there. *)
Theorem wmem_block_free_correct A σ p n :
  winv A σ → A !! p = Some n →
  wp (wmem_block_free p) (fun _ τ => winv (delete p A) τ) σ.
Proof.
  intros (G & ml & rl & bl & J & L & HW & ->) Hp.
  apply lookup_fmap_Some in Hp as ([c m] & <- & HLp).
  eapply wp_mono; [by eapply wmem_block_free_spec|].
  intros ? τ (G' & ml' & rl' & bl' & J' & HW'). exists G', ml', rl', bl', J', (delete p L).
  split; [done|]. by rewrite fmap_delete.
Qed.
End Exec.
