(* ===== verification/WmemRealloc.v ===== *)
(** * Resizing an allocation

    [wmem_block_realloc] on a chunk of a block: it shrinks or grows the chunk in
    place or moves the data, and the invariant of the allocator holds with the
    new size. *)

From stdpp Require Import base numbers gmap list.
From S2P Require Import Prelude CMem Words DList WmemBlock WmemLists WmemLayout.
From S2P Require Import WmemHeap WmemSplit WmemInv WmemAlloc.
Open Scope Z_scope.
#[local] Set Warnings "-clear-no-such-hyp".

(** ** Growing into the next chunk *)

(** The used chunk [c] and the free chunk [t] behind it, which is in no list,
    become one. *)
Lemma absorb_heap_ok G ml rl σ c b h t ht :
  heap_ok t G ml rl σ → G !! c = Some b → chunks σ !! c = Some h → c_used h = true →
  c_last h = false → t = c + c_len h → chunks σ !! t = Some ht → c_used ht = false →
  let C' := fix_next (<[c := Chunk (c_prev h) (c_last ht) true false (c_len h + c_len ht)]> (chunks σ)) c in
  heap_ok 0 (delete t G) ml rl (with_chunks σ C') ∧ evol c G (chunks σ) (delete t G) C' ∧
  has (delete t G) C' c true (c_len h + c_len ht).
Proof.
  intros H HG HC Hu Hl -> HCt Hut C'. pose proof H as [Hos HL Hco Hf Hli Hla Hwh].
  destruct (layout_next _ _ _ _ _ _ HL HG HC Hl) as (ht' & HGt & ? & Hpt & Hokt). simplify_eq.
  pose proof (ck_len _ _ _ _ _ (layout_at _ _ _ _ _ _ HL HG HC)) as Hlen.
  pose proof (ck_len _ _ _ _ _ Hokt) as Hlent.
  pose proof (fix_next_layout _ _ _ _ _ HL HG) as Efix.
  pose proof (merge_fix (os_blocks σ) G (chunks σ) c b h ht true c) as P. cbv zeta in P.
  rewrite Efix, decide_True in P by done.
  assert (upd_prev (c_len h) ht = ht) as E by (destruct ht; unfold upd_prev; simpl in *; congruence).
  rewrite E in P. destruct P as (_ & _ & Hmg); try done; [by left|]. fold C' in Hmg.
  pose proof (fun z u n => has_merge _ _ _ _ _ _ _ _ _ z u n HL HG HC Hl HCt Hmg) as Hh.
  pose proof (layout_merge _ _ _ _ _ _ _ _ _ HL HG HC Hl HCt Hmg) as HL'.
  assert (∀ z, z ∈ ml ++ rl → z ≠ c ∧ z ≠ c + c_len h) as Hne.
  { intros z Hz. destruct (heap_listed_at _ _ _ _ _ z H Hz) as (? & ? & ? & ? & ? & _ & ?).
    split; [|done]. intros ->. congruence. }
  split; [|split; [by eapply evol_merge; eauto|apply Hh; by left]].
  split; cbn; try done.
  - assert (delete (c + c_len h) G !! c = Some b) as HGc by (rewrite lookup_delete_ne by lia; done).
    eapply coalesced_strengthen; [exact HL'| |exact HGc|apply (mg_first _ _ _ _ _ _ Hmg)|by left].
    eapply coalesced_merge; eauto.
  - by destruct Hf.
  - intros z. rewrite Hli. unfold listed. split.
    + intros [(n & Hn & ?) Hz]. split; [|by apply (has_pos _ _ _ _ _ _ Hos HL Hn)]. exists n. split; [|done].
      apply Hh. right. split; [|done]. intros ->. destruct Hn as (? & ? & ? & ? & ? & _). congruence.
    + intros [(n & [(_ & ? & _)|(_ & ? & Hn)]%Hh & ?) _]; [done|]. split; [by exists n|done].
  - intros z Hz. destruct (Hne z) as [? ?]; [set_solver|]. destruct (Hla z Hz) as (hz & HCz & ?).
    destruct (decide (c_last ht = false ∧ z = c + c_len h + c_len ht)) as [[Hlt ->]|Hn].
    + eexists. by rewrite (mg_next _ _ _ _ _ _ Hmg Hlt _ HCz).
    + exists hz. rewrite (mg_other _ _ _ _ _ _ Hmg); [done..|]. intros ? ->. by apply Hn.
  - intros z Hz. destruct (Hne z) as [? ?]; [destruct ml; set_solver|].
    destruct (Hwh z Hz) as (hz & HCz & Hpz & ?). exists hz.
    rewrite (mg_other _ _ _ _ _ _ Hmg); [done..|]. intros Hlt ->.
    destruct (layout_next _ _ _ _ _ _ HL HGt HCt Hlt) as (? & _ & ? & ? & _). simplify_eq. lia.
Qed.

Lemma resized_cycle σ G c P τ :
  resized σ G c P τ → wp wmem_block_cycle_recycler (fun _ => resized σ G c P) τ.
Proof.
  intros (Hst & G' & ml' & rl' & n & H & Hh & HP & Hev).
  eapply wp_mono; [by apply cycle_heap_spec|]. intros ? υ [Hfs Hυ].
  destruct (free_heap_step _ _ Hfs) as [Hhs EC]. split; [by eapply heap_step_trans|].
  eexists G', ml', _, n. split; [done|]. by rewrite EC.
Qed.

Lemma realloc_grow_spec G ml rl σ c b h ht sup :
  let t := c + c_len h in
  heap_ok 0 G ml rl σ → G !! c = Some b → chunks σ !! c = Some h → c_used h = true →
  c_last h = false → chunks σ !! t = Some ht → c_used ht = false →
  sup mod 16 = 0 → t < sup < t + c_len ht →
  wp (realloc_grow c t sup t) (fun _ => resized σ G c (fun n => sup <= c + n)) σ.
Proof.
  intros t H HG HC Hu Hl HCt Hut Hs16 Hsup. pose proof H as [Hos HL _ _ Hli _ Hwh].
  destruct (layout_next _ _ _ _ _ _ HL HG HC Hl) as (ht' & HGt & HCt' & Hpt & Hokt). fold t in HGt, HCt', Hokt.
  assert (ht' = ht) as -> by congruence. assert (t = c + c_len h) as Et0 by done. clearbody t.
  destruct (layout_u32 _ _ _ _ _ _ Hos HL HG HC) as [Hlen Hlen16].
  destruct (layout_u32 _ _ _ _ _ _ Hos HL HGt HCt) as [Hlent Hlent16].
  pose proof (ck_align _ _ _ _ _ Hokt) as Hat. pose proof (layout_range _ Hos _ _ _ _ HL HG).
  pose proof (ck_hi _ _ _ _ _ Hokt).
  unfold realloc_grow. rewrite (u32_small (sup - t)) by lia. change WMEM_CHUNK_HEADER_SIZE with 16.
  assert (16 <= sup - t) by dlia. rewrite (proj2 (Z.ltb_ge (sup - t) 16)) by lia. cbv zeta.
  set (need := round16 (20 + 0 + (sup - t - 16))).
  assert (need = sup - t + 16) as Eneed by (unfold need, round16; dlia).
  assert (t ∈ ml ++ rl) as Htin.
  { apply Hli. split; [exists (c_len ht); split; [by eexists _, _|dlia]|].
    pose proof (layout_pos _ Hos _ _ _ _ HL HGt). lia. }
  assert (t ∉ tail ml) as Htt.
  { intros Ht. destruct (Hwh t Ht) as (? & ? & ? & _). simplify_eq. lia. }
  apply wp_bind. eapply wp_mono.
  { apply (split_free_chunk_spec G ml rl σ t b ht (sup - t - 16) 0); try done; try lia.
    fold need. dlia. }
  fold need. intros ? σ1 (Hst1 & G1 & ml1 & rl1 & h1 & Hh1 & HG1 & HC1 & Hu1 & Hlen1 & Hp1 & Hev1).
  pose proof (hp_os _ _ _ _ _ Hh1) as Hos1. pose proof (hp_layout _ _ _ _ _ Hh1) as HL1.
  destruct (layout_prev _ _ _ _ _ _ HL1 HG1 HC1 ltac:(lia)) as (hc & HGc & HCc & Hlc & Hlac & Hokc).
  rewrite Hp1, Hpt in HGc, HCc, Hlc, Hokc. replace (t - c_len h) with c in * by lia.
  assert (c_used hc = true) as Huc.
  { assert (has G1 (chunks σ1) c true (c_len h)) as (? & ? & ? & ? & ? & _); [|by simplify_eq].
    apply (ev_used _ _ _ _ _ Hev1); [|by eexists _, _]. pose proof (layout_pos _ Hos _ _ _ _ HL HG). lia. }
  assert (t = c + c_len hc) as Et by lia.
  destruct (absorb_heap_ok G1 ml1 rl1 σ1 c b hc t h1 Hh1 HGc HCc Huc Hlac Et HC1 Hu1) as (Hh2 & Hev2 & Hhas2).
  set (C2 := <[c := _]> (chunks σ1)) in *.
  destruct (layout_u32 _ _ _ _ _ _ Hos1 HL1 HG1 HC1) as [Hl1 _].
  assert (resized σ G c (fun n => sup <= c + n) (with_chunks σ1 (fix_next C2 c))) as Hres.
  { split; [done|]. exists (delete t G1), ml1, rl1, (c_len hc + c_len h1).
    split; [done|]. split; [done|]. split; [lia|]. eapply evol_trans; [|exact Hev2].
    assert (os_blocks σ1 = os_blocks σ) as Eos by (by destruct Hst1 as (_ & _ & _ & _ & ?)).
    rewrite Eos in HL1. eapply (evol_weaken (os_blocks σ)); done. }
  pose proof (layout_in_blocks _ _ _ _ _ _ HL1 HGc HCc).
  pose proof (ck_jumbo _ _ _ _ _ Hokc) as Hjc. pose proof (hp_layout _ _ _ _ _ Hh2) as HL2. cbn in HL2.
  assert (delete t G1 !! c = Some b) as HG2 by (rewrite lookup_delete_ne by lia; done).
  assert (C2 !! c = Some (Chunk (c_prev hc) (c_last h1) true false (c_len hc + c_len h1))) as HC2
    by apply lookup_insert_eq.
  clear Hh1 Hst1 Hev1 Hhas2 Hh2 Hev2. pose proof (resized_cycle _ _ _ _ _ Hres) as Hcyc.
  destruct σ1 as [C FP FN PR HP HN B MH RH OS]. cbn in *. do 14 ws.
  cbn [c_prev c_last c_used c_jumbo c_len]. rewrite Huc, Hjc, Z.mod_small by lia.
  rewrite insert_insert_eq. fold C2. ws. ws. cbn [c_last c_len]. ws.
  destruct (c_last h1) eqn:Hlast.
  - rewrite Z.eqb_refl. simpl negb. cbn iota. ws.
    unfold fix_next in Hcyc. rewrite HC2 in Hcyc. cbn [c_last] in Hcyc. exact Hcyc.
  - destruct (fix_next_insert _ _ _ _ _ _ HL2 HG2 HC2 eq_refl) as (hn & HCn & ? & E).
    cbn [c_len] in *. rewrite (proj2 (Z.eqb_neq _ NULL)) by
      (pose proof (layout_pos _ Hos1 _ _ _ _ HL1 HGc); unfold NULL; lia).
    simpl negb. cbn iota. repeat ws. cbn [c_len]. fold (upd_prev (c_len hc + c_len h1) hn).
    rewrite E. exact Hcyc.
Qed.

(** ** Allocating gives no memory back to exec *)

Definition os_mono {A} (c : M wstate A) : Prop :=
  ∀ σ a τ, c σ = Ok (a, τ) → ∀ o, o ∈ os_blocks σ → o ∈ os_blocks τ.

Lemma os_mono_wpx {A} F (c : M wstate A) Q σ :
  os_mono c → wpx F c Q σ → wpx F c (fun a τ => Q a τ ∧ ∀ o, o ∈ os_blocks σ → o ∈ os_blocks τ) σ.
Proof.
  intros Hm. unfold wpx. destruct (c σ) as [[a τ]| |] eqn:Ec; try done. intros HQ.
  split; [done|]. by apply (Hm σ a τ).
Qed.

Lemma in_blocks_mem os os' a n :
  (∀ o, o ∈ os → o ∈ os') → in_blocks os a n = true → in_blocks os' a n = true.
Proof.
  intros Hm Hv. apply existsb_exists in Hv as (o & Hin & Ho). apply existsb_exists. exists o.
  split; [|done]. apply list_elem_of_In, Hm. by apply list_elem_of_In.
Qed.

Lemma os_mono_bind {A B} (c : M wstate A) (k : A → M wstate B) :
  os_mono c → (∀ a, os_mono (k a)) → os_mono (c ≫= k).
Proof.
  intros Hc Hk σ b τ. unfold mbind, M_mbind, M_bind. destruct (c σ) as [[a υ]| |] eqn:Ec; try done.
  intros Hb o Ho. apply (Hk a υ b τ Hb). by apply (Hc σ a υ).
Qed.
Lemma os_mono_ret {A} (a : A) : os_mono (mret a).
Proof. intros σ x τ [= <- <-]. done. Qed.
Lemma os_mono_get : os_mono get.
Proof. intros σ x τ [= <- <-]. done. Qed.
Lemma os_mono_fault {A} : os_mono (@fault wstate A).
Proof. intros σ x τ. done. Qed.
Lemma os_mono_lookup {A} (o : option A) : os_mono (lookup_or_fault o).
Proof. intros σ x τ. unfold lookup_or_fault. destruct o; [|done]. by intros [= <- <-]. Qed.
Lemma os_mono_if {A} (b : bool) (c d : M wstate A) : os_mono c → os_mono d → os_mono (if b then c else d).
Proof. by destruct b. Qed.
Lemma os_mono_modify f : (∀ σ, os_blocks (f σ) = os_blocks σ) → os_mono (modify f).
Proof. intros Hf σ x τ [= <- <-]. by rewrite Hf. Qed.
(** An assignment to a field of a struct. *)
Lemma os_mono_put (b : wstate → bool) (f : wstate → wstate) :
  (∀ σ, os_blocks (f σ) = os_blocks σ) → os_mono (σ ← get; if b σ then put (f σ) else fault).
Proof.
  intros Hf σ x τ. unfold mbind, M_mbind, M_bind, get. destruct (b σ); [|done].
  intros [= <- <-]. by rewrite Hf.
Qed.

Create HintDb os_mono.
#[export] Hint Resolve os_mono_ret os_mono_get os_mono_fault os_mono_lookup : os_mono.
#[export] Hint Extern 1 (os_mono (modify _)) => (apply os_mono_modify; done) : os_mono.

(** Along the structure of a function. *)
Ltac os_mono_tac :=
  repeat (cbv zeta; match goal with
  | |- os_mono (mbind _ _) => apply os_mono_bind; [|intros ?]
  | |- os_mono (if _ then _ else _) => apply os_mono_if
  | |- os_mono _ => solve [auto with os_mono nocore]
  | |- os_mono (match ?p with (_, _) => _ end) => destruct p
  end).

Lemma os_mono_set_chunk c h : os_mono (set_chunk c h).
Proof. by apply (os_mono_put (fun σ => valid σ c sizeof_chunk_t)). Qed.
Lemma os_mono_set_free_prev c v : os_mono (set_free_prev c v).
Proof. by apply (os_mono_put (fun σ => free_valid σ c)). Qed.
Lemma os_mono_set_free_next c v : os_mono (set_free_next c v).
Proof. by apply (os_mono_put (fun σ => free_valid σ c)). Qed.
Lemma os_mono_set_pre p v : os_mono (set_pre p v).
Proof. by apply (os_mono_put (fun σ => valid σ p sizeof_pre_t)). Qed.
Lemma os_mono_set_hdr_prev b v : os_mono (set_hdr_prev b v).
Proof. by apply (os_mono_put (fun σ => valid σ b sizeof_hdr_t)). Qed.
Lemma os_mono_set_hdr_next b v : os_mono (set_hdr_next b v).
Proof. by apply (os_mono_put (fun σ => valid σ b sizeof_hdr_t)). Qed.
#[export] Hint Resolve os_mono_set_chunk os_mono_set_free_prev os_mono_set_free_next os_mono_set_pre
  os_mono_set_hdr_prev os_mono_set_hdr_next : os_mono.

Lemma os_mono_get_chunk c : os_mono (get_chunk c).
Proof. unfold get_chunk. os_mono_tac. Qed.
Lemma os_mono_get_free_prev c : os_mono (get_free_prev c).
Proof. unfold get_free_prev. os_mono_tac. Qed.
Lemma os_mono_get_free_next c : os_mono (get_free_next c).
Proof. unfold get_free_next. os_mono_tac. Qed.
Lemma os_mono_get_hdr_prev b : os_mono (get_hdr_prev b).
Proof. unfold get_hdr_prev. os_mono_tac. Qed.
Lemma os_mono_get_hdr_next b : os_mono (get_hdr_next b).
Proof. unfold get_hdr_next. os_mono_tac. Qed.
#[export] Hint Resolve os_mono_get_chunk os_mono_get_free_prev os_mono_get_free_next
  os_mono_get_hdr_prev os_mono_get_hdr_next : os_mono.
Lemma os_mono_set_prev c v : os_mono (set_prev c v).
Proof. unfold set_prev. os_mono_tac. Qed.
Lemma os_mono_set_last c v : os_mono (set_last c v).
Proof. unfold set_last. os_mono_tac. Qed.
Lemma os_mono_set_used c v : os_mono (set_used c v).
Proof. unfold set_used. os_mono_tac. Qed.
Lemma os_mono_set_len c v : os_mono (set_len c v).
Proof. unfold set_len. os_mono_tac. Qed.
Lemma os_mono_len_of c : os_mono (len_of c).
Proof. unfold len_of. os_mono_tac. Qed.
Lemma os_mono_data_len c : os_mono (WMEM_CHUNK_DATA_LEN c).
Proof. unfold WMEM_CHUNK_DATA_LEN. os_mono_tac. Qed.
Lemma os_mono_chunk_next c : os_mono (WMEM_CHUNK_NEXT c).
Proof. unfold WMEM_CHUNK_NEXT. os_mono_tac. Qed.
#[export] Hint Resolve os_mono_set_prev os_mono_set_last os_mono_set_used os_mono_set_len
  os_mono_len_of os_mono_data_len os_mono_chunk_next : os_mono.
Lemma os_mono_set_block_list v : os_mono (set_block_list v).
Proof. unfold set_block_list. os_mono_tac. Qed.
Lemma os_mono_set_master_head v : os_mono (set_master_head v).
Proof. unfold set_master_head. os_mono_tac. Qed.
Lemma os_mono_set_recycler_head v : os_mono (set_recycler_head v).
Proof. unfold set_recycler_head. os_mono_tac. Qed.
#[export] Hint Resolve os_mono_set_block_list os_mono_set_master_head os_mono_set_recycler_head
  : os_mono.

Lemma os_mono_cycle : os_mono wmem_block_cycle_recycler.
Proof. unfold wmem_block_cycle_recycler. os_mono_tac. Qed.
Lemma os_mono_add c : os_mono (wmem_block_add_to_recycler c).
Proof. unfold wmem_block_add_to_recycler. os_mono_tac. Qed.
Lemma os_mono_remove c : os_mono (wmem_block_remove_from_recycler c).
Proof. unfold wmem_block_remove_from_recycler. os_mono_tac. Qed.
Lemma os_mono_push c : os_mono (wmem_block_push_master c).
Proof. unfold wmem_block_push_master. os_mono_tac. Qed.
Lemma os_mono_pop : os_mono wmem_block_pop_master.
Proof. unfold wmem_block_pop_master. os_mono_tac. Qed.
Lemma os_mono_add_block b : os_mono (wmem_block_add_to_block_list b).
Proof. unfold wmem_block_add_to_block_list. os_mono_tac. Qed.
#[export] Hint Resolve os_mono_cycle os_mono_add os_mono_remove os_mono_push os_mono_pop
  os_mono_add_block : os_mono.
Lemma os_mono_split c size al : os_mono (wmem_block_split_free_chunk c size al).
Proof. unfold wmem_block_split_free_chunk, split_free_lists. os_mono_tac. Qed.
#[export] Hint Resolve os_mono_split : os_mono.

Section Exec.
Context `{E : Exec}.

Lemma os_mono_os_alloc size : os_mono (os_alloc size).
Proof.
  intros σ x τ. unfold os_alloc, mbind, M_mbind, M_bind, get, put. cbv zeta.
  destruct (_ =? NULL); intros [= <- <-]; [done|]. cbn. set_solver.
Qed.
#[local] Hint Resolve os_mono_os_alloc : os_mono.

Lemma os_mono_alloc size al : os_mono (wmem_block_alloc size al).
Proof.
  unfold wmem_block_alloc, wmem_block_alloc_jumbo, alloc_choose, wmem_block_new_block,
    wmem_block_init_block. os_mono_tac.
Qed.

(** ** Reallocation *)

(** The allocation at [p] stays where it is. *)
Lemma resized_winv G ml rl bl J L σ p c n size τ (P : Z → Prop) :
  wstate_ok G ml rl bl J L σ → L !! p = Some (c, n) → is_Some (G !! c) → 0 < size →
  (∀ m, P m → p + size <= c + m) → resized σ G c P τ →
  winv (<[p := size]> (delete p (snd <$> L))) τ.
Proof.
  intros [H Hb Hl] HLp [b HG] Hs HP (Hst & G' & ml' & rl' & m & H' & Hh & Hm & Hev).
  exists G', ml', rl', bl, J, (<[p := (c, size)]> L). split.
  - split; [done|by eapply (blocks_evol 0 c G ml rl)|].
    eapply (live_resize G J L σ G' J τ c Hl); [|done|by left|done|by apply HP|by destruct Hst].
    intros z e Hz. unfold extent. by rewrite (ev_used _ _ _ _ _ Hev).
  - by rewrite fmap_insert, insert_delete_eq.
Qed.

(** What a reallocation does to the allocations in use: [p] is replaced by the
    pointer returned; or, when a move finds no memory, it is freed and NULL is
    returned. *)
Definition moved (A : gmap Z Z) (p size need : Z) (σ : wstate) (q : Z) (τ : wstate) : Prop :=
  (q ≠ NULL ∧ winv (<[q := size]> (delete p A)) τ) ∨
  (q = NULL ∧ AllocVec (os_blocks σ) need = NULL ∧ winv (delete p A) τ).

(** Why a reallocation can fault: exec has no memory for a block, or the [size]
    bytes behind the old pointer are not all accessible. *)
Definition no_move (p size : Z) (σ : wstate) : Prop :=
  no_block σ ∨ in_blocks (os_blocks σ) p size = false.

Lemma user_memcpy_spec dst src n σ :
  dst ≠ NULL → in_blocks (os_blocks σ) dst n = true →
  wpx (in_blocks (os_blocks σ) src n = false) (memcpy dst src n) (fun _ τ => τ = σ) σ.
Proof.
  intros Hd Hv. unfold memcpy. destruct (_ || _)%bool; [done|]. destruct (_ && _)%bool; [|done].
  unfold wpx, mbind, M_mbind, M_bind, get, valid. rewrite Hv. by destruct (in_blocks _ src n).
Qed.

Lemma free_winv A L G ml rl bl J σ p c n :
  wstate_ok G ml rl bl J L σ → L !! p = Some (c, n) → A = snd <$> delete p L →
  wp (wmem_block_free p) (fun _ τ => winv A τ) σ.
Proof.
  intros HW HLp ->. eapply wp_mono; [by eapply wmem_block_free_spec|].
  intros ? υ (G2 & ml2 & rl2 & bl2 & J2 & HW2). by exists G2, ml2, rl2, bl2, J2, (delete p L).
Qed.

(** The allocation is moved. *)
Lemma realloc_move_spec G ml rl bl J L σ p c n size k :
  wstate_ok G ml rl bl J L σ → L !! p = Some (c, n) → 0 < size → 0 <= k < 32 →
  size + 2 ^ k + 36 < 4294967296 →
  wpx (no_move p size σ)
      (newptr ← wmem_block_alloc size (2 ^ k); _ ← memcpy newptr p size;
       _ ← wmem_block_free p; mret newptr)
      (moved (snd <$> L) p size (size + 2 ^ k + 36) σ) σ.
Proof.
  intros HW HLp Hs Hk Hov. apply wpx_bind. eapply wpx_mono.
  { apply os_mono_wpx; [apply os_mono_alloc|]. by eapply wmem_block_alloc_runs. }
  { intros [_ ?]. by left. }
  intros q τ [[(-> & -> & _ & Hnull)|(Hal & Hq & HLq & G' & ml' & rl' & bl' & J' & c' & HW')] Hmono].
  { apply wpx_of_wp, wp_bind, wp_ret, wp_bind. eapply wp_mono; [by eapply free_winv|].
    intros ? υ Hυ. apply wp_ret. right. by rewrite <- fmap_delete. }
  pose proof HW' as [H' Hb' Hl']. assert (p ≠ q) as Hpq by congruence.
  destruct (lv_at _ _ _ _ Hl' q c' size (lookup_insert_eq _ _ _)) as (_ & ? & _ & e & He & ?).
  destruct (extent_range _ _ _ _ _ _ _ H' Hb' _ _ He) as (_ & _ & _ & Hdst).
  apply wpx_bind. eapply wpx_mono.
  { apply user_memcpy_spec; [done|]. apply in_blocks_sub with c' e; [done|lia..]. }
  { intros Hp'. right. destruct (in_blocks (os_blocks σ) p size) eqn:Hsrc; [|done].
    by rewrite (in_blocks_mem _ _ _ _ Hmono Hsrc) in Hp'. }
  intros ? ? ->. apply wpx_of_wp, wp_bind. eapply wp_mono.
  { eapply (free_winv _ _ _ _ _ _ _ _ p c n HW'); [by rewrite lookup_insert_ne|done]. }
  intros ? υ Hυ. apply wp_ret. left. split; [done|].
  by rewrite fmap_delete, fmap_insert, delete_insert_ne in Hυ.
Qed.

(** The chunk of the allocation at [p]. *)
Lemma live_chunk G ml rl bl J L σ p c n :
  wstate_ok G ml rl bl J L σ → L !! p = Some (c, n) →
  pre_chunk σ !! (p - 4) = Some c ∧ c + 20 <= p ∧ 0 < n ∧
  ((∃ b h, G !! c = Some b ∧ chunks σ !! c = Some h ∧ c_used h = true ∧ c_jumbo h = false ∧
           p + n <= c + c_len h ∧ c_len h mod 16 = 0 ∧ c mod 16 = 0 ∧ 16 < c ∧
           c + c_len h < 4294967296) ∨
   chunks σ !! c = Some jumbo_header ∧ ∃ e, J !! c = Some e ∧ p + n <= c + e).
Proof.
  intros [H Hb Hl] HLp. destruct (lv_at _ _ _ _ Hl _ _ _ HLp) as (? & ? & ? & e & He & ?).
  split_and!; try done. destruct He as [(b & h & HG & HC & Hu & <-)|HJ].
  - left. exists b, h.
    pose proof (layout_at _ _ _ _ _ _ (hp_layout _ _ _ _ _ H) HG HC) as [? ? ? ? ? ? _ _].
    pose proof (layout_range _ (hp_os _ _ _ _ _ H) _ _ _ _ (hp_layout _ _ _ _ _ H) HG).
    split_and!; try done; lia.
  - right. destruct (bk_jumbo _ _ _ _ Hb _ _ HJ). split; [done|]. by exists e.
Qed.

Lemma wmem_block_realloc_runs G ml rl bl J L σ p c b h n size k :
  wstate_ok G ml rl bl J L σ → L !! p = Some (c, n) → G !! c = Some b → chunks σ !! c = Some h →
  0 < size → 0 <= k < 32 → size + 2 ^ k + 36 < 4294967296 → p + size + 15 < 4294967296 →
  wpx (no_move p size σ) (wmem_block_realloc p size (2 ^ k)) (moved (snd <$> L) p size (size + 2 ^ k + 36) σ) σ.
Proof.
  intros HW HLp HG HC Hs Hk Hov Hps. pose proof HW as [H _ _].
  destruct (live_chunk _ _ _ _ _ _ _ _ _ _ HW HLp) as (Hpre & Hcp & Hn & [Hlc|[HC' _]]); cycle 1.
  { pose proof (layout_at _ _ _ _ _ _ (hp_layout _ _ _ _ _ H) HG HC) as [? _ _ _ _ _ _ _].
    rewrite HC' in HC. by simplify_eq. }
  destruct Hlc as (b' & h' & HG' & HCc & Hu & Hj & Hpn & Hl16 & Hc16 & Hc0 & Hhi).
  assert (b' = b) as -> by congruence. assert (h' = h) as -> by congruence. clear HG' HCc.
  assert (p ≠ NULL) as Hp0 by (unfold NULL; lia).
  pose proof (realloc_move_spec _ _ _ _ _ _ _ p c n size k HW HLp Hs Hk Hov) as Hmv.
  pose proof (fun ht => realloc_grow_spec G ml rl σ c b h ht (round16 (p + size)) H HG HC Hu) as Hgr.
  pose proof (split_used_chunk_spec G ml rl σ c b h p size H HG HC Hu Hpre Hcp Hs) as Hsh.
  pose proof (fun τ P => resized_winv _ _ _ _ _ _ _ p c n size τ P HW HLp (mk_is_Some _ _ HG) Hs) as Hres.
  pose proof (layout_next _ _ _ _ _ _ (hp_layout _ _ _ _ _ H) HG HC) as Hnx.
  destruct (round16_spec (p + size)) as [Hr1 Hr2].
  unfold wmem_block_realloc, WMEM_DATA_TO_CHUNK. change (WMEM_DATA_TO_PRE p) with (p - 4).
  cbv zeta. rewrite !(u32_small (p + size)), !align_size by lia.
  apply wpx_wp_bind. assert (∀ Q, Q c σ → wp (get_pre (p - 4)) Q σ) as Hw
    by (intros; destruct σ; by apply wp_get_pre with c).
  apply Hw. clear Hw. assert (∀ z hz Q, chunks σ !! z = Some hz → Q hz σ → wp (get_chunk z) Q σ) as Hw
    by (intros; destruct σ; by eapply wp_get_chunk).
  apply wpx_wp_bind, (Hw c h); [done|]. rewrite Hj. rewrite !(u32_small (c + c_len h)) by lia.
  destruct (c + c_len h <? round16 (p + size)) eqn:E1; b2p.
  - apply wpx_wp_bind. unfold WMEM_CHUNK_NEXT. apply wp_bind, (Hw c h); [done|]. apply wp_ret.
    destruct (c_last h) eqn:Hl.
    { rewrite Z.eqb_refl. apply wpx_wp_bind, wp_ret. exact Hmv. }
    destruct (Hnx eq_refl) as (ht & HGt & HCt & _ & Hokt).
    pose proof (ck_hi _ _ _ _ _ Hokt). pose proof (layout_range _ (hp_os _ _ _ _ _ H) _ _ _ _ (hp_layout _ _ _ _ _ H) HG).
    pose proof (WmemLayout.ck_len _ _ _ _ _ Hokt).
    rewrite (proj2 (Z.eqb_neq _ NULL)) by (unfold NULL; lia).
    apply wpx_wp_bind, wp_bind, (Hw _ ht); [done|]. apply wp_ret. rewrite u32_small by lia.
    destruct (negb (c_used ht) && (round16 (p + size) <? c + c_len h + c_len ht)) eqn:E2; [|exact Hmv].
    apply andb_true_iff in E2 as [E2 E3]. apply negb_true_iff in E2. b2p.
    apply wpx_of_wp, wp_bind. eapply wp_mono; [apply (Hgr ht eq_refl HCt E2 Hr2); lia|].
    intros ? τ Hτ. apply wp_ret. left. split; [done|]. eapply Hres; [|exact Hτ]. intros m. cbn. lia.
  - destruct (round16 (p + size) <? c + c_len h) eqn:E2; b2p.
    + apply wpx_of_wp, wp_bind. eapply wp_mono; [apply Hsh; lia|]. intros ? τ Hτ.
      apply wp_bind. eapply wp_mono; [apply resized_cycle, Hτ|]. intros ? υ Hυ. apply wp_ret.
      left. split; [done|]. eapply Hres; [|exact Hυ]. intros m. cbn. lia.
    + apply wpx_of_wp, wp_ret. left. split; [done|]. eapply (Hres σ (fun m => p + size <= c + m)); [done|].
      split; [done|]. exists G, ml, rl, (c_len h). split; [done|]. split; [by eexists _, _|].
      split; [lia|apply evol_refl].
Qed.

Lemma wmem_block_realloc_spec G ml rl bl J L σ p c b h n size k :
  wstate_ok G ml rl bl J L σ → L !! p = Some (c, n) → G !! c = Some b → chunks σ !! c = Some h →
  0 < size → 0 <= k < 32 → size + 2 ^ k + 36 < 4294967296 → p + size + 15 < 4294967296 →
  AllocVec (os_blocks σ) 8388608 ≠ NULL → AllocVec (os_blocks σ) (size + 2 ^ k + 36) ≠ NULL →
  in_blocks (os_blocks σ) p size = true →
  wp (wmem_block_realloc p size (2 ^ k))
     (fun q τ => q ≠ NULL ∧ winv (<[q := size]> (delete p (snd <$> L))) τ) σ.
Proof.
  intros HW HLp HG HC Hs Hk Hov Hps Hos1 Hos2 Hsrc. eapply wp_mono.
  - eapply wp_of_wpx; [by eapply wmem_block_realloc_runs|]. intros [?|Hv]; [done|congruence].
  - intros q τ [?|(_ & ? & _)]; done.
Qed.

(** ** Correctness *)

(** The allocation at [p] has a block of its own. *)
Definition is_jumbo (σ : wstate) (p : Z) : bool :=
  match pre_chunk σ !! (p - 4) with
  | Some c => match chunks σ !! c with Some h => c_jumbo h | None => false end
  | None => false
  end.

(** wmem_block_realloc, for an allocation that is not jumbo, when exec has
    memory and the [size] bytes behind the pointer are accessible: it returns a
    pointer to [size] bytes in place of the old allocation (grown or shrunk where
    it is, or moved), disjoint from all others. *)
Theorem wmem_block_realloc_correct A σ p n size k :
  winv A σ → A !! p = Some n → is_jumbo σ p = false →
  0 < size → 0 <= k < 32 → size + 2 ^ k + 36 < 4294967296 → p + size + 15 < 4294967296 →
  AllocVec (os_blocks σ) WMEM_BLOCK_SIZE ≠ NULL →
  AllocVec (os_blocks σ) (size + 2 ^ k + 36) ≠ NULL →
  valid σ p size = true →
  wp (wmem_block_realloc p size (2 ^ k))
     (fun q τ => q ≠ NULL ∧ winv (<[q := size]> (delete p A)) τ ∧
        ∀ r m, delete p A !! r = Some m → r ≠ q → q + size <= r ∨ r + m <= q) σ.
Proof.
  intros (G & ml & rl & bl & J & L & HW & ->) Hp Hj Hs Hk Hov Hps Hos1 Hos2 Hv.
  apply lookup_fmap_Some in Hp as ([c m] & <- & HLp).
  destruct (live_chunk _ _ _ _ _ _ _ _ _ _ HW HLp) as (Hpre & _ & _ & [Hlc|[HC _]]); cycle 1.
  { unfold is_jumbo in Hj. by rewrite Hpre, HC in Hj. }
  destruct Hlc as (b & h & HG & HC & _). eapply wp_mono; [by eapply wmem_block_realloc_spec|].
  intros q τ [Hq Hw]. split; [done|]. split; [done|]. intros r m' Hr Hne.
  apply (winv_disjoint _ _ _ _ _ _ Hw); [apply lookup_insert_eq|by rewrite lookup_insert_ne|done].
Qed.

(** A jumbo allocation. *)
Lemma live_jumbo G ml rl bl J L σ p c n :
  wstate_ok G ml rl bl J L σ → L !! p = Some (c, n) → is_jumbo σ p = true →
  pre_chunk σ !! (p - 4) = Some c ∧ c + 20 <= p ∧ chunks σ !! c = Some jumbo_header ∧ 0 < c.
Proof.
  intros HW HLp Hj.
  destruct (live_chunk _ _ _ _ _ _ _ _ _ _ HW HLp) as (Hpre & Hcp & _ & [Hlc|[HC (e & HJ & _)]]).
  { destruct Hlc as (b & h & _ & HC & _ & Hf & _). unfold is_jumbo in Hj. by rewrite Hpre, HC, Hf in Hj. }
  pose proof HW as [H Hb _]. destruct (jumbo_size _ _ _ _ _ _ _ H Hb _ _ HJ) as (_ & ? & _).
  split_and!; try done; lia.
Qed.

Lemma realloc_jumbo_runs G ml rl bl J L σ p c n size alignment :
  wstate_ok G ml rl bl J L σ → L !! p = Some (c, n) → is_jumbo σ p = true →
  p < 4294967296 → 0 <= size <= 4294967296 - p →
  wp (wmem_block_realloc p size alignment) (fun q τ => q = p ∧ τ = σ) σ.
Proof.
  intros HW HLp Hj Hp32 Hs. destruct (live_jumbo _ _ _ _ _ _ _ _ _ _ HW HLp Hj) as (Hpre & Hcp & HC & ?).
  unfold wmem_block_realloc, WMEM_DATA_TO_CHUNK. change (WMEM_DATA_TO_PRE p) with (p - 4).
  destruct σ. cbn in Hpre, HC. do 4 ws. cbn [c_jumbo jumbo_header].
  unfold wmem_block_realloc_jumbo, WMEM_DATA_TO_CHUNK. change (WMEM_DATA_TO_PRE p) with (p - 4).
  unfold len_of. repeat ws. cbn [c_len jumbo_header].
  assert (u32 (0 - (p - c)) = 4294967296 - (p - c)) as -> by (unfold u32; dlia).
  destruct (_ <? size) eqn:E1; b2p; [lia|]. by apply wp_ret.
Qed.

(** Of the memory of an allocation a client may keep a part. *)
Lemma winv_keep A σ p n m : winv A σ → A !! p = Some n → 0 < m <= n → winv (<[p := m]> A) σ.
Proof.
  intros (G & ml & rl & bl & J & L & [H Hb Hl] & ->) Hp Hm.
  apply lookup_fmap_Some in Hp as ([c n'] & ? & HLp). simpl in *. subst n'.
  destruct (lv_at _ _ _ _ Hl _ _ _ HLp) as (_ & _ & _ & e & He & ?).
  exists G, ml, rl, bl, J, (<[p := (c, m)]> L). split; [|by rewrite fmap_insert].
  split; [done..|]. eapply (live_resize G J L σ G J σ c Hl); [done|exact HLp|exact He|lia|lia|done].
Qed.

(** What a reallocation gives the client: the size asked for; for a jumbo
    allocation, which never grows, not more than it has. *)
Definition granted (σ : wstate) (p n size : Z) : Z :=
  if is_jumbo σ p then Z.min n size else size.

(** A reallocation of any allocation. *)
Lemma realloc_any_runs A σ p n size k :
  winv A σ → A !! p = Some n → 0 < size → 0 <= k < 32 →
  size + 2 ^ k + 36 < 4294967296 → p + size + 15 < 4294967296 →
  wpx (no_move p size σ) (wmem_block_realloc p size (2 ^ k))
      (moved A p (granted σ p n size) (size + 2 ^ k + 36) σ) σ.
Proof.
  intros Hw Hp Hs Hk Hov Hps. pose proof Hw as (G & ml & rl & bl & J & L & HW & ->).
  pose proof Hp as Hp'. apply lookup_fmap_Some in Hp' as ([c m] & Em & HLp). simpl in Em. subst m.
  unfold granted. destruct (is_jumbo σ p) eqn:Hj.
  - apply wpx_of_wp. eapply wp_mono; [eapply realloc_jumbo_runs; try done; lia|].
    intros ? ? [-> ->]. left. destruct (live_jumbo _ _ _ _ _ _ _ _ _ _ HW HLp Hj) as (_ & ? & _ & ?).
    destruct (live_chunk _ _ _ _ _ _ _ _ _ _ HW HLp) as (_ & _ & ? & _).
    split; [unfold NULL; lia|]. rewrite insert_delete_eq. eapply winv_keep; [done..|lia].
  - destruct (live_chunk _ _ _ _ _ _ _ _ _ _ HW HLp) as (Hpre & _ & _ & [Hlc|[HC _]]); cycle 1.
    { unfold is_jumbo in Hj. by rewrite Hpre, HC in Hj. }
    destruct Hlc as (b & h & HG & HC & _). by eapply wmem_block_realloc_runs.
Qed.

(** C40: wmem_block_realloc of a jumbo allocation at [p]: whatever size up to
    2^32 - p is asked for, the old pointer is returned and nothing has changed,
    because the length of a jumbo chunk is recorded as 0 and its old size is
    computed as nearly 2^32. *)
Theorem wmem_block_realloc_jumbo_keeps A σ p n size alignment :
  winv A σ → A !! p = Some n → is_jumbo σ p = true → p < 4294967296 →
  0 <= size <= 4294967296 - p →
  wp (wmem_block_realloc p size alignment) (fun q τ => q = p ∧ τ = σ) σ.
Proof.
  intros (G & ml & rl & bl & J & L & HW & ->) Hp Hj Hp32 Hs.
  apply lookup_fmap_Some in Hp as ([c m] & <- & HLp). by eapply realloc_jumbo_runs.
Qed.
End Exec.
