(* ===== verification/WmemClient.v ===== *)
(** * The allocator as its clients see it

    The states that a sequence of allocations, reallocations and frees can
    reach; what holds in all of them; and the rotation of the recycler. *)

From stdpp Require Import base numbers gmap list relations.
From S2P Require Import Prelude CMem Words DList WmemBlock WmemLists WmemLayout.
From S2P Require Import WmemHeap WmemSplit WmemInv WmemAlloc WmemRealloc.
Open Scope Z_scope.
#[local] Set Warnings "-clear-no-such-hyp".

(** ** A new allocator *)

Lemma winv_init : winv ∅ wmem_block_allocator_init.
Proof.
  exists ∅, [], [], [], ∅, ∅. split; [|by rewrite fmap_empty]. split.
  - split; cbn; try done; try (intros *; set_solver).
    + split; intros *; set_solver.
    + split; cbn; try done; try (constructor; fail); intros *; set_solver.
    + intros a. split; [set_solver|]. intros [(n & (b & h & ? & _) & _) _]. done.
  - split; cbn; try done; try (intros *; set_solver); [constructor|].
    intros b. split; [set_solver|]. by intros [?|[? ?]].
  - split; cbn; try done. intros c e [(b & h & ? & _)|?]; done.
Qed.

(** ** The chunks of a block, walked from the first one *)

Inductive walk (σ : wstate) (b : Z) : Z → Prop :=
| walk_first : walk σ b (b + 16)
| walk_next c h :
    walk σ b c → chunks σ !! c = Some h → c_last h = false → walk σ b (c + c_len h).

Lemma walk_chunk G ml rl bl J L σ b n c :
  wstate_ok G ml rl bl J L σ → (b, n) ∈ os_blocks σ → walk σ b c →
  G !! c = Some b ∨ (c = b + 16 ∧ is_Some (J !! c) ∧ chunks σ !! c = Some jumbo_header).
Proof.
  intros [H Hb _] Hin Hw. induction Hw as [|c h Hw IH HC Hl].
  - apply (bk_os _ _ _ _ Hb) in Hin. apply (bk_in _ _ _ _ Hb) in Hin as [?|[e HJ]]; [by left|right].
    split; [done|]. split; [by eexists|]. by destruct (bk_jumbo _ _ _ _ Hb _ _ HJ).
  - destruct IH as [HG|(_ & _ & HCj)]; [|rewrite HCj in HC; by simplify_eq].
    destruct (layout_next _ _ _ _ _ _ (hp_layout _ _ _ _ _ H) HG HC Hl) as (? & ? & _). by left.
Qed.

(** ** Clients *)

Section Client.
Context `{E : Exec}.

(** Allocations in use with their sizes, and the state of the allocator.  A client
    asks for alignments that are powers of two and for sizes with which no 32-bit
    sum wraps; a step is a call that returns.  When a reallocation finds no memory
    to move to, it has freed the allocation and returns NULL; a jumbo allocation
    never grows ([granted]). *)
Inductive wstep : gmap Z Z * wstate → gmap Z Z * wstate → Prop :=
| step_alloc A σ size k p τ :
    0 < size → 0 <= k < 32 → size + 2 ^ k + 36 < 4294967296 →
    wmem_block_alloc size (2 ^ k) σ = Ok (p, τ) →
    wstep (A, σ) (if p =? NULL then A else <[p := size]> A, τ)
| step_free A σ p n τ :
    A !! p = Some n → wmem_block_free p σ = Ok (tt, τ) → wstep (A, σ) (delete p A, τ)
| step_realloc A σ p n size k q τ :
    A !! p = Some n → 0 < size → 0 <= k < 32 →
    size + 2 ^ k + 36 < 4294967296 → p + size + 15 < 4294967296 →
    wmem_block_realloc p size (2 ^ k) σ = Ok (q, τ) →
    wstep (A, σ) (if q =? NULL then delete p A
                  else <[q := granted σ p n size]> (delete p A), τ).

Definition reachable (s : gmap Z Z * wstate) : Prop := rtc wstep (∅, wmem_block_allocator_init) s.

Lemma wstep_winv s s' : wstep s s' → winv s.1 s.2 → winv s'.1 s'.2.
Proof.
  intros Hst Hw. pose proof Hw as (G & ml & rl & bl & J & L & HW & EA).
  destruct Hst as [A σ size k p τ Hs Hk Hov Hrun|A σ p n τ Hp Hrun
                  |A σ p n size k q τ Hp Hs Hk Hov Hps Hrun]; cbn in *.
  - pose proof (wmem_block_alloc_runs _ _ _ _ _ _ _ size k HW Hs Hk Hov) as Hwp.
    unfold wpx in Hwp. rewrite Hrun in Hwp. destruct Hwp as [(-> & -> & _)|Hh].
    + rewrite Z.eqb_refl. by exists G, ml, rl, bl, J, L.
    + destruct (handed_out_winv _ _ _ _ _ Hh) as (_ & Hp & _ & Hw').
      rewrite (proj2 (Z.eqb_neq p NULL)) by done. by rewrite EA.
  - subst A. apply lookup_fmap_Some in Hp as ([c m] & <- & HLp).
    pose proof (free_winv _ _ _ _ _ _ _ _ p c m HW HLp eq_refl) as Hwp.
    unfold wp in Hwp. rewrite Hrun, fmap_delete in Hwp. done.
  - pose proof (realloc_any_runs A σ p n size k Hw Hp Hs Hk Hov Hps) as Hwp.
    unfold wpx in Hwp. rewrite Hrun in Hwp. destruct Hwp as [[Hq ?]|(-> & _ & ?)].
    + by rewrite (proj2 (Z.eqb_neq q NULL)).
    + by rewrite Z.eqb_refl.
Qed.

Lemma reachable_winv s : reachable s → winv s.1 s.2.
Proof.
  assert (∀ x, rtc wstep x s → winv x.1 x.2 → winv s.1 s.2) as Hgen.
  { intros x. induction 1 as [|x y z Hxy Hyz IH]; [done|]. intros Hx. by eapply IH, wstep_winv. }
  intros Hr. apply (Hgen _ Hr). apply winv_init.
Qed.

(** A chunk and the memory of a used chunk. *)
Lemma chunk_extent_apart G ml rl bl J L σ c b h z e :
  wstate_ok G ml rl bl J L σ → G !! c = Some b → chunks σ !! c = Some h →
  extent G J (chunks σ) z e →
  c = z ∧ c_used h = true ∨ c + c_len h <= z ∨ z + e <= c.
Proof.
  intros [H Hb _] HG HC He. pose proof (hp_layout _ _ _ _ _ H) as HL.
  pose proof (WmemLayout.ck_len _ _ _ _ _ (layout_at _ _ _ _ _ _ HL HG HC)).
  destruct (decide (c = z)) as [<-|Hcz].
  - left. split; [done|]. destruct He as [(b' & h' & ? & ? & ? & _)|HJ]; [by simplify_eq|].
    destruct (bk_jumbo _ _ _ _ Hb _ _ HJ) as [HC' _]. rewrite HC in HC'. by simplify_eq.
  - right. destruct He as [(b' & h' & HG' & HC' & _ & <-)|HJ].
    + by apply (layout_apart _ _ _ _ _ _ _ _ _ HL HG HG' HC HC').
    + destruct (decide (c + c_len h <= z)) as [|N1]; [by left|]. right.
      destruct (decide (z + e <= c)) as [|N2]; [done|]. exfalso.
      destruct (jumbo_size _ _ _ _ _ _ _ H Hb _ _ HJ).
      apply (jumbo_apart _ _ _ _ _ _ _ H Hb z e (Z.max c z) HJ); [lia|].
      exists c, (c_used h), (c_len h). split; [by exists b, h|lia].
Qed.

(** The header [h] of the chunk [c] of the [n] bytes at [b] agrees with its
    neighbours: the only chunk of a jumbo block, or a chunk whose [prev] and
    [len] lead to the chunks before and behind it, up to the two ends of the
    block; of two neighbours one is in use. *)
Definition header_ok (σ : wstate) (b n c : Z) (h : wmem_block_chunk_t) : Prop :=
  (if c_jumbo h then c = b + 16 ∧ c_last h = true ∧ c_used h = true
   else if c_last h then c + c_len h = b + n
   else ∃ hn, chunks σ !! (c + c_len h) = Some hn ∧ c_prev hn = c_len h ∧
              (c_used h = true ∨ c_used hn = true)) ∧
  (if c_prev h =? 0 then c = b + 16
   else ∃ hp, chunks σ !! (c - c_prev h) = Some hp ∧ c_len hp = c_prev h ∧ c_last hp = false).

Lemma chunk_header_ok G ml rl bl J L σ b n c h :
  wstate_ok G ml rl bl J L σ → (b, n) ∈ os_blocks σ → G !! c = Some b → chunks σ !! c = Some h →
  header_ok σ b n c h.
Proof.
  intros [H _ _] Hin HG HC. pose proof (hp_layout _ _ _ _ _ H) as HL.
  pose proof (hp_os _ _ _ _ _ H) as Hos. pose proof (layout_pos _ Hos _ _ _ _ HL HG).
  pose proof (layout_at _ _ _ _ _ _ HL HG HC) as [Hj _ _ Hlen _ _ Hnx Hpv]. split.
  - rewrite Hj. destruct (c_last h) eqn:El.
    + pose proof (os_range _ Hos _ _ Hin).
      destruct (os_disj _ Hos _ _ _ _ Hin (ly_block _ _ _ HL _ _ HG)) as [[_ ->]|?]; [done|lia].
    + destruct Hnx as (hn & HGn & HCn & ?). exists hn. split_and!; try done.
      apply (hp_coal _ _ _ _ _ H c b h hn); try done; lia.
  - destruct (c_prev h =? 0); [done|]. destruct Hpv as (hp & _ & ?). by exists hp.
Qed.

Lemma winv_live G ml rl bl J L σ p m :
  wstate_ok G ml rl bl J L σ → (snd <$> L) !! p = Some m →
  ∃ z e, z + 20 <= p ∧ 0 < m ∧ extent G J (chunks σ) z e ∧ p + m <= z + e.
Proof.
  intros [_ _ Hl] Hp. apply lookup_fmap_Some in Hp as ([z m'] & <- & HLp).
  destruct (lv_at _ _ _ _ Hl _ _ _ HLp) as (_ & ? & ? & e & ? & ?). by exists z, e.
Qed.

(** What holds of the chunks of all blocks. *)
Lemma winv_walk A σ b n c :
  winv A σ → (b, n) ∈ os_blocks σ → walk σ b c →
  ∃ h, chunks σ !! c = Some h ∧ header_ok σ b n c h ∧
    ∀ p m, A !! p = Some m →
      (c + 16 <= p - 4 ∨ p + m <= c) ∧ (c_used h = false → c + c_len h <= p - 4 ∨ p + m <= c).
Proof.
  intros (G & ml & rl & bl & J & L & HW & ->) Hin Hw. pose proof HW as [H Hb Hl].
  destruct (walk_chunk _ _ _ _ _ _ _ _ _ _ HW Hin Hw) as [HG|(Ec & [e HJ] & HC)].
  - destruct (ly_chunk _ _ _ (hp_layout _ _ _ _ _ H) _ _ HG) as (h & HC & Hok). exists h.
    split; [done|]. split; [by eapply chunk_header_ok|]. intros p m Hp.
    destruct (winv_live _ _ _ _ _ _ _ p m HW Hp) as (z & e & ? & ? & He & ?).
    pose proof (WmemLayout.ck_len _ _ _ _ _ Hok).
    destruct (chunk_extent_apart _ _ _ _ _ _ _ c b h z e HW HG HC He) as [[-> ->]|?];
      split; try done; lia.
  - exists jumbo_header. split; [done|]. split; [done|]. intros p m Hp. split; [|done].
    destruct (winv_live _ _ _ _ _ _ _ p m HW Hp) as (z & e' & ? & ? & He & ?).
    destruct (decide (c = z)) as [<-|Hcz]; [left; lia|].
    destruct (jumbo_size _ _ _ _ _ _ _ H Hb _ _ HJ).
    destruct (extent_apart _ _ _ _ _ _ _ H Hb c e z e' (or_intror HJ) He Hcz); lia.
Qed.

Lemma winv_memory A σ p n :
  winv A σ → A !! p = Some n → 0 < n ∧ valid σ (p - 4) (n + 4) = true.
Proof.
  intros (G & ml & rl & bl & J & L & HW & ->) Hp.
  destruct (winv_live _ _ _ _ _ _ _ p n HW Hp) as (z & e & ? & ? & He & ?). split; [done|].
  destruct HW as [Hh Hb _]. destruct (extent_range _ _ _ _ _ _ _ Hh Hb _ _ He) as (_ & _ & _ & Hv).
  apply in_blocks_sub with z e; [done|lia..].
Qed.

(** ** Correctness *)

(** C1: in every state that calls of wmem_block_alloc, wmem_block_realloc and
    wmem_block_free can reach (powers of two as alignments, no 32-bit sum wraps),
    the memory handed out lies in memory of exec and no two allocations overlap.
    A jumbo allocation that was asked to grow counts with its old size. *)
Theorem reachable_disjoint A σ p n :
  reachable (A, σ) → A !! p = Some n →
  0 < n ∧ valid σ p n = true ∧
  ∀ p' n', A !! p' = Some n' → p ≠ p' → p + n <= p' ∨ p' + n' <= p.
Proof.
  intros Hw%reachable_winv Hp. cbn in Hw. destruct (winv_memory _ _ _ _ Hw Hp) as [? Hv].
  split; [done|]. split; [apply in_blocks_sub with (p - 4) (n + 4); [done|lia..]|].
  intros p' n' Hp' Hne. by apply (winv_disjoint _ _ _ _ _ _ Hw).
Qed.

(** C2: in every such state, the chunks found by walking a block have headers
    that agree with their neighbours: [prev] and [len] lead to the chunks before
    and behind, up to the two ends of the block, and of two neighbours one is in
    use; and the headers, the free chunks and the words in front of the
    allocations overlap no memory handed out. *)
Theorem reachable_metadata A σ b n c :
  reachable (A, σ) → (b, n) ∈ os_blocks σ → walk σ b c →
  ∃ h, chunks σ !! c = Some h ∧ header_ok σ b n c h ∧
    ∀ p m, A !! p = Some m →
      (c + 16 <= p - 4 ∨ p + m <= c) ∧ (c_used h = false → c + c_len h <= p - 4 ∨ p + m <= c).
Proof. intros Hw%reachable_winv. by apply winv_walk. Qed.

(** C3: from every such state the calls return to such a state.  Freeing an
    allocation in use always returns.  An allocation returns, unless it fits in a
    block and exec has no memory for a new one: then it can only fault.  A
    reallocation returns, unless exec has no memory for a new block or the [size]
    bytes behind the old pointer are not all memory of exec (a move copies the
    new size).  NULL is returned only when exec has no memory. *)
Theorem reachable_progress A σ :
  reachable (A, σ) →
  (∀ p n, A !! p = Some n →
     wp (wmem_block_free p) (fun _ τ => reachable (delete p A, τ)) σ) ∧
  (∀ size k, 0 < size → 0 <= k < 32 → size + 2 ^ k + 36 < 4294967296 →
     wpx (size + 2 ^ k + 20 <= 8388592 ∧ AllocVec (os_blocks σ) WMEM_BLOCK_SIZE = NULL)
       (wmem_block_alloc size (2 ^ k))
       (fun p τ => reachable (if p =? NULL then A else <[p := size]> A, τ) ∧
          (p = NULL → AllocVec (os_blocks σ) (size + 2 ^ k + 36) = NULL)) σ) ∧
  (∀ p n size k, A !! p = Some n → 0 < size → 0 <= k < 32 →
     size + 2 ^ k + 36 < 4294967296 → p + size + 15 < 4294967296 →
     wpx (AllocVec (os_blocks σ) WMEM_BLOCK_SIZE = NULL ∨ valid σ p size = false)
       (wmem_block_realloc p size (2 ^ k))
       (fun q τ => reachable (if q =? NULL then delete p A
                              else <[q := granted σ p n size]> (delete p A), τ) ∧
          (q = NULL → AllocVec (os_blocks σ) (size + 2 ^ k + 36) = NULL)) σ).
Proof.
  intros Hr. pose proof (reachable_winv _ Hr) as Hw. cbn in Hw.
  pose proof Hw as (G & ml & rl & bl & J & L & HW & EA). split_and!.
  - intros p n Hp. pose proof Hp as Hp'. rewrite EA in Hp'.
    apply lookup_fmap_Some in Hp' as ([c m] & _ & HLp).
    pose proof (wmem_block_free_spec _ _ _ _ _ _ _ p c m HW HLp) as Hwp. unfold wp in *.
    destruct (wmem_block_free p σ) as [[[] τ]| |] eqn:Erun; try done.
    eapply rtc_r; [exact Hr|]. by eapply step_free.
  - intros size k Hs Hk Hov. destruct (round16_spec (20 + 2 ^ k + size)) as [Hr1 _].
    pose proof (wmem_block_alloc_runs _ _ _ _ _ _ _ size k HW Hs Hk Hov) as Hwp. unfold wpx in *.
    destruct (wmem_block_alloc size (2 ^ k) σ) as [[p τ]| |] eqn:Erun; [|split; [lia|apply Hwp]|done].
    split; [eapply rtc_r; [exact Hr|]; by eapply step_alloc|].
    intros ->. destruct Hwp as [(_ & _ & _ & ?)|(_ & ? & _)]; done.
  - intros p n size k Hp Hs Hk Hov Hps.
    pose proof (realloc_any_runs _ _ _ _ _ _ Hw Hp Hs Hk Hov Hps) as Hwp. unfold wpx in *.
    destruct (wmem_block_realloc p size (2 ^ k) σ) as [[q τ]| |] eqn:Erun; [|exact Hwp|done].
    split; [eapply rtc_r; [exact Hr|]; by eapply step_realloc|].
    intros ->. destruct Hwp as [[? _]|(_ & ? & _)]; done.
Qed.
End Client.

(** ** The rotation of the recycler *)

(** [n] rotations. *)
Definition cycles (n : nat) : M wstate unit :=
  Nat.iter n (fun m => _ ← wmem_block_cycle_recycler; m) (mret tt).

(** The first [length seen] chunks behind the head have been compared with it:
    they are at the end of the list and not larger. *)
Lemma cycle_seen len h todo seen :
  (∀ c, c ∈ seen → len c <= len h) →
  ∃ h', cycle len (h :: todo ++ seen) =
        match todo with
        | n :: todo' => h' :: todo' ++ (seen ++ [if len n <? len h then n else h])
        | [] => cycle len (h :: seen)
        end ∧
        (∀ n todo', todo = n :: todo' → len h <= len h' ∧ len n <= len h').
Proof.
  intros Hs. destruct todo as [|n todo]; [by exists h|]. cbn.
  destruct (len n <? len h) eqn:E; b2p.
  - exists h. rewrite app_assoc. split; [done|]. intros ? ? [= <- <-]. lia.
  - exists n. rewrite app_assoc. split; [done|]. intros ? ? [= <- <-]. lia.
Qed.

Lemma cycle_max len h l :
  (∀ c, c ∈ l → len c <= len h) →
  ∃ h' l', cycle len (h :: l) = h' :: l' ∧ ∀ c, c ∈ h :: l → len c <= len h'.
Proof.
  intros Hl. destruct l as [|n l]; [exists h, []; set_solver by lia|]. cbn.
  destruct (len n <? len h) eqn:E; b2p.
  - exists h, (l ++ [n]). split; [done|]. intros c [->|?]%elem_of_cons; [lia|by apply Hl].
  - exists n, (l ++ [h]). split; [done|]. intros c [->|Hc]%elem_of_cons; [lia|].
    apply Hl in Hc. lia.
Qed.

Lemma iter_cycle_max len n : ∀ h todo seen,
  (length todo <= n)%nat → (∀ c, c ∈ seen → len c <= len h) →
  ∃ h' l', Nat.iter n (cycle len) (h :: todo ++ seen) = h' :: l' ∧
    ∀ c, c ∈ h :: todo ++ seen → len c <= len h'.
Proof.
  induction n as [|n IH]; intros h todo seen Hn Hs.
  - destruct todo; [|simpl in Hn; lia]. exists h, seen. split; [done|].
    intros c [->|?]%elem_of_cons; [lia|by apply Hs].
  - rewrite Nat.iter_succ_r. destruct todo as [|m todo].
    + destruct (cycle_max len h seen Hs) as (h' & l' & E & Hm). simpl app. rewrite E.
      destruct (IH h' [] l') as (h2 & l2 & E2 & Hm2); [simpl; lia| |].
      * intros c Hc. apply Hm. rewrite <- (cycle_perm len). rewrite E. set_solver.
      * exists h2, l2. split; [done|]. intros c Hc. apply Hm2.
        rewrite <- (cycle_perm len), E in Hc. done.
    + destruct (cycle_seen len h (m :: todo) seen Hs) as (h' & E & Hm).
      destruct (Hm _ _ eq_refl) as [Hm1 Hm2]. rewrite E.
      set (seen' := seen ++ _) in *.
      destruct (IH h' todo seen') as (h2 & l2 & E2 & Hm3); [simpl in Hn; lia| |].
      * intros c [Hc|Hc]%elem_of_app; [apply Hs in Hc; lia|].
        apply list_elem_of_singleton in Hc as ->. destruct (_ <? _); lia.
      * exists h2, l2. split; [done|]. intros c Hc. apply Hm3.
        rewrite <- (cycle_perm len), E in Hc. done.
Qed.

Lemma cycles_wp n : ∀ ml rl σ,
  flists ml rl σ → (∀ c, c ∈ rl → is_Some (chunks σ !! c)) →
  wp (cycles n) (fun _ τ => chunks τ = chunks σ ∧
                   flists ml (Nat.iter n (cycle (clen (chunks σ))) rl) τ) σ.
Proof.
  induction n as [|n IH]; intros ml rl σ Hf Hc; [by apply wp_ret|].
  change (cycles (S n)) with (_ ← wmem_block_cycle_recycler; cycles n).
  apply wp_bind. eapply wp_mono; [by apply cycle_recycler_spec|]. intros ? τ [Hst Hτ].
  destruct (free_heap_step _ _ Hst) as [_ EC]. rewrite Nat.iter_succ_r. rewrite <- EC in Hτ |- *.
  apply IH; [done|]. intros c. rewrite cycle_perm, EC. apply Hc.
Qed.

(** when the recycler has at most [n + 1] chunks, after [n] rotations its head
    is a largest one (the design notes promise this of n rotations for n chunks);
    no chunk is lost. *)
Theorem recycler_bubbles ml rl σ n :
  flists ml rl σ → (∀ c, c ∈ rl → is_Some (chunks σ !! c)) → (length rl <= S n)%nat →
  wp (cycles n)
     (fun _ τ => ∃ rl', flists ml rl' τ ∧ rl' ≡ₚ rl ∧ chunks τ = chunks σ ∧
        ∀ c, c ∈ rl → clen (chunks σ) c <= clen (chunks σ) (recycler_head τ)) σ.
Proof.
  intros Hf Hc Hn. eapply wp_mono; [by apply cycles_wp|]. intros ? τ [EC Hτ]. eexists.
  split; [exact Hτ|]. split.
  { clear. generalize (clen (chunks σ)). intros len. induction n as [|n IH]; [done|].
    simpl. by rewrite cycle_perm. }
  split; [done|]. intros c Hin. rewrite (fl_rh _ _ _ Hτ). destruct rl as [|h l]; [set_solver|].
  destruct (iter_cycle_max (clen (chunks σ)) n h l []) as (h' & l' & E & Hm).
  { simpl in Hn. lia. } { set_solver. }
  rewrite app_nil_r in E, Hm. rewrite E. simpl. by apply Hm.
Qed.

(** once the head of the recycler is a largest chunk, rotating keeps it so. *)
Theorem recycler_stable ml rl σ :
  flists ml rl σ → (∀ c, c ∈ rl → is_Some (chunks σ !! c)) →
  (∀ c, c ∈ rl → clen (chunks σ) c <= clen (chunks σ) (recycler_head σ)) →
  wp wmem_block_cycle_recycler
     (fun _ τ => ∀ c, c ∈ rl → clen (chunks τ) c <= clen (chunks τ) (recycler_head τ)) σ.
Proof.
  intros Hf Hc Hmax. eapply wp_mono; [by apply cycle_recycler_spec|]. intros ? τ [Hst Hτ] c Hin.
  destruct (free_heap_step _ _ Hst) as [_ ->]. rewrite (fl_rh _ _ _ Hτ).
  rewrite (fl_rh _ _ _ Hf) in Hmax. destruct rl as [|h l]; [set_solver|].
  destruct (cycle_max (clen (chunks σ)) h l) as (h' & l' & -> & Hm); [set_solver|]. by apply Hm.
Qed.

(** ** A concrete exec *)

(** New memory behind all memory in use. *)
Definition bump_end (live : list (Z * Z)) : Z :=
  foldr (fun '(b, n) e => Z.max (b + n) e) 65536 live.
Definition bump (live : list (Z * Z)) (size : Z) : Z :=
  let a := round16 (bump_end live) in if a + size <? 4294967296 then a else NULL.

Lemma bump_ok live size :
  0 <= size → bump live size ≠ NULL →
  let a := bump live size in
  a mod 16 = 0 ∧ 0 < a ∧ a + size < 4294967296 ∧
  Forall (fun '(b, n) => a + size <= b ∨ b + n <= a) live.
Proof.
  intros Hs. unfold bump. cbv zeta. destruct (_ <? _) eqn:E1; [|done]. b2p. intros _.
  destruct (round16_spec (bump_end live)) as [Hr Hr']. split; [done|].
  assert (65536 <= bump_end live) by (clear; unfold bump_end; induction live as [|[b n] l IH]; simpl; lia).
  split; [lia|]. split; [done|]. apply Forall_forall. intros [b n] Hin. right.
  assert (b + n <= bump_end live); [|lia]. clear -Hin. unfold bump_end.
  induction live as [|[b' n'] l IH]; [set_solver|]. simpl.
  apply elem_of_cons in Hin as [[= -> ->]|Hin]; [lia|]. apply IH in Hin. lia.
Qed.

Definition bump_exec : Exec := {| AllocVec := bump; AllocVec_ok := bump_ok |}.

(** The state after one allocation of 100 bytes, and one of 16 MB. *)
Definition after {A} (m : M wstate A) (σ : wstate) : wstate :=
  match m σ with Ok (_, τ) => τ | _ => σ end.
Definition demo1 : wstate := after (@wmem_block_alloc bump_exec 100 16) wmem_block_allocator_init.
Definition demo2 : wstate := after (@wmem_block_alloc bump_exec 16777216 16) demo1.

#[local] Opaque demo1 demo2.

Lemma demo1_run :
  @wmem_block_alloc bump_exec 100 (2 ^ 4) wmem_block_allocator_init = Ok (65584, demo1).
Proof. vm_compute. reflexivity. Qed.
Lemma demo2_run : @wmem_block_alloc bump_exec 16777216 (2 ^ 4) demo1 = Ok (8454192, demo2).
Proof. vm_compute. reflexivity. Qed.

Lemma demo1_reachable : @reachable bump_exec ({[65584 := 100]}, demo1).
Proof.
  eapply rtc_l; [|apply rtc_refl].
  refine (@step_alloc bump_exec ∅ _ 100 4 65584 demo1 _ _ _ demo1_run); lia.
Qed.

Definition demo_live : gmap Z Z := <[8454192 := 16777216]> {[65584 := 100]}.

Lemma demo2_reachable : @reachable bump_exec (demo_live, demo2).
Proof.
  eapply rtc_r; [apply demo1_reachable|].
  refine (@step_alloc bump_exec {[65584 := 100]} _ 16777216 4 8454192 demo2 _ _ _ demo2_run); lia.
Qed.
Lemma demo2_winv : winv demo_live demo2.
Proof. exact (reachable_winv _ demo2_reachable). Qed.

(** A recycler of three chunks, the largest in the middle. *)
Definition demo_chunk (prev len : Z) : wmem_block_chunk_t := Chunk prev false false false len.
Definition demo_ring : wstate :=
  WState (<[1040 := demo_chunk 0 64]> (<[2048 := demo_chunk 64 256]>
           {[4096 := demo_chunk 64 128]}))
         (<[1040 := 4096]> (<[2048 := 1040]> {[4096 := 2048]}))
         (<[1040 := 2048]> (<[2048 := 4096]> {[4096 := 1040]}))
         ∅ ∅ ∅ NULL NULL 1040 [(1024, 8388608)].

Lemma demo_flists : flists [] [1040; 2048; 4096] demo_ring.
Proof.
  split.
  - by apply (bool_decide_unpack _).
  - by apply (bool_decide_unpack _).
  - apply Forall_forall. repeat constructor.
  - reflexivity.
  - reflexivity.
  - exact I.
  - vm_compute. tauto.
Qed.
Lemma demo_chunks : ∀ c, c ∈ [1040; 2048; 4096] → is_Some (chunks demo_ring !! c).
Proof. apply Forall_forall. repeat constructor; by eexists. Qed.

(** ** Witnesses *)

Lemma wmem_block_alloc_correct_witness :
  wpx (100 + 2 ^ 4 + 20 <= 8388592 ∧ @AllocVec bump_exec (os_blocks demo2) WMEM_BLOCK_SIZE = NULL)
      (@wmem_block_alloc bump_exec 100 (2 ^ 4))
      (fun p τ =>
        (p = NULL ∧ τ = demo2 ∧ 8388592 < 100 + 2 ^ 4 + 20 ∧
         @AllocVec bump_exec (os_blocks demo2) (100 + 2 ^ 4 + 36) = NULL) ∨
        (p ≠ NULL ∧ p mod 2 ^ 4 = 0 ∧ demo_live !! p = None ∧
         (∀ q m, demo_live !! q = Some m → p + 100 <= q ∨ q + m <= p) ∧
         winv (<[p := 100]> demo_live) τ)) demo2.
Proof. refine (@wmem_block_alloc_correct bump_exec demo_live demo2 100 4 demo2_winv _ _ _); lia. Defined.

Lemma wmem_block_free_correct_witness :
  wp (wmem_block_free 65584) (fun _ τ => winv (delete 65584 demo_live) τ) demo2.
Proof. refine (wmem_block_free_correct demo_live demo2 65584 100 demo2_winv _). reflexivity. Defined.

Lemma wmem_block_realloc_correct_witness :
  wp (@wmem_block_realloc bump_exec 65584 5000 (2 ^ 4))
     (fun q τ => q ≠ NULL ∧ winv (<[q := 5000]> (delete 65584 demo_live)) τ ∧
        ∀ r m, delete 65584 demo_live !! r = Some m → r ≠ q → q + 5000 <= r ∨ r + m <= q) demo2.
Proof.
  refine (@wmem_block_realloc_correct bump_exec demo_live demo2 65584 100 5000 4 demo2_winv
            _ _ _ _ _ _ _ _ _); try lia; vm_compute; try reflexivity; discriminate.
Defined.

Lemma wmem_block_realloc_jumbo_keeps_witness :
  wp (@wmem_block_realloc bump_exec 8454192 33554432 16)
     (fun q τ => q = 8454192 ∧ τ = demo2) demo2.
Proof.
  refine (@wmem_block_realloc_jumbo_keeps bump_exec demo_live demo2 8454192 16777216 33554432 16
            demo2_winv _ _ _ _); try lia; vm_compute; reflexivity.
Defined.

(** The 16 MB are asked to become 32 MB, and keep their size. *)
Lemma demo3_run : @wmem_block_realloc bump_exec 8454192 33554432 (2 ^ 4) demo2 = Ok (8454192, demo2).
Proof. vm_compute. reflexivity. Qed.

Lemma demo3_reachable : @reachable bump_exec (<[8454192 := 16777216]> (delete 8454192 demo_live), demo2).
Proof.
  eapply rtc_r; [apply demo2_reachable|].
  change 16777216 with (granted demo2 8454192 16777216 33554432).
  refine (@step_realloc bump_exec demo_live _ 8454192 16777216 33554432 4 8454192 demo2 _ _ _ _ _
            demo3_run); [reflexivity|lia..].
Qed.

Lemma reachable_disjoint_witness :
  0 < 100 ∧ valid demo2 65584 100 = true ∧
  ∀ p' n', <[8454192 := 16777216]> (delete 8454192 demo_live) !! p' = Some n' → 65584 ≠ p' →
    65584 + 100 <= p' ∨ p' + n' <= 65584.
Proof.
  refine (@reachable_disjoint bump_exec _ demo2 65584 100 demo3_reachable _). reflexivity.
Defined.

Lemma reachable_metadata_witness :
  ∃ h, chunks demo2 !! (65536 + 16) = Some h ∧ header_ok demo2 65536 8388608 (65536 + 16) h ∧
    ∀ p m, demo_live !! p = Some m →
      (65536 + 16 + 16 <= p - 4 ∨ p + m <= 65536 + 16) ∧
      (c_used h = false → 65536 + 16 + c_len h <= p - 4 ∨ p + m <= 65536 + 16).
Proof.
  refine (@reachable_metadata bump_exec demo_live demo2 65536 8388608 (65536 + 16) demo2_reachable
            _ (walk_first demo2 65536)).
  apply list_elem_of_In. vm_compute. auto.
Defined.

Lemma reachable_progress_witness :
  wp (wmem_block_free 65584) (fun _ τ => @reachable bump_exec (delete 65584 demo_live, τ)) demo2 ∧
  wpx (valid demo2 65584 5000 = false)
      (@wmem_block_realloc bump_exec 65584 5000 (2 ^ 4))
      (fun q τ => @reachable bump_exec (if q =? NULL then delete 65584 demo_live
         else <[q := granted demo2 65584 100 5000]> (delete 65584 demo_live), τ)) demo2.
Proof.
  destruct (@reachable_progress bump_exec demo_live demo2 demo2_reachable) as (Hf & _ & Hre).
  split; [apply (Hf 65584 100); reflexivity|].
  eapply wpx_mono; [apply (Hre 65584 100 5000 4); [reflexivity|lia..]| |].
  - intros [Hn|?]; [|done]. exfalso. revert Hn. vm_compute. discriminate.
  - intros q τ Hq. exact (proj1 Hq).
Defined.

Lemma recycler_bubbles_witness :
  wp (cycles 2)
     (fun _ τ => ∃ rl', flists [] rl' τ ∧ rl' ≡ₚ [1040; 2048; 4096] ∧
        chunks τ = chunks demo_ring ∧
        ∀ c, c ∈ [1040; 2048; 4096] →
          clen (chunks demo_ring) c <= clen (chunks demo_ring) (recycler_head τ)) demo_ring.
Proof.
  refine (recycler_bubbles [] [1040; 2048; 4096] demo_ring 2 demo_flists demo_chunks _). auto.
Defined.

(** After the largest chunk has come to the head. *)
Lemma recycler_stable_witness :
  wp wmem_block_cycle_recycler
     (fun _ τ => ∀ c, c ∈ [2048; 4096; 1040] →
        clen (chunks τ) c <= clen (chunks τ) (recycler_head τ))
     (after wmem_block_cycle_recycler demo_ring).
Proof.
  refine (recycler_stable [] [2048; 4096; 1040] _ _ _ _).
  - split.
    + by apply (bool_decide_unpack _).
    + by apply (bool_decide_unpack _).
    + apply Forall_forall. repeat constructor.
    + reflexivity.
    + reflexivity.
    + exact I.
    + vm_compute. tauto.
  - intros c Hc. apply (demo_chunks c). set_solver.
  - apply Forall_forall. repeat constructor; vm_compute; discriminate.
Defined.
