(* ===== verification/Sort.v ===== *)
(** * Sorting and searching arrays

    stdlib/qsort.c and stdlib/bsearch.c on the memory of CMem.v: pointers are
    addresses and elements are [es] bytes.  The comparison function is the
    caller's: the operations take it as an argument, and the class [Comparator]
    states what the theorems rely on. *)

From stdpp Require Import base numbers gmap list sorting.
From S2P Require Import Prelude CMem Words.
Open Scope Z_scope.

(** ** qsort *)

Definition sizeof_long : Z := 4.

Definition SWAPINIT (a es : Z) : Z :=
  if negb (a mod sizeof_long =? 0) || negb (es mod sizeof_long =? 0) then 2
  else if es =? sizeof_long then 0 else 1.

(** The macro [swapcode], for a type of [sz] bytes with its load and store. *)
Definition swapcode (sz : Z) (ld : Z → M cstate Z) (st : Z → Z → M cstate unit)
    (parmi parmj n : Z) : M cstate unit :=
  loop (fun '(i, pi, pj) =>
          t ← ld pi;
          v ← ld pj; _ ← st pi v;
          _ ← st pj t;
          let i := i - 1 in
          if 0 <? i then continue (i, pi + sz, pj + sz) else break tt)
       (n / sz, parmi, parmj).

Definition swapfunc (a b n swaptype : Z) : M cstate unit :=
  if swaptype <=? 1 then swapcode sizeof_long load32 store32 a b n
  else swapcode 1 load8 store8 a b n.

Definition swap (es swaptype a b : Z) : M cstate unit :=
  if swaptype =? 0 then
    t ← load32 a; v ← load32 b; _ ← store32 a v; store32 b t
  else swapfunc a b es swaptype.

Definition vecswap (swaptype a b n : Z) : M cstate unit :=
  if 0 <? n then swapfunc a b n swaptype else mret tt.

Section Qsort.
Context (cmp : Z → Z → M cstate Z).

Definition med3 (a b c : Z) : M cstate Z :=
  ab ← cmp a b;
  if ab <? 0 then
    bc ← cmp b c;
    if bc <? 0 then mret b else ac ← cmp a c; mret (if ac <? 0 then c else a)
  else
    bc ← cmp b c;
    if 0 <? bc then mret b else ac ← cmp a c; mret (if ac <? 0 then a else c).

(** Both insertion sorts of [qsort]. *)
Definition insertion_sort (a n es swaptype : Z) : M cstate unit :=
  loop (fun pm =>
          if pm <? a + n * es then
            _ ← loop (fun pl =>
                        if a <? pl then
                          c ← cmp (pl - es) pl;
                          if 0 <? c then _ ← swap es swaptype pl (pl - es); continue (pl - es)
                          else break tt
                        else break tt) pm;
            continue (pm + es)
          else break tt) (a + es).

(** The choice of the pivot. *)
Definition pivot (a n es : Z) : M cstate Z :=
  let pm := a + n / 2 * es in
  if 7 <? n then
    let pl := a in
    let pn := a + (n - 1) * es in
    '(pl, pm, pn) ←
      (if 40 <? n then
         let d := n / 8 * es in
         pl ← med3 pl (pl + d) (pl + 2 * d);
         pm ← med3 (pm - d) pm (pm + d);
         pn ← med3 (pn - 2 * d) (pn - d) pn;
         mret (pl, pm, pn)
       else mret (pl, pm, pn));
    med3 pl pm pn
  else mret pm.

(** The two inner loops of the partition.  The result of the comparison is
    assigned to [r], which is a [size_t]. *)
Definition scan_left (a es swaptype pc : Z) (s : Z * Z * Z) : M cstate (Z * Z * Z) :=
  loop (fun '(pa, pb, swap_cnt) =>
          if pb <=? pc then
            c ← cmp pb a;
            let r := u32 c in
            if r <=? 0 then
              if r =? 0 then
                _ ← swap es swaptype pa pb; continue (pa + es, pb + es, 1)
              else continue (pa, pb + es, swap_cnt)
            else break (pa, pb, swap_cnt)
          else break (pa, pb, swap_cnt)) s.

Definition scan_right (a es swaptype pb : Z) (s : Z * Z * Z) : M cstate (Z * Z * Z) :=
  loop (fun '(pc, pd, swap_cnt) =>
          if pb <=? pc then
            c ← cmp pc a;
            let r := u32 c in
            if 0 <=? r then
              if r =? 0 then
                _ ← swap es swaptype pc pd; continue (pc - es, pd - es, 1)
              else continue (pc - es, pd, swap_cnt)
            else break (pc, pd, swap_cnt)
          else break (pc, pd, swap_cnt)) s.

Definition partition (a n es swaptype : Z) : M cstate (Z * Z * Z * Z * Z) :=
  let pa := a + es in
  let pd := a + (n - 1) * es in
  loop (fun '(pa, pb, pc, pd, swap_cnt) =>
          '(pa, pb, swap_cnt) ← scan_left a es swaptype pc (pa, pb, swap_cnt);
          '(pc, pd, swap_cnt) ← scan_right a es swaptype pb (pc, pd, swap_cnt);
          if pc <? pb then break (pa, pb, pc, pd, swap_cnt)
          else
            _ ← swap es swaptype pb pc;
            continue (pa, pb + es, pc - es, pd, 1))
       (pa, pa, pd, pd, 0).

(** What follows the partition: the elements equal to the pivot go to the middle,
    and both sides are sorted by [rec]. *)
Definition qsort_rest (rec : Z → Z → Z → M cstate unit) (a n es swaptype pa pb pc pd : Z)
    : M cstate unit :=
  let pn := a + n * es in
  let r := Z.min (pa - a) (pb - pa) in
  _ ← vecswap swaptype a (pb - r) r;
  let r := Z.min (pd - pc) (pn - pd - es) in
  _ ← vecswap swaptype pb (pn - r) r;
  let r := pb - pa in
  _ ← (if es <? r then rec a (r / es) es else mret tt);
  let r := pd - pc in
  if es <? r then rec (pn - r) (r / es) es else mret tt.

(** [qsort]; the recursive call and [goto loop] both work on fewer elements,
    [fuel] bounds their depth. *)
Fixpoint qsort_fuel (fuel : nat) (a n es : Z) : M cstate unit :=
  match fuel with
  | O => no_fuel
  | S fuel =>
      let swaptype := SWAPINIT a es in
      if n <? 7 then insertion_sort a n es swaptype
      else
        pm ← pivot a n es;
        _ ← swap es swaptype a pm;
        '(pa, pb, pc, pd, swap_cnt) ← partition a n es swaptype;
        if swap_cnt =? 0 then insertion_sort a n es swaptype
        else
          qsort_rest (qsort_fuel fuel) a n es swaptype pa pb pc pd
  end.

Definition qsort (a n es : Z) : M cstate unit := qsort_fuel (S (Z.to_nat n)) a n es.

(** ** bsearch *)

Definition bsearch (key base count size : Z) : M cstate Z :=
  if (0 <? count) && (0 <? size) then
    if (key =? NULL) || (base =? NULL) then _ ← set_errno EFAULT; mret NULL
    else
      loop (fun '(lower, upper) =>
              if lower <? upper then
                let position := u32 (lower + upper) / 2 in
                let current := u32 (base + u32 (position * size)) in
                delta ← cmp key current;
                if delta =? 0 then break current
                else if delta <? 0 then continue (lower, position)
                else continue (position + 1, upper)
              else break NULL) (0, count)
  else mret NULL.
End Qsort.

(** ** Swapping memory *)

(** Memory in which the first [t] bytes at [p] and at [q] are exchanged. *)
Definition swapped (m : gmap Z Z) (p q t a : Z) : option Z :=
  if decide (p <= a < p + t) then m !! (q + (a - p))
  else if decide (q <= a < q + t) then m !! (p + (a - q))
  else m !! a.

Definition swapped_to (σ : cstate) (p q t : Z) (τ : cstate) : Prop :=
  errno τ = errno σ ∧ ∀ a, mem τ !! a = swapped (mem σ) p q t a.

Lemma write_bytes_lookup m p l a :
  write_bytes m p l !! a = if decide (p <= a < p + lenZ l) then Some (nthZ l (a - p)) else m !! a.
Proof.
  destruct (decide _).
  - replace a with (p + (a - p)) at 1 by lia. apply write_bytes_lookup_in. lia.
  - apply write_bytes_lookup_out. lia.
Qed.

Lemma bytes_swapped_step σ p q t k x y τ :
  p = q ∨ p + (t + k) <= q ∨ q + (t + k) <= p → 0 <= t → swapped_to σ p q t τ →
  lenZ x = k → lenZ y = k → bytes_at (mem τ) (p + t) x → bytes_at (mem τ) (q + t) y →
  swapped_to σ p q (t + k)
    (with_mem (write_bytes (write_bytes (mem τ) (p + t) y) (q + t) x) τ).
Proof.
  intros Hd Ht [He Hm] Lx Ly Bx By. pose proof (lenZ_nonneg x). split; [done|]. intros a. cbn [with_mem mem].
  rewrite !write_bytes_lookup, Lx, Ly. unfold swapped.
  assert (∀ i, 0 <= i < k → mem σ !! (p + t + i) = Some (nthZ x i)) as Hx.
  { intros i Hi. rewrite <- (Bx i) by lia. rewrite Hm. unfold swapped.
    repeat case_decide; try lia; done || (f_equal; lia). }
  assert (∀ i, 0 <= i < k → mem σ !! (q + t + i) = Some (nthZ y i)) as Hy.
  { intros i Hi. rewrite <- (By i) by lia. rewrite Hm. unfold swapped.
    repeat case_decide; try lia; done || (f_equal; lia). }
  destruct (decide (q + t <= a < q + t + k)) as [H1|H1].
  - rewrite <- (Hx (a - (q + t))) by lia. repeat case_decide; try lia; f_equal; lia.
  - destruct (decide (p + t <= a < p + t + k)) as [H2|H2].
    + rewrite <- (Hy (a - (p + t))) by lia. repeat case_decide; try lia; f_equal; lia.
    + rewrite Hm. unfold swapped. repeat case_decide; try lia; done || (f_equal; lia).
Qed.

(** A type of [sz] bytes: [enc] is the value of its bytes. *)
Record access (sz : Z) (ld : Z → M cstate Z) (st : Z → Z → M cstate unit) (enc : list Z → Z)
    : Prop := {
  ac_size : 0 < sz;
  ac_load : ∀ p l Q σ, p mod sz = 0 → lenZ l = sz → bytes_at (mem σ) p l → Q (enc l) σ →
    wp (ld p) Q σ;
  ac_store : ∀ p l Q σ, p mod sz = 0 → lenZ l = sz → Forall is_byte l → mapped (mem σ) p sz →
    Q tt (with_mem (write_bytes (mem σ) p l) σ) → wp (st p (enc l)) Q σ
}.

Definition enc1 (l : list Z) : Z := nthZ l 0.
Definition enc4 (l : list Z) : Z := be32 (nthZ l 0) (nthZ l 1) (nthZ l 2) (nthZ l 3).

Lemma list_of_4 l : lenZ l = 4 → l = [nthZ l 0; nthZ l 1; nthZ l 2; nthZ l 3].
Proof. destruct l as [|a [|b [|c [|d [|e l]]]]]; unfold lenZ; simpl; intros; lia || done. Qed.
Lemma list_of_1 l : lenZ l = 1 → l = [nthZ l 0].
Proof. destruct l as [|a [|b l]]; unfold lenZ; simpl; intros; lia || done. Qed.

Lemma access_char : access 1 load8 store8 enc1.
Proof.
  split; [lia|..].
  - intros p l Q σ _ Hl Hb HQ. replace p with (p + 0) by lia. eapply wp_load8_at; [done|lia|done].
  - intros p l Q σ _ Hl Hf Hm HQ. apply wp_store8; [apply Hm; lia|].
    assert (is_byte (enc1 l)) by (unfold enc1; apply (Forall_nthZ is_byte); [done|lia]).
    rewrite u8_small by done. unfold enc1. rewrite (list_of_1 l Hl) in HQ at 1. exact HQ.
Qed.

Lemma access_long : access 4 load32 store32 enc4.
Proof.
  split; [lia|..].
  - intros p l Q σ Hp Hl Hb HQ. replace p with (p + 0) by lia.
    eapply wp_load32_at; [done|by rewrite Z.add_0_r|lia|lia|done].
  - intros p l Q σ Hp Hl Hf Hm HQ. unfold enc4.
    assert (∀ i, 0 <= i < 4 → is_byte (nthZ l i)) by (intros; apply (Forall_nthZ is_byte); [done|lia]).
    apply wp_store32; [done|done|auto with lia..|]. rewrite (list_of_4 l Hl) in HQ at 1. exact HQ.
Qed.

(** ** swapcode *)

Definition region (m : gmap Z Z) (p n : Z) : Prop :=
  ∀ a, p <= a < p + n → ∃ b, m !! a = Some b ∧ is_byte b.

Lemma region_bytes m p n k :
  region m p n → 0 <= k → ∃ l, lenZ l = k ∧ (k <= n → bytes_at m p l ∧ Forall is_byte l).
Proof.
  intros Hr Hk. set (f i := default 0 (m !! (p + i))). exists (f <$> seqZ 0 k).
  assert (lenZ (f <$> seqZ 0 k) = k) as HL by (unfold lenZ; rewrite length_fmap, length_seqZ; lia).
  split; [done|]. intros Hkn.
  assert (∀ i, 0 <= i < k → m !! (p + i) = Some (nthZ (f <$> seqZ 0 k) i)) as Hat.
  { intros i Hi. unfold nthZ. rewrite (list_lookup_total_fmap (A := Z) (B := Z) f) by (rewrite length_seqZ; lia).
    change (seqZ 0 k !!! Z.to_nat i) with (nthZ (seqZ 0 k) i). rewrite nthZ_seqZ by lia.
    unfold f. by destruct (Hr (p + i)) as (b & -> & _); [lia|]. }
  split; [intros i Hi; rewrite HL in Hi; by apply Hat|].
  apply Forall_lookup. intros i b Hb. pose proof (lookup_lt_Some _ _ _ Hb) as Hlt.
  assert (0 <= Z.of_nat i < k) as Hi by (unfold lenZ in HL; lia).
  specialize (Hat _ Hi). apply list_lookup_total_correct in Hb.
  unfold nthZ in Hat. rewrite Nat2Z.id, Hb in Hat.
  destruct (Hr (p + Z.of_nat i)) as (c & Hc & ?); [lia|]. congruence.
Qed.

Lemma swapped_region σ p q t τ n r :
  swapped_to σ p q t τ → region (mem σ) p n → region (mem σ) q n → t <= n →
  region (mem σ) r n → region (mem τ) r n.
Proof.
  intros [_ Hm] Hp Hq Ht Hr a Ha. rewrite Hm. unfold swapped. repeat case_decide.
  - apply Hq. lia.
  - apply Hp. lia.
  - by apply Hr.
Qed.

Lemma swapcode_spec sz ld st enc σ p q n :
  access sz ld st enc → region (mem σ) p n → region (mem σ) q n →
  p mod sz = 0 → q mod sz = 0 → n mod sz = 0 → 0 < n < 4294967296 →
  p = q ∨ p + n <= q ∨ q + n <= p →
  wp (swapcode sz ld st p q n) (fun _ τ => swapped_to σ p q n τ) σ.
Proof.
  intros [Hsz Hld Hst] Hp Hq Hp0 Hq0 Hn0 Hn Hd.
  assert (n = sz * (n / sz)) as En by (apply Z.div_exact; lia).
  set (c := n / sz) in *. assert (0 < c) by nia. unfold swapcode. fold c.
  apply (wp_loop _ (fun '(i, pi, pj) τ => ∃ t, 0 <= t < c ∧ i = c - t ∧ pi = p + t * sz ∧
                      pj = q + t * sz ∧ swapped_to σ p q (t * sz) τ)
           _ (fun '(i, _, _) => i)).
  - intros [[i pi] pj] τ (t & Ht & -> & -> & -> & Hτ).
    assert (t * sz + sz <= n) by nia.
    assert (∀ r, region (mem σ) r n → region (mem τ) r n) as Hreg
      by (intros r Hr; eapply swapped_region; eauto; lia).
    assert (region (mem τ) (p + t * sz) sz) as Rp by (intros a Ha; apply (Hreg p Hp); lia).
    assert (region (mem τ) (q + t * sz) sz) as Rq by (intros a Ha; apply (Hreg q Hq); lia).
    destruct (region_bytes _ _ _ sz Rp ltac:(lia)) as (x & Lx & Hx). destruct Hx as [Bx Fx]; [lia|].
    destruct (region_bytes _ _ _ sz Rq ltac:(lia)) as (y & Ly & Hy). destruct Hy as [By Fy]; [lia|].
    assert (∀ r, r mod sz = 0 → (r + t * sz) mod sz = 0) as Hal
      by (intros r Hr; by rewrite Z.add_comm, Z.mul_comm, Z_mod_plus_full || rewrite Z_mod_plus_full).
    wp_step. apply (Hld _ x); [auto|done|done|]. wp_step. apply (Hld _ y); [auto|done|done|].
    wp_step. apply Hst; [auto|done|done|intros a Ha; destruct (Rp a Ha) as (? & ? & _); by eexists|].
    wp_step. apply Hst; [auto|done|done|..].
    { cbn [with_mem mem]. apply write_bytes_mapped. intros a Ha. destruct (Rq a Ha) as (? & ? & _).
      by eexists. }
    pose proof (bytes_swapped_step σ p q (t * sz) sz x y τ ltac:(lia) ltac:(nia) Hτ Lx Ly Bx By) as Hstep.
    replace (t * sz + sz) with ((t + 1) * sz) in Hstep by lia. cbv zeta.
    destruct (0 <? c - t - 1) eqn:E; b2p.
    + wp_step. split; [|lia]. exists (t + 1). split_and!; try lia. exact Hstep.
    + wp_step. replace n with ((t + 1) * sz) by (rewrite En; assert (t + 1 = c) by lia; nia).
      exact Hstep.
  - exists 0. split_and!; try lia. split; [done|]. intros a. unfold swapped.
    repeat case_decide; lia || done.
  - intros [[i pi] pj] τ (t & Ht & -> & _). lia.
  - assert (c <= n) by nia. lia.
Qed.

Lemma swapfunc_spec σ p q n st :
  region (mem σ) p n → region (mem σ) q n → 0 < n < 4294967296 →
  (st <= 1 → p mod 4 = 0 ∧ q mod 4 = 0 ∧ n mod 4 = 0) →
  p = q ∨ p + n <= q ∨ q + n <= p →
  wp (swapfunc p q n st) (fun _ τ => swapped_to σ p q n τ) σ.
Proof.
  intros Hp Hq Hn Hst Hd. unfold swapfunc. destruct (st <=? 1) eqn:E; b2p.
  - destruct (Hst E) as (? & ? & ?). by eapply swapcode_spec; [apply access_long|..].
  - eapply swapcode_spec; [apply access_char|done|done|apply Z.mod_1_r..|done|done].
Qed.

(** ** Arrays of elements *)

Definition elem (els : list (list Z)) (i : Z) : list Z := els !!! Z.to_nat i.

(** The elements [els] are at [a]; all other memory is as in [σ0]. *)
Record arr (a es : Z) (els : list (list Z)) (σ0 σ : cstate) : Prop := {
  ar_elem : Forall (fun e => lenZ e = es ∧ Forall is_byte e) els;
  ar_at : ∀ i, 0 <= i < lenZ els → bytes_at (mem σ) (a + i * es) (elem els i);
  ar_out : ∀ x, x < a ∨ a + lenZ els * es <= x → mem σ !! x = mem σ0 !! x;
  ar_errno : errno σ = errno σ0
}.

Lemma elem_lookup els i : 0 <= i < lenZ els → els !! Z.to_nat i = Some (elem els i).
Proof. unfold elem, lenZ. intros. apply list_lookup_lookup_total_lt. lia. Qed.

Lemma elem_in els i : 0 <= i < lenZ els → elem els i ∈ els.
Proof. intros. eapply list_elem_of_lookup_2. by apply elem_lookup. Qed.

(** Exchanging [k] elements from [i] on with [k] elements from [j] on. *)
Definition swapl (i j : Z) (els : list (list Z)) : list (list Z) :=
  <[Z.to_nat j := elem els i]> (<[Z.to_nat i := elem els j]> els).
Fixpoint swaps (k : nat) (i j : Z) (els : list (list Z)) : list (list Z) :=
  match k with O => els | S k => swaps k (i + 1) (j + 1) (swapl i j els) end.

Lemma swapl_perm i j els : 0 <= i < lenZ els → 0 <= j < lenZ els → swapl i j els ≡ₚ els.
Proof. intros. apply Permutation_insert_swap; by apply elem_lookup. Qed.

Lemma swapl_len i j els : lenZ (swapl i j els) = lenZ els.
Proof. unfold swapl, lenZ. by rewrite !length_insert. Qed.

Lemma swapl_elem i j els l :
  0 <= i < lenZ els → 0 <= j < lenZ els → 0 <= l →
  elem (swapl i j els) l = if l =? j then elem els i else if l =? i then elem els j else elem els l.
Proof.
  intros Hi Hj Hl. unfold swapl, elem at 1. unfold lenZ in *.
  destruct (l =? j) eqn:E1; b2p; [subst; by rewrite list_lookup_total_insert_eq by (rewrite length_insert; lia)|].
  rewrite list_lookup_total_insert_ne by lia.
  destruct (l =? i) eqn:E2; b2p; [subst; by rewrite list_lookup_total_insert_eq by lia|].
  by rewrite list_lookup_total_insert_ne by lia.
Qed.

Lemma swaps_len k : ∀ i j els, lenZ (swaps k i j els) = lenZ els.
Proof. induction k as [|k IH]; intros; [done|]. simpl. by rewrite IH, swapl_len. Qed.

Lemma swaps_perm k : ∀ i j els,
  0 <= i → 0 <= j → i + Z.of_nat k <= lenZ els → j + Z.of_nat k <= lenZ els →
  swaps k i j els ≡ₚ els.
Proof.
  induction k as [|k IH]; intros; [done|]. simpl.
  rewrite IH, swapl_perm by (rewrite ?swapl_len; lia). done.
Qed.

Lemma swaps_elem k : ∀ i j els l,
  0 <= i → i = j ∧ k = 1%nat ∨ i + Z.of_nat k <= j ∨ j + Z.of_nat k <= i → 0 <= j →
  i + Z.of_nat k <= lenZ els → j + Z.of_nat k <= lenZ els → 0 <= l →
  elem (swaps k i j els) l =
    if decide (i <= l < i + Z.of_nat k) then elem els (j + (l - i))
    else if decide (j <= l < j + Z.of_nat k) then elem els (i + (l - j)) else elem els l.
Proof.
  induction k as [|k IH]; intros i j els l Hi Hd Hj Hki Hkj Hl.
  { repeat case_decide; lia || done. }
  cbn [swaps]. destruct Hd as [[<- [= ->]]|Hd].
  - cbn [swaps]. rewrite swapl_elem by lia.
    repeat case_decide; destruct (l =? i) eqn:E1; b2p; try lia; try done; f_equal; lia.
  - rewrite IH by (rewrite ?swapl_len; lia). repeat case_decide; rewrite swapl_elem by lia;
      repeat match goal with |- context [?x =? ?y] => destruct (x =? y) eqn:?; b2p end;
      try lia; try done; f_equal; lia.
Qed.

Section Arr.
Context (a es : Z) (els : list (list Z)) (σ0 σ : cstate).
Context (Hes : 0 < es) (H : arr a es els σ0 σ).

Lemma arr_elem i : 0 <= i < lenZ els → lenZ (elem els i) = es ∧ Forall is_byte (elem els i).
Proof.
  intros Hi. pose proof (elem_in _ _ Hi) as Hin. pose proof (ar_elem _ _ _ _ _ H) as Hf.
  rewrite Forall_forall in Hf. by apply Hf.
Qed.

Lemma arr_region i k : 0 <= i → 0 <= k → i + k <= lenZ els → region (mem σ) (a + i * es) (k * es).
Proof.
  intros Hi Hk Hik x Hx. set (l := (x - a) / es). set (b := (x - a) mod es).
  pose proof (Z.div_mod (x - a) es ltac:(lia)). pose proof (Z.mod_pos_bound (x - a) es Hes).
  fold l b in H0, H1. assert (0 <= l < lenZ els) as Hl by nia.
  destruct (arr_elem l Hl) as [Hlen Hby].
  pose proof (ar_at _ _ _ _ _ H l Hl b ltac:(lia)) as Hat.
  exists (nthZ (elem els l) b). replace x with (a + l * es + b) by lia. split; [done|].
  apply (Forall_nthZ is_byte); [done|lia].
Qed.

Lemma arr_swapped i j k τ :
  i = j ∧ k = 1%nat ∨ i + Z.of_nat k <= j ∨ j + Z.of_nat k <= i → 0 <= i → 0 <= j →
  i + Z.of_nat k <= lenZ els → j + Z.of_nat k <= lenZ els →
  swapped_to σ (a + i * es) (a + j * es) (Z.of_nat k * es) τ →
  arr a es (swaps k i j els) σ0 τ.
Proof.
  intros Hd Hi Hj Hki Hkj [He Hm]. split.
  - by rewrite swaps_perm; [apply (ar_elem _ _ _ _ _ H)|lia..].
  - rewrite swaps_len. intros l Hl b Hb. rewrite swaps_elem in * by (rewrite ?swaps_len; lia).
    assert (0 <= b < es) as Hbes.
    { repeat case_decide; destruct (arr_elem l Hl) as [El _];
        [destruct (arr_elem (j + (l - i))) as [El' _]; lia
        |destruct (arr_elem (i + (l - j))) as [El' _]; lia|lia]. }
    rewrite Hm. unfold swapped.
    assert (∀ u, u <= l < u + Z.of_nat k ↔
              a + u * es <= a + l * es + b < a + u * es + Z.of_nat k * es) as Hin
      by (intros u; nia).
    pose proof (Hin i). pose proof (Hin j).
    repeat case_decide; try tauto.
    + rewrite <- (ar_at _ _ _ _ _ H (j + (l - i))) by lia. f_equal. lia.
    + rewrite <- (ar_at _ _ _ _ _ H (i + (l - j))) by lia. f_equal. lia.
    + by apply (ar_at _ _ _ _ _ H l).
  - intros x. rewrite swaps_len. intros Hx. rewrite <- (ar_out _ _ _ _ _ H x Hx), Hm. unfold swapped.
    repeat case_decide; [nia|nia|done].
  - rewrite He. apply (ar_errno _ _ _ _ _ H).
Qed.
End Arr.

(** ** The comparison function *)

(** It looks at nothing but the two elements and returns an [int]. *)
Class Comparator (es : Z) := {
  compar : Z → Z → M cstate Z;
  order : list Z → list Z → Z;
  order_int : ∀ x y, -2147483648 <= order x y < 2147483648;
  compar_ok : ∀ σ p q x y, lenZ x = es → lenZ y = es →
    bytes_at (mem σ) p x → bytes_at (mem σ) q y → compar p q σ = Ok (order x y, σ)
}.

Lemma swaptype_aligned a es :
  SWAPINIT a es <= 1 → a mod 4 = 0 ∧ es mod 4 = 0 ∧ (SWAPINIT a es = 0 → es = 4).
Proof.
  unfold SWAPINIT, sizeof_long. destruct (a mod 4 =? 0) eqn:E1, (es mod 4 =? 0) eqn:E2; simpl; try lia.
  b2p. destruct (es =? 4) eqn:E3; b2p; intros; split_and!; done || lia.
Qed.

Lemma aligned_index a es i : a mod 4 = 0 → es mod 4 = 0 → (a + i * es) mod 4 = 0.
Proof. intros Ha He. rewrite Z.add_mod, Z.mul_mod, Ha, He by lia. by rewrite Z.mul_0_r. Qed.

Section Sorting.
Context (es : Z) `{C : Comparator es} (Hes : 0 < es).

Section Range.
Context (a N : Z) (σ0 : cstate).
Context (Ha : 0 < a) (HN : 0 <= N) (Hhi : a + N * es < 4294967296).
Implicit Types els : list (list Z).
#[local] Abbreviation at_ i := (a + i * es).
#[local] Abbreviation st := (SWAPINIT a es).

(** The array holds a permutation of [els0]. *)
Definition permuted els0 els (σ : cstate) : Prop := arr a es els σ0 σ ∧ els ≡ₚ els0 ∧ lenZ els0 = N.

Lemma permuted_len els0 els σ : permuted els0 els σ → lenZ els = N.
Proof. intros (_ & Hp & HL). unfold lenZ in *. by rewrite Hp. Qed.

Lemma cmp_spec els σ i j Q :
  arr a es els σ0 σ → 0 <= i < lenZ els → 0 <= j < lenZ els →
  Q (order (elem els i) (elem els j)) σ → wp (compar (at_ i) (at_ j)) Q σ.
Proof.
  intros H Hi Hj HQ. unfold wp. rewrite (compar_ok σ _ _ (elem els i) (elem els j)); [done|..].
  - by destruct (arr_elem _ _ _ _ _ H i Hi).
  - by destruct (arr_elem _ _ _ _ _ H j Hj).
  - by apply (ar_at _ _ _ _ _ H).
  - by apply (ar_at _ _ _ _ _ H).
Qed.

(** Indices are in order exactly as the pointers to them. *)
Lemma index_le i j : at_ i <= at_ j ↔ i <= j.
Proof. nia. Qed.
Lemma index_lt i j : at_ i < at_ j ↔ i < j.
Proof. nia. Qed.

Lemma swap_bytes els σ i j :
  arr a es els σ0 σ → lenZ els = N → 0 <= i < N → 0 <= j < N →
  wp (swap es st (at_ i) (at_ j)) (fun _ τ => swapped_to σ (at_ i) (at_ j) es τ) σ.
Proof.
  intros H HL Hi Hj. assert (es <= N * es) by nia.
  assert (at_ i = at_ j ∨ at_ i + es <= at_ j ∨ at_ j + es <= at_ i) as Hd
    by (destruct (Z.lt_trichotomy i j) as [?|[->|?]]; nia).
  assert (region (mem σ) (at_ i) es) as Ri.
  { replace es with (1 * es) at 2 by lia. eapply arr_region; eauto; lia. }
  assert (region (mem σ) (at_ j) es) as Rj.
  { replace es with (1 * es) at 2 by lia. eapply arr_region; eauto; lia. }
  pose proof (swaptype_aligned a es) as Hst.
  unfold swap. destruct (st =? 0) eqn:E; b2p.
  - destruct Hst as (H1 & H2 & H3); [lia|]. specialize (H3 E).
    destruct (region_bytes _ _ _ es Ri ltac:(lia)) as (x & Lx & Hx). destruct Hx as [Bx Fx]; [lia|].
    destruct (region_bytes _ _ _ es Rj ltac:(lia)) as (y & Ly & Hy). destruct Hy as [By Fy]; [lia|].
    pose proof (aligned_index a es i H1 H2). pose proof (aligned_index a es j H1 H2).
    pose proof access_long as [_ Hld Hs].
    wp_step. apply (Hld _ x); [done|lia|done|]. wp_step. apply (Hld _ y); [done|lia|done|].
    wp_step. apply Hs; [done|lia|done|intros z Hz; destruct (Ri z) as (? & ? & _); [lia|by eexists]|].
    apply Hs; [done|lia|done|..].
    { cbn [with_mem mem]. apply write_bytes_mapped. intros z Hz. destruct (Rj z) as (? & ? & _); [lia|].
      by eexists. }
    pose proof (bytes_swapped_step σ (at_ i) (at_ j) 0 es x y σ ltac:(lia) ltac:(lia)) as Hstep.
    rewrite !Z.add_0_r in Hstep. apply Hstep; try done.
    split; [done|]. intros z. unfold swapped. repeat case_decide; lia || done.
  - apply swapfunc_spec; [done|done|lia| |done]. intros H1. destruct (Hst H1) as (? & ? & _).
    split_and!; [by apply aligned_index..|done].
Qed.

Lemma swap_spec els0 els σ i j :
  permuted els0 els σ → 0 <= i < N → 0 <= j < N →
  wp (swap es st (at_ i) (at_ j)) (fun _ τ => permuted els0 (swapl i j els) τ) σ.
Proof.
  intros Hp Hi Hj. pose proof (permuted_len _ _ _ Hp) as HL. destruct Hp as (H & Hp & HN0).
  eapply wp_mono; [by eapply swap_bytes|]. intros ? τ Hτ. split.
  - apply (arr_swapped a es els σ0 σ Hes H i j 1 τ); try lia.
    by replace (Z.of_nat 1 * es) with es by lia.
  - split; [|done]. rewrite <- Hp. apply swapl_perm; lia.
Qed.

Lemma vecswap_spec els0 els σ i j k :
  permuted els0 els σ → 0 <= i → 0 <= k → i + k <= j → j + k <= N →
  wp (vecswap st (at_ i) (at_ j) (k * es))
     (fun _ τ => permuted els0 (swaps (Z.to_nat k) i j els) τ) σ.
Proof.
  intros Hp Hi Hk Hij Hj. pose proof (permuted_len _ _ _ Hp) as HL. destruct Hp as (H & Hp & HN0).
  assert (swaps (Z.to_nat k) i j els ≡ₚ els0) by (rewrite <- Hp; apply swaps_perm; lia).
  unfold vecswap. destruct (0 <? k * es) eqn:E; b2p.
  - eapply wp_mono.
    { apply swapfunc_spec; [eapply arr_region; eauto; lia..|nia| |nia].
      intros [H1 [H2 _]]%swaptype_aligned. split_and!; [by apply aligned_index..|].
      by rewrite Z.mul_mod, H2, Z.mul_0_r by lia. }
    intros ? τ Hτ. split; [|done].
    apply (arr_swapped a es els σ0 σ Hes H i j (Z.to_nat k) τ); try lia.
    by rewrite Z2Nat.id by lia.
  - assert (k = 0) as -> by nia. by apply wp_ret.
Qed.

Lemma med3_spec els σ i j k (P : Z → Prop) :
  arr a es els σ0 σ → (∀ l, l = i ∨ l = j ∨ l = k → 0 <= l < lenZ els ∧ P l) →
  wp (med3 compar (at_ i) (at_ j) (at_ k)) (fun p τ => τ = σ ∧ ∃ l, P l ∧ p = at_ l) σ.
Proof.
  intros H Hl. unfold med3.
  repeat (wp_step; eapply cmp_spec; [done|apply Hl; auto..|]);
    repeat first
      [ progress cbn beta iota
      | match goal with |- wp (if ?b then _ else _) _ _ => destruct b end
      | wp_step; eapply cmp_spec; [done|apply Hl; auto..|]
      | apply wp_ret; split; [done|]; try destruct (_ <? 0); (eexists; split; [|reflexivity]; apply Hl; auto) ].
Qed.

Lemma pivot_spec els σ :
  arr a es els σ0 σ → lenZ els = N → 7 <= N →
  wp (pivot compar a N es) (fun p τ => τ = σ ∧ ∃ l, 0 <= l < N ∧ p = at_ l) σ.
Proof.
  intros H HL HN7. unfold pivot. cbv zeta.
  assert (∀ i j k, 0 <= i < N → 0 <= j < N → 0 <= k < N →
    wp (med3 compar (at_ i) (at_ j) (at_ k)) (fun p τ => τ = σ ∧ ∃ l, 0 <= l < N ∧ p = at_ l) σ) as Hm.
  { intros i j k ???. apply (med3_spec els σ i j k (fun l => 0 <= l < N) H).
    intros l [-> | [-> | ->]]; lia. }
  destruct (7 <? N) eqn:E7; b2p; [|apply wp_ret; split; [done|]; exists (N / 2); split; [dlia|done]].
  apply wp_bind.
  apply (wp_mono _ (fun '(pl, pm, pn) τ => τ = σ ∧ ∃ i j k, 0 <= i < N ∧ 0 <= j < N ∧ 0 <= k < N ∧
           pl = at_ i ∧ pm = at_ j ∧ pn = at_ k)).
  - assert (a = at_ 0) as Ea by lia. destruct (40 <? N) eqn:E40; b2p.
    + set (d := N / 8) in *. assert (0 < d /\ 8 * d <= N) by (unfold d; dlia).
      assert (4 * d <= N / 2 /\ 2 * (N / 2) <= N) by (unfold d; dlia).
      replace (a + 2 * (d * es)) with (at_ (2 * d)) by lia.
      replace (a + N / 2 * es - d * es) with (at_ (N / 2 - d)) by lia.
      replace (a + N / 2 * es + d * es) with (at_ (N / 2 + d)) by lia.
      replace (a + (N - 1) * es - 2 * (d * es)) with (at_ (N - 1 - 2 * d)) by lia.
      replace (a + (N - 1) * es - d * es) with (at_ (N - 1 - d)) by lia.
      rewrite Ea at 1. wp_step. eapply wp_mono; [apply Hm; lia|]. intros pl τ [-> (i & ? & ->)].
      wp_step. eapply wp_mono; [apply Hm; lia|]. intros pm τ [-> (j & ? & ->)].
      wp_step. eapply wp_mono; [apply Hm; lia|]. intros pn τ [-> (k & ? & ->)].
      apply wp_ret. split; [done|]. by exists i, j, k.
    + apply wp_ret. split; [done|]. exists 0, (N / 2), (N - 1). split_and!; try lia; dlia.
  - intros [[pl pm] pn] τ [-> (i & j & k & ? & ? & ? & -> & -> & ->)]. by apply Hm.
Qed.

(** ** Insertion sort *)

(** The comparison is a total preorder of the elements. *)
Definition preorder_on els : Prop :=
  (∀ x y, x ∈ els → y ∈ els → 0 < order x y → order y x <= 0) ∧
  (∀ x y z, x ∈ els → y ∈ els → z ∈ els → order x y <= 0 → order y z <= 0 → order x z <= 0).

Definition sorted_to (m : Z) els : Prop :=
  ∀ i j, 0 <= i → i < j → j < m → order (elem els i) (elem els j) <= 0.

(** The element at [l] is on its way down into the sorted ones below [m]. *)
Definition inserting (m l : Z) els : Prop :=
  (∀ i j, 0 <= i → i < j → j <= m → i ≠ l → j ≠ l → order (elem els i) (elem els j) <= 0) ∧
  (∀ j, l < j → j <= m → order (elem els l) (elem els j) <= 0).

Lemma inserting_step els0 els σ m l :
  permuted els0 els σ → preorder_on els0 → 0 < l <= m → m < N → inserting m l els →
  0 < order (elem els (l - 1)) (elem els l) → inserting m (l - 1) (swapl l (l - 1) els).
Proof.
  intros Hp [Htot _] Hl Hm [H1 H2] Hc. pose proof (permuted_len _ _ _ Hp) as HL.
  destruct Hp as (_ & Hp & _).
  assert (∀ i, 0 <= i < N → elem els i ∈ els0) as Hin
    by (intros i Hi; rewrite <- Hp; apply elem_in; lia).
  assert (∀ i, 0 <= i → elem (swapl l (l - 1) els) i =
    if i =? l - 1 then elem els l else if i =? l then elem els (l - 1) else elem els i) as Hs
    by (intros i Hi; apply swapl_elem; lia).
  split.
  - intros i j ? ? ? ? ?. rewrite !Hs by lia.
    rewrite !(proj2 (Z.eqb_neq _ (l - 1))) by lia.
    destruct (i =? l) eqn:E1, (j =? l) eqn:E2; b2p; try lia; apply H1; lia.
  - intros j ? ?. rewrite !Hs by lia. rewrite Z.eqb_refl, (proj2 (Z.eqb_neq j (l - 1))) by lia.
    destruct (j =? l) eqn:E; b2p; [apply Htot; [apply Hin; lia..|done]|apply H2; lia].
Qed.

Lemma inserting_done els0 els σ m l :
  permuted els0 els σ → preorder_on els0 → 0 <= l <= m → m < N → inserting m l els →
  (0 < l → order (elem els (l - 1)) (elem els l) <= 0) → sorted_to (m + 1) els.
Proof.
  intros Hp [_ Htr] Hl Hm [H1 H2] Hc i j ? ? ?. pose proof (permuted_len _ _ _ Hp) as HL.
  destruct Hp as (_ & Hp & _).
  assert (∀ i, 0 <= i < N → elem els i ∈ els0) as Hin
    by (intros k Hk; rewrite <- Hp; apply elem_in; lia).
  destruct (decide (i = l)) as [->|?]; [apply H2; lia|].
  destruct (decide (j = l)) as [->|?]; [|apply H1; lia].
  destruct (decide (i = l - 1)) as [->|?]; [apply Hc; lia|].
  apply (Htr _ (elem els (l - 1))); try (apply Hin; lia); [apply H1; lia|apply Hc; lia].
Qed.

Lemma insertion_sort_spec els0 els σ :
  permuted els0 els σ →
  wp (insertion_sort compar a N es st)
     (fun _ τ => ∃ els', permuted els0 els' τ ∧ (preorder_on els0 → sorted_to N els')) σ.
Proof.
  intros Hp. unfold insertion_sort.
  apply (wp_loop _ (fun pm τ => ∃ m els1, 1 <= m ∧ m <= Z.max N 1 ∧ pm = at_ m ∧ permuted els0 els1 τ ∧
                      (preorder_on els0 → sorted_to m els1)) _ (fun pm => at_ (Z.max N 1) - pm)).
  - intros pm τ (m & els1 & Hm & HmN & -> & Hτ & Hs). destruct (at_ m <? at_ N) eqn:E; b2p.
    + rewrite index_lt in E. wp_step.
      apply (wp_loop _ (fun pl υ => ∃ l els2, 0 <= l <= m ∧ pl = at_ l ∧ permuted els0 els2 υ ∧
                          (preorder_on els0 → inserting m l els2)) _ (fun pl => pl - a)).
      * intros pl υ (l & els2 & Hl & -> & Hυ & Hi). pose proof (permuted_len _ _ _ Hυ) as HL2.
        destruct (a <? at_ l) eqn:El; b2p.
        -- assert (0 < l) by nia. wp_step. replace (at_ l - es) with (at_ (l - 1)) by lia.
           eapply cmp_spec; [apply Hυ|lia..|]. cbn beta.
           destruct (0 <? order (elem els2 (l - 1)) (elem els2 l)) eqn:Ec; b2p.
           ++ wp_step. eapply wp_mono; [apply (swap_spec els0 els2 υ l (l - 1) Hυ); lia|].
              intros ? φ Hφ. wp_step. split; [|nia]. exists (l - 1), (swapl l (l - 1) els2).
              split_and!; try lia; [done|]. intros Hg. eapply inserting_step; eauto; lia.
           ++ wp_step. split; [|nia]. exists (m + 1), els2. split_and!; try lia; [done|].
              intros Hg. eapply (inserting_done els0 els2 υ m l); eauto; lia.
        -- assert (l = 0) as -> by nia. wp_step. wp_step. split; [|nia]. exists (m + 1), els2.
           split_and!; try lia; [done|].
           intros Hg. eapply (inserting_done els0 els2 υ m 0); eauto; lia.
      * exists m, els1. split_and!; try lia; [done|]. intros Hg. specialize (Hs Hg).
        split; [intros; apply Hs; lia|intros; lia].
      * intros pl υ (l & ? & ? & -> & _). nia.
      * nia.
    + wp_step. exists els1. split; [done|]. intros Hg i j ? ? ?.
      apply Hs; [done|lia..|nia].
  - exists 1, els. split_and!; try lia; [done|]. intros _ i j ? ? ?. lia.
  - intros pm τ (m & ? & ? & ? & -> & _). nia.
  - nia.
Qed.

(** ** Partition *)

(** No two elements compare equal. *)
Definition distinct els : Prop :=
  ∀ i j x y, els !! i = Some x → els !! j = Some y → i ≠ j → order x y ≠ 0.

Lemma distinct_perm els els' : els' ≡ₚ els → distinct els → distinct els'.
Proof.
  intros [_ (f & Hf & Hl)]%Permutation_inj Hd i j x y Hi Hj Hij.
  rewrite Hl in Hi, Hj. apply (Hd _ _ _ _ Hi Hj). intros E. by apply Hij, Hf.
Qed.

Lemma distinct_elem els0 els σ i j :
  permuted els0 els σ → distinct els0 → 0 <= i < N → 0 <= j < N → i ≠ j →
  u32 (order (elem els i) (elem els j)) ≠ 0.
Proof.
  intros Hp Hd Hi Hj Hij. pose proof (permuted_len _ _ _ Hp) as HL.
  destruct Hp as (_ & Hp & _). pose proof (order_int (elem els i) (elem els j)).
  assert (order (elem els i) (elem els j) ≠ 0); [|unfold u32; dlia].
  apply (distinct_perm _ _ Hp Hd (Z.to_nat i) (Z.to_nat j)); [apply elem_lookup; lia..|lia].
Qed.

Lemma scan_left_spec els0 els σ ia ib ic cnt :
  permuted els0 els σ → 1 <= ia <= ib → ib <= ic + 1 → ic < N →
  wp (scan_left compar a es st (at_ ic) (at_ ia, at_ ib, cnt))
     (fun '(pa, pb, cnt') τ => ∃ ia' ib' els', pa = at_ ia' ∧ pb = at_ ib' ∧
        1 <= ia' <= ib' ∧ ib' <= ic + 1 ∧ permuted els0 els' τ ∧
        (distinct els0 → cnt' = cnt)) σ.
Proof.
  intros Hp Hia Hib Hic. unfold scan_left.
  apply (wp_loop _ (fun '(pa, pb, cnt') τ => ∃ ia' ib' els', pa = at_ ia' ∧ pb = at_ ib' ∧
           1 <= ia' <= ib' ∧ ib' <= ic + 1 ∧ permuted els0 els' τ ∧ (distinct els0 → cnt' = cnt))
           _ (fun '(_, pb, _) => at_ (ic + 1) - pb)).
  - intros [[pa pb] c] τ (ia' & ib' & els' & -> & -> & ? & ? & Hτ & Hd).
    pose proof (permuted_len _ _ _ Hτ) as HL'. destruct (at_ ib' <=? at_ ic) eqn:E; b2p.
    + rewrite index_le in E. wp_step. replace a with (at_ 0) at 2 by lia.
      eapply cmp_spec; [apply Hτ|lia..|]. cbv zeta.
      destruct (u32 _ <=? 0) eqn:E1; b2p; [|wp_step; by exists ia', ib', els'].
      destruct (u32 _ =? 0) eqn:E2; b2p.
      * wp_step. eapply wp_mono; [apply (swap_spec els0 els' τ ia' ib' Hτ); lia|].
        intros ? υ Hυ. wp_step. split; [|lia]. exists (ia' + 1), (ib' + 1), (swapl ia' ib' els').
        split_and!; try lia; [done|]. intros Hdi. exfalso.
        apply (distinct_elem els0 els' τ ib' 0 Hτ Hdi); [lia..|done].
      * wp_step. split; [|lia]. exists ia', (ib' + 1), els'. split_and!; try lia; done.
    + wp_step. by exists ia', ib', els'.
  - exists ia, ib, els. split_and!; try lia; done.
  - intros [[pa pb] c] τ (ia' & ib' & els' & -> & -> & ? & ? & _). nia.
  - nia.
Qed.

(** The result of the comparison is never negative: [scan_right] goes down to
    [pb] always. *)
Lemma scan_right_spec els0 els σ ib ic id cnt :
  permuted els0 els σ → 1 <= ib → ib <= ic + 1 → ic <= id → id < N →
  wp (scan_right compar a es st (at_ ib) (at_ ic, at_ id, cnt))
     (fun '(pc, pd, cnt') τ => ∃ id' els', pc = at_ (ib - 1) ∧ pd = at_ id' ∧
        ib - 1 <= id' < N ∧ permuted els0 els' τ ∧ (distinct els0 → cnt' = cnt)) σ.
Proof.
  intros Hp Hib Hic Hid HidN. unfold scan_right.
  apply (wp_loop _ (fun '(pc, pd, cnt') τ => ∃ ic' id' els', pc = at_ ic' ∧ pd = at_ id' ∧
           ib - 1 <= ic' ∧ ic' <= id' < N ∧ permuted els0 els' τ ∧ (distinct els0 → cnt' = cnt))
           _ (fun '(pc, _, _) => pc - at_ (ib - 1))).
  - intros [[pc pd] c] τ (ic' & id' & els' & -> & -> & ? & ? & Hτ & Hd).
    pose proof (permuted_len _ _ _ Hτ) as HL'. destruct (at_ ib <=? at_ ic') eqn:E; b2p.
    + rewrite index_le in E. wp_step. replace a with (at_ 0) at 2 by lia.
      eapply cmp_spec; [apply Hτ|lia..|]. cbv zeta.
      assert (0 <= u32 (order (elem els' ic') (elem els' 0))) as Hr by (unfold u32; dlia).
      rewrite (proj2 (Z.leb_le _ _) Hr). destruct (u32 _ =? 0) eqn:E2; b2p.
      * wp_step. eapply wp_mono; [apply (swap_spec els0 els' τ ic' id' Hτ); lia|].
        intros ? υ Hυ. wp_step. split; [|lia]. exists (ic' - 1), (id' - 1), (swapl ic' id' els').
        split_and!; try lia; [done|]. intros Hdi. exfalso.
        apply (distinct_elem els0 els' τ ic' 0 Hτ Hdi); [lia..|done].
      * wp_step. split; [|lia]. exists (ic' - 1), id', els'. split_and!; try lia; done.
    + wp_step. assert (ic' = ib - 1) as -> by nia. exists id', els'. split_and!; try lia; done.
  - exists ic, id, els. split_and!; try lia; done.
  - intros [[pc pd] c] τ (ic' & id' & els' & -> & -> & ? & _). nia.
  - nia.
Qed.

Lemma partition_spec els0 els σ :
  permuted els0 els σ → 2 <= N →
  wp (partition compar a N es st)
     (fun '(pa, pb, pc, pd, cnt) τ => ∃ ia ib id els', pa = at_ ia ∧ pb = at_ ib ∧
        pc = at_ (ib - 1) ∧ pd = at_ id ∧ 1 <= ia <= ib ∧ ib <= id + 1 ∧ id < N ∧
        permuted els0 els' τ ∧ (distinct els0 → cnt = 0)) σ.
Proof.
  intros Hp HN2. unfold partition. cbv zeta. replace (a + es) with (at_ 1) by lia.
  apply (wp_loop _ (fun s τ => s = (at_ 1, at_ 1, at_ (N - 1), at_ (N - 1), 0) ∧ τ = σ) _ (fun _ => 0)).
  - intros s τ [-> ->]. cbn beta iota. wp_step.
    eapply wp_mono; [apply (scan_left_spec els0 els σ 1 1 (N - 1) 0 Hp); lia|].
    intros [[pa pb] c] τ (ia & ib & els1 & -> & -> & ? & ? & Hτ & Hd1). wp_step.
    eapply wp_mono; [apply (scan_right_spec els0 els1 τ ib (N - 1) (N - 1) c Hτ); lia|].
    intros [[pc pd] c'] υ (id & els2 & -> & -> & ? & Hυ & Hd2).
    rewrite (proj2 (Z.ltb_lt (at_ (ib - 1)) (at_ ib))) by nia. wp_step.
    exists ia, ib, id, els2. split_and!; try lia; try done.
    intros Hd. by rewrite Hd2, Hd1 by done.
  - done.
  - lia.
  - lia.
Qed.
End Range.

(** ** Parts of an array *)

Lemma elem_app_l l1 l2 i : 0 <= i < lenZ l1 → elem (l1 ++ l2) i = elem l1 i.
Proof. unfold elem, lenZ. intros. by rewrite lookup_total_app_l by lia. Qed.
Lemma elem_app_r l1 l2 i : lenZ l1 <= i → elem (l1 ++ l2) i = elem l2 (i - lenZ l1).
Proof.
  unfold elem, lenZ. intros. rewrite lookup_total_app_r by lia. f_equal. lia.
Qed.

Lemma arr_sub a l1 mid l2 σ0 σ :
  arr a es (l1 ++ mid ++ l2) σ0 σ → arr (a + lenZ l1 * es) es mid σ σ.
Proof.
  intros [Hf Hat _ _]. pose proof (lenZ_nonneg l1). pose proof (lenZ_nonneg l2).
  split; try done.
  - rewrite !Forall_app in Hf. apply Hf.
  - intros i Hi. specialize (Hat (lenZ l1 + i)). rewrite !lenZ_app in Hat.
    rewrite elem_app_r, elem_app_l in Hat by lia.
    replace (lenZ l1 + i - lenZ l1) with i in Hat by lia.
    replace (a + lenZ l1 * es + i * es) with (a + (lenZ l1 + i) * es) by lia. apply Hat. lia.
Qed.

Lemma arr_join a l1 mid mid' l2 σ0 σ τ :
  arr a es (l1 ++ mid ++ l2) σ0 σ → arr (a + lenZ l1 * es) es mid' σ τ → mid' ≡ₚ mid →
  arr a es (l1 ++ mid' ++ l2) σ0 τ.
Proof.
  intros [Hf Hat Hout He] [Hf' Hat' Hout' He'] Hp.
  assert (lenZ mid' = lenZ mid) as HL by (unfold lenZ; by rewrite Hp).
  pose proof (lenZ_nonneg l1). pose proof (lenZ_nonneg l2). pose proof (lenZ_nonneg mid).
  rewrite !lenZ_app in *. split.
  - rewrite !Forall_app in *. by destruct Hf as (? & _ & ?).
  - intros i Hi. rewrite !lenZ_app, HL in Hi. destruct (decide (lenZ l1 <= i < lenZ l1 + lenZ mid)).
    + rewrite elem_app_r, elem_app_l by lia.
      replace (a + i * es) with (a + lenZ l1 * es + (i - lenZ l1) * es) by lia. apply Hat'. lia.
    + assert (elem (l1 ++ mid' ++ l2) i = elem (l1 ++ mid ++ l2) i) as ->.
      { destruct (decide (i < lenZ l1)); [by rewrite !elem_app_l by lia|].
        rewrite !(elem_app_r l1), !elem_app_r by lia. by rewrite HL. }
      intros b Hb. rewrite Hout'; [by apply Hat; lia|]. rewrite HL.
      rewrite Forall_forall in Hf.
      destruct (Hf (elem (l1 ++ mid ++ l2) i)) as [E _]; [apply elem_in; rewrite !lenZ_app; lia|].
      rewrite E in Hb. destruct (decide (i < lenZ l1)); [left|right]; nia.
  - intros x Hx. rewrite !lenZ_app, HL in Hx. rewrite Hout'; [apply Hout|rewrite HL]; nia.
  - congruence.
Qed.

(** Sorting the [k] elements from [i] on, if there are several. *)
Lemma sort_part_spec (rec : Z → Z → Z → M cstate unit) a els0 els σ0 σ i k :
  0 <= i → 0 <= k → i + k <= lenZ els → permuted a (lenZ els) σ0 els0 els σ →
  (∀ mid, lenZ mid = k → arr (a + i * es) es mid σ σ →
     wp (rec (a + i * es) k es) (fun _ τ => ∃ mid', arr (a + i * es) es mid' σ τ ∧ mid' ≡ₚ mid) σ) →
  wp (if es <? k * es then rec (a + i * es) (k * es / es) es else mret tt)
     (fun _ τ => ∃ els', permuted a (lenZ els) σ0 els0 els' τ) σ.
Proof.
  intros Hi Hk Hik (H & Hp & HL) Hrec.
  destruct (es <? k * es) eqn:E; b2p; [|apply wp_ret; by exists els].
  rewrite Z.div_mul by lia.
  set (l1 := take (Z.to_nat i) els). set (mid := take (Z.to_nat k) (drop (Z.to_nat i) els)).
  set (l2 := drop (Z.to_nat k) (drop (Z.to_nat i) els)).
  assert (els = l1 ++ mid ++ l2) as Eels by (unfold l1, mid, l2; by rewrite !take_drop).
  assert (lenZ l1 = i) as E1 by (unfold l1; rewrite lenZ_take; lia).
  assert (lenZ mid = k) as E2 by (unfold mid; rewrite lenZ_take; rewrite ?lenZ_drop; lia).
  rewrite Eels in H. pose proof (arr_sub _ _ _ _ _ _ H) as Hsub. rewrite E1 in Hsub.
  eapply wp_mono; [by apply (Hrec mid)|]. intros ? τ (mid' & Hτ & Hp').
  exists (l1 ++ mid' ++ l2). split; [|split; [|done]].
  - eapply arr_join; [exact H| |done]. by rewrite E1.
  - rewrite <- Hp, Eels. by rewrite Hp'.
Qed.

Lemma qsort_rest_spec (rec : Z → Z → Z → M cstate unit) a N els0 els σ0 σ ia ib id :
  0 < a → 0 <= N → a + N * es < 4294967296 → permuted a N σ0 els0 els σ →
  1 <= ia <= ib → ib <= id + 1 → id < N →
  (∀ i k mid υ, 0 <= i → 0 <= k < N → i + k <= N → lenZ mid = k → arr (a + i * es) es mid υ υ →
     wp (rec (a + i * es) k es)
        (fun _ τ => ∃ mid', arr (a + i * es) es mid' υ τ ∧ mid' ≡ₚ mid) υ) →
  wp (qsort_rest rec a N es (SWAPINIT a es) (a + ia * es) (a + ib * es) (a + (ib - 1) * es)
        (a + id * es))
     (fun _ τ => ∃ els', permuted a N σ0 els0 els' τ) σ.
Proof.
  intros Ha HN Hhi Hσ Hia Hib Hid Hrec. unfold qsort_rest. cbv zeta.
  replace (a + ia * es - a) with (ia * es) by lia.
  replace (a + ib * es - (a + ia * es)) with ((ib - ia) * es) by lia.
  replace (a + id * es - (a + (ib - 1) * es)) with ((id - ib + 1) * es) by lia.
  replace (a + N * es - (a + id * es) - es) with ((N - id - 1) * es) by lia.
  rewrite !Z.mul_min_distr_nonneg_r by lia.
  set (k1 := Z.min ia (ib - ia)). set (k2 := Z.min (id - ib + 1) (N - id - 1)).
  wp_step. replace (a + ib * es - k1 * es) with (a + (ib - k1) * es) by lia.
  replace a with (a + 0 * es) at 2 by lia.
  eapply wp_mono; [apply (vecswap_spec a N σ0 Ha HN Hhi els0 els σ 0 (ib - k1) k1 Hσ); unfold k1; lia|].
  intros ? σ3 Hσ3. wp_step.
  replace (a + N * es - k2 * es) with (a + (N - k2) * es) by lia.
  eapply wp_mono; [apply (vecswap_spec a N σ0 Ha HN Hhi els0 _ σ3 ib (N - k2) k2 Hσ3); unfold k2; lia|].
  intros ? σ4 Hσ4. pose proof (permuted_len _ _ _ _ _ _ Hσ4) as HL4. wp_step.
  set (els4 := swaps _ ib _ _) in *. rewrite <- HL4 in Hσ4.
  eapply wp_mono.
  { replace a with (a + 0 * es) at 1 by lia.
    apply (sort_part_spec rec a els0 els4 σ0 σ4 0 (ib - ia)); try lia; [done|].
    intros mid Hm Hmid. apply (Hrec 0 (ib - ia) mid σ4); [lia..|done|done]. }
  intros ? σ5 (els5 & Hσ5). pose proof (permuted_len _ _ _ _ _ _ Hσ5) as HL5.
  replace (a + N * es - (id - ib + 1) * es) with (a + (N - (id - ib + 1)) * es) by lia.
  rewrite <- HL5 in Hσ5. eapply wp_mono.
  { apply (sort_part_spec rec a els0 els5 σ0 σ5 (N - (id - ib + 1)) (id - ib + 1)); try lia; [done|].
    intros mid Hm Hmid. apply (Hrec _ (id - ib + 1) mid σ5); [lia..|done|done]. }
  intros ? τ (els6 & Hτ). exists els6. by rewrite HL5, HL4 in Hτ.
Qed.

Lemma qsort_spec fuel : ∀ a els σ,
  arr a es els σ σ → 0 < a → a + lenZ els * es < 4294967296 → lenZ els < Z.of_nat fuel →
  wp (qsort_fuel compar fuel a (lenZ els) es)
     (fun _ τ => ∃ els', arr a es els' σ τ ∧ els' ≡ₚ els ∧
        (preorder_on els → lenZ els < 7 ∨ distinct els → sorted_to (lenZ els) els')) σ.
Proof.
  induction fuel as [|fuel IH]; intros a els σ H Ha Hhi Hfuel; [pose proof (lenZ_nonneg els); lia|].
  pose proof (lenZ_nonneg els) as HN. set (N := lenZ els) in *.
  assert (permuted a N σ els els σ) as Hp by done.
  cbn [qsort_fuel]. cbv zeta. destruct (N <? 7) eqn:E7; b2p.
  { eapply wp_mono; [by eapply insertion_sort_spec|]. intros ? τ (els' & (Hτ & Hpm & _) & Hs).
    exists els'. split_and!; try done. auto. }
  wp_step. eapply wp_mono; [by eapply pivot_spec|]. intros pm τ [-> (l & Hl & ->)].
  wp_step. replace a with (a + 0 * es) at 2 by lia.
  eapply wp_mono; [apply (swap_spec a N σ Ha HN Hhi els els σ 0 l Hp); lia|].
  intros ? σ1 Hσ1. wp_step.
  eapply wp_mono; [apply (partition_spec a N σ Ha HN Hhi els _ σ1 Hσ1); lia|].
  intros [[[[pa pb] pc] pd] cnt] σ2 (ia & ib & id & els2 & -> & -> & -> & -> & Hia & Hib & Hid & Hσ2 & Hd).
  destruct (cnt =? 0) eqn:Ec; b2p.
  { eapply wp_mono; [by eapply insertion_sort_spec|]. intros ? τ (els' & (Hτ & Hpm & _) & Hs).
    exists els'. split_and!; try done. auto. }
  eapply wp_mono.
  { apply (qsort_rest_spec _ a N els els2 σ σ2 ia ib id); try done.
    intros i k mid υ ? ? ? <- Hmid. eapply wp_mono; [apply (IH _ mid υ Hmid); nia|].
    intros ? τ (mid' & ? & ? & _). by exists mid'. }
  intros ? τ (els6 & Hτ & Hp6 & _). exists els6. split_and!; try done.
  intros _ [?|Hdi]; [lia|]. by rewrite Hd in Ec.
Qed.

(** ** Binary search *)

(** The elements before the key, those that match it and those behind it follow
    each other. *)
Definition ordered_for (key : list Z) (els : list (list Z)) : Prop :=
  ∀ i j, 0 <= i → i < j → j < lenZ els →
    (0 < order key (elem els j) → 0 < order key (elem els i)) ∧
    (order key (elem els i) < 0 → order key (elem els j) < 0).

Lemma bsearch_spec base els σ kp key :
  arr base es els σ σ → bytes_at (mem σ) kp key → lenZ key = es → kp ≠ NULL →
  0 < base → base + lenZ els * es < 4294967296 → lenZ els <= 2147483648 → ordered_for key els →
  wp (bsearch compar kp base (lenZ els) es)
     (fun r τ => τ = σ ∧
        ((∃ i, 0 <= i < lenZ els ∧ r = base + i * es ∧ order key (elem els i) = 0) ∨
         (r = NULL ∧ ∀ i, 0 <= i < lenZ els → order key (elem els i) ≠ 0))) σ.
Proof.
  intros H Hk Lk Hkp Hb Hhi HN Hord. pose proof (lenZ_nonneg els). unfold bsearch.
  rewrite (proj2 (Z.ltb_lt 0 es)) by done. rewrite andb_true_r.
  rewrite (proj2 (Z.eqb_neq kp NULL)), (proj2 (Z.eqb_neq base NULL)) by (done || unfold NULL; lia).
  destruct (0 <? lenZ els) eqn:E0; b2p; [|apply wp_ret; split; [done|right; split; [done|lia]]].
  simpl orb. apply (wp_loop _ (fun '(lower, upper) τ => τ = σ ∧ 0 <= lower <= upper ∧ upper <= lenZ els ∧
      (∀ i, 0 <= i < lower → 0 < order key (elem els i)) ∧
      (∀ i, upper <= i < lenZ els → order key (elem els i) < 0)) _ (fun '(lower, upper) => upper - lower)).
  - intros [lower upper] τ (-> & Hlu & Hu & Hlo & Hup). destruct (lower <? upper) eqn:E; b2p.
    + rewrite (u32_small (lower + upper)) by lia.
      set (m := (lower + upper) / 2). assert (lower <= m < upper) as Hm by (unfold m; dlia).
      assert (0 <= m * es /\ m * es + es <= lenZ els * es) as Hme by nia.
      rewrite (u32_small (m * es)) by lia.
      rewrite (u32_small (base + m * es)) by lia.
      eapply wp_bind_ok.
      { apply (compar_ok σ kp (base + m * es) key (elem els m)); [done| |done|].
        - by destruct (arr_elem _ _ _ _ _ H m ltac:(lia)).
        - apply (ar_at _ _ _ _ _ H). lia. }
      destruct (order key (elem els m) =? 0) eqn:E1; b2p.
      * wp_step. split; [done|]. left. exists m. split_and!; try done; lia.
      * destruct (order key (elem els m) <? 0) eqn:E2; b2p; wp_step; (split; [|lia]); split_and!; try lia; try done.
        -- intros i Hi. destruct (decide (i = m)) as [->|]; [done|]. apply (Hord m i); [lia..|done].
        -- intros i Hi. destruct (decide (i = m)) as [->|]; [lia|]. apply (Hord i m); [lia..|lia].
    + wp_step. split; [done|]. right. split; [done|]. intros i Hi.
      destruct (decide (i < lower)); [specialize (Hlo i); lia|specialize (Hup i); lia].
  - split_and!; try done; lia.
  - intros [lower upper] τ (_ & ? & _). lia.
  - lia.
Qed.

(** ** Correctness *)

(** C6: [qsort] returns for every array and every comparison function, consistent
    or not: the array then holds a permutation of its elements, and no other
    memory has changed. *)
Theorem qsort_permutes a els σ :
  arr a es els σ σ → 0 < a → a + lenZ els * es < 4294967296 →
  wp (qsort compar a (lenZ els) es) (fun _ τ => ∃ els', arr a es els' σ τ ∧ els' ≡ₚ els) σ.
Proof.
  intros H Ha Hhi. pose proof (lenZ_nonneg els). eapply wp_mono; [apply qsort_spec; try done; lia|].
  intros ? τ (els' & ? & ? & _). by exists els'.
Qed.

(** C5: when the comparison function is a total preorder, [qsort] sorts every array
    of less than seven elements, and every array in which no two elements compare
    equal. *)
Theorem qsort_sorts a els σ :
  arr a es els σ σ → 0 < a → a + lenZ els * es < 4294967296 →
  preorder_on els → lenZ els < 7 ∨ distinct els →
  wp (qsort compar a (lenZ els) es)
     (fun _ τ => ∃ els', arr a es els' σ τ ∧ els' ≡ₚ els ∧ sorted_to (lenZ els) els') σ.
Proof.
  intros H Ha Hhi Hpre Hd. pose proof (lenZ_nonneg els).
  eapply wp_mono; [apply qsort_spec; try done; lia|].
  intros ? τ (els' & ? & ? & Hs). exists els'. split_and!; auto.
Qed.

(** [bsearch] of an array in which the elements before the key, those that
    match it and those behind it follow each other: it returns a matching element
    if there is one, and NULL otherwise; nothing changes. *)
Theorem bsearch_correct base els σ kp key :
  arr base es els σ σ → bytes_at (mem σ) kp key → lenZ key = es → kp ≠ NULL →
  0 < base → base + lenZ els * es < 4294967296 → lenZ els <= 2147483648 → ordered_for key els →
  wp (bsearch compar kp base (lenZ els) es)
     (fun r τ => τ = σ ∧
        ((∃ i, 0 <= i < lenZ els ∧ r = base + i * es ∧ order key (elem els i) = 0) ∨
         (r = NULL ∧ ∀ i, 0 <= i < lenZ els → order key (elem els i) ≠ 0))) σ.
Proof. apply bsearch_spec. Qed.
End Sorting.

(** ** A concrete comparison: bytes *)

Definition byte_cmp (p q : Z) : M cstate Z := x ← load8 p; y ← load8 q; mret (s32 (x - y)).
Definition byte_order (x y : list Z) : Z := s32 (nthZ x 0 - nthZ y 0).

Lemma byte_order_int x y : -2147483648 <= byte_order x y < 2147483648.
Proof. unfold byte_order, s32. dlia. Qed.
Lemma byte_cmp_ok σ p q x y :
  lenZ x = 1 → lenZ y = 1 → bytes_at (mem σ) p x → bytes_at (mem σ) q y →
  byte_cmp p q σ = Ok (byte_order x y, σ).
Proof.
  intros Lx Ly Hx Hy. apply wp_eq. unfold byte_cmp. specialize (Hx 0). specialize (Hy 0).
  rewrite Z.add_0_r in Hx, Hy. wp_step. eapply wp_load8; [apply Hx; lia|].
  wp_step. eapply wp_load8; [apply Hy; lia|]. by apply wp_ret.
Qed.
Definition byte_comparator : Comparator 1 :=
  {| compar := byte_cmp; order := byte_order; order_int := byte_order_int;
     compar_ok := byte_cmp_ok |}.

Definition byte_array (l : list Z) : cstate := CState (write_bytes ∅ 100 l) 0.

Lemma byte_array_arr l :
  Forall is_byte l → arr 100 1 (map (fun b => [b]) l) (byte_array l) (byte_array l).
Proof.
  intros Hf. split; try done.
  - apply Forall_fmap. eapply Forall_impl; [exact Hf|]. intros b Hb. cbn. split; [done|].
    by constructor.
  - intros i Hi j Hj. assert (lenZ (map (fun b : Z => [b]) l) = lenZ l) as HL
      by (unfold lenZ; by rewrite length_map). rewrite HL in Hi.
    assert (elem (map (fun b => [b]) l) i = [nthZ l i]) as Ee.
    { apply list_lookup_total_correct. pose proof (nthZ_lookup l i ltac:(lia)) as Hl.
      change (((fun b => [b]) <$> l) !! Z.to_nat i = Some [nthZ l i]).
      by rewrite list_lookup_fmap, Hl. }
    rewrite Ee in *. unfold lenZ in Hj. simpl in Hj. assert (j = 0) as -> by lia.
    cbn [byte_array mem]. replace (100 + i * 1 + 0) with (100 + i) by lia.
    by rewrite write_bytes_lookup_in by lia.
Qed.

Lemma byte_preorder els :
  Forall (fun e => lenZ e = 1 ∧ Forall is_byte e) els → @preorder_on 1 byte_comparator els.
Proof.
  rewrite Forall_forall. intros Hf.
  assert (∀ x y, x ∈ els → y ∈ els → byte_order x y = nthZ x 0 - nthZ y 0) as Ho.
  { intros x y Hx Hy. destruct (Hf _ Hx) as [Lx Fx], (Hf _ Hy) as [Ly Fy].
    pose proof (Forall_nthZ is_byte x 0 Fx ltac:(lia)) as Bx.
    pose proof (Forall_nthZ is_byte y 0 Fy ltac:(lia)) as By.
    unfold byte_order, s32, is_byte in *. dlia. }
  split; cbn; intros; rewrite !Ho in * by done; lia.
Qed.

Definition demo_bytes : list Z := [9; 3; 7; 1; 8; 2; 6; 4].

Lemma qsort_permutes_witness :
  wp (qsort byte_cmp 100 8 1)
     (fun _ τ => ∃ els', arr 100 1 els' (byte_array demo_bytes) τ ∧
                         els' ≡ₚ map (fun b => [b]) demo_bytes) (byte_array demo_bytes).
Proof.
  refine (@qsort_permutes 1 byte_comparator _ 100 (map (fun b => [b]) demo_bytes)
            (byte_array demo_bytes) (byte_array_arr _ _) _ _); [lia| |lia|].
  - apply forallb_byte. reflexivity.
  - vm_compute. reflexivity.
Defined.

Lemma qsort_sorts_witness :
  wp (qsort byte_cmp 100 8 1)
     (fun _ τ => ∃ els', arr 100 1 els' (byte_array demo_bytes) τ ∧
        els' ≡ₚ map (fun b => [b]) demo_bytes ∧
        @sorted_to 1 byte_comparator 8 els') (byte_array demo_bytes).
Proof.
  refine (@qsort_sorts 1 byte_comparator _ 100 (map (fun b => [b]) demo_bytes)
            (byte_array demo_bytes) (byte_array_arr _ _) _ _ _ _); [lia| |lia| | |].
  - apply forallb_byte. reflexivity.
  - vm_compute. reflexivity.
  - apply byte_preorder. apply (byte_array_arr demo_bytes). apply forallb_byte. reflexivity.
  - right. intros i j x y Hi Hj Hij. cbn.
    do 8 (destruct i as [|i]; [do 8 (destruct j as [|j]; [simpl in *; simplify_eq; vm_compute; discriminate || lia|]); done|]).
    done.
Defined.

Lemma bsearch_correct_witness :
  wp (bsearch byte_cmp 104 100 4 1)
     (fun r τ => τ = byte_array [2; 4; 6; 8; 6] ∧
        ((∃ i, 0 <= i < 4 ∧ r = 100 + i * 1 ∧
            byte_order [6] (elem [[2]; [4]; [6]; [8]] i) = 0) ∨
         (r = NULL ∧ ∀ i, 0 <= i < 4 → byte_order [6] (elem [[2]; [4]; [6]; [8]] i) ≠ 0)))
     (byte_array [2; 4; 6; 8; 6]).
Proof.
  refine (@bsearch_correct 1 byte_comparator _ 100 [[2]; [4]; [6]; [8]] _ 104 [6] _ _ _ _ _ _ _ _);
    try lia; try done.
  - apply (arr_sub 1 100 [] [[2]; [4]; [6]; [8]] [[6]] (byte_array [2; 4; 6; 8; 6])).
    apply (byte_array_arr [2; 4; 6; 8; 6]). apply forallb_byte. reflexivity.
  - apply bytes_atb_sound. reflexivity.
  - intros i j Hi Hij Hj. change (lenZ [[2]; [4]; [6]; [8]]) with 4 in Hj.
    assert (i = 0 ∨ i = 1 ∨ i = 2) as [->|[->| ->]] by lia;
    assert (j = 1 ∨ j = 2 ∨ j = 3) as [->|[->| ->]] by lia; vm_compute; split; congruence || lia.
Defined.

(** [r] is a [size_t]: a negative result of the comparison counts as positive, all
    elements that differ from the pivot go to one side, and the elements equal to
    it stay in front of smaller ones: an array of seven bytes that is not sorted
    afterwards. *)
Theorem qsort_unsorted :
  match qsort byte_cmp 100 7 1 (byte_array [5; 1; 2; 5; 3; 4; 6]) with
  | Ok (_, τ) => bytes_at (mem τ) 100 [5; 5; 1; 2; 3; 4; 6]
  | _ => False
  end.
Proof.
  assert (match qsort byte_cmp 100 7 1 (byte_array [5; 1; 2; 5; 3; 4; 6]) with
          | Ok (_, τ) => bytes_atb (mem τ) 100 [5; 5; 1; 2; 3; 4; 6] | _ => false end = true) as H
    by (vm_compute; reflexivity).
  destruct (qsort _ _ _ _ _) as [[? τ]| |]; [|done..]. by apply bytes_atb_sound.
Qed.
