(* ===== verification/TreeSearch.v ===== *)
(** * Binary search trees

    search/tsearch.c, tfind.c, tdelete.c, twalk.c and tdestroy.c.  The heap is a
    map from addresses to the nodes that are allocated; a pointer to a pointer to
    a node ([node_t **]) is a [link]: the caller's root variable or a field of a
    node.  Keys are pointers to the caller's data.  The comparison function is an
    argument of the operations, and what they need of [malloc] is the class
    [NodeAlloc].

    The theorems refine the operations on the heap to operations on a
    functional tree and then to the sorted list of its keys. *)

From stdpp Require Import base numbers gmap list sorting.
From S2P Require Import Prelude CMem.
Open Scope Z_scope.
#[local] Set Warnings "-clear-no-such-hyp".

Record node_t := Nd { key : Z; llink : Z; rlink : Z }.

Inductive VISIT := preorder | postorder | endorder | leaf.

(** The root variable of the caller and the allocated nodes. *)
Record tstate := TState { root : Z; nodes : gmap Z node_t }.

Inductive link := Root | LLink (n : Z) | RLink (n : Z).

Class NodeAlloc := {
  malloc_node : gmap Z node_t → Z;
  malloc_fresh : ∀ m, malloc_node m ≠ NULL → m !! malloc_node m = None
}.

Definition get_node (p : Z) : M tstate node_t :=
  fun σ => match nodes σ !! p with Some n => Ok (n, σ) | None => Fault end.
Definition set_node (p : Z) (n : node_t) : M tstate unit :=
  modify (fun σ => TState (root σ) (<[p := n]> (nodes σ))).
Definition set_llink (p v : Z) : M tstate unit :=
  n ← get_node p; set_node p (Nd (key n) v (rlink n)).
Definition set_rlink (p v : Z) : M tstate unit :=
  n ← get_node p; set_node p (Nd (key n) (llink n) v).
Definition free_node (p : Z) : M tstate unit :=
  _ ← get_node p; modify (fun σ => TState (root σ) (delete p (nodes σ))).

Definition load_link (l : link) : M tstate Z :=
  match l with
  | Root => σ ← get; mret (root σ)
  | LLink p => n ← get_node p; mret (llink n)
  | RLink p => n ← get_node p; mret (rlink n)
  end.
Definition store_link (l : link) (v : Z) : M tstate unit :=
  match l with
  | Root => modify (fun σ => TState v (nodes σ))
  | LLink p => set_llink p v
  | RLink p => set_rlink p v
  end.

Section Operations.
Context (compar : Z → Z → Z).

(** [rootp] is NULL ([None]) or points to a link. *)
Definition tfind (vkey : Z) (vrootp : option link) : M tstate Z :=
  match vrootp with
  | None => mret NULL
  | Some rootp =>
      loop (fun rootp =>
              p ← load_link rootp;
              if p =? NULL then break NULL
              else
                n ← get_node p;
                let r := compar vkey (key n) in
                if r =? 0 then break p
                else continue (if r <? 0 then LLink p else RLink p)) rootp
  end.

(** The loop returns the node it found, or where the key has to go. *)
Definition tsearch `{NodeAlloc} (vkey : Z) (vrootp : option link) : M tstate Z :=
  match vrootp with
  | None => mret NULL
  | Some rootp =>
      found ← loop (fun rootp =>
                p ← load_link rootp;
                if p =? NULL then break (inr rootp)
                else
                  n ← get_node p;
                  let r := compar vkey (key n) in
                  if r =? 0 then break (inl p)
                  else continue (if r <? 0 then LLink p else RLink p)) rootp;
      match found with
      | inl p => mret p
      | inr rootp =>
          σ ← get;
          let q := malloc_node (nodes σ) in
          if q =? NULL then mret q
          else
            _ ← store_link rootp q;
            _ ← set_node q (Nd vkey NULL NULL);
            mret q
      end
  end.

(** The node that takes the place of the node at [*rootp]. *)
Definition tdelete_successor (rootp : link) : M tstate Z :=
  p ← load_link rootp; n ← get_node p;
  let r := rlink n in
  let q := llink n in
  if q =? NULL then mret r
  else if r =? NULL then mret q
  else
    rn ← get_node r;
    if llink rn =? NULL then _ ← set_llink r q; mret r
    else
      '(r, q) ← loop (fun '(r, q) =>
                  qn ← get_node q;
                  if llink qn =? NULL then break (r, q)
                  else let r := q in rn ← get_node r; continue (r, llink rn)) (r, llink rn);
      qn ← get_node q; _ ← set_llink r (rlink qn);
      p ← load_link rootp; n ← get_node p; _ ← set_llink q (llink n);
      p ← load_link rootp; n ← get_node p; _ ← set_rlink q (rlink n);
      mret q.

Definition tdelete (vkey : Z) (vrootp : option link) : M tstate Z :=
  match vrootp with
  | None => mret NULL
  | Some rootp =>
      p ← load_link rootp;
      if p =? NULL then mret NULL
      else
        found ← loop (fun '(rootp, p) =>
                  c ← load_link rootp; n ← get_node c;
                  let cmp := compar vkey (key n) in
                  if cmp =? 0 then break (Some (rootp, p))
                  else
                    let p := c in
                    let rootp := if cmp <? 0 then LLink c else RLink c in
                    c ← load_link rootp;
                    if c =? NULL then break None else continue (rootp, p)) (rootp, p);
        match found with
        | None => mret NULL
        | Some (rootp, p) =>
            q ← tdelete_successor rootp;
            c ← load_link rootp; _ ← free_node c;
            _ ← store_link rootp q;
            mret p
        end
  end.
End Operations.

(** [twalk]: the calls of the action.  The depth of the recursion is bounded by
    the number of nodes. *)
Fixpoint twalk_trecurse (fuel : nat) (root level : Z) : M tstate (list (Z * VISIT * Z)) :=
  match fuel with
  | O => no_fuel
  | S fuel =>
      n ← get_node root;
      if (llink n =? NULL) && (rlink n =? NULL) then mret [(root, leaf, level)]
      else
        l ← (if negb (llink n =? NULL) then twalk_trecurse fuel (llink n) (level + 1) else mret []);
        r ← (if negb (rlink n =? NULL) then twalk_trecurse fuel (rlink n) (level + 1) else mret []);
        mret ((root, preorder, level) :: l ++ (root, postorder, level) :: r ++ [(root, endorder, level)])
  end.

Definition twalk (fuel : nat) (vroot : Z) : M tstate (list (Z * VISIT * Z)) :=
  if negb (vroot =? NULL) then twalk_trecurse fuel vroot 0 else mret [].

(** [tdestroy]: the keys handed to the free function, in order. *)
Fixpoint tdestroy_trecurse (fuel : nat) (root : Z) : M tstate (list Z) :=
  match fuel with
  | O => no_fuel
  | S fuel =>
      n ← get_node root;
      l ← (if negb (llink n =? NULL) then tdestroy_trecurse fuel (llink n) else mret []);
      n ← get_node root;
      r ← (if negb (rlink n =? NULL) then tdestroy_trecurse fuel (rlink n) else mret []);
      n ← get_node root;
      _ ← free_node root;
      mret (l ++ r ++ [key n])
  end.

Definition tdestroy (fuel : nat) (vrootp : Z) : M tstate (list Z) :=
  if negb (vrootp =? NULL) then tdestroy_trecurse fuel vrootp else mret [].

(** ** Trees in the heap *)

Inductive tree := Leaf | Node (l : tree) (a k : Z) (r : tree).

Definition addr (t : tree) : Z := match t with Leaf => NULL | Node _ a _ _ => a end.
Fixpoint addrs (t : tree) : list Z :=
  match t with Leaf => [] | Node l a _ r => addrs l ++ a :: addrs r end.
Fixpoint keys (t : tree) : list Z :=
  match t with Leaf => [] | Node l _ k r => keys l ++ k :: keys r end.

Fixpoint stored (m : gmap Z node_t) (t : tree) : Prop :=
  match t with
  | Leaf => True
  | Node l a k r => m !! a = Some (Nd k (addr l) (addr r)) ∧ stored m l ∧ stored m r
  end.

(** A tree with a hole: the nodes from the hole up to the root. *)
Inductive frame := FL (a k : Z) (r : tree) | FR (l : tree) (a k : Z).
Definition fill (t : tree) (f : frame) : tree :=
  match f with FL a k r => Node t a k r | FR l a k => Node l a k t end.
Definition plug (C : list frame) (t : tree) : tree := foldl fill t C.

Definition faddr (f : frame) : Z := match f with FL a _ _ | FR _ a _ => a end.
Definition faddrs (f : frame) : list Z :=
  match f with FL a _ r => a :: addrs r | FR l a _ => a :: addrs l end.
Definition caddrs (C : list frame) : list Z := C ≫= faddrs.
Fixpoint lkeys (C : list frame) : list Z :=
  match C with
  | [] => [] | FL _ _ _ :: C => lkeys C | FR l _ k :: C => lkeys C ++ keys l ++ [k]
  end.
Fixpoint rkeys (C : list frame) : list Z :=
  match C with
  | [] => [] | FL _ k r :: C => k :: keys r ++ rkeys C | FR _ _ _ :: C => rkeys C
  end.
Definition top (C : list frame) (p : Z) : Z := match last C with Some f => faddr f | None => p end.
Fixpoint ctx_stored (m : gmap Z node_t) (C : list frame) (p : Z) : Prop :=
  match C with
  | [] => True
  | FL a k r :: C => m !! a = Some (Nd k p (addr r)) ∧ stored m r ∧ ctx_stored m C a
  | FR l a k :: C => m !! a = Some (Nd k (addr l) p) ∧ stored m l ∧ ctx_stored m C a
  end.
Definition link_of (C : list frame) : link :=
  match C with [] => Root | FL a _ _ :: _ => LLink a | FR _ a _ :: _ => RLink a end.

(** The tree [plug C t] is in the heap, its hole holding the pointer [p]. *)
Definition holds (σ : tstate) (C : list frame) (p : Z) : Prop :=
  root σ = top C p ∧ ctx_stored (nodes σ) C p.

Record repr (σ : tstate) (T : tree) : Prop := {
  rp_root : root σ = addr T;
  rp_stored : stored (nodes σ) T;
  rp_nodup : NoDup (addrs T);
  rp_null : NULL ∉ addrs T;
  rp_size : lenZ (addrs T) < 4294967296
}.

Lemma plug_addr C t : addr (plug C t) = top C (addr t).
Proof.
  unfold top, plug. destruct C as [|f C _] using rev_ind; [done|].
  rewrite foldl_app, last_snoc. by destruct f.
Qed.

Lemma plug_stored m C : ∀ t, stored m (plug C t) ↔ ctx_stored m C (addr t) ∧ stored m t.
Proof.
  induction C as [|f C IH]; intros t; cbn; [tauto|]. fold (plug C (fill t f)).
  rewrite IH. destruct f; cbn; tauto.
Qed.

Lemma plug_addrs C : ∀ t, addrs (plug C t) ≡ₚ caddrs C ++ addrs t.
Proof.
  induction C as [|f C IH]; intros t; [done|]. cbn. fold (plug C (fill t f)). rewrite IH.
  unfold caddrs. destruct f; cbn; solve_Permutation.
Qed.

Lemma plug_keys C : ∀ t, keys (plug C t) = lkeys C ++ keys t ++ rkeys C.
Proof.
  induction C as [|f C IH]; intros t; [cbn; by rewrite app_nil_r|]. cbn.
  fold (plug C (fill t f)). rewrite IH. destruct f; cbn; by rewrite <- ?app_assoc.
Qed.

Lemma stored_ext m m' t : (∀ a, a ∈ addrs t → m' !! a = m !! a) → stored m t → stored m' t.
Proof.
  induction t as [|l IHl a k r IHr]; [done|]. cbn. intros He (H1 & H2 & H3).
  rewrite He by set_solver. split_and!; [done|apply IHl; set_solver|apply IHr; set_solver].
Qed.

Lemma ctx_stored_ext m m' C : ∀ p,
  (∀ a, a ∈ caddrs C → m' !! a = m !! a) → ctx_stored m C p → ctx_stored m' C p.
Proof.
  induction C as [|f C IH]; [done|]. intros p He. unfold caddrs in He. cbn in He.
  destruct f; cbn; intros (H1 & H2 & H3); (rewrite He by set_solver);
    (split_and!; [done|eapply stored_ext; [|done]; set_solver|apply IH; [set_solver|done]]).
Qed.

Lemma addr_null t : NULL ∉ addrs t → addr t = NULL ↔ t = Leaf.
Proof. destruct t; cbn; [done|]. intros. split; [set_solver|done]. Qed.

Lemma repr_plug σ C t :
  repr σ (plug C t) ↔ holds σ C (addr t) ∧ stored (nodes σ) t ∧
    NoDup (caddrs C ++ addrs t) ∧ (NULL ∉ caddrs C ++ addrs t) ∧
    lenZ (caddrs C ++ addrs t) < 4294967296.
Proof.
  unfold holds, lenZ. rewrite <- plug_addrs, <- plug_addr. split.
  - intros [H1 H2 H3 H4 H5]. rewrite plug_stored in H2. tauto.
  - intros ([H1 H2] & H3 & H4 & H5 & H6). split; try done. by rewrite plug_stored.
Qed.

(** ** Links *)

Lemma wp_get_node p n Q σ : nodes σ !! p = Some n → Q n σ → wp (get_node p) Q σ.
Proof. unfold wp, get_node. by intros ->. Qed.

Lemma wp_load_link C p Q σ : holds σ C p → Q p σ → wp (load_link (link_of C)) Q σ.
Proof.
  intros [Hr Hs] HQ. destruct C as [|[a k r|l a k] C]; cbn in *.
  - wp_step. wp_step. apply wp_ret. unfold top in Hr. cbn in Hr. by rewrite Hr.
  - destruct Hs as (Ha & _). wp_step. eapply wp_get_node; [done|]. by apply wp_ret.
  - destruct Hs as (Ha & _). wp_step. eapply wp_get_node; [done|]. by apply wp_ret.
Qed.

Lemma top_cons f C p q : top (f :: C) p = top (f :: C) q.
Proof. unfold top. destruct C as [|g C _] using rev_ind; [done|]. by rewrite app_comm_cons, last_snoc. Qed.

(** The node of a frame whose hole holds [v]. *)
Definition fnode (f : frame) (v : Z) : node_t :=
  match f with FL _ k r => Nd k v (addr r) | FR l _ k => Nd k (addr l) v end.

Lemma holds_update σ f C p v :
  holds σ (f :: C) p → NoDup (caddrs (f :: C)) →
  let τ := TState (root σ) (<[faddr f := fnode f v]> (nodes σ)) in
  nodes σ !! faddr f = Some (fnode f p) ∧ holds τ (f :: C) v ∧
  ∀ a, a ∉ caddrs (f :: C) → nodes τ !! a = nodes σ !! a.
Proof.
  intros [Hr Hs] Hnd τ. assert (nodes σ !! faddr f = Some (fnode f p)) as Hf
    by (destruct f; cbn in Hs; by destruct Hs).
  assert (∀ b, b ≠ faddr f → nodes τ !! b = nodes σ !! b) as Hne
    by (intros b Hb; cbn; by rewrite lookup_insert_ne).
  assert (∀ b, b ∈ tail (faddrs f) ++ caddrs C → b ≠ faddr f) as Hin.
  { intros b Hb ->. unfold caddrs in *. destruct f; cbn in *; apply NoDup_cons in Hnd as [? _]; set_solver. }
  split; [done|]. split; [|intros b Hb; apply Hne; intros ->; apply Hb; unfold caddrs; destruct f; cbn; set_solver].
  split; [cbn; rewrite Hr; apply top_cons|].
  destruct f; cbn in *; rewrite lookup_insert_eq; destruct Hs as (_ & H2 & H3); (split_and!; [done|..]).
  - eapply stored_ext; [|done]. intros b Hb. apply Hne, Hin. set_solver.
  - eapply ctx_stored_ext; [|done]. intros b Hb. apply Hne, Hin. set_solver.
  - eapply stored_ext; [|done]. intros b Hb. apply Hne, Hin. set_solver.
  - eapply ctx_stored_ext; [|done]. intros b Hb. apply Hne, Hin. set_solver.
Qed.

Lemma wp_store_link C p v σ :
  holds σ C p → NoDup (caddrs C) →
  wp (store_link (link_of C) v)
     (fun _ τ => holds τ C v ∧ ∀ a, a ∉ caddrs C → nodes τ !! a = nodes σ !! a) σ.
Proof.
  intros H Hnd. destruct C as [|f C].
  - unfold link_of, store_link. wp_step. split; [|done]. by split.
  - destruct (holds_update σ f C p v H Hnd) as (Hf & H1 & H2).
    destruct f; cbn [link_of store_link faddr fnode] in *; unfold set_llink, set_rlink, set_node;
      wp_step; (eapply wp_get_node; [done|]); cbn [key llink rlink]; wp_step; done.
Qed.

(** ** Search *)

(** The comparison is a total preorder. *)
Class KeyOrder (compar : Z → Z → Z) : Prop := {
  compar_flip : ∀ x y, compar y x < 0 ↔ 0 < compar x y;
  compar_trans : ∀ x y z, compar x y <= 0 → compar y z <= 0 → compar x z <= 0
}.

Section Search.
Context (compar : Z → Z → Z) `{KO : !KeyOrder compar}.
Implicit Types (C : list frame) (t T : tree).

Lemma compar_lt_le x y z : compar x y < 0 → compar y z <= 0 → compar x z < 0.
Proof.
  intros H1 H2. rewrite compar_flip in *. destruct (decide (0 < compar z x)) as [|N]; [done|].
  pose proof (compar_trans y z x H2 ltac:(lia)). lia.
Qed.
Lemma compar_le_lt x y z : compar x y <= 0 → compar y z < 0 → compar x z < 0.
Proof.
  intros H1 H2. rewrite compar_flip in *. destruct (decide (0 < compar z x)) as [|N]; [done|].
  assert (compar z y <= 0) by (eapply compar_trans; [|exact H1]; lia). lia.
Qed.
Lemma compar_eq x y : compar x y = 0 ↔ compar y x = 0.
Proof.
  pose proof (compar_flip x y). pose proof (compar_flip y x). lia.
Qed.

Definition bst T : Prop := StronglySorted (fun x y => compar x y < 0) (keys T).

(** The key belongs into the hole of [C]. *)
Definition guard C (k : Z) : Prop :=
  (∀ y, y ∈ lkeys C → 0 < compar k y) ∧ (∀ y, y ∈ rkeys C → compar k y < 0).

Lemma bst_node C l a x r :
  bst (plug C (Node l a x r)) →
  (∀ y, y ∈ lkeys C ++ keys l → compar y x < 0) ∧ (∀ y, y ∈ keys r ++ rkeys C → compar x y < 0).
Proof.
  unfold bst. rewrite plug_keys. cbn. rewrite <- app_assoc, app_assoc. cbn.
  intros H. apply StronglySorted_app in H as (H1 & _ & H3).
  split; [intros y Hy; apply H1; set_solver|].
  apply StronglySorted_inv in H3 as [_ H3]. by rewrite Forall_forall in H3.
Qed.

Lemma guard_left C l a x r k :
  bst (plug C (Node l a x r)) → guard C k → compar k x < 0 → guard (FL a x r :: C) k.
Proof.
  intros [_ Hr]%bst_node [G1 G2] Hk. split; [done|]. cbn.
  intros y [->|Hy]%elem_of_cons; [done|]. specialize (Hr y Hy). eapply compar_lt_le; [done|lia].
Qed.

Lemma guard_right C l a x r k :
  bst (plug C (Node l a x r)) → guard C k → 0 < compar k x → guard (FR l a x :: C) k.
Proof.
  intros [Hl _]%bst_node [G1 G2] Hk. split; [|done]. cbn. intros y Hy.
  assert (compar x k < 0) as Hxk by (by apply compar_flip).
  apply compar_flip. rewrite !elem_of_app, list_elem_of_singleton in Hy.
  destruct Hy as [Hy|[Hy| ->]]; [..|done].
  - eapply compar_lt_le; [apply Hl; set_solver|lia].
  - eapply compar_lt_le; [apply Hl; set_solver|lia].
Qed.

(** Where a search stands: at the hole of [C], which holds [t]. *)
Definition searching (k : Z) T (g : list frame * tree) (l : link) : Prop :=
  T = plug g.1 g.2 ∧ l = link_of g.1 ∧ guard g.1 k.

Lemma searching_node σ k T C l a x r :
  repr σ T → searching k T (C, Node l a x r) (link_of C) →
  nodes σ !! a = Some (Nd x (addr l) (addr r)) ∧ a ≠ NULL ∧ holds σ C a.
Proof.
  intros Hr (-> & _ & _). apply repr_plug in Hr as (Hh & [Ha _] & _ & Hn & _). cbn in *.
  split_and!; [done|set_solver|done].
Qed.

(** One step down. *)
Lemma searching_step k T C l a x r :
  bst T → searching k T (C, Node l a x r) (link_of C) → compar k x ≠ 0 →
  ∃ f t, searching k T (f :: C, t) (if compar k x <? 0 then LLink a else RLink a) ∧
    (f = FL a x r ∧ t = l ∨ f = FR l a x ∧ t = r) ∧
    lenZ (addrs t) < lenZ (addrs (Node l a x r)).
Proof.
  intros Hb (-> & _ & Hg) Hne. cbn in Hb, Hg. destruct (compar k x <? 0) eqn:E; b2p.
  - exists (FL a x r), l. split; [split; [done|split; [done|by eapply guard_left]]|].
    split; [by left|]. cbn. rewrite lenZ_app, lenZ_cons. pose proof (lenZ_nonneg (addrs r)). lia.
  - exists (FR l a x), r. split; [split; [done|split; [done|by eapply guard_right; [done|done|lia]]]|].
    split; [by right|]. cbn. rewrite lenZ_app, lenZ_cons. pose proof (lenZ_nonneg (addrs l)). lia.
Qed.

Lemma guard_leaf k C : guard C k → ∀ y, y ∈ keys (plug C Leaf) → compar k y ≠ 0.
Proof.
  intros [G1 G2] y. rewrite plug_keys. cbn. rewrite elem_of_app.
  intros [Hy|Hy]; [specialize (G1 y Hy)|specialize (G2 y Hy)]; lia.
Qed.

Lemma tree_size σ T C t : repr σ T → T = plug C t → lenZ (addrs t) < 8589934592.
Proof.
  intros Hr ->. apply repr_plug in Hr as (_ & _ & _ & _ & H). rewrite lenZ_app in H.
  pose proof (lenZ_nonneg (caddrs C)). lia.
Qed.

Lemma tfind_spec σ T k :
  repr σ T → bst T →
  wp (tfind compar k (Some Root))
     (fun p τ => τ = σ ∧
        ((p = NULL ∧ ∀ y, y ∈ keys T → compar k y ≠ 0) ∨
         (p ≠ NULL ∧ ∃ n, nodes σ !! p = Some n ∧ key n ∈ keys T ∧ compar k (key n) = 0))) σ.
Proof.
  intros Hr Hb. unfold tfind.
  apply (wp_loop_ghost _ (fun g l τ => τ = σ ∧ searching k T g l) _ (fun g => lenZ (addrs g.2)))
    with (g := ([], T)).
  - intros [C t] l τ [-> Hs]. pose proof Hs as (ET & -> & Hg). cbn [fst snd] in *.
    destruct t as [|tl a x tr].
    + wp_step. eapply wp_load_link.
      { rewrite ET in Hr. by apply repr_plug in Hr as (Hh & _). }
      cbn [addr]. rewrite Z.eqb_refl. wp_step. split; [done|]. left. split; [done|].
      rewrite ET. by apply guard_leaf.
    + destruct (searching_node _ _ _ _ _ _ _ _ Hr Hs) as (Ha & Hn & Hh).
      wp_step. eapply wp_load_link; [done|]. rewrite (proj2 (Z.eqb_neq a NULL)) by done.
      wp_step. eapply wp_get_node; [done|]. cbn [key]. cbv zeta.
      destruct (compar k x =? 0) eqn:E; b2p; wp_step.
      * split; [done|]. right. split; [done|]. eexists. split; [done|]. cbn. split; [|done].
        rewrite ET, plug_keys. cbn. set_solver.
      * destruct (searching_step _ _ _ _ _ _ _ Hb Hs E) as (f & t & Hs' & _ & ?).
        by exists (f :: C, t).
  - split; [done|]. split; [done|]. split; [done|]. split; set_solver.
  - intros g l τ _. apply lenZ_nonneg.
  - by apply (tree_size σ T []).
Qed.

(** ** Insertion *)

Lemma stored_in m t a : stored m t → a ∈ addrs t → is_Some (m !! a).
Proof.
  induction t as [|l IHl b k r IHr]; cbn; [set_solver|]. intros (H1 & H2 & H3).
  rewrite elem_of_app, elem_of_cons. intros [?|[->|?]]; eauto.
Qed.

Lemma ctx_stored_in m C : ∀ p a, ctx_stored m C p → a ∈ caddrs C → is_Some (m !! a).
Proof.
  induction C as [|f C IH]; intros p a; unfold caddrs; cbn; [set_solver|].
  rewrite elem_of_app. destruct f; cbn; intros (H1 & H2 & H3);
    (intros [[->|Ha]%elem_of_cons|Ha]; [by eexists|by eapply stored_in|by eapply IH]).
Qed.

Lemma bst_insert C k :
  bst (plug C Leaf) → guard C k → StronglySorted (fun x y => compar x y < 0) (lkeys C ++ k :: rkeys C).
Proof.
  unfold bst. rewrite plug_keys. cbn. intros H [G1 G2].
  apply StronglySorted_app in H as (H1 & H2 & H3). apply StronglySorted_app. split_and!; [|done|].
  - intros x y Hx [->|Hy]%elem_of_cons; [by apply compar_flip, G1|by apply H1].
  - apply SSorted_cons; [done|by apply Forall_forall].
Qed.

Lemma insert_repr σ C k q τ :
  repr σ (plug C Leaf) → lenZ (addrs (plug C Leaf)) + 1 < 4294967296 →
  q ≠ NULL → nodes σ !! q = None → holds τ C q →
  (∀ a, a ∉ caddrs C → nodes τ !! a = nodes σ !! a) →
  repr (TState (root τ) (<[q := Nd k NULL NULL]> (nodes τ))) (plug C (Node Leaf q k Leaf)).
Proof.
  intros Hr Hsz Hq Hf [Hroot Hctx] Hout. apply repr_plug in Hr as (Hh & _ & Hnd & Hnull & _).
  unfold lenZ in Hsz. rewrite plug_addrs in Hsz. cbn in *. rewrite app_nil_r in *.
  assert (q ∉ caddrs C) as Hqc.
  { intros Hin. destruct Hh as [_ Hh]. destruct (ctx_stored_in _ _ _ _ Hh Hin). congruence. }
  apply repr_plug. unfold lenZ. rewrite length_app. cbn. rewrite lookup_insert_eq.
  split_and!; try done; try lia.
  - split; [done|]. cbn. eapply ctx_stored_ext; [|done]. intros a Ha.
    rewrite lookup_insert_ne; [done|]. intros ->. done.
  - rewrite Permutation_app_comm. cbn. by apply NoDup_cons.
  - set_solver.
Qed.

Lemma tsearch_spec `{NodeAlloc} σ T k :
  repr σ T → bst T → lenZ (addrs T) + 1 < 4294967296 →
  wp (tsearch compar k (Some Root))
     (fun p τ =>
        (τ = σ ∧ p = NULL ∧ (∀ y, y ∈ keys T → compar k y ≠ 0) ∧ malloc_node (nodes σ) = NULL) ∨
        (τ = σ ∧ p ≠ NULL ∧ ∃ n, nodes σ !! p = Some n ∧ key n ∈ keys T ∧ compar k (key n) = 0) ∨
        (p ≠ NULL ∧ nodes τ !! p = Some (Nd k NULL NULL) ∧ (∀ y, y ∈ keys T → compar k y ≠ 0) ∧
         ∃ T' l1 l2, repr τ T' ∧ bst T' ∧ keys T = l1 ++ l2 ∧ keys T' = l1 ++ k :: l2)) σ.
Proof.
  intros Hr Hb Hsz. unfold tsearch. wp_step.
  apply (wp_loop_ghost _ (fun g l τ => τ = σ ∧ searching k T g l) _ (fun g => lenZ (addrs g.2)))
    with (g := ([], T)).
  - intros [C t] l τ [-> Hs]. pose proof Hs as (ET & -> & Hg). cbn [fst snd] in *.
    destruct t as [|tl a x tr].
    + assert (repr σ (plug C Leaf)) as Hr' by (by rewrite <- ET).
      pose proof (proj1 (repr_plug _ _ _) Hr') as (Hh & _ & Hnd & _). cbn in Hh, Hnd.
      rewrite app_nil_r in Hnd.
      wp_step. eapply wp_load_link; [done|]. rewrite Z.eqb_refl. wp_step. cbn iota. wp_step. wp_step.
      destruct (malloc_node (nodes σ) =? NULL) eqn:E; b2p.
      { wp_step. left. split_and!; try done. rewrite ET. by apply guard_leaf. }
      wp_step. eapply wp_mono; [by apply (wp_store_link C NULL)|]. intros ? τ [Hτ Hout].
      wp_step. unfold set_node. wp_step. wp_step. right. right. split; [done|]. cbn [nodes root].
      rewrite lookup_insert_eq. split; [done|]. split; [rewrite ET; by apply guard_leaf|].
      exists (plug C (Node Leaf (malloc_node (nodes σ)) k Leaf)), (lkeys C), (rkeys C).
      split; [eapply insert_repr; try done; [by rewrite <- ET|by apply malloc_fresh]|].
      unfold bst. rewrite !plug_keys. cbn. split; [|split; [by rewrite ET, plug_keys|done]].
      apply bst_insert; [by rewrite <- ET|done].
    + destruct (searching_node _ _ _ _ _ _ _ _ Hr Hs) as (Ha & Hn & Hh).
      wp_step. eapply wp_load_link; [done|]. rewrite (proj2 (Z.eqb_neq a NULL)) by done.
      wp_step. eapply wp_get_node; [done|]. cbn [key]. cbv zeta.
      destruct (compar k x =? 0) eqn:E; b2p; wp_step.
      * wp_step. right. left. split; [done|]. split; [done|]. eexists. split; [done|]. cbn.
        split; [|done]. rewrite ET, plug_keys. cbn. set_solver.
      * destruct (searching_step _ _ _ _ _ _ _ Hb Hs E) as (f & t & Hs' & _ & ?).
        by exists (f :: C, t).
  - split; [done|]. split; [done|]. split; [done|]. split; set_solver.
  - intros g l τ _. apply lenZ_nonneg.
  - by apply (tree_size σ T []).
Qed.

(** ** Deletion *)

Lemma ctx_stored_app m C D : ∀ p,
  ctx_stored m (C ++ D) p ↔ ctx_stored m C p ∧ ctx_stored m D (top C p).
Proof.
  induction C as [|f C IH]; intros p; [cbn; tauto|].
  assert (top (f :: C) p = top C (faddr f)) as ->.
  { unfold top. destruct C as [|g C _] using rev_ind; [done|].
    by rewrite app_comm_cons, !last_snoc. }
  destruct f; cbn [app ctx_stored faddr]; rewrite IH; tauto.
Qed.

Lemma plug_app C D t : plug (C ++ D) t = plug D (plug C t).
Proof. unfold plug. by rewrite foldl_app. Qed.

Lemma holds_app σ C D p :
  holds σ (C ++ D) p ↔ holds σ D (top C p) ∧ ctx_stored (nodes σ) C p.
Proof.
  unfold holds. rewrite ctx_stored_app.
  assert (top (C ++ D) p = top D (top C p)) as ->; [|tauto].
  unfold top. destruct D as [|g D _] using rev_ind; [by rewrite app_nil_r|].
  by rewrite app_assoc, !last_snoc.
Qed.

(** The node [a] below the hole of [C] is no longer needed: [t] takes its place. *)
Definition replacing (C : list frame) (l r : tree) (a : Z) (q : Z) (τ : tstate) : Prop :=
  ∃ t, q = addr t ∧ holds τ C a ∧ is_Some (nodes τ !! a) ∧ stored (nodes τ) t ∧
    keys t = keys l ++ keys r ∧ addrs t ≡ₚ addrs l ++ addrs r.

Definition left_frame (f : frame) : Prop := match f with FL _ _ _ => True | FR _ _ _ => False end.

Lemma left_frames_keys D : Forall left_frame D → lkeys D = [].
Proof. induction D as [|f D IH]; [done|]. intros [Hf HD]%Forall_cons. destruct f; [|done]. by apply IH. Qed.

(** The leftmost node [c] of the right subtree [r] of [a]: it is cut off, and then
    takes the place of [a]. *)
Section MoveUp.
Context (C : list frame) (l : tree) (a x : Z) (f : frame) (D : list frame) (c kc : Z) (cr : tree).
Context (σ : tstate) (Hf : Forall left_frame (f :: D)).
#[local] Abbreviation r := (plug (f :: D) (Node Leaf c kc cr)).
#[local] Abbreviation r' := (plug (f :: D) cr).
Context (Hr : repr σ (plug C (Node l a x r))).

Definition cut_off (τ : tstate) : Prop :=
  nodes τ !! c = Some (Nd kc NULL (addr cr)) ∧ nodes τ !! a = Some (Nd x (addr l) (addr r')) ∧
  holds τ C a ∧ stored (nodes τ) l ∧ stored (nodes τ) r'.

Lemma move_up_repr :
  repr σ (plug ((f :: D) ++ FR l a x :: C) (Node Leaf c kc cr)).
Proof. by rewrite plug_app. Qed.

Lemma move_up_fresh : c ∉ caddrs C ++ a :: addrs l ++ addrs r'.
Proof.
  pose proof move_up_repr as (_ & _ & Hnd & _)%repr_plug. cbn [addrs] in Hnd.
  rewrite (app_nil_l (c :: addrs cr)) in Hnd.
  apply NoDup_app in Hnd as (_ & Hdis & [Hcn _]%NoDup_cons). intros Hin.
  assert (caddrs ((f :: D) ++ FR l a x :: C) = caddrs (f :: D) ++ (a :: addrs l) ++ caddrs C) as E
    by (unfold caddrs; by rewrite bind_app).
  rewrite E in Hdis. pose proof (plug_addrs (f :: D) cr) as Ep. rewrite Ep in Hin.
  assert (c ∈ caddrs (f :: D) ++ (a :: addrs l) ++ caddrs C ∨ c ∈ addrs cr) as [?|?]
    by set_solver; [eapply Hdis; [done|set_solver]|done].
Qed.

Lemma cut_off_spec :
  nodes σ !! c = Some (Nd kc NULL (addr cr)) ∧
  wp (set_llink (faddr f) (addr cr)) (fun _ => cut_off) σ.
Proof.
  pose proof move_up_repr as (Hh & (Hc & _ & Hcr) & Hnd & _)%repr_plug. cbn [addr] in Hh.
  cbn [addrs app] in Hnd. apply NoDup_app in Hnd as (HndF & Hdis & [Hcn Hndr]%NoDup_cons).
  split; [done|].
  assert (store_link (link_of ((f :: D) ++ FR l a x :: C)) (addr cr) = set_llink (faddr f) (addr cr)) as <-
    by (destruct f; [done|by apply Forall_cons in Hf as [? _]]).
  eapply wp_mono; [by eapply wp_store_link|]. intros ? τ [Hτ Hout].
  apply holds_app in Hτ as [Hτ2 HτD].
  assert (stored (nodes τ) cr) as Hcrτ.
  { eapply stored_ext; [|done]. intros b Hb. apply Hout. intros Hin. eapply Hdis; [done|set_solver]. }
  assert (top (f :: D) (addr cr) = addr r') as Etop by (by rewrite plug_addr).
  rewrite Etop in Hτ2. destruct Hτ2 as [Hroot (Ha & Hl & HC)]. split_and!; try done.
  - rewrite Hout; [done|]. intros Hin. eapply Hdis; [done|set_solver].
  - split; [|done]. rewrite Hroot. change (FR l a x :: C) with ([FR l a x] ++ C).
    unfold top. destruct C as [|g C' _] using rev_ind; [done|]. by rewrite app_assoc, !last_snoc.
  - by apply plug_stored.
Qed.

(** Nodes other than [c] are as before. *)
Lemma cut_off_ext τ υ n :
  cut_off τ → root υ = root τ → nodes υ = <[c := n]> (nodes τ) →
  nodes υ !! a = Some (Nd x (addr l) (addr r')) ∧ holds υ C a ∧ stored (nodes υ) l ∧
  stored (nodes υ) r'.
Proof.
  intros (_ & Ha & [Hroot HC] & Hl & Hr') Er En. pose proof move_up_fresh as Hc.
  assert (∀ b, b ≠ c → nodes υ !! b = nodes τ !! b) as Hb
    by (intros b ?; rewrite En; by rewrite lookup_insert_ne).
  split_and!.
  - rewrite Hb; [done|set_solver].
  - split; [by rewrite Er|]. eapply ctx_stored_ext; [|exact HC]. intros b ?. apply Hb. set_solver.
  - eapply stored_ext; [|exact Hl]. intros b ?. apply Hb. set_solver.
  - eapply stored_ext; [|exact Hr']. intros b ?. apply Hb. set_solver.
Qed.

Lemma move_up_spec :
  wp (qn ← get_node c; _ ← set_llink (faddr f) (rlink qn);
      p ← load_link (link_of C); n ← get_node p; _ ← set_llink c (llink n);
      p ← load_link (link_of C); n ← get_node p; _ ← set_rlink c (rlink n);
      mret c) (replacing C l r a) σ.
Proof.
  destruct cut_off_spec as [Hc Hcut]. wp_step. eapply wp_get_node; [done|]. cbn [rlink]. wp_step.
  eapply wp_mono; [exact Hcut|]. intros ? τ Hτ. pose proof Hτ as (Hcτ & Haτ & HτC & _).
  wp_step. eapply wp_load_link; [done|]. wp_step. eapply wp_get_node; [done|]. cbn [llink].
  wp_step. unfold set_llink, set_rlink, set_node. wp_step. eapply wp_get_node; [done|].
  wp_step. cbn [key rlink llink].
  destruct (cut_off_ext τ (TState (root τ) (<[c := Nd kc (addr l) (addr cr)]> (nodes τ))) _ Hτ eq_refl eq_refl)
    as (Ha1 & HC1 & _).
  wp_step. eapply wp_load_link; [exact HC1|]. wp_step. eapply wp_get_node; [exact Ha1|]. cbn [rlink].
  wp_step. wp_step. eapply wp_get_node; [cbn; apply lookup_insert_eq|]. cbn [key llink nodes root].
  wp_step. wp_step. cbn [nodes root]. rewrite insert_insert_eq.
  destruct (cut_off_ext τ (TState (root τ) (<[c := Nd kc (addr l) (addr r')]> (nodes τ))) _ Hτ eq_refl eq_refl)
    as (Ha2 & HC2 & Hl2 & Hr2).
  exists (Node l c kc r'). split_and!; [done|done|by eexists|..].
  - cbn [stored nodes]. by rewrite lookup_insert_eq.
  - cbn [keys]. rewrite !plug_keys, left_frames_keys by done. done.
  - cbn [addrs]. rewrite (plug_addrs (f :: D) cr), (plug_addrs (f :: D) (Node Leaf c kc cr)).
    cbn [addrs app]. solve_Permutation.
Qed.
End MoveUp.

(** The walk to the leftmost node. *)
Definition leftmost (r : tree) (g : list frame * tree) (v : Z * Z) : Prop :=
  ∃ f, r = plug (f :: g.1) g.2 ∧ v = (faddr f, addr g.2) ∧ Forall left_frame (f :: g.1) ∧ g.2 ≠ Leaf.

Lemma leftmost_spec σ C l a x r rl b kb rr :
  r = Node rl b kb rr → rl ≠ Leaf → repr σ (plug C (Node l a x r)) →
  wp (loop (fun '(r, q) =>
              qn ← get_node q;
              if llink qn =? NULL then break (r, q)
              else let r := q in rn ← get_node r; continue (r, llink rn)) (b, addr rl))
     (fun v τ => τ = σ ∧ ∃ f D c kc cr, v = (faddr f, c) ∧ Forall left_frame (f :: D) ∧
        r = plug (f :: D) (Node Leaf c kc cr)) σ.
Proof.
  intros Er Hrl Hr.
  assert (∀ f D t, r = plug (f :: D) t → stored (nodes σ) t ∧ (NULL ∉ addrs t) ∧
            lenZ (addrs t) < 8589934592) as Hsub.
  { intros f D t Et.
    assert (plug C (Node l a x r) = plug ((f :: D) ++ FR l a x :: C) t) as ET
      by (rewrite plug_app, Et; done).
    rewrite ET in Hr. split_and!; [by apply repr_plug in Hr as (_ & ? & _)|..].
    - apply repr_plug in Hr as (_ & _ & _ & ? & _). set_solver.
    - by eapply (tree_size σ _ _ t Hr). }
  apply (wp_loop_ghost _ (fun g v τ => τ = σ ∧ leftmost r g v) _ (fun g => lenZ (addrs g.2)))
    with (g := ([], rl)).
  - intros [D t] v τ [-> (f & Et & -> & Hf & Ht)]. cbn [fst snd] in *.
    destruct t as [|tl c kc cr]; [done|]. destruct (Hsub _ _ _ Et) as ((Hc & _) & Hnull & _).
    cbn [addr]. wp_step. eapply wp_get_node; [done|]. cbn [llink].
    assert (NULL ∉ addrs tl) as Hntl by (cbn in Hnull; set_solver).
    destruct (addr tl =? NULL) eqn:E; b2p.
    + apply addr_null in E as ->; [|done]. wp_step. split; [done|]. by exists f, D, c, kc, cr.
    + cbv zeta. wp_step. eapply wp_get_node; [done|]. cbn [llink]. wp_step.
      exists (f :: D, tl). split; [split; [done|]|].
      * exists (FL c kc cr). split_and!; [done|done|by constructor|]. cbn. by intros ->.
      * cbn. rewrite lenZ_app, lenZ_cons. pose proof (lenZ_nonneg (addrs cr)). lia.
  - split; [done|]. exists (FL b kb rr). split_and!; [done|done|by repeat constructor|done].
  - intros g v τ _. apply lenZ_nonneg.
  - by eapply (Hsub (FL b kb rr) []).
Qed.

Lemma tdelete_successor_spec σ C l a x r :
  repr σ (plug C (Node l a x r)) →
  wp (tdelete_successor (link_of C)) (replacing C l r a) σ.
Proof.
  intros Hr. pose proof (proj1 (repr_plug _ _ _) Hr) as (Hh & (Ha & Hl & Hsr) & Hnd & Hnull & _).
  cbn [addr addrs] in *. assert ((NULL ∉ addrs l) ∧ (NULL ∉ addrs r)) as [Hnl Hnr] by set_solver.
  unfold tdelete_successor. wp_step. eapply wp_load_link; [done|]. wp_step.
  eapply wp_get_node; [done|]. cbn [llink rlink]. cbv zeta.
  destruct (addr l =? NULL) eqn:El; b2p.
  { apply addr_null in El as ->; [|done]. wp_step. exists r. by split_and!. }
  destruct (addr r =? NULL) eqn:Er; b2p.
  { apply addr_null in Er as ->; [|done]. wp_step. exists l. cbn. rewrite !app_nil_r. by split_and!. }
  destruct r as [|rl b kb rr]; [done|]. pose proof Hsr as (Hb & Hrl & Hrr). cbn [addr addrs] in *.
  wp_step. eapply wp_get_node; [done|]. cbn [llink].
  destruct (addr rl =? NULL) eqn:Erl; b2p.
  - apply addr_null in Erl as ->; [|set_solver]. wp_step. unfold set_llink, set_node.
    wp_step. eapply wp_get_node; [done|]. wp_step. wp_step. cbn [key rlink app addrs] in *.
    rewrite NoDup_app in Hnd. destruct Hnd as (_ & Hd1 & Hnd). rewrite NoDup_app in Hnd.
    destruct Hnd as (_ & Hd2 & [Ha1 [Hb1 _]%NoDup_cons]%NoDup_cons).
    exists (Node l b kb rr). set (τ := TState _ _).
    assert (∀ z, z ≠ b → nodes τ !! z = nodes σ !! z) as Hτ by (intros; cbn; by rewrite lookup_insert_ne).
    split_and!; [done|..].
    + destruct Hh as [? ?]. split; [done|]. eapply ctx_stored_ext; [|done]. intros z Hz. apply Hτ.
      intros ->. eapply Hd1; [done|set_solver].
    + rewrite Hτ by set_solver. by eexists.
    + cbn. rewrite lookup_insert_eq. split_and!; [done|..].
      * eapply stored_ext; [|exact Hl]. intros z Hz. apply Hτ. intros ->. eapply Hd2; [done|set_solver].
      * eapply stored_ext; [|exact Hrr]. intros z Hz. apply Hτ. intros ->. done.
    + done.
    + done.
  - wp_step. eapply wp_mono; [eapply leftmost_spec; [done|by intros ->|done]|].
    intros v τ [-> (f & D & c & kc & cr & -> & Hf & ED)]. rewrite ED.
    apply (move_up_spec C l a x f D c kc cr σ Hf). by rewrite <- ED.
Qed.

Lemma delete_repr τ C l a x r q υ σ :
  repr σ (plug C (Node l a x r)) → replacing C l r a q τ →
  holds υ C q → (∀ b, b ∉ caddrs C → nodes υ !! b = nodes (TState (root τ) (delete a (nodes τ))) !! b) →
  ∃ t, repr υ (plug C t) ∧ keys t = keys l ++ keys r ∧ nodes υ !! a = None.
Proof.
  intros Hr (t & -> & Hh & _ & Hst & Hk & Hp) Hυ Hout. exists t.
  apply repr_plug in Hr as (_ & _ & Hnd & Hnull & Hsz). cbn [addrs] in *.
  assert (addrs l ++ a :: addrs r ≡ₚ a :: addrs t) as E by (rewrite Hp; solve_Permutation).
  rewrite E in Hnd, Hnull. unfold lenZ in Hsz. rewrite E in Hsz. rewrite NoDup_app in Hnd.
  destruct Hnd as (Hn1 & Hd & [Ha Hn2]%NoDup_cons).
  assert (a ∉ caddrs C) as HaC by (intros Hin; eapply Hd; [done|set_solver]).
  split; [|split; [done|]].
  - apply repr_plug. split_and!; [done|..].
    + eapply stored_ext; [|exact Hst]. intros b Hb. rewrite Hout.
      * cbn. rewrite lookup_delete_ne; [done|]. by intros ->.
      * intros Hin. eapply Hd; [done|set_solver].
    + apply NoDup_app. split_and!; [done| |done]. intros b Hb1 Hb2. eapply Hd; [done|set_solver].
    + set_solver.
    + unfold lenZ. rewrite length_app in *. cbn in Hsz. lia.
  - rewrite Hout by done. cbn. apply lookup_delete_eq.
Qed.

Lemma bst_remove C l a x r t :
  bst (plug C (Node l a x r)) → keys t = keys l ++ keys r → bst (plug C t).
Proof.
  unfold bst. rewrite !plug_keys. cbn. intros H ->.
  assert (lkeys C ++ (keys l ++ x :: keys r) ++ rkeys C =
          (lkeys C ++ keys l) ++ [x] ++ (keys r ++ rkeys C)) as E by (by rewrite <- !app_assoc).
  rewrite E in H. apply StronglySorted_app in H as (H1 & H2 & H3).
  apply StronglySorted_app in H3 as (_ & _ & H4).
  assert (lkeys C ++ (keys l ++ keys r) ++ rkeys C =
          (lkeys C ++ keys l) ++ (keys r ++ rkeys C)) as -> by (by rewrite <- !app_assoc).
  apply StronglySorted_app. split_and!; [|done|done]. intros y z Hy Hz. apply H1; set_solver.
Qed.

Lemma tdelete_found σ C l a x r (p : Z) :
  repr σ (plug C (Node l a x r)) → p ≠ NULL →
  wp (q ← tdelete_successor (link_of C); c ← load_link (link_of C); _ ← free_node c;
      _ ← store_link (link_of C) q; mret p)
     (fun p' τ => p' = p ∧ ∃ t, repr τ (plug C t) ∧ keys t = keys l ++ keys r ∧
                                nodes τ !! a = None) σ.
Proof.
  intros Hr Hp. wp_step. eapply wp_mono; [by eapply tdelete_successor_spec|]. intros q τ Hrep.
  pose proof Hrep as (t & _ & Hh & [n Ha] & _).
  pose proof (proj1 (repr_plug _ _ _) Hr) as (_ & _ & Hnd & _). cbn [addrs] in Hnd.
  apply NoDup_app in Hnd as (HndC & Hd & _).
  wp_step. eapply wp_load_link; [done|]. wp_step. unfold free_node. wp_step.
  eapply wp_get_node; [done|]. wp_step. wp_step.
  assert (holds (TState (root τ) (delete a (nodes τ))) C a) as Hh'.
  { destruct Hh as [? ?]. split; [done|]. eapply ctx_stored_ext; [|done]. intros b Hb. cbn.
    apply lookup_delete_ne. intros <-. eapply Hd; [done|set_solver]. }
  eapply wp_mono; [by eapply wp_store_link|]. intros ? υ [Hυ Hout]. wp_step. split; [done|].
  by eapply delete_repr.
Qed.

Lemma tdelete_spec σ T k :
  repr σ T → bst T →
  wp (tdelete compar k (Some Root))
     (fun p τ => (τ = σ ∧ p = NULL ∧ ∀ y, y ∈ keys T → compar k y ≠ 0) ∨
        (p ≠ NULL ∧ ∃ T' l1 x l2, repr τ T' ∧ bst T' ∧ keys T = l1 ++ x :: l2 ∧
           compar k x = 0 ∧ keys T' = l1 ++ l2)) σ.
Proof.
  intros Hr Hb. unfold tdelete. destruct T as [|Tl Ta Tx Tr] eqn:ET0.
  { wp_step. apply (wp_load_link [] NULL); [by apply (repr_plug σ [] Leaf) in Hr as (? & _)|].
    rewrite Z.eqb_refl. wp_step. left. split_and!; set_solver. }
  rewrite <- ET0 in *. assert (addr T ≠ NULL) as HT0.
  { rewrite addr_null; [by rewrite ET0|apply (rp_null _ _ Hr)]. }
  wp_step. apply (wp_load_link [] (addr T)); [by apply (repr_plug σ [] T) in Hr as (? & _)|].
  rewrite (proj2 (Z.eqb_neq _ NULL)) by done. wp_step.
  apply (wp_loop_ghost _ (fun g v τ => τ = σ ∧ searching k T g v.1 ∧ g.2 ≠ Leaf ∧ v.2 ≠ NULL)
           _ (fun g => lenZ (addrs g.2))) with (g := ([], T)).
  - intros [C t] [ln p] τ (-> & Hs & Ht & Hp). pose proof Hs as (ET & Eln & Hg). cbn [fst snd] in *.
    subst ln. destruct t as [|tl a x tr]; [done|].
    destruct (searching_node _ _ _ _ _ _ _ _ Hr Hs) as (Ha & Hn & Hh).
    wp_step. eapply wp_load_link; [done|]. wp_step. eapply wp_get_node; [done|]. cbn [key]. cbv zeta.
    destruct (compar k x =? 0) eqn:E; b2p.
    + wp_step. cbn iota. eapply wp_mono; [apply (tdelete_found σ C tl a x tr); [by rewrite <- ET|done]|].
      intros p' τ [-> (t & Hr' & Hk & _)]. right. split; [done|].
      exists (plug C t), (lkeys C ++ keys tl), x, (keys tr ++ rkeys C).
      split; [done|]. split; [eapply bst_remove; [|done]; by rewrite <- ET|].
      rewrite ET, !plug_keys, Hk. cbn. rewrite <- !app_assoc. done.
    + destruct (searching_step _ _ _ _ _ _ _ Hb Hs E) as (f & t & Hs' & Hft & Hlt).
      pose proof Hs' as (ET' & Elk & Hg'). cbn [fst snd] in *. rewrite Elk.
      pose proof Hr as Hr2. rewrite ET' in Hr2. apply repr_plug in Hr2 as (Hh' & _ & _ & Hnull & _).
      wp_step. eapply wp_load_link; [done|]. destruct (addr t =? NULL) eqn:Et; b2p.
      * wp_step. cbn iota. wp_step. left. split_and!; [done|done|].
        apply addr_null in Et as ->; [|set_solver]. rewrite ET'. by apply guard_leaf.
      * wp_step. exists (f :: C, t). split; [|done]. split_and!; [done|by rewrite <- Elk|cbn; by intros ->|done].
  - split_and!; [done| |by rewrite ET0|done]. split; [done|]. split; [done|]. split; set_solver.
  - intros g v τ _. apply lenZ_nonneg.
  - by apply (tree_size σ T []).
Qed.
End Search.

(** ** Walks *)

Fixpoint visits (t : tree) (level : Z) : list (Z * VISIT * Z) :=
  match t with
  | Leaf => []
  | Node Leaf a _ Leaf => [(a, leaf, level)]
  | Node l a _ r =>
      (a, preorder, level) :: visits l (level + 1) ++
      (a, postorder, level) :: visits r (level + 1) ++ [(a, endorder, level)]
  end.

(** The visits that come in the order of the keys. *)
Definition in_order (v : Z * VISIT * Z) : bool :=
  match v.1.2 with postorder | leaf => true | _ => false end.

Lemma visits_in_order t : ∀ level, map (fun v => v.1.1) (List.filter in_order (visits t level)) = addrs t.
Proof.
  induction t as [|l IHl a k r IHr]; intros level; [done|].
  assert (visits (Node l a k r) level = [(a, leaf, level)] ∧ l = Leaf ∧ r = Leaf ∨
          visits (Node l a k r) level = (a, preorder, level) :: visits l (level + 1) ++
            (a, postorder, level) :: visits r (level + 1) ++ [(a, endorder, level)]) as [(-> & -> & ->)| ->].
  { destruct l, r; cbn; tauto. }
  - done.
  - cbn. rewrite List.filter_app, map_app, IHl. cbn. rewrite List.filter_app, map_app, IHr. cbn.
    by rewrite app_nil_r.
Qed.

Lemma twalk_spec σ t : ∀ fuel level,
  stored (nodes σ) t → NULL ∉ addrs t → t ≠ Leaf → (length (addrs t) < fuel)%nat →
  wp (twalk_trecurse fuel (addr t) level) (fun tr τ => τ = σ ∧ tr = visits t level) σ.
Proof.
  induction t as [|l IHl a k r IHr]; intros fuel level Hs Hnull Ht Hf; [done|].
  destruct fuel as [|fuel]; [lia|]. destruct Hs as (Ha & Hl & Hr). cbn [addrs addr] in *.
  rewrite length_app in Hf. cbn in Hf.
  assert ((NULL ∉ addrs l) ∧ (NULL ∉ addrs r)) as [Hnl Hnr] by set_solver.
  cbn [twalk_trecurse]. wp_step. eapply wp_get_node; [done|]. cbn [llink rlink].
  assert (∀ t, (NULL ∉ addrs t) → (addr t =? NULL) = match t with Leaf => true | _ => false end) as Hb.
  { intros t Hn. destruct t; [done|]. cbn in *. apply Z.eqb_neq. set_solver. }
  rewrite !Hb by done. destruct l as [|ll la lk lr] eqn:El, r as [|rl ra rk rr] eqn:Er; cbn [andb negb].
  - by wp_step.
  - wp_step. wp_step. wp_step. eapply wp_mono; [apply IHr; [done|done|done|lia]|].
    intros ? τ [-> ->]. by wp_step.
  - wp_step. eapply wp_mono; [apply IHl; [done|done|done|lia]|]. intros ? τ [-> ->].
    wp_step. wp_step. by wp_step.
  - wp_step. eapply wp_mono; [apply IHl; [done|done|done|lia]|]. intros ? τ [-> ->].
    wp_step. eapply wp_mono; [apply IHr; [done|done|done|lia]|]. intros ? τ [-> ->]. by wp_step.
Qed.

(** The keys in the order in which [tdestroy] frees them. *)
Fixpoint post_keys (t : tree) : list Z :=
  match t with Leaf => [] | Node l _ k r => post_keys l ++ post_keys r ++ [k] end.

Lemma post_keys_perm t : post_keys t ≡ₚ keys t.
Proof. induction t as [|l IHl a k r IHr]; [done|]. cbn. rewrite IHl, IHr. solve_Permutation. Qed.

Definition freed (σ τ : tstate) (l : list Z) : Prop :=
  root τ = root σ ∧ ∀ a, nodes τ !! a = if decide (a ∈ l) then None else nodes σ !! a.

Lemma tdestroy_spec t : ∀ fuel σ,
  stored (nodes σ) t → NULL ∉ addrs t → NoDup (addrs t) → t ≠ Leaf → (length (addrs t) < fuel)%nat →
  wp (tdestroy_trecurse fuel (addr t))
     (fun ks τ => ks = post_keys t ∧ freed σ τ (addrs t)) σ.
Proof.
  induction t as [|l IHl a k r IHr]; intros fuel σ Hs Hnull Hnd Ht Hf; [done|].
  destruct fuel as [|fuel]; [lia|]. destruct Hs as (Ha & Hl & Hr). cbn [addrs addr] in *.
  rewrite length_app in Hf. cbn in Hf.
  assert ((NULL ∉ addrs l) ∧ (NULL ∉ addrs r)) as [Hnl Hnr] by set_solver.
  apply NoDup_app in Hnd as (Hd1 & Hd2 & [Hd3 Hd4]%NoDup_cons).
  assert (∀ t fuel σ, (NULL ∉ addrs t) →
    (t ≠ Leaf → wp (tdestroy_trecurse fuel (addr t))
       (fun ks τ => ks = post_keys t ∧ freed σ τ (addrs t)) σ) →
    wp (if negb (addr t =? NULL) then tdestroy_trecurse fuel (addr t) else mret [])
       (fun ks τ => ks = post_keys t ∧ freed σ τ (addrs t)) σ) as Hsub.
  { intros t f υ Hn Hw. destruct t as [|tl ta tk tr]; [cbn; split; [done|]; split; [done|]; intros z;
      by rewrite decide_False by set_solver|].
    rewrite (proj2 (Z.eqb_neq _ NULL)) by (cbn in *; set_solver). by apply Hw. }
  cbn [tdestroy_trecurse]. wp_step. eapply wp_get_node; [done|]. cbn [llink]. wp_step.
  eapply wp_mono; [apply Hsub; [done|intros; apply IHl; try done; lia]|].
  intros ? τ [-> [Er1 Hτ]].
  assert (∀ z, z ∉ addrs l → nodes τ !! z = nodes σ !! z) as Hτ'
    by (intros z Hz; rewrite Hτ; by rewrite decide_False).
  assert (nodes τ !! a = Some (Nd k (addr l) (addr r))) as Haτ
    by (rewrite Hτ'; [done|intros Hin; eapply Hd2; [done|set_solver]]).
  wp_step. eapply wp_get_node; [done|]. cbn [rlink]. wp_step.
  assert (stored (nodes τ) r) as Hrτ.
  { eapply stored_ext; [|done]. intros z Hz. apply Hτ'. intros Hin. eapply Hd2; [done|set_solver]. }
  eapply wp_mono; [apply Hsub; [done|intros; apply IHr; try done; lia]|].
  intros ? υ [-> [Er2 Hυ]].
  assert (nodes υ !! a = Some (Nd k (addr l) (addr r))) as Haυ by (rewrite Hυ; by rewrite decide_False).
  wp_step. eapply wp_get_node; [done|]. wp_step. unfold free_node. wp_step.
  eapply wp_get_node; [done|]. wp_step. wp_step. split; [done|]. split; [cbn; congruence|].
  intros z. cbn. destruct (decide (z = a)) as [->|Hz].
  - rewrite lookup_delete_eq. by rewrite decide_True by set_solver.
  - rewrite lookup_delete_ne, Hυ, Hτ by done.
    repeat case_decide; set_solver.
Qed.

(** ** The abstract specification: sorted lists of keys *)

Section Spec.
Context (compar : Z → Z → Z) `{KO : !KeyOrder compar}.

Fixpoint key_find (k : Z) (ks : list Z) : option Z :=
  match ks with [] => None | y :: ks => if compar k y =? 0 then Some y else key_find k ks end.
Fixpoint key_insert (k : Z) (ks : list Z) : list Z :=
  match ks with
  | [] => [k]
  | y :: ks' => if compar k y <? 0 then k :: ks
                else if compar k y =? 0 then ks else y :: key_insert k ks'
  end.
Fixpoint key_delete (k : Z) (ks : list Z) : list Z :=
  match ks with [] => [] | y :: ks => if compar k y =? 0 then ks else y :: key_delete k ks end.

(** The heap holds a search tree with these keys. *)
Definition tree_at (σ : tstate) (ks : list Z) : Prop :=
  ∃ T, repr σ T ∧ bst compar T ∧ keys T = ks.

#[local] Abbreviation sorted := (StronglySorted (fun x y => compar x y < 0)).

Lemma key_find_none k ks : (∀ y, y ∈ ks → compar k y ≠ 0) ↔ key_find k ks = None.
Proof.
  induction ks as [|y ks IH]; cbn; [set_solver|]. destruct (compar k y =? 0) eqn:E; b2p.
  - split; [|done]. intros H. exfalso. eapply (H y); [set_solver|done].
  - rewrite <- IH. split; [set_solver|]. intros H z [->|?]%elem_of_cons; auto.
Qed.

(** In a sorted list, equal keys are the same key. *)
Lemma sorted_equal k l1 x l2 :
  sorted (l1 ++ x :: l2) → compar k x = 0 → ∀ y, y ∈ l1 → compar k y ≠ 0.
Proof.
  intros H Hk y Hy Hky. apply StronglySorted_app in H as (H & _ & _).
  specialize (H y x Hy ltac:(set_solver)).
  assert (compar y x <= 0 ∧ compar x y <= 0) as [_ ?].
  { split; [lia|]. eapply (compar_trans x k y); [|lia]. rewrite (compar_eq compar) in Hk. lia. }
  rewrite compar_flip in H. lia.
Qed.

Lemma key_find_some k l1 x l2 : sorted (l1 ++ x :: l2) → compar k x = 0 → key_find k (l1 ++ x :: l2) = Some x.
Proof.
  intros Hs Hk. pose proof (sorted_equal _ _ _ _ Hs Hk) as Hne. clear Hs.
  induction l1 as [|y l1 IH]; cbn; [by rewrite Hk|].
  rewrite (proj2 (Z.eqb_neq _ _)) by (apply Hne; set_solver). apply IH. set_solver.
Qed.

Lemma key_delete_some k l1 x l2 : sorted (l1 ++ x :: l2) → compar k x = 0 → key_delete k (l1 ++ x :: l2) = l1 ++ l2.
Proof.
  intros Hs Hk. pose proof (sorted_equal _ _ _ _ Hs Hk) as Hne. clear Hs.
  induction l1 as [|y l1 IH]; cbn; [by rewrite Hk|].
  rewrite (proj2 (Z.eqb_neq _ _)) by (apply Hne; set_solver). f_equal. apply IH. set_solver.
Qed.

Lemma key_delete_none k ks : (∀ y, y ∈ ks → compar k y ≠ 0) → key_delete k ks = ks.
Proof.
  induction ks as [|y ks IH]; [done|]. intros H. cbn.
  rewrite (proj2 (Z.eqb_neq _ _)) by (apply H; set_solver). f_equal. apply IH. set_solver.
Qed.

Lemma key_insert_new k l1 l2 :
  sorted (l1 ++ k :: l2) → (∀ y, y ∈ l1 ++ l2 → compar k y ≠ 0) → key_insert k (l1 ++ l2) = l1 ++ k :: l2.
Proof.
  induction l1 as [|y l1 IH]; cbn; intros Hs Hne.
  - destruct l2 as [|y l2]; [done|]. cbn. apply StronglySorted_inv in Hs as [_ Hs].
    apply Forall_cons in Hs as [Hs _]. by rewrite (proj2 (Z.ltb_lt _ _) Hs).
  - apply StronglySorted_inv in Hs as [Hs Hf].
    assert (compar y k < 0) as Hyk by (rewrite Forall_forall in Hf; apply Hf; set_solver).
    rewrite compar_flip in Hyk. rewrite (proj2 (Z.ltb_ge _ _)) by lia.
    rewrite (proj2 (Z.eqb_neq _ _)) by lia. f_equal. apply IH; [done|set_solver].
Qed.

Lemma key_insert_old k x ks : sorted ks → x ∈ ks → compar k x = 0 → key_insert k ks = ks.
Proof.
  intros Hs Hx Hk. apply list_elem_of_split in Hx as (l1 & l2 & ->).
  induction l1 as [|y l1 IH]; cbn in *; [by rewrite Hk|].
  apply StronglySorted_inv in Hs as [Hs Hf].
  assert (compar y x < 0) as Hyx by (rewrite Forall_forall in Hf; apply Hf; set_solver).
  assert (compar y k < 0) as Hyk.
  { eapply (compar_lt_le compar y x k); [done|]. rewrite (compar_eq compar) in Hk. lia. }
  rewrite compar_flip in Hyk. rewrite (proj2 (Z.ltb_ge _ _)) by lia.
  rewrite (proj2 (Z.eqb_neq _ _)) by lia. f_equal. by apply IH.
Qed.

(** C9: the tree functions refine operations on the sorted list of keys.  [tfind]
    returns the node of the equal key, or NULL if there is none; [tsearch] returns
    such a node after inserting the key if needed, or NULL with nothing changed if
    there is no memory; [tdelete] removes the equal key and returns NULL exactly
    if there was none. *)
Theorem tree_refines `{NodeAlloc} σ ks k :
  tree_at σ ks → lenZ ks + 1 < 4294967296 →
  wp (tfind compar k (Some Root))
     (fun p τ => τ = σ ∧ if p =? NULL then key_find k ks = None
                         else ∃ n, nodes σ !! p = Some n ∧ key_find k ks = Some (key n)) σ ∧
  wp (tsearch compar k (Some Root))
     (fun p τ => if p =? NULL then τ = σ ∧ key_find k ks = None ∧ malloc_node (nodes σ) = NULL
                 else tree_at τ (key_insert k ks) ∧
                      ∃ n, nodes τ !! p = Some n ∧ compar k (key n) = 0) σ ∧
  wp (tdelete compar k (Some Root))
     (fun p τ => tree_at τ (key_delete k ks) ∧ (p = NULL ↔ key_find k ks = None)) σ.
Proof.
  intros (T & Hr & Hb & <-) Hsz.
  assert (lenZ (addrs T) = lenZ (keys T)) as HL.
  { clear. unfold lenZ. f_equal. induction T as [|l IHl a x r IHr]; [done|]. cbn.
    rewrite !length_app. cbn. lia. }
  assert (∀ x, x ∈ keys T → compar k x = 0 → key_find k (keys T) = Some x) as Hfind.
  { intros x Hx Hk. unfold bst in Hb. apply list_elem_of_split in Hx as (l1 & l2 & E).
    rewrite E in *. by apply key_find_some. }
  split_and!.
  - eapply wp_mono; [by eapply tfind_spec|]. intros p τ [-> [[-> Hn]|(Hp & n & Hn & Hin & Hk)]];
      (split; [done|]).
    + rewrite Z.eqb_refl. by apply key_find_none.
    + rewrite (proj2 (Z.eqb_neq p NULL)) by done. exists n. split; [done|]. by apply Hfind.
  - eapply wp_mono; [apply (tsearch_spec compar σ T k Hr Hb); by rewrite HL|].
    intros p τ [(-> & -> & Hn & Hm)|[(-> & Hp & n & Hn & Hin & Hk)|
                (Hp & Hn & Hne & T' & l1 & l2 & Hr' & Hb' & E & E')]].
    + rewrite Z.eqb_refl. split_and!; [done|by apply key_find_none|done].
    + rewrite (proj2 (Z.eqb_neq p NULL)) by done. split; [|by exists n].
      exists T. split_and!; [done|done|]. by rewrite (key_insert_old k (key n)).
    + rewrite (proj2 (Z.eqb_neq p NULL)) by done. split.
      * exists T'. split_and!; [done|done|]. rewrite E in *. rewrite key_insert_new; [done| |done].
        unfold bst in Hb'. by rewrite E' in Hb'.
      * eexists. split; [done|]. cbn. pose proof (compar_flip k k). lia.
  - eapply wp_mono; [by eapply tdelete_spec|].
    intros p τ [(-> & -> & Hn)|(Hp & T' & l1 & x & l2 & Hr' & Hb' & E & Hk & E')].
    + rewrite key_delete_none by done. split; [by exists T|]. split; [|done]. intros _.
      by apply key_find_none.
    + unfold bst in Hb. rewrite E in *. rewrite key_delete_some by done.
      split; [by exists T'|]. rewrite key_find_some by done. done.
Qed.

End Spec.

(** [twalk] visits the nodes such that the calls with [postorder] and [leaf]
    come in the order of the keys, and changes nothing; [tdestroy] hands every key
    once to the free function and frees every node of the tree and no other. *)
Theorem tree_walks σ T :
  repr σ T →
  wp (twalk (S (length (addrs T))) (addr T))
     (fun tr τ => τ = σ ∧ map (fun v => v.1.1) (List.filter in_order tr) = addrs T) σ ∧
  wp (tdestroy (S (length (addrs T))) (addr T))
     (fun ks τ => ks ≡ₚ keys T ∧ freed σ τ (addrs T)) σ.
Proof.
  intros [_ Hs Hnd Hnull _]. unfold twalk, tdestroy. destruct T as [|l a k r] eqn:ET; cbn [addr].
  { rewrite Z.eqb_refl. split; apply wp_ret; (split; [done|]); [done|]. split; [done|]. intros z.
    by rewrite decide_False by set_solver. }
  rewrite <- ET in *. assert (T ≠ Leaf) as HT by (by rewrite ET).
  assert (a = addr T) as -> by (by rewrite ET).
  rewrite (proj2 (Z.eqb_neq (addr T) NULL)) by (rewrite addr_null; done). cbn [negb]. split.
  - eapply wp_mono; [by apply twalk_spec; try lia|]. intros tr τ [-> ->]. split; [done|].
    apply visits_in_order.
  - eapply wp_mono; [by apply tdestroy_spec; try lia|]. intros ks τ [-> Hf]. split; [|done].
    apply post_keys_perm.
Qed.

(** ** A concrete tree *)

Definition demo_alloc : NodeAlloc.
Proof.
  refine {| malloc_node := fun m => if decide (m !! 5000 = None) then 5000 else NULL |}.
  intros m. case_decide; done.
Defined.

#[export] Instance sub_order : KeyOrder Z.sub.
Proof. split; intros; lia. Qed.

Definition demo_tree : tree :=
  Node (Node Leaf 200 3 Leaf) 100 5 (Node (Node Leaf 400 7 Leaf) 300 8 Leaf).
Definition demo_heap : tstate :=
  TState 100 (<[100 := Nd 5 200 300]> (<[200 := Nd 3 NULL NULL]>
               (<[300 := Nd 8 400 NULL]> {[400 := Nd 7 NULL NULL]}))).

Lemma demo_repr : repr demo_heap demo_tree.
Proof.
  split; [reflexivity| |by apply (bool_decide_unpack _)|by apply (bool_decide_unpack _)|reflexivity].
  vm_compute. repeat split; reflexivity.
Qed.
Lemma demo_tree_at : tree_at Z.sub demo_heap [3; 5; 7; 8].
Proof.
  exists demo_tree. split; [apply demo_repr|]. split; [|done].
  unfold bst. repeat constructor; vm_compute; reflexivity.
Qed.

Lemma tree_refines_witness :
  wp (tfind Z.sub 5 (Some Root))
     (fun p τ => τ = demo_heap ∧
        if p =? NULL then key_find Z.sub 5 [3; 5; 7; 8] = None
        else ∃ n, nodes demo_heap !! p = Some n ∧ key_find Z.sub 5 [3; 5; 7; 8] = Some (key n))
     demo_heap ∧
  wp (@tsearch Z.sub demo_alloc 5 (Some Root))
     (fun p τ =>
        if p =? NULL then τ = demo_heap ∧ key_find Z.sub 5 [3; 5; 7; 8] = None ∧
                          @malloc_node demo_alloc (nodes demo_heap) = NULL
        else tree_at Z.sub τ (key_insert Z.sub 5 [3; 5; 7; 8]) ∧
             ∃ n, nodes τ !! p = Some n ∧ 5 - key n = 0) demo_heap ∧
  wp (tdelete Z.sub 5 (Some Root))
     (fun p τ => tree_at Z.sub τ (key_delete Z.sub 5 [3; 5; 7; 8]) ∧
                 (p = NULL ↔ key_find Z.sub 5 [3; 5; 7; 8] = None)) demo_heap.
Proof.
  refine (@tree_refines Z.sub sub_order demo_alloc demo_heap [3; 5; 7; 8] 5 demo_tree_at _).
  reflexivity.
Defined.

Lemma tree_walks_witness :
  wp (twalk 5 100)
     (fun tr τ => τ = demo_heap ∧ map (fun v => v.1.1) (List.filter in_order tr) = [200; 100; 400; 300])
     demo_heap ∧
  wp (tdestroy 5 100)
     (fun ks τ => ks ≡ₚ [3; 5; 7; 8] ∧ freed demo_heap τ [200; 100; 400; 300]) demo_heap.
Proof. exact (tree_walks demo_heap demo_tree demo_repr). Defined.
