(* ===== verification/Malloc.v ===== *)
(** * malloc and its relatives

    stdlib/malloc.c, calloc.c, free.c, realloc.c, aligned_alloc.c,
    posix_memalign.c, posix/memalign.c, and the dispatch of
    wmem/wmem_core.c to an allocator.  An allocator is a struct of functions
    ([wmem_allocator_t]); here it is the class [wmem_allocator], which also states
    what the layer above relies on.  The theorems of this file hold for every
    allocator that keeps this promise; the block allocator is an instance.

    The library is not reentrant while it holds the memory mutex, so the lock and
    unlock calls are left out. *)

From stdpp Require Import base numbers gmap list.
From S2P Require Import Prelude CMem Words WmemBlock WmemSplit WmemInv WmemAlloc WmemRealloc WmemClient.
Open Scope Z_scope.
#[local] Set Warnings "-clear-no-such-hyp".

(** ** The interface of an allocator *)

Class wmem_allocator (S : Type) := {
  walloc : Z → Z → M S Z;
  wfree : Z → M S unit;
  wrealloc : Z → Z → Z → M S Z;
  (* [ainv A]: the allocations in use are those of [A] *)
  ainv : gmap Z Z → S → Prop;
  (* the operating system has memory for a request of this size and alignment *)
  enough : S → Z → Z → Prop;
  (* the allocation can be resized *)
  resizable : S → Z → Z → Z → Prop;
  accessible : S → Z → Z → bool;
  walloc_ok : ∀ A σ size k, ainv A σ → 0 < size → 0 <= k < 32 → size + 2 ^ k + 36 < 4294967296 →
    enough σ size (2 ^ k) →
    wp (walloc size (2 ^ k))
       (fun p τ => (p = NULL ∧ τ = σ) ∨
                   (p ≠ NULL ∧ p mod 2 ^ k = 0 ∧ A !! p = None ∧ ainv (<[p := size]> A) τ)) σ;
  wfree_ok : ∀ A σ p n, ainv A σ → A !! p = Some n → wp (wfree p) (fun _ τ => ainv (delete p A) τ) σ;
  wrealloc_ok : ∀ A σ p n size k, ainv A σ → A !! p = Some n → 0 < size → 0 <= k < 32 →
    resizable σ p size (2 ^ k) →
    wp (wrealloc p size (2 ^ k))
       (fun q τ => q ≠ NULL ∧ ainv (<[q := size]> (delete p A)) τ) σ;
  ainv_accessible : ∀ A σ p n, ainv A σ → A !! p = Some n →
    p ≠ NULL ∧ ∀ m, 0 <= m <= n → accessible σ p m = true
}.

(** ** The library *)

Definition ENOMEM : Z := 12.
Definition EINVAL : Z := 22.
Definition EOVERFLOW : Z := 84.
Definition SIZE_MAX : Z := 4294967295.
Definition SIZE_ALIGN : Z := 4 * 4.

Record libc (S : Type) := Libc { heap : S; lerrno : Z }.
Arguments Libc {S} heap lerrno.
Arguments heap {S} l.
Arguments lerrno {S} l.

Section Library.
Context {S : Type} `{W : wmem_allocator S}.

(** A call into the allocator. *)
Definition in_heap {A} (m : M S A) : M (libc S) A :=
  fun σ => match m (heap σ) with
           | Ok (a, h) => Ok (a, Libc h (lerrno σ))
           | Fault => Fault
           | NoFuel => NoFuel
           end.
Definition set_lerrno (e : Z) : M (libc S) unit := modify (fun σ => Libc (heap σ) e).

(** [memset] of user data, which is not part of the state. *)
Definition memset (p n : Z) : M (libc S) unit :=
  σ ← get; if accessible (heap σ) p n then mret tt else fault.

Definition wmem_alloc_aligned (size alignment : Z) : M (libc S) Z :=
  if size =? 0 then mret NULL else in_heap (walloc size alignment).

Definition wmem_free (ptr : Z) : M (libc S) unit :=
  if ptr =? NULL then mret tt else in_heap (wfree ptr).

Definition wmem_realloc_aligned (ptr size alignment : Z) : M (libc S) Z :=
  if ptr =? NULL then wmem_alloc_aligned size alignment
  else if size =? 0 then _ ← wmem_free ptr; mret NULL
  else in_heap (wrealloc ptr size alignment).
Definition wmem_realloc (ptr size : Z) : M (libc S) Z := wmem_realloc_aligned ptr size 16.

Definition __malloc_aligned_r (size alignment : Z) : M (libc S) Z :=
  let size := if size =? 0 then 4 else size in
  if SIZE_MAX <? size then _ ← set_lerrno EOVERFLOW; mret NULL
  else
    result ← wmem_alloc_aligned size alignment;
    _ ← (if result =? NULL then set_lerrno ENOMEM else mret tt);
    mret result.
Definition __malloc_r (size : Z) : M (libc S) Z := __malloc_aligned_r size 16.
Definition malloc (size : Z) : M (libc S) Z := __malloc_r size.

Definition __calloc_r (num_elements element_size : Z) : M (libc S) Z :=
  let total_size := if negb (num_elements =? 0) then u32 (num_elements * element_size) else 0 in
  if negb (num_elements =? 0) &&
     (negb (Z.land (Z.lor num_elements element_size) (not32 65535) =? 0) &&
      negb (total_size / num_elements =? element_size))
  then _ ← set_lerrno ENOMEM; mret NULL
  else
    result ← __malloc_r total_size;
    _ ← (if negb (result =? NULL) then memset result total_size else mret tt);
    mret result.
Definition calloc (num_elements element_size : Z) : M (libc S) Z :=
  __calloc_r num_elements element_size.

Definition __free_r (ptr : Z) : M (libc S) unit :=
  if ptr =? NULL then mret tt else wmem_free ptr.
Definition free (ptr : Z) : M (libc S) unit := __free_r ptr.

Definition realloc (ptr size : Z) : M (libc S) Z :=
  let size := if size =? 0 then 4 else size in
  wmem_realloc ptr size.

Definition memalign (alignment size : Z) : M (libc S) Z :=
  if (alignment =? 0) || negb (Z.land alignment (u32 (- alignment)) =? alignment) then
    _ ← set_lerrno EINVAL; mret NULL
  else __malloc_aligned_r size alignment.

Definition aligned_alloc (align size : Z) : M (libc S) Z :=
  if negb (Z.land align (u32 (- align)) =? align) then _ ← set_lerrno EINVAL; mret NULL
  else if u32 (SIZE_MAX - align) <? size then _ ← set_lerrno ENOMEM; mret NULL
  else if align <=? SIZE_ALIGN then malloc size
  else memalign align size.

(** The result and what is stored through [res]. *)
Definition posix_memalign (align len : Z) : M (libc S) (Z * option Z) :=
  if align <? 4 then mret (EINVAL, None)
  else
    mem ← aligned_alloc align len;
    σ ← get;
    if (mem =? NULL) && negb (lerrno σ =? 0) then mret (lerrno σ, None)
    else mret (0, Some mem).
End Library.

(** ** Arithmetic of the checks *)

(** The test for a power of two. *)
Lemma power_of_two_test a :
  0 < a < 4294967296 → Z.land a (u32 (- a)) = a ↔ ∃ k, 0 <= k < 32 ∧ a = 2 ^ k.
Proof.
  intros Ha. assert (u32 (- a) = 4294967296 - a) as -> by (unfold u32; dlia). split.
  - intros Hl. set (k := Z.log2 a). pose proof (Z.log2_spec a ltac:(lia)) as [H1 H2]. fold k in H1, H2.
    pose proof (Z.log2_nonneg a). fold k in H. assert (k < 32) by (apply Z.log2_lt_pow2; lia).
    exists k. split; [lia|]. destruct (decide (a = 2 ^ k)) as [|Hne]; [done|exfalso].
    assert (Z.testbit a k = true) as Hb by (apply Z.bit_log2; lia).
    rewrite <- Hl, Z.land_spec, andb_true_iff in Hb. destruct Hb as [_ Hb].
    rewrite Z.pow_succ_r in H2 by lia.
    assert (4294967296 = 2 ^ k * (2 * 2 ^ (31 - k))) as E.
    { rewrite Z.mul_comm, <- Z.mul_assoc, <- Z.pow_add_r by lia. by replace (31 - k + k) with 31 by lia. }
    assert (0 < 2 ^ (31 - k)) by (apply Z.pow_pos_nonneg; lia).
    assert ((4294967296 - a) / 2 ^ k = 2 * (2 ^ (31 - k) - 1)) as Ed.
    { symmetry. apply Z.div_unique with (2 ^ k * 2 - a); lia. }
    rewrite Z.testbit_odd, Z.shiftr_div_pow2, Ed, Z.odd_mul in Hb by lia. done.
  - intros (k & Hk & ->). rewrite land_high_mask by lia. rewrite Z_mod_same_full. lia.
Qed.

Lemma lor_small a b :
  0 <= a → 0 <= b → Z.lor a b < 4294967296 →
  Z.land (Z.lor a b) (not32 65535) = 0 ↔ a < 65536 ∧ b < 65536.
Proof.
  intros Ha Hb Hl. assert (0 <= Z.lor a b) by (by apply Z.lor_nonneg).
  change (not32 65535) with (4294967296 - 2 ^ 16). rewrite land_high_mask by lia.
  assert (∀ x, 0 <= x → x < 65536 ↔ Z.shiftr x 16 = 0) as Hs.
  { intros x Hx. rewrite Z.shiftr_div_pow2 by lia. change (2 ^ 16) with 65536. dlia. }
  rewrite !Hs by done. rewrite <- Z.lor_eq_0_iff, <- Z.shiftr_lor, <- Hs by done.
  change (2 ^ 16) with 65536. dlia.
Qed.

(** The overflow test of [calloc] is exact. *)
Lemma calloc_test num es :
  0 <= num < 4294967296 → 0 <= es < 4294967296 →
  let total := if negb (num =? 0) then u32 (num * es) else 0 in
  negb (num =? 0) && (negb (Z.land (Z.lor num es) (not32 65535) =? 0) && negb (total / num =? es))
  = (4294967296 <=? num * es) ∧ (num * es < 4294967296 → total = num * es).
Proof.
  intros Hn He total. unfold total. destruct (num =? 0) eqn:E0; b2p; cbn [negb andb].
  { subst. split; [|lia]. symmetry. apply Z.leb_gt. lia. }
  assert (Z.lor num es < 4294967296) as Hl.
  { assert (0 <= Z.lor num es) by (apply Z.lor_nonneg; lia).
    assert (Z.shiftr (Z.lor num es) 32 = 0) as H0; [|rewrite Z.shiftr_div_pow2 in H0 by lia; dlia].
    rewrite Z.shiftr_lor, !Z.shiftr_div_pow2, !Z.div_small by lia. done. }
  split; [|intros; apply u32_small; lia].
  destruct (4294967296 <=? num * es) eqn:Ov; b2p.
  - assert (u32 (num * es) / num ≠ es) as Hd.
    { assert (u32 (num * es) < num * es) as Hlt by (unfold u32; dlia).
      apply Z.lt_neq. apply Z.div_lt_upper_bound; lia. }
    rewrite (proj2 (Z.eqb_neq _ es)) by done. rewrite andb_true_r, negb_true_iff.
    apply Z.eqb_neq. rewrite lor_small by lia. intros [? ?]. nia.
  - rewrite u32_small by lia. rewrite Z.mul_comm, Z.div_mul by lia. rewrite Z.eqb_refl.
    by rewrite andb_false_r.
Qed.

(** ** Every allocator *)

Section Correct.
Context {S : Type} `{W : wmem_allocator S}.
Implicit Types (A : gmap Z Z) (σ τ : libc S).

Lemma wp_in_heap {B} (m : M S B) (Q : B → libc S → Prop) σ :
  wp m (fun b h => Q b (Libc h (lerrno σ))) (heap σ) → wp (in_heap m) Q σ.
Proof. unfold wp, in_heap. by destruct (m (heap σ)) as [[b h]| |]. Qed.

(** A request for 0 bytes gets 4. *)
Definition asked (size : Z) : Z := if size =? 0 then 4 else size.

(** What a call that allocates does: it fails and changes nothing but errno, or it
    returns new memory of [size] bytes. *)
Definition allocated A σ (size al p : Z) τ : Prop :=
  (p = NULL ∧ heap τ = heap σ ∧ lerrno τ = ENOMEM) ∨
  (p ≠ NULL ∧ p mod al = 0 ∧ A !! p = None ∧ ainv (<[p := size]> A) (heap τ) ∧
   lerrno τ = lerrno σ).

(** The requests that the allocator can serve. *)
Definition servable σ (size k : Z) : Prop :=
  0 <= size ∧ 0 <= k < 32 ∧ asked size + 2 ^ k + 36 < 4294967296 ∧
  enough (heap σ) (asked size) (2 ^ k).

Lemma malloc_aligned_spec A σ size k :
  ainv A (heap σ) → servable σ size k →
  wp (__malloc_aligned_r size (2 ^ k)) (allocated A σ (asked size) (2 ^ k)) σ.
Proof.
  intros HA (Hs & Hk & Hov & Hen). assert (0 < 2 ^ k) by (apply Z.pow_pos_nonneg; lia).
  assert (0 < asked size) by (unfold asked; destruct (size =? 0) eqn:E; b2p; lia).
  unfold __malloc_aligned_r, wmem_alloc_aligned, SIZE_MAX. fold (asked size). cbv zeta.
  rewrite (proj2 (Z.ltb_ge _ _)) by lia. rewrite (proj2 (Z.eqb_neq _ 0)) by lia.
  wp_step. apply wp_in_heap. eapply wp_mono; [by apply (walloc_ok A)|].
  intros p h [[-> ->]|(Hp & Hal & HAp & Hh)].
  - rewrite Z.eqb_refl. wp_step. unfold set_lerrno. wp_step. wp_step. by left.
  - rewrite (proj2 (Z.eqb_neq p NULL)) by done. wp_step. wp_step. wp_step. right. by split_and!.
Qed.

Lemma malloc_spec A σ size :
  ainv A (heap σ) → servable σ size 4 → wp (malloc size) (allocated A σ (asked size) 16) σ.
Proof. apply malloc_aligned_spec. Qed.

Lemma calloc_spec A σ num es :
  ainv A (heap σ) → 0 <= num < 4294967296 → 0 <= es < 4294967296 → num * es < 4294967296 →
  servable σ (num * es) 4 → wp (calloc num es) (allocated A σ (asked (num * es)) 16) σ.
Proof.
  intros HA Hn He Hov Hs. destruct (calloc_test num es Hn He) as [Ht Htot]. specialize (Htot Hov).
  unfold calloc, __calloc_r. cbv zeta. rewrite Ht, Htot. rewrite (proj2 (Z.leb_gt _ _)) by lia.
  wp_step. eapply wp_mono; [by apply (malloc_spec A)|]. intros p τ [(-> & Hh & He')|Hok].
  - rewrite Z.eqb_refl. wp_step. cbn [negb]. wp_step. wp_step. by left.
  - pose proof Hok as (Hp & Hal & HAp & Hτ & _). rewrite (proj2 (Z.eqb_neq p NULL)) by done.
    wp_step. cbn [negb]. unfold memset. wp_step. wp_step.
    destruct (ainv_accessible _ _ p (asked (num * es)) Hτ (lookup_insert_eq _ _ _)) as [_ Hacc].
    rewrite Hacc by (unfold asked; destruct (num * es =? 0) eqn:E; b2p; lia).
    wp_step. by right.
Qed.

(** ** Correctness *)

(** C10: over any allocator that keeps its promise, the allocation functions refine
    the finite map of allocations in use: [malloc], [calloc] and [memalign] (for a
    power of two) add a new aligned address, or fail with ENOMEM and change
    nothing; [free] removes the allocation, and of NULL does nothing; [realloc]
    replaces it, and of NULL allocates. *)
Theorem malloc_refines A σ :
  ainv A (heap σ) →
  (∀ size, servable σ size 4 → wp (malloc size) (allocated A σ (asked size) 16) σ) ∧
  (∀ num es, 0 <= num < 4294967296 → 0 <= es < 4294967296 → num * es < 4294967296 →
     servable σ (num * es) 4 → wp (calloc num es) (allocated A σ (asked (num * es)) 16) σ) ∧
  (∀ k size, servable σ size k →
     wp (memalign (2 ^ k) size) (allocated A σ (asked size) (2 ^ k)) σ) ∧
  wp (free NULL) (fun _ τ => τ = σ) σ ∧
  (∀ p n, A !! p = Some n →
     wp (free p) (fun _ τ => ainv (delete p A) (heap τ) ∧ lerrno τ = lerrno σ) σ) ∧
  (∀ p n size, A !! p = Some n → 0 <= size → resizable (heap σ) p (asked size) 16 →
     wp (realloc p size)
        (fun q τ => q ≠ NULL ∧ ainv (<[q := asked size]> (delete p A)) (heap τ) ∧
                    lerrno τ = lerrno σ) σ).
Proof.
  intros HA. split_and!.
  - intros size. by apply malloc_spec.
  - intros num es. by apply calloc_spec.
  - intros k size Hs. pose proof Hs as (_ & Hk & Hov & _).
    assert (0 < 2 ^ k) by (apply Z.pow_pos_nonneg; lia).
    assert (2 ^ k < 4294967296) by (change 4294967296 with (2 ^ 32); apply Z.pow_lt_mono_r; lia).
    unfold memalign. rewrite (proj2 (Z.eqb_neq (2 ^ k) 0)) by lia.
    rewrite (proj2 (power_of_two_test (2 ^ k) ltac:(lia))) by (by exists k). rewrite Z.eqb_refl.
    by apply malloc_aligned_spec.
  - by apply wp_ret.
  - intros p n Hp. destruct (ainv_accessible _ _ _ _ HA Hp) as [Hp0 _].
    unfold free, __free_r, wmem_free. rewrite (proj2 (Z.eqb_neq p NULL)) by done. apply wp_in_heap.
    eapply wp_mono; [by eapply wfree_ok|]. done.
  - intros p n size Hp Hs Hr. destruct (ainv_accessible _ _ _ _ HA Hp) as [Hp0 _].
    assert (0 < asked size) by (unfold asked; destruct (size =? 0) eqn:E; b2p; lia).
    unfold realloc, wmem_realloc, wmem_realloc_aligned. fold (asked size). cbv zeta.
    rewrite (proj2 (Z.eqb_neq p NULL)) by done. rewrite (proj2 (Z.eqb_neq (asked size) 0)) by lia.
    apply wp_in_heap. eapply wp_mono; [by apply (wrealloc_ok A _ p n (asked size) 4)|].
    intros q h [? ?]. done.
Qed.

(** errors.  [calloc] fails with ENOMEM exactly when the product of its
    arguments does not fit in a [size_t] (apart from failures of the allocator);
    [memalign] and [aligned_alloc] fail with EINVAL for an alignment that is not a
    power of two, and [posix_memalign] returns EINVAL for one that is too small and
    stores nothing.  The heap does not change. *)
Theorem malloc_errors σ num es al size :
  0 <= num < 4294967296 → 0 <= es < 4294967296 → 0 < al < 4294967296 →
  (4294967296 <= num * es → calloc num es σ = Ok (NULL, Libc (heap σ) ENOMEM)) ∧
  (num * es < 4294967296 → calloc num es σ =
     (result ← malloc (num * es);
      _ ← (if negb (result =? NULL) then memset result (num * es) else mret tt); mret result) σ) ∧
  ((∀ k, 0 <= k < 32 → al ≠ 2 ^ k) →
     memalign al size σ = Ok (NULL, Libc (heap σ) EINVAL) ∧
     aligned_alloc al size σ = Ok (NULL, Libc (heap σ) EINVAL)) ∧
  (al < 4 → posix_memalign al size σ = Ok ((EINVAL, None), σ)).
Proof.
  intros Hn He Hal. destruct (calloc_test num es Hn He) as [Ht Htot]. split_and!.
  - intros Hov. unfold calloc, __calloc_r. cbv zeta. rewrite Ht. by rewrite (proj2 (Z.leb_le _ _) Hov).
  - intros Hov. unfold calloc, __calloc_r. cbv zeta. rewrite Ht, Htot by done.
    by rewrite (proj2 (Z.leb_gt _ _) Hov).
  - intros Hk. assert (Z.land al (u32 (- al)) ≠ al) as Hl.
    { rewrite power_of_two_test by done. intros (k & Hk' & ->). by eapply Hk. }
    unfold memalign, aligned_alloc. rewrite (proj2 (Z.eqb_neq _ al) Hl).
    by rewrite (proj2 (Z.eqb_neq al 0)) by lia.
  - intros H4. unfold posix_memalign. by rewrite (proj2 (Z.ltb_lt _ _) H4).
Qed.
End Correct.

(** ** The block allocator keeps the promise *)

Section Block.
Context `{E : Exec}.

Definition block_resizable (σ : wstate) (p size al : Z) : Prop :=
  is_jumbo σ p = false ∧ size + al + 36 < 4294967296 ∧ p + size + 15 < 4294967296 ∧
  AllocVec (os_blocks σ) 8388608 ≠ NULL ∧ AllocVec (os_blocks σ) (size + al + 36) ≠ NULL ∧
  valid σ p size = true.

Lemma block_alloc_ok A σ size k :
  winv A σ → 0 < size → 0 <= k < 32 → size + 2 ^ k + 36 < 4294967296 →
  AllocVec (os_blocks σ) 8388608 ≠ NULL →
  wp (wmem_block_alloc size (2 ^ k))
     (fun p τ => (p = NULL ∧ τ = σ) ∨
                 (p ≠ NULL ∧ p mod 2 ^ k = 0 ∧ A !! p = None ∧ winv (<[p := size]> A) τ)) σ.
Proof.
  intros (G & ml & rl & bl & J & L & HW & ->) Hs Hk Hov Hos.
  eapply wp_mono; [by eapply wmem_block_alloc_spec|]. intros p τ [(-> & -> & _)|Hh]; [by left|right].
  destruct (handed_out_winv _ _ _ _ _ Hh) as (? & ? & ? & ?). done.
Qed.

Lemma block_free_ok A σ p n :
  winv A σ → A !! p = Some n → wp (wmem_block_free p) (fun _ τ => winv (delete p A) τ) σ.
Proof.
  intros (G & ml & rl & bl & J & L & HW & ->) Hp.
  apply lookup_fmap_Some in Hp as ([c m] & <- & HLp).
  eapply wp_mono; [by eapply wmem_block_free_spec|].
  intros ? τ (G' & ml' & rl' & bl' & J' & HW'). exists G', ml', rl', bl', J', (delete p L).
  split; [done|]. by rewrite fmap_delete.
Qed.

Lemma block_realloc_ok A σ p n size k :
  winv A σ → A !! p = Some n → 0 < size → 0 <= k < 32 → block_resizable σ p size (2 ^ k) →
  wp (wmem_block_realloc p size (2 ^ k))
     (fun q τ => q ≠ NULL ∧ winv (<[q := size]> (delete p A)) τ) σ.
Proof.
  intros (G & ml & rl & bl & J & L & HW & ->) Hp Hs Hk (Hj & Hov & Hps & Hos1 & Hos2 & Hv).
  apply lookup_fmap_Some in Hp as ([c m] & <- & HLp).
  destruct (live_chunk _ _ _ _ _ _ _ _ _ _ HW HLp) as (Hpre & _ & _ & [Hlc|[HC _]]); cycle 1.
  { unfold is_jumbo in Hj. by rewrite Hpre, HC in Hj. }
  destruct Hlc as (b & h & HG & HC & _). by eapply wmem_block_realloc_spec.
Qed.

Lemma block_accessible A σ p n :
  winv A σ → A !! p = Some n → p ≠ NULL ∧ ∀ m, 0 <= m <= n → valid σ p m = true.
Proof.
  intros Hw Hp. destruct (winv_memory _ _ _ _ Hw Hp) as [? Hv]. split.
  - destruct Hw as (G & ml & rl & bl & J & L & HW & ->).
    destruct (winv_live _ _ _ _ _ _ _ p n HW Hp) as (z & e & ? & ? & He & ?).
    destruct HW as [Hh Hb _]. destruct (extent_range _ _ _ _ _ _ _ Hh Hb _ _ He) as (_ & ? & _).
    unfold NULL. lia.
  - intros m Hm. unfold valid in *. apply WmemLayout.in_blocks_sub with (p - 4) (n + 4); [done|lia..].
Qed.

#[export] Instance block_allocator : wmem_allocator wstate := {|
  walloc := wmem_block_alloc;
  wfree := wmem_block_free;
  wrealloc := wmem_block_realloc;
  ainv := winv;
  enough := fun σ _ _ => AllocVec (os_blocks σ) 8388608 ≠ NULL;
  resizable := block_resizable;
  accessible := valid;
  walloc_ok := block_alloc_ok;
  wfree_ok := block_free_ok;
  wrealloc_ok := block_realloc_ok;
  ainv_accessible := block_accessible
|}.
End Block.

(** ** Witnesses *)

Definition demo_libc : libc wstate := Libc demo2 0.
Definition demo_block : wmem_allocator wstate := @block_allocator bump_exec.

Lemma malloc_refines_witness :
  wp (@malloc wstate demo_block 100) (@allocated wstate demo_block demo_live demo_libc 100 16) demo_libc ∧
  wp (@calloc wstate demo_block 20 5) (@allocated wstate demo_block demo_live demo_libc 100 16) demo_libc ∧
  wp (@free wstate demo_block 65584)
     (fun _ τ => winv (delete 65584 demo_live) (heap τ) ∧ lerrno τ = 0) demo_libc.
Proof.
  destruct (@malloc_refines wstate demo_block demo_live demo_libc demo2_winv)
    as (H1 & H2 & _ & _ & H3 & _).
  assert (@servable wstate demo_block demo_libc 100 4) as Hs.
  { split; [lia|]. split; [lia|]. split; [reflexivity|]. vm_compute. discriminate. }
  split; [exact (H1 100 Hs)|]. split.
  - apply (H2 20 5); [lia|lia|lia|exact Hs].
  - apply (H3 65584 100). reflexivity.
Defined.

Lemma malloc_errors_witness :
  @calloc wstate demo_block 65536 65536 demo_libc = Ok (NULL, Libc (heap demo_libc) ENOMEM).
Proof.
  refine (proj1 (@malloc_errors wstate demo_block demo_libc 65536 65536 24 0 _ _ _) _); lia.
Defined.

(** A size near 2^32 passes the guard of [malloc], which can never be true; the
    sum that the allocator computes wraps, and [malloc] hands out a chunk of 32
    bytes for a request of almost 4 GB. *)
Theorem malloc_huge :
  match @malloc wstate demo_block 4294967280 (Libc wmem_block_allocator_init 0) with
  | Ok (p, τ) => p ≠ NULL ∧ lerrno τ = 0 ∧
      ∃ c h, pre_chunk (heap τ) !! (p - 4) = Some c ∧ chunks (heap τ) !! c = Some h ∧ c_len h = 32
  | _ => False
  end.
Proof.
  vm_compute. split; [discriminate|]. split; [reflexivity|].
  exists 65552, (Chunk 0 false true false 32). auto.
Qed.
