(* ===== verification/HashMap.v ===== *)
(** * The hash map

    misc/map.c: an open addressed hash map with Robin Hood hashing, which the
    library uses for the children of a process, Unix sockets and System V ids.
    A map is a struct with an array of buckets; both live in a heap, because a
    resize works on two maps at once.  The elements are the client's: their type
    is a parameter, and the hash and comparison functions are fields of the
    struct, as in the code.  [AllocVecTags] of exec is the class [AllocVec].

    This file has the operations, and the theory of the tables of Robin Hood
    hashing, on lists of buckets; HashMapOps.v has the theorems on the operations. *)

From stdpp Require Import base numbers gmap list.
From S2P Require Import Prelude CMem.
Open Scope Z_scope.
#[local] Set Warnings "-clear-no-such-hyp".

Section Model.
Context {item : Type} `{!Inhabited item}.

(** The bit fields [hash] (48 bits) and [dib] (16 bits), and the element that
    follows them in memory. *)
Record bucket := Bucket { b_hash : Z; dib : Z; b_item : item }.

(** The memory behind [spare]: a copy of a bucket, or of an element only. *)
Inductive scratch := SBucket (b : bucket) | SItem (x : item).

(** [elfree]: whether the client passed a function that frees elements; its calls
    are recorded in the state.  [spare] and [edata] point to memory behind the
    struct; the fields stand for that memory. *)
Record hashmap := HashMap {
  elsize : Z; cap : Z; seed0 : Z; seed1 : Z;
  hash : item → Z → Z → Z; compare : option (item → item → Z → Z);
  elfree : bool; udata : Z; bucketsz : Z;
  nbuckets : Z; count : Z; mask : Z; growat : Z; shrinkat : Z; growpower : Z;
  oom : bool; buckets : Z; spare : scratch; edata : bucket
}.

Record hstate := HState {
  maps : gmap Z hashmap;
  arrays : gmap Z (list bucket);
  elfreed : list item
}.

(** Where [AllocVecTags] places a request of this size, or NULL. *)
Class AllocVec := {
  vec_addr : hstate → Z → Z;
  vec_fresh : ∀ σ size, vec_addr σ size ≠ NULL →
    maps σ !! vec_addr σ size = None ∧ arrays σ !! vec_addr σ size = None
}.

(** ** Access to the heap *)

Definition set_maps (f : gmap Z hashmap → gmap Z hashmap) (σ : hstate) : hstate :=
  HState (f (maps σ)) (arrays σ) (elfreed σ).
Definition set_arrays (f : gmap Z (list bucket) → gmap Z (list bucket)) (σ : hstate) : hstate :=
  HState (maps σ) (f (arrays σ)) (elfreed σ).

Definition get_map (p : Z) : M hstate hashmap :=
  fun σ => match maps σ !! p with Some m => Ok (m, σ) | None => Fault end.
Definition put_map (p : Z) (m : hashmap) : M hstate unit := modify (set_maps <[p := m]>).
Definition get_array (a : Z) : M hstate (list bucket) :=
  fun σ => match arrays σ !! a with Some l => Ok (l, σ) | None => Fault end.
Definition load_bucket (a i : Z) : M hstate bucket :=
  l ← get_array a;
  match l !! Z.to_nat i with Some b => mret b | None => fault end.
Definition store_bucket (a i : Z) (b : bucket) : M hstate unit :=
  l ← get_array a;
  match l !! Z.to_nat i with
  | Some _ => modify (set_arrays <[a := <[Z.to_nat i := b]> l]>)
  | None => fault
  end.
Definition FreeMap (p : Z) : M hstate unit :=
  _ ← get_map p; modify (set_maps (delete p)).
Definition FreeArray (a : Z) : M hstate unit :=
  _ ← get_array a; modify (set_arrays (delete a)).

Definition with_dib (d : Z) (b : bucket) : bucket := Bucket (b_hash b) d (b_item b).
Definition with_item (x : item) (b : bucket) : bucket := Bucket (b_hash b) (dib b) x.
Definition zero_bucket : bucket := Bucket 0 0 inhabitant.

(** Assignments to fields of the struct. *)
Definition set_count (v : Z) (m : hashmap) : hashmap :=
  HashMap (elsize m) (cap m) (seed0 m) (seed1 m) (hash m) (compare m) (elfree m) (udata m)
    (bucketsz m) (nbuckets m) v (mask m) (growat m) (shrinkat m) (growpower m) (oom m)
    (buckets m) (spare m) (edata m).
Definition set_growpower (v : Z) (m : hashmap) : hashmap :=
  HashMap (elsize m) (cap m) (seed0 m) (seed1 m) (hash m) (compare m) (elfree m) (udata m)
    (bucketsz m) (nbuckets m) (count m) (mask m) (growat m) (shrinkat m) v (oom m)
    (buckets m) (spare m) (edata m).
Definition set_oom (v : bool) (m : hashmap) : hashmap :=
  HashMap (elsize m) (cap m) (seed0 m) (seed1 m) (hash m) (compare m) (elfree m) (udata m)
    (bucketsz m) (nbuckets m) (count m) (mask m) (growat m) (shrinkat m) (growpower m) v
    (buckets m) (spare m) (edata m).
Definition set_spare (v : scratch) (m : hashmap) : hashmap :=
  HashMap (elsize m) (cap m) (seed0 m) (seed1 m) (hash m) (compare m) (elfree m) (udata m)
    (bucketsz m) (nbuckets m) (count m) (mask m) (growat m) (shrinkat m) (growpower m) (oom m)
    (buckets m) v (edata m).
Definition set_edata (v : bucket) (m : hashmap) : hashmap :=
  HashMap (elsize m) (cap m) (seed0 m) (seed1 m) (hash m) (compare m) (elfree m) (udata m)
    (bucketsz m) (nbuckets m) (count m) (mask m) (growat m) (shrinkat m) (growpower m) (oom m)
    (buckets m) (spare m) v.
(** The fields that describe the array. *)
Definition set_array (c a n ma g s : Z) (m : hashmap) : hashmap :=
  HashMap (elsize m) c (seed0 m) (seed1 m) (hash m) (compare m) (elfree m) (udata m)
    (bucketsz m) n (count m) ma g s (growpower m) (oom m) a (spare m) (edata m).

Definition update (p : Z) (f : hashmap → hashmap) : M hstate unit :=
  m ← get_map p; put_map p (f m).

Definition bucket_at (p i : Z) : M hstate bucket :=
  m ← get_map p; load_bucket (buckets m) i.
Definition put_bucket (p i : Z) (b : bucket) : M hstate unit :=
  m ← get_map p; store_bucket (buckets m) i b.

(** ** Hashes and sizes *)

Definition clip_hash (h : Z) : Z := Z.land h 0xFFFFFFFFFFFF.
Definition get_hash (m : hashmap) (k : item) : Z := clip_hash (hash m k (seed0 m) (seed1 m)).

(** [!map->compare || map->compare(a, b, map->udata) == 0] *)
Definition same_item (m : hashmap) (a b : item) : bool :=
  match compare m with None => true | Some f => f a b (udata m) =? 0 end.

(** [n * 0.60], [n * 0.10] and [n * 0.75], converted to [size_t].  The first two
    constants are the nearest numbers of type [double]; the products are exact
    because [n] is a power of two. *)
Definition GROW_AT (n : Z) : Z := n * 5404319552844595 / 2 ^ 53.
Definition SHRINK_AT (n : Z) : Z := n * 7205759403792794 / 2 ^ 56.
Definition grow_075 (n : Z) : Z := n * 3 / 4.

Definition sizeof_bucket : Z := 8.
Definition sizeof_hashmap : Z := 80.
Definition sizeof_uintptr_t : Z := 4.

Definition hashmap_set_grow_by_power (p power : Z) : M hstate unit :=
  update p (set_growpower (if power <? 1 then 1 else if 16 <? power then 16 else power)).

(** ** Creating maps *)

Section Alloc.
Context `{!AllocVec}.

(** A cleared array of buckets of [bsz] bytes in an allocation of [size] bytes. *)
Definition alloc_array (bsz size : Z) (b : bucket) : M hstate Z :=
  σ ← get;
  let a := vec_addr σ size in
  if a =? NULL then mret NULL
  else _ ← modify (set_arrays <[a := replicate (Z.to_nat (size / bsz)) b]>); mret a.

Definition hashmap_new_with_allocator (elsize cap seed0 seed1 : Z) (hash : item → Z → Z → Z)
    (compare : option (item → item → Z → Z)) (elfree : bool) (udata : Z) : M hstate Z :=
  let ncap := 16 in
  cap ← (if cap <? ncap then mret ncap
         else loop (fun ncap => if ncap <? cap then continue (u32 (ncap * 2)) else break ncap) ncap);
  bucketsz ← loop (fun bucketsz =>
                     if negb (Z.land bucketsz (sizeof_uintptr_t - 1) =? 0)
                     then continue (u32 (bucketsz + 1)) else break bucketsz)
                  (u32 (sizeof_bucket + elsize));
  let size := u32 (sizeof_hashmap + bucketsz * 2) in
  σ ← get;
  let map := vec_addr σ size in
  if map =? NULL then mret NULL
  else
    _ ← put_map map (HashMap elsize cap seed0 seed1 hash compare elfree udata bucketsz cap 0
                       (u32 (cap - 1)) 0 0 0 false NULL (SBucket zero_bucket) zero_bucket);
    a ← alloc_array bucketsz (u32 (bucketsz * cap)) zero_bucket;
    if a =? NULL then _ ← FreeMap map; mret NULL
    else
      _ ← update map (fun m => set_growpower 1 (set_array cap a cap (mask m) (GROW_AT cap) (SHRINK_AT cap) m));
      mret map.

Definition hashmap_new := hashmap_new_with_allocator.

Definition free_elements (map : Z) : M hstate unit :=
  m ← get_map map;
  if elfree m then
    loop (fun i =>
            m ← get_map map;
            if i <? nbuckets m then
              b ← bucket_at map i;
              _ ← (if negb (dib b =? 0)
                   then modify (fun σ => HState (maps σ) (arrays σ) (elfreed σ ++ [b_item b]))
                   else mret tt);
              continue (i + 1)
            else break tt) 0
  else mret tt.

(** [ClearMem] of the first [n] buckets. *)
Definition clear_buckets (a n : Z) : M hstate unit :=
  l ← get_array a;
  if n <=? lenZ l
  then modify (set_arrays <[a := replicate (Z.to_nat n) zero_bucket ++ drop (Z.to_nat n) l]>)
  else fault.

(** [junk]: what memory that is not cleared holds. *)
Definition hashmap_clear (junk : bucket) (map : Z) (update_cap : bool) : M hstate unit :=
  _ ← update map (set_count 0);
  _ ← free_elements map;
  m ← get_map map;
  _ ← (if update_cap
       then put_map map (set_array (nbuckets m) (buckets m) (nbuckets m) (mask m) (growat m) (shrinkat m) m)
       else if negb (nbuckets m =? cap m) then
         a ← alloc_array (bucketsz m) (u32 (bucketsz m * cap m)) junk;
         _ ← (if negb (a =? NULL) then
                _ ← FreeArray (buckets m);
                put_map map (set_array (cap m) a (nbuckets m) (mask m) (growat m) (shrinkat m) m)
              else mret tt);
         update map (fun m => set_array (cap m) (buckets m) (cap m) (mask m) (growat m) (shrinkat m) m)
       else mret tt);
  m ← get_map map;
  _ ← clear_buckets (buckets m) (nbuckets m);
  update map (fun m => set_array (cap m) (buckets m) (nbuckets m) (u32 (nbuckets m - 1))
                         (grow_075 (nbuckets m)) (SHRINK_AT (nbuckets m)) m).

(** The new position of the element at [i] of the old array [map]; [entry] is the
    bucket at [i] itself and is written to as elements are displaced. *)
Definition resize_place (map map2 i j : Z) : M hstate unit :=
  loop (fun j =>
          entry ← bucket_at map i;
          bucket ← bucket_at map2 j;
          if dib bucket =? 0 then _ ← put_bucket map2 j entry; break tt
          else
            _ ← (if dib bucket <? dib entry then
                   _ ← update map2 (set_spare (SBucket bucket));
                   _ ← put_bucket map2 j entry;
                   put_bucket map i bucket
                 else mret tt);
            m2 ← get_map map2;
            entry ← bucket_at map i;
            _ ← put_bucket map i (with_dib (u16 (dib entry + 1)) entry);
            continue (Z.land (u32 (j + 1)) (mask m2))) j.

Definition resize0 (map new_cap : Z) : M hstate bool :=
  m ← get_map map;
  map2 ← hashmap_new_with_allocator (elsize m) new_cap (seed0 m) (seed1 m) (hash m)
           (compare m) (elfree m) (udata m);
  if map2 =? NULL then mret false
  else
    _ ← loop (fun i =>
                m ← get_map map;
                if i <? nbuckets m then
                  entry ← bucket_at map i;
                  if dib entry =? 0 then continue (i + 1)
                  else
                    _ ← put_bucket map i (with_dib 1 entry);
                    m2 ← get_map map2;
                    _ ← resize_place map map2 i (Z.land (b_hash entry) (mask m2));
                    continue (i + 1)
                else break tt) 0;
    m ← get_map map;
    _ ← FreeArray (buckets m);
    m2 ← get_map map2;
    _ ← update map (fun m => set_array (cap m) (buckets m2) (nbuckets m2) (mask m2) (growat m2) (shrinkat m2) m);
    _ ← FreeMap map2;
    mret true.

Definition resize := resize0.

(** ** Finding, inserting, deleting

    A result is a pointer to an element: to [spare], into the array, or NULL. *)

Inductive ref := RNull | RSpare | RBucket (i : Z).

(** The loop of [hashmap_set_with_hash], with [entry] in [edata]. *)
Definition set_loop (map i : Z) : M hstate ref :=
  loop (fun i =>
          m ← get_map map;
          let entry := edata m in
          bucket ← bucket_at map i;
          if dib bucket =? 0 then
            _ ← put_bucket map i entry;
            _ ← update map (set_count (u32 (count m + 1)));
            break RNull
          else if (b_hash entry =? b_hash bucket) && same_item m (b_item entry) (b_item bucket) then
            _ ← update map (set_spare (SItem (b_item bucket)));
            _ ← put_bucket map i (with_item (b_item entry) bucket);
            break RSpare
          else
            _ ← (if dib bucket <? dib entry then
                   _ ← update map (set_spare (SBucket bucket));
                   _ ← put_bucket map i entry;
                   update map (set_edata bucket)
                 else mret tt);
            m ← get_map map;
            _ ← update map (set_edata (with_dib (u16 (dib (edata m) + 1)) (edata m)));
            continue (Z.land (u32 (i + 1)) (mask m))) i.

Definition hashmap_set_with_hash (map : Z) (x : item) (hash : Z) : M hstate ref :=
  let hash := clip_hash hash in
  _ ← update map (set_oom false);
  m ← get_map map;
  r ← (if count m =? growat m
       then resize map (u32 (nbuckets m * u32 (2 ^ growpower m))) else mret true);
  if negb r then _ ← update map (set_oom true); mret RNull
  else
    _ ← update map (set_edata (Bucket hash 1 x));
    m ← get_map map;
    set_loop map (Z.land hash (mask m)).

Definition hashmap_set (map : Z) (x : item) : M hstate ref :=
  m ← get_map map; hashmap_set_with_hash map x (get_hash m x).

Definition hashmap_get_with_hash (map : Z) (k : item) (hash : Z) : M hstate ref :=
  let hash := clip_hash hash in
  m ← get_map map;
  loop (fun i =>
          bucket ← bucket_at map i;
          if dib bucket =? 0 then break RNull
          else if (b_hash bucket =? hash) && same_item m k (b_item bucket) then break (RBucket i)
          else continue (Z.land (u32 (i + 1)) (mask m))) (Z.land hash (mask m)).

Definition hashmap_get (map : Z) (k : item) : M hstate ref :=
  m ← get_map map; hashmap_get_with_hash map k (get_hash m k).

Definition hashmap_probe (map position : Z) : M hstate ref :=
  m ← get_map map;
  let i := Z.land position (mask m) in
  bucket ← bucket_at map i;
  if dib bucket =? 0 then mret RNull else mret (RBucket i).

(** The elements behind the deleted one move back by one bucket. *)
Definition shift_back (map i : Z) : M hstate unit :=
  loop (fun i =>
          let prev := i in
          m ← get_map map;
          let i := Z.land (u32 (i + 1)) (mask m) in
          bucket ← bucket_at map i;
          if dib bucket <=? 1 then
            p ← bucket_at map prev; _ ← put_bucket map prev (with_dib 0 p); break tt
          else
            _ ← put_bucket map prev bucket;
            p ← bucket_at map prev; _ ← put_bucket map prev (with_dib (u16 (dib p - 1)) p);
            continue i) i.

Definition hashmap_delete_with_hash (map : Z) (k : item) (hash : Z) : M hstate ref :=
  let hash := clip_hash hash in
  _ ← update map (set_oom false);
  m ← get_map map;
  loop (fun i =>
          bucket ← bucket_at map i;
          if dib bucket =? 0 then break RNull
          else if (b_hash bucket =? hash) && same_item m k (b_item bucket) then
            _ ← update map (set_spare (SItem (b_item bucket)));
            _ ← put_bucket map i (with_dib 0 bucket);
            _ ← shift_back map i;
            _ ← update map (fun m => set_count (u32 (count m - 1)) m);
            m ← get_map map;
            _ ← (if (cap m <? nbuckets m) && (count m <=? shrinkat m)
                 then resize map (nbuckets m / 2) else mret true);
            break RSpare
          else continue (Z.land (u32 (i + 1)) (mask m))) (Z.land hash (mask m)).

Definition hashmap_delete (map : Z) (k : item) : M hstate ref :=
  m ← get_map map; hashmap_delete_with_hash map k (get_hash m k).

Definition hashmap_count (map : Z) : M hstate Z := m ← get_map map; mret (count m).
Definition hashmap_oom (map : Z) : M hstate bool := m ← get_map map; mret (oom m).

Definition hashmap_free (map : Z) : M hstate unit :=
  if map =? NULL then mret tt
  else
    _ ← free_elements map;
    m ← get_map map;
    _ ← FreeArray (buckets m);
    FreeMap map.

(** ** Iterating *)

Definition hashmap_scan (map : Z) (iter : item → bool) : M hstate bool :=
  loop (fun i =>
          m ← get_map map;
          if i <? nbuckets m then
            bucket ← bucket_at map i;
            if negb (dib bucket =? 0) && negb (iter (b_item bucket)) then break false
            else continue (i + 1)
          else break true) 0.

Definition hashmap_scan_item {A} (map : Z) (iter : item → option A) : M hstate (option A) :=
  loop (fun i =>
          m ← get_map map;
          if i <? nbuckets m then
            bucket ← bucket_at map i;
            if negb (dib bucket =? 0)
            then match iter (b_item bucket) with Some x => break (Some x) | None => continue (i + 1) end
            else continue (i + 1)
          else break None) 0.

(** The cursor is passed and returned. *)
Definition hashmap_iter (map i : Z) : M hstate (bool * Z * ref) :=
  loop (fun i =>
          m ← get_map map;
          if nbuckets m <=? i then break (false, i, RNull)
          else
            bucket ← bucket_at map i;
            let i := i + 1 in
            if dib bucket =? 0 then continue i else break (true, i, RBucket (i - 1))) i.
End Alloc.
End Model.
Arguments bucket : clear implicits.
Arguments hashmap : clear implicits.
Arguments hstate : clear implicits.

(** ** Tables

    A table is read as an endless, periodic sequence of slots, which frees the
    reasoning from the wrap-around at its end. *)

Section Tables.
Context {item : Type} `{!Inhabited item}.
Implicit Types (T : list (bucket item)) (b e : bucket item).
#[local] Instance bucket_inhabited : Inhabited (bucket item) := populate zero_bucket.

Definition slot T (i : Z) : bucket item := T !!! Z.to_nat (i mod lenZ T).
Definition ins T (i : Z) (b : bucket item) : list (bucket item) :=
  <[Z.to_nat (i mod lenZ T) := b]> T.
Definition content b : option item := if dib b =? 0 then None else Some (b_item b).
Definition items T : list item := omap content T.

Lemma lenZ_ins T i b : lenZ (ins T i b) = lenZ T.
Proof. unfold lenZ, ins. by rewrite length_insert. Qed.

Lemma slot_index T i : 0 < lenZ T → (Z.to_nat (i mod lenZ T) < length T)%nat.
Proof. unfold lenZ. intros. pose proof (Z.mod_pos_bound i (Z.of_nat (length T))). lia. Qed.

Lemma slot_lookup T i : 0 < lenZ T → T !! Z.to_nat (i mod lenZ T) = Some (slot T i).
Proof. intros. by apply list_lookup_lookup_total_lt, slot_index. Qed.

Lemma slot_mod T i j : i mod lenZ T = j mod lenZ T → slot T i = slot T j.
Proof. unfold slot. by intros ->. Qed.

Lemma slot_ins_eq T i j b : 0 < lenZ T → j mod lenZ T = i mod lenZ T → slot (ins T i b) j = b.
Proof.
  intros H E. unfold slot. rewrite lenZ_ins, E. apply list_lookup_total_insert_eq.
  by apply slot_index.
Qed.

Lemma slot_ins_ne T i j b :
  0 < lenZ T → j mod lenZ T ≠ i mod lenZ T → slot (ins T i b) j = slot T j.
Proof.
  intros H E. unfold slot. rewrite lenZ_ins. apply list_lookup_total_insert_ne.
  pose proof (Z.mod_pos_bound i (lenZ T)). pose proof (Z.mod_pos_bound j (lenZ T)). lia.
Qed.

(** Replacing a bucket exchanges its content for the new one. *)
Lemma items_insert T (i : nat) b b' :
  T !! i = Some b →
  option_list (content b) ++ items (<[i := b']> T) ≡ₚ option_list (content b') ++ items T.
Proof.
  revert i. induction T as [|c T IH]; intros [|i] Hi; simplify_eq/=.
  - destruct (content b), (content b'); cbn; solve_Permutation.
  - specialize (IH i Hi). unfold items in *. cbn. destruct (content c) as [x|]; [|done].
    rewrite <- !Permutation_middle. by rewrite IH.
Qed.

Lemma items_ins T i b :
  0 < lenZ T →
  option_list (content (slot T i)) ++ items (ins T i b) ≡ₚ option_list (content b) ++ items T.
Proof. intros. by apply items_insert, slot_lookup. Qed.

Lemma elem_items T x :
  x ∈ items T ↔ ∃ i, 0 <= i < lenZ T ∧ dib (slot T i) ≠ 0 ∧ b_item (slot T i) = x.
Proof.
  unfold items. rewrite list_elem_of_omap. split.
  - intros (b & [i Hi]%list_elem_of_lookup_1 & Hc). pose proof (lookup_lt_Some _ _ _ Hi).
    exists (Z.of_nat i). unfold slot, lenZ.
    rewrite Z.mod_small, Nat2Z.id, (list_lookup_total_correct _ _ _ Hi) by lia.
    unfold content in Hc. destruct (dib b =? 0) eqn:E; b2p; [done|]. split_and!; [lia..|congruence].
  - intros (i & Hi & Hd & <-). exists (slot T i). split.
    + eapply list_elem_of_lookup_2. apply slot_lookup. lia.
    + unfold content. by rewrite (proj2 (Z.eqb_neq _ _)).
Qed.

Lemma slot_item T i : 0 < lenZ T → dib (slot T i) ≠ 0 → b_item (slot T i) ∈ items T.
Proof.
  intros H Hd. apply elem_items. exists (i mod lenZ T).
  pose proof (Z.mod_pos_bound i (lenZ T)). rewrite (slot_mod T (i mod lenZ T) i) by (by rewrite Z.mod_mod by lia).
  split_and!; [lia..|done|done].
Qed.

(** Distinct occupied positions are at most as many as the elements. *)
Lemma occupied_le (js : list nat) T :
  NoDup js → (∀ j, j ∈ js → ∃ b, T !! j = Some b ∧ dib b ≠ 0) → (length js <= length (items T))%nat.
Proof.
  intros Hnd. revert T. induction Hnd as [|j js Hj Hnd IH]; intros T Hocc; cbn; [lia|].
  destruct (Hocc j) as (b & Hb & Hd); [set_solver|].
  pose proof (items_insert T j b (with_dib 0 b) Hb) as Hp. unfold content in Hp. cbn in Hp.
  rewrite (proj2 (Z.eqb_neq _ _) Hd) in Hp. cbn in Hp. apply Permutation_length in Hp. cbn in Hp.
  rewrite <- Hp. apply le_n_S, IH. intros j' Hj'. rewrite list_lookup_insert_ne by set_solver.
  apply Hocc. set_solver.
Qed.

Lemma empty_exists T : lenZ (items T) < lenZ T → ∃ i, 0 <= i < lenZ T ∧ dib (slot T i) = 0.
Proof.
  intros H. assert (∃ i b, T !! i = Some b ∧ dib b = 0) as (i & b & Hi & Hd).
  { unfold lenZ, items in H. induction T as [|b T IH]; cbn in H; [lia|]. unfold content in H at 1.
    destruct (dib b =? 0) eqn:E; b2p; [by exists 0%nat, b|].
    cbn in H. destruct IH as (i & c & ? & ?); [lia|]. by exists (S i), c. }
  pose proof (lookup_lt_Some _ _ _ Hi). exists (Z.of_nat i). unfold slot, lenZ.
  rewrite Z.mod_small, Nat2Z.id, (list_lookup_total_correct _ _ _ Hi) by lia. lia.
Qed.

(** ** Robin Hood hashing *)

Lemma mod_next x n : 0 < n → x mod n + 1 < n → (x + 1) mod n = x mod n + 1.
Proof.
  intros Hn H. pose proof (Z.mod_pos_bound x n Hn). rewrite <- Z.add_mod_idemp_l by lia.
  by rewrite Z.mod_small by lia.
Qed.
Lemma mod_prev x n : 0 < n → 1 <= (x + 1) mod n → x mod n = (x + 1) mod n - 1.
Proof.
  intros Hn H. pose proof (Z.mod_pos_bound (x + 1) n Hn).
  replace x with (x + 1 - 1) at 1 by lia. rewrite <- Zminus_mod_idemp_l.
  by rewrite Z.mod_small by lia.
Qed.
Lemma mod_apart i j n : 0 < i - j < n → i mod n ≠ j mod n.
Proof.
  intros H E. assert ((i - j) mod n = 0) as H0.
  { rewrite Zminus_mod, E, Z.sub_diag. by apply Z.mod_0_l; lia. }
  rewrite Z.mod_small in H0; lia.
Qed.
Lemma mod_add i j n d : 0 < n → i mod n = j mod n → (i + d) mod n = (j + d) mod n.
Proof. intros Hn E. rewrite <- (Z.add_mod_idemp_l i), <- (Z.add_mod_idemp_l j), E by lia. done. Qed.
Lemma mod_add_inv i j n d : 0 < n → (i + d) mod n = (j + d) mod n → i mod n = j mod n.
Proof.
  intros Hn E. apply (mod_add _ _ _ (- d) Hn) in E.
  by rewrite !Z.add_opp_r, !Z.add_simpl_r in E.
Qed.

Context {K : Type} (key : item → K) (H : K → Z).
#[local] Abbreviation n T := (lenZ T).

(** Every element is as far from the slot of its hash as [dib] says, and no
    further from it than its left neighbour is from its own, plus one. *)
Record table_ok T : Prop := {
  tab_len : 3 < n T;
  tab_dib : ∀ i, 0 <= dib (slot T i);
  tab_home : ∀ i, dib (slot T i) ≠ 0 →
    dib (slot T i) = 1 + (i - b_hash (slot T i)) mod n T ∧
    b_hash (slot T i) = H (key (b_item (slot T i)));
  tab_rich : ∀ i, dib (slot T i) <= dib (slot T (i - 1)) + 1
}.

(** An element [e] on its way to a slot, at [i]. *)
Record carried T e (i : Z) : Prop := {
  car_dib : dib e = 1 + (i - b_hash e) mod n T;
  car_hash : b_hash e = H (key (b_item e));
  car_rich : dib e <= dib (slot T (i - 1)) + 1
}.

Lemma slot_chain T i t : table_ok T → 0 <= t → dib (slot T i) - t <= dib (slot T (i - t)).
Proof.
  intros HT. revert t. apply natlike_ind; [by rewrite !Z.sub_0_r|].
  intros t Ht IH. pose proof (tab_rich _ HT (i - t)). replace (i - Z.succ t) with (i - t - 1) by lia. lia.
Qed.

(** An element is no further from its home than there are elements. *)
Lemma dib_le_items T i : table_ok T → dib (slot T i) <= lenZ (items T).
Proof.
  intros HT. pose proof (tab_len _ HT) as Hn. pose proof (tab_dib _ HT i) as Hd.
  destruct (decide (dib (slot T i) = 0)) as [E|E]; [rewrite E; unfold lenZ; lia|].
  assert (dib (slot T i) <= n T) as Hle.
  { destruct (tab_home _ HT i E) as [-> _]. pose proof (Z.mod_pos_bound (i - b_hash (slot T i)) (n T)). lia. }
  pose (js := (fun t => Z.to_nat ((i - Z.of_nat t) mod n T)) <$> seq 0 (Z.to_nat (dib (slot T i)))).
  assert (length js <= length (items T))%nat as Hl.
  - apply occupied_le.
    + apply NoDup_fmap_2_strong; [|apply NoDup_seq]. intros s t Hs%elem_of_seq Ht%elem_of_seq Est.
      apply Z2Nat.inj in Est; [|apply Z.mod_pos_bound; lia..].
      destruct (decide (s = t)) as [|Hst]; [done|]. exfalso.
      destruct (decide (s < t)%nat); revert Est; [|apply not_eq_sym]; apply mod_apart; lia.
    + intros j (t & -> & Ht%elem_of_seq)%list_elem_of_fmap. exists (slot T (i - Z.of_nat t)).
      rewrite slot_lookup by lia. split; [done|].
      pose proof (slot_chain T i (Z.of_nat t) HT). lia.
  - unfold js in Hl. rewrite length_fmap, length_seq in Hl. unfold lenZ. lia.
Qed.

(** The element of a key, if there is one, comes before the first empty slot of
    the search. *)
Lemma probe_end T k t :
  table_ok T → 0 <= t → dib (slot T (H k + t)) < t + 1 →
  (∀ s, 0 <= s < t → dib (slot T (H k + s)) ≠ 0 → key (b_item (slot T (H k + s))) ≠ k) →
  (dib (slot T (H k + t)) ≠ 0 → key (b_item (slot T (H k + t))) ≠ k) →
  ∀ x, x ∈ items T → key x ≠ k.
Proof.
  intros HT Ht Hlow Hseen Hhere x Hx Hk. pose proof (tab_len _ HT).
  apply elem_items in Hx as (i & Hi & Hd & Hitem). destruct (tab_home _ HT i Hd) as [E1 E2].
  rewrite Hitem, Hk in E2. rewrite E2 in E1. set (s := (i - H k) mod n T) in *.
  assert (slot T (H k + s) = slot T i) as Es.
  { apply slot_mod. unfold s. rewrite Z.add_mod_idemp_r by lia. f_equal. lia. }
  assert (0 <= s) by (apply Z.mod_pos_bound; lia).
  destruct (Z_lt_le_dec s t); [|destruct (decide (s = t)) as [<-|]].
  - apply (Hseen s); rewrite ?Es; [lia|done|congruence].
  - apply Hhere; rewrite ?Es; [done|congruence].
  - pose proof (slot_chain T (H k + s) (s - t) HT) as Hc. rewrite Es in Hc.
    replace (H k + s - (s - t)) with (H k + t) in Hc by lia. lia.
Qed.

(** Taking the slot of an element that is closer to its home. *)
Lemma place_ok T e i :
  table_ok T → carried T e i → dib (slot T i) < dib e → table_ok (ins T i e).
Proof.
  intros HT [Hd Hh Hr] Hlt. destruct (HT) as [Hn Hpos Hhome Hrich].
  assert (1 <= dib e) as H1 by (rewrite Hd; pose proof (Z.mod_pos_bound (i - b_hash e) (n T)); lia).
  assert (∀ j, j mod n T = i mod n T → slot (ins T i e) j = e) as Heq by (intros; apply slot_ins_eq; lia).
  assert (∀ j, j mod n T ≠ i mod n T → slot (ins T i e) j = slot T j) as Hne by (intros; apply slot_ins_ne; lia).
  split; rewrite ?lenZ_ins; [done|intros j; destruct (decide (j mod n T = i mod n T)) as [E|E]..].
  - rewrite Heq by done. lia.
  - by rewrite Hne.
  - rewrite Heq by done. intros _. split; [|done]. rewrite Hd.
    rewrite <- (Zminus_mod_idemp_l j), E, Zminus_mod_idemp_l. done.
  - rewrite Hne by done. apply Hhome.
  - rewrite Heq by done. rewrite Hne.
    + rewrite (slot_mod T (j - 1) (i - 1)); [lia|]. apply (mod_add _ _ _ (-1)); [lia|done].
    + rewrite <- E. apply not_eq_sym, mod_apart. lia.
  - rewrite Hne by done. destruct (decide ((j - 1) mod n T = i mod n T)) as [E'|E'].
    + rewrite Heq by done. specialize (Hrich j). rewrite (slot_mod T (j - 1) i) in Hrich by done. lia.
    + by rewrite Hne.
Qed.

Lemma place_carry T e i :
  table_ok T → carried T e i → dib (slot T i) ≠ 0 → dib (slot T i) < dib e → dib e <= n T →
  carried (ins T i e) (with_dib (dib (slot T i) + 1) (slot T i)) (i + 1).
Proof.
  intros HT [Hd Hh Hr] H0 Hlt Hle. pose proof (tab_len _ HT). pose proof (tab_dib _ HT i).
  destruct (tab_home _ HT i H0) as [E1 E2]. split; cbn; rewrite ?lenZ_ins; [|done|].
  - replace (i + 1 - b_hash (slot T i)) with (i - b_hash (slot T i) + 1) by lia. rewrite mod_next; lia.
  - rewrite slot_ins_eq; [lia|lia|by rewrite Z.add_simpl_r].
Qed.

Lemma pass_carry T e i :
  table_ok T → carried T e i → dib e <= dib (slot T i) → dib e < n T →
  carried T (with_dib (dib e + 1) e) (i + 1).
Proof.
  intros HT [Hd Hh Hr] Hle Hlt. pose proof (tab_len _ HT). split; cbn; [|done|].
  - replace (i + 1 - b_hash e) with (i - b_hash e + 1) by lia. rewrite mod_next; lia.
  - rewrite Z.add_simpl_r. lia.
Qed.

(** ** Deleting: a table with a hole at [p]

    [D] is the [dib] of the element that was at [p]. *)
Record holed T (p D : Z) : Prop := {
  hol_len : 3 < n T;
  hol_dib : ∀ i, i mod n T ≠ p mod n T → 0 <= dib (slot T i);
  hol_home : ∀ i, i mod n T ≠ p mod n T → dib (slot T i) ≠ 0 →
    dib (slot T i) = 1 + (i - b_hash (slot T i)) mod n T ∧
    b_hash (slot T i) = H (key (b_item (slot T i)));
  hol_rich : ∀ i, i mod n T ≠ p mod n T → (i - 1) mod n T ≠ p mod n T →
    dib (slot T i) <= dib (slot T (i - 1)) + 1;
  hol_next : dib (slot T (p + 1)) <= D + 1;
  hol_prev : D <= dib (slot T (p - 1)) + 1
}.

Lemma hole_start T p b :
  table_ok T → holed (ins T p b) p (dib (slot T p)).
Proof.
  intros [Hn Hd Hh Hr]. assert (∀ j, j mod n T ≠ p mod n T → slot (ins T p b) j = slot T j) as Hne
    by (intros; apply slot_ins_ne; lia).
  split; rewrite ?lenZ_ins; [done|..].
  - intros i Hi. rewrite Hne; auto.
  - intros i Hi. rewrite Hne; auto.
  - intros i Hi Hi'. rewrite !Hne; auto.
  - rewrite Hne by (apply mod_apart; lia). specialize (Hr (p + 1)). by rewrite Z.add_simpl_r in Hr.
  - rewrite Hne by (apply not_eq_sym, mod_apart; lia). apply Hr.
Qed.

Lemma hole_step T p D :
  holed T p D → 2 <= dib (slot T (p + 1)) →
  holed (ins T p (with_dib (dib (slot T (p + 1)) - 1) (slot T (p + 1)))) (p + 1) (dib (slot T (p + 1))).
Proof.
  intros [Hn Hd Hh Hr Hnx Hpv] H2. set (b := slot T (p + 1)) in *.
  set (b' := with_dib (dib b - 1) b).
  assert (∀ j, j mod n T = p mod n T → slot (ins T p b') j = b') as Heq by (intros; apply slot_ins_eq; lia).
  assert (∀ j, j mod n T ≠ p mod n T → slot (ins T p b') j = slot T j) as Hne by (intros; apply slot_ins_ne; lia).
  destruct (Hh (p + 1)) as [E1 E2]; [apply mod_apart; lia|fold b; lia|]. fold b in E1, E2.
  replace (p + 1 - b_hash b) with (p - b_hash b + 1) in E1 by lia.
  assert (dib b - 1 = 1 + (p - b_hash b) mod n T) as E3 by (rewrite mod_prev; lia).
  split; rewrite ?lenZ_ins; [done|..].
  - intros i Hi. destruct (decide (i mod n T = p mod n T)) as [E|E]; [rewrite Heq by done; cbn; lia|].
    rewrite Hne by done. by apply Hd.
  - intros i Hi. destruct (decide (i mod n T = p mod n T)) as [E|E]; [|rewrite Hne by done; by apply Hh].
    rewrite Heq by done. intros _. cbn. split; [|done]. rewrite E3.
    rewrite <- (Zminus_mod_idemp_l i), E, Zminus_mod_idemp_l. done.
  - intros i Hi Hi'. destruct (decide (i mod n T = p mod n T)) as [E|E].
    + rewrite Heq by done. rewrite Hne.
      * rewrite (slot_mod T (i - 1) (p - 1)); [cbn; lia|]. apply (mod_add _ _ _ (-1)); [lia|done].
      * rewrite <- E. apply not_eq_sym, mod_apart. lia.
    + rewrite !(Hne i) by done. rewrite Hne; [apply Hr; [done|]|].
      all: intros E'; apply Hi; apply (mod_add _ _ _ 1) in E'; [|lia]; by rewrite Z.sub_add in E'.
  - rewrite Hne by (apply mod_apart; lia). specialize (Hr (p + 1 + 1)). rewrite Z.add_simpl_r in Hr.
    apply Hr; apply mod_apart; lia.
  - rewrite Heq by (by rewrite Z.add_simpl_r). cbn. lia.
Qed.

Lemma hole_end T p D b :
  holed T p D → dib (slot T (p + 1)) <= 1 → dib b = 0 → table_ok (ins T p b).
Proof.
  intros [Hn Hd Hh Hr Hnx Hpv] H1 Hb.
  assert (∀ j, j mod n T = p mod n T → slot (ins T p b) j = b) as Heq by (intros; apply slot_ins_eq; lia).
  assert (∀ j, j mod n T ≠ p mod n T → slot (ins T p b) j = slot T j) as Hne by (intros; apply slot_ins_ne; lia).
  split; rewrite ?lenZ_ins; [done|intros i; destruct (decide (i mod n T = p mod n T)) as [E|E]..].
  - rewrite Heq by done. lia.
  - rewrite Hne by done. by apply Hd.
  - rewrite Heq by done. done.
  - rewrite Hne by done. by apply Hh.
  - rewrite Heq, Hb by done. rewrite Hne by (rewrite <- E; apply not_eq_sym, mod_apart; lia).
    specialize (Hd (i - 1)). rewrite <- E in Hd. pose proof (Hd ltac:(apply not_eq_sym, mod_apart; lia)). lia.
  - rewrite (Hne i) by done. destruct (decide ((i - 1) mod n T = p mod n T)) as [E'|E'].
    + rewrite Heq, Hb by done. rewrite (slot_mod T i (p + 1)); [lia|].
      apply (mod_add _ _ _ 1) in E'; [|lia]. by rewrite Z.sub_add in E'.
    + rewrite Hne by done. by apply Hr.
Qed.

(** The elements other than the one at [p]. *)
Definition hole_items T p : list item := items (ins T p zero_bucket).

Lemma ins_ins T i b b' : ins (ins T i b) i b' = ins T i b'.
Proof. unfold ins, lenZ. rewrite length_insert. by rewrite list_insert_insert_eq. Qed.

Lemma hole_items_ins T p b : hole_items (ins T p b) p = hole_items T p.
Proof. unfold hole_items. by rewrite ins_ins. Qed.

Lemma hole_items_fill T p b :
  0 < n T → items (ins T p b) ≡ₚ option_list (content b) ++ hole_items T p.
Proof.
  intros Hn. unfold hole_items. rewrite <- (items_ins (ins T p zero_bucket) p b) by (by rewrite lenZ_ins).
  rewrite slot_ins_eq by done. by rewrite ins_ins.
Qed.

Lemma hole_items_start T p :
  0 < n T → items T ≡ₚ option_list (content (slot T p)) ++ hole_items T p.
Proof.
  intros Hn. rewrite <- hole_items_fill by done. unfold ins, slot.
  by rewrite list_insert_id by (by apply slot_lookup).
Qed.

Lemma hole_items_step T p :
  3 < n T → dib (slot T (p + 1)) ≠ 0 → dib (slot T (p + 1)) ≠ 1 →
  hole_items (ins T p (with_dib (dib (slot T (p + 1)) - 1) (slot T (p + 1)))) (p + 1) ≡ₚ hole_items T p.
Proof.
  intros Hn H0 H1. set (b := slot T (p + 1)) in *. set (U := ins T p _).
  assert (n U = n T) as HU by apply lenZ_ins.
  assert (slot U (p + 1) = b) as Hb by (apply slot_ins_ne; [lia|apply mod_apart; lia]).
  pose proof (hole_items_start U (p + 1)) as E1. rewrite Hb in E1.
  pose proof (hole_items_fill T p (with_dib (dib b - 1) b)) as E2. fold U in E2.
  assert (content b = Some (b_item b)) as C1 by (unfold content; by rewrite (proj2 (Z.eqb_neq _ _))).
  assert (content (with_dib (dib b - 1) b) = Some (b_item b)) as C2
    by (unfold content; cbn; by rewrite (proj2 (Z.eqb_neq (dib b - 1) 0)) by lia).
  rewrite C1 in E1. rewrite C2 in E2. cbn in E1, E2. eapply (Permutation_cons_inv (a := b_item b)).
  rewrite <- E1, <- E2 by lia. done.
Qed.
End Tables.
