(* ===== verification/HashMapOps.v ===== *)
(** * The hash map: its operations refine a finite map

    The heap with maps, their invariant [map_rep] and what every operation of
    HashMap.v does to it; a concrete map for the witnesses. *)

From stdpp Require Import base numbers gmap list.
From S2P Require Import Prelude CMem HashMap.
Open Scope Z_scope.
#[local] Set Warnings "-clear-no-such-hyp".

(** ** Maps in the heap *)

Section Heap.
Context {item : Type} `{!Inhabited item}.
Implicit Types (T : list (bucket item)) (m : hashmap item) (σ τ υ : hstate item).

(** The map at [p] has the struct [m] and the table [T]; memory of the array
    behind the table is not used. *)
Record at_map σ (p : Z) m T : Prop := {
  am_map : maps σ !! p = Some m;
  am_array : ∃ R, arrays σ !! buckets m = Some (T ++ R);
  am_len : lenZ T = nbuckets m;
  am_power : ∃ k, 4 <= k < 32 ∧ nbuckets m = 2 ^ k;
  am_mask : mask m = nbuckets m - 1
}.

(** Nothing has changed but the struct at [p] and the array at [a]. *)
Record touched (p a : Z) σ τ : Prop := {
  tc_maps : ∀ q, q ≠ p → maps τ !! q = maps σ !! q;
  tc_arrays : ∀ b, b ≠ a → arrays τ !! b = arrays σ !! b;
  tc_elfreed : elfreed τ = elfreed σ
}.

Lemma touched_refl p a σ : touched p a σ σ.
Proof. done. Qed.
Lemma touched_trans p a σ τ υ : touched p a σ τ → touched p a τ υ → touched p a σ υ.
Proof. intros [A1 A2 A3] [B1 B2 B3]. split; [intros q Hq; by rewrite B1, A1|intros b Hb; by rewrite B2, A2|congruence]. Qed.

Lemma wp_get_map p m Q σ : maps σ !! p = Some m → Q m σ → wp (get_map p) Q σ.
Proof. unfold wp, get_map. by intros ->. Qed.
Lemma wp_get_array a l Q σ : arrays σ !! a = Some l → Q l σ → wp (get_array a) Q σ.
Proof. unfold wp, get_array. by intros ->. Qed.

Lemma wp_update p f m T Q σ :
  at_map σ p m T → buckets (f m) = buckets m → nbuckets (f m) = nbuckets m → mask (f m) = mask m →
  (∀ τ, at_map τ p (f m) T → touched p (buckets m) σ τ → Q tt τ) → wp (update p f) Q σ.
Proof.
  intros [H1 H2 H3 H4 H5] E1 E2 E3 HQ. unfold update. wp_step. eapply wp_get_map; [done|].
  apply wp_modify, HQ.
  - split; cbn; rewrite ?lookup_insert_eq, ?E1, ?E2, ?E3; done.
  - split; cbn; intros; by rewrite ?lookup_insert_ne by done.
Qed.

Section At.
Context {σ : hstate item} {p : Z} {m : hashmap item} {T : list (bucket item)} (HA : at_map σ p m T).

Lemma at_map_pos : 16 <= nbuckets m < 4294967296.
Proof.
  destruct (am_power _ _ _ _ HA) as (k & Hk & ->). split.
  - change 16 with (2 ^ 4). apply Z.pow_le_mono_r; lia.
  - change 4294967296 with (2 ^ 32). apply Z.pow_lt_mono_r; lia.
Qed.

Lemma home_index h : Z.land h (mask m) = h mod nbuckets m.
Proof.
  rewrite (am_mask _ _ _ _ HA). destruct (am_power _ _ _ _ HA) as (k & Hk & ->).
  rewrite <- Z.land_ones by lia. f_equal. rewrite Z.ones_equiv. lia.
Qed.

Lemma next_index i : Z.land (u32 (i mod nbuckets m + 1)) (mask m) = (i + 1) mod nbuckets m.
Proof.
  pose proof at_map_pos. pose proof (Z.mod_pos_bound i (nbuckets m)). rewrite home_index.
  unfold u32. rewrite (Z.mod_small (_ + 1)) by lia. by rewrite Z.add_mod_idemp_l by lia.
Qed.

Lemma at_map_lookup i R :
  (T ++ R) !! Z.to_nat (i mod nbuckets m) = Some (slot T i).
Proof.
  pose proof at_map_pos. pose proof (am_len _ _ _ _ HA) as L. rewrite <- L.
  rewrite lookup_app_l by (apply slot_index; lia). apply slot_lookup. lia.
Qed.

Lemma wp_bucket_at i Q : Q (slot T i) σ → wp (bucket_at p (i mod nbuckets m)) Q σ.
Proof.
  intros HQ. destruct (am_array _ _ _ _ HA) as [R HR]. unfold bucket_at, load_bucket. wp_step.
  eapply wp_get_map; [apply HA|]. wp_step. eapply wp_get_array; [done|].
  rewrite at_map_lookup. by apply wp_ret.
Qed.

Lemma wp_put_bucket i b Q :
  (∀ τ, at_map τ p m (ins T i b) → touched p (buckets m) σ τ → Q tt τ) →
  wp (put_bucket p (i mod nbuckets m) b) Q σ.
Proof.
  intros HQ. destruct (am_array _ _ _ _ HA) as [R HR]. unfold put_bucket, store_bucket. wp_step.
  eapply wp_get_map; [apply HA|]. wp_step. eapply wp_get_array; [done|].
  rewrite at_map_lookup. apply wp_modify. pose proof at_map_pos. destruct (HA) as [H1 H2 H3 H4 H5]. apply HQ.
  - split; [done| |by rewrite lenZ_ins|done|done]. exists R. cbn. rewrite lookup_insert_eq.
    rewrite <- H3. unfold ins. by rewrite insert_app_l by (apply slot_index; lia).
  - split; cbn; intros; by rewrite ?lookup_insert_ne by done.
Qed.
End At.

(** ** Keys *)

Context {K : Type} `{Countable K} (key : item → K) (hk : K → Z).

(** What the functions of the client do: the hash depends on the key, and
    elements with the same hash compare as equal if their keys are equal. *)
Record keyed m : Prop := {
  kd_hash : ∀ x, get_hash m x = hk (key x);
  kd_same : ∀ x y, hk (key x) = hk (key y) → same_item m x y = bool_decide (key x = key y)
}.

Lemma clip_clip h : clip_hash (clip_hash h) = clip_hash h.
Proof. unfold clip_hash. by rewrite <- Z.land_assoc, Z.land_diag. Qed.

Lemma clip_hk m x : keyed m → clip_hash (hk (key x)) = hk (key x).
Proof. intros Hk. rewrite <- (kd_hash _ Hk x). apply clip_clip. Qed.

Lemma slot_match m T i x :
  keyed m → table_ok key hk T → dib (slot T i) ≠ 0 →
  (b_hash (slot T i) =? hk (key x)) && same_item m x (b_item (slot T i)) = bool_decide (key x = key (b_item (slot T i))).
Proof.
  intros Hk HT Hd. destruct (tab_home _ _ _ HT i Hd) as [_ ->].
  destruct (hk (key (b_item (slot T i))) =? hk (key x)) eqn:E; b2p; cbn.
  - by apply kd_same.
  - symmetry. apply bool_decide_eq_false. congruence.
Qed.

(** The search for the key [k] has seen [t] slots. *)
Definition searched T (k : K) (t : Z) : Prop :=
  0 <= t ∧ ∀ s, 0 <= s < t → dib (slot T (hk k + s)) ≠ 0 ∧ key (b_item (slot T (hk k + s))) ≠ k.

Lemma searched_next T k t :
  searched T k t → dib (slot T (hk k + t)) ≠ 0 → key (b_item (slot T (hk k + t))) ≠ k → searched T k (t + 1).
Proof.
  intros [Ht Hs] H1 H2. split; [lia|]. intros s Hs'. destruct (decide (s = t)) as [->|]; [done|]. apply Hs. lia.
Qed.

Lemma searched_end T k t :
  table_ok key hk T → searched T k t → dib (slot T (hk k + t)) = 0 → ∀ x, x ∈ items T → key x ≠ k.
Proof.
  intros HT [Ht Hs] H0. apply (probe_end key hk T k t); try done; [lia|]. intros s Hs' _. by apply Hs.
Qed.

(** The distance to an empty slot bounds the search. *)
Lemma empty_ahead T h :
  table_ok key hk T → lenZ (items T) < lenZ T → ∃ te, 0 <= te < lenZ T ∧ dib (slot T (h + te)) = 0.
Proof.
  intros HT Hlt. destruct (empty_exists T Hlt) as (i & Hi & Hd). exists ((i - h) mod lenZ T).
  split; [apply Z.mod_pos_bound; lia|]. rewrite (slot_mod T _ i); [done|].
  rewrite Z.add_mod_idemp_r by lia. f_equal. lia.
Qed.

Lemma searched_le T k t te :
  searched T k t → dib (slot T (hk k + te)) = 0 → 0 <= te → t <= te.
Proof. intros [Ht Hs] He Hte. destruct (Z_le_gt_dec t te); [done|]. destruct (Hs te); [lia|done]. Qed.

(** The search that [hashmap_get_with_hash] does. *)
Lemma get_spec σ p m T x :
  at_map σ p m T → keyed m → table_ok key hk T → lenZ (items T) < lenZ T →
  wp (hashmap_get_with_hash p x (hk (key x)))
     (fun r τ => τ = σ ∧
        ((r = RNull ∧ ∀ y, y ∈ items T → key y ≠ key x) ∨
         ∃ i, 0 <= i < nbuckets m ∧ r = RBucket i ∧ dib (slot T i) ≠ 0 ∧ key (b_item (slot T i)) = key x)) σ.
Proof.
  intros HA Hk HT Hlt. pose proof (at_map_pos HA). unfold hashmap_get_with_hash. rewrite (clip_hk m) by done.
  wp_step. eapply wp_get_map; [apply HA|]. rewrite (home_index HA).
  destruct (empty_ahead T (hk (key x)) HT Hlt) as (te & Hte & Hemp). rewrite (am_len _ _ _ _ HA) in Hte.
  eapply (wp_loop_ghost _ (fun t i υ => υ = σ ∧ i = (hk (key x) + t) mod nbuckets m ∧ searched T (key x) t)
            _ (fun t => te - t)) with (g := 0).
  - intros t i υ (-> & -> & Hs). wp_step. apply (wp_bucket_at HA).
    apply wp_if; intros E; b2p.
    + wp_step. split; [done|]. left. split; [done|]. by eapply searched_end.
    + rewrite (slot_match m) by done. destruct (bool_decide _) eqn:E'; wp_step.
      * apply bool_decide_eq_true in E'. split; [done|]. right. eexists.
        split; [apply Z.mod_pos_bound; lia|]. split; [done|].
        rewrite <- (am_len _ _ _ _ HA), (slot_mod T _ (hk (key x) + t)) by (by rewrite Z.mod_mod by (rewrite (am_len _ _ _ _ HA); lia)).
        done.
      * apply bool_decide_eq_false in E'. exists (t + 1). rewrite (next_index HA), Z.add_assoc.
        split; [|lia]. split_and!; [done|done|]. by apply searched_next.
  - rewrite Z.add_0_r. split_and!; [done|done|]. split; [done|]. lia.
  - intros t i υ (-> & -> & Hs). pose proof (searched_le T _ _ te Hs Hemp). lia.
  - lia.
Qed.

(** ** Inserting *)

Lemma table_pos T : table_ok key hk T → 0 < lenZ T.
Proof. intros HT. pose proof (tab_len _ _ _ HT). lia. Qed.

Lemma content_occ (b : bucket item) : dib b ≠ 0 → content b = Some (b_item b).
Proof. intros. unfold content. by rewrite (proj2 (Z.eqb_neq _ _)). Qed.
Lemma content_free (b : bucket item) : dib b = 0 → content b = None.
Proof. intros E. unfold content. by rewrite E. Qed.

Lemma carried_range T e i : table_ok key hk T → carried key hk T e i → 1 <= dib e <= lenZ T.
Proof.
  intros HT [-> _ _]. pose proof (Z.mod_pos_bound (i - b_hash e) (lenZ T) (table_pos T HT)). lia.
Qed.

(** What one iteration leaves in the table and in the hand, and that no element
    is lost. *)
Definition advance T e i : list (bucket item) * bucket item :=
  if dib (slot T i) <? dib e then (ins T i e, slot T i) else (T, e).

Lemma advance_ok T e i T' e' :
  table_ok key hk T → carried key hk T e i → dib (slot T i) ≠ 0 → lenZ (items T) < lenZ T →
  advance T e i = (T', e') →
  table_ok key hk T' ∧ carried key hk T' (with_dib (dib e' + 1) e') (i + 1) ∧
  b_item e' :: items T' ≡ₚ b_item e :: items T ∧ dib e' <= lenZ (items T) ∧
  lenZ T' = lenZ T ∧ ∀ j, j mod lenZ T ≠ i mod lenZ T → slot T' j = slot T j.
Proof.
  intros HT Hc Hd Hlt. pose proof (carried_range T e i HT Hc). pose proof (dib_le_items key hk T i HT).
  pose proof (table_pos T HT). unfold advance. destruct (_ <? _) eqn:E; b2p; intros [= <- <-].
  - split_and!; [by apply place_ok|by apply place_carry; try lia| |done|by rewrite lenZ_ins|].
    + pose proof (items_ins T i e ltac:(done)) as Hp. rewrite !content_occ in Hp by lia. done.
    + intros j Hj. by apply slot_ins_ne.
  - split_and!; [done|apply pass_carry; try done; lia|done|lia|done|done].
Qed.

Lemma place_last T e i :
  table_ok key hk T → carried key hk T e i → dib (slot T i) = 0 →
  table_ok key hk (ins T i e) ∧ items (ins T i e) ≡ₚ b_item e :: items T.
Proof.
  intros HT Hc Hd. pose proof (carried_range T e i HT Hc). split; [apply place_ok; try done; lia|].
  pose proof (items_ins T i e (table_pos T HT)) as Hp. by rewrite content_free, content_occ in Hp by lia.
Qed.

(** Replacing an element by one with the same key. *)
Lemma replace_ok T i x :
  table_ok key hk T → dib (slot T i) ≠ 0 → key (b_item (slot T i)) = key x →
  table_ok key hk (ins T i (with_item x (slot T i))) ∧
  ∃ rest, items T ≡ₚ b_item (slot T i) :: rest ∧ items (ins T i (with_item x (slot T i))) ≡ₚ x :: rest.
Proof.
  intros HT Hd Hx. pose proof (table_pos T HT) as Hn. destruct (HT) as [H3 Hpos Hh Hr]. split.
  - set (U := ins T i _). assert (lenZ U = lenZ T) as HU by apply lenZ_ins.
    assert (∀ j, dib (slot U j) = dib (slot T j) ∧ b_hash (slot U j) = b_hash (slot T j) ∧
                 key (b_item (slot U j)) = key (b_item (slot T j))) as Hs.
    { intros j. unfold U. destruct (decide (j mod lenZ T = i mod lenZ T)) as [E|E].
      - rewrite slot_ins_eq, (slot_mod T j i) by done. done.
      - by rewrite slot_ins_ne. }
    split; rewrite ?HU; [done|..].
    + intros j. destruct (Hs j) as (-> & _). auto.
    + intros j. destruct (Hs j) as (-> & -> & ->). auto.
    + intros j. destruct (Hs j) as (-> & _), (Hs (j - 1)) as (-> & _). auto.
  - exists (hole_items T i). split.
    + rewrite (hole_items_start T i Hn) at 1. by rewrite content_occ.
    + rewrite hole_items_fill by done. by rewrite content_occ.
Qed.

(** The map with other scratch memory and another counter. *)
Definition scratched (c : Z) (s : scratch) (e : bucket item) m : hashmap item :=
  set_edata e (set_spare s (set_count c m)).

Lemma keyed_scratched c s e m : keyed m → keyed (scratched c s e m).
Proof. intros []. by split. Qed.

Lemma scratched_id m : m = scratched (count m) (spare m) (edata m) m.
Proof. by destruct m. Qed.

(** The loop of [hashmap_set_with_hash] after [t] iterations: nothing has been
    found and nothing moved yet, or the new element has a place and another one is
    in the hand. *)
Record inserting T x t U e : Prop := {
  in_table : table_ok key hk U;
  in_carry : carried key hk U e (hk (key x) + t);
  in_len : lenZ U = lenZ T;
  in_items : lenZ (items U) = lenZ (items T);
  in_phase : (U = T ∧ b_item e = x ∧ dib e = t + 1 ∧ searched T (key x) t) ∨
             (b_item e :: items U ≡ₚ x :: items T ∧ ∀ y, y ∈ items T → key y ≠ key x)
}.

Lemma inserting_absent T x t U e :
  inserting T x t U e → dib (slot U (hk (key x) + t)) < dib e →
  (dib (slot U (hk (key x) + t)) ≠ 0 → key (b_item (slot U (hk (key x) + t))) ≠ key (b_item e)) →
  ∀ y, y ∈ items T → key y ≠ key x.
Proof.
  intros [HU Hc _ _ [(-> & <- & Ht & [Ht0 Hs])|[_ Hn]]] Hlt Hne; [|done].
  apply (probe_end key hk T _ t); try done; [lia|]. intros s Hs' _. by apply Hs.
Qed.

Lemma inserting_match T x t U e :
  NoDup (key <$> items T) → inserting T x t U e →
  dib (slot U (hk (key x) + t)) ≠ 0 → key (b_item (slot U (hk (key x) + t))) = key (b_item e) →
  U = T ∧ b_item e = x.
Proof.
  intros Hnd [HU Hc _ _ [(-> & <- & _)|[Hp Hn]]] Hd Hk; [done|]. exfalso.
  assert (NoDup (key <$> (b_item e :: items U))) as Hnd'.
  { rewrite Hp. cbn. apply NoDup_cons. split; [|done].
    intros (y & Hy & Hy')%list_elem_of_fmap. by eapply Hn. }
  cbn in Hnd'. apply NoDup_cons in Hnd' as [Hni _]. apply Hni. rewrite <- Hk.
  apply list_elem_of_fmap_2, slot_item; [by apply table_pos|done].
Qed.

Lemma inserting_next T x t U e U' e' :
  lenZ (items T) < lenZ T → inserting T x t U e → dib (slot U (hk (key x) + t)) ≠ 0 →
  key (b_item (slot U (hk (key x) + t))) ≠ key (b_item e) →
  advance U e (hk (key x) + t) = (U', e') →
  inserting T x (t + 1) U' (with_dib (dib e' + 1) e') ∧ dib e' <= lenZ (items T) ∧
  ∀ j, j mod lenZ T ≠ (hk (key x) + t) mod lenZ T → slot U' j = slot U j.
Proof.
  intros Hlt HI Hd Hne E. destruct (HI) as [HU Hc HL HN Hph].
  destruct (advance_ok U e _ U' e' HU Hc Hd ltac:(by rewrite HL, HN) E) as (H1 & H2 & H3 & H4 & H5 & H6).
  rewrite HN in H4. rewrite HL in H6. split; [|done].
  assert (lenZ (items U') = lenZ (items T)) as HN'.
  { rewrite <- HN. apply Permutation_length in H3. cbn in H3. unfold lenZ. lia. }
  split; try done; [by rewrite Z.add_assoc|congruence|]. cbn.
  unfold advance in E. destruct (_ <? _) eqn:Ed; b2p; simplify_eq.
  - right. pose proof (inserting_absent T x t U e HI ltac:(done) ltac:(done)) as Hn. split; [|done].
    rewrite H3. by destruct Hph as [(-> & -> & _)|[Hp _]].
  - destruct Hph as [(-> & Hx & Ht & Hs)|[Hp Hn]]; [left|by right]. split_and!; [done|done|lia|].
    apply searched_next; [done|done|]. by rewrite Hx in Hne.
Qed.

(** The invariant of the loop. *)
Definition set_inv σ p m T x te (t i : Z) υ : Prop :=
  ∃ U s e, at_map υ p (scratched (count m) s e m) U ∧ touched p (buckets m) σ υ ∧
    inserting T x t U e ∧ i = (hk (key x) + t) mod nbuckets m ∧
    0 <= t <= te ∧ te < lenZ T ∧ dib (slot U (hk (key x) + te)) = 0.

Definition set_post σ p m T x (r : ref) τ : Prop :=
  ∃ c s e U, at_map τ p (scratched c s e m) U ∧ touched p (buckets m) σ τ ∧ table_ok key hk U ∧
    ((r = RNull ∧ c = count m + 1 ∧ (∀ y, y ∈ items T → key y ≠ key x) ∧ items U ≡ₚ x :: items T) ∨
     (r = RSpare ∧ c = count m ∧ ∃ y rest, key y = key x ∧ s = SItem y ∧
        items T ≡ₚ y :: rest ∧ items U ≡ₚ x :: rest)).

(** The exchange of the element in the hand with the one in the slot. *)
Lemma set_swap_spec υ p m T s e U i Q :
  at_map υ p (scratched (count m) s e m) U →
  (∀ τ s', at_map τ p (scratched (count m) s' (advance U e i).2 m) (advance U e i).1 →
     touched p (buckets m) υ τ → Q tt τ) →
  wp (if dib (slot U i) <? dib e then
        _ ← update p (set_spare (SBucket (slot U i)));
        _ ← put_bucket p (i mod nbuckets m) e;
        update p (set_edata (slot U i))
      else mret tt) Q υ.
Proof.
  intros HA HQ. unfold advance in HQ. destruct (_ <? _) eqn:E; [|apply wp_ret, (HQ υ s); [done|apply touched_refl]].
  wp_step. eapply wp_update; [done..|]. intros τ1 A1 B1.
  wp_step. apply (wp_put_bucket A1). intros τ2 A2 B2.
  eapply wp_update; [done..|]. intros τ3 A3 B3. eapply HQ; [exact A3|].
  exact (touched_trans _ _ _ _ _ B1 (touched_trans _ _ _ _ _ B2 B3)).
Qed.

Lemma set_loop_spec σ p m T x :
  at_map σ p m T → keyed m → table_ok key hk T → NoDup (key <$> items T) →
  lenZ (items T) < lenZ T → count m = lenZ (items T) → count m < 65535 →
  edata m = Bucket (hk (key x)) 1 x →
  wp (set_loop p (hk (key x) mod nbuckets m)) (set_post σ p m T x) σ.
Proof.
  intros HA Hk HT Hnd Hlt Hc Hlim He. pose proof (at_map_pos HA). pose proof (table_pos T HT) as Hn.
  destruct (empty_ahead T (hk (key x)) HT Hlt) as (te & Hte & Hemp).
  apply (wp_loop_ghost _ (set_inv σ p m T x te) _ (fun t => te - t)) with (g := 0).
  - intros t i υ (U & s & e & AU & BU & HI & -> & Hle & Hlen & Hemp').
    destruct (HI) as [HU Hcar HL HN Hph]. set (j := hk (key x) + t) in *. pose (m1 := scratched (count m) s e m).
    fold m1 in AU. wp_step. eapply wp_get_map; [apply AU|]. cbn zeta. wp_step.
    apply (wp_bucket_at AU). change (edata m1) with e. apply wp_if; intros Ed; b2p.
    + wp_step. apply (wp_put_bucket AU). intros τ1 A1 B1. wp_step. eapply wp_update; [done..|].
      intros τ2 A2 B2. wp_step. destruct (place_last U e j HU Hcar Ed) as [H1 H2].
      eexists _, s, e, (ins U j e). split; [apply A2|]. split; [exact (touched_trans _ _ _ _ _ BU (touched_trans _ _ _ _ _ B1 B2))|].
      split; [done|]. left. pose proof (carried_range U e j HU Hcar).
      pose proof (inserting_absent T x t U e HI ltac:(fold j; lia) ltac:(done)) as Hn'.
      split_and!; [done| |done|].
      * change (count m1) with (count m). apply u32_small. pose proof (lenZ_nonneg (items T)). lia.
      * rewrite H2. by destruct Hph as [(-> & -> & _)|[Hp _]].
    + rewrite Z.eqb_sym, (car_hash _ _ _ _ _ Hcar). rewrite (slot_match m1) by (try apply keyed_scratched; done).
      destruct (bool_decide _) eqn:E; [apply bool_decide_eq_true in E|apply bool_decide_eq_false in E].
      * destruct (inserting_match T x t U e Hnd HI Ed (eq_sym E)) as [-> Hx]. rewrite Hx in E |- *.
        wp_step. eapply wp_update; [done..|]. intros τ1 A1 B1. wp_step. apply (wp_put_bucket A1).
        intros τ2 A2 B2. wp_step. destruct (replace_ok T j x HT Ed (eq_sym E)) as [H1 (rest & H2 & H3)].
        eexists (count m), (SItem (b_item (slot T j))), e, _. split; [apply A2|].
        split; [exact (touched_trans _ _ _ _ _ BU (touched_trans _ _ _ _ _ B1 B2))|]. split; [done|]. right.
        split_and!; [done|done|]. by exists (b_item (slot T j)), rest.
      * wp_step. destruct (advance U e j) as [U' e'] eqn:Eadv. apply (set_swap_spec υ p m T s e U j); [done|].
        rewrite Eadv. cbn [fst snd]. intros τ1 s1 A1 B1. wp_step. eapply wp_get_map; [apply A1|].
        destruct (inserting_next T x t U e U' e' Hlt HI Ed ltac:(done) Eadv) as (H1 & H2 & H3).
        assert (1 <= dib e') as H4.
        { destruct H1 as [HU' [Hd' _ _] _ _ _]. cbn in Hd'. unfold advance in Eadv.
          pose proof (carried_range U e j HU Hcar). pose proof (tab_dib _ _ _ HU j).
          destruct (_ <? _); simplify_eq; lia. }
        wp_step. eapply wp_update; [done..|]. intros τ2 A2 B2. wp_step. exists (t + 1).
        assert (t ≠ te) by (intros ->; done). split; [|lia].
        exists U', s1, (with_dib (dib e' + 1) e'). split; [|split; [|split; [|split; [|split; [|split]]]]].
        -- cbn in A2. replace (dib e' + 1) with (u16 (dib e' + 1)) by (apply Z.mod_small; lia). done.
        -- exact (touched_trans _ _ _ _ _ BU (touched_trans _ _ _ _ _ B1 B2)).
        -- done.
        -- rewrite (next_index A1). cbn. f_equal. lia.
        -- lia.
        -- done.
        -- rewrite H3; [done|]. apply mod_apart. lia.
  - rewrite (scratched_id m) in HA. exists T, (spare m), (edata m). rewrite He in *. split_and!; try done; try lia.
    + split; try done. 2: left; split_and!; try done; split; [done|lia].
      pose proof (tab_dib _ _ _ HT (hk (key x) + 0 - 1)). split; cbn; [|done|lia].
      rewrite Z.add_0_r, Z.sub_diag, Z.mod_0_l by lia. done.
    + by rewrite Z.add_0_r.
  - intros t i υ (U & s & e & _ & _ & _ & _ & ? & _). lia.
  - pose proof (am_len _ _ _ _ HA). lia.
Qed.

(** ** Creating a map *)

Lemma table_new k : 4 <= k → table_ok key hk (replicate (Z.to_nat (2 ^ k)) zero_bucket).
Proof.
  intros Hk. assert (16 <= 2 ^ k) by (change 16 with (2 ^ 4); apply Z.pow_le_mono_r; lia).
  set (T := replicate _ _). assert (lenZ T = 2 ^ k) as HL by (apply lenZ_replicate; lia).
  assert (∀ i, slot T i = zero_bucket) as Hs.
  { intros i. unfold slot. apply (lookup_total_replicate_2 (Z.to_nat (2 ^ k))).
    pose proof (slot_index T i). unfold T in *. rewrite length_replicate in *. lia. }
  split; [lia|intros i; by rewrite ?Hs..].
Qed.

Lemma items_new j : items (replicate j (zero_bucket (item := item))) = [].
Proof. induction j; [done|]. cbn. apply IHj. Qed.

(** The bucket size that belongs to an element size. *)
Definition bucket_size (es : Z) : Z := (8 + es + 3) / 4 * 4.

Lemma cap_loop_spec cap σ :
  cap <= 2147483648 →
  wp (if cap <? 16 then mret 16
      else loop (fun ncap => if ncap <? cap then continue (u32 (ncap * 2)) else break ncap) 16)
     (fun r τ => τ = σ ∧ ∃ k, 4 <= k <= 31 ∧ r = 2 ^ k ∧ cap <= r ∧ (r = 16 ∨ r < 2 * cap)) σ.
Proof.
  intros Hc. apply wp_if; intros E; b2p.
  { wp_step. split; [done|]. exists 4. split_and!; try done; [lia|by left]. }
  eapply (wp_loop_ghost _ (fun k r τ => τ = σ ∧ 4 <= k <= 31 ∧ r = 2 ^ k ∧ (r = 16 ∨ r < 2 * cap))
            _ (fun k => 31 - k)) with (g := 4).
  - intros k r τ (-> & Hk & -> & Hr). apply wp_if; intros E'; b2p; wp_step.
    + exists (k + 1). assert (k ≠ 31) by (intros ->; lia).
      assert (2 ^ k * 2 = 2 ^ (k + 1)) as Hp by (rewrite Z.pow_add_r; lia).
      assert (2 ^ (k + 1) <= 2 ^ 31) by (apply Z.pow_le_mono_r; lia).
      split; [|lia]. rewrite Hp, u32_small by lia. split_and!; [done|lia..|]. right. lia.
    + split; [done|]. by exists k.
  - split_and!; try done. by left.
  - intros. lia.
  - lia.
Qed.

Lemma bucketsz_loop_spec es σ :
  0 <= es → es + 16 < 4294967296 →
  wp (loop (fun b => if negb (Z.land b (sizeof_uintptr_t - 1) =? 0) then continue (u32 (b + 1)) else break b)
           (u32 (sizeof_bucket + es)))
     (fun r τ => τ = σ ∧ r = bucket_size es) σ.
Proof.
  intros H0 H1. unfold sizeof_bucket, bucket_size. rewrite u32_small by lia.
  eapply (wp_loop _ (fun b τ => τ = σ ∧ 8 + es <= b <= (8 + es + 3) / 4 * 4) _ (fun b => (8 + es + 3) / 4 * 4 - b)).
  - intros b τ (-> & Hb). change (sizeof_uintptr_t - 1) with (Z.ones 2). rewrite Z.land_ones by done.
    change (2 ^ 2) with 4. apply wp_if; intros E; b2p; wp_step.
    + unfold u32. rewrite Z.mod_small by dlia. split; [|lia]. split; [done|]. dlia.
    + split; [done|]. dlia.
  - split; [done|]. dlia.
  - intros b τ [_ ?]. lia.
  - dlia.
Qed.

Lemma GROW_AT_bound n : 16 <= n < 4294967296 → 6 * n - 11 <= 10 * GROW_AT n <= 6 * n.
Proof. unfold GROW_AT. change (2 ^ 53) with 9007199254740992. dlia. Qed.
Lemma SHRINK_AT_bound n : 16 <= n < 4294967296 → 0 <= 10 * SHRINK_AT n <= n.
Proof. unfold SHRINK_AT. change (2 ^ 56) with 72057594037927936. dlia. Qed.

(** The struct of a new map with an array at [a]. *)
Definition fresh_map (es : Z) (c : Z) (s0 s1 : Z) h cm ef u (a : Z) : hashmap item :=
  HashMap es c s0 s1 h cm ef u (bucket_size es) c 0 (c - 1) (GROW_AT c) (SHRINK_AT c) 1 false a
    (SBucket zero_bucket) zero_bucket.

Lemma new_spec `{!AllocVec} es cap s0 s1 h cm ef u σ :
  0 <= es → es + 16 < 4294967296 → cap <= 2147483648 →
  bucket_size es * Z.max 16 (2 * cap) < 4294967296 →
  wp (hashmap_new_with_allocator es cap s0 s1 h cm ef u)
     (fun q τ => (q = NULL ∧ τ = σ) ∨
        (q ≠ NULL ∧ ∃ k a, 4 <= k <= 31 ∧ cap <= 2 ^ k ∧ (2 ^ k = 16 ∨ 2 ^ k < 2 * cap) ∧
           bucket_size es * 2 ^ k < 4294967296 ∧ maps σ !! q = None ∧ arrays σ !! a = None ∧
           τ = set_maps <[q := fresh_map es (2 ^ k) s0 s1 h cm ef u a]>
                 (set_arrays <[a := replicate (Z.to_nat (2 ^ k)) zero_bucket]> σ))) σ.
Proof.
  intros He He' Hc Hsz. unfold hashmap_new_with_allocator. wp_step.
  eapply wp_mono; [by apply cap_loop_spec|]. intros ? τ (-> & k & Hk & -> & Hle & Hr).
  wp_step. eapply wp_mono; [by apply bucketsz_loop_spec|]. intros ? τ (-> & ->).
  assert (2 ^ 4 <= 2 ^ k < 2 ^ 32) by (split; [apply Z.pow_le_mono_r|apply Z.pow_lt_mono_r]; lia).
  assert (8 <= bucket_size es) by (unfold bucket_size; dlia).
  assert (bucket_size es * 2 ^ k < 4294967296) by (pose proof (Z.le_max_l 16 (2 * cap)); pose proof (Z.le_max_r 16 (2 * cap)); nia).
  cbn zeta. wp_step. wp_step. apply wp_if; intros E; b2p; [by wp_step; left|].
  set (q := vec_addr σ _) in *. destruct (vec_fresh σ _ E) as [Hq _]. fold q in Hq.
  wp_step. apply wp_modify. wp_step. unfold alloc_array. wp_step. wp_step. cbn zeta.
  set (a := vec_addr _ _). rewrite (u32_small (bucket_size es * 2 ^ k)) by lia.
  apply wp_if; intros E'; b2p.
  - wp_step. rewrite Z.eqb_refl. wp_step. unfold FreeMap. wp_step. eapply wp_get_map; [apply lookup_insert_eq|].
    wp_step. wp_step. left. split; [done|]. unfold set_maps. cbn. rewrite delete_insert_id by done. by destruct σ.
  - destruct (vec_fresh _ _ E') as [_ Ha]. fold a in Ha.
    wp_step. wp_step. wp_step. rewrite (proj2 (Z.eqb_neq a NULL) E').
    wp_step. unfold update. wp_step. eapply wp_get_map; [apply lookup_insert_eq|]. apply wp_modify.
    wp_step. right. split; [done|]. exists k, a. split_and!; try done; try lia.
    unfold set_maps, set_arrays, fresh_map. cbn. rewrite insert_insert_eq.
    rewrite Z.mul_comm, Z.div_mul by lia. rewrite u32_small by lia. done.
Qed.

(** ** Resizing *)

(** Nothing has changed but the structs at [p] and [q] and their arrays. *)
Record touched2 (p a q b : Z) σ τ : Prop := {
  t2_maps : ∀ r, r ≠ p → r ≠ q → maps τ !! r = maps σ !! r;
  t2_arrays : ∀ c, c ≠ a → c ≠ b → arrays τ !! c = arrays σ !! c;
  t2_elfreed : elfreed τ = elfreed σ
}.
Lemma touched2_trans p a q b σ τ υ : touched2 p a q b σ τ → touched2 p a q b τ υ → touched2 p a q b σ υ.
Proof.
  intros [A1 A2 A3] [B1 B2 B3].
  split; [intros r ??; by rewrite B1, A1|intros c ??; by rewrite B2, A2|congruence].
Qed.
Lemma touched_l p a q b σ τ : touched p a σ τ → touched2 p a q b σ τ.
Proof. intros []. split; auto. Qed.
Lemma touched_r p a q b σ τ : touched q b σ τ → touched2 p a q b σ τ.
Proof. intros []. split; auto. Qed.

Lemma at_map_frame σ τ p a q m T :
  at_map σ q m T → touched p a σ τ → q ≠ p → buckets m ≠ a → at_map τ q m T.
Proof.
  intros [H1 [R H2] H3 H4 H5] [F1 F2 _] Hq Hb. split; try done; [by rewrite F1|].
  exists R. by rewrite F2.
Qed.

(** Two maps with different arrays. *)
Record two_maps σ p m V q m2 U : Prop := {
  tm_one : at_map σ p m V;
  tm_two : at_map σ q m2 U;
  tm_maps : p ≠ q;
  tm_arrays : buckets m ≠ buckets m2
}.

Section Two.
Context {σ : hstate item} {p : Z} {m : hashmap item} {V : list (bucket item)} {q : Z}
        {m2 : hashmap item} {U : list (bucket item)} (HM : two_maps σ p m V q m2 U).

Lemma wp_put_one i b Q :
  (∀ τ, two_maps τ p m (ins V i b) q m2 U → touched2 p (buckets m) q (buckets m2) σ τ → Q tt τ) →
  wp (put_bucket p (i mod nbuckets m) b) Q σ.
Proof.
  destruct (HM) as [H1 H2 H3 H4]. intros HQ. apply (wp_put_bucket H1). intros τ A B.
  apply HQ; [|by apply touched_l]. split; try done. eapply at_map_frame; eauto.
Qed.

Lemma wp_put_two i b Q :
  (∀ τ, two_maps τ p m V q m2 (ins U i b) → touched2 p (buckets m) q (buckets m2) σ τ → Q tt τ) →
  wp (put_bucket q (i mod nbuckets m2) b) Q σ.
Proof.
  destruct (HM) as [H1 H2 H3 H4]. intros HQ. apply (wp_put_bucket H2). intros τ A B.
  apply HQ; [|by apply touched_r]. split; try done. eapply at_map_frame; eauto.
Qed.

Lemma wp_spare_two s Q :
  (∀ τ, two_maps τ p m V q (set_spare s m2) U → touched2 p (buckets m) q (buckets m2) σ τ → Q tt τ) →
  wp (update q (set_spare s)) Q σ.
Proof.
  destruct (HM) as [H1 H2 H3 H4]. intros HQ. eapply wp_update; [apply H2|done..|]. intros τ A B.
  apply HQ; [|by apply touched_r]. split; try done. eapply at_map_frame; eauto.
Qed.
End Two.

(** The exchange in [resize_place]. *)
Lemma place_swap_spec υ p m V q m2 U i j e Q :
  two_maps υ p m (ins V i e) q m2 U →
  (∀ τ s', two_maps τ p m (ins V i (advance U e j).2) q (set_spare s' m2) (advance U e j).1 →
     touched2 p (buckets m) q (buckets m2) υ τ → Q tt τ) →
  wp (if dib (slot U j) <? dib e then
        _ ← update q (set_spare (SBucket (slot U j)));
        _ ← put_bucket q (j mod nbuckets m2) e;
        put_bucket p (i mod nbuckets m) (slot U j)
      else mret tt) Q υ.
Proof.
  intros HM HQ. unfold advance in HQ. destruct (_ <? _) eqn:E.
  - wp_step. apply (wp_spare_two HM). intros τ1 A1 B1. wp_step. apply (wp_put_two A1). intros τ2 A2 B2.
    apply (wp_put_one A2). intros τ3 A3 B3. rewrite ins_ins in A3. eapply HQ; [exact A3|].
    exact (touched2_trans _ _ _ _ _ _ _ B1 (touched2_trans _ _ _ _ _ _ _ B2 B3)).
  - apply wp_ret, (HQ υ (spare m2)); [|done]. by destruct m2.
Qed.

(** The invariant of [resize_place]: [e], at [i] of the old table, is on its way. *)
Definition place_inv σ p m V q m2 U0 x h te i (t j : Z) υ : Prop :=
  ∃ U s e, two_maps υ p m (ins V i e) q (set_spare s m2) U ∧ touched2 p (buckets m) q (buckets m2) σ υ ∧
    table_ok key hk U ∧ carried key hk U e (h + t) ∧ b_item e :: items U ≡ₚ x :: items U0 ∧
    j = (h + t) mod nbuckets m2 ∧ 0 <= t <= te ∧ te < nbuckets m2 ∧ dib (slot U (h + te)) = 0.

Lemma resize_place_spec σ p m V q m2 U i e :
  two_maps σ p m (ins V i e) q m2 U → table_ok key hk U → lenZ (items U) < nbuckets m2 →
  lenZ (items U) < 65535 → dib e = 1 → b_hash e = hk (key (b_item e)) → 0 <= i < nbuckets m →
  wp (resize_place p q i (b_hash e mod nbuckets m2))
     (fun _ τ => ∃ U' s e', two_maps τ p m (ins V i e') q (set_spare s m2) U' ∧
        touched2 p (buckets m) q (buckets m2) σ τ ∧ table_ok key hk U' ∧
        items U' ≡ₚ b_item e :: items U) σ.
Proof.
  intros HM HU Hlt Hlim Hd Hh Hi. pose proof (at_map_pos (tm_two _ _ _ _ _ _ _ HM)).
  pose proof (am_len _ _ _ _ (tm_two _ _ _ _ _ _ _ HM)) as HL.
  destruct (empty_ahead U (b_hash e) HU ltac:(lia)) as (te & Hte & Hemp). rewrite HL in Hte.
  replace i with (i mod nbuckets m) at 1 by (apply Z.mod_small; lia).
  apply (wp_loop_ghost _ (place_inv σ p m V q m2 U (b_item e) (b_hash e) te i) _ (fun t => te - t)) with (g := 0).
  - clear HM. intros t j υ (U1 & s & e1 & HM & B & HU1 & Hc & Hp & -> & Ht & Hte' & Hemp'). set (j := b_hash e + t) in *.
    pose proof (am_len _ _ _ _ (tm_two _ _ _ _ _ _ _ HM)) as HL1. cbn in HL1.
    assert (lenZ (items U1) = lenZ (items U)) as HN by (apply Permutation_length in Hp; cbn in Hp; unfold lenZ; lia).
    assert (∀ W, slot (ins V i W) i = W) as Hsl.
    { intros W. apply slot_ins_eq; [|done]. pose proof (at_map_pos (tm_one _ _ _ _ _ _ _ HM)).
      pose proof (am_len _ _ _ _ (tm_one _ _ _ _ _ _ _ HM)) as HL2. rewrite lenZ_ins in HL2. lia. }
    wp_step. apply (wp_bucket_at (tm_one _ _ _ _ _ _ _ HM)). rewrite Hsl.
    wp_step. apply (wp_bucket_at (tm_two _ _ _ _ _ _ _ HM)). apply wp_if; intros Ed; b2p.
    + wp_step. apply (wp_put_two HM). intros τ A B'. wp_step. destruct (place_last U1 e1 j HU1 Hc Ed) as [H1 H2].
      exists (ins U1 j e1), s, e1. split_and!; [done|exact (touched2_trans _ _ _ _ _ _ _ B B')|done|by rewrite H2].
    + wp_step. destruct (advance U1 e1 j) as [U2 e2] eqn:Eadv. apply (place_swap_spec υ p m V q (set_spare s m2) U1 i j e1); [done|].
      rewrite Eadv. cbn [fst snd]. intros τ1 s1 A1 B1. wp_step. eapply wp_get_map; [apply (tm_two _ _ _ _ _ _ _ A1)|].
      destruct (advance_ok U1 e1 j U2 e2 HU1 Hc Ed ltac:(lia) Eadv) as (H1 & H2 & H3 & H4 & H5 & H6).
      assert (1 <= dib e2) as H7.
      { unfold advance in Eadv. pose proof (carried_range U1 e1 j HU1 Hc). pose proof (tab_dib _ _ _ HU1 j).
        destruct (_ <? _); simplify_eq; lia. }
      wp_step. apply (wp_bucket_at (tm_one _ _ _ _ _ _ _ A1)). rewrite Hsl.
      wp_step. apply (wp_put_one A1). intros τ2 A2 B2. rewrite ins_ins in A2. wp_step.
      exists (t + 1). assert (t ≠ te) by (intros ->; done). split; [|lia].
      exists U2, s1, (with_dib (dib e2 + 1) e2). split; [|split; [|split; [|split; [|split; [|split; [|split; [|split]]]]]]].
      * replace (dib e2 + 1) with (u16 (dib e2 + 1)) by (apply Z.mod_small; lia). done.
      * exact (touched2_trans _ _ _ _ _ _ _ B (touched2_trans _ _ _ _ _ _ _ B1 B2)).
      * done.
      * by rewrite Z.add_assoc.
      * cbn. by rewrite H3.
      * rewrite (next_index (tm_two _ _ _ _ _ _ _ A1)). cbn. f_equal. lia.
      * lia.
      * done.
      * rewrite H6; [done|]. rewrite HL1. apply mod_apart. lia.
  - exists U, (spare m2), e. assert (m2 = set_spare (spare m2) m2) as E by (by destruct m2). rewrite <- E.
    split_and!; try done; try lia; [|by rewrite Z.add_0_r].
    pose proof (tab_dib _ _ _ HU (b_hash e + 0 - 1)). split; [|done|lia].
    rewrite Z.add_0_r, Z.sub_diag, Z.mod_0_l; lia.
  - intros t j υ (U1 & s & e1 & _ & _ & _ & _ & _ & _ & ? & _). lia.
  - lia.
Qed.

Lemma items_drop T (i : nat) b :
  T !! i = Some b → items (drop i T) = option_list (content b) ++ items (drop (S i) T).
Proof. intros Hi. rewrite (drop_S T b i Hi). unfold items. cbn. by destruct (content b). Qed.

(** After the first [i] buckets of the old table. *)
Definition rehash_inv σ p m T q m2 (i : Z) υ : Prop :=
  ∃ V U s, two_maps υ p m V q (set_spare s m2) U ∧ touched2 p (buckets m) q (buckets m2) σ υ ∧
    table_ok key hk U ∧ (∀ j, i <= j < nbuckets m → slot V j = slot T j) ∧
    items U ++ items (drop (Z.to_nat i) T) ≡ₚ items T ∧ 0 <= i <= nbuckets m.

Lemma rehash_spec σ p m T q m2 U :
  two_maps σ p m T q m2 U → table_ok key hk T → table_ok key hk U → items U = [] →
  lenZ (items T) < nbuckets m2 → lenZ (items T) < 65535 →
  wp (loop (fun i =>
              m ← get_map p;
              if i <? nbuckets m then
                entry ← bucket_at p i;
                if dib entry =? 0 then continue (i + 1)
                else
                  _ ← put_bucket p i (with_dib 1 entry);
                  m2 ← get_map q;
                  _ ← resize_place p q i (Z.land (b_hash entry) (mask m2));
                  continue (i + 1)
              else break tt) 0)
     (fun _ τ => ∃ V U s, two_maps τ p m V q (set_spare s m2) U ∧ touched2 p (buckets m) q (buckets m2) σ τ ∧
        table_ok key hk U ∧ items U ≡ₚ items T) σ.
Proof.
  intros HM HT HU Hnil Hlt Hlim. pose proof (at_map_pos (tm_one _ _ _ _ _ _ _ HM)).
  pose proof (am_len _ _ _ _ (tm_one _ _ _ _ _ _ _ HM)) as HL.
  apply (wp_loop _ (rehash_inv σ p m T q m2) _ (fun i => nbuckets m - i)).
  - clear HM HU Hnil U. intros i υ (V & U & s & HM & B & HU & HV & Hp & Hi).
    wp_step. eapply wp_get_map; [apply (tm_one _ _ _ _ _ _ _ HM)|]. apply wp_if; intros E; b2p.
    2: { wp_step. exists V, U, s. split_and!; try done. rewrite <- Hp.
         rewrite drop_ge by (unfold lenZ in *; lia). by rewrite app_nil_r. }
    assert (i mod nbuckets m = i) as Ei by (apply Z.mod_small; lia).
    assert (T !! Z.to_nat i = Some (slot T i)) as HTi
      by (pose proof (slot_lookup T i ltac:(lia)) as Hsl; by rewrite HL, Ei in Hsl).
    rewrite (items_drop T _ _ HTi) in Hp. replace (S (Z.to_nat i)) with (Z.to_nat (i + 1)) in Hp by lia.
    wp_step. rewrite <- Ei at 1. apply (wp_bucket_at (tm_one _ _ _ _ _ _ _ HM)). rewrite HV by lia.
    apply wp_if; intros Ed; b2p.
    { wp_step. split; [|lia]. exists V, U, s. rewrite content_free in Hp by done.
      split_and!; try done; try lia. intros j Hj. apply HV. lia. }
    wp_step. rewrite <- Ei at 1. apply (wp_put_one HM). intros τ1 A1 B1.
    wp_step. eapply wp_get_map; [apply (tm_two _ _ _ _ _ _ _ A1)|]. wp_step.
    rewrite (home_index (tm_two _ _ _ _ _ _ _ A1)). rewrite content_occ in Hp by done.
    assert (lenZ (items U) <= lenZ (items T)) by (apply Permutation_length in Hp; rewrite length_app in Hp; unfold lenZ; lia).
    destruct (tab_home _ _ _ HT i Ed) as [_ Hh].
    eapply wp_mono; [eapply (resize_place_spec τ1 p m V q (set_spare s m2) U i (with_dib 1 (slot T i))); try done; cbn; lia|].
    intros ? τ2 (U' & s' & e' & A2 & B2 & HU' & Hp'). wp_step. split; [|lia].
    exists (ins V i e'), U', s'. split_and!; try done; try lia.
    + exact (touched2_trans _ _ _ _ _ _ _ B (touched2_trans _ _ _ _ _ _ _ B1 B2)).
    + intros j Hj. pose proof (am_len _ _ _ _ (tm_one _ _ _ _ _ _ _ HM)) as HLV.
      rewrite slot_ins_ne; [apply HV; lia|lia|]. rewrite HLV. apply mod_apart. lia.
    + rewrite Hp', <- Hp. cbn. by rewrite <- Permutation_middle.
  - exists T, U, (spare m2). assert (m2 = set_spare (spare m2) m2) as E by (by destruct m2). rewrite <- E.
    split_and!; try done; try lia. by rewrite Hnil.
  - intros i υ (V & U1 & s & _ & _ & _ & _ & _ & ?). lia.
  - lia.
Qed.

(** The map at [p] has moved to the array [a']; no other memory is touched, and
    none is lost. *)
Record owned (p a a' : Z) σ τ : Prop := {
  ow_maps : ∀ q, q ≠ p → maps τ !! q = maps σ !! q;
  ow_arrays : ∀ b, b ≠ a → b ≠ a' → arrays τ !! b = arrays σ !! b;
  ow_moved : a' = a ∨ (arrays σ !! a' = None ∧ arrays τ !! a = None);
  ow_elfreed : elfreed τ = elfreed σ
}.

Lemma touched_owned p a σ τ : touched p a σ τ → owned p a a σ τ.
Proof. intros []. split; auto. Qed.
Lemma owned_touched p a b σ τ υ : touched p a σ τ → owned p a b τ υ → owned p a b σ υ.
Proof.
  intros [A1 A2 A3] [B1 B2 B3 B4].
  split; [intros q ?; by rewrite B1, A1|intros c ??; by rewrite B2, A2| |congruence].
  destruct B3 as [->|[B3 B3']]; [by left|]. destruct (decide (b = a)) as [->|Hb]; [by left|].
  right. by rewrite <- A2.
Qed.
Lemma touched_after p a b σ τ υ : owned p a b σ τ → is_Some (arrays υ !! b) → touched p b τ υ → owned p a b σ υ.
Proof.
  intros [A1 A2 A3 A4] Hs [B1 B2 B3].
  split; [intros q ?; by rewrite B1, A1|intros c ??; by rewrite B2, A2| |congruence].
  destruct A3 as [->|[A3 A3']]; [by left|]. destruct (decide (b = a)) as [->|Hb]; [by left|].
  right. by rewrite (B2 a).
Qed.

(** The struct after a resize to [c] buckets. *)
Definition resized (a c : Z) m : hashmap item :=
  set_array (cap m) a c (c - 1) (GROW_AT c) (SHRINK_AT c) m.

Lemma resize_spec `{!AllocVec} σ p m T k :
  at_map σ p m T → table_ok key hk T → bucketsz m = bucket_size (elsize m) → 0 <= elsize m →
  4 <= k → bucketsz m * (2 * 2 ^ k) < 4294967296 → lenZ (items T) < 2 ^ k → lenZ (items T) < 65535 →
  wp (resize p (2 ^ k))
     (fun r τ => (r = false ∧ τ = σ) ∨
        (r = true ∧ ∃ a U, at_map τ p (resized a (2 ^ k) m) U ∧ owned p (buckets m) a σ τ ∧
           table_ok key hk U ∧ items U ≡ₚ items T)) σ.
Proof.
  intros HA HT Hb He Hk Hsz Hlt Hlim. unfold resize, resize0. wp_step. eapply wp_get_map; [apply HA|]. wp_step.
  assert (2 ^ 4 <= 2 ^ k) by (apply Z.pow_le_mono_r; lia).
  assert (elsize m + 8 <= bucketsz m) as Hbs by (rewrite Hb; unfold bucket_size; dlia).
  assert (elsize m + 16 < 4294967296) by nia. assert (2 ^ k <= 2147483648) by nia.
  assert (bucket_size (elsize m) * Z.max 16 (2 * 2 ^ k) < 4294967296)
    by (rewrite <- Hb, Z.max_r by lia; lia).
  eapply wp_mono; [by apply new_spec|].
  intros q τ [[-> ->]|(Hq & k' & a & Hk' & Hle & Hpow & _ & Hqf & Haf & ->)];
    [rewrite Z.eqb_refl; by wp_step; left|].
  assert (2 ^ k' = 2 ^ k) as Ek.
  { destruct Hpow as [E|Hlt']; [lia|]. replace (2 * 2 ^ k) with (2 ^ (k + 1)) in Hlt' by (rewrite Z.pow_add_r; lia).
    apply Z.pow_le_mono_r_iff in Hle; [|lia..]. apply Z.pow_lt_mono_r_iff in Hlt'; [|lia..]. f_equal. lia. }
  rewrite Ek. rewrite (proj2 (Z.eqb_neq q NULL) Hq). set (m2 := fresh_map _ _ _ _ _ _ _ _ a).
  set (τ := set_maps _ _). set (U0 := replicate (Z.to_nat (2 ^ k)) (zero_bucket (item := item))).
  destruct (HA) as [HA1 [R HA2] HA3 HA4 HA5].
  assert (p ≠ q) as Hpq by congruence. assert (buckets m ≠ a) as Hba by congruence.
  assert (two_maps τ p m T q m2 U0) as HM.
  { split; [split; try done| |done|done]; cbn.
    - by rewrite lookup_insert_ne.
    - exists R. by rewrite lookup_insert_ne.
    - split; cbn; [by rewrite lookup_insert_eq| |by apply lenZ_replicate; lia|by exists k'; lia|done].
      exists []. by rewrite lookup_insert_eq, app_nil_r. }
  wp_step. eapply wp_mono; [apply (rehash_spec τ p m T q m2 U0 HM); try done; [by apply table_new|apply items_new]|].
  intros ? υ (V & U & s & A & B & HU & Hp). destruct (A) as [A1 A2 _ _]. wp_step. eapply wp_get_map; [apply A1|].
  wp_step. unfold FreeArray. wp_step. destruct (am_array _ _ _ _ A1) as [R1 HR1]. eapply wp_get_array; [done|].
  wp_step. wp_step. eapply wp_get_map; [apply A2|]. wp_step. unfold update. wp_step.
  eapply wp_get_map; [apply A1|]. apply wp_modify. wp_step. unfold FreeMap. wp_step.
  eapply wp_get_map; [cbn; rewrite lookup_insert_ne by done; apply A2|]. apply wp_modify. wp_step. right.
  split; [done|]. exists a, U. destruct (A2) as [A21 [R2 A22] A23 A24 A25]. cbn in A22, A23, A24, A25.
  split; [|split; [|done]].
  - split; cbn; [by rewrite lookup_delete_ne, lookup_insert_eq| |done..]. exists R2. by rewrite lookup_delete_ne.
  - destruct B as [B1 B2 B3]. cbn in B2. split; cbn.
    + intros r Hr. destruct (decide (r = q)) as [->|Hrq]; [by rewrite lookup_delete_eq|].
      rewrite lookup_delete_ne, lookup_insert_ne by done. rewrite B1 by done. cbn. by rewrite lookup_insert_ne.
    + intros c Hc Hc'. rewrite lookup_delete_ne by done. rewrite B2 by done. by rewrite lookup_insert_ne.
    + right. by rewrite lookup_delete_eq.
    + done.
Qed.

(** ** Deleting *)

Definition shift_inv σ p m T i0 te (t i : Z) υ : Prop :=
  ∃ U D, at_map υ p m U ∧ touched p (buckets m) σ υ ∧ holed key hk U (i0 + t) D ∧
    hole_items U (i0 + t) ≡ₚ hole_items T i0 ∧ i = (i0 + t) mod nbuckets m ∧ 0 <= t < te ∧
    dib (slot U (i0 + te)) = 0 ∧ ∀ j, j mod lenZ U ≠ (i0 + t) mod lenZ U → dib (slot U j) < 65535.

Lemma shift_back_spec σ p m T i D te :
  at_map σ p m T → holed key hk T i D → 0 < te < nbuckets m → dib (slot T (i + te)) = 0 →
  (∀ j, j mod lenZ T ≠ i mod lenZ T → dib (slot T j) < 65535) →
  wp (shift_back p (i mod nbuckets m))
     (fun _ τ => ∃ U, at_map τ p m U ∧ touched p (buckets m) σ τ ∧ table_ok key hk U ∧
        items U ≡ₚ hole_items T i) σ.
Proof.
  intros HA HT Hte Hemp Hlim. pose proof (at_map_pos HA).
  apply (wp_loop_ghost _ (shift_inv σ p m T i te) _ (fun t => te - t)) with (g := 0).
  - clear HA HT. intros t i' υ (U & D' & HA & B & HU & Hp & -> & Ht & Hemp' & Hlim'). set (j := i + t) in *.
    pose proof (am_len _ _ _ _ HA) as HL.
    cbn zeta. wp_step. eapply wp_get_map; [apply HA|]. rewrite (next_index HA). wp_step.
    apply (wp_bucket_at HA). apply wp_if; intros E; b2p.
    + wp_step. apply (wp_bucket_at HA). wp_step. apply (wp_put_bucket HA). intros τ A B'. wp_step.
      exists (ins U j (with_dib 0 (slot U j))). split_and!; [done|exact (touched_trans _ _ _ _ _ B B')| |].
      * by eapply hole_end.
      * rewrite hole_items_fill by lia. by rewrite content_free.
    + set (b := slot U (j + 1)) in *. wp_step. apply (wp_put_bucket HA). intros τ1 A1 B1. wp_step.
      apply (wp_bucket_at A1). rewrite slot_ins_eq by (done || lia). wp_step.
      apply (wp_put_bucket A1). rewrite ins_ins. intros τ2 A2 B2. wp_step. exists (t + 1). split; [|lia].
      assert (dib b < 65535) by (apply Hlim', mod_apart; lia).
      assert (u16 (dib b - 1) = dib b - 1) as Eu by (apply Z.mod_small; lia). rewrite Eu in A2.
      assert (t + 1 ≠ te) by (intros <-; unfold b, j in *; rewrite Z.add_assoc in Hemp'; lia).
      exists (ins U j (with_dib (dib b - 1) b)), (dib b).
      rewrite Z.add_assoc. fold j. rewrite lenZ_ins.
      split; [exact A2|]. split; [exact (touched_trans _ _ _ _ _ B (touched_trans _ _ _ _ _ B1 B2))|].
      split; [eapply hole_step; [exact HU|fold b; lia]|]. split; [rewrite <- Hp; apply hole_items_step; fold b; lia|].
      split; [done|]. split; [lia|]. split.
      * rewrite slot_ins_ne; [done|lia|]. apply mod_apart. lia.
      * intros l Hl. destruct (decide (l mod lenZ U = j mod lenZ U)) as [E'|E'].
        -- rewrite slot_ins_eq by (done || lia). cbn. lia.
        -- rewrite slot_ins_ne by (done || lia). by apply Hlim'.
  - exists T, D. rewrite Z.add_0_r. split_and!; try done; lia.
  - intros t j υ (U & D' & _ & _ & _ & _ & _ & ? & _). lia.
  - lia.
Qed.

(** ** The finite map of the elements *)

Definition abs (l : list item) : gmap K item := list_to_map ((fun x => (key x, x)) <$> l).

Lemma abs_keys l : ((fun x => (key x, x)) <$> l).*1 = key <$> l.
Proof. rewrite <- list_fmap_compose. by apply list_fmap_ext. Qed.

Lemma abs_perm l l' : NoDup (key <$> l) → l ≡ₚ l' → abs l = abs l'.
Proof. intros Hnd Hp. apply list_to_map_proper; [by rewrite abs_keys|by rewrite Hp]. Qed.

Lemma abs_lookup l k x : NoDup (key <$> l) → abs l !! k = Some x ↔ x ∈ l ∧ key x = k.
Proof.
  intros Hnd. unfold abs. rewrite <- elem_of_list_to_map by (by rewrite abs_keys).
  rewrite list_elem_of_fmap. split; [intros (y & [= -> ->] & ?); done|intros [? <-]; by exists x].
Qed.

Lemma abs_none l k : abs l !! k = None ↔ ∀ x, x ∈ l → key x ≠ k.
Proof.
  unfold abs. rewrite <- not_elem_of_list_to_map, abs_keys, list_elem_of_fmap. split.
  - intros Hn x Hx <-. apply Hn. by exists x.
  - intros Hn (x & -> & Hx). by eapply Hn.
Qed.

Lemma abs_size l : NoDup (key <$> l) → Z.of_nat (size (abs l)) = lenZ l.
Proof.
  intros Hnd. rewrite <- length_map_to_list. unfold abs. rewrite map_to_list_to_map by (by rewrite abs_keys).
  unfold lenZ. by rewrite length_fmap.
Qed.

Lemma abs_values l : NoDup (key <$> l) → l ≡ₚ (map_to_list (abs l)).*2.
Proof.
  intros Hnd. unfold abs. rewrite map_to_list_to_map by (by rewrite abs_keys).
  rewrite <- list_fmap_compose. by rewrite list_fmap_id.
Qed.

(** The sizes and the counters of a map. *)
Record shape m T : Prop := {
  sh_cap : ∃ c, 4 <= c ∧ cap m = 2 ^ c ∧ cap m <= nbuckets m;
  sh_elsize : 0 <= elsize m;
  sh_bucketsz : bucketsz m = bucket_size (elsize m);
  sh_size : bucketsz m * nbuckets m < 4294967296;
  sh_count : count m = lenZ (items T);
  sh_growat : count m <= growat m ∧ 4 * growat m <= 3 * nbuckets m;
  sh_shrinkat : 10 * shrinkat m <= nbuckets m;
  sh_growpower : 1 <= growpower m <= 16
}.

(** The struct [m] at [p] represents the finite map [A]. *)
Definition map_rep σ p m (A : gmap K item) : Prop :=
  ∃ T, at_map σ p m T ∧ shape m T ∧ table_ok key hk T ∧ NoDup (key <$> items T) ∧ keyed m ∧
       abs (items T) = A.

Lemma shape_room m T : shape m T → lenZ T = nbuckets m → 16 <= nbuckets m → lenZ (items T) < lenZ T.
Proof. intros [] HL Hn. lia. Qed.

Lemma keyed_ext m m' :
  hash m' = hash m → compare m' = compare m → seed0 m' = seed0 m → seed1 m' = seed1 m → udata m' = udata m →
  keyed m → keyed m'.
Proof.
  intros E1 E2 E3 E4 E5 [H1 H2]. split; intros.
  - rewrite <- H1. unfold get_hash. by rewrite E1, E3, E4.
  - rewrite <- H2 by done. unfold same_item. by rewrite E2, E5.
Qed.

(** ** The operations on represented maps *)

Lemma shape_ext m m' T T' :
  shape m T → cap m' = cap m → elsize m' = elsize m → bucketsz m' = bucketsz m → nbuckets m' = nbuckets m →
  growat m' = growat m → shrinkat m' = shrinkat m → growpower m' = growpower m →
  count m' = lenZ (items T') → count m' <= growat m → shape m' T'.
Proof. intros [] E1 E2 E3 E4 E5 E6 E7 E8 E9. split; rewrite ?E1, ?E2, ?E3, ?E4, ?E5, ?E6, ?E7; naive_solver lia. Qed.

(** What [hashmap_set] returns for the element that was there before. *)
Definition set_result (A : gmap K item) x (r : ref) m : Prop :=
  match A !! key x with None => r = RNull | Some y => r = RSpare ∧ spare m = SItem y end.

Lemma set_post_rep σ p m T x r τ :
  shape m T → table_ok key hk T → NoDup (key <$> items T) → keyed m → count m < growat m →
  set_post σ p m T x r τ →
  ∃ m', map_rep τ p m' (<[key x := x]> (abs (items T))) ∧ touched p (buckets m) σ τ ∧
    buckets m' = buckets m ∧ oom m' = oom m ∧ set_result (abs (items T)) x r m'.
Proof.
  intros Hs HT Hnd Hk Hlt (c & s & e & U & HA & HB & HU & Hcase). exists (scratched c s e m).
  assert (NoDup (key <$> items U) ∧ abs (items U) = <[key x := x]> (abs (items T)) ∧ c = lenZ (items U) ∧
          c <= growat m ∧ set_result (abs (items T)) x r (scratched c s e m)) as (H1 & H2 & H3 & H4 & H5).
  - pose proof (sh_count _ _ Hs) as Hc. unfold set_result.
    destruct Hcase as [(-> & -> & Hn & Hp)|(-> & -> & y & rest & Hy & -> & Hp1 & Hp2)].
    + assert (NoDup (key <$> (x :: items T))) as Hnd'.
      { cbn. apply NoDup_cons. split; [|done]. intros (y & Hy & Hy')%list_elem_of_fmap. by eapply Hn. }
      rewrite (proj2 (abs_none _ _) Hn). split_and!; [by rewrite Hp| |rewrite Hc; unfold lenZ|lia|done].
      * rewrite (abs_perm _ (x :: items T)); [done|by rewrite Hp|done].
      * apply Permutation_length in Hp. cbn in Hp. lia.
    + assert (NoDup (key <$> (y :: rest))) as Hnd' by (by rewrite <- Hp1).
      assert (NoDup (key <$> (x :: rest))) as Hnd'' by (cbn in *; by rewrite <- Hy).
      rewrite (proj2 (abs_lookup (items T) (key x) y Hnd)) by (rewrite Hp1; set_solver).
      split_and!; [by rewrite Hp2| |rewrite Hc; unfold lenZ|lia|done|done].
      * rewrite (abs_perm (items U) (x :: rest)), (abs_perm (items T) (y :: rest)) by (by rewrite ?Hp2).
        cbn. rewrite Hy, insert_insert_eq. done.
      * apply Permutation_length in Hp1, Hp2. cbn in *. lia.
  - split_and!; try done. exists U. split_and!; try done; [|by apply keyed_scratched].
    by eapply shape_ext.
Qed.

Lemma set_insert_spec σ p m T x :
  at_map σ p m T → shape m T → table_ok key hk T → NoDup (key <$> items T) → keyed m →
  count m < growat m → count m < 65535 →
  wp (_ ← update p (set_edata (Bucket (hk (key x)) 1 x));
      m ← get_map p;
      set_loop p (Z.land (hk (key x)) (mask m)))
     (fun r τ => ∃ m', map_rep τ p m' (<[key x := x]> (abs (items T))) ∧ touched p (buckets m) σ τ ∧
        buckets m' = buckets m ∧ oom m' = oom m ∧ set_result (abs (items T)) x r m') σ.
Proof.
  intros HA Hs HT Hnd Hk Hlt Hlim. pose proof (at_map_pos HA).
  wp_step. eapply wp_update; [done..|]. intros τ A B. wp_step. eapply wp_get_map; [apply A|].
  rewrite (home_index A). eapply wp_mono.
  - apply (set_loop_spec τ p _ T x A); [by apply (keyed_ext m)|done|done| |apply Hs|done|done].
    eapply shape_room; [done|apply HA|lia].
  - intros r υ Hpost. eapply set_post_rep in Hpost as (m' & M1 & M2 & M3 & M4 & M5); try done.
    + exists m'. split_and!; try done. exact (touched_trans _ _ _ _ _ B M2).
    + eapply (shape_ext m); try done; apply Hs.
    + by apply (keyed_ext m).
Qed.

(** The request for memory of a growing map fits in 32 bits. *)
Definition can_grow m : Prop :=
  count m = growat m → bucketsz m * (2 * (nbuckets m * 2 ^ growpower m)) < 4294967296.

Lemma resized_shape a k m T U :
  shape m T → 16 <= nbuckets m → cap m <= 2 ^ k → 4 <= k → bucketsz m * 2 ^ k < 4294967296 → 2 ^ k < 4294967296 →
  items U ≡ₚ items T → count m < GROW_AT (2 ^ k) → shape (resized a (2 ^ k) m) U.
Proof.
  intros [H1 H2 H3 H4 H5 H6 H7 H8] Hn Hc Hk Hsz Hlt Hp Hg.
  assert (16 <= 2 ^ k) by (change 16 with (2 ^ 4); apply Z.pow_le_mono_r; lia).
  pose proof (GROW_AT_bound (2 ^ k)). pose proof (SHRINK_AT_bound (2 ^ k)).
  split; cbn; try done; try lia; [naive_solver|]. rewrite H5. unfold lenZ. by rewrite Hp.
Qed.

Lemma set_spec `{!AllocVec} σ p m A x :
  map_rep σ p m A → can_grow m → count m < 65535 →
  wp (hashmap_set p x)
     (fun r τ => ∃ m', owned p (buckets m) (buckets m') σ τ ∧
        if oom m' then r = RNull ∧ map_rep τ p m' A
        else map_rep τ p m' (<[key x := x]> A) ∧ set_result A x r m') σ.
Proof.
  intros (T & HA & Hs & HT & Hnd & Hk & <-) Hgrow Hlim. pose proof (at_map_pos HA) as Hn.
  unfold hashmap_set, hashmap_set_with_hash. wp_step. eapply wp_get_map; [apply HA|].
  rewrite (kd_hash _ Hk), (clip_hk m x Hk). cbn zeta.
  wp_step. eapply wp_update; [done..|]. intros σ1 A1 B1. wp_step. eapply wp_get_map; [apply A1|].
  set (m1 := set_oom false m) in *. change (count m1) with (count m). change (growat m1) with (growat m).
  change (nbuckets m1) with (nbuckets m). change (growpower m1) with (growpower m).
  assert (shape m1 T) as Hs1 by (eapply shape_ext; try done; apply Hs).
  wp_step. destruct (count m =? growat m) eqn:E; b2p.
  - assert (2 ^ 1 <= 2 ^ growpower m <= 2 ^ 16) by (destruct Hs; split; apply Z.pow_le_mono_r; lia).
    pose proof (Hgrow E) as Hsz. destruct (am_power _ _ _ _ HA) as (j & Hj & Ej). destruct Hs as [(c & Hc & Ec & Hle) S2 S3 S4 S5 S6 S7 S8].
    set (g := growpower m) in *. assert (nbuckets m * 2 ^ g = 2 ^ (j + g)) as Ep by (rewrite Ej, Z.pow_add_r; lia).
    assert (8 <= bucketsz m) by (rewrite S3; unfold bucket_size; dlia).
    assert (nbuckets m * 2 ^ g < 4294967296) as Hlt32 by nia.
    rewrite (u32_small (2 ^ g)), u32_small by lia.
    assert (2 * nbuckets m <= 2 ^ (j + g)) as Hdouble by (rewrite <- Ep; nia). rewrite Ep in Hsz, Hlt32 |- *.
    eapply wp_mono; [apply (resize_spec σ1 p m1 T (j + g) A1 HT S3 S2); [lia|done|lia|lia]|].
    intros r τ [[-> ->]|(-> & a & U & A2 & B2 & HU & Hp)].
    + cbn [negb]. wp_step. eapply wp_update; [done..|]. intros τ A2 B2. wp_step. exists (set_oom true m1). cbn.
      split; [apply touched_owned; exact (touched_trans _ _ _ _ _ B1 B2)|]. split; [done|].
      exists T. split_and!; try done; [by eapply shape_ext; try done; apply Hs1|by apply (keyed_ext m)].
    + assert (count m < GROW_AT (2 ^ (j + g))) as Hgr.
      { pose proof (GROW_AT_bound (2 ^ (j + g))). lia. }
      assert (shape (resized a (2 ^ (j + g)) m1) U) as Hs2 by (apply (resized_shape a (j + g) m1 T U Hs1); try done; cbn; lia).
      cbn [negb]. eapply wp_mono.
      * apply (set_insert_spec τ p _ U x A2 Hs2 HU); try done; [by rewrite Hp|by apply (keyed_ext m)].
      * intros r υ (m' & M1 & M2 & M3 & M4 & M5). exists m'. rewrite M4. cbn [oom resized set_array m1 set_oom].
        rewrite <- (abs_perm (items T) (items U)) in M1, M5 by done. split; [|done]. rewrite M3. cbn.
        eapply owned_touched; [exact B1|]. eapply touched_after; [exact B2| |exact M2].
        destruct M1 as (U' & [_ [R HR] _ _ _] & _). rewrite M3 in HR. by eexists.
  - wp_step. cbn [negb]. eapply wp_mono.
    + apply (set_insert_spec σ1 p m1 T x A1 Hs1 HT Hnd); [by apply (keyed_ext m)| |done]. destruct Hs1; cbn in *; lia.
    + intros r υ (m' & M1 & M2 & M3 & M4 & M5). exists m'. rewrite M3, M4. cbn.
      split; [|done]. apply touched_owned. exact (touched_trans _ _ _ _ _ B1 M2).
Qed.

(** Shrinking after a deletion; it may fail, which changes nothing. *)
Lemma shrink_spec `{!AllocVec} σ p m T :
  at_map σ p m T → shape m T → table_ok key hk T → NoDup (key <$> items T) → keyed m → count m < 65535 →
  wp (if (cap m <? nbuckets m) && (count m <=? shrinkat m) then resize p (nbuckets m / 2) else mret true)
     (fun _ τ => ∃ m', map_rep τ p m' (abs (items T)) ∧ owned p (buckets m) (buckets m') σ τ ∧ spare m' = spare m) σ.
Proof.
  intros HA Hs HT Hnd Hk Hlim. pose proof (at_map_pos HA) as Hn.
  assert (map_rep σ p m (abs (items T))) as Hrep by (by exists T).
  apply wp_if; intros E; b2p; [|wp_step; exists m; split_and!; try done; by apply touched_owned].
  destruct (am_power _ _ _ _ HA) as (k & Hk' & Ek). destruct (Hs) as [(c & Hc & Ec & Hle) S2 S3 S4 S5 S6 S7 S8].
  assert (c < k) as Hck by (apply (Z.pow_lt_mono_r_iff 2); lia).
  assert (nbuckets m = 2 * 2 ^ (k - 1)) as E2 by (rewrite Ek; replace k with (1 + (k - 1)) at 1 by lia; rewrite Z.pow_add_r; lia).
  replace (nbuckets m / 2) with (2 ^ (k - 1)) by (rewrite E2; dlia).
  assert (cap m <= 2 ^ (k - 1)) as Hcap by (rewrite Ec; apply Z.pow_le_mono_r; lia).
  assert (16 <= 2 ^ (k - 1)) by (change 16 with (2 ^ 4); apply Z.pow_le_mono_r; lia).
  eapply wp_mono; [apply (resize_spec σ p m T (k - 1) HA HT S3 S2); [lia|by rewrite <- E2|lia|lia]|].
  intros r τ [[-> ->]|(-> & a & U & A2 & B2 & HU & Hp)]; [exists m; split_and!; try done; by apply touched_owned|].
  exists (resized a (2 ^ (k - 1)) m). split; [|split; [done|done]]. exists U.
  split_and!; [done| |done|by rewrite Hp|by apply (keyed_ext m)|symmetry; by apply abs_perm].
  assert (8 <= bucketsz m) by (rewrite S3; unfold bucket_size; dlia).
  pose proof (GROW_AT_bound (2 ^ (k - 1))). apply (resized_shape a (k - 1) m T U Hs); try done; nia.
Qed.

Lemma delete_found `{!AllocVec} σ p m T j :
  at_map σ p m T → shape m T → table_ok key hk T → NoDup (key <$> items T) → keyed m → count m < 65535 →
  dib (slot T j) ≠ 0 →
  wp (_ ← update p (set_spare (SItem (b_item (slot T j))));
      _ ← put_bucket p (j mod nbuckets m) (with_dib 0 (slot T j));
      _ ← shift_back p (j mod nbuckets m);
      _ ← update p (fun m => set_count (u32 (count m - 1)) m);
      m ← get_map p;
      _ ← (if (cap m <? nbuckets m) && (count m <=? shrinkat m) then resize p (nbuckets m / 2) else mret true);
      break (A := Z) RSpare)
     (fun r τ => r = inr RSpare ∧ ∃ m', map_rep τ p m' (delete (key (b_item (slot T j))) (abs (items T))) ∧
        owned p (buckets m) (buckets m') σ τ ∧ spare m' = SItem (b_item (slot T j))) σ.
Proof.
  intros HA Hs HT Hnd Hk Hlim Hd. pose proof (at_map_pos HA) as Hn. pose proof (table_pos T HT) as HT0.
  pose proof (am_len _ _ _ _ HA) as HL. set (y := b_item (slot T j)).
  assert (items T ≡ₚ y :: hole_items T j) as Hp by (rewrite (hole_items_start T j) at 1 by done; by rewrite content_occ).
  assert (NoDup (key <$> (y :: hole_items T j))) as Hnd' by (by rewrite <- Hp).
  wp_step. eapply wp_update; [done..|]. intros τ1 A1 B1. set (m1 := set_spare _ m) in *.
  wp_step. apply (wp_put_bucket A1). intros τ2 A2 B2. wp_step.
  destruct (empty_ahead T j HT) as (te & Hte & Hemp); [eapply shape_room; [done|done|lia]|].
  assert (te ≠ 0) by (intros ->; by rewrite Z.add_0_r in Hemp).
  set (T1 := ins T j (with_dib 0 (slot T j))) in *. assert (lenZ T1 = lenZ T) as HL1 by apply lenZ_ins.
  eapply wp_mono.
  { apply (shift_back_spec τ2 p m1 T1 j (dib (slot T j)) te A2); [by apply hole_start|cbn; lia|..].
    - unfold T1. rewrite slot_ins_ne; [done|done|]. apply mod_apart. lia.
    - rewrite HL1. intros i Hi. unfold T1. rewrite slot_ins_ne by done.
      pose proof (dib_le_items key hk T i HT). destruct Hs. lia. }
  intros ? τ3 (U & A3 & B3 & HU & Hp'). unfold T1 in Hp'. rewrite hole_items_ins in Hp'.
  wp_step. eapply wp_update; [done..|]. intros τ4 A4 B4. wp_step. eapply wp_get_map; [apply A4|]. wp_step.
  set (m2 := set_count _ m1) in *.
  assert (count m2 = count m - 1 ∧ count m - 1 = lenZ (items U)) as [Ec Ec'].
  { assert (lenZ (items T) = 1 + lenZ (items U)) as E1
      by (apply Permutation_length in Hp, Hp'; cbn in Hp; unfold lenZ; lia).
    pose proof (sh_count _ _ Hs). pose proof (lenZ_nonneg (items U)).
    split; [|lia]. cbn. apply u32_small. lia. }
  eapply wp_mono; [apply (shrink_spec τ4 p m2 U A4); [| done| |by apply (keyed_ext m)|lia]|].
  - eapply (shape_ext m); try done; [by rewrite Ec|]. rewrite Ec. destruct Hs. lia.
  - rewrite Hp'. cbn in Hnd'. by apply NoDup_cons in Hnd' as [_ ?].
  - intros ? τ5 (m' & M1 & M2 & M3). wp_step. split; [done|]. exists m'. split; [|split].
    + cbn in Hnd'. apply NoDup_cons in Hnd' as [Hni Hnd''].
      rewrite (abs_perm (items T) (y :: hole_items T j)) by done.
      rewrite (abs_perm (items U) (hole_items T j)) in M1 by (by rewrite ?Hp').
      cbn. rewrite delete_insert_id; [done|]. apply abs_none. intros z Hz Hk'. apply Hni. rewrite <- Hk'.
      by apply list_elem_of_fmap_2.
    + eapply owned_touched; [|exact M2].
      exact (touched_trans _ _ _ _ _ B1 (touched_trans _ _ _ _ _ B2 (touched_trans _ _ _ _ _ B3 B4))).
    + by rewrite M3.
Qed.

Lemma delete_spec `{!AllocVec} σ p m A x :
  map_rep σ p m A → count m < 65535 →
  wp (hashmap_delete p x)
     (fun r τ => ∃ m', map_rep τ p m' (delete (key x) A) ∧ owned p (buckets m) (buckets m') σ τ ∧
        set_result A x r m') σ.
Proof.
  intros (T & HA & Hs & HT & Hnd & Hk & <-) Hlim. pose proof (at_map_pos HA) as Hn.
  unfold hashmap_delete, hashmap_delete_with_hash. wp_step. eapply wp_get_map; [apply HA|].
  rewrite (kd_hash _ Hk), (clip_hk m x Hk). cbn zeta.
  wp_step. eapply wp_update; [done..|]. intros σ1 A1 B1. wp_step. eapply wp_get_map; [apply A1|].
  set (m1 := set_oom false m) in *. rewrite (home_index A1).
  assert (shape m1 T) as Hs1 by (eapply shape_ext; try done; apply Hs).
  assert (keyed m1) as Hk1 by (by apply (keyed_ext m)).
  destruct (empty_ahead T (hk (key x)) HT) as (te & Hte & Hemp); [apply (shape_room m); [done|apply HA|lia]|].
  eapply (wp_loop_ghost _ (fun t i υ => υ = σ1 ∧ i = (hk (key x) + t) mod nbuckets m1 ∧ searched T (key x) t)
            _ (fun t => te - t)) with (g := 0).
  - intros t i υ (-> & -> & Hse). set (j := hk (key x) + t) in *. wp_step. apply (wp_bucket_at A1).
    apply wp_if; intros E; b2p.
    + wp_step. pose proof (searched_end T _ _ HT Hse E) as Hn'. apply abs_none in Hn' as Hn''. exists m1.
      unfold set_result. rewrite Hn''. rewrite delete_id by done.
      split_and!; [by exists T|by apply touched_owned|done].
    + rewrite (slot_match m1) by done. destruct (bool_decide _) eqn:E'; [apply bool_decide_eq_true in E'|apply bool_decide_eq_false in E'].
      * eapply wp_mono; [apply (delete_found σ1 p m1 T j A1 Hs1 HT Hnd Hk1 Hlim E)|].
        intros r υ (-> & m' & M1 & M2 & M3). exists m'. rewrite E'. split_and!; [done|by eapply owned_touched|].
        unfold set_result. rewrite E'. rewrite (proj2 (abs_lookup (items T) _ (b_item (slot T j)) Hnd)); [done|].
        split; [|done]. apply slot_item; [by apply table_pos|done].
      * wp_step. exists (t + 1). rewrite (next_index A1). unfold j. rewrite Z.add_assoc.
        split; [|lia]. split_and!; [done|done|]. by apply searched_next.
  - rewrite Z.add_0_r. split_and!; [done|done|]. split; [done|]. lia.
  - intros t i υ (-> & -> & Hse). pose proof (searched_le T _ _ te Hse Hemp). lia.
  - pose proof (am_len _ _ _ _ HA). lia.
Qed.

(** ** Iterating *)

Lemma lookup_slot T i : 0 <= i < lenZ T → T !! Z.to_nat i = Some (slot T i).
Proof. intros Hi. rewrite <- (slot_lookup T i) by lia. by rewrite Z.mod_small. Qed.

Lemma wp_bucket_raw σ p m T i Q :
  at_map σ p m T → 0 <= i < nbuckets m → Q (slot T i) σ → wp (bucket_at p i) Q σ.
Proof. intros HA Hi HQ. replace i with (i mod nbuckets m) by (by apply Z.mod_small). by apply (wp_bucket_at HA). Qed.

Lemma items_take T i :
  0 <= i < lenZ T → items (take (Z.to_nat (i + 1)) T) = items (take (Z.to_nat i) T) ++ option_list (content (slot T i)).
Proof.
  intros Hi. replace (Z.to_nat (i + 1)) with (S (Z.to_nat i)) by lia.
  rewrite (take_S_r T _ (slot T i)) by (by apply lookup_slot). unfold items. rewrite omap_app. cbn.
  by destruct (content (slot T i)).
Qed.

Lemma items_drop_slot T i :
  0 <= i < lenZ T → items (drop (Z.to_nat i) T) = option_list (content (slot T i)) ++ items (drop (Z.to_nat (i + 1)) T).
Proof.
  intros Hi. replace (Z.to_nat (i + 1)) with (S (Z.to_nat i)) by lia. apply items_drop. by apply lookup_slot.
Qed.

(** The search for the next element: the elements from [i] on are the one that is
    found and the elements after it. *)
Lemma iter_spec σ p m T i :
  at_map σ p m T → 0 <= i <= nbuckets m →
  wp (hashmap_iter p i)
     (fun r τ => τ = σ ∧
        let '(more, j, x) := r in
        if more then i < j <= nbuckets m ∧ x = RBucket (j - 1) ∧
                     items (drop (Z.to_nat i) T) = b_item (slot T (j - 1)) :: items (drop (Z.to_nat j) T)
        else items (drop (Z.to_nat i) T) = []) σ.
Proof.
  intros HA Hi. pose proof (at_map_pos HA). pose proof (am_len _ _ _ _ HA) as HL.
  eapply (wp_loop _ (fun j τ => τ = σ ∧ i <= j <= nbuckets m ∧ items (drop (Z.to_nat i) T) = items (drop (Z.to_nat j) T))
            _ (fun j => nbuckets m - j)); [|split_and!; try done; lia|intros j τ (_ & ? & _); lia|lia].
  intros j τ (-> & Hj & E). wp_step. eapply wp_get_map; [apply HA|]. apply wp_if; intros Ej; b2p; wp_step.
  - split; [done|]. rewrite E, drop_ge; [done|]. unfold lenZ in HL. lia.
  - eapply wp_bucket_raw; [done|lia|]. rewrite (items_drop_slot T j) in E by lia. cbn zeta. apply wp_if; intros Ed; b2p; wp_step.
    + rewrite content_free in E by done. split; [|lia]. split_and!; [done|lia..|done].
    + rewrite content_occ in E by done. rewrite Z.add_simpl_r. split_and!; [done|lia..|done|done].
Qed.

(** The loop over a map that clients write. *)
Definition hashmap_elements (p : Z) : M (hstate item) (list item) :=
  loop (fun '(i, l) =>
          '(more, j, x) ← hashmap_iter p i;
          if more : bool then
            match x with
            | RBucket k => b ← bucket_at p k; continue (j, l ++ [b_item b])
            | _ => fault
            end
          else break l) (0, []).

Lemma elements_spec σ p m T :
  at_map σ p m T →
  wp (hashmap_elements p) (fun l τ => τ = σ ∧ l = items T) σ.
Proof.
  intros HA. pose proof (at_map_pos HA).
  eapply (wp_loop _ (fun '(i, l) τ => τ = σ ∧ 0 <= i <= nbuckets m ∧
            l ++ items (drop (Z.to_nat i) T) = items T)
            _ (fun '(i, l) => nbuckets m - i)).
  - intros [i l] τ (-> & Hi & E). wp_step. eapply wp_mono; [by eapply iter_spec|].
    intros [[more j] x] τ [-> Hr]. destruct more; [destruct Hr as (Hj & -> & E')|]; wp_step.
    + eapply wp_bucket_raw; [done|lia|]. wp_step. split; [|lia]. split_and!; [done|lia..|].
      rewrite <- app_assoc. cbn. by rewrite <- E'.
    + split; [done|]. by rewrite Hr, app_nil_r in E.
  - split_and!; try done; lia.
  - intros [i l] τ (_ & ? & _). lia.
  - lia.
Qed.

Lemma scan_spec σ p m T iter :
  at_map σ p m T → wp (hashmap_scan p iter) (fun r τ => τ = σ ∧ r = forallb iter (items T)) σ.
Proof.
  intros HA. pose proof (at_map_pos HA). pose proof (am_len _ _ _ _ HA) as HL.
  eapply (wp_loop _ (fun i τ => τ = σ ∧ 0 <= i <= nbuckets m ∧ forallb iter (items T) = forallb iter (items (drop (Z.to_nat i) T)))
            _ (fun i => nbuckets m - i)); [|split_and!; try done; lia|intros i τ (_ & ? & _); lia|lia].
  intros i τ (-> & Hi & E). wp_step. eapply wp_get_map; [apply HA|]. apply wp_if; intros Ei; b2p.
  - rewrite items_drop_slot in E by lia. wp_step. eapply wp_bucket_raw; [done|lia|]. unfold content in E.
    destruct (dib (slot T i) =? 0) eqn:Ed; cbn in E; cbn [negb andb].
    + wp_step. split; [|lia]. split_and!; [done|lia..|done].
    + destruct (iter (b_item (slot T i))) eqn:Ex; cbn in E; cbn [negb andb]; wp_step; (split; [|lia || done]).
      * split_and!; [done|lia..|done].
      * done.
  - wp_step. split; [done|]. rewrite E, drop_ge; [done|]. unfold lenZ in HL. lia.
Qed.

Lemma scan_item_spec {A} σ p m T (iter : item → option A) :
  at_map σ p m T → wp (hashmap_scan_item p iter) (fun r τ => τ = σ ∧ r = head (omap iter (items T))) σ.
Proof.
  intros HA. pose proof (at_map_pos HA). pose proof (am_len _ _ _ _ HA) as HL.
  eapply (wp_loop _ (fun i τ => τ = σ ∧ 0 <= i <= nbuckets m ∧ omap iter (items T) = omap iter (items (drop (Z.to_nat i) T)))
            _ (fun i => nbuckets m - i)); [|split_and!; try done; lia|intros i τ (_ & ? & _); lia|lia].
  intros i τ (-> & Hi & E). wp_step. eapply wp_get_map; [apply HA|]. apply wp_if; intros Ei; b2p.
  - rewrite items_drop_slot in E by lia. wp_step. eapply wp_bucket_raw; [done|lia|]. unfold content in E.
    destruct (dib (slot T i) =? 0) eqn:Ed; cbn in E; cbn [negb andb].
    + wp_step. split; [|lia]. split_and!; [done|lia..|done].
    + destruct (iter (b_item (slot T i))) as [y|]; cbn in E; cbn [negb andb]; wp_step.
      * split; [done|]. by rewrite E.
      * split; [|lia]. split_and!; [done|lia..|done].
  - wp_step. split; [done|]. rewrite E, drop_ge; [done|]. unfold lenZ in HL. lia.
Qed.

(** ** Clearing and freeing *)

Definition freed_items m T : list item := if elfree m then items T else [].

Lemma free_elements_spec σ p m T :
  at_map σ p m T →
  wp (free_elements p) (fun _ τ => τ = HState (maps σ) (arrays σ) (elfreed σ ++ freed_items m T)) σ.
Proof.
  intros HA. pose proof (at_map_pos HA). pose proof (am_len _ _ _ _ HA) as HL. unfold free_elements, freed_items.
  wp_step. eapply wp_get_map; [apply HA|]. destruct (elfree m); [|wp_step; rewrite app_nil_r; by destruct σ].
  eapply (wp_loop _ (fun i τ => 0 <= i <= nbuckets m ∧
            τ = HState (maps σ) (arrays σ) (elfreed σ ++ items (take (Z.to_nat i) T)))
            _ (fun i => nbuckets m - i)).
  - intros i τ [Hi ->]. pose (τ := HState (maps σ) (arrays σ) (elfreed σ ++ items (take (Z.to_nat i) T))). fold τ.
    assert (at_map τ p m T) as HA' by (destruct HA; by split). wp_step. eapply wp_get_map; [apply HA'|].
    apply wp_if; intros E; b2p; wp_step.
    + eapply wp_bucket_raw; [done|lia|]. wp_step. pose proof (items_take T i ltac:(lia)) as Ht. unfold content in Ht.
      destruct (dib (slot T i) =? 0); cbn in Ht; cbn [negb].
      * wp_step. wp_step. split; [|lia]. split; [lia|]. by rewrite Ht, app_nil_r.
      * wp_step. wp_step. split; [|lia]. split; [lia|]. rewrite Ht. unfold τ. cbn. by rewrite app_assoc.
    + unfold τ. rewrite take_ge; [done|]. unfold lenZ in HL. lia.
  - split; [lia|]. cbn. rewrite app_nil_r. by destruct σ.
  - intros i τ [? _]. lia.
  - lia.
Qed.

Lemma free_spec σ p m T :
  at_map σ p m T → p ≠ NULL →
  wp (hashmap_free p)
     (fun _ τ => τ = HState (delete p (maps σ)) (delete (buckets m) (arrays σ)) (elfreed σ ++ freed_items m T)) σ.
Proof.
  intros HA Hp. unfold hashmap_free. rewrite (proj2 (Z.eqb_neq p NULL) Hp). wp_step.
  eapply wp_mono; [by apply free_elements_spec|]. intros ? τ ->. destruct HA as [H1 [R H2] H3 H4 H5].
  wp_step. eapply wp_get_map; [done|]. wp_step. unfold FreeArray. wp_step. eapply wp_get_array; [done|].
  wp_step. unfold FreeMap. wp_step. eapply wp_get_map; [done|]. by apply wp_modify.
Qed.

(** The last steps of [hashmap_clear]: the struct has its new sizes. *)
Lemma clear_end_spec σ p m l c :
  maps σ !! p = Some m → arrays σ !! buckets m = Some l → 4 <= c < 32 → nbuckets m = 2 ^ c → cap m = 2 ^ c →
  2 ^ c <= lenZ l → count m = 0 → keyed m → 0 <= elsize m → bucketsz m = bucket_size (elsize m) →
  bucketsz m * 2 ^ c < 4294967296 → 1 <= growpower m <= 16 →
  wp (m ← get_map p;
      _ ← clear_buckets (buckets m) (nbuckets m);
      update p (fun m => set_array (cap m) (buckets m) (nbuckets m) (u32 (nbuckets m - 1))
                           (grow_075 (nbuckets m)) (SHRINK_AT (nbuckets m)) m))
     (fun _ τ => ∃ m', map_rep τ p m' ∅ ∧ touched p (buckets m) σ τ ∧ buckets m' = buckets m) σ.
Proof.
  intros Hm Ha Hc En Ec Hl H0 Hk He Hb Hsz Hg. wp_step. eapply wp_get_map; [done|].
  assert (16 <= 2 ^ c < 4294967296) as Hc' by (change 16 with (2 ^ 4); change 4294967296 with (2 ^ 32);
    split; [apply Z.pow_le_mono_r|apply Z.pow_lt_mono_r]; lia).
  wp_step. unfold clear_buckets. wp_step. eapply wp_get_array; [done|]. rewrite En.
  rewrite (proj2 (Z.leb_le _ _) Hl). apply wp_modify. unfold update. wp_step. eapply wp_get_map; [done|].
  apply wp_modify. exists (set_array (cap m) (buckets m) (2 ^ c) (2 ^ c - 1) (grow_075 (2 ^ c)) (SHRINK_AT (2 ^ c)) m).
  split; [|split; [split; cbn; intros; by rewrite ?lookup_insert_ne by done|done]].
  exists (replicate (Z.to_nat (2 ^ c)) zero_bucket). pose proof (SHRINK_AT_bound (2 ^ c) Hc').
  rewrite En, u32_small by lia. split; [|split; [|split; [|split; [|split]]]].
  - split; cbn; [by rewrite lookup_insert_eq| |apply lenZ_replicate; lia|by exists c|done].
    rewrite lookup_insert_eq. by eexists.
  - rewrite ?En. split; cbn; rewrite ?items_new, ?H0; try done; try lia; [exists c; lia|].
    unfold grow_075. dlia.
  - by apply table_new; lia.
  - rewrite items_new. constructor.
  - by apply (keyed_ext m).
  - by rewrite items_new.
Qed.

Lemma clear_spec `{!AllocVec} σ p m A junk update_cap :
  map_rep σ p m A →
  wp (hashmap_clear junk p update_cap)
     (fun _ τ => ∃ m' l, map_rep τ p m' ∅ ∧ l ≡ₚ (map_to_list A).*2 ∧
        owned p (buckets m) (buckets m') σ (HState (maps τ) (arrays τ) (elfreed σ)) ∧
        elfreed τ = elfreed σ ++ if elfree m then l else []) σ.
Proof.
  intros (T & HA & Hs & HT & Hnd & Hk & <-). destruct (Hs) as [(c & Hc & Ec & Hle) S2 S3 S4 S5 S6 S7 S8].
  pose proof (abs_values (items T) Hnd) as Hl.
  unfold hashmap_clear. wp_step. eapply wp_update; [done..|]. intros σ1 A1 B1. set (m1 := set_count 0 m) in *.
  wp_step. eapply wp_mono; [by apply free_elements_spec|]. intros ? τ ->. set (σ2 := HState _ _ _).
  destruct (A1) as [M1 [R M2] M3 (k & Hk' & Ek) M5]. cbn in M2, M3, Ek, M5. assert (8 <= bucketsz m) by (rewrite S3; unfold bucket_size; dlia).
  assert (keyed m1) as Hk1 by (by apply (keyed_ext m)).
  wp_step. eapply wp_get_map; [done|]. cbn [nbuckets cap buckets bucketsz m1 set_count].
  (* what the memory looks like afterwards *)
  assert (∀ υ a τ m', owned p (buckets m) a σ (HState (maps υ) (arrays υ) (elfreed σ)) →
            elfreed υ = elfreed σ2 → is_Some (arrays τ !! a) → map_rep τ p m' ∅ → touched p a υ τ → buckets m' = a →
            ∃ m' l, map_rep τ p m' ∅ ∧ l ≡ₚ (map_to_list (abs (items T))).*2 ∧
              owned p (buckets m) (buckets m') σ (HState (maps τ) (arrays τ) (elfreed σ)) ∧
              elfreed τ = elfreed σ ++ if elfree m then l else []) as Hend.
  { intros υ b τ m' O1 E1 Hsome Hrep [T1 T2 T3] <-. exists m', (items T). split_and!; [done|done| |].
    - eapply touched_after; [done|done|]. split; cbn; auto.
    - rewrite T3, E1. unfold σ2, freed_items. cbn. by rewrite (tc_elfreed _ _ _ _ B1). }
  assert (owned p (buckets m) (buckets m) σ (HState (maps σ2) (arrays σ2) (elfreed σ))) as Hown.
  { destruct B1 as [B1 B2 B3]. split; cbn; auto. }
  assert (∀ τ a m', map_rep τ p m' ∅ → buckets m' = a → is_Some (arrays τ !! a)) as Hsome.
  { intros τ b m' (T' & [_ [R' HR'] _ _ _] & _) <-. by eexists. }
  assert (lenZ T <= lenZ (T ++ R)) as HTR by (rewrite lenZ_app; pose proof (lenZ_nonneg R); lia).
  assert (bucketsz m * 2 ^ k < 4294967296) as Hsz by (by rewrite <- Ek).
  destruct update_cap; [|destruct (nbuckets m =? cap m) eqn:E; b2p; cbn [negb]].
  - wp_step. apply wp_modify. eapply wp_mono.
    { eapply (clear_end_spec _ p (set_array (nbuckets m) (buckets m) (nbuckets m) (mask m) (growat m) (shrinkat m) m1) (T ++ R) k);
        try done; [apply lookup_insert_eq|lia|by apply (keyed_ext m)]. }
    intros ? τ (m' & R1 & R2 & R3). eapply (Hend (set_maps _ σ2) (buckets m)); [|done|by eapply Hsome|done|exact R2|done].
    destruct Hown. split; cbn; auto. intros q Hq. rewrite lookup_insert_ne by done. auto.
  - wp_step. wp_step. eapply wp_mono.
    { eapply (clear_end_spec _ p m1 (T ++ R) k); try done; cbn; [congruence|lia]. }
    intros ? τ (m' & R1 & R2 & R3). eapply (Hend σ2 (buckets m)); try done. by eapply Hsome.
  - assert (c < k) as Hck by (apply (Z.pow_lt_mono_r_iff 2); lia).
    assert (bucketsz m * 2 ^ c < 4294967296) as Hsz' by (assert (2 ^ c < 2 ^ k) by (apply Z.pow_lt_mono_r; lia); nia).
    assert (0 < 2 ^ c) by (apply Z.pow_pos_nonneg; lia).
    pose (m2 := fun b => set_array (cap m) b (cap m) (mask m) (growat m) (shrinkat m) m1).
    wp_step. unfold alloc_array. wp_step. wp_step. rewrite Ec, u32_small by nia. cbn zeta.
    wp_step. set (b := vec_addr _ _). apply wp_if; intros Ea; b2p; wp_step; wp_step.
    + rewrite Z.eqb_refl. cbn [negb]. wp_step. unfold update. wp_step. eapply wp_get_map; [done|]. apply wp_modify. eapply wp_mono.
      { eapply (clear_end_spec _ p (m2 (buckets m)) (T ++ R) c); try done;
          [apply lookup_insert_eq|lia|cbn; lia|by apply (keyed_ext m)]. }
      intros ? τ (m' & R1 & R2 & R3). eapply (Hend (set_maps _ σ2) (buckets m)); [|done|by eapply Hsome|done|exact R2|done].
      destruct Hown. split; cbn; auto. intros q Hq. rewrite lookup_insert_ne by done. auto.
    + destruct (vec_fresh σ2 _ Ea) as [_ Hb]. fold b in Hb. cbn in Hb.
      assert (buckets m ≠ b) as Hbne by congruence.
      wp_step. wp_step. rewrite (proj2 (Z.eqb_neq b NULL) Ea). cbn [negb]. wp_step. unfold FreeArray. wp_step.
      eapply wp_get_array; [cbn; rewrite lookup_insert_ne by done; apply M2|]. apply wp_modify. apply wp_modify.
      unfold update. wp_step. eapply wp_get_map; [apply lookup_insert_eq|]. apply wp_modify.
      rewrite Z.mul_comm, Z.div_mul by lia. set (υ := set_maps _ _). eapply wp_mono.
      { eapply (clear_end_spec υ p (m2 b) (replicate (Z.to_nat (2 ^ c)) junk) c); try done;
          [by cbn; rewrite lookup_insert_eq, <- Ec|by cbn; rewrite lookup_delete_ne, lookup_insert_eq|lia
          |rewrite lenZ_replicate by lia; lia|by apply (keyed_ext m)]. }
      intros ? τ (m' & R1 & R2 & R3). eapply (Hend υ b); [|done|by eapply Hsome|done|exact R2|done].
      destruct B1 as [B1 B2 B3]. split; cbn; [| |right; split|done].
      * intros q Hq. rewrite !lookup_insert_ne by done. auto.
      * intros d Hd Hd'. rewrite lookup_delete_ne, lookup_insert_ne by done. auto.
      * rewrite <- B2 by done. done.
      * by rewrite lookup_delete_eq.
Qed.

(** A map that has just been made. *)
Lemma fresh_rep σ q es k s0 s1 h cm ef u a :
  4 <= k <= 31 → 0 <= es → bucket_size es * 2 ^ k < 4294967296 →
  keyed (fresh_map es (2 ^ k) s0 s1 h cm ef u a) →
  map_rep (set_maps <[q := fresh_map es (2 ^ k) s0 s1 h cm ef u a]>
             (set_arrays <[a := replicate (Z.to_nat (2 ^ k)) zero_bucket]> σ))
          q (fresh_map es (2 ^ k) s0 s1 h cm ef u a) ∅.
Proof.
  intros Hk He Hsz Hkey. exists (replicate (Z.to_nat (2 ^ k)) zero_bucket).
  assert (2 ^ 4 <= 2 ^ k < 2 ^ 32) by (split; [apply Z.pow_le_mono_r|apply Z.pow_lt_mono_r]; lia).
  pose proof (GROW_AT_bound (2 ^ k)). pose proof (SHRINK_AT_bound (2 ^ k)).
  split_and!; [| |apply table_new; lia|by rewrite items_new; constructor|done|by rewrite items_new].
  - split; cbn; [by rewrite lookup_insert_eq| |apply lenZ_replicate; lia|exists k; split; [lia|done]|done].
    exists []. by rewrite lookup_insert_eq, app_nil_r.
  - split; cbn; rewrite ?items_new; try done; try lia. exists k. lia.
Qed.

(** ** Theorems *)

(** The element in the [i]-th bucket of the map [m]. *)
Definition item_at σ m (i : Z) : option item :=
  l ← arrays σ !! buckets m; b ← l !! Z.to_nat i; content b.

Lemma item_at_slot σ p m T i : at_map σ p m T → 0 <= i < nbuckets m → item_at σ m i = content (slot T i).
Proof.
  intros [_ [R H2] H3 _ _] Hi. unfold item_at. rewrite H2. cbn.
  rewrite lookup_app_l by (unfold lenZ in H3; lia). by rewrite lookup_slot by lia.
Qed.

(** C7: the hash map refines a finite map from keys to elements.  [hashmap_get]
    returns the element of the key where it is, or NULL; [hashmap_set] inserts the
    element and returns the one it replaces, or, if there is no memory to grow,
    NULL with [oom] set and nothing changed; [hashmap_delete] removes the element
    and returns it, or NULL; [hashmap_count] is the number of elements.  All of
    them return, touch no other map, and lose no memory when the array moves.  The
    16 bits of [dib] limit a map to 65535 elements, and the request for a larger
    array has to fit in 32 bits. *)
Theorem hashmap_refines `{!AllocVec} σ p m A x :
  map_rep σ p m A → can_grow m → Z.of_nat (size A) < 65535 →
  wp (hashmap_get p x)
     (fun r τ => τ = σ ∧ match A !! key x with
                         | None => r = RNull
                         | Some y => ∃ i, r = RBucket i ∧ item_at σ m i = Some y
                         end) σ ∧
  wp (hashmap_set p x)
     (fun r τ => ∃ m', owned p (buckets m) (buckets m') σ τ ∧
        if oom m' then r = RNull ∧ map_rep τ p m' A
        else map_rep τ p m' (<[key x := x]> A) ∧ set_result A x r m') σ ∧
  wp (hashmap_delete p x)
     (fun r τ => ∃ m', map_rep τ p m' (delete (key x) A) ∧ owned p (buckets m) (buckets m') σ τ ∧
        set_result A x r m') σ ∧
  wp (hashmap_count p) (fun c τ => τ = σ ∧ c = Z.of_nat (size A)) σ.
Proof.
  intros Hrep Hgrow Hlim. destruct (Hrep) as (T & HA & Hs & HT & Hnd & Hk & <-).
  assert (count m = Z.of_nat (size (abs (items T)))) as Hc by (rewrite abs_size by done; apply Hs).
  split_and!.
  - unfold hashmap_get. wp_step. eapply wp_get_map; [apply HA|]. rewrite (kd_hash _ Hk). eapply wp_mono.
    + apply (get_spec σ p m T x HA Hk HT). eapply shape_room; [done|apply HA|]. apply (at_map_pos HA).
    + intros r τ [-> [[-> Hn]|(i & Hi & -> & Hd & Hx)]]; (split; [done|]).
      * by rewrite (proj2 (abs_none _ _) Hn).
      * rewrite (proj2 (abs_lookup (items T) (key x) (b_item (slot T i)) Hnd)).
        2: { split; [|done]. apply slot_item; [by apply table_pos|done]. }
        exists i. split; [done|]. rewrite (item_at_slot σ p m T) by done. by apply content_occ.
  - apply set_spec; [done|done|lia].
  - apply delete_spec; [done|lia].
  - unfold hashmap_count. wp_step. eapply wp_get_map; [apply HA|]. by wp_step.
Qed.

(** iterating over a map yields every element once: the cursor of
    [hashmap_iter] finds the elements in the order [l] of the buckets and ends;
    [hashmap_scan] tells whether all elements satisfy its test, and
    [hashmap_scan_item] finds the first that does.  None of them changes the map. *)
Theorem hashmap_walks σ p m A {B} (test : item → bool) (select : item → option B) :
  map_rep σ p m A →
  ∃ l, l ≡ₚ (map_to_list A).*2 ∧
  wp (hashmap_elements p) (fun l' τ => τ = σ ∧ l' = l) σ ∧
  wp (hashmap_scan p test) (fun r τ => τ = σ ∧ r = forallb test l) σ ∧
  wp (hashmap_scan_item p select) (fun r τ => τ = σ ∧ r = head (omap select l)) σ.
Proof.
  intros (T & HA & Hs & HT & Hnd & Hk & <-). exists (items T).
  split_and!; [by apply abs_values|by eapply elements_spec|by eapply scan_spec|by eapply scan_item_spec].
Qed.

(** C8: the life of a map.  [hashmap_new] returns NULL and changes nothing, or a
    map without elements in memory that was free; [hashmap_clear] removes all
    elements, whatever its allocation of a smaller array does; [hashmap_free]
    returns the memory of the map and of its array.  Both hand every element
    once to the function that frees elements, if there is one. *)
Theorem hashmap_lifecycle `{!AllocVec} σ p m A junk update_cap es c s0 s1 h cm ef u :
  map_rep σ p m A → p ≠ NULL →
  (∀ a k, keyed (fresh_map es (2 ^ k) s0 s1 h cm ef u a)) →
  0 <= es → es + 16 < 4294967296 → c <= 2147483648 → bucket_size es * Z.max 16 (2 * c) < 4294967296 →
  wp (hashmap_new es c s0 s1 h cm ef u)
     (fun q τ => if q =? NULL then τ = σ
                 else ∃ m', map_rep τ q m' ∅ ∧ c <= cap m' ∧ maps σ !! q = None ∧ arrays σ !! buckets m' = None ∧
                      owned q (buckets m') (buckets m') σ τ) σ ∧
  wp (hashmap_clear junk p update_cap)
     (fun _ τ => ∃ m' l, map_rep τ p m' ∅ ∧ l ≡ₚ (map_to_list A).*2 ∧
        owned p (buckets m) (buckets m') σ (HState (maps τ) (arrays τ) (elfreed σ)) ∧
        elfreed τ = elfreed σ ++ if elfree m then l else []) σ ∧
  wp (hashmap_free p)
     (fun _ τ => ∃ l, l ≡ₚ (map_to_list A).*2 ∧
        τ = HState (delete p (maps σ)) (delete (buckets m) (arrays σ))
              (elfreed σ ++ if elfree m then l else [])) σ.
Proof.
  intros Hrep Hp Hkn He He' Hc Hsz. split_and!; [|by apply clear_spec|].
  - eapply wp_mono; [by apply new_spec|]. intros q τ [[-> ->]|(Hq & k & a & Hk & Hle & _ & Hsz' & Hqf & Haf & ->)];
      [by rewrite Z.eqb_refl|].
    rewrite (proj2 (Z.eqb_neq q NULL) Hq). exists (fresh_map es (2 ^ k) s0 s1 h cm ef u a). split; [|split; [|split; [done|split; [done|]]]]; cbn; try done.
    + apply fresh_rep; [lia|done|done|apply Hkn].
    + split; cbn; try done; [intros r Hr|intros b Hb _|by left]; by rewrite lookup_insert_ne.
  - destruct Hrep as (T & HA & Hs & HT & Hnd & Hk & <-). eapply wp_mono; [by eapply free_spec|].
    intros ? τ ->. exists (items T). split; [by apply abs_values|done].
Qed.
End Heap.

(** ** A concrete map

    Elements are pairs of a number, which is the key, and a value; the hash is the
    number itself. *)

Definition demo_addrs : list Z := [1000; 2000; 3000; 4000].
Definition demo_free (σ : hstate (Z * Z)) (a : Z) : bool :=
  bool_decide (maps σ !! a = None) && bool_decide (arrays σ !! a = None).
Definition demo_addr (σ : hstate (Z * Z)) (size : Z) : Z :=
  default NULL (head (List.filter (demo_free σ) demo_addrs)).

#[export] Instance demo_vec : AllocVec (item := Z * Z).
Proof.
  refine {| vec_addr := demo_addr |}. intros σ size. unfold demo_addr.
  destruct (List.filter _ _) as [|a l] eqn:E; [done|]. intros _. cbn.
  assert (a ∈ List.filter (demo_free σ) demo_addrs) as Ha by (rewrite E; set_solver).
  apply list_elem_of_In, filter_In in Ha as [_ Ha]. unfold demo_free in Ha. b2p.
  by split; eapply bool_decide_eq_true.
Defined.

Definition pair_hash (x : Z * Z) (_ _ : Z) : Z := x.1.
Definition pair_cmp (x y : Z * Z) (_ : Z) : Z := x.1 - y.1.

Definition state_of {A} (r : res (A * hstate (Z * Z))) : hstate (Z * Z) :=
  match r with Ok (_, τ) => τ | _ => HState ∅ ∅ [] end.
Definition demo_new : res (Z * hstate (Z * Z)) :=
  hashmap_new 8 0 0 0 pair_hash (Some pair_cmp) true 0 (HState ∅ ∅ []).
Definition demo_set : res (ref * hstate (Z * Z)) := hashmap_set 1000 (7, 70) (state_of demo_new).
Definition demo_map : hstate (Z * Z) := state_of demo_set.
Definition demo_struct : hashmap (Z * Z) :=
  default (fresh_map 8 16 0 0 pair_hash (Some pair_cmp) true 0 0) (maps demo_map !! 1000).

Lemma pair_keyed m :
  hash m = pair_hash → compare m = Some pair_cmp → keyed fst clip_hash m.
Proof.
  intros E1 E2. split.
  - intros x. unfold get_hash. by rewrite E1.
  - intros x y _. unfold same_item. rewrite E2. unfold pair_cmp. case_bool_decide; [apply Z.eqb_eq|apply Z.eqb_neq]; lia.
Qed.

Lemma demo_new_rep :
  map_rep fst clip_hash (state_of demo_new) 1000
    (fresh_map 8 (2 ^ 4) 0 0 pair_hash (Some pair_cmp) true 0 2000) ∅.
Proof.
  assert (demo_new = Ok (1000, set_maps <[1000 := fresh_map 8 (2 ^ 4) 0 0 pair_hash (Some pair_cmp) true 0 2000]>
                                (set_arrays <[2000 := replicate (Z.to_nat (2 ^ 4)) zero_bucket]> (HState ∅ ∅ []))))
    as -> by (vm_compute; reflexivity).
  apply fresh_rep; [lia|lia|reflexivity|by apply pair_keyed].
Qed.

Lemma demo_rep : map_rep fst clip_hash demo_map 1000 demo_struct {[7 := (7, 70)]}.
Proof.
  assert (demo_set = Ok (RNull, demo_map)) as E by (vm_compute; reflexivity).
  assert (maps demo_map !! 1000 = Some demo_struct) as Em by (vm_compute; reflexivity).
  assert (oom demo_struct = false) as Eo by (vm_compute; reflexivity).
  pose proof (set_spec fst clip_hash _ _ _ _ (7, 70) demo_new_rep) as Hs. unfold wp in Hs. unfold demo_set in E.
  rewrite E in Hs. destruct Hs as (m' & _ & Hm); [intros H; vm_compute in H; discriminate|vm_compute; reflexivity|].
  assert (m' = demo_struct) as ->.
  { destruct (oom m'); [destruct Hm as [_ Hm]|destruct Hm as [Hm _]]; destruct Hm as (T & [Hm' _ _ _ _] & _); congruence. }
  rewrite Eo in Hm. apply Hm.
Qed.

Lemma hashmap_refines_witness :
  wp (hashmap_get 1000 (7, 0))
     (fun r τ => τ = demo_map ∧ ∃ i, r = RBucket i ∧ item_at demo_map demo_struct i = Some (7, 70)) demo_map.
Proof.
  refine (proj1 (hashmap_refines fst clip_hash demo_map 1000 demo_struct {[7 := (7, 70)]} (7, 0) demo_rep _ _)).
  - intros H. vm_compute in H. discriminate.
  - vm_compute. reflexivity.
Defined.

Lemma hashmap_walks_witness :
  ∃ l, l ≡ₚ (map_to_list ({[7 := (7, 70)]} : gmap Z (Z * Z))).*2 ∧
  wp (hashmap_elements 1000) (fun l' τ => τ = demo_map ∧ l' = l) demo_map ∧
  wp (hashmap_scan 1000 (fun x => x.2 =? 70)) (fun r τ => τ = demo_map ∧ r = forallb (fun x => x.2 =? 70) l) demo_map ∧
  wp (hashmap_scan_item 1000 (fun x => Some x.2)) (fun r τ => τ = demo_map ∧ r = head (omap (fun x => Some x.2) l)) demo_map.
Proof. exact (hashmap_walks fst clip_hash demo_map 1000 demo_struct _ (fun x => x.2 =? 70) (fun x => Some x.2) demo_rep). Defined.

Lemma hashmap_lifecycle_witness :
  wp (hashmap_free 1000)
     (fun _ τ => ∃ l, l ≡ₚ (map_to_list ({[7 := (7, 70)]} : gmap Z (Z * Z))).*2 ∧
        τ = HState (delete 1000 (maps demo_map)) (delete (buckets demo_struct) (arrays demo_map))
              (elfreed demo_map ++ if elfree demo_struct then l else [])) demo_map.
Proof.
  refine (proj2 (proj2 (hashmap_lifecycle fst clip_hash demo_map 1000 demo_struct _ zero_bucket false
            8 100 0 0 pair_hash (Some pair_cmp) true 0 demo_rep _ _ _ _ _ _))); [done| |lia|lia|lia|reflexivity].
  intros a k. by apply pair_keyed.
Defined.
