(* ===== verification/Fds.v ===== *)
(** * File descriptors

    stdio/fdhookentry.c (reading, writing and seeking), get_file_descriptor.c,
    iobhookentry.c, grow_file.c and fcntl/read.c, write.c.  A file descriptor is a
    slot of a table; what dos.library does with the file behind it is the class
    [Dos] with its documented laws.  Locks and the check for Ctrl-C are left out:
    the model is of one thread. *)

From stdpp Require Import base numbers gmap list.
From S2P Require Import Prelude CMem.
Open Scope Z_scope.
#[local] Set Warnings "-clear-no-such-hyp".

(** ** Flags *)

Definition FLAG_IS_SET (v f : Z) : bool := Z.land v f =? f.
Definition FLAG_IS_CLEAR (v f : Z) : bool := Z.land v f =? 0.
Definition SET_FLAG (v f : Z) : Z := Z.lor v f.
Definition CLEAR_FLAG (v f : Z) : Z := Z.ldiff v f.

Definition FDF_READ : Z := 2 ^ 0.
Definition FDF_WRITE : Z := 2 ^ 1.
Definition FDF_APPEND : Z := 2 ^ 2.
Definition FDF_IS_SOCKET : Z := 2 ^ 5.
Definition FDF_IN_USE : Z := 2 ^ 7.
Definition FDF_CACHE_POSITION : Z := 2 ^ 9.
Definition FDF_IS_INTERACTIVE : Z := 2 ^ 11.
Definition FDF_IS_DIRECTORY : Z := 2 ^ 15.
Definition FDF_PATH_ONLY : Z := 2 ^ 16.
Definition FDF_STDIN_AS_SOCKET : Z := 2 ^ 17.
Definition FDF_STDIN_READ_MARK : Z := 2 ^ 18.
Definition FDF_PIPE : Z := 2 ^ 19.
Definition FDF_LITTLE_ENDIAN : Z := 2 ^ 22.

Definition EOF : Z := -1.
Definition OK : Z := 0.
Definition EPERM : Z := 1.
Definition EBADF : Z := 9.
Definition EPIPE : Z := 32.
Definition EAGAIN : Z := 35.
Definition CHANGE_FILE_ERROR : Z := 0.
Definition GETPOSITION_ERROR : Z := -1.
Definition SEEK_SET : Z := 0.
Definition SEEK_CUR : Z := 1.
Definition SEEK_END : Z := 2.

(** ** dos.library

    Where bytes [l] are written at position [p] of a file with content [c]. *)
Definition overwrite (c : list Z) (p : Z) (l : list Z) : list Z :=
  take (Z.to_nat p) c ++ l ++ drop (Z.to_nat (p + lenZ l)) c.

Inductive offset_mode := OFFSET_BEGINNING | OFFSET_CURRENT | OFFSET_END.

(** An open file, and the functions of dos.library with the value of [IoErr()]
    afterwards.  [content] and [position] are what the file system keeps; the laws
    are those of a file on a disk: a call does what it is asked for or fails. *)
Class Dos := {
  handle : Type;
  dos_Read : handle → Z → Z * list Z * Z * handle;
  dos_Write : handle → list Z → Z * Z * handle;
  dos_ChangeFilePosition : handle → Z → offset_mode → Z * Z * handle;
  dos_GetFilePosition : handle → Z * Z;
  dos_GetFileSize : handle → Z;
  (* the size according to ExamineObjectTags *)
  dos_FileSize : handle → option Z;
  (* the block size according to the file system, or 0 *)
  dos_BytesPerBlock : handle → Z;
  (* whether malloc has memory for a buffer of this size *)
  buffer_memory : Z → bool;
  __translate_io_error_to_errno : Z → Z;
  content : handle → list Z;
  position : handle → Z;
  position_ok : ∀ h, 0 <= position h <= lenZ (content h);
  content_byte : ∀ h, Forall is_byte (content h);
  dos_Read_ok : ∀ h n, 0 < n →
    let '(r, l, _, h') := dos_Read h n in
    content h' = content h ∧
    ((r = EOF ∧ position h' = position h) ∨
     (r = lenZ l ∧ l = take (Z.to_nat n) (drop (Z.to_nat (position h)) (content h)) ∧
      position h' = position h + r));
  dos_Write_ok : ∀ h l, 0 < lenZ l → Forall is_byte l →
    let '(r, _, h') := dos_Write h l in
    r = EOF ∨ (r = lenZ l ∧ content h' = overwrite (content h) (position h) l ∧ position h' = position h + r);
  dos_Change_ok : ∀ h o m,
    let '(r, _, h') := dos_ChangeFilePosition h o m in
    content h' = content h ∧
    ((r = CHANGE_FILE_ERROR ∧ position h' = position h) ∨
     (r ≠ CHANGE_FILE_ERROR ∧
      position h' = o + match m with
                        | OFFSET_BEGINNING => 0
                        | OFFSET_CURRENT => position h
                        | OFFSET_END => lenZ (content h)
                        end));
  dos_Position_ok : ∀ h, dos_GetFilePosition h = (position h, 0);
  dos_Size_ok : ∀ h, dos_GetFileSize h = lenZ (content h);
  dos_FileSize_ok : ∀ h n, dos_FileSize h = Some n → n = lenZ (content h);
  translate_error : ∀ e, __translate_io_error_to_errno e ≠ OK
}.

(** ** The state *)

Section Model.
Context `{Dos}.

(** [fd_Original]: the slot that this one is a duplicate of. *)
Record fd := Fd {
  fd_Flags : Z; fd_File : option handle; fd_Position : Z;
  fd_Original : option Z; fd_UserData : Z
}.

(** [iob_Buffer] is the memory that the stream uses as its buffer. *)
Record iob := Iob {
  iob_Flags : Z; iob_Buffer : list Z; iob_BufferSize : Z; iob_BufferPosition : Z;
  iob_BufferReadBytes : Z; iob_BufferWriteBytes : Z; iob_Flags2 : Z; iob_Descriptor : Z
}.

(** Memory with errno, the tables [__iob] and [__fd], and the setting
    [__unix_path_semantics]. *)
Record sstate := SState {
  sc : cstate; iobs : list (option iob); fds : list (option fd); unix_path_semantics : bool
}.

Definition with_sc (c : cstate) (σ : sstate) : sstate := SState c (iobs σ) (fds σ) (unix_path_semantics σ).
Definition with_iobs (l : list (option iob)) (σ : sstate) : sstate := SState (sc σ) l (fds σ) (unix_path_semantics σ).
Definition with_fds (l : list (option fd)) (σ : sstate) : sstate := SState (sc σ) (iobs σ) l (unix_path_semantics σ).

Definition in_memory {A} (c : M cstate A) : M sstate A :=
  fun σ => match c (sc σ) with
           | Ok (a, s) => Ok (a, with_sc s σ)
           | Fault => Fault
           | NoFuel => NoFuel
           end.
Definition __set_errno (e : Z) : M sstate unit := in_memory (set_errno e).

(** Access to a descriptor through a valid pointer. *)
Definition get_fd (p : Z) : M sstate fd :=
  fun σ => match fds σ !! Z.to_nat p with Some (Some f) => Ok (f, σ) | _ => Fault end.
Definition set_fd (p : Z) (f : fd) : M sstate unit :=
  modify (fun σ => with_fds (<[Z.to_nat p := Some f]> (fds σ)) σ).
Definition set_fd_Flags (v : Z) (f : fd) : fd := Fd v (fd_File f) (fd_Position f) (fd_Original f) (fd_UserData f).
Definition set_fd_File (h : handle) (f : fd) : fd := Fd (fd_Flags f) (Some h) (fd_Position f) (fd_Original f) (fd_UserData f).
Definition set_fd_Position (v : Z) (f : fd) : fd := Fd (fd_Flags f) (fd_File f) v (fd_Original f) (fd_UserData f).

(** The slot of a descriptor, or nothing if it is not in use. *)
Definition get_file_descriptor (resolve : bool) (file_descriptor : Z) : M sstate (option Z) :=
  σ ← get;
  if (file_descriptor <? 0) || (lenZ (fds σ) <=? file_descriptor) then mret None
  else
    match fds σ !! Z.to_nat file_descriptor with
    | Some (Some f) =>
        if FLAG_IS_CLEAR (fd_Flags f) FDF_IN_USE then mret None
        else mret (Some (if resolve then default file_descriptor (fd_Original f) else file_descriptor))
    | _ => mret None
    end.
Definition __get_file_descriptor : Z → M sstate (option Z) := get_file_descriptor true.

Definition is_file (flags : Z) : bool :=
  negb (FLAG_IS_SET flags FDF_IS_DIRECTORY) && negb (FLAG_IS_SET flags FDF_PATH_ONLY).

(** Is the other side of a pipe still there? *)
Definition other_side (f : fd) : M sstate bool :=
  if 0 <? fd_UserData f then r ← __get_file_descriptor (fd_UserData f); mret (bool_decide (is_Some r))
  else mret false.

(** *** [__fd_hook_entry]

    An action returns its result, the data it has read and [fam_Error].  For a
    pipe, the tests that follow the first one on FDF_PIPE cannot be reached. *)

Definition fd_action_read (p size : Z) : M sstate (Z * list Z * Z) :=
  f ← get_fd p;
  match fd_File f with
  | None => mret (EOF, [], EBADF)
  | Some file =>
      if is_file (fd_Flags f) then
        if FLAG_IS_SET (fd_Flags f) FDF_STDIN_READ_MARK then
          _ ← set_fd p (set_fd_Flags (CLEAR_FLAG (fd_Flags f) FDF_STDIN_READ_MARK) f);
          mret (EOF, [], EAGAIN)
        else
          let '(result, data, ioerr, file) := dos_Read file size in
          _ ← set_fd p (set_fd_File file f);
          if result =? EOF then
            if FLAG_IS_SET (fd_Flags f) FDF_PIPE then
              other ← other_side f;
              if other : bool then mret (EOF, [], EAGAIN) else mret (0, [], 0)
            else mret (EOF, [], __translate_io_error_to_errno ioerr)
          else
            f ← get_fd p;
            let f := set_fd_Position (fd_Position f + result) f in
            let marked := FLAG_IS_SET (fd_Flags f) FDF_STDIN_AS_SOCKET && (0 <? result) &&
                          ((nthZ data (result - 1) =? 13) || (nthZ data (result - 1) =? 10)) in
            _ ← set_fd p (if marked then set_fd_Flags (SET_FLAG (fd_Flags f) FDF_STDIN_READ_MARK) f else f);
            mret (result, data, OK)
      else mret (EOF, [], EBADF)
  end.

(** Moving to the end of a file that is opened for appending: an error, or the
    file. *)
Definition seek_to_end (p : Z) (file : handle) : M sstate (Z + handle) :=
  let '(pos, ioerr, file) := dos_ChangeFilePosition file 0 OFFSET_END in
  f ← get_fd p; _ ← set_fd p (set_fd_File file f);
  if negb (pos =? CHANGE_FILE_ERROR) then
    f ← get_fd p;
    if FLAG_IS_SET (fd_Flags f) FDF_CACHE_POSITION then
      let '(here, ioerr) := dos_GetFilePosition file in
      _ ← set_fd p (set_fd_Position here f);
      if here =? GETPOSITION_ERROR then mret (inl (__translate_io_error_to_errno ioerr)) else mret (inr file)
    else mret (inr file)
  else mret (inl (__translate_io_error_to_errno ioerr)).

(** Writing also returns the value of [IoErr()]. *)
Definition fd_action_write (p : Z) (data : list Z) : M sstate (Z * Z * Z) :=
  f ← get_fd p;
  match fd_File f with
  | None => mret (EOF, EBADF, 0)
  | Some file =>
      if is_file (fd_Flags f) then
        r ← (if FLAG_IS_SET (fd_Flags f) FDF_APPEND then seek_to_end p file else mret (inr file));
        match r with
        | inl e => mret (EOF, e, 0)
        | inr file =>
            let '(result, ioerr, file) := dos_Write file data in
            f ← get_fd p; _ ← set_fd p (set_fd_File file f);
            if result =? EOF then
              if FLAG_IS_SET (fd_Flags f) FDF_PIPE then
                other ← other_side f;
                if other : bool then mret (EOF, EAGAIN, ioerr) else mret (EOF, EPIPE, ioerr)
              else mret (EOF, __translate_io_error_to_errno ioerr, ioerr)
            else
              f ← get_fd p; _ ← set_fd p (set_fd_Position (fd_Position f + result) f);
              mret (result, OK, ioerr)
        end
      else mret (EOF, EBADF, 0)
  end.

(** [__grow_file_size]: zeros behind the end of the file; 0 or -1, and [IoErr()]. *)
Definition ERROR_NO_FREE_STORE : Z := 103.
Definition __grow_file_size (p num_bytes : Z) : M sstate (Z * Z) :=
  f ← get_fd p;
  match fd_File f with
  | None => fault
  | Some file =>
      let block_size := Z.max 512 (dos_BytesPerBlock file) in
      let buffer_size := Z.min (8 * block_size) num_bytes in
      if negb (buffer_memory buffer_size) then mret (-1, ERROR_NO_FREE_STORE)
      else
        let '(r, ioerr, file) := dos_ChangeFilePosition file 0 OFFSET_END in
        _ ← set_fd p (set_fd_File file f);
        if r =? CHANGE_FILE_ERROR then mret (-1, ioerr)
        else
          let current_position := fst (dos_GetFilePosition file) in
          let alignment_skip :=
            if (block_size <? num_bytes) && negb (Z.rem current_position block_size =? 0)
            then block_size - Z.rem current_position block_size else 0 in
          loop (fun '(num_bytes, alignment_skip) =>
                  if 0 <? num_bytes then
                    let size := Z.min buffer_size num_bytes in
                    let size := if (0 <? alignment_skip) && (alignment_skip <? size) then alignment_skip else size in
                    f ← get_fd p;
                    match fd_File f with
                    | None => fault
                    | Some file =>
                        let '(bytes_written, ioerr, file) := dos_Write file (replicate (Z.to_nat size) 0) in
                        _ ← set_fd p (set_fd_File file f);
                        if negb (bytes_written =? size) then break (-1, ioerr) else continue (num_bytes - size, 0)
                    end
                  else break (OK, 0)) (num_bytes, alignment_skip)
  end.

(** The part of [file_action_seek] that runs when the position changes. *)
Definition change_position (p offset : Z) (new_mode : offset_mode) (new_position : Z) : M sstate (Z * Z) :=
  f ← get_fd p;
  match fd_File f with
  | None => fault
  | Some file =>
      let '(r, ioerr, file) := dos_ChangeFilePosition file offset new_mode in
      _ ← set_fd p (set_fd_File file f);
      if r =? CHANGE_FILE_ERROR then
        σ ← get;
        if unix_path_semantics σ then
          match dos_FileSize file with
          | None => mret (EOF, __translate_io_error_to_errno ioerr)
          | Some FileSize =>
              if new_position <=? FileSize then mret (EOF, __translate_io_error_to_errno ioerr)
              else if FLAG_IS_CLEAR (fd_Flags f) FDF_WRITE then mret (EOF, EPERM)
              else
                '(g, ioerr) ← __grow_file_size p (s32 (new_position - FileSize));
                if g <? 0 then mret (EOF, __translate_io_error_to_errno ioerr)
                else
                  f ← get_fd p; _ ← set_fd p (set_fd_Position new_position f);
                  mret (new_position, OK)
          end
        else mret (EOF, __translate_io_error_to_errno ioerr)
      else
        let '(new_position, ioerr) := dos_GetFilePosition file in
        let error := if new_position =? GETPOSITION_ERROR then __translate_io_error_to_errno ioerr else OK in
        f ← get_fd p; _ ← set_fd p (set_fd_Position new_position f);
        mret (new_position, error)
  end.

Definition fd_action_seek (p offset mode : Z) : M sstate (Z * Z) :=
  f ← get_fd p;
  match fd_File f with
  | None => mret (EOF, EBADF)
  | Some file =>
      if is_file (fd_Flags f) then
        let new_mode := if mode =? SEEK_CUR then OFFSET_CURRENT
                        else if mode =? SEEK_SET then OFFSET_BEGINNING else OFFSET_END in
        let current :=
          if FLAG_IS_SET (fd_Flags f) FDF_CACHE_POSITION then Some (fd_Position f)
          else let '(pos, ioerr) := dos_GetFilePosition file in
               if (pos =? GETPOSITION_ERROR) || negb (ioerr =? OK) then None else Some pos in
        match current with
        | None => mret (EOF, EBADF)
        | Some current_position =>
            let new_position :=
              match new_mode with
              | OFFSET_CURRENT => current_position + offset
              | OFFSET_BEGINNING => offset
              | OFFSET_END =>
                  let file_size := dos_GetFileSize file in
                  if negb (file_size =? GETPOSITION_ERROR) then file_size + offset else current_position
              end in
            if new_position <? 0 then
              let '(_, _, file) := dos_ChangeFilePosition file 0 OFFSET_BEGINNING in
              _ ← set_fd p (set_fd_Position 0 (set_fd_File file f));
              mret (0, OK)
            else if negb (new_position =? current_position) then
              change_position p offset new_mode new_position
            else mret (new_position, OK)
        end
      else mret (EOF, EBADF)
  end.

(** *** [__iob_hook_entry]: the descriptor of a stream, or the error EBADF *)

Definition iob_fd (file_iob : iob) : M sstate (option Z) :=
  σ ← get;
  match fds σ !! Z.to_nat (iob_Descriptor file_iob) with
  | Some (Some _) => __get_file_descriptor (iob_Descriptor file_iob)
  | _ => mret None
  end.
Definition iob_action_read (file_iob : iob) (size : Z) : M sstate (Z * list Z * Z) :=
  p ← iob_fd file_iob;
  match p with None => mret (EOF, [], EBADF) | Some p => fd_action_read p size end.
Definition iob_action_write (file_iob : iob) (data : list Z) : M sstate (Z * Z * Z) :=
  p ← iob_fd file_iob;
  match p with None => mret (EOF, EBADF, 0) | Some p => fd_action_write p data end.
Definition iob_action_seek (file_iob : iob) (offset mode : Z) : M sstate (Z * Z) :=
  p ← iob_fd file_iob;
  match p with None => mret (EOF, EBADF) | Some p => fd_action_seek p offset mode end.

(** *** read and write

    [recv] and [send_] are the functions for sockets. *)

Section Calls.
Context (recv : Z → Z → M sstate (Z * list Z)) (send_ : Z → list Z → M sstate Z).

(** The data that has been read, to be stored at the buffer of the caller. *)
Definition __read_internal (file_descriptor num_bytes : Z) : M sstate (Z * list Z) :=
  _ ← __set_errno 0;
  r ← __get_file_descriptor file_descriptor;
  match r with
  | None => _ ← __set_errno EBADF; mret (EOF, [])
  | Some p =>
      f ← get_fd p;
      if FLAG_IS_CLEAR (fd_Flags f) FDF_IN_USE && FLAG_IS_SET (fd_Flags f) FDF_PIPE then
        _ ← __set_errno EPIPE; mret (EOF, [])
      else if FLAG_IS_CLEAR (fd_Flags f) FDF_READ then _ ← __set_errno EBADF; mret (EOF, [])
      else if 0 <? num_bytes then
        if negb (FLAG_IS_SET (fd_Flags f) FDF_IS_SOCKET) then
          '(n, data, error) ← fd_action_read p (s32 num_bytes);
          if n =? EOF then _ ← __set_errno error; mret (EOF, []) else mret (n, data)
        else recv file_descriptor num_bytes
      else mret (0, [])
  end.

Definition byteswap (n : Z) (data : list Z) : list Z :=
  if (n =? 2) || (n =? 4) || (n =? 8) then reverse data else data.

Definition read (file_descriptor num_bytes : Z) : M sstate (Z * list Z) :=
  '(ret, data) ← __read_internal file_descriptor num_bytes;
  if negb (ret =? num_bytes) then mret (ret, data)
  else
    r ← __get_file_descriptor file_descriptor;
    match r with
    | None => fault
    | Some p =>
        f ← get_fd p;
        if negb (FLAG_IS_SET (fd_Flags f) FDF_IS_SOCKET) && FLAG_IS_SET (fd_Flags f) FDF_LITTLE_ENDIAN
        then mret (ret, byteswap num_bytes data) else mret (ret, data)
    end.

Definition __write_r (file_descriptor : Z) (data : list Z) : M sstate Z :=
  let num_bytes := lenZ data in
  r ← __get_file_descriptor file_descriptor;
  match r with
  | None => _ ← __set_errno EBADF; mret EOF
  | Some p =>
      f ← get_fd p;
      if FLAG_IS_CLEAR (fd_Flags f) FDF_IN_USE && FLAG_IS_SET (fd_Flags f) FDF_PIPE then
        _ ← __set_errno EPIPE; mret EOF
      else if FLAG_IS_CLEAR (fd_Flags f) FDF_WRITE then _ ← __set_errno EBADF; mret EOF
      else if 0 <? num_bytes then
        if negb (FLAG_IS_SET (fd_Flags f) FDF_IS_SOCKET) then
          '(n, error, ioerr) ← fd_action_write p data;
          if n =? EOF then _ ← __set_errno error; mret EOF
          else
            _ ← (if negb (n =? num_bytes) then __set_errno (__translate_io_error_to_errno ioerr) else mret tt);
            mret n
        else send_ file_descriptor data
      else mret 0
  end.
End Calls.
End Model.

(** ** Lemmas on flags *)

Lemma FLAG_IS_SET_bit v k : 0 <= k → FLAG_IS_SET v (2 ^ k) = Z.testbit v k.
Proof.
  intros Hk. unfold FLAG_IS_SET. destruct (Z.testbit v k) eqn:E.
  - apply Z.eqb_eq, Z.bits_inj'. intros j Hj. rewrite Z.land_spec, Z.pow2_bits_eqb by done.
    destruct (k =? j) eqn:Ek; b2p; [subst; by rewrite E|by rewrite andb_false_r].
  - apply Z.eqb_neq. intros E'. assert (Z.testbit (Z.land v (2 ^ k)) k = false) as E2 by (by rewrite Z.land_spec, E).
    rewrite E', Z.pow2_bits_true in E2 by done. done.
Qed.

Lemma FLAG_IS_CLEAR_bit v k : 0 <= k → FLAG_IS_CLEAR v (2 ^ k) = negb (Z.testbit v k).
Proof.
  intros Hk. unfold FLAG_IS_CLEAR. destruct (Z.testbit v k) eqn:E; cbn.
  - apply Z.eqb_neq. intros E'. assert (Z.testbit (Z.land v (2 ^ k)) k = true) as E2
      by (by rewrite Z.land_spec, E, Z.pow2_bits_true). by rewrite E', Z.bits_0 in E2.
  - apply Z.eqb_eq, Z.bits_inj'. intros j Hj. rewrite Z.land_spec, Z.pow2_bits_eqb, Z.bits_0 by done.
    destruct (k =? j) eqn:Ek; b2p; [subst; by rewrite E|by rewrite andb_false_r].
Qed.

Lemma SET_FLAG_bit v k j : 0 <= k → Z.testbit (SET_FLAG v (2 ^ k)) j = Z.testbit v j || (k =? j).
Proof. intros Hk. unfold SET_FLAG. by rewrite Z.lor_spec, Z.pow2_bits_eqb. Qed.
Lemma CLEAR_FLAG_bit v k j : 0 <= k → Z.testbit (CLEAR_FLAG v (2 ^ k)) j = Z.testbit v j && negb (k =? j).
Proof. intros Hk. unfold CLEAR_FLAG. by rewrite Z.ldiff_spec, Z.pow2_bits_eqb. Qed.

(** ** What an action does to a regular file *)

Section Regular.
Context `{Dos}.
Implicit Types (σ τ : sstate) (d : fd) (h : handle).

(** An open descriptor of a disk file that is no duplicate. *)
Record regular d h : Prop := {
  rg_file : fd_File d = Some h;
  rg_in_use : Z.testbit (fd_Flags d) 7 = true;
  rg_plain : ∀ k, k ∈ [2; 5; 15; 16; 17; 18; 19; 22] → Z.testbit (fd_Flags d) k = false;
  rg_original : fd_Original d = None;
  rg_cached : Z.testbit (fd_Flags d) 9 = true → fd_Position d = position h
}.

Definition fd_at σ (p : Z) d h : Prop :=
  0 <= p < lenZ (fds σ) ∧ fds σ !! Z.to_nat p = Some (Some d) ∧ regular d h.

(** Only the descriptor [p] has changed, to [d] with the file [h]. *)
Definition moved σ τ (p : Z) d h : Prop :=
  τ = with_fds (<[Z.to_nat p := Some d]> (fds σ)) σ ∧ fd_at τ p d h.

Lemma moved_trans σ τ υ p d h d' h' : moved σ τ p d h → moved τ υ p d' h' → moved σ υ p d' h'.
Proof.
  intros [-> _] [-> H2]. split; [|done]. unfold with_fds. cbn. by rewrite list_insert_insert_eq.
Qed.

Lemma wp_get_fd σ p d h Q : fd_at σ p d h → Q d σ → wp (get_fd p) Q σ.
Proof. intros (_ & E & _) HQ. unfold wp, get_fd. by rewrite E. Qed.

Lemma set_fd_at σ p d h d' h' :
  fd_at σ p d h → regular d' h' → moved σ (with_fds (<[Z.to_nat p := Some d']> (fds σ)) σ) p d' h'.
Proof.
  intros (Hp & E & _) Hr. split; [done|]. split; cbn; [unfold lenZ in *; by rewrite length_insert|].
  split; [|done]. apply list_lookup_insert_eq. unfold lenZ in Hp. lia.
Qed.

Lemma regular_is_file d h : regular d h → is_file (fd_Flags d) = true.
Proof.
  intros [_ _ Hp _ _]. unfold is_file, FDF_IS_DIRECTORY, FDF_PATH_ONLY.
  rewrite !FLAG_IS_SET_bit by lia. rewrite !Hp by set_solver. done.
Qed.

(** The file has moved on to [h'], and the cached position with it. *)
Definition advanced d h' (n : Z) : fd := set_fd_Position (fd_Position d + n) (set_fd_File h' d).

Lemma regular_advanced d h h' n :
  regular d h → position h' = position h + n → regular (advanced d h' n) h'.
Proof. intros [H1 H2 H3 H4 H5] E. split; cbn; try done. intros Hb. rewrite H5 by done. lia. Qed.

Lemma wp_set_fd σ p d h d' h' Q :
  fd_at σ p d h → regular d' h' →
  (∀ τ, moved σ τ p d' h' → Q tt τ) → wp (set_fd p d') Q σ.
Proof. intros H1 H2 HQ. apply wp_modify, HQ. by eapply set_fd_at. Qed.

Lemma bit_false d h k : regular d h → k ∈ [2; 5; 15; 16; 17; 18; 19; 22] → FLAG_IS_SET (fd_Flags d) (2 ^ k) = false.
Proof.
  intros Hr Hk. rewrite FLAG_IS_SET_bit; [by apply (rg_plain _ _ Hr)|]. set_solver by lia.
Qed.

(** A descriptor whose flags are those of [d]. *)
Definition same_flags d d' : Prop := fd_Flags d' = fd_Flags d.

Definition read_post σ p d h n (r : Z * list Z * Z) τ : Prop :=
  ∃ d' h', moved σ τ p d' h' ∧ same_flags d d' ∧ content h' = content h ∧
    ((r.1.1 = EOF ∧ r.1.2 = [] ∧ r.2 ≠ OK ∧ position h' = position h) ∨
     (r.1.1 = lenZ r.1.2 ∧ r.1.2 = take (Z.to_nat n) (drop (Z.to_nat (position h)) (content h)) ∧
      position h' = position h + r.1.1)).

Lemma fd_read_spec σ p d h n :
  fd_at σ p d h → 0 < n → wp (fd_action_read p n) (read_post σ p d h n) σ.
Proof.
  intros HA Hn. destruct (HA) as (Hp & E & Hr). unfold fd_action_read. wp_step.
  eapply wp_get_fd; [done|]. rewrite (rg_file _ _ Hr), (regular_is_file _ _ Hr).
  unfold FDF_STDIN_READ_MARK, FDF_PIPE. rewrite !(bit_false d h) by (done || set_solver).
  pose proof (dos_Read_ok h n Hn) as Hlaw. destruct (dos_Read h n) as [[[r l] ioerr] h'].
  destruct Hlaw as [Hc [[-> Hpos]|(-> & Hl & Hpos)]].
  - wp_step. eapply (wp_set_fd _ _ _ _ _ h'); [done| |].
    { destruct Hr as [R1 R2 R3 R4 R5]. split; cbn; try done. intros Hb. rewrite R5 by done. lia. }
    intros τ M. rewrite Z.eqb_refl. wp_step. exists (set_fd_File h' d), h'. split_and!; try done.
    left. split_and!; try done. apply translate_error.
  - wp_step. apply wp_modify. rewrite (proj2 (Z.eqb_neq (lenZ l) EOF)) by (pose proof (lenZ_nonneg l); unfold EOF; lia).
    pose proof (regular_advanced d h h' (lenZ l) Hr Hpos) as Hr'.
    wp_step. unfold wp at 1, get_fd. cbn.
    rewrite list_lookup_insert_eq by (unfold lenZ in Hp; lia). cbn zeta.
    unfold FDF_STDIN_AS_SOCKET. rewrite (bit_false d h) by (done || set_solver). cbn [andb].
    wp_step. apply wp_modify. wp_step. exists (advanced d h' (lenZ l)), h'. split_and!; try done.
    + unfold with_fds. cbn. rewrite list_insert_insert_eq. by eapply set_fd_at.
    + right. done.
Qed.

Definition write_post σ p d h data (r : Z * Z * Z) τ : Prop :=
  (r.1.1 = EOF ∧ r.1.2 ≠ OK ∧
   ∃ d', τ = with_fds (<[Z.to_nat p := Some d']> (fds σ)) σ ∧ same_flags d d') ∨
  (r.1.1 = lenZ data ∧ ∃ d' h', moved σ τ p d' h' ∧ same_flags d d' ∧
   content h' = overwrite (content h) (position h) data ∧ position h' = position h + lenZ data).

Lemma fd_write_spec σ p d h data :
  fd_at σ p d h → 0 < lenZ data → Forall is_byte data →
  wp (fd_action_write p data) (write_post σ p d h data) σ.
Proof.
  intros HA Hn Hbytes. destruct (HA) as (Hp & E & Hr). unfold fd_action_write. wp_step.
  eapply wp_get_fd; [done|]. rewrite (rg_file _ _ Hr), (regular_is_file _ _ Hr).
  unfold FDF_APPEND. rewrite (bit_false d h) by (done || set_solver). wp_step. wp_step.
  pose proof (dos_Write_ok h data Hn Hbytes) as Hlaw. destruct (dos_Write h data) as [[r ioerr] h'].
  wp_step. eapply wp_get_fd; [done|]. wp_step. apply wp_modify.
  destruct Hlaw as [->|(-> & Hc & Hpos)].
  - rewrite Z.eqb_refl. unfold FDF_PIPE. rewrite (bit_false d h) by (done || set_solver). wp_step. left.
    split_and!; [done|apply translate_error|]. by exists (set_fd_File h' d).
  - rewrite (proj2 (Z.eqb_neq (lenZ data) EOF)) by (unfold EOF; lia).
    wp_step. unfold wp at 1, get_fd. cbn. rewrite list_lookup_insert_eq by (unfold lenZ in Hp; lia).
    wp_step. apply wp_modify. wp_step. right. split; [done|]. exists (advanced d h' (lenZ data)), h'.
    split_and!; try done. unfold with_fds. cbn. rewrite list_insert_insert_eq. eapply set_fd_at; [done|].
    by apply (regular_advanced d h).
Qed.

(** Where a seek goes. *)
Definition seek_target h (offset mode : Z) : Z :=
  offset + (if mode =? SEEK_CUR then position h else if mode =? SEEK_SET then 0 else lenZ (content h)).

Definition seek_post σ p d h (t : Z) (r : Z * Z) τ : Prop :=
  ∃ d' h', moved σ τ p d' h' ∧ same_flags d d' ∧ content h' = content h ∧
    ((r.1 = EOF ∧ r.2 ≠ OK ∧ position h' = position h ∧ t ≠ position h) ∨ (r.1 = t ∧ r.2 = OK ∧ position h' = t)).

Lemma fd_seek_spec σ p d h offset mode :
  fd_at σ p d h → 0 <= seek_target h offset mode <= lenZ (content h) →
  wp (fd_action_seek p offset mode) (seek_post σ p d h (seek_target h offset mode)) σ.
Proof.
  intros HA Ht. destruct (HA) as (Hp & E & Hr). unfold fd_action_seek. wp_step.
  eapply wp_get_fd; [done|]. rewrite (rg_file _ _ Hr), (regular_is_file _ _ Hr).
  set (cur := if FLAG_IS_SET (fd_Flags d) FDF_CACHE_POSITION then _ else _).
  assert (cur = Some (position h)) as ->.
  { unfold cur, FDF_CACHE_POSITION. rewrite FLAG_IS_SET_bit by done. destruct (Z.testbit (fd_Flags d) 9) eqn:Eb.
    - by rewrite (rg_cached _ _ Hr Eb).
    - rewrite dos_Position_ok. pose proof (position_ok h). unfold GETPOSITION_ERROR, OK.
      rewrite (proj2 (Z.eqb_neq (position h) (-1))) by lia. done. }
  set (nm := if mode =? SEEK_CUR then _ else _). set (np := match nm with OFFSET_CURRENT => _ | _ => _ end).
  assert (np = seek_target h offset mode ∧
          ∀ o, o + match nm with OFFSET_BEGINNING => 0 | OFFSET_CURRENT => position h | OFFSET_END => lenZ (content h) end
               = seek_target h o mode) as [-> Hnm].
  { unfold np, nm, seek_target. rewrite dos_Size_ok. pose proof (lenZ_nonneg (content h)). unfold GETPOSITION_ERROR.
    rewrite (proj2 (Z.eqb_neq (lenZ (content h)) (-1))) by lia.
    destruct (mode =? SEEK_CUR), (mode =? SEEK_SET); split; cbn; intros; lia. }
  set (t := seek_target h offset mode) in *. rewrite (proj2 (Z.ltb_ge t 0)) by lia.
  destruct (t =? position h) eqn:Et; b2p; cbn [negb].
  { wp_step. exists d, h. split_and!; try done; [|right; done].
    split; [|done]. unfold with_fds. rewrite list_insert_id by done. by destruct σ. }
  unfold change_position. wp_step. eapply wp_get_fd; [done|]. rewrite (rg_file _ _ Hr).
  pose proof (dos_Change_ok h offset nm) as Hlaw. rewrite Hnm in Hlaw. fold t in Hlaw.
  destruct (dos_ChangeFilePosition h offset nm) as [[r ioerr] h']. destruct Hlaw as [Hc [[-> Hpos]|[Hne Hpos]]].
  - rewrite Z.eqb_refl. assert (regular (set_fd_File h' d) h') as Hr'.
    { destruct Hr as [R1 R2 R3 R4 R5]. split; cbn; try done. intros Hb. rewrite R5 by done. lia. }
    wp_step. eapply (wp_set_fd _ _ _ _ _ h'); [done|done|]. intros τ M. wp_step. wp_step.
    assert (seek_post σ p d h t (EOF, __translate_io_error_to_errno ioerr) τ) as HQ.
    { exists (set_fd_File h' d), h'. split_and!; try done. left. split_and!; try done. apply translate_error. }
    destruct (unix_path_semantics τ); [|by wp_step].
    destruct (dos_FileSize h') as [n|] eqn:En; [|by wp_step]. apply dos_FileSize_ok in En as ->. rewrite Hc.
    rewrite (proj2 (Z.leb_le t _)) by lia. by wp_step.
  - wp_step. apply wp_modify. rewrite (proj2 (Z.eqb_neq r _) Hne). rewrite dos_Position_ok, Hpos.
    wp_step. unfold wp at 1, get_fd. cbn. rewrite list_lookup_insert_eq by (unfold lenZ in Hp; lia).
    wp_step. apply wp_modify. wp_step. exists (set_fd_Position t (set_fd_File h' d)), h'.
    unfold GETPOSITION_ERROR. rewrite (proj2 (Z.eqb_neq t (-1))) by lia.
    split_and!; try done; [|by right]. unfold with_fds. cbn. rewrite list_insert_insert_eq. eapply set_fd_at; [done|].
    destruct Hr. by split.
Qed.
End Regular.

(** ** A file system

    Files of at most [capacity] bytes: an instance of the class. *)

Section Disk.
Context (capacity : Z).

Definition file_of : Type := list Z * Z.
Definition disk_content (h : file_of) : list Z := u8 <$> h.1.
Definition disk_position (h : file_of) : Z := Z.max 0 (Z.min h.2 (lenZ h.1)).
Definition disk_Read (h : file_of) (n : Z) : Z * list Z * Z * file_of :=
  let l := take (Z.to_nat n) (drop (Z.to_nat (disk_position h)) (disk_content h)) in
  (lenZ l, l, 0, (h.1, disk_position h + lenZ l)).
Definition disk_Write (h : file_of) (l : list Z) : Z * Z * file_of :=
  if disk_position h + lenZ l <=? capacity
  then (lenZ l, 0, (overwrite (disk_content h) (disk_position h) l, disk_position h + lenZ l)) else (EOF, 221, h).
Definition disk_Change (h : file_of) (o : Z) (m : offset_mode) : Z * Z * file_of :=
  let t := o + match m with
               | OFFSET_BEGINNING => 0
               | OFFSET_CURRENT => disk_position h
               | OFFSET_END => lenZ (disk_content h)
               end in
  if (0 <=? t) && (t <=? lenZ h.1) then (1, 0, (h.1, t)) else (CHANGE_FILE_ERROR, 219, h).

Lemma lenZ_disk h : lenZ (disk_content h) = lenZ h.1.
Proof. unfold disk_content, lenZ. by rewrite length_fmap. Qed.

Lemma disk_bytes l : Forall is_byte (u8 <$> l).
Proof. apply Forall_fmap, Forall_forall. intros x _. unfold compose, is_byte, u8. apply Z.mod_pos_bound. lia. Qed.

Lemma u8_bytes l : Forall is_byte l → u8 <$> l = l.
Proof. intros Hl. induction Hl as [|b l Hb Hl IH]; [done|]. cbn. by rewrite u8_small, IH. Qed.

#[local, refine] Instance disk : Dos := {|
  handle := file_of; dos_Read := disk_Read; dos_Write := disk_Write; dos_ChangeFilePosition := disk_Change;
  dos_GetFilePosition h := (disk_position h, 0); dos_GetFileSize h := lenZ (disk_content h);
  dos_FileSize h := Some (lenZ (disk_content h)); dos_BytesPerBlock _ := 512; buffer_memory _ := true;
  __translate_io_error_to_errno _ := 5; content := disk_content; position := disk_position
|}.
Proof.
  - intros h. rewrite lenZ_disk. unfold disk_position. pose proof (lenZ_nonneg h.1). lia.
  - intros h. apply disk_bytes.
  - intros [l p] n Hn. cbn. split; [done|right]. split; [done|]. split; [done|]. unfold disk_position at 1. cbn.
    set (q := disk_position (l, p)). assert (0 <= q <= lenZ l) by (unfold q, disk_position; cbn; pose proof (lenZ_nonneg l); lia).
    rewrite Z.min_l, Z.max_r; [done| |]; unfold lenZ; rewrite ?length_take, ?length_drop, ?length_fmap; unfold lenZ in *; lia.
  - intros [l p] k Hk Hb. unfold disk_Write. set (q := disk_position (l, p)).
    assert (0 <= q <= lenZ l) by (unfold q, disk_position; cbn; pose proof (lenZ_nonneg l); lia).
    destruct (_ <=? _); [right|by left]. split; [done|].
    assert (content_bytes : u8 <$> overwrite (disk_content (l, p)) q k = overwrite (disk_content (l, p)) q k).
    { apply u8_bytes. unfold overwrite. rewrite !Forall_app. pose proof (disk_bytes l).
      split_and!; [by apply Forall_take|done|by apply Forall_drop]. }
    split; [exact content_bytes|]. unfold disk_position at 1. cbn [fst snd].
    assert (q + lenZ k <= lenZ (overwrite (disk_content (l, p)) q k)); [|lia].
    unfold overwrite, lenZ in *. rewrite !length_app, length_take. unfold disk_content. rewrite length_fmap. cbn in *. lia.
  - intros [l p] o m. unfold disk_Change. set (t := o + _). destruct (_ && _) eqn:E; b2p; (split; [done|]).
    + right. split; [done|]. unfold disk_position at 1. cbn in *. unfold t in *. lia.
    + by left.
  - done.
  - done.
  - by intros h n [= <-].
  - done.
Defined.
End Disk.
