(* ===== verification/Stdio.v ===== *)
(** * Buffered files

    The streams of stdio/: the read and write buffer of a stream
    (flushiobwritebuffer.c, filliobreadbuffer.c, dropiobreadbuffer.c,
    flush_all_files.c), characters (fputc.c, fgetc.c, ungetc.c, flush.c and the
    macros of stdio_headers.h), blocks (fread.c, fwrite.c), lines (fgets.c,
    fputs.c), the position (ftell.c, fseek.c), fflush.c, feof.c, ferror.c and
    clearerr.c.

    A stream is a slot of the table [iobs]; [FILE *] is an optional slot.  The
    caller's data is in the memory of CMem.v.  Copying a block ([memcpy],
    [memmove], [memchr] on a block) is done on the list of its bytes. *)

From stdpp Require Import base numbers gmap list.
From S2P Require Import Prelude CMem Words StrScan Fds.
Open Scope Z_scope.

Definition IOBF_BUFFER_MODE : Z := 3.
Definition IOBF_EOF_REACHED : Z := 2 ^ 2.
Definition IOBF_READ : Z := 2 ^ 3.
Definition IOBF_WRITE : Z := 2 ^ 4.
Definition IOBF_IN_USE : Z := 2 ^ 5.
Definition IOBF_ERROR : Z := 2 ^ 6.
Definition IOBF_LITTLE_ENDIAN : Z := 2 ^ 12.
Definition IOBF_BUFFER_MODE_FULL : Z := 0.
Definition IOBF_BUFFER_MODE_LINE : Z := 1.
Definition IOBF_BUFFER_MODE_NONE : Z := 2.
Definition __SERR : Z := 2 ^ 12.
Definition EACCES : Z := 13.
Definition EINVAL : Z := 22.
Definition ENOBUFS : Z := 55.

(** Blocks of memory. *)
Fixpoint load_bytes (p : Z) (n : nat) : M cstate (list Z) :=
  match n with
  | O => mret []
  | S n => b ← load8 p; l ← load_bytes (p + 1) n; mret (b :: l)
  end.
Fixpoint store_bytes (p : Z) (l : list Z) : M cstate unit :=
  match l with
  | [] => mret tt
  | b :: l => _ ← store8 p b; store_bytes (p + 1) l
  end.

Section Model.
Context `{Dos}.

Definition get_iob (i : Z) : M sstate iob :=
  fun σ => match iobs σ !! Z.to_nat i with Some (Some f) => Ok (f, σ) | _ => Fault end.
Definition set_iob (i : Z) (f : iob) : M sstate unit :=
  modify (fun σ => with_iobs (<[Z.to_nat i := Some f]> (iobs σ)) σ).
Definition upd (i : Z) (g : iob → iob) : M sstate unit := f ← get_iob i; set_iob i (g f).

Definition flags_to (v : Z) (f : iob) : iob :=
  Iob v (iob_Buffer f) (iob_BufferSize f) (iob_BufferPosition f) (iob_BufferReadBytes f)
      (iob_BufferWriteBytes f) (iob_Flags2 f) (iob_Descriptor f).
Definition flags2_to (v : Z) (f : iob) : iob :=
  Iob (iob_Flags f) (iob_Buffer f) (iob_BufferSize f) (iob_BufferPosition f) (iob_BufferReadBytes f)
      (iob_BufferWriteBytes f) v (iob_Descriptor f).
Definition buffer_to (v : list Z) (f : iob) : iob :=
  Iob (iob_Flags f) v (iob_BufferSize f) (iob_BufferPosition f) (iob_BufferReadBytes f)
      (iob_BufferWriteBytes f) (iob_Flags2 f) (iob_Descriptor f).
Definition read_to (pos bytes : Z) (f : iob) : iob :=
  Iob (iob_Flags f) (iob_Buffer f) (iob_BufferSize f) pos bytes
      (iob_BufferWriteBytes f) (iob_Flags2 f) (iob_Descriptor f).
Definition write_to (v : Z) (f : iob) : iob :=
  Iob (iob_Flags f) (iob_Buffer f) (iob_BufferSize f) (iob_BufferPosition f) (iob_BufferReadBytes f)
      v (iob_Flags2 f) (iob_Descriptor f).

Definition set_iob_flag (i b : Z) : M sstate unit := upd i (fun f => flags_to (SET_FLAG (iob_Flags f) b) f).
Definition clear_iob_flag (i b : Z) : M sstate unit := upd i (fun f => flags_to (CLEAR_FLAG (iob_Flags f) b) f).

(** Bytes [l] stored at [p] of the buffer; outside of it is a fault. *)
Definition store_buffer (i p : Z) (l : list Z) : M sstate unit :=
  f ← get_iob i;
  if (0 <=? p) && (p + lenZ l <=? lenZ (iob_Buffer f))
  then set_iob i (buffer_to (overwrite (iob_Buffer f) p l) f) else fault.
Definition load_buffer (i p : Z) : M sstate Z :=
  f ← get_iob i;
  match iob_Buffer f !! Z.to_nat p with Some b => mret b | None => fault end.

Definition buffer_mode_of (f : iob) : Z := Z.land (iob_Flags f) IOBF_BUFFER_MODE.
Definition __iob_write_buffer_is_full (f : iob) : bool :=
  (0 <? iob_BufferSize f) && (iob_BufferWriteBytes f =? iob_BufferSize f).
Definition __iob_write_buffer_is_valid (f : iob) : bool := 0 <? iob_BufferWriteBytes f.
Definition __iob_read_buffer_is_empty (f : iob) : bool :=
  (iob_BufferReadBytes f =? 0) || (iob_BufferPosition f =? iob_BufferReadBytes f).
Definition __iob_num_unread_bytes (f : iob) : Z :=
  if (0 <? iob_BufferReadBytes f) && (iob_BufferPosition f <? iob_BufferReadBytes f)
  then iob_BufferReadBytes f - iob_BufferPosition f else 0.
Definition __iob_read_buffer_is_valid (f : iob) : bool := 0 <? iob_BufferReadBytes f.

(** ** The buffers *)

Definition __flush_iob_write_buffer (i : Z) : M sstate Z :=
  file ← get_iob i;
  if FLAG_IS_SET (iob_Flags file) IOBF_IN_USE && (0 <? iob_BufferWriteBytes file) then
    '(r, error, _) ← iob_action_write file (take (Z.to_nat (iob_BufferWriteBytes file)) (iob_Buffer file));
    if r =? EOF then
      _ ← set_iob_flag i IOBF_ERROR; _ ← __set_errno error; mret (-1)
    else _ ← upd i (write_to 0); mret OK
  else mret OK.

Definition __flush_all_files (buffer_mode : Z) : M sstate Z :=
  loop (fun i =>
          σ ← get;
          if i <? lenZ (iobs σ) then
            match iobs σ !! Z.to_nat i with
            | Some (Some f) =>
                if FLAG_IS_SET (iob_Flags f) IOBF_IN_USE && FLAG_IS_SET (iob_Flags f) IOBF_WRITE &&
                   ((buffer_mode <? 0) || (buffer_mode_of f =? buffer_mode)) && __iob_write_buffer_is_valid f
                then r ← __flush_iob_write_buffer i; if r <? 0 then break (-1) else continue (i + 1)
                else continue (i + 1)
            | _ => continue (i + 1)
            end
          else break OK) 0.

Definition __fill_iob_read_buffer (i : Z) : M sstate Z :=
  file ← get_iob i;
  r ← (if buffer_mode_of file =? IOBF_BUFFER_MODE_LINE
       then __flush_all_files IOBF_BUFFER_MODE_LINE else mret OK);
  if r <? 0 then mret (-1)
  else
    file ← get_iob i;
    '(r, data, error) ← iob_action_read file (iob_BufferSize file);
    let num_bytes_read := s32 r in
    if num_bytes_read =? EOF then
      _ ← set_iob_flag i IOBF_ERROR; _ ← __set_errno error; mret (-1)
    else
      _ ← store_buffer i 0 data;
      _ ← upd i (read_to 0 num_bytes_read);
      mret OK.

Definition __drop_iob_read_buffer (i : Z) : M sstate Z :=
  file ← get_iob i;
  if FLAG_IS_SET (iob_Flags file) IOBF_IN_USE then
    _ ← clear_iob_flag i IOBF_EOF_REACHED;
    if __iob_read_buffer_is_valid file then
      let num_unread_bytes := s32 (__iob_num_unread_bytes file) in
      x ⇐ (if 0 <? num_unread_bytes then
             file ← get_iob i;
             '(position, error) ← iob_action_seek file (- num_unread_bytes) SEEK_CUR;
             if negb (error =? OK) then
               _ ← set_iob_flag i IOBF_ERROR; _ ← __set_errno error; return_ (-1)
             else
               _ ← (if position <? 0 then __set_errno OK else mret tt); go_on tt
           else go_on tt);
      let '() := x in
      _ ← upd i (read_to 0 0); mret OK
    else mret OK
  else mret OK.

(** ** Characters *)

Definition __fputc_check (i : Z) : M sstate Z :=
  file ← get_iob i;
  if FLAG_IS_CLEAR (iob_Flags file) IOBF_IN_USE || FLAG_IS_CLEAR (iob_Flags file) IOBF_WRITE then
    _ ← set_iob_flag i IOBF_ERROR; _ ← __set_errno EBADF; mret EOF
  else if __iob_read_buffer_is_valid file then
    r ← __drop_iob_read_buffer i; if r <? 0 then mret EOF else mret OK
  else mret OK.

Definition __fputc (c i buffer_mode : Z) : M sstate Z :=
  file ← get_iob i;
  r ← (if __iob_write_buffer_is_full file then __flush_iob_write_buffer i else mret OK);
  if r <? 0 then mret EOF
  else
    file ← get_iob i;
    _ ← store_buffer i (iob_BufferWriteBytes file) [u8 c];
    _ ← upd i (write_to (iob_BufferWriteBytes file + 1));
    r ← (if (buffer_mode =? IOBF_BUFFER_MODE_NONE) || ((buffer_mode =? IOBF_BUFFER_MODE_LINE) && (c =? 10))
         then __flush_iob_write_buffer i else mret OK);
    if r <? 0 then
      _ ← upd i (fun f => write_to (iob_BufferWriteBytes f - 1) f); mret EOF
    else mret (Z.land c 255).

Definition fputc (c : Z) (stream : option Z) : M sstate Z :=
  match stream with
  | None => _ ← __set_errno EFAULT; mret EOF
  | Some i =>
      r ← __fputc_check i;
      if r <? 0 then mret EOF
      else file ← get_iob i; __fputc c i (buffer_mode_of file)
  end.

(** The macro that stores a byte without a call if there is room. *)
Definition __putc_fully_buffered (c i : Z) : M sstate Z :=
  file ← get_iob i;
  if iob_BufferWriteBytes file <? iob_BufferSize file then
    _ ← store_buffer i (iob_BufferWriteBytes file) [u8 c];
    _ ← upd i (write_to (iob_BufferWriteBytes file + 1)); mret (u8 c)
  else __fputc c i IOBF_BUFFER_MODE_FULL.

(** [__flush]: flushes, and returns the last character. *)
Definition __flush_r (stream : option Z) : M sstate Z :=
  match stream with
  | None => _ ← __set_errno EFAULT; mret EOF
  | Some i =>
      file ← get_iob i;
      if (iob_BufferWriteBytes file <=? 0) || (iob_BufferSize file <=? 0) then mret EOF
      else
        last_c ← load_buffer i (iob_BufferWriteBytes file - 1);
        r ← __flush_iob_write_buffer i;
        if r <? 0 then _ ← upd i (fun f => write_to (iob_BufferWriteBytes f - 1) f); mret EOF
        else mret last_c
  end.

Definition __putc_line_buffered (c i : Z) : M sstate Z :=
  file ← get_iob i;
  if iob_BufferWriteBytes file <? iob_BufferSize file then
    _ ← store_buffer i (iob_BufferWriteBytes file) [u8 c];
    _ ← upd i (write_to (iob_BufferWriteBytes file + 1));
    if c =? 10 then __flush_r (Some i) else mret (Z.land c 255)
  else __fputc c i IOBF_BUFFER_MODE_LINE.

Definition __fgetc (i : Z) : M sstate Z :=
  file ← get_iob i;
  x ⇐ (if __iob_read_buffer_is_empty file then
         r ← __fill_iob_read_buffer i;
         if r <? 0 then return_ EOF
         else
           file ← get_iob i;
           if __iob_read_buffer_is_empty file
           then _ ← set_iob_flag i IOBF_EOF_REACHED; return_ EOF
           else go_on tt
       else go_on tt);
  let '() := x in
  file ← get_iob i;
  result ← load_buffer i (iob_BufferPosition file);
  _ ← upd i (read_to (iob_BufferPosition file + 1) (iob_BufferReadBytes file));
  mret result.

Definition __fgetc_check (i : Z) : M sstate Z :=
  file ← get_iob i;
  if FLAG_IS_CLEAR (iob_Flags file) IOBF_IN_USE || FLAG_IS_CLEAR (iob_Flags file) IOBF_READ then
    _ ← set_iob_flag i IOBF_ERROR; _ ← __set_errno EBADF; mret EOF
  else if __iob_write_buffer_is_valid file then
    r ← __flush_iob_write_buffer i; if r <? 0 then mret EOF else mret OK
  else mret OK.

(** The macro [__getc]. *)
Definition __getc (i : Z) : M sstate Z :=
  file ← get_iob i;
  if iob_BufferPosition file <? iob_BufferReadBytes file then
    b ← load_buffer i (iob_BufferPosition file);
    _ ← upd i (read_to (iob_BufferPosition file + 1) (iob_BufferReadBytes file)); mret b
  else __fgetc i.

Definition fgetc (stream : option Z) : M sstate Z :=
  match stream with
  | None => _ ← __set_errno EFAULT; mret EOF
  | Some i => r ← __fgetc_check i; if r <? 0 then mret EOF else __getc i
  end.

Definition __ungetc_r (c : Z) (stream : option Z) : M sstate Z :=
  match stream with
  | None => _ ← __set_errno EFAULT; mret EOF
  | Some i =>
      let failed e := _ ← set_iob_flag i IOBF_ERROR; _ ← __set_errno e; mret EOF in
      file ← get_iob i;
      if FLAG_IS_CLEAR (iob_Flags file) IOBF_IN_USE then failed EBADF
      else if FLAG_IS_CLEAR (iob_Flags file) IOBF_READ then failed EACCES
      else if c =? EOF then failed EINVAL
      else
        r ← (if __iob_write_buffer_is_valid file then __flush_iob_write_buffer i else mret OK);
        if r <? 0 then mret EOF
        else
          file ← get_iob i;
          if iob_BufferPosition file =? 0 then failed ENOBUFS
          else
            _ ← clear_iob_flag i IOBF_EOF_REACHED;
            file ← get_iob i;
            let p := iob_BufferPosition file - 1 in
            _ ← upd i (read_to p (iob_BufferReadBytes file));
            _ ← store_buffer i p [u8 c];
            mret (Z.land c 255)
  end.
Definition ungetc := __ungetc_r.

Definition __fflush_r (stream : option Z) : M sstate Z :=
  match stream with
  | Some i =>
      file ← get_iob i;
      if __iob_write_buffer_is_valid file
      then r ← __flush_iob_write_buffer i; if r <? 0 then mret EOF else mret OK
      else mret OK
  | None =>
      loop (fun i =>
              σ ← get;
              if i <? lenZ (iobs σ) then
                match iobs σ !! Z.to_nat i with
                | Some (Some f) =>
                    if FLAG_IS_SET (iob_Flags f) IOBF_IN_USE && FLAG_IS_SET (iob_Flags f) IOBF_WRITE &&
                       __iob_write_buffer_is_valid f
                    then r ← __flush_iob_write_buffer i; if r <? 0 then break EOF else continue (i + 1)
                    else continue (i + 1)
                | _ => continue (i + 1)
                end
              else break OK) 0
  end.
Definition fflush := __fflush_r.

Definition __clearerr_r (i : Z) : M sstate unit :=
  _ ← clear_iob_flag i IOBF_ERROR;
  _ ← clear_iob_flag i IOBF_EOF_REACHED;
  upd i (fun f => flags2_to (CLEAR_FLAG (iob_Flags2 f) __SERR) f).
Definition feof (i : Z) : M sstate bool := f ← get_iob i; mret (FLAG_IS_SET (iob_Flags f) IOBF_EOF_REACHED).
Definition ferror (i : Z) : M sstate bool := f ← get_iob i; mret (FLAG_IS_SET (iob_Flags f) IOBF_ERROR).

(** ** Blocks

    [recv] and [send_] are the functions for sockets that [read] and [write] use. *)

Context (recv : Z → Z → M sstate (Z * list Z)) (send_ : Z → list Z → M sstate Z).

(** A call of [read] that stores what it reads at [data]. *)
Definition read_into (i data n : Z) : M sstate Z :=
  file ← get_iob i;
  '(r, l) ← read recv (iob_Descriptor file) n;
  _ ← in_memory (store_bytes data l);
  mret r.

(** The loop of [fread] with its variables; the result is [inl] of the number of
    bytes, or [inr] for the jump to the end with an error. *)
Definition fread_loop (i data total_size : Z) : M sstate (Z + unit) :=
  loop (fun '(data, total_size, total_bytes_read) =>
          if 0 <? total_size then
            file ← get_iob i;
            if (iob_BufferReadBytes file =? 0) && (iob_BufferSize file <=? total_size) then
              n ← read_into i data total_size;
              if n =? -1 then _ ← set_iob_flag i IOBF_ERROR; break (inr tt)
              else
                _ ← (if n =? 0 then set_iob_flag i IOBF_EOF_REACHED else mret tt);
                break (inl (total_bytes_read + n))
            else
              let next '(data, total_size, total_bytes_read) :=
                c ← __getc i;
                if c =? EOF then break (inl total_bytes_read)
                else
                  _ ← in_memory (store8 data c);
                  continue (data + 1, total_size - 1, total_bytes_read + 1) in
              if iob_BufferPosition file <? iob_BufferReadBytes file then
                let n := Z.min total_size (iob_BufferReadBytes file - iob_BufferPosition file) in
                _ ← in_memory (store_bytes data
                      (take (Z.to_nat n) (drop (Z.to_nat (iob_BufferPosition file)) (iob_Buffer file))));
                _ ← upd i (read_to (iob_BufferPosition file + n) (iob_BufferReadBytes file));
                if total_size - n =? 0 then break (inl (total_bytes_read + n))
                else next (data + n, total_size - n, total_bytes_read + n)
              else next (data, total_size, total_bytes_read)
          else break (inl total_bytes_read)) (data, total_size, 0).

Definition __fread_internal (ptr element_size count : Z) (stream : option Z) : M sstate Z :=
  match stream with
  | None => _ ← __set_errno EFAULT; mret 0
  | Some i =>
      if ptr =? NULL then _ ← __set_errno EFAULT; mret 0
      else
        file ← get_iob i;
        if FLAG_IS_CLEAR (iob_Flags file) IOBF_IN_USE || FLAG_IS_CLEAR (iob_Flags file) IOBF_READ then
          _ ← set_iob_flag i IOBF_ERROR; _ ← __set_errno EBADF; mret 0
        else
          _ ← __clearerr_r i;
          if (0 <? element_size) && (0 <? count) then
            r ← __fgetc_check i;
            if r <? 0 then mret 0
            else
              let total_size := u32 (element_size * count) in
              if negb (element_size =? total_size / count) then mret 0
              else
                file ← get_iob i;
                r ← (if buffer_mode_of file =? IOBF_BUFFER_MODE_NONE then
                       n ← read_into i ptr total_size;
                       if n =? -1 then _ ← set_iob_flag i IOBF_ERROR; mret (inr tt)
                       else
                         _ ← (if n =? 0 then set_iob_flag i IOBF_EOF_REACHED else mret tt);
                         mret (inl n)
                     else fread_loop i ptr total_size);
                match r with
                | inl total_bytes_read => mret (total_bytes_read / element_size)
                | inr _ => mret 0
                end
          else mret 0
  end.

(** With the flag for little endian files, one object of 2, 4 or 8 bytes is turned
    around after reading. *)
Definition fread (ptr element_size count : Z) (stream : option Z) : M sstate Z :=
  let total := u32 (element_size * count) in
  nread ← __fread_internal ptr element_size count stream;
  match stream with
  | None => fault
  | Some i =>
      file ← get_iob i;
      _ ← (if FLAG_IS_SET (iob_Flags file) IOBF_LITTLE_ENDIAN &&
              ((total =? 2) || (total =? 4) || (total =? 8)) &&
              ((element_size =? 2) || (element_size =? 4) || (element_size =? 8))
           then in_memory (l ← load_bytes ptr (Z.to_nat element_size); store_bytes ptr (reverse l))
           else mret tt);
      mret nread
  end.

(** Streams without a buffer that belong to a console are written line by line. *)
Definition output_mode (i : Z) : M sstate Z :=
  file ← get_iob i;
  let buffer_mode := buffer_mode_of file in
  if buffer_mode =? IOBF_BUFFER_MODE_NONE then
    f ← get_fd (iob_Descriptor file);
    mret (if FLAG_IS_SET (fd_Flags f) FDF_IS_INTERACTIVE then IOBF_BUFFER_MODE_LINE else buffer_mode)
  else mret buffer_mode.

(** Position of the first line feed. *)
Definition line_feed (l : list Z) : option Z :=
  match list_find (fun b => b = 10) l with Some (n, _) => Some (Z.of_nat n) | None => None end.

(** [n] bytes of [s] go to the buffer. *)
Definition fill_write_buffer (i s n : Z) : M sstate unit :=
  file ← get_iob i;
  l ← in_memory (load_bytes s (Z.to_nat n));
  _ ← store_buffer i (iob_BufferWriteBytes file) l;
  upd i (fun f => write_to (iob_BufferWriteBytes f + n) f).

(** The loop of [fwrite] for a line buffered stream: the bytes written. *)
Definition fwrite_line (i s total_size : Z) : M sstate Z :=
  loop (fun '(s, total_size, written) =>
          if 0 <? total_size then
            file ← get_iob i;
            let next '(s, total_size, written) :=
              c ← in_memory (load8 s);
              r ← __putc_line_buffered c i;
              if r =? EOF then break written
              else continue (s + 1, total_size - 1, written + 1) in
            if iob_BufferWriteBytes file <? iob_BufferSize file then
              let n := Z.min total_size (iob_BufferSize file - iob_BufferWriteBytes file) in
              l ← in_memory (load_bytes s (Z.to_nat n));
              let lf := line_feed l in
              let n := match lf with Some k => k + 1 | None => n end in
              _ ← fill_write_buffer i s n;
              file ← get_iob i;
              r ← (if bool_decide (is_Some lf) || __iob_write_buffer_is_full file
                   then __flush_iob_write_buffer i else mret OK);
              if r <? 0 then break written
              else if total_size - n =? 0 then break (written + n)
              else
                file ← get_iob i;
                if iob_BufferWriteBytes file <? iob_BufferSize file
                then continue (s + n, total_size - n, written + n)
                else next (s + n, total_size - n, written + n)
            else next (s, total_size, written)
          else break written) (s, total_size, 0).

(** The loop for a fully buffered stream; [inr] is the jump to the end after an
    error.  After a single byte, [total_size] is not decreased. *)
Definition fwrite_full (i s total_size : Z) : M sstate (Z + unit) :=
  loop (fun '(s, total_size, written) =>
          if 0 <? total_size then
            file ← get_iob i;
            if (iob_BufferWriteBytes file =? 0) && (iob_BufferSize file <=? total_size) then
              l ← in_memory (load_bytes s (Z.to_nat total_size));
              n ← __write_r send_ (iob_Descriptor file) l;
              if n =? -1 then _ ← set_iob_flag i IOBF_ERROR; break (inr tt)
              else break (inl (written + n))
            else
              let next '(s, total_size, written) :=
                c ← in_memory (load8 s);
                r ← __putc_fully_buffered c i;
                if r =? EOF then break (inr tt)
                else continue (s + 1, total_size, written + 1) in
              if iob_BufferWriteBytes file <? iob_BufferSize file then
                let n := Z.min total_size (iob_BufferSize file - iob_BufferWriteBytes file) in
                _ ← fill_write_buffer i s n;
                file ← get_iob i;
                r ← (if __iob_write_buffer_is_full file then __flush_iob_write_buffer i else mret OK);
                if r <? 0 then break (inl written)
                else if total_size - n =? 0 then break (inl (written + n))
                else
                  file ← get_iob i;
                  if iob_BufferWriteBytes file <? iob_BufferSize file
                  then continue (s + n, total_size - n, written + n)
                  else next (s + n, total_size - n, written + n)
              else next (s, total_size, written)
          else break (inl written)) (s, total_size, 0).

Definition fwrite (ptr element_size count : Z) (stream : option Z) : M sstate Z :=
  match stream with
  | None => _ ← __set_errno EFAULT; mret 0
  | Some i =>
      if ptr =? NULL then _ ← __set_errno EFAULT; mret 0
      else
        file ← get_iob i;
        if FLAG_IS_CLEAR (iob_Flags file) IOBF_IN_USE || FLAG_IS_CLEAR (iob_Flags file) IOBF_WRITE then
          _ ← set_iob_flag i IOBF_ERROR;
          _ ← upd i (fun f => flags2_to (SET_FLAG (iob_Flags2 f) __SERR) f);
          _ ← __set_errno EBADF; mret 0
        else if (0 <? element_size) && (0 <? count) then
          let total_size := u32 (element_size * count) in
          if negb (element_size =? total_size / count) then mret 0
          else
            buffer_mode ← output_mode i;
            r ← (if buffer_mode =? IOBF_BUFFER_MODE_LINE then n ← fwrite_line i ptr total_size; mret (inl n)
                 else if buffer_mode =? IOBF_BUFFER_MODE_NONE then
                   file ← get_iob i;
                   l ← in_memory (load_bytes ptr (Z.to_nat (Z.min total_size (iob_BufferSize file))));
                   n ← __write_r send_ (iob_Descriptor file) l;
                   if n =? -1 then _ ← set_iob_flag i IOBF_ERROR; mret (inr tt)
                   else
                     file ← get_iob i;
                     _ ← (if __iob_write_buffer_is_valid file then __flush_iob_write_buffer i else mret OK);
                     mret (inl n)
                 else fwrite_full i ptr total_size);
            match r with
            | inl written => mret (written / element_size)
            | inr _ => mret 0
            end
        else mret 0
  end.

(** ** Lines *)

(** The loop of [fgets] with its variables [s] and [n]: the value to return, and
    whether it is left by the jump behind the final terminator. *)
Definition fgets_loop (i buf s n : Z) : M sstate (Z * Z * bool) :=
  loop (fun '(s, n) =>
          if 0 <? n then
            file ← get_iob i;
            let next '(s, n) :=
              c ← __getc i;
              if c =? EOF then
                e ← ferror i;
                if e : bool then _ ← in_memory (store8 s 0); break (NULL, s, true)
                else break (if buf =? s then NULL else buf, s, false)
              else
                _ ← in_memory (store8 s c);
                if c =? 10 then break (buf, s + 1, false) else continue (s + 1, n - 1) in
            if iob_BufferPosition file <? iob_BufferReadBytes file then
              let k := Z.min n (iob_BufferReadBytes file - iob_BufferPosition file) in
              let l := take (Z.to_nat k) (drop (Z.to_nat (iob_BufferPosition file)) (iob_Buffer file)) in
              match line_feed l with
              | Some lf =>
                  let k := lf + 1 in
                  _ ← in_memory (store_bytes s (take (Z.to_nat k) l));
                  _ ← upd i (read_to (iob_BufferPosition file + k) (iob_BufferReadBytes file));
                  _ ← in_memory (store8 (s + k) 0);
                  break (buf, s + k, true)
              | None =>
                  _ ← in_memory (store_bytes s l);
                  _ ← upd i (read_to (iob_BufferPosition file + k) (iob_BufferReadBytes file));
                  if n - k =? 0 then break (buf, s + k, false) else next (s + k, n - k)
              end
            else next (s, n)
          else break (buf, s, false)) (s, n).

Definition fgets (buf n : Z) (stream : option Z) : M sstate Z :=
  match stream with
  | None => _ ← __set_errno EFAULT; mret NULL
  | Some i =>
      if buf =? NULL then _ ← __set_errno EFAULT; mret NULL
      else if n <=? 0 then mret NULL
      else
        r ← __fgetc_check i;
        if r <? 0 then mret NULL
        else
          _ ← __clearerr_r i;
          '(buf, s, out) ← fgets_loop i buf buf (n - 1);
          _ ← (if out : bool then mret tt else in_memory (store8 s 0));
          mret buf
  end.

(** The loops of [fputs]: true, or false for the jump to the end after an error. *)
Definition fputs_line (i s total_size : Z) : M sstate bool :=
  loop (fun '(s, total_size) =>
          if 0 <? total_size then
            file ← get_iob i;
            let next '(s, total_size) :=
              c ← in_memory (load8 s);
              r ← __putc_line_buffered c i;
              if r =? EOF then break false else continue (s + 1, total_size - 1) in
            if iob_BufferWriteBytes file <? iob_BufferSize file then
              let n := Z.min total_size (iob_BufferSize file - iob_BufferWriteBytes file) in
              l ← in_memory (load_bytes s (Z.to_nat n));
              let lf := line_feed l in
              let n := match lf with Some k => k + 1 | None => n end in
              _ ← fill_write_buffer i s n;
              file ← get_iob i;
              r ← (if bool_decide (is_Some lf) || __iob_write_buffer_is_full file
                   then __flush_iob_write_buffer i else mret OK);
              if r <? 0 then break false
              else if total_size - n =? 0 then break true
              else
                file ← get_iob i;
                if iob_BufferWriteBytes file <? iob_BufferSize file
                then continue (s + n, total_size - n) else next (s + n, total_size - n)
            else next (s, total_size)
          else break true) (s, total_size).

Definition fputs_full (i s total_size : Z) : M sstate bool :=
  loop (fun '(s, total_size) =>
          if 0 <? total_size then
            file ← get_iob i;
            if (iob_BufferWriteBytes file =? 0) && (iob_BufferSize file <=? total_size) then
              l ← in_memory (load_bytes s (Z.to_nat total_size));
              n ← __write_r send_ (iob_Descriptor file) l;
              if n =? -1 then _ ← set_iob_flag i IOBF_ERROR; break false else break true
            else
              let next '(s, total_size) :=
                c ← in_memory (load8 s);
                r ← __putc_fully_buffered c i;
                if r =? EOF then break false else continue (s + 1, total_size - 1) in
              if iob_BufferWriteBytes file <? iob_BufferSize file then
                let n := Z.min total_size (iob_BufferSize file - iob_BufferWriteBytes file) in
                _ ← fill_write_buffer i s n;
                file ← get_iob i;
                r ← (if __iob_write_buffer_is_full file then __flush_iob_write_buffer i else mret OK);
                if r <? 0 then break false
                else if total_size - n =? 0 then break true
                else
                  file ← get_iob i;
                  if iob_BufferWriteBytes file <? iob_BufferSize file
                  then continue (s + n, total_size - n) else next (s + n, total_size - n)
              else next (s, total_size)
          else break true) (s, total_size).

Definition __fputs_r (s : Z) (stream : option Z) : M sstate Z :=
  match stream with
  | None => _ ← __set_errno EFAULT; mret EOF
  | Some i =>
      if s =? NULL then _ ← __set_errno EFAULT; mret EOF
      else
        r ← __fputc_check i;
        if r <? 0 then mret EOF
        else
          total_size ← in_memory (strlen s);
          ok ← (if 0 <? total_size then
                  buffer_mode ← output_mode i;
                  if buffer_mode =? IOBF_BUFFER_MODE_LINE then fputs_line i s total_size
                  else if buffer_mode =? IOBF_BUFFER_MODE_NONE then
                    file ← get_iob i;
                    l ← in_memory (load_bytes s (Z.to_nat total_size));
                    n ← __write_r send_ (iob_Descriptor file) l;
                    if n =? -1 then _ ← set_iob_flag i IOBF_ERROR; mret false else mret true
                  else fputs_full i s total_size
                else mret true);
          if ok : bool then
            file ← get_iob i;
            if (buffer_mode_of file =? IOBF_BUFFER_MODE_NONE) && __iob_write_buffer_is_valid file then
              r ← __flush_iob_write_buffer i; if r <? 0 then mret EOF else mret OK
            else mret OK
          else mret EOF
  end.
Definition fputs := __fputs_r.

(** ** The position *)

Definition ftell (stream : option Z) : M sstate Z :=
  match stream with
  | None => _ ← __set_errno EFAULT; mret (-1)
  | Some i =>
      file ← get_iob i;
      if FLAG_IS_CLEAR (iob_Flags file) IOBF_IN_USE then
        _ ← set_iob_flag i IOBF_ERROR; _ ← __set_errno EBADF; mret (-1)
      else
        '(position, error) ← iob_action_seek file 0 SEEK_CUR;
        if (position =? GETPOSITION_ERROR) && negb (error =? OK) then
          _ ← set_iob_flag i IOBF_ERROR; _ ← __set_errno error; mret (-1)
        else
          _ ← (if position <? 0 then __set_errno OK else mret tt);
          file ← get_iob i;
          mret (s32 (if __iob_read_buffer_is_valid file then position - __iob_num_unread_bytes file
                     else if __iob_write_buffer_is_valid file then position + iob_BufferWriteBytes file
                     else position))
  end.

(** The part of [fseek] that moves the position of the file itself. *)
Definition seek_file (i offset wherefrom : Z) : M sstate Z :=
  file ← get_iob i;
  r ← (if __iob_write_buffer_is_valid file then __flush_iob_write_buffer i else mret OK);
  if r <? 0 then mret (-1)
  else
    file ← get_iob i;
    r ← (if __iob_read_buffer_is_valid file then __drop_iob_read_buffer i else mret OK);
    if r <? 0 then mret (-1)
    else
      file ← get_iob i;
      '(position, error) ← iob_action_seek file offset wherefrom;
      if negb (error =? OK) then
        _ ← set_iob_flag i IOBF_ERROR; _ ← __set_errno error; mret (-1)
      else
        _ ← (if s32 position <? 0 then __set_errno OK else mret tt);
        mret OK.

Definition fseek (stream : option Z) (offset wherefrom : Z) : M sstate Z :=
  match stream with
  | None => _ ← __set_errno EFAULT; mret (-1)
  | Some i =>
      file ← get_iob i;
      if FLAG_IS_CLEAR (iob_Flags file) IOBF_IN_USE || (wherefrom <? SEEK_SET) || (SEEK_END <? wherefrom) then
        _ ← set_iob_flag i IOBF_ERROR; _ ← __set_errno EBADF; mret (-1)
      else
        '(offset, wherefrom) ←
          (if (wherefrom =? SEEK_SET) && __iob_read_buffer_is_valid file then
             current_position ← ftell stream;
             if negb (current_position =? CHANGE_FILE_ERROR)
             then mret (s32 (offset - current_position), SEEK_CUR) else mret (offset, wherefrom)
           else mret (offset, wherefrom));
        _ ← clear_iob_flag i IOBF_EOF_REACHED;
        if negb (wherefrom =? SEEK_CUR) || negb (offset =? 0) then
          file ← get_iob i;
          if (wherefrom =? SEEK_CUR) && __iob_read_buffer_is_valid file &&
             (((offset <? 0) && (- offset <=? iob_BufferPosition file)) ||
              ((0 <? offset) && (offset <=? __iob_num_unread_bytes file)))
          then _ ← upd i (read_to (iob_BufferPosition file + offset) (iob_BufferReadBytes file)); mret OK
          else seek_file i offset wherefrom
        else mret OK
  end.
End Model.
