(* ===== verification/StdioSpec.v ===== *)
(** * Buffered files: what the streams promise

    The invariant [stream] of a stream of Stdio.v on a disk file, and what its
    operations do to the file that the program sees: the file on the disk with the
    bytes that still are in a buffer.  A program writes at a logical position of a
    logical content ([lcontent], [lpos]), and reads from the sequence [input]. *)

From stdpp Require Import base numbers gmap list.
From S2P Require Import Prelude CMem Words StrScan Fds Stdio.
Open Scope Z_scope.
#[local] Set Warnings "-clear-no-such-hyp".

(** A test of constants. *)
Ltac wp_test :=
  match goal with
  | |- wp (if ?b then _ else _) _ _ => let v := eval vm_compute in b in change b with v; cbv iota
  end.

Section Streams.
Context `{Dos}.
Implicit Types (σ τ υ : sstate) (f : iob) (d : fd) (h : handle).

(** ** The invariant *)

(** A buffer holds bytes that are to be written or bytes that have been read, but
    not both; [pos] is the position of the file. *)
Record wf_iob f (pos : Z) : Prop := {
  wf_in_use : Z.testbit (iob_Flags f) 5 = true;
  wf_size : 0 < iob_BufferSize f < 2147483648;
  wf_buffer : lenZ (iob_Buffer f) = iob_BufferSize f;
  wf_bytes : Forall is_byte (iob_Buffer f);
  wf_read : 0 <= iob_BufferPosition f <= iob_BufferReadBytes f ∧ iob_BufferReadBytes f <= iob_BufferSize f;
  wf_write : 0 <= iob_BufferWriteBytes f <= iob_BufferSize f;
  wf_one : iob_BufferReadBytes f = 0 ∨ iob_BufferWriteBytes f = 0;
  wf_behind : iob_BufferReadBytes f <= pos
}.

(** The stream [i] is open on the disk file [h]. *)
Record stream σ (i : Z) f d h : Prop := {
  st_iob : iobs σ !! Z.to_nat i = Some (Some f);
  st_fd : fd_at σ (iob_Descriptor f) d h;
  st_wf : wf_iob f (position h)
}.

(** Bytes of the buffer that wait to be written, and that wait to be read. *)
Definition pending f : list Z := take (Z.to_nat (iob_BufferWriteBytes f)) (iob_Buffer f).
Definition unread f : list Z :=
  take (Z.to_nat (iob_BufferReadBytes f - iob_BufferPosition f)) (drop (Z.to_nat (iob_BufferPosition f)) (iob_Buffer f)).

(** The file as the program sees it: its content, the position in it, and what
    reading will return. *)
Definition lcontent f h : list Z := overwrite (content h) (position h) (pending f).
Definition lpos f h : Z := position h - lenZ (unread f) + lenZ (pending f).
Definition input f h : list Z := unread f ++ drop (Z.to_nat (position h + lenZ (pending f))) (content h).

(** The read buffer agrees with the file. *)
Definition coherent f h : Prop :=
  take (Z.to_nat (iob_BufferReadBytes f)) (iob_Buffer f) =
  take (Z.to_nat (iob_BufferReadBytes f)) (drop (Z.to_nat (position h - iob_BufferReadBytes f)) (content h)).

(** Nothing has changed but the stream [i], its descriptor [p] and errno. *)
Record framed (i p : Z) σ τ : Prop := {
  fr_mem : mem (sc τ) = mem (sc σ);
  fr_length : length (iobs τ) = length (iobs σ);
  fr_iobs : ∀ j, j ≠ Z.to_nat i → iobs τ !! j = iobs σ !! j;
  fr_fds : ∀ j, j ≠ Z.to_nat p → fds τ !! j = fds σ !! j;
  fr_unix : unix_path_semantics τ = unix_path_semantics σ
}.

(** The flags of a stream other than EOF and error. *)
Definition same_mode f f' : Prop :=
  ∀ k, 0 <= k → k ≠ 2 → k ≠ 6 → Z.testbit (iob_Flags f') k = Z.testbit (iob_Flags f) k.

(** The error indicator of the stream is set, and errno says why. *)
Definition failed (i : Z) f τ : Prop :=
  errno (sc τ) ≠ 0 ∧ ∃ g, iobs τ !! Z.to_nat i = Some (Some g) ∧ same_mode f g ∧ Z.testbit (iob_Flags g) 6 = true.

(** What no operation changes. *)
Record same_stream f d f' d' : Prop := {
  ss_descriptor : iob_Descriptor f' = iob_Descriptor f;
  ss_size : iob_BufferSize f' = iob_BufferSize f;
  ss_mode : same_mode f f';
  ss_flags : fd_Flags d' = fd_Flags d
}.

(** An operation ends with [bad] and the error indicator, or with a stream. *)
Definition ends σ (i : Z) f d (bad : Z) (P : Z → iob → handle → Prop) (r : Z) τ : Prop :=
  framed i (iob_Descriptor f) σ τ ∧
  ((r = bad ∧ failed i f τ) ∨ ∃ f' d' h', stream τ i f' d' h' ∧ same_stream f d f' d' ∧ P r f' h').

Lemma framed_refl i p σ : framed i p σ σ.
Proof. done. Qed.
Lemma framed_trans i p σ τ υ : framed i p σ τ → framed i p τ υ → framed i p σ υ.
Proof.
  intros [A1 A2 A3 A4 A5] [B1 B2 B3 B4 B5].
  split; [congruence|congruence|intros j Hj; by rewrite B3, A3|intros j Hj; by rewrite B4, A4|congruence].
Qed.

Lemma same_stream_refl f d : same_stream f d f d.
Proof. by split. Qed.
Lemma same_stream_trans f d f' d' f'' d'' :
  same_stream f d f' d' → same_stream f' d' f'' d'' → same_stream f d f'' d''.
Proof.
  intros [A1 A2 A3 A4] [B1 B2 B3 B4]. split; try congruence. intros k H1 H2 H3. by rewrite B3, A3.
Qed.

Lemma failed_mode i f f' τ : same_mode f f' → failed i f' τ → failed i f τ.
Proof.
  intros Hm (He & g & Eg & Hg & Hb). split; [done|]. exists g. split_and!; try done. intros k H1 H2 H3. by rewrite Hg, Hm.
Qed.

Lemma ends_trans σ τ υ i f d f' d' bad P Q r :
  framed i (iob_Descriptor f) σ τ → same_stream f d f' d' →
  ends τ i f' d' bad P r υ → (∀ g k, P r g k → Q r g k) → ends σ i f d bad Q r υ.
Proof.
  intros HF HS [HF' HE] HPQ. split.
  - eapply framed_trans; [done|]. by rewrite <- (ss_descriptor _ _ _ _ HS).
  - destruct HE as [[-> HE]|(f'' & d'' & h'' & H1 & H2 & H3)]; [left; split; [done|by eapply failed_mode, HE; apply HS]|right].
    exists f'', d'', h''. split_and!; [done|by eapply same_stream_trans|by apply HPQ].
Qed.

Lemma ends_proj σ i f d bad (P Q : Z → iob → handle → Prop) r τ :
  ends σ i f d bad (fun r g k => P r g k ∧ Q r g k) r τ → ends σ i f d bad P r τ.
Proof. intros HE. eapply ends_trans; [apply framed_refl|apply same_stream_refl|exact HE|by intros ? ? [? _]]. Qed.

(** ** Access to a stream *)

(** The state with another struct of the stream. *)
Definition put_iob (j : Z) g υ : sstate := with_iobs (<[Z.to_nat j := Some g]> (iobs υ)) υ.

Lemma put_iob_framed i p g σ : framed i p σ (put_iob i g σ).
Proof. split; cbn; try done; [apply length_insert|]. intros j Hj. by rewrite list_lookup_insert_ne. Qed.

Lemma set_fds_framed i p g σ : framed i p σ (with_fds (<[Z.to_nat p := Some g]> (fds σ)) σ).
Proof. split; cbn; try done. intros j Hj. by rewrite list_lookup_insert_ne. Qed.

Lemma moved_framed i p σ τ d h : moved σ τ p d h → framed i p σ τ.
Proof. intros [-> _]. apply set_fds_framed. Qed.

Lemma wp_upd_at σ i f g Q : iobs σ !! Z.to_nat i = Some (Some f) → Q tt (put_iob i (g f) σ) → wp (upd i g) Q σ.
Proof. intros E HQ. unfold upd. apply wp_bind. unfold wp at 1, get_iob. rewrite E. by apply wp_modify. Qed.

(** A new struct for a stream that is open. *)
Lemma put_stream σ i f g d h :
  iobs σ !! Z.to_nat i = Some (Some f) → fd_at σ (iob_Descriptor g) d h → wf_iob g (position h) →
  stream (put_iob i g σ) i g d h.
Proof. intros E HF Hw. split; [|done|done]. cbn. apply list_lookup_insert_eq. by eapply lookup_lt_Some. Qed.

Section Access.
Context {σ : sstate} {i : Z} {f : iob} {d : fd} {h : handle} (HS : stream σ i f d h).

Lemma wp_get_iob Q : Q f σ → wp (get_iob i) Q σ.
Proof. unfold wp, get_iob. by rewrite (st_iob _ _ _ _ _ HS). Qed.

Lemma wp_upd g Q : Q tt (put_iob i (g f) σ) → wp (upd i g) Q σ.
Proof. apply wp_upd_at, HS. Qed.

Lemma stream_put g :
  iob_Descriptor g = iob_Descriptor f → wf_iob g (position h) → stream (put_iob i g σ) i g d h.
Proof. intros Hd Hw. eapply put_stream; [apply HS|rewrite Hd; apply HS|done]. Qed.

Lemma stream_moved τ d' h' :
  moved σ τ (iob_Descriptor f) d' h' → wf_iob f (position h') → stream τ i f d' h'.
Proof. intros [-> HF] Hw. split; [apply HS|done|done]. Qed.

Lemma stream_ends g bad P r :
  same_stream f d g d → wf_iob g (position h) → P r g h → ends σ i f d bad P r (put_iob i g σ).
Proof.
  intros H1 H2 H3. split; [apply put_iob_framed|right]. exists g, d, h. split_and!; try done.
  apply stream_put; [apply H1|done].
Qed.

Lemma stays bad P r : P r f h → ends σ i f d bad P r σ.
Proof. intros HP. split; [done|right]. exists f, d, h. split_and!; done || apply same_stream_refl. Qed.

Lemma wp_iob_fd Q : Q (Some (iob_Descriptor f)) σ → wp (iob_fd f) Q σ.
Proof.
  intros HQ. destruct (st_fd _ _ _ _ _ HS) as (Hp & E & Hr). unfold iob_fd. wp_step. wp_step. rewrite E.
  unfold __get_file_descriptor, get_file_descriptor. wp_step. wp_step.
  rewrite (proj2 (Z.ltb_ge _ _)), (proj2 (Z.leb_gt _ _)) by lia. cbn. rewrite E.
  unfold FDF_IN_USE. rewrite FLAG_IS_CLEAR_bit, (rg_in_use _ _ Hr), (rg_original _ _ Hr) by lia. by apply wp_ret.
Qed.
End Access.

Lemma overwrite_nil c p : overwrite c p [] = c.
Proof. unfold overwrite. cbn. rewrite Z.add_0_r. apply take_drop. Qed.

Lemma overwrite_app c p l k :
  0 <= p <= lenZ c → overwrite (overwrite c p l) (p + lenZ l) k = overwrite c p (l ++ k).
Proof.
  intros Hp. unfold overwrite. assert (length (take (Z.to_nat p) c) = Z.to_nat p) as HL
    by (rewrite length_take; unfold lenZ in Hp; lia).
  replace (Z.to_nat (p + lenZ l)) with (length (take (Z.to_nat p) c ++ l)) at 1
    by (rewrite length_app, HL; unfold lenZ; lia).
  rewrite (app_assoc _ l), take_app_length. rewrite <- !app_assoc. do 3 f_equal.
  rewrite (app_assoc (take _ c)), drop_app_ge by (rewrite length_app, HL; unfold lenZ; lia).
  rewrite drop_drop, lenZ_app. f_equal. rewrite length_app, HL. unfold lenZ. lia.
Qed.

Lemma lenZ_overwrite c p l : 0 <= p <= lenZ c → lenZ (overwrite c p l) = Z.max (lenZ c) (p + lenZ l).
Proof.
  intros Hp. unfold overwrite, lenZ in *. rewrite !length_app, length_take, length_drop. lia.
Qed.

Section Sizes.
Context {σ : sstate} {i : Z} {f : iob} {d : fd} {h : handle} (HS : stream σ i f d h).

Lemma lenZ_pending : lenZ (pending f) = iob_BufferWriteBytes f.
Proof. destruct (st_wf _ _ _ _ _ HS). unfold pending. apply lenZ_take. lia. Qed.
Lemma lenZ_unread : lenZ (unread f) = iob_BufferReadBytes f - iob_BufferPosition f.
Proof. destruct (st_wf _ _ _ _ _ HS). unfold unread. rewrite lenZ_take; [done|]. rewrite lenZ_drop; lia. Qed.
Lemma lpos_range : 0 <= lpos f h <= lenZ (lcontent f h).
Proof.
  unfold lpos, lcontent. rewrite lenZ_overwrite by apply position_ok. rewrite lenZ_unread, lenZ_pending.
  pose proof (position_ok h). destruct (st_wf _ _ _ _ _ HS). lia.
Qed.
End Sizes.

Lemma buffer_mode_bits f f' : same_mode f f' → buffer_mode_of f' = buffer_mode_of f.
Proof.
  intros Hm. unfold buffer_mode_of. apply Z.bits_inj'. intros k Hk. rewrite !Z.land_spec.
  change IOBF_BUFFER_MODE with (Z.ones 2). destruct (Z_lt_le_dec k 2).
  - by rewrite Hm by lia.
  - rewrite Z.ones_spec_high by lia. by rewrite !andb_false_r.
Qed.

Lemma same_mode_clear f k : k = 2 ∨ k = 6 → same_mode f (flags_to (CLEAR_FLAG (iob_Flags f) (2 ^ k)) f).
Proof.
  intros Hk j Hj H2 H6. cbn [iob_Flags flags_to]. rewrite CLEAR_FLAG_bit by lia.
  rewrite (proj2 (Z.eqb_neq k j)) by lia. by rewrite andb_true_r.
Qed.
Lemma same_mode_set f k : k = 2 ∨ k = 6 → same_mode f (flags_to (SET_FLAG (iob_Flags f) (2 ^ k)) f).
Proof.
  intros Hk j Hj H2 H6. cbn [iob_Flags flags_to]. rewrite SET_FLAG_bit by lia.
  rewrite (proj2 (Z.eqb_neq k j)) by lia. by rewrite orb_false_r.
Qed.

(** The error path that most operations share. *)
Lemma wp_error {A} σ i p e f (r : A) Q :
  iobs σ !! Z.to_nat i = Some (Some f) → e ≠ OK →
  (∀ τ, framed i p σ τ → failed i f τ → Q r τ) →
  wp (_ ← set_iob_flag i IOBF_ERROR; _ ← __set_errno e; mret r) Q σ.
Proof.
  intros E He HQ. unfold set_iob_flag, upd. wp_step. wp_step. unfold wp at 1, get_iob. rewrite E.
  apply wp_modify. wp_step. unfold wp at 1, __set_errno, in_memory, set_errno, modify. apply wp_ret, HQ.
  - split; cbn; try done; [apply length_insert|]. intros j Hj. by rewrite list_lookup_insert_ne.
  - split; [done|]. eexists. split; [apply list_lookup_insert_eq; by eapply lookup_lt_Some|].
    split; [apply (same_mode_set f 6); lia|]. cbn [iob_Flags flags_to]. unfold IOBF_ERROR. rewrite SET_FLAG_bit by lia. by rewrite orb_true_r.
Qed.

(** A test of the struct of a stream, as a boolean on its fields. *)
Lemma in_use_set f pos : wf_iob f pos → FLAG_IS_SET (iob_Flags f) IOBF_IN_USE = true.
Proof. intros [Hu _ _ _ _ _ _ _]. unfold IOBF_IN_USE. by rewrite FLAG_IS_SET_bit. Qed.
Lemma in_use_clear f pos : wf_iob f pos → FLAG_IS_CLEAR (iob_Flags f) IOBF_IN_USE = false.
Proof. intros [Hu _ _ _ _ _ _ _]. unfold IOBF_IN_USE. by rewrite FLAG_IS_CLEAR_bit, Hu by done. Qed.

Lemma pending_byte f pos : wf_iob f pos → Forall is_byte (pending f).
Proof. intros [_ _ _ Hb _ _ _ _]. by apply Forall_take. Qed.

(** ** Flushing *)

Lemma wf_flushed f pos n : wf_iob f pos → 0 <= n → wf_iob (write_to 0 f) (pos + n).
Proof. intros [] Hn. split; cbn; try done; lia || by right. Qed.

Definition flushed f h (r : Z) f' h' : Prop :=
  r = OK ∧ f' = write_to 0 f ∧ content h' = lcontent f h ∧ position h' = position h + lenZ (pending f).

Lemma flush_spec σ i f d h :
  stream σ i f d h → wp (__flush_iob_write_buffer i) (ends σ i f d (-1) (flushed f h)) σ.
Proof.
  intros HS. pose proof (st_wf _ _ _ _ _ HS) as Hw. pose proof (lenZ_pending HS) as HL.
  unfold __flush_iob_write_buffer. wp_step. apply (wp_get_iob HS). rewrite (in_use_set _ _ Hw). cbn [andb].
  destruct (0 <? iob_BufferWriteBytes f) eqn:Ew; b2p.
  2: { wp_step. apply (stays HS). assert (iob_BufferWriteBytes f = 0) as E0 by (destruct Hw; lia).
       assert (pending f = []) as Ep by (unfold pending; by rewrite E0).
       split_and!; [done|by destruct f; cbn in E0; subst| |rewrite Ep, lenZ_nil; lia].
       unfold lcontent. by rewrite Ep, overwrite_nil. }
  wp_step. unfold iob_action_write. wp_step. apply (wp_iob_fd HS). fold (pending f).
  eapply wp_mono; [apply (fd_write_spec _ _ d h); [apply HS|lia|by eapply pending_byte]|].
  intros [[r e] ioerr] τ [(Er & He & d' & -> & Hd)|(Er & d' & h' & M & Hd & Hc & Hpos)]; cbn in Er; subst r.
  - rewrite Z.eqb_refl. eapply wp_error; [apply HS|done|]. intros υ F1 F2. split; [|by left].
    eapply framed_trans; [apply set_fds_framed|done].
  - rewrite (proj2 (Z.eqb_neq _ _)) by (unfold EOF; lia).
    assert (wf_iob f (position h')) as Hw' by (destruct Hw; split; try done; lia).
    pose proof (stream_moved HS _ _ _ M Hw') as HS'.
    wp_step. apply (wp_upd HS'). wp_step.
    eapply ends_trans; [by eapply moved_framed|split; [..|exact Hd]; done| |].
    { apply (stream_ends HS' (write_to 0 f) (-1) (flushed f h)); [by split|..].
      - apply (wf_flushed f (position h') 0) in Hw'; [|lia]. by rewrite Z.add_0_r in Hw'.
      - by split_and!. }
    done.
Qed.

(** ** Dropping what has been read ahead *)

Lemma wf_flags f v pos : same_mode f (flags_to v f) → wf_iob f pos → wf_iob (flags_to v f) pos.
Proof. intros Hm []. split; try done. rewrite Hm; [done|lia..]. Qed.
Lemma same_stream_flags f v d : same_mode f (flags_to v f) → same_stream f d (flags_to v f) d.
Proof. intros Hm. by split. Qed.

Lemma num_unread f pos : wf_iob f pos → s32 (__iob_num_unread_bytes f) = iob_BufferReadBytes f - iob_BufferPosition f.
Proof.
  intros []. unfold __iob_num_unread_bytes.
  assert ((if (0 <? iob_BufferReadBytes f) && (iob_BufferPosition f <? iob_BufferReadBytes f)
           then iob_BufferReadBytes f - iob_BufferPosition f else 0) = iob_BufferReadBytes f - iob_BufferPosition f) as ->.
  { destruct (0 <? iob_BufferReadBytes f) eqn:E1, (iob_BufferPosition f <? iob_BufferReadBytes f) eqn:E2; b2p; cbn; lia. }
  unfold s32. rewrite Z.mod_small; lia.
Qed.

Definition dropped f h (r : Z) f' h' : Prop :=
  r = OK ∧ iob_BufferReadBytes f' = 0 ∧ pending f' = pending f ∧ Z.testbit (iob_Flags f') 2 = false ∧
  content h' = content h ∧ position h' = position h - lenZ (unread f).

Lemma drop_spec σ i f d h :
  stream σ i f d h → wp (__drop_iob_read_buffer i) (ends σ i f d (-1) (dropped f h)) σ.
Proof.
  intros HS. pose proof (st_wf _ _ _ _ _ HS) as Hw. pose proof (lenZ_unread HS) as HL.
  unfold __drop_iob_read_buffer. wp_step. apply (wp_get_iob HS). rewrite (in_use_set _ _ Hw).
  set (g := flags_to (CLEAR_FLAG (iob_Flags f) IOBF_EOF_REACHED) f).
  assert (same_mode f g) as Hm by (apply (same_mode_clear f 2); lia).
  assert (wf_iob g (position h)) as Hg by (by apply wf_flags).
  assert (same_stream f d g d) as Hsg by (by apply same_stream_flags).
  assert (Z.testbit (iob_Flags g) 2 = false) as Heof.
  { cbn [g flags_to iob_Flags]. unfold IOBF_EOF_REACHED. rewrite CLEAR_FLAG_bit by lia. by rewrite andb_false_r. }
  pose proof (stream_put HS g eq_refl Hg) as HSg. unfold clear_iob_flag.
  wp_step. apply (wp_upd HS). unfold __iob_read_buffer_is_valid. fold g.
  destruct (0 <? iob_BufferReadBytes f) eqn:Er; b2p.
  2: { wp_step. apply (stream_ends HS g); [done..|]. assert (iob_BufferReadBytes f = 0) by (destruct Hw; lia).
       split_and!; try done. destruct Hw; lia. }
  rewrite (num_unread _ _ Hw). apply wp_early.
  assert (∀ τ d' h', framed i (iob_Descriptor f) σ τ → iobs τ !! Z.to_nat i = Some (Some g) →
            fd_at τ (iob_Descriptor f) d' h' → fd_Flags d' = fd_Flags d →
            content h' = content h → position h' = position h - lenZ (unread f) →
            wp (_ ← upd i (read_to 0 0); mret OK) (ends σ i f d (-1) (dropped f h)) τ) as Hend.
  { intros τ d' h' F HS' HF' Ed Ec Ep. wp_step. eapply wp_upd_at; [done|]. wp_step. split.
    - eapply framed_trans; [done|apply put_iob_framed].
    - right. exists (read_to 0 0 g), d', h'. split_and!; [|split; [..|done]; apply Hsg|by split_and!].
      eapply put_stream; [done..|].
      destruct Hg. pose proof (position_ok h'). split; cbn in *; try done; try lia; by left. }
  destruct (0 <? iob_BufferReadBytes f - iob_BufferPosition f) eqn:Eu; b2p.
  2: { wp_step. apply (Hend _ d h); [apply put_iob_framed|apply HSg|apply HSg|done|done|destruct Hw; lia]. }
  wp_step. apply (wp_get_iob HSg). wp_step. unfold iob_action_seek. wp_step. apply (wp_iob_fd HSg).
  assert (seek_target h (- (iob_BufferReadBytes f - iob_BufferPosition f)) SEEK_CUR = position h - lenZ (unread f)) as Et
    by (unfold seek_target; cbn; lia).
  eapply wp_mono; [eapply fd_seek_spec; [apply HSg|]|].
  { rewrite Et. pose proof (position_ok h). destruct Hw. lia. }
  rewrite Et. intros [t e] τ (d' & h' & M & Hd & Hc & [(E1 & He & Hpos & _)|(E1 & E2 & Hpos)]); cbn in E1, E2 || cbn in E1, He; subst.
  - rewrite (proj2 (Z.eqb_neq _ _) He). cbn [negb].
    eapply wp_error; [by rewrite (proj1 M); apply HSg|done|]. intros υ F1 F2.
    split; [|left; split; [done|by eapply failed_mode]]. eapply framed_trans; [apply put_iob_framed|].
    eapply framed_trans; [by eapply moved_framed|done].
  - cbn [negb Z.eqb OK]. rewrite (proj2 (Z.ltb_ge _ _)) by (pose proof (position_ok h'); lia).
    cbn [OK negb Z.eqb]. wp_step. wp_step. wp_step. apply (Hend _ d' h'); try done.
    + eapply framed_trans; [apply put_iob_framed|by eapply moved_framed].
    + rewrite (proj1 M). apply HSg.
    + apply M.
Qed.

(** ** What the program sees *)

(** The view of a stream: what writing and reading depend on. *)
Definition same_view f h f' h' : Prop :=
  lcontent f' h' = lcontent f h ∧ lpos f' h' = lpos f h ∧ input f' h' = input f h.

Lemma unread_nil f pos : wf_iob f pos → iob_BufferReadBytes f = 0 → unread f = [].
Proof. intros [] E. unfold unread. by replace (iob_BufferReadBytes f - iob_BufferPosition f) with 0 by lia. Qed.

Lemma drop_overwrite c p l : 0 <= p <= lenZ c → drop (Z.to_nat (p + lenZ l)) (overwrite c p l) = drop (Z.to_nat (p + lenZ l)) c.
Proof.
  intros Hp. unfold overwrite. rewrite app_assoc, drop_app_ge; rewrite length_app, length_take;
    unfold lenZ in *; [|lia]. rewrite drop_drop. f_equal. lia.
Qed.

Lemma flushed_view σ i f d h r f' h' : stream σ i f d h → flushed f h r f' h' → same_view f h f' h'.
Proof.
  intros HS (_ & -> & Hc & Hp). unfold same_view, lcontent, lpos, input. cbn [pending write_to unread iob_BufferWriteBytes].
  change (pending (write_to 0 f)) with (@nil Z). change (unread (write_to 0 f)) with (unread f).
  rewrite overwrite_nil, Hc, Hp, lenZ_nil. split_and!; [done|lia|]. rewrite Z.add_0_r. unfold lcontent.
  rewrite drop_overwrite; [done|]. apply position_ok.
Qed.

Lemma dropped_view σ i f d h r f' h' pos :
  stream σ i f d h → wf_iob f' pos → iob_BufferWriteBytes f = 0 → dropped f h r f' h' →
  lcontent f' h' = lcontent f h ∧ lpos f' h' = lpos f h.
Proof.
  intros HS Hw E (_ & E0 & Epd & _ & Hc & Hp). unfold lcontent, lpos. rewrite Epd, (unread_nil _ _ Hw E0).
  assert (pending f = []) as -> by (unfold pending; by rewrite E). rewrite !overwrite_nil, Hp, lenZ_nil. split; [done|lia].
Qed.

Lemma coherent_nil f h : iob_BufferReadBytes f = 0 → coherent f h.
Proof. intros E. unfold coherent. by rewrite E. Qed.

(** Without characters that have been pushed back, reading continues where the
    position is. *)
Lemma coherent_input σ i f d h : stream σ i f d h → coherent f h → input f h = drop (Z.to_nat (lpos f h)) (lcontent f h).
Proof.
  intros HS Hc. pose proof (st_wf _ _ _ _ _ HS) as Hw. pose proof (lenZ_unread HS) as HU. pose proof (lenZ_pending HS) as HP.
  unfold input, lpos, lcontent. rewrite HU, HP.
  destruct (decide (iob_BufferReadBytes f = 0)) as [E|E].
  - rewrite (unread_nil _ _ Hw E), <- HP. cbn [app]. rewrite <- (drop_overwrite _ _ (pending f)) by apply position_ok.
    f_equal. destruct Hw. lia.
  - assert (iob_BufferWriteBytes f = 0) as E0 by (destruct Hw; lia). assert (pending f = []) as -> by (unfold pending; by rewrite E0).
    rewrite overwrite_nil, E0. unfold unread, coherent in *. set (n := iob_BufferReadBytes f) in *. set (p := iob_BufferPosition f) in *.
    assert (take (Z.to_nat (n - p)) (drop (Z.to_nat p) (iob_Buffer f)) =
            take (Z.to_nat (n - p)) (drop (Z.to_nat (position h - (n - p))) (content h))) as ->.
    + rewrite !take_drop_commute.
      replace (Z.to_nat p + Z.to_nat (n - p))%nat with (Z.to_nat n) by (destruct Hw; lia). rewrite Hc.
      rewrite skipn_firstn_comm, drop_drop, take_drop_commute. f_equal; [|f_equal]; f_equal; destruct Hw; lia.
    + destruct Hw. rewrite !Z.add_0_r. replace (Z.to_nat (position h)) with (Z.to_nat (position h - (n - p)) + Z.to_nat (n - p))%nat by lia.
      rewrite <- drop_drop. apply take_drop.
Qed.

(** ** The caller's memory *)

Lemma wp_in_memory {A} (c : M cstate A) Q σ :
  wp c (fun a m => Q a (with_sc m σ)) (sc σ) → wp (in_memory c) Q σ.
Proof. unfold wp, in_memory. by destruct (c (sc σ)) as [[a m]| |]. Qed.

Lemma with_sc_same σ : with_sc (sc σ) σ = σ.
Proof. by destruct σ. Qed.
End Streams.

Lemma load_bytes_spec m p l Q : bytes_at (mem m) p l → Q l m → wp (load_bytes p (length l)) Q m.
Proof.
  revert p Q. induction l as [|b l IH]; intros p Q Hb HQ; cbn [length load_bytes]; wp_step; [done|].
  eapply wp_load8; [rewrite <- (Z.add_0_r p); apply Hb; rewrite lenZ_cons; pose proof (lenZ_nonneg l); lia|].
  wp_step. apply IH; [|by wp_step]. intros j Hj. replace (p + 1 + j) with (p + (1 + j)) by lia.
  rewrite Hb by (rewrite lenZ_cons; lia). rewrite nthZ_cons_S by lia. do 2 f_equal. lia.
Qed.

Lemma store_bytes_spec m p l Q :
  mapped (mem m) p (lenZ l) → Forall is_byte l →
  Q tt (with_mem (write_bytes (mem m) p l) m) → wp (store_bytes p l) Q m.
Proof.
  revert p m Q. induction l as [|b l IH]; intros p m Q Hm Hl HQ; cbn [store_bytes]; wp_step; [by destruct m|].
  apply Forall_cons in Hl as [Hb Hl]. rewrite lenZ_cons in Hm. pose proof (lenZ_nonneg l).
  eapply wp_store8; [apply Hm; lia|]. apply IH; [|done|].
  - intros a Ha. cbn. apply insert_mapped with (q := p) (n := 1 + lenZ l); [done|]. lia.
  - cbn in *. by rewrite u8_small.
Qed.

(** ** An open file

    A stream on a file of a disk with 100 bytes, for evaluating the operations. *)

Definition wf_iobb (f : iob) (pos : Z) : bool :=
  Z.testbit (iob_Flags f) 5 && (0 <? iob_BufferSize f) && (iob_BufferSize f <? 2147483648) &&
  (lenZ (iob_Buffer f) =? iob_BufferSize f) && forallb is_byteb (iob_Buffer f) &&
  (0 <=? iob_BufferPosition f) && (iob_BufferPosition f <=? iob_BufferReadBytes f) &&
  (iob_BufferReadBytes f <=? iob_BufferSize f) && (0 <=? iob_BufferWriteBytes f) &&
  (iob_BufferWriteBytes f <=? iob_BufferSize f) &&
  ((iob_BufferReadBytes f =? 0) || (iob_BufferWriteBytes f =? 0)) && (iob_BufferReadBytes f <=? pos).

Lemma wf_iobb_sound f pos : wf_iobb f pos = true → wf_iob f pos.
Proof.
  unfold wf_iobb. rewrite !andb_true_iff, orb_true_iff. intros Hb. destruct_and! Hb. b2p.
  split; try done; try lia.
  by apply forallb_byte.
Qed.

Definition disk_fd (h : file_of) : fd (H := disk 100) := Fd (H := disk 100) 131 (Some h) 0 None 0.
Definition open_file (c : cstate) (f : iob) (h : file_of) : sstate (H := disk 100) :=
  SState (H := disk 100) c [Some f] [Some (disk_fd h)] false.

Lemma open_file_stream c f h :
  iob_Descriptor f = 0 → wf_iobb f (disk_position h) = true →
  stream (H := disk 100) (open_file c f h) 0 f (disk_fd h) h.
Proof.
  intros Ed Hw. split; [done| |by apply wf_iobb_sound]. rewrite Ed. split; [done|]. split; [done|].
  split; try done. intros k Hk. set_solver.
Qed.
