(* ===== verification/StdioWrite.v ===== *)
(** * Buffered files: writing

    Characters and strings that are written to a stream appear in the file that the
    program sees at its position, whatever the buffer mode: fputc.c, fputs.c,
    flush.c and fflush.c. *)

From stdpp Require Import base numbers gmap list.
From S2P Require Import Prelude CMem Words StrScan Fds Stdio StdioSpec.
Open Scope Z_scope.
#[local] Set Warnings "-clear-no-such-hyp".

Section Write.
Context `{Dos}.
Implicit Types (σ τ υ : sstate) (f : iob) (d : fd) (h : handle).

(** ** Bytes for the buffer *)

Definition add_pending (l : list Z) f : iob :=
  write_to (iob_BufferWriteBytes f + lenZ l) (buffer_to (overwrite (iob_Buffer f) (iob_BufferWriteBytes f) l) f).

Section Add.
Context {f : iob} {pos : Z} (Hw : wf_iob f pos) (HR : iob_BufferReadBytes f = 0) (l : list Z).
Context (Hl : Forall is_byte l) (Hroom : iob_BufferWriteBytes f + lenZ l <= iob_BufferSize f).

Lemma add_pending_wf : wf_iob (add_pending l f) pos.
Proof.
  destruct Hw. pose proof (lenZ_nonneg l). split; cbn; try done; try lia.
  - rewrite lenZ_overwrite; lia.
  - unfold overwrite. rewrite !Forall_app. split_and!; [by apply Forall_take|done|by apply Forall_drop].
Qed.

Lemma pending_add : pending (add_pending l f) = pending f ++ l.
Proof.
  destruct Hw. pose proof (lenZ_nonneg l). unfold pending. cbn. unfold overwrite. rewrite app_assoc.
  rewrite take_app_le; [|rewrite length_app, length_take; unfold lenZ in *; lia].
  apply take_ge. rewrite length_app, length_take. unfold lenZ in *. lia.
Qed.
End Add.

Lemma add_pending_view σ i f d h l :
  stream σ i f d h → iob_BufferReadBytes f = 0 → Forall is_byte l → iob_BufferWriteBytes f + lenZ l <= iob_BufferSize f →
  lcontent (add_pending l f) h = overwrite (lcontent f h) (lpos f h) l ∧ lpos (add_pending l f) h = lpos f h + lenZ l.
Proof.
  intros HS HR Hl Hroom. pose proof (st_wf _ _ _ _ _ HS) as Hw. unfold lcontent, lpos.
  rewrite (unread_nil _ _ Hw HR), (unread_nil _ _ (add_pending_wf Hw HR l Hl Hroom) HR), (pending_add Hw l Hroom), lenZ_nil, lenZ_app.
  replace (position h - 0 + lenZ (pending f)) with (position h + lenZ (pending f)) by lia.
  rewrite overwrite_app by apply position_ok. split; [done|lia].
Qed.

Lemma same_stream_add f d l : same_stream f d (add_pending l f) d.
Proof. by split. Qed.

Lemma put_iob_twice i g g' σ : put_iob i g' (put_iob i g σ) = put_iob i g' σ.
Proof. unfold put_iob, with_iobs. cbn. by rewrite list_insert_insert_eq. Qed.

Lemma wp_store_buffer σ i f d h p l Q :
  stream σ i f d h → 0 <= p → p + lenZ l <= iob_BufferSize f →
  Q tt (put_iob i (buffer_to (overwrite (iob_Buffer f) p l) f) σ) → wp (store_buffer i p l) Q σ.
Proof.
  intros HS Hp Hl HQ. unfold store_buffer. wp_step. apply (wp_get_iob HS).
  rewrite (wf_buffer _ _ (st_wf _ _ _ _ _ HS)), (proj2 (Z.leb_le _ _) Hp), (proj2 (Z.leb_le _ _) Hl). by apply wp_modify.
Qed.

Lemma wp_put_byte {A} σ i f d h b g (k : M sstate A) Q :
  stream σ i f d h → iob_BufferWriteBytes f < iob_BufferSize f →
  (∀ f', iob_BufferWriteBytes f' = iob_BufferWriteBytes f → g f' = write_to (iob_BufferWriteBytes f + 1) f') →
  wp k Q (put_iob i (add_pending [b] f) σ) →
  wp (_ ← store_buffer i (iob_BufferWriteBytes f) [b]; _ ← upd i g; k) Q σ.
Proof.
  intros HS Hlt Hg HQ. wp_step. eapply wp_store_buffer; [done|destruct (st_wf _ _ _ _ _ HS); lia|change (lenZ [b]) with 1; lia|].
  wp_step. eapply wp_upd_at; [apply list_lookup_insert_eq; eapply lookup_lt_Some, HS|].
  rewrite put_iob_twice, Hg by done. done.
Qed.

(** ** Characters *)

(** The bytes [l] have been written at the position of the program. *)
Definition written l f h f' h' : Prop :=
  iob_BufferReadBytes f' = 0 ∧ lcontent f' h' = overwrite (lcontent f h) (lpos f h) l ∧ lpos f' h' = lpos f h + lenZ l.

Definition can_write f : Prop := Z.testbit (iob_Flags f) 4 = true.

Lemma fputc_check_spec σ i f d h :
  stream σ i f d h → can_write f →
  wp (__fputc_check i) (ends σ i f d EOF (fun r f' h' => r = OK ∧ written [] f h f' h' ∧
    iob_BufferWriteBytes f' = iob_BufferWriteBytes f)) σ.
Proof.
  intros HS Hc. pose proof (st_wf _ _ _ _ _ HS) as Hw. unfold __fputc_check. wp_step. apply (wp_get_iob HS).
  rewrite (in_use_clear _ _ Hw). unfold IOBF_WRITE. rewrite FLAG_IS_CLEAR_bit, Hc by lia. cbn [orb negb].
  unfold __iob_read_buffer_is_valid. destruct (0 <? iob_BufferReadBytes f) eqn:Er; b2p.
  2: { wp_step. apply (stays HS). split; [done|]. split; [|done]. unfold written. rewrite overwrite_nil. change (lenZ []) with 0. destruct Hw; split_and!; lia || done. }
  wp_step. eapply wp_mono; [exact (drop_spec _ _ _ _ _ HS)|]. intros r τ [HF HE].
  destruct HE as [[-> Hf]|(f' & d' & h' & HS' & Hss & Hd)].
  - wp_test. wp_step. split; [done|]. by left.
  - pose proof Hd as (-> & E0 & Epd & _). wp_test. wp_step. split; [done|right]. exists f', d', h'. do 3 (split; [done|]).
    split; [|by rewrite <- (lenZ_pending HS'), Epd, (lenZ_pending HS)]. split; [done|].
    edestruct (dropped_view σ i f d h OK f' h') as [-> ->]; [done|apply HS'|destruct Hw; lia|done|].
    rewrite overwrite_nil. change (lenZ []) with 0. by rewrite Z.add_0_r.
Qed.

Lemma written_trans l k f h f' h' f'' h'' :
  written l f h f' h' → written k f' h' f'' h'' → 0 <= lpos f h <= lenZ (lcontent f h) → written (l ++ k) f h f'' h''.
Proof.
  intros (_ & A1 & A2) (B0 & B1 & B2) Hp. split; [done|]. rewrite B1, B2, A1, A2, lenZ_app, overwrite_app by done.
  split; [done|lia].
Qed.

Lemma written_view f h f' h' : same_view f h f' h' → iob_BufferReadBytes f' = 0 → written [] f h f' h'.
Proof. intros (V1 & V2 & V3) E. split; [done|]. rewrite overwrite_nil, V1, V2. change (lenZ []) with 0. split; [done|lia]. Qed.

Lemma written_add σ i f d h l :
  stream σ i f d h → iob_BufferReadBytes f = 0 → Forall is_byte l → iob_BufferWriteBytes f + lenZ l <= iob_BufferSize f →
  written l f h (add_pending l f) h.
Proof. intros HS HR Hl Hroom. split; [done|]. by eapply add_pending_view. Qed.

Lemma flush_written σ i f d h r f' h' :
  stream σ i f d h → iob_BufferReadBytes f = 0 → flushed f h r f' h' → written [] f h f' h'.
Proof. intros HS HR HF. apply written_view; [by eapply flushed_view|]. destruct HF as (_ & -> & _). done. Qed.

(** Flushing when the test [b] says so. *)
Lemma flush_if_spec σ i f d h (b : bool) :
  stream σ i f d h → iob_BufferReadBytes f = 0 →
  wp (if b then __flush_iob_write_buffer i else mret OK)
     (ends σ i f d (-1) (fun r f' h' => r = OK ∧ written [] f h f' h' ∧
        iob_BufferWriteBytes f' = if b then 0 else iob_BufferWriteBytes f)) σ.
Proof.
  intros HS HR. destruct b.
  - eapply wp_mono; [exact (flush_spec _ _ _ _ _ HS)|]. intros r τ HE.
    eapply ends_trans; [apply framed_refl|apply same_stream_refl|exact HE|]. intros g k HF. cbn.
    split; [apply HF|]. split; [by eapply flush_written|]. destruct HF as (_ & -> & _). done.
  - wp_step. apply (stays HS). split; [done|]. split; [|done]. by apply written_view.
Qed.

Lemma u8_byte c : is_byte (u8 c).
Proof. unfold is_byte, u8. apply Z.mod_pos_bound. lia. Qed.
Lemma land_255 c : Z.land c 255 = u8 c.
Proof. apply (Z.land_ones c 8). lia. Qed.

Lemma failed_put i f g v σ :
  errno (sc σ) ≠ 0 → iobs σ !! Z.to_nat i = Some (Some g) → same_mode f g → Z.testbit (iob_Flags g) 6 = true →
  failed i f (put_iob i (write_to v g) σ).
Proof. intros He E Hm Hb. split; [done|]. eexists. split; [apply list_lookup_insert_eq; by eapply lookup_lt_Some|done]. Qed.

Lemma fputc_spec σ i f d h c mode :
  stream σ i f d h → iob_BufferReadBytes f = 0 →
  wp (__fputc c i mode) (ends σ i f d EOF (fun r f' h' => r = u8 c ∧ written [u8 c] f h f' h' ∧
    (mode = IOBF_BUFFER_MODE_NONE → iob_BufferWriteBytes f' = 0))) σ.
Proof.
  intros HS HR. unfold __fputc. wp_step. apply (wp_get_iob HS). wp_step.
  eapply wp_mono; [by apply (flush_if_spec _ _ _ _ _ _ HS)|]. intros r τ [F1 [[-> Hf]|(f1 & d1 & h1 & HS1 & SS1 & -> & W1 & E1)]].
  { wp_test. wp_step. split; [done|by left]. }
  wp_test. wp_step. apply (wp_get_iob HS1).
  assert (iob_BufferWriteBytes f1 < iob_BufferSize f1) as Hroom.
  { unfold __iob_write_buffer_is_full in E1. rewrite (ss_size _ _ _ _ SS1). destruct (st_wf _ _ _ _ _ HS).
    destruct (0 <? iob_BufferSize f) eqn:Ea, (iob_BufferWriteBytes f =? iob_BufferSize f) eqn:Eb; b2p; cbn in E1; lia. }
  assert (iob_BufferWriteBytes f1 + lenZ [u8 c] <= iob_BufferSize f1) as Hroom' by (change (lenZ [u8 c]) with 1; lia).
  assert (Forall is_byte [u8 c]) as Hb by (constructor; [apply u8_byte|done]).
  pose proof (proj1 W1) as HR1. eapply wp_put_byte; [exact HS1|done|done|].
  set (f2 := add_pending [u8 c] f1). pose proof (written_add _ _ _ _ _ _ HS1 HR1 Hb Hroom') as W2. fold f2 in W2.
  pose proof (stream_put HS1 f2 eq_refl (add_pending_wf (st_wf _ _ _ _ _ HS1) HR1 _ Hb Hroom')) as HS2.
  assert (framed i (iob_Descriptor f) σ (put_iob i f2 τ)) as F2 by (eapply framed_trans; [exact F1|apply put_iob_framed]).
  assert (same_stream f d f2 d1) as SS2 by (eapply same_stream_trans; [exact SS1|apply same_stream_add]).
  wp_step. eapply wp_mono; [by apply (flush_if_spec _ _ _ _ _ _ HS2)|].
  intros r υ [F3 [[-> Hf]|(f3 & d3 & h3 & HS3 & SS3 & -> & W3 & E3)]];
    rewrite (ss_descriptor _ _ _ _ SS2) in F3; wp_test.
  - destruct Hf as (He & g & Eg & Hg & Hb6). wp_step. eapply wp_upd_at; [done|]. wp_step. split.
    + eapply framed_trans; [exact F2|]. eapply framed_trans; [exact F3|apply put_iob_framed].
    + left. split; [done|]. by eapply failed_mode; [apply SS2|eapply failed_put].
  - wp_step. split; [by eapply framed_trans|right]. exists f3, d3, h3. split; [done|].
    split; [by eapply same_stream_trans|]. split; [apply land_255|]. split; [|by intros ->].
    eapply (written_trans [u8 c] []); [|exact W3|apply (lpos_range HS)]. eapply (written_trans []); [exact W1|exact W2|apply (lpos_range HS)].
Qed.

(** *** The macros *)

Lemma add_byte_room f pos b :
  wf_iob f pos → iob_BufferReadBytes f = 0 → is_byte b → iob_BufferWriteBytes f < iob_BufferSize f →
  Forall is_byte [b] ∧ iob_BufferWriteBytes f + lenZ [b] <= iob_BufferSize f.
Proof. intros _ _ Hb Hlt. split; [by constructor|]. change (lenZ [b]) with 1. lia. Qed.

Lemma fputc_byte_spec σ i f d h c mode :
  stream σ i f d h → iob_BufferReadBytes f = 0 → is_byte c →
  wp (__fputc c i mode) (ends σ i f d EOF (fun r f' h' => r = c ∧ written [c] f h f' h')) σ.
Proof.
  intros HS HR Hc. eapply wp_mono; [exact (fputc_spec _ _ _ _ _ c mode HS HR)|]. rewrite (u8_small c Hc). intros r τ HE.
  eapply ends_trans; [apply framed_refl|apply same_stream_refl|exact HE|]. intros g g' (H1 & H2 & _). done.
Qed.

Lemma putc_full_spec σ i f d h c :
  stream σ i f d h → iob_BufferReadBytes f = 0 → is_byte c →
  wp (__putc_fully_buffered c i) (ends σ i f d EOF (fun r f' h' => r = c ∧ written [c] f h f' h')) σ.
Proof.
  intros HS HR Hc. pose proof (st_wf _ _ _ _ _ HS) as Hw. unfold __putc_fully_buffered. wp_step. apply (wp_get_iob HS).
  destruct (_ <? _) eqn:E; b2p; [|by apply fputc_byte_spec].
  destruct (add_byte_room f (position h) (u8 c)) as [Hb Hroom]; [done|done|apply u8_byte|done|].
  eapply wp_put_byte; [done|done|done|]. wp_step. rewrite (u8_small c Hc) in *.
  apply (stream_ends HS); [apply same_stream_add|by apply add_pending_wf|]. split; [done|]. by eapply written_add.
Qed.

Lemma pending_last σ i f d h b :
  stream σ i f d h → iob_BufferWriteBytes f < iob_BufferSize f →
  iob_Buffer (add_pending [b] f) !! Z.to_nat (iob_BufferWriteBytes f) = Some b.
Proof.
  intros HS Hlt. destruct (st_wf _ _ _ _ _ HS). cbn. unfold overwrite.
  rewrite lookup_app_r; rewrite length_take; unfold lenZ in *; [|lia].
  replace (Z.to_nat _ - _)%nat with 0%nat by lia. done.
Qed.

Lemma putc_line_spec σ i f d h c :
  stream σ i f d h → iob_BufferReadBytes f = 0 → is_byte c →
  wp (__putc_line_buffered c i) (ends σ i f d EOF (fun r f' h' => r = c ∧ written [c] f h f' h')) σ.
Proof.
  intros HS HR Hc. pose proof (st_wf _ _ _ _ _ HS) as Hw. unfold __putc_line_buffered. wp_step. apply (wp_get_iob HS).
  destruct (_ <? _) eqn:E; b2p; [|by apply fputc_byte_spec].
  destruct (add_byte_room f (position h) (u8 c)) as [Hb Hroom]; [done|done|apply u8_byte|done|].
  eapply wp_put_byte; [done|done|done|]. rewrite (u8_small c Hc) in *. set (f1 := add_pending [c] f).
  assert (written [c] f h f1 h) as W1 by (by eapply written_add).
  assert (wf_iob f1 (position h)) as Hw1 by (by apply add_pending_wf).
  destruct (c =? 10) eqn:Ec; b2p.
  2: { wp_step. apply (stream_ends HS); [apply same_stream_add|done|]. split; [|done]. rewrite land_255. by apply u8_small. }
  pose proof (stream_put HS f1 eq_refl Hw1) as HS1. unfold __flush_r. wp_step. apply (wp_get_iob HS1).
  rewrite (proj2 (Z.leb_gt (iob_BufferWriteBytes f1) 0)), (proj2 (Z.leb_gt (iob_BufferSize f1) 0))
    by (change (iob_BufferWriteBytes f1) with (iob_BufferWriteBytes f + 1); change (iob_BufferSize f1) with (iob_BufferSize f);
        destruct Hw; lia). cbn [orb]. wp_step. unfold load_buffer. wp_step. apply (wp_get_iob HS1).
  replace (iob_BufferWriteBytes f1 - 1) with (iob_BufferWriteBytes f)
    by (change (iob_BufferWriteBytes f1) with (iob_BufferWriteBytes f + 1); lia).
  unfold f1 at 1. rewrite (pending_last _ _ _ _ _ _ HS E). wp_step. wp_step.
  eapply wp_mono; [apply (flush_spec _ _ _ _ _ HS1)|]. intros r τ [F1 [[-> Hf]|(f2 & d2 & h2 & HS2 & SS2 & HF)]].
  - wp_test. destruct Hf as (He & g & Eg & Hg & Hb6). wp_step. eapply wp_upd_at; [done|]. wp_step. split.
    + eapply framed_trans; [apply put_iob_framed|]. eapply framed_trans; [exact F1|apply put_iob_framed].
    + left. split; [done|]. by eapply failed_mode; [apply (ss_mode _ _ _ _ (same_stream_add f d [c]))|eapply failed_put].
  - pose proof HF as (-> & _). wp_test. wp_step. split; [eapply framed_trans; [apply put_iob_framed|exact F1]|right].
    exists f2, d2, h2. split; [done|]. split; [eapply same_stream_trans; [apply same_stream_add|exact SS2]|]. split; [done|].
    apply (written_trans [c] [] f h f1 h); [done|by eapply flush_written|apply (lpos_range HS)].
Qed.

(** ** Blocks *)

Lemma error_flag_failed i g σ :
  errno (sc σ) ≠ 0 → iobs σ !! Z.to_nat i = Some (Some g) →
  failed i g (put_iob i (flags_to (SET_FLAG (iob_Flags g) IOBF_ERROR) g) σ).
Proof.
  intros He E. split; [done|]. eexists. split; [apply list_lookup_insert_eq; by eapply lookup_lt_Some|].
  split; [apply (same_mode_set g 6); lia|]. cbn [iob_Flags flags_to]. unfold IOBF_ERROR. rewrite SET_FLAG_bit by lia. by rewrite orb_true_r.
Qed.

Lemma wp_get_file_descriptor σ i f d h Q :
  stream σ i f d h → Q (Some (iob_Descriptor f)) σ → wp (__get_file_descriptor (iob_Descriptor f)) Q σ.
Proof.
  intros HS HQ. destruct (st_fd _ _ _ _ _ HS) as (Hp & E & Hr). unfold __get_file_descriptor, get_file_descriptor.
  wp_step. wp_step. rewrite (proj2 (Z.ltb_ge _ _)), (proj2 (Z.leb_gt _ _)) by lia. cbn [orb]. rewrite E.
  unfold FDF_IN_USE. rewrite FLAG_IS_CLEAR_bit, (rg_in_use _ _ Hr), (rg_original _ _ Hr) by lia. by apply wp_ret.
Qed.

(** The bytes [l] that are stored at [s] are put into the buffer; then it is
    flushed if the test [t] says so. *)
Lemma fill_spec {A} σ i f d h s l n (t : iob → bool) (k : Z → M sstate A) Q :
  stream σ i f d h → iob_BufferReadBytes f = 0 → bytes_at (mem (sc σ)) s l → Forall is_byte l →
  iob_BufferWriteBytes f + lenZ l <= iob_BufferSize f → lenZ l = n →
  (∀ r τ, ends σ i f d (-1) (fun r f' h' => (r = OK ∧ written l f h f' h') ∧
     iob_BufferWriteBytes f' = if t (add_pending l f) then 0 else iob_BufferWriteBytes f + n) r τ → wp (k r) Q τ) →
  wp (_ ← fill_write_buffer i s n; file ← get_iob i;
      r ← (if t file then __flush_iob_write_buffer i else mret OK); k r) Q σ.
Proof.
  intros HS HR Hb Hl Hroom <- Hk. unfold fill_write_buffer. wp_step. wp_step. apply (wp_get_iob HS). wp_step.
  apply wp_in_memory. unfold lenZ at 1. rewrite Nat2Z.id. apply load_bytes_spec; [done|]. rewrite with_sc_same.
  wp_step. eapply wp_store_buffer; [done|destruct (st_wf _ _ _ _ _ HS); lia|done|].
  eapply wp_upd_at; [apply list_lookup_insert_eq; eapply lookup_lt_Some, HS|]. rewrite put_iob_twice.
  change (write_to _ _) with (add_pending l f). set (f1 := add_pending l f).
  pose proof (stream_put HS f1 eq_refl (add_pending_wf (st_wf _ _ _ _ _ HS) HR l Hl Hroom)) as HS1.
  assert (written l f h f1 h) as W1 by (by eapply written_add).
  wp_step. apply (wp_get_iob HS1). wp_step. eapply wp_mono; [by apply (flush_if_spec _ _ _ _ _ _ HS1)|].
  intros r τ HE. apply Hk. eapply ends_trans; [apply put_iob_framed|apply same_stream_add|exact HE|].
  intros g g' (-> & W2 & E2). split; [|exact E2]. split; [done|]. rewrite <- (app_nil_r l).
  eapply (written_trans l []); [exact W1|exact W2|apply (lpos_range HS)].
Qed.

Context (send_ : Z → list Z → M sstate Z).

(** Writing without the buffer. *)
Lemma write_direct_spec {A} σ i f d h l (k : Z → M sstate A) Q :
  stream σ i f d h → iob_BufferReadBytes f = 0 → iob_BufferWriteBytes f = 0 →
  Z.testbit (fd_Flags d) 1 = true → 0 < lenZ l → Forall is_byte l →
  (∀ τ, errno (sc τ) ≠ 0 → iobs τ !! Z.to_nat i = Some (Some f) → framed i (iob_Descriptor f) σ τ → wp (k (-1)) Q τ) →
  (∀ τ d' h', stream τ i f d' h' → framed i (iob_Descriptor f) σ τ → same_flags d d' → written l f h f h' →
     wp (k (lenZ l)) Q τ) →
  wp (n ← __write_r send_ (iob_Descriptor f) l; k n) Q σ.
Proof.
  intros HS HR HW Hfd Hpos Hl Hbad Hok. destruct (st_fd _ _ _ _ _ HS) as (_ & _ & Hr). unfold __write_r. wp_step. wp_step.
  eapply wp_get_file_descriptor; [done|]. wp_step. eapply wp_get_fd; [apply HS|].
  unfold FDF_IN_USE, FDF_WRITE, FDF_IS_SOCKET. rewrite !FLAG_IS_CLEAR_bit by lia.
  rewrite (rg_in_use _ _ Hr), Hfd, (bit_false d h) by (done || set_solver). cbn [negb andb].
  rewrite (proj2 (Z.ltb_lt _ _) Hpos). wp_step. eapply wp_mono; [by apply (fd_write_spec _ _ d h); [apply HS|..]|].
  intros [[r e] ioerr] τ [(E1 & He & d' & -> & Hd)|(E1 & d' & h' & Mv & Hd & Hc & Hp)]; cbn in E1; subst r.
  - wp_test. wp_step. unfold __set_errno. apply wp_in_memory, wp_set_errno. wp_step. apply Hbad; cbn; [done|apply HS|].
    split; cbn; try done. intros j Hj. by rewrite list_lookup_insert_ne.
  - rewrite (proj2 (Z.eqb_neq _ _)) by (unfold EOF; lia). rewrite Z.eqb_refl. cbn [negb]. wp_step. wp_step. wp_step.
    assert (wf_iob f (position h')) as Hw' by (destruct (st_wf _ _ _ _ _ HS); split; try done; lia).
    pose proof (stream_moved HS _ _ _ Mv Hw') as HS'. apply (Hok _ d' h'); [done|by eapply moved_framed|done|].
    split; [done|]. unfold lcontent, lpos, pending. rewrite HW. change (take (Z.to_nat 0) (iob_Buffer f)) with (@nil Z).
    rewrite !overwrite_nil, Hc, Hp, (unread_nil _ _ Hw' HR). change (lenZ (@nil Z)) with 0. rewrite !Z.sub_0_r, !Z.add_0_r. done.
Qed.

(** ** Strings *)

Lemma line_feed_range l j : line_feed l = Some j → 0 <= j < lenZ l.
Proof.
  unfold line_feed. destruct (list_find _ l) as [[n b]|] eqn:E; [|done]. intros [= <-].
  apply list_find_Some in E as (E & _). apply lookup_lt_Some in E. unfold lenZ. lia.
Qed.

Section Puts.
Context {σ : sstate} {i : Z} {f : iob} {d : fd} {h : handle} (HS : stream σ i f d h) (HR : iob_BufferReadBytes f = 0).
Context (s : Z) (str : list Z) (Hstr : bytes_at (mem (sc σ)) s str) (Hbytes : Forall is_byte str).

(** The result of a loop of [fputs]. *)
Definition puts_post (b : bool) τ : Prop :=
  framed i (iob_Descriptor f) σ τ ∧
  ((b = false ∧ failed i f τ) ∨
   (b = true ∧ ∃ f' d' h', stream τ i f' d' h' ∧ same_stream f d f' d' ∧ written str f h f' h')).

(** The first [k] characters have been written. *)
Definition puts_at (k : Z) τ : Prop :=
  0 <= k <= lenZ str ∧ framed i (iob_Descriptor f) σ τ ∧
  ∃ f' d' h', stream τ i f' d' h' ∧ same_stream f d f' d' ∧ written (take (Z.to_nat k) str) f h f' h'.

Definition puts_inv (v : Z * Z) τ : Prop := ∃ k, v = (s + k, lenZ str - k) ∧ puts_at k τ.

Lemma puts_start : puts_inv (s, lenZ str) σ.
Proof.
  exists 0. split; [f_equal; lia|]. split; [pose proof (lenZ_nonneg str); lia|]. split; [done|].
  exists f, d, h. split; [done|]. split; [apply same_stream_refl|]. by apply written_view.
Qed.

Lemma puts_all τ : puts_at (lenZ str) τ → puts_post true τ.
Proof. intros (_ & HF & HE). split; [done|]. right. split; [done|]. by rewrite take_all_lenZ in HE. Qed.

(** The next [n] characters. *)
Definition part (k n : Z) : list Z := take (Z.to_nat n) (drop (Z.to_nat k) str).

Lemma part_bytes k n : Forall is_byte (part k n).
Proof. by apply Forall_take, Forall_drop. Qed.

Lemma lenZ_part k n : 0 <= k → 0 <= n → k + n <= lenZ str → lenZ (part k n) = n.
Proof. intros. unfold part. apply lenZ_take. rewrite lenZ_drop; lia. Qed.

Lemma part_at k n τ : framed i (iob_Descriptor f) σ τ → 0 <= k → 0 <= n → k + n <= lenZ str → bytes_at (mem (sc τ)) (s + k) (part k n).
Proof.
  intros HF Hk Hn Hkn j Hj. rewrite lenZ_part in Hj by done. rewrite (fr_mem _ _ _ _ HF).
  replace (s + k + j) with (s + (k + j)) by lia. rewrite Hstr by lia. unfold part. rewrite nthZ_take, nthZ_drop by lia. done.
Qed.

(** One step of a loop: an operation that writes a part of the string. *)
Lemma puts_more k n bad P r τ υ f' d' h' :
  0 <= k → 0 <= n → k + n <= lenZ str →
  framed i (iob_Descriptor f) σ τ → same_stream f d f' d' → written (take (Z.to_nat k) str) f h f' h' →
  ends τ i f' d' bad (fun r f'' h'' => P r ∧ written (part k n) f' h' f'' h'') r υ →
  framed i (iob_Descriptor f) σ υ ∧ ((r = bad ∧ failed i f υ) ∨ (P r ∧ puts_at (k + n) υ)).
Proof.
  intros Hk Hn Hkn HF HSS HW [HF' HE]. rewrite (ss_descriptor _ _ _ _ HSS) in HF'.
  assert (framed i (iob_Descriptor f) σ υ) as HF2 by (by eapply framed_trans). split; [done|].
  destruct HE as [[-> HE]|(f2 & d2 & h2 & HS2 & SS2 & HP & W2)];
    [left; split; [done|by eapply failed_mode; [apply HSS|]]|right]. split; [done|]. split; [lia|]. split; [done|].
  exists f2, d2, h2. split; [done|]. split; [by eapply same_stream_trans|].
  replace (take (Z.to_nat (k + n)) str) with (take (Z.to_nat k) str ++ part k n).
  - eapply written_trans; [exact HW|exact W2|apply (lpos_range HS)].
  - unfold part. rewrite take_take_drop. f_equal. lia.
Qed.

Lemma load_char k τ Q :
  framed i (iob_Descriptor f) σ τ → 0 <= k < lenZ str → Q (nthZ str k) τ → wp (in_memory (load8 (s + k))) Q τ.
Proof.
  intros HF Hk HQ. apply wp_in_memory. eapply wp_load8; [rewrite (fr_mem _ _ _ _ HF); by apply Hstr|]. by rewrite with_sc_same.
Qed.

Lemma part_one k : 0 <= k < lenZ str → part k 1 = [nthZ str k].
Proof. intros Hk. unfold part. rewrite drop_nthZ by done. done. Qed.

(** One character through a macro. *)
Lemma puts_char (put : Z → Z → M sstate Z) k τ :
  (∀ σ i f d h c, stream σ i f d h → iob_BufferReadBytes f = 0 → is_byte c →
     wp (put c i) (ends σ i f d EOF (fun r f' h' => r = c ∧ written [c] f h f' h')) σ) →
  puts_at k τ → k < lenZ str →
  wp (c ← in_memory (load8 (s + k)); r ← put c i;
      if r =? EOF then break false else continue (s + k + 1, lenZ str - k - 1))
     (fun r τ => match r with
                 | inl v => puts_inv v τ ∧ snd v < lenZ str - k
                 | inr b => puts_post b τ
                 end) τ.
Proof.
  intros Hput (Hk & HF & f' & d' & h' & HS' & HSS & HW) Hlt. wp_step. apply load_char; [done|lia|]. wp_step.
  assert (is_byte (nthZ str k)) as Hc by (apply Forall_nthZ; [done|lia]).
  eapply wp_mono; [apply (Hput _ _ _ _ _ _ HS'); [apply HW|done]|]. intros r υ HE.
  rewrite <- part_one in HE by lia. apply (puts_more k 1 EOF _ r τ υ f' d' h') in HE as [HF2 [[-> Hf]|[-> HP]]]; try done; try lia.
  - wp_test. wp_step. split; [done|by left].
  - rewrite (proj2 (Z.eqb_neq _ _)) by (unfold is_byte, EOF in *; lia). wp_step. split; [|cbn; lia].
    exists (k + 1). split; [f_equal; lia|done].
Qed.

(** After a part of the string has gone to the buffer. *)
Definition puts_next (put : Z → Z → M sstate Z) (v : Z * Z) : M sstate (Z * Z + bool) :=
  c ← in_memory (load8 (fst v)); r ← put c i;
  if r =? EOF then break false else continue (fst v + 1, snd v - 1).

Definition step_post (k : Z) (r : Z * Z + bool) τ : Prop :=
  match r with inl v => puts_inv v τ ∧ snd v < lenZ str - k | inr b => puts_post b τ end.

Definition puts_macro (put : Z → Z → M sstate Z) : Prop :=
  ∀ σ i f d h c, stream σ i f d h → iob_BufferReadBytes f = 0 → is_byte c →
    wp (put c i) (ends σ i f d EOF (fun r f' h' => r = c ∧ written [c] f h f' h')) σ.

Lemma puts_rest put k n r τ :
  puts_macro put → 0 <= k → 0 < n → k + n <= lenZ str → framed i (iob_Descriptor f) σ τ →
  (r = -1 ∧ failed i f τ) ∨ (r = OK ∧ puts_at (k + n) τ) →
  wp (if r <? 0 then break false
      else if lenZ str - k - n =? 0 then break true
      else
        file ← get_iob i;
        if iob_BufferWriteBytes file <? iob_BufferSize file
        then continue (s + k + n, lenZ str - k - n) else puts_next put (s + k + n, lenZ str - k - n)) (step_post k) τ.
Proof.
  intros Hput Hk Hn Hkn HF [[-> Hf]|[-> HP]]; wp_test.
  { wp_step. split; [done|by left]. }
  replace (s + k + n) with (s + (k + n)) by lia. replace (lenZ str - k - n) with (lenZ str - (k + n)) by lia.
  destruct (_ =? 0) eqn:E; b2p.
  { wp_step. apply puts_all. by replace (lenZ str) with (k + n) by lia. }
  pose proof HP as (_ & _ & f' & d' & h' & HS' & _). wp_step. apply (wp_get_iob HS'). destruct (_ <? _) eqn:E2.
  - wp_step. split; [by exists (k + n)|cbn; lia].
  - eapply wp_mono; [apply (puts_char put (k + n)); [done|done|lia]|]. intros [v|b] υ; cbn; [|done].
    intros [HI Hlt]. split; [done|lia].
Qed.

Lemma puts_next_spec put k τ :
  puts_macro put → puts_at k τ → k < lenZ str → wp (puts_next put (s + k, lenZ str - k)) (step_post k) τ.
Proof. intros. by apply puts_char. Qed.

Lemma fputs_full_spec : Z.testbit (fd_Flags d) 1 = true → lenZ str < 4294967296 →
  wp (fputs_full send_ i s (lenZ str)) puts_post σ.
Proof.
  intros Hfd Hlen. unfold fputs_full. apply (wp_loop _ puts_inv _ snd); [|apply puts_start| |cbn; lia].
  2: { intros v τ (k & -> & Hk & _). cbn. lia. }
  intros v τ (k & -> & HP). cbn [fst snd]. change (wp ?c _ τ) with (wp c (step_post k) τ).
  pose proof HP as (Hk & HF & f' & d' & h' & HS' & HSS & HW).
  destruct (0 <? lenZ str - k) eqn:E; b2p.
  2: { wp_step. apply puts_all. by replace (lenZ str) with k by lia. }
  wp_step. apply (wp_get_iob HS'). pose proof (st_wf _ _ _ _ _ HS') as Hw'.
  destruct (_ && _) eqn:Eb; b2p.
  - pose proof (lenZ_part k (lenZ str - k) ltac:(lia) ltac:(lia) ltac:(lia)) as Hn.
    wp_step. apply wp_in_memory. replace (Z.to_nat (lenZ str - k)) with (length (part k (lenZ str - k))) by (unfold lenZ in *; lia).
    apply load_bytes_spec; [apply part_at; [done|lia..]|]. rewrite with_sc_same.
    eapply (write_direct_spec τ i f' d' h'); [done|apply HW|done|by rewrite (ss_flags _ _ _ _ HSS)|lia|apply part_bytes|..].
    + intros υ He Ei HF2. wp_test. unfold set_iob_flag. wp_step. eapply wp_upd_at; [done|]. wp_step.
      rewrite (ss_descriptor _ _ _ _ HSS) in HF2. split.
      * eapply framed_trans; [exact HF|]. eapply framed_trans; [exact HF2|apply put_iob_framed].
      * left. split; [done|]. eapply failed_mode; [apply HSS|]. by apply error_flag_failed.
    + intros υ d2 h2 HS2 HF2 Hd2 W2. rewrite (proj2 (Z.eqb_neq _ _)) by lia. wp_step. apply puts_all.
      replace (lenZ str) with (k + (lenZ str - k)) by lia.
      destruct (puts_more k (lenZ str - k) (-1) (fun _ => True) 0 τ υ f' d' h') as [_ [[? _]|[_ HP2]]]; try done; try lia.
      split; [done|right]. exists f', d2, h2. split; [done|]. split; [by split|done].
  - destruct (_ <? _) eqn:Er; b2p; [|by apply puts_next_spec; [exact putc_full_spec|..|lia]].
    set (n := Z.min _ _). assert (0 < n ∧ k + n <= lenZ str ∧ iob_BufferWriteBytes f' + n <= iob_BufferSize f') as (Hn & Hkn & Hroom) by lia.
    pose proof (lenZ_part k n ltac:(lia) ltac:(lia) Hkn) as Hl.
    eapply (fill_spec τ i f' d' h' _ (part k n) n __iob_write_buffer_is_full);
      [done|apply HW|apply part_at; [done|lia..]|apply part_bytes|lia|done|].
    intros r υ HE. apply ends_proj in HE.
    eapply (puts_more k n _ (fun r => r = OK)) in HE as [HF2 HE]; [|done || lia..].
    apply puts_rest; [exact putc_full_spec|lia|done..].
Qed.

Lemma fputs_line_spec : lenZ str < 4294967296 → wp (fputs_line i s (lenZ str)) puts_post σ.
Proof.
  intros Hlen. unfold fputs_line. apply (wp_loop _ puts_inv _ snd); [|apply puts_start| |cbn; lia].
  2: { intros v τ (k & -> & Hk & _). cbn. lia. }
  intros v τ (k & -> & HP). cbn [fst snd]. change (wp ?c _ τ) with (wp c (step_post k) τ).
  pose proof HP as (Hk & HF & f' & d' & h' & HS' & HSS & HW).
  destruct (0 <? lenZ str - k) eqn:E; b2p.
  2: { wp_step. apply puts_all. by replace (lenZ str) with k by lia. }
  wp_step. apply (wp_get_iob HS'). pose proof (st_wf _ _ _ _ _ HS') as Hw'.
  destruct (_ <? _) eqn:Er; b2p; [|by apply puts_next_spec; [exact putc_line_spec|..|lia]].
  set (n := Z.min _ _). assert (0 < n ∧ k + n <= lenZ str ∧ iob_BufferWriteBytes f' + n <= iob_BufferSize f') as (Hn & Hkn & Hroom) by lia.
  pose proof (lenZ_part k n ltac:(lia) ltac:(lia) Hkn) as Hl.
  wp_step. apply wp_in_memory. replace (Z.to_nat n) with (length (part k n)) by (unfold lenZ in *; lia).
  apply load_bytes_spec; [apply part_at; [done|lia..]|]. rewrite with_sc_same.
  set (lf := line_feed (part k n)). set (n' := match lf with Some j => j + 1 | None => n end).
  assert (0 < n' <= n) as Hn'.
  { unfold n'. destruct lf as [j|] eqn:Ej; [|lia]. apply line_feed_range in Ej. lia. }
  pose proof (lenZ_part k n' ltac:(lia) ltac:(lia) ltac:(lia)) as Hl'.
  eapply (fill_spec τ i f' d' h' _ (part k n') n' (fun file => bool_decide (is_Some lf) || __iob_write_buffer_is_full file));
    [done|apply HW|apply part_at; [done|lia..]|apply part_bytes|lia|done|].
  intros r υ HE. apply ends_proj in HE.
  eapply (puts_more k n' _ (fun r => r = OK)) in HE as [HF2 HE]; [|done || lia..].
  apply puts_rest; [exact putc_line_spec|lia|lia|lia|done..].
Qed.
End Puts.

(** A stream without a buffer holds nothing back. *)
Definition settled f : Prop := buffer_mode_of f = IOBF_BUFFER_MODE_NONE → iob_BufferWriteBytes f = 0.

Lemma settled_mode f f' : same_mode f f' → iob_BufferWriteBytes f' = iob_BufferWriteBytes f → settled f → settled f'.
Proof. intros Hm E Hs Hn. rewrite E. apply Hs. by rewrite <- Hn, (buffer_mode_bits _ _ Hm). Qed.

Lemma fputs_modes_spec σ i f d h s str :
  stream σ i f d h → iob_BufferReadBytes f = 0 → settled f → Z.testbit (fd_Flags d) 1 = true →
  bytes_at (mem (sc σ)) s str → Forall is_byte str → lenZ str < 4294967296 →
  wp (if 0 <? lenZ str then
        buffer_mode ← output_mode i;
        if buffer_mode =? IOBF_BUFFER_MODE_LINE then fputs_line i s (lenZ str)
        else if buffer_mode =? IOBF_BUFFER_MODE_NONE then
          file ← get_iob i;
          l ← in_memory (load_bytes s (Z.to_nat (lenZ str)));
          n ← __write_r send_ (iob_Descriptor file) l;
          if n =? -1 then _ ← set_iob_flag i IOBF_ERROR; mret false else mret true
        else fputs_full send_ i s (lenZ str)
      else mret true) (puts_post (σ := σ) (i := i) (f := f) (d := d) (h := h) str) σ.
Proof.
  intros HS HR Hset Hfd Hstr Hb Hlen. destruct (0 <? lenZ str) eqn:E; b2p.
  2: { assert (str = []) as -> by (destruct str; [done|rewrite lenZ_cons in E; pose proof (lenZ_nonneg str); lia]).
       wp_step. split; [done|right]. split; [done|]. exists f, d, h. split; [done|]. split; [apply same_stream_refl|].
       by apply written_view. }
  wp_step. unfold output_mode. wp_step. apply (wp_get_iob HS). cbv zeta.
  assert (∀ m, (m = IOBF_BUFFER_MODE_NONE → buffer_mode_of f = IOBF_BUFFER_MODE_NONE) →
    wp (if m =? IOBF_BUFFER_MODE_LINE then fputs_line i s (lenZ str)
        else if m =? IOBF_BUFFER_MODE_NONE then
          file ← get_iob i;
          l ← in_memory (load_bytes s (Z.to_nat (lenZ str)));
          n ← __write_r send_ (iob_Descriptor file) l;
          if n =? -1 then _ ← set_iob_flag i IOBF_ERROR; mret false else mret true
        else fputs_full send_ i s (lenZ str)) (puts_post (σ := σ) (i := i) (f := f) (d := d) (h := h) str) σ) as Hm.
  { intros m Hm. destruct (m =? IOBF_BUFFER_MODE_LINE); [by apply fputs_line_spec|].
    destruct (m =? IOBF_BUFFER_MODE_NONE) eqn:Em; b2p; [|by apply fputs_full_spec].
    wp_step. apply (wp_get_iob HS). wp_step. apply wp_in_memory. unfold lenZ at 1. rewrite Nat2Z.id.
    apply load_bytes_spec; [done|]. rewrite with_sc_same.
    eapply (write_direct_spec σ i f d h); [done|done|by apply Hset, Hm|done|done|done|..].
    + intros υ He Ei HF. wp_test. unfold set_iob_flag. wp_step. eapply wp_upd_at; [done|]. wp_step. split.
      * eapply framed_trans; [exact HF|apply put_iob_framed].
      * left. split; [done|]. by apply error_flag_failed.
    + intros υ d2 h2 HS2 HF2 Hd2 W2. rewrite (proj2 (Z.eqb_neq _ _)) by lia. wp_step. split; [done|right]. split; [done|].
      exists f, d2, h2. by split_and!. }
  destruct (buffer_mode_of f =? IOBF_BUFFER_MODE_NONE) eqn:Em; b2p.
  - wp_step. eapply wp_get_fd; [apply HS|]. wp_step. by apply Hm.
  - wp_step. by apply Hm.
Qed.

(** a character that [fputc] writes to a stream, in any buffer mode, appears in
    the file that the program sees at the position of the stream, which moves on by
    one; what had been read ahead is dropped.  Otherwise [fputc] returns EOF with
    the error indicator and errno set.  Nothing else changes. *)
Theorem fputc_writes σ i f d h c :
  stream σ i f d h → can_write f →
  wp (fputc c (Some i))
     (ends σ i f d EOF (fun r f' h' => r = u8 c ∧ written [u8 c] f h f' h' ∧ settled f')) σ.
Proof.
  intros HS Hc. unfold fputc. wp_step. eapply wp_mono; [by apply (fputc_check_spec _ _ _ _ _ HS)|].
  intros r τ [F1 [[-> Hf]|(f1 & d1 & h1 & HS1 & SS1 & -> & W1 & _)]]; wp_test.
  { wp_step. split; [done|by left]. }
  wp_step. apply (wp_get_iob HS1). eapply wp_mono; [apply (fputc_spec _ _ _ _ _ _ _ HS1), W1|].
  intros r υ [F2 HE]. rewrite (ss_descriptor _ _ _ _ SS1) in F2. split; [by eapply framed_trans|].
  destruct HE as [[-> HE]|(f2 & d2 & h2 & HS2 & SS2 & -> & W2 & Hn)];
    [left; split; [done|by eapply failed_mode; [apply SS1|]]|right]. exists f2, d2, h2. split; [done|].
  split; [by eapply same_stream_trans|]. split; [done|].
  split; [eapply (written_trans []); [exact W1|exact W2|apply (lpos_range HS)]|].
  intros Em. apply Hn. rewrite <- Em. symmetry. apply buffer_mode_bits, SS2.
Qed.

Lemma fputs_spec σ i f d h s str :
  stream σ i f d h → can_write f → settled f → Z.testbit (fd_Flags d) 1 = true →
  cstr (mem (sc σ)) s str → mem_ok (mem (sc σ)) → 0 < s < 4294967296 → lenZ str < 4294967296 →
  wp (fputs send_ s (Some i)) (ends σ i f d EOF (fun r f' h' => r = OK ∧ written str f h f' h' ∧ settled f')) σ.
Proof.
  intros HS Hc Hset Hfd Hstr Hmem Hs Hlen. unfold fputs, __fputs_r. rewrite (proj2 (Z.eqb_neq _ _)) by (unfold NULL; lia).
  wp_step. eapply wp_mono; [by apply (fputc_check_spec _ _ _ _ _ HS)|].
  intros r τ [F1 [[-> Hf]|(f1 & d1 & h1 & HS1 & SS1 & -> & W1 & E1)]]; wp_test.
  { wp_step. split; [done|by left]. }
  wp_step. apply wp_in_memory. rewrite <- (fr_mem _ _ _ _ F1) in Hstr, Hmem.
  eapply wp_mono; [apply (strlen_spec (sc τ) s str); [done|done|lia|done]|]. intros n m [-> ->]. rewrite with_sc_same. wp_step.
  assert (bytes_at (mem (sc τ)) s str ∧ Forall is_byte str) as [Hat Hby].
  { destruct Hstr as [Hb Hf]. apply bytes_at_app in Hb as [Hb _]. split; [done|].
    eapply Forall_impl; [exact Hf|]. unfold is_byte. intros x ?. lia. }
  eapply wp_mono; [apply (fputs_modes_spec _ _ _ _ _ s str HS1); try done; [apply W1|by apply (settled_mode f); [apply SS1|..]|by rewrite (ss_flags _ _ _ _ SS1)]|].
  intros b υ [F2 HP]. rewrite (ss_descriptor _ _ _ _ SS1) in F2.
  assert (framed i (iob_Descriptor f) σ υ) as F3 by (by eapply framed_trans).
  destruct HP as [[-> Hf]|(-> & f2 & d2 & h2 & HS2 & SS2 & W2)].
  { wp_step. split; [done|left]. split; [done|by eapply failed_mode; [apply SS1|]]. }
  wp_step. apply (wp_get_iob HS2).
  assert (written str f h f2 h2) as W12 by (eapply (written_trans []); [exact W1|exact W2|apply (lpos_range HS)]).
  assert (same_stream f d f2 d2) as SS12 by (by eapply same_stream_trans).
  destruct (_ && _) eqn:Eb.
  2: { wp_step. split; [done|right]. exists f2, d2, h2. do 3 (split; [done|]). split; [done|]. intros Em.
       rewrite (proj2 (Z.eqb_eq _ _) Em) in Eb. cbn in Eb. unfold __iob_write_buffer_is_valid in Eb. b2p.
       destruct (st_wf _ _ _ _ _ HS2). lia. }
  wp_step. eapply wp_mono; [exact (flush_spec _ _ _ _ _ HS2)|].
  intros r ω [F4 HE]. rewrite (ss_descriptor _ _ _ _ SS12) in F4.
  destruct HE as [[-> Hf]|(f3 & d3 & h3 & HS3 & SS3 & HF)]; [|pose proof HF as (-> & Ef3 & _)]; wp_test; wp_step;
    (split; [by eapply framed_trans|]); [left; split; [done|by eapply failed_mode; [apply SS12|]]|right]. exists f3, d3, h3. split; [done|].
  split; [by eapply same_stream_trans|]. split; [done|]. split; [|intros _; by rewrite Ef3].
  rewrite <- (app_nil_r str). eapply written_trans; [exact W12|by eapply flush_written; [exact HS2|apply W2|]|apply (lpos_range HS)].
Qed.

(** C25: [fputs] writes the characters of the string, without the terminator, to the
    file that the program sees at the position of the stream; fully buffered, line
    buffered, unbuffered or on a console, through the buffer or around it.
    Otherwise it returns EOF with the error indicator and errno set. *)
Theorem fputs_writes σ i f d h s str :
  stream σ i f d h → can_write f → settled f → Z.testbit (fd_Flags d) 1 = true →
  cstr (mem (sc σ)) s str → mem_ok (mem (sc σ)) → 0 < s < 4294967296 → lenZ str < 4294967296 →
  wp (fputs send_ s (Some i)) (ends σ i f d EOF (fun r f' h' => r = OK ∧ written str f h f' h' ∧ settled f')) σ.
Proof. exact (fputs_spec σ i f d h s str). Qed.

(** after [fflush] everything that has been written to the stream is in the file
    on the disk, and the program sees the same file, position and input as before.
    Otherwise it returns EOF with the error indicator and errno set. *)
Theorem fflush_flushes σ i f d h :
  stream σ i f d h →
  wp (fflush (Some i)) (ends σ i f d EOF (fun r f' h' =>
    r = OK ∧ pending f' = [] ∧ content h' = lcontent f h ∧ same_view f h f' h')) σ.
Proof.
  intros HS. unfold fflush, __fflush_r. wp_step. apply (wp_get_iob HS). unfold __iob_write_buffer_is_valid.
  destruct (0 <? _) eqn:E; b2p.
  2: { assert (pending f = []) as Ep by (unfold pending; destruct (st_wf _ _ _ _ _ HS); by replace (iob_BufferWriteBytes f) with 0 by lia).
       wp_step. apply (stays HS). unfold lcontent. rewrite Ep, overwrite_nil. done. }
  wp_step. eapply wp_mono; [exact (flush_spec _ _ _ _ _ HS)|]. intros r τ [F HE].
  destruct HE as [[-> Hf]|(f1 & d1 & h1 & HS1 & SS1 & HF)]; [|pose proof HF as (-> & -> & Hc & _)]; wp_test; wp_step;
    (split; [done|]); [by left|right]. exists (write_to 0 f), d1, h1. do 5 (split; [done|]). by eapply flushed_view.
Qed.
End Write.

(** ** Evaluation *)

(** A fully buffered stream for reading and writing with a buffer of four bytes. *)
Definition rw_iob (buf : list Z) (pos rd wr : Z) : iob := Iob 56 buf 4 pos rd wr 0 0.

Lemma fputc_writes_witness :
  let h := ([65; 66; 67; 68; 69; 70], 4) in
  let f := rw_iob [65; 66; 67; 68] 1 4 0 in
  let σ := open_file (CState ∅ 0) f h in
  stream (H := disk 100) σ 0 f (disk_fd h) h ∧
  wp (fputc (H := disk 100) 344 (Some 0))
     (ends (H := disk 100) σ 0 f (disk_fd h) EOF
        (fun r f' h' => r = 88 ∧ written (H := disk 100) [88] f h f' h' ∧ settled f')) σ ∧
  lcontent (H := disk 100) f h = [65; 66; 67; 68; 69; 70] ∧ lpos (H := disk 100) f h = 1.
Proof.
  intros h f σ. assert (stream (H := disk 100) σ 0 f (disk_fd h) h) as HS by (by apply open_file_stream).
  split; [exact HS|]. split; [|done]. exact (fputc_writes (H := disk 100) σ 0 f (disk_fd h) h 344 HS eq_refl).
Defined.

Lemma fputs_writes_witness :
  let h := ([], 0) in
  let f := rw_iob [0; 0; 0; 0] 0 0 0 in
  let σ := open_file (CState (write_bytes ∅ 100 [72; 101; 108; 108; 111; 0; 0; 0]) 0) f h in
  wp (fputs (H := disk 100) (fun _ _ => fault) 100 (Some 0))
     (ends (H := disk 100) σ 0 f (disk_fd h) EOF
        (fun r f' h' => r = 0 ∧ written (H := disk 100) [72; 101; 108; 108; 111] f h f' h' ∧ settled f')) σ.
Proof.
  intros h f σ. assert (stream (H := disk 100) σ 0 f (disk_fd h) h) as HS by (by apply open_file_stream).
  apply (fputs_writes (H := disk 100) (fun _ _ => fault) σ 0 f (disk_fd h) h 100 [72; 101; 108; 108; 111] HS).
  - reflexivity.
  - done.
  - reflexivity.
  - apply cstrb_sound. vm_compute. reflexivity.
  - apply mem_okb_sound. vm_compute. reflexivity.
  - lia.
  - vm_compute. reflexivity.
Defined.

Lemma fflush_flushes_witness :
  let h := ([65; 66; 67], 1) in
  let f := rw_iob [88; 89; 90; 0] 0 0 3 in
  let σ := open_file (CState ∅ 0) f h in
  wp (fflush (H := disk 100) (Some 0))
     (ends (H := disk 100) σ 0 f (disk_fd h) EOF (fun r f' h' =>
        r = 0 ∧ pending f' = [] ∧ content (Dos := disk 100) h' = lcontent (H := disk 100) f h ∧
        same_view (H := disk 100) f h f' h')) σ ∧
  lcontent (H := disk 100) f h = [65; 88; 89; 90].
Proof.
  intros h f σ. assert (stream (H := disk 100) σ 0 f (disk_fd h) h) as HS by (by apply open_file_stream).
  split; [|reflexivity]. exact (fflush_flushes (H := disk 100) σ 0 f (disk_fd h) h HS).
Defined.
