(* ===== verification/StdioRead.v ===== *)
(** * Buffered files: reading

    Reading returns the bytes of the file that the program sees, one after the
    other: fgetc.c, ungetc.c, fgets.c, fread.c. *)

From stdpp Require Import base numbers gmap list.
From S2P Require Import Prelude CMem Words StrScan Fds Stdio StdioSpec StdioWrite.
Open Scope Z_scope.
#[local] Set Warnings "-clear-no-such-hyp".

Section Read.
Context `{Dos}.
Implicit Types (σ τ υ : sstate) (f : iob) (d : fd) (h : handle).

Definition can_read f : Prop := Z.testbit (iob_Flags f) 3 = true.

(** Filling the buffer of a line buffered stream flushes the other line buffered
    streams: there is nothing in them. *)
Definition quiet (i : Z) σ : Prop :=
  lenZ (iobs σ) < 4294967296 ∧
  ∀ j g, j ≠ Z.to_nat i → iobs σ !! j = Some (Some g) →
    buffer_mode_of g = IOBF_BUFFER_MODE_LINE → iob_BufferWriteBytes g <= 0.

Lemma quiet_framed i p σ τ : framed i p σ τ → quiet i σ → quiet i τ.
Proof.
  intros HF [Hn Hq]. split; [unfold lenZ; by rewrite (fr_length _ _ _ _ HF)|]. intros j g Hj E. apply (Hq j g Hj). by rewrite <- (fr_iobs _ _ _ _ HF).
Qed.

Lemma flush_all_quiet σ i f d h :
  stream σ i f d h → iob_BufferWriteBytes f = 0 → quiet i σ →
  wp (__flush_all_files IOBF_BUFFER_MODE_LINE) (fun r τ => r = OK ∧ τ = σ) σ.
Proof.
  intros HS HW [Hn Hq]. unfold __flush_all_files.
  apply (wp_loop _ (fun j τ => 0 <= j <= lenZ (iobs σ) ∧ τ = σ) _ (fun j => lenZ (iobs σ) - j)); [| | |lia].
  2: { split; [pose proof (lenZ_nonneg (iobs σ)); lia|done]. }
  2: { intros j τ [? _]. lia. }
  intros j τ [Hj ->]. wp_step. wp_step. destruct (j <? _) eqn:E; b2p; [|by wp_step].
  assert ((0 <= j + 1 <= lenZ (iobs σ) ∧ σ = σ) ∧ lenZ (iobs σ) - (j + 1) < lenZ (iobs σ) - j) as Hc by (split; [split; [|done]|]; lia).
  destruct (iobs σ !! Z.to_nat j) as [[g|]|] eqn:Eg; [|by wp_step..].
  destruct (_ && _) eqn:Eb; [|by wp_step]. exfalso.
  apply andb_true_iff in Eb as [Eb Ev]. apply andb_true_iff in Eb as [_ Em].
  change (IOBF_BUFFER_MODE_LINE <? 0) with false in Em. cbn [orb] in Em. unfold __iob_write_buffer_is_valid in Ev. b2p.
  destruct (decide (Z.to_nat j = Z.to_nat i)) as [Ej|Ej].
  - rewrite Ej, (st_iob _ _ _ _ _ HS) in Eg. injection Eg as ->. lia.
  - specialize (Hq _ _ Ej Eg Em). lia.
Qed.

(** ** Filling the buffer *)

Lemma take_lenZ {A} n (l : list A) : take (Z.to_nat (lenZ (take n l))) l = take n l.
Proof.
  unfold lenZ. rewrite Nat2Z.id, length_take. destruct (Nat.min_spec n (length l)) as [[? ->]|[? ->]]; [done|].
  by rewrite !take_ge by lia.
Qed.

Definition fill_buffer (l : list Z) f : iob := read_to 0 (lenZ l) (buffer_to (overwrite (iob_Buffer f) 0 l) f).

Lemma take_fill l f pos : wf_iob f pos → lenZ l <= iob_BufferSize f →
  take (Z.to_nat (lenZ l)) (overwrite (iob_Buffer f) 0 l) = l.
Proof. intros [] Hl. unfold overwrite. change (take (Z.to_nat 0) (iob_Buffer f)) with (@nil Z). cbn [app]. unfold lenZ. rewrite Nat2Z.id. apply take_app_length. Qed.

Lemma fill_buffer_wf l f pos :
  wf_iob f pos → iob_BufferWriteBytes f = 0 → lenZ l <= iob_BufferSize f → Forall is_byte l →
  wf_iob (fill_buffer l f) (pos + lenZ l).
Proof.
  intros [] HW Hl Hb. pose proof (lenZ_nonneg l). split; cbn; try done; try lia.
  - rewrite lenZ_overwrite; lia.
  - unfold overwrite. rewrite !Forall_app. split_and!; [by apply Forall_take|done|by apply Forall_drop].
Qed.

Definition emptied f : Prop := iob_BufferWriteBytes f = 0 ∧ iob_BufferPosition f = iob_BufferReadBytes f.

Lemma fill_spec_read σ i f d h :
  stream σ i f d h → emptied f → quiet i σ →
  wp (__fill_iob_read_buffer i) (ends σ i f d (-1) (fun r f' h' =>
    r = OK ∧ iob_Flags f' = iob_Flags f ∧ same_view f h f' h' ∧ iob_BufferWriteBytes f' = 0 ∧ iob_BufferPosition f' = 0 ∧ coherent f' h' ∧
    (iob_BufferReadBytes f' = 0 → input f h = []))) σ.
Proof.
  intros HS [HW HP] Hq. pose proof (st_wf _ _ _ _ _ HS) as Hw. unfold __fill_iob_read_buffer. wp_step. apply (wp_get_iob HS). wp_step.
  apply (wp_mono _ (fun r τ => r = OK ∧ τ = σ)).
  { destruct (_ =? _); [by eapply flush_all_quiet|by wp_step]. }
  intros r τ [-> ->]. wp_test. wp_step. apply (wp_get_iob HS). wp_step. unfold iob_action_read. wp_step. apply (wp_iob_fd HS).
  eapply wp_mono; [apply (fd_read_spec _ _ d h); [apply HS|destruct Hw; lia]|].
  intros [[r data] e] τ (d' & h' & Mv & Hd & Hc & HE). cbn in HE.
  assert (framed i (iob_Descriptor f) σ τ) as HF by (by eapply moved_framed).
  destruct HE as [(-> & -> & He & Hpos)|(-> & Hdata & Hpos)]; cbv zeta.
  { change (s32 EOF) with EOF. wp_test. eapply wp_error; [rewrite (proj1 Mv); apply HS|done|]. intros υ F1 F2.
    split; [by eapply framed_trans|by left]. }
  assert (lenZ data <= iob_BufferSize f) as Hlen.
  { rewrite Hdata. unfold lenZ. rewrite length_take. destruct Hw. lia. }
  pose proof (lenZ_nonneg data) as Hnn.
  assert (Forall is_byte data) as Hbytes by (rewrite Hdata; apply Forall_take, Forall_drop, content_byte).
  assert (s32 (lenZ data) = lenZ data) as -> by (unfold s32; rewrite Z.mod_small; destruct Hw; lia).
  rewrite (proj2 (Z.eqb_neq _ _)) by (unfold EOF; lia).
  assert (wf_iob f (position h')) as Hw' by (destruct Hw; split; try done; lia).
  pose proof (stream_moved HS _ _ _ Mv Hw') as HS'.
  wp_step. eapply wp_store_buffer; [done|lia|lia|]. wp_step.
  eapply wp_upd_at; [apply list_lookup_insert_eq; eapply lookup_lt_Some, HS'|]. rewrite put_iob_twice.
  change (read_to _ _ _) with (fill_buffer data f). set (g := fill_buffer data f). wp_step.
  assert (wf_iob g (position h')) as Hg by (rewrite Hpos; by apply fill_buffer_wf).
  split; [eapply framed_trans; [exact HF|apply put_iob_framed]|right]. exists g, d', h'.
  pose proof (stream_put HS' g eq_refl Hg) as HSg. split; [done|]. split; [by split|]. do 2 (split; [done|]).
  assert (unread g = data) as Eu.
  { unfold unread. cbn [g fill_buffer read_to buffer_to iob_BufferReadBytes iob_BufferPosition iob_Buffer]. rewrite Z.sub_0_r.
    cbn [Z.to_nat drop]. by eapply take_fill. }
  assert (pending g = [] ∧ pending f = []) as [Epg Epf] by (unfold pending; cbn; by rewrite HW).
  assert (unread f = []) as Euf by (unfold unread; by rewrite HP, Z.sub_diag).
  split; [|split; [done|split; [done|split]]].
  - unfold same_view, lcontent, lpos, input. rewrite Eu, Epg, Epf, Euf, !overwrite_nil, Hc, Hpos, !lenZ_nil, !Z.add_0_r.
    split_and!; [done|lia|]. rewrite Hdata at 1. cbn [app].
    replace (Z.to_nat (position h + lenZ data)) with (Z.to_nat (position h) + Z.to_nat (lenZ data))%nat by (pose proof (position_ok h); lia).
    rewrite <- drop_drop, <- (take_lenZ (Z.to_nat (iob_BufferSize f))), <- Hdata. apply take_drop.
  - unfold coherent. cbn [g fill_buffer read_to buffer_to iob_BufferReadBytes iob_Buffer].
    rewrite (take_fill _ _ _ Hw Hlen), Hc, Hpos. replace (position h + lenZ data - lenZ data) with (position h) by lia.
    rewrite Hdata at 2. rewrite take_lenZ. exact Hdata.
  - intros E0. change (lenZ data = 0) in E0. unfold input. rewrite Euf, Epf, lenZ_nil, Z.add_0_r. cbn [app].
    rewrite Hdata in E0. unfold lenZ in E0. rewrite length_take in E0. apply nil_length_inv. destruct Hw. lia.
Qed.

(** ** Characters *)

(** [k] bytes have been read. *)
Record consumed (k : Z) f h f' h' : Prop := {
  co_write : iob_BufferWriteBytes f' = 0;
  co_content : lcontent f' h' = lcontent f h;
  co_pos : lpos f' h' = lpos f h + k;
  co_input : input f' h' = drop (Z.to_nat k) (input f h);
  co_coherent : coherent f h → coherent f' h';
  co_error : Z.testbit (iob_Flags f') 6 = Z.testbit (iob_Flags f) 6
}.

(** The end of the file, or the next character. *)
Definition got (r : Z) f h f' h' : Prop :=
  (r = EOF ∧ input f h = [] ∧ consumed 0 f h f' h' ∧ Z.testbit (iob_Flags f') 2 = true) ∨
  (∃ l, input f h = r :: l ∧ is_byte r ∧ consumed 1 f h f' h').

Lemma consumed_trans j k f h f' h' f'' h'' :
  0 <= j → 0 <= k → consumed j f h f' h' → consumed k f' h' f'' h'' → consumed (j + k) f h f'' h''.
Proof.
  intros Hj Hk [] []. split; [done|congruence|lia| |auto|congruence].
  rewrite co_input1, co_input0, drop_drop. f_equal. lia.
Qed.

Lemma consumed_view f h f' h' :
  same_view f h f' h' → iob_BufferWriteBytes f' = 0 → (coherent f h → coherent f' h') →
  Z.testbit (iob_Flags f') 6 = Z.testbit (iob_Flags f) 6 → consumed 0 f h f' h'.
Proof. intros (V1 & V2 & V3) E Hc He. split; [done|done|lia|done|done|done]. Qed.

Lemma got_trans r f h f' h' f'' h'' : consumed 0 f h f' h' → got r f' h' f'' h'' → got r f h f'' h''.
Proof.
  intros HC [(-> & Hi & HC2 & He)|(l & Hi & Hb & HC2)]; pose proof (co_input _ _ _ _ _ HC) as Ei; cbn in Ei; rewrite Ei in Hi.
  - left. split_and!; try done. by eapply (consumed_trans 0 0).
  - right. exists l. split_and!; try done. by eapply (consumed_trans 0 1).
Qed.

(** Taking [k] bytes out of the buffer. *)
Definition taken (k : Z) f : iob := read_to (iob_BufferPosition f + k) (iob_BufferReadBytes f) f.

Section Taken.
Context {σ : sstate} {i : Z} {f : iob} {d : fd} {h : handle} (HS : stream σ i f d h).
Context (HW : iob_BufferWriteBytes f = 0) (k : Z) (Hk : 0 <= k <= iob_BufferReadBytes f - iob_BufferPosition f).

Lemma taken_wf : wf_iob (taken k f) (position h).
Proof. destruct (st_wf _ _ _ _ _ HS). split; cbn; try done. lia. Qed.

Lemma unread_taken : unread (taken k f) = drop (Z.to_nat k) (unread f).
Proof.
  destruct (st_wf _ _ _ _ _ HS). unfold unread. cbn. rewrite skipn_firstn_comm, drop_drop. f_equal; [lia|f_equal; lia].
Qed.

Lemma taken_consumed : consumed k f h (taken k f) h.
Proof.
  pose proof (lenZ_unread HS) as HL. split; [done|done| | |done|done].
  - unfold lpos. rewrite unread_taken. rewrite lenZ_drop by lia. change (pending (taken k f)) with (pending f). lia.
  - unfold input. change (pending (taken k f)) with (pending f). rewrite unread_taken, drop_app_le; [done|].
    unfold lenZ in HL. lia.
Qed.

Lemma taken_stream : stream (put_iob i (taken k f) σ) i (taken k f) d h.
Proof. apply (stream_put HS); [done|]. apply taken_wf. Qed.
End Taken.

Lemma same_stream_taken k f d : same_stream f d (taken k f) d.
Proof. by split. Qed.

(** The character at the position of the buffer. *)
Lemma take_char σ i f d h :
  stream σ i f d h → iob_BufferWriteBytes f = 0 → iob_BufferPosition f < iob_BufferReadBytes f →
  wp (b ← load_buffer i (iob_BufferPosition f);
      _ ← upd i (read_to (iob_BufferPosition f + 1) (iob_BufferReadBytes f)); mret b)
     (ends σ i f d EOF (fun r f' h' => got r f h f' h')) σ.
Proof.
  intros HS HW Hlt. pose proof (st_wf _ _ _ _ _ HS) as Hw.
  destruct (lookup_lt_is_Some_2 (iob_Buffer f) (Z.to_nat (iob_BufferPosition f))) as [b Eb].
  { destruct Hw. unfold lenZ in *. lia. }
  wp_step. unfold load_buffer. wp_step. apply (wp_get_iob HS). rewrite Eb. wp_step. wp_step. apply (wp_upd HS). wp_step.
  apply (stream_ends HS (taken 1 f)); [apply same_stream_taken|apply (taken_wf HS); lia|].
  assert (unread f = b :: drop 1 (unread f)) as Eu.
  { unfold unread. rewrite (drop_S _ _ _ Eb). replace (Z.to_nat (iob_BufferReadBytes f - iob_BufferPosition f))
      with (S (Z.to_nat (iob_BufferReadBytes f - iob_BufferPosition f - 1))) by lia. done. }
  right. eexists. split; [unfold input; rewrite Eu; reflexivity|]. split; [|apply (taken_consumed HS); lia].
  destruct Hw as [_ _ _ Hb _ _ _ _]. by eapply Forall_lookup_1 in Eb.
Qed.

Lemma fgetc_spec σ i f d h :
  stream σ i f d h → emptied f → quiet i σ → wp (__fgetc i) (ends σ i f d EOF (fun r f' h' => got r f h f' h')) σ.
Proof.
  intros HS [HW HP] Hq. unfold __fgetc. wp_step. apply (wp_get_iob HS). wp_step.
  unfold __iob_read_buffer_is_empty. rewrite HP, Z.eqb_refl, orb_true_r. wp_step.
  eapply wp_mono; [by apply (fill_spec_read _ _ _ _ _ HS)|].
  intros r τ [F1 [[-> Hf]|(f1 & d1 & h1 & HS1 & SS1 & -> & E1 & V1 & W1 & P1 & C1 & N1)]]; wp_test.
  { wp_step. split; [done|by left]. }
  pose proof (st_wf _ _ _ _ _ HS1) as Hw1. wp_step. apply (wp_get_iob HS1). rewrite P1.
  destruct (iob_BufferReadBytes f1 =? 0) eqn:E0; b2p; cbn [orb].
  - unfold set_iob_flag. wp_step. apply (wp_upd HS1). wp_step. set (f2 := flags_to _ f1).
    assert (same_mode f1 f2) as Hm by (apply (same_mode_set f1 2); lia).
    split; [eapply framed_trans; [exact F1|apply put_iob_framed]|right]. exists f2, d1, h1.
    split; [by apply (stream_put HS1); [|apply wf_flags]|]. split; [eapply same_stream_trans; [exact SS1|by apply same_stream_flags]|].
    left. split; [done|]. split; [by apply N1|]. split.
    + apply consumed_view; [done|done|by intros _|].
      cbn [f2 flags_to iob_Flags]. unfold IOBF_EOF_REACHED. rewrite SET_FLAG_bit, E1 by lia. by rewrite orb_false_r.
    + cbn [f2 flags_to iob_Flags]. unfold IOBF_EOF_REACHED. rewrite SET_FLAG_bit by lia. by rewrite orb_true_r.
  - assert ((0 =? iob_BufferReadBytes f1) = false) as -> by (apply Z.eqb_neq; lia). wp_step. wp_step. apply (wp_get_iob HS1).
    eapply wp_mono; [apply (take_char _ _ _ _ _ HS1 W1); destruct Hw1; lia|]. intros r υ HE.
    eapply ends_trans; [exact F1|exact SS1|exact HE|]. intros g g' HG.
    eapply got_trans; [apply consumed_view; [exact V1|done|done|by rewrite E1]|exact HG].
Qed.

Lemma getc_spec σ i f d h :
  stream σ i f d h → iob_BufferWriteBytes f = 0 → quiet i σ →
  wp (__getc i) (ends σ i f d EOF (fun r f' h' => got r f h f' h')) σ.
Proof.
  intros HS HW Hq. unfold __getc. wp_step. apply (wp_get_iob HS). destruct (_ <? _) eqn:E; b2p.
  - by apply take_char.
  - apply fgetc_spec; [done| |done]. split; [done|]. destruct (st_wf _ _ _ _ _ HS). lia.
Qed.

Lemma fgetc_check_spec σ i f d h :
  stream σ i f d h → can_read f →
  wp (__fgetc_check i) (ends σ i f d EOF (fun r f' h' => r = OK ∧ consumed 0 f h f' h' ∧
    iob_BufferReadBytes f' = iob_BufferReadBytes f ∧ iob_BufferPosition f' = iob_BufferPosition f)) σ.
Proof.
  intros HS Hc. pose proof (st_wf _ _ _ _ _ HS) as Hw. unfold __fgetc_check. wp_step. apply (wp_get_iob HS).
  rewrite (in_use_clear _ _ Hw). unfold IOBF_READ. rewrite FLAG_IS_CLEAR_bit by lia. rewrite Hc. cbn [orb negb].
  unfold __iob_write_buffer_is_valid. destruct (0 <? iob_BufferWriteBytes f) eqn:Er; b2p.
  2: { wp_step. apply (stays HS). split; [done|]. split; [|done]. apply consumed_view; [done|destruct Hw; lia|done|done]. }
  wp_step. eapply wp_mono; [exact (flush_spec _ _ _ _ _ HS)|]. intros r τ [HF HE].
  destruct HE as [[-> Hf]|(f' & d' & h' & HS' & Hss & Hfl)].
  { wp_test. wp_step. split; [done|]. by left. }
  pose proof Hfl as (-> & Ef & _). wp_test. wp_step. split; [done|right]. exists f', d', h'. do 3 (split; [done|]).
  split; [|by rewrite Ef]. apply consumed_view; [by eapply flushed_view|by rewrite Ef| |by rewrite Ef]. intros _. apply coherent_nil.
  rewrite Ef. destruct Hw. cbn. lia.
Qed.

(** [fgetc] returns the next byte of the file that the program sees, and the
    position moves on by one; or EOF with the end-of-file indicator if there is no
    such byte; or EOF with the error indicator and errno set.  What had been written
    before is flushed first, and neither call changes the content. *)
Theorem fgetc_reads σ i f d h :
  stream σ i f d h → can_read f → quiet i σ →
  wp (fgetc (Some i)) (ends σ i f d EOF (fun r f' h' => got r f h f' h')) σ.
Proof.
  intros HS Hc Hq. unfold fgetc. wp_step. eapply wp_mono; [by apply (fgetc_check_spec _ _ _ _ _ HS)|].
  intros r τ [F1 [[-> Hf]|(f1 & d1 & h1 & HS1 & SS1 & -> & C1 & _)]]; wp_test.
  { wp_step. split; [done|by left]. }
  eapply wp_mono; [apply (getc_spec _ _ _ _ _ HS1); [apply C1|by eapply quiet_framed]|]. intros r υ HE.
  eapply ends_trans; [exact F1|exact SS1|exact HE|]. intros g g' HG. by eapply got_trans.
Qed.

(** A byte in front of the unread ones. *)
Definition pushed (b : Z) f : iob :=
  buffer_to (overwrite (iob_Buffer f) (iob_BufferPosition f - 1) [b])
    (read_to (iob_BufferPosition f - 1) (iob_BufferReadBytes f) f).

Lemma pushed_wf b f pos : wf_iob f pos → 0 < iob_BufferPosition f → is_byte b → wf_iob (pushed b f) pos.
Proof.
  intros [W1 W2 W3 W4 W5 W6 W7 W8] Hp Hb. split; cbn; try done; try lia.
  - rewrite lenZ_overwrite by lia. change (lenZ [b]) with 1. lia.
  - unfold overwrite. rewrite !Forall_app. split_and!; [by apply Forall_take|by constructor|by apply Forall_drop].
Qed.

Lemma unread_pushed b f pos : wf_iob f pos → 0 < iob_BufferPosition f → unread (pushed b f) = b :: unread f.
Proof.
  intros [W1 W2 W3 W4 W5 W6 W7 W8] Hp. unfold unread, overwrite. cbn [pushed buffer_to read_to iob_BufferReadBytes iob_BufferPosition iob_Buffer].
  unfold overwrite. set (p := iob_BufferPosition f) in *. change (lenZ [b]) with 1.
  rewrite drop_app_ge; rewrite length_take; [|unfold lenZ in *; lia].
  replace (Z.to_nat (p - 1) - _)%nat with 0%nat by (unfold lenZ in *; lia). cbn [drop app].
  replace (Z.to_nat (iob_BufferReadBytes f - (p - 1))) with (S (Z.to_nat (iob_BufferReadBytes f - p))) by lia. cbn [take].
  by replace (p - 1 + 1) with p by lia.
Qed.

(** after at least one byte of the buffer has been read, [ungetc] pushes a
    character back: it is what is read next, before the former input; the position
    moves back by one and the end-of-file indicator is cleared. *)
Theorem ungetc_pushes σ i f d h c :
  stream σ i f d h → can_read f → c ≠ EOF → 0 < iob_BufferPosition f →
  wp (ungetc c (Some i)) (fun r τ => framed i (iob_Descriptor f) σ τ ∧ r = u8 c ∧ ∃ f',
    stream τ i f' d h ∧ same_stream f d f' d ∧ Z.testbit (iob_Flags f') 2 = false ∧
    input f' h = u8 c :: input f h ∧ lpos f' h = lpos f h - 1 ∧ lcontent f' h = lcontent f h) σ.
Proof.
  intros HS Hc Hne Hpos. pose proof (st_wf _ _ _ _ _ HS) as Hw. unfold ungetc, __ungetc_r. cbv zeta. wp_step. apply (wp_get_iob HS).
  rewrite (in_use_clear _ _ Hw). unfold IOBF_READ. rewrite FLAG_IS_CLEAR_bit by lia. rewrite Hc. cbn [negb].
  rewrite (proj2 (Z.eqb_neq _ _) Hne). unfold __iob_write_buffer_is_valid.
  assert (iob_BufferWriteBytes f = 0) as HW by (destruct Hw; lia). rewrite HW. cbn [Z.ltb Z.compare]. wp_step. wp_step. wp_test.
  wp_step. apply (wp_get_iob HS). rewrite (proj2 (Z.eqb_neq _ _)) by lia. unfold clear_iob_flag. wp_step. apply (wp_upd HS).
  set (f1 := flags_to _ f). assert (same_mode f f1) as Hm by (apply (same_mode_clear f 2); lia).
  pose proof (wf_flags _ _ _ Hm Hw : wf_iob f1 _) as Hw1. pose proof (stream_put HS f1 eq_refl Hw1) as HS1.
  wp_step. apply (wp_get_iob HS1). wp_step. apply (wp_upd HS1). rewrite put_iob_twice.
  assert (wf_iob (read_to (iob_BufferPosition f1 - 1) (iob_BufferReadBytes f1) f1) (position h)) as Hw2
    by (destruct Hw1; cbn in *; split; cbn; try done; lia).
  epose proof (stream_put HS (read_to _ _ f1) eq_refl Hw2) as HS2. wp_step. eapply wp_store_buffer; [exact HS2|cbn; lia| |].
  { change (lenZ [u8 c]) with 1. destruct Hw. cbn. lia. }
  wp_step. rewrite put_iob_twice, land_255. split; [apply put_iob_framed|]. split; [done|]. change (buffer_to _ _) with (pushed (u8 c) f1).
  exists (pushed (u8 c) f1). split; [apply (stream_put HS); [done|apply pushed_wf; [done|done|apply u8_byte]]|]. split; [by split|]. split.
  { cbn [pushed buffer_to f1 read_to flags_to iob_Flags]. unfold IOBF_EOF_REACHED. rewrite CLEAR_FLAG_bit by lia. by rewrite andb_false_r. }
  assert (pending f = [] ∧ pending (pushed (u8 c) f1) = []) as [Ep Ep3] by (unfold pending; cbn; by rewrite HW).
  unfold input, lpos, lcontent. rewrite (unread_pushed _ _ _ Hw1 Hpos), Ep, Ep3, lenZ_cons. change (unread f1) with (unread f).
  split_and!; [done|lia|done].
Qed.
End Read.

(** ** Evaluation *)

Lemma quiet_one c f h : quiet (H := disk 100) 0 (open_file c f h).
Proof. split; [done|]. intros [|[|j]] g Hj E; done. Qed.

Lemma fgetc_reads_witness :
  let h := ([65; 66; 67; 68; 69; 70], 4) in
  let f := rw_iob [65; 66; 67; 68] 1 4 0 in
  let σ := open_file (CState ∅ 0) f h in
  wp (fgetc (H := disk 100) (Some 0))
     (ends (H := disk 100) σ 0 f (disk_fd h) EOF (fun r f' h' => got (H := disk 100) r f h f' h')) σ ∧
  input (H := disk 100) f h = [66; 67; 68; 69; 70].
Proof.
  intros h f σ. assert (stream (H := disk 100) σ 0 f (disk_fd h) h) as HS by (by apply open_file_stream).
  split; [|reflexivity]. exact (fgetc_reads (H := disk 100) σ 0 f (disk_fd h) h HS eq_refl (quiet_one _ _ _)).
Defined.

Lemma ungetc_pushes_witness :
  let h := ([65; 66; 67; 68; 69; 70], 4) in
  let f := rw_iob [65; 66; 67; 68] 1 4 0 in
  let σ := open_file (CState ∅ 0) f h in
  wp (ungetc (H := disk 100) 90 (Some 0)) (fun r τ =>
    framed (H := disk 100) 0 0 σ τ ∧ r = 90 ∧ ∃ f',
    stream (H := disk 100) τ 0 f' (disk_fd h) h ∧ same_stream (H := disk 100) f (disk_fd h) f' (disk_fd h) ∧
    Z.testbit (iob_Flags f') 2 = false ∧ input (H := disk 100) f' h = 90 :: input (H := disk 100) f h ∧
    lpos (H := disk 100) f' h = lpos (H := disk 100) f h - 1 ∧ lcontent (H := disk 100) f' h = lcontent (H := disk 100) f h) σ.
Proof.
  intros h f σ. assert (stream (H := disk 100) σ 0 f (disk_fd h) h) as HS by (by apply open_file_stream).
  apply (ungetc_pushes (H := disk 100) σ 0 f (disk_fd h) h 90 HS); [reflexivity|done|reflexivity].
Defined.
