(* ===== verification/StdioInput.v ===== *)
(** * Buffered files: reading lines and blocks

    [fgets] (fgets.c) and [fread] (fread.c) take as much of the input of a stream
    as a loop of [fgetc] would, and store it in the memory of the caller. *)

From stdpp Require Import base numbers gmap list.
From S2P Require Import Prelude CMem Words StrScan Fds Stdio StdioSpec StdioWrite StdioRead.
Open Scope Z_scope.
#[local] Set Warnings "-clear-no-such-hyp".

(** At most [n] bytes, up to and with the first line feed. *)
Fixpoint first_line (n : nat) (l : list Z) : list Z :=
  match n, l with
  | S n, b :: l => b :: (if b =? 10 then [] else first_line n l)
  | _, _ => []
  end.

Definition no_lf (l : list Z) : Prop := Forall (fun b => b ≠ 10) l.

Lemma first_line_app l k n : no_lf l → (length l <= n)%nat → first_line n (l ++ k) = l ++ first_line (n - length l) k.
Proof.
  revert n. induction l as [|b l IH]; intros n Hl Hn; cbn in *.
  { by rewrite Nat.sub_0_r. }
  apply Forall_cons in Hl as [Hb Hl]. destruct n as [|n]; [lia|]. cbn. rewrite (proj2 (Z.eqb_neq _ _) Hb), IH by (done || lia). done.
Qed.

Lemma first_line_nil n : first_line n [] = [].
Proof. by destruct n. Qed.

Lemma first_line_length n l : (length (first_line n l) <= n)%nat.
Proof.
  revert l. induction n as [|n IH]; intros [|b l]; cbn; try lia. destruct (b =? 10); cbn; [lia|]. specialize (IH l). lia.
Qed.

Lemma line_feed_None l : line_feed l = None → no_lf l.
Proof. unfold line_feed. destruct (list_find _ l) as [[n b]|] eqn:E; [done|]. intros _. by apply list_find_None in E. Qed.

Lemma line_feed_Some l j : line_feed l = Some j →
  ∃ l1 l2, l = l1 ++ 10 :: l2 ∧ lenZ l1 = j ∧ no_lf l1 ∧ take (Z.to_nat (j + 1)) l = l1 ++ [10].
Proof.
  unfold line_feed. destruct (list_find _ l) as [[n b]|] eqn:E; [|done]. intros [= <-].
  apply list_find_Some in E as (E & -> & Hno). exists (take n l), (drop (S n) l).
  pose proof (lookup_lt_Some _ _ _ E). split_and!.
  - symmetry. by apply take_drop_middle.
  - unfold lenZ. rewrite length_take. lia.
  - apply Forall_forall. intros x Hx. apply list_elem_of_lookup in Hx as [j Hx]. apply lookup_take_Some in Hx as [Hx Hj]. by eapply Hno.
  - replace (Z.to_nat (Z.of_nat n + 1)) with (S n) by lia. by apply take_S_r.
Qed.

Section Input.
Context `{Dos}.
Implicit Types (σ τ υ : sstate) (f : iob) (d : fd) (h : handle).

(** ** Memory *)

Definition with_memory (m : gmap Z Z) σ : sstate := with_sc (with_mem m (sc σ)) σ.

Lemma stream_memory m σ i f d h : stream σ i f d h → stream (with_memory m σ) i f d h.
Proof. intros [H1 H2 H3]. by split. Qed.

Lemma framed_memory i p m σ τ : framed i p σ τ → framed i p (with_memory m σ) (with_memory m τ).
Proof. intros []. by split. Qed.

(** The state after the bytes [l] have been stored at [p]. *)
Definition stored (p : Z) (l : list Z) σ : sstate := with_memory (write_bytes (mem (sc σ)) p l) σ.

Lemma framed_stored i q p l k σ τ :
  framed i q (stored p l σ) τ → framed i q (stored p (l ++ k) σ) (stored (p + lenZ l) k τ).
Proof.
  intros HF. unfold stored. rewrite write_bytes_app. pose proof (fr_mem _ _ _ _ HF) as E. cbn in E. rewrite E.
  destruct HF. by split.
Qed.

Lemma wp_store_at i q p l k n σ τ Q :
  framed i q (stored p l σ) τ → mapped (mem (sc σ)) p n → lenZ l + lenZ k <= n → Forall is_byte k →
  Q tt (stored (p + lenZ l) k τ) → wp (in_memory (store_bytes (p + lenZ l) k)) Q τ.
Proof.
  intros HF Hm Hn Hk HQ. apply wp_in_memory, store_bytes_spec; [|done|done]. rewrite (fr_mem _ _ _ _ HF).
  pose proof (lenZ_nonneg l). apply write_bytes_mapped. eapply mapped_sub; [exact Hm|lia|lia].
Qed.

Lemma wp_store8_at i q p l b n σ τ Q :
  framed i q (stored p l σ) τ → mapped (mem (sc σ)) p n → lenZ l < n → is_byte b →
  Q tt (stored (p + lenZ l) [b] τ) → wp (in_memory (store8 (p + lenZ l) b)) Q τ.
Proof.
  intros HF Hm Hn Hb HQ. apply wp_in_memory, wp_store8.
  - rewrite (fr_mem _ _ _ _ HF). pose proof (lenZ_nonneg l). eapply write_bytes_mapped; [exact Hm|lia].
  - rewrite u8_small by done. exact HQ.
Qed.

Lemma stored_nil p σ : stored p [] σ = σ.
Proof. by destruct σ as [[] ? ? ?]. Qed.

(** ** Lines *)

Section Gets.
Context {σ : sstate} {i : Z} {f : iob} {d : fd} {h : handle} (HS : stream σ i f d h).
Context (HW : iob_BufferWriteBytes f = 0) (Hq : quiet i σ) (He : Z.testbit (iob_Flags f) 6 = false).
Context (buf N : Z) (Hm : mapped (mem (sc σ)) buf (N + 1)) (HN : 0 <= N < 4294967296) (Hbuf : buf ≠ NULL).

#[local] Abbreviation inp := (input f h).

(** [l] has been read and stored. *)
Definition gets_at (l : list Z) τ : Prop :=
  framed i (iob_Descriptor f) (stored buf l σ) τ ∧ lenZ l <= N ∧ (∃ r, inp = l ++ r) ∧
  ∃ f' d' h', stream τ i f' d' h' ∧ same_stream f d f' d' ∧ consumed (lenZ l) f h f' h'.

Definition line : list Z := first_line (Z.to_nat N) inp.

(** How the loop ends: with an error, or with the line, perhaps terminated. *)
Definition gets_post (v : Z * Z * bool) τ : Prop :=
  let '(r, s, out) := v in
  (r = NULL ∧ out = true ∧ failed i f τ) ∨
  (r = (if bool_decide (line = []) && (0 <? N) then NULL else buf) ∧ s = buf + lenZ line ∧
   framed i (iob_Descriptor f) (stored buf (if out then line ++ [0] else line) σ) τ ∧
   ∃ f' d' h', stream τ i f' d' h' ∧ same_stream f d f' d' ∧ consumed (lenZ line) f h f' h').

Definition gets_inv (v : Z * Z) τ : Prop :=
  ∃ l, v = (buf + lenZ l, N - lenZ l) ∧ no_lf l ∧ gets_at l τ.

Definition gets_step (n : Z) (r : Z * Z + Z * Z * bool) τ : Prop :=
  match r with inl v => gets_inv v τ ∧ snd v < n | inr v => gets_post v τ end.

Lemma gets_line l r : inp = l ++ r → no_lf l → lenZ l <= N → line = l ++ first_line (Z.to_nat (N - lenZ l)) r.
Proof.
  intros E Hl Hn. unfold line. rewrite E, first_line_app by (done || (unfold lenZ in *; lia)). do 2 f_equal. unfold lenZ. lia.
Qed.

Lemma gets_done l τ : gets_at l τ → line = l → l ≠ [] ∨ N = 0 → gets_post (buf, buf + lenZ l, false) τ.
Proof.
  intros (HF & Hn & _ & HE) El Hne. right. rewrite El. split; [|done].
  destruct (bool_decide (l = [])) eqn:E; [|done]. apply bool_decide_eq_true in E as ->. destruct Hne as [?| ->]; done.
Qed.

(** Taking [k] bytes of the buffer. *)
Lemma gets_take l k τ f' d' h' :
  gets_at l τ → stream τ i f' d' h' → same_stream f d f' d' → consumed (lenZ l) f h f' h' →
  0 < k <= N - lenZ l → k <= iob_BufferReadBytes f' - iob_BufferPosition f' →
  let l2 := take (Z.to_nat k) (drop (Z.to_nat (iob_BufferPosition f')) (iob_Buffer f')) in
  lenZ l2 = k ∧ Forall is_byte l2 ∧
  gets_at (l ++ l2) (put_iob i (taken k f') (stored (buf + lenZ l) l2 τ)).
Proof.
  intros (HF & Hn & [r Er] & _) HS' HSS HC Hk Hku l2. pose proof (st_wf _ _ _ _ _ HS') as Hw.
  assert (lenZ l2 = k) as Hl2.
  { destruct Hw. unfold l2. rewrite lenZ_take; [done|]. rewrite lenZ_drop; lia. }
  assert (Forall is_byte l2) as Hb by (destruct Hw; by apply Forall_take, Forall_drop). split; [done|]. split; [done|].
  pose proof (stream_memory (write_bytes (mem (sc τ)) (buf + lenZ l) l2) _ _ _ _ _ HS') as HS2. fold (stored (buf + lenZ l) l2 τ) in HS2.
  assert (l2 = take (Z.to_nat k) (input f' h')) as E2.
  { unfold input. rewrite take_app_le by (pose proof (lenZ_unread HS') as HU; unfold lenZ in HU; lia).
    unfold unread, l2. rewrite take_take. f_equal. lia. }
  pose proof (co_input _ _ _ _ _ HC) as Ei. rewrite Er in Ei. unfold lenZ in Ei. rewrite Nat2Z.id, drop_app_length in Ei.
  split; [|split; [rewrite lenZ_app; lia|split]].
  - eapply framed_trans; [by apply framed_stored|apply put_iob_framed].
  - exists (drop (Z.to_nat k) r). rewrite Er, <- app_assoc, E2, Ei. f_equal. symmetry. apply take_drop.
  - exists (taken k f'), d', h'. split; [apply (taken_stream HS2); lia|].
    split; [eapply same_stream_trans; [exact HSS|apply same_stream_taken]|]. rewrite lenZ_app, Hl2.
    apply (consumed_trans _ _ f h f' h'); [apply lenZ_nonneg|lia|done|]. apply (taken_consumed HS'); [apply HC|lia].
Qed.

Lemma wp_ferror τ g (Q : bool → sstate → Prop) :
  iobs τ !! Z.to_nat i = Some (Some g) → Q (Z.testbit (iob_Flags g) 6) τ → wp (ferror i) Q τ.
Proof.
  intros E HQ. unfold ferror. wp_step. unfold wp at 1, get_iob. rewrite E. wp_step.
  unfold IOBF_ERROR. by rewrite FLAG_IS_SET_bit by lia.
Qed.

Lemma gets_next l τ :
  gets_at l τ → no_lf l → lenZ l < N →
  wp (c ← __getc i;
      if c =? EOF then
        e ← ferror i;
        if e : bool then _ ← in_memory (store8 (buf + lenZ l) 0); break (NULL, buf + lenZ l, true)
        else break (if buf =? buf + lenZ l then NULL else buf, buf + lenZ l, false)
      else
        _ ← in_memory (store8 (buf + lenZ l) c);
        if c =? 10 then break (buf, buf + lenZ l + 1, false) else continue (buf + lenZ l + 1, N - lenZ l - 1))
     (gets_step (N - lenZ l)) τ.
Proof.
  intros HA Hl Hlt. pose proof HA as (HF & Hn & [r Er] & f' & d' & h' & HS' & HSS & HC).
  assert (quiet i τ) as Hqτ by (eapply quiet_framed; [exact HF|exact Hq]). pose proof (lenZ_nonneg l) as Hl0.
  pose proof (co_input _ _ _ _ _ HC) as Ei. rewrite Er in Ei. unfold lenZ in Ei. rewrite Nat2Z.id, drop_app_length in Ei.
  pose proof (gets_line l r Er Hl Hn) as Eline.
  wp_step. eapply wp_mono; [apply (getc_spec _ _ _ _ _ HS'); [apply HC|done]|].
  intros c υ [F2 HE]. rewrite (ss_descriptor _ _ _ _ HSS) in F2.
  assert (framed i (iob_Descriptor f) (stored buf l σ) υ) as F3 by (by eapply framed_trans).
  destruct HE as [[-> Hf]|(f2 & d2 & h2 & HS2 & SS2 & HG)].
  { pose proof Hf as (_ & g & Eg & _ & Hg). wp_test. wp_step. eapply wp_ferror; [done|]. rewrite Hg. wp_step. eapply wp_store8_at; [exact F3|done|lia|done|].
    wp_step. left. split_and!; [done|done|]. by eapply (failed_mode _ _ f'); [apply HSS|]. }
  assert (same_stream f d f2 d2) as SS by (by eapply same_stream_trans).
  destruct HG as [(-> & Hnil & C2 & _)|(l' & Hcons & Hb & C2)].
  - apply (consumed_trans _ 0 f h f' h' f2 h2 Hl0 ltac:(lia) HC) in C2. wp_test. wp_step. eapply wp_ferror; [apply HS2|]. rewrite (co_error _ _ _ _ _ C2), He. wp_step. right.
    rewrite Z.add_0_r in C2. rewrite Hnil in Ei. subst r. assert (line = l) as -> by (by rewrite Eline, first_line_nil, app_nil_r).
    split; [|split; [done|split; [done|by exists f2, d2, h2]]]. rewrite (proj2 (Z.ltb_lt 0 N)) by lia. rewrite andb_true_r.
    destruct l as [|b l]; [by rewrite lenZ_nil, Z.add_0_r, Z.eqb_refl|].
    rewrite lenZ_cons in *. rewrite (proj2 (Z.eqb_neq _ _)) by (pose proof (lenZ_nonneg l); lia). done.
  - apply (consumed_trans _ 1 f h f' h' f2 h2 Hl0 ltac:(lia) HC) in C2. rewrite (proj2 (Z.eqb_neq c EOF)) by (unfold is_byte, EOF in *; lia). wp_step.
    eapply wp_store8_at; [exact F3|done|lia|done|]. rewrite Hcons in Ei. subst r.
    assert (gets_at (l ++ [c]) (stored (buf + lenZ l) [c] υ)) as HA2.
    { split; [by apply framed_stored|]. rewrite lenZ_app. change (lenZ [c]) with 1. split; [lia|].
      split; [exists l'; by rewrite <- app_assoc|]. exists f2, d2, h2. split; [by apply stream_memory|done]. }
    replace (buf + lenZ l + 1) with (buf + lenZ (l ++ [c])) by (rewrite lenZ_app; change (lenZ [c]) with 1; lia).
    destruct (c =? 10) eqn:Ec; wp_step.
    + apply gets_done; [done| |by left; destruct l]. rewrite Eline. replace (Z.to_nat (N - lenZ l)) with (S (Z.to_nat (N - lenZ l - 1))) by lia.
      cbn. by rewrite Ec.
    + b2p. unfold gets_step. cbn [snd]. split; [|lia]. exists (l ++ [c]). split; [|split; [|done]].
      * f_equal. rewrite lenZ_app. change (lenZ [c]) with 1. lia.
      * apply Forall_app. split; [done|by constructor].
Qed.

Lemma gets_loop_spec : wp (fgets_loop i buf buf N) gets_post σ.
Proof.
  unfold fgets_loop. apply (wp_loop _ gets_inv _ snd); [| | |cbn; lia].
  3: { intros v τ (l & -> & _ & _ & Hl & _). cbn. lia. }
  2: { exists []. rewrite lenZ_nil, Z.add_0_r, Z.sub_0_r. split; [done|]. split; [constructor|].
       split; [by rewrite stored_nil|]. rewrite lenZ_nil. split; [lia|]. split; [by exists inp|].
       exists f, d, h. split; [done|]. split; [apply same_stream_refl|]. by apply consumed_view. }
  intros v τ (l & -> & Hl & HA). cbn [snd]. change (wp ?c _ τ) with (wp c (gets_step (N - lenZ l)) τ).
  pose proof HA as (HF & Hn & [r Er] & f' & d' & h' & HS' & HSS & HC).
  pose proof (gets_line l r Er Hl Hn) as Eline. pose proof (lenZ_nonneg l) as Hl0.
  destruct (0 <? N - lenZ l) eqn:E; b2p.
  2: { wp_step. replace (N - lenZ l) with 0 in Eline by lia. cbn in Eline. rewrite app_nil_r in Eline.
       apply gets_done; [done|done|]. destruct l; [right; rewrite lenZ_nil in *; lia|by left]. }
  wp_step. apply (wp_get_iob HS'). destruct (_ <? _) eqn:Eb; b2p; [|apply gets_next; [done|done|lia]].
  cbv zeta. set (k := Z.min _ _).
  destruct (line_feed _) as [lf|] eqn:Elf.
  - pose proof (line_feed_range _ _ Elf) as Hlf. unfold lenZ in Hlf at 1. rewrite length_take in Hlf.
    pose proof (line_feed_Some _ _ Elf) as (l1 & l2 & E1 & E2 & E3 & E4). rewrite take_take, Nat.min_l in E4 by lia.
    rewrite take_take, Nat.min_l by lia.
    destruct (gets_take l (lf + 1) τ f' d' h') as (Hl2 & Hb2 & HA2); [done|done|done|done|lia|lia|].
    rewrite E4 in *. wp_step. eapply wp_store_at; [exact HF|done|lia|done|]. wp_step.
    eapply wp_upd_at; [apply HS'|]. change (read_to _ _ f') with (taken (lf + 1) f'). wp_step.
    assert (line = l ++ l1 ++ [10]) as El.
    { destruct HA2 as (_ & HL2 & [r2 Er2] & _). rewrite !lenZ_app in HL2. change (lenZ [10]) with 1 in HL2.
      rewrite (gets_line (l ++ l1) (10 :: r2)); [..|rewrite lenZ_app; lia].
      - rewrite lenZ_app. replace (Z.to_nat (N - (lenZ l + lenZ l1))) with (S (Z.to_nat (N - (lenZ l + lenZ l1) - 1))) by lia.
        cbn. by rewrite <- app_assoc.
      - rewrite Er2, <- !app_assoc. done.
      - by apply Forall_app. }
    replace (buf + lenZ l + (lf + 1)) with (buf + lenZ (l ++ l1 ++ [10])) by (rewrite lenZ_app; lia).
    destruct HA2 as (HF2 & HL2 & _ & HE2). eapply wp_store8_at; [exact HF2|done|lia|done|]. wp_step. right. rewrite El.
    split; [by destruct l, l1|]. split; [done|]. split; [by apply framed_stored|].
    destruct HE2 as (f2 & d2 & h2 & HS2 & SS2 & C2). exists f2, d2, h2. split; [by apply stream_memory|done].
  - destruct (gets_take l k τ f' d' h') as (Hl2 & Hb2 & HA2); [done|done|done|done|lia|lia|].
    set (l2 := take _ _) in *. apply line_feed_None in Elf. wp_step. eapply wp_store_at; [exact HF|done|lia|done|]. wp_step.
    eapply wp_upd_at; [apply HS'|]. change (read_to _ _ f') with (taken k f').
    assert (no_lf (l ++ l2)) as Hl' by (by apply Forall_app).
    replace (buf + lenZ l + k) with (buf + lenZ (l ++ l2)) by (rewrite lenZ_app; lia).
    replace (N - lenZ l - k) with (N - lenZ (l ++ l2)) by (rewrite lenZ_app; lia).
    pose proof HA2 as (_ & HL2 & [r2 Er2] & _). pose proof (gets_line _ _ Er2 Hl' HL2) as El2. destruct (_ =? 0) eqn:E0; b2p.
    + wp_step. rewrite E0 in El2. cbn in El2. rewrite app_nil_r in El2. apply gets_done; [done|done|].
      left. destruct l2; [rewrite lenZ_nil in Hl2; lia|by destruct l].
    + eapply wp_mono; [apply gets_next; [done|done|lia]|]. intros [v|v] υ; cbn; [|done].
      intros [HI HLt]. split; [done|]. rewrite lenZ_app in HLt. lia.
Qed.
End Gets.

(** Clearing the indicators changes nothing else. *)
Definition cleared f : iob :=
  flags2_to (CLEAR_FLAG (iob_Flags2 f) __SERR)
    (flags_to (CLEAR_FLAG (CLEAR_FLAG (iob_Flags f) IOBF_ERROR) IOBF_EOF_REACHED) f).

Lemma cleared_bit f k : Z.testbit (iob_Flags (cleared f)) k = Z.testbit (iob_Flags f) k && negb (6 =? k) && negb (2 =? k).
Proof. cbn [cleared flags2_to flags_to iob_Flags]. unfold IOBF_ERROR, IOBF_EOF_REACHED. by rewrite !CLEAR_FLAG_bit by lia. Qed.

Lemma cleared_mode f d : same_stream f d (cleared f) d.
Proof.
  split; [done|done| |done]. intros k Hk H2 H6. rewrite cleared_bit.
  rewrite (proj2 (Z.eqb_neq 6 k)), (proj2 (Z.eqb_neq 2 k)) by lia. by rewrite !andb_true_r.
Qed.

Lemma cleared_wf f pos : wf_iob f pos → wf_iob (cleared f) pos.
Proof. intros []. split; try done. rewrite cleared_bit. by rewrite !andb_true_r. Qed.

Lemma clearerr_spec σ i f d h Q :
  stream σ i f d h → (stream (put_iob i (cleared f) σ) i (cleared f) d h → Q tt (put_iob i (cleared f) σ)) →
  wp (__clearerr_r i) Q σ.
Proof.
  intros HS HQ. unfold __clearerr_r, clear_iob_flag. pose proof (lookup_lt_Some _ _ _ (st_iob _ _ _ _ _ HS)) as Hlt.
  wp_step. apply (wp_upd HS). wp_step. eapply wp_upd_at; [by apply list_lookup_insert_eq|]. rewrite put_iob_twice.
  eapply wp_upd_at; [by apply list_lookup_insert_eq|]. rewrite put_iob_twice. apply HQ, (stream_put HS); [done|]. by apply cleared_wf, HS.
Qed.

(** What a successful read of [l] into the memory at [p] leaves. *)
Definition delivered σ (i : Z) f d h (p : Z) (l k : list Z) τ : Prop :=
  framed i (iob_Descriptor f) (stored p (l ++ k) σ) τ ∧ ∃ f' d' h', stream τ i f' d' h' ∧ same_stream f d f' d' ∧
    lcontent f' h' = lcontent f h ∧ lpos f' h' = lpos f h + lenZ l ∧ input f' h' = drop (length l) (input f h) ∧
    (coherent f h → coherent f' h').

(** C26: [fgets] stores the next line of the input, at most [n - 1] bytes up to and
    with the first line feed, and a terminator, and the position moves behind that
    line.  It returns the buffer; or NULL if there is no input left (the terminator
    is stored even then); or NULL with the error indicator and errno set. *)
Theorem fgets_reads σ i f d h buf n :
  stream σ i f d h → can_read f → quiet i σ → mapped (mem (sc σ)) buf n → buf ≠ NULL → 0 < n < 4294967296 →
  let l := first_line (Z.to_nat (n - 1)) (input f h) in
  wp (fgets buf n (Some i)) (fun r τ =>
    (r = NULL ∧ failed i f τ) ∨
    (r = (if bool_decide (l = []) && (1 <? n) then NULL else buf) ∧ delivered σ i f d h buf l [0] τ)) σ.
Proof.
  intros HS Hc Hq Hm Hbuf Hn l. unfold fgets. rewrite (proj2 (Z.eqb_neq _ _) Hbuf), (proj2 (Z.leb_gt n 0)) by lia.
  wp_step. eapply wp_mono; [by apply (fgetc_check_spec _ _ _ _ _ HS)|].
  intros r τ [F1 [[-> Hf]|(f1 & d1 & h1 & HS1 & SS1 & -> & C1 & _)]]; wp_test.
  { wp_step. by left. }
  wp_step. eapply clearerr_spec; [exact HS1|]. intros HS2. set (f2 := cleared f1) in *. set (τ2 := put_iob i f2 τ) in *.
  assert (framed i (iob_Descriptor f) σ τ2) as F2 by (eapply framed_trans; [exact F1|apply put_iob_framed]).
  assert (same_stream f d f2 d1) as SS2 by (eapply same_stream_trans; [exact SS1|apply cleared_mode]).
  assert (input f2 h1 = input f h) as Ei by (exact (co_input _ _ _ _ _ C1)).
  wp_step. eapply wp_mono; [apply (gets_loop_spec HS2 (co_write _ _ _ _ _ C1) (quiet_framed _ _ _ _ F2 Hq))|].
  - unfold f2. rewrite cleared_bit. by rewrite andb_false_r.
  - rewrite (fr_mem _ _ _ _ F2). by replace (n - 1 + 1) with n by lia.
  - lia.
  - intros [[r s] out] υ HE. cbn in HE. unfold line in HE. rewrite Ei in HE. fold l in HE.
    destruct HE as [(-> & -> & Hf)|(-> & -> & F3 & f3 & d3 & h3 & HS3 & SS3 & C3)].
    { wp_step. wp_step. wp_step. left. split; [done|by eapply failed_mode; [apply SS2|]]. }
    replace (1 <? n) with (0 <? n - 1) by (destruct (0 <? n - 1) eqn:Ea, (1 <? n) eqn:Eb; b2p; done || lia).
    assert (∀ k ω, framed i (iob_Descriptor f2) (stored buf k τ2) ω → framed i (iob_Descriptor f) (stored buf k σ) ω) as HF.
    { intros k ω HF. rewrite (ss_descriptor _ _ _ _ SS2) in HF. eapply framed_trans; [|exact HF]. unfold stored.
      rewrite (fr_mem _ _ _ _ F2). by apply framed_memory. }
    pose proof (first_line_length (Z.to_nat (n - 1)) (input f h)) as Hlen. fold l in Hlen.
    assert (∀ ω, stream ω i f3 d3 h3 → framed i (iob_Descriptor f) (stored buf (l ++ [0]) σ) ω → delivered σ i f d h buf l [0] ω) as HD.
    { intros ω HSω HFω. split; [done|]. exists f3, d3, h3. destruct C1 as [_ A2 A3 A4 A5 _], C3 as [_ B2 B3 B4 B5 _].
      split; [done|]. split; [by eapply same_stream_trans|]. split_and!.
      - by rewrite B2.
      - rewrite B3. change (lpos f2 h1) with (lpos f1 h1). lia.
      - rewrite B4, Ei. unfold lenZ. by rewrite Nat2Z.id.
      - intros Hco. by apply B5, A5. }
    destruct out; wp_step; [wp_step; wp_step; right; split; [done|]; apply HD; [done|by apply HF]|].
    eapply wp_store8_at; [exact F3|rewrite (fr_mem _ _ _ _ F2); exact Hm|unfold lenZ; lia|done|]. wp_step. right. split; [done|].
    apply HD; [by apply stream_memory|]. by apply framed_stored, HF.
Qed.

(** ** Blocks *)

Context (recv : Z → Z → M sstate (Z * list Z)).

(** A regular file is not in little endian order. *)
Lemma direct_tail f d h l n (Q : Z * list Z → sstate → Prop) τ i :
  stream τ i f d h → Q (n, l) τ →
  wp (r ← __get_file_descriptor (iob_Descriptor f);
      match r with
      | None => fault
      | Some p =>
          g ← get_fd p;
          if negb (FLAG_IS_SET (fd_Flags g) FDF_IS_SOCKET) && FLAG_IS_SET (fd_Flags g) FDF_LITTLE_ENDIAN
          then mret (n, byteswap n l) else mret (n, l)
      end) Q τ.
Proof.
  intros HS HQ. destruct (st_fd _ _ _ _ _ HS) as (_ & _ & Hr). wp_step. eapply wp_get_file_descriptor; [done|]. wp_step.
  eapply wp_get_fd; [apply HS|]. unfold FDF_LITTLE_ENDIAN. rewrite (bit_false d h) by (done || set_solver). rewrite andb_false_r. by wp_step.
Qed.

Lemma read_direct_spec σ i f d h n Q :
  stream σ i f d h → iob_BufferReadBytes f = 0 → iob_BufferWriteBytes f = 0 → Z.testbit (fd_Flags d) 0 = true →
  0 < n < 2147483648 →
  (∀ τ, errno (sc τ) ≠ 0 → iobs τ !! Z.to_nat i = Some (Some f) → framed i (iob_Descriptor f) σ τ → Q (EOF, []) τ) →
  (∀ τ d' h', let l := take (Z.to_nat n) (input f h) in
     stream τ i f d' h' → framed i (iob_Descriptor f) σ τ → same_flags d d' → consumed (lenZ l) f h f h' → Q (lenZ l, l) τ) →
  wp (read recv (iob_Descriptor f) n) Q σ.
Proof.
  intros HS HR HW Hfd Hn Hbad Hok. pose proof (st_wf _ _ _ _ _ HS) as Hw. unfold read, __read_internal. wp_step. wp_step.
  unfold __set_errno at 1. apply wp_in_memory, wp_set_errno. set (σ0 := with_sc _ σ).
  assert (stream σ0 i f d h) as HS0 by (destruct HS; by split). assert (framed i (iob_Descriptor f) σ σ0) as F0 by (by split).
  destruct (st_fd _ _ _ _ _ HS0) as (_ & _ & Hr). wp_step. eapply wp_get_file_descriptor; [exact HS0|]. wp_step.
  eapply wp_get_fd; [apply HS0|]. unfold FDF_IN_USE, FDF_READ, FDF_IS_SOCKET. rewrite !FLAG_IS_CLEAR_bit by lia.
  rewrite (rg_in_use _ _ Hr), Hfd, (bit_false d h) by (done || set_solver). cbn [negb andb].
  rewrite (proj2 (Z.ltb_lt 0 n)) by lia. assert (s32 n = n) as -> by (unfold s32; rewrite Z.mod_small; lia).
  wp_step. eapply wp_mono; [apply (fd_read_spec _ _ d h); [apply HS0|lia]|].
  intros [[r data] e] τ (d' & h' & Mv & Hd & Hc & HE). cbn in HE.
  assert (framed i (iob_Descriptor f) σ τ) as HF by (eapply framed_trans; [exact F0|by eapply moved_framed]).
  destruct HE as [(-> & -> & He & Hpos)|(-> & Hdata & Hpos)].
  { wp_test. wp_step. unfold __set_errno. apply wp_in_memory, wp_set_errno. wp_step.
    rewrite (proj2 (Z.eqb_neq EOF n)) by (unfold EOF; lia). cbn [negb]. wp_step.
    apply Hbad; [done|rewrite (proj1 Mv); apply HS|]. destruct HF. by split. }
  pose proof (lenZ_nonneg data) as Hnn. rewrite (proj2 (Z.eqb_neq _ _)) by (unfold EOF; lia). wp_step.
  assert (wf_iob f (position h')) as Hw' by (destruct Hw; split; try done; lia).
  pose proof (stream_moved HS0 _ _ _ Mv Hw') as HS'.
  assert (unread f = [] ∧ pending f = []) as [Eu Ep] by (unfold pending; rewrite HW; split; [by eapply unread_nil|done]).
  assert (take (Z.to_nat n) (input f h) = data) as Ei by (unfold input; by rewrite Eu, Ep, lenZ_nil, Z.add_0_r, Hdata).
  assert (Q (lenZ data, data) τ) as HQ.
  { specialize (Hok τ d' h'). cbv zeta in Hok. rewrite Ei in Hok. apply Hok; [done|done|done|]. split; [done| | | |by intros; apply coherent_nil|done].
    - unfold lcontent. by rewrite Ep, !overwrite_nil.
    - unfold lpos. lia.
    - unfold input. rewrite Eu, Ep, Hc, Hpos, lenZ_nil, !Z.add_0_r. cbn [app]. rewrite drop_drop. f_equal. pose proof (position_ok h). lia. }
  destruct (lenZ data =? n) eqn:En; b2p; cbn [negb]; [|by wp_step]. rewrite <- En. by eapply direct_tail.
Qed.

Section Fread.
Context {σ : sstate} {i : Z} {f : iob} {d : fd} {h : handle} (HS : stream σ i f d h).
Context (HW : iob_BufferWriteBytes f = 0) (Hq : quiet i σ) (Hfd : Z.testbit (fd_Flags d) 0 = true).
Context (ptr T : Z) (Hm : mapped (mem (sc σ)) ptr T) (HT : 0 < T < 2147483648).

(** The bytes [l] have been read and stored. *)
#[local] Abbreviation block_at := (gets_at (σ := σ) (i := i) (f := f) (d := d) (h := h) ptr T).

(** All of the block, or all of the input; or an error after a part of the block. *)
Definition fread_post (r : Z + unit) τ : Prop :=
  (failed i f τ ∧ match r with inl n => 0 <= n < T | inr _ => True end) ∨
  (∃ l, l = take (Z.to_nat T) (input f h) ∧ r = inl (lenZ l) ∧
   block_at l τ).

Definition fread_inv (v : Z * Z * Z) τ : Prop :=
  ∃ l, v = (ptr + lenZ l, T - lenZ l, lenZ l) ∧ block_at l τ.

Definition fread_step (n : Z) (r : Z * Z * Z + (Z + unit)) τ : Prop :=
  match r with inl v => fread_inv v τ ∧ v.1.2 < n | inr v => fread_post v τ end.

Lemma fread_whole l k : input f h = l ++ k → lenZ l = T ∨ k = [] → lenZ l <= T → l = take (Z.to_nat T) (input f h).
Proof.
  intros -> [<-| ->] Hl; unfold lenZ in *.
  - by rewrite Nat2Z.id, take_app_length.
  - rewrite app_nil_r, take_ge by lia. done.
Qed.

Lemma fread_next l τ :
  block_at l τ → lenZ l < T →
  wp (c ← __getc i;
      if c =? EOF then break (inl (lenZ l))
      else
        _ ← in_memory (store8 (ptr + lenZ l) c);
        continue (ptr + lenZ l + 1, T - lenZ l - 1, lenZ l + 1)) (fread_step (T - lenZ l)) τ.
Proof.
  intros HA Hlt. pose proof HA as (HF & Hn & [r Er] & f' & d' & h' & HS' & HSS & HC).
  assert (quiet i τ) as Hqτ by (eapply quiet_framed; [exact HF|exact Hq]). pose proof (lenZ_nonneg l) as Hl0.
  pose proof (co_input _ _ _ _ _ HC) as Ei. rewrite Er in Ei. unfold lenZ in Ei. rewrite Nat2Z.id, drop_app_length in Ei.
  wp_step. eapply wp_mono; [apply (getc_spec _ _ _ _ _ HS'); [apply HC|done]|].
  intros c υ [F2 HE]. rewrite (ss_descriptor _ _ _ _ HSS) in F2.
  assert (framed i (iob_Descriptor f) (stored ptr l σ) υ) as F3 by (by eapply framed_trans).
  destruct HE as [[-> Hf]|(f2 & d2 & h2 & HS2 & SS2 & HG)].
  { wp_test. wp_step. left. split; [by eapply failed_mode; [apply HSS|]|lia]. }
  assert (same_stream f d f2 d2) as SS by (by eapply same_stream_trans).
  destruct HG as [(-> & Hnil & C2 & _)|(l' & Hcons & Hb & C2)].
  - apply (consumed_trans _ 0 f h f' h' f2 h2 Hl0 ltac:(lia) HC) in C2. rewrite Z.add_0_r in C2. wp_test. wp_step. right. exists l.
    rewrite Hnil in Ei. subst r. split; [eapply fread_whole; [exact Er|by right|done]|]. split; [done|].
    split; [done|]. split; [done|]. split; [by exists []|]. by exists f2, d2, h2.
  - apply (consumed_trans _ 1 f h f' h' f2 h2 Hl0 ltac:(lia) HC) in C2.
    rewrite (proj2 (Z.eqb_neq c EOF)) by (unfold is_byte, EOF in *; lia). wp_step.
    eapply wp_store8_at; [exact F3|done|lia|done|]. rewrite Hcons in Ei. subst r. wp_step. split; [|cbn; lia].
    exists (l ++ [c]). rewrite lenZ_app. change (lenZ [c]) with 1. split; [f_equal; f_equal; lia|].
    split; [by apply framed_stored|]. rewrite lenZ_app. change (lenZ [c]) with 1. split; [lia|].
    split; [exists l'; by rewrite <- app_assoc|]. exists f2, d2, h2. split; [by apply stream_memory|done].
Qed.

(** Reading the rest without the buffer. *)
Lemma fread_bypass l τ f' d' h' :
  block_at l τ → lenZ l < T → stream τ i f' d' h' → same_stream f d f' d' → consumed (lenZ l) f h f' h' →
  iob_BufferReadBytes f' = 0 →
  wp (read_into recv i (ptr + lenZ l) (T - lenZ l)) (fun n υ =>
    (n = -1 ∧ errno (sc υ) ≠ 0 ∧ iobs υ !! Z.to_nat i = Some (Some f')) ∨
    ∃ l2, n = lenZ l2 ∧ l ++ l2 = take (Z.to_nat T) (input f h) ∧ block_at (l ++ l2) υ) τ.
Proof.
  intros HA Hlt HS' HSS HC HR. pose proof HA as (HF & Hn & [r Er] & _). pose proof (lenZ_nonneg l) as Hl0.
  pose proof (co_input _ _ _ _ _ HC) as Ei. rewrite Er in Ei. unfold lenZ in Ei. rewrite Nat2Z.id, drop_app_length in Ei.
  unfold read_into. wp_step. apply (wp_get_iob HS'). wp_step.
  eapply (read_direct_spec τ i f' d' h'); [done|done|apply HC|by rewrite (ss_flags _ _ _ _ HSS)|lia|..].
  - intros υ He Eg F2. wp_step. apply wp_in_memory. cbn [store_bytes]. wp_step. wp_step. left. by rewrite with_sc_same.
  - intros υ d2 h2 l2 HS2 F2 Hd2 C2. unfold l2 in *. clear l2. rewrite Ei in *. set (l2 := take _ r) in *.
    assert (lenZ l2 <= T - lenZ l) as Hl2 by (unfold l2; unfold lenZ in *; rewrite length_take; lia).
    rewrite (ss_descriptor _ _ _ _ HSS) in F2. assert (framed i (iob_Descriptor f) (stored ptr l σ) υ) as F3 by (by eapply framed_trans).
    assert (Forall is_byte l2) as Hb.
    { unfold l2. apply Forall_take. rewrite <- Ei. unfold input. apply Forall_app. split; [|apply Forall_drop, content_byte].
      apply Forall_take, Forall_drop, (st_wf _ _ _ _ _ HS'). }
    wp_step. eapply wp_store_at; [exact F3|done|lia|done|]. wp_step. right. exists l2. split; [done|]. split.
    + rewrite Er. unfold l2. rewrite take_app_ge by (unfold lenZ in *; lia). do 2 f_equal. unfold lenZ. lia.
    + split; [by apply framed_stored|]. rewrite lenZ_app. split; [lia|]. split.
      * exists (drop (Z.to_nat (T - lenZ l)) r). rewrite Er, <- app_assoc. f_equal. symmetry. apply take_drop.
      * exists f', d2, h2. split; [by apply stream_memory|]. split; [destruct HSS; split; [done..|congruence]|].
        apply (consumed_trans _ _ f h f' h'); [lia|apply lenZ_nonneg|done|done].
Qed.

Lemma eof_mode τ f' d' h' l :
  block_at l τ → stream τ i f' d' h' → same_stream f d f' d' → consumed (lenZ l) f h f' h' →
  block_at l (put_iob i (flags_to (SET_FLAG (iob_Flags f') IOBF_EOF_REACHED) f') τ).
Proof.
  intros (HF & Hn & Hr & _) HS' HSS HC. split; [eapply framed_trans; [exact HF|apply put_iob_framed]|]. split; [done|]. split; [done|].
  set (f2 := flags_to _ f'). assert (same_mode f' f2) as Hmd by (apply (same_mode_set f' 2); lia).
  exists f2, d', h'. split; [by apply (stream_put HS'); [|apply wf_flags, HS']|].
  split; [eapply same_stream_trans; [exact HSS|by apply same_stream_flags]|]. destruct HC as [C1 C2 C3 C4 C5 C6].
  split; [done..|]. rewrite <- C6. cbn [f2 flags_to iob_Flags]. unfold IOBF_EOF_REACHED. rewrite SET_FLAG_bit by lia. by rewrite orb_false_r.
Qed.

(** The end of a read without the buffer, with [m] bytes before it. *)
Lemma fread_direct {A} (ret : Z + unit → M sstate A) l τ f' d' h' Q :
  block_at l τ → lenZ l < T → stream τ i f' d' h' → same_stream f d f' d' → consumed (lenZ l) f h f' h' →
  iob_BufferReadBytes f' = 0 →
  (∀ r υ, fread_post r υ → wp (ret r) Q υ) →
  wp (n ← read_into recv i (ptr + lenZ l) (T - lenZ l);
      if n =? -1 then _ ← set_iob_flag i IOBF_ERROR; ret (inr tt)
      else
        _ ← (if n =? 0 then set_iob_flag i IOBF_EOF_REACHED else mret tt);
        ret (inl (lenZ l + n))) Q τ.
Proof.
  intros HA Hlt HS' HSS HC HR Hret. wp_step. eapply wp_mono; [by eapply fread_bypass|].
  intros n υ [(-> & He & Eg)|(l2 & -> & Hl2 & HA2)].
  - wp_test. unfold set_iob_flag. wp_step. eapply wp_upd_at; [done|]. apply Hret. left.
    split; [|done]. eapply failed_mode; [apply HSS|]. by apply error_flag_failed.
  - pose proof (lenZ_nonneg l2) as Hn2. rewrite (proj2 (Z.eqb_neq _ _)) by lia. wp_step.
    assert (∀ ω, block_at (l ++ l2) ω → wp (ret (inl (lenZ l + lenZ l2))) Q ω) as Hend.
    { intros ω HAω. apply Hret. right. exists (l ++ l2). rewrite lenZ_app. by rewrite <- Hl2. }
    pose proof HA2 as (_ & _ & _ & f2 & d2 & h2 & HS2 & SS2 & C2).
    destruct (lenZ l2 =? 0) eqn:E0; b2p; [|by wp_step; apply Hend].
    unfold set_iob_flag. apply (wp_upd HS2). apply Hend. by eapply eof_mode.
Qed.

Lemma fread_loop_spec : wp (fread_loop recv i ptr T) fread_post σ.
Proof.
  unfold fread_loop. apply (wp_loop _ fread_inv _ (fun v => v.1.2)); [| | |cbn; lia].
  3: { intros v τ (l & -> & _ & Hl & _). cbn. lia. }
  2: { exists []. split; [change (lenZ []) with 0; by rewrite Z.add_0_r, Z.sub_0_r|]. split; [by rewrite stored_nil|]. change (lenZ []) with 0. split; [lia|].
       split; [by exists (input f h)|]. exists f, d, h. split; [done|]. split; [apply same_stream_refl|]. by apply consumed_view. }
  intros v τ (l & -> & HA). change (wp ?c _ τ) with (wp c (fread_step (T - lenZ l)) τ). cbv beta iota.
  pose proof HA as (HF & Hn & [r Er] & f' & d' & h' & HS' & HSS & HC). pose proof (lenZ_nonneg l) as Hl0.
  destruct (0 <? T - lenZ l) eqn:E; b2p.
  2: { wp_step. right. exists l. split; [eapply fread_whole; [exact Er|left; lia|done]|done]. }
  wp_step. apply (wp_get_iob HS'). pose proof (st_wf _ _ _ _ _ HS') as Hw'. destruct (_ && _) eqn:Eb; b2p.
  { apply (fread_direct break l τ f' d' h'); [done|lia|done|done|done|done|]. intros r' υ HP. by wp_step. }
  destruct (_ <? _) eqn:Er2; b2p; [|apply fread_next; [done|lia]].
  cbv zeta. set (k := Z.min _ _). destruct (gets_take ptr T l k τ f' d' h' HA) as (Hl2 & Hb2 & HA2); [done|done|done|lia|lia|].
  set (l2 := take _ _) in *. wp_step. eapply wp_store_at; [exact HF|done|lia|done|]. wp_step.
  eapply wp_upd_at; [apply HS'|]. change (read_to _ _ f') with (taken k f').
  replace (ptr + lenZ l + k) with (ptr + lenZ (l ++ l2)) by (rewrite lenZ_app; lia).
  replace (T - lenZ l - k) with (T - lenZ (l ++ l2)) by (rewrite lenZ_app; lia).
  replace (lenZ l + k) with (lenZ (l ++ l2)) by (rewrite lenZ_app; lia).
  pose proof HA2 as (_ & HL2 & [r2 Er3] & _). destruct (T - lenZ (l ++ l2) =? 0) eqn:E0; b2p.
  - wp_step. right. exists (l ++ l2). split; [eapply fread_whole; [exact Er3|left; lia|done]|done].
  - eapply wp_mono; [apply fread_next; [done|lia]|]. intros [v|v] υ; cbn; [|done].
    intros [HI HLt]. split; [done|]. rewrite lenZ_app in HLt. lia.
Qed.
End Fread.

(** A block from a stream that is ready for reading. *)
Lemma fread_modes_spec σ i f d h ptr T :
  stream σ i f d h → iob_BufferWriteBytes f = 0 → quiet i σ → Z.testbit (fd_Flags d) 0 = true →
  mapped (mem (sc σ)) ptr T → 0 < T < 2147483648 →
  (buffer_mode_of f = IOBF_BUFFER_MODE_NONE → iob_BufferReadBytes f = 0) →
  wp (if buffer_mode_of f =? IOBF_BUFFER_MODE_NONE then
        n ← read_into recv i ptr T;
        if n =? -1 then _ ← set_iob_flag i IOBF_ERROR; mret (inr tt)
        else
          _ ← (if n =? 0 then set_iob_flag i IOBF_EOF_REACHED else mret tt);
          mret (inl n)
      else fread_loop recv i ptr T)
     (fread_post (σ := σ) (i := i) (f := f) (d := d) (h := h) ptr T) σ.
Proof.
  intros HS HW Hq Hfd Hm HT Hnone. destruct (_ =? _) eqn:E; b2p; [|by apply fread_loop_spec].
  pose proof (fread_direct (i := i) (f := f) (h := h) Hfd ptr T Hm HT (fun r => mret r) [] σ f d h
    (fread_post (σ := σ) (i := i) (f := f) (d := d) (h := h) ptr T)) as HD.
  change (lenZ []) with 0 in HD. rewrite Z.add_0_r, Z.sub_0_r in HD. apply HD; [|lia|done|apply same_stream_refl|by apply consumed_view|by apply Hnone|].
  - split; [by rewrite stored_nil|]. change (lenZ []) with 0. split; [lia|]. split; [by exists (input f h)|].
    exists f, d, h. split; [done|]. split; [apply same_stream_refl|by apply consumed_view].
  - intros r υ HP. by wp_step.
Qed.

Lemma lenZ_take_le {A} n (l : list A) : 0 <= n → lenZ (take (Z.to_nat n) l) <= n.
Proof. intros Hn. unfold lenZ. rewrite length_take. lia. Qed.

Section FreadCall.
Context {σ : sstate} {i : Z} {f : iob} {d : fd} {h : handle} (HS : stream σ i f d h).
Context (Hc : can_read f) (Hq : quiet i σ) (Hfd : Z.testbit (fd_Flags d) 0 = true).
Context (Hnone : buffer_mode_of f = IOBF_BUFFER_MODE_NONE → iob_BufferReadBytes f = 0).
Context (ptr size count : Z) (Hm : mapped (mem (sc σ)) ptr (size * count)) (Hptr : ptr ≠ NULL).
Context (Hsz : 0 < size) (Hct : 0 < count) (HT : size * count < 2147483648).

(** What is read. *)
Definition block : list Z := take (Z.to_nat (size * count)) (input f h).

Definition fread_result (r : Z) τ : Prop :=
  (failed i f τ ∧ 0 <= r < count) ∨ (r = lenZ block / size ∧ delivered σ i f d h ptr block [] τ).

(** From a stream that is ready to the stream of the call. *)
Lemma fread_deliver τ f1 d1 h1 r υ :
  framed i (iob_Descriptor f) σ τ → same_stream f d f1 d1 → consumed 0 (cleared f) h f1 h1 →
  fread_post (σ := τ) (i := i) (f := f1) (d := d1) (h := h1) ptr (size * count) r υ →
  fread_result (match r with inl n => n / size | inr _ => 0 end) υ.
Proof.
  intros F1 SS1 C1 [[Hf Hr]|(l & El & -> & F2 & Hl & _ & f2 & d2 & h2 & HS2 & SS2 & C2)].
  - left. split; [by eapply failed_mode; [apply SS1|]|]. destruct r as [n|]; [|lia].
    split; [apply Z.div_pos; lia|apply Z.div_lt_upper_bound; lia].
  - pose proof (co_input _ _ _ _ _ C1) as Ei. cbn in Ei. rewrite Ei in El. change (l = block) in El. subst l.
    right. split; [done|]. split.
    + rewrite app_nil_r. rewrite (ss_descriptor _ _ _ _ SS1) in F2. eapply framed_trans; [|exact F2].
      unfold stored. rewrite (fr_mem _ _ _ _ F1). by apply framed_memory.
    + exists f2, d2, h2. destruct C1 as [_ A2 A3 A4 A5 _], C2 as [_ B2 B3 B4 B5 _].
      split; [done|]. split; [by eapply same_stream_trans|]. split_and!; [by rewrite B2, A2|rewrite B3, A3; change (lpos (cleared f) h) with (lpos f h); lia| |auto].
      rewrite B4, Ei. unfold lenZ. by rewrite Nat2Z.id.
Qed.

Lemma fread_internal_spec : wp (__fread_internal recv ptr size count (Some i)) fread_result σ.
Proof.
  pose proof (st_wf _ _ _ _ _ HS) as Hw. assert (0 < size * count) as HT0 by nia.
  assert (u32 (size * count) = size * count) as Hu by (apply u32_small; lia).
  assert (size * count / count = size) as Hdiv by (apply Z.div_mul; lia).
  unfold __fread_internal. rewrite Hu, Hdiv, Z.eqb_refl, (proj2 (Z.eqb_neq _ _) Hptr), (proj2 (Z.ltb_lt _ _) Hsz), (proj2 (Z.ltb_lt _ _) Hct).
  cbn [negb andb]. cbv zeta. wp_step. apply (wp_get_iob HS). rewrite (in_use_clear _ _ Hw). unfold IOBF_READ.
  rewrite FLAG_IS_CLEAR_bit by lia. rewrite Hc. cbn [orb negb]. wp_step.
  eapply clearerr_spec; [exact HS|]. intros HS1. set (f1 := cleared f) in *. set (σ1 := put_iob i f1 σ) in *.
  assert (framed i (iob_Descriptor f) σ σ1) as F1 by apply put_iob_framed. pose proof (cleared_mode f d : same_stream f d f1 d) as SS1.
  assert (can_read f1) as Hc1 by (unfold can_read, f1; by rewrite cleared_bit, Hc).
  wp_step. eapply wp_mono; [by apply (fgetc_check_spec _ _ _ _ _ HS1)|].
  intros r τ [F2 HE]. change (iob_Descriptor f1) with (iob_Descriptor f) in F2.
  assert (framed i (iob_Descriptor f) σ τ) as F12 by (by eapply framed_trans).
  destruct HE as [[-> Hf]|(f2 & d2 & h2 & HS2 & SS2 & -> & C2 & ER & EP)]; wp_test.
  { wp_step. left. split; [by eapply failed_mode; [apply SS1|]|lia]. }
  wp_step. apply (wp_get_iob HS2). wp_step. assert (same_stream f d f2 d2) as SS12 by (by eapply same_stream_trans).
  eapply wp_mono; [apply (fread_modes_spec τ i f2 d2 h2 ptr (size * count)); [done|apply C2|by eapply quiet_framed|
    by rewrite (ss_flags _ _ _ _ SS12)|by rewrite (fr_mem _ _ _ _ F12)|lia|]|].
  { rewrite (buffer_mode_bits _ _ (ss_mode _ _ _ _ SS12)), ER. exact Hnone. }
  intros r υ HP. apply (fread_deliver τ) in HP; [|done..]. destruct r as [n|]; by wp_step.
Qed.
End FreadCall.

Lemma fread_spec σ i f d h ptr size count :
  stream σ i f d h → can_read f → quiet i σ → Z.testbit (iob_Flags f) 12 = false → Z.testbit (fd_Flags d) 0 = true →
  (buffer_mode_of f = IOBF_BUFFER_MODE_NONE → iob_BufferReadBytes f = 0) →
  mapped (mem (sc σ)) ptr (size * count) → ptr ≠ NULL → 0 < size → 0 < count → size * count < 2147483648 →
  let l := take (Z.to_nat (size * count)) (input f h) in
  wp (fread recv ptr size count (Some i)) (fun r τ =>
    (failed i f τ ∧ 0 <= r < count) ∨ (r = lenZ l / size ∧ delivered σ i f d h ptr l [] τ)) σ.
Proof.
  intros HS Hc Hq Hle Hfd Hnone Hm Hptr Hsz Hct HT l. unfold fread. cbv zeta. wp_step.
  eapply wp_mono; [by apply (fread_internal_spec HS)|]. intros r τ HR.
  assert (∃ g, iobs τ !! Z.to_nat i = Some (Some g) ∧ same_mode f g) as (g & Eg & Hg).
  { destruct HR as [[(_ & g & Eg & Hg & _) _]|(_ & _ & f2 & d2 & h2 & HS2 & SS2 & _)]; [by exists g|].
    exists f2. split; [apply HS2|apply SS2]. }
  wp_step. unfold wp at 1, get_iob. rewrite Eg. unfold IOBF_LITTLE_ENDIAN. rewrite FLAG_IS_SET_bit by lia.
  rewrite Hg, Hle by lia. cbn [andb]. wp_step. wp_step. by wp_step.
Qed.

(** C30: [fread] stores as much of the input as the block has room for, the position
    moves behind it, and the result is the number of whole objects; at an error it
    is less than what was asked for, with the error indicator and errno set. *)
Theorem fread_reads σ i f d h ptr size count :
  stream σ i f d h → can_read f → quiet i σ → Z.testbit (iob_Flags f) 12 = false → Z.testbit (fd_Flags d) 0 = true →
  (buffer_mode_of f = IOBF_BUFFER_MODE_NONE → iob_BufferReadBytes f = 0) →
  mapped (mem (sc σ)) ptr (size * count) → ptr ≠ NULL → 0 < size → 0 < count → size * count < 2147483648 →
  let l := take (Z.to_nat (size * count)) (input f h) in
  wp (fread recv ptr size count (Some i)) (fun r τ =>
    (failed i f τ ∧ 0 <= r < count) ∨ (r = lenZ l / size ∧ delivered σ i f d h ptr l [] τ)) σ.
Proof. exact (fread_spec σ i f d h ptr size count). Qed.
End Input.

(** ** Evaluation *)

Lemma fgets_reads_witness :
  let h := ([65; 66; 67; 68; 69; 10; 70], 4) in
  let f := rw_iob [65; 66; 67; 68] 1 4 0 in
  let σ := open_file (CState (write_bytes ∅ 100 [1; 1; 1; 1; 1; 1; 1; 1]) 0) f h in
  wp (fgets (H := disk 100) 100 8 (Some 0)) (fun r τ =>
    (r = NULL ∧ failed (H := disk 100) 0 f τ) ∨
    (r = 100 ∧ delivered (H := disk 100) σ 0 f (disk_fd h) h 100 [66; 67; 68; 69; 10] [0] τ)) σ.
Proof.
  intros h f σ. assert (stream (H := disk 100) σ 0 f (disk_fd h) h) as HS by (by apply open_file_stream).
  apply (fgets_reads (H := disk 100) σ 0 f (disk_fd h) h 100 8 HS); [reflexivity|apply quiet_one| |done|lia].
  apply mappedb_sound. vm_compute. reflexivity.
Defined.

Lemma fread_reads_witness :
  let h := ([65; 66; 67; 68; 69; 10; 70], 4) in
  let f := rw_iob [65; 66; 67; 68] 1 4 0 in
  let σ := open_file (CState (write_bytes ∅ 100 [1; 1; 1; 1; 1; 1; 1; 1]) 0) f h in
  wp (fread (H := disk 100) (fun _ _ => fault) 100 2 4 (Some 0)) (fun r τ =>
    (failed (H := disk 100) 0 f τ ∧ 0 <= r < 4) ∨
    (r = 3 ∧ delivered (H := disk 100) σ 0 f (disk_fd h) h 100 [66; 67; 68; 69; 10; 70] [] τ)) σ.
Proof.
  intros h f σ. assert (stream (H := disk 100) σ 0 f (disk_fd h) h) as HS by (by apply open_file_stream).
  apply (fread_reads (H := disk 100) (fun _ _ => fault) σ 0 f (disk_fd h) h 100 2 4 HS);
    [reflexivity|apply quiet_one|reflexivity|reflexivity|done| |done|lia|lia|lia].
  apply mappedb_sound. vm_compute. reflexivity.
Defined.
