(* ===== verification/StdioSeek.v ===== *)
(** * Buffered files: the position

    [ftell] (ftell.c) tells the position that the program sees, and [fseek]
    (fseek.c) sets it, with whatever is in the buffer. *)

From stdpp Require Import base numbers gmap list.
From S2P Require Import Prelude CMem Words StrScan Fds Stdio StdioSpec StdioWrite StdioRead.
Open Scope Z_scope.
#[local] Set Warnings "-clear-no-such-hyp".

Section Seek.
Context `{Dos}.
Implicit Types (σ τ υ : sstate) (f : iob) (d : fd) (h : handle).

(** The position in terms of the fields. *)
Lemma lpos_fields σ i f d h :
  stream σ i f d h → lpos f h = position h - (iob_BufferReadBytes f - iob_BufferPosition f) + iob_BufferWriteBytes f.
Proof. intros HS. unfold lpos. by rewrite (lenZ_unread HS), (lenZ_pending HS). Qed.

Lemma num_unread_bytes f pos : wf_iob f pos → __iob_num_unread_bytes f = iob_BufferReadBytes f - iob_BufferPosition f.
Proof.
  intros []. unfold __iob_num_unread_bytes.
  destruct (0 <? iob_BufferReadBytes f) eqn:E1, (iob_BufferPosition f <? iob_BufferReadBytes f) eqn:E2; b2p; cbn; lia.
Qed.

(** The same stream on a file with the same content and position. *)
Lemma same_file f h h' : content h' = content h → position h' = position h → same_view f h f h' ∧ (coherent f h → coherent f h').
Proof. intros E1 E2. unfold same_view, lcontent, lpos, input, coherent. by rewrite E1, E2. Qed.

Lemma ftell_spec σ i f d h :
  stream σ i f d h → lpos f h < 2147483648 →
  wp (ftell (Some i)) (fun r τ => r = lpos f h ∧ framed i (iob_Descriptor f) σ τ ∧
    ∃ d' h', stream τ i f d' h' ∧ same_stream f d f d' ∧ content h' = content h ∧ position h' = position h) σ.
Proof.
  intros HS Hlt. pose proof (st_wf _ _ _ _ _ HS) as Hw. pose proof (lpos_range HS) as Hr. unfold ftell. wp_step. apply (wp_get_iob HS).
  rewrite (in_use_clear _ _ Hw). wp_step. unfold iob_action_seek. wp_step. apply (wp_iob_fd HS).
  assert (seek_target h 0 SEEK_CUR = position h) as Et by done. pose proof (position_ok h) as Hp.
  eapply wp_mono; [eapply fd_seek_spec; [apply HS|by rewrite Et]|]. rewrite Et.
  intros [t e] τ (d' & h' & Mv & Hd & Hc & [(_ & _ & _ & Hne)|(E1 & E2 & Hpos)]); [done|]. cbn in E1, E2. subst t e.
  rewrite (proj2 (Z.eqb_neq (position h) GETPOSITION_ERROR)) by (unfold GETPOSITION_ERROR; lia). cbn [andb].
  rewrite (proj2 (Z.ltb_ge _ _)) by lia. wp_step. wp_step.
  assert (stream τ i f d' h') as HS' by (eapply (stream_moved HS); [done|by rewrite Hpos]).
  wp_step. apply (wp_get_iob HS'). wp_step. split; [|split; [by eapply moved_framed|]].
  - rewrite (lpos_fields _ _ _ _ _ HS), (num_unread_bytes _ _ Hw) in *. unfold __iob_read_buffer_is_valid, __iob_write_buffer_is_valid.
    rewrite s32_small; destruct Hw; destruct (0 <? iob_BufferReadBytes f) eqn:Ea, (0 <? iob_BufferWriteBytes f) eqn:Eb; b2p; lia.
  - exists d', h'. split; [done|]. split; [by split|done].
Qed.

(** [ftell] returns the position that the program sees: the position of the file
    less the bytes that have been read ahead, or with the bytes that have not been
    written yet. *)
Theorem ftell_tells σ i f d h :
  stream σ i f d h → lpos f h < 2147483648 →
  wp (ftell (Some i)) (fun r τ => r = lpos f h ∧ framed i (iob_Descriptor f) σ τ ∧
    ∃ d' h', stream τ i f d' h' ∧ same_view f h f h') σ.
Proof.
  intros HS Hlt. eapply wp_mono; [by apply (ftell_spec _ _ _ _ _ HS)|]. intros r τ (-> & F & d' & h' & HS' & _ & E1 & E2).
  split; [done|]. split; [done|]. exists d', h'. split; [done|]. by apply same_file.
Qed.

(** ** Seeking *)

(** Where a call of [fseek] goes. *)
Definition seek_goal f h (offset wherefrom : Z) : Z :=
  offset + (if wherefrom =? SEEK_CUR then lpos f h else if wherefrom =? SEEK_SET then 0 else lenZ (lcontent f h)).

Definition sought t f h f' h' : Prop :=
  lcontent f' h' = lcontent f h ∧ lpos f' h' = t ∧ coherent f' h' ∧ Z.testbit (iob_Flags f') 2 = false.

(** An empty buffer: the file is what the program sees. *)
Lemma clean_view σ i f d h :
  stream σ i f d h → iob_BufferReadBytes f = 0 → iob_BufferWriteBytes f = 0 →
  lcontent f h = content h ∧ lpos f h = position h.
Proof.
  intros HS HR HW. rewrite (lpos_fields _ _ _ _ _ HS). unfold lcontent, pending. rewrite HW, HR.
  change (take (Z.to_nat 0) (iob_Buffer f)) with (@nil Z). rewrite overwrite_nil. split; [done|].
  destruct (st_wf _ _ _ _ _ HS). lia.
Qed.

Lemma flush_valid_spec σ i f d h :
  stream σ i f d h →
  wp (if __iob_write_buffer_is_valid f then __flush_iob_write_buffer i else mret OK)
     (ends σ i f d (-1) (flushed f h)) σ.
Proof.
  intros HS. unfold __iob_write_buffer_is_valid. destruct (0 <? _) eqn:E; b2p; [by apply flush_spec|].
  assert (iob_BufferWriteBytes f = 0) as E0 by (destruct (st_wf _ _ _ _ _ HS); lia).
  assert (pending f = []) as Ep by (unfold pending; by rewrite E0).
  wp_step. apply (stays HS). split_and!; [done|by destruct f; cbn in E0; subst| |rewrite Ep, lenZ_nil; lia].
  unfold lcontent. by rewrite Ep, overwrite_nil.
Qed.

Lemma drop_valid_spec σ i f d h :
  stream σ i f d h → Z.testbit (iob_Flags f) 2 = false →
  wp (if __iob_read_buffer_is_valid f then __drop_iob_read_buffer i else mret OK) (ends σ i f d (-1) (dropped f h)) σ.
Proof.
  intros HS He. unfold __iob_read_buffer_is_valid. destruct (0 <? _) eqn:E; b2p; [by apply drop_spec|].
  assert (iob_BufferReadBytes f = 0) as E0 by (destruct (st_wf _ _ _ _ _ HS); lia).
  wp_step. apply (stays HS). split_and!; try done. rewrite (unread_nil _ _ (st_wf _ _ _ _ _ HS) E0), lenZ_nil. lia.
Qed.

Lemma seek_file_spec σ i f d h offset w :
  stream σ i f d h → Z.testbit (iob_Flags f) 2 = false → w = SEEK_SET ∨ w = SEEK_CUR ∨ w = SEEK_END →
  0 <= seek_goal f h offset w <= lenZ (lcontent f h) → lenZ (lcontent f h) < 2147483648 →
  wp (seek_file i offset w) (ends σ i f d (-1) (fun r f' h' => r = OK ∧ sought (seek_goal f h offset w) f h f' h')) σ.
Proof.
  intros HS He Hwf Hg Hsz. unfold seek_file. wp_step. apply (wp_get_iob HS). wp_step.
  eapply wp_mono; [by apply flush_valid_spec|].
  intros r τ [F1 [[-> Hf]|(f1 & d1 & h1 & HS1 & SS1 & Hfl)]].
  { wp_test. wp_step. split; [done|by left]. }
  pose proof (flushed_view _ _ _ _ _ _ _ _ HS Hfl) as (V1 & V2 & _). destruct Hfl as (-> & -> & Hc1 & Hp1). wp_test.
  set (f1 := write_to 0 f) in *. wp_step. apply (wp_get_iob HS1). wp_step.
  eapply wp_mono; [by apply drop_valid_spec|]. intros r υ [F2 HE].
  rewrite (ss_descriptor _ _ _ _ SS1) in F2. assert (framed i (iob_Descriptor f) σ υ) as F12 by (by eapply framed_trans).
  destruct HE as [[-> Hf]|(f2 & d2 & h2 & HS2 & SS2 & HD)].
  { wp_test. wp_step. split; [done|left]. split; [done|by eapply failed_mode; [apply SS1|]]. }
  pose proof (dropped_view _ _ _ _ _ _ _ _ _ HS1 (st_wf _ _ _ _ _ HS2) eq_refl HD) as (V3 & V4).
  destruct HD as (-> & HR2 & Ep2 & He2 & Hc2 & Hp2). wp_test.
  assert (iob_BufferWriteBytes f2 = 0) as HW2 by (rewrite <- (lenZ_pending HS2), Ep2; done).
  destruct (clean_view _ _ _ _ _ HS2 HR2 HW2) as [V5 V6].
  assert (content h2 = lcontent f h) as Ec by congruence. assert (position h2 = lpos f h) as Epos by congruence.
  assert (seek_target h2 offset w = seek_goal f h offset w) as Et by (unfold seek_target, seek_goal; by rewrite Ec, Epos).
  assert (same_stream f d f2 d2) as SS12 by (by eapply same_stream_trans).
  wp_step. apply (wp_get_iob HS2). wp_step. unfold iob_action_seek. wp_step. apply (wp_iob_fd HS2).
  eapply wp_mono; [eapply fd_seek_spec; [apply HS2|by rewrite Et, Ec]|]. rewrite Et.
  intros [t e] ω (d3 & h3 & Mv & Hd & Hc3 & HE).
  assert (framed i (iob_Descriptor f) σ ω) as F3.
  { eapply framed_trans; [exact F12|]. rewrite <- (ss_descriptor _ _ _ _ SS12). by eapply moved_framed. }
  destruct HE as [(E1 & He3 & _)|(E1 & E2 & Hpos)]; [cbn in E1, He3|cbn in E1, E2]; subst t.
  - rewrite (proj2 (Z.eqb_neq _ _) He3). cbn [negb]. eapply wp_error; [rewrite (proj1 Mv); apply HS2|done|]. intros ψ G1 G2.
    split; [by eapply framed_trans|left]. split; [done|]. by eapply failed_mode; [apply SS12|].
  - subst e. wp_test. rewrite s32_small by lia. rewrite (proj2 (Z.ltb_ge _ _)) by lia. wp_step. wp_step. wp_step.
    assert (stream ω i f2 d3 h3) as HS3.
    { eapply (stream_moved HS2); [done|]. destruct (st_wf _ _ _ _ _ HS2). split; try done. lia. }
    destruct (clean_view _ _ _ _ _ HS3 HR2 HW2) as [V7 V8].
    split; [done|right]. exists f2, d3, h3. split; [done|]. split; [destruct SS12; split; [done..|congruence]|].
    split; [done|]. split_and!; [congruence|congruence|by apply coherent_nil|done].
Qed.

(** A move within the read buffer. *)
Lemma seek_buffer σ i f d h k :
  stream σ i f d h → iob_BufferWriteBytes f = 0 → - iob_BufferPosition f <= k <= iob_BufferReadBytes f - iob_BufferPosition f →
  let g := read_to (iob_BufferPosition f + k) (iob_BufferReadBytes f) f in
  wf_iob g (position h) ∧ lcontent g h = lcontent f h ∧ lpos g h = lpos f h + k ∧ (coherent f h → coherent g h).
Proof.
  intros HS HW Hk g. assert (wf_iob g (position h)) as Hg.
  { destruct (st_wf _ _ _ _ _ HS). split; cbn; try done. lia. }
  pose proof (stream_put HS g eq_refl Hg) as HSg. split; [done|]. split; [done|]. split; [|done].
  rewrite (lpos_fields _ _ _ _ _ HSg), (lpos_fields _ _ _ _ _ HS). cbn. lia.
Qed.

(** [fseek] behind the conversion of an absolute position. *)
Definition fseek_rest (i offset wherefrom : Z) : M sstate Z :=
  _ ← clear_iob_flag i IOBF_EOF_REACHED;
  if negb (wherefrom =? SEEK_CUR) || negb (offset =? 0) then
    file ← get_iob i;
    if (wherefrom =? SEEK_CUR) && __iob_read_buffer_is_valid file &&
       (((offset <? 0) && (- offset <=? iob_BufferPosition file)) ||
        ((0 <? offset) && (offset <=? __iob_num_unread_bytes file)))
    then _ ← upd i (read_to (iob_BufferPosition file + offset) (iob_BufferReadBytes file)); mret OK
    else seek_file i offset wherefrom
  else mret OK.

Lemma fseek_rest_spec σ i f d h offset w :
  stream σ i f d h → coherent f h → w = SEEK_SET ∨ w = SEEK_CUR ∨ w = SEEK_END →
  0 <= seek_goal f h offset w <= lenZ (lcontent f h) → lenZ (lcontent f h) < 2147483648 →
  wp (fseek_rest i offset w) (ends σ i f d (-1) (fun r f' h' => r = OK ∧ sought (seek_goal f h offset w) f h f' h')) σ.
Proof.
  intros HS Hco Hwf Hg Hsz. pose proof (st_wf _ _ _ _ _ HS) as Hw. unfold fseek_rest, clear_iob_flag. wp_step. apply (wp_upd HS).
  set (f1 := flags_to _ f). assert (same_mode f f1) as Hm by (apply (same_mode_clear f 2); lia).
  assert (wf_iob f1 (position h)) as Hw1 by (by apply wf_flags). pose proof (stream_put HS f1 eq_refl Hw1) as HS1.
  assert (same_stream f d f1 d) as SS1 by (by apply same_stream_flags).
  assert (Z.testbit (iob_Flags f1) 2 = false) as He.
  { cbn [f1 flags_to iob_Flags]. unfold IOBF_EOF_REACHED. rewrite CLEAR_FLAG_bit by lia. by rewrite andb_false_r. }
  assert (framed i (iob_Descriptor f) σ (put_iob i f1 σ)) as F1 by apply put_iob_framed.
  destruct (negb (w =? SEEK_CUR) || negb (offset =? 0)) eqn:Enz.
  2: { b2p. subst w offset. wp_step. apply (stream_ends HS); [done|done|]. split; [done|]. split_and!; try done. }
  wp_step. apply (wp_get_iob HS1). rewrite (num_unread_bytes _ _ Hw1). change (iob_BufferPosition f1) with (iob_BufferPosition f).
  change (iob_BufferReadBytes f1) with (iob_BufferReadBytes f).
  match goal with |- wp (if ?b then _ else _) _ _ => destruct b eqn:Eb end.
  - apply andb_true_iff in Eb as [Eb Er]. apply andb_true_iff in Eb as [Ew Ev]. unfold __iob_read_buffer_is_valid in Ev. b2p. subst w.
    change (iob_BufferReadBytes f1) with (iob_BufferReadBytes f) in Ev.
    assert (- iob_BufferPosition f <= offset <= iob_BufferReadBytes f - iob_BufferPosition f) as Hk
      by (destruct Hw, Er as [Er|Er]; b2p; lia).
    wp_step. apply (wp_upd HS1). rewrite put_iob_twice. wp_step.
    destruct (seek_buffer _ _ _ _ _ offset HS1 ltac:(destruct Hw; cbn; lia) Hk) as (G1 & G2 & G3 & G4).
    apply (stream_ends HS); [by split|exact G1|]. split; [done|]. split_and!; [done| |by apply G4|done]. etransitivity; [exact G3|].
    unfold seek_goal. cbn. change (lpos f1 h) with (lpos f h). lia.
  - eapply wp_mono; [by apply (seek_file_spec _ _ _ _ _ offset w HS1)|]. intros r υ HE.
    eapply ends_trans; [exact F1|exact SS1|exact HE|]. done.
Qed.

Lemma fseek_spec σ i f d h offset w :
  stream σ i f d h → coherent f h → w = SEEK_SET ∨ w = SEEK_CUR ∨ w = SEEK_END →
  0 <= seek_goal f h offset w <= lenZ (lcontent f h) → lenZ (lcontent f h) < 2147483648 →
  wp (fseek (Some i) offset w) (ends σ i f d (-1) (fun r f' h' =>
    r = OK ∧ sought (seek_goal f h offset w) f h f' h' ∧
    input f' h' = drop (Z.to_nat (seek_goal f h offset w)) (lcontent f h))) σ.
Proof.
  intros HS Hco Hwf Hg Hsz. pose proof (st_wf _ _ _ _ _ HS) as Hw. pose proof (lpos_range HS) as Hlp.
  assert (∀ τ d' h' o v, framed i (iob_Descriptor f) σ τ → stream τ i f d' h' → same_stream f d f d' →
      content h' = content h → position h' = position h →
      v = SEEK_SET ∨ v = SEEK_CUR ∨ v = SEEK_END → seek_goal f h o v = seek_goal f h offset w →
      wp (fseek_rest i o v) (ends σ i f d (-1) (fun r f' h' => r = OK ∧ sought (seek_goal f h offset w) f h f' h' ∧
        input f' h' = drop (Z.to_nat (seek_goal f h offset w)) (lcontent f h))) τ) as Hrest.
  { intros τ d' h' o v HF HS' SS E1 E2 Hv Eg. destruct (same_file f h h' E1 E2) as [(V1 & V2 & V3) Hc].
    assert (seek_goal f h' o v = seek_goal f h offset w) as Eg' by (rewrite <- Eg; unfold seek_goal; by rewrite V1, V2).
    eapply wp_mono; [apply (fseek_rest_spec _ _ _ _ _ o v HS'); [by apply Hc|done|by rewrite Eg', V1|by rewrite V1]|].
    intros r υ [F2 HE]. split; [by eapply framed_trans|]. destruct HE as [HE|(f2 & d2 & h2 & HS2 & SS2 & -> & HT)]; [by left|right].
    exists f2, d2, h2. split; [done|]. split; [by eapply same_stream_trans|]. split; [done|].
    destruct HT as (T1 & T2 & T3 & T4). rewrite Eg' in T2. rewrite V1 in T1. split; [done|].
    by rewrite (coherent_input _ _ _ _ _ HS2 T3), T1, T2. }
  unfold fseek. wp_step. apply (wp_get_iob HS). rewrite (in_use_clear _ _ Hw).
  rewrite (proj2 (Z.ltb_ge w SEEK_SET)), (proj2 (Z.ltb_ge SEEK_END w)) by (unfold SEEK_SET, SEEK_CUR, SEEK_END in *; lia). cbn [orb].
  wp_step. destruct (_ && _) eqn:Eb.
  2: { wp_step. apply (Hrest _ d h); done || apply same_stream_refl. }
  b2p. subst w. wp_step. eapply wp_mono; [apply (ftell_spec _ _ _ _ _ HS); lia|].
  intros r τ (-> & HF & d' & h' & HS' & SS & E1 & E2).
  destruct (negb (lpos f h =? CHANGE_FILE_ERROR)) eqn:En; wp_step.
  - apply (Hrest _ d' h'); try done; [by right; left|]. unfold seek_goal in *. cbn in *. rewrite s32_small by lia. lia.
  - by apply (Hrest _ d' h').
Qed.

(** C29: [fseek] to a position within the file makes it the position that the program
    sees, from the beginning, from the current position or from the end, whether it
    moves within the read buffer or the buffers are written and dropped; the content
    is the same, the end-of-file indicator is cleared, and what is read next is the
    file from there on.  Otherwise it returns -1 with the error indicator set. *)
Theorem fseek_seeks σ i f d h offset w :
  stream σ i f d h → coherent f h → w = SEEK_SET ∨ w = SEEK_CUR ∨ w = SEEK_END →
  0 <= seek_goal f h offset w <= lenZ (lcontent f h) → lenZ (lcontent f h) < 2147483648 →
  wp (fseek (Some i) offset w) (ends σ i f d (-1) (fun r f' h' =>
    r = OK ∧ sought (seek_goal f h offset w) f h f' h' ∧
    input f' h' = drop (Z.to_nat (seek_goal f h offset w)) (lcontent f h))) σ.
Proof. exact (fseek_spec σ i f d h offset w). Qed.
End Seek.

(** ** Evaluation *)

Lemma ftell_tells_witness :
  let h := ([65; 66; 67; 68; 69; 70], 4) in
  let f := rw_iob [65; 66; 67; 68] 1 4 0 in
  let σ := open_file (CState ∅ 0) f h in
  wp (ftell (H := disk 100) (Some 0)) (fun r τ => r = 1 ∧ framed (H := disk 100) 0 0 σ τ ∧
    ∃ d' h', stream (H := disk 100) τ 0 f d' h' ∧ same_view (H := disk 100) f h f h') σ.
Proof.
  intros h f σ. assert (stream (H := disk 100) σ 0 f (disk_fd h) h) as HS by (by apply open_file_stream).
  apply (ftell_tells (H := disk 100) σ 0 f (disk_fd h) h HS). reflexivity.
Defined.

Lemma fseek_seeks_witness :
  let h := ([65; 66; 67; 68; 69; 70], 4) in
  let f := rw_iob [65; 66; 67; 68] 1 4 0 in
  let σ := open_file (CState ∅ 0) f h in
  wp (fseek (H := disk 100) (Some 0) (-1) SEEK_END) (ends (H := disk 100) σ 0 f (disk_fd h) (-1) (fun r f' h' =>
    r = 0 ∧ sought (H := disk 100) 5 f h f' h' ∧ input (H := disk 100) f' h' = [70])) σ.
Proof.
  intros h f σ. assert (stream (H := disk 100) σ 0 f (disk_fd h) h) as HS by (by apply open_file_stream).
  apply (fseek_seeks (H := disk 100) σ 0 f (disk_fd h) h (-1) SEEK_END HS); [reflexivity|auto|split; vm_compute; done|reflexivity].
Defined.
