(* ===== verification/StdioFwrite.v ===== *)
(** * Buffered files: writing blocks

    [fwrite] (fwrite.c) writes a block like [fputs] writes a string, as long as the
    buffer of a fully buffered stream is not full when it is called.  When it is
    full, [fwrite] counts its first byte twice. *)

From stdpp Require Import base numbers gmap list.
From S2P Require Import Prelude CMem Words StrScan Fds Stdio StdioSpec StdioWrite.
Open Scope Z_scope.
#[local] Set Warnings "-clear-no-such-hyp".

Section Fwrite.
Context `{Dos} (send_ : Z → list Z → M sstate Z).
Implicit Types (σ τ υ : sstate) (f : iob) (d : fd) (h : handle).

Section Loops.
Context {σ : sstate} {i : Z} {f : iob} {d : fd} {h : handle} (HS : stream σ i f d h) (HR : iob_BufferReadBytes f = 0).
Context (s : Z) (data : list Z) (Hdata : bytes_at (mem (sc σ)) s data) (Hbytes : Forall is_byte data).
Context (Hlen : lenZ data < 4294967296).

#[local] Abbreviation at_ := (puts_at (σ := σ) (i := i) (f := f) (d := d) (h := h) data).

(** The whole block, or an error after a part of it. *)
Definition fwrite_post (r : Z + unit) τ : Prop :=
  framed i (iob_Descriptor f) σ τ ∧
  ((failed i f τ ∧ match r with inl n => 0 <= n < lenZ data | inr _ => True end) ∨
   (r = inl (lenZ data) ∧ at_ (lenZ data) τ)).

Definition room σ' : Prop :=
  ∀ g, iobs σ' !! Z.to_nat i = Some (Some g) → iob_BufferWriteBytes g < iob_BufferSize g.

Definition fwrite_inv (P : sstate → Prop) (v : Z * Z * Z) τ : Prop :=
  ∃ k, v = (s + k, lenZ data - k, k) ∧ at_ k τ ∧ P τ.

Lemma fwrite_start (P : sstate → Prop) : P σ → fwrite_inv P (s, lenZ data, 0) σ.
Proof.
  intros HP. exists 0. split; [f_equal; f_equal; lia|]. split; [|done]. split; [pose proof (lenZ_nonneg data); lia|]. split; [done|].
  exists f, d, h. split; [done|]. split; [apply same_stream_refl|]. by apply written_view.
Qed.

Lemma fwrite_done τ : at_ (lenZ data) τ → fwrite_post (inl (lenZ data)) τ.
Proof. intros HA. split; [apply HA|]. by right. Qed.

(** What a part of the block in the buffer leaves to be done. *)
Lemma fwrite_full_spec :
  Z.testbit (fd_Flags d) 1 = true → iob_BufferWriteBytes f < iob_BufferSize f →
  wp (fwrite_full send_ i s (lenZ data)) fwrite_post σ.
Proof.
  intros Hfd Hroom. unfold fwrite_full. apply (wp_loop _ (fwrite_inv room) _ (fun v => v.1.2)); [| | |cbn; lia].
  3: { intros v τ (k & -> & [Hk _] & _). cbn. lia. }
  2: { apply fwrite_start. intros g Eg. rewrite (st_iob _ _ _ _ _ HS) in Eg. by injection Eg as <-. }
  intros v τ (k & -> & HP & Hrm). cbv beta iota. pose proof HP as (Hk & HF & f' & d' & h' & HS' & HSS & HW).
  destruct (0 <? lenZ data - k) eqn:E; b2p.
  2: { wp_step. replace k with (lenZ data) in * by lia. by apply fwrite_done. }
  wp_step. apply (wp_get_iob HS'). pose proof (st_wf _ _ _ _ _ HS') as Hw'. specialize (Hrm _ (st_iob _ _ _ _ _ HS')).
  destruct (_ && _) eqn:Eb; b2p.
  - pose proof (lenZ_part data k (lenZ data - k) ltac:(lia) ltac:(lia) ltac:(lia)) as Hn.
    wp_step. apply wp_in_memory. replace (Z.to_nat (lenZ data - k)) with (length (part data k (lenZ data - k))) by (unfold lenZ in *; lia).
    apply load_bytes_spec; [eapply part_at; [done|done|lia..]|]. rewrite with_sc_same.
    eapply (write_direct_spec send_ τ i f' d' h'); [done|apply HW|done|by rewrite (ss_flags _ _ _ _ HSS)|lia|by apply part_bytes|..].
    + intros υ He Ei HF2. wp_test. unfold set_iob_flag. wp_step. eapply wp_upd_at; [done|]. wp_step.
      rewrite (ss_descriptor _ _ _ _ HSS) in HF2. split.
      * eapply framed_trans; [exact HF|]. eapply framed_trans; [exact HF2|apply put_iob_framed].
      * left. split; [|done]. eapply failed_mode; [apply HSS|]. by apply error_flag_failed.
    + intros υ d2 h2 HS2 HF2 Hd2 W2. rewrite (proj2 (Z.eqb_neq _ _)) by lia. wp_step. rewrite Hn.
      replace (k + (lenZ data - k)) with (lenZ data) by lia. apply fwrite_done.
      destruct (puts_more HS data k (lenZ data - k) (-1) (fun _ => True) 0 τ υ f' d' h') as [_ [[? _]|[_ HP2]]]; try done; try lia.
      { split; [done|right]. exists f', d2, h2. split; [done|]. split; [by split|done]. }
      by replace (k + (lenZ data - k)) with (lenZ data) in HP2 by lia.
  - rewrite (proj2 (Z.ltb_lt _ _) Hrm). cbv zeta.
    set (n := Z.min _ _). assert (0 < n ∧ k + n <= lenZ data ∧ iob_BufferWriteBytes f' + n <= iob_BufferSize f') as (Hn & Hkn & Hroom') by lia.
    pose proof (lenZ_part data k n ltac:(lia) ltac:(lia) Hkn) as Hl.
    eapply (fill_spec τ i f' d' h' _ (part data k n) n __iob_write_buffer_is_full);
      [done|apply HW|eapply part_at; [done|done|lia..]|by apply part_bytes|lia|done|].
    intros r υ HE. pose proof HE as [_ HE'].
    apply ends_proj in HE.
    eapply (puts_more HS data k n _ (fun r => r = OK)) in HE as [HF2 [[-> Hf]|[-> HP2]]]; [| |done || lia..]; wp_test.
    { wp_step. split; [done|left]. split; [done|lia]. }
    destruct (lenZ data - k - n =? 0) eqn:E0; b2p.
    { wp_step. replace (k + n) with (lenZ data) in * by lia. by apply fwrite_done. }
    destruct HE' as [[? _]|(f2 & d2 & h2 & HS2 & SS2 & _ & EW)]; [done|].
    assert (iob_BufferWriteBytes f2 < iob_BufferSize f2) as Hrm2.
    { rewrite (ss_size _ _ _ _ SS2), EW. unfold __iob_write_buffer_is_full. cbn [add_pending write_to buffer_to iob_BufferSize iob_BufferWriteBytes].
      rewrite Hl. destruct Hw'. destruct (0 <? _) eqn:Ea, (_ =? iob_BufferSize f') eqn:Ec; b2p; cbn [andb]; lia. }
    wp_step. apply (wp_get_iob HS2). rewrite (proj2 (Z.ltb_lt _ _) Hrm2). wp_step. split; [|cbn; lia].
    exists (k + n). split; [f_equal; f_equal; lia|]. split; [done|]. intros g Eg. rewrite (st_iob _ _ _ _ _ HS2) in Eg. by injection Eg as <-.
Qed.

Definition fwrite_line_post (n : Z) τ : Prop := fwrite_post (inl n) τ.

Definition line_step (k : Z) (r : Z * Z * Z + Z) τ : Prop :=
  match r with inl v => fwrite_inv (fun _ => True) v τ ∧ v.1.2 < lenZ data - k | inr n => fwrite_line_post n τ end.

(** One byte through the macro. *)
Lemma fwrite_next k τ :
  at_ k τ → k < lenZ data →
  wp (c ← in_memory (load8 (s + k)); r ← __putc_line_buffered c i;
      if r =? EOF then break k else continue (s + k + 1, lenZ data - k - 1, k + 1)) (line_step k) τ.
Proof.
  intros (Hk & HF & f' & d' & h' & HS' & HSS & HW) Hlt. wp_step. eapply load_char; [exact Hdata|exact HF|lia|]. wp_step.
  assert (is_byte (nthZ data k)) as Hc by (apply Forall_nthZ; [done|lia]).
  eapply wp_mono; [apply (putc_line_spec _ _ _ _ _ _ HS'); [apply HW|done]|]. intros r υ HE.
  rewrite <- (part_one data) in HE by lia. apply (puts_more HS data k 1 EOF _ r τ υ f' d' h') in HE as [HF2 [[-> Hf]|[-> HP]]]; try done; try lia.
  - wp_test. wp_step. split; [done|left]. split; [done|lia].
  - rewrite (proj2 (Z.eqb_neq _ _)) by (unfold is_byte, EOF in *; lia). wp_step. split; [|cbn; lia].
    exists (k + 1). split; [f_equal; f_equal; lia|done].
Qed.

Lemma fwrite_line_spec : wp (fwrite_line i s (lenZ data)) fwrite_line_post σ.
Proof.
  unfold fwrite_line. apply (wp_loop _ (fwrite_inv (fun _ => True)) _ (fun v => v.1.2)); [| | |cbn; lia].
  3: { intros v τ (k & -> & [Hk _] & _). cbn. lia. }
  2: { by apply fwrite_start. }
  intros v τ (k & -> & HP & _). cbv beta iota. change (wp ?c _ τ) with (wp c (line_step k) τ).
  pose proof HP as (Hk & HF & f' & d' & h' & HS' & HSS & HW). destruct (0 <? lenZ data - k) eqn:E; b2p.
  2: { wp_step. replace k with (lenZ data) in * by lia. by apply fwrite_done. }
  wp_step. apply (wp_get_iob HS'). pose proof (st_wf _ _ _ _ _ HS') as Hw'.
  destruct (_ <? _) eqn:Er; b2p; [|by apply fwrite_next; [|lia]]. cbv zeta.
  set (n := Z.min _ _). assert (0 < n ∧ k + n <= lenZ data ∧ iob_BufferWriteBytes f' + n <= iob_BufferSize f') as (Hn & Hkn & Hroom) by lia.
  pose proof (lenZ_part data k n ltac:(lia) ltac:(lia) Hkn) as Hl.
  wp_step. apply wp_in_memory. replace (Z.to_nat n) with (length (part data k n)) by (unfold lenZ in *; lia).
  apply load_bytes_spec; [eapply part_at; [done|done|lia..]|]. rewrite with_sc_same.
  set (lf := line_feed (part data k n)). set (n' := match lf with Some j => j + 1 | None => n end).
  assert (0 < n' <= n) as Hn'.
  { unfold n'. destruct lf as [j|] eqn:Ej; [|lia]. apply line_feed_range in Ej. lia. }
  pose proof (lenZ_part data k n' ltac:(lia) ltac:(lia) ltac:(lia)) as Hl'.
  eapply (fill_spec τ i f' d' h' _ (part data k n') n' (fun file => bool_decide (is_Some lf) || __iob_write_buffer_is_full file));
    [done|apply HW|eapply part_at; [done|done|lia..]|by apply part_bytes|lia|done|].
  intros r υ HE. apply ends_proj in HE. eapply (puts_more HS data k n' _ (fun r => r = OK)) in HE as [HF2 [[-> Hf]|[-> HP2]]]; [| |done || lia..]; wp_test.
  { wp_step. split; [done|left]. split; [done|lia]. }
  destruct (lenZ data - k - n' =? 0) eqn:E0; b2p.
  { wp_step. replace (k + n') with (lenZ data) in * by lia. by apply fwrite_done. }
  pose proof HP2 as (_ & _ & f2 & d2 & h2 & HS2 & _). wp_step. apply (wp_get_iob HS2).
  replace (s + k + n') with (s + (k + n')) by lia. replace (lenZ data - k - n') with (lenZ data - (k + n')) by lia.
  destruct (_ <? _).
  - wp_step. split; [|cbn; lia]. by exists (k + n').
  - eapply wp_mono; [apply (fwrite_next (k + n')); [done|lia]|]. intros [v|m] ω; [|done]. intros [HI HL]. split; [done|]. lia.
Qed.
End Loops.

(** [fwrite] to a line buffered stream, or to a fully buffered stream whose
    buffer is not full yet, with nothing read ahead, writes the block at the position
    that the program sees and returns the number of objects; otherwise fewer objects
    are reported and the error indicator is set. *)
Theorem fwrite_writes σ i f d h ptr size count data :
  stream σ i f d h → can_write f → iob_BufferReadBytes f = 0 → Z.testbit (fd_Flags d) 1 = true →
  buffer_mode_of f = IOBF_BUFFER_MODE_LINE ∨
    (buffer_mode_of f = IOBF_BUFFER_MODE_FULL ∧ iob_BufferWriteBytes f < iob_BufferSize f) →
  bytes_at (mem (sc σ)) ptr data → Forall is_byte data → ptr ≠ NULL →
  0 < size → 0 < count → lenZ data = size * count → lenZ data < 4294967296 →
  wp (fwrite send_ ptr size count (Some i)) (fun r τ =>
    framed i (iob_Descriptor f) σ τ ∧
    ((failed i f τ ∧ 0 <= r < count) ∨
     (r = count ∧ ∃ f' d' h', stream τ i f' d' h' ∧ same_stream f d f' d' ∧ written data f h f' h'))) σ.
Proof.
  intros HS Hc HR Hfd Hmode Hat Hb Hptr Hsz Hct Hlen Hlt. pose proof (st_wf _ _ _ _ _ HS) as Hw. unfold fwrite.
  rewrite (proj2 (Z.eqb_neq _ _) Hptr). wp_step. apply (wp_get_iob HS). rewrite (in_use_clear _ _ Hw). unfold IOBF_WRITE.
  rewrite FLAG_IS_CLEAR_bit by lia. rewrite Hc. cbn [orb negb]. rewrite (proj2 (Z.ltb_lt _ _) Hsz), (proj2 (Z.ltb_lt _ _) Hct). cbn [andb]. cbv zeta.
  assert (u32 (size * count) = lenZ data) as -> by (rewrite <- Hlen; apply u32_small; pose proof (lenZ_nonneg data); lia).
  assert (lenZ data / count = size) as -> by (rewrite Hlen; apply Z.div_mul; lia). rewrite Z.eqb_refl. cbn [negb].
  assert (lenZ data / size = count) as Hdiv by (rewrite Hlen, Z.mul_comm; apply Z.div_mul; lia).
  wp_step. unfold output_mode. wp_step. apply (wp_get_iob HS). cbv zeta.
  apply (wp_mono _ (fun m τ => m = buffer_mode_of f ∧ τ = σ)).
  { rewrite (proj2 (Z.eqb_neq (buffer_mode_of f) IOBF_BUFFER_MODE_NONE)); [by wp_step|].
    destruct Hmode as [-> |[-> _]]; done. }
  intros m τ [-> ->]. wp_step.
  apply (wp_mono _ (fwrite_post (σ := σ) (i := i) (f := f) (d := d) (h := h) data)).
  { destruct Hmode as [E|[E Hroom]]; rewrite E; wp_test.
    - wp_step. eapply wp_mono; [by apply (fwrite_line_spec HS HR ptr)|]. intros n τ HP. by wp_step.
    - wp_test. by apply (fwrite_full_spec HS HR ptr). }
  intros r τ [HF HE]. destruct HE as [[Hf Hr]|[-> HA]].
  - assert (∀ n, 0 <= n < lenZ data → 0 <= n / size < count) as Hq.
    { intros n Hn. split; [apply Z.div_pos; lia|apply Z.div_lt_upper_bound; lia]. }
    destruct r as [n|]; wp_step; (split; [done|left]); (split; [done|]); [by apply Hq|lia].
  - wp_step. split; [done|right]. split; [done|]. destruct HA as (_ & _ & HA). by rewrite take_all_lenZ in HA.
Qed.
End Fwrite.

(** ** Evaluation *)

Lemma fwrite_writes_witness :
  let h := ([], 0) in
  let f := rw_iob [88; 0; 0; 0] 0 0 1 in
  let σ := open_file (CState (write_bytes ∅ 100 [72; 101; 108; 108; 111; 33]) 0) f h in
  wp (fwrite (H := disk 100) (fun _ _ => fault) 100 2 3 (Some 0)) (fun r τ =>
    framed (H := disk 100) 0 0 σ τ ∧
    ((failed (H := disk 100) 0 f τ ∧ 0 <= r < 3) ∨
     (r = 3 ∧ ∃ f' d' h', stream (H := disk 100) τ 0 f' d' h' ∧ same_stream (H := disk 100) f (disk_fd h) f' d' ∧
      written (H := disk 100) [72; 101; 108; 108; 111; 33] f h f' h'))) σ.
Proof.
  intros h f σ. assert (stream (H := disk 100) σ 0 f (disk_fd h) h) as HS by (by apply open_file_stream).
  apply (fwrite_writes (H := disk 100) (fun _ _ => fault) σ 0 f (disk_fd h) h 100 2 3 [72; 101; 108; 108; 111; 33] HS);
    [reflexivity|reflexivity|reflexivity|right; split; [reflexivity|done]| | |done|lia|lia|reflexivity|reflexivity].
  - apply bytes_atb_sound. vm_compute. reflexivity.
  - apply forallb_byte. reflexivity.
Defined.

(** The result of a call, with what is on the disk and in the buffer of the stream. *)
Definition outcome (r : res (Z * sstate (H := disk 100))) : option (Z * list Z * list Z) :=
  match r with
  | Ok (n, τ) =>
      match iobs τ, fds τ with
      | [Some f], [Some d] => Some (n, from_option fst [] (fd_File (H := disk 100) d), pending f)
      | _, _ => None
      end
  | _ => None
  end.

(** when the buffer is full, as four calls of [fputc] leave it behind, [fwrite]
    of two bytes writes three, one of them from behind the block, and returns 3. *)
Theorem fwrite_repeats :
  outcome (fwrite (H := disk 100) (fun _ _ => fault) 100 1 2 (Some 0)
    (open_file (CState (write_bytes ∅ 100 [1; 2; 3]) 0) (rw_iob [65; 66; 67; 68] 0 0 4) ([], 0)))
  = Some (3, [65; 66; 67; 68], [1; 2; 3]).
Proof. vm_compute. reflexivity. Qed.
