(* ===== verification/StdioSession.v ===== *)
(** * Buffered files: a session

    A program that writes a string to a file, goes back and reads it again finds
    what it wrote: the operations of StdioWrite.v, StdioSeek.v and StdioInput.v in
    sequence. *)

From stdpp Require Import base numbers gmap list.
From S2P Require Import Prelude CMem Words StrScan Fds Stdio StdioSpec StdioWrite StdioRead StdioInput StdioSeek.
Open Scope Z_scope.
#[local] Set Warnings "-clear-no-such-hyp".

Lemma take_overwrite c p l :
  0 <= p <= lenZ c → take (Z.to_nat (lenZ l)) (drop (Z.to_nat p) (overwrite c p l)) = l.
Proof.
  intros Hp. unfold overwrite. rewrite drop_app_ge; rewrite length_take; unfold lenZ in *; [|lia].
  replace (Z.to_nat p - _)%nat with 0%nat by lia. rewrite drop_0, Nat2Z.id. apply take_app_length.
Qed.

Section Session.
Context `{Dos} (recv : Z → Z → M sstate (Z * list Z)) (send_ : Z → list Z → M sstate Z).
Implicit Types (σ τ υ : sstate) (f : iob) (d : fd) (h : handle).

(** The client: it gives up with -1 when a call fails. *)
Definition write_and_read (s p buf n i : Z) : M sstate Z :=
  r ← fputs send_ s (Some i);
  if r <? 0 then mret (-1)
  else
    r ← fseek (Some i) p SEEK_SET;
    if r <? 0 then mret (-1)
    else fread recv buf 1 n (Some i).

(** C27: a string that is written with [fputs] at the position of a stream, in any
    mode with a buffer, is read back by [fread] after [fseek] to where it was
    written: the memory of the caller then holds the string; unless a call fails, and
    then the error indicator is set. *)
Theorem file_roundtrip σ i f d h s str buf :
  stream σ i f d h → can_write f → can_read f → quiet i σ →
  buffer_mode_of f ≠ IOBF_BUFFER_MODE_NONE → Z.testbit (iob_Flags f) 12 = false →
  Z.testbit (fd_Flags d) 0 = true → Z.testbit (fd_Flags d) 1 = true →
  cstr (mem (sc σ)) s str → mem_ok (mem (sc σ)) → 0 < s < 4294967296 → 0 < lenZ str →
  mapped (mem (sc σ)) buf (lenZ str) → buf ≠ NULL →
  lenZ (lcontent f h) + lenZ str < 2147483648 →
  wp (write_and_read s (lpos f h) buf (lenZ str) i) (fun r τ =>
    failed i f τ ∨ (r = lenZ str ∧ mem (sc τ) = write_bytes (mem (sc σ)) buf str)) σ.
Proof.
  intros HS Hcw Hcr Hq Hmode Hle Hf0 Hf1 Hstr Hmem Hs Hpos Hm Hbuf Hsz. pose proof (lpos_range HS) as Hlp.
  unfold write_and_read. wp_step.
  eapply wp_mono; [apply (fputs_spec send_ _ _ _ _ _ s str HS); [done|by intros ?|done|done|done|done|pose proof (lenZ_nonneg (lcontent f h)); lia]|].
  intros r τ [F1 [[-> Hf]|(f1 & d1 & h1 & HS1 & SS1 & -> & (HR1 & V1 & V2) & _)]]; wp_test; [wp_step; by left|].
  assert (seek_goal f1 h1 (lpos f h) SEEK_SET = lpos f h) as Eg by (unfold seek_goal; cbn; lia).
  assert (lenZ (lcontent f1 h1) = Z.max (lenZ (lcontent f h)) (lpos f h + lenZ str)) as EL by (rewrite V1; by apply lenZ_overwrite).
  wp_step. eapply wp_mono; [apply (fseek_spec _ _ _ _ _ (lpos f h) SEEK_SET HS1); [by apply coherent_nil|by left|rewrite Eg; lia|lia]|].
  rewrite Eg. intros r υ [F2 [[-> Hf]|(f2 & d2 & h2 & HS2 & SS2 & -> & _ & Ei)]]; wp_test.
  { wp_step. left. by eapply failed_mode; [apply SS1|]. }
  rewrite (ss_descriptor _ _ _ _ SS1) in F2. assert (framed i (iob_Descriptor f) σ υ) as F12 by (by eapply framed_trans).
  assert (same_stream f d f2 d2) as SS by (by eapply same_stream_trans).
  eapply wp_mono; [apply (fread_spec recv _ _ _ _ _ buf 1 (lenZ str) HS2)|].
  - unfold can_read. by rewrite (ss_mode _ _ _ _ SS) by lia.
  - by eapply quiet_framed.
  - by rewrite (ss_mode _ _ _ _ SS) by lia.
  - by rewrite (ss_flags _ _ _ _ SS).
  - intros E. by rewrite (buffer_mode_bits _ _ (ss_mode _ _ _ _ SS)) in E.
  - by rewrite Z.mul_1_l, (fr_mem _ _ _ _ F12).
  - done.
  - lia.
  - done.
  - lia.
  - rewrite Z.mul_1_l, Ei, V1, take_overwrite by done. intros r ω [[Hf _]|[-> HD]].
    { left. by eapply failed_mode; [apply SS|]. }
    right. rewrite Z.div_1_r. split; [done|]. destruct HD as [F3 _]. rewrite (fr_mem _ _ _ _ F3), app_nil_r. cbn.
    by rewrite (fr_mem _ _ _ _ F12).
Qed.
End Session.

Lemma file_roundtrip_witness :
  let h := ([65; 66; 67], 1) in
  let f := rw_iob [0; 0; 0; 0] 0 0 0 in
  let σ := open_file (CState (write_bytes ∅ 100 [72; 101; 108; 108; 111; 0; 0; 0; 0; 0; 0; 0; 0; 0; 0; 0]) 0) f h in
  wp (write_and_read (H := disk 100) (fun _ _ => fault) (fun _ _ => fault) 100 1 108 5 0) (fun r τ =>
    failed (H := disk 100) 0 f τ ∨
    (r = 5 ∧ mem (sc τ) = write_bytes (mem (sc σ)) 108 [72; 101; 108; 108; 111])) σ.
Proof.
  intros h f σ. assert (stream (H := disk 100) σ 0 f (disk_fd h) h) as HS by (by apply open_file_stream).
  apply (file_roundtrip (H := disk 100) (fun _ _ => fault) (fun _ _ => fault) σ 0 f (disk_fd h) h 100 [72; 101; 108; 108; 111] 108 HS).
  - reflexivity.
  - reflexivity.
  - apply quiet_one.
  - done.
  - reflexivity.
  - reflexivity.
  - reflexivity.
  - apply cstrb_sound. vm_compute. reflexivity.
  - apply mem_okb_sound. vm_compute. reflexivity.
  - lia.
  - reflexivity.
  - apply mappedb_sound. vm_compute. reflexivity.
  - done.
  - reflexivity.
Defined.
