(* ===== verification/Printf.v ===== *)
(** * Formatted output

    stdio/vfprintf.c: the conversion of integers to digits, padding, the parser of
    a conversion specification with its state machine, and the loop of
    [printf_core], which writes to a stream of Stdio.v.

    [printf_core] is called with an output ([f] is not NULL), so the pass that only
    collects the types of positional arguments never runs and [nl_arg] holds zeros.
    The conversion of floating point numbers, [strerror] and [wctomb] are parameters
    of the model. *)

From stdpp Require Import base numbers gmap list.
From S2P Require Import Prelude CMem Words Ctype StrScan StrToNum Fds Stdio.
Open Scope Z_scope.

(** ** Types of arguments *)

Definition _BARE : Z := 0.
Definition _LPRE : Z := 1.
Definition _LLPRE : Z := 2.
Definition _HPRE : Z := 3.
Definition _HHPRE : Z := 4.
Definition _BIGLPRE : Z := 5.
Definition _ZTPRE : Z := 6.
Definition _JPRE : Z := 7.
Definition _STOP : Z := 8.
Definition _PTR : Z := 9.
Definition _INT : Z := 10.
Definition _UINT : Z := 11.
Definition _ULLONG : Z := 12.
Definition _LONG : Z := 13.
Definition _ULONG : Z := 14.
Definition _SHORT : Z := 15.
Definition _USHORT : Z := 16.
Definition _CHAR : Z := 17.
Definition _UCHAR : Z := 18.
Definition _LLONG : Z := 19.
Definition _SIZET : Z := 20.
Definition _IMAX : Z := 21.
Definition _UMAX : Z := 22.
Definition _PDIFF : Z := 23.
Definition _UIPTR : Z := 24.
Definition _DBL : Z := 25.
Definition _LDBL : Z := 26.
Definition _NOARG : Z := 27.

(** The rows of the table [states], as lists of a character and its state. *)
Definition chr_d := 100.
Definition chr_i := 105.
Definition chr_o := 111.
Definition chr_u := 117.
Definition chr_x := 120.
Definition chr_X := 88.
Definition chr_b := 98.
Definition chr_c := 99.
Definition chr_C := 67.
Definition chr_s := 115.
Definition chr_S := 83.
Definition chr_p := 112.
Definition chr_n := 110.
Definition chr_m := 109.
Definition doubles (t : Z) : list (Z * Z) := (fun c => (c, t)) <$> [101; 102; 103; 97; 69; 70; 71; 65].
Definition integers (s u : Z) : list (Z * Z) :=
  [(chr_d, s); (chr_i, s); (chr_o, u); (chr_u, u); (chr_x, u); (chr_X, u)].

Definition states : list (list (Z * Z)) :=
  [ integers _INT _UINT ++ doubles _DBL ++
    [(chr_c, _CHAR); (chr_C, _INT); (chr_b, _INT); (chr_s, _PTR); (chr_S, _PTR); (chr_p, _UIPTR); (chr_n, _PTR);
     (chr_m, _NOARG); (108, _LPRE); (104, _HPRE); (76, _BIGLPRE); (122, _ZTPRE); (106, _JPRE); (116, _ZTPRE)];
    integers _LONG _ULONG ++ doubles _DBL ++ [(chr_c, _INT); (chr_s, _PTR); (chr_n, _PTR); (108, _LLPRE)];
    integers _LLONG _ULLONG ++ [(chr_n, _PTR)];
    integers _SHORT _USHORT ++ [(chr_n, _PTR); (104, _HHPRE)];
    integers _CHAR _UCHAR ++ [(chr_n, _PTR)];
    doubles _LDBL ++ [(chr_n, _PTR)];
    integers _PDIFF _SIZET ++ [(chr_n, _PTR)];
    integers _IMAX _UMAX ++ [(chr_n, _PTR)] ].

(** An entry of the table; entries that are not given are 0. *)
Definition state_entry (st c : Z) : Z :=
  match states !! Z.to_nat st with
  | Some row => match list_find (fun e => e.1 = c) row with Some (_, e) => e.2 | None => 0 end
  | None => 0
  end.
Definition OOB (c : Z) : bool := 122 - 65 <? u32 (c - 65).

(** ** Flags *)

Definition ALT_FORM : Z := 2 ^ 3.
Definition ZERO_PAD : Z := 2 ^ 16.
Definition LEFT_ADJ : Z := 2 ^ 13.
Definition PAD_POS : Z := 2 ^ 0.
Definition MARK_POS : Z := 2 ^ 11.
Definition GROUPED : Z := 2 ^ 7.
Definition FLAGMASK : Z := Z.lor ALT_FORM (Z.lor ZERO_PAD (Z.lor LEFT_ADJ (Z.lor PAD_POS (Z.lor MARK_POS GROUPED)))).
Definition has (fl b : Z) : bool := negb (Z.land fl b =? 0).

Definition INT_MAX_ : Z := 2147483647.
Definition EOVERFLOW : Z := 84.
Definition IOBF_NO_NUL : Z := 2 ^ 8.

(** ** Digits

    Each loop stores digits from the end of a buffer on; the result is what has been
    stored.  The bound is the number of digits of a 64-bit number. *)

Definition xdigits : list Z := [48; 49; 50; 51; 52; 53; 54; 55; 56; 57; 65; 66; 67; 68; 69; 70].
Definition bdigits : list Z := [48; 49].

Fixpoint fmt_x_loop (n : nat) (x lower : Z) (s : list Z) : list Z :=
  match n with
  | O => s
  | S n => if x =? 0 then s else fmt_x_loop n (Z.shiftr x 4) lower (Z.lor (nthZ xdigits (Z.land x 15)) lower :: s)
  end.
Definition fmt_x (x lower : Z) : list Z := fmt_x_loop 16 x lower [].

Fixpoint fmt_b_loop (n : nat) (x lower : Z) (s : list Z) : list Z :=
  match n with
  | O => s
  | S n => if x =? 0 then s else fmt_b_loop n (Z.shiftr x 1) lower (Z.lor (nthZ bdigits (Z.land x 1)) lower :: s)
  end.
Definition fmt_b (x lower : Z) : list Z := fmt_b_loop 64 x lower [].

Fixpoint fmt_o_loop (n : nat) (x : Z) (s : list Z) : list Z :=
  match n with
  | O => s
  | S n => if x =? 0 then s else fmt_o_loop n (Z.shiftr x 3) (48 + Z.land x 7 :: s)
  end.
Definition fmt_o (x : Z) : list Z := fmt_o_loop 22 x [].

(** The two loops of [fmt_u]: as long as the number has more than 32 bits, and then. *)
Fixpoint fmt_u_wide (n : nat) (x : Z) (s : list Z) : Z * list Z :=
  match n with
  | O => (x, s)
  | S n => if 4294967295 <? x then fmt_u_wide n (x / 10) (48 + x mod 10 :: s) else (x, s)
  end.
Fixpoint fmt_u_loop (n : nat) (y : Z) (s : list Z) : list Z :=
  match n with
  | O => s
  | S n => if y =? 0 then s else fmt_u_loop n (y / 10) (48 + y mod 10 :: s)
  end.
Definition fmt_u (x : Z) : list Z := let '(x, s) := fmt_u_wide 20 x [] in fmt_u_loop 10 x s.

(** ** Arguments *)

(** A variable argument: a 32-bit word, a 64-bit number or a floating point number. *)
Inductive va := VWord (w : Z) | VLong (w : Z) | VDouble (bits : Z).

(** [union arg]; [arg_i] is a uintmax_t. *)
Record arg := Arg { arg_i : Z; arg_p : Z; arg_f : Z }.
Definition no_arg : arg := Arg 0 0 0.
Definition s16 (z : Z) : Z := (z + 32768) mod 65536 - 32768.
Definition s8 (z : Z) : Z := (z + 128) mod 256 - 128.

Section Core.
Context `{Dos}.

Definition va_word (ap : list va) : M sstate (Z * list va) :=
  match ap with VWord w :: ap => mret (u32 w, ap) | _ => fault end.
Definition va_long (ap : list va) : M sstate (Z * list va) :=
  match ap with VLong w :: ap => mret (u64 w, ap) | _ => fault end.
Definition va_double (ap : list va) : M sstate (Z * list va) :=
  match ap with VDouble w :: ap => mret (w, ap) | _ => fault end.

Definition pop_arg (type : Z) (ap : list va) : M sstate (arg * list va) :=
  let word conv := '(w, ap) ← va_word ap; mret (Arg (u64 (conv w)) 0 0, ap) in
  let long := '(w, ap) ← va_long ap; mret (Arg w 0 0, ap) in
  if type =? _PTR then '(w, ap) ← va_word ap; mret (Arg 0 w 0, ap)
  else if (type =? _INT) || (type =? _LONG) || (type =? _PDIFF) then word s32
  else if (type =? _UINT) || (type =? _ULONG) || (type =? _SIZET) || (type =? _UIPTR) then word (fun w => w)
  else if type =? _SHORT then word s16
  else if type =? _USHORT then word u16
  else if type =? _CHAR then word s8
  else if type =? _UCHAR then word u8
  else if (type =? _ULLONG) || (type =? _LLONG) || (type =? _IMAX) || (type =? _UMAX) then long
  else if (type =? _DBL) || (type =? _LDBL) then '(w, ap) ← va_double ap; mret (Arg 0 0 w, ap)
  else mret (no_arg, ap).

(** ** Output *)

Fixpoint out (i : Z) (text : list Z) : M sstate unit :=
  match text with
  | [] => mret tt
  | c :: text => file ← get_iob i; _ ← __fputc c i (buffer_mode_of file); out i text
  end.

Definition pad (i c w l fl : Z) : M sstate unit :=
  if has fl (Z.lor LEFT_ADJ ZERO_PAD) || (w <=? l) then mret tt
  else
    l ← loop (fun l => if 256 <=? l then _ ← out i (replicate 256 c); continue (l - 256) else break l) (w - l);
    out i (replicate (Z.to_nat l) c).

(** ** The conversion specification *)

Definition char_at (s : Z) : M sstate Z := in_memory (load8 s).
Definition digit (c : Z) : bool := negb (isdigit c =? 0).

Definition getint (s : Z) : M sstate (Z * Z) :=
  loop (fun '(s, i) =>
          c ← char_at s;
          if digit c then
            continue (s + 1, if (INT_MAX_ / 10 <? u32 i) || (INT_MAX_ - 10 * i <? c - 48) then -1 else 10 * i + (c - 48))
          else break (i, s)) (s, 0).

Definition read_flags (s : Z) : M sstate (Z * Z) :=
  loop (fun '(s, fl) =>
          c ← char_at s;
          if (u32 (c - 32) <? 32) && has FLAGMASK (Z.shiftl 1 (c - 32))
          then continue (s + 1, Z.lor fl (Z.shiftl 1 (c - 32))) else break (fl, s)) (s, 0).

(** An argument that is given by its position: [nl_arg] holds zeros. *)
Definition positional (s : Z) : M sstate bool :=
  c ← char_at s;
  if digit c then d ← char_at (s + 1); mret (d =? 36) else mret false.

(** How a part of the specification ends: [inl] is the error that is reported. *)
Definition read_width (s fl : Z) (l10n : bool) (ap : list va) : M sstate (Z + Z * Z * Z * bool * list va) :=
  c ← char_at s;
  if c =? 42 then
    let negative '(w, s, l10n, ap) :=
      if w <? 0 then mret (inr (s32 (- w), Z.lor fl LEFT_ADJ, s, l10n, ap)) else mret (inr (w, fl, s, l10n, ap)) in
    pos ← positional (s + 1);
    if pos : bool then negative (0, s + 3, true, ap)
    else if negb l10n then '(w, ap) ← va_word ap; negative (s32 w, s + 1, l10n, ap)
    else mret (inl EINVAL)
  else
    '(w, s) ← getint s;
    if w <? 0 then mret (inl EOVERFLOW) else mret (inr (w, fl, s, l10n, ap)).

Definition read_precision (s : Z) (l10n : bool) (ap : list va) : M sstate (Z + Z * bool * Z * list va) :=
  c ← char_at s;
  if c =? 46 then
    d ← char_at (s + 1);
    if d =? 42 then
      pos ← positional (s + 2);
      if pos : bool then mret (inr (0, true, s + 4, ap))
      else if negb l10n then '(w, ap) ← va_word ap; let p := s32 w in mret (inr (p, 0 <=? p, s + 2, ap))
      else mret (inl EINVAL)
    else '(p, s) ← getint (s + 1); mret (inr (p, true, s, ap))
  else mret (inr (-1, false, s, ap)).

(** The state machine: the type of the argument and the state before it. *)
Definition read_type (s : Z) : M sstate (Z + Z * Z * Z) :=
  loop (fun '(s, st) =>
          c ← char_at s;
          if OOB c then break (inl EINVAL)
          else
            let ps := st in
            let st := state_entry st c in
            if u32 (st - 1) <? _STOP then continue (s + 1, st)
            else if st =? 0 then break (inl EINVAL) else break (inr (st, ps, s + 1))) (s, _BARE).

(** ** The conversions *)

Definition prefix_text : list Z := [45; 43; 32; 32; 32; 48; 88; 48; 120].
Definition null_text : list Z := [40; 110; 117; 108; 108; 41].

(** What is printed: the part of [prefix_text], the text between [a] and [z], the
    precision and the flags. *)
Record conv := Conv { cv_prefix : Z; cv_pl : Z; cv_text : list Z; cv_p : Z; cv_fl : Z }.

(** The common end of the conversions of integers; [None] is an overflow. *)
Definition int_end (prefix pl : Z) (a : list Z) (i p : Z) (xp : bool) (fl : Z) : option conv :=
  if xp && (p <? 0) then None
  else
    let fl := if xp then CLEAR_FLAG fl ZERO_PAD else fl in
    if (i =? 0) && (p =? 0) then Some (Conv prefix pl [] p fl)
    else Some (Conv prefix pl a (Z.max p (lenZ a + b2z (i =? 0))) fl).

Definition conv_hex (t i p : Z) (xp : bool) (fl : Z) : option conv :=
  let a := fmt_x i (Z.land t 32) in
  if negb (i =? 0) && has fl ALT_FORM then int_end (Z.shiftr t 4) 2 a i p xp fl else int_end 0 0 a i p xp fl.
Definition conv_b (t i p : Z) (xp : bool) (fl : Z) : option conv :=
  let a := fmt_b i (Z.land t 32) in
  if negb (i =? 0) && has fl ALT_FORM then int_end (Z.shiftr t 4) 2 a i p xp fl else int_end 0 0 a i p xp fl.
Definition conv_o (i p : Z) (xp : bool) (fl : Z) : option conv :=
  let a := fmt_o i in
  int_end 0 0 a i (if has fl ALT_FORM && (p <? lenZ a + 1) then lenZ a + 1 else p) xp fl.
Definition conv_u (i p : Z) (xp : bool) (fl : Z) : option conv := int_end 0 0 (fmt_u i) i p xp fl.
Definition conv_d (i p : Z) (xp : bool) (fl : Z) : option conv :=
  if INTMAX_MAX <? i then int_end 0 1 (fmt_u (u64 (- i))) (u64 (- i)) p xp fl
  else if has fl MARK_POS then int_end 1 1 (fmt_u i) i p xp fl
  else if has fl PAD_POS then int_end 2 1 (fmt_u i) i p xp fl
  else int_end 0 0 (fmt_u i) i p xp fl.

(** [buf] has room for this many digits (a long double is a double); a store before
    its begin is undefined. *)
Definition sizeof_buf : Z := 8 * 3 + 3 + 53 / 4.
Definition store_digits (a : list Z) : M sstate unit := if lenZ a <=? sizeof_buf then mret tt else fault.

(** The text of a string argument, at most [p] bytes of it. *)
Definition conv_s (a p fl : Z) : M sstate (option conv) :=
  let fl := CLEAR_FLAG fl ZERO_PAD in
  let limit := if p <? 0 then INT_MAX_ else p in
  if a =? NULL then
    let text := take (Z.to_nat limit) null_text in mret (Some (Conv 0 0 text (lenZ text) fl))
  else
    n ← in_memory (strnlen a limit);
    text ← in_memory (load_bytes a (Z.to_nat n));
    over ← (if p <? 0 then c ← char_at (a + n); mret (negb (c =? 0)) else mret false);
    if over : bool then mret None else mret (Some (Conv 0 0 text n fl)).

Context (fmt_fp : Z → Z → Z → Z → Z → Z → M sstate Z) (strerror : Z → list Z) (wctomb : Z → option (list Z)).

(** Wide characters are read with [get], from memory or from the array [wc].  The
    first loop measures the text: its length, or -1 for a character that cannot be
    converted. *)
Definition wide_length (get : Z → M sstate Z) (p : Z) : M sstate Z :=
  loop (fun '(k, i) =>
          if i <? p then
            c ← get k;
            if c =? 0 then break i
            else
              match wctomb c with
              | None => break (-1)
              | Some mb => if lenZ mb <=? u32 (p - i) then continue (k + 1, i + lenZ mb) else break i
              end
          else break i) (0, 0).
Definition wide_out (i : Z) (get : Z → M sstate Z) (p : Z) : M sstate unit :=
  loop (fun '(k, j) =>
          if j <? p then
            c ← get k;
            if c =? 0 then break tt
            else
              match wctomb c with
              | None => break tt
              | Some mb => if j + lenZ mb <=? p then _ ← out i mb; continue (k + 1, j + lenZ mb) else break tt
              end
          else break tt) (0, 0).

(** What follows the switch, for a conversion to a text: the number of bytes, or
    [None] for an overflow. *)
Definition emit (i cnt w : Z) (v : conv) : M sstate (option Z) :=
  let '(Conv prefix pl a p fl) := v in
  let p := Z.max p (lenZ a) in
  if INT_MAX_ - pl <? p then mret None
  else
    let w := Z.max w (pl + p) in
    if INT_MAX_ - cnt <? w then mret None
    else
      _ ← pad i 32 w (pl + p) fl;
      _ ← out i (take (Z.to_nat pl) (drop (Z.to_nat prefix) prefix_text));
      _ ← pad i 48 w (pl + p) (Z.lxor fl ZERO_PAD);
      _ ← pad i 48 p (lenZ a) 0;
      _ ← out i a;
      _ ← pad i 32 w (pl + p) (Z.lxor fl LEFT_ADJ);
      mret (Some w).

(** [%n] *)
Definition store_count (ps q cnt : Z) : M sstate unit :=
  if (ps =? _BARE) || (ps =? _LPRE) || (ps =? _ZTPRE) then in_memory (store32 q (u32 cnt))
  else if (ps =? _LLPRE) || (ps =? _JPRE) then _ ← in_memory (store32 q 0); in_memory (store32 (q + 4) (u32 cnt))
  else if ps =? _HPRE then _ ← in_memory (store8 q (Z.shiftr (u16 cnt) 8)); in_memory (store8 (q + 1) (u8 cnt))
  else if ps =? _HHPRE then in_memory (store8 q (u8 cnt))
  else mret tt.

(** Wide strings: [inl (-1)] is returned at once, [inr] is the number of bytes. *)
Definition conv_wide (i : Z) (get : Z → M sstate Z) (w p fl : Z) : M sstate (Z + Z) :=
  n ← wide_length get p;
  if n <? 0 then mret (inl (-1))
  else
    _ ← pad i 32 w n fl;
    _ ← wide_out i get n;
    _ ← pad i 32 w n (Z.lxor fl LEFT_ADJ);
    mret (inr (Z.max w n)).

(** The switch: [inl None] is an overflow, [inl (Some r)] returns [r], and [inr] is
    the number of bytes that have been printed. *)
Definition convert (i cnt ps t w p : Z) (xp : bool) (fl : Z) (a : arg) : M sstate (option Z + Z) :=
  let fl := if has fl LEFT_ADJ then CLEAR_FLAG fl ZERO_PAD else fl in
  let text (v : option conv) :=
    match v with
    | None => mret (inl None)
    | Some v => r ← emit i cnt w v; mret (match r with None => inl None | Some l => inr l end)
    end in
  let digits a v := _ ← store_digits a; text v in
  let wide get p := r ← conv_wide i get w p fl; mret (match r with inl e => inl (Some e) | inr l => inr l end) in
  if t =? chr_b then digits (fmt_b (arg_i a) (Z.land t 32)) (conv_b t (arg_i a) p xp fl)
  else if t =? chr_n then _ ← store_count ps (arg_p a) cnt; mret (inr 0)
  else if t =? chr_p then
    digits (fmt_x (arg_i a) (Z.land chr_x 32)) (conv_hex chr_x (arg_i a) (s32 (Z.max (u32 p) 8)) xp (Z.lor fl ALT_FORM))
  else if (t =? chr_x) || (t =? chr_X) then digits (fmt_x (arg_i a) (Z.land t 32)) (conv_hex t (arg_i a) p xp fl)
  else if t =? chr_o then digits (fmt_o (arg_i a)) (conv_o (arg_i a) p xp fl)
  else if (t =? chr_d) || (t =? chr_i) then
    digits (fmt_u (if INTMAX_MAX <? arg_i a then u64 (- arg_i a) else arg_i a)) (conv_d (arg_i a) p xp fl)
  else if t =? chr_u then digits (fmt_u (arg_i a)) (conv_u (arg_i a) p xp fl)
  else if t =? chr_c then text (Some (Conv 0 0 [u8 (arg_i a)] 1 (CLEAR_FLAG fl ZERO_PAD)))
  else if t =? chr_m then
    σ ← get;
    let s := strerror (errno (sc σ)) in
    text (Some (Conv 0 0 (if p <? 0 then s else take (Z.to_nat p) s)
                  (if p <? 0 then lenZ s else Z.min p (lenZ s)) (CLEAR_FLAG fl ZERO_PAD)))
  else if t =? chr_s then v ← conv_s (arg_p a) p fl; text v
  else if t =? chr_C then wide (fun k => mret (if k =? 0 then u32 (arg_i a) else 0)) (-1)
  else if t =? chr_S then wide (fun k => in_memory (load32 (arg_p a + 4 * k))) p
  else if bool_decide (t ∈ (doubles 0).*1) then
    if xp && (p <? 0) then mret (inl None)
    else l ← fmt_fp i (arg_f a) w p fl t; if l <? 0 then mret (inl None) else mret (inr l)
  else text (Some (Conv 0 0 [] p fl)).

(** The text up to the next specification: [for (a = s; *s && *s != '%'; s++)] and
    [for (z = s; s[0] == '%' && s[1] == '%'; z++, s += 2)]. *)
Definition literal_end (s : Z) : M sstate Z :=
  loop (fun s => c ← char_at s; if negb (c =? 0) && negb (c =? 37) then continue (s + 1) else break s) s.
Definition percent_end (s : Z) : M sstate (Z * Z) :=
  loop (fun '(z, s) =>
          c ← char_at s;
          if c =? 37 then d ← char_at (s + 1); if d =? 37 then continue (z + 1, s + 2) else break (z, s)
          else break (z, s)) (s, s).

(** One specification, with [s] behind the position: the variables of the loop, or
    the value to return. *)
Definition specification (i cnt argpos s : Z) (l10n : bool) (ap : list va) : M sstate (Z + Z * Z * bool * list va) :=
  let failed e := _ ← __set_errno e; mret (inl (-1)) in
  '(fl, s) ← read_flags s;
  r ← read_width s fl l10n ap;
  match r with
  | inl e => failed e
  | inr (w, fl, s, l10n, ap) =>
      r ← read_precision s l10n ap;
      match r with
      | inl e => failed e
      | inr (p, xp, s, ap) =>
          r ← read_type s;
          match r with
          | inl e => failed e
          | inr (st, ps, s) =>
              if (st =? _NOARG) && (0 <=? argpos) then failed EINVAL
              else
                '(a, ap) ← (if (st =? _NOARG) || (0 <=? argpos) then mret (no_arg, ap) else pop_arg st ap);
                t ← char_at (s - 1);
                let t := if negb (ps =? 0) && (Z.land t 15 =? 3) then CLEAR_FLAG t 32 else t in
                r ← convert i cnt ps t w p xp fl a;
                match r with
                | inl None => failed EOVERFLOW
                | inl (Some e) => mret (inl e)
                | inr l => mret (inr (l, s, l10n, ap))
                end
          end
      end
  end.

Definition printf_core (i fmt : Z) (ap : list va) : M sstate Z :=
  loop (fun '(s, cnt, l, l10n, ap) =>
          if INT_MAX_ - cnt <? l then _ ← __set_errno EOVERFLOW; break (-1)
          else
            let cnt := cnt + l in
            c ← char_at s;
            if c =? 0 then break cnt
            else
              let a := s in
              s ← literal_end s;
              '(z, s) ← percent_end s;
              if INT_MAX_ - cnt <? z - a then _ ← __set_errno EOVERFLOW; break (-1)
              else
                let l := z - a in
                text ← in_memory (load_bytes a (Z.to_nat l));
                _ ← out i text;
                if negb (l =? 0) then continue (s, cnt, l, l10n, ap)
                else
                  pos ← positional (s + 1);
                  argpos ← (if pos : bool then c ← char_at (s + 1); mret (c - 48) else mret (-1));
                  r ← specification i cnt argpos (if pos : bool then s + 3 else s + 1) (if pos : bool then true else l10n) ap;
                  match r with
                  | inl e => break e
                  | inr (l, s, l10n, ap) => continue (s, cnt, l, l10n, ap)
                  end) (fmt, 0, 0, false, ap).

(** The macro [__putc]. *)
Definition __putc (c i m : Z) : M sstate Z :=
  file ← get_iob i;
  if iob_BufferWriteBytes file <? iob_BufferSize file then
    _ ← store_buffer i (iob_BufferWriteBytes file) [u8 c];
    _ ← upd i (write_to (iob_BufferWriteBytes file + 1));
    if (m =? IOBF_BUFFER_MODE_LINE) && (c =? 10) then __flush_r (Some i) else mret (Z.land c 255)
  else __fputc c i m.

Definition __vfprintf_r (i format : Z) (ap : list va) : M sstate Z :=
  ret ← printf_core i format ap;
  if negb (ret =? EOF) then
    file ← get_iob i;
    _ ← (if FLAG_IS_CLEAR (iob_Flags file) IOBF_NO_NUL then __putc 0 i (buffer_mode_of file) else mret OK);
    _ ← __fflush_r (Some i);
    mret ret
  else mret EOF.
Definition vfprintf := __vfprintf_r.
End Core.
