(* ===== verification/PrintfDigits.v ===== *)
(** * Formatted output: numbers

    The digits that [fmt_u], [fmt_x], [fmt_o] and [fmt_b] store are the numeral of
    their argument, the conversions of StrToNum.v read it back, and [getint] reads a
    decimal number or reports that it is too large. *)

From stdpp Require Import base numbers gmap list.
From S2P Require Import Prelude CMem Words Ctype StrScan StrToNum Fds Stdio StdioSpec Printf.
Open Scope Z_scope.

(** ** Numerals *)

(** The digits of [x] in base [b], the first one first; 0 has none. *)
Fixpoint numeral (n : nat) (b x : Z) : list Z :=
  match n with
  | O => []
  | S n => if x =? 0 then [] else numeral n b (x / b) ++ [x mod b]
  end.
Definition digits_of (b x : Z) : list Z := numeral 64 b x.

(** The character of a digit, with or without the bit of lower case. *)
Definition digit_char (lower d : Z) : Z := if d <? 10 then 48 + d else if lower =? 0 then 55 + d else 87 + d.
Definition text_of (lower b x : Z) : list Z := digit_char lower <$> digits_of b x.

Lemma numeral_enough n m b x :
  2 <= b → 0 <= x < b ^ Z.of_nat n → (n <= m)%nat → numeral m b x = numeral n b x.
Proof.
  intros Hb. revert m x. induction n as [|n IH]; intros m x Hx Hm.
  - assert (x = 0) as -> by (cbn in Hx; lia). by destruct m.
  - destruct m as [|m]; [lia|]. cbn. destruct (x =? 0) eqn:E; [done|]. f_equal. apply IH; [|lia].
    rewrite Nat2Z.inj_succ, Z.pow_succ_r in Hx by lia. split; [apply Z.div_pos; lia|]. apply Z.div_lt_upper_bound; lia.
Qed.

Lemma numeral_value n b x : 2 <= b → 0 <= x < b ^ Z.of_nat n → digits_value b (numeral n b x) = x.
Proof.
  intros Hb. revert x. induction n as [|n IH]; intros x Hx; [cbn in *; lia|]. cbn [numeral].
  destruct (x =? 0) eqn:E; b2p; [cbn; lia|]. rewrite digits_value_snoc, IH; [symmetry; apply Z.div_mod; lia|].
  rewrite Nat2Z.inj_succ, Z.pow_succ_r in Hx by lia. split; [apply Z.div_pos; lia|]. apply Z.div_lt_upper_bound; lia.
Qed.

Lemma numeral_digit n b x : 2 <= b → Forall (fun d => 0 <= d < b) (numeral n b x).
Proof.
  intros Hb. revert x. induction n as [|n IH]; intros x; [done|]. cbn. destruct (x =? 0); [done|].
  apply Forall_app. split; [apply IH|]. constructor; [|done]. apply Z.mod_pos_bound. lia.
Qed.

(** The first digit is not 0. *)
Lemma numeral_head n b x : 2 <= b → 0 <= x < b ^ Z.of_nat n → ∀ d l, numeral n b x = d :: l → d ≠ 0.
Proof.
  intros Hb. revert x. induction n as [|n IH]; intros x Hx d l; [done|]. cbn.
  destruct (x =? 0) eqn:E; b2p; [done|]. rewrite Nat2Z.inj_succ, Z.pow_succ_r in Hx by lia.
  assert (0 <= x / b < b ^ Z.of_nat n) as Hy by (split; [apply Z.div_pos; lia|apply Z.div_lt_upper_bound; lia]).
  destruct (numeral n b (x / b)) as [|c k] eqn:En; intros Eq; simplify_list_eq; [|by eapply IH].
  pose proof (numeral_value n b (x / b) Hb Hy) as Hv. rewrite En in Hv. cbn in Hv.
  intros E0. apply E. rewrite (Z.div_mod x b) by lia. lia.
Qed.

Lemma numeral_length n b x : (length (numeral n b x) <= n)%nat.
Proof.
  revert x. induction n as [|n IH]; intros x; cbn; [lia|]. destruct (x =? 0); cbn; [lia|]. rewrite length_app. cbn.
  specialize (IH (x / b)). lia.
Qed.

Lemma digits_of_fuel n b x : (n <= 64)%nat → 2 <= b → 0 <= x < b ^ Z.of_nat n → digits_of b x = numeral n b x.
Proof. intros Hn Hb Hx. by apply numeral_enough. Qed.

Lemma digits_of_range b x n : (n <= 64)%nat → 2 <= b → 0 <= x < b ^ Z.of_nat n → lenZ (digits_of b x) <= Z.of_nat n.
Proof. intros Hn Hb Hx. rewrite (digits_of_fuel n) by done. pose proof (numeral_length n b x). unfold lenZ. lia. Qed.

Section Digits.
Context (b x : Z) (Hb : 2 <= b) (Hx : 0 <= x < 18446744073709551616).

Lemma digits_fit : 0 <= x < b ^ Z.of_nat 64.
Proof. split; [lia|]. eapply Z.lt_le_trans; [apply Hx|]. apply (Z.pow_le_mono_l 2 b 64). lia. Qed.
Lemma digits_of_value : digits_value b (digits_of b x) = x.
Proof. apply numeral_value; [done|apply digits_fit]. Qed.
Lemma digits_of_digit : Forall (fun d => 0 <= d < b) (digits_of b x).
Proof. by apply numeral_digit. Qed.
Lemma digits_of_head d l : digits_of b x = d :: l → d ≠ 0.
Proof. apply numeral_head; [done|apply digits_fit]. Qed.
End Digits.

(** ** The loops of vfprintf.c *)

(** A loop that stores the last digit first. *)
Lemma store_digits_loop (g : nat → Z → list Z → list Z) (b : Z) (c : Z → Z) :
  (∀ x s, g O x s = s) →
  (∀ n x s, 0 <= x → g (S n) x s = if x =? 0 then s else g n (x / b) (c (x mod b) :: s)) →
  2 <= b → ∀ n x s, 0 <= x → g n x s = (c <$> numeral n b x) ++ s.
Proof.
  intros G0 GS Hb n. induction n as [|n IH]; intros x s Hx; [apply G0|]. rewrite GS by done. cbn.
  destruct (x =? 0); [done|]. rewrite IH by (apply Z.div_pos; lia). by rewrite fmap_app, <- app_assoc.
Qed.

Lemma digit_table lower d :
  lower = 0 ∨ lower = 32 → 0 <= d < 16 → Z.lor (nthZ xdigits d) lower = digit_char lower d.
Proof.
  intros Hl Hd. assert (d ∈ seqZ 0 16) as Hin by (apply elem_of_seqZ; lia). revert d Hd Hin.
  assert (Forall (fun d => Z.lor (nthZ xdigits d) lower = digit_char lower d) (seqZ 0 16)) as HF
    by (destruct Hl as [-> | ->]; repeat constructor).
  intros d _ Hin. by eapply Forall_forall in HF.
Qed.

Lemma fmap_digit_char c lower b l :
  (∀ d, 0 <= d < b → c d = digit_char lower d) → Forall (fun d => 0 <= d < b) l → c <$> l = digit_char lower <$> l.
Proof. intros Hc Hl. apply list_fmap_ext. intros i d Hd. apply Hc. by eapply Forall_lookup_1 in Hl. Qed.

(** A number of digits is enough. *)
Ltac fits :=
  lazymatch goal with
  | |- 0 <= ?x < ?k => let v := eval vm_compute in k in replace k with v by (vm_compute; reflexivity); lia
  | |- _ => lia
  end.

(** Each loop runs long enough for a number of 64 bits. *)
Section Formats.
Context (x : Z) (Hx : 0 <= x < 18446744073709551616).

Lemma fmt_x_digits lower : lower = 0 ∨ lower = 32 → fmt_x x lower = text_of lower 16 x.
Proof.
  intros Hl. unfold fmt_x. rewrite (store_digits_loop (fun n x s => fmt_x_loop n x lower s) 16 (fun d => Z.lor (nthZ xdigits d) lower));
    [|done| |lia|lia].
  - rewrite app_nil_r. unfold text_of. rewrite (digits_of_fuel 16 16 x) by fits.
    eapply fmap_digit_char; [|apply numeral_digit; lia]. intros d Hd. by apply digit_table.
  - intros n y s Hy. cbn [fmt_x_loop]. change (Z.land y 15) with (Z.land y (Z.ones 4)). rewrite Z.shiftr_div_pow2, Z.land_ones by lia. done.
Qed.

Lemma fmt_b_digits lower : lower = 0 ∨ lower = 32 → fmt_b x lower = text_of lower 2 x.
Proof.
  intros Hl. unfold fmt_b. rewrite (store_digits_loop (fun n x s => fmt_b_loop n x lower s) 2 (fun d => Z.lor (nthZ bdigits d) lower));
    [|done| |lia|lia].
  - rewrite app_nil_r. unfold text_of, digits_of. eapply fmap_digit_char; [|apply numeral_digit; lia].
    intros d Hd. assert (d = 0 ∨ d = 1) as [-> | ->] by lia; by destruct Hl as [-> | ->].
  - intros n y s Hy. cbn [fmt_b_loop]. change (Z.land y 1) with (Z.land y (Z.ones 1)). rewrite Z.shiftr_div_pow2, Z.land_ones by lia. done.
Qed.

Lemma fmt_o_digits : fmt_o x = text_of 0 8 x.
Proof.
  unfold fmt_o. rewrite (store_digits_loop fmt_o_loop 8 (fun d => 48 + d)); [|done| |lia|lia].
  - rewrite app_nil_r. unfold text_of. rewrite (digits_of_fuel 22 8 x) by fits.
    eapply fmap_digit_char; [|apply numeral_digit; lia]. intros d Hd. unfold digit_char. by rewrite (proj2 (Z.ltb_lt d 10)) by lia.
  - intros n y s Hy. cbn [fmt_o_loop]. change (Z.land y 7) with (Z.land y (Z.ones 3)). rewrite Z.shiftr_div_pow2, Z.land_ones by lia. done.
Qed.

(** The first loop of [fmt_u] leaves a number of 32 bits. *)
Lemma fmt_u_wide_spec n y s :
  0 <= y < 10 ^ Z.of_nat n * 4294967296 →
  let r := fmt_u_wide n y s in
  0 <= r.1 <= 4294967295 ∧
  ((fun d => 48 + d) <$> numeral 10 10 r.1) ++ r.2 = ((fun d => 48 + d) <$> numeral (n + 10) 10 y) ++ s.
Proof.
  revert y s. induction n as [|n IH]; intros y s Hy; cbn [fmt_u_wide].
  - cbn in Hy. split; [cbn; lia|done].
  - destruct (4294967295 <? y) eqn:E; b2p.
    + rewrite Nat2Z.inj_succ, Z.pow_succ_r in Hy by lia.
      destruct (IH (y / 10) (48 + y mod 10 :: s)) as [H1 H2]; [split; [apply Z.div_pos; lia|apply Z.div_lt_upper_bound; lia]|].
      split; [done|]. rewrite H2. change (S n + 10)%nat with (S (n + 10)). cbn [numeral].
      rewrite (proj2 (Z.eqb_neq y 0)) by lia. by rewrite fmap_app, <- app_assoc.
    + split; [cbn; lia|]. cbn [fst snd]. rewrite (numeral_enough 10 (S n + 10) 10 y) by fits. done.
Qed.

Lemma fmt_u_digits : fmt_u x = text_of 0 10 x.
Proof.
  unfold fmt_u. destruct (fmt_u_wide_spec 20 x []) as [H1 H2]; [fits|]. destruct (fmt_u_wide 20 x []) as [y s].
  cbn [fst snd] in *. rewrite (store_digits_loop fmt_u_loop 10 (fun d => 48 + d)) by (done || lia). rewrite H2, app_nil_r.
  unfold text_of. rewrite (digits_of_fuel 30 10 x) by fits.
  eapply fmap_digit_char; [|apply numeral_digit; lia]. intros d Hd. unfold digit_char. by rewrite (proj2 (Z.ltb_lt d 10)) by lia.
Qed.
End Formats.

(** ** Reading digits back *)

Lemma digit_char_value lower b d :
  lower = 0 ∨ lower = 32 → b <= 16 → 0 <= d < b → digit_value (digit_char lower d) = Some d.
Proof.
  intros Hl Hb Hd. unfold digit_char, digit_value, c_digit, c_lower, c_upper, between.
  destruct (d <? 10) eqn:E; b2p.
  - rewrite (proj2 (Z.leb_le 48 _)), (proj2 (Z.leb_le _ 57)) by lia. cbn. f_equal. lia.
  - destruct Hl as [-> | ->]; cbn [Z.eqb].
    + rewrite (proj2 (Z.leb_gt (55 + d) 57)), (proj2 (Z.leb_gt 97 (55 + d))), (proj2 (Z.leb_le 65 _)), (proj2 (Z.leb_le _ 90)) by lia.
      rewrite andb_false_r. cbn. f_equal. lia.
    + rewrite (proj2 (Z.leb_gt (87 + d) 57)), (proj2 (Z.leb_le 97 (87 + d))), (proj2 (Z.leb_le (87 + d) 122)) by lia.
      rewrite andb_false_r. cbn. f_equal. lia.
Qed.

Lemma take_digits_text lower b ds :
  lower = 0 ∨ lower = 32 → b <= 16 → Forall (fun d => 0 <= d < b) ds → take_digits b (digit_char lower <$> ds) = ds.
Proof.
  intros Hl Hb. induction 1 as [|d ds Hd _ IH]; [done|]. cbn. rewrite (digit_char_value lower b) by done.
  rewrite (proj2 (Z.ltb_lt d b)) by lia. by rewrite IH.
Qed.

Lemma digit_char_range lower d : lower = 0 ∨ lower = 32 → 0 <= d < 16 → 48 <= digit_char lower d <= 102.
Proof. intros [-> | ->] Hd; unfold digit_char; destruct (d <? 10) eqn:E; b2p; cbn [Z.eqb]; lia. Qed.

(** A numeral is parsed as its digits. *)
Lemma parse_text lower b x :
  lower = 0 ∨ lower = 32 → 2 <= b <= 16 → 0 <= x < 18446744073709551616 →
  parse_number b (text_of lower b x) = (false, b, digits_of b x, 0).
Proof.
  intros Hl Hb Hx. unfold parse_number, text_of. pose proof (digits_of_digit b x ltac:(lia)) as HF.
  pose proof (digits_of_head b x ltac:(lia) Hx) as Hh. pose proof (take_digits_text lower b _ Hl ltac:(lia) HF) as Ht.
  destruct (digits_of b x) as [|d ds] eqn:Ed; [cbn; by rewrite (proj2 (Z.eqb_neq b 0)) by lia|].
  specialize (Hh d ds eq_refl). inversion HF as [|? ? Hd HF']; subst.
  rewrite fmap_cons in *. set (c := digit_char lower d) in *.
  assert (49 <= c <= 102) as Hc.
  { unfold c, digit_char. destruct (d <? 10) eqn:E; b2p; [lia|]. destruct Hl as [-> | ->]; cbn [Z.eqb]; lia. }
  cbn [skip_blanks]. unfold is_blank, between. rewrite (proj2 (Z.eqb_neq c 32)), (proj2 (Z.leb_gt c 13)), andb_false_r by lia. cbn [orb].
  cbn [take_sign]. rewrite (proj2 (Z.eqb_neq c 45)), (proj2 (Z.eqb_neq c 43)) by lia.
  assert (take_prefix b (c :: (digit_char lower <$> ds)) = (b, c :: (digit_char lower <$> ds))) as ->.
  { unfold take_prefix. rewrite (proj2 (Z.eqb_neq b 0)), (proj2 (Z.eqb_neq c 48)), andb_false_r by lia.
    by destruct (digit_char lower <$> ds). }
  rewrite Ht. f_equal. lia.
Qed.

(** C28: the digits that the conversions of [printf] store for a 64-bit number, in
    decimal, octal, hexadecimal in upper or lower case and binary, are read back as
    that number by [strtoumax], which stops behind them. *)
Theorem fmt_roundtrip σ p ptr x text b :
  0 <= x < 18446744073709551616 →
  (text, b) ∈ [(fmt_u x, 10); (fmt_o x, 8); (fmt_x x 0, 16); (fmt_x x 32, 16); (fmt_b x 32, 2)] →
  cstr (mem σ) p text → 0 < p → p + lenZ text < 4294967296 →
  ptr = NULL ∨ (ptr mod 4 = 0 ∧ mapped (mem σ) ptr 4) →
  strtoumax p ptr b σ = Ok (x, store_stop σ ptr (p + lenZ text)).
Proof.
  intros Hx Hin Hs Hp Hlen Hptr.
  assert (∃ lower, (lower = 0 ∨ lower = 32) ∧ 2 <= b <= 16 ∧ text = text_of lower b x) as (lower & Hl & Hb & ->).
  { rewrite !elem_of_cons, elem_of_nil in Hin. destruct Hin as [E|[E|[E|[E|[E|[]]]]]]; injection E as -> ->.
    - exists 0. rewrite fmt_u_digits by done. split_and!; auto; lia.
    - exists 0. rewrite fmt_o_digits by done. split_and!; auto; lia.
    - exists 0. rewrite fmt_x_digits by auto. split_and!; auto; lia.
    - exists 32. rewrite fmt_x_digits by auto. split_and!; auto; lia.
    - exists 32. rewrite fmt_b_digits by auto. split_and!; auto; lia. }
  assert (digits_value b (digits_of b x) = x) as Hv by (apply digits_of_value; lia).
  assert (lenZ (text_of lower b x) = lenZ (digits_of b x)) as HL by (unfold lenZ, text_of; by rewrite length_fmap).
  apply wp_eq. eapply wp_mono; [apply (strto_spec u64 (fun _ => UINTMAX_MAX) true UINTMAX_MAX u64_wrap σ p ptr (text_of lower b x) b); [done|lia|lia|lia|lia| |done]|].
  - unfold number_value. rewrite parse_text by done. rewrite Hv. unfold UINTMAX_MAX. lia.
  - intros r τ [-> ->]. unfold number_result, number_stop. rewrite parse_text, Hv, HL by done.
    destruct (digits_of b x); [by subst|]. by rewrite Z.add_0_l.
Qed.

Lemma fmt_roundtrip_witness :
  let σ := CState (write_bytes ∅ 100 [100; 101; 97; 100; 98; 101; 101; 102; 49; 0]) 0 in
  fmt_x 59774856945 32 = [100; 101; 97; 100; 98; 101; 101; 102; 49] ∧ strtoumax 100 NULL 16 σ = Ok (59774856945, σ).
Proof.
  intros σ. split; [vm_compute; reflexivity|].
  apply (fmt_roundtrip σ 100 NULL 59774856945 [100; 101; 97; 100; 98; 101; 101; 102; 49] 16); [lia| | |lia|done|by left].
  - apply elem_of_cons. right. apply elem_of_cons. right. apply elem_of_cons. right. apply elem_of_cons. left. vm_compute. reflexivity.
  - apply cstrb_sound. vm_compute. reflexivity.
Defined.
