(* ===== verification/PrintfParse.v ===== *)
(** * Formatted output: reading a format

    A conversion specification as the C standard describes it, with its text, and
    what the parser of [printf_core] makes of that text. *)

From stdpp Require Import base numbers gmap list.
From S2P Require Import Prelude CMem Words Ctype StrScan StrToNum Fds Stdio StdioSpec Printf PrintfDigits.
Open Scope Z_scope.

(** ** Conversion specifications *)

(** A width or a precision: a number, or an argument. *)
Inductive amount := Given (n : Z) | Star.

(** [%], flags, width, precision, and a length modifier with the conversion. *)
Record directive := Directive {
  dr_flags : list Z; dr_width : amount; dr_precision : option amount; dr_type : list Z
}.

Definition amount_text (a : amount) : list Z :=
  match a with Given n => text_of 0 10 n | Star => [42] end.
Definition precision_text (p : option amount) : list Z :=
  match p with None => [] | Some a => 46 :: amount_text a end.
Definition directive_text (d : directive) : list Z :=
  dr_flags d ++ amount_text (dr_width d) ++ precision_text (dr_precision d) ++ dr_type d.

(** The characters of flags. *)
Definition flag_chars : list Z := [32; 35; 39; 43; 45; 48].
Definition flags_of (fs : list Z) : Z := foldl (fun fl c => Z.lor fl (Z.shiftl 1 (c - 32))) 0 fs.
Definition given (a : amount) : Prop := match a with Given n => 0 <= n <= INT_MAX_ | Star => True end.

(** The state machine on a text. *)
Fixpoint run_states (st : Z) (l : list Z) : option (Z * Z) :=
  match l with
  | [] => None
  | c :: l =>
      if OOB c then None
      else
        let st' := state_entry st c in
        if u32 (st' - 1) <? _STOP then run_states st' l
        else if st' =? 0 then None else match l with [] => Some (st', st) | _ => None end
  end.

(** A width and a precision, with the arguments that are left. *)
Definition take_word (ap : list va) : option (Z * list va) :=
  match ap with VWord w :: ap => Some (s32 (u32 w), ap) | _ => None end.
Definition take_width (fl : Z) (a : amount) (ap : list va) : option (Z * Z * list va) :=
  match a with
  | Given n => Some (n, fl, ap)
  | Star => '(w, ap) ← take_word ap; Some (if w <? 0 then (s32 (- w), Z.lor fl LEFT_ADJ, ap) else (w, fl, ap))
  end.
Definition take_precision (p : option amount) (ap : list va) : option (Z * bool * list va) :=
  match p with
  | None => Some (-1, false, ap)
  | Some (Given n) => Some (n, true, ap)
  | Some Star => '(p, ap) ← take_word ap; Some (p, 0 <=? p, ap)
  end.

(** ** Characters of the format *)

Lemma digit_class c : 0 <= c < 256 → digit c = c_digit c.
Proof. intros Hc. unfold digit. apply (class_of c); [lia|]. unfold class_spec. do 2 right. left. Qed.

Definition is_flag (c : Z) : bool := bool_decide (c ∈ flag_chars).
Lemma flag_spec c : 0 <= c < 256 → (u32 (c - 32) <? 32) && has FLAGMASK (Z.shiftl 1 (c - 32)) = is_flag c.
Proof.
  intros Hc. apply eqb_prop.
  apply (forallb_seqZ (fun c => eqb ((u32 (c - 32) <? 32) && has FLAGMASK (Z.shiftl 1 (c - 32))) (is_flag c)) 0 256); [|lia].
  vm_compute. reflexivity.
Qed.

Section Parse.
Context `{Dos}.
Implicit Types (σ τ : sstate).

Lemma wp_char σ s l Q : cstr (mem (sc σ)) s l → Q (hd0 l) σ → wp (char_at s) Q σ.
Proof. intros Hs HQ. apply wp_in_memory. eapply wp_load_hd; [done|]. by rewrite with_sc_same. Qed.

Lemma cstr_suffix m s l k : cstr m s (l ++ k) → cstr m (s + lenZ l) k.
Proof.
  revert s. induction l as [|c l IH]; intros s Hs; [by rewrite Z.add_0_r|].
  rewrite lenZ_cons. replace (s + (1 + lenZ l)) with (s + 1 + lenZ l) by lia. apply IH. by eapply cstr_tail.
Qed.

Lemma hd0_range m s l : cstr m s l → 0 <= hd0 l < 256.
Proof. intros Hs. destruct l as [|c l]; cbn; [lia|]. apply cstr_char in Hs. lia. Qed.

(** A loop that reads the characters [l] of a format, one in each round: the state
    after the characters [k] is [I k]. *)
Lemma wp_scan {A B} (body : A → M sstate (A + B)) (I : list Z → A → Prop) σ s l rest a Q :
  cstr (mem (sc σ)) s (l ++ rest) → lenZ l < 4294967296 → I [] a →
  (∀ k c l' a, l = k ++ c :: l' → I k a → cstr (mem (sc σ)) (s + lenZ k) (c :: l' ++ rest) →
    wp (body a) (fun r τ => ∃ a', r = inl a' ∧ τ = σ ∧ I (k ++ [c]) a') σ) →
  (∀ a, I l a → cstr (mem (sc σ)) (s + lenZ l) rest → wp (body a) (fun r τ => ∃ b, r = inr b ∧ Q b τ) σ) →
  wp (loop body a) Q σ.
Proof.
  intros Hs Hl HI Hstep Hend.
  apply (wp_loop_ghost body (fun k a τ => τ = σ ∧ I k a ∧ ∃ l', l = k ++ l') Q (fun k => lenZ l - lenZ k)) with (g := []).
  - intros k a' τ (-> & Hk & l' & ->). assert (cstr (mem (sc σ)) (s + lenZ k) (l' ++ rest)) as Hc by (apply cstr_suffix; by rewrite app_assoc).
    destruct l' as [|c l'].
    + rewrite app_nil_r in *. eapply wp_mono; [by apply Hend|]. by intros r τ (b & -> & HQ).
    + eapply wp_mono; [by eapply Hstep|]. intros r τ (a1 & -> & -> & H1). exists (k ++ [c]).
      rewrite (lenZ_app k [c]). change (lenZ [c]) with 1. split; [|lia]. split_and!; try done. exists l'. by rewrite <- app_assoc.
  - split_and!; try done. by exists l.
  - intros k a' τ (_ & _ & l' & ->). rewrite lenZ_app. pose proof (lenZ_nonneg l'). lia.
  - change (lenZ []) with 0. lia.
Qed.

(** *** Flags *)

Lemma flags_of_snoc k c : flags_of (k ++ [c]) = Z.lor (flags_of k) (Z.shiftl 1 (c - 32)).
Proof. unfold flags_of. by rewrite foldl_app. Qed.

Lemma read_flags_spec σ s fs rest Q :
  cstr (mem (sc σ)) s (fs ++ rest) → lenZ fs < 4294967296 → Forall (fun c => c ∈ flag_chars) fs → is_flag (hd0 rest) = false →
  Q (flags_of fs, s + lenZ fs) σ → wp (read_flags s) Q σ.
Proof.
  intros Hs Hl Hf Hr HQ. unfold read_flags.
  apply (wp_scan _ (fun k '(q, fl) => q = s + lenZ k ∧ fl = flags_of k) σ s fs rest); [done|done|split; [change (lenZ []) with 0; lia|done]|..].
  - intros k c l' [q fl] E [-> ->] Hc. wp_step. eapply wp_char; [done|]. pose proof (hd0_range _ _ _ Hc) as Hb. cbn [hd0] in *.
    rewrite flag_spec by done. assert (c ∈ flag_chars) as Hin by (rewrite E in Hf; apply Forall_app in Hf as [_ Hf]; by inversion Hf).
    unfold is_flag. rewrite bool_decide_true by done. wp_step. eexists. do 2 (split; [done|]).
    rewrite flags_of_snoc, lenZ_app. change (lenZ [c]) with 1. split; [lia|done].
  - intros [q fl] [-> ->] Hc. wp_step. eapply wp_char; [done|]. rewrite flag_spec, Hr by (by eapply hd0_range). wp_step. by eexists.
Qed.

(** *** Numbers *)

(** What [getint] makes of the value of the digits. *)
Definition clamp (v : Z) : Z := if v <=? INT_MAX_ then v else -1.

Lemma clamp_step v d :
  0 <= v → 0 <= d <= 9 →
  clamp (10 * v + d) =
  if (INT_MAX_ / 10 <? u32 (clamp v)) || (INT_MAX_ - 10 * clamp v <? d) then -1 else 10 * clamp v + d.
Proof.
  intros Hv Hd. unfold clamp, INT_MAX_. change (2147483647 / 10) with 214748364.
  destruct (v <=? 2147483647) eqn:E1; b2p.
  - unfold u32. rewrite Z.mod_small by lia.
    destruct (10 * v + d <=? 2147483647) eqn:E2, (214748364 <? v) eqn:E3, (2147483647 - 10 * v <? d) eqn:E4; b2p; cbn; lia.
  - rewrite (proj2 (Z.leb_gt (10 * v + d) _)) by lia. done.
Qed.

Definition text_value (l : list Z) : Z := digits_value 10 ((fun c => c - 48) <$> l).

Lemma getint_spec σ s l rest Q :
  cstr (mem (sc σ)) s (l ++ rest) → lenZ l < 4294967296 → Forall (fun c => c_digit c = true) l →
  c_digit (hd0 rest) = false → Q (clamp (text_value l), s + lenZ l) σ → wp (getint s) Q σ.
Proof.
  intros Hs Hl Hf Hr HQ. unfold getint.
  apply (wp_scan _ (fun k '(q, i) => q = s + lenZ k ∧ i = clamp (text_value k)) σ s l rest); [done|done|split; [change (lenZ []) with 0; lia|done]|..].
  - intros k c l' [q i] E [-> ->] Hc. rewrite E in Hf. apply Forall_app in Hf as [Hk Hd]. inversion Hd as [|? ? Hd1 _]; subst.
    wp_step. eapply wp_char; [done|]. pose proof (hd0_range _ _ _ Hc) as Hb. cbn [hd0] in *. rewrite digit_class, Hd1 by done.
    wp_step. eexists. do 2 (split; [done|]). split; [rewrite lenZ_app; change (lenZ [c]) with 1; lia|].
    unfold text_value. rewrite fmap_app. cbn [fmap list_fmap]. rewrite digits_value_snoc. symmetry. apply clamp_step.
    + apply digits_value_nonneg; [lia|]. apply Forall_fmap. eapply Forall_impl; [exact Hk|].
      intros x Hx. unfold c_digit, between in Hx. b2p. cbn. lia.
    + unfold c_digit, between in Hd1. b2p. lia.
  - intros [q i] [-> ->] Hc. wp_step. eapply wp_char; [done|]. rewrite digit_class, Hr by (by eapply hd0_range). wp_step. by eexists.
Qed.

(** The numeral of a number is its digits. *)
Lemma number_text n :
  0 <= n < 18446744073709551616 → Forall (fun c => c_digit c = true) (text_of 0 10 n) ∧ text_value (text_of 0 10 n) = n.
Proof.
  intros Hn. unfold text_of, text_value. pose proof (digits_of_digit 10 n ltac:(lia)) as HF. split.
  - apply Forall_fmap. eapply Forall_impl; [exact HF|]. intros d [Hd1 Hd2]. unfold compose, digit_char, c_digit, between.
    rewrite (proj2 (Z.ltb_lt d 10)) by lia. apply andb_true_intro. split; apply Z.leb_le; lia.
  - rewrite <- list_fmap_compose. rewrite (list_fmap_ext _ id); [rewrite list_fmap_id; apply digits_of_value; lia|].
    intros i d Hd. eapply Forall_lookup_1 in HF; [|done]. unfold compose, digit_char. rewrite (proj2 (Z.ltb_lt d 10)) by lia. cbn. lia.
Qed.

Lemma text_of_hd0 n rest :
  0 <= n < 18446744073709551616 → hd0 (text_of 0 10 n ++ rest) = hd0 rest ∨ 49 <= hd0 (text_of 0 10 n ++ rest) <= 57.
Proof.
  intros Hn. unfold text_of. pose proof (digits_of_head 10 n ltac:(lia) Hn) as Hh. pose proof (digits_of_digit 10 n ltac:(lia)) as HF.
  destruct (digits_of 10 n) as [|d ds]; [by left|right]. specialize (Hh d ds eq_refl). inversion HF; subst.
  cbn [fmap list_fmap app hd0]. unfold digit_char. rewrite (proj2 (Z.ltb_lt d 10)) by lia. lia.
Qed.

Lemma text_of_length n : 0 <= n <= INT_MAX_ → lenZ (text_of 0 10 n) <= 10.
Proof.
  intros Hn. unfold text_of, lenZ. rewrite length_fmap. apply (digits_of_range 10 n 10); [lia|lia|]. unfold INT_MAX_ in Hn. fits.
Qed.

(** A letter begins the type. *)
Definition letter (c : Z) : Prop := 65 <= c <= 122.

Lemma run_states_letter st l r : run_states st l = Some r → 0 <= hd0 l < 256 → letter (hd0 l) ∧ l ≠ [].
Proof.
  destruct l as [|c l]; [done|]. cbn [run_states hd0]. destruct (OOB c) eqn:E; [done|]. intros _ Hc. split; [|done].
  unfold OOB, u32 in E. b2p. unfold letter. destruct (Z_lt_le_dec c 65).
  - rewrite <- (Z.mod_add _ 1), Z.mod_small in E by lia. lia.
  - rewrite Z.mod_small in E by lia. lia.
Qed.

Lemma c_digit_false c : 57 < c ∨ c < 48 → c_digit c = false.
Proof. intros Hc. unfold c_digit, between. apply andb_false_iff. rewrite !Z.leb_gt. lia. Qed.

(** *** The position of an argument *)

Lemma positional_spec σ s l Q :
  cstr (mem (sc σ)) s l → (c_digit (hd0 l) = true → hd0 (tail l) ≠ 36) → Q false σ → wp (positional s) Q σ.
Proof.
  intros Hs Hl HQ. unfold positional. wp_step. eapply wp_char; [done|]. rewrite digit_class by (by eapply hd0_range).
  destruct (c_digit (hd0 l)) eqn:E; [|by wp_step]. destruct l as [|c l]; [done|].
  wp_step. eapply wp_char; [by eapply cstr_tail|]. wp_step. cbn [tail] in Hl. by rewrite (proj2 (Z.eqb_neq _ _) (Hl eq_refl)).
Qed.

Lemma positional_letter σ s l Q :
  cstr (mem (sc σ)) s l → letter (hd0 l) ∨ hd0 l = 46 → Q false σ → wp (positional s) Q σ.
Proof.
  intros Hs Hl. apply (positional_spec _ _ l); [done|]. rewrite c_digit_false; [done|]. unfold letter in Hl. lia.
Qed.

(** *** Width and precision *)

Lemma va_word_spec σ ap w ap' Q :
  take_word ap = Some (w, ap') → (∀ u, s32 u = w → Q (u, ap') σ) → wp (va_word ap) Q σ.
Proof.
  intros Ht HQ. destruct ap as [|[u| |] ap]; try done. cbn in Ht. injection Ht as <- <-. unfold va_word. wp_step. by apply HQ.
Qed.

Lemma getint_number σ s n rest Q :
  cstr (mem (sc σ)) s (text_of 0 10 n ++ rest) → 0 <= n <= INT_MAX_ → c_digit (hd0 rest) = false →
  Q (n, s + lenZ (text_of 0 10 n)) σ → wp (getint s) Q σ.
Proof.
  intros Hs Hn Hr HQ. pose proof (text_of_length n Hn). destruct (number_text n) as [Hd Hv]; [unfold INT_MAX_ in Hn; lia|].
  eapply getint_spec; [done|lia|done|done|]. rewrite Hv. unfold clamp. by rewrite (proj2 (Z.leb_le n _)) by lia.
Qed.

Lemma read_width_spec σ s a rest fl ap w fl' ap' Q :
  cstr (mem (sc σ)) s (amount_text a ++ rest) → given a → letter (hd0 rest) ∨ hd0 rest = 46 →
  take_width fl a ap = Some (w, fl', ap') →
  Q (inr (w, fl', s + lenZ (amount_text a), false, ap')) σ → wp (read_width s fl false ap) Q σ.
Proof.
  intros Hs Ha Hr Hw HQ. assert (c_digit (hd0 rest) = false) as Hd by (apply c_digit_false; unfold letter in Hr; lia).
  unfold read_width. wp_step. eapply wp_char; [done|]. destruct a as [n|]; cbn [amount_text take_width] in *.
  - simplify_eq. unfold given, INT_MAX_ in Ha. rewrite (proj2 (Z.eqb_neq _ _)).
    + wp_step. eapply getint_number; [done|done|done|]. cbn beta iota zeta. rewrite (proj2 (Z.ltb_ge w 0)) by lia. by wp_step.
    + destruct (text_of_hd0 w rest) as [-> |]; unfold letter in Hr; lia.
  - wp_test. wp_step. cbn [app] in Hs. apply cstr_tail in Hs. eapply positional_letter; [done|done|]. cbn [negb].
    destruct (take_word ap) as [[v ap1]|] eqn:Et; [|done]. cbn in Hw. injection Hw as Hw.
    wp_step. eapply va_word_spec; [done|]. intros u Hu. cbn beta iota zeta. rewrite Hu.
    change (lenZ [42]) with 1 in HQ. destruct (v <? 0); wp_step; by simplify_eq.
Qed.

Lemma read_precision_spec σ s p rest ap p' xp ap' Q :
  cstr (mem (sc σ)) s (precision_text p ++ rest) → (∀ a, p = Some a → given a) → letter (hd0 rest) →
  take_precision p ap = Some (p', xp, ap') →
  Q (inr (p', xp, s + lenZ (precision_text p), ap')) σ → wp (read_precision s false ap) Q σ.
Proof.
  intros Hs Ha Hr Hp HQ. assert (c_digit (hd0 rest) = false) as Hd by (apply c_digit_false; unfold letter in Hr; lia).
  unfold read_precision. wp_step. eapply wp_char; [done|]. destruct p as [a|]; cbn [precision_text app hd0] in *.
  2: { rewrite (proj2 (Z.eqb_neq _ _)) by (unfold letter in Hr; lia). cbn in Hp. simplify_eq. change (lenZ []) with 0 in HQ.
       rewrite Z.add_0_r in HQ. by wp_step. }
  wp_test. apply cstr_tail in Hs. rewrite lenZ_cons in HQ. wp_step. eapply wp_char; [done|].
  destruct a as [n|]; cbn [amount_text take_precision] in *.
  - simplify_eq. specialize (Ha _ eq_refl). unfold given, INT_MAX_ in Ha. rewrite (proj2 (Z.eqb_neq _ _)).
    + wp_step. eapply getint_number; [done|done|done|]. cbn beta iota zeta. wp_step. by rewrite <- Z.add_assoc.
    + destruct (text_of_hd0 p' rest) as [-> |]; unfold letter in Hr; lia.
  - cbn [app hd0] in *. wp_test. apply cstr_tail in Hs. wp_step. rewrite <- Z.add_assoc in Hs. eapply positional_letter; [exact Hs|by left|].
    cbn [negb]. destruct (take_word ap) as [[v ap1]|] eqn:Et; [|done]. cbn in Hp. injection Hp as <- <- <-.
    wp_step. eapply va_word_spec; [done|]. intros u Hu. cbn beta iota zeta. rewrite Hu. wp_step. done.
Qed.

(** *** The type *)

Lemma read_type_spec σ s l rest st ps Q :
  cstr (mem (sc σ)) s (l ++ rest) → lenZ l < 4294967296 → run_states _BARE l = Some (st, ps) →
  Q (inr (st, ps, s + lenZ l)) σ → wp (read_type s) Q σ.
Proof.
  intros Hs Hl Hr HQ. unfold read_type.
  apply (wp_loop_ghost _ (fun k '(q, st') τ => τ = σ ∧ q = s + lenZ l - lenZ k ∧ run_states st' k = Some (st, ps) ∧
    cstr (mem (sc σ)) q (k ++ rest)) Q (fun k => lenZ k)) with (g := l).
  - intros k [q st'] τ (-> & -> & Hk & Hc). wp_step. eapply wp_char; [done|]. destruct k as [|c k]; [done|]. cbn [app hd0] in *.
    cbn [run_states] in Hk. apply cstr_tail in Hc. rewrite lenZ_cons in *. destruct (OOB c); [done|]. cbv zeta in *.
    destruct (u32 (state_entry st' c - 1) <? _STOP).
    + wp_step. exists k. split; [|lia]. split; [done|]. split; [lia|]. by split.
    + destruct (state_entry st' c =? 0); [done|]. destruct k; [|done]. simplify_eq. wp_step.
      change (lenZ []) with 0. by replace (s + lenZ l - (1 + 0) + 1) with (s + lenZ l) by lia.
  - split; [done|]. split; [lia|]. by split.
  - intros k a τ _. apply lenZ_nonneg.
  - lia.
Qed.
End Parse.

(** [getint] reads a decimal number of any length from the format and stops behind
    it; its value is returned if an int can hold it, and -1 otherwise. *)
Theorem getint_clamps `{Dos} σ s l rest :
  cstr (mem (sc σ)) s (l ++ rest) → lenZ l < 4294967296 → Forall (fun c => c_digit c = true) l → c_digit (hd0 rest) = false →
  getint s σ = Ok ((if text_value l <=? INT_MAX_ then text_value l else -1, s + lenZ l), σ).
Proof. intros Hs Hl Hd Hr. apply wp_eq. by eapply getint_spec. Qed.

(** "2147483648." is one too large. *)
Lemma getint_clamps_witness :
  let l := [50; 49; 52; 55; 52; 56; 51; 54; 52; 56] in
  let σ : sstate (H := disk 100) := SState (H := disk 100) (CState (write_bytes ∅ 100 (l ++ [46; 0])) 0) [] [] false in
  text_value l = 2147483648 ∧ getint 100 σ = Ok (-1, 110, σ).
Proof.
  intros l σ. split; [reflexivity|]. apply (getint_clamps (H := disk 100) σ 100 l [46]).
  - apply cstrb_sound. vm_compute. reflexivity.
  - reflexivity.
  - repeat constructor.
  - reflexivity.
Defined.
