(* ===== verification/PrintfOut.v ===== *)
(** * Formatted output: writing to a stream

    [out] does not look at the result of [__fputc].  What remains of a stream after
    an error ([printable]) is enough for the next call, so that everything that is
    printed arrives in the file or the error indicator is set. *)

From stdpp Require Import base numbers gmap list.
From S2P Require Import Prelude CMem Words Fds Stdio StdioSpec StdioWrite StrToNum Printf.
Open Scope Z_scope.
#[local] Set Warnings "-clear-no-such-hyp".

Section Out.
Context `{Dos}.
Implicit Types (σ τ υ : sstate) (f g : iob) (d e : fd) (h : handle).

(** ** A stream after an error *)

(** The descriptor is open on a file; its cached position may be wrong. *)
Definition open_fd d : Prop := ∃ h, regular (set_fd_Position (position h) d) h.

Record printable σ (i : Z) f d : Prop := {
  pr_iob : iobs σ !! Z.to_nat i = Some (Some f);
  pr_fd : 0 <= iob_Descriptor f < lenZ (fds σ) ∧ fds σ !! Z.to_nat (iob_Descriptor f) = Some (Some d);
  pr_open : open_fd d;
  pr_wf : wf_iob f 0
}.

Lemma stream_printable σ i f d h : stream σ i f d h → iob_BufferReadBytes f = 0 → printable σ i f d.
Proof.
  intros [H1 (H2 & H3 & H4) H5] E. split; [done|done| |destruct H5; split; try done; lia].
  exists h. destruct H4 as [R1 R2 R3 R4 R5]. by split.
Qed.

(** What the calls keep. *)
Definition keeps σ i f d (P : iob → Prop) τ : Prop :=
  framed i (iob_Descriptor f) σ τ ∧ ∃ g e, printable τ i g e ∧ same_stream f d g e ∧ P g ∧
    (Z.testbit (iob_Flags f) 6 = true → Z.testbit (iob_Flags g) 6 = true).

Lemma keeps_trans σ τ υ i f d g e (P : iob → Prop) :
  framed i (iob_Descriptor f) σ τ → same_stream f d g e → (Z.testbit (iob_Flags f) 6 = true → Z.testbit (iob_Flags g) 6 = true) →
  keeps τ i g e P υ → keeps σ i f d P υ.
Proof.
  intros F SS Hb [F' (g' & e' & H1 & H2 & H3 & H4)]. rewrite (ss_descriptor _ _ _ _ SS) in F'. split; [by eapply framed_trans|].
  exists g', e'. split_and!; [done|by eapply same_stream_trans|done|auto].
Qed.

Section Access.
Context {σ : sstate} {i : Z} {f : iob} {d : fd} (HP : printable σ i f d).

Lemma printable_get Q : Q f σ → wp (get_iob i) Q σ.
Proof. unfold wp, get_iob. by rewrite (pr_iob _ _ _ _ HP). Qed.

Lemma printable_put g :
  iob_Descriptor g = iob_Descriptor f → wf_iob g 0 → printable (put_iob i g σ) i g d.
Proof.
  intros Ed Hw. destruct HP as [H1 H2 H3 H4]. split; [|by rewrite Ed|done|done].
  cbn. apply list_lookup_insert_eq. by eapply lookup_lt_Some.
Qed.

Lemma keeps_put g (P : iob → Prop) :
  same_stream f d g d → wf_iob g 0 → P g → (Z.testbit (iob_Flags f) 6 = true → Z.testbit (iob_Flags g) 6 = true) →
  keeps σ i f d P (put_iob i g σ).
Proof.
  intros SS Hw HPg Hb. split; [apply put_iob_framed|]. exists g, d. split_and!; try done. apply printable_put; [apply SS|done].
Qed.

Lemma printable_fd Q : Q (Some (iob_Descriptor f)) σ → wp (iob_fd f) Q σ.
Proof.
  intros HQ. destruct (pr_fd _ _ _ _ HP) as (Hp & E). destruct (pr_open _ _ _ _ HP) as (h & Hr).
  unfold iob_fd. wp_step. wp_step. rewrite E.
  unfold __get_file_descriptor, get_file_descriptor. wp_step. wp_step.
  rewrite (proj2 (Z.ltb_ge _ _)), (proj2 (Z.leb_gt _ _)) by lia. cbn. rewrite E.
  change (fd_Flags d) with (fd_Flags (set_fd_Position (position h) d)). change (fd_Original d) with (fd_Original (set_fd_Position (position h) d)).
  unfold FDF_IN_USE. rewrite FLAG_IS_CLEAR_bit, (rg_in_use _ _ Hr), (rg_original _ _ Hr) by lia. by apply wp_ret.
Qed.

(** The new state of the descriptor. *)
Definition refiled d' : Prop := open_fd d' ∧ fd_Flags d' = fd_Flags d.

Lemma printable_write data Q :
  0 < lenZ data → Forall is_byte data →
  (∀ r (er : Z) x d', refiled d' → (r = EOF → er ≠ OK) →
     Q (r, er, x) (with_fds (<[Z.to_nat (iob_Descriptor f) := Some d']> (fds σ)) σ)) →
  wp (iob_action_write f data) Q σ.
Proof.
  intros Hn Hb HQ. unfold iob_action_write. wp_step. apply printable_fd. unfold fd_action_write.
  destruct (pr_fd _ _ _ _ HP) as (Hp & E). destruct (pr_open _ _ _ _ HP) as (h & Hr).
  set (p := iob_Descriptor f) in *. wp_step. unfold wp at 1, get_fd. rewrite E.
  pose proof (rg_file _ _ Hr) as Ef. pose proof (regular_is_file _ _ Hr) as Ei. cbn in Ef, Ei. rewrite Ef, Ei.
  assert (∀ k, k ∈ [2; 5; 15; 16; 17; 18; 19; 22] → FLAG_IS_SET (fd_Flags d) (2 ^ k) = false) as Hbit
    by (intros k Hk; by apply (bit_false _ _ k Hr)).
  unfold FDF_APPEND. rewrite Hbit by set_solver. wp_step. wp_step. destruct (dos_Write h data) as [[r x] h'].
  wp_step. unfold wp at 1, get_fd. rewrite E. wp_step. apply wp_modify.
  assert (refiled (set_fd_File h' d)) as HR by (split; [|done]; exists h'; destruct Hr; by split).
  destruct (r =? EOF) eqn:Er; b2p.
  - unfold FDF_PIPE. rewrite Hbit by set_solver. wp_step. subst. apply HQ; [done|]. intros _. apply translate_error.
  - wp_step. unfold wp at 1, get_fd. cbn. rewrite list_lookup_insert_eq by (unfold lenZ in Hp; lia).
    wp_step. apply wp_modify. wp_step. unfold with_fds. cbn. rewrite list_insert_insert_eq. by apply HQ.
Qed.
End Access.

Lemma refile_printable σ i f d d' :
  printable σ i f d → refiled (d := d) d' → printable (with_fds (<[Z.to_nat (iob_Descriptor f) := Some d']> (fds σ)) σ) i f d'.
Proof.
  intros [H1 [H2 H2'] H3 H4] [HR _]. split; [done| |done|done]. cbn. unfold lenZ in *. rewrite length_insert. split; [done|].
  apply list_lookup_insert_eq. lia.
Qed.

(** ** Flushing and putting after an error *)

Lemma flush_keeps σ i f d :
  printable σ i f d →
  wp (__flush_iob_write_buffer i) (fun r τ => keeps σ i f d (fun g =>
    iob_BufferWriteBytes g = if r =? OK then 0 else iob_BufferWriteBytes f) τ ∧ (r = OK ∨ r = -1)) σ.
Proof.
  intros HP. pose proof (pr_wf _ _ _ _ HP) as Hw. unfold __flush_iob_write_buffer. wp_step. apply (printable_get HP).
  rewrite (in_use_set _ _ Hw). cbn [andb]. destruct (0 <? iob_BufferWriteBytes f) eqn:Ew; b2p.
  2: { wp_step. split; [|by left]. split; [done|]. exists f, d. split_and!; try done. destruct Hw. cbn. lia. }
  wp_step. apply (printable_write HP).
  - rewrite lenZ_take; [lia|]. destruct Hw. lia.
  - by eapply pending_byte.
  - intros r x ioerr d' HR He. pose proof (refile_printable _ _ _ _ _ HP HR) as HP'.
    assert (same_stream f d f d') as SS by (split; try done; apply HR).
    set (τ := with_fds _ σ) in *. assert (framed i (iob_Descriptor f) σ τ) as F by apply set_fds_framed.
    destruct (r =? EOF) eqn:Er; b2p.
    + unfold set_iob_flag. wp_step. eapply wp_upd_at; [apply HP'|]. set (g := flags_to _ f).
      assert (same_mode f g) as Hm by (apply (same_mode_set f 6); lia).
      assert (Z.testbit (iob_Flags g) 6 = true) as Hb6
        by (cbn [g flags_to iob_Flags]; unfold IOBF_ERROR; rewrite SET_FLAG_bit by lia; by rewrite orb_true_r).
      wp_step. unfold wp at 1, __set_errno, in_memory, set_errno, modify. wp_step. split; [|by right].
      eapply keeps_trans; [exact F|exact SS|done|].
      destruct (keeps_put HP' g (fun g => iob_BufferWriteBytes g = iob_BufferWriteBytes f)) as [K1 (g' & e' & K2 & K3)];
        [by apply same_stream_flags|by apply wf_flags|done|done|].
      split; [destruct K1; by split|]. exists g', e'. split; [destruct K2; by split|exact K3].
    + wp_step. eapply wp_upd_at; [apply HP'|]. wp_step. split; [|by left].
      eapply keeps_trans; [exact F|exact SS|done|]. apply (keeps_put HP'); [by split| |done|done].
      apply (wf_flushed f 0 0) in Hw; [done|lia].
Qed.

Lemma flush_if_keeps σ i f d (b : bool) :
  printable σ i f d →
  wp (if b then __flush_iob_write_buffer i else mret OK) (fun r τ => keeps σ i f d (fun g =>
    iob_BufferWriteBytes g = if b && (r =? OK) then 0 else iob_BufferWriteBytes f) τ ∧ (r = OK ∨ r = -1)) σ.
Proof.
  intros HP. destruct b; [by apply flush_keeps|]. wp_step. split; [|by left]. split; [done|]. by exists f, d.
Qed.

Lemma wf_write_to f n : wf_iob f 0 → 0 <= n <= iob_BufferSize f → wf_iob (write_to n f) 0.
Proof. intros [] Hn. split; cbn; try done; lia || (left; lia). Qed.

Lemma put_byte_keeps {A} σ i f d b (k : M sstate A) Q :
  printable σ i f d → iob_BufferWriteBytes f < iob_BufferSize f →
  wp k Q (put_iob i (add_pending [b] f) σ) →
  wp (_ ← store_buffer i (iob_BufferWriteBytes f) [b]; _ ← upd i (write_to (iob_BufferWriteBytes f + 1)); k) Q σ.
Proof.
  intros HP Hlt HQ. pose proof (pr_wf _ _ _ _ HP) as []. unfold store_buffer. wp_step. wp_step. apply (printable_get HP).
  change (lenZ [b]) with 1. rewrite wf_buffer, (proj2 (Z.leb_le 0 _)), (proj2 (Z.leb_le (_ + 1) _)) by lia. apply wp_modify.
  wp_step. eapply wp_upd_at; [apply list_lookup_insert_eq; eapply lookup_lt_Some, HP|].
  fold (put_iob i (buffer_to (overwrite (iob_Buffer f) (iob_BufferWriteBytes f) [b]) f) σ). by rewrite put_iob_twice.
Qed.

Lemma fputc_keeps σ i f d c mode :
  printable σ i f d → wp (__fputc c i mode) (fun _ τ => keeps σ i f d (fun _ => True) τ) σ.
Proof.
  intros HP. pose proof (pr_wf _ _ _ _ HP) as Hw. unfold __fputc. wp_step. apply (printable_get HP).
  wp_step. eapply wp_mono; [by apply flush_if_keeps|]. intros r τ [[F (g & e & HP1 & SS1 & E1 & B1)] Hr].
  destruct Hr as [-> | ->]; wp_test.
  2: { wp_step. split; [done|]. by exists g, e. }
  pose proof (pr_wf _ _ _ _ HP1) as Hw1. wp_step. apply (printable_get HP1).
  assert (iob_BufferWriteBytes g < iob_BufferSize g) as Hroom.
  { unfold __iob_write_buffer_is_full in E1. rewrite (ss_size _ _ _ _ SS1). destruct Hw.
    destruct (0 <? iob_BufferSize f) eqn:Ea, (iob_BufferWriteBytes f =? iob_BufferSize f) eqn:Eb; b2p; cbn in E1; lia. }
  assert (0 <= iob_BufferWriteBytes g ∧ iob_BufferReadBytes g = 0) as [H0 HR] by (destruct Hw1; lia).
  assert (Forall is_byte [u8 c]) as Hb by (constructor; [apply u8_byte|done]).
  pose proof (add_pending_wf Hw1 HR [u8 c] Hb ltac:(change (lenZ [u8 c]) with 1; lia)) as Hw2.
  apply (put_byte_keeps _ _ _ _ _ _ _ HP1); [done|]. set (g2 := add_pending [u8 c] g) in *.
  pose proof (printable_put HP1 g2 eq_refl Hw2) as HP2.
  assert (same_stream f d g2 e) as SS2 by (eapply same_stream_trans; [exact SS1|apply same_stream_add]).
  assert (framed i (iob_Descriptor f) σ (put_iob i g2 τ)) as F2 by (eapply framed_trans; [exact F|apply put_iob_framed]).
  wp_step. eapply wp_mono; [by apply flush_if_keeps|]. intros r υ [K Hr].
  assert (∀ P ω, keeps (put_iob i g2 τ) i g2 e P ω → keeps σ i f d P ω) as Hk by (intros P ω; by apply keeps_trans).
  destruct K as [F3 (g3 & e3 & HP3 & SS3 & E3 & B3)]. pose proof (pr_wf _ _ _ _ HP3) as Hw3.
  destruct Hr as [-> | ->]; wp_test.
  - wp_step. apply Hk. split; [done|]. by exists g3, e3.
  - wp_step. eapply wp_upd_at; [apply HP3|]. wp_step. apply Hk. eapply (keeps_trans _ _ _ _ _ _ g3 e3); [exact F3|exact SS3|exact B3|].
    apply (keeps_put HP3); [by split| |done|done]. apply wf_write_to; [done|].
    rewrite andb_false_r in E3. change (iob_BufferWriteBytes g2) with (iob_BufferWriteBytes g + 1) in E3. destruct Hw3. lia.
Qed.

(** ** Printing *)

Lemma wp_and {A} (c : M sstate A) P Q σ : wp c P σ → wp c Q σ → wp c (fun a τ => P a τ ∧ Q a τ) σ.
Proof. unfold wp. destruct (c σ) as [[a τ]| |]; done. Qed.

(** Since the state [σ], with the stream [f] on [h], [text] has been printed: it is
    in the file that the program sees, or the error indicator is set. *)
Definition printed σ i f d h (text : list Z) τ : Prop :=
  framed i (iob_Descriptor f) σ τ ∧
  ∃ g e, printable τ i g e ∧ same_stream f d g e ∧
    (Z.testbit (iob_Flags g) 6 = true ∨ ∃ h', stream τ i g e h' ∧ written text f h g h').

Section Print.
Context {σ : sstate} {i : Z} {f : iob} {d : fd} {h : handle} (HS : stream σ i f d h) (HR : iob_BufferReadBytes f = 0).
#[local] Abbreviation printed := (printed σ i f d h).

Lemma printed_start : printed [] σ.
Proof.
  split; [done|]. exists f, d. split_and!; [by eapply stream_printable|apply same_stream_refl|]. right. exists h. split; [done|].
  by apply written_view.
Qed.

Lemma printed_byte {A} text τ c (k : M sstate A) Q : printed text τ → is_byte c →
  (∀ υ, printed (text ++ [c]) υ → wp k Q υ) →
  wp (file ← get_iob i; _ ← __fputc c i (buffer_mode_of file); k) Q τ.
Proof.
  intros [F (g & e & HP & SS & HE)] Hc HQ. wp_step. apply (printable_get HP). wp_step.
  pose proof (fputc_keeps _ _ _ _ c (buffer_mode_of g) HP) as HK.
  assert (∀ υ, keeps τ i g e (fun _ => True) υ → framed i (iob_Descriptor f) σ υ ∧ ∃ g' e', printable υ i g' e' ∧ same_stream f d g' e' ∧
    (Z.testbit (iob_Flags g) 6 = true → Z.testbit (iob_Flags g') 6 = true)) as Hk.
  { intros υ [F2 (g' & e' & K1 & K2 & _ & K3)]. rewrite (ss_descriptor _ _ _ _ SS) in F2. split; [by eapply framed_trans|].
    exists g', e'. split_and!; [done|by eapply same_stream_trans|done]. }
  destruct HE as [HE|(h' & HS' & HW)].
  - eapply wp_mono; [exact HK|]. intros r υ K%Hk. apply HQ. destruct K as [F2 (g' & e' & K1 & K2 & K3)].
    split; [done|]. exists g', e'. split_and!; try done. left. by apply K3.
  - eapply wp_mono; [apply (wp_and _ _ _ _ HK (fputc_byte_spec _ _ _ _ _ c (buffer_mode_of g) HS' (proj1 HW) Hc))|].
    intros r υ [K%Hk [_ HE]]. apply HQ. destruct K as [F2 (g' & e' & K1 & K2 & _)].
    destruct HE as [[_ (_ & g3 & Eg & _ & Hb)]|(g3 & d3 & h3 & HS3 & SS3 & _ & W3)].
    + split; [done|]. exists g', e'. split_and!; try done. left. rewrite (pr_iob _ _ _ _ K1) in Eg. by simplify_eq.
    + split; [done|]. exists g3, d3. split_and!; [eapply stream_printable; [exact HS3|apply W3]|eapply same_stream_trans; [exact SS|exact SS3]|].
      right. exists h3. split; [done|]. eapply written_trans; [exact HW|exact W3|apply (lpos_range HS)].
Qed.

Lemma out_spec text τ more :
  printed text τ → Forall is_byte more → wp (out i more) (fun _ υ => printed (text ++ more) υ) τ.
Proof.
  revert text τ. induction more as [|c more IH]; intros text τ HP Hb; [cbn [out]; wp_step; by rewrite app_nil_r|].
  inversion_clear Hb as [|? ? Hc Hm]. cbn [out]. apply (printed_byte text τ c); [done|done|].
  intros υ HP'. change (c :: more) with ([c] ++ more). rewrite app_assoc. by apply IH.
Qed.
End Print.

Section Pad.
Context {σ : sstate} {i : Z} {f : iob} {d : fd} {h : handle} (HS : stream σ i f d h).
#[local] Abbreviation printed := (printed σ i f d h).

(** The characters that [pad] prints. *)
Definition padding (c w l fl : Z) : list Z :=
  if has fl (Z.lor LEFT_ADJ ZERO_PAD) then [] else replicate (Z.to_nat (w - l)) c.

Lemma pad_spec text τ c w l fl :
  printed text τ → is_byte c → 0 <= l → w <= INT_MAX_ →
  wp (pad i c w l fl) (fun _ υ => printed (text ++ padding c w l fl) υ) τ.
Proof.
  intros HP Hc Hl Hw. unfold pad, padding. destruct (has _ _); cbn [orb]; [wp_step; by rewrite app_nil_r|].
  destruct (w <=? l) eqn:E; b2p; [wp_step; replace (Z.to_nat (w - l)) with 0%nat by lia; by rewrite app_nil_r|].
  assert (∀ n, Forall is_byte (replicate n c)) as Hb by (intros n; by apply Forall_replicate).
  wp_step. apply (wp_loop _ (fun r υ => 0 <= r <= w - l ∧ printed (text ++ replicate (Z.to_nat (w - l - r)) c) υ) _ (fun r => r)).
  - intros r υ [Hr HPr]. destruct (256 <=? r) eqn:E2; b2p.
    + wp_step. eapply wp_mono; [by apply (out_spec HS)|]. intros [] ω HPw. wp_step. split; [|lia]. split; [lia|].
      rewrite <- app_assoc, <- replicate_add in HPw. by replace (Z.to_nat (w - l - (r - 256))) with (Z.to_nat (w - l - r) + 256)%nat by lia.
    + wp_step. eapply wp_mono; [by apply (out_spec HS)|]. intros [] ω HPw. rewrite <- app_assoc, <- replicate_add in HPw.
      by replace (Z.to_nat (w - l)) with (Z.to_nat (w - l - r) + Z.to_nat r)%nat by lia.
  - split; [lia|]. rewrite Z.sub_diag, app_nil_r. done.
  - intros r υ [Hr _]. lia.
  - unfold INT_MAX_ in Hw. lia.
Qed.

(** ** A converted text *)

(** What is printed for a conversion with the width [w]. *)
Definition field (w : Z) (v : conv) : list Z :=
  let '(Conv prefix pl a p fl) := v in
  let p := Z.max p (lenZ a) in
  let w := Z.max w (pl + p) in
  padding 32 w (pl + p) fl ++ take (Z.to_nat pl) (drop (Z.to_nat prefix) prefix_text) ++
  padding 48 w (pl + p) (Z.lxor fl ZERO_PAD) ++ padding 48 p (lenZ a) 0 ++ a ++
  padding 32 w (pl + p) (Z.lxor fl LEFT_ADJ).

Lemma emit_spec text τ cnt w v :
  printed text τ → Forall is_byte (cv_text v) → 0 <= cnt → 0 <= cv_pl v → w <= INT_MAX_ →
  let l := Z.max w (cv_pl v + Z.max (cv_p v) (lenZ (cv_text v))) in
  l <= INT_MAX_ - cnt →
  wp (emit i cnt w v) (fun r υ => r = Some l ∧ printed (text ++ field w v) υ) τ.
Proof.
  intros HP Ha Hcnt Hpl Hw l Hl. destruct v as [prefix pl a p fl]. cbn [cv_text cv_pl cv_p] in *. unfold emit, field. cbv zeta.
  set (q := Z.max p (lenZ a)) in *. fold l. pose proof (lenZ_nonneg a).
  rewrite (proj2 (Z.ltb_ge _ q)), (proj2 (Z.ltb_ge _ l)) by lia.
  assert (Forall is_byte prefix_text) as Hb by (apply (Forall_impl (fun x => is_byte x)); [repeat constructor; unfold is_byte; lia|done]).
  wp_step. eapply wp_mono; [apply pad_spec; [exact HP|unfold is_byte; lia..]|]. intros [] τ1 H1.
  wp_step. eapply wp_mono; [apply (out_spec HS); [exact H1|by apply Forall_take, Forall_drop]|]. intros [] τ2 H2.
  wp_step. eapply wp_mono; [apply pad_spec; [exact H2|unfold is_byte; lia..]|]. intros [] τ3 H3.
  wp_step. eapply wp_mono; [apply pad_spec; [exact H3|unfold is_byte; lia..]|]. intros [] τ4 H4.
  wp_step. eapply wp_mono; [apply (out_spec HS); [exact H4|done]|]. intros [] τ5 H5.
  wp_step. eapply wp_mono; [apply pad_spec; [exact H5|unfold is_byte; lia..]|]. intros [] τ6 H6.
  wp_step. split; [done|]. by rewrite <- !app_assoc in H6.
Qed.
End Pad.
End Out.
