(* ===== verification/PrintfSpec.v ===== *)
(** * Formatted output: what a conversion prints

    A reference for the conversions of integers, characters, strings and pointers,
    and the proof that [convert] prints it. *)

From stdpp Require Import base numbers gmap list.
From S2P Require Import Prelude CMem Words Ctype StrScan StrToNum Fds Stdio StdioSpec StdioWrite Printf PrintfDigits PrintfParse PrintfOut.
Open Scope Z_scope.
#[local] Set Warnings "-clear-no-such-hyp".

(** ** Reference *)

(** Length modifiers and conversions. *)
Inductive modifier := Mnone | Mhh | Mh | Ml | Mll | Mj | Mz | Mt.
Inductive integer := Id | Ii | Iu | Io | Ix | IX.
Inductive kind := KInt (m : modifier) (c : integer) | KChar | KString | KPointer.

Definition modifier_text (m : modifier) : list Z :=
  match m with
  | Mnone => [] | Mhh => [104; 104] | Mh => [104] | Ml => [108] | Mll => [108; 108] | Mj => [106] | Mz => [122] | Mt => [116]
  end.
Definition integer_char (c : integer) : Z :=
  match c with Id => 100 | Ii => 105 | Iu => 117 | Io => 111 | Ix => 120 | IX => 88 end.
Definition kind_char (k : kind) : Z :=
  match k with KInt _ c => integer_char c | KChar => 99 | KString => 115 | KPointer => 112 end.
Definition kind_text (k : kind) : list Z :=
  match k with KInt m _ => modifier_text m | _ => [] end ++ [kind_char k].

(** The value of an argument, as its type has it. *)
Definition is_signed (c : integer) : bool := match c with Id | Ii => true | _ => false end.
Definition int_value (m : modifier) (signed : bool) (ap : list va) : option (Z * list va) :=
  match m, ap with
  | (Mnone | Ml | Mz | Mt), VWord w :: ap => Some (if signed then s32 w else u32 w, ap)
  | Mh, VWord w :: ap => Some (if signed then s16 w else u16 w, ap)
  | Mhh, VWord w :: ap => Some (if signed then s8 w else u8 w, ap)
  | (Mll | Mj), VLong w :: ap => Some (if signed then s64 w else u64 w, ap)
  | _, _ => None
  end.

(** A field of at least [w] characters: blanks before or after the text, or zeros
    behind the sign. *)
Definition layout (left zero : bool) (w : Z) (sign digits : list Z) : list Z :=
  let n := Z.to_nat (w - lenZ sign - lenZ digits) in
  if left then sign ++ digits ++ replicate n 32
  else if zero then sign ++ replicate n 48 ++ digits
  else replicate n 32 ++ sign ++ digits.

(** The digits of a number, at least as many as the precision says. *)
Definition digits_text (lower b x : Z) (prec : option Z) : list Z :=
  let t := text_of lower b x in replicate (Z.to_nat (default 1 prec - lenZ t)) 48 ++ t.

(** The flags, with the effect of a negative width. *)
Record style := Style { left_ : bool; zero_ : bool; plus_ : bool; space_ : bool; alt_ : bool }.
Definition style_of (fs : list Z) (negative : bool) : style :=
  Style (bool_decide (45 ∈ fs) || negative) (bool_decide (48 ∈ fs)) (bool_decide (43 ∈ fs)) (bool_decide (32 ∈ fs)) (bool_decide (35 ∈ fs)).

Definition sign_text (s : style) (x : Z) : list Z :=
  if x <? 0 then [45] else if plus_ s then [43] else if space_ s then [32] else [].

Definition show_int (s : style) (w : Z) (prec : option Z) (c : integer) (x : Z) : list Z :=
  let zero := zero_ s && bool_decide (prec = None) in
  let prefixed l := if alt_ s && negb (x =? 0) then l else [] in
  match c with
  | Id | Ii => layout (left_ s) zero w (sign_text s x) (digits_text 0 10 (Z.abs x) prec)
  | Iu => layout (left_ s) zero w [] (digits_text 0 10 x prec)
  | Ix => layout (left_ s) zero w (prefixed [48; 120]) (digits_text 32 16 x prec)
  | IX => layout (left_ s) zero w (prefixed [48; 88]) (digits_text 0 16 x prec)
  | Io =>
      let prec' := if alt_ s then Some (Z.max (default 0 prec) (lenZ (text_of 0 8 x) + 1)) else prec in
      layout (left_ s) zero w [] (digits_text 0 8 x prec')
  end.

(** The text of a string argument: up to its terminator, or as many characters as
    the precision says. *)
Definition string_at (m : gmap Z Z) (a : Z) (prec : option Z) (text : list Z) : Prop :=
  bytes_at m a text ∧ Forall (fun b => 0 < b < 256) text ∧ lenZ text <= default INT_MAX_ prec ∧
  (prec = Some (lenZ text) ∨ m !! (a + lenZ text) = Some 0).

(** A conversion of the first arguments, with the arguments that are left. *)
Inductive shows (m : gmap Z Z) (s : style) (w : Z) (prec : option Z) : kind → list va → list Z → list va → Prop :=
| shows_int md c ap x ap' :
    int_value md (is_signed c) ap = Some (x, ap') → shows m s w prec (KInt md c) ap (show_int s w prec c x) ap'
| shows_char u ap : shows m s w prec KChar (VWord u :: ap) (layout (left_ s) false w [] [u8 u]) ap
| shows_string u ap text :
    u32 u ≠ 0 → string_at m (u32 u) prec text →
    shows m s w prec KString (VWord u :: ap) (layout (left_ s) false w [] text) ap
| shows_null u ap :
    u32 u = 0 →
    shows m s w prec KString (VWord u :: ap)
      (layout (left_ s) false w [] (take (Z.to_nat (default 6 prec)) [40; 110; 117; 108; 108; 41])) ap
| shows_pointer u ap :
    shows m s w prec KPointer (VWord u :: ap)
      (show_int (Style (left_ s) (zero_ s) (plus_ s) (space_ s) true) w (Z.max 8 <$> prec) Ix (u32 u)) ap.

(** ** Flags *)

Lemma has_bit fl k : 0 <= k → has fl (2 ^ k) = Z.testbit fl k.
Proof. intros Hk. unfold has. fold (FLAG_IS_CLEAR fl (2 ^ k)). rewrite FLAG_IS_CLEAR_bit by done. apply negb_involutive. Qed.
Lemma has_lor fl a b : has fl (Z.lor a b) = has fl a || has fl b.
Proof.
  unfold has. rewrite Z.land_lor_distr_r. destruct (Z.land fl a =? 0) eqn:E1, (Z.land fl b =? 0) eqn:E2; b2p; cbn.
  - by rewrite E1, E2.
  - rewrite E1, Z.lor_0_l. by rewrite (proj2 (Z.eqb_neq _ _) E2).
  - rewrite E2, Z.lor_0_r. by rewrite (proj2 (Z.eqb_neq _ _) E1).
  - rewrite (proj2 (Z.eqb_neq _ _)); [done|]. intros E. by apply Z.lor_eq_0_iff in E as [? ?].
Qed.

Lemma flags_of_bit fs k : Forall (fun c => c ∈ flag_chars) fs → 0 <= k → Z.testbit (flags_of fs) k = bool_decide (32 + k ∈ fs).
Proof.
  intros Hf Hk. induction fs as [|c fs IH] using rev_ind; [by rewrite Z.bits_0|].
  apply Forall_app in Hf as [Hf Hc]. rewrite Forall_singleton in Hc. rewrite flags_of_snoc, Z.lor_spec, IH by done.
  assert (0 <= c - 32) as H0 by (unfold flag_chars in Hc; set_solver by lia).
  rewrite Z.shiftl_1_l, Z.pow2_bits_eqb by done. destruct (c - 32 =? k) eqn:E; b2p.
  - rewrite orb_true_r. symmetry. apply bool_decide_eq_true. apply elem_of_app. right. apply list_elem_of_singleton. lia.
  - rewrite orb_false_r. apply bool_decide_ext. rewrite elem_of_app, list_elem_of_singleton. intuition lia.
Qed.

(** What the numbers [fl] and the booleans have in common. *)
Record styled (fl : Z) (s : style) : Prop := {
  sy_left : Z.testbit fl 13 = left_ s;
  sy_zero : Z.testbit fl 16 = zero_ s;
  sy_plus : Z.testbit fl 11 = plus_ s;
  sy_space : Z.testbit fl 0 = space_ s;
  sy_alt : Z.testbit fl 3 = alt_ s
}.

Lemma flags_styled fs (neg : bool) :
  Forall (fun c => c ∈ flag_chars) fs →
  styled (if neg then Z.lor (flags_of fs) LEFT_ADJ else flags_of fs) (style_of fs neg).
Proof.
  intros Hf. unfold LEFT_ADJ. destruct neg; split; cbn [left_ zero_ plus_ space_ alt_ style_of];
    rewrite ?Z.lor_spec, ?(Z.pow2_bits_eqb 13), ?flags_of_bit by (done || lia);
    rewrite ?orb_false_r; done.
Qed.

(** ** Fields *)

(** Blanks and zeros never go together. *)
Lemma field_layout left zero w prefix pl a p fl :
  Z.testbit fl 13 = left → Z.testbit fl 16 = zero → left && zero = false →
  let sign := take (Z.to_nat pl) (drop (Z.to_nat prefix) prefix_text) in
  lenZ sign = pl →
  field w (Conv prefix pl a p fl) = layout left zero w sign (replicate (Z.to_nat (p - lenZ a)) 48 ++ a).
Proof.
  intros Hl Hz Hlz sign Hs. unfold field, layout, padding, LEFT_ADJ, ZERO_PAD. rewrite !has_lor, !has_bit, !Z.lxor_spec, Hl, Hz by lia.
  rewrite !Z.pow2_bits_eqb, !Z.bits_0 by lia. fold sign. set (q := Z.max p (lenZ a)).
  assert (replicate (Z.to_nat (q - lenZ a)) 48 = replicate (Z.to_nat (p - lenZ a)) 48) as Eq by (f_equal; lia).
  assert (lenZ (replicate (Z.to_nat (p - lenZ a)) 48 ++ a) = q) as HL.
  { rewrite lenZ_app. unfold lenZ at 1. rewrite length_replicate. pose proof (lenZ_nonneg a). lia. }
  rewrite HL, Hs. assert (Z.to_nat (Z.max w (pl + q) - (pl + q)) = Z.to_nat (w - pl - q)) as -> by lia.
  destruct left, zero; try done; cbn; rewrite ?Eq, ?app_nil_r, <- ?app_assoc; done.
Qed.

Lemma lenZ_repeated (n : nat) (c : Z) : lenZ (replicate n c) = Z.of_nat n.
Proof. unfold lenZ. by rewrite length_replicate. Qed.

Lemma lenZ_layout left zero w sign digits : lenZ (layout left zero w sign digits) = Z.max w (lenZ sign + lenZ digits).
Proof.
  unfold layout. pose proof (lenZ_nonneg sign). pose proof (lenZ_nonneg digits).
  destruct left, zero; rewrite !lenZ_app, lenZ_repeated; lia.
Qed.

(** The precision as the code keeps it. *)
Definition precise (p : Z) (xp : bool) (prec : option Z) : Prop :=
  match prec with Some n => p = n ∧ xp = true ∧ 0 <= n <= INT_MAX_ | None => -2147483648 <= p < 0 ∧ xp = false end.

(** The number of zeros before the digits [a] of [i]. *)
Lemma int_end_spec prefix pl a i p (xp : bool) fl :
  (a = [] ↔ i = 0) → xp && (p <? 0) = false →
  ∃ q, int_end prefix pl a i p xp fl = Some (Conv prefix pl a q (if xp then CLEAR_FLAG fl ZERO_PAD else fl)) ∧
       Z.to_nat (q - lenZ a) = Z.to_nat ((if p <? 0 then 1 else p) - lenZ a).
Proof.
  intros Ha Hp. unfold int_end. rewrite Hp. destruct (i =? 0) eqn:Ei; b2p; cbn [andb b2z].
  - rewrite (proj2 Ha Ei) in *. change (lenZ []) with 0. destruct (p =? 0) eqn:E0; b2p; subst.
    + exists 0. done.
    + eexists. split; [done|]. destruct (p <? 0) eqn:E; b2p; lia.
  - eexists. split; [done|]. assert (0 < lenZ a) as Hl.
    { destruct a; [exfalso; by apply Ei, Ha|]. rewrite lenZ_cons. pose proof (lenZ_nonneg a). lia. }
    destruct (p <? 0) eqn:E; b2p; lia.
Qed.

Lemma text_of_nil lower b x : 2 <= b → 0 <= x < 18446744073709551616 → text_of lower b x = [] ↔ x = 0.
Proof.
  intros Hb Hx. unfold text_of. split.
  - intros E. apply fmap_nil_inv in E. pose proof (digits_of_value b x Hb Hx) as Hv. rewrite E in Hv. by cbn in Hv.
  - by intros ->.
Qed.

Lemma text_of_bytes lower b x : lower = 0 ∨ lower = 32 → 2 <= b <= 16 → Forall is_byte (text_of lower b x).
Proof.
  intros Hl Hb. unfold text_of. apply Forall_fmap. eapply Forall_impl; [apply digits_of_digit; lia|].
  intros d Hd. cbn in Hd. unfold compose, is_byte. pose proof (digit_char_range lower d Hl ltac:(lia)). lia.
Qed.

(** The length of a string that ends with NUL or is long enough. *)
Lemma strnlen_spec (m : cstate) q l maxlen Q :
  bytes_at (mem m) q l → Forall (fun b => 0 < b < 256) l → q ≠ 0 → lenZ l <= maxlen < 4294967296 →
  (lenZ l = maxlen ∨ mem m !! (q + lenZ l) = Some 0) → Q (lenZ l) m → wp (strnlen q maxlen) Q m.
Proof.
  intros Hl Hz Ha Hmax Hend HQ. unfold strnlen. rewrite (proj2 (Z.eqb_neq q NULL)) by (unfold NULL; lia).
  wp_step. pose proof (lenZ_nonneg l).
  apply (wp_loop _ (fun '(r, n) (υ : cstate) => υ = m ∧ r = q + (maxlen - n) ∧ 0 <= maxlen - n <= lenZ l) _ snd).
  - intros [r n] υ (-> & -> & Hn). destruct (0 <? n) eqn:E; b2p.
    + destruct (decide (maxlen - n < lenZ l)) as [Hlt|Hge].
      * wp_step. apply (wp_load8_at _ l); [done|lia|].
        assert (0 < nthZ l (maxlen - n)) as Hpos.
        { rewrite Forall_forall in Hz. pose proof (Hz _ (nthZ_in l (maxlen - n) ltac:(lia))) as Hn'. cbn in Hn'. lia. }
        rewrite (proj2 (Z.eqb_neq _ 0)) by lia. cbn [negb]. wp_step. split; [|cbn; lia]. split; [done|]. lia.
      * destruct Hend as [Hend|Hend]; [lia|]. assert (maxlen - n = lenZ l) as -> by lia.
        wp_step. apply (wp_load8 _ 0); [done|]. cbn [negb Z.eqb]. wp_step. wp_step. by rewrite Z.add_simpl_l.
    + wp_step. wp_step. assert (maxlen - n = lenZ l) as -> by (destruct Hend; lia). by rewrite Z.add_simpl_l.
  - split; [done|]. lia.
  - intros [r n] υ (_ & _ & ?). cbn. lia.
  - cbn. lia.
Qed.

Section Convert.
Context `{Dos}.
Implicit Types (τ υ : sstate).
Context {σ : sstate} {i : Z} {f : iob} {d : fd} {h : handle} (HS : stream σ i f d h).
#[local] Abbreviation printed := (printed σ i f d h).

(** The end of [convert], for a text that fits. *)
Definition finish (cnt w : Z) (v : option conv) : M sstate (option Z + Z) :=
  match v with
  | None => mret (inl None)
  | Some v => r ← emit i cnt w v; mret (match r with None => inl None | Some l => inr l end)
  end.
Definition prints_as (txt T : list Z) (r : option Z + Z) υ : Prop := r = inr (lenZ T) ∧ printed (txt ++ T) υ.

Lemma finish_spec txt τ cnt w prefix pl a p fl left zero T :
  printed txt τ → Forall is_byte a → 0 <= cnt → 0 <= w <= INT_MAX_ →
  Z.testbit fl 13 = left → Z.testbit fl 16 = zero → left && zero = false →
  lenZ (take (Z.to_nat pl) (drop (Z.to_nat prefix) prefix_text)) = pl →
  T = layout left zero w (take (Z.to_nat pl) (drop (Z.to_nat prefix) prefix_text)) (replicate (Z.to_nat (p - lenZ a)) 48 ++ a) →
  lenZ T <= INT_MAX_ - cnt → wp (finish cnt w (Some (Conv prefix pl a p fl))) (prints_as txt T) τ.
Proof.
  intros HP Ha Hcnt Hw Hl Hz Hlz Hpl HT Hlen. pose proof (lenZ_nonneg a).
  pose proof (lenZ_nonneg (take (Z.to_nat pl) (drop (Z.to_nat prefix) prefix_text))).
  pose proof (field_layout left zero w prefix pl a p fl Hl Hz Hlz Hpl) as EF. rewrite <- HT in EF.
  assert (lenZ T = Z.max w (pl + Z.max p (lenZ a))) as HLT.
  { rewrite HT, lenZ_layout, Hpl, lenZ_app, lenZ_repeated. lia. }
  unfold finish. wp_step. eapply wp_mono; [apply (emit_spec HS txt τ cnt w (Conv prefix pl a p fl)); cbn; try done; lia|].
  intros r υ [-> HP']. wp_step. cbn in *. rewrite EF in HP'. by split; [f_equal; lia|].
Qed.

(** The flags behind the test for the one that adjusts to the left. *)
Definition fixed (fl : Z) : Z := if has fl LEFT_ADJ then CLEAR_FLAG fl ZERO_PAD else fl.

Lemma fixed_bit fl k : 0 <= k → Z.testbit (fixed fl) k = Z.testbit fl k && negb ((k =? 16) && Z.testbit fl 13).
Proof.
  intros Hk. unfold fixed, LEFT_ADJ, ZERO_PAD. rewrite has_bit by lia. destruct (Z.testbit fl 13).
  - rewrite CLEAR_FLAG_bit by lia. by rewrite andb_true_r, (Z.eqb_sym k).
  - by rewrite andb_false_r, andb_true_r.
Qed.

(** The integers: sign or prefix, digits and precision. *)
Lemma int_finish_spec txt τ cnt w prefix sign lower b x p (xp : bool) fl s N T :
  printed txt τ → 0 <= cnt → 0 <= w <= INT_MAX_ → styled fl s →
  lower = 0 ∨ lower = 32 → 2 <= b <= 16 → 0 <= x < 18446744073709551616 →
  xp && (p <? 0) = false → N = (if p <? 0 then 1 else p) →
  take (Z.to_nat (lenZ sign)) (drop (Z.to_nat prefix) prefix_text) = sign →
  T = layout (left_ s) (zero_ s && negb xp) w sign (replicate (Z.to_nat (N - lenZ (text_of lower b x))) 48 ++ text_of lower b x) →
  lenZ T <= INT_MAX_ - cnt →
  wp (finish cnt w (int_end prefix (lenZ sign) (text_of lower b x) x p xp (fixed fl))) (prints_as txt T) τ.
Proof.
  intros HP Hcnt Hw Hst Hlo Hb Hx Hp -> Hsign -> Hlen.
  destruct (int_end_spec prefix (lenZ sign) (text_of lower b x) x p xp (fixed fl)) as (q & -> & Hq); [apply text_of_nil; lia|done|].
  set (fl' := if xp then _ else _).
  assert (Z.testbit fl' 13 = left_ s ∧ Z.testbit fl' 16 = zero_ s && negb xp && negb (left_ s)) as [B1 B2].
  { unfold fl', ZERO_PAD. destruct Hst. destruct xp; rewrite ?CLEAR_FLAG_bit, !fixed_bit, ?sy_left0, ?sy_zero0 by lia; cbn [Z.eqb negb andb];
      rewrite ?andb_true_r, ?andb_false_r; done. }
  eapply (finish_spec _ _ _ _ _ _ _ _ _ (left_ s) (zero_ s && negb xp && negb (left_ s))); try done.
  - apply text_of_bytes; [done|lia].
  - destruct (left_ s); by rewrite ?andb_false_r.
  - by rewrite Hsign.
  - rewrite Hsign, Hq. unfold layout. destruct (left_ s); [done|]. by rewrite andb_true_r.
Qed.

Lemma precise_facts p xp prec :
  precise p xp prec →
  xp && (p <? 0) = false ∧ default 1 prec = (if p <? 0 then 1 else p) ∧ bool_decide (prec = None) = negb xp.
Proof.
  destruct prec as [n|]; cbn.
  - intros (-> & -> & Hn). rewrite (proj2 (Z.ltb_ge n 0)) by lia. done.
  - intros [Hp ->]. rewrite (proj2 (Z.ltb_lt p 0)) by lia. done.
Qed.

Lemma store_text {A} lower b x n (k : M sstate A) Q τ :
  (n <= 40)%nat → 2 <= b → 0 <= x < b ^ Z.of_nat n → wp k Q τ → wp (_ ← store_digits (text_of lower b x); k) Q τ.
Proof.
  intros Hn Hb Hx HQ. wp_step. unfold store_digits. rewrite (proj2 (Z.leb_le _ _)); [by wp_step|].
  change sizeof_buf with 40. unfold text_of, lenZ. rewrite length_fmap. pose proof (digits_of_range b x n ltac:(lia) Hb Hx) as HL.
  unfold lenZ in HL. lia.
Qed.

Context (fmt_fp : Z → Z → Z → Z → Z → Z → M sstate Z) (strerror : Z → list Z) (wctomb : Z → option (list Z)).
#[local] Abbreviation convert := (convert fmt_fp strerror wctomb).

Section Int.
Context (txt : list Z) (τ : sstate) (cnt w p : Z) (xp : bool) (fl : Z) (s : style) (prec : option Z) (ps : Z) (a : arg).
Context (HP : printed txt τ) (Hcnt : 0 <= cnt) (Hw : 0 <= w <= INT_MAX_) (Hst : styled fl s) (Hp : precise p xp prec).

Lemma fixed_has k : 0 <= k → k ≠ 16 → has (fixed fl) (2 ^ k) = Z.testbit fl k.
Proof. intros Hk Hn. rewrite has_bit, fixed_bit by done. rewrite (proj2 (Z.eqb_neq k 16)) by done. by rewrite andb_true_r. Qed.

Lemma convert_hex (up : bool) x :
  0 <= x < 18446744073709551616 → arg_i a = x →
  let c := if up then IX else Ix in
  let T := show_int s w prec c x in
  lenZ T <= INT_MAX_ - cnt → wp (convert i cnt ps (integer_char c) w p xp fl a) (prints_as txt T) τ.
Proof.
  intros Hx Ea c T HT. destruct (precise_facts _ _ _ Hp) as (E1 & E2 & E3).
  assert (convert i cnt ps (integer_char c) w p xp fl a =
    (_ ← store_digits (fmt_x x (if up then 0 else 32)); finish cnt w (conv_hex (integer_char c) x p xp (fixed fl)))) as ->.
  { subst x. unfold c. by destruct up. }
  rewrite fmt_x_digits by (done || destruct up; auto). apply (store_text _ _ _ 16); [lia|lia|fits|].
  assert (Z.land (integer_char c) 32 = if up then 0 else 32) as El by (unfold c; by destruct up).
  unfold conv_hex. rewrite El, fmt_x_digits by (done || destruct up; auto).
  change ALT_FORM with (2 ^ 3). rewrite fixed_has, (sy_alt _ _ Hst) by lia.
  set (sign := if alt_ s && negb (x =? 0) then [48; if up then 88 else 120] else []).
  assert (T = layout (left_ s) (zero_ s && negb xp) w sign
    (replicate (Z.to_nat ((if p <? 0 then 1 else p) - lenZ (text_of (if up then 0 else 32) 16 x))) 48 ++ text_of (if up then 0 else 32) 16 x)) as ET.
  { unfold T, c, show_int, digits_text, sign. rewrite E3, E2. by destruct up. }
  rewrite andb_comm. set (lower := if up then 0 else 32) in *. assert (lower = 0 ∨ lower = 32) as Hlo by (unfold lower; destruct up; auto).
  assert (∀ pre, take (Z.to_nat (lenZ sign)) (drop (Z.to_nat pre) prefix_text) = sign →
    wp (finish cnt w (int_end pre (lenZ sign) (text_of lower 16 x) x p xp (fixed fl))) (prints_as txt T) τ) as Hfin.
  { intros pre Hpre. by apply (int_finish_spec _ _ _ _ pre sign lower 16 x p xp fl s (if p <? 0 then 1 else p)). }
  unfold sign in Hfin. destruct (alt_ s && negb (x =? 0)); apply Hfin; unfold c; by destruct up.
Qed.

Lemma convert_u x :
  0 <= x < 18446744073709551616 → arg_i a = x →
  let T := show_int s w prec Iu x in
  lenZ T <= INT_MAX_ - cnt → wp (convert i cnt ps 117 w p xp fl a) (prints_as txt T) τ.
Proof.
  intros Hx Ea T HT. destruct (precise_facts _ _ _ Hp) as (E1 & E2 & E3).
  change (convert i cnt ps 117 w p xp fl a) with
    (_ ← store_digits (fmt_u (arg_i a)); finish cnt w (int_end 0 0 (fmt_u (arg_i a)) (arg_i a) p xp (fixed fl))).
  rewrite Ea, fmt_u_digits by done. apply (store_text _ _ _ 20); [lia|lia|fits|].
  apply (int_finish_spec _ _ _ _ 0 [] 0 10 x p xp fl s (if p <? 0 then 1 else p)); try done; auto.
  unfold T, show_int, digits_text. by rewrite E3, E2.
Qed.

Lemma convert_o x :
  0 <= x < 18446744073709551616 → arg_i a = x →
  let T := show_int s w prec Io x in
  lenZ T <= INT_MAX_ - cnt → wp (convert i cnt ps 111 w p xp fl a) (prints_as txt T) τ.
Proof.
  intros Hx Ea T HT. destruct (precise_facts _ _ _ Hp) as (E1 & E2 & E3).
  change (convert i cnt ps 111 w p xp fl a) with (_ ← store_digits (fmt_o (arg_i a)); finish cnt w (conv_o (arg_i a) p xp (fixed fl))).
  unfold conv_o. rewrite Ea, fmt_o_digits by done. apply (store_text _ _ _ 22); [lia|lia|fits|].
  change ALT_FORM with (2 ^ 3). rewrite fixed_has, (sy_alt _ _ Hst) by lia. pose proof (lenZ_nonneg (text_of 0 8 x)).
  set (n := lenZ (text_of 0 8 x)) in *. set (q := if alt_ s && (p <? n + 1) then n + 1 else p).
  assert ((if q <? 0 then 1 else q) =
    default 1 (if alt_ s then Some (Z.max (default 0 prec) (n + 1)) else prec) ∧ xp && (q <? 0) = false) as [EN Eq].
  { unfold q. destruct (alt_ s); cbn [andb]; [|by rewrite E2]. destruct prec as [k|]; cbn in Hp |- *.
    - destruct Hp as (-> & -> & Hk). destruct (k <? n + 1) eqn:E; b2p; rewrite (proj2 (Z.ltb_ge _ 0)) by lia; split; cbn; lia || done.
    - destruct Hp as [Hk ->]. rewrite (proj2 (Z.ltb_lt p _)), (proj2 (Z.ltb_ge _ 0)) by lia. split; [lia|done]. }
  apply (int_finish_spec _ _ _ _ 0 [] 0 8 x q xp fl s (if q <? 0 then 1 else q)); try done; auto.
  unfold T, show_int, digits_text. fold n. by rewrite E3, EN.
Qed.

Lemma convert_d x c :
  -9223372036854775808 <= x < 9223372036854775808 → arg_i a = u64 x → c = Id ∨ c = Ii →
  let T := show_int s w prec c x in
  lenZ T <= INT_MAX_ - cnt → wp (convert i cnt ps (integer_char c) w p xp fl a) (prints_as txt T) τ.
Proof.
  intros Hx Ea Hc T HT. destruct (precise_facts _ _ _ Hp) as (E1 & E2 & E3).
  set (y := if INTMAX_MAX <? arg_i a then u64 (- arg_i a) else arg_i a).
  assert (convert i cnt ps (integer_char c) w p xp fl a =
    (_ ← store_digits (fmt_u y); finish cnt w (conv_d (arg_i a) p xp (fixed fl)))) as ->
    by (destruct Hc as [-> | ->]; reflexivity).
  assert (y = Z.abs x ∧ (INTMAX_MAX <? arg_i a) = (x <? 0)) as [Ey En].
  { unfold y. rewrite Ea. unfold u64, INTMAX_MAX. destruct (x <? 0) eqn:E; b2p.
    - rewrite <- (Z.mod_add x 1), (Z.mod_small (x + _)) by lia. rewrite (proj2 (Z.ltb_lt 9223372036854775807 _)) by lia. split; [|done].
      rewrite <- (Z.mod_add _ 1), Z.mod_small by lia. lia.
    - rewrite Z.mod_small by lia. rewrite (proj2 (Z.ltb_ge 9223372036854775807 _)) by lia. split; [lia|done]. }
  unfold conv_d. fold y in En |- *. rewrite En.
  set (sign := sign_text s x). set (pre := if x <? 0 then 0 else if plus_ s then 1 else if space_ s then 2 else 0).
  assert (T = layout (left_ s) (zero_ s && negb xp) w sign
    (replicate (Z.to_nat ((if p <? 0 then 1 else p) - lenZ (text_of 0 10 (Z.abs x)))) 48 ++ text_of 0 10 (Z.abs x))) as ET.
  { unfold T, show_int, digits_text, sign. rewrite E3, E2. by destruct Hc as [-> | ->]. }
  rewrite Ey, (fmt_u_digits (Z.abs x)) by lia. apply (store_text _ _ _ 20); [lia|lia|fits|].
  change MARK_POS with (2 ^ 11). change PAD_POS with (2 ^ 0). rewrite !fixed_has, (sy_plus _ _ Hst), (sy_space _ _ Hst) by lia.
  assert ((if x <? 0 then int_end 0 1 (fmt_u (u64 (- arg_i a))) (u64 (- arg_i a)) p xp (fixed fl)
           else if plus_ s then int_end 1 1 (fmt_u (arg_i a)) (arg_i a) p xp (fixed fl)
           else if space_ s then int_end 2 1 (fmt_u (arg_i a)) (arg_i a) p xp (fixed fl)
           else int_end 0 0 (fmt_u (arg_i a)) (arg_i a) p xp (fixed fl)) =
          int_end pre (lenZ sign) (text_of 0 10 (Z.abs x)) (Z.abs x) p xp (fixed fl)) as ->.
  { unfold y in Ey. rewrite En in Ey. unfold pre, sign, sign_text.
    destruct (x <? 0), (plus_ s), (space_ s); rewrite Ey, fmt_u_digits by lia; reflexivity. }
  apply (int_finish_spec _ _ _ _ pre sign 0 10 (Z.abs x) p xp fl s (if p <? 0 then 1 else p)); try done; auto; try lia.
  unfold pre, sign, sign_text. by destruct (x <? 0), (plus_ s), (space_ s).
Qed.
End Int.

(** Characters, strings and pointers. *)
Section Text.
Context (txt : list Z) (τ : sstate) (cnt w p : Z) (xp : bool) (fl : Z) (s : style) (prec : option Z) (ps : Z) (a : arg).
Context (HP : printed txt τ) (Hcnt : 0 <= cnt) (Hw : 0 <= w <= INT_MAX_) (Hst : styled fl s) (Hp : precise p xp prec).

Lemma text_finish_spec l :
  Forall is_byte l →
  let T := layout (left_ s) false w [] l in
  lenZ T <= INT_MAX_ - cnt →
  wp (finish cnt w (Some (Conv 0 0 l (lenZ l) (CLEAR_FLAG (fixed fl) ZERO_PAD)))) (prints_as txt T) τ.
Proof.
  intros Hl T HT. unfold ZERO_PAD. eapply (finish_spec _ _ _ _ _ _ _ _ _ (left_ s) false); try done.
  - rewrite CLEAR_FLAG_bit, fixed_bit, (sy_left _ _ Hst) by lia. cbn. by rewrite !andb_true_r.
  - rewrite CLEAR_FLAG_bit by lia. by rewrite andb_false_r.
  - by rewrite andb_false_r.
  - by rewrite Z.sub_diag.
Qed.

Lemma convert_c :
  let T := layout (left_ s) false w [] [u8 (arg_i a)] in
  lenZ T <= INT_MAX_ - cnt → wp (convert i cnt ps 99 w p xp fl a) (prints_as txt T) τ.
Proof.
  intros T HT. change (convert i cnt ps 99 w p xp fl a) with
    (finish cnt w (Some (Conv 0 0 [u8 (arg_i a)] (lenZ [u8 (arg_i a)]) (CLEAR_FLAG (fixed fl) ZERO_PAD)))).
  apply text_finish_spec; [|done]. constructor; [apply u8_byte|done].
Qed.

Lemma convert_p :
  0 <= arg_i a < 18446744073709551616 →
  let T := show_int (Style (left_ s) (zero_ s) (plus_ s) (space_ s) true) w (Z.max 8 <$> prec) Ix (arg_i a) in
  lenZ T <= INT_MAX_ - cnt → wp (convert i cnt ps 112 w p xp fl a) (prints_as txt T) τ.
Proof.
  intros Hx T HT. set (q := s32 (Z.max (u32 p) 8)).
  assert (precise q xp (Z.max 8 <$> prec)) as Hq.
  { unfold q, s32, u32, INT_MAX_ in *. destruct prec as [n|]; cbn in Hp |- *.
    - destruct Hp as (-> & -> & Hn). unfold INT_MAX_ in *. rewrite (Z.mod_small n) by lia. rewrite Z.mod_small by lia. split; [lia|]. split; [done|lia].
    - destruct Hp as [Hn ->]. rewrite <- (Z.mod_add p 1), (Z.mod_small (p + _)) by lia. rewrite Z.max_l by lia.
      replace (p + 1 * 4294967296 + 2147483648) with (p + 2147483648 + 1 * 4294967296) by lia.
      rewrite Z.mod_add, Z.mod_small by lia. split; [lia|done]. }
  assert (Z.lor (fixed fl) ALT_FORM = fixed (Z.lor fl ALT_FORM)) as Ef.
  { unfold ALT_FORM. apply Z.bits_inj'. intros k Hk. rewrite fixed_bit, !Z.lor_spec, fixed_bit, !Z.pow2_bits_eqb by lia.
    destruct (k =? 16) eqn:E; b2p; subst; cbn; rewrite ?andb_true_r, ?orb_false_r; done. }
  assert (styled (Z.lor fl ALT_FORM) (Style (left_ s) (zero_ s) (plus_ s) (space_ s) true)) as Hst'.
  { destruct Hst. unfold ALT_FORM. split; cbn [left_ zero_ plus_ space_ alt_]; rewrite Z.lor_spec, Z.pow2_bits_eqb by lia; cbn;
      rewrite ?orb_false_r, ?orb_true_r; done. }
  assert (convert i cnt ps 112 w p xp fl a = convert i cnt ps 120 w q xp (Z.lor fl ALT_FORM) a) as ->.
  { change (convert i cnt ps 112 w p xp fl a) with
      (_ ← store_digits (fmt_x (arg_i a) 32); finish cnt w (conv_hex 120 (arg_i a) q xp (Z.lor (fixed fl) ALT_FORM))).
    by rewrite Ef. }
  by eapply (convert_hex txt τ cnt w q xp _ _ _ ps a HP Hcnt Hw Hst' Hq false).
Qed.

Lemma convert_s text :
  arg_p a ≠ 0 → string_at (mem (sc τ)) (arg_p a) prec text →
  let T := layout (left_ s) false w [] text in
  lenZ T <= INT_MAX_ - cnt → wp (convert i cnt ps 115 w p xp fl a) (prints_as txt T) τ.
Proof.
  intros Ha (Hb & Hz & Hle & Hend) T HT. change (convert i cnt ps 115 w p xp fl a) with
    (v ← conv_s (arg_p a) p (fixed fl); finish cnt w v).
  assert (Forall is_byte text) as Hby by (eapply Forall_impl; [exact Hz|]; unfold is_byte; cbn; lia).
  wp_step. unfold conv_s. rewrite (proj2 (Z.eqb_neq _ _)) by done. wp_step. apply wp_in_memory.
  assert ((if p <? 0 then INT_MAX_ else p) = default INT_MAX_ prec ∧ default INT_MAX_ prec <= INT_MAX_) as [-> Hmax].
  { destruct prec; cbn in Hp |- *; [rewrite (proj2 (Z.ltb_ge p 0)) by lia; lia|rewrite (proj2 (Z.ltb_lt p 0)) by lia; lia]. }
  eapply strnlen_spec; [exact Hb|done|done|unfold INT_MAX_ in *; lia| |].
  { destruct Hend as [->|]; [by left|by right]. }
  rewrite with_sc_same. wp_step. apply wp_in_memory. replace (Z.to_nat (lenZ text)) with (length text) by (unfold lenZ; lia).
  apply load_bytes_spec; [done|]. rewrite with_sc_same. wp_step.
  assert (∀ Q : bool → sstate → Prop, Q false τ →
    wp (if p <? 0 then c ← char_at (arg_p a + lenZ text); mret (negb (c =? 0)) else mret false) Q τ) as Hover.
  { intros Q HQ. destruct (p <? 0) eqn:E; b2p; [|by wp_step]. destruct prec as [n|]; cbn in Hp; [lia|].
    destruct Hend as [?|Hend]; [done|]. wp_step. unfold char_at. apply wp_in_memory. apply (wp_load8 _ 0); [done|].
    rewrite with_sc_same. by wp_step. }
  apply Hover. wp_step. by apply text_finish_spec.
Qed.

Lemma convert_null :
  arg_p a = 0 →
  let T := layout (left_ s) false w [] (take (Z.to_nat (default 6 prec)) null_text) in
  lenZ T <= INT_MAX_ - cnt → wp (convert i cnt ps 115 w p xp fl a) (prints_as txt T) τ.
Proof.
  intros Ha T HT. change (convert i cnt ps 115 w p xp fl a) with (v ← conv_s (arg_p a) p (fixed fl); finish cnt w v).
  wp_step. unfold conv_s. rewrite Ha. change (0 =? NULL) with true. cbv iota zeta. wp_step.
  set (l := take (Z.to_nat (if p <? 0 then INT_MAX_ else p)) null_text).
  assert (l = take (Z.to_nat (default 6 prec)) null_text) as El.
  { unfold l. destruct prec as [n|]; cbn in Hp |- *; [rewrite (proj2 (Z.ltb_ge p 0)) by lia; by destruct Hp as (-> & _)|].
    rewrite (proj2 (Z.ltb_lt p 0)) by lia. rewrite !take_ge; [done|cbn; lia|]. unfold INT_MAX_. cbn. lia. }
  unfold T in *. rewrite <- El in *. apply text_finish_spec; [|done]. apply Forall_take. repeat constructor; unfold is_byte; lia.
Qed.
End Text.
End Convert.
