(* ===== verification/PrintfFormat.v ===== *)
(** * Formatted output: formats

    What a format with its arguments prints, and the proof that [vfprintf] prints
    it. *)

From stdpp Require Import base numbers gmap list.
From S2P Require Import Prelude CMem Words Ctype StrScan StrToNum Fds Stdio StdioSpec StdioWrite Printf PrintfDigits PrintfParse PrintfOut PrintfSpec.
Open Scope Z_scope.
#[local] Set Warnings "-clear-no-such-hyp".

(** ** Reference *)

(** A part of a format: a character, [%%], or a conversion specification. *)
Inductive item :=
| Char (c : Z)
| Percent
| Spec (flags : list Z) (width : amount) (prec : option amount) (k : kind).

Definition spec_text (flags : list Z) (width : amount) (prec : option amount) (k : kind) : list Z :=
  directive_text (Directive flags width prec (kind_text k)).
Definition item_text (it : item) : list Z :=
  match it with
  | Char c => [c]
  | Percent => [37; 37]
  | Spec fs wd pr k => 37 :: spec_text fs wd pr k
  end.
Definition format_text (its : list item) : list Z := concat (item_text <$> its).

Definition valid_item (it : item) : Prop :=
  match it with
  | Char c => 0 < c < 256 ∧ c ≠ 37
  | Percent => True
  | Spec fs wd pr k => Forall (fun c => c ∈ flag_chars) fs ∧ given wd ∧ ∀ a, pr = Some a → given a
  end.

(** The width, and whether an argument gave a negative one; the precision, unless an
    argument gave a negative one. *)
Definition width_of (a : amount) (ap : list va) : option (bool * Z * list va) :=
  match a with
  | Given n => Some (false, n, ap)
  | Star =>
      '(w, ap) ← take_word ap;
      if w =? -2147483648 then None else Some (if w <? 0 then (true, - w, ap) else (false, w, ap))
  end.
Definition prec_of (p : option amount) (ap : list va) : option (option Z * list va) :=
  match p with
  | None => Some (None, ap)
  | Some (Given n) => Some (Some n, ap)
  | Some Star => '(p, ap) ← take_word ap; Some (if p <? 0 then None else Some p, ap)
  end.

(** The text for a format and its arguments. *)
Inductive prints (m : gmap Z Z) : list item → list va → list Z → Prop :=
| prints_nil ap : prints m [] ap []
| prints_char c its ap T : prints m its ap T → prints m (Char c :: its) ap (c :: T)
| prints_percent its ap T : prints m its ap T → prints m (Percent :: its) ap (37 :: T)
| prints_spec fs wd pr k its ap neg w ap1 prec ap2 T ap3 T' :
    width_of wd ap = Some (neg, w, ap1) → prec_of pr ap1 = Some (prec, ap2) →
    shows m (style_of fs neg) w prec k ap2 T ap3 → prints m its ap3 T' →
    prints m (Spec fs wd pr k :: its) ap (T ++ T').

(** ** Widths and precisions *)

Lemma take_word_range ap w ap' : take_word ap = Some (w, ap') → -2147483648 <= w <= 2147483647.
Proof. destruct ap as [|[u| |] ap]; try done. cbn. intros [= <- _]. unfold s32. pose proof (Z.mod_pos_bound (u32 u + 2147483648) 4294967296). lia. Qed.

Lemma width_of_take fs wd ap neg w ap1 :
  given wd → width_of wd ap = Some (neg, w, ap1) →
  take_width (flags_of fs) wd ap = Some (w, if neg then Z.lor (flags_of fs) LEFT_ADJ else flags_of fs, ap1) ∧ 0 <= w <= INT_MAX_.
Proof.
  destruct wd as [n|]; cbn; [intros Hn [= <- <- <-]; done|]. intros _. destruct (take_word ap) as [[v ap']|] eqn:E; [|done]. cbn.
  apply take_word_range in E. destruct (v =? -2147483648) eqn:E0; b2p; [done|]. destruct (v <? 0) eqn:En; b2p; intros [= <- <- <-]; unfold INT_MAX_.
  - rewrite s32_small by lia. split; [done|lia].
  - split; [done|lia].
Qed.

Lemma prec_of_take pr ap prec ap2 :
  (∀ a, pr = Some a → given a) → prec_of pr ap = Some (prec, ap2) →
  ∃ p xp, take_precision pr ap = Some (p, xp, ap2) ∧ precise p xp prec.
Proof.
  destruct pr as [[n|]|]; cbn.
  - intros Hn [= <- <-]. specialize (Hn _ eq_refl). by exists n, true.
  - intros _. destruct (take_word ap) as [[v ap']|] eqn:E; [|done]. cbn. apply take_word_range in E. intros [= <- <-].
    exists v, (0 <=? v). split; [done|]. destruct (v <? 0) eqn:En; b2p; cbn; unfold INT_MAX_.
    + rewrite (proj2 (Z.leb_gt 0 v)) by lia. split; [lia|done].
    + rewrite (proj2 (Z.leb_le 0 v)) by lia. split_and!; done || lia.
  - intros _ [= <- <-]. exists (-1), false. split; [done|]. cbn. split; [lia|done].
Qed.

(** ** Arguments *)

Lemma int_value_range md sg ap x ap' :
  int_value md sg ap = Some (x, ap') →
  if sg : bool then -9223372036854775808 <= x < 9223372036854775808 else 0 <= x < 18446744073709551616.
Proof.
  destruct md, ap as [|[u|u|u] ap]; try done; cbn; intros [= <- _]; destruct sg; unfold s32, u32, s16, u16, s8, u8, s64, u64;
    match goal with |- context [?a mod ?b] => pose proof (Z.mod_pos_bound a b ltac:(lia)); lia end.
Qed.

(** The state machine accepts the text of a conversion. *)
Definition kind_states (k : kind) : Z * Z := default (0, 0) (run_states _BARE (kind_text k)).
Lemma kind_run k :
  run_states _BARE (kind_text k) = Some (kind_states k) ∧ (kind_states k).1 ≠ _NOARG ∧
  (if negb ((kind_states k).2 =? 0) && (Z.land (kind_char k) 15 =? 3) then CLEAR_FLAG (kind_char k) 32 else kind_char k) = kind_char k.
Proof. destruct k as [m c| | |]; [destruct m, c|..]; split_and!; vm_compute; done. Qed.

(** The type of an integer. *)
Definition int_state (md : modifier) (sg : bool) : Z :=
  match md with
  | Mnone => if sg then _INT else _UINT
  | Mhh => if sg then _CHAR else _UCHAR
  | Mh => if sg then _SHORT else _USHORT
  | Ml => if sg then _LONG else _ULONG
  | Mll => if sg then _LLONG else _ULLONG
  | Mj => if sg then _IMAX else _UMAX
  | Mz | Mt => if sg then _PDIFF else _SIZET
  end.
Lemma kind_states_int md c : (kind_states (KInt md c)).1 = int_state md (is_signed c).
Proof. destruct md, c; vm_compute; reflexivity. Qed.

Section Args.
Context `{Dos}.
Implicit Types τ : sstate.

Lemma wrap_word u : s32 (u32 u) = s32 u ∧ s16 (u32 u) = s16 u ∧ u16 (u32 u) = u16 u ∧ s8 (u32 u) = s8 u ∧ u8 (u32 u) = u8 u.
Proof. unfold s32, u32, s16, u16, s8, u8. split_and!; dlia. Qed.

Lemma pop_int md c ap x ap' Q τ :
  int_value md (is_signed c) ap = Some (x, ap') → Q (Arg (u64 x) 0 0, ap') τ →
  wp (pop_arg (kind_states (KInt md c)).1 ap) Q τ.
Proof.
  intros Hv HQ. rewrite kind_states_int. generalize dependent (is_signed c). intros sg Hv.
  destruct ap as [|[u|u|u] ap]; [by destruct md| | |by destruct md].
  - destruct (wrap_word u) as (W1 & W2 & W3 & W4 & W5).
    assert (∀ conv y, conv (u32 u) = y → x = y → ap' = ap → wp ('(w, ap) ← va_word (VWord u :: ap); mret (Arg (u64 (conv w)) 0 0, ap)) Q τ) as Hw.
    { intros conv y Ey -> ->. unfold va_word. wp_step. wp_step. wp_step. by rewrite Ey. }
    destruct md, sg; cbn in Hv; try done; injection Hv as Ex Ep; eapply Hw; eauto.
  - assert (u64 x = u64 u → ap' = ap → wp ('(w, ap) ← va_long (VLong u :: ap); mret (Arg w 0 0, ap)) Q τ) as Hl.
    { intros Ey ->. unfold va_long. wp_step. wp_step. wp_step. by rewrite <- Ey. }
    destruct md, sg; cbn in Hv; try done; injection Hv as Ex Ep; (apply Hl; [|done]); subst x; unfold s64, u64; dlia.
Qed.

Lemma pop_word u ap Q τ (k : kind) :
  match k with
  | KChar => Q (Arg (u64 (s8 u)) 0 0, ap) τ
  | KString => Q (Arg 0 (u32 u) 0, ap) τ
  | KPointer => Q (Arg (u64 (u32 u)) 0 0, ap) τ
  | KInt _ _ => False
  end → wp (pop_arg (kind_states k).1 (VWord u :: ap)) Q τ.
Proof.
  destruct (wrap_word u) as (_ & _ & _ & W4 & _). 
  assert (∀ g : Z → arg, Q (g (u32 u), ap) τ → wp ('(w, ap) ← va_word (VWord u :: ap); mret (g w, ap)) Q τ) as Hw.
  { intros g HQ. unfold va_word. wp_step. wp_step. by wp_step. }
  destruct k; [done|..]; intros HQ.
  - apply (Hw (fun w => Arg (u64 (s8 w)) 0 0)). by rewrite W4.
  - by apply (Hw (fun w => Arg 0 w 0)).
  - by apply (Hw (fun w => Arg (u64 w) 0 0)).
Qed.

(** ** One specification *)

Context {σ : sstate} {i : Z} {f : iob} {d : fd} {h : handle} (HS : stream σ i f d h).
Context (fmt_fp : Z → Z → Z → Z → Z → Z → M sstate Z) (strerror : Z → list Z) (wctomb : Z → option (list Z)).
#[local] Abbreviation printed := (printed σ i f d h).
#[local] Abbreviation convert := (convert fmt_fp strerror wctomb).

Lemma convert_spec txt τ cnt w p xp fl s prec k ap T ap' :
  printed txt τ → 0 <= cnt → 0 <= w <= INT_MAX_ → styled fl s → precise p xp prec →
  shows (mem (sc τ)) s w prec k ap T ap' → lenZ T <= INT_MAX_ - cnt →
  ∃ a, (∀ Q, Q (a, ap') τ → wp (pop_arg (kind_states k).1 ap) Q τ) ∧
       wp (convert i cnt (kind_states k).2 (kind_char k) w p xp fl a) (fun r υ => r = inr (lenZ T) ∧ printed (txt ++ T) υ) τ.
Proof.
  intros HP Hcnt Hw Hst Hp Hsh HT. destruct Hsh as [md c ap x ap' Hv|u ap|u ap text Hu Htext|u ap Hu|u ap].
  - exists (Arg (u64 x) 0 0). split; [intros Q HQ; by eapply pop_int|]. pose proof (int_value_range _ _ _ _ _ Hv) as Hx.
    destruct c; cbn [is_signed] in Hx; [eapply convert_d|eapply convert_d|eapply convert_u|eapply convert_o
      |eapply convert_hex with (up := false)|eapply convert_hex with (up := true)];
      try done; auto; cbn [arg_i]; unfold u64; by rewrite Z.mod_small by lia.
  - exists (Arg (u64 (s8 u)) 0 0). split; [intros Q HQ; by apply pop_word|].
    assert (u8 u = u8 (u64 (s8 u))) as E by (unfold u8, u64, s8; dlia). rewrite E in *. by eapply convert_c.
  - exists (Arg 0 (u32 u) 0). split; [intros Q HQ; by apply pop_word|]. by eapply convert_s.
  - exists (Arg 0 (u32 u) 0). split; [intros Q HQ; by apply pop_word|]. by eapply convert_null.
  - exists (Arg (u64 (u32 u)) 0 0). split; [intros Q HQ; by apply pop_word|]. pose proof (Z.mod_pos_bound u 4294967296 ltac:(lia)).
    assert (u64 (u32 u) = u32 u) as -> by (unfold u64, u32; rewrite (Z.mod_small (u mod _)) by lia; done).
    eapply convert_p with (a := Arg (u32 u) 0 0); try done. cbn. unfold u32. lia.
Qed.

(** The first character behind the flags, and behind the width. *)
Lemma precision_hd0 pr k rest :
  letter (hd0 (precision_text pr ++ kind_text k ++ rest)) ∨ hd0 (precision_text pr ++ kind_text k ++ rest) = 46.
Proof. destruct pr; [by right|left]. unfold letter. destruct k as [[] []| | |]; cbn; lia. Qed.

Lemma kind_hd0 k rest : letter (hd0 (kind_text k ++ rest)).
Proof. unfold letter. destruct k as [[] []| | |]; cbn; lia. Qed.

Lemma is_flag_false c : c = 42 ∨ c = 46 ∨ 49 <= c → is_flag c = false.
Proof. intros Hc. unfold is_flag, flag_chars. apply bool_decide_false. set_solver by lia. Qed.

Lemma width_hd0 wd pr k rest : given wd → is_flag (hd0 (amount_text wd ++ precision_text pr ++ kind_text k ++ rest)) = false.
Proof.
  intros Hg. apply is_flag_false.
  assert (hd0 (precision_text pr ++ kind_text k ++ rest) = 46 ∨ 65 <= hd0 (precision_text pr ++ kind_text k ++ rest)) as Hp.
  { destruct pr; [by left|right]. apply kind_hd0. }
  destruct wd as [n|]; [|by left]. cbn [amount_text].
  destruct (text_of_hd0 n (precision_text pr ++ kind_text k ++ rest)) as [-> |?]; [cbn in Hg; unfold INT_MAX_ in Hg; lia|lia|lia].
Qed.

Lemma specification_spec txt τ cnt s fs wd pr k ap neg w ap1 prec ap2 T ap3 rest :
  printed txt τ → 0 <= cnt → cstr (mem (sc τ)) s (spec_text fs wd pr k ++ rest) → lenZ fs < 4294967296 →
  valid_item (Spec fs wd pr k) → width_of wd ap = Some (neg, w, ap1) → prec_of pr ap1 = Some (prec, ap2) →
  shows (mem (sc τ)) (style_of fs neg) w prec k ap2 T ap3 → lenZ T <= INT_MAX_ - cnt →
  wp (specification fmt_fp strerror wctomb i cnt (-1) s false ap)
     (fun r υ => r = inr (lenZ T, s + lenZ (spec_text fs wd pr k), false, ap3) ∧ printed (txt ++ T) υ) τ.
Proof.
  intros HP Hcnt Hs Hfs (Hf & Hwd & Hpr) Ew Ep Hsh HT. unfold spec_text, directive_text in *. cbn [dr_flags dr_width dr_precision dr_type] in *.
  rewrite <- !app_assoc in Hs. set (q1 := s + lenZ fs). set (q2 := q1 + lenZ (amount_text wd)). set (q3 := q2 + lenZ (precision_text pr)).
  pose proof (cstr_suffix _ _ _ _ Hs) as H1. fold q1 in H1. pose proof (cstr_suffix _ _ _ _ H1) as H2. fold q2 in H2.
  pose proof (cstr_suffix _ _ _ _ H2) as H3. fold q3 in H3.
  destruct (width_of_take fs wd ap neg w ap1 Hwd Ew) as [Etw Hw]. destruct (prec_of_take pr ap1 prec ap2 Hpr Ep) as (p & xp & Etp & Hp).
  destruct (kind_run k) as (Erun & Hno & Ht).
  unfold specification. wp_step. eapply read_flags_spec; [exact Hs|done|done|by apply width_hd0|]. fold q1. cbn beta iota.
  wp_step. eapply read_width_spec; [exact H1|done|apply precision_hd0|exact Etw|]. fold q2. cbn beta iota.
  wp_step. eapply read_precision_spec; [exact H2|done|apply kind_hd0|exact Etp|]. fold q3. cbn beta iota.
  destruct (kind_states k) as [st ps] eqn:Ek. cbn [fst snd] in *.
  assert (lenZ (kind_text k) < 4294967296) as Hkl by (destruct k as [[] []| | |]; done).
  wp_step. eapply read_type_spec; [exact H3|done|exact Erun|]. cbn beta iota.
  rewrite (proj2 (Z.eqb_neq st _) Hno). cbn [andb orb Z.leb].
  destruct (convert_spec txt τ cnt w p xp (if neg then Z.lor (flags_of fs) LEFT_ADJ else flags_of fs) (style_of fs neg) prec k ap2 T ap3)
    as (a & Hpop & Hcv); try done; [by apply flags_styled|]. rewrite Ek in Hpop, Hcv. cbn [fst snd] in Hpop, Hcv.
  wp_step. apply Hpop. cbn beta iota. wp_step.
  assert (cstr (mem (sc τ)) (q3 + lenZ (kind_text k) - 1) (kind_char k :: rest)) as Hc.
  { unfold kind_text in *. rewrite <- app_assoc in H3. apply cstr_suffix in H3. rewrite lenZ_app. change (lenZ [kind_char k]) with 1.
    by replace (q3 + (lenZ match k with KInt m _ => modifier_text m | _ => [] end + 1) - 1)
      with (q3 + lenZ match k with KInt m _ => modifier_text m | _ => [] end) by lia. }
  eapply wp_char; [exact Hc|]. cbn [hd0]. rewrite Ht. wp_step. eapply wp_mono; [exact Hcv|]. intros r υ [-> HP']. wp_step.
  split; [|done]. rewrite !lenZ_app. unfold q3, q2, q1. do 4 f_equal. lia.
Qed.

(** ** Texts between specifications *)

Lemma literal_end_spec τ s cs t Q :
  cstr (mem (sc τ)) s (cs ++ t) → lenZ cs < 4294967296 → Forall (fun c => 0 < c < 256 ∧ c ≠ 37) cs → hd0 t = 0 ∨ hd0 t = 37 →
  Q (s + lenZ cs) τ → wp (literal_end s) Q τ.
Proof.
  intros Hs Hl Hcs Ht HQ. unfold literal_end.
  apply (wp_scan _ (fun k q => q = s + lenZ k) τ s cs t); [done|done|change (lenZ []) with 0; lia|..].
  - intros k c l' q E -> Hc. wp_step. eapply wp_char; [done|]. cbn [hd0]. rewrite E in Hcs. apply Forall_app in Hcs as [_ Hcs].
    inversion Hcs as [|? ? Hc1 _]; subst. rewrite (proj2 (Z.eqb_neq c 0)), (proj2 (Z.eqb_neq c 37)) by lia. cbn [negb andb]. wp_step.
    eexists. do 2 (split; [done|]). rewrite lenZ_app. change (lenZ [c]) with 1. lia.
  - intros q -> Hc. wp_step. eapply wp_char; [done|]. destruct Ht as [-> | ->]; wp_test; wp_step; by eexists.
Qed.

Definition percents (k : nat) : list Z := replicate (2 * k) 37.

Lemma percent_end_spec τ s k t Q :
  cstr (mem (sc τ)) s (percents k ++ t) → Z.of_nat k < 4294967296 → hd0 t ≠ 37 ∨ hd0 (tail t) ≠ 37 →
  Q (s + Z.of_nat k, s + 2 * Z.of_nat k) τ → wp (percent_end s) Q τ.
Proof.
  intros Hs Hk Ht HQ. unfold percent_end.
  apply (wp_loop_ghost _ (fun (n : nat) '(z, q) υ => υ = τ ∧ (n <= k)%nat ∧ z = s + Z.of_nat (k - n) ∧ q = s + 2 * Z.of_nat (k - n) ∧
    cstr (mem (sc τ)) q (percents n ++ t)) Q Z.of_nat) with (g := k).
  - intros n [z q] υ (-> & Hn & -> & -> & Hc). destruct n as [|n].
    + cbn [percents] in Hc. change (percents 0 ++ t) with t in Hc. replace (k - 0)%nat with k in * by lia.
      wp_step. eapply wp_char; [exact Hc|]. destruct (hd0 t =? 37) eqn:E; b2p; [|by wp_step].
      destruct t as [|c t]; [done|]. wp_step. eapply wp_char; [by eapply cstr_tail|]. cbn [hd0 tail] in *.
      rewrite (proj2 (Z.eqb_neq (hd0 t) 37)) by (destruct Ht; done). by wp_step.
    + assert (percents (S n) = 37 :: 37 :: percents n) as E by (unfold percents; by replace (2 * S n)%nat with (S (S (2 * n))) by lia).
      rewrite E in Hc. cbn [app] in Hc. pose proof (cstr_tail _ _ _ _ Hc) as Hc2. pose proof (cstr_tail _ _ _ _ Hc2) as Hc3.
      wp_step. eapply wp_char; [exact Hc|]. wp_test. wp_step. eapply wp_char; [exact Hc2|]. wp_test. wp_step. exists n. split; [|lia].
      split; [done|]. split; [lia|]. split; [lia|]. split; [lia|]. by rewrite <- Z.add_assoc in Hc3.
  - split; [done|]. split; [lia|]. rewrite Nat.sub_diag. split; [lia|]. split; [lia|done].
  - intros n [z q] υ _. lia.
  - lia.
Qed.

(** The longest text that is printed at once. *)
Definition is_percent (it : item) : bool := match it with Percent => true | _ => false end.
Definition is_char (it : item) : bool := match it with Char _ => true | _ => false end.
Definition starts (b : item → bool) (its : list item) : bool := match its with it :: _ => b it | [] => false end.

Lemma split_percents its : ∃ k rest, its = replicate k Percent ++ rest ∧ starts is_percent rest = false.
Proof.
  induction its as [|it its (k & rest & -> & Hr)]; [by exists 0%nat, []|].
  destruct (is_percent it) eqn:E; [|by exists 0%nat, (it :: replicate k Percent ++ rest)].
  destruct it; try done. by exists (S k), rest.
Qed.
Lemma split_items its :
  ∃ cs k rest, its = (Char <$> cs) ++ replicate k Percent ++ rest ∧ starts is_percent rest = false ∧ (k = 0%nat → starts is_char rest = false).
Proof.
  induction its as [|it its (cs & k & rest & E & H1 & H2)]; [by exists [], 0%nat, []|].
  destruct (is_char it) eqn:Ec.
  - destruct it; try done. exists (c :: cs), k, rest. by rewrite E.
  - destruct (split_percents (it :: its)) as (k' & rest' & E' & Hp). exists [], k', rest'. split_and!; try done.
    intros ->. cbn in E'. by subst rest'.
Qed.

Lemma prints_text m cs k rest ap T :
  prints m ((Char <$> cs) ++ replicate k Percent ++ rest) ap T → ∃ T', T = (cs ++ replicate k 37) ++ T' ∧ prints m rest ap T'.
Proof.
  revert T. induction cs as [|c cs IH]; intros T HT; cbn in HT.
  - revert T HT. induction k as [|k IHk]; intros T HT; cbn in HT; [by exists T|]. inversion HT as [| |? ? ? HT'|]; subst.
    destruct (IHk _ HT') as (T' & -> & HP). by exists T'.
  - inversion HT as [|? ? ? ? HT'| |]; subst. destruct (IH _ HT') as (T' & -> & HP). by exists T'.
Qed.

Lemma format_app its its' : format_text (its ++ its') = format_text its ++ format_text its'.
Proof. unfold format_text. by rewrite fmap_app, concat_app. Qed.
Lemma format_chars cs : format_text (Char <$> cs) = cs.
Proof. induction cs as [|c cs IH]; [done|]. unfold format_text in *. cbn. by rewrite IH. Qed.
Lemma format_percents k : format_text (replicate k Percent) = percents k.
Proof.
  induction k as [|k IH]; [done|]. unfold percents. replace (2 * S k)%nat with (S (S (2 * k))) by lia. cbn.
  unfold format_text in *. cbn. by rewrite IH.
Qed.

(** ** Specifications contain neither of the two characters that are looked for. *)

Lemma spec_chars fs wd pr k :
  valid_item (Spec fs wd pr k) → Forall (fun c => c ≠ 36 ∧ c ≠ 37) (spec_text fs wd pr k).
Proof.
  intros (Hf & Hwd & Hpr). unfold spec_text, directive_text. cbn [dr_flags dr_width dr_precision dr_type].
  assert (∀ a, given a → Forall (fun c => c ≠ 36 ∧ c ≠ 37) (amount_text a)) as Ha.
  { intros [n|] Hg; [|by repeat constructor]. cbn [amount_text]. destruct (number_text n) as [Hd _]; [cbn in Hg; unfold INT_MAX_ in Hg; lia|].
    eapply Forall_impl; [exact Hd|]. intros c Hc. unfold c_digit, between in Hc. b2p. lia. }
  rewrite !Forall_app. split_and!.
  - eapply Forall_impl; [exact Hf|]. intros c Hc. unfold flag_chars in Hc. set_solver by lia.
  - by apply Ha.
  - destruct pr as [a|]; [|done]. constructor; [done|]. by apply Ha, Hpr.
  - destruct k as [[] []| | |]; repeat constructor; done.
Qed.

Lemma spec_hd0 fs wd pr k rest :
  valid_item (Spec fs wd pr k) →
  hd0 (spec_text fs wd pr k ++ rest) ≠ 37 ∧
  (c_digit (hd0 (spec_text fs wd pr k ++ rest)) = true → hd0 (tail (spec_text fs wd pr k ++ rest)) ≠ 36).
Proof.
  intros Hv. pose proof (spec_chars _ _ _ _ Hv) as HF. unfold spec_text, directive_text in *. cbn [dr_flags dr_width dr_precision dr_type] in *.
  rewrite !app_assoc in *. set (l := (fs ++ amount_text wd) ++ precision_text pr) in *. rewrite <- app_assoc.
  destruct l as [|c l]; cbn [app hd0 tail].
  - pose proof (kind_hd0 k rest) as Hk. unfold letter in Hk. split; [lia|]. rewrite c_digit_false by lia. done.
  - cbn [app] in HF. inversion HF as [|? ? Hc HF']; subst. split; [apply Hc|]. intros _.
    destruct l as [|c' l]; cbn [app hd0]; [pose proof (kind_hd0 k rest) as Hk; unfold letter in Hk; lia|].
    cbn [app] in HF'. inversion HF' as [|? ? Hc' _]; subst. apply Hc'.
Qed.

Lemma rest_hd0 rest :
  Forall valid_item rest → starts is_percent rest = false →
  (hd0 (format_text rest) ≠ 37 ∨ hd0 (tail (format_text rest)) ≠ 37) ∧
  (starts is_char rest = false → hd0 (format_text rest) = 0 ∨ hd0 (format_text rest) = 37).
Proof.
  intros Hv Hp. destruct rest as [|[c| |fs wd pr k] rest]; try done; cbn [starts is_char is_percent] in *.
  - split; [by left|by left].
  - inversion Hv as [|? ? Hc _]; subst. destruct Hc as [_ Hc]. split; [by left|done].
  - inversion Hv as [|? ? Hs _]; subst. split; [right|by right].
    exact (proj1 (spec_hd0 fs wd pr k (format_text rest) Hs)).
Qed.

(** ** The loop *)

Section Loop.
Context (fmt : Z) (text : list Z) (HR : iob_BufferReadBytes f = 0) (Htext : lenZ text <= INT_MAX_).
#[local] Abbreviation M0 := (mem (sc σ)).

(** What is left of the format, and how much has been printed. *)
Definition loop_inv (its : list item) (v : Z * Z * Z * bool * list va) (τ : sstate) : Prop :=
  let '(s, cnt, l, l10n, ap) := v in
  l10n = false ∧ 0 <= cnt ∧ 0 <= l ∧ cstr M0 s (format_text its) ∧ Forall valid_item its ∧ lenZ (format_text its) < 4294967296 ∧
  ∃ txt T, printed txt τ ∧ lenZ txt = cnt + l ∧ text = txt ++ T ∧ prints M0 its ap T.

Lemma loop_fit txt T : text = txt ++ T → lenZ txt + lenZ T <= INT_MAX_.
Proof. intros ->. by rewrite lenZ_app in Htext. Qed.

Lemma printed_mem txt τ : printed txt τ → mem (sc τ) = M0.
Proof. intros [F _]. by apply F. Qed.

(** The bytes that are printed before a specification. *)
Lemma text_bytes s cs k t :
  cstr M0 s (cs ++ percents k ++ t) → bytes_at M0 s (cs ++ replicate k 37) ∧ Forall is_byte (cs ++ replicate k 37).
Proof.
  intros [Hb Hf]. assert (percents k = replicate k 37 ++ replicate k 37) as E by (unfold percents; rewrite <- replicate_add; f_equal; lia).
  rewrite E in *. rewrite !app_assoc in *. rewrite <- (app_assoc _ t), <- (app_assoc _ (replicate k 37)) in Hb. rewrite <- (app_assoc _ (replicate k 37)) in Hf.
  split; [by apply bytes_at_app in Hb as [? _]|]. apply Forall_app in Hf as [Hf _]. eapply Forall_impl; [exact Hf|]. unfold is_byte. intros x ?. lia.
Qed.

(** A specification. *)
Lemma loop_directive its s cnt ap txt T τ :
  printed txt τ → lenZ txt = cnt → text = txt ++ T → prints M0 its ap T → cstr M0 s (format_text its) →
  Forall valid_item its → lenZ (format_text its) < 4294967296 → its ≠ [] → starts is_char its = false → starts is_percent its = false →
  wp (pos ← positional (s + 1);
      argpos ← (if pos : bool then c ← char_at (s + 1); mret (c - 48) else mret (-1));
      r ← specification fmt_fp strerror wctomb i cnt argpos (if pos : bool then s + 3 else s + 1) (if pos : bool then true else false) ap;
      match r with
      | inl e => break e
      | inr (l, s, l10n, ap) => continue (s, cnt, l, l10n, ap)
      end)
     (fun r υ => match r with
                 | inl a' => ∃ its', loop_inv its' a' υ ∧ lenZ (format_text its') < lenZ (format_text its)
                 | inr b => b = lenZ text ∧ printed text υ
                 end) τ.
Proof.
  intros HP HL ET HT Hs Hv Hlen Hne Hch Hpc. destruct its as [|[c| |fs wd pr k] its]; try done. pose proof (printed_mem _ _ HP) as EM.
  inversion Hv as [|? ? Hv1 Hv2]; subst. inversion HT as [| | |? ? ? ? ? ? neg w ap1 prec ap2 T1 ap3 T2 Ew Ep Hsh HT2]; subst.
  assert (format_text (Spec fs wd pr k :: its) = 37 :: spec_text fs wd pr k ++ format_text its) as Ef by done.
  rewrite Ef, lenZ_cons, lenZ_app in *. apply cstr_tail in Hs as Hs1. destruct (spec_hd0 fs wd pr k (format_text its) Hv1) as [_ Hpos].
  pose proof (loop_fit _ _ ET) as Hfit. rewrite lenZ_app in Hfit. pose proof (lenZ_nonneg T2). pose proof (lenZ_nonneg txt).
  pose proof (lenZ_nonneg T1). pose proof (lenZ_nonneg (format_text its)). pose proof (lenZ_nonneg (spec_text fs wd pr k)).
  wp_step. eapply positional_spec; [rewrite EM; exact Hs1|exact Hpos|]. wp_step. wp_step. wp_step.
  assert (lenZ fs <= lenZ (spec_text fs wd pr k)) as Hfs.
  { unfold spec_text, directive_text. cbn [dr_flags]. rewrite lenZ_app. pose proof (lenZ_nonneg (amount_text wd ++ precision_text pr ++ kind_text k)).
    cbn [dr_width dr_precision dr_type]. lia. }
  eapply wp_mono; [apply (specification_spec txt τ (lenZ txt) (s + 1) fs wd pr k ap neg w ap1 prec ap2 T1 ap3 (format_text its)); rewrite ?EM; try done; lia|].
  intros r υ [-> HP']. wp_step. exists its. split; [|lia]. do 3 (split; [done || lia|]). split; [by apply cstr_suffix in Hs1|].
  split; [done|]. split; [lia|]. exists (txt ++ T1), T2. rewrite lenZ_app. split; [done|]. split; [lia|]. split; [|done].
  rewrite ET. by rewrite <- app_assoc.
Qed.

Lemma loop_spec ap τ :
  ∀ its s cnt l, loop_inv its (s, cnt, l, false, ap) τ →
  wp (loop (fun '(s, cnt, l, l10n, ap) =>
          if INT_MAX_ - cnt <? l then _ ← __set_errno EOVERFLOW; break (-1)
          else
            let cnt := cnt + l in
            c ← char_at s;
            if c =? 0 then break cnt
            else
              let a := s in
              s ← literal_end s;
              '(z, s) ← percent_end s;
              if INT_MAX_ - cnt <? z - a then _ ← __set_errno EOVERFLOW; break (-1)
              else
                let l := z - a in
                text ← in_memory (load_bytes a (Z.to_nat l));
                _ ← out i text;
                if negb (l =? 0) then continue (s, cnt, l, l10n, ap)
                else
                  pos ← positional (s + 1);
                  argpos ← (if pos : bool then c ← char_at (s + 1); mret (c - 48) else mret (-1));
                  r ← specification fmt_fp strerror wctomb i cnt argpos (if pos : bool then s + 3 else s + 1) (if pos : bool then true else l10n) ap;
                  match r with
                  | inl e => break e
                  | inr (l, s, l10n, ap) => continue (s, cnt, l, l10n, ap)
                  end) (s, cnt, l, false, ap)) (fun r υ => r = lenZ text ∧ printed text υ) τ.
Proof.
  intros its s cnt l HI. apply (wp_loop_ghost _ loop_inv _ (fun its => lenZ (format_text its))) with (g := its);
    [|done|intros; apply lenZ_nonneg|destruct HI as (_ & _ & _ & _ & _ & HI & _); lia].
  clear its s cnt l ap τ HI. intros its [[[[s cnt] l] l10n] ap] τ (-> & Hcnt & Hl & Hs & Hv & Hlen & txt & T & HP & HL & ET & HT).
  pose proof (loop_fit _ _ ET) as Hfit. pose proof (lenZ_nonneg T). rewrite (proj2 (Z.ltb_ge (INT_MAX_ - cnt) l)) by lia. cbv zeta.
  pose proof (printed_mem _ _ HP) as EM. rewrite <- EM in Hs.
  wp_step. eapply wp_char; [exact Hs|]. destruct its as [|it its'].
  { assert (T = []) as -> by (by inversion HT). rewrite app_nil_r in ET. rewrite ET. wp_test. wp_step. split; [lia|done]. }
  set (its := it :: its') in *.
  assert (hd0 (format_text its) ≠ 0) as Hc0.
  { unfold its in *. inversion Hv as [|? ? Hv1 _]; subst. destruct it as [c| |]; [|done|done].
    change (c ≠ 0). cbn in Hv1. lia. }
  rewrite (proj2 (Z.eqb_neq _ 0)) by done.
  destruct (split_items its) as (cs & k & rest & Eits & Hr1 & Hr2).
  rewrite Eits, !format_app, format_chars, format_percents in Hs. rewrite Eits, !format_app, format_chars, format_percents, !lenZ_app in Hlen.
  rewrite Eits in HT, Hv. rewrite !Forall_app in Hv. destruct Hv as (Hvc & _ & Hvr).
  destruct (prints_text _ _ _ _ _ _ HT) as (T' & -> & HT').
  assert (lenZ (percents k) = 2 * Z.of_nat k) as Elp by (unfold percents; rewrite lenZ_repeated; lia).
  pose proof (lenZ_nonneg cs). pose proof (lenZ_nonneg (format_text rest)).
  destruct (rest_hd0 rest Hvr Hr1) as [Hr3 Hr4].
  wp_step. eapply literal_end_spec; [exact Hs|lia|exact (proj1 (Forall_fmap _ _ _) Hvc)|destruct k; [by apply Hr4, Hr2|by right]|].
  apply cstr_suffix in Hs as Hs2. wp_step. eapply percent_end_spec; [exact Hs2|lia|exact Hr3|]. cbn beta iota.
  set (n := s + lenZ cs + Z.of_nat k - s). assert (n = lenZ cs + Z.of_nat k) as En by (unfold n; lia).
  assert (lenZ (cs ++ replicate k 37) = n) as Eln by (rewrite lenZ_app, lenZ_repeated; lia).
  rewrite lenZ_app in Hfit. pose proof (lenZ_nonneg T'). rewrite (proj2 (Z.ltb_ge _ n)) by lia.
  rewrite EM in Hs. destruct (text_bytes s cs k _ Hs) as [Hb1 Hb2].
  wp_step. apply wp_in_memory. replace (Z.to_nat n) with (length (cs ++ replicate k 37)) by (unfold lenZ in Eln; lia).
  apply load_bytes_spec; [by rewrite EM|]. rewrite with_sc_same. wp_step. eapply wp_mono; [by apply (out_spec HS)|]. intros [] υ HP2.
  apply cstr_suffix in Hs. apply cstr_suffix in Hs. rewrite Elp in Hs.
  destruct (n =? 0) eqn:E0; b2p; cbn [negb].
  2: { wp_step. exists rest. rewrite Eits, !format_app, format_chars, format_percents, !lenZ_app. split; [|lia].
       do 6 (split; [done || lia|]). exists (txt ++ cs ++ replicate k 37), T'. rewrite lenZ_app.
       split; [done|]. split; [lia|]. split; [rewrite ET; by rewrite <- !app_assoc|done]. }
  assert (cs = [] ∧ k = 0%nat) as [-> ->] by (split; [destruct cs as [|c cs]; [done|pose proof (lenZ_nonneg cs); rewrite lenZ_cons in En; lia]|lia]).
  cbn [replicate app fmap list_fmap] in *. rewrite app_nil_r in HP2. change (lenZ []) with 0. change (2 * Z.of_nat 0) with 0.
  assert (rest ≠ []) as Hne by (by rewrite <- Eits).
  rewrite !Z.add_0_r. rewrite Eits in *. change (lenZ []) with 0 in Hs. rewrite !Z.add_0_r in Hs.
  apply (loop_directive rest s (cnt + l) ap txt T'); try done; rewrite Elp in Hlen; try lia; by apply Hr2.
Qed.
End Loop.

Lemma printf_core_spec fmt its ap text :
  iob_BufferReadBytes f = 0 → cstr (mem (sc σ)) fmt (format_text its) → Forall valid_item its → lenZ (format_text its) < 4294967296 →
  prints (mem (sc σ)) its ap text → lenZ text <= INT_MAX_ →
  wp (printf_core fmt_fp strerror wctomb i fmt ap) (fun r τ => r = lenZ text ∧ printed text τ) σ.
Proof.
  intros HR Hf Hv Hlen HT Htext. unfold printf_core. apply (loop_spec text Htext ap σ its). do 3 (split; [done|]). split; [done|].
  split; [done|]. split; [done|]. exists [], text. split; [by apply printed_start|]. done.
Qed.
End Args.
