(* ===== verification/PrintfSession.v ===== *)
(** * Formatted output: theorems

    [vfprintf] on a stream prints what its format and arguments stand for, and three
    conversions that do not do what they should. *)

From stdpp Require Import base numbers gmap list.
From S2P Require Import Prelude CMem Words Ctype StrScan StrToNum Fds Stdio StdioSpec StdioWrite Printf PrintfDigits PrintfParse PrintfOut PrintfSpec PrintfFormat.
Open Scope Z_scope.

Section Session.
Context `{Dos}.
Implicit Types (σ τ : sstate) (f g : iob) (d e : fd) (h : handle).
Context (fmt_fp : Z → Z → Z → Z → Z → Z → M sstate Z) (strerror : Z → list Z) (wctomb : Z → option (list Z)).

(** [text] is in the file on the disk, at the position that the program saw, or the
    error indicator is set. *)
Definition delivered σ i f d h (text : list Z) τ : Prop :=
  framed i (iob_Descriptor f) σ τ ∧
  ∃ g e, printable τ i g e ∧ same_stream f d g e ∧
    (Z.testbit (iob_Flags g) 6 = true ∨
     ∃ h', stream τ i g e h' ∧ content h' = overwrite (lcontent f h) (lpos f h) text ∧ lpos g h' = lpos f h + lenZ text).

Lemma written_content text f h g h' :
  written text f h g h' → iob_BufferWriteBytes g = 0 →
  content h' = overwrite (lcontent f h) (lpos f h) text ∧ lpos g h' = lpos f h + lenZ text.
Proof.
  intros (_ & Ec & El) E0. split; [|done]. rewrite <- Ec. unfold lcontent, pending. rewrite E0. by rewrite overwrite_nil.
Qed.

Lemma fflush_delivers σ i f d h text τ :
  stream σ i f d h → printed σ i f d h text τ → wp (__fflush_r (Some i)) (fun _ υ => delivered σ i f d h text υ) τ.
Proof.
  intros HS [F (g & e & HP & SS & HE)]. unfold __fflush_r. wp_step. apply (printable_get HP). unfold __iob_write_buffer_is_valid.
  destruct (0 <? iob_BufferWriteBytes g) eqn:E; b2p.
  2: { wp_step. split; [done|]. exists g, e. split; [done|]. split; [done|]. destruct HE as [HE|(h' & HS' & HW)]; [by left|right].
       exists h'. split; [done|]. apply written_content; [done|]. destruct (pr_wf _ _ _ _ HP). lia. }
  assert (∀ r υ, delivered σ i f d h text υ → wp (if r <? 0 then mret EOF else mret OK) (fun _ υ => delivered σ i f d h text υ) υ) as Hend
    by (intros r υ HD; destruct (r <? 0); by wp_step).
  wp_step. pose proof (flush_keeps _ _ _ _ HP) as HK. destruct HE as [HE|(h' & HS' & HW)].
  - eapply wp_mono; [exact HK|]. intros r υ [[F2 (g2 & e2 & K1 & K2 & _ & K3)] _]. apply Hend. rewrite (ss_descriptor _ _ _ _ SS) in F2.
    split; [by eapply framed_trans|]. exists g2, e2. split; [done|]. split; [by eapply same_stream_trans|]. left. by apply K3.
  - eapply wp_mono; [exact (wp_and _ _ _ _ HK (flush_spec _ _ _ _ _ HS'))|].
    intros r υ [[[F2 (g2 & e2 & K1 & K2 & _ & K3)] _] [_ HE]]. apply Hend. rewrite (ss_descriptor _ _ _ _ SS) in F2.
    split; [by eapply framed_trans|]. destruct HE as [[_ (_ & g3 & Eg & _ & Hb)]|(g3 & d3 & h3 & HS3 & SS3 & HF)].
    + exists g2, e2. split; [done|]. split; [by eapply same_stream_trans|]. left. rewrite (pr_iob _ _ _ _ K1) in Eg. by simplify_eq.
    + exists g3, d3. assert (written [] g h' g3 h3) as W3 by (eapply flush_written; [exact HS'|apply HW|exact HF]).
      split; [eapply stream_printable; [exact HS3|apply W3]|]. split; [eapply same_stream_trans; [exact SS|exact SS3]|]. right. exists h3.
      split; [done|]. rewrite <- (app_nil_r text). apply written_content; [|by destruct HF as (_ & -> & _)].
      eapply written_trans; [exact HW|exact W3|apply (lpos_range HS)].
Qed.

(** C24: [vfprintf] on a stream with a format of text, [%%] and conversions of
    integers of every length, characters, strings and pointers, with any flags,
    widths and precisions, given in the format or as arguments, returns the number of
    characters of the text that the format and the arguments stand for, and that
    text is in the file on the disk; if a write failed, the error indicator is set,
    and the number is returned all the same. *)
Theorem vfprintf_prints σ i f d h fmt its ap text :
  stream σ i f d h → iob_BufferReadBytes f = 0 → Z.testbit (iob_Flags f) 8 = true →
  cstr (mem (sc σ)) fmt (format_text its) → Forall valid_item its → lenZ (format_text its) < 4294967296 →
  prints (mem (sc σ)) its ap text → lenZ text <= INT_MAX_ →
  wp (vfprintf fmt_fp strerror wctomb i fmt ap) (fun r τ => r = lenZ text ∧ delivered σ i f d h text τ) σ.
Proof.
  intros HS HR H8 Hf Hv Hlen HT Htext. unfold vfprintf, __vfprintf_r. wp_step.
  eapply wp_mono; [by apply (printf_core_spec HS fmt_fp strerror wctomb fmt its ap text)|]. intros r τ [-> HP].
  rewrite (proj2 (Z.eqb_neq (lenZ text) EOF)) by (pose proof (lenZ_nonneg text); unfold EOF; lia). cbn [negb].
  pose proof HP as [_ (g & e & HPr & SS & _)]. wp_step. apply (printable_get HPr).
  unfold IOBF_NO_NUL. rewrite FLAG_IS_CLEAR_bit, (ss_mode _ _ _ _ SS), H8 by lia. cbn [negb]. wp_step. wp_step. wp_step.
  eapply wp_mono; [exact (fflush_delivers σ i f d h text τ HS HP)|]. intros r υ HD. by wp_step.
Qed.

(** ** Conversions that do not print their argument *)

Lemma numeral_long n b x : 2 <= b → b ^ Z.of_nat n <= x → ∀ m, (n < m)%nat → (n < length (numeral m b x))%nat.
Proof.
  intros Hb. revert x. induction n as [|n IH]; intros x Hx m Hm; (destruct m as [|m]; [lia|]); cbn [numeral].
  - cbn in Hx. rewrite (proj2 (Z.eqb_neq x 0)) by lia. rewrite length_app. cbn. lia.
  - rewrite Nat2Z.inj_succ, Z.pow_succ_r in Hx by lia. pose proof (Z.pow_pos_nonneg b (Z.of_nat n) ltac:(lia) ltac:(lia)).
    rewrite (proj2 (Z.eqb_neq x 0)) by lia. rewrite length_app. cbn.
    assert (n < length (numeral m b (x / b)))%nat by (apply IH; [apply Z.div_le_lower_bound; lia|lia]). lia.
Qed.

(** C37: [%b] of an int that is negative stores 64 digits into a buffer of 40 bytes,
    whatever the flags, width and precision are: its argument is taken as a signed
    number and extended to 64 bits. *)
Theorem printf_b_overruns i cnt ps w p xp fl u ap σ :
  s32 u < 0 →
  ('(a, ap) ← pop_arg (state_entry _BARE chr_b) (VWord u :: ap); convert fmt_fp strerror wctomb i cnt ps chr_b w p xp fl a) σ = Fault.
Proof.
  intros Hu. assert (s32 (u32 u) = s32 u) as E by apply wrap_word.
  change (state_entry _BARE chr_b) with _INT.
  change ((_ ← store_digits (fmt_b (u64 (s32 (u32 u))) 32);
           finish (i := i) cnt w (conv_b chr_b (u64 (s32 (u32 u))) p xp (fixed fl))) σ = Fault).
  set (x := u64 (s32 (u32 u))). assert (9223372036854775808 <= x < 18446744073709551616) as Hx.
  { unfold x. rewrite E. unfold u64, s32 in *. pose proof (Z.mod_pos_bound (u + 2147483648) 4294967296 ltac:(lia)).
    rewrite <- (Z.mod_add _ 1), Z.mod_small by lia. lia. }
  assert (sizeof_buf < lenZ (fmt_b x 32)) as HL.
  { rewrite fmt_b_digits by (auto; lia). unfold text_of, lenZ. rewrite length_fmap. change sizeof_buf with 40.
    pose proof (numeral_long 63 2 x ltac:(lia) ltac:(apply Hx) 64 ltac:(lia)). unfold digits_of. lia. }
  unfold store_digits. rewrite (proj2 (Z.leb_gt _ _) HL). reflexivity.
Qed.

(** [%ls] without a precision, and [%lc], print blanks up to the width and no
    character of the argument, whatever it is; the width, or 0, is returned. *)
Theorem printf_wide_nothing σ i f d h ps cnt w p xp fl a txt τ t :
  stream σ i f d h → printed σ i f d h txt τ → t = chr_C ∨ (t = chr_S ∧ p < 0) → 0 <= w <= INT_MAX_ → Z.testbit fl 16 = false →
  wp (convert fmt_fp strerror wctomb i cnt ps t w p xp fl a)
     (fun r υ => r = inr w ∧ printed σ i f d h (txt ++ replicate (Z.to_nat w) 32) υ) τ.
Proof.
  intros HS HP Ht Hw Hz.
  assert (∀ get q, q < 0 → wp (r ← conv_wide wctomb i get w q (fixed fl); mret (match r with inl e => inl (Some e) | inr l => inr l end))
    (fun r υ => r = inr w ∧ printed σ i f d h (txt ++ replicate (Z.to_nat w) 32) υ) τ) as Hc.
  { intros get q Hq. wp_step. unfold conv_wide. wp_step. unfold wide_length.
    apply (wp_loop _ (fun v υ => v = (0, 0) ∧ υ = τ) _ (fun _ => 0)); [|done|done|lia].
    intros v υ [-> ->]. rewrite (proj2 (Z.ltb_ge 0 q)) by lia. wp_step. cbn [Z.ltb Z.compare].
    wp_step. eapply wp_mono; [apply (pad_spec HS); [exact HP|unfold is_byte; lia..]|]. intros [] τ1 H1.
    wp_step. unfold wide_out. apply (wp_loop _ (fun v υ => v = (0, 0) ∧ υ = τ1) _ (fun _ => 0)); [|done|done|lia].
    intros v υ [-> ->]. wp_test. wp_step. wp_step.
    eapply wp_mono; [apply (pad_spec HS); [exact H1|unfold is_byte; lia..]|]. intros [] τ2 H2. wp_step. wp_step. split; [f_equal; lia|].
    rewrite <- app_assoc in H2. revert H2. unfold padding, LEFT_ADJ, ZERO_PAD.
    rewrite !has_lor, !has_bit, !Z.lxor_spec, !fixed_bit, !Z.pow2_bits_eqb, Hz, Z.sub_0_r by lia.
    destruct (Z.testbit fl 13); cbn; by rewrite ?app_nil_r. }
  destruct Ht as [-> |[-> Hp]]; [exact (Hc _ (-1) ltac:(lia))|exact (Hc _ p Hp)].
Qed.
End Session.

(** ** Evaluation *)

(** "%+05d|%-*s%%" with 42, 4 and "hi". *)
Lemma vfprintf_prints_witness :
  let its := [Spec [43; 48] (Given 5) None (KInt Mnone Id); Char 124; Spec [45] Star None KString; Percent] in
  let text := [43; 48; 48; 52; 50; 124; 104; 105; 32; 32; 37] in
  let h := ([65; 66], 2) in
  let f := Iob 312 [0; 0; 0; 0] 4 0 0 0 0 0 in
  let σ := open_file (CState (write_bytes (write_bytes ∅ 200 [104; 105; 0]) 100 (format_text its ++ [0])) 0) f h in
  format_text its = [37; 43; 48; 53; 100; 124; 37; 45; 42; 115; 37; 37] ∧
  wp (vfprintf (H := disk 100) (fun _ _ _ _ _ _ => fault) (fun _ => []) (fun _ => None) 0 100 [VWord 42; VWord 4; VWord 200])
     (fun r τ => r = 11 ∧ delivered (H := disk 100) σ 0 f (disk_fd h) h text τ) σ.
Proof.
  intros its text h f σ. split; [vm_compute; reflexivity|].
  assert (stream (H := disk 100) σ 0 f (disk_fd h) h) as HS by (by apply open_file_stream).
  apply (vfprintf_prints (H := disk 100) _ _ _ σ 0 f (disk_fd h) h 100 its [VWord 42; VWord 4; VWord 200] text HS).
  - reflexivity.
  - reflexivity.
  - apply cstrb_sound. vm_compute. reflexivity.
  - unfold its. rewrite !Forall_cons, Forall_nil. unfold valid_item. split_and!; try done; by apply (bool_decide_unpack _).
  - vm_compute. reflexivity.
  - eapply (prints_spec _ [43; 48] (Given 5) None (KInt Mnone Id) _ _ false 5 _ None _ [43; 48; 48; 52; 50] [VWord 4; VWord 200]
      [124; 104; 105; 32; 32; 37]); [reflexivity|reflexivity| |].
    { exact (shows_int _ _ 5 None Mnone Id [VWord 42; VWord 4; VWord 200] 42 [VWord 4; VWord 200] eq_refl). }
    apply prints_char. eapply (prints_spec _ [45] Star None KString _ _ false 4 [VWord 200] None [VWord 200] [104; 105; 32; 32] [] [37]);
      [reflexivity|reflexivity| |apply prints_percent, prints_nil].
    apply (shows_string _ (style_of [45] false) 4 None 200 [] [104; 105]); [done|].
    split; [apply bytes_atb_sound; vm_compute; reflexivity|]. split; [repeat constructor; lia|]. split; [done|]. right. vm_compute. reflexivity.
  - done.
Defined.

Lemma printf_b_overruns_witness :
  ('(a, ap) ← pop_arg (H := disk 100) (state_entry _BARE chr_b) [VWord 4294967295];
   convert (H := disk 100) (fun _ _ _ _ _ _ => fault) (fun _ => []) (fun _ => None) 0 0 0 chr_b 0 (-1) false 0 a)
  (open_file (CState ∅ 0) (rw_iob [0; 0; 0; 0] 0 0 0) ([], 0)) = Fault.
Proof. apply printf_b_overruns. reflexivity. Defined.

(** The wide characters of "ab" are at 200. *)
Lemma printf_wide_nothing_witness :
  let h := ([], 0) in
  let f := rw_iob [0; 0; 0; 0] 0 0 0 in
  let σ := open_file (CState (write_bytes ∅ 200 [0; 0; 0; 97; 0; 0; 0; 98; 0; 0; 0; 0]) 0) f h in
  wp (convert (H := disk 100) (fun _ _ _ _ _ _ => fault) (fun _ => []) (fun c => Some [c]) 0 0 _LPRE chr_S 3 (-1) false 0 (Arg 0 200 0))
     (fun r υ => r = inr 3 ∧ printed (H := disk 100) σ 0 f (disk_fd h) h [32; 32; 32] υ) σ.
Proof.
  intros h f σ. assert (stream (H := disk 100) σ 0 f (disk_fd h) h) as HS by (by apply open_file_stream).
  apply (printf_wide_nothing (H := disk 100) _ _ _ σ 0 f (disk_fd h) h _LPRE 0 3 (-1) false 0 (Arg 0 200 0) [] σ chr_S HS).
  - by apply printed_start.
  - right. done.
  - done.
  - reflexivity.
Defined.
