(* ===== verification/WmemTree.v ===== *)
(** * Red-black trees of wmem

    wmem/wmem_tree.c and wmem_tree-int.h.  The heap is a map from addresses to
    nodes and one from addresses to trees; a tree's nodes point to their parents.
    Keys are 32-bit integers, or pointers to memory that a comparison function reads;
    the strings are in WmemTreeString.v.

    What the trees need of an allocator is the class [WmemNew]; callbacks of
    allocator scopes are not part of the model.  [post_rotation_cb], which interval
    trees set, is an argument of the operations that rotate. *)

From stdpp Require Import base numbers gmap list.
From S2P Require Import Prelude CMem.
Open Scope Z_scope.

Inductive wmem_node_color_t := WMEM_NODE_COLOR_RED | WMEM_NODE_COLOR_BLACK.
#[global] Instance color_eq_dec : EqDecision wmem_node_color_t.
Proof. solve_decision. Defined.

(** The fields of a node that do not change with its place in the tree. *)
Record item := Item { key : Z; data : Z; is_subtree : bool; is_removed : bool }.
Record wmem_tree_node_t := TNode { parent : Z; left : Z; right : Z; color : wmem_node_color_t; it : item }.
Record wmem_tree_t := Tree { root : Z }.

Record theap := WState { trees : gmap Z wmem_tree_t; nodes : gmap Z wmem_tree_node_t }.

(** [wmem_new] for a node and for a tree. *)
Class WmemNew := {
  new_node : theap → Z;
  new_tree : theap → Z;
  new_node_fresh : ∀ σ, new_node σ ≠ NULL → nodes σ !! new_node σ = None;
  new_tree_fresh : ∀ σ, new_tree σ ≠ NULL → trees σ !! new_tree σ = None
}.

(** ** Access *)

Definition get_node (p : Z) : M theap wmem_tree_node_t :=
  fun σ => match nodes σ !! p with Some n => Ok (n, σ) | None => Fault end.
Definition set_node (p : Z) (n : wmem_tree_node_t) : M theap unit :=
  modify (fun σ => WState (trees σ) (<[p := n]> (nodes σ))).
Definition get_tree (t : Z) : M theap wmem_tree_t :=
  fun σ => match trees σ !! t with Some n => Ok (n, σ) | None => Fault end.
Definition set_root (t r : Z) : M theap unit :=
  _ ← get_tree t; modify (fun σ => WState (<[t := Tree r]> (trees σ)) (nodes σ)).

Definition set_parent (p v : Z) : M theap unit := n ← get_node p; set_node p (TNode v (left n) (right n) (color n) (it n)).
Definition set_left (p v : Z) : M theap unit := n ← get_node p; set_node p (TNode (parent n) v (right n) (color n) (it n)).
Definition set_right (p v : Z) : M theap unit := n ← get_node p; set_node p (TNode (parent n) (left n) v (color n) (it n)).
Definition set_color (p : Z) (c : wmem_node_color_t) : M theap unit :=
  n ← get_node p; set_node p (TNode (parent n) (left n) (right n) c (it n)).
Definition set_item (p : Z) (v : item) : M theap unit :=
  n ← get_node p; set_node p (TNode (parent n) (left n) (right n) (color n) v).
Definition with_data (d : Z) (v : item) : item := Item (key v) d (is_subtree v) (is_removed v).

(** [p && p->color == RED] *)
Definition is_red (p : Z) : M theap bool :=
  if p =? NULL then mret false else n ← get_node p; mret (bool_decide (color n = WMEM_NODE_COLOR_RED)).

Definition free_node (p : Z) : M theap unit :=
  _ ← get_node p; modify (fun σ => WState (trees σ) (delete p (nodes σ))).

(** The heap of the trees and the memory of the strings that are their keys. *)
Definition on_tree {A} (c : M theap A) : M (theap * cstate) A :=
  fun '(σ, β) => match c σ with Ok (a, τ) => Ok (a, (τ, β)) | Fault => Fault | NoFuel => NoFuel end.
Definition on_bytes {A} (c : M cstate A) : M (theap * cstate) A :=
  fun '(σ, β) => match c β with Ok (a, γ) => Ok (a, (σ, γ)) | Fault => Fault | NoFuel => NoFuel end.

(** ** Rotations *)

Section Rotations.
Context (post_rotation_cb : option (Z → M theap unit)).

Definition node_uncle (node : Z) : M theap Z :=
  n ← get_node node;
  if parent n =? NULL then mret NULL
  else
    p ← get_node (parent n);
    if parent p =? NULL then mret NULL
    else g ← get_node (parent p); if parent n =? left g then mret (right g) else mret (left g).

(** The pointer to [node] in its parent, or in the tree, becomes [v]. *)
Definition replace_child (tree node v : Z) : M theap unit :=
  n ← get_node node;
  if negb (parent n =? NULL) then
    p ← get_node (parent n);
    if left p =? node then set_left (parent n) v else set_right (parent n) v
  else set_root tree v.

Definition rotate_left (tree node : Z) : M theap unit :=
  n ← get_node node; _ ← replace_child tree node (right n);
  n ← get_node node; _ ← set_parent (right n) (parent n);
  _ ← set_parent node (right n);
  r ← get_node (right n); _ ← set_right node (left r);
  n ← get_node node;
  _ ← (if negb (right n =? NULL) then set_parent (right n) node else mret tt);
  n ← get_node node; _ ← set_left (parent n) node;
  match post_rotation_cb with Some cb => cb node | None => mret tt end.

Definition rotate_right (tree node : Z) : M theap unit :=
  n ← get_node node; _ ← replace_child tree node (left n);
  n ← get_node node; _ ← set_parent (left n) (parent n);
  _ ← set_parent node (left n);
  l ← get_node (left n); _ ← set_left node (right l);
  n ← get_node node;
  _ ← (if negb (left n =? NULL) then set_parent (left n) node else mret tt);
  n ← get_node node; _ ← set_right (parent n) node;
  match post_rotation_cb with Some cb => cb node | None => mret tt end.

(** ** Insertion *)

Definition rb_insert_case5 (tree node : Z) : M theap unit :=
  n ← get_node node;
  let parent_ := parent n in
  p ← get_node parent_;
  let grandparent := parent p in
  _ ← set_color parent_ WMEM_NODE_COLOR_BLACK;
  _ ← set_color grandparent WMEM_NODE_COLOR_RED;
  p ← get_node parent_; g ← get_node grandparent;
  if (node =? left p) && (parent_ =? left g) then rotate_right tree grandparent else rotate_left tree grandparent.

Definition rb_insert_case4 (tree node : Z) : M theap unit :=
  n ← get_node node;
  let parent_ := parent n in
  p ← get_node parent_;
  let grandparent := parent p in
  if grandparent =? NULL then mret tt
  else
    g ← get_node grandparent;
    node ← (if (node =? right p) && (parent_ =? left g) then
              _ ← rotate_left tree parent_; n ← get_node node; mret (left n)
            else if (node =? left p) && (parent_ =? right g) then
              _ ← rotate_right tree parent_; n ← get_node node; mret (right n)
            else mret node);
    rb_insert_case5 tree node.

(** [inl]: [rb_insert_case1] is called for the grandparent. *)
Definition rb_insert_case3 (tree node : Z) : M theap (Z + unit) :=
  uncle ← node_uncle node;
  red ← is_red uncle;
  if red : bool then
    n ← get_node node;
    let parent_ := parent n in
    p ← get_node parent_;
    let grandparent := parent p in
    _ ← set_color parent_ WMEM_NODE_COLOR_BLACK;
    _ ← set_color uncle WMEM_NODE_COLOR_BLACK;
    _ ← set_color grandparent WMEM_NODE_COLOR_RED;
    continue grandparent
  else _ ← rb_insert_case4 tree node; break tt.

Definition rb_insert_case2 (tree node : Z) : M theap (Z + unit) :=
  n ← get_node node; p ← get_node (parent n);
  if bool_decide (color p = WMEM_NODE_COLOR_RED) then rb_insert_case3 tree node else break tt.

Definition rb_insert_case1 (tree node : Z) : M theap unit :=
  loop (fun node =>
          n ← get_node node;
          if parent n =? NULL then _ ← set_color node WMEM_NODE_COLOR_BLACK; break tt
          else rb_insert_case2 tree node) node.

(** ** Removal *)

Definition rotate (to_left : bool) (tree node : Z) : M theap unit :=
  if to_left then rotate_left tree node else rotate_right tree node.

Definition case_d4 (parent_ sib : Z) : M theap unit :=
  _ ← set_color sib WMEM_NODE_COLOR_RED;
  set_color parent_ WMEM_NODE_COLOR_BLACK.

Definition case_d6 (tree : Z) (left_ : bool) (parent_ sib d_nephew : Z) : M theap unit :=
  _ ← rotate left_ tree parent_;
  p ← get_node parent_; _ ← set_color sib (color p);
  _ ← set_color parent_ WMEM_NODE_COLOR_BLACK;
  set_color d_nephew WMEM_NODE_COLOR_BLACK.

Definition case_d5 (tree : Z) (left_ : bool) (parent_ sib c_nephew : Z) : M theap unit :=
  _ ← rotate (negb left_) tree sib;
  _ ← set_color sib WMEM_NODE_COLOR_RED;
  _ ← set_color c_nephew WMEM_NODE_COLOR_BLACK;
  let d_nephew := sib in
  let sib := c_nephew in
  case_d6 tree left_ parent_ sib d_nephew.

Definition case_d3 (tree : Z) (left_ : bool) (parent_ sib c_nephew : Z) : M theap unit :=
  _ ← rotate left_ tree parent_;
  _ ← set_color parent_ WMEM_NODE_COLOR_RED;
  _ ← set_color sib WMEM_NODE_COLOR_BLACK;
  let sib := c_nephew in
  s ← get_node sib;
  let d_nephew := if left_ then right s else left s in
  d_red ← is_red d_nephew;
  if d_red : bool then case_d6 tree left_ parent_ sib d_nephew
  else
    s ← get_node sib;
    let c_nephew := if left_ then left s else right s in
    c_red ← is_red c_nephew;
    if c_red : bool then case_d5 tree left_ parent_ sib c_nephew else case_d4 parent_ sib.

(** The [for] loop; its variables are [node], [parent] and [left]. *)
Definition rb_remove_doubleblack_loop (tree : Z) : Z * Z * bool → M theap unit :=
  loop (fun '(node, parent_, left_) =>
          if parent_ =? NULL then break tt
          else
            p ← get_node parent_;
            let left_ : bool := if negb (node =? NULL) then node =? left p else left_ in
            let sib := if left_ then right p else left p in
            s ← get_node sib;
            let c_nephew := if left_ then left s else right s in
            let d_nephew := if left_ then right s else left s in
            sib_red ← is_red sib;
            if sib_red : bool then _ ← case_d3 tree left_ parent_ sib c_nephew; break tt
            else
              d_red ← is_red d_nephew;
              if d_red : bool then _ ← case_d6 tree left_ parent_ sib d_nephew; break tt
              else
                c_red ← is_red c_nephew;
                if c_red : bool then _ ← case_d5 tree left_ parent_ sib c_nephew; break tt
                else
                  p ← get_node parent_;
                  if bool_decide (color p = WMEM_NODE_COLOR_RED) then _ ← case_d4 parent_ sib; break tt
                  else
                    _ ← set_color sib WMEM_NODE_COLOR_RED;
                    let node := parent_ in
                    n ← get_node node; continue (node, parent n, left_)).

Definition rb_remove_doubleblack (tree node : Z) : M theap unit :=
  n ← get_node node;
  let parent_ := parent n in
  p ← get_node parent_;
  left_ ← (if node =? left p then _ ← set_left parent_ NULL; mret true else _ ← set_right parent_ NULL; mret false);
  rb_remove_doubleblack_loop tree (NULL, parent_, left_).

(** The rest of [rb_remove_node], for a node that has one child at most: taking it out of
    the tree, and freeing it. *)
Definition unlink_unary (tree node : Z) : M theap unit :=
  n ← get_node node;
  let temp_node := if negb (left n =? NULL) then left n else right n in
  _ ← (if negb (temp_node =? NULL) then
         _ ← set_parent temp_node (parent n);
         set_color temp_node WMEM_NODE_COLOR_BLACK
       else mret tt);
  n ← get_node node;
  if (temp_node =? NULL) && bool_decide (color n = WMEM_NODE_COLOR_BLACK) && negb (parent n =? NULL)
  then rb_remove_doubleblack tree node
  else replace_child tree node temp_node.

(** Called with [free_key] false. *)
Definition rb_remove_node (tree node : Z) : M theap unit :=
  n ← get_node node;
  node ← (if negb (left n =? NULL) && negb (right n =? NULL) then
            temp_node ← loop (fun temp_node => m ← get_node temp_node;
                                if negb (left m =? NULL) then continue (left m) else break temp_node) (right n);
            m ← get_node temp_node;
            n ← get_node node;
            _ ← set_item node (Item (key (it m)) (data (it m)) (is_subtree (it n)) (is_removed (it n)));
            mret temp_node
          else mret node);
  _ ← unlink_unary tree node;
  free_node node.

(** ** Nodes and trees *)

Context `{WmemNew}.

(** A store through NULL is undefined: [wmem_new] is not checked. *)
Definition create_node (parent_ key_ data_ : Z) (color_ : wmem_node_color_t) (is_subtree_ : bool) : M theap Z :=
  σ ← get;
  let node := new_node σ in
  if node =? NULL then fault
  else
    _ ← set_node node (TNode parent_ NULL NULL color_ (Item key_ data_ is_subtree_ false));
    mret node.

Definition wmem_tree_new : M theap Z :=
  σ ← get;
  let tree := new_tree σ in
  if tree =? NULL then fault
  else _ ← modify (fun σ => WState (<[tree := Tree NULL]> (trees σ)) (nodes σ)); mret tree.

Definition wmem_tree_is_empty (tree : Z) : M theap bool := t ← get_tree tree; mret (root t =? NULL).

(** [create] is CREATE_DATA(func, data). *)
Definition lookup_or_insert32_node (tree key_ : Z) (create : M theap Z) (is_subtree_ replace : bool) : M theap Z :=
  t ← get_tree tree;
  if root t =? NULL then
    d ← create;
    new_node ← create_node NULL key_ d WMEM_NODE_COLOR_BLACK is_subtree_;
    _ ← set_root tree new_node; mret new_node
  else
    r ← loop (fun node =>
                n ← get_node node;
                if key_ =? key (it n) then
                  _ ← (if replace then d ← create; n ← get_node node; set_item node (with_data d (it n)) else mret tt);
                  break (inl node)
                else if key_ <? key (it n) then
                  if negb (left n =? NULL) then continue (left n)
                  else
                    d ← create;
                    new_node ← create_node node key_ d WMEM_NODE_COLOR_RED is_subtree_;
                    _ ← set_left node new_node; break (inr new_node)
                else
                  if negb (right n =? NULL) then continue (right n)
                  else
                    d ← create;
                    new_node ← create_node node key_ d WMEM_NODE_COLOR_RED is_subtree_;
                    _ ← set_right node new_node; break (inr new_node)) (root t);
    match r with
    | inl node => mret node
    | inr new_node => _ ← rb_insert_case1 tree new_node; mret new_node
    end.

Definition lookup_or_insert32 (tree key_ : Z) (create : M theap Z) (is_subtree_ replace : bool) : M theap Z :=
  node ← lookup_or_insert32_node tree key_ create is_subtree_ replace;
  n ← get_node node; mret (data (it n)).

Definition wmem_tree_insert32 (tree key_ data_ : Z) : M theap unit :=
  _ ← lookup_or_insert32 tree key_ (mret data_) false true; mret tt.

(** Trees with a comparison function, which reads the memory of the keys. *)
Definition wmem_tree_lookup (cmp : Z → Z → M cstate Z) (tree key_ : Z) : M (theap * cstate) Z :=
  if (tree =? NULL) || (key_ =? NULL) then mret NULL
  else
    t ← on_tree (get_tree tree);
    loop (fun node =>
            if node =? NULL then break NULL
            else
              n ← on_tree (get_node node);
              result ← on_bytes (cmp key_ (key (it n)));
              if result =? 0 then break (data (it n))
              else if result <? 0 then continue (left n) else continue (right n)) (root t).

Definition wmem_tree_insert_node (cmp : Z → Z → M cstate Z) (tree key_ data_ : Z) : M (theap * cstate) Z :=
  t ← on_tree (get_tree tree);
  if root t =? NULL then
    on_tree (new_node ← create_node NULL key_ data_ WMEM_NODE_COLOR_BLACK false;
             _ ← set_root tree new_node; mret new_node)
  else
    r ← loop (fun node =>
                n ← on_tree (get_node node);
                result ← on_bytes (cmp key_ (key (it n)));
                if result =? 0 then
                  _ ← on_tree (set_item node (Item (key (it n)) data_ (is_subtree (it n)) (data_ =? NULL)));
                  break (inl node)
                else if result <? 0 then
                  if negb (left n =? NULL) then continue (left n)
                  else
                    new_node ← on_tree (new_node ← create_node node key_ data_ WMEM_NODE_COLOR_RED false;
                                        _ ← set_left node new_node; mret new_node);
                    break (inr new_node)
                else
                  if negb (right n =? NULL) then continue (right n)
                  else
                    new_node ← on_tree (new_node ← create_node node key_ data_ WMEM_NODE_COLOR_RED false;
                                        _ ← set_right node new_node; mret new_node);
                    break (inr new_node)) (root t);
    match r with
    | inl node => mret node
    | inr new_node => _ ← on_tree (rb_insert_case1 tree new_node); mret new_node
    end.
End Rotations.

(** ** Lookups *)

Definition wmem_tree_contains32 (tree key_ : Z) : M theap bool :=
  if tree =? NULL then mret false
  else
    t ← get_tree tree;
    loop (fun node =>
            if node =? NULL then break false
            else
              n ← get_node node;
              if key_ =? key (it n) then break true
              else if key_ <? key (it n) then continue (left n) else continue (right n)) (root t).

(** One round of the loop of the next function. *)
Definition lookup32_step (key_ node : Z) : M theap (Z + Z) :=
  if node =? NULL then break NULL
  else
    n ← get_node node;
    if key_ =? key (it n) then break node
    else if key_ <? key (it n) then continue (left n) else continue (right n).

Definition wmem_tree_lookup32_node (tree key_ : Z) : M theap Z :=
  if tree =? NULL then mret NULL
  else t ← get_tree tree; loop (lookup32_step key_) (root t).

Definition data_of (node : Z) : M theap Z :=
  if node =? NULL then mret NULL else n ← get_node node; mret (data (it n)).
Definition wmem_tree_lookup32 (tree key_ : Z) : M theap Z := node ← wmem_tree_lookup32_node tree key_; data_of node.

(** The descent of the next two functions: [inl] is the node with the key, [inr] the
    node where it ended. *)
Definition descend32 (tree key_ : Z) : M theap (Z + Z) :=
  t ← get_tree tree;
  loop (fun node =>
          if node =? NULL then break (inr NULL)
          else
            n ← get_node node;
            if key_ =? key (it n) then break (inl node)
            else if key_ <? key (it n) then if left n =? NULL then break (inr node) else continue (left n)
            else if right n =? NULL then break (inr node) else continue (right n)) (root t).

Definition wmem_tree_lookup32_le_node (tree key_ : Z) : M theap Z :=
  if tree =? NULL then mret NULL
  else
    r ← descend32 tree key_;
    match r with
    | inl node => mret node
    | inr node =>
        if node =? NULL then mret NULL
        else
          n ← get_node node;
          if parent n =? NULL then mret (if key (it n) <? key_ then node else NULL)
          else if key (it n) <=? key_ then mret node
          else
            p ← get_node (parent n);
            if node =? left p then
              loop (fun node =>
                      if node =? NULL then break NULL
                      else n ← get_node node; if key (it n) <? key_ then break node else continue (parent n)) node
            else mret (parent n)
    end.

Definition wmem_tree_lookup32_ge_node (tree key_ : Z) : M theap Z :=
  if tree =? NULL then mret NULL
  else
    r ← descend32 tree key_;
    match r with
    | inl node => mret node
    | inr node =>
        if node =? NULL then mret NULL
        else
          n ← get_node node;
          if parent n =? NULL then mret (if key_ <? key (it n) then node else NULL)
          else if key_ <=? key (it n) then mret node
          else
            p ← get_node (parent n);
            if node =? right p then
              loop (fun node =>
                      if node =? NULL then break NULL
                      else n ← get_node node; if key_ <? key (it n) then break node else continue (parent n)) node
            else mret (parent n)
    end.

Definition wmem_tree_lookup32_le (tree key_ : Z) : M theap Z := node ← wmem_tree_lookup32_le_node tree key_; data_of node.
Definition wmem_tree_lookup32_ge (tree key_ : Z) : M theap Z := node ← wmem_tree_lookup32_ge_node tree key_; data_of node.

(** The data and the key of the node, if there is one. *)
Definition full_of (node : Z) : M theap (Z * option Z) :=
  if node =? NULL then mret (NULL, None) else n ← get_node node; mret (data (it n), Some (key (it n))).
Definition wmem_tree_lookup32_le_full (tree key_ : Z) : M theap (Z * option Z) :=
  node ← wmem_tree_lookup32_le_node tree key_; full_of node.
Definition wmem_tree_lookup32_ge_full (tree key_ : Z) : M theap (Z * option Z) :=
  node ← wmem_tree_lookup32_ge_node tree key_; full_of node.

Definition wmem_tree_remove32 (cb : option (Z → M theap unit)) (tree key_ : Z) : M theap Z :=
  node ← wmem_tree_lookup32_node tree key_;
  if node =? NULL then mret NULL
  else
    n ← get_node node;
    let ret := data (it n) in
    _ ← rb_remove_node cb tree node; mret ret.

(** ** Walks

    The callback may stop the walk; [U] is its user data.  The recursion goes through
    nodes and the trees in them; its depth is bounded by the first argument. *)

Section Walk.
Context {U : Type} (callback : Z → Z → U → bool * U).

Fixpoint wmem_tree_foreach_nodes (fuel : nat) (node : Z) (u : U) : M theap (bool * U) :=
  match fuel with
  | O => no_fuel
  | S fuel =>
      if node =? NULL then mret (false, u)
      else
        n ← get_node node;
        '(stop, u) ← (if negb (left n =? NULL) then wmem_tree_foreach_nodes fuel (left n) u else mret (false, u));
        if stop : bool then mret (true, u)
        else
          '(stop, u) ← (if is_subtree (it n) then
                          t ← get_tree (data (it n));
                          if root t =? NULL then mret (false, u) else wmem_tree_foreach_nodes fuel (root t) u
                        else if negb (is_removed (it n)) then mret (callback (key (it n)) (data (it n)) u)
                        else mret (false, u));
          if stop : bool then mret (true, u)
          else if negb (right n =? NULL) then wmem_tree_foreach_nodes fuel (right n) u else mret (false, u)
  end.

Definition wmem_tree_foreach (fuel : nat) (tree : Z) (u : U) : M theap (bool * U) :=
  t ← get_tree tree;
  if root t =? NULL then mret (false, u) else wmem_tree_foreach_nodes fuel (root t) u.
End Walk.

Definition count_nodes (_ _ : Z) (count : Z) : bool * Z := (false, u32 (count + 1)).
Definition wmem_tree_count (fuel : nat) (tree : Z) : M theap Z :=
  '(_, count) ← wmem_tree_foreach count_nodes fuel tree 0; mret count.

(** [wmem_tree_destroy]: the addresses that are handed to [wmem_free], in order. *)
Fixpoint free_tree_node (fuel : nat) (node : Z) (free_keys free_values : bool) : M theap (list Z) :=
  match fuel with
  | O => no_fuel
  | S fuel =>
      if node =? NULL then mret []
      else
        n ← get_node node;
        l ← (if negb (left n =? NULL) then free_tree_node fuel (left n) free_keys free_values else mret []);
        n ← get_node node;
        s ← (if is_subtree (it n) then
               t ← get_tree (data (it n));
               s ← free_tree_node fuel (root t) free_keys free_values;
               _ ← modify (fun σ => WState (delete (data (it n)) (trees σ)) (nodes σ));
               _ ← set_item node (with_data NULL (it n));
               mret (s ++ [data (it n)])
             else mret []);
        n ← get_node node;
        r ← (if negb (right n =? NULL) then free_tree_node fuel (right n) free_keys free_values else mret []);
        n ← get_node node;
        _ ← free_node node;
        mret (l ++ s ++ r ++ (if free_keys then [key (it n)] else []) ++ (if free_values then [data (it n)] else []) ++ [node])
  end.

Definition wmem_tree_destroy (fuel : nat) (tree : Z) (free_keys free_values : bool) : M theap (list Z) :=
  t ← get_tree tree;
  l ← free_tree_node fuel (root t) free_keys free_values;
  _ ← modify (fun σ => WState (delete tree (trees σ)) (nodes σ));
  mret (l ++ [tree]).

(** ** Keys of several words

    [wmem_tree_key_t]: the words of all the parts of the key, one after the other; each
    but the last leads to a tree in a tree. *)

Section Arrays.
Context (cb : option (Z → M theap unit)) `{WmemNew}.

Fixpoint insert_array (tree insert_tree insert_key32 : Z) (key_ : list Z) (data_ : Z) : M theap unit :=
  match key_ with
  | [] => wmem_tree_insert32 cb insert_tree insert_key32 data_
  | k :: key_ =>
      insert_tree ← (if insert_tree =? NULL then mret tree
                     else lookup_or_insert32 cb insert_tree insert_key32 wmem_tree_new true false);
      insert_array tree insert_tree k key_ data_
  end.
Definition wmem_tree_insert32_array (tree : Z) (key_ : list Z) (data_ : Z) : M theap unit := insert_array tree NULL 0 key_ data_.

Fixpoint lookup_array (helper : Z → Z → M theap Z) (tree lookup_tree lookup_key32 : Z) (key_ : list Z) : M theap Z :=
  match key_ with
  | [] => helper lookup_tree lookup_key32
  | k :: key_ =>
      if lookup_tree =? NULL then lookup_array helper tree tree k key_
      else
        lookup_tree ← helper lookup_tree lookup_key32;
        if lookup_tree =? NULL then mret NULL else lookup_array helper tree lookup_tree k key_
  end.
Definition wmem_tree_lookup32_array_helper (tree : Z) (key_ : list Z) (helper : Z → Z → M theap Z) : M theap Z :=
  if tree =? NULL then mret NULL else lookup_array helper tree NULL 0 key_.
Definition wmem_tree_lookup32_array (tree : Z) (key_ : list Z) : M theap Z :=
  wmem_tree_lookup32_array_helper tree key_ wmem_tree_lookup32.
Definition wmem_tree_lookup32_array_le (tree : Z) (key_ : list Z) : M theap Z :=
  wmem_tree_lookup32_array_helper tree key_ wmem_tree_lookup32_le.
End Arrays.
