(* ===== verification/WmemTreeRep.v ===== *)
(** * Red-black trees of wmem: trees in the heap

    A functional tree with the addresses of its nodes, when it is in the heap
    ([repr]), contexts with a hole, and what the elementary steps of wmem_tree.c do:
    reading a node, changing its colour or its item, and rotating. *)

From stdpp Require Import base numbers gmap list.
From S2P Require Import Prelude CMem WmemTree.
Open Scope Z_scope.
#[local] Set Warnings "-clear-no-such-hyp".

#[local] Abbreviation RED := WMEM_NODE_COLOR_RED.
#[local] Abbreviation BLACK := WMEM_NODE_COLOR_BLACK.

(** ** Trees and contexts *)

Inductive tree := Leaf | Node (c : wmem_node_color_t) (l : tree) (a : Z) (v : item) (r : tree).

Definition addr (t : tree) : Z := match t with Leaf => NULL | Node _ _ a _ _ => a end.
Fixpoint addrs (t : tree) : list Z :=
  match t with Leaf => [] | Node _ l a _ r => a :: addrs l ++ addrs r end.
(** The nodes from the left to the right. *)
Fixpoint items (t : tree) : list (Z * item) :=
  match t with Leaf => [] | Node _ l a v r => items l ++ (a, v) :: items r end.

(** A node with a child on either side: [s] is on the left if [b] is true. *)
Definition mk (b : bool) (c : wmem_node_color_t) (s : tree) (a : Z) (v : item) (o : tree) : tree :=
  if b then Node c s a v o else Node c o a v s.

(** A frame: a node whose child on the side [fr_left] is the hole. *)
Record frame := Frame { fr_left : bool; fr_color : wmem_node_color_t; fr_addr : Z; fr_item : item; fr_sib : tree }.
Definition fill (t : tree) (f : frame) : tree := mk (fr_left f) (fr_color f) t (fr_addr f) (fr_item f) (fr_sib f).
Definition plug (C : list frame) (t : tree) : tree := foldl fill t C.
Definition cparent (C : list frame) : Z := match C with [] => NULL | f :: _ => fr_addr f end.
Definition faddrs (f : frame) : list Z := fr_addr f :: addrs (fr_sib f).
Definition caddrs (C : list frame) : list Z := C ≫= faddrs.

Fixpoint litems (C : list frame) : list (Z * item) :=
  match C with
  | [] => []
  | f :: C => if fr_left f then litems C else litems C ++ items (fr_sib f) ++ [(fr_addr f, fr_item f)]
  end.
Fixpoint ritems (C : list frame) : list (Z * item) :=
  match C with
  | [] => []
  | f :: C => if fr_left f then (fr_addr f, fr_item f) :: items (fr_sib f) ++ ritems C else ritems C
  end.

Lemma addr_mk b c s a v o : addr (mk b c s a v o) = a.
Proof. by destruct b. Qed.
Lemma items_mk b c s a v o :
  items (mk b c s a v o) = if b then items s ++ (a, v) :: items o else items o ++ (a, v) :: items s.
Proof. by destruct b. Qed.
Lemma addrs_mk b c s a v o : addrs (mk b c s a v o) ≡ₚ a :: addrs s ++ addrs o.
Proof. destruct b; cbn; [done|]. by rewrite (Permutation_app_comm (addrs o)). Qed.

Lemma plug_items C : ∀ t, items (plug C t) = litems C ++ items t ++ ritems C.
Proof.
  induction C as [|f C IH]; intros t; [cbn; by rewrite app_nil_r|]. cbn. fold (plug C (fill t f)). rewrite IH.
  unfold fill. rewrite items_mk. destruct (fr_left f); by rewrite <- ?app_assoc.
Qed.
Lemma wplug_addrs C : ∀ t, addrs (plug C t) ≡ₚ addrs t ++ caddrs C.
Proof.
  induction C as [|f C IH]; intros t; [cbn; by rewrite app_nil_r|]. cbn. fold (plug C (fill t f)). rewrite IH.
  unfold fill, caddrs. rewrite addrs_mk. cbn. unfold faddrs. solve_Permutation.
Qed.
Lemma plug_snoc C f t : plug (C ++ [f]) t = fill (plug C t) f.
Proof. unfold plug. by rewrite foldl_app. Qed.

(** ** Trees in the heap *)

Fixpoint stored (m : gmap Z wmem_tree_node_t) (p : Z) (t : tree) : Prop :=
  match t with
  | Leaf => True
  | Node c l a v r => m !! a = Some (TNode p (addr l) (addr r) c v) ∧ stored m a l ∧ stored m a r
  end.
Definition fr_node (f : frame) (p h : Z) : wmem_tree_node_t :=
  if fr_left f then TNode p h (addr (fr_sib f)) (fr_color f) (fr_item f)
  else TNode p (addr (fr_sib f)) h (fr_color f) (fr_item f).
Fixpoint ctx_stored (m : gmap Z wmem_tree_node_t) (C : list frame) (h : Z) : Prop :=
  match C with
  | [] => True
  | f :: C => m !! fr_addr f = Some (fr_node f (cparent C) h) ∧ stored m (fr_addr f) (fr_sib f) ∧ ctx_stored m C (fr_addr f)
  end.

Lemma stored_mk m p b c s a v o :
  stored m p (mk b c s a v o) ↔
  m !! a = Some (if b then TNode p (addr s) (addr o) c v else TNode p (addr o) (addr s) c v) ∧ stored m a s ∧ stored m a o.
Proof. destruct b; cbn; tauto. Qed.

Lemma wplug_stored m C : ∀ t, stored m NULL (plug C t) ↔ ctx_stored m C (addr t) ∧ stored m (cparent C) t.
Proof.
  induction C as [|f C IH]; intros t; cbn; [tauto|]. fold (plug C (fill t f)). rewrite IH. unfold fill, fr_node.
  rewrite addr_mk, stored_mk. destruct (fr_left f); tauto.
Qed.

Lemma wstored_ext m m' t : ∀ p, (∀ a, a ∈ addrs t → m' !! a = m !! a) → stored m p t → stored m' p t.
Proof.
  induction t as [|c l IHl a v r IHr]; [done|]. cbn. intros p He (H1 & H2 & H3).
  rewrite He by set_solver. split_and!; [done|apply IHl; [set_solver|done]|apply IHr; [set_solver|done]].
Qed.
Lemma wctx_stored_ext m m' C : ∀ h, (∀ a, a ∈ caddrs C → m' !! a = m !! a) → ctx_stored m C h → ctx_stored m' C h.
Proof.
  induction C as [|f C IH]; [done|]. intros h He. unfold caddrs, faddrs in He. cbn in He. cbn. intros (H1 & H2 & H3).
  rewrite He by set_solver. split_and!; [done|eapply wstored_ext; [|done]; set_solver|apply IH; [|done]].
  intros a Ha. apply He. right. apply elem_of_app. by right.
Qed.

(** The tree [t] is [T] in [σ]; since [σ0] nothing has changed but the nodes of [L],
    which are those of [T] or more, and the root. *)
Record repr (σ0 : theap) (L : list Z) (t : Z) (T : tree) (σ : theap) : Prop := {
  rp_root : trees σ !! t = Some (Tree (addr T));
  rp_stored : stored (nodes σ) NULL T;
  rp_nodup : NoDup (addrs T);
  rp_null : NULL ∉ addrs T;
  rp_size : lenZ (addrs T) < 4294967296;
  rp_sub : ∀ a, a ∈ addrs T → a ∈ L;
  rp_nodes : ∀ a, a ∉ L → nodes σ !! a = nodes σ0 !! a;
  rp_trees : ∀ t', t' ≠ t → trees σ !! t' = trees σ0 !! t'
}.

(** The same tree with another shape. *)
Lemma repr_change σ0 L t T σ T' σ' :
  repr σ0 L t T σ → addrs T' ≡ₚ addrs T → trees σ' !! t = Some (Tree (addr T')) → stored (nodes σ') NULL T' →
  (∀ a, a ∉ addrs T → nodes σ' !! a = nodes σ !! a) → (∀ t', t' ≠ t → trees σ' !! t' = trees σ !! t') →
  repr σ0 L t T' σ'.
Proof.
  intros [H1 H2 H3 H4 H5 H6 H7 H8] HP Hr Hs Hn Ht. split; try done.
  - by rewrite HP.
  - by rewrite HP.
  - unfold lenZ in *. by rewrite HP.
  - intros a Ha. apply H6. by rewrite <- HP.
  - intros a Ha. rewrite Hn; [by apply H7|]. intros Ha'. by apply Ha, H6.
  - intros t' Ht'. rewrite Ht by done. by apply H8.
Qed.

(** ** Reading *)

Lemma wp_get_wnode p n Q σ : nodes σ !! p = Some n → Q n σ → wp (get_node p) Q σ.
Proof. unfold wp, get_node. by intros ->. Qed.
Lemma wp_get_tree t n Q σ : trees σ !! t = Some n → Q n σ → wp (get_tree t) Q σ.
Proof. unfold wp, get_tree. by intros ->. Qed.

(** The address of the root, when the hole has the address [h]. *)
Definition top (C : list frame) (h : Z) : Z := match last C with Some f => fr_addr f | None => h end.
Lemma wplug_addr C t : addr (plug C t) = top C (addr t).
Proof. unfold top. destruct C as [|f C _] using rev_ind; [done|]. rewrite plug_snoc, last_snoc. apply addr_mk. Qed.
Lemma wtop_cons f C h h' : top (f :: C) h = top (f :: C) h'.
Proof. unfold top. destruct C as [|g C _] using rev_ind; [done|]. by rewrite app_comm_cons, last_snoc. Qed.

Section Steps.
Context {σ0 : theap} {L : list Z} {t : Z}.
#[local] Abbreviation repr := (repr σ0 L t).

(** A tree with a hole, piece by piece. *)
Lemma wrepr_plug C T σ :
  repr (plug C T) σ →
  trees σ !! t = Some (Tree (top C (addr T))) ∧ ctx_stored (nodes σ) C (addr T) ∧ stored (nodes σ) (cparent C) T ∧
  NoDup (addrs T ++ caddrs C) ∧ NULL ∉ addrs T ++ caddrs C.
Proof.
  intros [H1 H2 H3 H4 _ _ _ _]. rewrite wplug_addr in H1. apply wplug_stored in H2 as [H2 H2']. rewrite wplug_addrs in H3, H4. done.
Qed.

Lemma repr_node C b c s a v o σ :
  repr (plug C (mk b c s a v o)) σ →
  nodes σ !! a = Some (if b then TNode (cparent C) (addr s) (addr o) c v else TNode (cparent C) (addr o) (addr s) c v) ∧ a ≠ NULL.
Proof.
  intros HR. destruct (wrepr_plug _ _ _ HR) as (_ & _ & Hs & _ & Hn). apply stored_mk in Hs as [Hs _]. split; [done|].
  rewrite addrs_mk in Hn. set_solver.
Qed.

Lemma repr_null C T σ : repr (plug C T) σ → (addr T =? NULL) = match T with Leaf => true | _ => false end.
Proof.
  intros HR. destruct (wrepr_plug _ _ _ HR) as (_ & _ & _ & _ & Hn). destruct T; [done|]. cbn in *. apply Z.eqb_neq. set_solver.
Qed.

Lemma repr_parent C T σ : repr (plug C T) σ → (cparent C =? NULL) = match C with [] => true | _ => false end.
Proof.
  intros HR. destruct (wrepr_plug _ _ _ HR) as (_ & _ & _ & _ & Hn). destruct C as [|f C]; [done|]. cbn in *. apply Z.eqb_neq.
  unfold caddrs, faddrs in Hn. cbn in Hn. set_solver.
Qed.

(** Two places of a tree have different addresses. *)
Lemma repr_sib f C T σ : repr (plug (f :: C) T) σ → T ≠ Leaf → addr T ≠ addr (fr_sib f).
Proof.
  intros HR HT. destruct (wrepr_plug _ _ _ HR) as (_ & _ & _ & Hd & Hn). destruct T as [|c l a v r]; [done|]. cbn in *.
  unfold caddrs, faddrs in *. cbn in *. apply NoDup_cons in Hd as [Hd _]. intros E. destruct (fr_sib f) as [|c' l' a' v' r']; cbn in *; set_solver.
Qed.

(** [p && p->color == RED] *)
Definition red (T : tree) : bool := match T with Node RED _ _ _ _ => true | _ => false end.
Lemma is_red_spec C T σ Q : repr (plug C T) σ → Q (red T) σ → wp (is_red (addr T)) Q σ.
Proof.
  intros HR HQ. unfold is_red. rewrite (repr_null C T σ HR). destruct T as [|c l a v r]; [by wp_step|]. wp_step.
  destruct (repr_node C true c l a v r σ HR) as [Ha _]. eapply wp_get_wnode; [exact Ha|]. wp_step. cbn. by destruct c.
Qed.

(** ** Changing a node in its place *)

Lemma repr_set C b c s a v o c' v' σ :
  repr (plug C (mk b c s a v o)) σ →
  repr (plug C (mk b c' s a v' o)) (WState (trees σ) (<[a := if b then TNode (cparent C) (addr s) (addr o) c' v'
                                                            else TNode (cparent C) (addr o) (addr s) c' v']> (nodes σ))).
Proof.
  intros HR. destruct (wrepr_plug _ _ _ HR) as (H1 & H2 & H3 & H4 & H5). rewrite addr_mk in *. rewrite addrs_mk in H4, H5.
  apply stored_mk in H3 as (H3 & H6 & H7). cbn in H4. apply NoDup_cons in H4 as [H4 H8].
  assert (∀ x, x ∈ addrs s ∨ x ∈ addrs o ∨ x ∈ caddrs C → x ≠ a) as Hne by (intros x Hx ->; set_solver).
  eapply repr_change; [exact HR|..]; cbn [trees nodes].
  - by rewrite !wplug_addrs, !addrs_mk.
  - by rewrite H1, wplug_addr, addr_mk.
  - apply wplug_stored. rewrite addr_mk, stored_mk, lookup_insert_eq. split_and!; [|done|..].
    + eapply wctx_stored_ext; [|exact H2]. intros x Hx. apply lookup_insert_ne. symmetry. auto.
    + eapply wstored_ext; [|exact H6]. intros x Hx. apply lookup_insert_ne. symmetry. auto.
    + eapply wstored_ext; [|exact H7]. intros x Hx. apply lookup_insert_ne. symmetry. auto.
  - intros x Hx. apply lookup_insert_ne. intros ->. apply Hx. rewrite wplug_addrs, addrs_mk. set_solver.
  - done.
Qed.

Lemma set_color_spec C b c s a v o c' σ Q :
  repr (plug C (mk b c s a v o)) σ → (∀ τ, repr (plug C (mk b c' s a v o)) τ → Q tt τ) → wp (set_color a c') Q σ.
Proof.
  intros HR HQ. destruct (repr_node _ _ _ _ _ _ _ _ HR) as [Ha _]. unfold set_color. wp_step. eapply wp_get_wnode; [exact Ha|].
  apply wp_modify, HQ. pose proof (repr_set C b c s a v o c' v σ HR) as HR'. by destruct b.
Qed.
Lemma set_item_spec C b c s a v o v' σ Q :
  repr (plug C (mk b c s a v o)) σ → (∀ τ, repr (plug C (mk b c s a v' o)) τ → Q tt τ) → wp (set_item a v') Q σ.
Proof.
  intros HR HQ. destruct (repr_node _ _ _ _ _ _ _ _ HR) as [Ha _]. unfold set_item. wp_step. eapply wp_get_wnode; [exact Ha|].
  apply wp_modify, HQ. pose proof (repr_set C b c s a v o c v' σ HR) as HR'. by destruct b.
Qed.

(** ** Rotations *)

(** The pointer to the hole. *)
Lemma replace_child_spec C n a v σ Q :
  trees σ !! t = Some (Tree (top C a)) → ctx_stored (nodes σ) C a → NoDup (a :: caddrs C) → NULL ∉ caddrs C → a ≠ NULL →
  nodes σ !! a = Some n → parent n = cparent C →
  (∀ τ, trees τ !! t = Some (Tree (top C v)) → ctx_stored (nodes τ) C v → (∀ x, x ∉ caddrs C → nodes τ !! x = nodes σ !! x) →
        (∀ t', t' ≠ t → trees τ !! t' = trees σ !! t') → Q tt τ) →
  wp (replace_child t a v) Q σ.
Proof.
  intros Hr Hc Hd Hn Ha Ea Ep HQ. unfold replace_child. wp_step. eapply wp_get_wnode; [exact Ea|]. rewrite Ep.
  destruct C as [|f C]; cbn [cparent].
  - cbn. unfold set_root. wp_step. eapply wp_get_tree; [exact Hr|]. apply wp_modify, HQ; cbn; [apply lookup_insert_eq|done|done|].
    intros t' Ht. by apply lookup_insert_ne.
  - unfold caddrs, faddrs in Hd, Hn. cbn in Hd, Hn. cbn in Hc. destruct Hc as (H1 & H2 & H3).
    apply NoDup_cons in Hd as [Hd1 Hd2]. apply NoDup_cons in Hd2 as [Hd2 Hd3].
    rewrite (proj2 (Z.eqb_neq (fr_addr f) NULL)) by set_solver. cbn [negb]. wp_step. eapply wp_get_wnode; [exact H1|].
    assert (wp (set_node (fr_addr f) (fr_node f (cparent C) v)) Q σ) as Hset.
    { apply wp_modify, HQ; cbn.
      - rewrite Hr. do 2 f_equal. apply wtop_cons.
      - rewrite lookup_insert_eq. split_and!; [done|eapply wstored_ext; [|exact H2]|eapply wctx_stored_ext; [|exact H3]];
          intros x Hx; apply lookup_insert_ne; intros <-; set_solver.
      - intros x Hx. apply lookup_insert_ne. intros <-. apply Hx. unfold caddrs, faddrs. cbn. set_solver.
      - done. }
    unfold fr_node in *. destruct (fr_left f); cbn [left].
    + rewrite Z.eqb_refl. unfold set_left. wp_step. eapply wp_get_wnode; [exact H1|]. exact Hset.
    + rewrite (proj2 (Z.eqb_neq _ a)).
      * unfold set_right. wp_step. eapply wp_get_wnode; [exact H1|]. exact Hset.
      * destruct (fr_sib f); cbn in *; set_solver.
Qed.

(** The heap after a rotation. *)
Definition rotated (b : bool) (C : list frame) c x a v c' (m : tree) y w r (N : gmap Z wmem_tree_node_t) : gmap Z wmem_tree_node_t :=
  let N := <[a := if b : bool then TNode y (addr x) (addr m) c v else TNode y (addr m) (addr x) c v]> N in
  let N := <[y := if b : bool then TNode (cparent C) a (addr r) c' w else TNode (cparent C) (addr r) a c' w]> N in
  match m with Leaf => N | Node cm ml ma mv mr => <[ma := TNode a (addr ml) (addr mr) cm mv]> N end.

Lemma rotated_distinct (a y : Z) (lx lm lr lc : list Z) :
  NoDup ((a :: lx ++ y :: lm ++ lr) ++ lc) →
  y ≠ a ∧ (a ∉ lc) ∧ (y ∉ lc) ∧ NoDup lm ∧
  (∀ z, z ∈ lm → z ≠ a ∧ z ≠ y ∧ z ∉ lc) ∧
  (∀ z, z ∈ lx ∨ z ∈ lr → z ≠ a ∧ z ≠ y ∧ (z ∉ lm) ∧ (z ∉ lc)) ∧
  (∀ z, z ∈ lc → z ≠ a ∧ z ≠ y ∧ z ∉ lm).
Proof.
  rewrite <- app_comm_cons, NoDup_cons, <- app_assoc, NoDup_app, <- app_comm_cons, NoDup_cons, <- app_assoc, !NoDup_app.
  rewrite !elem_of_app, elem_of_cons, !elem_of_app. intros (H1 & H2 & H3 & H4 & H5 & H6 & H7 & H8 & H9).
  setoid_rewrite elem_of_cons in H3. setoid_rewrite elem_of_app in H3. setoid_rewrite elem_of_app in H3. setoid_rewrite elem_of_app in H6.
  split_and!; [intros ->; tauto|tauto|tauto|done|..]; intros z Hz; split_and!; try (intros ->; naive_solver); naive_solver.
Qed.

Lemma rotated_repr C b c x a v c' m y w r σ τ N :
  repr (plug C (mk b c x a v (mk b c' m y w r))) σ →
  trees τ !! t = Some (Tree (top C y)) → ctx_stored (nodes τ) C y → (∀ x, x ∉ caddrs C → nodes τ !! x = nodes σ !! x) →
  (∀ t', t' ≠ t → trees τ !! t' = trees σ !! t') →
  (∀ z, N !! z = rotated b C c x a v c' m y w r (nodes τ) !! z) →
  repr (plug C (mk b c' (mk b c x a v m) y w r)) (WState (trees τ) N).
Proof.
  intros HR T1 T2 T3 T4 EN. destruct (wrepr_plug _ _ _ HR) as (_ & _ & H3 & H4 & _).
  rewrite !stored_mk in H3. destruct H3 as (Ha & Hx & Hy & Hm & Hr). rewrite !addrs_mk in H4.
  apply rotated_distinct in H4 as (Hya & Hac & Hyc & Hdm & Dm & Dx & Dc).
  assert (addrs (mk b c' (mk b c x a v m) y w r) ≡ₚ addrs (mk b c x a v (mk b c' m y w r))) as HP by (rewrite !addrs_mk; solve_Permutation).
  assert (∀ z, z ≠ a → z ≠ y → (m = Leaf ∨ z ≠ addr m) → N !! z = nodes τ !! z) as Hoff.
  { intros z Za Zy Zm. rewrite EN. unfold rotated. destruct m as [|cm ml ma mv mr]; [|destruct Zm as [?|Zm]; [done|cbn in Zm; rewrite lookup_insert_ne by done]];
      by rewrite !lookup_insert_ne by done. }
  assert (∀ z, z ∉ addrs m → m = Leaf ∨ z ≠ addr m) as Hnm.
  { intros z Hz. destruct m; [by left|right]. intros ->. apply Hz. left. }
  assert (∀ z, z ∈ addrs x ∨ z ∈ addrs r → N !! z = nodes σ !! z) as Hout.
  { intros z Hz. destruct (Dx z Hz) as (? & ? & ? & ?). rewrite Hoff by auto. by apply T3. }
  eapply repr_change; [exact HR|..]; cbn [trees nodes].
  - by rewrite !wplug_addrs, HP.
  - by rewrite T1, wplug_addr, addr_mk.
  - apply wplug_stored. rewrite addr_mk. split.
    { eapply wctx_stored_ext; [|exact T2]. intros z Hz. destruct (Dc z Hz) as (? & ? & ?); auto. }
    rewrite stored_mk, addr_mk, stored_mk.
    assert (stored N a x) as Sx by (eapply wstored_ext; [|exact Hx]; auto).
    assert (stored N y r) as Sr by (eapply wstored_ext; [|exact Hr]; auto).
    destruct m as [|cm ml ma mv mr].
    { split_and!; try done; rewrite EN; unfold rotated; [by rewrite lookup_insert_eq|]. by rewrite lookup_insert_ne, lookup_insert_eq by done. }
    destruct Hm as (Hm & Hml & Hmr). destruct (Dm ma) as (Hma & Hmy & Hmc); [left|]. cbn in Hdm. apply NoDup_cons in Hdm as [Hdm _].
    assert (∀ z, z ∈ addrs ml ∨ z ∈ addrs mr → N !! z = nodes σ !! z) as Hin.
    { intros z Hz. destruct (Dm z) as (? & ? & ?); [right; apply elem_of_app; tauto|].
      rewrite Hoff; [by apply T3|done|done|right]. intros ->. apply Hdm, elem_of_app. tauto. }
    split_and!; try done.
    + rewrite EN. unfold rotated. by rewrite lookup_insert_ne, lookup_insert_eq by done.
    + rewrite EN. unfold rotated. by rewrite !lookup_insert_ne, lookup_insert_eq by done.
    + cbn. rewrite EN. unfold rotated. rewrite lookup_insert_eq.
      split_and!; [done|eapply wstored_ext; [|exact Hml]; auto|eapply wstored_ext; [|exact Hmr]; auto].
  - intros z Hz. rewrite wplug_addrs, !addrs_mk, elem_of_app, elem_of_cons, elem_of_app, elem_of_cons, elem_of_app in Hz.
    rewrite Hoff; [apply T3; tauto|tauto|tauto|apply Hnm; tauto].
  - done.
Qed.

Ltac node_at := cbn [nodes]; first [by rewrite lookup_insert_eq | rewrite lookup_insert_ne by done; node_at | eassumption].
Ltac map_eq := intros z; unfold rotated; cbn [addr]; rewrite !lookup_insert; repeat case_decide; congruence.
(** The assignments of a rotation behind the change of the pointer to the node. *)
Ltac rotate_steps Ha Hy m Hm Dm Hnm HQ :=
  wp_step; eapply wp_get_wnode; [exact Ha|]; cbn [left right parent]; unfold set_parent, set_right, set_left;
  wp_step; wp_step; eapply wp_get_wnode; [exact Hy|]; apply wp_modify; cbn [left right parent color it];
  wp_step; wp_step; eapply wp_get_wnode; [node_at|]; apply wp_modify; cbn [left right parent color it];
  wp_step; eapply wp_get_wnode; [node_at|]; cbn [left right parent color it];
  wp_step; wp_step; eapply wp_get_wnode; [node_at|]; apply wp_modify; cbn [left right parent color it];
  wp_step; eapply wp_get_wnode; [node_at|]; cbn [left right parent color it];
  let ma := fresh "ma" in let mv := fresh "mv" in let Hma := fresh in let Hmy := fresh in
  destruct m as [|? ? ma mv ?]; cbn [addr];
  [cbn [negb Z.eqb NULL]; wp_step; wp_step
  |destruct Hm as (Hm & _); destruct (Dm ma) as (Hma & Hmy & _); [left|];
   rewrite (proj2 (Z.eqb_neq ma NULL)) by (intros ->; apply Hnm; left); cbn [negb];
   wp_step; wp_step; eapply wp_get_wnode; [node_at|]; apply wp_modify; cbn [left right parent color it]];
  (wp_step; eapply wp_get_wnode; [node_at|]; cbn [left right parent color it];
   wp_step; wp_step; eapply wp_get_wnode; [node_at|]; apply wp_modify; cbn [left right parent color it];
   wp_step; cbn [trees nodes]; apply HQ; map_eq).

Lemma rotate_spec C b c x a v c' m y w r σ Q :
  repr (plug C (mk b c x a v (mk b c' m y w r))) σ →
  (∀ τ, repr (plug C (mk b c' (mk b c x a v m) y w r)) τ → Q tt τ) → wp (rotate None b t a) Q σ.
Proof.
  intros HR HQ. destruct (wrepr_plug _ _ _ HR) as (H1 & H2 & H3 & H4 & H5). rewrite addr_mk in H1, H2.
  rewrite !stored_mk in H3. destruct H3 as (Ha & _ & Hy & Hm & _). rewrite !addrs_mk in H4, H5. pose proof H4 as H4'.
  apply rotated_distinct in H4' as (Hya & Hac & Hyc & _ & Dm & _ & _).
  assert (a ≠ NULL ∧ (NULL ∉ caddrs C) ∧ (NULL ∉ addrs m)) as (Hna & Hnc & Hnm) by set_solver.
  assert (NoDup (a :: caddrs C)) as Hd by (constructor; [done|]; by apply NoDup_app in H4 as (_ & _ & H4)).
  assert (∀ τ N, trees τ !! t = Some (Tree (top C y)) → ctx_stored (nodes τ) C y → (∀ x, x ∉ caddrs C → nodes τ !! x = nodes σ !! x) →
    (∀ t', t' ≠ t → trees τ !! t' = trees σ !! t') → (∀ z, N !! z = rotated b C c x a v c' m y w r (nodes τ) !! z) → Q tt (WState (trees τ) N)) as HQ'
    by (intros τ N K1 K2 K3 K4 K5; by apply HQ, (rotated_repr C b c x a v c' m y w r σ τ N HR)).
  assert (∀ τ, (∀ x, x ∉ caddrs C → nodes τ !! x = nodes σ !! x) → stored (nodes τ) y m) as Hmτ.
  { intros τ T3. eapply wstored_ext; [|exact Hm]. intros z Hz. by apply T3, Dm. }
  rewrite addr_mk in Ha. unfold rotate. destruct b; cbn [mk addr] in *.
  - unfold rotate_left. wp_step. eapply wp_get_wnode; [exact Ha|]. cbn [right].
    wp_step. eapply replace_child_spec; [exact H1|exact H2|exact Hd|exact Hnc|exact Hna|exact Ha|done|].
    intros τ T1 T2 T3 T4. specialize (fun N => HQ' τ N T1 T2 T3 T4). specialize (Hmτ τ T3). clear T1 T2 T4 H1 H2 H4 H5 Hm HR HQ.
    rewrite <- T3 in Ha, Hy by done. rotate_steps Ha Hy m Hmτ Dm Hnm HQ'.
  - unfold rotate_right. wp_step. eapply wp_get_wnode; [exact Ha|]. cbn [left].
    wp_step. eapply replace_child_spec; [exact H1|exact H2|exact Hd|exact Hnc|exact Hna|exact Ha|done|].
    intros τ T1 T2 T3 T4. specialize (fun N => HQ' τ N T1 T2 T3 T4). specialize (Hmτ τ T3). clear T1 T2 T4 H1 H2 H4 H5 Hm HR HQ.
    rewrite <- T3 in Ha, Hy by done. rotate_steps Ha Hy m Hmτ Dm Hnm HQ'.
Qed.
End Steps.
