(* ===== verification/WmemTreeRB.v ===== *)
(** * Red-black trees of wmem: colours and insertion

    The red-black invariant of a tree and of a context with a hole, and the proof that
    [rb_insert_case1] restores it behind the insertion of a red leaf and keeps the order
    of the nodes. *)

From stdpp Require Import base numbers gmap list.
From S2P Require Import Prelude CMem WmemTree WmemTreeRep.
Open Scope Z_scope.
#[local] Set Warnings "-clear-no-such-hyp".

#[local] Abbreviation RED := WMEM_NODE_COLOR_RED.
#[local] Abbreviation BLACK := WMEM_NODE_COLOR_BLACK.

(** ** The invariant *)

(** No red node has a red child, and all the paths to a leaf have [n] black nodes. *)
Fixpoint rb (n : nat) (T : tree) : Prop :=
  match T with
  | Leaf => n = O
  | Node RED l _ _ r => red l = false ∧ red r = false ∧ rb n l ∧ rb n r
  | Node BLACK l _ _ r => match n with O => False | S n => rb n l ∧ rb n r end
  end.
Definition rbtree (T : tree) : Prop := red T = false ∧ ∃ n, rb n T.

Definition hole_black (C : list frame) : Prop := match C with f :: _ => fr_color f = BLACK | [] => False end.
(** What is around a hole for a tree with [n] black nodes on each path. *)
Fixpoint ctx_rb (n : nat) (C : list frame) : Prop :=
  match C with
  | [] => True
  | f :: C =>
      rb n (fr_sib f) ∧
      match fr_color f with RED => red (fr_sib f) = false ∧ hole_black C ∧ ctx_rb n C | BLACK => ctx_rb (S n) C end
  end.

Lemma mk_swap b c s a v o : mk b c s a v o = mk (negb b) c o a v s.
Proof. by destruct b. Qed.
Lemma fill_swap b c a v s o : fill s (Frame b c a v o) = fill o (Frame (negb b) c a v s).
Proof. apply mk_swap. Qed.
Lemma plug_cons f C T : plug (f :: C) T = plug C (fill T f).
Proof. done. Qed.
Lemma plug_frame b c a v o C T : plug (Frame b c a v o :: C) T = plug C (mk b c T a v o).
Proof. done. Qed.
Lemma red_mk b c s a v o : red (mk b c s a v o) = bool_decide (c = RED).
Proof. by destruct b, c. Qed.
Lemma rb_mk_red n b s a v o : rb n (mk b RED s a v o) ↔ red s = false ∧ red o = false ∧ rb n s ∧ rb n o.
Proof. destruct b; cbn; tauto. Qed.
Lemma rb_mk_black n b s a v o : rb (S n) (mk b BLACK s a v o) ↔ rb n s ∧ rb n o.
Proof. destruct b; cbn; tauto. Qed.
Lemma rb_mk_black_inv n b s a v o : rb n (mk b BLACK s a v o) → ∃ m, n = S m ∧ rb m s ∧ rb m o.
Proof. destruct n as [|n]; [by destruct b|]. rewrite rb_mk_black. eauto. Qed.
Lemma red_inv T b : red T = true → ∃ s a v o, T = mk b RED s a v o.
Proof. destruct T as [|[] l a v r]; try done. intros _. destruct b; [by exists l, a, v, r|by exists r, a, v, l]. Qed.
Lemma black_inv n T b : rb (S n) T → red T = false → ∃ s a v o, T = mk b BLACK s a v o ∧ rb n s ∧ rb n o.
Proof.
  destruct T as [|[] l a v r]; try done. intros [H1 H2] _. destruct b; [by exists l, a, v, r|by exists r, a, v, l].
Qed.

Lemma plug_rb C : ∀ T, rbtree (plug C T) ↔ ∃ n, ctx_rb n C ∧ rb n T ∧ (red T = true → hole_black C).
Proof.
  induction C as [|f C IH]; intros T.
  { cbn. split; [intros [H1 [n H2]]; exists n; split_and!; [done..|]; by rewrite H1|].
    intros (n & _ & H1 & H2). split; [destruct (red T); [by destruct H2|done]|eauto]. }
  rewrite plug_cons, IH. unfold fill. setoid_rewrite red_mk. setoid_rewrite bool_decide_eq_true. destruct f as [b c a v o]. cbn. destruct c; cbn.
  - setoid_rewrite rb_mk_red. split; intros (n & H); exists n; [destruct H as (H1 & (H2 & H3 & H4 & H5) & H6); rewrite H2; split_and!; auto; done|].
    destruct H as ((H1 & H2 & H3 & H4) & H5 & H6). destruct (red T); [by specialize (H6 eq_refl)|tauto].
  - split; intros (n & H).
    + destruct H as (H1 & H2 & _). apply rb_mk_black_inv in H2 as (m & -> & H2 & H3). by exists m.
    + exists (S n). rewrite rb_mk_black. split_and!; [tauto..|done].
Qed.

Lemma plug_items_eq C T T' : items T = items T' → items (plug C T) = items (plug C T').
Proof. rewrite !plug_items. by intros ->. Qed.
Lemma plug_length C T : lenZ C <= lenZ (addrs (plug C T)).
Proof.
  unfold lenZ. rewrite wplug_addrs, length_app. enough (length C ≤ length (caddrs C))%nat by lia.
  induction C as [|f C IH]; [done|]. unfold caddrs in *. cbn. rewrite length_app. lia.
Qed.

(** ** The sides of a node *)

Section Insert.
Context {σ0 : theap} {L : list Z} {t : Z}.
#[local] Abbreviation repr := (repr σ0 L t).

(** The node above a hole, with the tests for the side of the hole. *)
Lemma repr_frame f C T σ : repr (plug (f :: C) T) σ → nodes σ !! fr_addr f = Some (fr_node f (cparent C) (addr T)).
Proof. intros HR. by destruct (wrepr_plug _ _ _ HR) as (_ & [H _] & _). Qed.
Lemma fr_node_parent f p h : parent (fr_node f p h) = p.
Proof. unfold fr_node. by destruct (fr_left f). Qed.
Lemma side_left f C T σ p : repr (plug (f :: C) T) σ → T ≠ Leaf → (addr T =? left (fr_node f p (addr T))) = fr_left f.
Proof.
  intros HR HT. pose proof (repr_sib _ _ _ _ HR HT). unfold fr_node. destruct (fr_left f); cbn; [apply Z.eqb_refl|by apply Z.eqb_neq].
Qed.
Lemma side_right f C T σ p : repr (plug (f :: C) T) σ → T ≠ Leaf → (addr T =? right (fr_node f p (addr T))) = negb (fr_left f).
Proof.
  intros HR HT. pose proof (repr_sib _ _ _ _ HR HT). unfold fr_node. destruct (fr_left f); cbn; [by apply Z.eqb_neq|apply Z.eqb_refl].
Qed.
Lemma mk_ne_leaf b c s a v o : mk b c s a v o ≠ Leaf.
Proof. by destruct b. Qed.
Lemma repr_hole C T σ : repr (plug C T) σ → T ≠ Leaf → ∃ n, nodes σ !! addr T = Some n ∧ parent n = cparent C.
Proof.
  intros HR HT. destruct T as [|c l a v r]; [done|]. destruct (repr_node C true c l a v r σ HR) as [Ha _]. cbn. eauto.
Qed.

Lemma mk_frame f C b c s a v o σ :
  repr (plug (f :: C) (mk b c s a v o)) σ →
  let n := fr_node f (cparent C) a in
  nodes σ !! fr_addr f = Some n ∧ (a =? left n) = fr_left f ∧ (a =? right n) = negb (fr_left f) ∧
  nodes σ !! a = Some (if b then TNode (fr_addr f) (addr s) (addr o) c v else TNode (fr_addr f) (addr o) (addr s) c v).
Proof.
  intros HR. pose proof (repr_frame _ _ _ _ HR) as E1. pose proof (side_left f C _ σ (cparent C) HR (mk_ne_leaf _ _ _ _ _ _)) as E2.
  pose proof (side_right f C _ σ (cparent C) HR (mk_ne_leaf _ _ _ _ _ _)) as E3. rewrite addr_mk in *.
  destruct (repr_node _ _ _ _ _ _ _ _ HR) as [E4 _]. done.
Qed.

(** The tree has the red-black invariant and the nodes of [T], in their order. *)
Definition fixed (T : tree) (σ : theap) : Prop := ∃ T', repr T' σ ∧ rbtree T' ∧ items T' = items T.

(** ** The cases of an insertion *)

Lemma rb_insert_case5_spec b pa pv po ga gv go C X n σ :
  repr (plug (Frame b RED pa pv po :: Frame b BLACK ga gv go :: C) X) σ → X ≠ Leaf → rb n X → rb n po → red po = false → rb n go →
  red go = false → ctx_rb (S n) C →
  wp (rb_insert_case5 None t (addr X)) (fun _ => fixed (plug (Frame b RED pa pv po :: Frame b BLACK ga gv go :: C) X)) σ.
Proof.
  intros HR HX HbX Hbp Hrp Hbg Hrg HC. unfold rb_insert_case5.
  destruct (repr_hole _ _ _ HR HX) as (nx & Ex & Px). wp_step. eapply wp_get_wnode; [exact Ex|]. rewrite Px. cbn [cparent fr_addr].
  wp_step. eapply wp_get_wnode; [exact (repr_frame _ _ _ _ HR)|]. rewrite fr_node_parent. cbn [cparent fr_addr].
  rewrite plug_frame in HR.
  wp_step. eapply set_color_spec; [exact HR|]. intros σ1 HR1. rewrite plug_frame in HR1.
  wp_step. eapply set_color_spec; [exact HR1|]. intros σ2 HR2.
  change (repr (plug (Frame b BLACK pa pv po :: Frame b RED ga gv go :: C) X) σ2) in HR2.
  wp_step. eapply wp_get_wnode; [exact (repr_frame _ _ _ _ HR2)|]. rewrite (side_left _ _ _ _ _ HR2 HX).
  rewrite plug_frame in HR2. destruct (mk_frame _ _ _ _ _ _ _ _ _ HR2) as (Eg & Sg & _ & _).
  wp_step. eapply wp_get_wnode; [exact Eg|]. rewrite Sg. cbn [fr_left fr_addr].
  assert (wp (rotate None (negb b) t ga) (fun _ => fixed (plug (Frame b RED pa pv po :: Frame b BLACK ga gv go :: C) X)) σ2) as Hrot.
  2: { by destruct b. }
  rewrite plug_frame, (mk_swap b RED), (mk_swap b BLACK) in HR2.
  eapply rotate_spec; [exact HR2|]. intros τ Hτ. eexists. split; [exact Hτ|]. split.
  - apply plug_rb. exists (S n). rewrite rb_mk_black, rb_mk_red, red_mk. by split_and!.
  - rewrite !plug_frame. apply plug_items_eq. rewrite !items_mk. destruct b; by list_simplifier.
Qed.
Lemma fixed_items T T' σ : items T = items T' → fixed T σ → fixed T' σ.
Proof. intros E (T1 & H1 & H2 & H3). exists T1. by rewrite <- E. Qed.

Lemma rb_insert_case4_spec bf pa pv po bg ga gv go C s a v o n σ :
  let C' := Frame bf RED pa pv po :: Frame bg BLACK ga gv go :: C in
  repr (plug C' (mk bf RED s a v o)) σ → rb n (mk bf RED s a v o) → rb n po → red po = false → rb n go → red go = false → ctx_rb (S n) C →
  wp (rb_insert_case4 None t a) (fun _ => fixed (plug C' (mk bf RED s a v o))) σ.
Proof.
  intros C' HR HbX Hbp Hrp Hbg Hrg HC. unfold rb_insert_case4, C' in *. clear C'.
  destruct (mk_frame _ _ _ _ _ _ _ _ _ HR) as (Ep & Sl & Sr & Ex). pose proof HR as HR'. rewrite plug_frame in HR'.
  destruct (mk_frame _ _ _ _ _ _ _ _ _ HR') as (Eg & Gl & Gr & _). pose proof (repr_parent _ _ _ HR') as Hp. cbn [cparent fr_addr fr_left] in *.
  wp_step. eapply wp_get_wnode; [exact Ex|]. replace (parent _) with pa by by destruct bf.
  wp_step. eapply wp_get_wnode; [exact Ep|]. rewrite fr_node_parent. rewrite Hp, Sl, Sr.
  wp_step. eapply wp_get_wnode; [exact Eg|]. rewrite Gl, Gr. wp_step.
  destruct (decide (bf = bg)) as [<-|Hb].
  { replace (negb bf && bf)%bool with false by by destruct bf. replace (bf && negb bf)%bool with false by by destruct bf. wp_step.
    replace a with (addr (mk bf RED s a v o)) at 1 by apply addr_mk. eapply rb_insert_case5_spec; try done. apply mk_ne_leaf. }
  assert (bf = negb bg) as -> by by destruct bf, bg. rewrite negb_involutive.
  assert (wp (rotate None bg t pa) (fun _ τ => wp (n ← get_node a; mret (if bg then left n else right n))
    (fun x => wp (rb_insert_case5 None t x) (fun _ => fixed (plug (Frame (negb bg) RED pa pv po :: Frame bg BLACK ga gv go :: C)
      (mk (negb bg) RED s a v o)))) τ) σ) as Hrot; [|by destruct bg; cbn; wp_step].
  rewrite !(mk_swap (negb bg)), !negb_involutive in HR'. rewrite rb_mk_red in HbX. destruct HbX as (H1 & H2 & H3 & H4).
  eapply rotate_spec; [exact HR'|]. intros τ Hτ. destruct (repr_node _ _ _ _ _ _ _ _ Hτ) as [Ea _].
  wp_step. eapply wp_get_wnode; [exact Ea|]. wp_step. rewrite addr_mk.
  replace (if bg then _ else _) with (addr (mk bg RED po pa pv o)) by (rewrite addr_mk; by destruct bg).
  eapply wp_mono; [eapply (rb_insert_case5_spec bg a v s ga gv go C _ n)|]; [exact Hτ|apply mk_ne_leaf|by rewrite rb_mk_red|done..|].
  intros [] υ. apply fixed_items. rewrite !plug_frame. apply plug_items_eq. rewrite !items_mk. destruct bg; by list_simplifier.
Qed.
Lemma node_uncle_spec f g C b c s a v o σ Q :
  repr (plug (f :: g :: C) (mk b c s a v o)) σ → Q (addr (fr_sib g)) σ → wp (node_uncle a) Q σ.
Proof.
  intros HR HQ. unfold node_uncle. destruct (mk_frame _ _ _ _ _ _ _ _ _ HR) as (Ep & _ & _ & Ex). pose proof (repr_parent _ _ _ HR) as Hnp.
  rewrite plug_cons in HR. unfold fill in HR. destruct (mk_frame _ _ _ _ _ _ _ _ _ HR) as (Eg & Gl & _ & _).
  pose proof (repr_parent _ _ _ HR) as Hng. cbn [cparent] in *.
  wp_step. eapply wp_get_wnode; [exact Ex|]. replace (parent (if b then _ else _)) with (fr_addr f) by by destruct b. rewrite Hnp.
  wp_step. eapply wp_get_wnode; [exact Ep|]. rewrite fr_node_parent, Hng. wp_step. eapply wp_get_wnode; [exact Eg|]. rewrite Gl.
  unfold fr_node. by destruct (fr_left g); wp_step.
Qed.

(** The grandparent's colours change and the insertion goes on there, or the tree is done. *)
Lemma rb_insert_case3_spec b pa pv po bg ga gv go C X n σ :
  let T := plug (Frame b RED pa pv po :: Frame bg BLACK ga gv go :: C) X in
  repr T σ → red X = true → rb n X → rb n po → red po = false → rb n go → ctx_rb (S n) C →
  wp (rb_insert_case3 None t (addr X)) (fun r τ => match r with
    | inl a' => ∃ X', a' = addr X' ∧ repr (plug C X') τ ∧ red X' = true ∧ rb (S n) X' ∧ items (plug C X') = items T
    | inr _ => fixed T τ end) σ.
Proof.
  intros T HR Hr HbX Hbp Hrp Hbg HC. unfold rb_insert_case3, T in *. clear T.
  destruct (red_inv X b Hr) as (s & a & v & o & ->). rewrite addr_mk. wp_step. eapply node_uncle_spec; [exact HR|]. cbn [fr_sib].
  pose proof HR as HU. rewrite !plug_frame, (mk_swap bg), <- plug_frame in HU. wp_step. eapply is_red_spec; [exact HU|].
  destruct (red go) eqn:Hg.
  2: { wp_step. eapply wp_mono; [by eapply rb_insert_case4_spec|]. intros [] τ Hτ. by wp_step. }
  destruct (mk_frame _ _ _ _ _ _ _ _ _ HR) as (Ep & _ & _ & Ex). cbn [cparent fr_addr] in *.
  wp_step. eapply wp_get_wnode; [exact Ex|]. replace (parent (if b then _ else _)) with pa by by destruct b.
  wp_step. eapply wp_get_wnode; [exact Ep|]. rewrite fr_node_parent. rewrite plug_frame in HR.
  wp_step. eapply set_color_spec; [exact HR|]. intros σ1 HR1. rewrite plug_frame, (mk_swap bg), <- plug_frame in HR1.
  destruct (red_inv go true Hg) as (us & ua & uv & uo & ->). rewrite addr_mk.
  wp_step. eapply set_color_spec; [exact HR1|]. intros σ2 HR2. rewrite plug_frame in HR2.
  wp_step. eapply set_color_spec; [exact HR2|]. intros σ3 HR3. wp_step. eexists. split; [by rewrite addr_mk|]. split; [exact HR3|].
  rewrite rb_mk_red in Hbg. destruct Hbg as (G1 & G2 & G3 & G4). rewrite red_mk, rb_mk_red, !rb_mk_black, !red_mk. split_and!; try done.
  rewrite !plug_frame. apply plug_items_eq. rewrite !items_mk. destruct bg; by list_simplifier.
Qed.

Lemma rb_insert_case1_spec C X n σ :
  repr (plug C X) σ → red X = true → rb n X → ctx_rb n C → wp (rb_insert_case1 None t (addr X)) (fun _ => fixed (plug C X)) σ.
Proof.
  intros HR Hr HbX HC. unfold rb_insert_case1.
  apply (wp_loop_ghost _ (fun C' a τ => ∃ X' n, a = addr X' ∧ repr (plug C' X') τ ∧ red X' = true ∧ rb n X' ∧ ctx_rb n C' ∧
    items (plug C' X') = items (plug C X)) _ (fun C' => lenZ C') ) with (g := C).
  - clear HR Hr HbX HC. intros C' a τ (X' & m & -> & HR & Hr & HbX & HC & HI). destruct (red_inv X' true Hr) as (s & a & v & o & ->).
    rewrite addr_mk. destruct (repr_node _ _ _ _ _ _ _ _ HR) as [Ea _]. wp_step. eapply wp_get_wnode; [exact Ea|]. cbn [parent].
    rewrite (repr_parent _ _ _ HR). destruct C' as [|[bf fc pa pv po] C'].
    { wp_step. eapply set_color_spec; [exact HR|]. intros υ Hυ. wp_step. apply (fixed_items _ _ _ HI).
      eexists. split; [exact Hυ|]. split; [|done]. rewrite rb_mk_red in HbX. split; [done|]. exists (S m). cbn. tauto. }
    destruct (mk_frame _ _ _ _ _ _ _ _ _ HR) as (Ep & _). unfold rb_insert_case2.
    wp_step. eapply wp_get_wnode; [exact Ea|]. wp_step. eapply wp_get_wnode; [exact Ep|].
    replace (color (fr_node _ _ _)) with fc by by destruct bf. destruct fc; [rewrite bool_decide_true by done|rewrite bool_decide_false by done].
    + cbn in HC. destruct HC as (HC1 & HC2 & HC3 & HC4). destruct C' as [|[bg gc ga gv go] C']; [done|]. cbn in HC3. subst gc. cbn in HC4.
      replace a with (addr (mk true RED s a v o)) at 1 by apply addr_mk.
      eapply wp_mono; [eapply rb_insert_case3_spec; [exact HR|done|exact HbX|tauto..]|].
      intros [a'|[]] υ; [|by apply fixed_items]. intros (X' & -> & H1 & H2 & H3 & H4). exists C'. split; [exists X', (S m); split_and!; try done; [tauto|congruence]|].
      unfold lenZ. cbn. lia.
    + wp_step. apply (fixed_items _ _ _ HI). eexists. split; [exact HR|]. split; [|done]. apply plug_rb. exists m. by split_and!.
  - exists X, n. by split_and!.
  - intros. apply lenZ_nonneg.
  - pose proof (plug_length C X). destruct HR. lia.
Qed.
End Insert.
