(* ===== verification/WmemTreeRemove.v ===== *)
(** * Red-black trees of wmem: removal

    [rb_remove_doubleblack] restores the red-black invariant of a tree that misses a
    black node on the paths through a hole, and [rb_remove_node] takes one node out. *)

From stdpp Require Import base numbers gmap list.
From S2P Require Import Prelude CMem WmemTree WmemTreeRep WmemTreeRB.
Open Scope Z_scope.
#[local] Set Warnings "-clear-no-such-hyp".

#[local] Abbreviation RED := WMEM_NODE_COLOR_RED.
#[local] Abbreviation BLACK := WMEM_NODE_COLOR_BLACK.

(** ** Fewer nodes *)

Lemma repr_shrink σ0 L t T σ T' τ :
  repr σ0 L t T σ → addrs T' ⊆+ addrs T → trees τ !! t = Some (Tree (addr T')) → stored (nodes τ) NULL T' →
  (∀ a, a ∉ addrs T → nodes τ !! a = nodes σ !! a) → (∀ t', t' ≠ t → trees τ !! t' = trees σ !! t') → repr σ0 L t T' τ.
Proof.
  intros [H1 H2 H3 H4 H5 H6 H7 H8] HP Hr Hs Hn Ht. pose proof (λ a, elem_of_submseteq (addrs T') (addrs T) a) as Hin.
  split; try done.
  - apply submseteq_Permutation in HP as [k HP]. rewrite HP in H3. by apply NoDup_app in H3 as (? & _).
  - intros Hx. by apply H4, Hin.
  - unfold lenZ in *. apply submseteq_length in HP. lia.
  - intros a Ha. apply H6. by apply Hin.
  - intros a Ha. rewrite Hn; [by apply H7|]. intros Ha'. by apply Ha, H6.
  - intros t' Ht'. rewrite Ht by done. by apply H8.
Qed.
(** The changes since [σ0] and, behind them, those since [σ]. *)
Lemma repr_self σ0 L t T σ : repr σ0 L t T σ → repr σ (addrs T) t T σ.
Proof. intros []. by split. Qed.
Lemma repr_trans σ0 L t T σ T' τ : repr σ0 L t T σ → repr σ (addrs T) t T' τ → repr σ0 L t T' τ.
Proof.
  intros [H1 H2 H3 H4 H5 H6 H7 H8] [K1 K2 K3 K4 K5 K6 K7 K8]. split; auto.
  - intros a Ha. rewrite K7 by auto. auto.
  - intros t' Ht. rewrite K8 by auto. auto.
Qed.

Section Remove.
Context {σ0 : theap} {L : list Z} {t : Z}.
#[local] Abbreviation repr := (repr σ0 L t).
#[local] Abbreviation fixed := (@fixed σ0 L t).

(** ** The cases of a missing black node

    [X] has one black node less on each path than [C] wants; [b] is its side. *)

Lemma case_d6_spec C b pc X pa pv N sa sv D n σ :
  let S := mk b BLACK N sa sv D in
  repr (plug C (mk b pc X pa pv S)) σ → rb n X → rb n N → rb n D → red D = true → ctx_rb (Datatypes.S n) (Frame b pc pa pv S :: C) →
  wp (case_d6 None t b pa sa (addr D)) (fun _ => fixed (plug C (mk b pc X pa pv S))) σ.
Proof.
  intros S HR HX HN HD Hr HC. unfold case_d6, S in *. clear S. wp_step. eapply rotate_spec; [exact HR|]. intros σ1 H1.
  rewrite <- plug_frame in H1. destruct (repr_node _ _ _ _ _ _ _ _ H1) as [E1 _]. rewrite plug_frame in H1.
  wp_step. eapply wp_get_wnode; [exact E1|]. replace (color (if b then _ else _)) with pc by by destruct b.
  wp_step. eapply set_color_spec; [exact H1|]. intros σ2 H2. rewrite <- plug_frame in H2.
  wp_step. eapply set_color_spec; [exact H2|]. intros σ3 H3. rewrite plug_frame, mk_swap, <- plug_frame in H3.
  destruct (red_inv D true Hr) as (ds & da & dv & do & ->). rewrite addr_mk.
  eapply set_color_spec; [exact H3|]. intros σ4 H4. rewrite plug_frame in H4. eexists. split; [exact H4|]. rewrite rb_mk_red in HD. split.
  - apply plug_rb. cbn in HC. destruct HC as [_ HC]. destruct pc; cbn in HC.
    + exists (S n). rewrite rb_mk_red, !red_mk, !rb_mk_black. split_and!; try done; tauto.
    + exists (S (S n)). rewrite !red_mk, !rb_mk_black. split_and!; try done; tauto.
  - apply plug_items_eq. rewrite !items_mk. destruct b; by list_simplifier.
Qed.

Lemma case_d5_spec C b pc X pa pv N sa sv D n σ :
  let S := mk b BLACK N sa sv D in
  repr (plug C (mk b pc X pa pv S)) σ → rb n X → rb n N → rb n D → red N = true → red D = false →
  ctx_rb (Datatypes.S n) (Frame b pc pa pv S :: C) →
  wp (case_d5 None t b pa sa (addr N)) (fun _ => fixed (plug C (mk b pc X pa pv S))) σ.
Proof.
  intros S HR HX HN HD Hr Hd HC. unfold case_d5, S in *. clear S. destruct (red_inv N (negb b) Hr) as (m & ca & cv & r & ->). rewrite addr_mk.
  rewrite (mk_swap b pc), (mk_swap b BLACK), <- plug_frame in HR.
  wp_step. eapply rotate_spec; [exact HR|]. intros σ1 H1. rewrite <- plug_frame in H1.
  wp_step. eapply set_color_spec; [exact H1|]. intros σ2 H2. rewrite plug_frame in H2.
  wp_step. eapply set_color_spec; [exact H2|]. intros σ3 H3. rewrite plug_frame, mk_swap, negb_involutive, (mk_swap (negb b)), negb_involutive in H3.
  rewrite rb_mk_red in HN.
  replace sa with (addr (mk (negb b) RED D sa sv m)) by apply addr_mk.
  eapply wp_mono; [eapply (case_d6_spec C b pc X pa pv r ca cv (mk (negb b) RED D sa sv m) n)|]; [exact H3|tauto|tauto|rewrite rb_mk_red; tauto|apply red_mk| |].
  - cbn in *. rewrite rb_mk_black, rb_mk_red, red_mk in *. destruct pc; tauto.
  - intros [] τ. apply fixed_items, plug_items_eq. rewrite !items_mk. destruct b; by list_simplifier.
Qed.

Lemma case_d4_spec C b X pa pv N sa sv D n σ :
  let S := mk b BLACK N sa sv D in
  repr (plug C (mk b RED X pa pv S)) σ → rb n X → rb n N → rb n D → red N = false → red D = false → ctx_rb (Datatypes.S n) (Frame b RED pa pv S :: C) →
  wp (case_d4 pa sa) (fun _ => fixed (plug C (mk b RED X pa pv S))) σ.
Proof.
  intros S HR HX HN HD Hr Hd HC. unfold case_d4, S in *. clear S. rewrite mk_swap, <- plug_frame in HR.
  wp_step. eapply set_color_spec; [exact HR|]. intros σ1 H1. rewrite plug_frame in H1.
  eapply set_color_spec; [exact H1|]. intros σ2 H2. eexists. split; [exact H2|]. split.
  - apply plug_rb. exists (S n). cbn in HC. rewrite red_mk, rb_mk_black, rb_mk_red. split_and!; try done; tauto.
  - apply plug_items_eq. rewrite !items_mk. destruct b; by list_simplifier.
Qed.

Lemma case_d3_spec C b X pa pv N sa sv D n σ :
  let S := mk b RED N sa sv D in
  repr (plug C (mk b BLACK X pa pv S)) σ → rb n X → rb (Datatypes.S n) S → ctx_rb (Datatypes.S n) (Frame b BLACK pa pv S :: C) →
  wp (case_d3 None t b pa sa (addr N)) (fun _ => fixed (plug C (mk b BLACK X pa pv S))) σ.
Proof.
  intros S HR HX HS HC. unfold case_d3, S in *. clear S. rewrite rb_mk_red in HS. destruct HS as (Hn & Hd & HN & HD).
  wp_step. eapply rotate_spec; [exact HR|]. intros σ1 H1. rewrite <- plug_frame in H1.
  wp_step. eapply set_color_spec; [exact H1|]. intros σ2 H2. rewrite plug_frame in H2.
  wp_step. eapply set_color_spec; [exact H2|]. intros σ3 H3. rewrite <- plug_frame in H3. clear H1 H2.
  destruct (black_inv n N b HN Hn) as (n1 & na & nv & n2 & -> & Hn1 & Hn2). rewrite addr_mk.
  assert (∀ τ, fixed (plug (Frame b BLACK sa sv D :: C) (mk b RED X pa pv (mk b BLACK n1 na nv n2))) τ →
    fixed (plug C (mk b BLACK X pa pv (mk b RED (mk b BLACK n1 na nv n2) sa sv D))) τ) as Hfix.
  { intros τ. rewrite plug_frame. apply fixed_items, plug_items_eq. rewrite !items_mk. destruct b; by list_simplifier. }
  assert (ctx_rb (S n) (Frame b RED pa pv (mk b BLACK n1 na nv n2) :: Frame b BLACK sa sv D :: C)) as HC'.
  { destruct HC as [_ HC]. cbn [ctx_rb fr_sib fr_color hole_black]. rewrite red_mk, rb_mk_black. by split_and!. }
  pose proof H3 as HS. rewrite mk_swap, <- plug_frame in HS. destruct (repr_node _ _ _ _ _ _ _ _ HS) as [Es _].
  wp_step. eapply wp_get_wnode; [exact Es|]. replace (if b then right _ else _) with (addr n2) by by destruct b.
  pose proof HS as HS2. rewrite (mk_swap b BLACK), <- plug_frame in HS2. rewrite <- plug_frame in HS.
  wp_step. eapply is_red_spec; [exact HS2|]. destruct (red n2) eqn:E2.
  { eapply wp_mono; [by eapply case_d6_spec|]. intros []. exact Hfix. }
  wp_step. eapply wp_get_wnode; [exact Es|]. replace (if b then left _ else _) with (addr n1) by by destruct b.
  wp_step. eapply is_red_spec; [exact HS|]. destruct (red n1) eqn:E1.
  - eapply wp_mono; [by eapply case_d5_spec|]. intros []. exact Hfix.
  - eapply wp_mono; [by eapply case_d4_spec|]. intros []. exact Hfix.
Qed.
(** The sibling of a place that misses a black node is a node. *)
Lemma sibling n f C : ctx_rb (S n) (f :: C) → ∃ sc s1 sa sv s2, fr_sib f = mk (fr_left f) sc s1 sa sv s2.
Proof.
  intros [H _]. destruct (fr_sib f) as [|c l a v r]; [done|]. destruct (fr_left f); [by exists c, l, a, v, r|by exists c, r, a, v, l].
Qed.

(** One iteration at the parent [f]: it is done, or goes on for the parent. *)
Definition doubleblack_inv (I0 : list (Z * item)) (C : list frame) (x : Z * Z * bool) (τ : theap) : Prop :=
  ∃ X n, x.1.1 = addr X ∧ x.1.2 = cparent C ∧ (X = Leaf → ∀ f, head C = Some f → x.2 = fr_left f) ∧
    repr (plug C X) τ ∧ red X = false ∧ rb n X ∧ ctx_rb (S n) C ∧ items (plug C X) = I0.

Lemma doubleblack_loop_spec T C node p left_ σ :
  doubleblack_inv (items T) C (node, p, left_) σ → wp (rb_remove_doubleblack_loop None t (node, p, left_)) (fun _ => fixed T) σ.
Proof.
  intros HI. unfold rb_remove_doubleblack_loop. apply (wp_loop_ghost _ (doubleblack_inv (items T)) _ (fun C => lenZ C)) with (g := C); [|done|intros; apply lenZ_nonneg|].
  2: { destruct HI as (X & n & _ & _ & _ & HR & _). pose proof (plug_length C X). destruct HR. lia. }
  clear. intros C [[node p] left_] σ (X & n & E1 & E2 & Hl & HR & Hr & HX & HC & HI). cbn [fst snd] in *. subst node p.
  rewrite (repr_parent _ _ _ HR). destruct C as [|f C].
  { wp_step. exists X. split_and!; [exact HR|split; eauto|done]. }
  wp_step. eapply wp_get_wnode; [exact (repr_frame _ _ _ _ HR)|].
  replace (if negb (addr X =? NULL) then _ else left_) with (fr_left f).
  2: { rewrite (repr_null _ _ _ HR). destruct X; [symmetry; by apply Hl|]. cbn [negb]. symmetry. by eapply side_left. }
  destruct (sibling n f C HC) as (sc & N & sa & sv & D & ES). destruct f as [b pc pa pv S]. cbn [fr_left fr_sib fr_addr] in *. subst S.
  replace (if b then right (fr_node _ _ _) else _) with sa by (destruct b; cbn; by rewrite ?addr_mk).
  pose proof HR as HS. rewrite plug_frame in HR. rewrite plug_frame, mk_swap, <- plug_frame in HS.
  destruct (repr_node _ _ _ _ _ _ _ _ HS) as [Es _]. wp_step. eapply wp_get_wnode; [exact Es|].
  replace (if b then left _ else _) with (addr N) by by destruct b. replace (if b then right _ else _) with (addr D) by by destruct b.
  wp_step. replace sa with (addr (mk b sc N sa sv D)) at 1 by apply addr_mk. eapply is_red_spec; [exact HS|]. rewrite red_mk.
  assert (∀ τ, fixed (plug C (mk b pc X pa pv (mk b sc N sa sv D))) τ → fixed T τ) as Hfix by (intros τ; by apply fixed_items).
  destruct sc; [rewrite bool_decide_true by done|rewrite bool_decide_false by done].
  { destruct pc; [destruct HC as (_ & HC & _); cbn in HC; by rewrite red_mk in HC|].
    wp_step. eapply wp_mono; [eapply case_d3_spec; [exact HR|exact HX|exact (proj1 HC)|exact HC]|]. intros [] τ Hτ. wp_step. by apply Hfix. }
  pose proof (proj1 HC) as HS'. cbn [fr_sib] in HS'. rewrite rb_mk_black in HS'. destruct HS' as [HN HD].
  pose proof HS as HS2. rewrite (mk_swap b BLACK), <- plug_frame in HS2.
  wp_step. eapply is_red_spec; [exact HS2|]. destruct (red D) eqn:ED.
  { wp_step. eapply wp_mono; [by eapply case_d6_spec|]. intros [] τ Hτ. wp_step. by apply Hfix. }
  rewrite <- plug_frame in HS.
  wp_step. eapply is_red_spec; [exact HS|]. destruct (red N) eqn:EN.
  { wp_step. eapply wp_mono; [by eapply case_d5_spec|]. intros [] τ Hτ. wp_step. by apply Hfix. }
  destruct (repr_node _ _ _ _ _ _ _ _ HR) as [Ep _]. wp_step. eapply wp_get_wnode; [exact Ep|].
  replace (color _) with pc by by destruct b. destruct pc; [rewrite bool_decide_true by done|rewrite bool_decide_false by done].
  { wp_step. eapply wp_mono; [by eapply case_d4_spec|]. intros [] τ Hτ. wp_step. by apply Hfix. }
  rewrite plug_frame in HS. wp_step. eapply set_color_spec; [exact HS|]. intros τ Hτ. rewrite plug_frame, (mk_swap (negb b)), negb_involutive in Hτ.
  destruct (repr_node _ _ _ _ _ _ _ _ Hτ) as [Ea _]. wp_step. eapply wp_get_wnode; [exact Ea|]. wp_step. exists C. split; [|unfold lenZ; cbn; lia].
  exists (mk b BLACK X pa pv (mk b RED N sa sv D)), (S n). cbn [fst snd]. rewrite addr_mk, red_mk, rb_mk_black, rb_mk_red.
  split_and!; try done.
  - by destruct b.
  - intros E. by destruct b.
  - exact (proj2 HC).
  - rewrite <- HI, plug_frame. apply plug_items_eq. rewrite !items_mk. by destruct b.
Qed.
End Remove.

(** ** Taking a node out *)

Section Unlink.
Context {σ0 : theap} {L : list Z} {t : Z}.
#[local] Abbreviation repr := (repr σ0 L t).

(** The pointer to a node is replaced by its only child, which is prepared in [σ2]. *)
Lemma unlink_spec C b c X a v X' σ σ2 Q :
  repr (plug C (mk b c X a v Leaf)) σ → addr X' = addr X → addrs X' = addrs X → trees σ2 = trees σ →
  (∀ z, z ∉ addrs X → nodes σ2 !! z = nodes σ !! z) → stored (nodes σ2) (cparent C) X' →
  (∀ τ, repr (plug C X') τ → nodes τ !! a = nodes σ !! a → Q tt τ) → wp (replace_child t a (addr X')) Q σ2.
Proof.
  intros HR EX EA ET EN HX HQ. destruct (wrepr_plug _ _ _ HR) as (H1 & H2 & H3 & H4 & H5). rewrite addr_mk in *. rewrite addrs_mk in H4, H5.
  cbn in H4, H5. rewrite app_nil_r in H4, H5. apply NoDup_cons in H4 as [Ha Hd]. apply NoDup_app in Hd as (_ & Hd & HdC).
  apply stored_mk in H3 as (Ea & _). rewrite elem_of_app in Ha.
  eapply (replace_child_spec (t := t) C); [by rewrite ET|..].
  - eapply wctx_stored_ext; [|exact H2]. intros z Hz. apply EN. intros Hz'. by apply (Hd z).
  - constructor; [tauto|done].
  - set_solver.
  - set_solver.
  - rewrite EN by tauto. exact Ea.
  - by destruct b.
  - intros τ T1 T2 T3 T4. apply HQ; [|rewrite T3 by tauto; apply EN; tauto].
    eapply repr_shrink; [exact HR|..].
    + rewrite !wplug_addrs, addrs_mk. cbn. rewrite EA, app_nil_r. by apply submseteq_cons.
    + by rewrite wplug_addr.
    + apply wplug_stored. split; [done|]. eapply wstored_ext; [|exact HX]. intros z Hz. apply T3. rewrite EA in Hz. by apply Hd.
    + intros z Hz. rewrite wplug_addrs, addrs_mk in Hz. cbn in Hz. rewrite app_nil_r in Hz. rewrite T3, EN by set_solver. done.
    + intros t' Ht. by rewrite T4, ET by done.
Qed.

(** The same when the node has a parent, as [rb_remove_doubleblack] does it. *)
Lemma replace_child_frame f C b c s a v o x σ :
  repr (plug (f :: C) (mk b c s a v o)) σ →
  replace_child t a x σ = (if fr_left f then set_left (fr_addr f) x else set_right (fr_addr f) x) σ.
Proof.
  intros HR. destruct (mk_frame _ _ _ _ _ _ _ _ _ HR) as (Ep & Sl & _ & Ea). pose proof (repr_parent _ _ _ HR) as Hp. cbn [cparent] in Hp.
  unfold replace_child, get_node, mbind, M_mbind, M_bind. rewrite Ea. replace (parent (if b then _ else _)) with (fr_addr f) by by destruct b.
  rewrite Hp. cbn [negb]. rewrite Ep, Z.eqb_sym, Sl. by destruct (fr_left f).
Qed.

(** The tree has the invariant and these nodes in their order, without [a], which is still in the heap. *)
Definition detached (l : list (Z * item)) (a : Z) (σ τ : theap) : Prop :=
  ∃ T', repr T' τ ∧ rbtree T' ∧ items T' = l ∧ nodes τ !! a = nodes σ !! a.

Lemma rb_remove_doubleblack_spec f C b a v σ :
  let T := plug (f :: C) (mk b BLACK Leaf a v Leaf) in
  repr T σ → rbtree T → wp (rb_remove_doubleblack None t a) (fun _ => detached (items (plug (f :: C) Leaf)) a σ) σ.
Proof.
  intros T HR HT. unfold T in *. clear T. apply plug_rb in HT as (n & HC & Hb & _). destruct n as [|n]; [by destruct b|].
  rewrite rb_mk_black in Hb. destruct Hb as [-> _]. unfold rb_remove_doubleblack.
  destruct (mk_frame _ _ _ _ _ _ _ _ _ HR) as (Ep & Sl & _ & Ea). wp_step. eapply wp_get_wnode; [exact Ea|].
  replace (parent (if b then _ else _)) with (fr_addr f) by by destruct b. wp_step. eapply wp_get_wnode; [exact Ep|]. rewrite Sl.
  assert (wp (replace_child t a (addr Leaf)) (fun _ => wp (rb_remove_doubleblack_loop None t (NULL, fr_addr f, fr_left f))
    (fun _ => detached (items (plug (f :: C) Leaf)) a σ)) σ) as Hrep.
  2: { unfold wp at 1 in Hrep. rewrite (replace_child_frame _ _ _ _ _ _ _ _ _ _ HR) in Hrep. wp_step. by destruct (fr_left f); wp_step. }
  assert (a ∉ addrs (plug (f :: C) Leaf)) as Ha.
  { destruct (wrepr_plug _ _ _ HR) as (_ & _ & _ & Hd & _). rewrite addrs_mk in Hd. apply NoDup_cons in Hd as [Hd _]. by rewrite wplug_addrs. }
  eapply unlink_spec; [exact HR|done..|]. intros τ Hτ Eτ.
  eapply wp_mono; [eapply (doubleblack_loop_spec (σ0 := τ) (L := addrs (plug (f :: C) Leaf)) (plug (f :: C) Leaf) (f :: C))|].
  - exists Leaf, O. split_and!; try done; [by intros _ ? [= ->]|exact (repr_self _ _ _ _ _ Hτ)].
  - intros [] υ (T' & H1 & H2 & H3). exists T'. split_and!; [by eapply repr_trans|done..|]. rewrite <- Eτ. by apply (rp_nodes _ _ _ _ _ H1).
Qed.
Lemma items_addrs T : (items T).*1 ≡ₚ addrs T.
Proof.
  induction T as [|c l IHl a v r IHr]; [done|]. cbn. rewrite fmap_app. cbn. rewrite IHl, IHr. by rewrite Permutation_middle.
Qed.
Lemma items_addrs_eq T T' : items T = items T' → addrs T ≡ₚ addrs T'.
Proof. rewrite <- !items_addrs. by intros ->. Qed.

Lemma free_node_spec T a n σ Q :
  repr T σ → a ∈ L → a ∉ addrs T → nodes σ !! a = Some n →
  (∀ τ, repr T τ → nodes τ !! a = None → Q tt τ) → wp (free_node a) Q σ.
Proof.
  intros [H1 H2 H3 H4 H5 H6 H7 H8] HL Ha En HQ. unfold free_node. wp_step. eapply wp_get_wnode; [exact En|]. apply wp_modify, HQ.
  - split; try done; cbn [trees nodes].
    + eapply wstored_ext; [|exact H2]. intros z Hz. apply lookup_delete_ne. by intros ->.
    + intros z Hz. rewrite lookup_delete_ne by (by intros ->). by apply H7.
  - apply lookup_delete_eq.
Qed.

(** What is left of the red-black invariant below a node with one child at most. *)
Lemma unary_cases n b c X a v :
  rb n (mk b c X a v Leaf) → (X = Leaf ∧ n = match c with RED => O | BLACK => 1%nat end) ∨ (∃ xa xv, X = Node RED Leaf xa xv Leaf ∧ c = BLACK ∧ n = 1%nat).
Proof.
  destruct c; [rewrite rb_mk_red; intros (H1 & _ & H2 & ->)|intros H; apply rb_mk_black_inv in H as (m & -> & H2 & ->)];
    destruct X as [|[] xl xa xv xr]; auto; try done. right. exists xa, xv. cbn in H2. destruct H2 as (E1 & E2 & H1 & H2).
  destruct xl as [|[]], xr as [|[]]; cbn in *; by subst.
Qed.

Lemma only_child (b : bool) p x c v :
  let n := if b then TNode p x (addr Leaf) c v else TNode p (addr Leaf) x c v in (if negb (left n =? NULL) then left n else right n) = x.
Proof. destruct b; cbn; [|done]. by destruct (Z.eqb_spec x NULL) as [->|]. Qed.

(** Replacing the node by its child, or by nothing. *)
Lemma unlink_unary_spec C b c X a v σ :
  let T := plug C (mk b c X a v Leaf) in
  repr T σ → rbtree T → wp (unlink_unary None t a) (fun _ => detached (items (plug C X)) a σ) σ.
Proof.
  intros T HR HT. unfold T in *. clear T. pose proof HT as HT'. apply plug_rb in HT as (n & HC & Hb & Hh). unfold unlink_unary.
  destruct (repr_node _ _ _ _ _ _ _ _ HR) as [Ea _]. wp_step. eapply wp_get_wnode; [exact Ea|].
  replace (parent (if b then _ else _)) with (cparent C) by by destruct b.
  rewrite only_child.
  destruct (unary_cases _ _ _ _ _ _ Hb) as [[-> ->]|(xa & xv & -> & -> & ->)].
  - cbn [addr negb Z.eqb NULL]. wp_step. wp_step. wp_step. eapply wp_get_wnode; [exact Ea|].
    replace (parent (if b then _ else _)) with (cparent C) by by destruct b. replace (color (if b then _ else _)) with c by by destruct b.
    rewrite (repr_parent _ _ _ HR).
    assert (C = [] ∨ c = RED → wp (replace_child t a NULL) (fun _ => detached (items (plug C Leaf)) a σ) σ) as Hno.
    { intros H. eapply (unlink_spec C b c Leaf a v Leaf σ σ); [exact HR|done..|]. intros τ Hτ Eτ. eexists. split_and!; [exact Hτ| |done..].
      apply plug_rb. destruct H as [->| ->]; exists O; by split_and!. }
    destruct c; [rewrite bool_decide_false by done; cbn [andb]; auto|]. rewrite bool_decide_true by done. destruct C as [|f C]; cbn [andb negb]; [auto|].
    by eapply rb_remove_doubleblack_spec.
  - destruct (wrepr_plug _ _ _ HR) as (_ & _ & HX & Hd & Hn). apply stored_mk in HX as (_ & (Ex & _) & _). rewrite addrs_mk in Hd, Hn. cbn in Hd, Hn.
    cbn [addr]. rewrite (proj2 (Z.eqb_neq xa NULL)) by set_solver. cbn [negb]. unfold set_parent, set_color.
    wp_step. wp_step. wp_step. eapply wp_get_wnode; [exact Ex|]. apply wp_modify.
    wp_step. eapply wp_get_wnode; [apply lookup_insert_eq|]. apply wp_modify. cbn [left right parent color it nodes trees].
    assert (xa ≠ a) as Hxa by (apply NoDup_cons in Hd as [Hd _]; set_solver).
    wp_step. eapply wp_get_wnode; [cbn [nodes]; by rewrite !lookup_insert_ne by done|]. cbn [andb].
    eapply (unlink_spec C b BLACK (Node RED Leaf xa xv Leaf) a v (Node BLACK Leaf xa xv Leaf) σ); [exact HR|done|done|done|..].
    + intros z Hz. cbn in Hz. cbn [nodes]. by rewrite !lookup_insert_ne by set_solver.
    + cbn. by rewrite lookup_insert_eq.
    + intros τ Hτ Eτ. eexists. split_and!; [exact Hτ| |by apply plug_items_eq|done]. apply plug_rb. by exists 1%nat.
Qed.
(** ** Removing a node *)

(** Keys and data. *)
Definition kvs (l : list (Z * item)) : list (Z * Z) := (fun p => (key p.2, data p.2)) <$> l.
Lemma kvs_app l k : kvs (l ++ k) = kvs l ++ kvs k.
Proof. apply fmap_app. Qed.

(** Nodes whose data are neither trees nor marked as removed. *)
Definition plain (l : list (Z * item)) : Prop := Forall (fun p => is_subtree p.2 = false ∧ is_removed p.2 = false) l.

(** The tree has these keys and data, and one node of [T] less, which is freed. *)
Definition removed (T : tree) (l : list (Z * Z)) (τ : theap) : Prop :=
  ∃ T' x, repr T' τ ∧ rbtree T' ∧ kvs (items T') = l ∧ addrs T ≡ₚ x :: addrs T' ∧ nodes τ !! x = None ∧ (plain (items T) → plain (items T')).

Lemma remove_unary_spec C b c X a v σ :
  let T := plug C (mk b c X a v Leaf) in
  repr T σ → rbtree T →
  wp (_ ← unlink_unary None t a; free_node a) (fun _ => removed T (kvs (items (plug C X)))) σ.
Proof.
  intros T HR HT. wp_step. eapply wp_mono; [by eapply unlink_unary_spec|]. intros [] τ (T' & H1 & H2 & H3 & H4).
  assert (addrs T ≡ₚ a :: addrs T') as HP.
  { unfold T. rewrite (items_addrs_eq _ _ H3), !wplug_addrs, addrs_mk. cbn. by rewrite app_nil_r. }
  pose proof (rp_nodup _ _ _ _ _ HR) as Hd. fold T in Hd. rewrite HP in Hd. apply NoDup_cons in Hd as [Hd _].
  destruct (repr_node _ _ _ _ _ _ _ _ HR) as [Ea _]. rewrite Ea in H4.
  eapply free_node_spec; [exact H1|apply (rp_sub _ _ _ _ _ HR); fold T; rewrite HP; left|exact Hd|exact H4|].
  intros υ H5 H6. exists T', a. rewrite H3. split_and!; try done. unfold T, plain. rewrite !plug_items, items_mk.
  destruct b; rewrite !Forall_app, Forall_cons; tauto.
Qed.

Lemma wplug_app D E T : plug (D ++ E) T = plug E (plug D T).
Proof. unfold plug. by rewrite foldl_app. Qed.

(** The leftmost node below [r]. *)
Lemma wleftmost_spec C f r σ Q :
  repr (plug (f :: C) r) σ → r ≠ Leaf →
  (∀ D c a v o, r = plug D (Node c Leaf a v o) → litems D = [] → Q a σ) →
  wp (loop (fun temp_node => m ← get_node temp_node;
              if negb (left m =? NULL) then continue (left m) else break temp_node) (addr r)) Q σ.
Proof.
  intros HR Hr HQ.
  apply (wp_loop_ghost _ (fun g x τ => g.2 ≠ Leaf ∧ x = addr g.2 ∧ r = plug g.1 g.2 ∧ litems g.1 = [] ∧ τ = σ) _
    (fun g => lenZ (addrs g.2))) with (g := ([] : list frame, r)); [|done|intros; apply lenZ_nonneg|].
  - intros [D Y] x τ (HY & -> & EY & El & ->). cbn [fst snd] in *. destruct Y as [|c l a v o]; [done|]. cbn [addr].
    assert (repr (plug (D ++ f :: C) (Node c l a v o)) σ) as HD by (unfold plug; rewrite foldl_app; fold (plug D (Node c l a v o)); by rewrite <- EY).
    destruct (repr_node _ true _ _ _ _ _ _ HD) as [Ea _]. wp_step. eapply wp_get_wnode; [exact Ea|]. cbn [left].
    change (Node c l a v o) with (mk true c l a v o) in HD. rewrite <- plug_frame in HD. rewrite (repr_null _ _ _ HD).
    destruct l as [|c' l' a' v' o']; cbn [negb]; wp_step; [by eapply HQ|]. exists (Frame true c a v o :: D, Node c' l' a' v' o'). cbn [fst snd].
    split_and!; try done. unfold lenZ. cbn. rewrite !length_app. cbn. lia.
  - pose proof (rp_size _ _ _ _ _ HR) as Hs. unfold lenZ in *. rewrite wplug_addrs, length_app in Hs. cbn. lia.
Qed.

Lemma rb_remove_node_spec C c l a v r σ :
  let T := plug C (Node c l a v r) in
  repr T σ → rbtree T →
  wp (rb_remove_node None t a) (fun _ => removed T (kvs (litems C ++ items l) ++ kvs (items r ++ ritems C))) σ.
Proof.
  intros T HR HT. unfold rb_remove_node, T in *. clear T. destruct (repr_node _ true _ _ _ _ _ _ HR) as [Ea _].
  wp_step. eapply wp_get_wnode; [exact Ea|]. cbn [left right]. pose proof HR as Hl. change (Node c l a v r) with (mk true c l a v r) in Hl.
  pose proof Hl as Hr. rewrite <- plug_frame in Hl. rewrite mk_swap, <- plug_frame in Hr. rewrite (repr_null _ _ _ Hl), (repr_null _ _ _ Hr).
  rewrite <- kvs_app. wp_step. destruct l as [|cl ll la lv lr]; [|destruct r as [|cr rl ra rv rr]]; cbn [negb andb].
  - wp_step. eapply wp_mono; [by eapply (remove_unary_spec C false c r a v)|]. intros [] τ. rewrite plug_items. by list_simplifier.
  - wp_step. eapply wp_mono; [by eapply (remove_unary_spec C true c (Node cl ll la lv lr) a v)|]. intros [] τ. rewrite plug_items. by list_simplifier.
  - set (l := Node cl ll la lv lr) in *. set (r := Node cr rl ra rv rr) in *. wp_step. eapply wleftmost_spec; [exact Hr|done|].
    intros D c2 a2 v2 o Er El. set (v' := Item (key v2) (data v2) (is_subtree v) (is_removed v)).
    assert (∀ w, plug C (mk true c l a w r) = plug (D ++ Frame false c a w l :: C) (mk false c2 o a2 v2 Leaf)) as EP.
    { intros w. rewrite wplug_app, plug_frame. cbn [mk]. by rewrite <- Er. }
    pose proof HR as HR2. change (Node c l a v r) with (mk true c l a v r) in HR2. rewrite EP in HR2. destruct (repr_node _ _ _ _ _ _ _ _ HR2) as [E2 _].
    wp_step. eapply wp_get_wnode; [exact E2|]. wp_step. eapply wp_get_wnode; [exact Ea|]. cbn [it].
    wp_step. eapply (set_item_spec C true c l a v r); [exact HR|]. fold v'. intros τ Hτ. wp_step. rewrite EP in Hτ.
    eapply wp_mono; [eapply remove_unary_spec; [exact Hτ|]|].
    + rewrite <- EP. revert HT. change (Node c l a v r) with (mk true c l a v r). rewrite !plug_rb. by destruct c.
    + intros [] υ (T' & x & H1 & H2 & H3 & H4 & H5 & H6). exists T', x. split_and!; try done.
      * rewrite H3, wplug_app, plug_frame, plug_items. clearbody r. subst r. cbn [mk items]. rewrite !plug_items, El. cbn [items app].
        rewrite <- !app_assoc. cbn [app]. by rewrite <- !app_assoc, !kvs_app.
      * rewrite <- H4, <- EP, !wplug_addrs. done.
      * intros HP. apply H6. revert HP. rewrite <- EP. unfold plain. rewrite !plug_items, items_mk. cbn [items]. rewrite !Forall_app, !Forall_cons. done.
Qed.
End Unlink.
