(* ===== verification/WmemTreeSearch.v ===== *)
(** * Red-black trees of wmem: searching

    The order of the keys, the place of a key in a tree ([focus_by]), a rule for the loops
    that descend to it, and what the lookups find. *)

From stdpp Require Import base numbers gmap list sorting.
From S2P Require Import Prelude CMem WmemTree WmemTreeRep WmemTreeRB WmemTreeRemove.
Open Scope Z_scope.
#[local] Set Warnings "-clear-no-such-hyp".

(** ** Order *)

Definition keysof (l : list (Z * item)) : list Z := (fun p => key p.2) <$> l.
Lemma keysof_app l k : keysof (l ++ k) = keysof l ++ keysof k.
Proof. apply fmap_app. Qed.
Lemma kvs_keys l : (kvs l).*1 = keysof l.
Proof. unfold kvs, keysof. by rewrite <- list_fmap_compose. Qed.

Section Order.
Context (R : Z → Z → Prop) `{!Transitive R}.

Definition ordered_by (T : tree) : Prop := StronglySorted R (keysof (items T)).

(** [C] is around the place of [k] in [T]. *)
Definition focus_by (k : Z) (C : list frame) (Y T : tree) : Prop :=
  plug C Y = T ∧ (∀ x, x ∈ keysof (litems C) → R x k) ∧ (∀ x, x ∈ keysof (ritems C) → R k x).

Lemma focus_top k T : focus_by k [] T T.
Proof. split_and!; [done|..]; intros x Hx; by apply elem_of_nil in Hx. Qed.

Lemma focus_left k C c l a v r T :
  ordered_by T → focus_by k C (Node c l a v r) T → R k (key v) → focus_by k (Frame true c a v r :: C) l T.
Proof.
  intros Ho (<- & HL & HR) Hk. split_and!; [done|done|]. cbn [ritems fr_left fr_addr fr_item fr_sib].
  unfold ordered_by in Ho. rewrite plug_items in Ho. cbn in Ho. rewrite !keysof_app in Ho. cbn in Ho.
  apply StronglySorted_app_1_r, StronglySorted_app_1_l, StronglySorted_app_1_r, StronglySorted_cons in Ho as [Ho _].
  rewrite Forall_forall in Ho. intros x. cbn. rewrite elem_of_cons. unfold keysof. rewrite fmap_app, elem_of_app. intros [->|[Hx|Hx]]; [done| |by apply HR].
  etrans; [exact Hk|]. by apply Ho.
Qed.
Lemma focus_right k C c l a v r T :
  ordered_by T → focus_by k C (Node c l a v r) T → R (key v) k → focus_by k (Frame false c a v l :: C) r T.
Proof.
  intros Ho (<- & HL & HR) Hk. split_and!; [done| |done]. cbn [litems fr_left fr_addr fr_item fr_sib].
  unfold ordered_by in Ho. rewrite plug_items in Ho. cbn in Ho. rewrite !keysof_app in Ho. cbn in Ho.
  apply StronglySorted_app_1_r, StronglySorted_app_1_l in Ho.
  intros x. rewrite !keysof_app, !elem_of_app. intros [Hx|[Hx|Hx]]; [by apply HL| |].
  - etrans; [|exact Hk]. eapply StronglySorted_app_1_elem_of; [exact Ho|done|]. left.
  - apply list_elem_of_singleton in Hx. by subst.
Qed.

(** The descent to the place of [k]: what one round of such a loop does.  The state
    [s] of the loop may be more than the heap [σ] of the nodes. *)
Definition child (Y X : tree) : Prop := match X with Leaf => False | Node _ l _ _ r => Y = l ∨ Y = r end.

Section Search.
Context {S B : Type} (P : tree → Prop) (body : Z → M S (Z + B)) (σ0 : theap) (L : list Z) (t : Z) (T : tree) (k : Z).
Context (Q : B → S → Prop) (σ : theap) (s : S).

Definition at_leaf : Prop :=
  P Leaf → ∀ C, focus_by k C Leaf T → repr σ0 L t (plug C Leaf) σ →
     wp (body NULL) (fun r τ => match r with inl _ => False | inr b => Q b τ end) s.
Definition at_node : Prop :=
  ∀ C c l a v r, focus_by k C (Node c l a v r) T → repr σ0 L t (plug C (Node c l a v r)) σ → nodes σ !! a = Some (TNode (cparent C) (addr l) (addr r) c v) →
     wp (body a) (fun x τ => match x with
       | inl x => τ = s ∧ ((R k (key v) ∧ x = addr l ∧ P l) ∨ (R (key v) k ∧ x = addr r ∧ P r))
       | inr b => Q b τ end) s.

Definition searching (g : list frame * tree) (x : Z) (τ : S) : Prop := focus_by k g.1 g.2 T ∧ x = addr g.2 ∧ P g.2 ∧ τ = s.

Lemma search_body g x τ :
  repr σ0 L t T σ → ordered_by T → at_leaf → at_node → searching g x τ →
  wp (body x) (fun r υ => match r with inl y => ∃ g', searching g' y υ ∧ child g'.2 g.2 | inr b => Q b υ end) τ.
Proof.
  intros HR Ho HL HN. destruct g as [C Y]. intros (HF & -> & HY & ->). cbn [fst snd] in *.
  pose proof HR as HR'. rewrite <- (proj1 HF) in HR'. destruct Y as [|c l a v r]; cbn [addr].
  - eapply wp_mono; [by eapply HL|]. by intros [].
  - eapply wp_mono; [eapply (HN C c l a v r); [done..|]; exact (proj1 (repr_node C true c l a v r σ HR'))|].
    intros [x|b] τ; [|done]. intros [-> [(H1 & -> & H2)|(H1 & -> & H2)]]; [exists (Frame true c a v r :: C, l)|exists (Frame false c a v l :: C, r)];
      cbn [fst snd]; (split; [split_and!; [by eapply focus_left || by eapply focus_right|done..]|cbn; auto]).
Qed.

(** The rule for the loops that descend to the place of [k]. *)
Lemma wp_search : repr σ0 L t T σ → ordered_by T → P T → at_leaf → at_node → wp (loop body (addr T)) Q s.
Proof.
  intros HR Ho HP HL HN.
  apply (wp_loop_ghost _ searching _ (fun g => lenZ (addrs g.2))) with (g := ([], T));
    [|split_and!; [apply focus_top|done..]|intros; apply lenZ_nonneg|].
  - intros g x τ Hg. eapply wp_mono; [by eapply search_body|]. intros [y|b] υ; [|done]. intros (g' & Hg' & Hch). exists g'.
    split; [done|]. unfold child in Hch. destruct g.2 as [|c l a v r]; [done|]. unfold lenZ. cbn. rewrite length_app.
    destruct Hch as [->| ->]; lia.
  - pose proof (rp_size _ _ _ _ _ HR). cbn. lia.
Qed.
End Search.
End Order.

(** ** Integer keys *)

Abbreviation ordered := (ordered_by Z.lt).
Abbreviation focus := (focus_by Z.lt).

(** The data under the keys. *)
Definition absmap (T : tree) : gmap Z Z := list_to_map (kvs (items T)).

Lemma sorted_nodup l : StronglySorted Z.lt l → NoDup l.
Proof.
  induction l as [|x l IH]; [constructor|]. rewrite StronglySorted_cons, Forall_forall. intros [H1 H2]. constructor; [|auto].
  intros Hx. specialize (H1 _ Hx). lia.
Qed.
Lemma ordered_nodup T : ordered T → NoDup (kvs (items T)).*1.
Proof. rewrite kvs_keys. apply sorted_nodup. Qed.

Lemma focus_found k C c l a v r T : ordered T → focus k C (Node c l a v r) T → key v = k → absmap T !! k = Some (data v).
Proof.
  intros Ho (<- & _) <-. apply elem_of_list_to_map_1; [by apply ordered_nodup|]. rewrite plug_items. cbn. rewrite !kvs_app. cbn. set_solver.
Qed.
Lemma focus_none k C T : focus k C Leaf T → absmap T !! k = None.
Proof.
  intros (<- & HL & HR). apply not_elem_of_list_to_map_1. rewrite kvs_keys, plug_items, keysof_app, elem_of_app. cbn.
  intros [Hx|Hx]; [specialize (HL _ Hx)|specialize (HR _ Hx)]; lia.
Qed.

Section Lookup.
Context {σ0 : theap} {L : list Z} {t : Z} {T : tree} {σ : theap} (HR : repr σ0 L t T σ) (Ho : ordered T) (Ht : t ≠ NULL).

Lemma wmem_tree_contains32_spec k : wp (wmem_tree_contains32 t k) (fun x τ => x = bool_decide (is_Some (absmap T !! k)) ∧ τ = σ) σ.
Proof.
  unfold wmem_tree_contains32. rewrite (proj2 (Z.eqb_neq t NULL) Ht). wp_step. eapply wp_get_tree; [exact (rp_root _ _ _ _ _ HR)|]. cbn [root].
  eapply (wp_search Z.lt (fun _ => True) _ σ0 L t T k); [done..| |].
  - intros _ C HF _. cbn [Z.eqb NULL]. wp_step. rewrite (focus_none k C T HF). split; [|done]. symmetry. by apply bool_decide_false.
  - intros C c l a v r HF HR' Ea. rewrite (proj2 (Z.eqb_neq a NULL)) by (by apply (repr_node C true c l a v r σ HR')).
    wp_step. eapply wp_get_wnode; [exact Ea|]. cbn [it left right]. destruct (Z.eqb_spec k (key v)) as [E|E].
    { wp_step. rewrite (focus_found k C c l a v r T Ho HF) by done. split; [|done]. symmetry. by apply bool_decide_true. }
    destruct (Z.ltb_spec k (key v)); wp_step; (split; [done|]); [by left|right]. split_and!; [lia|done..].
Qed.

(** The node found, or NULL. *)
Definition found_node (k x : Z) (τ : theap) : Prop :=
  τ = σ ∧ ((x = NULL ∧ absmap T !! k = None) ∨ (x ≠ NULL ∧ ∃ C c l v r, focus k C (Node c l x v r) T ∧ key v = k)).

Lemma lookup32_step_spec k :
  at_leaf Z.lt (fun _ => True) (lookup32_step k) σ0 L t T k (found_node k) σ σ ∧
  at_node Z.lt (fun _ => True) (lookup32_step k) σ0 L t T k (found_node k) σ σ.
Proof.
  unfold found_node, lookup32_step. split.
  - intros _ C HF _. cbn [Z.eqb NULL]. wp_step. rewrite (focus_none k C T HF). auto.
  - intros C c l a v r HF HR' Ea. destruct (repr_node C true c l a v r σ HR') as [_ Hn]. rewrite (proj2 (Z.eqb_neq a NULL) Hn).
    wp_step. eapply wp_get_wnode; [exact Ea|]. cbn [it left right]. destruct (Z.eqb_spec k (key v)) as [E|E].
    { wp_step. split; [done|]. right. split; [done|]. by exists C, c, l, v, r. }
    destruct (Z.ltb_spec k (key v)); wp_step; (split; [done|]); [by left|right]. split_and!; [lia|done..].
Qed.

Lemma wmem_tree_lookup32_node_spec k : wp (wmem_tree_lookup32_node t k) (found_node k) σ.
Proof.
  unfold wmem_tree_lookup32_node. rewrite (proj2 (Z.eqb_neq t NULL) Ht). wp_step. eapply wp_get_tree; [exact (rp_root _ _ _ _ _ HR)|]. cbn [root].
  by eapply (wp_search Z.lt (fun _ => True) _ σ0 L t T k); [done..|apply lookup32_step_spec|apply lookup32_step_spec].
Qed.

Lemma wmem_tree_lookup32_spec k : wp (wmem_tree_lookup32 t k) (fun x τ => x = default NULL (absmap T !! k) ∧ τ = σ) σ.
Proof.
  unfold wmem_tree_lookup32, data_of. wp_step. eapply wp_mono; [apply wmem_tree_lookup32_node_spec|].
  intros x τ [-> [[-> ->]|(Hx & C & c & l & v & r & HF & Hk)]]; [cbn [Z.eqb NULL]; by wp_step|]. rewrite (proj2 (Z.eqb_neq x NULL) Hx).
  rewrite (focus_found k C c l x v r T) by done. pose proof HR as HR'. rewrite <- (proj1 HF) in HR'.
  wp_step. eapply wp_get_wnode; [exact (proj1 (repr_node C true c l x v r σ HR'))|]. by wp_step.
Qed.
End Lookup.
