(* ===== verification/WmemTreeNear.v ===== *)
(** * Red-black trees of wmem: the nearest key

    [wmem_tree_lookup32_le] and [_ge]: the descent to the place of a key, and the way
    back up to the nearest key before or behind it. *)

From stdpp Require Import base numbers gmap list sorting.
From S2P Require Import Prelude CMem WmemTree WmemTreeRep WmemTreeRB WmemTreeRemove WmemTreeSearch.
Open Scope Z_scope.
#[local] Set Warnings "-clear-no-such-hyp".

(** The nearest frame whose hole is on the left, or on the right. *)
Fixpoint side_of (b : bool) (C : list frame) : option frame :=
  match C with [] => None | f :: C => if eqb (fr_left f) b then Some f else side_of b C end.
Definition side_addr (b : bool) (C : list frame) : Z := match side_of b C with Some f => fr_addr f | None => NULL end.

(** That is the last item before the hole, or the first one behind it. *)
Lemma side_litems C : match side_of false C with
  | Some f => ∃ l, litems C = l ++ [(fr_addr f, fr_item f)]
  | None => litems C = [] end.
Proof. induction C as [|f C IH]; [done|]. cbn. destruct (fr_left f); cbn; [exact IH|]. eexists. by rewrite app_assoc. Qed.
Lemma side_ritems C : match side_of true C with
  | Some f => ∃ l, ritems C = (fr_addr f, fr_item f) :: l
  | None => ritems C = [] end.
Proof. induction C as [|f C IH]; [done|]. cbn. destruct (fr_left f); cbn; [eauto|exact IH]. Qed.
Lemma side_split b C f : side_of b C = Some f → ∃ D D', C = D ++ f :: D'.
Proof.
  induction C as [|g C IH]; [done|]. cbn. destruct (eqb (fr_left g) b); [intros [= ->]; by exists [], C|].
  intros H. destruct (IH H) as (D & D' & ->). by exists (g :: D), D'.
Qed.

(** The frames around the place of [k] have smaller keys if the hole is on their right,
    and greater keys if it is on their left. *)
Lemma focus_frame k C Y T f : focus k C Y T → f ∈ C → if fr_left f then k < key (fr_item f) else key (fr_item f) < k.
Proof.
  intros (_ & HL & HR) Hf. apply list_elem_of_split in Hf as (D & D' & ->). destruct (fr_left f) eqn:E; [apply HR|apply HL]; clear -E.
  - induction D as [|g D IH]; cbn; [rewrite E; left|]. destruct (fr_left g); [|done]. cbn. right. rewrite keysof_app, elem_of_app. by right.
  - induction D as [|g D IH]; cbn; [rewrite E, !keysof_app, !elem_of_app; right; right; left|].
    destruct (fr_left g); [done|]. rewrite keysof_app, elem_of_app. by left.
Qed.

Section Near.
Context {σ0 : theap} {L : list Z} {t : Z} {T : tree} {σ : theap} (HR : repr σ0 L t T σ) (Ho : ordered T) (Ht : t ≠ NULL).

Lemma absmap_keys k' : is_Some (absmap T !! k') ↔ k' ∈ keysof (items T).
Proof.
  rewrite <- kvs_keys. split; intros H.
  - destruct (decide (k' ∈ (kvs (items T)).*1)) as [|Hn]; [done|]. apply not_elem_of_list_to_map_1 in Hn. unfold absmap in H. rewrite Hn in H. by destruct H.
  - apply list_elem_of_fmap in H as ([x d] & -> & Hd). exists d. apply elem_of_list_to_map_1; [by apply ordered_nodup|done].
Qed.

(** A node of the tree. *)
Definition in_tree (x : Z) (v : item) : Prop := x ≠ NULL ∧ absmap T !! key v = Some (data v) ∧ ∃ n, nodes σ !! x = Some n ∧ it n = v.
Lemma in_tree_place C c l x v r : plug C (Node c l x v r) = T → in_tree x v.
Proof.
  intros E. pose proof HR as HR'. rewrite <- E in HR'. destruct (repr_node C true c l x v r σ HR') as [Ex Hx]. split_and!; [done| |eauto].
  apply elem_of_list_to_map_1; [by apply ordered_nodup|]. rewrite <- E, plug_items. cbn. rewrite !kvs_app. cbn. set_solver.
Qed.
Lemma in_tree_frame D f D' Y : plug (D ++ f :: D') Y = T → in_tree (fr_addr f) (fr_item f).
Proof.
  rewrite wplug_app, plug_cons. unfold fill, mk. destruct (fr_left f); apply in_tree_place.
Qed.

(** The node with the greatest key up to [k], or with the least from [k] on. *)
Definition nearest_le (k x : Z) : Prop :=
  (x = NULL ∧ ∀ k', is_Some (absmap T !! k') → k < k') ∨
  (∃ v, in_tree x v ∧ key v <= k ∧ ∀ k', is_Some (absmap T !! k') → k' <= k → k' <= key v).
Definition nearest_ge (k x : Z) : Prop :=
  (x = NULL ∧ ∀ k', is_Some (absmap T !! k') → k' < k) ∨
  (∃ v, in_tree x v ∧ k <= key v ∧ ∀ k', is_Some (absmap T !! k') → k <= k' → key v <= k').

Lemma side_nearest_le k C : focus k C Leaf T → nearest_le k (side_addr false C).
Proof.
  intros HF. pose proof HF as (E & HL & HRi). unfold nearest_le, side_addr. setoid_rewrite absmap_keys.
  assert (keysof (items T) = keysof (litems C) ++ keysof (ritems C)) as EK by (rewrite <- E, plug_items; apply keysof_app). rewrite EK.
  pose proof (side_litems C) as S. destruct (side_of false C) as [f|] eqn:Ef.
  - right. destruct S as [l Hl]. destruct (side_split _ _ _ Ef) as (D & D' & ->). exists (fr_item f). split; [by eapply in_tree_frame|]. split.
    + apply Z.lt_le_incl, HL. rewrite Hl, keysof_app, elem_of_app. right. left.
    + intros k'. rewrite elem_of_app. intros [Hk|Hk] Hle; [|specialize (HRi _ Hk); lia].
      rewrite Hl, keysof_app, elem_of_app in Hk. destruct Hk as [Hk|Hk]; [|apply list_elem_of_singleton in Hk; subst; cbn; lia].
      unfold ordered_by in Ho. rewrite EK, Hl, keysof_app in Ho. apply StronglySorted_app_1_l in Ho.
      apply Z.lt_le_incl. eapply StronglySorted_app_1_elem_of; [exact Ho|exact Hk|left].
  - left. split; [done|]. intros k'. rewrite S. cbn. apply HRi.
Qed.
Lemma side_nearest_ge k C : focus k C Leaf T → nearest_ge k (side_addr true C).
Proof.
  intros HF. pose proof HF as (E & HL & HRi). unfold nearest_ge, side_addr. setoid_rewrite absmap_keys.
  assert (keysof (items T) = keysof (litems C) ++ keysof (ritems C)) as EK by (rewrite <- E, plug_items; apply keysof_app). rewrite EK.
  pose proof (side_ritems C) as S. destruct (side_of true C) as [f|] eqn:Ef.
  - right. destruct S as [l Hl]. destruct (side_split _ _ _ Ef) as (D & D' & ->). exists (fr_item f). split; [by eapply in_tree_frame|]. split.
    + apply Z.lt_le_incl, HRi. rewrite Hl. left.
    + intros k'. rewrite elem_of_app. intros [Hk|Hk] Hle; [specialize (HL _ Hk); lia|].
      rewrite Hl in Hk. cbn in Hk. apply elem_of_cons in Hk as [->|Hk]; [lia|].
      unfold ordered_by in Ho. rewrite EK, Hl in Ho. apply StronglySorted_app_1_r, StronglySorted_cons in Ho as [Ho _].
      apply Z.lt_le_incl. rewrite Forall_forall in Ho. by apply Ho.
  - left. split; [done|]. intros k'. rewrite S, app_nil_r. apply HL.
Qed.
Lemma found_nearest k C c l a v r : focus k C (Node c l a v r) T → key v = k → nearest_le k a ∧ nearest_ge k a.
Proof. intros (E & _) Hk. pose proof (in_tree_place _ _ _ _ _ _ E). split; right; exists v; split_and!; [done|lia|lia|done|lia|lia]. Qed.
(** ** The descent and the way up *)

Definition descended (k : Z) (x : Z + Z) : Prop :=
  match x with
  | inl a => ∃ C c l v r, focus k C (Node c l a v r) T ∧ key v = k
  | inr a => (T = Leaf ∧ a = NULL) ∨ ∃ f C, a = fr_addr f ∧ focus k (f :: C) Leaf T
  end.

Lemma descend32_spec k : wp (descend32 t k) (fun x τ => τ = σ ∧ descended k x) σ.
Proof.
  unfold descend32. wp_step. eapply wp_get_tree; [exact (rp_root _ _ _ _ _ HR)|]. cbn [root].
  eapply (wp_search Z.lt (fun Y => Y = T ∨ Y ≠ Leaf) _ σ0 L t T k); [done|done|by left|..].
  - intros [HT|]; [|done]. intros C HF _. cbn [Z.eqb NULL]. wp_step. split; [done|]. by left.
  - intros C c l a v r HF HR' Ea. destruct (repr_node C true c l a v r σ HR') as [_ Hn]. rewrite (proj2 (Z.eqb_neq a NULL) Hn).
    wp_step. eapply wp_get_wnode; [exact Ea|]. cbn [it left right]. destruct (Z.eqb_spec k (key v)) as [E|E].
    { wp_step. split; [done|]. by exists C, c, l, v, r. }
    destruct (Z.ltb_spec k (key v)) as [Hk|Hk].
    + change (Node c l a v r) with (mk true c l a v r) in HR'. rewrite <- plug_frame in HR'. rewrite (repr_null _ _ _ HR').
      destruct l; wp_step; (split; [done|]); [right; exists (Frame true c a v r), C|left; by auto]. split; [done|]. exact (focus_left Z.lt k C c Leaf a v r T Ho HF Hk).
    + change (Node c l a v r) with (mk false c r a v l) in HR'. rewrite <- plug_frame in HR'. rewrite (repr_null _ _ _ HR').
      assert (key v < k) by lia.
      destruct r; wp_step; (split; [done|]); [right; exists (Frame false c a v l), C|right; by auto]. split; [done|]. by apply (focus_right Z.lt k C c l a v Leaf T Ho HF).
Qed.

(** Up to the nearest frame that passes the test. *)
Lemma climb_spec b (test : Z → bool) Y C :
  repr σ0 L t (plug C Y) σ → (∀ f, f ∈ C → test (key (fr_item f)) = eqb (fr_left f) b) →
  wp (loop (fun node => if node =? NULL then break NULL
                        else n ← get_node node; if test (key (it n)) then break node else continue (parent n)) (cparent C))
     (fun x τ => τ = σ ∧ x = side_addr b C) σ.
Proof.
  intros HC Htest.
  apply (wp_loop_ghost _ (fun D x τ => x = cparent D ∧ side_addr b D = side_addr b C ∧ (∃ D0, C = D0 ++ D) ∧ τ = σ) _ (fun D => lenZ D))
    with (g := C); [|split_and!; try done; by exists []|intros; apply lenZ_nonneg|].
  - intros D x τ (-> & <- & [D0 ->] & ->). rewrite wplug_app in HC. rewrite (repr_parent _ _ _ HC).
    destruct D as [|f D]; [by wp_step|]. wp_step. cbn [cparent]. eapply wp_get_wnode; [exact (repr_frame _ _ _ _ HC)|].
    rewrite fr_node_parent. replace (it _) with (fr_item f) by (unfold fr_node; by destruct (fr_left f)).
    rewrite Htest by set_solver. destruct (eqb (fr_left f) b) eqn:E; wp_step.
    + split; [done|]. unfold side_addr. cbn. by rewrite E.
    + exists D. split; [|unfold lenZ; cbn; lia]. split_and!; [done|unfold side_addr; cbn; by rewrite E| |done]. exists (D0 ++ [f]). by list_simplifier.
  - pose proof (plug_length C Y). pose proof (rp_size _ _ _ _ _ HC). lia.
Qed.

Lemma wmem_tree_lookup32_le_node_spec k : wp (wmem_tree_lookup32_le_node t k) (fun x τ => τ = σ ∧ nearest_le k x) σ.
Proof.
  unfold wmem_tree_lookup32_le_node. rewrite (proj2 (Z.eqb_neq t NULL) Ht). wp_step. eapply wp_mono; [apply descend32_spec|].
  intros [a|a] τ [-> H]; cbn in H.
  { destruct H as (C & c & l & v & r & HF & Hk). wp_step. split; [done|]. by apply (found_nearest k C c l a v r HF). }
  destruct H as [[HT ->]|(f & C & -> & HF)].
  { cbn [Z.eqb NULL]. wp_step. split; [done|]. left. split; [done|]. intros k'. rewrite HT. by intros []. }
  pose proof (side_nearest_le k _ HF) as HN. pose proof HR as HR'. rewrite <- (proj1 HF) in HR'.
  pose proof (λ g, focus_frame k _ _ _ g HF) as Hfr. pose proof (Hfr f ltac:(left)) as Hf.
  rewrite (repr_parent _ _ _ HR' : (fr_addr f =? NULL) = false). wp_step. eapply wp_get_wnode; [exact (repr_frame _ _ _ _ HR')|].
  rewrite fr_node_parent. replace (it _) with (fr_item f) by (unfold fr_node; by destruct (fr_left f)).
  rewrite plug_cons in HR'. rewrite (repr_parent _ _ _ HR'). destruct C as [|g C].
  { wp_step. split; [done|]. unfold side_addr in HN. cbn in HN. destruct (fr_left f); cbn in HN; destruct (Z.ltb_spec (key (fr_item f)) k); (done || lia). }
  destruct (Z.leb_spec (key (fr_item f)) k) as [Hle|Hgt].
  { wp_step. split; [done|]. unfold side_addr in HN. cbn in HN. destruct (fr_left f); [lia|done]. }
  destruct (fr_left f) eqn:Ef; [|lia]. destruct (mk_frame _ _ _ _ _ _ _ _ _ HR') as (Ep & Sl & _). cbn [cparent].
  wp_step. eapply wp_get_wnode; [exact Ep|]. rewrite Sl. destruct (fr_left g) eqn:Eg.
  - rewrite <- plug_cons in HR'. eapply wp_mono; [eapply (climb_spec false (fun x => x <? k) Leaf (f :: g :: C) HR')|].
    + intros g' Hg'. specialize (Hfr g' Hg'). destruct (fr_left g'); cbn; [apply Z.ltb_ge|apply Z.ltb_lt]; lia.
    + intros x τ [-> ->]. done.
  - wp_step. split; [done|]. unfold side_addr in HN. cbn in HN. by rewrite Ef, Eg in HN.
Qed.

Lemma wmem_tree_lookup32_ge_node_spec k : wp (wmem_tree_lookup32_ge_node t k) (fun x τ => τ = σ ∧ nearest_ge k x) σ.
Proof.
  unfold wmem_tree_lookup32_ge_node. rewrite (proj2 (Z.eqb_neq t NULL) Ht). wp_step. eapply wp_mono; [apply descend32_spec|].
  intros [a|a] τ [-> H]; cbn in H.
  { destruct H as (C & c & l & v & r & HF & Hk). wp_step. split; [done|]. by apply (found_nearest k C c l a v r HF). }
  destruct H as [[HT ->]|(f & C & -> & HF)].
  { cbn [Z.eqb NULL]. wp_step. split; [done|]. left. split; [done|]. intros k'. rewrite HT. by intros []. }
  pose proof (side_nearest_ge k _ HF) as HN. pose proof HR as HR'. rewrite <- (proj1 HF) in HR'.
  pose proof (λ g, focus_frame k _ _ _ g HF) as Hfr. pose proof (Hfr f ltac:(left)) as Hf.
  rewrite (repr_parent _ _ _ HR' : (fr_addr f =? NULL) = false). wp_step. eapply wp_get_wnode; [exact (repr_frame _ _ _ _ HR')|].
  rewrite fr_node_parent. replace (it _) with (fr_item f) by (unfold fr_node; by destruct (fr_left f)).
  rewrite plug_cons in HR'. rewrite (repr_parent _ _ _ HR'). destruct C as [|g C].
  { wp_step. split; [done|]. unfold side_addr in HN. cbn in HN. destruct (fr_left f); cbn in HN; destruct (Z.ltb_spec k (key (fr_item f))); (done || lia). }
  destruct (Z.leb_spec k (key (fr_item f))) as [Hle|Hgt].
  { wp_step. split; [done|]. unfold side_addr in HN. cbn in HN. destruct (fr_left f); [done|lia]. }
  destruct (fr_left f) eqn:Ef; [lia|]. destruct (mk_frame _ _ _ _ _ _ _ _ _ HR') as (Ep & _ & Sr & _). cbn [cparent].
  wp_step. eapply wp_get_wnode; [exact Ep|]. rewrite Sr. destruct (fr_left g) eqn:Eg; cbn [negb].
  - wp_step. split; [done|]. unfold side_addr in HN. cbn in HN. by rewrite Ef, Eg in HN.
  - rewrite <- plug_cons in HR'. eapply wp_mono; [eapply (climb_spec true (fun x => k <? x) Leaf (f :: g :: C) HR')|].
    + intros g' Hg'. specialize (Hfr g' Hg'). destruct (fr_left g'); cbn; [apply Z.ltb_lt|apply Z.ltb_ge]; lia.
    + intros x τ [-> ->]. done.
Qed.
End Near.
