(* ===== verification/WmemTreeOps.v ===== *)
(** * Red-black trees of wmem: insertion and removal of keys

    [wmem_tree_insert32] and [wmem_tree_remove32] as operations on finite maps, with the
    red-black invariant kept. *)

From stdpp Require Import base numbers gmap list sorting.
From S2P Require Import Prelude CMem WmemTree WmemTreeRep WmemTreeRB WmemTreeRemove WmemTreeSearch WmemTreeNear.
Open Scope Z_scope.
#[local] Set Warnings "-clear-no-such-hyp".

#[local] Abbreviation RED := WMEM_NODE_COLOR_RED.
#[local] Abbreviation BLACK := WMEM_NODE_COLOR_BLACK.

(** ** Lists of keys and data as maps *)

Lemma kv_insert (l1 l2 : list (Z * Z)) k d :
  NoDup (l1 ++ (k, d) :: l2).*1 → (list_to_map (l1 ++ (k, d) :: l2) : gmap Z Z) = <[k := d]> (list_to_map (l1 ++ l2)).
Proof.
  intros Hd. rewrite (list_to_map_proper _ ((k, d) :: l1 ++ l2)) by (done || by rewrite Permutation_middle). apply list_to_map_cons.
Qed.
Lemma kv_delete (l1 l2 : list (Z * Z)) k d :
  NoDup (l1 ++ (k, d) :: l2).*1 → (list_to_map (l1 ++ l2) : gmap Z Z) = delete k (list_to_map (l1 ++ (k, d) :: l2)).
Proof.
  intros Hd. rewrite kv_insert by done. rewrite delete_insert_id; [done|]. apply not_elem_of_list_to_map_1.
  rewrite fmap_app in *. cbn in Hd. rewrite <- Permutation_middle in Hd. by apply NoDup_cons in Hd as [Hd _].
Qed.
Lemma sorted_insert (l1 l2 : list Z) k :
  StronglySorted Z.lt (l1 ++ l2) → (∀ x, x ∈ l1 → x < k) → (∀ x, x ∈ l2 → k < x) → StronglySorted Z.lt (l1 ++ k :: l2).
Proof.
  rewrite !StronglySorted_app, StronglySorted_cons, Forall_forall. intros (H1 & H2 & H3) HL HR. split_and!; try done.
  intros x y Hx. rewrite elem_of_cons. intros [->|Hy]; auto.
Qed.
Lemma sorted_delete (l1 l2 : list Z) k : StronglySorted Z.lt (l1 ++ k :: l2) → StronglySorted Z.lt (l1 ++ l2).
Proof.
  rewrite !StronglySorted_app, StronglySorted_cons. intros (H1 & H2 & _ & H3). split_and!; try done. intros x y Hx Hy. apply H1; [done|by right].
Qed.

Lemma stored_item m T x v : ∀ p, stored m p T → (x, v) ∈ items T → ∃ n, m !! x = Some n ∧ it n = v.
Proof.
  induction T as [|c l IHl a w r IHr]; intros p Hs Hi; cbn in *; [by apply elem_of_nil in Hi|]. destruct Hs as (Ha & Hl & Hr).
  apply elem_of_app in Hi as [Hi|Hi]; [by eapply IHl|]. apply elem_of_cons in Hi as [[= -> ->]|Hi]; [eauto|by eapply IHr].
Qed.

Section Insert.
Context {σ0 : theap} {L : list Z} {t : Z}.
#[local] Abbreviation repr := (repr σ0 L t).

(** A new red leaf in a hole. *)
Lemma repr_attach f C x v σ :
  repr (plug (f :: C) Leaf) σ → x ≠ NULL → x ∈ L → x ∉ addrs (plug (f :: C) Leaf) → lenZ (addrs (plug (f :: C) Leaf)) + 1 < 4294967296 →
  repr (plug (f :: C) (Node RED Leaf x v Leaf))
    (WState (trees σ) (<[fr_addr f := fr_node f (cparent C) x]> (<[x := TNode (fr_addr f) NULL NULL RED v]> (nodes σ)))).
Proof.
  intros HR Hx HL Hn Hs. destruct (wrepr_plug _ _ _ HR) as (H1 & (H2 & H3 & H4) & _ & H5 & H6). destruct HR as [_ _ R3 R4 R5 R6 R7 R8].
  assert (addrs (plug (f :: C) (Node RED Leaf x v Leaf)) ≡ₚ x :: addrs (plug (f :: C) Leaf)) as HP by by rewrite !wplug_addrs.
  cbn [addrs app] in H5, H6. unfold caddrs, faddrs in H5. cbn in H5. apply NoDup_cons in H5 as [H5 _].
  rewrite wplug_addrs in Hn. cbn [addrs app] in Hn. unfold caddrs, faddrs in Hn. cbn in Hn.
  assert (fr_addr f ∈ L) as HfL by (apply R6; rewrite wplug_addrs; apply elem_of_app; right; unfold caddrs, faddrs; cbn; left).
  split; cbn [trees nodes].
  - rewrite H1, wplug_addr. do 2 f_equal. apply wtop_cons.
  - apply wplug_stored. cbn [ctx_stored]. rewrite lookup_insert_eq. cbn [cparent addr stored].
    rewrite lookup_insert_ne, lookup_insert_eq by set_solver.
    split_and!; try done; [eapply wstored_ext; [|exact H3]|eapply wctx_stored_ext; [|exact H4]];
      (intros z Hz; rewrite !lookup_insert_ne; [done|intros ->; apply Hn|intros <-; apply H5]); rewrite ?elem_of_cons, ?elem_of_app; auto.
  - rewrite HP. constructor; [by rewrite wplug_addrs|done].
  - rewrite HP. set_solver.
  - unfold lenZ in *. rewrite HP. cbn [length]. lia.
  - intros a. rewrite HP, elem_of_cons. intros [->|Ha]; auto.
  - intros a Ha. rewrite !lookup_insert_ne by (intros <-; done). auto.
  - done.
Qed.
(** The place of a key that is not in the tree, with a new leaf there. *)
Lemma place_items k C T : focus k C Leaf T → items T = litems C ++ ritems C.
Proof. intros (<- & _). by rewrite plug_items. Qed.
Lemma place_ordered k C T x v T' :
  ordered T → focus k C Leaf T → key v = k → items T' = litems C ++ (x, v) :: ritems C → ordered T' ∧ absmap T' = <[k := data v]> (absmap T).
Proof.
  intros Ho HF <- E. assert (ordered T') as Ho'.
  { unfold ordered_by in *. rewrite E, keysof_app. rewrite (place_items _ _ _ HF), keysof_app in Ho. apply sorted_insert; [done|apply HF..]. }
  split; [done|]. apply ordered_nodup in Ho'. unfold absmap. rewrite E, (place_items _ _ _ HF) in *. rewrite !kvs_app in *. by apply kv_insert.
Qed.
Lemma place_replaced C c l a v r d T :
  ordered T → plug C (Node c l a v r) = T →
  let T' := plug C (Node c l a (with_data d v) r) in ordered T' ∧ absmap T' = <[key v := d]> (absmap T).
Proof.
  intros Ho <- T'. pose proof (ordered_nodup _ Ho) as Hd. unfold T', ordered_by, absmap in *. rewrite !plug_items in *. cbn [items] in *.
  rewrite <- !app_assoc in *. cbn [app] in *. rewrite !app_assoc in *. rewrite !keysof_app, !kvs_app in *. split; [exact Ho|]. cbn in *.
  rewrite !kv_insert; [by rewrite insert_insert_eq|exact Hd|]. rewrite fmap_app in *. exact Hd.
Qed.
Lemma rbtree_item C c l a v v' r : rbtree (plug C (Node c l a v r)) → rbtree (plug C (Node c l a v' r)).
Proof. rewrite !plug_rb. by destruct c. Qed.
End Insert.

(** ** New nodes *)

Section Attach.
Context `{WmemNew} {t : Z} {T : tree} {σ : theap}.
Context (HR : repr σ (addrs T) t T σ) (Hnew : new_node σ ≠ NULL) (Hsize : lenZ (addrs T) + 1 < 4294967296).
#[local] Abbreviation repr := (repr σ (new_node σ :: addrs T) t).

Lemma repr_more T' τ : WmemTreeRep.repr σ (addrs T) t T' τ → repr T' τ.
Proof. intros []. split; try done; [intros a Ha; right; auto|]. set_solver. Qed.
Lemma new_not_in : new_node σ ∉ addrs T.
Proof.
  intros Hin. rewrite <- items_addrs, list_elem_of_fmap in Hin. destruct Hin as ([a v] & E & Hin). cbn in E.
  destruct (stored_item _ _ _ _ _ (rp_stored _ _ _ _ _ HR) Hin) as (n & Hn & _). rewrite <- E, new_node_fresh in Hn; done.
Qed.

Lemma create_node_spec p k d c s Q :
  Q (new_node σ) (WState (trees σ) (<[new_node σ := TNode p NULL NULL c (Item k d s false)]> (nodes σ))) → wp (create_node p k d c s) Q σ.
Proof. intros HQ. unfold create_node. wp_step. wp_step. rewrite (proj2 (Z.eqb_neq _ NULL) Hnew). wp_step. apply wp_modify. by wp_step. Qed.

(** A new leaf on the left or on the right of the frame's node. *)
Lemma attach_spec {A} f C k d s (c : Z → M theap A) Q :
  plug (f :: C) Leaf = T →
  (∀ τ, repr (plug (f :: C) (Node RED Leaf (new_node σ) (Item k d s false) Leaf)) τ → wp (c (new_node σ)) Q τ) →
  wp (new ← create_node (fr_addr f) k d RED s;
      _ ← (if fr_left f then set_left (fr_addr f) new else set_right (fr_addr f) new); c new) Q σ.
Proof.
  intros E HQ. assert (repr (plug (f :: C) Leaf) σ) as HR' by (rewrite E; by apply repr_more). pose proof (repr_frame _ _ _ _ HR') as Ef.
  assert (new_node σ ≠ fr_addr f) as Hne.
  { intros Ef'. apply new_not_in. rewrite Ef', <- E, wplug_addrs, elem_of_app. right. unfold caddrs, faddrs. cbn. left. }
  pose proof (repr_attach f C (new_node σ) (Item k d s false) σ HR' Hnew ltac:(left) ltac:(rewrite E; apply new_not_in) ltac:(rewrite E; exact Hsize)) as HA.
  wp_step. apply create_node_spec. wp_step. unfold set_left, set_right, fr_node in *.
  destruct (fr_left f); (wp_step; eapply wp_get_wnode; [cbn [nodes]; rewrite lookup_insert_ne by done; exact Ef|];
    apply wp_modify, HQ, HA).
Qed.
(** The first node of a tree. *)
Lemma attach_root_spec k d s Q :
  T = Leaf → (∀ τ, repr (Node BLACK Leaf (new_node σ) (Item k d s false) Leaf) τ → Q (new_node σ) τ) →
  wp (new ← create_node NULL k d BLACK s; _ ← set_root t new; mret new) Q σ.
Proof.
  intros HT HQ. wp_step. apply create_node_spec. unfold set_root. wp_step. wp_step. eapply wp_get_tree; [exact (rp_root _ _ _ _ _ HR)|].
  apply wp_modify. wp_step. apply HQ. split; cbn [trees nodes].
  - apply lookup_insert_eq.
  - cbn. by rewrite lookup_insert_eq.
  - cbn. apply NoDup_singleton.
  - cbn. set_solver.
  - done.
  - intros a Ha. apply list_elem_of_singleton in Ha. subst. left.
  - intros a Ha. apply lookup_insert_ne. intros <-. apply Ha. left.
  - intros t' Ht. by apply lookup_insert_ne.
Qed.
End Attach.
Lemma rbtree_root x v : rbtree (Node BLACK Leaf x v Leaf).
Proof. split; [done|]. by exists 1%nat. Qed.

(** ** Inserting a key *)

Definition put (replace : bool) (k d : Z) (m : gmap Z Z) : gmap Z Z :=
  match m !! k with Some _ => if replace then <[k := d]> m else m | None => <[k := d]> m end.

Section InsertKey.
Context `{WmemNew} {t : Z} {T : tree} {σ : theap}.
Context (HR : repr σ (addrs T) t T σ) (Hrb : rbtree T) (Ho : ordered T).
Context (Hnew : new_node σ ≠ NULL) (Hsize : lenZ (addrs T) + 1 < 4294967296).
#[local] Abbreviation repr := (repr σ (new_node σ :: addrs T) t).

(** The tree has the key and the data, [x] is the node, and there is no other new node. *)
Definition inserted (s : bool) (m : gmap Z Z) (k x : Z) (τ : theap) : Prop :=
  ∃ T' n, repr T' τ ∧ rbtree T' ∧ ordered T' ∧ absmap T' = m ∧ nodes τ !! x = Some n ∧ m !! k = Some (data (it n)) ∧
    (new_node σ ∈ addrs T' ∨ nodes τ !! new_node σ = None) ∧ (∀ a, a ∈ addrs T → a ∈ addrs T') ∧
    (s = false → plain (items T) → plain (items T')).

(** Restoring the invariant behind it. *)
Lemma rebalance_spec f C k d s τ :
  focus k (f :: C) Leaf T → repr (plug (f :: C) (Node RED Leaf (new_node σ) (Item k d s false) Leaf)) τ →
  wp (rb_insert_case1 None t (new_node σ)) (fun _ => inserted s (<[k := d]> (absmap T)) k (new_node σ)) τ.
Proof.
  intros HF HA. pose proof Hrb as Hrb'. rewrite <- (proj1 HF) in Hrb'. apply plug_rb in Hrb' as (n & HC & -> & _).
  eapply wp_mono; [eapply (rb_insert_case1_spec (f :: C) (Node RED Leaf (new_node σ) (Item k d s false) Leaf) O); [exact HA|done..]|].
  intros [] υ (T' & H1 & H2 & H3). rewrite plug_items in H3.
  destruct (place_ordered k (f :: C) T (new_node σ) (Item k d s false) T' Ho HF eq_refl H3) as [H4 H5].
  destruct (stored_item _ _ (new_node σ) (Item k d s false) _ (rp_stored _ _ _ _ _ H1)) as (nx & Hx & Ex).
  { rewrite H3, elem_of_app. right. left. }
  exists T', nx. rewrite Ex. split_and!; try done; [by rewrite lookup_insert_eq|left|intros a|intros ->].
  - rewrite <- items_addrs, H3, fmap_app, elem_of_app. right. left.
  - rewrite <- !items_addrs, H3, (place_items _ _ _ HF), !fmap_app, !elem_of_app. tauto.
  - unfold plain. rewrite H3, (place_items _ _ _ HF), !Forall_app. cbn [items app]. intros [K1 K2]. split_and!; [done|by repeat constructor|done].
Qed.

Lemma insert_root_spec k d s Q :
  T = Leaf → (∀ τ, inserted s {[k := d]} k (new_node σ) τ → Q (new_node σ) τ) →
  wp (new ← create_node NULL k d BLACK s; _ ← set_root t new; mret new) Q σ.
Proof.
  intros HT HQ. apply (attach_root_spec HR Hnew Hsize); [done|]. intros τ Hτ. apply HQ. destruct (repr_node [] true BLACK Leaf (new_node σ) _ Leaf τ Hτ) as [Ex _].
  exists (Node BLACK Leaf (new_node σ) (Item k d s false) Leaf), (TNode NULL NULL NULL BLACK (Item k d s false)).
  split_and!; [done|apply rbtree_root|by repeat constructor|done|done|apply lookup_insert_eq|left; left|..].
  - rewrite HT. intros a Ha. by apply elem_of_nil in Ha.
  - intros -> _. by repeat constructor.
Qed.

(** The key is in the tree. *)
Lemma insert_found_spec C c l a v r d s (replace : bool) :
  focus (key v) C (Node c l a v r) T →
  wp (if replace then d ← (mret d : M theap Z); n ← get_node a; set_item a (with_data d (it n)) else mret tt)
     (fun _ => inserted s (put replace (key v) d (absmap T)) (key v) a) σ.
Proof.
  intros HF. assert (WmemTreeRep.repr σ (addrs T) t (plug C (Node c l a v r)) σ) as HP by (rewrite (proj1 HF); exact HR).
  pose proof (focus_found _ _ _ _ _ _ _ _ Ho HF eq_refl) as Ek. unfold put. rewrite Ek.
  destruct (repr_node C true c l a v r σ HP) as [Ea _]. destruct replace.
  - wp_step. wp_step. wp_step. eapply wp_get_wnode; [exact Ea|]. cbn [it]. eapply (set_item_spec C true c l a v r); [exact HP|]. intros τ Hτ.
    destruct (repr_node C true c l a _ r τ Hτ) as [Eτ _]. destruct (place_replaced C c l a v r d T Ho (proj1 HF)) as [H1 H2].
    exists (plug C (Node c l a (with_data d v) r)), (TNode (cparent C) (addr l) (addr r) c (with_data d v)). split_and!; try done.
    + by apply (repr_more (T := T)).
    + eapply rbtree_item. rewrite (proj1 HF). exact Hrb.
    + by rewrite lookup_insert_eq.
    + right. rewrite (rp_nodes _ _ _ _ _ Hτ) by apply (new_not_in HR Hnew). by apply new_node_fresh.
    + intros z. by rewrite <- (proj1 HF), !wplug_addrs.
    + intros _. rewrite <- (proj1 HF). unfold plain. rewrite !plug_items. cbn [items]. rewrite !Forall_app, !Forall_cons. done.
  - wp_step. exists T, (TNode (cparent C) (addr l) (addr r) c v). split_and!; try done; [by apply (repr_more (T := T))|right]. by apply new_node_fresh.
Qed.

Lemma lookup_or_insert32_node_spec k d s replace :
  wp (lookup_or_insert32_node None t k (mret d) s replace) (inserted s (put replace k d (absmap T)) k) σ.
Proof.
  unfold lookup_or_insert32_node. wp_step. eapply wp_get_tree; [exact (rp_root _ _ _ _ _ HR)|]. cbn [root].
  rewrite (repr_null [] T σ HR : (addr T =? NULL) = _). assert (T = Leaf ∨ T ≠ Leaf) as [HT|HT] by (generalize T; intros []; auto).
  { rewrite HT at 1. wp_step. wp_step. apply insert_root_spec; [done|]. intros τ. by rewrite HT. }
  replace (match T with Leaf => true | _ => false end) with false by (revert HT; generalize T; by intros []).
  wp_step. eapply wp_mono; [eapply (wp_search Z.lt (fun Y => Y ≠ Leaf) _ σ _ t T k (fun x τ => match x with
    | inl a => inserted s (put replace k d (absmap T)) k a τ
    | inr a => absmap T !! k = None ∧ a = new_node σ ∧
        ∃ f C, focus k (f :: C) Leaf T ∧ repr (plug (f :: C) (Node RED Leaf (new_node σ) (Item k d s false) Leaf)) τ end)); [by apply (repr_more (T := T))|done|done|by intros ?|]|].
  - intros C c l a v r HF HP Ea. wp_step. eapply wp_get_wnode; [exact Ea|]. cbn [it left right]. destruct (Z.eqb_spec k (key v)) as [->|E].
    { wp_step. eapply wp_mono; [by eapply insert_found_spec|]. intros [] τ Hτ. by wp_step. }
    destruct (Z.ltb_spec k (key v)) as [Hk|Hk].
    + pose proof (focus_left Z.lt k C c l a v r T Ho HF Hk) as HF'. change (Node c l a v r) with (mk true c l a v r) in HP. rewrite <- plug_frame in HP.
      rewrite (repr_null _ _ _ HP). destruct l; cbn [negb]; [|wp_step; by auto].
      wp_step. wp_step. eapply (attach_spec HR Hnew Hsize (Frame true c a v r) C k d s (fun new => break (inr new))); [apply HF'|].
      intros τ Hτ. wp_step. split_and!; [by eapply focus_none|done|]. by exists (Frame true c a v r), C.
    + assert (key v < k) as Hk' by lia. pose proof (focus_right Z.lt k C c l a v r T Ho HF Hk') as HF'. change (Node c l a v r) with (mk false c r a v l) in HP.
      rewrite <- plug_frame in HP. rewrite (repr_null _ _ _ HP). destruct r; cbn [negb]; [|wp_step; by auto].
      wp_step. wp_step. eapply (attach_spec HR Hnew Hsize (Frame false c a v l) C k d s (fun new => break (inr new))); [apply HF'|].
      intros τ Hτ. wp_step. split_and!; [by eapply focus_none|done|]. by exists (Frame false c a v l), C.
  - intros [a|a] τ; [intros Ha; by wp_step|]. intros (Hn & -> & f & C & HF & HA). wp_step. eapply wp_mono; [by eapply rebalance_spec|].
    intros [] υ Hυ. wp_step. unfold put. by rewrite Hn.
Qed.
End InsertKey.
