(* ===== verification/WmemTreeForest.v ===== *)
(** * Red-black trees of wmem: many trees in one heap

    The trees of a heap as finite maps ([wforest]): their nodes are distinct, and every
    node of the heap is in one of them.  The operations of wmem_tree.c on one of them. *)

From stdpp Require Import base numbers gmap list sorting.
From S2P Require Import Prelude CMem WmemTree WmemTreeRep WmemTreeRB WmemTreeRemove WmemTreeSearch WmemTreeNear WmemTreeOps.
Open Scope Z_scope.
#[local] Set Warnings "-clear-no-such-hyp".

(** ** Removing a key *)

(** The tree has become [m]; the nodes that it has lost are freed. *)
Definition updated (σ : theap) (L : list Z) (t : Z) (m : gmap Z Z) (τ : theap) : Prop :=
  ∃ T, repr σ L t T τ ∧ rbtree T ∧ ordered T ∧ absmap T = m ∧ plain (items T) ∧ ∀ a, a ∈ L → a ∈ addrs T ∨ nodes τ !! a = None.

Lemma wmem_tree_remove32_spec t T σ k :
  repr σ (addrs T) t T σ → rbtree T → ordered T → plain (items T) → t ≠ NULL →
  wp (wmem_tree_remove32 None t k) (fun x τ => x = default NULL (absmap T !! k) ∧ updated σ (addrs T) t (delete k (absmap T)) τ) σ.
Proof.
  intros HR Hrb Ho Hpl Ht. unfold wmem_tree_remove32. wp_step. eapply wp_mono; [by eapply wmem_tree_lookup32_node_spec|].
  intros x τ [-> [[-> Hn]|(Hx & C & c & l & v & r & HF & Hk)]].
  { cbn [Z.eqb NULL]. wp_step. rewrite Hn. split; [done|]. exists T. rewrite delete_id by done. split_and!; auto. }
  rewrite (proj2 (Z.eqb_neq x NULL) Hx). rewrite (focus_found k C c l x v r T) by done. destruct HF as [<- _].
  destruct (repr_node C true c l x v r σ HR) as [Ex _]. wp_step. eapply wp_get_wnode; [exact Ex|]. cbn [it].
  wp_step. eapply wp_mono; [by eapply rb_remove_node_spec|]. intros [] τ (T' & y & H1 & H2 & H3 & H4 & H5 & H6). wp_step. split; [done|]. specialize (H6 Hpl).
  exists T'. pose proof (ordered_nodup _ Ho) as Hd. unfold ordered_by, absmap in *. rewrite plug_items in *. cbn [items] in *.
  rewrite <- !app_assoc in *. cbn [app] in *. rewrite !app_assoc in *. rewrite !kvs_app, !keysof_app in *. subst k. split_and!; [done|done|..].
  - rewrite <- kvs_keys, H3, fmap_app, !fmap_app, !kvs_keys, <- (keysof_app (items r)). exact (sorted_delete _ _ _ Ho).
  - rewrite H3, <- (kvs_app (items r)). exact (kv_delete _ _ _ _ Hd).
  - done.
  - intros a Ha. rewrite H4 in Ha. apply elem_of_cons in Ha as [->|Ha]; auto.
Qed.

Lemma inserted_updated `{WmemNew} t T σ m k x τ :
  plain (items T) → inserted (t := t) (T := T) (σ := σ) false m k x τ →
  updated σ (new_node σ :: addrs T) t m τ ∧ ∃ n, nodes τ !! x = Some n ∧ m !! k = Some (data (it n)).
Proof.
  intros Hpl (T' & n & H1 & H2 & H3 & H4 & H5 & H6 & H7 & H8 & H9). split; [|eauto]. exists T'. split_and!; auto.
  intros a Ha. apply elem_of_cons in Ha as [->|Ha]; auto.
Qed.

(** ** Heaps *)

Record forest (F : gmap Z tree) (σ : theap) : Prop := {
  fo_tree : ∀ t T, F !! t = Some T → t ≠ NULL ∧ repr σ (addrs T) t T σ ∧ rbtree T ∧ ordered T ∧ plain (items T);
  fo_disj : ∀ t1 t2 T1 T2 a, t1 ≠ t2 → F !! t1 = Some T1 → F !! t2 = Some T2 → a ∈ addrs T1 → a ∉ addrs T2;
  fo_nodes : ∀ a n, nodes σ !! a = Some n → ∃ t T, F !! t = Some T ∧ a ∈ addrs T;
  fo_trees : dom (trees σ) = dom F
}.
Definition wforest (M : gmap Z (gmap Z Z)) (σ : theap) : Prop := ∃ F, forest F σ ∧ absmap <$> F = M.

Lemma stored_alloc m T a : ∀ p, stored m p T → a ∈ addrs T → is_Some (m !! a).
Proof.
  intros p Hs Ha. rewrite <- items_addrs, list_elem_of_fmap in Ha. destruct Ha as ([x v] & -> & Hi).
  destruct (stored_item _ _ _ _ _ Hs Hi) as (n & Hn & _). eauto.
Qed.

Lemma repr_frame_rule σ σ' t T τ :
  repr σ (addrs T) t T σ → trees τ !! t = trees σ !! t → (∀ a, a ∈ addrs T → nodes τ !! a = nodes σ !! a) → σ' = τ → repr σ' (addrs T) t T τ.
Proof.
  intros [H1 H2 H3 H4 H5 H6 H7 H8] Et En ->. split; try done; [by rewrite Et|]. by eapply wstored_ext.
Qed.

(** One tree changes, with nodes that are its own or new. *)
Lemma forest_update F σ t T L m τ :
  forest F σ → F !! t = Some T → (∀ a, a ∈ addrs T → a ∈ L) → (∀ a, a ∈ L → a ∈ addrs T ∨ nodes σ !! a = None) →
  updated σ L t m τ → ∃ T', forest (<[t := T']> F) τ ∧ absmap T' = m.
Proof.
  intros [F1 F2 F3 F4] Ht HL Hnew (T' & H1 & H2 & H3 & H4 & Hpl & H5). exists T'. split; [|done].
  assert (∀ t2 T2 a, t2 ≠ t → F !! t2 = Some T2 → a ∈ addrs T2 → a ∉ L) as Hout.
  { intros t2 T2 a Hne E2 Ha HaL. destruct (Hnew a HaL) as [HaT|HaN]; [by eapply (F2 t2 t)|].
    destruct (F1 t2 T2 E2) as (_ & R2 & _). destruct (stored_alloc _ _ _ _ (rp_stored _ _ _ _ _ R2) Ha) as [n Hn]. congruence. }
  split.
  - intros t2 T2. destruct (decide (t2 = t)) as [->|Hne].
    + rewrite lookup_insert_eq. intros [= <-]. destruct (F1 t T Ht) as (Hn & _). split_and!; try done. by eapply repr_self.
    + rewrite lookup_insert_ne by done. intros E2. destruct (F1 t2 T2 E2) as (K1 & K2 & K3 & K4 & K5). split_and!; try done.
      eapply repr_frame_rule; [exact K2|by apply (rp_trees _ _ _ _ _ H1)| |done]. intros a Ha. apply (rp_nodes _ _ _ _ _ H1). by eapply Hout.
  - intros t1 t2 T1 T2 a Hne. destruct (decide (t1 = t)) as [->|H6]; [rewrite lookup_insert_eq, lookup_insert_ne by done; intros [= <-] E2|].
    + intros Ha Ha2. eapply Hout; [symmetry; exact Hne|exact E2|exact Ha2|]. by apply (rp_sub _ _ _ _ _ H1).
    + rewrite (lookup_insert_ne F t t1) by done. intros E1. destruct (decide (t2 = t)) as [->|H7]; [rewrite lookup_insert_eq; intros [= <-]|].
      * intros Ha Ha2. eapply Hout; [exact H6|exact E1|exact Ha|]. by apply (rp_sub _ _ _ _ _ H1).
      * rewrite lookup_insert_ne by done. intros E2. by eapply (F2 t1 t2).
  - intros a n Hn. destruct (decide (a ∈ L)) as [Ha|Ha].
    + destruct (H5 a Ha) as [HaT|HaN]; [|congruence]. exists t, T'. by rewrite lookup_insert_eq.
    + rewrite (rp_nodes _ _ _ _ _ H1) in Hn by done. destruct (F3 a n Hn) as (t2 & T2 & E2 & Ha2). exists t2, T2.
      rewrite lookup_insert_ne; [done|]. intros <-. rewrite Ht in E2. injection E2 as <-. by apply Ha, HL.
  - rewrite dom_insert_L, <- F4. apply set_eq. intros t2. rewrite elem_of_union, elem_of_singleton, !elem_of_dom.
    destruct (decide (t2 = t)) as [->|Hne]; [rewrite (rp_root _ _ _ _ _ H1); split; eauto|rewrite (rp_trees _ _ _ _ _ H1) by done; tauto].
Qed.

Lemma wforest_lookup M σ t m :
  wforest M σ → M !! t = Some m →
  ∃ F T, forest F σ ∧ absmap <$> F = M ∧ F !! t = Some T ∧ absmap T = m ∧ t ≠ NULL ∧ repr σ (addrs T) t T σ ∧ rbtree T ∧ ordered T ∧ plain (items T).
Proof.
  intros (F & HF & <-) Ht. rewrite lookup_fmap in Ht. destruct (F !! t) as [T|] eqn:E; [|done]. injection Ht as <-.
  destruct (fo_tree _ _ HF t T E) as (? & ? & ? & ? & ?). exists F, T. by split_and!.
Qed.
Lemma absmap_size T : ordered T → Z.of_nat (size (absmap T)) = lenZ (addrs T).
Proof.
  intros Ho. unfold absmap, lenZ. rewrite <- length_map_to_list, map_to_list_to_map by by apply ordered_nodup.
  unfold kvs. rewrite length_fmap, <- items_addrs. by rewrite length_fmap.
Qed.

(** ** Operations on one tree of the heap *)

Section Client.
Context `{WmemNew}.
Implicit Types (M : gmap Z (gmap Z Z)) (σ : theap) (m : gmap Z Z).

Lemma wforest_update M σ t F T L m' τ :
  forest F σ → absmap <$> F = M → F !! t = Some T → (∀ a, a ∈ addrs T → a ∈ L) → (∀ a, a ∈ L → a ∈ addrs T ∨ nodes σ !! a = None) →
  updated σ L t m' τ → wforest (<[t := m']> M) τ.
Proof.
  intros HF <- Ht HL Hnew Hu. destruct (forest_update F σ t T L m' τ HF Ht HL Hnew Hu) as (T' & HF' & <-).
  exists (<[t := T']> F). split; [done|]. apply fmap_insert.
Qed.

Lemma insert32_client M σ t m k d :
  wforest M σ → M !! t = Some m → new_node σ ≠ NULL → Z.of_nat (size m) + 1 < 4294967296 →
  wp (wmem_tree_insert32 None t k d) (fun _ => wforest (<[t := <[k := d]> m]> M)) σ.
Proof.
  intros HM Ht Hnew Hs. destruct (wforest_lookup _ _ _ _ HM Ht) as (F & T & HF & EM & ET & <- & Hn & HR & Hrb & Ho & Hpl). rewrite absmap_size in Hs by done.
  unfold wmem_tree_insert32, lookup_or_insert32. wp_step. wp_step. eapply wp_mono; [by eapply lookup_or_insert32_node_spec|].
  intros x τ Hi. destruct (inserted_updated _ _ _ _ _ _ _ Hpl Hi) as [Hu (n & Hx & Hd)]. wp_step. eapply wp_get_wnode; [exact Hx|]. wp_step. wp_step.
  assert (put true k d (absmap T) = <[k := d]> (absmap T)) as Hput by (unfold put; by destruct (absmap T !! k)). rewrite Hput in Hu.
  eapply wforest_update; [exact HF|exact EM|exact ET| | |exact Hu]; [by right|]. intros a Ha. apply elem_of_cons in Ha as [->|Ha]; [right|by left]. by apply new_node_fresh.
Qed.

Lemma remove32_client M σ t m k :
  wforest M σ → M !! t = Some m →
  wp (wmem_tree_remove32 None t k) (fun x τ => x = default NULL (m !! k) ∧ wforest (<[t := delete k m]> M) τ) σ.
Proof.
  intros HM Ht. destruct (wforest_lookup _ _ _ _ HM Ht) as (F & T & HF & EM & ET & <- & Hn & HR & Hrb & Ho & Hpl).
  eapply wp_mono; [by eapply wmem_tree_remove32_spec|]. intros x τ [-> Hu]. split; [done|]. eapply wforest_update; [exact HF|exact EM|exact ET| | |exact Hu]; auto.
Qed.

Lemma lookup32_client M σ t m k :
  wforest M σ → M !! t = Some m → wp (wmem_tree_lookup32 t k) (fun x τ => x = default NULL (m !! k) ∧ τ = σ) σ.
Proof.
  intros HM Ht. destruct (wforest_lookup _ _ _ _ HM Ht) as (F & T & HF & EM & ET & <- & Hn & HR & Hrb & Ho & Hpl). by eapply wmem_tree_lookup32_spec.
Qed.
Lemma contains32_client M σ t m k :
  wforest M σ → M !! t = Some m → wp (wmem_tree_contains32 t k) (fun x τ => x = bool_decide (is_Some (m !! k)) ∧ τ = σ) σ.
Proof.
  intros HM Ht. destruct (wforest_lookup _ _ _ _ HM Ht) as (F & T & HF & EM & ET & <- & Hn & HR & Hrb & Ho & Hpl). by eapply wmem_tree_contains32_spec.
Qed.
Lemma is_empty_client M σ t m :
  wforest M σ → M !! t = Some m → wp (wmem_tree_is_empty t) (fun x τ => x = bool_decide (m = ∅) ∧ τ = σ) σ.
Proof.
  intros HM Ht. destruct (wforest_lookup _ _ _ _ HM Ht) as (F & T & HF & EM & ET & <- & Hn & HR & Hrb & Ho & Hpl). unfold wmem_tree_is_empty.
  wp_step. eapply wp_get_tree; [exact (rp_root _ _ _ _ _ HR)|]. wp_step. cbn [root]. rewrite (repr_null [] T σ HR : (addr T =? NULL) = _). split; [|done].
  pose proof (absmap_size T Ho) as Hs. destruct T; [done|]. symmetry. apply bool_decide_false. intros E. rewrite E, map_size_empty in Hs. unfold lenZ in Hs. cbn [addrs length] in Hs. lia.
Qed.
Lemma tree_new_client M σ :
  wforest M σ → new_tree σ ≠ NULL → wp wmem_tree_new (fun t τ => t = new_tree σ ∧ M !! t = None ∧ wforest (<[t := ∅]> M) τ) σ.
Proof.
  intros (F & HF & <-) Hn. unfold wmem_tree_new. wp_step. wp_step. rewrite (proj2 (Z.eqb_neq _ NULL) Hn). wp_step. apply wp_modify. wp_step.
  assert (F !! new_tree σ = None) as HN.
  { apply not_elem_of_dom. rewrite <- (fo_trees _ _ HF). apply not_elem_of_dom. by apply new_tree_fresh. }
  split_and!; [done|by rewrite lookup_fmap, HN|]. exists (<[new_tree σ := Leaf]> F). split; [|by rewrite fmap_insert].
  destruct HF as [F1 F2 F3 F4]. split; cbn [trees nodes].
  - intros t T. destruct (decide (t = new_tree σ)) as [->|Hne].
    + rewrite lookup_insert_eq. intros [= <-]. split_and!; [done| |split; [done|by exists O]|constructor|constructor].
      split; cbn; try done; [apply lookup_insert_eq|constructor|apply not_elem_of_nil].
    + rewrite lookup_insert_ne by done. intros E. destruct (F1 t T E) as (K1 & K2 & K3 & K4 & K5). split_and!; try done.
      eapply repr_frame_rule; [exact K2|cbn [trees]; by rewrite lookup_insert_ne|done..].
  - intros t1 t2 T1 T2 a Hne. destruct (decide (t1 = new_tree σ)) as [->|H1]; [rewrite lookup_insert_eq; intros [= <-] _ Ha; by apply elem_of_nil in Ha|].
    rewrite (lookup_insert_ne F _ t1) by done. intros E1. destruct (decide (t2 = new_tree σ)) as [->|H2].
    + rewrite lookup_insert_eq. intros [= <-] _. apply not_elem_of_nil.
    + rewrite lookup_insert_ne by done. by eapply (F2 t1 t2).
  - intros a n Ha. destruct (F3 a n Ha) as (t & T & E & Hin). exists t, T. rewrite lookup_insert_ne by congruence. done.
  - by rewrite !dom_insert_L, F4.
Qed.

(** The entry with the greatest key up to [k], or with the least from [k] on. *)
Definition greatest_le (m : gmap Z Z) (k : Z) (r : Z * option Z) : Prop :=
  match r with
  | (d, Some k') => m !! k' = Some d ∧ k' <= k ∧ ∀ k'', is_Some (m !! k'') → k'' <= k → k'' <= k'
  | (d, None) => d = NULL ∧ ∀ k'', is_Some (m !! k'') → k < k''
  end.
Definition least_ge (m : gmap Z Z) (k : Z) (r : Z * option Z) : Prop :=
  match r with
  | (d, Some k') => m !! k' = Some d ∧ k <= k' ∧ ∀ k'', is_Some (m !! k'') → k <= k'' → k' <= k''
  | (d, None) => d = NULL ∧ ∀ k'', is_Some (m !! k'') → k'' < k
  end.

Lemma le_full_client M σ t m k :
  wforest M σ → M !! t = Some m → wp (wmem_tree_lookup32_le_full t k) (fun r τ => greatest_le m k r ∧ τ = σ) σ.
Proof.
  intros HM Ht. destruct (wforest_lookup _ _ _ _ HM Ht) as (F & T & HF & EM & ET & <- & Hn & HR & Hrb & Ho & Hpl).
  unfold wmem_tree_lookup32_le_full, full_of. wp_step. eapply wp_mono; [by eapply wmem_tree_lookup32_le_node_spec|].
  intros x τ [-> [[-> Hk]|(v & (Hx & Hm & n & En & <-) & H1 & H2)]]; [cbn [Z.eqb NULL]; by wp_step|].
  rewrite (proj2 (Z.eqb_neq x NULL) Hx). wp_step. eapply wp_get_wnode; [exact En|]. by wp_step.
Qed.
Lemma ge_full_client M σ t m k :
  wforest M σ → M !! t = Some m → wp (wmem_tree_lookup32_ge_full t k) (fun r τ => least_ge m k r ∧ τ = σ) σ.
Proof.
  intros HM Ht. destruct (wforest_lookup _ _ _ _ HM Ht) as (F & T & HF & EM & ET & <- & Hn & HR & Hrb & Ho & Hpl).
  unfold wmem_tree_lookup32_ge_full, full_of. wp_step. eapply wp_mono; [by eapply wmem_tree_lookup32_ge_node_spec|].
  intros x τ [-> [[-> Hk]|(v & (Hx & Hm & n & En & <-) & H1 & H2)]]; [cbn [Z.eqb NULL]; by wp_step|].
  rewrite (proj2 (Z.eqb_neq x NULL) Hx). wp_step. eapply wp_get_wnode; [exact En|]. by wp_step.
Qed.
End Client.
