(* ===== verification/WmemTreeWalk.v ===== *)
(** * Red-black trees of wmem: walks over a whole tree

    The height of a tree, which bounds the rounds of a search; [wmem_tree_foreach] and [wmem_tree_count] visit the entries in
    the order of their keys, and [wmem_tree_destroy] frees every node once. *)

From stdpp Require Import base numbers gmap list sorting.
From S2P Require Import Prelude CMem WmemTree WmemTreeRep WmemTreeRB WmemTreeRemove WmemTreeSearch WmemTreeNear WmemTreeOps WmemTreeForest.
Open Scope Z_scope.
#[local] Set Warnings "-clear-no-such-hyp".

(** ** Height *)

Fixpoint height (T : tree) : nat := match T with Leaf => O | Node _ l _ _ r => S (height l `max` height r) end.

Lemma rb_size n T : rb n T → (2 ^ n ≤ length (addrs T) + 1)%nat.
Proof.
  revert n. induction T as [|[] l IHl a v r IHr]; intros n; cbn.
  - by intros ->.
  - rewrite length_app. intros (_ & _ & H1 & H2). specialize (IHl n H1). lia.
  - rewrite length_app. destruct n as [|n]; [done|]. intros [H1 H2]. specialize (IHl n H1). specialize (IHr n H2). cbn. lia.
Qed.
Lemma rb_height n T : rb n T → (height T ≤ 2 * n + if red T then 1 else 0)%nat.
Proof.
  revert n. induction T as [|[] l IHl a v r IHr]; intros n; cbn; [lia|..].
  - intros (H1 & H2 & H3 & H4). specialize (IHl n H3). specialize (IHr n H4). rewrite H1 in IHl. rewrite H2 in IHr. lia.
  - destruct n as [|n]; [done|]. intros [H1 H2]. specialize (IHl n H1). specialize (IHr n H2). destruct (red l), (red r); lia.
Qed.
(** Twice the binary logarithm of the number of nodes. *)
Lemma rbtree_height T : rbtree T → (height T ≤ 2 * Nat.log2 (length (addrs T) + 1))%nat.
Proof.
  intros [Hr [n H]]. pose proof (rb_size n T H) as H1. pose proof (rb_height n T H) as H2. rewrite Hr in H2.
  apply Nat.log2_le_mono in H1. rewrite Nat.log2_pow2 in H1 by lia. lia.
Qed.

Lemma null_or_leaf T : NULL ∉ addrs T → (addr T =? NULL) = false ∨ T = Leaf.
Proof. destruct T as [|c l a v r]; [by right|left]. apply Z.eqb_neq. set_solver. Qed.

(** ** Visiting the entries *)

Section Visit.
Context {U : Type} (callback : Z → Z → U → bool * U).

(** The callback is applied to the entries from the left to the right until it stops the walk. *)
Fixpoint visit (l : list (Z * Z)) (u : U) : bool * U :=
  match l with
  | [] => (false, u)
  | (k, d) :: l => let '(stop, u) := callback k d u in if stop then (true, u) else visit l u
  end.
Lemma visit_app l1 l2 u : visit (l1 ++ l2) u = let '(stop, u') := visit l1 u in if stop then (true, u') else visit l2 u'.
Proof. revert u. induction l1 as [|[k d] l1 IH]; intros u; [done|]. cbn. destruct (callback k d u) as [[] u']; auto. Qed.

Lemma foreach_nodes_spec σ T : ∀ p fuel u, stored (nodes σ) p T → NULL ∉ addrs T → plain (items T) → (height T < fuel)%nat →
  wp (wmem_tree_foreach_nodes callback fuel (addr T) u) (fun r τ => r = visit (kvs (items T)) u ∧ τ = σ) σ.
Proof.
  induction T as [|c l IHl a v r IHr]; intros p [|fuel] u Hs Hn Hpl Hf; cbn [height] in Hf; try lia.
  { cbn [addr wmem_tree_foreach_nodes NULL Z.eqb]. by wp_step. }
  cbn [stored] in Hs. destruct Hs as (Ea & Hl & Hr). cbn [addrs] in Hn. rewrite elem_of_cons, elem_of_app in Hn.
  unfold plain in Hpl. cbn [items] in Hpl. rewrite Forall_app, Forall_cons in Hpl. destruct Hpl as (Pl & [Pv1 Pv2] & Pr). cbn in Pv1, Pv2.
  assert (∀ T' u', (addr T' =? NULL) = false ∨ T' = Leaf → wp (wmem_tree_foreach_nodes callback fuel (addr T') u') (fun r τ => r = visit (kvs (items T')) u' ∧ τ = σ) σ →
    wp (if negb (addr T' =? NULL) then wmem_tree_foreach_nodes callback fuel (addr T') u' else mret (false, u'))
       (fun r τ => r = visit (kvs (items T')) u' ∧ τ = σ) σ) as Hsub.
  { intros T' u' [E|E] H'; [by rewrite E|]. rewrite E. cbn [addr]. change (NULL =? NULL) with true. by apply wp_ret. }
  cbn [addr wmem_tree_foreach_nodes]. rewrite (proj2 (Z.eqb_neq a NULL)) by (intros ->; tauto). wp_step. eapply wp_get_wnode; [exact Ea|]. cbn [left right it].
  wp_step. eapply wp_mono; [apply Hsub; [apply null_or_leaf; tauto|]; eapply IHl; [done|tauto|done|lia]|]. intros r1 τ [-> ->].
  cbn [items]. rewrite kvs_app, visit_app. destruct (visit (kvs (items l)) u) as [[] u1]; [by wp_step|].
  cbn. rewrite Pv1, Pv2. cbn [negb]. destruct (callback (key v) (data v) u1) as [[] u2]; [by repeat wp_step|].
  repeat wp_step. apply Hsub; [apply null_or_leaf; tauto|]. eapply IHr; [done|tauto|done|lia].
Qed.
End Visit.

(** Every step of a count is an entry. *)
Lemma visit_count l : ∀ n, 0 <= n → n + lenZ l < 4294967296 → visit count_nodes l n = (false, n + lenZ l).
Proof.
  induction l as [|[k d] l IH]; intros n H1 H2; cbn; [do 2 f_equal; unfold lenZ; cbn; lia|].
  rewrite lenZ_cons in *. pose proof (lenZ_nonneg l). rewrite u32_small by lia. rewrite IH by lia. f_equal. lia.
Qed.

(** ** Destroying a tree *)

(** The order in which a tree is freed. *)
Fixpoint postorder (free_keys free_values : bool) (T : tree) : list Z :=
  match T with
  | Leaf => []
  | Node _ l a v r =>
      postorder free_keys free_values l ++ postorder free_keys free_values r ++
      (if free_keys then [key v] else []) ++ (if free_values then [data v] else []) ++ [a]
  end.
Lemma postorder_addrs T : postorder false false T ≡ₚ addrs T.
Proof. induction T as [|c l IHl a v r IHr]; [done|]. cbn. rewrite IHl, IHr. solve_Permutation. Qed.

Definition without (l : list Z) (σ τ : theap) : Prop :=
  trees τ = trees σ ∧ ∀ a, nodes τ !! a = if bool_decide (a ∈ l) then None else nodes σ !! a.

Lemma free_tree_node_spec fk fv T : ∀ σ p fuel, stored (nodes σ) p T → NULL ∉ addrs T → NoDup (addrs T) → plain (items T) → (height T < fuel)%nat →
  wp (free_tree_node fuel (addr T) fk fv) (fun r τ => r = postorder fk fv T ∧ without (addrs T) σ τ) σ.
Proof.
  induction T as [|c l IHl a v r IHr]; intros σ p [|fuel] Hs Hn Hd Hpl Hf; cbn [height] in Hf; try lia.
  { cbn [addr free_tree_node]. change (NULL =? NULL) with true. by apply wp_ret. }
  cbn [stored] in Hs. destruct Hs as (Ea & Hl & Hr). cbn [addrs] in Hn, Hd. rewrite elem_of_cons, elem_of_app in Hn.
  apply NoDup_cons in Hd as [Ha Hd]. rewrite elem_of_app in Ha. apply NoDup_app in Hd as (Dl & Dlr & Dr).
  unfold plain in Hpl. cbn [items] in Hpl. rewrite Forall_app, Forall_cons in Hpl. destruct Hpl as (Pl & [Pv1 Pv2] & Pr). cbn in Pv1.
  assert (∀ T' σ, (addr T' =? NULL) = false ∨ T' = Leaf → wp (free_tree_node fuel (addr T') fk fv) (fun r τ => r = postorder fk fv T' ∧ without (addrs T') σ τ) σ →
    wp (if negb (addr T' =? NULL) then free_tree_node fuel (addr T') fk fv else mret [])
       (fun r τ => r = postorder fk fv T' ∧ without (addrs T') σ τ) σ) as Hsub.
  { intros T' σ' [E|E] H'; [by rewrite E|]. rewrite E. cbn [addr]. change (NULL =? NULL) with true. by apply wp_ret. }
  cbn [addr free_tree_node]. rewrite (proj2 (Z.eqb_neq a NULL)) by (intros ->; tauto). wp_step. eapply wp_get_wnode; [exact Ea|]. cbn [left].
  wp_step. eapply wp_mono; [apply Hsub; [apply null_or_leaf; tauto|]; eapply IHl; [done|tauto|done|done|lia]|]. intros r1 τ1 [-> [Et1 En1]].
  assert (nodes τ1 !! a = nodes σ !! a) as Ea1 by (rewrite En1, bool_decide_false by tauto; done). rewrite Ea in Ea1.
  wp_step. eapply wp_get_wnode; [exact Ea1|]. cbn [it]. rewrite Pv1. wp_step. wp_step. wp_step. eapply wp_get_wnode; [exact Ea1|]. cbn [right].
  wp_step. eapply wp_mono; [apply Hsub; [apply null_or_leaf; tauto|]; eapply (IHr τ1 a); [|tauto|done|done|lia]|].
  { eapply wstored_ext; [|exact Hr]. intros z Hz. rewrite En1, bool_decide_false; [done|]. intros Hz'. by apply (Dlr z). }
  intros r2 τ2 [-> [Et2 En2]]. assert (nodes τ2 !! a = nodes τ1 !! a) as Ea2 by (rewrite En2, bool_decide_false by tauto; done). rewrite Ea1 in Ea2.
  wp_step. eapply wp_get_wnode; [exact Ea2|]. unfold free_node. wp_step. wp_step. eapply wp_get_wnode; [exact Ea2|]. apply wp_modify. wp_step. cbn [it].
  split; [done|]. split; cbn [trees nodes]; [congruence|]. intros z. destruct (decide (z = a)) as [->|Hz].
  - rewrite lookup_delete_eq, bool_decide_true; [done|]. left.
  - rewrite lookup_delete_ne, En2, En1 by done. repeat case_bool_decide; set_solver.
Qed.

(** ** Clients *)

Section Client.
Implicit Types (M : gmap Z (gmap Z Z)) (σ : theap) (m : gmap Z Z).

(** The entries of a map in the order of their keys. *)
Definition entries (m : gmap Z Z) (l : list (Z * Z)) : Prop := StronglySorted Z.lt l.*1 ∧ list_to_map l = m.

Lemma foreach_client {U} (callback : Z → Z → U → bool * U) M σ t m fuel u :
  wforest M σ → M !! t = Some m → (2 * Nat.log2 (size m + 1) < fuel)%nat →
  wp (wmem_tree_foreach callback fuel t u) (fun r τ => (∃ l, entries m l ∧ r = visit callback l u) ∧ τ = σ) σ.
Proof.
  intros HM Ht Hf. destruct (wforest_lookup _ _ _ _ HM Ht) as (F & T & HF & EM & ET & <- & Hn & HR & Hrb & Ho & Hpl).
  assert (height T < fuel)%nat as Hh.
  { pose proof (rbtree_height T Hrb). pose proof (absmap_size T Ho) as E. unfold lenZ in E. apply Nat2Z.inj in E. rewrite E in Hf. lia. }
  assert (entries (absmap T) (kvs (items T))) as HE by (split; [rewrite kvs_keys; exact Ho|done]).
  unfold wmem_tree_foreach. wp_step. eapply wp_get_tree; [exact (rp_root _ _ _ _ _ HR)|]. cbn [root].
  destruct (null_or_leaf T (rp_null _ _ _ _ _ HR)) as [E| ->].
  - rewrite E. eapply wp_mono; [eapply foreach_nodes_spec; [exact (rp_stored _ _ _ _ _ HR)|exact (rp_null _ _ _ _ _ HR)|done|done]|].
    intros r τ [-> ->]. eauto.
  - cbn [addr]. change (NULL =? NULL) with true. wp_step. split; [|done]. exists []. by split.
Qed.
Lemma entries_length m l : entries m l → lenZ l = Z.of_nat (size m).
Proof.
  intros [H <-]. apply sorted_nodup in H. rewrite <- length_map_to_list, map_to_list_to_map by done. done.
Qed.
Lemma count_client M σ t m fuel :
  wforest M σ → M !! t = Some m → (2 * Nat.log2 (size m + 1) < fuel)%nat →
  wp (wmem_tree_count fuel t) (fun n τ => n = Z.of_nat (size m) ∧ τ = σ) σ.
Proof.
  intros HM Ht Hf. unfold wmem_tree_count. wp_step. eapply wp_mono; [by eapply foreach_client|]. intros r τ [(l & Hl & ->) ->].
  destruct (wforest_lookup _ _ _ _ HM Ht) as (F & T & _ & _ & _ & Hm & _ & HR & _ & Ho & _). pose proof (rp_size _ _ _ _ _ HR) as Hs.
  rewrite <- absmap_size, Hm in Hs by done. rewrite <- (entries_length m l Hl) in *. rewrite visit_count by lia. by wp_step.
Qed.

(** The tree is gone, and its nodes, each once, are freed before it. *)
Lemma destroy_client M σ t m fuel :
  wforest M σ → M !! t = Some m → (2 * Nat.log2 (size m + 1) < fuel)%nat →
  wp (wmem_tree_destroy fuel t false false) (fun r τ => wforest (delete t M) τ ∧
    ∃ l, r = l ++ [t] ∧ NoDup l ∧ ∀ a, a ∈ l ↔ is_Some (nodes σ !! a) ∧ nodes τ !! a = None) σ.
Proof.
  intros HM Ht Hf. destruct (wforest_lookup _ _ _ _ HM Ht) as (F & T & HF & EM & ET & <- & Hn & HR & Hrb & Ho & Hpl).
  assert (height T < fuel)%nat as Hh.
  { pose proof (rbtree_height T Hrb). pose proof (absmap_size T Ho) as E. unfold lenZ in E. apply Nat2Z.inj in E. rewrite E in Hf. lia. }
  unfold wmem_tree_destroy. wp_step. eapply wp_get_tree; [exact (rp_root _ _ _ _ _ HR)|]. cbn [root].
  destruct HR as [H1 H2 H3 H4 H5 H6 H7 H8]. wp_step. eapply wp_mono; [by eapply free_tree_node_spec|]. intros r τ [-> [Et En]].
  wp_step. wp_step. wp_step. cbn [trees nodes]. split.
  2: { exists (postorder false false T). split_and!; [done|by rewrite postorder_addrs|]. intros a. rewrite postorder_addrs, En. case_bool_decide as Ha.
    - split; [|done]. intros _. split; [by eapply stored_alloc|done].
    - split; [done|]. intros [[n Ha1] Ha2]. congruence. }
  subst M. exists (delete t F). split; [|apply fmap_delete]. destruct HF as [F1 F2 F3 F4]. split; cbn [trees nodes].
  - intros t' T'. rewrite lookup_delete_Some. intros [Hne E]. destruct (F1 t' T' E) as (K1 & K2 & K3 & K4 & K5). split_and!; try done.
    eapply repr_frame_rule; [exact K2|cbn [trees]; by rewrite lookup_delete_ne, Et| |done]. intros a Ha. cbn [nodes]. rewrite En, bool_decide_false; [done|].
    intros Ha'. by eapply (F2 t t').
  - intros t1 t2 T1 T2 a Hne. rewrite !lookup_delete_Some. intros [_ E1] [_ E2]. by eapply (F2 t1 t2).
  - intros a n. rewrite En. case_bool_decide as Ha; [done|]. intros En'. destruct (F3 a n En') as (t' & T' & E & Ha'). exists t', T'.
    split; [|done]. apply lookup_delete_Some. split; [|done]. intros <-. congruence.
  - by rewrite !dom_delete_L, Et, F4.
Qed.

(** ** Searching *)

(** A search takes at most one round more than the height. *)
Lemma wp_search_rounds (R : Z → Z → Prop) `{!Transitive R} {B} P (body : Z → M theap (Z + B)) σ0 L t T k Q σ n :
  repr σ0 L t T σ → ordered_by R T → P T → at_leaf R P body σ0 L t T k Q σ σ → at_node R P body σ0 L t T k Q σ σ → (height T ≤ n)%nat →
  wp (iter_fuel (Pos.of_succ_nat n) body (addr T)) (fun r τ => match r with inl _ => False | inr b => Q b τ end) σ.
Proof.
  intros HR Ho HP HL HN Hh.
  eapply wp_mono; [eapply (wp_iter_fuel body (searching R P T k σ) Q (fun g => Z.of_nat (height g.2))) with (g := ([], T))|].
  - intros g x τ Hg. eapply wp_mono; [by eapply search_body|]. intros [y|b] υ; [|done]. intros (g' & Hg' & Hch). exists g'.
    split; [done|]. unfold child in Hch. destruct g.2 as [|c l a v r]; [done|]. cbn. destruct Hch as [->| ->]; lia.
  - split_and!; [apply focus_top|done..].
  - intros [y|b] τ; [|done]. intros (g' & _ & H). cbn in H. lia.
Qed.

Lemma lookup32_rounds M σ t m k :
  wforest M σ → M !! t = Some m →
  ∃ r x, trees σ !! t = Some (Tree r) ∧
    iter_fuel (Pos.of_succ_nat (2 * Nat.log2 (size m + 1))) (lookup32_step k) r σ = Ok (inr x, σ) ∧ (x = NULL ↔ m !! k = None).
Proof.
  intros HM Ht. destruct (wforest_lookup _ _ _ _ HM Ht) as (F & T & HF & EM & ET & <- & Hn & HR & Hrb & Ho & Hpl).
  pose proof (absmap_size T Ho) as E1. unfold lenZ in E1. apply Nat2Z.inj in E1. pose proof (rbtree_height T Hrb) as H2. rewrite <- E1 in H2.
  destruct (lookup32_step_spec (σ0 := σ) (L := addrs T) (t := t) (T := T) (σ := σ) k) as [H3 H4].
  pose proof (wp_search_rounds Z.lt _ _ _ _ t T k _ σ _ HR Ho I H3 H4 H2) as Hwp. unfold wp in Hwp.
  destruct (iter_fuel _ _ (addr T) σ) as [[[y|x] τ]| |] eqn:Er; [done| |done..]. destruct Hwp as [-> Hx].
  exists (addr T), x. split_and!; [exact (rp_root _ _ _ _ _ HR)|exact Er|].
  destruct Hx as [[-> ->]|(Hx & C & c & l & v & r & HFo & Hk)]; [done|]. by rewrite (focus_found k C c l x v r T).
Qed.
End Client.
