(* ===== verification/WmemTreeSession.v ===== *)
(** * Red-black trees of wmem: sessions

    Programs that create trees and work with them behave as programs on finite maps,
    whatever the addresses of trees and nodes are; the red-black trees stay shallow. *)

From stdpp Require Import base numbers gmap list sorting.
From S2P Require Import Prelude CMem WmemTree WmemTreeRep WmemTreeRB WmemTreeRemove WmemTreeSearch WmemTreeNear WmemTreeOps WmemTreeForest WmemTreeWalk.
Open Scope Z_scope.
#[local] Set Warnings "-clear-no-such-hyp".

(** ** Programs *)

(** A tree is the number of its [wmem_tree_new]. *)
Inductive treeop :=
  | TNew | TInsert (i : nat) (k d : Z) | TRemove (i : nat) (k : Z) | TLookup (i : nat) (k : Z) | TContains (i : nat) (k : Z)
  | TEmpty (i : nat) | TCount (i : nat).

Section Run.
Context `{WmemNew} (fuel : nat).

Definition with_tree {A} (ts : list Z) (i : nat) (c : Z → M theap A) : M theap A := match ts !! i with Some t => c t | None => fault end.
(** An operation, with the trees behind it and its result. *)
Definition run_op (ts : list Z) (o : treeop) : M theap (list Z * Z) :=
  match o with
  | TNew => t ← wmem_tree_new; mret (ts ++ [t], 0)
  | TInsert i k d => with_tree ts i (fun t => _ ← wmem_tree_insert32 None t k d; mret (ts, 0))
  | TRemove i k => with_tree ts i (fun t => x ← wmem_tree_remove32 None t k; mret (ts, x))
  | TLookup i k => with_tree ts i (fun t => x ← wmem_tree_lookup32 t k; mret (ts, x))
  | TContains i k => with_tree ts i (fun t => x ← wmem_tree_contains32 t k; mret (ts, Z.b2z x))
  | TEmpty i => with_tree ts i (fun t => x ← wmem_tree_is_empty t; mret (ts, Z.b2z x))
  | TCount i => with_tree ts i (fun t => x ← wmem_tree_count fuel t; mret (ts, x))
  end.
Fixpoint run_ops (ts : list Z) (os : list treeop) : M theap (list Z * list Z) :=
  match os with
  | [] => mret (ts, [])
  | o :: os => '(ts, x) ← run_op ts o; '(ts, xs) ← run_ops ts os; mret (ts, x :: xs)
  end.
End Run.

(** The same on finite maps. *)
Definition map_op (ms : list (gmap Z Z)) (o : treeop) : list (gmap Z Z) * Z :=
  match o with
  | TNew => (ms ++ [∅], 0)
  | TInsert i k d => (alter (<[k := d]>) i ms, 0)
  | TRemove i k => (alter (delete k) i ms, default NULL (ms !! i ≫= lookup k))
  | TLookup i k => (ms, default NULL (ms !! i ≫= lookup k))
  | TContains i k => (ms, Z.b2z (bool_decide (is_Some (ms !! i ≫= lookup k))))
  | TEmpty i => (ms, Z.b2z (bool_decide (ms !! i = Some ∅)))
  | TCount i => (ms, default 0 ((fun m => Z.of_nat (size m)) <$> ms !! i))
  end.
Fixpoint map_ops (ms : list (gmap Z Z)) (os : list treeop) : list (gmap Z Z) * list Z :=
  match os with
  | [] => (ms, [])
  | o :: os => let '(ms, x) := map_op ms o in let '(ms, xs) := map_ops ms os in (ms, x :: xs)
  end.

(** The tree exists, and the number of entries fits; [fuel] bounds the depth of the walks. *)
Definition op_ok (fuel : nat) (ms : list (gmap Z Z)) (o : treeop) : bool :=
  match o with
  | TNew => true
  | TInsert i _ _ => match ms !! i with Some m => Z.of_nat (size m) + 1 <? 4294967296 | None => false end
  | TRemove i _ | TLookup i _ | TContains i _ | TEmpty i => bool_decide (is_Some (ms !! i))
  | TCount i => match ms !! i with Some m => bool_decide (2 * Nat.log2 (size m + 1) < fuel)%nat | None => false end
  end.
Fixpoint ops_ok (fuel : nat) (ms : list (gmap Z Z)) (os : list treeop) : bool :=
  match os with [] => true | o :: os => op_ok fuel ms o && ops_ok fuel (map_op ms o).1 os end.

(** The trees [ts] are the maps [ms]. *)
Record session (ts : list Z) (ms : list (gmap Z Z)) (σ : theap) : Prop := {
  se_nodup : NoDup ts;
  se_length : length ts = length ms;
  se_forest : ∃ M, wforest M σ ∧ ∀ i t, ts !! i = Some t → M !! t = ms !! i
}.

Lemma session_tree ts ms σ i m :
  session ts ms σ → ms !! i = Some m → ∃ t M, ts !! i = Some t ∧ wforest M σ ∧ M !! t = Some m ∧ ∀ i t, ts !! i = Some t → M !! t = ms !! i.
Proof.
  intros [H1 H2 (M & H3 & H4)] Hm. destruct (lookup_lt_is_Some_2 ts i) as [t Ht]; [apply lookup_lt_Some in Hm; lia|]. exists t, M.
  split_and!; try done. by rewrite (H4 i t).
Qed.
Lemma session_update ts ms σ i t (f : gmap Z Z → gmap Z Z) m M τ :
  session ts ms σ → ms !! i = Some m → ts !! i = Some t → (∀ i t, ts !! i = Some t → M !! t = ms !! i) → wforest (<[t := f m]> M) τ →
  session ts (alter f i ms) τ.
Proof.
  intros [H1 H2 _] Hm Ht HM HF. split; [done|by rewrite length_alter|]. exists (<[t := f m]> M). split; [done|]. intros j t' Hj.
  destruct (decide (j = i)) as [->|Hne].
  - rewrite list_lookup_alter_eq, Hm. rewrite Ht in Hj. injection Hj as <-. by rewrite lookup_insert_eq.
  - rewrite list_lookup_alter_ne by done. rewrite lookup_insert_ne; [by apply HM|]. intros <-. apply Hne. by eapply NoDup_lookup.
Qed.

Section Session.
Context `{WmemNew} (Hnew : ∀ σ, new_node σ ≠ NULL ∧ new_tree σ ≠ NULL) (fuel : nat).

Lemma run_op_spec ts ms o σ :
  session ts ms σ → op_ok fuel ms o = true → wp (run_op fuel ts o) (fun r τ => r.2 = (map_op ms o).2 ∧ session r.1 (map_op ms o).1 τ) σ.
Proof.
  intros HS Hok.
  assert (∀ i (c : Z → M theap (list Z * Z)) Q, (∃ m, ms !! i = Some m) →
    (∀ t m M, ms !! i = Some m → ts !! i = Some t → wforest M σ → M !! t = Some m → (∀ i t, ts !! i = Some t → M !! t = ms !! i) → wp (c t) Q σ) →
    wp (with_tree ts i c) Q σ) as Htree.
  { intros i c Q [m Hm] HQ. destruct (session_tree _ _ _ _ _ HS Hm) as (t & M & E & K1 & K2 & K3). unfold with_tree. rewrite E. by eapply HQ. }
  destruct o as [|i k d|i k|i k|i k|i|i]; cbn [op_ok] in Hok; cbn [run_op map_op fst snd].
  - destruct HS as [H1 H2 (M & H3 & H4)]. wp_step. eapply wp_mono; [eapply tree_new_client; [exact H3|apply Hnew]|]. intros t τ (Et & Hn & HF). wp_step.
    split; [done|]. cbn [fst]. assert (t ∉ ts) as Hts.
    { intros Hin. apply list_elem_of_lookup in Hin as [j Hj]. specialize (H4 j t Hj). rewrite Hn in H4. symmetry in H4. apply lookup_ge_None in H4.
      apply lookup_lt_Some in Hj. lia. }
    split; [apply NoDup_app; split_and!; [done| |apply NoDup_singleton]; intros x Hx Hx'; apply list_elem_of_singleton in Hx' as ->; done|rewrite !length_app; cbn; lia|].
    exists (<[t := ∅]> M). split; [done|]. intros j t' Hj. apply lookup_app_Some in Hj as [Hj|[Hge Hj]].
    + rewrite lookup_insert_ne by (intros ->; by apply Hts; eapply list_elem_of_lookup_2). rewrite lookup_app_l; [by apply H4|].
      apply lookup_lt_Some in Hj. lia.
    + apply list_lookup_singleton_Some in Hj as [Hj ->]. rewrite lookup_insert_eq, lookup_app_r by lia. by replace (j - length ms)%nat with O by lia.
  - destruct (ms !! i) as [m|] eqn:Em; [|done]. apply Htree; [eauto|]. intros t m' M E' E K1 K2 K3. rewrite Em in E'. injection E' as <-. apply Z.ltb_lt in Hok.
    wp_step. eapply wp_mono; [eapply insert32_client; [exact K1|exact K2|apply Hnew|done]|]. intros [] τ HF. wp_step. split; [done|].
    by eapply (session_update ts ms σ i t (<[k := d]>) m).
  - apply bool_decide_eq_true in Hok as [m Hm]. apply Htree; [eauto|]. intros t m' M E' E K1 K2 K3.
    wp_step. eapply wp_mono; [by eapply remove32_client|]. intros x τ [-> HF]. wp_step. rewrite E'. split; [done|].
    by eapply (session_update ts ms σ i t (delete k) m').
  - apply bool_decide_eq_true in Hok as [m Hm]. apply Htree; [eauto|]. intros t m' M E' E K1 K2 K3.
    wp_step. eapply wp_mono; [by eapply lookup32_client|]. intros x τ [-> ->]. wp_step. by rewrite E'.
  - apply bool_decide_eq_true in Hok as [m Hm]. apply Htree; [eauto|]. intros t m' M E' E K1 K2 K3.
    wp_step. eapply wp_mono; [by eapply contains32_client|]. intros x τ [-> ->]. wp_step. by rewrite E'.
  - apply bool_decide_eq_true in Hok as [m Hm]. apply Htree; [eauto|]. intros t m' M E' E K1 K2 K3.
    wp_step. eapply wp_mono; [by eapply is_empty_client|]. intros x τ [-> ->]. wp_step. rewrite E'. split; [|done]. cbn. f_equal.
    apply bool_decide_ext. naive_solver.
  - destruct (ms !! i) as [m|] eqn:Em; [|done]. apply Htree; [eauto|]. intros t m' M E' E K1 K2 K3. rewrite Em in E'. injection E' as <-. apply bool_decide_eq_true in Hok.
    wp_step. eapply wp_mono; [by eapply count_client|]. intros x τ [-> ->]. by wp_step.
Qed.

Lemma run_ops_spec os : ∀ ts ms σ, session ts ms σ → ops_ok fuel ms os = true →
  wp (run_ops fuel ts os) (fun r τ => r.2 = (map_ops ms os).2 ∧ session r.1 (map_ops ms os).1 τ) σ.
Proof.
  induction os as [|o os IH]; intros ts ms σ HS Hok; cbn [run_ops map_ops ops_ok] in *; [by wp_step|].
  apply andb_true_iff in Hok as [H1 H2]. wp_step. eapply wp_mono; [by apply run_op_spec|]. intros [ts1 x] τ [E1 HS1]. cbn [fst snd] in E1, HS1. subst x.
  destruct (map_op ms o) as [ms1 y]. cbn [fst snd] in *. wp_step. eapply wp_mono; [by apply IH|]. intros [ts2 xs] υ [E2 HS2]. cbn [fst snd] in E2, HS2. subst xs.
  destruct (map_ops ms1 os) as [ms2 ys]. by wp_step.
Qed.
End Session.

(** ** Theorems *)

Lemma session_empty : session [] [] (WState ∅ ∅).
Proof.
  split; [constructor|done|]. exists ∅. split; [|by intros []]. exists ∅. split; [|apply fmap_empty]. by split.
Qed.

(** C14: A program that creates trees, inserts, removes and looks up keys in them and
    counts them returns, with the results of the same program on finite maps: the
    insertions and removals with their rotations refine insertion into and deletion from
    a map, keep the red-black invariant and the order, and do not touch another tree. *)
Theorem wmem_tree_session `{WmemNew} fuel ts ms os σ :
  (∀ σ, new_node σ ≠ NULL ∧ new_tree σ ≠ NULL) → session ts ms σ → ops_ok fuel ms os = true →
  ∃ ts' τ, run_ops fuel ts os σ = Ok ((ts', (map_ops ms os).2), τ) ∧ session ts' (map_ops ms os).1 τ.
Proof.
  intros Hnew HS Hok. pose proof (run_ops_spec Hnew fuel os ts ms σ HS Hok) as Hwp. unfold wp in Hwp.
  destruct (run_ops fuel ts os σ) as [[[ts' xs] τ]| |]; [|done..]. destruct Hwp as [E HS']. cbn in E, HS'. subst xs. eauto.
Qed.

(** An allocator: one more than the greatest address. *)
Definition above {A} (m : gmap Z A) : Z := 1 + foldr Z.max 0 (map_to_list m).*1.
Lemma above_le (l : list Z) a : a ∈ l → a <= foldr Z.max 0 l.
Proof. induction l as [|x l IH]; intros Ha; [by apply elem_of_nil in Ha|]. apply elem_of_cons in Ha as [->|Ha]; cbn; [lia|]. specialize (IH Ha). lia. Qed.
Lemma above_fresh {A} (m : gmap Z A) : m !! above m = None.
Proof.
  destruct (m !! above m) as [x|] eqn:E; [|done]. apply elem_of_map_to_list in E. apply (list_elem_of_fmap_2 fst), above_le in E. unfold above in E. cbn in E. lia.
Qed.
Lemma above_pos {A} (m : gmap Z A) : above m ≠ NULL.
Proof. unfold above. assert (0 <= foldr Z.max 0 (map_to_list m).*1); [|unfold NULL; lia]. induction (map_to_list m).*1; cbn; lia. Qed.
#[local] Instance above_new : WmemNew :=
  { new_node σ := above (nodes σ); new_tree σ := above (trees σ); new_node_fresh _ _ := above_fresh _; new_tree_fresh _ _ := above_fresh _ }.

Definition session_example : list treeop :=
  [TNew; TInsert 0 5 50; TInsert 0 3 30; TInsert 0 8 80; TInsert 0 1 10; TInsert 0 4 40; TInsert 0 7 70; TInsert 0 9 90; TInsert 0 2 20;
   TNew; TInsert 1 5 55; TRemove 0 5; TLookup 0 5; TLookup 1 5; TCount 0; TRemove 0 8; TRemove 0 9; TRemove 0 7; TContains 0 4; TCount 0; TEmpty 1].

Lemma wmem_tree_session_witness :
  ∃ ts τ, run_ops 20 [] session_example (WState ∅ ∅) =
    Ok ((ts, [0; 0; 0; 0; 0; 0; 0; 0; 0; 0; 0; 50; 0; 55; 7; 80; 90; 70; 1; 4; 0]), τ) ∧ session ts [list_to_map [(1, 10); (2, 20); (3, 30); (4, 40)]; {[5 := 55]}] τ.
Proof.
  destruct (wmem_tree_session 20 [] [] session_example (WState ∅ ∅)) as (ts & τ & E & HS);
    [intros σ; split; apply above_pos|exact session_empty|by vm_compute|].
  exists ts, τ. split; [rewrite E; by vm_compute|]. replace [_; _] with (map_ops [] session_example).1 by by vm_compute. exact HS.
Defined.

(** C15: [wmem_tree_lookup32_le_full] returns the entry with the greatest key that is not
    above the one asked for, [wmem_tree_lookup32_ge_full] the entry with the least key
    that is not below it, and both return NULL when there is none; nothing changes. *)
Theorem wmem_tree_nearest M σ t m k :
  wforest M σ → M !! t = Some m →
  (∃ r, wmem_tree_lookup32_le_full t k σ = Ok (r, σ) ∧ greatest_le m k r) ∧
  (∃ r, wmem_tree_lookup32_ge_full t k σ = Ok (r, σ) ∧ least_ge m k r).
Proof.
  intros HM Ht. split.
  - pose proof (le_full_client M σ t m k HM Ht) as H. unfold wp in H. destruct (wmem_tree_lookup32_le_full t k σ) as [[r τ]| |]; [|done..].
    destruct H as [H ->]. eauto.
  - pose proof (ge_full_client M σ t m k HM Ht) as H. unfold wp in H. destruct (wmem_tree_lookup32_ge_full t k σ) as [[r τ]| |]; [|done..].
    destruct H as [H ->]. eauto.
Qed.

(** C16: After any program of insertions, removals and lookups on new trees (memory
    does not run out), the loop of [wmem_tree_lookup32_node] in a tree of n entries,
    for any key, ends within 2 log2 (n + 1) + 1 rounds, at a node when the key is in
    the tree and at NULL otherwise. *)
Theorem wmem_tree_lookup_rounds `{WmemNew} fuel os :
  (∀ σ, new_node σ ≠ NULL ∧ new_tree σ ≠ NULL) → ops_ok fuel [] os = true →
  ∃ ts τ, run_ops fuel [] os (WState ∅ ∅) = Ok ((ts, (map_ops [] os).2), τ) ∧
    ∀ i m k, (map_ops [] os).1 !! i = Some m →
      ∃ t r x, ts !! i = Some t ∧ trees τ !! t = Some (Tree r) ∧
        iter_fuel (Pos.of_succ_nat (2 * Nat.log2 (size m + 1))) (lookup32_step k) r τ = Ok (inr x, τ) ∧
        (x = NULL ↔ m !! k = None).
Proof.
  intros Hnew Hok. pose proof (run_ops_spec Hnew fuel os [] [] (WState ∅ ∅) session_empty Hok) as Hwp. unfold wp in Hwp.
  destruct (run_ops fuel [] os (WState ∅ ∅)) as [[[ts xs] τ]| |]; [|done..]. destruct Hwp as [E HS]. cbn in E, HS. subst xs.
  exists ts, τ. split; [done|]. intros i m k Hm. destruct (session_tree _ _ _ _ _ HS Hm) as (t & M & Et & HF & HM & _).
  destruct (lookup32_rounds M τ t m k HF HM) as (r & x & ? & ? & ?). by exists t, r, x.
Qed.

(** [wmem_tree_foreach] applies the callback to the entries in the order of their
    keys until it stops the walk, changes nothing, and needs no more stack than the
    depth of the tree. *)
Theorem wmem_tree_foreach_sorted {U} (callback : Z → Z → U → bool * U) M σ t m fuel u :
  wforest M σ → M !! t = Some m → (2 * Nat.log2 (size m + 1) < fuel)%nat →
  ∃ l, entries m l ∧ wmem_tree_foreach callback fuel t u σ = Ok (visit callback l u, σ).
Proof.
  intros HM Ht Hf. pose proof (foreach_client callback M σ t m fuel u HM Ht Hf) as H. unfold wp in H.
  destruct (wmem_tree_foreach callback fuel t u σ) as [[r τ]| |]; [|done..]. destruct H as [(l & Hl & ->) ->]. eauto.
Qed.

(** C17: [wmem_tree_destroy] frees the nodes of the tree, each of them once, and then the
    tree, and leaves the other trees as they are. *)
Theorem wmem_tree_destroy_frees M σ t m fuel :
  wforest M σ → M !! t = Some m → (2 * Nat.log2 (size m + 1) < fuel)%nat →
  ∃ l τ, wmem_tree_destroy fuel t false false σ = Ok (l ++ [t], τ) ∧ wforest (delete t M) τ ∧
    NoDup l ∧ ∀ a, a ∈ l ↔ is_Some (nodes σ !! a) ∧ nodes τ !! a = None.
Proof.
  intros HM Ht Hf. pose proof (destroy_client M σ t m fuel HM Ht Hf) as H. unfold wp in H.
  destruct (wmem_tree_destroy fuel t false false σ) as [[r τ]| |]; [|done..]. destruct H as [HF (l & -> & Hd & Hl)]. eauto 10.
Qed.

Definition map_example : gmap Z Z := list_to_map [(1, 10); (2, 20); (3, 30); (4, 40)].
Lemma heap_example : ∃ M σ t, wforest M σ ∧ M !! t = Some map_example.
Proof.
  pose proof (run_ops_spec (fun _ => conj (above_pos _) (above_pos _)) 20 session_example [] [] (WState ∅ ∅) session_empty ltac:(by vm_compute)) as H.
  unfold wp in H. destruct (run_ops 20 [] session_example (WState ∅ ∅)) as [[[ts xs] τ]| |]; [|done..]. destruct H as [_ HS]. cbn [fst] in HS.
  destruct (session_tree _ _ _ 0 map_example HS) as (t & M & _ & H1 & H2 & _); [by vm_compute|]. by exists M, τ, t.
Qed.

Lemma wmem_tree_nearest_witness :
  ∃ M σ t, wforest M σ ∧ M !! t = Some map_example ∧
    (∃ r, wmem_tree_lookup32_le_full t 7 σ = Ok (r, σ) ∧ greatest_le map_example 7 r) ∧
    (∃ r, wmem_tree_lookup32_ge_full t 7 σ = Ok (r, σ) ∧ least_ge map_example 7 r).
Proof.
  destruct heap_example as (M & σ & t & H1 & H2). exists M, σ, t. split; [done|]. split; [done|]. by apply (wmem_tree_nearest M σ t map_example 7).
Defined.

Lemma wmem_tree_lookup_rounds_witness :
  ∃ ts τ t r x, run_ops 20 [] session_example (WState ∅ ∅) = Ok ((ts, (map_ops [] session_example).2), τ) ∧
    ts !! O = Some t ∧ trees τ !! t = Some (Tree r) ∧ iter_fuel 5 (lookup32_step 4) r τ = Ok (inr x, τ) ∧ x ≠ NULL.
Proof.
  destruct (wmem_tree_lookup_rounds 20 session_example) as (ts & τ & E & H); [intros σ; split; apply above_pos|by vm_compute|].
  destruct (H O map_example 4) as (t & r & x & H1 & H2 & H3 & H4); [by vm_compute|].
  exists ts, τ, t, r, x. split_and!; [exact E|exact H1|exact H2|exact H3|]. intros Hx. apply H4 in Hx. by vm_compute in Hx.
Defined.

Lemma wmem_tree_foreach_sorted_witness :
  ∃ M σ t l, wforest M σ ∧ entries map_example l ∧
    wmem_tree_foreach (fun k d u => (2 <? k, u + d)) 20 t 0 σ = Ok (visit (fun k d u => (2 <? k, u + d)) l 0, σ).
Proof.
  destruct heap_example as (M & σ & t & H1 & H2).
  destruct (wmem_tree_foreach_sorted (fun k d u => (2 <? k, u + d)) M σ t map_example 20 0 H1 H2) as (l & H3 & H4); [vm_compute; lia|].
  by exists M, σ, t, l.
Defined.

Lemma wmem_tree_destroy_frees_witness :
  ∃ M σ t l τ, wforest M σ ∧ M !! t = Some map_example ∧ wmem_tree_destroy 20 t false false σ = Ok (l ++ [t], τ) ∧ wforest (delete t M) τ.
Proof.
  destruct heap_example as (M & σ & t & H1 & H2).
  destruct (wmem_tree_destroy_frees M σ t map_example 20 H1 H2) as (l & τ & H3 & H4 & _); [vm_compute; lia|]. by exists M, σ, t, l, τ.
Defined.
