(* ===== verification/WmemTreeString.v ===== *)
(** * Red-black trees of wmem: trees with a comparison function

    [wmem_tree_insert_node] and [wmem_tree_lookup]: entries whose keys compare as equal
    are one entry.  A key is an address; what the comparison function compares are the
    values there ([K]).  The strings are in WmemStrings.v. *)

From stdpp Require Import base numbers gmap list sorting.
From S2P Require Import Prelude CMem WmemTree WmemTreeRep WmemTreeRB WmemTreeRemove WmemTreeSearch WmemTreeNear WmemTreeOps.
Open Scope Z_scope.
#[local] Set Warnings "-clear-no-such-hyp".

#[local] Abbreviation RED := WMEM_NODE_COLOR_RED.
#[local] Abbreviation BLACK := WMEM_NODE_COLOR_BLACK.

(** What a [compare_func] has to be, on the values that it compares. *)
Class CompareFunc {V} (cmp : V → V → Z) : Prop := {
  cmp_anti a b : Z.sgn (cmp a b) = - Z.sgn (cmp b a);
  cmp_trans a b c : cmp a b < 0 → cmp b c < 0 → cmp a c < 0;
  cmp_congr a b c : cmp a b = 0 → Z.sgn (cmp a c) = Z.sgn (cmp b c)
}.

Lemma wp_on_tree {A} (c : M theap A) Q σ β : wp c (fun a τ => Q a (τ, β)) σ → wp (on_tree c) Q (σ, β).
Proof. unfold wp, on_tree. by destruct (c σ) as [[a τ]| |]. Qed.
Lemma wp_on_bytes {A} (c : M cstate A) Q σ β : wp c (fun a γ => Q a (σ, γ)) β → wp (on_bytes c) Q (σ, β).
Proof. unfold wp, on_bytes. by destruct (c β) as [[a γ]| |]. Qed.

Section Compare.
Context {V : Type} (cmp : V → V → Z) `{!CompareFunc cmp}.

Lemma refl_cmp a : cmp a a = 0.
Proof. pose proof (cmp_anti a a). lia. Qed.
Lemma less_ne a b : cmp a b < 0 → cmp a b ≠ 0 ∧ cmp b a ≠ 0.
Proof. intros H. pose proof (cmp_anti a b). lia. Qed.
Lemma equal_less a b c : cmp a b = 0 → cmp c b < 0 → cmp c a < 0.
Proof. intros H1 H2. pose proof (cmp_congr a b c H1). pose proof (cmp_anti a c). pose proof (cmp_anti b c). lia. Qed.
Lemma equal_sym a b : cmp a b = 0 → cmp b a = 0.
Proof. intros H. pose proof (cmp_anti a b). lia. Qed.
Lemma equal_trans a b c : cmp a b = 0 → cmp b c = 0 → cmp a c = 0.
Proof. intros H1 H2. pose proof (cmp_congr a b c H1). lia. Qed.

(** [K] gives the value at the address of a key. *)
Context (K : Z → V).
Definition before (a b : Z) : Prop := cmp (K a) (K b) < 0.
#[local] Instance before_trans : Transitive before.
Proof. intros a b c. apply cmp_trans. Qed.

(** The data of the first entry whose key compares as equal. *)
Fixpoint assoc (l : list (Z * Z)) (w : V) : option Z :=
  match l with [] => None | (x, d) :: l => if cmp w (K x) =? 0 then Some d else assoc l w end.

Lemma assoc_app l1 l2 w : assoc (l1 ++ l2) w = match assoc l1 w with Some d => Some d | None => assoc l2 w end.
Proof. induction l1 as [|[x d] l1 IH]; [done|]. cbn. by destruct (cmp w (K x) =? 0). Qed.
Lemma assoc_none l w : (∀ x, x ∈ l.*1 → cmp w (K x) ≠ 0) → assoc l w = None.
Proof.
  induction l as [|[x d] l IH]; intros H; [done|]. cbn. rewrite (proj2 (Z.eqb_neq _ 0)) by (apply H; left). apply IH. intros y Hy. apply H. by right.
Qed.
Lemma assoc_congr l w' w : cmp w' w = 0 → assoc l w' = assoc l w.
Proof.
  intros E. induction l as [|[x d] l IH]; [done|]. cbn. rewrite IH. pose proof (cmp_congr w' w (K x) E).
  destruct (Z.eqb_spec (cmp w' (K x)) 0), (Z.eqb_spec (cmp w (K x)) 0); (done || lia).
Qed.
(** An entry [x] between smaller and greater ones, whose data become [d], or which is new with the key [k]. *)
Lemma assoc_put l1 l2 x d k w :
  (∀ y, y ∈ l1.*1 → before y k) → cmp (K k) (K x) = 0 →
  assoc (l1 ++ (x, d) :: l2) w = if cmp w (K k) =? 0 then Some d else assoc (l1 ++ l2) w.
Proof.
  intros H1 Hx. rewrite !assoc_app. cbn. destruct (Z.eqb_spec (cmp w (K k)) 0) as [E|E].
  - rewrite assoc_none; [by rewrite (equal_trans w (K k) (K x) E Hx)|].
    intros y Hy. apply H1 in Hy. apply (equal_less _ _ _ E) in Hy. by apply less_ne.
  - rewrite (proj2 (Z.eqb_neq (cmp w (K x)) 0)); [by destruct (assoc l1 w)|]. intros E'. apply E. eapply equal_trans; [exact E'|]. by apply equal_sym.
Qed.

(** ** Looking up *)

(** The comparison function [ccmp] of the code, on the key [k] and the keys of [T]. *)
Definition compares (ccmp : Z → Z → M cstate Z) (k : Z) (T : tree) (β : cstate) : Prop :=
  ∀ x, x ∈ keysof (items T) → ∃ r, ccmp k x β = Ok (r, β) ∧ Z.sgn r = Z.sgn (cmp (K k) (K x)).

Section Tree.
Context {t : Z} {T : tree} {σ : theap} (HR : repr σ (addrs T) t T σ) (Hrb : rbtree T) (Ho : ordered_by before T) (Ht : t ≠ NULL).

Lemma cmp_found k C c l a v r :
  focus_by before k C (Node c l a v r) T → cmp (K k) (K (key v)) = 0 →
  (∀ y, y ∈ keysof (litems C ++ items l) → before y k) ∧ items T = (litems C ++ items l) ++ (a, v) :: (items r ++ ritems C).
Proof.
  intros (E & HL & _) Hk. assert (items T = (litems C ++ items l) ++ (a, v) :: (items r ++ ritems C)) as EI.
  { rewrite <- E, plug_items. cbn. by list_simplifier. }
  split; [|done]. intros y Hy. eapply equal_less; [exact Hk|]. change (before y (key v)). unfold ordered_by in Ho. rewrite EI, keysof_app in Ho.
  eapply StronglySorted_app_1_elem_of; [exact Ho|exact Hy|left].
Qed.
Lemma cmp_none k C : focus_by before k C Leaf T → assoc (kvs (items T)) (K k) = None.
Proof.
  intros (E & HL & HRi). apply assoc_none. rewrite kvs_keys, <- E, plug_items. cbn. intros x. rewrite keysof_app, elem_of_app.
  intros [Hx|Hx]; [apply HL in Hx|apply HRi in Hx]; apply less_ne in Hx; tauto.
Qed.

Lemma focus_key k C c l a v r : focus_by before k C (Node c l a v r) T → key v ∈ keysof (items T).
Proof.
  intros (<- & _). rewrite plug_items. cbn. rewrite !keysof_app. cbn. set_solver.
Qed.
(** Calling the comparison function with the key of a node. *)
Lemma wp_compare {A} ccmp β k C c l a v r (f : Z → M (theap * cstate) A) Q :
  compares ccmp k T β → focus_by before k C (Node c l a v r) T →
  (∀ x, Z.sgn x = Z.sgn (cmp (K k) (K (key v))) → wp (f x) Q (σ, β)) →
  wp (x ← on_bytes (ccmp k (key v)); f x) Q (σ, β).
Proof.
  intros Hc HF Hf. destruct (Hc (key v) (focus_key _ _ _ _ _ _ _ HF)) as (x & E & Hx). wp_step.
  apply wp_on_bytes. unfold wp. rewrite E. by apply Hf.
Qed.

Lemma wmem_tree_lookup_spec ccmp k β :
  k ≠ NULL → compares ccmp k T β →
  wp (wmem_tree_lookup ccmp t k) (fun x τ => x = default NULL (assoc (kvs (items T)) (K k)) ∧ τ = (σ, β)) (σ, β).
Proof.
  intros Hk Hc. unfold wmem_tree_lookup. rewrite (proj2 (Z.eqb_neq t NULL) Ht), (proj2 (Z.eqb_neq k NULL) Hk). cbn [orb].
  wp_step. apply wp_on_tree. eapply wp_get_tree; [exact (rp_root _ _ _ _ _ HR)|]. cbn [root].
  eapply (wp_search before (fun _ => True) _ σ (addrs T) t T k _ σ); [done..| |].
  - intros _ C HF _. cbn [Z.eqb NULL]. wp_step. by rewrite (cmp_none k C HF).
  - intros C c l a v r HF HR' Ea. rewrite (proj2 (Z.eqb_neq a NULL)) by (by apply (repr_node C true c l a v r σ HR')).
    wp_step. apply wp_on_tree. eapply wp_get_wnode; [exact Ea|]. cbn [it left right].
    eapply (wp_compare ccmp β k C c l a v r); [done..|]. intros x Hx. destruct (Z.eqb_spec x 0) as [E|E].
    { wp_step. assert (cmp (K k) (K (key v)) = 0) as E0 by lia. destruct (cmp_found k C c l a v r HF E0) as [H1 ->]. rewrite kvs_app. cbn.
      rewrite (assoc_put _ _ _ _ k) by (rewrite ?kvs_keys; done). by rewrite refl_cmp. }
    pose proof (cmp_anti (K k) (K (key v))). destruct (Z.ltb_spec x 0); wp_step; (split; [done|]); [left|right]; (split_and!; [unfold before; lia|done..]).
Qed.
(** ** Inserting *)

Context `{WmemNew} (Hnew : new_node σ ≠ NULL) (Hsize : lenZ (addrs T) + 1 < 4294967296).
#[local] Abbreviation reprn := (repr σ (new_node σ :: addrs T) t).

(** The entry of [k] has become [d]; there is one new node at most. *)
Definition cmp_inserted (k d : Z) (τ : theap) : Prop :=
  ∃ T', reprn T' τ ∧ rbtree T' ∧ ordered_by before T' ∧ lenZ (addrs T') <= lenZ (addrs T) + 1 ∧
    (∀ x, x ∈ keysof (items T') → x = k ∨ x ∈ keysof (items T)) ∧
    ∀ w, assoc (kvs (items T')) w = if cmp w (K k) =? 0 then Some d else assoc (kvs (items T)) w.

(** A tree with a new entry at its place. *)
Lemma cmp_placed k d C T' x v τ :
  focus_by before k C Leaf T → key v = k → data v = d → reprn T' τ → rbtree T' → items T' = litems C ++ (x, v) :: ritems C → cmp_inserted k d τ.
Proof.
  intros (E & HL & HRi) <- <- H1 H2 H3. assert (items T = litems C ++ ritems C) as EI by (rewrite <- E; by rewrite plug_items).
  exists T'. split_and!; try done.
  - unfold ordered_by in *. rewrite H3, EI, !keysof_app in *. cbn. apply StronglySorted_app in Ho as (K1 & K2 & K3).
    apply StronglySorted_app_2; [|done|apply StronglySorted_cons; split; [by apply Forall_forall|done]].
    intros y z Hy. rewrite elem_of_cons. intros [->|Hz]; auto.
  - unfold lenZ. rewrite <- !items_addrs, H3, EI. rewrite !length_fmap, !length_app. cbn. lia.
  - intros y. rewrite H3, EI, !keysof_app. cbn. set_solver.
  - intros w. rewrite H3, EI, !kvs_app. cbn. apply assoc_put; [by rewrite kvs_keys|apply refl_cmp].
Qed.

Lemma cmp_rebalance f C k d τ :
  focus_by before k (f :: C) Leaf T → reprn (plug (f :: C) (Node RED Leaf (new_node σ) (Item k d false false) Leaf)) τ →
  wp (rb_insert_case1 None t (new_node σ)) (fun _ => cmp_inserted k d) τ.
Proof.
  intros HF HA. pose proof Hrb as Hrb'. rewrite <- (proj1 HF) in Hrb'. apply plug_rb in Hrb' as (n & HC & -> & _).
  eapply wp_mono; [eapply (rb_insert_case1_spec (f :: C) (Node RED Leaf (new_node σ) (Item k d false false) Leaf) O); [exact HA|done..]|].
  intros [] υ (T' & H1 & H2 & H3). rewrite plug_items in H3. exact (cmp_placed k d (f :: C) T' (new_node σ) (Item k d false false) υ HF eq_refl eq_refl H1 H2 H3).
Qed.

Lemma cmp_replaced k d C c l a v r τ b :
  focus_by before k C (Node c l a v r) T → cmp (K k) (K (key v)) = 0 → reprn (plug C (Node c l a (Item (key v) d (is_subtree v) b) r)) τ → cmp_inserted k d τ.
Proof.
  intros HF Hk HA. destruct (cmp_found k C c l a v r HF Hk) as [H1 EI]. eexists. split; [exact HA|].
  assert (items (plug C (Node c l a (Item (key v) d (is_subtree v) b) r)) = (litems C ++ items l) ++ (a, Item (key v) d (is_subtree v) b) :: (items r ++ ritems C)) as EI'.
  { rewrite plug_items. cbn. by list_simplifier. }
  split_and!.
  - eapply rbtree_item. by rewrite (proj1 HF).
  - unfold ordered_by in *. rewrite EI', EI, !keysof_app in *. exact Ho.
  - unfold lenZ. rewrite <- !items_addrs, EI', EI. rewrite !length_fmap, !length_app. cbn. lia.
  - intros y. rewrite EI', EI, !keysof_app. auto.
  - intros w. rewrite EI', EI, !kvs_app. cbn. rewrite !(assoc_put _ _ (key v) _ k) by (rewrite <- ?kvs_app, ?kvs_keys; done).
    by destruct (cmp w (K k) =? 0).
Qed.

(** The loop has found the key, and its data are [d], or attached a new node. *)
Definition at_place (β : cstate) (k d : Z) (x : Z + Z) (τ : theap * cstate) : Prop :=
  τ.2 = β ∧ match x with
  | inl _ => cmp_inserted k d τ.1
  | inr a => a = new_node σ ∧ ∃ f C, focus_by before k (f :: C) Leaf T ∧ reprn (plug (f :: C) (Node RED Leaf (new_node σ) (Item k d false false) Leaf)) τ.1
  end.

(** One more node below [f]. *)
Lemma attach_place β f C k d :
  focus_by before k (f :: C) Leaf T →
  wp (new ← on_tree (new ← create_node (fr_addr f) k d RED false;
                     _ ← (if fr_left f then set_left (fr_addr f) new else set_right (fr_addr f) new); mret new);
      break (inr new) : M (theap * cstate) (Z + (Z + Z)))
     (fun x τ => match x with inl y => False | inr b => at_place β k d b τ end) (σ, β).
Proof.
  intros HF. wp_step. apply wp_on_tree. apply (attach_spec HR Hnew Hsize f C k d false (fun new => mret new)); [apply HF|].
  intros τ Hτ. wp_step. wp_step. split; [done|]. split; [done|]. by exists f, C.
Qed.

Lemma wmem_tree_insert_node_spec ccmp k d β :
  compares ccmp k T β →
  wp (wmem_tree_insert_node None ccmp t k d) (fun _ τ => cmp_inserted k d τ.1 ∧ τ.2 = β) (σ, β).
Proof.
  intros Hc. unfold wmem_tree_insert_node. wp_step. apply wp_on_tree. eapply wp_get_tree; [exact (rp_root _ _ _ _ _ HR)|]. cbn [root].
  rewrite (repr_null [] T σ HR : (addr T =? NULL) = _). assert (T = Leaf ∨ T ≠ Leaf) as [HT|HT] by (generalize T; intros []; auto).
  { rewrite HT at 1. apply wp_on_tree, (attach_root_spec HR Hnew Hsize k d false); [done|]. intros τ Hτ. split; [|done].
    assert (focus_by before k [] Leaf T) as HF by (rewrite HT; apply focus_top).
    by apply (cmp_placed k d [] _ (new_node σ) (Item k d false false) τ HF eq_refl eq_refl Hτ (rbtree_root _ _)). }
  replace (match T with Leaf => true | _ => false end) with false by (revert HT; generalize T; by intros []).
  wp_step. eapply wp_mono; [eapply (wp_search before (fun Y => Y ≠ Leaf) _ σ _ t T k (at_place β k d) σ);
      [by apply (repr_more (T := T))|done|done|by intros ?|]|].
  - intros C c l a v r HF HP Ea. wp_step. apply wp_on_tree. eapply wp_get_wnode; [exact Ea|]. cbn [it left right].
    eapply (wp_compare ccmp β k C c l a v r); [done..|]. intros x Hx. pose proof (cmp_anti (K k) (K (key v))). destruct (Z.eqb_spec x 0) as [E|E].
    { wp_step. apply wp_on_tree. eapply (set_item_spec C true c l a v r); [exact HP|]. intros τ Hτ. wp_step. split; [done|].
      eapply cmp_replaced; [exact HF|lia|exact Hτ]. }
    destruct (Z.ltb_spec x 0) as [Hk|Hk].
    + assert (before k (key v)) as Hk' by (unfold before; lia). pose proof (focus_left before k C c l a v r T Ho HF Hk') as HF'.
      change (Node c l a v r) with (mk true c l a v r) in HP. rewrite <- plug_frame in HP.
      rewrite (repr_null _ _ _ HP). destruct l; cbn [negb]; [|wp_step; by auto].
      eapply wp_mono; [exact (attach_place β (Frame true c a v r) C k d HF')|]. by intros [].
    + assert (before (key v) k) as Hk' by (unfold before; lia). pose proof (focus_right before k C c l a v r T Ho HF Hk') as HF'.
      change (Node c l a v r) with (mk false c r a v l) in HP. rewrite <- plug_frame in HP.
      rewrite (repr_null _ _ _ HP). destruct r; cbn [negb]; [|wp_step; by auto].
      eapply wp_mono; [exact (attach_place β (Frame false c a v l) C k d HF')|]. by intros [].
  - intros [a|a] [τ γ] [Eγ Ha]; cbn [fst snd] in *; subst γ; [by wp_step|]. destruct Ha as (-> & f & C & HF & HA). wp_step. apply wp_on_tree.
    eapply wp_mono; [by eapply cmp_rebalance|]. intros [] υ Hυ. by wp_step.
Qed.
End Tree.
End Compare.
