(* ===== verification/WmemStrings.v ===== *)
(** * Trees of strings of wmem

    The string functions of wmem/wmem_tree.c, with the [strcmp], [strcasecmp] and
    [strlen] of library/string, string/memcpy.c and wmem_strdup of wmem/wmem_strutl.c, on
    the heap of the trees and the memory of the strings.

    [CopyMem] of exec and the bytes that [wmem_alloc] hands out are interfaces; what they
    promise is in the classes [ExecCopy] and [WmemBytes]. *)

From stdpp Require Import base numbers gmap list sorting.
From S2P Require Import Prelude CMem Words Ctype MemFuncs StrScan StrCmp.
From S2P Require Import WmemTree WmemTreeRep WmemTreeRB WmemTreeRemove WmemTreeSearch WmemTreeNear WmemTreeOps WmemTreeString.
Open Scope Z_scope.
#[local] Set Warnings "-clear-no-such-hyp".

Definition WMEM_TREE_STRING_NOCASE : Z := 1.

(** ** Interfaces *)

(** [CopyMem] copies the bytes of one region to another one. *)
Class ExecCopy := {
  CopyMem : Z → Z → Z → M cstate unit;
  CopyMem_ok : ∀ σ d s l, copy_ok σ d s l → lenZ l < 4294967296 →
    CopyMem s d (lenZ l) σ = Ok (tt, with_mem (write_bytes (mem σ) d l) σ)
}.

(** The bytes mapped in [β] are in [γ], and have not changed. *)
Definition grown (β γ : cstate) : Prop := ∀ a, is_Some (mem β !! a) → mem γ !! a = mem β !! a.

(** [wmem_alloc] returns NULL, or bytes that nobody has. *)
Class WmemBytes := {
  wmem_alloc : Z → M cstate Z;
  wmem_alloc_ok : ∀ n β, mem_ok (mem β) → 0 < n < 4294967296 →
    wp (wmem_alloc n) (fun p γ => (p = NULL ∧ γ = β) ∨
      (p ≠ NULL ∧ mem_ok (mem γ) ∧ grown β γ ∧ mapped (mem γ) p n ∧ ∀ a, p <= a < p + n → mem β !! a = None)) β
}.

(** ** Definitions *)

Section Strings.
Context `{EC : ExecCopy} `{WB : WmemBytes} `{WN : WmemNew}.
(** [post_rotation_cb] of the tree, the locale of [toupper], and the address of the literal
    of [wmem_strdup]. *)
Context (cb : option (Z → M theap unit)) (MB_CUR_MAX : Z) (towchar : Z → option Z) (null_string : Z).

Definition memcpy (dst src len : Z) : M cstate Z :=
  if (dst =? NULL) || (src =? NULL) then _ ← set_errno EFAULT; mret dst
  else
    _ ← (if (0 <? len) && negb (dst =? src) then CopyMem src dst len else set_errno EFAULT);
    mret dst.

Definition wmem_strdup (src : Z) : M cstate Z :=
  let src := if src =? NULL then null_string else src in
  l ← strlen src;
  let len := u32 (l + 1) in
  dst ← wmem_alloc len;
  memcpy dst src len.

(** The comparison function that the flags choose. *)
Definition string_cmp (flags : Z) : Z → Z → M cstate Z :=
  if negb (Z.land flags WMEM_TREE_STRING_NOCASE =? 0) then strcasecmp MB_CUR_MAX towchar else strcmp.

(** The tree is read for its allocator. *)
Definition wmem_tree_insert_string (tree k v flags : Z) : M (theap * cstate) unit :=
  _ ← on_tree (get_tree tree);
  key_ ← on_bytes (wmem_strdup k);
  _ ← wmem_tree_insert_node cb (string_cmp flags) tree key_ v; mret tt.

Definition wmem_tree_lookup_string (tree k flags : Z) : M (theap * cstate) Z :=
  wmem_tree_lookup (string_cmp flags) tree k.

Definition wmem_tree_remove_string (tree k flags : Z) : M (theap * cstate) Z :=
  ret ← wmem_tree_lookup_string tree k flags;
  _ ← (if negb (ret =? NULL) then wmem_tree_insert_string tree k NULL flags else mret tt);
  mret ret.
End Strings.

(** ** The order of strings *)

(** The first difference of the characters; a string is before its extensions. *)
Fixpoint str_order (up : Z → Z) (s t : list Z) : Z :=
  match s, t with
  | [], [] => 0
  | [], _ :: _ => -1
  | _ :: _, [] => 1
  | a :: s, b :: t => if up a =? up b then str_order up s t else up a - up b
  end.

(** Case analysis of comparisons of characters. *)
Ltac order_cases :=
  repeat match goal with
  | |- context [?a =? ?b] => destruct (Z.eqb_spec a b)
  | H : context [?a =? ?b] |- _ => destruct (Z.eqb_spec a b)
  end.

#[export] Instance str_order_compare up : CompareFunc (str_order up).
Proof.
  split.
  - intros s. induction s as [|a s IH]; intros [|b t]; cbn; try done. order_cases; (apply IH || lia).
  - intros s. induction s as [|a s IH]; intros [|b t] [|c u]; cbn; try (done || lia). intros H1 H2. order_cases; (by eauto || lia).
  - intros s. induction s as [|a s IH]; intros [|b t] [|c u]; cbn; try (done || lia); intros H1; order_cases; (by eauto || lia).
Qed.

Lemma str_order_eq up s t : str_order up s t = 0 ↔ up <$> s = up <$> t.
Proof.
  revert t. induction s as [|a s IH]; intros [|b t]; cbn; try (split; done || lia). order_cases.
  - rewrite IH. split; [congruence|]. by intros [= ? ?].
  - split; [lia|]. by intros [= ? ?].
Qed.

(** On strings the comparison functions of the library have its sign. *)
Lemma str_diff_order up s t :
  (∀ b, 0 < b < 256 → 0 < up b) → Forall (fun b => 0 < b < 256) s → Forall (fun b => 0 < b < 256) t → up 0 = 0 →
  Z.sgn (str_diff up s t) = Z.sgn (str_order up s t).
Proof.
  intros Hup Hs Ht H0. revert t Ht. induction Hs as [|a s Ha Hs IH]; intros t Ht; destruct Ht as [|b t Hb Ht]; unfold str_diff, chars; cbn.
  - by rewrite H0.
  - specialize (Hup b Hb). rewrite H0. order_cases; lia.
  - specialize (Hup a Ha). rewrite H0. order_cases; lia.
  - order_cases; [|done]. by apply IH.
Qed.

(** What the flags make of a character. *)
Definition fold_char (mb : Z) (towchar : Z → option Z) (flags : Z) : Z → Z :=
  if negb (Z.land flags WMEM_TREE_STRING_NOCASE =? 0) then upper mb towchar else same_char.

(** ** Memory of strings *)

Lemma cstr_grown β γ p s : grown β γ → cstr (mem β) p s → cstr (mem γ) p s.
Proof.
  intros Hg [Hb Hs]. split; [|done]. intros i Hi. specialize (Hb i Hi). by rewrite Hg, Hb by eauto.
Qed.
Lemma grown_trans β γ δ : grown β γ → grown γ δ → grown β δ.
Proof. intros H1 H2 a Ha. rewrite H2; [by apply H1|]. by rewrite H1. Qed.
Lemma cstr_mapped m p s : cstr m p s → is_Some (m !! p).
Proof. intros [Hb _]. pose proof (lenZ_nonneg s). specialize (Hb 0). rewrite lenZ_snoc, Z.add_0_r in Hb. rewrite Hb by lia. eauto. Qed.
Lemma cstr_bytes s : Forall (fun b => 0 < b < 256) s → Forall is_byte (s ++ [0]).
Proof. intros Hs. apply Forall_app. split; [|by repeat constructor]. rewrite Forall_forall in Hs |- *. intros x Hx. specialize (Hs x Hx). unfold is_byte. cbn in Hs. lia. Qed.

(** A region that is mapped, and one of the same size that was not, are disjoint. *)
Lemma fresh_disjoint m p q l :
  bytes_at m q l → 0 < lenZ l → (∀ a, p <= a < p + lenZ l → m !! a = None) → p + lenZ l <= q ∨ q + lenZ l <= p.
Proof.
  intros Hq Hl Hp. destruct (decide (p + lenZ l <= q)) as [|N1]; [by left|]. right. destruct (decide (q + lenZ l <= p)) as [|N2]; [done|]. exfalso.
  specialize (Hq (Z.max p q - q) ltac:(lia)). rewrite Hp in Hq by lia. done.
Qed.

(** ** Copying a key *)

Section Dup.
Context `{EC : ExecCopy} `{WB : WmemBytes} (null_string : Z).

Lemma memcpy_spec β d s l :
  copy_ok β d s l → 0 < lenZ l < 4294967296 → d ≠ NULL → s ≠ NULL →
  wp (memcpy d s (lenZ l)) (fun r γ => r = d ∧ γ = with_mem (write_bytes (mem β) d l) β) β.
Proof.
  intros Hc Hl Hd Hs. unfold memcpy. rewrite not_null by done. rewrite (proj2 (Z.ltb_lt 0 _)) by lia.
  pose proof (copy_disj _ _ _ _ Hc). rewrite (proj2 (Z.eqb_neq d s)) by lia. cbn. wp_step.
  apply (wp_mono _ (fun _ γ => γ = with_mem (write_bytes (mem β) d l) β)).
  - unfold wp. by rewrite CopyMem_ok by (done || lia).
  - intros ? γ ->. by wp_step.
Qed.

Lemma wmem_strdup_spec β k w :
  cstr (mem β) k w → mem_ok (mem β) → 0 < k < 4294967296 → lenZ w + 1 < 4294967296 →
  wp (wmem_alloc (lenZ w + 1)) (fun p _ => p ≠ NULL) β →
  wp (wmem_strdup null_string k) (fun p γ => p ≠ NULL ∧ mem β !! p = None ∧ cstr (mem γ) p w ∧ mem_ok (mem γ) ∧ grown β γ) β.
Proof.
  intros Hk Hm Hk0 Hw Halloc. pose proof (lenZ_nonneg w). unfold wmem_strdup. rewrite (proj2 (Z.eqb_neq k NULL)) by (unfold NULL; lia). cbv zeta.
  wp_step. eapply wp_mono; [apply (strlen_spec β k w Hk Hm); lia|]. intros x τ [-> ->]. rewrite u32_small by lia. wp_step.
  pose proof (wmem_alloc_ok (lenZ w + 1) β Hm ltac:(lia)) as Hok. unfold wp in Halloc, Hok |- *.
  destruct (wmem_alloc (lenZ w + 1) β) as [[p γ]| |]; [|done..]. destruct Hok as [[? _]|(_ & Hγ & Hg & Hp & Hnew)]; [done|].
  pose proof (cstr_grown _ _ _ _ Hg Hk) as Hk'. pose proof Hk as [Hb Hwb]. rewrite <- lenZ_snoc with (x := 0) in Hw, Hp, Hnew |- *.
  assert (copy_ok γ p k (w ++ [0])) as Hc.
  { split; [apply Hk'|by apply cstr_bytes|done|]. apply (fresh_disjoint (mem β)); [done|rewrite lenZ_snoc; lia|done]. }
  pose proof (memcpy_spec γ p k (w ++ [0]) Hc ltac:(rewrite lenZ_snoc in *; lia) Halloc ltac:(unfold NULL; lia)) as Hcpy. unfold wp in Hcpy.
  destruct (memcpy p k (lenZ (w ++ [0])) γ) as [[q δ]| |]; [|done..]. destruct Hcpy as [-> ->]. cbn [mem with_mem].
  split_and!; [done|apply Hnew; rewrite lenZ_snoc; lia|split; [apply write_bytes_bytes_at|done]|by apply write_bytes_mem_ok; [|done|apply cstr_bytes]|].
  intros a Ha. cbn. rewrite write_bytes_lookup_out; [by apply Hg|]. destruct (decide (p <= a < p + lenZ (w ++ [0]))) as [Hin|]; [|lia].
  rewrite Hnew in Ha by done. by destruct Ha.
Qed.
End Dup.

(** ** Comparing keys *)

Section Cmp.
Context (mb : Z) (towchar : Z → option Z) (flags : Z) (Htow : ∀ c x, 128 <= c < 256 → towchar c = Some x → u8 x ≠ 0).

Lemma fold_char_pos b : 0 < b < 256 → 0 < fold_char mb towchar flags b.
Proof.
  intros Hb. unfold fold_char. destruct (negb _); [|unfold same_char; lia]. destruct (upper_upper_ok mb towchar Htow) as [_ Hne]. specialize (Hne b Hb).
  assert (0 <= upper mb towchar b) by (apply Z.mod_pos_bound; lia). lia.
Qed.
Lemma fold_char_0 : fold_char mb towchar flags 0 = 0.
Proof. unfold fold_char. by destruct (negb _). Qed.

Lemma string_cmp_spec β p q s t :
  cstr (mem β) p s → cstr (mem β) q t → lenZ s < 4294967296 → lenZ t < 4294967296 → p ≠ NULL → q ≠ NULL →
  ∃ r, string_cmp mb towchar flags p q β = Ok (r, β) ∧ Z.sgn r = Z.sgn (str_order (fold_char mb towchar flags) s t).
Proof.
  intros Hs Ht Hls Hlt Hp Hq. exists (str_diff (fold_char mb towchar flags) s t). split.
  - destruct (comparisons_correct mb towchar β p q s t 0) as (H1 & _ & H2 & _); [done..|lia|].
    unfold string_cmp, fold_char. by destruct (negb _).
  - apply str_diff_order; [apply fold_char_pos|apply Hs|apply Ht|apply fold_char_0].
Qed.
End Cmp.

(** ** Trees of strings *)

Lemma sorted_agree (R R' : Z → Z → Prop) l : (∀ x y, x ∈ l → y ∈ l → R x y → R' x y) → StronglySorted R l → StronglySorted R' l.
Proof.
  induction l as [|x l IH]; intros H Hl; [constructor|]. apply StronglySorted_cons in Hl as [H1 H2]. apply StronglySorted_cons. split.
  - rewrite Forall_forall in H1 |- *. intros y Hy. apply H; [left|by right|by apply H1].
  - apply IH; [|done]. intros y z Hy Hz. apply H; by right.
Qed.

Section Values.
Context (up : Z → Z) (K K' : Z → list Z) (T : tree) (HK : ∀ x, x ∈ keysof (items T) → K' x = K x).

Lemma ordered_values : ordered_by (before (str_order up) K) T → ordered_by (before (str_order up) K') T.
Proof. apply sorted_agree. intros x y Hx Hy. unfold before. by rewrite !HK. Qed.
Lemma assoc_values w : assoc (str_order up) K' (kvs (items T)) w = assoc (str_order up) K (kvs (items T)) w.
Proof.
  assert (∀ x, x ∈ (kvs (items T)).*1 → K' x = K x) as H by (intros x; rewrite kvs_keys; apply HK). revert H.
  generalize (kvs (items T)). intros l H. induction l as [|[x d] l IH]; [done|]. cbn. rewrite IH by (intros y Hy; apply H; by right).
  rewrite H by left. done.
Qed.
End Values.

(** The key at [k] has the value [w]. *)
Definition with_value (k : Z) (w : list Z) (K : Z → list Z) (x : Z) : list Z := if x =? k then w else K x.

(** The tree [t] of at most [n] nodes maps strings to data, or to NULL; its keys are
    strings in memory. *)
Definition string_tree (up : Z → Z) (n t : Z) (f : list Z → Z) (s : theap * cstate) : Prop :=
  ∃ T K, t ≠ NULL ∧ repr s.1 (addrs T) t T s.1 ∧ rbtree T ∧ ordered_by (before (str_order up) K) T ∧ lenZ (addrs T) <= n ∧ mem_ok (mem s.2) ∧
    (∀ x, x ∈ keysof (items T) → x ≠ NULL ∧ cstr (mem s.2) x (K x) ∧ lenZ (K x) < 4294967295) ∧
    ∀ w, default NULL (assoc (str_order up) K (kvs (items T)) w) = f w.

Lemma string_tree_ext up n n' t f g s : n <= n' → (∀ w, f w = g w) → string_tree up n t f s → string_tree up n' t g s.
Proof. intros Hn Hfg (T & K & H1 & H2 & H3 & H4 & H5 & H6 & H7 & H8). exists T, K. split_and!; try done; [lia|]. intros w. by rewrite H8. Qed.

(** A tree without nodes. *)
Lemma string_tree_empty up t σ β : t ≠ NULL → trees σ !! t = Some (Tree NULL) → mem_ok (mem β) → string_tree up 0 t (fun _ => NULL) (σ, β).
Proof.
  intros Ht Hr Hm. exists Leaf, (fun _ => []). split_and!; try done.
  - split; try done; cbn; [constructor|set_solver].
  - by split; [|exists O].
  - constructor.
  - cbn. intros x Hx. by apply elem_of_nil in Hx.
Qed.

Section Client.
Context `{EC : ExecCopy} `{WB : WmemBytes} `{WN : WmemNew} (mb : Z) (towchar : Z → option Z) (null_string flags : Z).
Context (Htow : ∀ c x, 128 <= c < 256 → towchar c = Some x → u8 x ≠ 0).
#[local] Abbreviation up := (fold_char mb towchar flags).

(** The comparisons of a search for the string [w] at [k]. *)
Lemma tree_compares T K β k w :
  (∀ x, x ∈ keysof (items T) → x ≠ NULL ∧ cstr (mem β) x (K x) ∧ lenZ (K x) < 4294967295) →
  cstr (mem β) k w → k ≠ NULL → lenZ w < 4294967295 →
  compares (str_order up) (with_value k w K) (string_cmp mb towchar flags) k T β ∧
  ∀ x, x ∈ keysof (items T) → with_value k w K x = K x.
Proof.
  intros HT Hk Hk0 Hw. assert (∀ x, x ∈ keysof (items T) → with_value k w K x = K x) as HK.
  { intros x Hx. unfold with_value. destruct (Z.eqb_spec x k) as [->|]; [|done]. destruct (HT k Hx) as (_ & Hc & _). by eapply cstr_unique. }
  split; [|done]. intros x Hx. rewrite (HK x) by done. destruct (HT x Hx) as (Hx0 & Hc & Hl).
  unfold with_value. rewrite Z.eqb_refl. apply string_cmp_spec; (done || lia).
Qed.

Lemma lookup_string_client n t f σ β k w :
  string_tree up n t f (σ, β) → cstr (mem β) k w → k ≠ NULL → lenZ w < 4294967295 →
  wp (wmem_tree_lookup_string mb towchar t k flags) (fun x τ => x = f w ∧ τ = (σ, β)) (σ, β).
Proof.
  intros (T & K & H1 & H2 & H3 & H4 & H5 & H6 & H7 & H8) Hk Hk0 Hw. cbn [fst snd] in *. unfold wmem_tree_lookup_string.
  destruct (tree_compares T K β k w H7 Hk Hk0 Hw) as [Hc HK].
  eapply wp_mono; [eapply (wmem_tree_lookup_spec (str_order up) (with_value k w K) H2 H3); [by eapply ordered_values|done..]|].
  intros x τ [-> ->]. rewrite (assoc_values up K) by done. unfold with_value. rewrite Z.eqb_refl. by rewrite H8.
Qed.

Lemma insert_string_client n t f σ β k w v :
  string_tree up n t f (σ, β) → cstr (mem β) k w → 0 < k < 4294967296 → lenZ w + 1 < 4294967296 → n + 1 < 4294967296 →
  new_node σ ≠ NULL → wp (wmem_alloc (lenZ w + 1)) (fun p _ => p ≠ NULL) β →
  wp (wmem_tree_insert_string None mb towchar null_string t k v flags)
     (fun _ τ => grown β τ.2 ∧ string_tree up (n + 1) t (fun w' => if decide (up <$> w' = up <$> w) then v else f w') τ) (σ, β).
Proof.
  intros (T & K & H1 & H2 & H3 & H4 & H5 & H6 & H7 & H8) Hk Hk0 Hw Hn Hnew Halloc. cbn [fst snd] in *. unfold wmem_tree_insert_string.
  wp_step. apply wp_on_tree. eapply wp_get_tree; [exact (rp_root _ _ _ _ _ H2)|]. wp_step. apply wp_on_bytes.
  eapply wp_mono; [by eapply wmem_strdup_spec|]. intros p γ (Hp & Hpn & Hpw & Hγ & Hg).
  assert (∀ x, x ∈ keysof (items T) → x ≠ NULL ∧ cstr (mem γ) x (K x) ∧ lenZ (K x) < 4294967295) as H7'.
  { intros x Hx. destruct (H7 x Hx) as (? & ? & ?). split_and!; [done|by eapply cstr_grown|done]. }
  destruct (tree_compares T K γ p w H7' Hpw Hp ltac:(lia)) as [Hc HK]. wp_step.
  eapply wp_mono; [eapply (wmem_tree_insert_node_spec (str_order up) (with_value p w K) H2 H3); [by eapply ordered_values|done|done|lia|done]|].
  intros x [τ δ] [(T' & K1 & K2 & K3 & K4 & K5 & K6) Eδ]. cbn [fst snd] in *. subst δ. wp_step. split; [done|].
  assert (with_value p w K p = w) as Epw by (unfold with_value; by rewrite Z.eqb_refl).
  exists T', (with_value p w K). cbn [fst snd]. split_and!; try done; [by eapply repr_self|lia| |].
  - intros y [->|Hy]%K5; [rewrite Epw; split_and!; [done..|lia]|]. rewrite HK by done. by apply H7'.
  - intros w'. rewrite K6, Epw, (assoc_values up K) by done. destruct (Z.eqb_spec (str_order up w' w) 0) as [E|E], (decide _) as [E'|E'];
      rewrite str_order_eq in E; done.
Qed.

Lemma remove_string_client n t f σ β k w :
  string_tree up n t f (σ, β) → cstr (mem β) k w → 0 < k < 4294967296 → lenZ w + 1 < 4294967296 → n + 1 < 4294967296 →
  new_node σ ≠ NULL → wp (wmem_alloc (lenZ w + 1)) (fun p _ => p ≠ NULL) β →
  wp (wmem_tree_remove_string None mb towchar null_string t k flags)
     (fun x τ => x = f w ∧ grown β τ.2 ∧ string_tree up (n + 1) t (fun w' => if decide (up <$> w' = up <$> w) then NULL else f w') τ) (σ, β).
Proof.
  intros HS Hk Hk0 Hw Hn Hnew Halloc. unfold wmem_tree_remove_string. wp_step.
  eapply wp_mono; [eapply lookup_string_client; [done..|unfold NULL; lia|lia]|]. intros x τ [-> ->].
  wp_step. destruct (Z.eqb_spec (f w) NULL) as [E|E]; cbn [negb].
  - wp_step. wp_step. split; [done|]. split; [by intros a|]. eapply (string_tree_ext _ n _ _ f); [lia| |done]. intros w'. destruct (decide _) as [E'|E']; [|done].
    destruct HS as (T & K & _ & _ & _ & _ & _ & _ & _ & Hf). apply str_order_eq in E'. by rewrite <- Hf, (assoc_congr _ K _ w' w E'), Hf.
  - eapply wp_mono; [by eapply insert_string_client|]. intros [] υ Hυ. by wp_step.
Qed.
End Client.

(** C18: In a tree of strings, for a key [w] in memory at [k] (with regard to case, or
    without, as the flags say): [wmem_tree_lookup_string] returns what [w] is mapped
    to and changes nothing; [wmem_tree_insert_string] maps [w], and every string that is
    equal to it but for case, to [v] and no other string to anything else; and
    [wmem_tree_remove_string] returns what [w] was mapped to and maps it to NULL.  Memory
    that was mapped is not changed; node and copy of the key are allocated. *)
Theorem wmem_tree_strings `{EC : ExecCopy} `{WB : WmemBytes} `{WN : WmemNew} mb towchar null_string flags n t f σ β k w v :
  let up := fold_char mb towchar flags in
  (∀ c x, 128 <= c < 256 → towchar c = Some x → u8 x ≠ 0) →
  string_tree up n t f (σ, β) → n + 1 < 4294967296 →
  cstr (mem β) k w → 0 < k < 4294967296 → lenZ w + 1 < 4294967296 →
  new_node σ ≠ NULL → wp (wmem_alloc (lenZ w + 1)) (fun p _ => p ≠ NULL) β →
  wmem_tree_lookup_string mb towchar t k flags (σ, β) = Ok (f w, (σ, β)) ∧
  (∃ τ γ, wmem_tree_insert_string None mb towchar null_string t k v flags (σ, β) = Ok (tt, (τ, γ)) ∧ grown β γ ∧
     string_tree up (n + 1) t (fun w' => if decide (up <$> w' = up <$> w) then v else f w') (τ, γ)) ∧
  (∃ τ γ, wmem_tree_remove_string None mb towchar null_string t k flags (σ, β) = Ok (f w, (τ, γ)) ∧ grown β γ ∧
     string_tree up (n + 1) t (fun w' => if decide (up <$> w' = up <$> w) then NULL else f w') (τ, γ)).
Proof.
  intros up Htow HS Hn Hk Hk0 Hw Hnew Halloc. split_and!.
  - apply wp_eq. eapply lookup_string_client; [done..|unfold NULL; lia|lia].
  - pose proof (insert_string_client mb towchar null_string flags Htow n t f σ β k w v HS Hk Hk0 Hw Hn Hnew Halloc) as Hwp. unfold wp in Hwp.
    destruct (wmem_tree_insert_string _ _ _ _ _ _ _ _ _) as [[[] [τ γ]]| |]; [|done..]. destruct Hwp. eauto.
  - pose proof (remove_string_client mb towchar null_string flags Htow n t f σ β k w HS Hk Hk0 Hw Hn Hnew Halloc) as Hwp. unfold wp in Hwp.
    destruct (wmem_tree_remove_string _ _ _ _ _ _ _ _) as [[x [τ γ]]| |]; [|done..]. destruct Hwp as (-> & ? & ?). eauto.
Qed.

(** ** Without memory

    [wmem_strdup] returns NULL when there is no memory for the copy, and the insertion
    goes on with that key.  [strcasecmp] takes NULL to be equal to everything: the data
    of the root, whatever its key is, are replaced. *)
Theorem null_key_replaces_root `{WN : WmemNew} mb towchar flags t r n v σ β :
  negb (Z.land flags WMEM_TREE_STRING_NOCASE =? 0) = true → trees σ !! t = Some (Tree r) → nodes σ !! r = Some n → r ≠ NULL →
  let n' := TNode (parent n) (left n) (right n) (color n) (Item (key (it n)) v (is_subtree (it n)) (v =? NULL)) in
  wmem_tree_insert_node None (string_cmp mb towchar flags) t NULL v (σ, β) =
  Ok (r, (WState (trees σ) (<[r := n']> (nodes σ)), CState (mem β) EFAULT)).
Proof.
  intros Hf Ht Hr Hr0 n'. apply wp_eq. unfold wmem_tree_insert_node. wp_step. apply wp_on_tree. eapply wp_get_tree; [exact Ht|]. cbn [root].
  rewrite (proj2 (Z.eqb_neq r NULL) Hr0). wp_step.
  apply (wp_loop _ (fun x s => x = r ∧ s = (σ, β)) _ (fun _ => 0)); [|done|done|lia]. intros x s [-> ->].
  wp_step. apply wp_on_tree. eapply wp_get_wnode; [exact Hr|]. wp_step. apply wp_on_bytes. unfold string_cmp. rewrite Hf.
  unfold strcasecmp. cbn [Z.eqb NULL orb]. wp_step. apply wp_set_errno. wp_step. cbn [Z.eqb]. wp_step. apply wp_on_tree. unfold set_item.
  wp_step. eapply wp_get_wnode; [exact Hr|]. unfold set_node. apply wp_modify. wp_step. by wp_step.
Qed.

(** ** A concrete memory *)

#[local] Instance loop_copy : ExecCopy.
Proof.
  refine {| CopyMem s d n := _ ← mempcpy d s n; mret tt |}. intros σ d s l Hc Hl. apply wp_eq. wp_step.
  eapply wp_mono; [by apply mempcpy_spec|]. intros r τ [_ ->]. by wp_step.
Defined.

(** Words behind all memory that is mapped. *)
Definition behind {A} (m : gmap Z A) : Z := 1 + foldr Z.max 0 (map_to_list m).*1.
Lemma foldr_max_le (l : list Z) a : a ∈ l → a <= foldr Z.max 0 l.
Proof. induction l as [|x l IH]; intros Ha; [by apply elem_of_nil in Ha|]. apply elem_of_cons in Ha as [->|Ha]; cbn; [lia|]. specialize (IH Ha). lia. Qed.
Lemma behind_pos {A} (m : gmap Z A) : 0 < behind m.
Proof. unfold behind. assert (0 <= foldr Z.max 0 (map_to_list m).*1); [|lia]. induction (map_to_list m).*1; cbn; lia. Qed.
Lemma behind_none {A} (m : gmap Z A) a : behind m <= a → m !! a = None.
Proof.
  intros Ha. destruct (m !! a) as [x|] eqn:E; [|done]. apply elem_of_map_to_list, (list_elem_of_fmap_2 fst), foldr_max_le in E. unfold behind in Ha. cbn in E. lia.
Qed.
Definition zero_words (n : Z) : list Z := replicate (Z.to_nat (4 * ((n + 3) / 4))) 0.
Definition new_words (n : Z) : M cstate Z :=
  fun β => let p := 4 * behind (mem β) in Ok (p, with_mem (write_bytes (mem β) p (zero_words n)) β).

Lemma new_words_ok n β :
  mem_ok (mem β) → 0 < n < 4294967296 →
  wp (new_words n) (fun p γ => (p = NULL ∧ γ = β) ∨
    (p ≠ NULL ∧ mem_ok (mem γ) ∧ grown β γ ∧ mapped (mem γ) p n ∧ ∀ a, p <= a < p + n → mem β !! a = None)) β.
Proof.
  intros Hm Hn. unfold wp, new_words. cbv zeta. set (p := 4 * behind (mem β)). cbn [mem with_mem]. right. pose proof (behind_pos (mem β)).
  assert (lenZ (zero_words n) = 4 * ((n + 3) / 4)) as Hl by (unfold zero_words; apply lenZ_replicate; dlia).
  assert (∀ a, p <= a → mem β !! a = None) as Hnone by (intros a Ha; apply behind_none; lia).
  assert (mapped (write_bytes (mem β) p (zero_words n)) p (4 * ((n + 3) / 4))) as Hmap by (rewrite <- Hl; apply bytes_at_mapped, write_bytes_bytes_at).
  assert (∀ a, is_Some (write_bytes (mem β) p (zero_words n) !! a) → is_Some (mem β !! a) ∨ p <= a < p + 4 * ((n + 3) / 4)) as Hin.
  { intros a Ha. destruct (decide (p <= a < p + 4 * ((n + 3) / 4))); [by right|left]. rewrite write_bytes_lookup_out in Ha by (rewrite Hl; lia). done. }
  assert (grown β (with_mem (write_bytes (mem β) p (zero_words n)) β)) as Hg.
  { intros a Ha. cbn. apply write_bytes_lookup_out. destruct (decide (p <= a)) as [Hle|]; [|lia]. rewrite (Hnone a Hle) in Ha. by destruct Ha. }
  split_and!; [unfold NULL; lia| |done|eapply mapped_sub; [exact Hmap|lia|dlia]|intros a Ha; apply Hnone; lia]. split.
  - intros a b Hb. destruct (Hin a) as [Ha|Ha]; [eauto| |].
    + pose proof (Hg a Ha) as E. cbn in E. rewrite E in Hb. by eapply (mem_bytes _ Hm).
    + replace a with (p + (a - p)) in Hb by lia. rewrite write_bytes_lookup_in in Hb by (rewrite Hl; lia). injection Hb as <-.
      unfold nthZ, zero_words. rewrite lookup_total_replicate_2 by dlia. done.
  - intros a b Ha Hab. destruct (Hin a Ha) as [Ha'|Ha'].
    + pose proof (mem_words _ Hm a b Ha' Hab) as Hb. pose proof (Hg b Hb) as E. cbn in E. by rewrite E.
    + apply Hmap. unfold p in *. dlia.
Qed.
#[local] Instance words_bytes : WmemBytes := {| wmem_alloc := new_words; wmem_alloc_ok := new_words_ok |}.

#[local] Instance behind_new : WmemNew.
Proof.
  refine {| new_node σ := behind (nodes σ); new_tree σ := behind (trees σ) |}; intros σ _; apply behind_none; lia.
Defined.

(** The strings Amiga, AMIGA and Exec. *)
Definition demo_bytes : cstate :=
  CState (write_bytes ∅ 100 ([65; 109; 105; 103; 97; 0; 0; 0] ++ [65; 77; 73; 71; 65; 0; 0; 0] ++ [69; 120; 101; 99; 0; 0; 0; 0])) 0.
Definition demo_heap : theap := WState {[4 := Tree NULL]} ∅.

(** Amiga and Exec are inserted; without regard to case AMIGA is found. *)
Lemma wmem_tree_strings_witness :
  ∃ s1 s2, wmem_tree_insert_string None 1 (fun _ => None) 0 4 100 7 1 (demo_heap, demo_bytes) = Ok (tt, s1) ∧
    wmem_tree_insert_string None 1 (fun _ => None) 0 4 116 8 1 s1 = Ok (tt, s2) ∧
    wmem_tree_lookup_string 1 (fun _ => None) 4 108 1 s2 = Ok (7, s2).
Proof.
  assert (∀ n β, wp (wmem_alloc n) (fun p _ => p ≠ NULL) β) as Halloc
    by (intros n β; pose proof (behind_pos (mem β)); unfold wp; cbn; unfold NULL; lia).
  assert (∀ σ, new_node σ ≠ NULL) as Hnew by (intros σ; pose proof (behind_pos (nodes σ)); cbn; unfold NULL; lia).
  assert (cstr (mem demo_bytes) 100 [65; 109; 105; 103; 97] ∧ cstr (mem demo_bytes) 108 [65; 77; 73; 71; 65] ∧ cstr (mem demo_bytes) 116 [69; 120; 101; 99])
    as (C1 & C2 & C3) by (split_and!; apply cstrb_sound; by vm_compute).
  assert (string_tree (fold_char 1 (fun _ => None) 1) 0 4 (fun _ => NULL) (demo_heap, demo_bytes)) as HS
    by (apply string_tree_empty; [done|done|apply mem_okb_sound; by vm_compute]).
  assert (∀ c x, 128 <= c < 256 → (fun _ : Z => @None Z) c = Some x → u8 x ≠ 0) as Htow by done.
  destruct (wmem_tree_strings 1 (fun _ => None) 0 1 0 4 _ _ _ 100 _ 7 Htow HS ltac:(lia) C1 ltac:(lia) ltac:(vm_compute; reflexivity) (Hnew _) (Halloc _ _))
    as (_ & (τ & γ & E1 & G1 & HS1) & _).
  destruct (wmem_tree_strings 1 (fun _ => None) 0 1 1 4 _ _ _ 116 _ 8 Htow HS1 ltac:(lia) (cstr_grown _ _ _ _ G1 C3) ltac:(lia) ltac:(vm_compute; reflexivity) (Hnew _) (Halloc _ _))
    as (_ & (τ2 & γ2 & E2 & G2 & HS2) & _).
  destruct (wmem_tree_strings 1 (fun _ => None) 0 1 2 4 _ _ _ 108 _ 9 Htow HS2 ltac:(lia) (cstr_grown _ _ _ _ (grown_trans _ _ _ G1 G2) C2)
    ltac:(lia) ltac:(vm_compute; reflexivity) (Hnew _) (Halloc _ _)) as (E3 & _).
  exists (τ, γ), (τ2, γ2). split; [exact E1|]. split; [exact E2|]. rewrite E3. reflexivity.
Defined.
