(* ===== verification/Threads.v ===== *)
(** * Threads over a shared state

    A thread is a program whose actions read and write the shared state, one action at a
    time; the steps of the threads interleave in any order.  An action may block.
    [safe] is a judgement on one thread, with a ghost state per thread and an invariant
    of the shared state; [adequacy] carries it over to all interleavings. *)

From stdpp Require Import base numbers list relations.
From S2P Require Import Prelude.
Open Scope Z_scope.

(** ** Programs *)

(** What an action does: it returns, it blocks and is tried again, or it is undefined. *)
Inductive outcome (A S : Type) := Go (a : A) (σ : S) | Stay | Crash.
Arguments Go {A S}. Arguments Stay {A S}. Arguments Crash {A S}.

(** Results are small types. *)
Inductive prog (S : Type) : Set → Type :=
  | PRet {A : Set} (a : A) : prog S A
  | PAct {A : Set} (f : nat → S → outcome A S) : prog S A
  | PBind {A B : Set} (p : prog S A) (k : A → prog S B) : prog S B
  | PIter {A B : Set} (body : A → prog S (A + B)) (a : A) : prog S B.
Arguments PRet {S A}. Arguments PAct {S A}. Arguments PBind {S A B}. Arguments PIter {S A B}.

Notation "x <~ p ; k" := (PBind p (fun x => k)) (at level 20, p at level 100, k at level 200, only parsing) : stdpp_scope.
Notation "' x <~ p ; k" := (PBind p (fun x => k)) (at level 20, x pattern, p at level 100, k at level 200, only parsing) : stdpp_scope.

Section Steps.
Context {S : Type}.

Definition is_ret {A : Set} (p : prog S A) : option A := match p with PRet a => Some a | _ => None end.

(** The next step of the thread [t]. *)
Fixpoint pstep {A : Set} (t : nat) (σ : S) (p : prog S A) : outcome (prog S A) S :=
  match p with
  | PRet _ => Stay
  | PAct f => match f t σ with Go a τ => Go (PRet a) τ | Stay => Stay | Crash => Crash end
  | PBind p k =>
      match is_ret p with
      | Some a => Go (k a) σ
      | None => match pstep t σ p with Go p τ => Go (PBind p k) τ | Stay => Stay | Crash => Crash end
      end
  | PIter body a => Go (PBind (body a) (fun r => match r with inl a => PIter body a | inr b => PRet b end)) σ
  end.

(** A pool of threads makes a step, or its environment does. *)
Definition pool (A : Set) : Type := S * list (prog S A).
Inductive pool_step {A : Set} (env : S → S → Prop) : pool A → pool A → Prop :=
  | step_thread t σ ps p p' τ : ps !! t = Some p → pstep t σ p = Go p' τ → pool_step env (σ, ps) (τ, <[t := p']> ps)
  | step_env σ τ ps : env σ τ → pool_step env (σ, ps) (τ, ps).
Definition reachable {A : Set} (env : S → S → Prop) : pool A → pool A → Prop := rtc (pool_step env).

(** No thread can make a step. *)
Definition stuck {A : Set} (ρ : pool A) : Prop := ∀ t p, ρ.2 !! t = Some p → ∀ p' τ, pstep t ρ.1 p ≠ Go p' τ.

Definition stuckb {A : Set} (ρ : pool A) : bool :=
  forallb (fun t => match ρ.2 !! t with
                    | Some p => match pstep t ρ.1 p with Go _ _ => false | _ => true end
                    | None => true
                    end) (seq 0 (length ρ.2)).
Lemma stuckb_stuck {A : Set} (ρ : pool A) : stuckb ρ = true → stuck ρ.
Proof.
  intros Hs t p Hp p' τ Hgo. unfold stuckb in Hs. rewrite forallb_forall in Hs. specialize (Hs t). rewrite Hp, Hgo in Hs.
  discriminate Hs. apply in_seq. apply lookup_lt_Some in Hp. lia.
Qed.

Lemma reachable_length {A : Set} env (ρ ρ' : pool A) : reachable env ρ ρ' → length ρ'.2 = length ρ.2.
Proof.
  intros Hr. induction Hr as [|ρ1 ρ2 ρ3 Hstep _ IH]; [done|]. rewrite IH. destruct Hstep; [apply length_insert|done].
Qed.

(** A schedule: the threads that make the next steps. *)
Fixpoint run_schedule {A : Set} (sched : list nat) (ρ : pool A) : option (pool A) :=
  match sched with
  | [] => Some ρ
  | t :: sched =>
      match ρ.2 !! t with
      | Some p => match pstep t ρ.1 p with Go p' τ => run_schedule sched (τ, <[t := p']> ρ.2) | _ => None end
      | None => None
      end
  end.
Lemma run_schedule_reachable {A : Set} env sched : ∀ ρ ρ' : pool A, run_schedule sched ρ = Some ρ' → reachable env ρ ρ'.
Proof.
  induction sched as [|t sched IH]; intros [σ ps] ρ' H; cbn in H; [injection H as <-; constructor|].
  destruct (ps !! t) as [p|] eqn:Ep; [|done]. destruct (pstep t σ p) as [p' τ| |] eqn:Es; [|done..].
  eapply rtc_l; [by eapply step_thread|by apply IH].
Qed.

(** One thread alone, until it returns. *)
Fixpoint run_alone {A : Set} (fuel : nat) (t : nat) (σ : S) (p : prog S A) : option (A * S) :=
  match fuel with
  | O => None
  | Datatypes.S fuel =>
      match is_ret p with
      | Some a => Some (a, σ)
      | None => match pstep t σ p with Go p' τ => run_alone fuel t τ p' | _ => None end
      end
  end.

(** A thread alone returns. *)
Definition runs {A : Set} (t : nat) (σ : S) (p : prog S A) (a : A) (τ : S) : Prop := ∃ fuel, run_alone fuel t σ p = Some (a, τ).
Lemma run_alone_more {A : Set} t (r : A * S) : ∀ fuel fuel' σ p, (fuel ≤ fuel')%nat → run_alone fuel t σ p = Some r → run_alone fuel' t σ p = Some r.
Proof.
  induction fuel as [|fuel IH]; intros [|fuel'] σ p Hle; [done|done|lia|]. cbn. destruct (is_ret p); [done|]. destruct (pstep t σ p); [|done..]. apply IH. lia.
Qed.
Lemma runs_ret {A : Set} t σ (a : A) : runs t σ (PRet a) a σ.
Proof. by exists 1%nat. Qed.
Lemma runs_act {A : Set} t σ (f : nat → S → outcome A S) a τ : f t σ = Go a τ → runs t σ (PAct f) a τ.
Proof. intros Hf. exists 2%nat. cbn. by rewrite Hf. Qed.
Lemma runs_bind {A B : Set} t σ τ υ (p : prog S A) (k : A → prog S B) a b : runs t σ p a τ → runs t τ (k a) b υ → runs t σ (PBind p k) b υ.
Proof.
  intros [f1 H1] [f2 H2]. exists (f1 + f2)%nat. revert σ p H1. induction f1 as [|f1 IH]; intros σ p H1; [done|]. cbn in *.
  destruct (is_ret p) as [a'|]; [injection H1 as <- <-; eapply run_alone_more; [|exact H2]; lia|]. destruct (pstep t σ p) as [p' σ'| |]; [|done..]. by apply IH.
Qed.
End Steps.

(** ** A judgement on one thread *)

Section Safe.
Context {S G : Type} (Inv : S → list G → Prop) (waiting : nat → S → list G → Prop).

(** For [n] steps, whatever the other threads do: the thread keeps the invariant with
    its ghost state, is undefined nowhere, and blocks only as [waiting] says. *)
Fixpoint safe (n : nat) {A : Set} (t : nat) (p : prog S A) (g : G) (Q : A → G → Prop) : Prop :=
  match n with
  | O => True
  | Datatypes.S n =>
      match is_ret p with
      | Some a => Q a g
      | None => ∀ σ γ, Inv σ γ → γ !! t = Some g →
          match pstep t σ p with
          | Go p' τ => ∃ g', Inv τ (<[t := g']> γ) ∧ safe n t p' g' Q
          | Stay => waiting t σ γ
          | Crash => False
          end
      end
  end.

Lemma safe_S {A : Set} n t (p : prog S A) g Q :
  safe (Datatypes.S n) t p g Q =
  match is_ret p with
  | Some a => Q a g
  | None => ∀ σ γ, Inv σ γ → γ !! t = Some g →
      match pstep t σ p with
      | Go p' τ => ∃ g', Inv τ (<[t := g']> γ) ∧ safe n t p' g' Q
      | Stay => waiting t σ γ
      | Crash => False
      end
  end.
Proof. done. Qed.

Lemma is_ret_some {A : Set} (p : prog S A) a : is_ret p = Some a → p = PRet a.
Proof. destruct p; cbn; congruence. Qed.

Lemma safe_mono {A : Set} (t : nat) (Q Q' : A → G → Prop) : ∀ n m p g, (m ≤ n)%nat → (∀ a g, Q a g → Q' a g) → safe n t p g Q → safe m t p g Q'.
Proof.
  induction n as [|n IH]; intros [|m] p g Hm HQ Hs; try done; [lia|]. cbn in *. destruct (is_ret p) as [a|]; [auto|].
  intros σ γ HI Hg. specialize (Hs σ γ HI Hg). destruct (pstep t σ p) as [p' τ| |]; [|done..].
  destruct Hs as (g' & H1 & H2). exists g'. split; [done|]. eapply IH; [|done..]. lia.
Qed.

Lemma safe_ret {A : Set} n t (a : A) g (Q : A → G → Prop) : Q a g → safe n t (PRet a) g Q.
Proof. by destruct n. Qed.

Lemma safe_act {A : Set} n t (f : nat → S → outcome A S) g Q :
  (∀ σ γ, Inv σ γ → γ !! t = Some g →
     match f t σ with Go a τ => ∃ g', Inv τ (<[t := g']> γ) ∧ Q a g' | Stay => waiting t σ γ | Crash => False end) →
  safe n t (PAct f) g Q.
Proof.
  destruct n as [|n]; [done|]. intros H σ γ HI Hg. specialize (H σ γ HI Hg). cbn. destruct (f t σ) as [a τ| |]; [|done..].
  destruct H as (g' & H1 & H2). exists g'. split; [done|]. by apply safe_ret.
Qed.

Lemma safe_bind {A B : Set} n t (p : prog S A) (k : A → prog S B) g Q :
  safe n t p g (fun a g => safe n t (k a) g Q) → safe n t (PBind p k) g Q.
Proof.
  revert p g. induction n as [|n IH]; intros p g Hs; [done|]. rewrite safe_S in Hs. intros σ γ HI Hg. cbn [pstep]. destruct (is_ret p) as [a|].
  - exists g. rewrite list_insert_id by done. split; [done|]. eapply safe_mono; [|done|exact Hs]. lia.
  - specialize (Hs σ γ HI Hg). destruct (pstep t σ p) as [p' τ| |]; [|done..]. destruct Hs as (g' & H1 & H2). exists g'. split; [done|].
    apply IH. eapply safe_mono; [|intros a h Hk|exact H2]; [done|]. cbn beta in Hk. eapply safe_mono; [|done|exact Hk]. lia.
Qed.

(** The loop rule: an invariant of the loop variable and the ghost state. *)
Lemma safe_iter {A B : Set} t (body : A → prog S (A + B)) (I : A → G → Prop) Q :
  (∀ n a g, I a g → safe n t (body a) g (fun r g => match r with inl a => I a g | inr b => Q b g end)) →
  ∀ n a g, I a g → safe n t (PIter body a) g Q.
Proof.
  intros Hbody. induction n as [|n IH]; intros a g Ha; [done|]. intros σ γ HI Hg. cbn [pstep]. exists g. rewrite list_insert_id by done.
  split; [done|]. apply safe_bind. eapply safe_mono; [done| |by apply Hbody]. intros [a'|b] g' H'; [by apply IH|by apply safe_ret].
Qed.

(** ** All interleavings *)

Context (env : S → S → Prop) (Henv : ∀ σ τ γ, env σ τ → Inv σ γ → Inv τ γ).

Definition all_safe {A : Set} (n : nat) (ps : list (prog S A)) (γ : list G) (Q : nat → A → G → Prop) : Prop :=
  length γ = length ps ∧ ∀ t p g, ps !! t = Some p → γ !! t = Some g → safe n t p g (Q t).

Lemma step_safe {A : Set} (Q : nat → A → G → Prop) (ρ ρ' : pool A) n :
  pool_step env ρ ρ' → (∃ γ, Inv ρ.1 γ ∧ all_safe (Datatypes.S n) ρ.2 γ Q) → ∃ γ, Inv ρ'.1 γ ∧ all_safe n ρ'.2 γ Q.
Proof.
  intros Hstep (γ1 & HI1 & Hl & Hs1). destruct Hstep as [t σ ps p p' τ Hp Hst|σ τ ps He]; cbn [fst snd] in *.
  - destruct (lookup_lt_is_Some_2 γ1 t) as [g Hg]; [rewrite Hl; by eapply lookup_lt_Some|]. pose proof (Hs1 t p g Hp Hg) as Hsp. rewrite safe_S in Hsp.
    destruct (is_ret p) as [a|] eqn:Er; [apply is_ret_some in Er; subst; done|].
    specialize (Hsp σ γ1 HI1 Hg). rewrite Hst in Hsp. destruct Hsp as (g' & HI2 & Hs2). exists (<[t := g']> γ1). split; [done|].
    split; [by rewrite !length_insert|]. intros u q h Hq Hh. destruct (decide (u = t)) as [->|Hne].
    + rewrite list_lookup_insert_eq in Hq by by eapply lookup_lt_Some. rewrite list_lookup_insert_eq in Hh by by eapply lookup_lt_Some. naive_solver.
    + rewrite list_lookup_insert_ne in Hq by done. rewrite list_lookup_insert_ne in Hh by done. eapply safe_mono; [|done|by eapply Hs1]. lia.
  - exists γ1. split; [by eapply Henv|]. split; [done|]. intros u q h Hq Hh. eapply safe_mono; [|done|by eapply Hs1]. lia.
Qed.

Lemma adequacy {A : Set} (Q : nat → A → G → Prop) (ρ ρ' : pool A) :
  reachable env ρ ρ' → (∀ n, ∃ γ, Inv ρ.1 γ ∧ all_safe n ρ.2 γ Q) → ∀ n, ∃ γ, Inv ρ'.1 γ ∧ all_safe n ρ'.2 γ Q.
Proof.
  intros Hr. induction Hr as [|ρ1 ρ2 ρ3 Hstep Hr IH]; [done|]. intros Hs. apply IH. intros n. by eapply step_safe.
Qed.

(** A reachable state: the invariant holds, finished threads have their results, the
    others can make a step or wait. *)
Lemma safe_now {A : Set} (Q : nat → A → G → Prop) σ ps γ t p g :
  Inv σ γ → all_safe 1 ps γ Q → ps !! t = Some p → γ !! t = Some g →
  (∃ a, p = PRet a ∧ Q t a g) ∨ (is_ret p = None ∧ ((∃ p' τ, pstep t σ p = Go p' τ) ∨ (pstep t σ p = Stay ∧ waiting t σ γ))).
Proof.
  intros HI [Hl Hs] Hp Hg. specialize (Hs t p g Hp Hg). cbn in Hs. destruct (is_ret p) as [a|] eqn:Er.
  { left. exists a. by apply is_ret_some in Er. }
  right. split; [done|]. specialize (Hs σ γ HI Hg). destruct (pstep t σ p) as [p' τ| |]; [left; eauto|right; done|done].
Qed.
End Safe.

(** ** Sums over the threads *)

Section Sum.
Context {G : Type} (f : G → Z).
Definition total (γ : list G) : Z := foldr Z.add 0 (f <$> γ).
#[global] Arguments total : simpl never.
Lemma total_insert γ t g g' : γ !! t = Some g → total (<[t := g']> γ) = total γ - f g + f g'.
Proof.
  revert t. induction γ as [|h γ IH]; intros t Ht; [done|]. destruct t as [|t]; [injection Ht as ->; unfold total; cbn; lia|].
  change (f h + total (<[t := g']> γ) = f h + total γ - f g + f g'). rewrite (IH t Ht). lia.
Qed.
Lemma total_nonneg γ : (∀ g, 0 <= f g) → 0 <= total γ.
Proof. intros H. unfold total. induction γ as [|g γ IH]; cbn; [lia|]. specialize (H g). lia. Qed.
Lemma total_mono (h : G → Z) γ : (∀ g, f g <= h g) → total γ <= foldr Z.add 0 (h <$> γ).
Proof. intros H. unfold total. induction γ as [|g γ IH]; cbn; [lia|]. specialize (H g). lia. Qed.
Lemma total_full γ : (∀ t g, γ !! t = Some g → f g = 1) → total γ = Z.of_nat (length γ).
Proof. unfold total. induction γ as [|g γ IH]; intros H; [done|]. cbn. rewrite IH, (H O g eq_refl); [lia|]. intros t. apply (H (S t)). Qed.
Lemma total_zero γ : (∀ g, g ∈ γ → f g = 0) → total γ = 0.
Proof. unfold total. induction γ as [|g γ IH]; intros H; [done|]. cbn. rewrite IH, (H g); [lia|left|]. intros h Hh. apply H. by right. Qed.
End Sum.
