(* ===== verification/Pthread.v ===== *)
(** * Synchronisation of threads

    Mutexes, condition variables, barriers, semaphores, spin locks and [pthread_once]
    (pthread/), over the mutexes, semaphores and signals of exec, which are the class
    [ExecSync]: each of its calls does on the view of the state what its documentation
    says.  An access to a shared object is one action of a thread.

    Waiting has no timeout here, and threads are not cancelled. *)

From stdpp Require Import base numbers gmap list.
From S2P Require Import Prelude CMem Threads.
Open Scope Z_scope.

(** ** exec *)

Module Sync.
(** A mutex of exec: the task that has it, and how often. *)
Record mutex := Mutex { recursive : bool; owner : option (nat * Z) }.
(** What programs see of exec: its mutexes and semaphores, the signals that wait for a
    task (32-bit masks), and the blocks that [malloc] has given out. *)
Record xview := XView { mutexes : gmap Z mutex; semas : gmap Z (option (nat * Z)); signals : gmap nat Z; blocks : gset Z }.

Definition set_mutex (h : Z) (m : mutex) (v : xview) : xview := XView (<[h := m]> (mutexes v)) (semas v) (signals v) (blocks v).
Definition set_sema (s : Z) (o : option (nat * Z)) (v : xview) : xview := XView (mutexes v) (<[s := o]> (semas v)) (signals v) (blocks v).
Definition set_signals (t : nat) (m : Z) (v : xview) : xview := XView (mutexes v) (semas v) (<[t := m]> (signals v)) (blocks v).
Definition set_blocks (b : gset Z) (v : xview) : xview := XView (mutexes v) (semas v) (signals v) b.
Definition free_mutex (h : Z) (v : xview) : xview := XView (delete h (mutexes v)) (semas v) (signals v) (blocks v).
Definition free_sema (s : Z) (v : xview) : xview := XView (mutexes v) (delete s (semas v)) (signals v) (blocks v).
Definition signals_of (t : nat) (v : xview) : Z := default 0 (signals v !! t).

Definition obtain_mutex (t : nat) (h : Z) (v : xview) : outcome unit xview :=
  match mutexes v !! h with
  | None => Crash
  | Some (Mutex r None) => Go tt (set_mutex h (Mutex r (Some (t, 1))) v)
  | Some (Mutex r (Some (u, k))) => if bool_decide (u = t) && r then Go tt (set_mutex h (Mutex r (Some (t, k + 1))) v) else Stay
  end.
Definition attempt_mutex (t : nat) (h : Z) (v : xview) : outcome bool xview :=
  match obtain_mutex t h v with Go _ v => Go true v | Stay => Go false v | Crash => Crash end.
Definition release_mutex (t : nat) (h : Z) (v : xview) : outcome unit xview :=
  match mutexes v !! h with
  | Some (Mutex r (Some (u, k))) =>
      if bool_decide (u = t) then Go tt (set_mutex h (Mutex r (if k =? 1 then None else Some (t, k - 1))) v) else Crash
  | _ => Crash
  end.
Definition obtain_sema (t : nat) (s : Z) (v : xview) : outcome unit xview :=
  match semas v !! s with
  | None => Crash
  | Some None => Go tt (set_sema s (Some (t, 1)) v)
  | Some (Some (u, k)) => if bool_decide (u = t) then Go tt (set_sema s (Some (t, k + 1)) v) else Stay
  end.
Definition release_sema (t : nat) (s : Z) (v : xview) : outcome unit xview :=
  match semas v !! s with
  | Some (Some (u, k)) => if bool_decide (u = t) then Go tt (set_sema s (if k =? 1 then None else Some (t, k - 1)) v) else Crash
  | _ => Crash
  end.
Definition attempt_sema (t : nat) (s : Z) (v : xview) : outcome bool xview :=
  match obtain_sema t s v with Go _ v => Go true v | Stay => Go false v | Crash => Crash end.
Definition signal (u : nat) (mask : Z) (v : xview) : xview := set_signals u (Z.lor (signals_of u v) mask) v.
(** Waits for one of the signals of the mask, and takes those that there are. *)
Definition wait (t : nat) (mask : Z) (v : xview) : outcome Z xview :=
  let got := Z.land (signals_of t v) mask in
  if got =? 0 then Stay else Go got (set_signals t (Z.ldiff (signals_of t v) mask) v).
Definition set_signal (t : nat) (new mask : Z) (v : xview) : xview :=
  set_signals t (Z.lor (Z.ldiff (signals_of t v) mask) (Z.land new mask)) v.
End Sync.

Definition see {X A} (view : X → Sync.xview) (o : outcome A X) : outcome A Sync.xview :=
  match o with Go a x => Go a (view x) | Stay => Stay | Crash => Crash end.

Class ExecSync := {
  exec : Type;
  view : exec → Sync.xview;
  MutexObtain : nat → Z → exec → outcome unit exec;
  MutexAttempt : nat → Z → exec → outcome bool exec;
  MutexRelease : nat → Z → exec → outcome unit exec;
  ObtainSemaphore : nat → Z → exec → outcome unit exec;
  ReleaseSemaphore : nat → Z → exec → outcome unit exec;
  Signal : nat → Z → exec → exec;
  Wait : nat → Z → exec → outcome Z exec;
  SetSignal : nat → Z → Z → exec → exec;
  AllocMutex : bool → exec → Z * exec;
  AllocSema : exec → Z * exec;
  AttemptSemaphore : nat → Z → exec → outcome bool exec;
  FreeMutex : Z → exec → exec;
  FreeSema : Z → exec → exec;
  malloc : Z → exec → Z * exec;
  free : Z → exec → exec;
  AllocSignal : nat → exec → Z * exec;
  FreeSignal : nat → Z → exec → exec;
  MutexObtain_law t h x : see view (MutexObtain t h x) = Sync.obtain_mutex t h (view x);
  MutexAttempt_law t h x : see view (MutexAttempt t h x) = Sync.attempt_mutex t h (view x);
  MutexRelease_law t h x : see view (MutexRelease t h x) = Sync.release_mutex t h (view x);
  ObtainSemaphore_law t s x : see view (ObtainSemaphore t s x) = Sync.obtain_sema t s (view x);
  ReleaseSemaphore_law t s x : see view (ReleaseSemaphore t s x) = Sync.release_sema t s (view x);
  Signal_law u m x : view (Signal u m x) = Sync.signal u m (view x);
  Wait_law t m x : see view (Wait t m x) = Sync.wait t m (view x);
  SetSignal_law t n m x : view (SetSignal t n m x) = Sync.set_signal t n m (view x);
  (** A new object, or NULL. *)
  AllocMutex_law r x h x' : AllocMutex r x = (h, x') →
    (h = NULL ∧ view x' = view x) ∨
    (h ≠ NULL ∧ Sync.mutexes (view x) !! h = None ∧ view x' = Sync.set_mutex h (Sync.Mutex r None) (view x));
  AllocSema_law x s x' : AllocSema x = (s, x') →
    (s = NULL ∧ view x' = view x) ∨ (s ≠ NULL ∧ Sync.semas (view x) !! s = None ∧ view x' = Sync.set_sema s None (view x));
  AttemptSemaphore_law t s x : see view (AttemptSemaphore t s x) = Sync.attempt_sema t s (view x);
  FreeMutex_law h x : view (FreeMutex h x) = Sync.free_mutex h (view x);
  FreeSema_law s x : view (FreeSema s x) = Sync.free_sema s (view x);
  malloc_law n x a x' : malloc n x = (a, x') →
    (a = NULL ∧ view x' = view x) ∨ (a ≠ NULL ∧ (a ∉ Sync.blocks (view x)) ∧ view x' = Sync.set_blocks (({[a]} : gset Z) ∪ Sync.blocks (view x)) (view x));
  free_law a x : view (free a x) = Sync.set_blocks (Sync.blocks (view x) ∖ {[a]}) (view x);
  (** A signal bit of the task that is free, or -1; the signal itself may be cleared. *)
  AllocSignal_law t x b x' : AllocSignal t x = (b, x') →
    (b = -1 ∨ 0 <= b < 32) ∧ (view x' = view x ∨ view x' = Sync.set_signals t (Z.ldiff (Sync.signals_of t (view x)) (Z.shiftl 1 b)) (view x));
  FreeSignal_law t b x : view (FreeSignal t b x) = view x
}.

(** ** Objects *)

Record pthread_mutex_t := PMutex { m_mutex : Z; m_kind : Z; m_incond : Z }.
Record pthread_cond_t := PCond { c_semaphore : Z; c_waiters : Z; c_condattr : Z }.
Record CondWaiter := Waiter { w_task : nat; w_sigbit : Z }.
#[export] Instance waiter_eq_dec : EqDecision CondWaiter.
Proof. solve_decision. Defined.
Record pthread_barrier_t := PBarrier { curr_height : Z; total_height : Z }.
Record sem_t := Sem { s_value : Z; s_waiters_count : Z }.
Record pthread_once_t := POnce { o_done : Z; o_started : Z }.
Record CleanupHandler := Handler { h_addr : Z; h_routine : Z; h_arg : Z }.

(** What clients note down about their calls. *)
Inductive event := Arrive (t : nat) | Leave (t : nat) (r : Z) | Post (t : nat) | Posted (t : nat) | Acquired (t : nat)
  | InitBegin (t : nat) | InitEnd (t : nat) | Returned (t : nat) | Enter (t : nat) | Exit (t : nat).
#[export] Instance event_eq_dec : EqDecision event.
Proof. solve_decision. Defined.

Section Objects.
Context `{ExecSync}.

(** Objects by their addresses: [lists] are the waiters of condition variables, [words]
    the spin locks, [condattrs] the clocks of condition attributes.  [cleanups] are the
    handlers of the threads that have a [ThreadInfo]. *)
Record pstate := PState {
  px : exec; mutexes : gmap Z pthread_mutex_t; conds : gmap Z pthread_cond_t; lists : gmap Z (list CondWaiter);
  condattrs : gmap Z Z; barriers : gmap Z pthread_barrier_t; sems : gmap Z sem_t; words : gmap Z Z; onces : gmap Z pthread_once_t;
  cleanups : gmap nat (list CleanupHandler); perrno : Z; events : list event
}.
Definition with_px x σ := PState x (mutexes σ) (conds σ) (lists σ) (condattrs σ) (barriers σ) (sems σ) (words σ) (onces σ) (cleanups σ) (perrno σ) (events σ).
Definition with_mutexes m σ := PState (px σ) m (conds σ) (lists σ) (condattrs σ) (barriers σ) (sems σ) (words σ) (onces σ) (cleanups σ) (perrno σ) (events σ).
Definition with_conds c σ := PState (px σ) (mutexes σ) c (lists σ) (condattrs σ) (barriers σ) (sems σ) (words σ) (onces σ) (cleanups σ) (perrno σ) (events σ).
Definition with_lists l σ := PState (px σ) (mutexes σ) (conds σ) l (condattrs σ) (barriers σ) (sems σ) (words σ) (onces σ) (cleanups σ) (perrno σ) (events σ).
Definition with_barriers b σ := PState (px σ) (mutexes σ) (conds σ) (lists σ) (condattrs σ) b (sems σ) (words σ) (onces σ) (cleanups σ) (perrno σ) (events σ).
Definition with_sems s σ := PState (px σ) (mutexes σ) (conds σ) (lists σ) (condattrs σ) (barriers σ) s (words σ) (onces σ) (cleanups σ) (perrno σ) (events σ).
Definition with_words w σ := PState (px σ) (mutexes σ) (conds σ) (lists σ) (condattrs σ) (barriers σ) (sems σ) w (onces σ) (cleanups σ) (perrno σ) (events σ).
Definition with_onces o σ := PState (px σ) (mutexes σ) (conds σ) (lists σ) (condattrs σ) (barriers σ) (sems σ) (words σ) o (cleanups σ) (perrno σ) (events σ).
Definition with_cleanups c σ := PState (px σ) (mutexes σ) (conds σ) (lists σ) (condattrs σ) (barriers σ) (sems σ) (words σ) (onces σ) c (perrno σ) (events σ).
Definition with_perrno e σ := PState (px σ) (mutexes σ) (conds σ) (lists σ) (condattrs σ) (barriers σ) (sems σ) (words σ) (onces σ) (cleanups σ) e (events σ).
Definition with_events e σ := PState (px σ) (mutexes σ) (conds σ) (lists σ) (condattrs σ) (barriers σ) (sems σ) (words σ) (onces σ) (cleanups σ) (perrno σ) e.
End Objects.
Arguments pstate {_}. Arguments PState {_}.

(** The embedded objects of a barrier, a semaphore and a once control. *)
Definition breeched (barrier : Z) : Z := barrier + 8.
Definition barrier_lock (barrier : Z) : Z := barrier + 24.
Definition sem_lock (sem : Z) : Z := sem + 24.
Definition count_nonzero (sem : Z) : Z := sem + 40.
Definition once_lock (once : Z) : Z := once + 8.

Definition EDEADLK : Z := 11.
Definition P_ENOMEM : Z := 12.
Definition EBUSY : Z := 16.
Definition P_EINVAL : Z := 22.
Definition EAGAIN : Z := 35.
Definition P_EOVERFLOW : Z := 84.
Definition PTHREAD_MUTEX_DEFAULT : Z := 0.
Definition PTHREAD_MUTEX_RECURSIVE : Z := 1.
Definition PTHREAD_MUTEX_ERRORCHECK : Z := 2.
Definition PTHREAD_BARRIER_SERIAL_THREAD : Z := 1.
Definition PTHREAD_BARRIER_FLAG : Z := 2147483648.
Definition SEM_VALUE_MAX : Z := 2147483647.
Definition CLOCK_MONOTONIC : Z := 1.
Definition KNOWN_CLOCKS : Z := 5.
Definition SIGBREAKF_CTRL_C : Z := 4096.
Definition SIGB_COND_FALLBACK : Z := 14.
Definition SIGF_COND_FALLBACK : Z := 16384.
Definition SIZEOF_MINLIST : Z := 12.
Definition SIZEOF_CLEANUP : Z := 16.

(** ** Actions *)

Section Actions.
Context `{ExecSync}.

(** A call of exec. *)
Definition call {A : Set} (f : nat → exec → outcome A exec) : prog pstate A :=
  PAct (fun t σ => match f t (px σ) with Go a x => Go a (with_px x σ) | Stay => Stay | Crash => Crash end).
Definition call_ {A : Set} (f : nat → exec → A * exec) : prog pstate A := call (fun t x => let '(a, x) := f t x in Go a x).
Definition call_unit (f : nat → exec → exec) : prog pstate unit := call (fun t x => Go tt (f t x)).

(** Reading and writing a field of the object at an address, which must be there. *)
Definition load {A B : Set} (m : pstate → gmap Z A) (a : Z) (f : A → B) : prog pstate B :=
  PAct (fun _ σ => match m σ !! a with Some r => Go (f r) σ | None => Crash end).
Definition store {A : Set} (m : pstate → gmap Z A) (set : gmap Z A → pstate → pstate) (a : Z) (f : A → A) : prog pstate unit :=
  PAct (fun _ σ => match m σ !! a with Some r => Go tt (set (<[a := f r]> (m σ)) σ) | None => Crash end).
(** Bringing an object into being, or taking it away. *)
Definition place {A : Set} (m : pstate → gmap Z A) (set : gmap Z A → pstate → pstate) (a : Z) (r : A) : prog pstate unit :=
  PAct (fun _ σ => Go tt (set (<[a := r]> (m σ)) σ)).
Definition unplace {A : Set} (m : pstate → gmap Z A) (set : gmap Z A → pstate → pstate) (a : Z) : prog pstate unit :=
  PAct (fun _ σ => Go tt (set (delete a (m σ)) σ)).

Definition errno (e : Z) : prog pstate unit := PAct (fun _ σ => Go tt (with_perrno e σ)).
(** The thread that runs. *)
Definition FindTask : prog pstate nat := PAct (fun t σ => Go t σ).
(** A note of the client. *)
Definition log (e : nat → event) : prog pstate unit := PAct (fun t σ => Go tt (with_events (e t :: events σ) σ)).

Definition pwhile (c : prog pstate bool) (body : prog pstate unit) : prog pstate unit :=
  PIter (fun _ : unit => b <~ c; if (b : bool) then _ <~ body; PRet (inl tt) else PRet (inr tt)) tt.
End Actions.

#[local] Abbreviation load_m := (load mutexes).
#[local] Abbreviation store_m := (store mutexes with_mutexes).
#[local] Abbreviation load_c := (load conds).
#[local] Abbreviation store_c := (store conds with_conds).

(** ** Mutexes *)

Section Mutex.
Context `{ExecSync}.

Definition set_m_mutex (v : Z) (m : pthread_mutex_t) : pthread_mutex_t := PMutex v (m_kind m) (m_incond m).
Definition set_m_kind (v : Z) (m : pthread_mutex_t) : pthread_mutex_t := PMutex (m_mutex m) v (m_incond m).
Definition set_m_incond (v : Z) (m : pthread_mutex_t) : pthread_mutex_t := PMutex (m_mutex m) (m_kind m) v.

(** [attr]: the kind it asks for. *)
Definition pthread_mutex_init_ (mutex : Z) (attr : option Z) (staticinit : bool) : prog pstate Z :=
  if mutex =? NULL then PRet P_EINVAL else
  _ <~ (match attr with
        | Some kind => store_m mutex (set_m_kind kind)
        | None => if negb staticinit then store_m mutex (set_m_kind PTHREAD_MUTEX_DEFAULT) else PRet tt
        end);
  kind <~ load_m mutex m_kind;
  h <~ call_ (fun _ => AllocMutex (kind =? PTHREAD_MUTEX_RECURSIVE));
  _ <~ store_m mutex (set_m_mutex h);
  _ <~ store_m mutex (set_m_incond 0);
  PRet 0.

Definition pthread_mutex_init (mutex : Z) (attr : option Z) : prog pstate Z := pthread_mutex_init_ mutex attr false.

(** The beginning of lock, trylock and unlock: a mutex with a static initialiser is
    allocated; [None] if it cannot be. *)
Definition mutex_ready (mutex : Z) : prog pstate bool :=
  h <~ load_m mutex m_mutex;
  if h =? NULL then ret <~ pthread_mutex_init_ mutex None true; PRet (ret =? 0) else PRet true.

Definition pthread_mutex_lock (mutex : Z) : prog pstate Z :=
  if mutex =? NULL then PRet P_EINVAL else
  ok <~ mutex_ready mutex;
  if negb ok then PRet P_EINVAL else
  kind <~ load_m mutex m_kind;
  free <~ (if kind =? PTHREAD_MUTEX_ERRORCHECK then
             h <~ load_m mutex m_mutex;
             isLocked <~ call (fun t => MutexAttempt t h);
             if negb isLocked then PRet false else
             h <~ load_m mutex m_mutex;
             _ <~ call (fun t => MutexRelease t h);
             PRet true
           else PRet true);
  if negb free then PRet EDEADLK else
  h <~ load_m mutex m_mutex;
  _ <~ call (fun t => MutexObtain t h);
  PRet 0.

Definition pthread_mutex_trylock (mutex : Z) : prog pstate Z :=
  if mutex =? NULL then PRet P_EINVAL else
  ok <~ mutex_ready mutex;
  if negb ok then PRet P_EINVAL else
  h <~ load_m mutex m_mutex;
  got <~ call (fun t => MutexAttempt t h);
  PRet (if (got : bool) then 0 else EBUSY).

Definition pthread_mutex_unlock (mutex : Z) : prog pstate Z :=
  if mutex =? NULL then PRet P_EINVAL else
  ok <~ mutex_ready mutex;
  if negb ok then PRet P_EINVAL else
  h <~ load_m mutex m_mutex;
  _ <~ call (fun t => MutexRelease t h);
  PRet 0.

Definition pthread_mutex_destroy (mutex : Z) : prog pstate Z :=
  if mutex =? NULL then PRet P_EINVAL else
  h <~ load_m mutex m_mutex;
  if h =? NULL then PRet P_EINVAL else
  h <~ load_m mutex m_mutex;
  got <~ call (fun t => MutexAttempt t h);
  if negb got then PRet EBUSY else
  incond <~ load_m mutex m_incond;
  h <~ load_m mutex m_mutex;
  _ <~ call (fun t => MutexRelease t h);
  if negb (incond =? 0) then PRet EBUSY else
  h <~ load_m mutex m_mutex;
  _ <~ call_unit (fun _ => FreeMutex h);
  _ <~ store_m mutex (fun _ => PMutex 0 0 0);
  PRet 0.
End Mutex.

(** ** Condition variables *)

Section Cond.
Context `{ExecSync}.

Definition set_c_semaphore (v : Z) (c : pthread_cond_t) : pthread_cond_t := PCond v (c_waiters c) (c_condattr c).
Definition set_c_waiters (v : Z) (c : pthread_cond_t) : pthread_cond_t := PCond (c_semaphore c) v (c_condattr c).
Definition set_c_condattr (v : Z) (c : pthread_cond_t) : pthread_cond_t := PCond (c_semaphore c) (c_waiters c) v.

(** A semaphore that exec has made is valid. *)
Definition SemaphoreIsInvalid (sem : Z) : prog pstate bool :=
  if sem =? NULL then PRet true else
  PAct (fun _ σ => match Sync.semas (view (px σ)) !! sem with Some _ => Go false σ | None => Crash end).

Definition pthread_cond_init (cond attr : Z) : prog pstate Z :=
  if cond =? NULL then PRet P_EINVAL else
  _ <~ store_c cond (set_c_condattr attr);
  s <~ call_ (fun _ => AllocSema);
  _ <~ store_c cond (set_c_semaphore s);
  if s =? NULL then PRet P_ENOMEM else
  w <~ call_ (fun _ => malloc SIZEOF_MINLIST);
  _ <~ store_c cond (set_c_waiters w);
  if w =? NULL then
    s <~ load_c cond c_semaphore;
    _ <~ call_unit (fun _ => FreeSema s);
    PRet P_ENOMEM
  else
  _ <~ place lists with_lists w [];
  PRet 0.

Definition pthread_cond_destroy (cond : Z) : prog pstate Z :=
  if cond =? NULL then PRet P_EINVAL else
  s <~ load_c cond c_semaphore;
  invalid <~ SemaphoreIsInvalid s;
  if (invalid : bool) then PRet 0 else
  got <~ call (fun t => AttemptSemaphore t s);
  if negb got then PRet EBUSY else
  w <~ load_c cond c_waiters;
  busy <~ load lists w (fun l => match l with [] => false | _ => true end);
  _ <~ call (fun t => ReleaseSemaphore t s);
  if (busy : bool) then PRet EBUSY else
  _ <~ call_unit (fun _ => FreeSema s);
  _ <~ unplace lists with_lists w;
  _ <~ call_unit (fun _ => free w);
  _ <~ store_c cond (fun _ => PCond 0 0 0);
  PRet 0.

(** No thread is cancelled here. *)
Definition pthread_testcancel : prog pstate unit := call_unit (fun t => SetSignal t SIGBREAKF_CTRL_C 0).

Definition AddTail (cond : Z) (w : CondWaiter) : prog pstate unit :=
  l <~ load_c cond c_waiters; store lists with_lists l (fun ws => ws ++ [w]).
(** The node is in the list of [cond], or in none. *)
Definition Remove (cond : Z) (w : CondWaiter) : prog pstate unit :=
  l <~ load_c cond c_waiters; store lists with_lists l (fun ws => filter (fun x => x ≠ w) ws).

(** [_pthread_cond_timedwait] with no time: its checks. *)
Definition cond_prepare (cond mutex : Z) : prog pstate Z :=
  attr <~ load_c cond c_condattr;
  clock_type <~ (if attr =? NULL then PRet CLOCK_MONOTONIC else load condattrs attr (fun c => c));
  if (cond =? NULL) || (mutex =? NULL) then PRet P_EINVAL else
  if negb (Z.ldiff clock_type KNOWN_CLOCKS =? 0) then PRet P_EINVAL else
  s <~ load_c cond c_semaphore;
  invalid <~ SemaphoreIsInvalid s;
  if (invalid : bool) then _ <~ pthread_cond_init cond NULL; PRet 0 else PRet 0.

Definition cond_alloc_signal : prog pstate Z :=
  signal <~ call_ (fun t => AllocSignal t);
  if signal =? -1 then _ <~ call_unit (fun t => SetSignal t SIGF_COND_FALLBACK 0); PRet SIGB_COND_FALLBACK else PRet signal.

(** The list of waiters, under the semaphore of the condition. *)
Definition with_semaphore (cond : Z) (p : prog pstate unit) : prog pstate unit :=
  s <~ load_c cond c_semaphore;
  _ <~ call (fun t => ObtainSemaphore t s);
  _ <~ p;
  s <~ load_c cond c_semaphore;
  call (fun t => ReleaseSemaphore t s).

Definition add_incond (mutex d : Z) : prog pstate unit :=
  n <~ load_m mutex m_incond; store_m mutex (set_m_incond (s32 (n + d))).

(** Ctrl-C is sent again, for a signal handler. *)
Definition reenable_ctrl_c (sigs : Z) : prog pstate unit :=
  if negb (Z.land sigs SIGBREAKF_CTRL_C =? 0) then
    _ <~ pthread_testcancel; call_unit (fun t => Signal t SIGBREAKF_CTRL_C)
  else PRet tt.

Definition pthread_cond_timedwait_ (cond mutex : Z) : prog pstate Z :=
  err <~ cond_prepare cond mutex;
  if negb (err =? 0) then PRet err else
  task <~ FindTask;
  sigbit <~ cond_alloc_signal;
  _ <~ with_semaphore cond (AddTail cond (Waiter task sigbit));
  _ <~ add_incond mutex 1;
  _ <~ pthread_mutex_unlock mutex;
  sigs <~ call (fun t => Wait t (Z.lor SIGBREAKF_CTRL_C (Z.shiftl 1 sigbit)));
  _ <~ pthread_mutex_lock mutex;
  _ <~ add_incond mutex (-1);
  _ <~ with_semaphore cond (Remove cond (Waiter task sigbit));
  _ <~ (if negb (sigbit =? SIGB_COND_FALLBACK) then call_unit (fun t => FreeSignal t sigbit) else PRet tt);
  _ <~ reenable_ctrl_c sigs;
  PRet 0.
Definition pthread_cond_wait (cond mutex : Z) : prog pstate Z := pthread_cond_timedwait_ cond mutex.

(** The node at a position of the list; the list is held by the semaphore. *)
Definition signal_waiters (cond : Z) (onlyfirst : bool) : prog pstate unit :=
  PIter (fun i : nat =>
    l <~ load_c cond c_waiters;
    w <~ load lists l (fun ws => ws !! i);
    match w with
    | None => PRet (inr tt)
    | Some w =>
        _ <~ call_unit (fun _ => Signal (w_task w) (Z.shiftl 1 (w_sigbit w)));
        PRet (if onlyfirst then inr tt else inl (S i))
    end) O.

Definition pthread_cond_broadcast_ (cond : Z) (onlyfirst : bool) : prog pstate Z :=
  if cond =? NULL then PRet P_EINVAL else
  s <~ load_c cond c_semaphore;
  invalid <~ SemaphoreIsInvalid s;
  _ <~ (if (invalid : bool) then pthread_cond_init cond NULL else PRet 0);
  _ <~ with_semaphore cond (signal_waiters cond onlyfirst);
  PRet 0.
Definition pthread_cond_broadcast (cond : Z) : prog pstate Z := pthread_cond_broadcast_ cond false.
Definition pthread_cond_signal (cond : Z) : prog pstate Z := pthread_cond_broadcast_ cond true.
End Cond.

(** ** Barriers *)

Section Barrier.
Context `{ExecSync}.
#[local] Abbreviation load_b := (load barriers).
#[local] Abbreviation store_b := (store barriers with_barriers).

Definition set_curr_height (v : Z) (b : pthread_barrier_t) : pthread_barrier_t := PBarrier v (total_height b).
Definition set_total_height (v : Z) (b : pthread_barrier_t) : pthread_barrier_t := PBarrier (curr_height b) v.

Definition pthread_barrier_init (barrier : Z) (count : Z) : prog pstate Z :=
  if (barrier =? NULL) || (count =? 0) then PRet P_EINVAL else
  _ <~ store_b barrier (set_curr_height count);
  _ <~ store_b barrier (set_total_height PTHREAD_BARRIER_FLAG);
  _ <~ pthread_cond_init (breeched barrier) NULL;
  _ <~ pthread_mutex_init (barrier_lock barrier) None;
  PRet 0.

Definition wait_while_height (barrier : Z) (test : Z → bool) : prog pstate unit :=
  pwhile (load_b barrier (fun b => test (total_height b)))
         (_ <~ pthread_cond_wait (breeched barrier) (barrier_lock barrier); PRet tt).

Definition pthread_barrier_wait (barrier : Z) : prog pstate Z :=
  if barrier =? NULL then PRet P_EINVAL else
  _ <~ pthread_mutex_lock (barrier_lock barrier);
  _ <~ wait_while_height barrier (fun h => PTHREAD_BARRIER_FLAG <? h);
  h <~ load_b barrier total_height;
  _ <~ (if h =? PTHREAD_BARRIER_FLAG then store_b barrier (set_total_height 0) else PRet tt);
  h <~ load_b barrier total_height;
  _ <~ store_b barrier (set_total_height (u32 (h + 1)));
  full <~ load_b barrier (fun b => total_height b =? curr_height b);
  if (full : bool) then
    h <~ load_b barrier total_height;
    _ <~ store_b barrier (set_total_height (u32 (h + (PTHREAD_BARRIER_FLAG - 1))));
    _ <~ pthread_cond_broadcast (breeched barrier);
    _ <~ pthread_mutex_unlock (barrier_lock barrier);
    PRet PTHREAD_BARRIER_SERIAL_THREAD
  else
    _ <~ wait_while_height barrier (fun h => h <? PTHREAD_BARRIER_FLAG);
    h <~ load_b barrier total_height;
    _ <~ store_b barrier (set_total_height (u32 (h - 1)));
    h <~ load_b barrier total_height;
    _ <~ (if h =? PTHREAD_BARRIER_FLAG then pthread_cond_broadcast (breeched barrier) else PRet 0);
    _ <~ pthread_mutex_unlock (barrier_lock barrier);
    PRet 0.

Definition pthread_barrier_destroy (barrier : Z) : prog pstate Z :=
  if barrier =? NULL then PRet P_EINVAL else
  r <~ pthread_mutex_trylock (barrier_lock barrier);
  if negb (r =? 0) then PRet EBUSY else
  h <~ load_b barrier total_height;
  _ <~ pthread_mutex_unlock (barrier_lock barrier);
  if PTHREAD_BARRIER_FLAG <? h then PRet EBUSY else
  r <~ pthread_cond_destroy (breeched barrier);
  if negb (r =? 0) then PRet EBUSY else
  _ <~ pthread_mutex_destroy (barrier_lock barrier);
  _ <~ store_b barrier (set_total_height 0);
  _ <~ store_b barrier (set_curr_height 0);
  PRet 0.
End Barrier.

(** ** Semaphores *)

Section Semaphore.
Context `{ExecSync}.
#[local] Abbreviation load_s := (load sems).
#[local] Abbreviation store_s := (store sems with_sems).

Definition set_s_value (v : Z) (s : sem_t) : sem_t := Sem v (s_waiters_count s).
Definition set_s_waiters (v : Z) (s : sem_t) : sem_t := Sem (s_value s) v.
Definition add_value (sem d : Z) : prog pstate unit := v <~ load_s sem s_value; store_s sem (set_s_value (s32 (v + d))).
Definition add_waiters (sem d : Z) : prog pstate unit := n <~ load_s sem s_waiters_count; store_s sem (set_s_waiters (s32 (n + d))).
Definition sem_fail (e : Z) : prog pstate Z := _ <~ errno e; PRet (-1).

Definition sem_init (sem value : Z) : prog pstate Z :=
  if (sem =? NULL) || (SEM_VALUE_MAX <? value) then sem_fail P_EINVAL else
  _ <~ store_s sem (set_s_value value);
  _ <~ store_s sem (set_s_waiters 0);
  _ <~ pthread_mutex_init (sem_lock sem) None;
  _ <~ pthread_cond_init (count_nonzero sem) NULL;
  PRet 0.

Definition sem_destroy (sem : Z) : prog pstate Z :=
  if sem =? NULL then sem_fail P_EINVAL else
  r <~ pthread_mutex_trylock (sem_lock sem);
  if negb (r =? 0) then sem_fail EBUSY else
  _ <~ pthread_mutex_unlock (sem_lock sem);
  _ <~ pthread_mutex_destroy (sem_lock sem);
  _ <~ pthread_cond_destroy (count_nonzero sem);
  _ <~ store_s sem (set_s_waiters 0);
  _ <~ store_s sem (set_s_value 0);
  PRet 0.

Definition sem_trywait (sem : Z) : prog pstate Z :=
  if sem =? NULL then sem_fail P_EINVAL else
  _ <~ pthread_mutex_lock (sem_lock sem);
  v <~ load_s sem s_value;
  result <~ (if 0 <? v then _ <~ add_value sem (-1); PRet 0 else PRet EAGAIN);
  _ <~ pthread_mutex_unlock (sem_lock sem);
  if negb (result =? 0) then sem_fail result else PRet 0.

(** [sem_timedwait] with no time. *)
Definition sem_timedwait (sem : Z) : prog pstate Z :=
  if sem =? NULL then sem_fail P_EINVAL else
  _ <~ pthread_mutex_lock (sem_lock sem);
  _ <~ add_waiters sem 1;
  result <~ PIter (fun result : Z =>
    v <~ load_s sem s_value;
    if (v =? 0) && (result =? 0) then
      r <~ pthread_cond_wait (count_nonzero sem) (sem_lock sem); PRet (inl r)
    else PRet (inr result)) 0;
  _ <~ add_waiters sem (-1);
  if negb (result =? 0) then
    _ <~ pthread_mutex_unlock (sem_lock sem);
    sem_fail result
  else
  _ <~ add_value sem (-1);
  _ <~ pthread_mutex_unlock (sem_lock sem);
  PRet 0.
Definition sem_wait (sem : Z) : prog pstate Z := sem_timedwait sem.

Definition sem_post (sem : Z) : prog pstate Z :=
  if sem =? NULL then sem_fail P_EINVAL else
  _ <~ pthread_mutex_lock (sem_lock sem);
  v <~ load_s sem s_value;
  if SEM_VALUE_MAX <=? v then
    _ <~ pthread_mutex_unlock (sem_lock sem);
    sem_fail P_EOVERFLOW
  else
  _ <~ add_value sem 1;
  n <~ load_s sem s_waiters_count;
  _ <~ (if 0 <? n then pthread_cond_signal (count_nonzero sem) else PRet 0);
  _ <~ pthread_mutex_unlock (sem_lock sem);
  PRet 0.

(** The value, for [*sval], if there is a pointer for it. *)
Definition sem_getvalue (sem : Z) (sval : bool) : prog pstate (Z * option Z) :=
  if (sem =? NULL) || negb sval then r <~ sem_fail P_EINVAL; PRet (r, None) else
  r <~ pthread_mutex_trylock (sem_lock sem);
  if r =? 0 then
    incond <~ load mutexes (sem_lock sem) m_incond;
    v <~ (if negb (incond =? 0) then load_s sem (fun s => s32 (- s_waiters_count s)) else load_s sem s_value);
    _ <~ pthread_mutex_unlock (sem_lock sem);
    PRet (0, Some v)
  else
    v <~ load_s sem (fun s => s32 (- s_waiters_count s));
    PRet (0, Some v).
End Semaphore.

(** ** Spin locks, cleanup handlers and [pthread_once] *)

Section Once.
Context `{ExecSync}.

Definition pthread_spin_init (lock : Z) : prog pstate Z :=
  if lock =? NULL then PRet P_EINVAL else
  _ <~ store words with_words lock (fun _ => 0); PRet 0.

Definition test_and_set (lock : Z) : prog pstate Z :=
  PAct (fun _ σ => match words σ !! lock with Some v => Go v (with_words (<[lock := 1]> (words σ)) σ) | None => Crash end).
Definition compare_and_swap_started (once old new : Z) : prog pstate Z :=
  PAct (fun _ σ => match onces σ !! once with
                   | Some o => Go (o_started o) (if o_started o =? old then with_onces (<[once := POnce (o_done o) new]> (onces σ)) σ else σ)
                   | None => Crash
                   end).

(** [sched_yield] lets other threads run, which they may at any time. *)
Definition pthread_spin_lock (lock : Z) : prog pstate Z :=
  if lock =? NULL then PRet P_EINVAL else
  _ <~ pwhile (v <~ test_and_set lock; PRet (negb (v =? 0))) (PRet tt);
  PRet 0.
Definition pthread_spin_trylock (lock : Z) : prog pstate Z :=
  if lock =? NULL then PRet P_EINVAL else
  v <~ test_and_set lock;
  PRet (if negb (v =? 0) then EBUSY else 0).
Definition pthread_spin_unlock (lock : Z) : prog pstate Z :=
  if lock =? NULL then PRet P_EINVAL else
  _ <~ store words with_words lock (fun _ => 0); PRet 0.

(** The handlers of the thread, if it has a [ThreadInfo]. *)
Definition handlers : prog pstate (option (list CleanupHandler)) := PAct (fun t σ => Go (cleanups σ !! t) σ).
Definition set_handlers (l : list CleanupHandler) : prog pstate unit :=
  PAct (fun t σ => Go tt (with_cleanups (<[t := l]> (cleanups σ)) σ)).

Definition pthread_cleanup_push (routine arg : Z) : prog pstate unit :=
  if routine =? NULL then PRet tt else
  handler <~ call_ (fun _ => malloc SIZEOF_CLEANUP);
  if handler =? NULL then PRet tt else
  inf <~ handlers;
  match inf with
  | None => PRet tt
  | Some l => set_handlers (l ++ [Handler handler routine arg])
  end.

(** [run]: the call of a routine with its argument. *)
Definition pthread_cleanup_pop (run : Z → Z → prog pstate unit) (execute : bool) : prog pstate unit :=
  inf <~ handlers;
  match inf with
  | None => PRet tt
  | Some l =>
      match last l with
      | None => PRet tt
      | Some h =>
          _ <~ set_handlers (take (length l - 1) l);
          if execute && negb (h_routine h =? NULL) then
            _ <~ run (h_routine h) (h_arg h); call_unit (fun _ => free (h_addr h))
          else PRet tt
      end
  end.

(** [OnceCleanup] has an address of its own. *)
Definition OnceCleanup_addr : Z := 4.
Definition OnceCleanup (routine arg : Z) : prog pstate unit :=
  if routine =? OnceCleanup_addr then _ <~ pthread_spin_unlock (once_lock arg); PRet tt else PRet tt.

Definition set_done (o : pthread_once_t) : pthread_once_t := POnce 1 (o_started o).
Definition pthread_once (once_control : Z) (init_routine : option (prog pstate unit)) : prog pstate Z :=
  match init_routine with
  | None => PRet P_EINVAL
  | Some init =>
      if once_control =? NULL then PRet P_EINVAL else
      started <~ compare_and_swap_started once_control 0 1;
      if negb (started =? 0) then
        _ <~ pthread_spin_lock (once_lock once_control);
        done <~ load onces once_control o_done;
        _ <~ (if done =? 0 then
                _ <~ pthread_cleanup_push OnceCleanup_addr once_control;
                _ <~ init;
                _ <~ pthread_cleanup_pop OnceCleanup false;
                store onces with_onces once_control set_done
              else PRet tt);
        _ <~ pthread_spin_unlock (once_lock once_control);
        PRet 0
      else PRet 0
  end.
End Once.
