(* ===== verification/PthreadMachine.v ===== *)
(** * A machine for threads

    An exec that satisfies [ExecSync]: its state is the view itself, with the address of
    the next object and the signal bits that tasks have allocated.  The concrete
    schedules run on it. *)

From stdpp Require Import base numbers gmap list relations.
From S2P Require Import Prelude CMem Threads Pthread.
Open Scope Z_scope.
#[local] Set Warnings "-clear-no-such-hyp".

Record machine := Machine { mview : Sync.xview; mnext : Z; mbits : gmap nat Z }.

Definition lift {A : Type} (f : Sync.xview → outcome A Sync.xview) (x : machine) : outcome A machine :=
  match f (mview x) with Go a v => Go a (Machine v (mnext x) (mbits x)) | Stay => Stay | Crash => Crash end.
Definition update (f : Sync.xview → Sync.xview) (x : machine) : machine := Machine (f (mview x)) (mnext x) (mbits x).

Definition new_mutex (r : bool) (x : machine) : Z * machine :=
  if bool_decide (mnext x ≠ NULL ∧ Sync.mutexes (mview x) !! mnext x = None)
  then (mnext x, Machine (Sync.set_mutex (mnext x) (Sync.Mutex r None) (mview x)) (mnext x + 64) (mbits x)) else (NULL, x).
Definition new_sema (x : machine) : Z * machine :=
  if bool_decide (mnext x ≠ NULL ∧ Sync.semas (mview x) !! mnext x = None)
  then (mnext x, Machine (Sync.set_sema (mnext x) None (mview x)) (mnext x + 64) (mbits x)) else (NULL, x).
Definition new_block (n : Z) (x : machine) : Z * machine :=
  if bool_decide (mnext x ≠ NULL ∧ mnext x ∉ Sync.blocks (mview x))
  then (mnext x, Machine (Sync.set_blocks (({[mnext x]} : gset Z) ∪ Sync.blocks (mview x)) (mview x)) (mnext x + 64) (mbits x)) else (NULL, x).
(** The lowest of the bits 16 to 31 that is free. *)
Definition new_signal (t : nat) (x : machine) : Z * machine :=
  let used := default 0 (mbits x !! t) in
  match filter (fun b => Z.testbit used b = false) (seqZ 16 16) with
  | b :: _ => (b, Machine (Sync.set_signals t (Z.ldiff (Sync.signals_of t (mview x)) (Z.shiftl 1 b)) (mview x)) (mnext x) (<[t := Z.lor used (Z.shiftl 1 b)]> (mbits x)))
  | [] => (-1, x)
  end.
Definition free_bit (t : nat) (b : Z) (x : machine) : machine :=
  Machine (mview x) (mnext x) (<[t := Z.ldiff (default 0 (mbits x !! t)) (Z.shiftl 1 b)]> (mbits x)).

Lemma see_lift {A : Type} (f : Sync.xview → outcome A Sync.xview) x : see mview (lift f x) = f (mview x).
Proof. unfold lift, see. by destruct (f (mview x)). Qed.
Lemma new_mutex_law r x h x' : new_mutex r x = (h, x') →
  (h = NULL ∧ mview x' = mview x) ∨ (h ≠ NULL ∧ Sync.mutexes (mview x) !! h = None ∧ mview x' = Sync.set_mutex h (Sync.Mutex r None) (mview x)).
Proof. unfold new_mutex. case_bool_decide; intros [= <- <-]; [right; naive_solver|by left]. Qed.
Lemma new_sema_law x s x' : new_sema x = (s, x') →
  (s = NULL ∧ mview x' = mview x) ∨ (s ≠ NULL ∧ Sync.semas (mview x) !! s = None ∧ mview x' = Sync.set_sema s None (mview x)).
Proof. unfold new_sema. case_bool_decide; intros [= <- <-]; [right; naive_solver|by left]. Qed.
Lemma new_block_law n x a x' : new_block n x = (a, x') →
  (a = NULL ∧ mview x' = mview x) ∨ (a ≠ NULL ∧ (a ∉ Sync.blocks (mview x)) ∧ mview x' = Sync.set_blocks (({[a]} : gset Z) ∪ Sync.blocks (mview x)) (mview x)).
Proof. unfold new_block. case_bool_decide; intros [= <- <-]; [right; naive_solver|by left]. Qed.
Lemma new_signal_law t x b x' : new_signal t x = (b, x') →
  (b = -1 ∨ 0 <= b < 32) ∧ (mview x' = mview x ∨ mview x' = Sync.set_signals t (Z.ldiff (Sync.signals_of t (mview x)) (Z.shiftl 1 b)) (mview x)).
Proof.
  unfold new_signal. destruct (filter _ _) as [|c l] eqn:E; intros [= <- <-]; [auto|]. split; [right|by right].
  assert (c ∈ filter (fun b => Z.testbit (default 0 (mbits x !! t)) b = false) (seqZ 16 16)) as Hc by (rewrite E; left).
  apply list_elem_of_filter in Hc as [_ Hc]. apply elem_of_seqZ in Hc. lia.
Qed.

#[export] Instance machine_sync : ExecSync := {|
  exec := machine; view := mview;
  MutexObtain t h := lift (Sync.obtain_mutex t h); MutexAttempt t h := lift (Sync.attempt_mutex t h);
  MutexRelease t h := lift (Sync.release_mutex t h); ObtainSemaphore t s := lift (Sync.obtain_sema t s);
  ReleaseSemaphore t s := lift (Sync.release_sema t s); Signal u m := update (Sync.signal u m); Wait t m := lift (Sync.wait t m);
  SetSignal t n m := update (Sync.set_signal t n m); AllocMutex := new_mutex; AllocSema := new_sema;
  AttemptSemaphore t s := lift (Sync.attempt_sema t s); FreeMutex h := update (Sync.free_mutex h); FreeSema s := update (Sync.free_sema s);
  malloc := new_block; free a := update (fun v => Sync.set_blocks (Sync.blocks v ∖ {[a]}) v); AllocSignal := new_signal; FreeSignal := free_bit;
  MutexObtain_law t h x := see_lift _ x; MutexAttempt_law t h x := see_lift _ x; MutexRelease_law t h x := see_lift _ x;
  ObtainSemaphore_law t s x := see_lift _ x; ReleaseSemaphore_law t s x := see_lift _ x; Signal_law u m x := eq_refl;
  Wait_law t m x := see_lift _ x; SetSignal_law t n m x := eq_refl; AllocMutex_law := new_mutex_law; AllocSema_law := new_sema_law;
  AttemptSemaphore_law t s x := see_lift _ x; FreeMutex_law h x := eq_refl; FreeSema_law s x := eq_refl; malloc_law := new_block_law;
  free_law a x := eq_refl; AllocSignal_law := new_signal_law; FreeSignal_law t b x := eq_refl
|}.

(** ** Schedules *)

(** The threads in turn, one step each; those that wait are passed over. *)
Fixpoint round_robin {A : Set} (fuel t : nat) (ρ : pool (S := pstate) A) : pool (S := pstate) A :=
  match fuel with
  | O => ρ
  | S fuel =>
      let next := if decide (S t < length ρ.2)%nat then S t else O in
      match ρ.2 !! t with
      | Some p => match pstep t ρ.1 p with Go p' τ => round_robin fuel next (τ, <[t := p']> ρ.2) | _ => round_robin fuel next ρ end
      | None => ρ
      end
  end.
Lemma round_robin_reachable {A : Set} env fuel : ∀ t (ρ : pool (S := pstate) A), reachable env ρ (round_robin fuel t ρ).
Proof.
  induction fuel as [|fuel IH]; intros t [σ ps]; [constructor|]. cbn. destruct (ps !! t) as [p|] eqn:Hp; [|constructor].
  destruct (pstep t σ p) as [p' τ| |] eqn:Hs; [|apply IH..]. eapply rtc_l; [by eapply step_thread|apply IH].
Qed.

(** One thread until it waits or ends; then the next of the list. *)
Fixpoint run_on {A : Set} (fuel t : nat) (ρ : pool (S := pstate) A) : pool (S := pstate) A :=
  match fuel with
  | O => ρ
  | S fuel =>
      match ρ.2 !! t with
      | Some p => match pstep t ρ.1 p with Go p' τ => run_on fuel t (τ, <[t := p']> ρ.2) | _ => ρ end
      | None => ρ
      end
  end.
Definition drive {A : Set} (fuel : nat) (l : list nat) (ρ : pool (S := pstate) A) : pool (S := pstate) A := foldl (fun ρ t => run_on fuel t ρ) ρ l.
Lemma run_on_reachable {A : Set} env fuel t : ∀ ρ : pool (S := pstate) A, reachable env ρ (run_on fuel t ρ).
Proof.
  induction fuel as [|fuel IH]; intros [σ ps]; [constructor|]. cbn. destruct (ps !! t) as [p|] eqn:Hp; [|constructor].
  destruct (pstep t σ p) as [p' τ| |] eqn:Hs; [|constructor..]. eapply rtc_l; [by eapply step_thread|apply IH].
Qed.
Lemma drive_reachable {A : Set} env fuel l : ∀ ρ : pool (S := pstate) A, reachable env ρ (drive fuel l ρ).
Proof.
  induction l as [|t l IH]; intros ρ; [constructor|]. etransitivity; [apply (run_on_reachable env fuel t)|apply IH].
Qed.

(** An empty state with raw objects for a barrier, a semaphore and a once control. *)
Definition raw_state : pstate :=
  let raw := PMutex 0 0 0 in
  PState (Machine (Sync.XView ∅ ∅ ∅ ∅) 4096 ∅)
    {[ 124 := raw; 224 := raw ]} {[ 108 := PCond 0 0 0; 240 := PCond 0 0 0 ]} ∅ ∅
    {[ 100 := PBarrier 0 0 ]} {[ 200 := Sem 0 0 ]} {[ 308 := 0 ]} {[ 300 := POnce 0 (-1) ]} {[ 0%nat := [] ]} 0 [].
(** The state after a call that a thread makes alone. *)
Definition after {A : Set} (p : prog pstate A) (σ : pstate) : pstate := match run_alone 200 0 σ p with Some (_, τ) => τ | None => σ end.
