(* ===== verification/PthreadMonitor.v ===== *)
(** * Monitors

    The objects of pthread/ that are made of a mutex, a condition variable and some
    data.  The rules here say what the calls of the mutex and of the condition variable
    do for a thread: who has the mutex knows the data, and a thread that sleeps on the
    condition without a signal sleeps for a reason that still holds, unless the thread
    that has the mutex is about to signal it. *)

From stdpp Require Import base numbers gmap list.
From S2P Require Import Prelude CMem Threads Pthread.
Open Scope Z_scope.
#[local] Set Warnings "-clear-no-such-hyp".

(** What the thread that has the mutex knows: the data, the waiters, whether it has the
    semaphore of the condition, and from which waiter on it has still to signal. *)
Record hold (D : Type) := Hold { h_d : D; h_w : list CondWaiter; h_sem : bool; h_debt : option nat }.
Arguments Hold {D}. Arguments h_d {D}. Arguments h_w {D}. Arguments h_sem {D}. Arguments h_debt {D}.
(** A thread: the mutex, its place among the waiters (its signal, and whether it has
    woken), and how far its call is. *)
Record ghost (D Ph : Type) := Ghost { own : option (hold D); que : option (Z * bool); ph : Ph }.
Arguments Ghost {D Ph}. Arguments own {D Ph}. Arguments que {D Ph}. Arguments ph {D Ph}.

Lemma insert_cases {G} (γ : list G) t g g' u h :
  γ !! t = Some g → <[t := g']> γ !! u = Some h → (u = t ∧ h = g') ∨ (u ≠ t ∧ γ !! u = Some h).
Proof.
  intros Ht Hu. destruct (decide (u = t)) as [->|Hne].
  - rewrite list_lookup_insert_eq in Hu by by eapply lookup_lt_Some. left. naive_solver.
  - rewrite list_lookup_insert_ne in Hu by done. by right.
Qed.
Lemma insert_same {G} (γ : list G) t g g' : γ !! t = Some g → <[t := g']> γ !! t = Some g'.
Proof. intros Ht. apply list_lookup_insert_eq. by eapply lookup_lt_Some. Qed.
Lemma insert_other {G} (γ : list G) t u g' : u ≠ t → <[t := g']> γ !! u = γ !! u.
Proof. intros. by apply list_lookup_insert_ne. Qed.

(** ** The invariant *)

Section Ghosts.
Context {D Ph : Type} (waitc : Ph → D → Prop) (locked : Ph → Prop).
Implicit Types (γ : list (ghost D Ph)) (g : ghost D Ph).

Definition owner_ok (mo so : option (nat * Z)) (d : D) (W : list CondWaiter) γ : Prop :=
  (∀ t g, γ !! t = Some g →
     match own g with
     | Some h => mo = Some (t, 1) ∧ h_d h = d ∧ h_w h = W ∧ so = (if h_sem h then Some (t, 1) else None)
     | None => ∀ c, mo ≠ Some (t, c)
     end) ∧
  (mo = None → so = None) ∧ (∀ t c, mo = Some (t, c) → is_Some (γ !! t)).

Definition queue_ok (W : list CondWaiter) γ : Prop :=
  NoDup (w_task <$> W) ∧ (∀ t b, Waiter t b ∈ W ↔ ∃ g p, γ !! t = Some g ∧ que g = Some (b, p)) ∧ (∀ w, w ∈ W → 0 <= w_sigbit w).

(** The mutex is held by a thread that has to signal from a position up to [i] on. *)
Definition debt_upto (i : nat) γ : Prop :=
  ∃ u g h k, γ !! u = Some g ∧ own g = Some h ∧ h_debt h = Some k ∧ (k ≤ i)%nat.

Definition woken (sig : nat → Z) (d : D) (W : list CondWaiter) γ : Prop :=
  ∀ i t b g, W !! i = Some (Waiter t b) → γ !! t = Some g → que g = Some (b, false) → Z.testbit (sig t) b = false →
  waitc (ph g) d ∨ debt_upto i γ.

(** Parts of a call that are made with the mutex only. *)
Definition locked_ok γ : Prop := ∀ t g, γ !! t = Some g → locked (ph g) → is_Some (own g).

Record ghost_ok (sig : nat → Z) d mo so W γ : Prop := GhostOk {
  gk_owner : owner_ok mo so d W γ; gk_queue : queue_ok W γ; gk_woken : woken sig d W γ; gk_locked : locked_ok γ
}.

Definition set_own (o : option (hold D)) g : ghost D Ph := Ghost o (que g) (ph g).
Definition set_que (q : option (Z * bool)) g : ghost D Ph := Ghost (own g) q (ph g).
Definition set_ph (p : Ph) g : ghost D Ph := Ghost (own g) (que g) p.

(** The holder of the mutex is the only thread with a [hold]. *)
Lemma owner_unique mo so d W γ t g h u gu hu :
  owner_ok mo so d W γ → γ !! t = Some g → own g = Some h → γ !! u = Some gu → own gu = Some hu → u = t.
Proof.
  intros (H & _ & _) Ht Hg Hu Hgu. pose proof (H t g Ht) as H1. pose proof (H u gu Hu) as H2. rewrite Hg in H1. rewrite Hgu in H2. naive_solver.
Qed.
Lemma owner_held mo so d W γ t g h :
  owner_ok mo so d W γ → γ !! t = Some g → own g = Some h →
  mo = Some (t, 1) ∧ h_d h = d ∧ h_w h = W ∧ so = (if h_sem h then Some (t, 1) else None).
Proof. intros (H & _ & _) Ht Hg. pose proof (H t g Ht) as H1. by rewrite Hg in H1. Qed.

Lemma locked_step γ t g g' : locked_ok γ → γ !! t = Some g → (locked (ph g') → is_Some (own g')) → locked_ok (<[t := g']> γ).
Proof. intros H Ht Hl u gu Hu. apply (insert_cases _ _ _ _ _ _ Ht) in Hu as [[-> ->]|[Hne Hu]]; [done|by eapply H]. Qed.

(** Only the queue entries of a thread count in [queue_ok]. *)
Lemma queue_same W γ t g g' : γ !! t = Some g → que g' = que g → queue_ok W γ → queue_ok W (<[t := g']> γ).
Proof.
  intros Ht Hq (H1 & H2 & H3). split; [done|split; [|done]]. intros u b. rewrite H2. destruct (decide (u = t)) as [->|Hne].
  - rewrite (insert_same _ _ _ _ Ht). split; intros (x & p & Hx & Hp); simplify_eq; [exists g', p|exists g, p]; by split; [|congruence].
  - by rewrite insert_other.
Qed.

(** A thread changes its [hold], with the state of the mutex, the semaphore and the data. *)
Lemma owner_hold mo so d mo' so' d' W W' γ t g g' h' :
  owner_ok mo so d W γ → γ !! t = Some g → (mo = None ∨ ∃ h, own g = Some h) → own g' = Some h' →
  mo' = Some (t, 1) → h_d h' = d' → h_w h' = W' → so' = (if h_sem h' then Some (t, 1) else None) →
  owner_ok mo' so' d' W' (<[t := g']> γ).
Proof.
  intros HO Ht Hm Hg' -> Hd' HW' Hs'. pose proof HO as (H1 & H2 & H3). split; [|split; [done|]].
  - intros u gu Hu. apply (insert_cases _ _ _ _ _ _ Ht) in Hu as [[-> ->]|[Hne Hu]]; [by rewrite Hg'|].
    destruct (own gu) as [hu|] eqn:Eu; [|intros c [= -> _]; done]. exfalso. destruct Hm as [->|[h Hh]].
    + pose proof (H1 u gu Hu) as Hx. rewrite Eu in Hx. naive_solver.
    + apply Hne. by eapply owner_unique.
  - intros u c [= <- _]. eexists. by eapply insert_same.
Qed.

(** The mutex is released. *)
Lemma owner_release mo so d W γ t g g' h :
  owner_ok mo so d W γ → γ !! t = Some g → own g = Some h → own g' = None → owner_ok None None d W (<[t := g']> γ).
Proof.
  intros HO Ht Hg Hg'. split; [|done]. intros u gu Hu. apply (insert_cases _ _ _ _ _ _ Ht) in Hu as [[-> ->]|[Hne Hu]]; [by rewrite Hg'|].
  destruct (own gu) eqn:Eu; [|done]. exfalso. apply Hne. by eapply owner_unique.
Qed.

(** A thread keeps its [hold]. *)
Lemma owner_keep mo so d W γ t g g' : owner_ok mo so d W γ → γ !! t = Some g → own g' = own g → owner_ok mo so d W (<[t := g']> γ).
Proof.
  intros (H1 & H2 & H3) Ht Hg. split; [|split; [done|]].
  - intros u gu Hu. apply (insert_cases _ _ _ _ _ _ Ht) in Hu as [[-> ->]|[Hne Hu]]; [rewrite Hg|]; by apply H1.
  - intros u c Hc. destruct (decide (u = t)) as [->|Hne]; [eexists; by eapply insert_same|]. rewrite insert_other by done. by eapply H3.
Qed.

Lemma debt_keep i γ t g g' : γ !! t = Some g → own g' = own g → debt_upto i γ → debt_upto i (<[t := g']> γ).
Proof.
  intros Ht Hg (u & gu & h & k & Hu & Ho & Hd & Hk). destruct (decide (u = t)) as [->|Hne].
  - simplify_eq. exists t, g', h, k. rewrite (insert_same _ _ _ _ Ht). by rewrite Hg.
  - exists u, gu, h, k. by rewrite insert_other.
Qed.
Lemma debt_of i mo so d W γ t g h : owner_ok mo so d W γ → γ !! t = Some g → own g = Some h → debt_upto i γ → ∃ k, h_debt h = Some k ∧ (k ≤ i)%nat.
Proof.
  intros HO Ht Hg (u & gu & hu & k & Hu & Ho & Hd & Hk). exists k. assert (u = t) as -> by by eapply owner_unique. by simplify_eq.
Qed.
Lemma debt_none i mo so d W γ : owner_ok mo so d W γ → mo = None → ~ debt_upto i γ.
Proof. intros (H & _ & _) -> (u & gu & hu & k & Hu & Ho & Hd & Hk). pose proof (H u gu Hu) as Hx. rewrite Ho in Hx. naive_solver. Qed.

(** ** The steps on ghosts *)

Lemma ok_acquire sig d so W γ t g :
  ghost_ok sig d None so W γ → γ !! t = Some g → ghost_ok sig d (Some (t, 1)) None W (<[t := set_own (Some (Hold d W false None)) g]> γ).
Proof.
  intros [HO HQ HW HL] Ht. split; [eapply owner_hold; eauto|by eapply queue_same| |by eapply locked_step].
  intros i u b gu Hi Hu Hq Hs. left. apply (insert_cases _ _ _ _ _ _ Ht) in Hu as [[-> ->]|[Hne Hu]].
  - destruct (HW i t b g Hi Ht Hq Hs) as [|Hd]; [done|]. exfalso. by eapply debt_none.
  - destruct (HW i u b gu Hi Hu Hq Hs) as [|Hd]; [done|]. exfalso. by eapply debt_none.
Qed.

(** While a thread that owes nothing has the mutex, every sleeper has its reason. *)
Lemma woken_reason sig d mo so W γ t g h i u b gu :
  ghost_ok sig d mo so W γ → γ !! t = Some g → own g = Some h → h_debt h = None →
  W !! i = Some (Waiter u b) → γ !! u = Some gu → que gu = Some (b, false) → Z.testbit (sig u) b = false → waitc (ph gu) d.
Proof.
  intros [HO HQ HW HL] Ht Hg Hd Hi Hu Hq Hs. destruct (HW i u b gu Hi Hu Hq Hs) as [|Hx]; [done|].
  destruct (debt_of i mo so d W γ t g h HO Ht Hg Hx) as (k & Hk & _). congruence.
Qed.

Lemma ok_release sig d mo so W γ t g h :
  ghost_ok sig d mo so W γ → γ !! t = Some g → own g = Some h → h_debt h = None → ~ locked (ph g) →
  ghost_ok sig d None None W (<[t := set_own None g]> γ).
Proof.
  intros HG Ht Hg Hd Hl. pose proof HG as [HO HQ HW HL]. split; [by eapply owner_release|by eapply queue_same| |by eapply locked_step].
  intros i u b gu Hi Hu Hq Hs. left. apply (insert_cases _ _ _ _ _ _ Ht) in Hu as [[-> ->]|[Hne Hu]].
  - by apply (woken_reason sig d mo so W γ t g h i t b g).
  - by apply (woken_reason sig d mo so W γ t g h i u b gu).
Qed.

(** The holder changes what it holds, and the signals of others. *)
Lemma ok_hold sig sig' d d' mo so W γ t g g' h h' :
  ghost_ok sig d mo so W γ → γ !! t = Some g → own g = Some h → own g' = Some h' → que g' = que g → (∀ b, que g ≠ Some (b, false)) ∨ ph g' = ph g →
  h_d h' = d' → h_w h' = W →
  (∀ j u b p, W !! j = Some (Waiter u b) → Z.testbit (sig' u) b = false →
     Z.testbit (sig u) b = false ∧
     (waitc p d ∨ (∃ k, h_debt h = Some k ∧ (k ≤ j)%nat) → waitc p d' ∨ (∃ k, h_debt h' = Some k ∧ (k ≤ j)%nat))) →
  ghost_ok sig' d' mo (if h_sem h' then Some (t, 1) else None) W (<[t := g']> γ).
Proof.
  intros [HO HQ HW HL] Ht Hg Hg' Hq Hn Hd' Hw' Hs.
  split; [eapply owner_hold; eauto; by eapply owner_held|by eapply queue_same| |eapply locked_step; eauto].
  intros i u b gu Hi Hu Hqu Hsu. assert (∃ gu', γ !! u = Some gu' ∧ que gu' = Some (b, false) ∧ ph gu' = ph gu) as (gu' & Hu' & Hqu' & Hp).
  { apply (insert_cases _ _ _ _ _ _ Ht) in Hu as [[-> ->]|[Hne Hu]]; [|by exists gu]. rewrite Hq in Hqu. destruct Hn as [Hn|Hn]; [by apply Hn in Hqu|by exists g]. }
  destruct (Hs i u b (ph gu) Hi Hsu) as [Hs1 Hs2]. rewrite <- Hp in *. destruct Hs2 as [Hw|(k & Hk & Hki)].
  - destruct (HW i u b gu' Hi Hu' Hqu' Hs1) as [|Hx]; [by left|]. right. exact (debt_of i mo so d W γ t g h HO Ht Hg Hx).
  - by left.
  - right. exists t, g', h', k. by rewrite (insert_same _ _ _ _ Ht).
Qed.

Lemma queue_absent W γ t g : queue_ok W γ → γ !! t = Some g → que g = None → t ∉ w_task <$> W.
Proof.
  intros (H1 & H2 & H3) Ht Hq Hin. apply list_elem_of_fmap in Hin as ([u b] & -> & Hin). cbn in *. apply H2 in Hin as (x & p & Hx & Hp). congruence.
Qed.

Lemma queue_push W γ t g g' b p :
  queue_ok W γ → γ !! t = Some g → que g = None → que g' = Some (b, p) → 0 <= b → queue_ok (W ++ [Waiter t b]) (<[t := g']> γ).
Proof.
  intros HQ Ht Hq Hq' Hb. pose proof HQ as (H1 & H2 & H3). split; [|split].
  - rewrite fmap_app, NoDup_app. split; [done|split; [|apply NoDup_singleton]]. intros x Hx Hy. apply list_elem_of_singleton in Hy as ->. by eapply queue_absent.
  - intros u c. rewrite elem_of_app, list_elem_of_singleton. destruct (decide (u = t)) as [->|Hne].
    + rewrite (insert_same _ _ _ _ Ht). split.
      * intros [Hin|[= ->]]; [|eauto]. apply H2 in Hin as (x & q & Hx & Hp). congruence.
      * intros (x & q & [= <-] & Hp). right. congruence.
    + rewrite insert_other, H2 by done. naive_solver.
  - intros w [Hw| ->%list_elem_of_singleton]%elem_of_app; [auto|done].
Qed.

Lemma queue_pop W γ t g g' b p :
  queue_ok W γ → γ !! t = Some g → que g = Some (b, p) → que g' = None → queue_ok (filter (fun x => x ≠ Waiter t b) W) (<[t := g']> γ).
Proof.
  intros HQ Ht Hq Hq'. pose proof HQ as (H1 & H2 & H3). split; [|split].
  - eapply sublist_NoDup; [exact H1|]. apply fmap_sublist, sublist_filter.
  - intros u c. rewrite list_elem_of_filter, H2. destruct (decide (u = t)) as [->|Hne].
    + rewrite (insert_same _ _ _ _ Ht). split; [intros (Hx & x & q & Hg & Hp)|intros (x & q & Hg & Hp)]; simplify_eq.
    + rewrite insert_other by done. naive_solver.
  - intros w [_ Hw]%list_elem_of_filter. auto.
Qed.

(** The holder goes to the end of the waiters, for a reason. *)
Lemma ok_enqueue sig d mo so W γ t g h b :
  ghost_ok sig d mo so W γ → γ !! t = Some g → own g = Some h → h_debt h = None → que g = None → 0 <= b → waitc (ph g) d →
  let W' := W ++ [Waiter t b] in
  ghost_ok sig d mo so W' (<[t := set_que (Some (b, false)) (set_own (Some (Hold d W' (h_sem h) None)) g)]> γ).
Proof.
  intros HG Ht Hg Hd Hq Hb Hw W'. pose proof HG as [HO HQ HW HL]. destruct (owner_held _ _ _ _ _ _ _ _ HO Ht Hg) as (Hmo & _ & _ & Hso).
  split; [eapply owner_hold; eauto|by eapply queue_push| |eapply locked_step; eauto].
  intros i u c gu Hi Hu Hqu Hsu. left. apply (insert_cases _ _ _ _ _ _ Ht) in Hu as [[-> ->]|[Hne Hu]]; [done|].
  apply lookup_app_Some in Hi as [Hi|[_ Hi]]; [by apply (woken_reason sig d mo so W γ t g h i u c gu)|].
  apply list_lookup_singleton_Some in Hi as [_ [= -> ->]]. done.
Qed.

(** The holder, awake, leaves the waiters. *)
Lemma ok_dequeue sig d mo so W γ t g h b :
  ghost_ok sig d mo so W γ → γ !! t = Some g → own g = Some h → h_debt h = None → que g = Some (b, true) →
  let W' := filter (fun x => x ≠ Waiter t b) W in
  ghost_ok sig d mo so W' (<[t := set_que None (set_own (Some (Hold d W' (h_sem h) None)) g)]> γ).
Proof.
  intros HG Ht Hg Hd Hq W'. pose proof HG as [HO HQ HW HL]. destruct (owner_held _ _ _ _ _ _ _ _ HO Ht Hg) as (Hmo & _ & _ & Hso).
  split; [eapply owner_hold; eauto|by eapply queue_pop| |eapply locked_step; eauto].
  intros i u c gu Hi Hu Hqu Hsu. left. apply (insert_cases _ _ _ _ _ _ Ht) in Hu as [[-> ->]|[Hne Hu]]; [done|].
  apply list_elem_of_lookup_2, list_elem_of_filter in Hi as [_ (j & Hj)%list_elem_of_lookup]. by apply (woken_reason sig d mo so W γ t g h j u c gu).
Qed.

(** A thread wakes up; its own signals change. *)
Lemma ok_woke sig sig' d mo so W γ t g b p :
  ghost_ok sig d mo so W γ → γ !! t = Some g → que g = Some (b, p) → (∀ u, u ≠ t → sig' u = sig u) →
  ghost_ok sig' d mo so W (<[t := set_que (Some (b, true)) g]> γ).
Proof.
  intros [HO HQ HW HL] Ht Hq Hs. split; [by eapply owner_keep| | |eapply locked_step; [done..|exact (HL t g Ht)]].
  - destruct HQ as (H1 & H2 & H3). split; [done|split; [|done]]. intros u c. rewrite H2. destruct (decide (u = t)) as [->|Hne].
    + rewrite (insert_same _ _ _ _ Ht). split; intros (x & q & Hx & Hp); simplify_eq/=; eauto.
    + by rewrite insert_other.
  - intros i u c gu Hi Hu Hqu Hsu. apply (insert_cases _ _ _ _ _ _ Ht) in Hu as [[-> ->]|[Hne Hu]]; [done|]. rewrite Hs in Hsu by done.
    destruct (HW i u c gu Hi Hu Hqu Hsu) as [|Hd]; [by left|right]. by eapply debt_keep.
Qed.

(** Signals change, and no sleeper loses one. *)
Lemma ok_signals sig sig' d mo so W γ :
  ghost_ok sig d mo so W γ →
  (∀ u g b, γ !! u = Some g → que g = Some (b, false) → Z.testbit (sig' u) b = false → Z.testbit (sig u) b = false) → ghost_ok sig' d mo so W γ.
Proof. intros [HO HQ HW HL] Hs. split; [done..| |done]. intros i u b g Hi Hu Hq Hb. eapply HW; eauto. Qed.
End Ghosts.
