(* ===== verification/PthreadRules.v ===== *)
(** * Rules for the calls of a monitor

    What locking, unlocking, waiting and broadcasting do for a thread, proved once for
    the mutex at [L] and the condition variable at [C]; the data and their invariant
    are those of the object that uses them. *)

From stdpp Require Import base numbers gmap list.
From S2P Require Import Prelude CMem Threads Pthread PthreadMonitor.
Open Scope Z_scope.
#[local] Set Warnings "-clear-no-such-hyp".

(** The objects of a monitor: where they are, and what exec knows them by. *)
Record places := Places { p_mutex : Z; p_cond : Z; p_handle : Z; p_sema : Z; p_list : Z }.
Record placed (P : places) : Prop := Placed {
  pl_mutex : p_mutex P ≠ NULL; pl_cond : p_cond P ≠ NULL; pl_handle : p_handle P ≠ NULL; pl_sema : p_sema P ≠ NULL
}.

Section Rules.
Context `{ExecSync} {D Ph : Type} (P : places) (HP : placed P).
Context (dat : gmap Z pthread_barrier_t → gmap Z sem_t → option D) (J : D → list event → list Ph → Prop) (waitc : Ph → D → Prop) (locked : Ph → Prop).
#[local] Abbreviation ghost := (ghost D Ph).
#[local] Abbreviation ghost_ok := (ghost_ok waitc locked).
#[local] Abbreviation sigs σ := (fun t => Sync.signals_of t (view (px σ))).

Definition objects_ok (σ : pstate) (mo so : option (nat * Z)) (W : list CondWaiter) : Prop :=
  (∃ inc, mutexes σ !! p_mutex P = Some (PMutex (p_handle P) PTHREAD_MUTEX_DEFAULT inc)) ∧
  conds σ !! p_cond P = Some (PCond (p_sema P) (p_list P) NULL) ∧ lists σ !! p_list P = Some W ∧
  Sync.mutexes (view (px σ)) !! p_handle P = Some (Sync.Mutex false mo) ∧ Sync.semas (view (px σ)) !! p_sema P = Some so.

Record Inv (σ : pstate) (γ : list ghost) : Prop := MkInv {
  i_all : ∃ d mo so W, objects_ok σ mo so W ∧ dat (barriers σ) (sems σ) = Some d ∧
    ghost_ok (sigs σ) d mo so W γ ∧ J d (events σ) (ph <$> γ)
}.

(** A thread waits for the mutex, or sleeps. *)
Definition waiting (t : nat) (σ : pstate) (γ : list ghost) : Prop :=
  ∃ g, γ !! t = Some g ∧ own g = None ∧
    ((∃ u gu, γ !! u = Some gu ∧ is_Some (own gu)) ∨
     (∃ b, que g = Some (b, false) ∧ Z.testbit (sigs σ t) b = false)).

#[local] Abbreviation safe := (safe Inv waiting).

Lemma phases_same (γ : list ghost) t g g' : γ !! t = Some g → ph g' = ph g → ph <$> <[t := g']> γ = ph <$> γ.
Proof. intros Ht Hp. rewrite list_fmap_insert, Hp. apply list_insert_id. by rewrite list_lookup_fmap, Ht. Qed.

(** ** Actions *)

(** A call of exec that changes what exec knows from [v] to [w]. *)
Lemma safe_call {A : Set} n t (f : nat → exec → outcome A exec) (F : Sync.xview → outcome A Sync.xview) g Q :
  (∀ x, see view (f t x) = F (view x)) →
  (∀ σ γ, Inv σ γ → γ !! t = Some g →
     match F (view (px σ)) with
     | Go a w => ∃ g', (∀ x, view x = w → Inv (with_px x σ) (<[t := g']> γ)) ∧ Q a g'
     | Stay => waiting t σ γ
     | Crash => False
     end) →
  safe n t (call f) g Q.
Proof.
  intros HF Hs. apply safe_act. intros σ γ HI Hg. specialize (Hs σ γ HI Hg). rewrite <- HF in Hs.
  destruct (f t (px σ)) as [a x| |]; [|done..]. destruct Hs as (g' & H1 & H2). exists g'. split; [by apply H1|done].
Qed.

Lemma safe_load_m {B : Set} n t (f : pthread_mutex_t → B) g Q :
  (∀ inc, Q (f (PMutex (p_handle P) PTHREAD_MUTEX_DEFAULT inc)) g) → safe n t (load mutexes (p_mutex P) f) g Q.
Proof.
  intros HQ. apply safe_act. intros σ γ HI Hg. pose proof HI as [(d & mo & so & W & ((inc & Hm) & _) & _)]. rewrite Hm.
  exists g. by rewrite list_insert_id.
Qed.
Lemma safe_load_c {B : Set} n t (f : pthread_cond_t → B) g (Q : B → ghost → Prop) :
  Q (f (PCond (p_sema P) (p_list P) NULL)) g → safe n t (load conds (p_cond P) f) g Q.
Proof.
  intros HQ. apply safe_act. intros σ γ HI Hg. pose proof HI as [(d & mo & so & W & (_ & Hc & _) & _)]. rewrite Hc.
  exists g. by rewrite list_insert_id.
Qed.
Lemma safe_incond n t v g Q : Q tt g → safe n t (store mutexes with_mutexes (p_mutex P) (set_m_incond v)) g Q.
Proof.
  intros HQ. apply safe_act. intros σ γ HI Hg. pose proof HI as [(d & mo & so & W & ((inc & Hm) & Ho) & Hd & HG & HJ)]. rewrite Hm.
  exists g. rewrite list_insert_id by done. split; [|done]. split. exists d, mo, so, W. split; [|done].
  split; [|done]. exists v. by cbn; rewrite lookup_insert_eq.
Qed.
Lemma safe_add_incond n t v g Q : Q tt g → safe n t (add_incond (p_mutex P) v) g Q.
Proof. intros HQ. apply safe_bind, safe_load_m. intros inc. by apply safe_incond. Qed.
Lemma safe_valid n t g Q : Q false g → safe n t (SemaphoreIsInvalid (p_sema P)) g Q.
Proof.
  intros HQ. unfold SemaphoreIsInvalid. destruct HP as [_ _ _ Hs]. apply Z.eqb_neq in Hs. rewrite Hs. apply safe_act. intros σ γ HI Hg.
  pose proof HI as [(d & mo & so & W & (_ & _ & _ & _ & Hse) & _)]. rewrite Hse. exists g. by rewrite list_insert_id.
Qed.
Lemma safe_task n t g Q : Q t g → safe n t FindTask g Q.
Proof. intros HQ. apply safe_act. intros σ γ HI Hg. exists g. by rewrite list_insert_id. Qed.

(** Calls that change signals only, and take none from a sleeper. *)
Lemma signals_inv σ γ x :
  Inv σ γ → Sync.mutexes (view x) = Sync.mutexes (view (px σ)) → Sync.semas (view x) = Sync.semas (view (px σ)) →
  (∀ u g b, γ !! u = Some g → que g = Some (b, false) → Z.testbit (Sync.signals_of u (view x)) b = false → Z.testbit (sigs σ u) b = false) →
  Inv (with_px x σ) γ.
Proof.
  intros [(d & mo & so & W & (Hm & Hc & Hl & Hmo & Hso) & Hd & HG & HJ)] E1 E2 Hs. split. exists d, mo, so, W.
  split; [|split; [done|split; [|done]]]; [|by eapply ok_signals]. unfold objects_ok. cbn. rewrite E1, E2. done.
Qed.

Lemma signals_of_set t u m v : Sync.signals_of u (Sync.set_signals t m v) = if decide (u = t) then m else Sync.signals_of u v.
Proof.
  unfold Sync.signals_of, Sync.set_signals. cbn. destruct (decide (u = t)) as [->|Hne]; [by rewrite lookup_insert_eq|by rewrite lookup_insert_ne].
Qed.
Lemma signal_keeps u t m v b : Z.testbit (Sync.signals_of u (Sync.signal t m v)) b = false → Z.testbit (Sync.signals_of u v) b = false.
Proof.
  unfold Sync.signal. rewrite signals_of_set. destruct (decide (u = t)) as [->|]; [|done]. rewrite Z.lor_spec. by destruct (Z.testbit (Sync.signals_of t v) b).
Qed.
Lemma set_signal_zero u t m v : Sync.signals_of u (Sync.set_signal t m 0 v) = Sync.signals_of u v.
Proof.
  unfold Sync.set_signal. rewrite signals_of_set. destruct (decide (u = t)) as [->|]; [|done]. rewrite Z.land_0_r, Z.lor_0_r. apply Z.ldiff_0_r.
Qed.

(** [SetSignal] with an empty mask changes no signal. *)
Lemma safe_set_signal n t m g Q : Q tt g → safe n t (call_unit (fun t => SetSignal t m 0)) g Q.
Proof.
  intros HQ. apply (safe_call _ _ _ (fun v => Go tt (Sync.set_signal t m 0 v))); [intros x; cbn; by rewrite SetSignal_law|].
  intros σ γ HI Hg. exists g. rewrite list_insert_id by done. split; [|done]. intros x Hx. apply signals_inv; rewrite ?Hx; [done..|].
  intros u gu b _ _. by rewrite set_signal_zero.
Qed.
Lemma safe_signal n t u m g Q : Q tt g → safe n t (call_unit (fun t => Signal (u t) m)) g Q.
Proof.
  intros HQ. apply (safe_call _ _ _ (fun v => Go tt (Sync.signal (u t) m v))); [intros x; cbn; by rewrite Signal_law|].
  intros σ γ HI Hg. exists g. rewrite list_insert_id by done. split; [|done]. intros x Hx. apply signals_inv; rewrite ?Hx; [done..|].
  intros w gw b _ _. apply signal_keeps.
Qed.
Lemma safe_free_signal n t b g Q : Q tt g → safe n t (call_unit (fun t => FreeSignal t b)) g Q.
Proof.
  intros HQ. apply (safe_call _ _ _ (fun v => Go tt v)); [intros x; cbn; by rewrite FreeSignal_law|].
  intros σ γ HI Hg. exists g. rewrite list_insert_id by done. split; [|done]. intros x Hx. apply signals_inv; by rewrite ?Hx.
Qed.
(** A new signal may be cleared: its thread does not sleep. *)
Lemma safe_alloc_signal n t g Q : que g = None → (∀ b, b = -1 ∨ 0 <= b < 32 → Q b g) → safe n t (call_ (fun t => AllocSignal t)) g Q.
Proof.
  intros Hq HQ. apply safe_act. intros σ γ HI Hg. destruct (AllocSignal t (px σ)) as [b x] eqn:E. destruct (AllocSignal_law t _ b x E) as [Hb Hv].
  exists g. rewrite list_insert_id by done. split; [|auto]. apply signals_inv; [done|by destruct Hv as [->| ->]..|].
  intros u gu c Hu Hc. destruct Hv as [->| ->]; [done|]. rewrite signals_of_set. destruct (decide (u = t)) as [->|]; [|done]. congruence.
Qed.
Lemma safe_cond_alloc_signal n t g Q : que g = None → (∀ b, 0 <= b → Q b g) → safe n t cond_alloc_signal g Q.
Proof.
  intros Hq HQ. apply safe_bind, safe_alloc_signal; [done|]. intros b Hb. destruct (Z.eqb_spec b (-1)) as [->|Hne].
  - apply safe_bind, safe_set_signal, safe_ret, HQ. done.
  - apply safe_ret, HQ. lia.
Qed.

(** ** The mutex *)

Lemma safe_obtain n t g Q :
  own g = None → (∀ d W, Q tt (set_own (Some (Hold d W false None)) g)) → safe n t (call (fun t => MutexObtain t (p_handle P))) g Q.
Proof.
  intros Ho HQ. apply (safe_call _ _ _ (Sync.obtain_mutex t (p_handle P))); [intros x; apply MutexObtain_law|]. intros σ γ HI Hg.
  destruct HI as [(d & mo & so & W & (Hm & Hc & Hl & Hmo & Hso) & Hd & HG & HJ)]. unfold Sync.obtain_mutex. rewrite Hmo. destruct mo as [[u c]|].
  - rewrite andb_false_r. exists g. split; [done|split; [done|left]]. destruct HG as [(H1 & _ & H3) _ _ _]. destruct (H3 u c eq_refl) as [gu Hu].
    exists u, gu. split; [done|]. pose proof (H1 u gu Hu) as Hx. destruct (own gu); [eauto|naive_solver].
  - exists (set_own (Some (Hold d W false None)) g). split; [|done]. intros x Hx. split. exists d, (Some (t, 1)), None, W.
    assert (so = None) as -> by by destruct HG as [(_ & H2 & _) _ _ _]; apply H2. split; [|split; [done|split]].
    + unfold objects_ok. cbn. rewrite Hx. cbn. rewrite lookup_insert_eq. done.
    + cbn. rewrite Hx. by eapply ok_acquire.
    + by rewrite (phases_same _ _ g).
Qed.

Lemma safe_release n t g h Q :
  own g = Some h → h_sem h = false → h_debt h = None → ~ locked (ph g) → Q tt (set_own None g) → safe n t (call (fun t => MutexRelease t (p_handle P))) g Q.
Proof.
  intros Ho Hs Hdebt Hk HQ. apply (safe_call _ _ _ (Sync.release_mutex t (p_handle P))); [intros x; apply MutexRelease_law|]. intros σ γ HI Hg.
  destruct HI as [(d & mo & so & W & (Hm & Hc & Hl & Hmo & Hso) & Hd & HG & HJ)]. unfold Sync.release_mutex. rewrite Hmo.
  destruct (owner_held _ _ _ _ _ _ _ _ (gk_owner _ _ _ _ _ _ _ _ HG) Hg Ho) as (-> & <- & <- & Hso'). rewrite Hs in Hso'. subst so.
  rewrite bool_decide_true by done. cbn [Z.eqb Pos.eqb]. exists (set_own None g). split; [|done]. intros x Hx. split. exists (h_d h), None, None, (h_w h).
  split; [|split; [done|split]].
  - unfold objects_ok. cbn. rewrite Hx. cbn. rewrite lookup_insert_eq. done.
  - cbn. rewrite Hx. by eapply ok_release.
  - by rewrite (phases_same _ _ g).
Qed.

(** ** The holder *)

(** The holder changes what it holds, exec the semaphore or signals, the object its data. *)
Lemma hold_inv σ τ γ t g g' h h' d' :
  Inv σ γ → γ !! t = Some g → own g = Some h → own g' = Some h' → que g' = que g → (∀ b, que g ≠ Some (b, false)) ∨ ph g' = ph g → h_d h' = d' → h_w h' = h_w h →
  mutexes τ = mutexes σ → conds τ = conds σ → lists τ = lists σ →
  Sync.mutexes (view (px τ)) = Sync.mutexes (view (px σ)) →
  Sync.semas (view (px τ)) !! p_sema P = Some (if h_sem h' then Some (t, 1) else None) →
  dat (barriers τ) (sems τ) = Some d' → (J (h_d h) (events σ) (ph <$> γ) → J d' (events τ) (ph <$> <[t := g']> γ)) →
  (∀ j u b p, h_w h !! j = Some (Waiter u b) → Z.testbit (sigs τ u) b = false →
     Z.testbit (sigs σ u) b = false ∧
     (waitc p (h_d h) ∨ (∃ k, h_debt h = Some k ∧ (k ≤ j)%nat) → waitc p d' ∨ (∃ k, h_debt h' = Some k ∧ (k ≤ j)%nat))) →
  Inv τ (<[t := g']> γ).
Proof.
  intros [(d & mo & so & W & (Hm & Hc & Hl & Hmo & Hso) & Hd & HG & HJ)] Hg Ho Ho' Hq Hn Hd' Hw' E1 E2 E3 E4 E5 E6 HJ' Hs.
  destruct (owner_held _ _ _ _ _ _ _ _ (gk_owner _ _ _ _ _ _ _ _ HG) Hg Ho) as (-> & <- & <- & Hso').
  split. exists d', (Some (t, 1)), (if h_sem h' then Some (t, 1) else None), (h_w h). split; [|split; [done|split; [|auto]]].
  - unfold objects_ok. rewrite E1, E2, E3, E4. done.
  - eapply ok_hold; eauto.
Qed.

Lemma safe_obtain_sema n t g d W debt Q :
  own g = Some (Hold d W false debt) → Q tt (set_own (Some (Hold d W true debt)) g) →
  safe n t (call (fun t => ObtainSemaphore t (p_sema P))) g Q.
Proof.
  intros Ho HQ. apply (safe_call _ _ _ (Sync.obtain_sema t (p_sema P))); [intros x; apply ObtainSemaphore_law|]. intros σ γ HI Hg.
  pose proof HI as [(d' & mo & so & W' & (Hm & Hc & Hl & Hmo & Hso) & Hd & HG & HJ)]. unfold Sync.obtain_sema. rewrite Hso.
  destruct (owner_held _ _ _ _ _ _ _ _ (gk_owner _ _ _ _ _ _ _ _ HG) Hg Ho) as (-> & Hd' & Hw' & ->). cbn in *. subst d' W'.
  exists (set_own (Some (Hold d W true debt)) g). split; [|done]. intros x Hx.
  eapply (hold_inv σ _ γ t g); [done|done|done|done|done|by right|done..| | | | |]; cbn; rewrite ?Hx; cbn; [done|by rewrite lookup_insert_eq|done|by rewrite (phases_same _ _ g)|naive_solver].
Qed.
Lemma safe_release_sema n t g d W debt Q :
  own g = Some (Hold d W true debt) → Q tt (set_own (Some (Hold d W false debt)) g) →
  safe n t (call (fun t => ReleaseSemaphore t (p_sema P))) g Q.
Proof.
  intros Ho HQ. apply (safe_call _ _ _ (Sync.release_sema t (p_sema P))); [intros x; apply ReleaseSemaphore_law|]. intros σ γ HI Hg.
  pose proof HI as [(d' & mo & so & W' & (Hm & Hc & Hl & Hmo & Hso) & Hd & HG & HJ)]. unfold Sync.release_sema. rewrite Hso.
  destruct (owner_held _ _ _ _ _ _ _ _ (gk_owner _ _ _ _ _ _ _ _ HG) Hg Ho) as (-> & Hd' & Hw' & ->). cbn in *. subst d' W'. rewrite bool_decide_true by done.
  exists (set_own (Some (Hold d W false debt)) g). split; [|done]. intros x Hx.
  eapply (hold_inv σ _ γ t g); [done|done|done|done|done|by right|done..| | | | |]; cbn; rewrite ?Hx; cbn; [done|by rewrite lookup_insert_eq|done|by rewrite (phases_same _ _ g)|naive_solver].
Qed.

(** ** The waiters *)

Lemma safe_append n t g d W b Q :
  own g = Some (Hold d W true None) → que g = None → 0 <= b → waitc (ph g) d →
  Q tt (set_que (Some (b, false)) (set_own (Some (Hold d (W ++ [Waiter t b]) true None)) g)) →
  safe n t (store lists with_lists (p_list P) (fun ws => ws ++ [Waiter t b])) g Q.
Proof.
  intros Ho Hq Hb Hw HQ. apply safe_act. intros σ γ HI Hg. destruct HI as [(d' & mo & so & W' & (Hm & Hc & Hl & Hmo & Hso) & Hd & HG & HJ)]. rewrite Hl.
  destruct (owner_held _ _ _ _ _ _ _ _ (gk_owner _ _ _ _ _ _ _ _ HG) Hg Ho) as (-> & Hd' & Hw' & ->). cbn in *. subst d' W'.
  eexists. split; [|exact HQ]. split. exists d, (Some (t, 1)), (Some (t, 1)), (W ++ [Waiter t b]). split; [|split; [done|split]].
  - unfold objects_ok. cbn. rewrite lookup_insert_eq. done.
  - by eapply (ok_enqueue waitc locked _ _ _ _ _ _ t g (Hold d W true None)).
  - by rewrite (phases_same _ _ g).
Qed.
Lemma safe_unlist n t g d W b Q :
  own g = Some (Hold d W true None) → que g = Some (b, true) →
  (∀ W', Q tt (set_que None (set_own (Some (Hold d W' true None)) g))) →
  safe n t (store lists with_lists (p_list P) (fun ws => filter (fun x => x ≠ Waiter t b) ws)) g Q.
Proof.
  intros Ho Hq HQ. apply safe_act. intros σ γ HI Hg. destruct HI as [(d' & mo & so & W' & (Hm & Hc & Hl & Hmo & Hso) & Hd & HG & HJ)]. rewrite Hl.
  destruct (owner_held _ _ _ _ _ _ _ _ (gk_owner _ _ _ _ _ _ _ _ HG) Hg Ho) as (-> & Hd' & Hw' & ->). cbn in *. subst d' W'.
  eexists. split; [|apply HQ]. split. exists d, (Some (t, 1)), (Some (t, 1)), (filter (fun x => x ≠ Waiter t b) W). split; [|split; [done|split]].
  - unfold objects_ok. cbn. rewrite lookup_insert_eq. done.
  - by eapply (ok_dequeue waitc locked _ _ _ _ _ _ t g (Hold d W true None)).
  - by rewrite (phases_same _ _ g).
Qed.

Lemma unsignalled m b : 0 <= b → Z.land m (Z.lor SIGBREAKF_CTRL_C (Z.shiftl 1 b)) = 0 → Z.testbit m b = false.
Proof.
  intros Hb H0. pose proof (f_equal (fun z => Z.testbit z b) H0) as H1. cbv beta in H1. rewrite Z.land_spec, Z.lor_spec, Z.shiftl_spec, Z.sub_diag, Z.bits_0 in H1 by done.
  rewrite orb_true_r, andb_true_r in H1. done.
Qed.

Lemma safe_wait n t g b Q :
  own g = None → que g = Some (b, false) → 0 <= b → (∀ r, Q r (set_que (Some (b, true)) g)) →
  safe n t (call (fun t => Wait t (Z.lor SIGBREAKF_CTRL_C (Z.shiftl 1 b)))) g Q.
Proof.
  intros Ho Hq Hb HQ. apply (safe_call _ _ _ (Sync.wait t (Z.lor SIGBREAKF_CTRL_C (Z.shiftl 1 b)))); [intros x; apply Wait_law|]. intros σ γ HI Hg.
  unfold Sync.wait. destruct (Z.eqb_spec (Z.land (Sync.signals_of t (view (px σ))) (Z.lor SIGBREAKF_CTRL_C (Z.shiftl 1 b))) 0) as [E|E].
  - exists g. split; [done|split; [done|right]]. exists b. split; [done|]. by apply unsignalled.
  - eexists. split; [|apply HQ]. intros x Hx. destruct HI as [(d & mo & so & W & Hobj & Hd & HG & HJ)]. split. exists d, mo, so, W. split; [|split; [done|split]].
    + unfold objects_ok. cbn. by rewrite Hx.
    + eapply ok_woke; [done..|]. intros u Hne. cbn. rewrite Hx, signals_of_set. by destruct (decide (u = t)).
    + by rewrite (phases_same _ _ g).
Qed.

(** The holder reads the waiters. *)
Lemma safe_load_l {B : Set} n t (f : list CondWaiter → B) g h Q : own g = Some h → Q (f (h_w h)) g → safe n t (load lists (p_list P) f) g Q.
Proof.
  intros Ho HQ. apply safe_act. intros σ γ HI Hg. pose proof HI as [(d & mo & so & W & (Hm & Hc & Hl & Hmo & Hso) & Hd & HG & HJ)]. rewrite Hl.
  destruct (owner_held _ _ _ _ _ _ _ _ (gk_owner _ _ _ _ _ _ _ _ HG) Hg Ho) as (_ & _ & <- & _). exists g. by rewrite list_insert_id.
Qed.

(** It signals the waiter at [i]: the rest of its debt begins behind it. *)
Lemma safe_pay n t g d W sm i u b Q :
  own g = Some (Hold d W sm (Some i)) → W !! i = Some (Waiter u b) → Q tt (set_own (Some (Hold d W sm (Some (S i)))) g) →
  safe n t (call_unit (fun _ => Signal u (Z.shiftl 1 b))) g Q.
Proof.
  intros Ho Hi HQ. apply (safe_call _ _ _ (fun v => Go tt (Sync.signal u (Z.shiftl 1 b) v))); [intros x; cbn; by rewrite Signal_law|].
  intros σ γ HI Hg. eexists. split; [|exact HQ]. intros x Hx. pose proof HI as [(d' & mo & so & W' & (Hm & Hc & Hl & Hmo & Hso) & Hd & HG & HJ)].
  destruct (owner_held _ _ _ _ _ _ _ _ (gk_owner _ _ _ _ _ _ _ _ HG) Hg Ho) as (-> & Hd' & Hw' & ->). cbn in *. subst d' W'.
  assert (0 <= b) as Hb. { destruct HG as [_ (_ & _ & H3) _ _]. by apply (H3 (Waiter u b)), list_elem_of_lookup_2 with i. }
  eapply (hold_inv σ _ γ t g); [done|done|done|done|done|by right|done..| | | | |]; cbn; rewrite ?Hx; cbn; [done|done|done|by rewrite (phases_same _ _ g)|].
  intros j w c p Hj Hs. split; [by eapply signal_keeps|]. intros [|(k & [= <-] & Hk)]; [by left|right]. exists (S i). split; [done|].
  destruct (decide (j = i)) as [->|]; [|lia]. exfalso. rewrite Hi in Hj. injection Hj as <- <-.
  unfold Sync.signal in Hs. rewrite signals_of_set, decide_True, Z.lor_spec, Z.shiftl_spec, Z.sub_diag in Hs by done. by rewrite orb_true_r in Hs.
Qed.

(** ** The data *)

(** The holder works on the data, and its call goes on. *)
Lemma safe_data {A : Set} n t (f : nat → pstate → outcome A pstate) (ev : list event → list event) d W sm debt q p d' debt' p' a Q :
  (∀ b, q ≠ Some (b, false)) →
  (∀ σ, dat (barriers σ) (sems σ) = Some d → ∃ τ, f t σ = Go a τ ∧ px τ = px σ ∧ mutexes τ = mutexes σ ∧ conds τ = conds σ ∧ lists τ = lists σ ∧
     dat (barriers τ) (sems τ) = Some d' ∧ events τ = ev (events σ)) →
  (∀ evs phs, phs !! t = Some p → J d evs phs → J d' (ev evs) (<[t := p']> phs)) →
  (debt' = Some O ∨ (debt' = debt ∧ ∀ r, waitc r d → waitc r d')) →
  Q a (Ghost (Some (Hold d' W sm debt')) q p') → safe n t (PAct f) (Ghost (Some (Hold d W sm debt)) q p) Q.
Proof.
  intros Hn Hf HJ Hd HQ. apply safe_act. intros σ γ HI Hg. pose proof HI as [(d0 & mo & so & W0 & (Hm & Hc & Hl & Hmo & Hso) & Hdat & HG & _)].
  destruct (owner_held _ _ _ _ _ _ _ _ (gk_owner _ _ _ _ _ _ _ _ HG) Hg eq_refl) as (-> & Hd' & Hw' & ->). cbn in *. subst d0 W0.
  destruct (Hf σ Hdat) as (τ & -> & E1 & E2 & E3 & E4 & E5 & E6). eexists. split; [|exact HQ].
  eapply (hold_inv σ τ γ t _ _ (Hold d W sm debt)); [done|done|done|done|done|by left|done..| | | | |]; cbn; rewrite ?E1; [done|done|done| |].
  - rewrite E6, list_fmap_insert. apply HJ. by rewrite list_lookup_fmap, Hg.
  - intros j u b r Hj Hs. split; [done|]. destruct Hd as [->|[-> Hw]]; [intros _; right; exists O; split; [done|lia]|]. intros [?|?]; auto.
Qed.

(** A thread that does not sleep notes something down. *)
Lemma safe_log n t e o p p' Q :
  (∀ d evs phs, phs !! t = Some p → J d evs phs → J d (e t :: evs) (<[t := p']> phs)) → ~ locked p' → Q tt (Ghost o None p') → safe n t (log e) (Ghost o None p) Q.
Proof.
  intros HJ Hl HQ. apply safe_act. intros σ γ HI Hg. eexists. split; [|exact HQ]. destruct HI as [(d & mo & so & W & Hobj & Hd & [HO HK HW HL] & HJ0)].
  split. exists d, mo, so, W. split; [done|split; [done|split]].
  - split; [by eapply owner_keep|by eapply queue_same| |by eapply locked_step]. intros i u b gu Hi Hu Hq Hs. apply (insert_cases _ _ _ _ _ _ Hg) in Hu as [[-> ->]|[Hne Hu]]; [done|].
    destruct (HW i u b gu Hi Hu Hq Hs) as [|Hx]; [by left|right]. by eapply debt_keep.
  - rewrite list_fmap_insert. apply HJ; [by rewrite list_lookup_fmap, Hg|done].
Qed.

(** What the holder knows of the data follows from their invariant; no other thread is in
    a part of its call that needs the mutex. *)
Lemma safe_know {A : Set} (F : Prop) n t (pr : prog pstate A) d W sm debt q p Q :
  is_ret pr = None →
  (∀ evs phs, phs !! t = Some p → (∀ u r, phs !! u = Some r → u ≠ t → ~ locked r) → J d evs phs → F) →
  (F → safe n t pr (Ghost (Some (Hold d W sm debt)) q p) Q) → safe n t pr (Ghost (Some (Hold d W sm debt)) q p) Q.
Proof.
  destruct n as [|n]; [done|]. intros Hr HF Hs. rewrite safe_S, Hr in *. intros σ γ HI Hg.
  pose proof HI as [(d0 & mo & so & W0 & Hobj & Hd & HG & HJ)].
  destruct (owner_held _ _ _ _ _ _ _ _ (gk_owner _ _ _ _ _ _ _ _ HG) Hg eq_refl) as (_ & Hd' & _). cbn in Hd'. subst d0. apply Hs; [|done..].
  apply (HF (events σ) (ph <$> γ)); [by rewrite list_lookup_fmap, Hg| |done]. intros u r Hu Hne Hl.
  rewrite list_lookup_fmap in Hu. apply fmap_Some in Hu as (gu & Hu & ->). destruct (gk_locked _ _ _ _ _ _ _ _ HG u gu Hu Hl) as [h Hh].
  apply Hne. by eapply (owner_unique _ _ _ _ _ t _ _ u gu h (gk_owner _ _ _ _ _ _ _ _ HG) Hg eq_refl).
Qed.

(** ** The calls *)

Lemma safe_mutex_ready n t g Q : Q true g → safe n t (mutex_ready (p_mutex P)) g Q.
Proof.
  intros HQ. apply safe_bind, safe_load_m. intros inc. cbn [m_mutex]. destruct HP as [_ _ Hh _]. apply Z.eqb_neq in Hh. rewrite Hh. by apply safe_ret.
Qed.

Lemma safe_lock n t q p Q :
  (∀ d W, Q 0 (Ghost (Some (Hold d W false None)) q p)) → safe n t (pthread_mutex_lock (p_mutex P)) (Ghost None q p) Q.
Proof.
  intros HQ. unfold pthread_mutex_lock. rewrite (proj2 (Z.eqb_neq _ _)) by apply HP.
  apply safe_bind, safe_mutex_ready. cbn [negb]. apply safe_bind, safe_load_m. intros inc. cbn [m_kind Z.eqb PTHREAD_MUTEX_DEFAULT PTHREAD_MUTEX_ERRORCHECK].
  apply safe_bind, safe_ret. cbn [negb]. apply safe_bind, safe_load_m. intros inc'. apply safe_bind, safe_obtain; [done|]. intros d W. apply safe_ret, HQ.
Qed.

Lemma safe_unlock n t d W q p Q :
  ~ locked p → Q 0 (Ghost None q p) → safe n t (pthread_mutex_unlock (p_mutex P)) (Ghost (Some (Hold d W false None)) q p) Q.
Proof.
  intros Hl HQ. unfold pthread_mutex_unlock. rewrite (proj2 (Z.eqb_neq _ _)) by apply HP.
  apply safe_bind, safe_mutex_ready. cbn [negb]. apply safe_bind, safe_load_m. intros inc. apply safe_bind. eapply safe_release; [done..|]. by apply safe_ret.
Qed.

(** The waiters are changed under the semaphore. *)
Lemma safe_with_semaphore n t body d W debt q p Q :
  safe n t body (Ghost (Some (Hold d W true debt)) q p)
    (fun _ g => ∃ d' W' debt' q' p', g = Ghost (Some (Hold d' W' true debt')) q' p' ∧ Q tt (Ghost (Some (Hold d' W' false debt')) q' p')) →
  safe n t (with_semaphore (p_cond P) body) (Ghost (Some (Hold d W false debt)) q p) Q.
Proof.
  intros Hb. apply safe_bind, safe_load_c. apply safe_bind. eapply safe_obtain_sema; [done|]. apply safe_bind.
  eapply safe_mono; [done| |exact Hb]. intros [] g (d' & W' & debt' & q' & p' & -> & HQ). apply safe_bind, safe_load_c. by eapply safe_release_sema.
Qed.

Lemma safe_cond_prepare n t g Q : Q 0 g → safe n t (cond_prepare (p_cond P) (p_mutex P)) g Q.
Proof.
  intros HQ. apply safe_bind, safe_load_c. apply safe_bind, safe_ret. rewrite !(proj2 (Z.eqb_neq _ _)) by apply HP. cbn [orb negb].
  apply safe_bind, safe_load_c. apply safe_bind, safe_valid. by apply safe_ret.
Qed.

(** A thread sleeps on the condition, for a reason; when it returns it has the mutex, and
    the data may be others. *)
Lemma safe_cond_wait n t d W p Q :
  ~ locked p → waitc p d → (∀ d' W', Q 0 (Ghost (Some (Hold d' W' false None)) None p)) →
  safe n t (pthread_cond_wait (p_cond P) (p_mutex P)) (Ghost (Some (Hold d W false None)) None p) Q.
Proof.
  intros Hk Hw HQ. apply safe_bind, safe_cond_prepare. cbn [negb Z.eqb]. apply safe_bind, safe_task. apply safe_bind, safe_cond_alloc_signal; [done|]. intros b Hb.
  apply safe_bind, safe_with_semaphore. apply safe_bind, safe_load_c. eapply safe_append; [done..|]. do 5 eexists. split; [done|].
  apply safe_bind, safe_add_incond. apply safe_bind, safe_unlock; [done|]. apply safe_bind, safe_wait; [done..|]. intros r. unfold set_que; cbn [own que ph].
  apply safe_bind, safe_lock. intros d' W'. apply safe_bind, safe_add_incond. apply safe_bind, safe_with_semaphore. apply safe_bind, safe_load_c.
  eapply safe_unlist; [done..|]. intros W2. do 5 eexists. split; [done|]. apply safe_bind.
  assert (safe n t (if negb (b =? SIGB_COND_FALLBACK) then call_unit (fun t => FreeSignal t b) else PRet tt) (Ghost (Some (Hold d' W2 false None)) None p)
    (fun _ g => g = Ghost (Some (Hold d' W2 false None)) None p)) as Hfree by (destruct (negb _); [by apply safe_free_signal|by apply safe_ret]).
  eapply safe_mono; [done| |exact Hfree]. intros [] g ->. apply safe_bind. unfold reenable_ctrl_c. destruct (negb (Z.land r SIGBREAKF_CTRL_C =? 0)).
  - apply safe_bind, safe_set_signal, safe_signal, safe_ret, HQ.
  - apply safe_ret, safe_ret, HQ.
Qed.

(** ** Signalling *)

(** Behind the last waiter there is no debt. *)
Lemma safe_paid n t d W sm i q p Q :
  W !! i = None → Q None (Ghost (Some (Hold d W sm None)) q p) →
  safe n t (load lists (p_list P) (fun ws => ws !! i)) (Ghost (Some (Hold d W sm (Some i))) q p) Q.
Proof.
  intros Hi HQ. apply safe_act. intros σ γ HI Hg. pose proof HI as [(d0 & mo & so & W0 & (Hm & Hc & Hl & Hmo & Hso) & Hd & HG & HJ)]. rewrite Hl.
  destruct (owner_held _ _ _ _ _ _ _ _ (gk_owner _ _ _ _ _ _ _ _ HG) Hg eq_refl) as (-> & Hd' & Hw' & ->). cbn in *. subst d0 W0. rewrite Hi.
  eexists. split; [|exact HQ]. eapply (hold_inv σ σ γ t); [done|done|done|done|done|by right|done..| |]; [by erewrite phases_same|].
  intros j u b r Hj Hs. split; [done|]. intros [|(k & [= <-] & Hk)]; [by left|]. apply lookup_ge_None in Hi. apply lookup_lt_Some in Hj. cbn in *. lia.
Qed.

Lemma safe_signal_all n t d W p Q :
  Q tt (Ghost (Some (Hold d W true None)) None p) →
  safe n t (signal_waiters (p_cond P) false) (Ghost (Some (Hold d W true (Some O))) None p) Q.
Proof.
  intros HQ. apply (safe_iter _ _ t _ (fun i g => g = Ghost (Some (Hold d W true (Some i))) None p)); [|done].
  intros m i g ->. apply safe_bind, safe_load_c. apply safe_bind. cbn [c_waiters]. destruct (W !! i) as [[u b]|] eqn:Hi.
  - eapply safe_load_l; [done|]. cbn [h_w]. rewrite Hi. apply safe_bind. eapply safe_pay; [done|done|]. by apply safe_ret.
  - apply safe_paid; [done|]. by apply safe_ret.
Qed.
Lemma safe_signal_first n t d W p Q :
  Q tt (Ghost (Some (Hold d W true None)) None p) →
  safe n t (signal_waiters (p_cond P) true) (Ghost (Some (Hold d W true None)) None p) Q.
Proof.
  intros HQ. apply (safe_iter _ _ t _ (fun i g => g = Ghost (Some (Hold d W true None)) None p)); [|done].
  intros m i g ->. apply safe_bind, safe_load_c. apply safe_bind. cbn [c_waiters]. eapply safe_load_l; [done|]. cbn [h_w]. destruct (W !! i) as [w|].
  - apply safe_bind, safe_signal. by apply safe_ret.
  - by apply safe_ret.
Qed.

Lemma safe_cond_broadcast n t d W p Q :
  Q 0 (Ghost (Some (Hold d W false None)) None p) →
  safe n t (pthread_cond_broadcast (p_cond P)) (Ghost (Some (Hold d W false (Some O))) None p) Q.
Proof.
  intros HQ. unfold pthread_cond_broadcast, pthread_cond_broadcast_. rewrite (proj2 (Z.eqb_neq _ _)) by apply HP. apply safe_bind, safe_load_c.
  apply safe_bind, safe_valid. apply safe_bind, safe_ret. apply safe_bind, safe_with_semaphore. apply safe_signal_all. do 5 eexists. split; [done|]. by apply safe_ret.
Qed.
Lemma safe_cond_signal n t d W p Q :
  Q 0 (Ghost (Some (Hold d W false None)) None p) →
  safe n t (pthread_cond_signal (p_cond P)) (Ghost (Some (Hold d W false None)) None p) Q.
Proof.
  intros HQ. unfold pthread_cond_signal, pthread_cond_broadcast_. rewrite (proj2 (Z.eqb_neq _ _)) by apply HP. apply safe_bind, safe_load_c.
  apply safe_bind, safe_valid. apply safe_bind, safe_ret. apply safe_bind, safe_with_semaphore. apply safe_signal_first. do 5 eexists. split; [done|]. by apply safe_ret.
Qed.

(** ** The world outside *)

(** Anyone may signal a thread, as a user does who presses Ctrl-C. *)
Definition outside (σ τ : pstate) : Prop := ∃ u m, τ = with_px (Signal u m (px σ)) σ.
Lemma outside_inv σ τ γ : outside σ τ → Inv σ γ → Inv τ γ.
Proof. intros (u & m & ->) HI. apply signals_inv; [done|by rewrite Signal_law..|]. intros w g b _ _. rewrite Signal_law. apply signal_keeps. Qed.

(** When every thread waits or has ended without the mutex, every sleeper has its reason. *)
Lemma asleep σ γ : Inv σ γ → (∀ t g, γ !! t = Some g → own g = None) →
  ∃ d, dat (barriers σ) (sems σ) = Some d ∧ J d (events σ) (ph <$> γ) ∧ (∀ t g, γ !! t = Some g → waiting t σ γ → waitc (ph g) d) ∧
    ∀ t g, γ !! t = Some g → ~ locked (ph g).
Proof.
  intros [(d & mo & so & W & Hobj & Hd & [HO HK HW HL] & HJ)] Hown. exists d. split; [done|split; [done|split]].
  2: { intros t g Hg Hl. destruct (HL t g Hg Hl) as [h Hh]. by rewrite (Hown t g Hg) in Hh. }
  intros t g Hg (g' & Hg' & _ & Hwait).
  rewrite Hg in Hg'. injection Hg' as <-. destruct Hwait as [(u & gu & Hu & [h Hh])|(b & Hq & Hs)]; [rewrite (Hown u gu Hu) in Hh; done|].
  assert (Waiter t b ∈ W) as [i Hi]%list_elem_of_lookup by (destruct HK as (_ & H2 & _); apply H2; eauto).
  destruct (HW i t b g Hi Hg Hq Hs) as [|(u & gu & h & k & Hu & Hh & _)]; [done|]. rewrite (Hown u gu Hu) in Hh. done.
Qed.

(** Threads that have not begun. *)
Lemma start_inv σ d p m : objects_ok σ None None [] → dat (barriers σ) (sems σ) = Some d → ~ locked p → J d (events σ) (replicate m p) →
  Inv σ (replicate m (Ghost None None p)).
Proof.
  intros Hobj Hd Hk HJ. split. exists d, None, None, []. split; [done|split; [done|split; [|by rewrite fmap_replicate]]].
  split; [|split; [constructor|split; [|by intros w Hw%elem_of_nil]]|done|].
  - split; [|done]. intros t g [-> _]%lookup_replicate. done.
  - intros t c. split; [by intros Hx%elem_of_nil|]. intros (g & q & [-> _]%lookup_replicate & Hq). done.
  - intros t g [-> _]%lookup_replicate. done.
Qed.
End Rules.
