(* ===== verification/PthreadBarrier.v ===== *)
(** * Barriers

    Threads that pass a barrier again and again: nobody leaves a round before everybody
    of the round has arrived, each round has one serial thread, and nobody sleeps who
    need not.  [pthread_barrier_wait] is proved with the rules of monitors. *)

From stdpp Require Import base numbers gmap list.
From S2P Require Import Prelude CMem Threads Pthread PthreadMonitor PthreadRules.
Open Scope Z_scope.
#[local] Set Warnings "-clear-no-such-hyp".

(** ** Counting *)

Fixpoint count {E : Type} (f : E → bool) (l : list E) : Z :=
  match l with [] => 0 | e :: l => b2z (f e) + count f l end.
Definition is_arrive (e : event) : bool := match e with Arrive _ => true | _ => false end.
Definition is_leave (e : event) : bool := match e with Leave _ _ => true | _ => false end.
Definition is_serial (e : event) : bool := match e with Leave _ r => r =? PTHREAD_BARRIER_SERIAL_THREAD | _ => false end.
Definition arrive_of (t : nat) (e : event) : bool := match e with Arrive u => bool_decide (u = t) | _ => false end.
Definition leave_of (t : nat) (e : event) : bool := match e with Leave u _ => bool_decide (u = t) | _ => false end.

Lemma count_nonneg {E} (f : E → bool) l : 0 <= count f l.
Proof. induction l as [|e l IH]; cbn; [lia|]. destruct (f e); cbn; lia. Qed.

(** ** The calls of the clients *)

(** A thread that passes the barrier [k] times and notes it down. *)
Fixpoint rounds `{ExecSync} (barrier : Z) (k : nat) : prog pstate unit :=
  match k with
  | O => PRet tt
  | S k =>
      _ <~ log Arrive;
      r <~ pthread_barrier_wait barrier;
      _ <~ log (fun t => Leave t r);
      rounds barrier k
  end.

Definition finished `{ExecSync} (p : prog pstate unit) : bool := match is_ret p with Some _ => true | None => false end.
Lemma finished_all `{ExecSync} ps : forallb finished ps = true → ∀ p, p ∈ ps → p = PRet tt.
Proof.
  intros Hf p Hp. rewrite forallb_forall in Hf. apply list_elem_of_In in Hp. specialize (Hf p Hp). unfold finished in Hf.
  destruct (is_ret p) as [[]|] eqn:E; [|done]. by apply is_ret_some in E.
Qed.

(** How far a thread is: how often it has been let through, and where it is in its call. *)
Inductive stage := Idle | Announced | Arrived | Completing | Departed (r : Z).
Record bphase := BPh { rnd : Z; stg : stage }.

Definition at_arrived (p : bphase) : Z := match stg p with Arrived => 1 | _ => 0 end.
Definition at_completing (p : bphase) : Z := match stg p with Completing => 1 | _ => 0 end.
Definition present (p : bphase) : Z := match stg p with Announced | Arrived | Completing => 1 | _ => 0 end.
Definition departed (p : bphase) : Z := match stg p with Departed _ => 1 | _ => 0 end.
Definition serial (p : bphase) : Z := match stg p with Departed r => b2z (r =? PTHREAD_BARRIER_SERIAL_THREAD) | _ => 0 end.

Section Invariant.
(** [goal]: how often each thread wants to pass. *)
Context (n : Z) (goal : nat → Z) (Hn : 0 < n < PTHREAD_BARRIER_FLAG).
#[local] Abbreviation FLAG := PTHREAD_BARRIER_FLAG.

(** The height while a round fills, while it is full, and while it empties. *)
Definition shape (h arrived completing : Z) : Prop :=
  (h = FLAG ∧ arrived = 0 ∧ completing = 0) ∨ (0 <= h < n ∧ arrived = h ∧ completing = 0) ∨
  (h = n ∧ arrived = n - 1 ∧ completing = 1) ∨ (FLAG < h < FLAG + n ∧ arrived = h - FLAG ∧ completing = 0).
Definition rest (h : Z) : Z := if FLAG <? h then h - FLAG else 0.

Definition local_ok (evs : list event) (t : nat) (p : bphase) : Prop :=
  count (arrive_of t) evs = rnd p + present p ∧ count (leave_of t) evs = rnd p - departed p ∧ 0 <= rnd p ∧
  rnd p + present p <= goal t.

Record barrier_inv (d : pthread_barrier_t) (evs : list event) (phs : list bphase) (B : Z) : Prop := BarrierInv {
  bi_height : curr_height d = n;
  bi_shape : shape (total_height d) (total at_arrived phs) (total at_completing phs);
  bi_rounds : total rnd phs = n * B - rest (total_height d);
  bi_serial : count is_serial evs + total serial phs = B;
  bi_arrives : count is_arrive evs = total rnd phs + total present phs;
  bi_leaves : count is_leave evs = total rnd phs - total departed phs;
  bi_local : ∀ t p, phs !! t = Some p → local_ok evs t p;
  bi_exact : Z.of_nat (length phs) = n → ∀ t p, phs !! t = Some p → rnd p = B - (if FLAG <? total_height d then at_arrived p else 0)
}.
Definition JB (d : pthread_barrier_t) (evs : list event) (phs : list bphase) : Prop := ∃ B, barrier_inv d evs phs B.

(** Why a thread sleeps: it has come before the last round is empty, or its round is not
    full yet. *)
Definition bwait (p : bphase) (d : pthread_barrier_t) : Prop :=
  match stg p with Announced => FLAG < total_height d | Arrived => total_height d < FLAG | _ => False end.
Definition block (p : bphase) : Prop := stg p = Completing.

(** ** The steps of the invariant *)

Lemma local_other evs e t u p : local_ok evs u p → u ≠ t → (∀ v, arrive_of v e = true ∨ leave_of v e = true → v = t) → local_ok (e :: evs) u p.
Proof.
  intros (H1 & H2 & H3 & H4) Hne He. split; [|split; [|done]]; cbn.
  - destruct (arrive_of u e) eqn:E; [exfalso; apply Hne, He; auto|cbn; lia].
  - destruct (leave_of u e) eqn:E; [exfalso; apply Hne, He; auto|cbn; lia].
Qed.

(** A thread goes from [p] to [p'], the barrier from [d] to [d'] in round [B']. *)
Lemma barrier_step d d' evs evs' phs t p p' B B' :
  phs !! t = Some p → barrier_inv d evs phs B → curr_height d' = n →
  shape (total_height d') (total at_arrived phs - at_arrived p + at_arrived p') (total at_completing phs - at_completing p + at_completing p') →
  rnd p' - rnd p = n * (B' - B) - (rest (total_height d') - rest (total_height d)) →
  count is_serial evs' - count is_serial evs + (serial p' - serial p) = B' - B →
  count is_arrive evs' - count is_arrive evs = (rnd p' + present p') - (rnd p + present p) →
  count is_leave evs' - count is_leave evs = (rnd p' - departed p') - (rnd p - departed p) →
  local_ok evs' t p' → (∀ u q, u ≠ t → local_ok evs u q → local_ok evs' u q) →
  (Z.of_nat (length phs) = n → (∀ u q, phs !! u = Some q → rnd q = B - (if FLAG <? total_height d then at_arrived q else 0)) →
     rnd p' = B' - (if FLAG <? total_height d' then at_arrived p' else 0) ∧
     (∀ u q, u ≠ t → phs !! u = Some q → rnd q = B' - (if FLAG <? total_height d' then at_arrived q else 0))) →
  barrier_inv d' evs' (<[t := p']> phs) B'.
Proof.
  intros Ht [H1 H2 H3 H4 H5 H6 H7 H8] G1 G2 G3 G4 G5 G6 G7 G8 G9. split; rewrite ?(total_insert _ _ _ _ _ Ht); [done|done|lia..| |].
  - intros u q Hu. apply (insert_cases _ _ _ _ _ _ Ht) in Hu as [[-> ->]|[Hne Hu]]; [done|]. apply G8; [done|]. by apply H7.
  - rewrite length_insert. intros Hl. destruct (G9 Hl (H8 Hl)) as [E1 E2]. intros u q Hu.
    apply (insert_cases _ _ _ _ _ _ Ht) in Hu as [[-> ->]|[Hne Hu]]; [done|by apply (E2 u)].
Qed.

Lemma total_le_length {G} (f : G → Z) γ : (∀ g, f g <= 1) → total f γ <= Z.of_nat (length γ).
Proof. intros Hf. unfold total. induction γ as [|g γ IH]; cbn; [lia|]. specialize (Hf g). lia. Qed.
Lemma total_all {G} (f : G → Z) γ : (∀ g, f g <= 1) → total f γ = Z.of_nat (length γ) → ∀ t g, γ !! t = Some g → f g = 1.
Proof.
  intros Hf Hl t g Hg. pose proof (total_le_length f (delete t γ) Hf) as Hd. rewrite length_delete in Hd by by eexists.
  pose proof (lookup_lt_Some _ _ _ Hg). assert (total f γ = f g + total f (delete t γ)) as Hs.
  { clear -Hg. revert t Hg. induction γ as [|h γ IH]; intros [|t] Hg; [done..| |]; [injection Hg as ->; done|].
    change (f h + total f γ = f g + (f h + total f (delete t γ))). rewrite (IH t Hg). lia. }
  specialize (Hf g). lia.
Qed.

Lemma total_lookup {G} (f : G → Z) γ t g : (∀ g, 0 <= f g) → γ !! t = Some g → f g <= total f γ.
Proof.
  intros Hf. revert t. induction γ as [|h γ IH]; intros [|t] Hg; [done..| |]; change (total f (h :: γ)) with (f h + total f γ).
  - injection Hg as ->. pose proof (total_nonneg f γ Hf). lia.
  - specialize (IH t Hg). specialize (Hf h). lia.
Qed.
Lemma total_none {G} (f : G → Z) γ t g : (∀ g, 0 <= f g) → total f γ = 0 → γ !! t = Some g → f g = 0.
Proof. intros Hf H0 Hg. pose proof (total_lookup f γ t g Hf Hg). specialize (Hf g). lia. Qed.

#[local] Ltac numbers := unfold local_ok, rest, at_arrived, at_completing, present, departed, serial, PTHREAD_BARRIER_SERIAL_THREAD in *; cbn in *; unfold PTHREAD_BARRIER_SERIAL_THREAD in *; cbn in *.

Lemma step_announce d evs phs t k :
  phs !! t = Some (BPh k Idle) → k < goal t → JB d evs phs → JB d (Arrive t :: evs) (<[t := BPh k Announced]> phs).
Proof.
  intros Ht Hk (B & HB). exists B. pose proof HB as [H1 H2 H3 H4 H5 H6 H7 H8]. eapply (barrier_step _ _ _ _ _ _ _ _ _ _ Ht HB); [done|by numbers; rewrite !Z.add_0_r, !Z.sub_0_r|numbers; lia..| | |].
  - destruct (H7 t _ Ht) as (A1 & A2 & A3 & A4). numbers. rewrite bool_decide_true by done. cbn. lia.
  - intros u q Hne Hq. apply (local_other _ _ t); [done..|]. intros v [Hv|Hv]; [by apply bool_decide_eq_true in Hv|done].
  - intros Hl Hall. split; [apply (Hall t _ Ht)|intros u q _; apply Hall].
Qed.

(** The first of a round. *)
Lemma step_open d evs phs t p :
  phs !! t = Some p → total_height d = FLAG → JB d evs phs → JB (set_total_height 0 d) evs (<[t := p]> phs).
Proof.
  intros Ht Hd (B & HB). exists B. pose proof HB as [H1 H2 H3 H4 H5 H6 H7 H8]. unfold shape in H2.
  eapply (barrier_step _ _ _ _ _ _ _ _ _ _ Ht HB); [done|unfold shape; cbn; lia|unfold rest; rewrite Hd; cbn; lia|lia..|by apply H7|done|].
  intros Hl Hall. cbn. assert (∀ u q, phs !! u = Some q → rnd q = B - 0) as Hr by (intros u q Hu; rewrite (Hall u q Hu), Hd; done). eauto.
Qed.

(** A thread enters; the last one of the round completes it. *)
Lemma step_enter d evs phs t k h :
  phs !! t = Some (BPh k Announced) → total_height d = h → 0 <= h < n → JB d evs phs →
  JB (set_total_height (h + 1) d) evs (<[t := BPh k (if h + 1 =? n then Completing else Arrived)]> phs).
Proof.
  intros Ht Hd Hh (B & HB). exists B. pose proof HB as [H1 H2 H3 H4 H5 H6 H7 H8]. unfold shape in H2. rewrite Hd in *.
  destruct (H7 t _ Ht) as (A1 & A2 & A3 & A4). assert ((FLAG <? h) = false) as E1 by lia. assert ((FLAG <? h + 1) = false) as E2 by lia.
  eapply (barrier_step _ _ _ _ _ _ _ _ _ _ Ht HB); [done|unfold shape; cbn|unfold rest; cbn..| |done|]; rewrite ?Hd, ?E1, ?E2.
  - destruct (Z.eqb_spec (h + 1) n); numbers; lia.
  - lia.
  - destruct (h + 1 =? n); numbers; lia.
  - destruct (h + 1 =? n); numbers; lia.
  - destruct (h + 1 =? n); numbers; lia.
  - destruct (h + 1 =? n); numbers; lia.
  - intros Hl Hall. cbn. rewrite E2. split; [exact (Hall t _ Ht)|eauto].
Qed.

(** The last one opens the way out, and leaves as the serial thread. *)
Lemma step_complete d evs phs t k :
  phs !! t = Some (BPh k Completing) → total_height d = n → JB d evs phs →
  JB (set_total_height (n + (FLAG - 1)) d) evs (<[t := BPh (k + 1) (Departed PTHREAD_BARRIER_SERIAL_THREAD)]> phs).
Proof.
  intros Ht Hd (B & HB). exists (B + 1). pose proof HB as [H1 H2 H3 H4 H5 H6 H7 H8]. unfold shape in H2. rewrite Hd in *.
  destruct (H7 t _ Ht) as (A1 & A2 & A3 & A4). assert ((FLAG <? n) = false) as E1 by lia.
  assert (rest (n + (FLAG - 1)) = n - 1) as E2 by (unfold rest; destruct (Z.ltb_spec FLAG (n + (FLAG - 1))); lia).
  eapply (barrier_step _ _ _ _ _ _ _ _ _ _ Ht HB); [done|unfold shape; cbn|cbn [total_height set_total_height]..| |done|]; rewrite ?Hd, ?E2.
  - numbers. lia.
  - unfold rest. rewrite E1. cbn [rnd]. lia.
  - numbers. lia.
  - numbers. lia.
  - numbers. lia.
  - numbers. lia.
  - intros Hl Hall. cbn [total_height set_total_height]. rewrite E1 in Hall. split; [pose proof (Hall t _ Ht) as Hk; numbers; destruct (FLAG <? n + (FLAG - 1)); lia|].
    intros u q Hne Hu. rewrite (Hall u q Hu). pose proof (lookup_lt_Some _ _ _ Hu). pose proof (lookup_lt_Some _ _ _ Ht).
    assert (at_arrived q = 1) as ->; [|destruct (Z.ltb_spec FLAG (n + (FLAG - 1))); lia].
    apply (total_all at_arrived (<[t := BPh k Arrived]> phs)) with u; [by intros [? []]; cbn| |by rewrite insert_other].
    rewrite (total_insert _ _ _ _ _ Ht), length_insert. numbers. lia.
Qed.

(** A thread leaves a round that is full. *)
Lemma step_depart d evs phs t k h :
  phs !! t = Some (BPh k Arrived) → total_height d = h → FLAG < h < FLAG + n → JB d evs phs →
  JB (set_total_height (h - 1) d) evs (<[t := BPh (k + 1) (Departed 0)]> phs).
Proof.
  intros Ht Hd Hh (B & HB). exists B. pose proof HB as [H1 H2 H3 H4 H5 H6 H7 H8]. unfold shape in H2. rewrite Hd in *.
  destruct (H7 t _ Ht) as (A1 & A2 & A3 & A4). assert ((FLAG <? h) = true) as E1 by lia.
  eapply (barrier_step _ _ _ _ _ _ _ _ _ _ Ht HB); [done|unfold shape; cbn|unfold rest; cbn..| |done|]; rewrite ?Hd, ?E1.
  - numbers. lia.
  - destruct (Z.ltb_spec FLAG (h - 1)); lia.
  - numbers. lia.
  - numbers. lia.
  - numbers. lia.
  - numbers. lia.
  - intros Hl Hall. cbn [total_height set_total_height]. split; [pose proof (Hall t _ Ht) as Hk; numbers; destruct (FLAG <? h - 1); lia|].
    intros u q Hne Hu. rewrite (Hall u q Hu). destruct (Z.ltb_spec FLAG (h - 1)); [done|].
    assert (at_arrived q = 0) as ->; [|lia]. assert (total at_arrived (<[t := BPh (k + 1) (Departed 0)]> phs) = 0) as H0 by (rewrite (total_insert _ _ _ _ _ Ht); numbers; lia).
    apply (total_none at_arrived (<[t := BPh (k + 1) (Departed 0)]> phs)) with u; [by intros [? []]; cbn|done|by rewrite insert_other].
Qed.

(** It tells its caller. *)
Lemma step_leave d evs phs t k r :
  phs !! t = Some (BPh k (Departed r)) → JB d evs phs → JB d (Leave t r :: evs) (<[t := BPh k Idle]> phs).
Proof.
  intros Ht (B & HB). exists B. pose proof HB as [H1 H2 H3 H4 H5 H6 H7 H8].
  eapply (barrier_step _ _ _ _ _ _ _ _ _ _ Ht HB); [done|by numbers; rewrite !Z.add_0_r, !Z.sub_0_r|numbers; lia..| | |].
  - destruct (H7 t _ Ht) as (A1 & A2 & A3 & A4). numbers. rewrite bool_decide_true by done. cbn. lia.
  - intros u q Hne Hq. apply (local_other _ _ t); [done..|]. intros v [Hv|Hv]; [done|by apply bool_decide_eq_true in Hv].
  - intros Hl Hall. split; [apply (Hall t _ Ht)|intros u q _; apply Hall].
Qed.
End Invariant.

(** ** The calls *)

Section Calls.
Context `{ExecSync} (P : places) (HP : placed P) (b n : Z) (goal : nat → Z) (Hb : b ≠ NULL) (Hn : 0 < n < PTHREAD_BARRIER_FLAG).
Context (Hlock : p_mutex P = barrier_lock b) (Hcond : p_cond P = breeched b).
#[local] Abbreviation FLAG := PTHREAD_BARRIER_FLAG.
Definition barrier_at (bs : gmap Z pthread_barrier_t) (ss : gmap Z sem_t) : option pthread_barrier_t := bs !! b.
#[local] Abbreviation safe := (safe (Inv P barrier_at (JB n goal) bwait block) (waiting (D := pthread_barrier_t) (Ph := bphase))).
#[local] Abbreviation holds d W p := (Ghost (Some (Hold d W false None)) None p).

Lemma safe_load_b {B : Set} m t (f : pthread_barrier_t → B) d W sm debt p Q :
  Q (f d) (Ghost (Some (Hold d W sm debt)) None p) → safe m t (load barriers b f) (Ghost (Some (Hold d W sm debt)) None p) Q.
Proof.
  intros HQ. eapply (safe_data _ _ _ _ _ _ _ _ id); [done| | | |exact HQ].
  - intros σ Hσ. unfold barrier_at in Hσ. rewrite Hσ. by exists σ.
  - intros evs phs Ht HJ. by rewrite list_insert_id.
  - by right.
Qed.
Lemma safe_store_b m t f d W sm debt debt' p p' Q :
  (∀ evs phs, phs !! t = Some p → JB n goal d evs phs → JB n goal (f d) evs (<[t := p']> phs)) →
  (debt' = Some O ∨ (debt' = debt ∧ ∀ r, bwait r d → bwait r (f d))) →
  Q tt (Ghost (Some (Hold (f d) W sm debt')) None p') → safe m t (store barriers with_barriers b f) (Ghost (Some (Hold d W sm debt)) None p) Q.
Proof.
  intros HJ Hd HQ. eapply (safe_data _ _ _ _ _ _ _ _ id); [done| |exact HJ|exact Hd|exact HQ].
  intros σ Hσ. unfold barrier_at in *. rewrite Hσ. eexists. split; [done|]. cbn. by rewrite lookup_insert_eq.
Qed.

Lemma safe_wait_while m t test d W p Q :
  (∀ d, test (total_height d) = true → bwait p d) → ~ block p →
  (∀ d W, test (total_height d) = false → Q tt (holds d W p)) → safe m t (wait_while_height b test) (holds d W p) Q.
Proof.
  intros Htest Hk HQ. apply (safe_iter _ _ t _ (fun _ g => ∃ d W, g = holds d W p)); [|eauto]. clear d W. intros k _ g (d & W & ->).
  apply safe_bind, safe_load_b. destruct (test (total_height d)) eqn:E.
  - rewrite <- Hcond, <- Hlock. apply safe_bind, safe_bind. apply safe_cond_wait; [done..|by apply Htest|]. intros d' W'. apply safe_ret, safe_ret. eauto.
  - apply safe_ret. by apply HQ.
Qed.

(** What the holder knows. *)
Lemma know_entering t p d evs phs :
  phs !! t = Some p → stg p = Announced → (∀ u r, phs !! u = Some r → u ≠ t → ~ block r) → total_height d <= FLAG → JB n goal d evs phs →
  curr_height d = n ∧ (total_height d = FLAG ∨ 0 <= total_height d < n).
Proof.
  intros Ht Hp Ho Hh (B & [H1 H2 _ _ _ _ _ _]). split; [done|]. unfold shape in H2.
  assert (total at_completing phs = 0) as H0.
  { apply total_zero. intros r [u Hu]%list_elem_of_lookup. unfold at_completing. destruct (decide (u = t)) as [->|Hne].
    - rewrite Ht in Hu. injection Hu as <-. by rewrite Hp.
    - specialize (Ho u r Hu Hne). unfold block in Ho. by destruct (stg r). }
  lia.
Qed.
Lemma know_leaving t p d evs phs :
  phs !! t = Some p → stg p = Arrived → FLAG <= total_height d → JB n goal d evs phs → FLAG < total_height d < FLAG + n.
Proof.
  intros Ht Hp Hh (B & [H1 H2 _ _ _ _ _ _]). unfold shape in H2. assert (1 <= total at_arrived phs); [|lia].
  pose proof (total_lookup at_arrived phs t p) as Hl. unfold at_arrived at 2 in Hl. rewrite Hp in Hl. apply Hl; [|done]. by intros [? []]; cbn.
Qed.

Lemma u32_height h : 0 <= h < FLAG + n → u32 h = h.
Proof. intros Hh. apply Z.mod_small. unfold PTHREAD_BARRIER_FLAG in *. lia. Qed.

(** A full round: its last thread. *)
Lemma safe_full m t d W k Q :
  curr_height d = n → total_height d = n → Q PTHREAD_BARRIER_SERIAL_THREAD (Ghost None None (BPh (k + 1) (Departed PTHREAD_BARRIER_SERIAL_THREAD))) →
  safe m t (h <~ load barriers b total_height;
            _ <~ store barriers with_barriers b (set_total_height (u32 (h + (FLAG - 1))));
            _ <~ pthread_cond_broadcast (breeched b);
            _ <~ pthread_mutex_unlock (barrier_lock b);
            PRet PTHREAD_BARRIER_SERIAL_THREAD) (holds d W (BPh k Completing)) Q.
Proof.
  intros Hc Hh HQ. apply safe_bind, safe_load_b. rewrite Hh, u32_height by lia. apply safe_bind.
  eapply safe_store_b; [intros evs phs Ht HJ; by eapply step_complete|by left|]. rewrite <- Hcond, <- Hlock. apply safe_bind, safe_cond_broadcast; [done|].
  apply safe_bind, safe_unlock; [done|done|]. by apply safe_ret.
Qed.

(** The others of the round, when it is full. *)
Lemma safe_leave m t d W k Q :
  Q 0 (Ghost None None (BPh (k + 1) (Departed 0))) →
  safe m t (_ <~ wait_while_height b (fun h => h <? FLAG);
            h <~ load barriers b total_height;
            _ <~ store barriers with_barriers b (set_total_height (u32 (h - 1)));
            h <~ load barriers b total_height;
            _ <~ (if h =? FLAG then pthread_cond_broadcast (breeched b) else PRet 0);
            _ <~ pthread_mutex_unlock (barrier_lock b);
            PRet 0) (holds d W (BPh k Arrived)) Q.
Proof.
  intros HQ. apply safe_bind, safe_wait_while; [intros d' Hd'; cbn; lia|done|]. clear d W. intros d W Hh. apply Z.ltb_ge in Hh.
  eapply (safe_know _ _ _ _ _ (FLAG < total_height d < FLAG + n)); [done|intros evs phs Ht _ HJ; by eapply know_leaving|]. intros Hd.
  apply safe_bind, safe_load_b. rewrite u32_height by (unfold PTHREAD_BARRIER_FLAG in *; lia). apply safe_bind.
  eapply (safe_store_b _ _ _ _ _ _ _ (if total_height d - 1 =? FLAG then Some O else None)); [intros evs phs Ht HJ; by eapply step_depart| |].
  { destruct (Z.eqb_spec (total_height d - 1) FLAG); [by left|right]. split; [done|]. intros r. unfold bwait. cbn. destruct (stg r); lia. }
  apply safe_bind, safe_load_b. cbn [total_height set_total_height]. rewrite <- Hcond, <- Hlock. destruct (total_height d - 1 =? FLAG).
  - apply safe_bind, safe_cond_broadcast; [done|]. apply safe_bind, safe_unlock; [done|done|]. by apply safe_ret.
  - apply safe_bind, safe_ret, safe_bind, safe_unlock; [done|done|]. by apply safe_ret.
Qed.

Lemma safe_barrier_wait m t k Q :
  (∀ r, Q r (Ghost None None (BPh (k + 1) (Departed r)))) → safe m t (pthread_barrier_wait b) (Ghost None None (BPh k Announced)) Q.
Proof.
  intros HQ. unfold pthread_barrier_wait. rewrite (proj2 (Z.eqb_neq _ _)) by done. rewrite <- Hlock at 1. apply safe_bind, safe_lock; [done|]. intros d W.
  apply safe_bind, safe_wait_while; [intros d' Hd'; cbn; lia|done|]. clear d W. intros d W Hh. apply Z.ltb_ge in Hh.
  eapply (safe_know _ _ _ _ _ (curr_height d = n ∧ (total_height d = FLAG ∨ 0 <= total_height d < n))); [done|intros evs phs Ht Ho HJ; by eapply know_entering|].
  intros [Hc Hd]. apply safe_bind, safe_load_b. apply safe_bind.
  assert (∀ d W, curr_height d = n → 0 <= total_height d < n → safe m t
    (h <~ load barriers b total_height;
     _ <~ store barriers with_barriers b (set_total_height (u32 (h + 1)));
     full <~ load barriers b (fun b => total_height b =? curr_height b);
     if (full : bool) then
       h <~ load barriers b total_height;
       _ <~ store barriers with_barriers b (set_total_height (u32 (h + (FLAG - 1))));
       _ <~ pthread_cond_broadcast (breeched b);
       _ <~ pthread_mutex_unlock (barrier_lock b);
       PRet PTHREAD_BARRIER_SERIAL_THREAD
     else
       _ <~ wait_while_height b (fun h => h <? FLAG);
       h <~ load barriers b total_height;
       _ <~ store barriers with_barriers b (set_total_height (u32 (h - 1)));
       h <~ load barriers b total_height;
       _ <~ (if h =? FLAG then pthread_cond_broadcast (breeched b) else PRet 0);
       _ <~ pthread_mutex_unlock (barrier_lock b);
       PRet 0) (holds d W (BPh k Announced)) Q) as Henter.
  { clear d W Hh Hc Hd. intros d W Hc Hd. apply safe_bind, safe_load_b. rewrite u32_height by lia. apply safe_bind.
    eapply safe_store_b; [intros evs phs Ht HJ; by eapply step_enter| |].
    { right. split; [done|]. intros r. unfold bwait. cbn. destruct (stg r); lia. }
    apply safe_bind, safe_load_b. cbn [total_height set_total_height curr_height]. rewrite Hc. destruct (Z.eqb_spec (total_height d + 1) n) as [E|E].
    - apply safe_full; [done|done|apply HQ].
    - apply safe_leave, HQ. }
  destruct (Z.eqb_spec (total_height d) FLAG) as [E|E].
  - eapply safe_store_b; [intros evs phs Ht HJ; by eapply step_open| |].
    { right. split; [done|]. intros r. unfold bwait. cbn. destruct (stg r); lia. }
    apply Henter; [done|cbn; lia].
  - apply safe_ret, Henter; [done|lia].
Qed.
End Calls.
