(* ===== verification/PthreadRounds.v ===== *)
(** * Rounds at a barrier

    What the invariant of PthreadBarrier.v gives for all interleavings of threads that
    pass a barrier: safety of the rounds, and that a pool in which no thread can go on
    has less threads left than a round needs. *)

From stdpp Require Import base numbers gmap list relations.
From S2P Require Import Prelude CMem Threads Pthread PthreadMachine PthreadMonitor PthreadRules PthreadBarrier.
Open Scope Z_scope.
#[local] Set Warnings "-clear-no-such-hyp".

Section Rounds.
Context `{ExecSync}.
#[local] Abbreviation FLAG := PTHREAD_BARRIER_FLAG.

(** A barrier for [n] threads that nobody has used yet. *)
Definition barrier_ready (b n : Z) (σ : pstate) : Prop :=
  ∃ P, placed P ∧ p_mutex P = barrier_lock b ∧ p_cond P = breeched b ∧ b ≠ NULL ∧
       objects_ok P σ None None [] ∧ barriers σ !! b = Some (PBarrier n FLAG).

(** How often the threads pass. *)
Definition goals (ks : list nat) (t : nat) : Z := Z.of_nat (default O (ks !! t)).

#[local] Abbreviation BInv P b n ks := (Inv P (barrier_at b) (JB n (goals ks)) bwait block).
#[local] Abbreviation fresh := (Ghost (D := pthread_barrier_t) None None (BPh 0 Idle)).
Definition ended (ks : list nat) (t : nat) (r : unit) (g : ghost pthread_barrier_t bphase) : Prop := g = Ghost None None (BPh (goals ks t) Idle).

Lemma safe_rounds P b n ks m t k : placed P → b ≠ NULL → 0 < n < FLAG → p_mutex P = barrier_lock b → p_cond P = breeched b →
  ∀ j, j + Z.of_nat k = goals ks t → safe (BInv P b n ks) waiting m t (rounds b k) (Ghost None None (BPh j Idle)) (ended ks t).
Proof.
  intros HP Hb Hn Hl Hc. induction k as [|k IH]; intros j Hj; cbn [rounds].
  - apply safe_ret. unfold ended. by rewrite <- Hj, Z.add_0_r.
  - apply safe_bind. eapply safe_log; [intros d evs phs Ht HJ; eapply step_announce; [done..|lia|done]|done|].
    apply safe_bind, safe_barrier_wait; [done..|]. intros r. apply safe_bind. eapply safe_log; [intros d evs phs Ht HJ; by eapply step_leave|done|].
    apply IH. lia.
Qed.

Lemma ready_inv n ks : 0 < n < FLAG → JB n (goals ks) (PBarrier n FLAG) [] (replicate (length ks) (BPh 0 Idle)).
Proof.
  intros Hn. exists 0. assert (∀ t p, replicate (length ks) (BPh 0 Idle) !! t = Some p → p = BPh 0 Idle) as Hp by (intros t p [-> _]%lookup_replicate; done).
  split; cbn; rewrite ?(total_zero _ _); try (intros p [-> _]%elem_of_replicate; done); [done|by left|unfold rest; cbn; lia|done..| |].
  - intros t p ->%Hp. unfold local_ok, present, departed, goals. cbn. lia.
  - intros _ t p ->%Hp. done.
Qed.

(** Every pool that can be reached has the invariant. *)
Lemma reach_inv b n ks σ σ' ps m : 0 < n < FLAG → barrier_ready b n σ → events σ = [] →
  reachable outside (σ, rounds b <$> ks) (σ', ps) → ∃ P γ, BInv P b n ks σ' γ ∧ all_safe (BInv P b n ks) waiting m ps γ (ended ks).
Proof.
  intros Hn (P & HP & Hl & Hc & Hb & Hobj & Hbar) He Hr. exists P.
  eapply (adequacy (BInv P b n ks) waiting outside (outside_inv _ _ _ _ _) (ended ks) _ _ Hr). intros k. exists (replicate (length ks) fresh).
  split; [apply start_inv with (PBarrier n FLAG); [done..|cbn [fst]; rewrite He; by apply ready_inv]|].
  cbn [fst snd]. split; [by rewrite length_fmap, length_replicate|]. intros t p g (r & -> & Hr')%list_lookup_fmap_Some [-> _]%lookup_replicate.
  apply (safe_rounds P b n ks k t r HP Hb Hn Hl Hc 0). unfold goals. by rewrite Hr'.
Qed.

(** The rounds of a pool with the invariant. *)
Lemma rounds_safe n ks d evs phs : 0 < n < FLAG → JB n (goals ks) d evs phs →
  count is_leave evs <= n * (count is_arrive evs / n) ∧ n * count is_serial evs <= count is_arrive evs ∧
  (Z.of_nat (length phs) = n → ∀ t u, (t < length phs)%nat → (u < length phs)%nat → count (leave_of t) evs <= count (arrive_of u) evs).
Proof.
  intros Hn (B & [H1 H2 H3 H4 H5 H6 H7 H8]). unfold shape in H2.
  assert (total at_arrived phs <= total present phs) as Hap by (apply total_mono; intros [? []]; cbn; lia).
  assert (0 <= total serial phs) by (apply total_nonneg; intros [? []]; cbn; try lia; destruct (_ =? _); cbn; lia).
  assert (0 <= total departed phs) by (apply total_nonneg; intros [? []]; cbn; lia).
  assert (0 <= total present phs) by (apply total_nonneg; intros [? []]; cbn; lia).
  assert (n * B <= count is_arrive evs) as HB by (rewrite H5, H3; unfold rest; destruct (Z.ltb_spec FLAG (total_height d)); lia).
  assert (0 <= rest (total_height d)) by (unfold rest; destruct (Z.ltb_spec FLAG (total_height d)); lia).
  assert (B <= count is_arrive evs / n) by (apply Z.div_le_lower_bound; lia). split; [nia|split; [nia|]].
  intros Hl t u [p Hp]%lookup_lt_is_Some_2 [q Hq]%lookup_lt_is_Some_2. destruct (H7 t p Hp) as (_ & -> & _). destruct (H7 u q Hq) as (-> & _).
  rewrite (H8 Hl t p Hp), (H8 Hl u q Hq). unfold departed, present, at_arrived. destruct (FLAG <? total_height d), (stg p), (stg q); lia.
Qed.

(** Threads that sleep at a barrier, each for its reason: all have arrived, and they are
    too few. *)
Lemma sleepers_few n ks d evs phs : 0 < n < FLAG → JB n (goals ks) d evs phs →
  (∀ t p, phs !! t = Some p → (stg p = Idle ∨ bwait p d) ∧ ~ block p) →
  total at_arrived phs < n ∧ ∀ t p, phs !! t = Some p → stg p = Idle ∨ (stg p = Arrived ∧ total_height d < FLAG).
Proof.
  intros Hn (B & [H1 H2 _ _ _ _ _ _]) Hall. unfold shape in H2.
  assert (total at_completing phs = 0) as H0.
  { apply total_zero. intros p [t Ht]%list_elem_of_lookup. destruct (Hall t p Ht) as [_ Hb]. unfold block, at_completing in *. by destruct (stg p). }
  destruct (Z.ltb_spec FLAG (total_height d)) as [Hh|Hh].
  - exfalso. assert (total at_arrived phs = 0); [|lia]. apply total_zero. intros p [t Ht]%list_elem_of_lookup.
    destruct (Hall t p Ht) as [[Hp|Hp] _]; unfold at_arrived; [by rewrite Hp|]. unfold bwait in Hp. destruct (stg p); lia.
  - split; [lia|]. intros t p Ht. destruct (Hall t p Ht) as [[Hp|Hp] _]; [by left|right]. unfold bwait in Hp. destruct (stg p); [lia..|done|lia|lia].
Qed.

Lemma count_total {A G : Type} (f : A → bool) (h : G → Z) (ps : list A) (γ : list G) :
  length γ = length ps → (∀ t p g, ps !! t = Some p → γ !! t = Some g → b2z (f p) <= h g) → count f ps <= total h γ.
Proof.
  revert γ. induction ps as [|p ps IH]; intros [|g γ] Hl Hf; [done..|]. change (b2z (f p) + count f ps <= h g + total h γ).
  pose proof (Hf O p g eq_refl eq_refl). assert (count f ps <= total h γ); [|lia]. apply IH; [by injection Hl|]. intros t. apply (Hf (S t)).
Qed.

(** A pool in which no thread can go on. *)
Lemma stuck_sleep b n ks σ σ' ps : 0 < n < FLAG → barrier_ready b n σ → events σ = [] →
  reachable outside (σ, rounds b <$> ks) (σ', ps) → stuck (σ', ps) →
  ∃ d phs, length phs = length ps ∧ JB n (goals ks) d (events σ') phs ∧
    (∀ t p, phs !! t = Some p → (stg p = Idle ∨ bwait p d) ∧ ~ block p) ∧
    ∀ t p r, ps !! t = Some r → phs !! t = Some p →
      if finished r then r = PRet tt ∧ p = BPh (goals ks t) Idle else bwait p d.
Proof.
  intros Hn Hready He Hr Hst. destruct (reach_inv b n ks σ σ' ps 1 Hn Hready He Hr) as (P & γ & HI & Hs). pose proof Hs as [Hl _].
  assert (∀ t r g, ps !! t = Some r → γ !! t = Some g → if finished r then r = PRet tt ∧ ended ks t tt g else waiting t σ' γ) as Hcase.
  { intros t r g Hp Hg. destruct (safe_now _ _ _ _ _ _ _ _ _ HI Hs Hp Hg) as [([] & -> & Hq)|[Hn0 [(p' & τ & Hgo)|[_ Hw]]]]; [done| |].
    - exfalso. by eapply Hst.
    - unfold finished. by rewrite Hn0. }
  assert (∀ t g, γ !! t = Some g → ∃ r, ps !! t = Some r) as Hps by (intros t g Hg; apply lookup_lt_is_Some_2; rewrite <- Hl; by eapply lookup_lt_Some).
  destruct (asleep P (barrier_at b) (JB n (goals ks)) bwait block σ' γ HI) as (d & _ & HJ & Hw & Hb).
  { intros t g Hg. destruct (Hps t g Hg) as [r Hp]. specialize (Hcase t r g Hp Hg). destruct (finished r); [by destruct Hcase as [_ ->]|].
    destruct Hcase as (g' & Hg' & Hown & _). rewrite Hg in Hg'. by injection Hg' as <-. }
  exists d, (ph <$> γ). split; [by rewrite length_fmap|split; [done|split]].
  - intros t p (g & -> & Hg)%list_lookup_fmap_Some. destruct (Hps t g Hg) as [r Hp]. specialize (Hcase t r g Hp Hg). split; [|by eapply Hb].
    destruct (finished r); [left; by destruct Hcase as [_ ->]|right; by eapply Hw].
  - intros t p r Hp (g & -> & Hg)%list_lookup_fmap_Some. specialize (Hcase t r g Hp Hg). destruct (finished r); [by destruct Hcase as [-> ->]|by eapply Hw].
Qed.

Lemma goals_replicate n k t : (t < n)%nat → goals (replicate n k) t = Z.of_nat k.
Proof. intros Ht. unfold goals. by rewrite lookup_replicate_2. Qed.

(** If the threads are as many as a round needs, all have ended. *)
Lemma sleepers_none n k d evs phs (ps : list (prog pstate unit)) : (0 < n)%nat → Z.of_nat n < FLAG → length phs = n → length ps = n →
  JB (Z.of_nat n) (goals (replicate n k)) d evs phs → (∀ t p, phs !! t = Some p → (stg p = Idle ∨ bwait p d) ∧ ~ block p) →
  (∀ t p r, ps !! t = Some r → phs !! t = Some p → if finished r then r = PRet tt ∧ p = BPh (goals (replicate n k) t) Idle else bwait p d) →
  (∀ t r, ps !! t = Some r → r = PRet tt) ∧ count is_serial evs = Z.of_nat k ∧ ∀ t, (t < n)%nat → count (leave_of t) evs = Z.of_nat k.
Proof.
  intros Hn Hflag Hl Hlp HJ Hall Hps. assert (0 < Z.of_nat n < FLAG) as Hn' by lia. destruct (sleepers_few _ _ d _ phs Hn' HJ Hall) as [Hlt Hst].
  destruct HJ as (B & [H1 H2 H3 H4 H5 H6 H7 H8]). specialize (H8 (f_equal Z.of_nat Hl)).
  assert (∀ t p, phs !! t = Some p → stg p = Idle → rnd p = Z.of_nat k ∧ B = Z.of_nat k) as Hidle.
  { intros t p Hp Hi. pose proof (lookup_lt_Some _ _ _ Hp) as Ht. rewrite Hl, <- Hlp in Ht. apply lookup_lt_is_Some_2 in Ht as [r Hr]. specialize (Hps t p r Hr Hp).
    apply lookup_lt_Some in Hr. destruct (finished r); [|unfold bwait in Hps; by rewrite Hi in Hps]. destruct Hps as [_ ->]. pose proof (H8 t _ Hp) as HB.
    unfold at_arrived in HB. cbn in *. rewrite goals_replicate in * by lia. destruct (FLAG <? total_height d); lia. }
  assert (∀ t p, phs !! t = Some p → stg p = Idle) as Hnone.
  { intros t p Hp. destruct (Hst t p Hp) as [|[Ha Hh]]; [done|exfalso]. assert (total at_arrived phs = Z.of_nat (length phs)) as Hfull; [|lia].
    apply total_full. intros u q Hq. destruct (Hst u q Hq) as [Hi|[Hi _]]; unfold at_arrived; rewrite Hi; [exfalso|done].
    destruct (Hidle u q Hq Hi) as [_ HB]. destruct (H7 t p Hp) as (_ & _ & _ & Hg). rewrite (H8 t p Hp) in Hg. unfold present in Hg. rewrite Ha in Hg.
    rewrite goals_replicate in Hg by (rewrite <- Hl; by eapply lookup_lt_Some). destruct (Z.ltb_spec FLAG (total_height d)); lia. }
  assert (∀ t, (t < n)%nat → ∃ p, phs !! t = Some p ∧ stg p = Idle) as Hex.
  { intros t Ht. rewrite <- Hl in Ht. apply lookup_lt_is_Some_2 in Ht as [p Hp]. eauto. }
  destruct (Hex O Hn) as (p0 & Hp0 & Hi0). destruct (Hidle _ _ Hp0 Hi0) as [_ HB]. split; [|split].
  - intros t r Hr. destruct (Hex t) as (p & Hp & Hi); [rewrite <- Hlp; by eapply lookup_lt_Some|]. specialize (Hps t p r Hr Hp).
    destruct (finished r); [by destruct Hps|]. unfold bwait in Hps. by rewrite Hi in Hps.
  - rewrite (total_zero serial phs) in H4; [lia|]. intros p [t Hp]%list_elem_of_lookup. unfold serial. by rewrite (Hnone t p Hp).
  - intros t Ht. destruct (Hex t Ht) as (p & Hp & Hi). destruct (H7 t p Hp) as (_ & -> & _). unfold departed. rewrite Hi. destruct (Hidle t p Hp Hi). lia.
Qed.
End Rounds.

(** A barrier for two, on the machine. *)
Definition barrier_for_two : pstate := after (pthread_barrier_init 100 2) raw_state.
Lemma barrier_for_two_ready : barrier_ready 100 2 barrier_for_two.
Proof.
  exists (Places 124 108 4224 4096 4160). split; [by split|]. do 3 (split; [done|]). split; [|by vm_compute].
  split; [exists 0; by vm_compute|]. by vm_compute.
Qed.
(** Two threads after [m] steps in turn. *)
Definition two_threads (k m : nat) : pool (S := pstate) unit := round_robin m 0 (barrier_for_two, rounds 100 <$> replicate 2 k).

(** ** Theorems *)

(** C19: Whatever the interleaving of any number of threads that pass a barrier for [n], and
    whatever signals reach them from outside: the number of returns from
    [pthread_barrier_wait] is never above [n] times the number of complete groups of [n]
    arrivals, and there is at most one serial thread for [n] arrivals.  If there are
    exactly [n] threads, nobody has left a round that somebody has not come to. *)
Theorem barrier_rounds `{ExecSync} b n ks σ σ' ps :
  0 < n < PTHREAD_BARRIER_FLAG → barrier_ready b n σ → events σ = [] → reachable outside (σ, rounds b <$> ks) (σ', ps) →
  let evs := events σ' in
  count is_leave evs <= n * (count is_arrive evs / n) ∧ n * count is_serial evs <= count is_arrive evs ∧
  (Z.of_nat (length ks) = n → ∀ t u, (t < length ks)%nat → (u < length ks)%nat → count (leave_of t) evs <= count (arrive_of u) evs).
Proof.
  intros Hn Hready He Hr. destruct (reach_inv b n ks σ σ' ps 1 Hn Hready He Hr) as (P & γ & [(d & mo & so & W & _ & _ & _ & HJ)] & [Hl _]).
  pose proof (reachable_length _ _ _ Hr) as Hlen. cbn [snd] in Hlen. rewrite length_fmap in Hlen.
  destruct (rounds_safe n ks d (events σ') (ph <$> γ) Hn HJ) as (H1 & H2 & H3). rewrite length_fmap, Hl, Hlen in H3. done.
Qed.

(** A pool in which no thread can make a step, after any interleaving: the threads that
    have not finished are fewer than a round needs, and none of them has been let
    through; no wake-up is lost. *)
Theorem barrier_progress `{ExecSync} b n ks σ σ' ps :
  0 < n < PTHREAD_BARRIER_FLAG → barrier_ready b n σ → events σ = [] → reachable outside (σ, rounds b <$> ks) (σ', ps) → stuck (σ', ps) →
  count (fun p => negb (finished p)) ps < n.
Proof.
  intros Hn Hready He Hr Hst. destruct (stuck_sleep b n ks σ σ' ps Hn Hready He Hr Hst) as (d & phs & Hl & HJ & Hall & Hps).
  destruct (sleepers_few n ks d _ phs Hn HJ Hall) as [Hlt Hst']. eapply Z.le_lt_trans; [|exact Hlt]. apply count_total; [done|].
  intros t p g Hp Hg. specialize (Hps t g p Hp Hg). destruct (finished p); cbn; [by destruct g as [? []]|].
  destruct (Hst' t g Hg) as [Hi|[Hi _]]; unfold bwait, at_arrived in *; rewrite Hi in *; done.
Qed.

(** C20: [n] threads that pass a barrier for [n] threads [k] times each never get stuck before
    the end: when no thread can go on, all have returned [k] times, and one of them in
    every round as the serial thread. *)
Theorem barrier_all_pass `{ExecSync} b n k σ σ' ps :
  (0 < n)%nat → Z.of_nat n < PTHREAD_BARRIER_FLAG → barrier_ready b (Z.of_nat n) σ → events σ = [] →
  reachable outside (σ, rounds b <$> replicate n k) (σ', ps) → stuck (σ', ps) →
  (∀ p, p ∈ ps → p = PRet tt) ∧ count is_serial (events σ') = Z.of_nat k ∧ ∀ t, (t < n)%nat → count (leave_of t) (events σ') = Z.of_nat k.
Proof.
  intros Hn Hflag Hready He Hr Hst. assert (0 < Z.of_nat n < PTHREAD_BARRIER_FLAG) as Hn' by lia.
  destruct (stuck_sleep b _ _ σ σ' ps Hn' Hready He Hr Hst) as (d & phs & Hl & HJ & Hall & Hps).
  pose proof (reachable_length _ _ _ Hr) as Hlen. cbn [snd] in Hlen. rewrite length_fmap, length_replicate in Hlen.
  destruct (sleepers_none n k d (events σ') phs ps) as (Hfin & Hserial & Hleave); [done|lia..|done|done|done|].
  split; [|done]. intros p [t Ht]%list_elem_of_lookup. by eapply Hfin.
Qed.

(** Two threads in the second round. *)
Lemma barrier_rounds_witness : let evs := events (two_threads 2 300).1 in
  0 < count is_leave evs ∧ count is_leave evs <= 2 * (count is_arrive evs / 2) ∧ 2 * count is_serial evs <= count is_arrive evs.
Proof.
  intros evs. split; [by vm_compute|]. edestruct (barrier_rounds 100 2 (replicate 2 2%nat) barrier_for_two (two_threads 2 300).1 (two_threads 2 300).2) as (H1 & H2 & _);
    [by vm_compute|exact barrier_for_two_ready|by vm_compute|rewrite <- surjective_pairing; apply round_robin_reachable|exact (conj H1 H2)].
Defined.

(** Three threads at a barrier for two: one of them is left. *)
Lemma barrier_progress_witness :
  let ρ := round_robin 3000 0 (barrier_for_two, rounds 100 <$> [1; 1; 1]%nat) in
  count (fun p => negb (finished p)) ρ.2 = 1 ∧ count (fun p => negb (finished p)) ρ.2 < 2.
Proof.
  intros ρ. split; [by vm_compute|]. apply (barrier_progress 100 2 [1; 1; 1]%nat barrier_for_two ρ.1);
    [by vm_compute|exact barrier_for_two_ready|by vm_compute|rewrite <- surjective_pairing; apply round_robin_reachable|apply stuckb_stuck; by vm_compute].
Defined.
(** Two threads at the end. *)
Lemma barrier_all_pass_witness : count is_serial (events (two_threads 2 1500).1) = 2.
Proof.
  edestruct (barrier_all_pass 100 2 2 barrier_for_two (two_threads 2 1500).1 (two_threads 2 1500).2) as (_ & H & _);
    [lia|by vm_compute|exact barrier_for_two_ready|by vm_compute|rewrite <- surjective_pairing; apply round_robin_reachable|apply stuckb_stuck; by vm_compute|exact H].
Defined.
