(* ===== verification/PthreadInit.v ===== *)
(** * Initialisation and destruction

    What [pthread_mutex_init], [pthread_cond_init], [pthread_barrier_init] and [sem_init]
    leave behind, and what [pthread_barrier_destroy] gives back, when one thread calls
    them alone. *)

From stdpp Require Import base numbers gmap list.
From S2P Require Import Prelude CMem Threads Pthread PthreadMachine PthreadMonitor PthreadRules PthreadBarrier PthreadRounds.
Open Scope Z_scope.
#[local] Set Warnings "-clear-no-such-hyp".

Section Init.
Context `{ExecSync}.

(** The next action, then the rest. *)
#[local] Ltac act := eapply runs_bind; [by apply runs_act; cbn; rewrite ?lookup_insert_eq|].

Lemma mutex_init_runs t σ L m : L ≠ NULL → mutexes σ !! L = Some m →
  ∃ h x, runs t σ (pthread_mutex_init L None) 0 (with_px x (with_mutexes (<[L := PMutex h PTHREAD_MUTEX_DEFAULT 0]> (mutexes σ)) σ)) ∧
    Sync.semas (view x) = Sync.semas (view (px σ)) ∧ (h ≠ NULL → Sync.mutexes (view x) !! h = Some (Sync.Mutex false None)).
Proof.
  intros HL Hm. destruct (AllocMutex false (px σ)) as [h x] eqn:Ea. exists h, x. split.
  - unfold pthread_mutex_init, pthread_mutex_init_. rewrite (proj2 (Z.eqb_neq _ _)) by done. cbn [negb].
    eapply runs_bind; [by apply runs_act; rewrite Hm|]. act.
    eapply runs_bind; [apply runs_act; cbn; by rewrite Ea|]. act. act. cbn. rewrite !insert_insert_eq. apply runs_ret.
  - destruct (AllocMutex_law _ _ _ _ Ea) as [[-> ->]|(Hh & _ & ->)]; [done|]. split; [done|]. intros _. cbn. by rewrite lookup_insert_eq.
Qed.

Lemma cond_init_runs t σ C c attr : C ≠ NULL → conds σ !! C = Some c →
  ∃ r c' τ, runs t σ (pthread_cond_init C attr) r τ ∧ mutexes τ = mutexes σ ∧ barriers τ = barriers σ ∧ sems τ = sems σ ∧ events τ = events σ ∧
    conds τ !! C = Some c' ∧ c_condattr c' = attr ∧ Sync.mutexes (view (px τ)) = Sync.mutexes (view (px σ)) ∧
    (c_semaphore c' ≠ NULL → c_waiters c' ≠ NULL → r = 0 ∧ lists τ !! c_waiters c' = Some [] ∧ Sync.semas (view (px τ)) !! c_semaphore c' = Some None).
Proof.
  intros HC Hc. unfold pthread_cond_init. rewrite (proj2 (Z.eqb_neq _ _)) by done. destruct (AllocSema (px σ)) as [s x] eqn:Es.
  destruct (Z.eqb_spec s NULL) as [->|Hs].
  { do 3 eexists. split; [eapply runs_bind; [by apply runs_act; rewrite Hc|]; eapply runs_bind; [apply runs_act; cbn; by rewrite Es|]; act; apply runs_ret|].
    cbn. rewrite lookup_insert_eq. do 6 (split; [done|]). split; [by destruct (AllocSema_law _ _ _ Es) as [[_ ->]|(Hn & _)]|done]. }
  destruct (AllocSema_law _ _ _ Es) as [[-> _]|(_ & _ & Hx)]; [done|]. destruct (malloc SIZEOF_MINLIST x) as [w y] eqn:Ew.
  assert (Sync.mutexes (view y) = Sync.mutexes (view (px σ)) ∧ Sync.semas (view y) = <[s := None]> (Sync.semas (view (px σ)))) as [Hym Hys].
  { destruct (malloc_law _ _ _ _ Ew) as [[_ ->]|(_ & _ & ->)]; by rewrite Hx. }
  destruct (Z.eqb_spec w NULL) as [->|Hw].
  { do 3 eexists. split; [eapply runs_bind; [by apply runs_act; rewrite Hc|]; eapply runs_bind; [apply runs_act; cbn; by rewrite Es|]; act|].
    - rewrite (proj2 (Z.eqb_neq s NULL)) by done. eapply runs_bind; [apply runs_act; cbn; by rewrite Ew|]. act. act. act. apply runs_ret.
    - cbn. rewrite lookup_insert_eq, FreeSema_law. by do 6 (split; [done|]). }
  do 3 eexists. split; [eapply runs_bind; [by apply runs_act; rewrite Hc|]; eapply runs_bind; [apply runs_act; cbn; by rewrite Es|]; act|].
  - rewrite (proj2 (Z.eqb_neq s NULL)) by done. eapply runs_bind; [apply runs_act; cbn; by rewrite Ew|]. act.
    rewrite (proj2 (Z.eqb_neq w NULL)) by done. act. apply runs_ret.
  - cbn. rewrite !lookup_insert_eq. do 7 (split; [done|]). intros _ _. cbn. by rewrite lookup_insert_eq, Hys, lookup_insert_eq.
Qed.

(** The objects of a monitor have all been allocated. *)
Definition allocated (L C : Z) (σ : pstate) : Prop :=
  ∃ m c, mutexes σ !! L = Some m ∧ conds σ !! C = Some c ∧ m_mutex m ≠ NULL ∧ c_semaphore c ≠ NULL ∧ c_waiters c ≠ NULL.

(** [pthread_barrier_init] returns 0 whatever happens; if exec and [malloc] have given
    what it asked for, the barrier is ready for its threads. *)
Theorem barrier_init_ready b n t σ m c x :
  0 < b → 0 < n → mutexes σ !! barrier_lock b = Some m → conds σ !! breeched b = Some c → barriers σ !! b = Some x →
  ∃ τ, runs t σ (pthread_barrier_init b n) 0 τ ∧ events τ = events σ ∧
    (allocated (barrier_lock b) (breeched b) τ → barrier_ready b n τ).
Proof.
  intros Hb Hn Hm Hc Hx. set (σ1 := with_barriers (<[b := PBarrier n PTHREAD_BARRIER_FLAG]> (barriers σ)) σ).
  destruct (cond_init_runs t σ1 (breeched b) c NULL) as (r & c' & τ & Hrun & E1 & E2 & E3 & E4 & Hc' & Hattr & _ & Hgood); [unfold breeched, NULL; lia|done|].
  destruct (mutex_init_runs t τ (barrier_lock b) m) as (h & y & Hrun' & Hy & Hh); [unfold barrier_lock, NULL; lia|by rewrite E1|].
  exists (with_px y (with_mutexes (<[barrier_lock b := PMutex h PTHREAD_MUTEX_DEFAULT 0]> (mutexes τ)) τ)). split; [|split; [cbn; by rewrite E4|]].
  - unfold pthread_barrier_init. rewrite !(proj2 (Z.eqb_neq _ _)) by (unfold NULL; lia). cbn [orb].
    eapply runs_bind; [by apply runs_act; rewrite Hx|]. eapply runs_bind; [by apply runs_act; cbn; rewrite lookup_insert_eq|]. cbn. rewrite insert_insert_eq.
    eapply runs_bind; [exact Hrun|]. eapply runs_bind; [exact Hrun'|]. apply runs_ret.
  - intros (m2 & c2 & Hm2 & Hc2 & N1 & N2 & N3). cbn in Hm2, Hc2. rewrite lookup_insert_eq in Hm2. injection Hm2 as <-. rewrite Hc' in Hc2. injection Hc2 as <-.
    destruct (Hgood N2 N3) as (_ & G1 & G2). exists (Places (barrier_lock b) (breeched b) h (c_semaphore c') (c_waiters c')).
    split; [split; cbn; [unfold barrier_lock, NULL; lia|unfold breeched, NULL; lia|done|done]|]. cbn. do 2 (split; [done|]). split; [unfold NULL; lia|split].
    + unfold objects_ok. cbn. rewrite lookup_insert_eq, Hc', Hy. split; [eauto|]. split; [by destruct c'; cbn in *; subst|]. auto.
    + rewrite E2. cbn. by rewrite lookup_insert_eq.
Qed.
End Init.

(** The barrier for two is ready. *)
Lemma barrier_init_ready_witness : ∃ τ, runs 0 raw_state (pthread_barrier_init 100 2) 0 τ ∧ events τ = [].
Proof.
  destruct (barrier_init_ready 100 2 0 raw_state (PMutex 0 0 0) (PCond 0 0 0) (PBarrier 0 0)) as (τ & H1 & H2 & _); [done|done|by vm_compute..|].
  exists τ. split; [exact H1|exact H2].
Defined.

(** ** Destruction *)

Section Destroy.
Context `{ExecSync}.

Lemma attempt_free t x h r : Sync.mutexes (view x) !! h = Some (Sync.Mutex r None) →
  ∃ y, MutexAttempt t h x = Go true y ∧ view y = Sync.set_mutex h (Sync.Mutex r (Some (t, 1))) (view x).
Proof.
  intros Hm. pose proof (MutexAttempt_law t h x) as Hlaw. unfold Sync.attempt_mutex, Sync.obtain_mutex in Hlaw. rewrite Hm in Hlaw.
  destruct (MutexAttempt t h x) as [b y| |]; [|done..]. injection Hlaw as -> Hy. eauto.
Qed.
Lemma release_held t x h r : Sync.mutexes (view x) !! h = Some (Sync.Mutex r (Some (t, 1))) →
  ∃ y, MutexRelease t h x = Go tt y ∧ view y = Sync.set_mutex h (Sync.Mutex r None) (view x).
Proof.
  intros Hm. pose proof (MutexRelease_law t h x) as Hlaw. unfold Sync.release_mutex in Hlaw. rewrite Hm, bool_decide_true in Hlaw by done.
  destruct (MutexRelease t h x) as [[] y| |]; [|done..]. injection Hlaw as Hy. eauto.
Qed.
Lemma attempt_free_sema t x s : Sync.semas (view x) !! s = Some None →
  ∃ y, AttemptSemaphore t s x = Go true y ∧ view y = Sync.set_sema s (Some (t, 1)) (view x).
Proof.
  intros Hs. pose proof (AttemptSemaphore_law t s x) as Hlaw. unfold Sync.attempt_sema, Sync.obtain_sema in Hlaw. rewrite Hs in Hlaw.
  destruct (AttemptSemaphore t s x) as [b y| |]; [|done..]. injection Hlaw as -> Hy. eauto.
Qed.
Lemma release_held_sema t x s : Sync.semas (view x) !! s = Some (Some (t, 1)) →
  ∃ y, ReleaseSemaphore t s x = Go tt y ∧ view y = Sync.set_sema s None (view x).
Proof.
  intros Hs. pose proof (ReleaseSemaphore_law t s x) as Hlaw. unfold Sync.release_sema in Hlaw. rewrite Hs, bool_decide_true in Hlaw by done.
  destruct (ReleaseSemaphore t s x) as [[] y| |]; [|done..]. injection Hlaw as Hy. eauto.
Qed.
(** Taking and giving back leaves exec as it was. *)
Lemma set_mutex_back h r m v : Sync.mutexes v !! h = Some (Sync.Mutex r None) → Sync.set_mutex h (Sync.Mutex r None) (Sync.set_mutex h m v) = v.
Proof. intros Hm. destruct v. unfold Sync.set_mutex. cbn in *. rewrite insert_insert_eq, insert_id by done. done. Qed.
Lemma set_sema_back s o v : Sync.semas v !! s = Some None → Sync.set_sema s None (Sync.set_sema s o v) = v.
Proof. intros Hs. destruct v. unfold Sync.set_sema. cbn in *. rewrite insert_insert_eq, insert_id by done. done. Qed.

Lemma ready_runs t σ L h k inc : mutexes σ !! L = Some (PMutex h k inc) → h ≠ NULL → runs t σ (mutex_ready L) true σ.
Proof. intros Hm Hh. eapply runs_bind; [by apply runs_act; rewrite Hm|]. cbn [m_mutex]. rewrite (proj2 (Z.eqb_neq _ _)) by done. apply runs_ret. Qed.

Lemma trylock_runs t σ L h k inc r : L ≠ NULL → h ≠ NULL → mutexes σ !! L = Some (PMutex h k inc) → Sync.mutexes (view (px σ)) !! h = Some (Sync.Mutex r None) →
  ∃ x, runs t σ (pthread_mutex_trylock L) 0 (with_px x σ) ∧ view x = Sync.set_mutex h (Sync.Mutex r (Some (t, 1))) (view (px σ)).
Proof.
  intros HL Hh Hm Hv. destruct (attempt_free t (px σ) h r Hv) as (y & Ey & Hy). exists y. split; [|done]. unfold pthread_mutex_trylock.
  rewrite (proj2 (Z.eqb_neq _ _)) by done. eapply runs_bind; [by eapply ready_runs|]. cbn [negb]. eapply runs_bind; [by apply runs_act; rewrite Hm|].
  eapply runs_bind; [apply runs_act; cbn; by rewrite Ey|]. apply runs_ret.
Qed.
Lemma unlock_runs t σ L h k inc r : L ≠ NULL → h ≠ NULL → mutexes σ !! L = Some (PMutex h k inc) → Sync.mutexes (view (px σ)) !! h = Some (Sync.Mutex r (Some (t, 1))) →
  ∃ x, runs t σ (pthread_mutex_unlock L) 0 (with_px x σ) ∧ view x = Sync.set_mutex h (Sync.Mutex r None) (view (px σ)).
Proof.
  intros HL Hh Hm Hv. destruct (release_held t (px σ) h r Hv) as (y & Ey & Hy). exists y. split; [|done]. unfold pthread_mutex_unlock.
  rewrite (proj2 (Z.eqb_neq _ _)) by done. eapply runs_bind; [by eapply ready_runs|]. cbn [negb]. eapply runs_bind; [by apply runs_act; rewrite Hm|].
  eapply runs_bind; [apply runs_act; cbn; by rewrite Ey|]. apply runs_ret.
Qed.
Lemma mutex_destroy_runs t σ L h k r : L ≠ NULL → h ≠ NULL → mutexes σ !! L = Some (PMutex h k 0) → Sync.mutexes (view (px σ)) !! h = Some (Sync.Mutex r None) →
  ∃ x, runs t σ (pthread_mutex_destroy L) 0 (with_mutexes (<[L := PMutex 0 0 0]> (mutexes σ)) (with_px x σ)) ∧ view x = Sync.free_mutex h (view (px σ)).
Proof.
  intros HL Hh Hm Hv. destruct (attempt_free t (px σ) h r Hv) as (y & Ey & Hy). destruct (release_held t y h r) as (z & Ez & Hz); [rewrite Hy; cbn; apply lookup_insert_eq|].
  exists (FreeMutex h z). split; [|by rewrite FreeMutex_law, Hz, Hy, set_mutex_back]. unfold pthread_mutex_destroy. rewrite (proj2 (Z.eqb_neq _ _)) by done.
  eapply runs_bind; [by apply runs_act; rewrite Hm|]. cbn [m_mutex]. rewrite (proj2 (Z.eqb_neq _ _)) by done. eapply runs_bind; [by apply runs_act; rewrite Hm|].
  eapply runs_bind; [apply runs_act; cbn; by rewrite Ey|]. cbn [negb]. eapply runs_bind; [apply runs_act; cbn; by rewrite Hm|]. eapply runs_bind; [apply runs_act; cbn; by rewrite Hm|].
  eapply runs_bind; [apply runs_act; cbn; by rewrite Ez|]. cbn [m_incond Z.eqb negb]. eapply runs_bind; [apply runs_act; cbn; by rewrite Hm|].
  eapply runs_bind; [by apply runs_act|]. eapply runs_bind; [apply runs_act; cbn; by rewrite Hm|]. apply runs_ret.
Qed.
Lemma cond_destroy_runs t σ C s w a : C ≠ NULL → s ≠ NULL → conds σ !! C = Some (PCond s w a) → lists σ !! w = Some [] → Sync.semas (view (px σ)) !! s = Some None →
  ∃ x, runs t σ (pthread_cond_destroy C) 0 (with_conds (<[C := PCond 0 0 0]> (conds σ)) (with_lists (delete w (lists σ)) (with_px x σ))) ∧
    view x = Sync.set_blocks (Sync.blocks (view (px σ)) ∖ {[w]}) (Sync.free_sema s (view (px σ))).
Proof.
  intros HC Hs Hc Hl Hv. destruct (attempt_free_sema t (px σ) s Hv) as (y & Ey & Hy). destruct (release_held_sema t y s) as (z & Ez & Hz); [rewrite Hy; cbn; apply lookup_insert_eq|].
  exists (free w (FreeSema s z)). split; [|by rewrite free_law, FreeSema_law, Hz, Hy, set_sema_back]. unfold pthread_cond_destroy. rewrite (proj2 (Z.eqb_neq _ _)) by done.
  eapply runs_bind; [by apply runs_act; rewrite Hc|]. cbn [c_semaphore]. eapply runs_bind.
  { unfold SemaphoreIsInvalid. rewrite (proj2 (Z.eqb_neq _ _)) by done. apply runs_act. by rewrite Hv. }
  eapply runs_bind; [apply runs_act; cbn; by rewrite Ey|]. cbn [negb]. eapply runs_bind; [apply runs_act; cbn; by rewrite Hc|]. cbn [c_waiters].
  eapply runs_bind; [apply runs_act; cbn; by rewrite Hl|]. eapply runs_bind; [apply runs_act; cbn; by rewrite Ez|]. eapply runs_bind; [by apply runs_act|].
  eapply runs_bind; [by apply runs_act|]. eapply runs_bind; [by apply runs_act|]. eapply runs_bind; [apply runs_act; cbn; by rewrite Hc|]. apply runs_ret.
Qed.

(** [pthread_barrier_destroy] on a barrier that nobody uses returns 0, and gives the
    mutex, the semaphore and the list of the condition back to exec and [malloc]; nothing
    else of exec changes. *)
Theorem barrier_destroy_frees b n h s w k r t σ :
  0 < b → h ≠ NULL → s ≠ NULL → barriers σ !! b = Some (PBarrier n PTHREAD_BARRIER_FLAG) →
  mutexes σ !! barrier_lock b = Some (PMutex h k 0) → Sync.mutexes (view (px σ)) !! h = Some (Sync.Mutex r None) →
  conds σ !! breeched b = Some (PCond s w NULL) → lists σ !! w = Some [] → Sync.semas (view (px σ)) !! s = Some None →
  ∃ τ, runs t σ (pthread_barrier_destroy b) 0 τ ∧
    view (px τ) = Sync.free_mutex h (Sync.set_blocks (Sync.blocks (view (px σ)) ∖ {[w]}) (Sync.free_sema s (view (px σ)))) ∧
    barriers τ !! b = Some (PBarrier 0 0) ∧ mutexes τ !! barrier_lock b = Some (PMutex 0 0 0) ∧ conds τ !! breeched b = Some (PCond 0 0 0).
Proof.
  intros Hb Hh Hs Hbar Hm Hmv Hc Hl Hsv. assert (barrier_lock b ≠ NULL ∧ breeched b ≠ NULL ∧ b ≠ NULL) as (HL & HC & Hb') by (unfold barrier_lock, breeched, NULL; lia).
  destruct (trylock_runs t σ _ h k 0 r HL Hh Hm Hmv) as (x1 & R1 & V1).
  destruct (unlock_runs t (with_px x1 σ) _ h k 0 r HL Hh Hm) as (x2 & R2 & V2); [cbn; rewrite V1; cbn; apply lookup_insert_eq|].
  cbn in V2. rewrite V1, set_mutex_back in V2 by done.
  destruct (cond_destroy_runs t (with_px x2 σ) _ s w NULL HC Hs Hc Hl) as (x3 & R3 & V3); [cbn; by rewrite V2|]. cbn in V3. rewrite V2 in V3.
  destruct (mutex_destroy_runs t (with_conds (<[breeched b := PCond 0 0 0]> (conds σ)) (with_lists (delete w (lists σ)) (with_px x3 σ))) _ h k r HL Hh Hm)
    as (x4 & R4 & V4); [cbn; by rewrite V3|]. cbn in V4. rewrite V3 in V4.
  eexists. split.
  - unfold pthread_barrier_destroy. rewrite (proj2 (Z.eqb_neq _ _)) by done. eapply runs_bind; [exact R1|]. cbn [Z.eqb negb].
    eapply runs_bind; [by apply runs_act; cbn; rewrite Hbar|]. eapply runs_bind; [exact R2|]. cbn [total_height]. rewrite Z.ltb_irrefl.
    eapply runs_bind; [exact R3|]. cbn [Z.eqb negb]. eapply runs_bind; [exact R4|]. eapply runs_bind; [by apply runs_act; cbn; rewrite Hbar|].
    eapply runs_bind; [by apply runs_act; cbn; rewrite lookup_insert_eq|]. apply runs_ret.
  - cbn. rewrite V4, insert_insert_eq, !lookup_insert_eq. done.
Qed.
End Destroy.

Lemma barrier_destroy_frees_witness : ∃ τ, runs 0 barrier_for_two (pthread_barrier_destroy 100) 0 τ ∧ barriers τ !! 100 = Some (PBarrier 0 0).
Proof.
  destruct (barrier_destroy_frees 100 2 4224 4096 4160 0 false 0 barrier_for_two) as (τ & H1 & _ & H2 & _); [done|done|done|by vm_compute..|].
  exists τ. split; [exact H1|exact H2].
Defined.
