(* ===== verification/PthreadSem.v ===== *)
(** * Semaphores

    Threads that post, wait and try: nobody gets through a semaphore without a unit of
    it, and none is lost.  That a thread that could go on does wake up is not so: two
    posts that come before the first sleeper runs signal the same sleeper. *)

From stdpp Require Import base numbers gmap list relations.
From S2P Require Import Prelude CMem Threads Pthread PthreadMachine PthreadMonitor PthreadRules PthreadBarrier PthreadInit.
Open Scope Z_scope.
#[local] Set Warnings "-clear-no-such-hyp".

(** ** The clients *)

Inductive sem_op := OpPost | OpWait | OpTry.
Definition if_ok `{ExecSync} (r : Z) (e : nat → event) : prog pstate unit := if r =? 0 then log e else PRet tt.
Fixpoint sem_client `{ExecSync} (sem : Z) (ops : list sem_op) : prog pstate unit :=
  match ops with
  | [] => PRet tt
  | OpPost :: ops => _ <~ log Post; r <~ sem_post sem; _ <~ if_ok r Posted; sem_client sem ops
  | OpWait :: ops => r <~ sem_wait sem; _ <~ if_ok r Acquired; sem_client sem ops
  | OpTry :: ops => r <~ sem_trywait sem; _ <~ if_ok r Acquired; sem_client sem ops
  end.

Definition is_post (e : event) : bool := match e with Post _ => true | _ => false end.
Definition is_posted (e : event) : bool := match e with Posted _ => true | _ => false end.
Definition is_acquired (e : event) : bool := match e with Acquired _ => true | _ => false end.

(** How far a thread is: it has asked for a post, has made it, is counted as a waiter, has
    a unit. *)
Inductive sphase := SIdle | SPosting | SPosted | SWaiting | SGot.
Definition at_posting (p : sphase) : Z := match p with SPosting => 1 | _ => 0 end.
Definition at_posted (p : sphase) : Z := match p with SPosted => 1 | _ => 0 end.
Definition at_waiting (p : sphase) : Z := match p with SWaiting => 1 | _ => 0 end.
Definition at_got (p : sphase) : Z := match p with SGot => 1 | _ => 0 end.

Section Invariant.
Context (v0 : Z).

Record JS (d : sem_t) (evs : list event) (phs : list sphase) : Prop := MkJS {
  js_few : Z.of_nat (length phs) <= SEM_VALUE_MAX;
  js_range : 0 <= s_value d <= SEM_VALUE_MAX;
  js_value : s_value d = v0 + (count is_posted evs + total at_posted phs) - (count is_acquired evs + total at_got phs);
  js_waiters : s_waiters_count d = total at_waiting phs;
  js_posts : count is_posted evs + total at_posted phs + total at_posting phs <= count is_post evs
}.

(** A thread goes from [p] to [p']. *)
Lemma sem_step d d' evs evs' phs t p p' :
  phs !! t = Some p → JS d evs phs → 0 <= s_value d' <= SEM_VALUE_MAX →
  s_value d' - s_value d =
    (count is_posted evs' - count is_posted evs + (at_posted p' - at_posted p)) - (count is_acquired evs' - count is_acquired evs + (at_got p' - at_got p)) →
  s_waiters_count d' - s_waiters_count d = at_waiting p' - at_waiting p →
  (count is_posted evs' - count is_posted evs) + (at_posted p' - at_posted p) + (at_posting p' - at_posting p) <= count is_post evs' - count is_post evs →
  JS d' evs' (<[t := p']> phs).
Proof.
  intros Ht [H1 H2 H3 H4 H5] G1 G2 G3 G4. split; rewrite ?length_insert, ?(total_insert _ _ _ _ _ Ht); [done|done|lia..].
Qed.

Definition no_reason (p : sphase) (d : sem_t) : Prop := True.
Definition no_block (p : sphase) : Prop := False.
End Invariant.

(** ** The calls *)

Section Calls.
Context `{ExecSync} (P : places) (HP : placed P) (s v0 : Z) (Hs : s ≠ NULL).
Context (Hlock : p_mutex P = sem_lock s) (Hcond : p_cond P = count_nonzero s).
Definition sem_at (bs : gmap Z pthread_barrier_t) (ss : gmap Z sem_t) : option sem_t := ss !! s.
#[local] Abbreviation safe := (safe (Inv P sem_at (JS v0) no_reason no_block) (waiting (D := sem_t) (Ph := sphase))).
#[local] Abbreviation holds d W p := (Ghost (Some (Hold d W false None)) None p).

Lemma safe_load_s {B : Set} m t (f : sem_t → B) d W p p' Q :
  (∀ evs phs, phs !! t = Some p → JS v0 d evs phs → JS v0 d evs (<[t := p']> phs)) →
  Q (f d) (holds d W p') → safe m t (load sems s f) (holds d W p) Q.
Proof.
  intros HJ HQ. eapply (safe_data _ _ _ _ _ _ _ _ id); [done| |exact HJ|by right|exact HQ].
  intros σ Hσ. unfold sem_at in Hσ. rewrite Hσ. by exists σ.
Qed.
Lemma safe_read_s {B : Set} m t (f : sem_t → B) d W p Q : Q (f d) (holds d W p) → safe m t (load sems s f) (holds d W p) Q.
Proof. apply safe_load_s. intros evs phs Ht HJ. by rewrite list_insert_id. Qed.
Lemma safe_store_s m t f d W p p' Q :
  (∀ evs phs, phs !! t = Some p → JS v0 d evs phs → JS v0 (f d) evs (<[t := p']> phs)) →
  Q tt (holds (f d) W p') → safe m t (store sems with_sems s f) (holds d W p) Q.
Proof.
  intros HJ HQ. eapply (safe_data _ _ _ _ _ _ _ _ id); [done| |exact HJ|by right|exact HQ].
  intros σ Hσ. unfold sem_at in *. rewrite Hσ. eexists. split; [done|]. cbn. by rewrite lookup_insert_eq.
Qed.

Lemma s32_count z : - 2147483648 <= z <= SEM_VALUE_MAX → s32 z = z.
Proof. unfold SEM_VALUE_MAX, s32. intros Hz. rewrite Z.mod_small; lia. Qed.

(** What the holder knows. *)
Lemma know_sem t p d evs phs : phs !! t = Some p → JS v0 d evs phs →
  0 <= s_value d <= SEM_VALUE_MAX ∧ at_waiting p <= s_waiters_count d ∧ s_waiters_count d - at_waiting p < SEM_VALUE_MAX.
Proof.
  intros Ht [H1 H2 H3 H4 H5]. split; [done|]. rewrite H4. split; [apply (total_lookup _ _ t); [by intros []|done]|].
  pose proof (total_insert at_waiting phs t p SIdle Ht) as Hi. assert (total at_waiting (<[t := SIdle]> phs) < Z.of_nat (length phs)); [|cbn in *; lia].
  pose proof (total_insert at_waiting phs t p SWaiting Ht) as Hw. pose proof (total_le_length at_waiting (<[t := SWaiting]> phs)) as Hle.
  rewrite length_insert in Hle. specialize (Hle ltac:(by intros [])). cbn in *. lia.
Qed.

(** The thread has the mutex, and the facts of [know_sem]. *)
Lemma safe_lock_s m t p (pr : prog pstate Z) Q :
  is_ret pr = None →
  (∀ d W, 0 <= s_value d <= SEM_VALUE_MAX → at_waiting p <= s_waiters_count d → s_waiters_count d - at_waiting p < SEM_VALUE_MAX → safe m t pr (holds d W p) Q) →
  safe m t (_ <~ pthread_mutex_lock (sem_lock s); pr) (Ghost None None p) Q.
Proof.
  intros Hr Hpr. rewrite <- Hlock. apply safe_bind, safe_lock; [done|]. intros d W.
  eapply (safe_know _ _ _ _ _ (0 <= s_value d <= SEM_VALUE_MAX ∧ at_waiting p <= s_waiters_count d ∧ s_waiters_count d - at_waiting p < SEM_VALUE_MAX)); [done| |].
  - intros evs phs Ht _ HJ. by eapply know_sem.
  - intros (H1 & H2 & H3). by apply Hpr.
Qed.
Lemma safe_unlock_s m t d W p Q : Q 0 (Ghost None None p) → safe m t (pthread_mutex_unlock (sem_lock s)) (holds d W p) Q.
Proof. intros HQ. rewrite <- Hlock. apply safe_unlock; [done|by intros []|done]. Qed.

Lemma safe_fail m t e p Q : Q (-1) (Ghost None None p) → safe m t (sem_fail e) (Ghost None None p) Q.
Proof.
  intros HQ. apply safe_bind, safe_act. intros σ γ HI Hg. eexists. rewrite list_insert_id by done. split; [|by apply safe_ret].
  destruct HI as [(d & mo & so & W & Hx)]. split. by exists d, mo, so, W.
Qed.

#[local] Ltac phase_step := intros evs phs Ht HJ; apply (sem_step v0 _ _ evs evs phs _ _ _ Ht HJ); cbn; lia.
(** A note moves the thread on. *)
#[local] Ltac note p :=
  eapply (safe_log _ _ _ _ _ _ _ _ _ _ p);
  [let Ht := fresh in let HJ := fresh in intros ? evs phs Ht HJ; eapply (sem_step v0 _ _ evs _ phs _ _ _ Ht HJ); [apply HJ|cbn; lia..]|by intros []|].

Lemma safe_add_value m t x d W p p' Q :
  s32 (s_value d + x) = s_value d + x → 0 <= s_value d + x <= SEM_VALUE_MAX →
  x = (at_posted p' - at_posted p) - (at_got p' - at_got p) → at_waiting p' = at_waiting p →
  (at_posted p' - at_posted p) + (at_posting p' - at_posting p) <= 0 →
  Q tt (holds (set_s_value (s_value d + x) d) W p') → safe m t (add_value s x) (holds d W p) Q.
Proof.
  intros Hw Hr Hx Ha Hp HQ. apply safe_bind, safe_read_s. rewrite Hw. eapply safe_store_s; [|exact HQ]. phase_step.
Qed.
Lemma safe_add_waiters m t x d W p p' Q :
  s32 (s_waiters_count d + x) = s_waiters_count d + x → x = at_waiting p' - at_waiting p → 0 <= s_value d <= SEM_VALUE_MAX →
  at_posted p' = at_posted p → at_got p' = at_got p → at_posting p' <= at_posting p →
  Q tt (holds (set_s_waiters (s_waiters_count d + x) d) W p') → safe m t (add_waiters s x) (holds d W p) Q.
Proof.
  intros Hw Hx Hr Ha Hp Hq HQ. apply safe_bind, safe_read_s. rewrite Hw. eapply safe_store_s; [|exact HQ]. phase_step.
Qed.

Lemma safe_post m t Q :
  Q 0 (Ghost None None SPosted) → Q (-1) (Ghost None None SIdle) → safe m t (sem_post s) (Ghost None None SPosting) Q.
Proof.
  intros HQ HF. unfold sem_post. rewrite (proj2 (Z.eqb_neq _ _)) by done. apply safe_lock_s; [done|]. intros d W Hv Hw Hw'. cbn in *. apply safe_bind.
  destruct (Z.leb_spec SEM_VALUE_MAX (s_value d)) as [Hmax|Hmax].
  - apply (safe_load_s _ _ _ _ _ _ SIdle); [phase_step|]. rewrite (proj2 (Z.leb_le _ _)) by done. apply safe_bind, safe_unlock_s. by apply safe_fail.
  - apply safe_read_s. rewrite (proj2 (Z.leb_gt _ _)) by done. apply safe_bind. apply (safe_add_value _ _ _ _ _ _ SPosted); [apply s32_count; lia|cbn; lia..|].
    apply safe_bind, safe_read_s. cbn [s_waiters_count set_s_value]. destruct (0 <? s_waiters_count d).
    + rewrite <- Hcond. apply safe_bind, safe_cond_signal; [done|]. apply safe_bind, safe_unlock_s. by apply safe_ret.
    + apply safe_bind, safe_ret, safe_bind, safe_unlock_s. by apply safe_ret.
Qed.

Lemma safe_trywait m t Q :
  Q 0 (Ghost None None SGot) → Q (-1) (Ghost None None SIdle) → safe m t (sem_trywait s) (Ghost None None SIdle) Q.
Proof.
  intros HQ HF. unfold sem_trywait. rewrite (proj2 (Z.eqb_neq _ _)) by done. apply safe_lock_s; [done|]. intros d W Hv Hw Hw'. cbn in *. apply safe_bind, safe_read_s.
  apply safe_bind. destruct (Z.ltb_spec 0 (s_value d)) as [Hpos|Hpos].
  - apply safe_bind. apply (safe_add_value _ _ _ _ _ _ SGot); [apply s32_count; lia|cbn; lia..|]. apply safe_ret, safe_bind, safe_unlock_s. by apply safe_ret.
  - apply safe_ret, safe_bind, safe_unlock_s. by apply safe_fail.
Qed.

Lemma safe_sem_wait m t Q : Q 0 (Ghost None None SGot) → safe m t (sem_wait s) (Ghost None None SIdle) Q.
Proof.
  intros HQ. unfold sem_wait, sem_timedwait. rewrite (proj2 (Z.eqb_neq _ _)) by done. apply safe_lock_s; [done|]. intros d W Hv Hw Hw'. cbn in *. apply safe_bind.
  apply (safe_add_waiters _ _ _ _ _ _ SWaiting); [apply s32_count; lia|done..|]. apply safe_bind.
  apply (safe_iter _ _ t _ (fun r g => r = 0 ∧ ∃ d W, g = holds d W SWaiting)); [|eauto]. clear d W Hv Hw Hw'.
  intros k r g (-> & d & W & ->). apply safe_bind, safe_read_s. rewrite andb_true_r. destruct (Z.eqb_spec (s_value d) 0) as [H0|H0].
  - rewrite <- Hcond, <- Hlock. apply safe_bind, safe_cond_wait; [done|by intros []|done|]. intros d' W'. apply safe_ret. eauto.
  - apply safe_ret. cbn. eapply (safe_know _ _ _ _ _ (0 <= s_value d <= SEM_VALUE_MAX ∧ at_waiting SWaiting <= s_waiters_count d ∧ s_waiters_count d - at_waiting SWaiting < SEM_VALUE_MAX)); [done| |].
    { intros evs phs Ht _ HJ. by eapply know_sem. }
    cbn. intros (Hv & Hw & Hw'). apply safe_bind. apply (safe_add_waiters _ _ _ _ _ _ SIdle); [apply s32_count; lia|done..|].
    apply safe_bind. apply (safe_add_value _ _ _ _ _ _ SGot); [apply s32_count; cbn; lia|cbn; lia..|]. apply safe_bind, safe_unlock_s. by apply safe_ret.
Qed.

Lemma safe_sem_client m t ops : safe m t (sem_client s ops) (Ghost None None SIdle) (fun _ g => g = Ghost None None SIdle).
Proof.
  induction ops as [|[] ops IH]; cbn [sem_client]; [by apply safe_ret|..].
  - apply safe_bind. note SPosting.
    apply safe_bind, safe_post; apply safe_bind; cbn [if_ok Z.eqb].
    + note SIdle. done.
    + by apply safe_ret.
  - apply safe_bind, safe_sem_wait, safe_bind. cbn [if_ok Z.eqb].
    note SIdle. done.
  - apply safe_bind, safe_trywait; apply safe_bind; cbn [if_ok Z.eqb].
    + note SIdle. done.
    + by apply safe_ret.
Qed.
End Calls.

(** ** Theorems *)

Section Reach.
Context `{ExecSync}.

(** A semaphore of value [v] that nobody uses. *)
Definition sem_ready (s v : Z) (σ : pstate) : Prop :=
  ∃ P, placed P ∧ p_mutex P = sem_lock s ∧ p_cond P = count_nonzero s ∧ s ≠ NULL ∧ objects_ok P σ None None [] ∧ sems σ !! s = Some (Sem v 0).

Lemma sem_start v m : 0 <= v <= SEM_VALUE_MAX → Z.of_nat m <= SEM_VALUE_MAX → JS v (Sem v 0) [] (replicate m SIdle).
Proof.
  intros Hv Hm. split; rewrite ?length_replicate, ?(total_zero _ _); try (intros p [-> _]%elem_of_replicate; done); cbn; [done|done|lia|done|done].
Qed.

Lemma sem_reach s v (ops : list (list sem_op)) σ σ' ps m : 0 <= v <= SEM_VALUE_MAX → Z.of_nat (length ops) <= SEM_VALUE_MAX → sem_ready s v σ → events σ = [] →
  reachable outside (σ, sem_client s <$> ops) (σ', ps) →
  ∃ P γ, Inv P (sem_at s) (JS v) no_reason no_block σ' γ ∧
    all_safe (Inv P (sem_at s) (JS v) no_reason no_block) waiting m ps γ (fun _ _ g => g = Ghost None None SIdle).
Proof.
  intros Hv Hm (P & HP & Hl & Hc & Hs & Hobj & Hsem) He Hr. exists P.
  eapply (adequacy _ waiting outside (outside_inv _ _ _ _ _) (fun _ _ g => g = Ghost None None SIdle) _ _ Hr). intros k.
  exists (replicate (length ops) (Ghost None None SIdle)). split; [apply start_inv with (Sem v 0); [done..|by intros []|cbn [fst]; rewrite He; by apply sem_start]|].
  cbn [fst snd]. split; [by rewrite length_fmap, length_replicate|]. intros t p g (r & -> & _)%list_lookup_fmap_Some [-> _]%lookup_replicate. by apply safe_sem_client.
Qed.
End Reach.

(** C22: Whatever the interleaving of threads that post, wait and try on a semaphore of value
    [v]: its value stays between 0 and [SEM_VALUE_MAX], and the units that threads have
    got out of it and those left are never more than [v] and the posts begun. *)
Theorem sem_conserves `{ExecSync} s v (ops : list (list sem_op)) σ σ' ps :
  0 <= v <= SEM_VALUE_MAX → Z.of_nat (length ops) <= SEM_VALUE_MAX → sem_ready s v σ → events σ = [] →
  reachable outside (σ, sem_client s <$> ops) (σ', ps) →
  ∃ value waiters, sems σ' !! s = Some (Sem value waiters) ∧ 0 <= value <= SEM_VALUE_MAX ∧ 0 <= waiters <= Z.of_nat (length ops) ∧
    count is_acquired (events σ') + value <= v + count is_post (events σ').
Proof.
  intros Hv Hm Hready He Hr. destruct (sem_reach s v ops σ σ' ps 1 Hv Hm Hready He Hr) as (P & γ & [(d & mo & so & W & _ & Hd & _ & HJ)] & [Hl _]).
  pose proof (reachable_length _ _ _ Hr) as Hlen. cbn [snd] in Hlen. rewrite length_fmap in Hlen.
  destruct d as [value waiters]. destruct HJ as [H1 H2 H3 H4 H5]. cbn in *. exists value, waiters. split; [done|split; [done|]].
  assert (0 <= total at_waiting (ph <$> γ)) by (apply total_nonneg; by intros []). assert (0 <= total at_got (ph <$> γ)) by (apply total_nonneg; by intros []).
  assert (0 <= total at_posting (ph <$> γ)) by (apply total_nonneg; by intros []).
  pose proof (total_le_length at_waiting (ph <$> γ) ltac:(by intros [])) as Hle. rewrite length_fmap in Hle. lia.
Qed.

(** When all threads have ended, the value of the semaphore is the first one with the
    successful posts and without the units taken, and nobody is counted as a waiter. *)
Theorem sem_balance `{ExecSync} s v (ops : list (list sem_op)) σ σ' ps :
  0 <= v <= SEM_VALUE_MAX → Z.of_nat (length ops) <= SEM_VALUE_MAX → sem_ready s v σ → events σ = [] →
  reachable outside (σ, sem_client s <$> ops) (σ', ps) → (∀ p, p ∈ ps → p = PRet tt) →
  sems σ' !! s = Some (Sem (v + count is_posted (events σ') - count is_acquired (events σ')) 0).
Proof.
  intros Hv Hm Hready He Hr Hall. destruct (sem_reach s v ops σ σ' ps 1 Hv Hm Hready He Hr) as (P & γ & HI & Hs). pose proof HI as [(d & mo & so & W & _ & Hd & _ & HJ)].
  assert (∀ p, p ∈ ph <$> γ → p = SIdle) as Hidle.
  { intros p (g & -> & [t Hg]%list_elem_of_lookup)%list_elem_of_fmap. destruct (lookup_lt_is_Some_2 ps t) as [r Hp]; [destruct Hs as [<- _]; by eapply lookup_lt_Some|].
    destruct (safe_now _ _ _ _ _ _ _ _ _ HI Hs Hp Hg) as [(a & _ & ->)|[Hn _]]; [done|]. by rewrite (Hall r (list_elem_of_lookup_2 _ _ _ Hp)) in Hn. }
  unfold sem_at in Hd. rewrite Hd. destruct d as [value waiters]. destruct HJ as [_ _ H3 H4 _]. cbn in *. do 2 f_equal.
  - rewrite H3, !(total_zero _ _); [lia|by intros p ->%Hidle..].
  - rewrite H4, (total_zero _ _); [done|by intros p ->%Hidle].
Qed.

(** [sem_init] with a value above [SEM_VALUE_MAX] fails with [EINVAL] and changes
    nothing else; with another value it returns 0, and if exec and [malloc] have given
    what it asked for, the semaphore is ready with that value. *)
Theorem sem_init_ready `{ExecSync} s v t σ m c x :
  0 < s → 0 <= v → mutexes σ !! sem_lock s = Some m → conds σ !! count_nonzero s = Some c → sems σ !! s = Some x →
  if SEM_VALUE_MAX <? v then runs t σ (sem_init s v) (-1) (with_perrno P_EINVAL σ)
  else ∃ τ, runs t σ (sem_init s v) 0 τ ∧ events τ = events σ ∧ (allocated (sem_lock s) (count_nonzero s) τ → sem_ready s v τ).
Proof.
  intros Hs Hv Hm Hc Hx. unfold sem_init. rewrite (proj2 (Z.eqb_neq s NULL)) by (unfold NULL; lia). cbn [orb]. destruct (SEM_VALUE_MAX <? v).
  { eapply runs_bind; [by apply runs_act|]. apply runs_ret. }
  set (σ1 := with_sems (<[s := Sem v 0]> (sems σ)) σ).
  destruct (mutex_init_runs t σ1 (sem_lock s) m) as (h & y & R1 & Hy & Hh); [unfold sem_lock, NULL; lia|done|].
  set (σ2 := with_px y (with_mutexes (<[sem_lock s := PMutex h PTHREAD_MUTEX_DEFAULT 0]> (mutexes σ1)) σ1)) in R1.
  destruct (cond_init_runs t σ2 (count_nonzero s) c NULL) as (r & c' & τ & R2 & E1 & E2 & E3 & E4 & Hc' & Hattr & Hmu & Hgood); [unfold count_nonzero, NULL; lia|done|].
  exists τ. split; [|split; [by rewrite E4|]].
  - eapply runs_bind; [by apply runs_act; rewrite Hx|]. eapply runs_bind; [by apply runs_act; cbn; rewrite lookup_insert_eq|]. cbn. rewrite insert_insert_eq.
    eapply runs_bind; [exact R1|]. eapply runs_bind; [exact R2|]. apply runs_ret.
  - intros (m2 & c2 & Hm2 & Hc2 & N1 & N2 & N3). rewrite E1 in Hm2. cbn in Hm2. rewrite lookup_insert_eq in Hm2. injection Hm2 as <-. rewrite Hc' in Hc2. injection Hc2 as <-.
    destruct (Hgood N2 N3) as (_ & G1 & G2). exists (Places (sem_lock s) (count_nonzero s) h (c_semaphore c') (c_waiters c')).
    split; [split; cbn; [unfold sem_lock, NULL; lia|unfold count_nonzero, NULL; lia|done|done]|]. cbn. do 2 (split; [done|]). split; [unfold NULL; lia|split].
    + unfold objects_ok. cbn. rewrite E1, Hc', Hmu. cbn. rewrite lookup_insert_eq. split; [eauto|]. split; [by destruct c'; cbn in *; subst|]. auto.
    + rewrite E3. cbn. by rewrite lookup_insert_eq.
Qed.
Lemma sem_init_ready_witness : ∃ τ, runs 0 raw_state (sem_init 200 5) 0 τ ∧ events τ = [].
Proof.
  destruct (sem_init_ready 200 5 0 raw_state (PMutex 0 0 0) (PCond 0 0 0) (Sem 0 0)) as (τ & H1 & H2 & _); [done|done|by vm_compute..|].
  exists τ. split; [exact H1|exact H2].
Defined.

(** A semaphore of value 0, on the machine. *)
Definition sem_zero : pstate := after (sem_init 200 0) raw_state.
Lemma sem_zero_ready : sem_ready 200 0 sem_zero.
Proof.
  exists (Places 224 240 4096 4160 4224). split; [by split|]. do 3 (split; [done|]). split; [|by vm_compute].
  split; [exists 0; by vm_compute|]. by vm_compute.
Qed.
(** Two threads wait; a third posts twice before the first of them runs. *)
Definition waiters_and_poster : list (list sem_op) := [[OpWait]; [OpWait]; [OpPost; OpPost]].
Definition after_posts : pool (S := pstate) unit := drive 200 [0; 1; 2; 0; 1]%nat (sem_zero, sem_client 200 <$> waiters_and_poster).

(** C38: A wake-up is lost: two threads sleep in [sem_wait], another posts twice, and both
    posts signal the first sleeper.  The second one sleeps on and nobody else will wake
    it, although the value of the semaphore is 1. *)
Theorem sem_post_lost_wakeup :
  reachable outside (sem_zero, sem_client 200 <$> waiters_and_poster) after_posts ∧ stuck after_posts ∧
  sems after_posts.1 !! 200 = Some (Sem 1 1) ∧ count is_posted (events after_posts.1) = 2 ∧ count is_acquired (events after_posts.1) = 1.
Proof. split; [apply drive_reachable|]. split; [apply stuckb_stuck; by vm_compute|by vm_compute]. Qed.

Lemma sem_conserves_witness : ∃ value waiters, sems after_posts.1 !! 200 = Some (Sem value waiters) ∧
  count is_acquired (events after_posts.1) + value <= 0 + count is_post (events after_posts.1).
Proof.
  edestruct (sem_conserves 200 0 waiters_and_poster sem_zero after_posts.1 after_posts.2) as (value & waiters & H1 & _ & _ & H2);
    [by vm_compute|by vm_compute|exact sem_zero_ready|by vm_compute|rewrite <- surjective_pairing; apply drive_reachable|].
  exists value, waiters. exact (conj H1 H2).
Defined.

(** Here the posts come first. *)
Definition in_turns : pool (S := pstate) unit := drive 1000 [2; 0; 1]%nat (sem_zero, sem_client 200 <$> [[OpWait]; [OpWait]; [OpPost; OpPost; OpPost]]).
Lemma sem_balance_witness : sems in_turns.1 !! 200 = Some (Sem (0 + count is_posted (events in_turns.1) - count is_acquired (events in_turns.1)) 0).
Proof.
  apply (sem_balance 200 0 [[OpWait]; [OpWait]; [OpPost; OpPost; OpPost]] sem_zero in_turns.1 in_turns.2);
    [by vm_compute|by vm_compute|exact sem_zero_ready|by vm_compute|rewrite <- surjective_pairing; apply drive_reachable|].
  apply finished_all. by vm_compute.
Defined.
