(* ===== verification/PthreadOnce.v ===== *)
(** * [pthread_once]

    Threads that call [pthread_once] on one control: the routine runs once, and nobody
    returns before it has ended.  The lock of the control is a spin lock. *)

From stdpp Require Import base numbers gmap list relations.
From S2P Require Import Prelude CMem Threads Pthread PthreadMachine PthreadMonitor PthreadBarrier.
Open Scope Z_scope.
#[local] Set Warnings "-clear-no-such-hyp".

(** ** The clients *)

Definition init_routine `{ExecSync} : prog pstate unit := _ <~ log InitBegin; log InitEnd.
Definition once_client `{ExecSync} (once : Z) : prog pstate unit := _ <~ pthread_once once (Some init_routine); log Returned.

Definition is_begin (e : event) : bool := match e with InitBegin _ => true | _ => false end.
Definition is_end (e : event) : bool := match e with InitEnd _ => true | _ => false end.
Definition is_returned (e : event) : bool := match e with Returned _ => true | _ => false end.

(** How far a thread is: before the lock, with the lock, in the routine (before, in and
    after it), with the lock and [done] set, behind the lock. *)
Inductive ophase := OBefore | OLocked | ORun0 | ORun1 | ORun2 | OSet | OBehind.
Definition at_locked (p : ophase) : Z := match p with OBefore | OBehind => 0 | _ => 1 end.
Definition at_running (p : ophase) : Z := match p with ORun0 | ORun1 | ORun2 => 1 | _ => 0 end.
Definition at_begun (p : ophase) : Z := match p with ORun1 | ORun2 => 1 | _ => 0 end.
Definition at_ended (p : ophase) : Z := match p with ORun2 => 1 | _ => 0 end.
Definition knows_done (p : ophase) : Z := match p with OSet | OBehind => 1 | _ => 0 end.

Section Once.
Context `{ExecSync} (once : Z) (Honce : once ≠ NULL) (Hlock : once_lock once ≠ NULL).

Record OInv (σ : pstate) (γ : list ophase) : Prop := MkOInv {
  oi_all : ∃ done,
    words σ !! once_lock once = Some (total at_locked γ) ∧ onces σ !! once = Some (POnce done (-1)) ∧
    total at_locked γ <= 1 ∧ (done = 0 ∨ done = 1) ∧ (done = 1 → total at_running γ = 0) ∧
    count is_begin (events σ) = done + total at_begun γ ∧ count is_end (events σ) = done + total at_ended γ ∧
    (0 < total knows_done γ + count is_returned (events σ) → done = 1)
}.
Definition never (t : nat) (σ : pstate) (γ : list ophase) : Prop := False.
#[local] Abbreviation safe := (safe OInv never).

(** A thread goes from [p] to [p']. *)
Lemma once_step σ τ γ t p p' :
  OInv σ γ → γ !! t = Some p →
  (∀ done, onces σ !! once = Some (POnce done (-1)) → total at_locked γ <= 1 → (done = 0 ∨ done = 1) → (done = 1 → total at_running γ = 0) →
     (0 < knows_done p → done = 1) → 0 <= total at_locked γ - at_locked p → 0 <= total at_running γ - at_running p <= total at_locked γ - at_locked p →
     0 <= total knows_done γ - knows_done p →
     ∃ done', words τ !! once_lock once = Some (total at_locked γ - at_locked p + at_locked p') ∧ onces τ !! once = Some (POnce done' (-1)) ∧
       total at_locked γ - at_locked p + at_locked p' <= 1 ∧ (done' = done ∨ (done' = 1 ∧ done = 0 ∧ total at_running γ - at_running p = 0)) ∧
       (done' = 1 → at_running p' = 0) ∧
       count is_begin (events τ) - count is_begin (events σ) = (done' + at_begun p') - (done + at_begun p) ∧
       count is_end (events τ) - count is_end (events σ) = (done' + at_ended p') - (done + at_ended p) ∧
       (0 < knows_done p' → done' = 1) ∧ (0 < count is_returned (events τ) - count is_returned (events σ) → done' = 1)) →
  OInv τ (<[t := p']> γ).
Proof.
  intros [(done & H1 & H2 & H3 & H4 & H5 & H6 & H7 & H8)] Ht Hstep.
  assert (∀ f : ophase → Z, (∀ p, 0 <= f p) → 0 <= total f γ - f p) as Hnn.
  { intros f Hf. pose proof (total_lookup f γ t p Hf Ht). lia. }
  assert (total at_running γ - at_running p <= total at_locked γ - at_locked p) as Hrl.
  { pose proof (total_insert at_running γ t p OBefore Ht) as E1. pose proof (total_insert at_locked γ t p OBefore Ht) as E2. cbn [at_running at_locked] in E1, E2.
    assert (total at_running (<[t := OBefore]> γ) <= total at_locked (<[t := OBefore]> γ)) by (apply total_mono; by intros []). lia. }
  pose proof (Hnn at_locked ltac:(by intros [])) as N1. pose proof (Hnn at_running ltac:(by intros [])) as N2. pose proof (Hnn knows_done ltac:(by intros [])) as N3.
  pose proof (count_nonneg is_returned (events σ)) as N4.
  destruct (Hstep done H2 H3 H4 H5) as (done' & G1 & G2 & G3 & G4 & G5 & G6 & G7 & G8 & G9); [intros Hk; apply H8; lia|lia|lia|lia|].
  split. exists done'. rewrite !(total_insert _ _ _ _ _ Ht). do 3 (split; [done|]). split; [lia|]. split; [|split; [lia|split; [lia|]]].
  - intros Hd'. specialize (G5 Hd'). assert (0 <= at_running p) by by destruct p. destruct G4 as [->|(_ & _ & G4)]; [specialize (H5 Hd')|]; lia.
  - intros Hp. destruct (Z.le_gt_cases (knows_done p') 0) as [Hk|Hk]; [|by apply G8; lia].
    destruct (Z.le_gt_cases (count is_returned (events τ) - count is_returned (events σ)) 0) as [Hr|Hr]; [|by apply G9].
    destruct G4 as [->|(-> & _)]; [|done]. apply H8. assert (0 <= knows_done p) by by destruct p. lia.
Qed.

(** An action that has nothing to do with the control. *)
Lemma safe_frame {A : Set} n t (f : nat → pstate → outcome A pstate) p (Q : A → ophase → Prop) :
  (∀ σ, ∃ a τ, f t σ = Go a τ ∧ words τ = words σ ∧ onces τ = onces σ ∧ events τ = events σ) → (∀ a, Q a p) → safe n t (PAct f) p Q.
Proof.
  intros Hf HQ. apply safe_act. intros σ γ [HI] Hg. destruct (Hf σ) as (a & τ & -> & E1 & E2 & E3). exists p. rewrite list_insert_id by done.
  split; [|done]. split. by rewrite E1, E2, E3.
Qed.

(** A note: the control and its lock are as they were. *)
Lemma safe_once_log n t e p p' (Q : unit → ophase → Prop) :
  at_locked p' = at_locked p → (0 < knows_done p' → 0 < knows_done p) → (0 < at_running p' → 0 < at_running p) →
  b2z (is_begin (e t)) = at_begun p' - at_begun p → b2z (is_end (e t)) = at_ended p' - at_ended p → (is_returned (e t) = true → 0 < knows_done p) →
  Q tt p' → safe n t (log e) p Q.
Proof.
  intros E1 E2 E3 E4 E5 E6 HQ. apply safe_act. intros σ γ HI Hg. exists p'. split; [|done]. eapply once_step; [done..|].
  intros dn Ho Hle Hd Hr Hk N1 N2 N3. exists dn. destruct HI as [(d & H1 & _)]. cbn [words with_events onces events count]. rewrite E1, E4, E5.
  split; [by rewrite H1; f_equal; lia|]. split; [done|]. split; [lia|]. split; [by left|]. split.
  - intros ->. specialize (Hr eq_refl). assert (0 <= at_running p) by by destruct p. assert (0 <= at_running p') by by destruct p'. lia.
  - split; [lia|split; [lia|split; [auto|]]]. intros Hret. destruct (is_returned (e t)); [auto|cbn in *; lia].
Qed.

Lemma safe_spin_lock n t (Q : Z → ophase → Prop) : Q 0 OLocked → safe n t (pthread_spin_lock (once_lock once)) OBefore Q.
Proof.
  intros HQ. unfold pthread_spin_lock. rewrite (proj2 (Z.eqb_neq _ _)) by done. apply safe_bind.
  apply (safe_iter _ _ t _ (fun _ p => p = OBefore)); [|done]. intros m _ p ->. apply safe_bind, safe_bind, safe_act. intros σ γ HI Hg.
  pose proof HI as [(d & H1 & H2 & H3 & _)]. rewrite H1. assert (0 <= total at_locked γ) by (apply total_nonneg; by intros []).
  destruct (Z.eqb_spec (total at_locked γ) 0) as [E|E].
  - exists OLocked. split.
    + eapply once_step; [done..|]. intros dn Ho Hle Hd Hr Hk N1 N2 N3. exists dn. cbn. rewrite lookup_insert_eq. rewrite E. cbn.
      do 3 (split; [done|]). split; [by left|]. lia.
    + cbn. apply safe_ret, safe_ret. by apply safe_ret.
  - exists OBefore. rewrite list_insert_id by done. split; [|apply safe_ret, safe_bind, safe_ret; by apply safe_ret].
    destruct HI as [(d' & G1 & G2)]. split. exists d'. cbn. rewrite lookup_insert_eq. split; [f_equal; lia|done].
Qed.

Lemma safe_spin_unlock n t (Q : Z → ophase → Prop) : Q 0 OBehind → safe n t (pthread_spin_unlock (once_lock once)) OSet Q.
Proof.
  intros HQ. unfold pthread_spin_unlock. rewrite (proj2 (Z.eqb_neq _ _)) by done. apply safe_bind, safe_act. intros σ γ HI Hg.
  pose proof HI as [(d & H1 & H2 & H3 & _)]. rewrite H1. exists OBehind. split; [|by apply safe_ret].
  eapply once_step; [done..|]. intros dn Ho Hle Hd Hr Hk N1 N2 N3. exists dn. cbn in *. rewrite lookup_insert_eq.
  split; [f_equal; lia|]. split; [done|]. split; [lia|]. split; [by left|]. lia.
Qed.

Lemma safe_cas n t p (Q : Z → ophase → Prop) : Q (-1) p → safe n t (compare_and_swap_started once 0 1) p Q.
Proof.
  intros HQ. apply safe_act. intros σ γ HI Hg. pose proof HI as [(d & H1 & H2 & _)]. rewrite H2. exists p. by rewrite list_insert_id.
Qed.

(** With the lock, a thread learns whether the routine has run. *)
Lemma safe_load_done n t (Q : Z → ophase → Prop) : Q 0 ORun0 → Q 1 OSet → safe n t (load onces once o_done) OLocked Q.
Proof.
  intros HQ0 HQ1. apply safe_act. intros σ γ HI Hg. pose proof HI as [(d & H1 & H2 & H3 & H4 & _)]. rewrite H2. cbn [o_done].
  destruct H4 as [->| ->]; [exists ORun0|exists OSet]; (split; [|done]); eapply once_step; [done|done| |done|done|]; intros dn Ho Hle Hd Hr Hk N1 N2 N3;
    rewrite H2 in Ho; injection Ho as <-; eexists; cbn in *; (split; [rewrite H1; f_equal; lia|]); split; [done|lia|done|lia].
Qed.
Lemma safe_set_done n t (Q : unit → ophase → Prop) : Q tt OSet → safe n t (store onces with_onces once set_done) ORun2 Q.
Proof.
  intros HQ. apply safe_act. intros σ γ HI Hg. pose proof HI as [(d & H1 & H2 & H3 & H4 & H5 & _)]. rewrite H2. exists OSet. split; [|done].
  eapply once_step; [done..|]. intros dn Ho Hle Hd Hr Hk N1 N2 N3. rewrite H2 in Ho. injection Ho as <-. exists 1. cbn in *. rewrite lookup_insert_eq.
  split; [rewrite H1; f_equal; lia|]. split; [done|]. assert (d = 0) as -> by (destruct Hd as [|Hd]; [done|specialize (Hr Hd); lia]). lia.
Qed.

Lemma safe_push n t r a p (Q : unit → ophase → Prop) : Q tt p → safe n t (pthread_cleanup_push r a) p Q.
Proof.
  intros HQ. unfold pthread_cleanup_push. destruct (r =? NULL); [by apply safe_ret|]. apply safe_bind, safe_frame.
  { intros σ. destruct (malloc SIZEOF_CLEANUP (px σ)) as [h x] eqn:E. by do 2 eexists. }
  intros h. destruct (h =? NULL); [by apply safe_ret|]. apply safe_bind, safe_frame; [intros σ; by do 2 eexists|].
  intros [l|]; [|by apply safe_ret]. apply safe_frame; [intros σ; by do 2 eexists|]. by intros [].
Qed.
Lemma safe_pop n t run p (Q : unit → ophase → Prop) : Q tt p → safe n t (pthread_cleanup_pop run false) p Q.
Proof.
  intros HQ. apply safe_bind, safe_frame; [intros σ; by do 2 eexists|]. intros [l|]; [|by apply safe_ret]. destruct (last l); [|by apply safe_ret].
  apply safe_bind, safe_frame; [intros σ; by do 2 eexists|]. intros _. by apply safe_ret.
Qed.

Lemma safe_once_client n t : safe n t (once_client once) OBefore (fun _ p => p = OBehind).
Proof.
  assert (∀ m, safe m t (_ <~ pthread_spin_unlock (once_lock once); PRet 0) OSet (fun _ p => safe m t (log Returned) p (fun _ p => p = OBehind))) as Hend.
  { intros m. apply safe_bind, safe_spin_unlock, safe_ret. by apply (safe_once_log _ _ _ _ OBehind). }
  unfold once_client, pthread_once. rewrite (proj2 (Z.eqb_neq _ _)) by done. apply safe_bind, safe_bind, safe_cas. cbn [Z.eqb negb].
  apply safe_bind, safe_spin_lock. apply safe_bind, safe_load_done; cbn [Z.eqb]; apply safe_bind.
  - apply safe_bind, safe_push, safe_bind, safe_bind. apply (safe_once_log _ _ _ _ ORun1); [done..|]. apply (safe_once_log _ _ _ _ ORun2); [done..|].
    apply safe_bind, safe_pop, safe_set_done, Hend.
  - apply safe_ret, Hend.
Qed.

(** A control with [PTHREAD_ONCE_INIT]. *)
Definition once_ready (σ : pstate) : Prop := words σ !! once_lock once = Some 0 ∧ onces σ !! once = Some (POnce 0 (-1)).

Lemma once_reach m σ σ' ps n : once_ready σ → events σ = [] → reachable (fun _ _ => False) (σ, replicate m (once_client once)) (σ', ps) →
  ∃ γ, OInv σ' γ ∧ all_safe OInv never n ps γ (fun _ _ p => p = OBehind).
Proof.
  intros [Hw Ho] He Hr. eapply (adequacy OInv never (fun _ _ => False) ltac:(done) (fun _ _ p => p = OBehind) _ _ Hr). intros k. exists (replicate m OBefore). split.
  - assert (∀ f : ophase → Z, f OBefore = 0 → total f (replicate m OBefore) = 0) as Hz by (intros f Hf; apply total_zero; by intros p [-> _]%elem_of_replicate).
    split. exists 0. cbn [fst]. rewrite He, Hw, Ho, !Hz by done. cbn. repeat split; auto; lia.
  - cbn [snd]. split; [by rewrite !length_replicate|]. intros t p g [-> _]%lookup_replicate [-> _]%lookup_replicate. apply safe_once_client.
Qed.
End Once.

(** ** Theorems *)

(** C23: However the threads interleave that call [pthread_once] on a control with its
    initialiser: the routine has begun at most once, and when a call has returned it has
    begun and ended exactly once. *)
Theorem once_runs_once `{ExecSync} once m σ σ' ps :
  once ≠ NULL → once_lock once ≠ NULL → once_ready once σ → events σ = [] →
  reachable (fun _ _ => False) (σ, replicate m (once_client once)) (σ', ps) →
  count is_begin (events σ') <= 1 ∧ (0 < count is_returned (events σ') → count is_begin (events σ') = 1 ∧ count is_end (events σ') = 1).
Proof.
  intros Ho Hl Hready He Hr. destruct (once_reach once Ho Hl m σ σ' ps 1 Hready He Hr) as (γ & [(d & H1 & H2 & H3 & H4 & H5 & H6 & H7 & H8)] & _).
  assert (total at_begun γ <= total at_running γ) by (apply total_mono; by intros []). assert (total at_ended γ <= total at_running γ) by (apply total_mono; by intros []).
  assert (total at_running γ <= total at_locked γ) by (apply total_mono; by intros []). assert (0 <= total at_begun γ) by (apply total_nonneg; by intros []).
  assert (0 <= total at_ended γ) by (apply total_nonneg; by intros []). assert (0 <= total knows_done γ) by (apply total_nonneg; by intros []).
  split; [destruct H4 as [->|H4]; [lia|specialize (H5 H4); lia]|]. intros Hret. assert (d = 1) as Hd by (apply H8; lia). specialize (H5 Hd). lia.
Qed.

(** Calls of [pthread_once] do not deadlock: when no thread can make a step, all of
    them have returned. *)
Theorem once_all_return `{ExecSync} once m σ σ' ps :
  once ≠ NULL → once_lock once ≠ NULL → once_ready once σ → events σ = [] →
  reachable (fun _ _ => False) (σ, replicate m (once_client once)) (σ', ps) → stuck (σ', ps) → ∀ p, p ∈ ps → p = PRet tt.
Proof.
  intros Ho Hl Hready He Hr Hst p [t Hp]%list_elem_of_lookup. destruct (once_reach once Ho Hl m σ σ' ps 1 Hready He Hr) as (γ & HI & Hs).
  destruct (lookup_lt_is_Some_2 γ t) as [g Hg]; [destruct Hs as [-> _]; by eapply lookup_lt_Some|].
  destruct (safe_now _ _ _ _ _ _ _ _ _ HI Hs Hp Hg) as [([] & -> & _)|[_ [(p' & τ & Hgo)|[_ []]]]]; [done|]. exfalso. by eapply Hst.
Qed.

(** Three threads in turn. *)
Definition three_callers (n : nat) : pool (S := pstate) unit := round_robin n 0 (raw_state, replicate 3 (once_client 300)).
Lemma once_runs_once_witness : count is_returned (events (three_callers 600).1) = 3 ∧ count is_begin (events (three_callers 600).1) = 1.
Proof.
  split; [by vm_compute|]. edestruct (once_runs_once 300 3 raw_state (three_callers 600).1 (three_callers 600).2) as [_ H1];
    [done|done|by split|done|rewrite <- surjective_pairing; apply round_robin_reachable|]. apply H1. by vm_compute.
Defined.
Lemma once_all_return_witness : ∀ p, p ∈ (three_callers 600).2 → p = PRet tt.
Proof.
  apply (once_all_return 300 3 raw_state (three_callers 600).1);
    [done|done|by split|done|rewrite <- surjective_pairing; apply round_robin_reachable|apply stuckb_stuck; by vm_compute].
Defined.
