(* ===== verification/PthreadMutex.v ===== *)
(** * Mutexes

    Threads with critical sections: a mutex that has been initialised keeps them apart,
    and nobody waits for a mutex that is free.  A mutex with a static initialiser does
    not keep apart two threads that lock it first at the same time, and an error-checking
    mutex fails for a thread that should wait. *)

From stdpp Require Import base numbers gmap list relations.
From S2P Require Import Prelude CMem Threads Pthread PthreadMachine PthreadMonitor PthreadRules PthreadBarrier.
Open Scope Z_scope.
#[local] Set Warnings "-clear-no-such-hyp".

(** ** The clients *)

Fixpoint sections `{ExecSync} (mutex : Z) (k : nat) : prog pstate unit :=
  match k with
  | O => PRet tt
  | S k =>
      _ <~ pthread_mutex_lock mutex;
      _ <~ log Enter;
      _ <~ log Exit;
      _ <~ pthread_mutex_unlock mutex;
      sections mutex k
  end.
Definition is_enter (e : event) : bool := match e with Enter _ => true | _ => false end.
Definition is_exit (e : event) : bool := match e with Exit _ => true | _ => false end.

Inductive mphase := MOut | MHas | MIn.
Definition at_has (p : mphase) : Z := match p with MOut => 0 | _ => 1 end.
Definition at_in (p : mphase) : Z := match p with MIn => 1 | _ => 0 end.

Section Exclusion.
Context `{ExecSync} (L h kind : Z) (HL : L ≠ NULL) (Hh : h ≠ NULL) (Hkind : kind ≠ PTHREAD_MUTEX_ERRORCHECK).

Definition held_by (mo : option (nat * Z)) (γ : list mphase) : Prop :=
  (∀ t p, γ !! t = Some p → at_has p = 1 → mo = Some (t, 1)) ∧ (∀ t c, mo = Some (t, c) → ∃ p, γ !! t = Some p ∧ at_has p = 1) ∧
  total at_has γ = match mo with Some _ => 1 | None => 0 end.

Record MInv (σ : pstate) (γ : list mphase) : Prop := MkMInv {
  mi_all : ∃ inc r mo, mutexes σ !! L = Some (PMutex h kind inc) ∧ Sync.mutexes (view (px σ)) !! h = Some (Sync.Mutex r mo) ∧ held_by mo γ ∧
    count is_enter (events σ) = count is_exit (events σ) + total at_in γ
}.
(** A thread waits while another one has the mutex. *)
Definition mwait (t : nat) (σ : pstate) (γ : list mphase) : Prop := γ !! t = Some MOut ∧ 0 < total at_has γ.
#[local] Abbreviation safe := (safe MInv mwait).

Lemma held_keep mo γ t p p' : held_by mo γ → γ !! t = Some p → at_has p' = at_has p → held_by mo (<[t := p']> γ).
Proof.
  intros (H1 & H2 & H3) Ht He. split; [|split].
  - intros u q Hu Hq. apply (insert_cases _ _ _ _ _ _ Ht) in Hu as [[-> ->]|[Hne Hu]]; [apply (H1 t p); [done|by rewrite <- He]|by apply (H1 u q)].
  - intros u c Hu. destruct (H2 u c Hu) as (q & Hq & Hq'). destruct (decide (u = t)) as [->|Hne].
    + exists p'. split; [by eapply insert_same|]. congruence.
    + exists q. by rewrite insert_other.
  - rewrite (total_insert _ _ _ _ _ Ht), He. lia.
Qed.
Lemma held_take γ t p p' : held_by None γ → γ !! t = Some p → at_has p = 0 → at_has p' = 1 → held_by (Some (t, 1)) (<[t := p']> γ).
Proof.
  intros (H1 & H2 & H3) Ht Hp Hp'. split; [|split].
  - intros u q Hu Hq. apply (insert_cases _ _ _ _ _ _ Ht) in Hu as [[-> ->]|[Hne Hu]]; [done|]. by specialize (H1 u q Hu Hq).
  - intros u c [= <- <-]. exists p'. split; [by eapply insert_same|done].
  - rewrite (total_insert _ _ _ _ _ Ht), H3. lia.
Qed.
Lemma held_drop mo γ t p p' : held_by mo γ → γ !! t = Some p → at_has p = 1 → at_has p' = 0 → held_by None (<[t := p']> γ).
Proof.
  intros (H1 & H2 & H3) Ht Hp Hp'. pose proof (H1 t p Ht Hp) as Hmo. split; [|split; [done|]].
  - intros u q Hu Hq. apply (insert_cases _ _ _ _ _ _ Ht) in Hu as [[-> ->]|[Hne Hu]]; [lia|]. specialize (H1 u q Hu Hq). congruence.
  - rewrite (total_insert _ _ _ _ _ Ht), H3, Hmo. lia.
Qed.

Lemma safe_field {B : Set} n t (f : pthread_mutex_t → B) p (Q : B → mphase → Prop) : (∀ inc, Q (f (PMutex h kind inc)) p) → safe n t (load mutexes L f) p Q.
Proof.
  intros HQ. apply safe_act. intros σ γ HI Hg. pose proof HI as [(inc & r & mo & Hm & _)]. rewrite Hm. exists p. by rewrite list_insert_id.
Qed.
Lemma safe_ready n t p (Q : bool → mphase → Prop) : Q true p → safe n t (mutex_ready L) p Q.
Proof. intros HQ. apply safe_bind, safe_field. intros inc. cbn [m_mutex]. rewrite (proj2 (Z.eqb_neq _ _)) by done. by apply safe_ret. Qed.

Lemma safe_mutex_lock n t (Q : Z → mphase → Prop) : Q 0 MHas → safe n t (pthread_mutex_lock L) MOut Q.
Proof.
  intros HQ. unfold pthread_mutex_lock. rewrite (proj2 (Z.eqb_neq _ _)) by done. apply safe_bind, safe_ready. cbn [negb]. apply safe_bind, safe_field. intros inc.
  cbn [m_kind]. rewrite (proj2 (Z.eqb_neq _ _)) by done. apply safe_bind, safe_ret. cbn [negb]. apply safe_bind, safe_field. intros inc'. apply safe_bind, safe_act.
  intros σ γ HI Hg. destruct HI as [(i & r & mo & Hm & Hmo & Hheld & Hc)]. pose proof (MutexObtain_law t h (px σ)) as Hlaw. unfold Sync.obtain_mutex in Hlaw.
  cbn [m_mutex]. rewrite Hmo in Hlaw. destruct mo as [[u c]|].
  - assert (u ≠ t) as Hne. { intros ->. destruct Hheld as (_ & H2 & _). destruct (H2 t c eq_refl) as (p & Hp & Hp'). rewrite Hg in Hp. by injection Hp as <-. }
    rewrite bool_decide_false in Hlaw by done. cbn in Hlaw. destruct (MutexObtain t h (px σ)); [done| |done]. split; [done|]. destruct Hheld as (_ & _ & ->). lia.
  - destruct (MutexObtain t h (px σ)) as [[] x| |]; [|done..]. injection Hlaw as Hx. exists MHas. split; [|by apply safe_ret].
    split. exists i, r, (Some (t, 1)). cbn. rewrite Hx. cbn. rewrite lookup_insert_eq, (total_insert _ _ _ _ _ Hg). cbn. rewrite Z.sub_0_r, Z.add_0_r.
    do 2 (split; [done|]). split; [by eapply held_take|done].
Qed.
Lemma safe_mutex_unlock n t (Q : Z → mphase → Prop) : Q 0 MOut → safe n t (pthread_mutex_unlock L) MHas Q.
Proof.
  intros HQ. unfold pthread_mutex_unlock. rewrite (proj2 (Z.eqb_neq _ _)) by done. apply safe_bind, safe_ready. cbn [negb]. apply safe_bind, safe_field. intros inc.
  apply safe_bind, safe_act. intros σ γ HI Hg. destruct HI as [(i & r & mo & Hm & Hmo & Hheld & Hc)]. pose proof (MutexRelease_law t h (px σ)) as Hlaw.
  unfold Sync.release_mutex in Hlaw. cbn [m_mutex]. rewrite Hmo in Hlaw. pose proof Hheld as (H1 & _ & _). rewrite (H1 t _ Hg eq_refl) in *.
  rewrite bool_decide_true in Hlaw by done. cbn in Hlaw. destruct (MutexRelease t h (px σ)) as [[] x| |]; [|done..]. injection Hlaw as Hx. exists MOut. split; [|by apply safe_ret].
  split. exists i, r, None. cbn. rewrite Hx. cbn. rewrite lookup_insert_eq, (total_insert _ _ _ _ _ Hg). cbn. rewrite Z.sub_0_r, Z.add_0_r.
  do 2 (split; [done|]). split; [by eapply held_drop|done].
Qed.
Lemma safe_mutex_log n t e p p' (Q : unit → mphase → Prop) :
  at_has p' = at_has p → b2z (is_enter (e t)) - b2z (is_exit (e t)) = at_in p' - at_in p → Q tt p' → safe n t (log e) p Q.
Proof.
  intros E1 E2 HQ. apply safe_act. intros σ γ HI Hg. destruct HI as [(i & r & mo & Hm & Hmo & Hheld & Hc)]. exists p'. split; [|done].
  split. exists i, r, mo. cbn. rewrite (total_insert _ _ _ _ _ Hg). do 2 (split; [done|]). split; [by eapply held_keep|lia].
Qed.
Lemma safe_sections n t k : safe n t (sections L k) MOut (fun _ p => p = MOut).
Proof.
  induction k as [|k IH]; cbn [sections]; [by apply safe_ret|]. apply safe_bind, safe_mutex_lock, safe_bind. apply (safe_mutex_log _ _ _ _ MIn); [done..|].
  apply safe_bind. apply (safe_mutex_log _ _ _ _ MHas); [done..|]. apply safe_bind, safe_mutex_unlock, IH.
Qed.

Lemma mutex_reach ks σ σ' ps n inc r : mutexes σ !! L = Some (PMutex h kind inc) → Sync.mutexes (view (px σ)) !! h = Some (Sync.Mutex r None) → events σ = [] →
  reachable outside (σ, sections L <$> ks) (σ', ps) → ∃ γ, MInv σ' γ ∧ all_safe MInv mwait n ps γ (fun _ _ p => p = MOut).
Proof.
  intros Hm Hmo He Hr. eapply (adequacy MInv mwait outside _ (fun _ _ p => p = MOut) _ _ Hr). intros k. exists (replicate (length ks) MOut).
  assert (∀ f : mphase → Z, f MOut = 0 → total f (replicate (length ks) MOut) = 0) as Hz by (intros f Hf; apply total_zero; by intros p [-> _]%elem_of_replicate).
  split; cbn [fst snd].
  - split. exists inc, r, None. rewrite He, Hz by done. do 2 (split; [done|]). split; [|done]. split; [|split; [done|by apply Hz]]. by intros t p [-> _]%lookup_replicate.
  - split; [by rewrite length_fmap, length_replicate|]. intros t p g (j & -> & _)%list_lookup_fmap_Some [-> _]%lookup_replicate. apply safe_sections.
  Unshelve. intros σ1 τ γ (u & m & ->) [(i & r1 & mo & H1 & H2 & H3)]. split. exists i, r1, mo. cbn. by rewrite Signal_law.
Qed.
End Exclusion.

(** ** Theorems *)

(** C21: Critical sections under a mutex that has been initialised and is not of the
    error-checking kind: in every interleaving at most one thread is in its section, and
    when no thread can make a step all have ended. *)
Theorem mutex_excludes `{ExecSync} L h kind inc r ks σ σ' ps :
  L ≠ NULL → h ≠ NULL → kind ≠ PTHREAD_MUTEX_ERRORCHECK → mutexes σ !! L = Some (PMutex h kind inc) →
  Sync.mutexes (view (px σ)) !! h = Some (Sync.Mutex r None) → events σ = [] → reachable outside (σ, sections L <$> ks) (σ', ps) →
  0 <= count is_enter (events σ') - count is_exit (events σ') <= 1 ∧ (stuck (σ', ps) → ∀ p, p ∈ ps → p = PRet tt).
Proof.
  intros HL Hh Hk Hm Hmo He Hr. destruct (mutex_reach L h kind HL Hh Hk ks σ σ' ps 1 inc r Hm Hmo He Hr) as (γ & HI & Hs).
  pose proof HI as [(i & r' & mo & _ & _ & (H1 & H2 & H3) & Hc)]. split.
  - rewrite Hc. assert (total at_in γ <= total at_has γ) by (apply total_mono; by intros []). assert (0 <= total at_in γ) by (apply total_nonneg; by intros []).
    rewrite H3 in *. destruct mo; lia.
  - intros Hst.
    assert (∀ t p g, ps !! t = Some p → γ !! t = Some g → g = MOut ∧ (p = PRet tt ∨ 0 < total at_has γ)) as Hcase.
    { intros t p g Hp Hg. destruct (safe_now _ _ _ _ _ _ _ _ _ HI Hs Hp Hg) as [([] & -> & ->)|[_ [(p' & τ & Hgo)|[_ [Hw1 Hw2]]]]]; [auto| |].
      - exfalso. by eapply Hst.
      - rewrite Hw1 in Hg. injection Hg as <-. auto. }
    assert (total at_has γ = 0) as H0.
    { apply total_zero. intros g [t Hg]%list_elem_of_lookup. destruct (lookup_lt_is_Some_2 ps t) as [p Hp]; [destruct Hs as [<- _]; by eapply lookup_lt_Some|].
      by destruct (Hcase t p g Hp Hg) as [-> _]. }
    intros p [t Hp]%list_elem_of_lookup. destruct (lookup_lt_is_Some_2 γ t) as [g Hg]; [destruct Hs as [-> _]; by eapply lookup_lt_Some|].
    destruct (Hcase t p g Hp Hg) as [_ [|]]; [done|lia].
Qed.

(** Two threads with two sections each. *)
Definition mutex_state : pstate := after (pthread_mutex_init 124 None) raw_state.
Definition two_sections (n : nat) : pool (S := pstate) unit := round_robin n 0 (mutex_state, sections 124 <$> [2; 2]%nat).
Lemma mutex_excludes_witness :
  0 <= count is_enter (events (two_sections 45).1) - count is_exit (events (two_sections 45).1) <= 1 ∧ ∀ p, p ∈ (two_sections 400).2 → p = PRet tt.
Proof.
  split.
  - edestruct (mutex_excludes 124 4096 0 0 false [2; 2]%nat mutex_state (two_sections 45).1 (two_sections 45).2) as [H1 _];
      [done|done|done|by vm_compute|by vm_compute|by vm_compute|rewrite <- surjective_pairing; apply round_robin_reachable|exact H1].
  - edestruct (mutex_excludes 124 4096 0 0 false [2; 2]%nat mutex_state (two_sections 400).1 (two_sections 400).2) as [_ H2];
      [done|done|done|by vm_compute|by vm_compute|by vm_compute|rewrite <- surjective_pairing; apply round_robin_reachable|].
    apply H2, stuckb_stuck. by vm_compute.
Defined.

(** The mutex of [raw_state] has a static initialiser. *)
Definition both_first : list nat := replicate 2 0%nat ++ replicate 2 1%nat ++ replicate 20 0%nat ++ replicate 20 1%nat.

(** C39: A mutex with a static initialiser: two threads that lock it first at the same time
    both find it without a mutex of exec and allocate one each, and both are in their
    critical sections. *)
Theorem static_mutex_race :
  ∃ ρ, run_schedule both_first (raw_state, sections 124 <$> [1; 1]%nat) = Some ρ ∧ reachable outside (raw_state, sections 124 <$> [1; 1]%nat) ρ ∧
    events ρ.1 = [Enter 1; Enter 0].
Proof.
  assert (events ∘ fst <$> run_schedule both_first (raw_state, sections 124 <$> [1; 1]%nat) = Some [Enter 1; Enter 0]) as Hev by by vm_compute.
  apply fmap_Some in Hev as (ρ & Hρ & Hev). exists ρ. split; [done|]. split; [by eapply run_schedule_reachable|done].
Qed.

(** An error-checking mutex that another thread has: [pthread_mutex_lock] does not wait
    but fails with [EDEADLK], and leaves exec as it was. *)
Theorem errorcheck_lock_fails `{ExecSync} L h inc r u c t σ :
  L ≠ NULL → h ≠ NULL → mutexes σ !! L = Some (PMutex h PTHREAD_MUTEX_ERRORCHECK inc) →
  Sync.mutexes (view (px σ)) !! h = Some (Sync.Mutex r (Some (u, c))) → u ≠ t →
  ∃ x, runs t σ (pthread_mutex_lock L) EDEADLK (with_px x σ) ∧ view x = view (px σ).
Proof.
  intros HL Hh Hm Hmo Hu. pose proof (MutexAttempt_law t h (px σ)) as Hlaw. unfold Sync.attempt_mutex, Sync.obtain_mutex in Hlaw.
  rewrite Hmo, bool_decide_false in Hlaw by done. cbn in Hlaw. destruct (MutexAttempt t h (px σ)) as [b x| |] eqn:Ea; [|done..]. injection Hlaw as -> Hx.
  exists x. split; [|done]. unfold pthread_mutex_lock. rewrite (proj2 (Z.eqb_neq _ _)) by done.
  eapply runs_bind; [eapply runs_bind; [by apply runs_act; rewrite Hm|]; cbn [m_mutex]; rewrite (proj2 (Z.eqb_neq _ _)) by done; apply runs_ret|].
  cbn [negb]. eapply runs_bind; [by apply runs_act; rewrite Hm|]. cbn [m_kind Z.eqb PTHREAD_MUTEX_ERRORCHECK].
  eapply runs_bind; [eapply runs_bind; [by apply runs_act; rewrite Hm|]; eapply runs_bind; [by apply runs_act; cbn; rewrite Ea|]; apply runs_ret|]. apply runs_ret.
Qed.
Definition errorcheck_state : pstate := after (_ <~ pthread_mutex_init 124 (Some PTHREAD_MUTEX_ERRORCHECK); pthread_mutex_lock 124) raw_state.
Lemma errorcheck_lock_fails_witness : ∃ x, runs 1 errorcheck_state (pthread_mutex_lock 124) EDEADLK (with_px x errorcheck_state).
Proof.
  destruct (errorcheck_lock_fails 124 4096 0 false 0 1 1 errorcheck_state) as (x & H1 & _); [done|done|by vm_compute|by vm_compute|done|]. exists x. exact H1.
Defined.
